(* ===== verification/_CoqProject ===== *)
-Q . S2P
Prelude.v
Assoc.v
Location.v
CacheRanges.v
CacheState.v
CacheObject.v
CacheEvict.v
CacheInv.v
CacheSafety.v
CacheWrite.v
CachePins.v
CacheAlloc.v
CacheWriteback.v
CacheSystem.v
CacheMachine.v
CacheIterator.v
CacheFetchWriteback.v
CacheWitness.v
CacheFetch.v
CacheFetchTheorems.v
CacheFetchCover.v
NamespaceTree.v
NamespaceInv.v
NamespaceSpec.v
NamespaceRoutes.v
NamespaceTheorems.v
NamespaceLookup.v
RelayNamespaces.v
RelayTree.v
RelayTold.v
RelayInv.v
RelayRoutes.v
RelaySubscribe.v
RelaySystem.v
RelayNsTheorems.v
CborReader.v
Auth.v
AuthTheorems.v
AuthIssuer.v
AuthParse.v
AuthWitness.v
SafeTrackName.v
Ranking.v
RankingInv.v
RankingSpec.v
RankingViewers.v
RankingRun.v
RankingTheorems.v
RankingPublishers.v
ServiceMatcher.v
ServiceTheorems.v
ConfigTypes.v
SessionSetup.v
ConfigResolve.v
ConfigValid.v
ConfigSound.v
ConfigTheorems.v
ConfigSerializer.v
ConfigDump.v
Rendezvous.v
Promise.v
TopN.v
Registry.v
RegistryRelay.v
RegistryInv.v
RegistryTheorems.v
RelayRequests.v
RelayRequestsInv.v
RelayRequestsTheorems.v
TrackFilterRun.v
Ingest.v
LocalRegistry.v
LocalTheorems.v
LocalSetup.v
LocalSetupTheorems.v
UpstreamProvider.v
UpstreamTheorems.v
CrossExec.v
CrossExecTheorems.v
CrossExecWindow.v
