(* ===== verification/Prelude.v ===== *)
(** * moqx: a verification of the relay's core

    moqx is a relay for Media over QUIC: publishers announce namespaces and
    publish tracks (groups of objects), subscribers receive them live or fetch
    what was sent before.  This library models, from the C++ sources under
    src/src, the parts that hold the relay's own state and decisions, and proves
    what makes them correct.

    ** Parts and how they interact

    - The relay (MoqxRelay.h, MoqxRelay.cpp) handles the requests of the sessions.
      It keeps the namespace trees (NamespaceTree.cpp: announcements with their
      routes, published tracks, namespace subscribers), the registry of the tracks
      it serves (SubscriptionRegistry.cpp) and the subscribes that wait for a
      publisher (PendingRendezvousTree.cpp).  A SUBSCRIBE joins the entry of its
      track or creates it and goes upstream along a route; a PUBLISH takes the
      entry over and is fanned out to the subscribers of its namespace; an
      announcement is advertised to namespace subscribers and wakes the subscribes
      that wait for it.
    - On the chain of a track sit filters that watch a property of its objects
      (relay/TopNFilter.cpp) and drive a ranking (relay/PropertyRanking.cpp), which
      selects the best N tracks for the subscribers that asked for them, and the
      ingest counters.  The forwarders of one thread are in a registry of that
      thread (relay/LocalForwarderRegistry.h); calls between threads go through
      filters that post them on the target executor (relay/CrossExecFilter.cpp).
    - The object cache (MoqxCache.h, MoqxCache.cpp).  A subscription to a track
      passes through a subscribe writeback, which opens a subgroup writeback per
      subgroup; they cache each object and forward it.  A fetch walks a range of
      locations with an iterator, serves what is cached, and for what is missing
      opens an upstream fetch whose fetch writeback caches the response and marks
      what does not exist as gaps.  Groups in use are pinned; the others are in
      LRU lists and are evicted by limits on tracks, groups and bytes.
    - Links to upstream relays (UpstreamProvider.cpp) connect on demand and again
      when they are lost.
    - A session is admitted for the service that matches its authority and path
      (ServiceMatcher.cpp, MoqxRelayContext.cpp); its requests pass authorization
      (relay/AuthFilters.cpp, auth/): they are let through when a grant of the
      session, a static claim or a token of the request covers them.  Tokens are
      decoded with a small CBOR reader and issued by a separate tool.
    - The configuration (config/) is validated, resolved and dumped.
    - Printable names (SafeTrackName.cpp) are for labels and file names.

    ** Files

    - [Prelude]: fallible results ([folly::Expected]), 64-bit integers, the state
      monad [M] in which [None] is a failed [XCHECK] or a null dereference, total
      correctness triples [spec], sums over finite maps, the hint database.
      [Assoc]: hash maps whose order of iteration matters.  [Promise]: shared
      promises and their futures.
    - [Location]: moxygen's [AbsoluteLocation] and [LocationIntervalSet], which
      are not part of the sources, as classes ([LocationApi], [IntervalSetApi])
      with the laws the cache relies on, and reference instances.
    - Cache, operations.  [CacheRanges]: the interval arithmetic of fetches.
      [CacheState]: entries, groups, tracks and the cache as records over a store
      of references (a group or track stays alive while a writeback holds it,
      also after it is evicted).  [CacheObject]: writing one object or chunk, gap
      extensions, lookup.  [CacheEvict]: LRU lists, pins, eviction, purging,
      limits, durations.  [CacheWriteback]: subscribe and subgroup writebacks.
      [CacheIterator]: [FetchRangeIterator].  [CacheFetchWriteback]:
      [FetchWriteback].  [CacheFetch]: the fetch coroutines, each a frame and a
      step from one suspension point to the next.
    - Cache, proofs.  [CacheInv], [CacheSafety], [CacheWrite], [CachePins],
      [CacheAlloc], [CacheSystem]: the store invariant and that each operation
      keeps it, with the contracts that combine several operations in
      [CacheAlloc].  [CacheMachine]: the cache with its open writebacks, driven by
      any sequence of calls.  [CacheFetchTheorems], [CacheFetchCover]: what a fetch
      delivers.  [CacheWitness]: the theorems at concrete states.
    - Namespace tree.  [NamespaceTree]: the tree as a finite map from paths
      (innermost element first) to nodes, every operation.  [NamespaceInv]: child
      counts and pruning.  [NamespaceSpec], [NamespaceRoutes]: the abstract tree,
      the update of each operation and the invariant on routes.
      [NamespaceTheorems]: the refinement.  [NamespaceLookup]: lookups.
    - Relay, namespaces.  [RelayNamespaces]: the handlers; the messages they send
      are the actions they return.  [RelayTree], [RelayTold], [RelayInv],
      [RelayRoutes], [RelaySubscribe], [RelaySystem]: the system of the handlers,
      what each subscriber has been told, and the invariant.  [RelayNsTheorems]:
      what every run guarantees.
    - Relay, tracks.  [TopN]: the property filter.  [Registry]: the subscription
      registry.  [RegistryRelay]: the relay's handlers on it.  [RegistryInv],
      [RegistryTheorems]: its invariant and guarantees.  [Ingest]: the counters.
      [Rendezvous]: the tree of parked subscriptions.
    - Relay, requests.  [RelayRequests]: the coroutines of SUBSCRIBE, FETCH and
      TRACK_STATUS and the handler of PUBLISH on one state made of [RelaySystem],
      [RegistryRelay] and [Rendezvous], with the calls the parts make on each
      other.  [RelayRequestsInv], [RelayRequestsTheorems]: the invariant of the
      whole relay and what every run guarantees.
    - Ranking.  [Ranking]: the whole class.  [RankingInv], [RankingSpec]: the
      ranking as a sorted list.  [RankingViewers], [RankingRun],
      [RankingTheorems]: subscribers that publish nothing.  [RankingPublishers]:
      those that publish.  [TrackFilterRun]: filters and ranking together.
    - Executors.  [LocalRegistry], [LocalTheorems]: the registry of one thread.
      [LocalSetup], [LocalSetupTheorems]: the coroutines of a thread on it, in the
      mode with a forwarder per thread; the answers of other executors are inputs.
      [CrossExec], [CrossExecTheorems], [CrossExecWindow]: the filters between
      executors.
    - Links.  [UpstreamProvider], [UpstreamTheorems].
    - Authorization.  [CborReader]: the decoder and the format it accepts.
      [Auth]: grants, rules, verification, decisions.  [AuthTheorems]: the
      decisions and the strict check on claims.  [AuthIssuer], [AuthParse]:
      issuing and the round trip, the arguments of the tool.  [AuthWitness]:
      concrete tokens over a reference instance of the token library.
    - Sessions.  [ServiceMatcher], [ServiceTheorems]: the choice of a service.
      [SessionSetup]: admission and the authorization filters together.
    - Configuration.  [ConfigTypes]: the parsed and the resolved form.
      [ConfigResolve]: the resolver.  [ConfigValid], [ConfigSound],
      [ConfigTheorems]: what it accepts.  [ConfigSerializer], [ConfigDump]: the
      dump.
    - [SafeTrackName]: printing and parsing names.

    ** What the theorems show

    - Whole relay: over any interleaving of announcements, withdrawals, namespace
      and track subscriptions, publishes, objects and ends of tracks with the
      request coroutines nothing aborts; a subscribe in flight has one request
      that settles it, and later subscribers wait for such a one only; a parked
      SUBSCRIBE is signalled as soon as there is a publisher for it; a request of a
      cluster peer is not served through that peer.
    - Namespaces: the tree refines the abstract tree, so pruning is invisible and
      no check on the counts fails; the session found is the best admitted route
      of the longest prefix with routes; what a subscriber has been told is
      exactly what the tree allows; paths are free of loops; the limit on matches
      is enforced exactly; a published track reaches its subscribers.
    - Registry: nothing aborts, no subscriber waits for nothing, an answer from
      upstream completes only the entry that asked; the same for the registry of a
      thread.  Parked subscriptions behave as a list of waiters.
    - Ranking: a subscriber that publishes nothing is delivered exactly the N
      tracks with the highest latest value, as long as the ranking keeps no
      deselected queue, a name is published again only after its end, and no track
      is without objects for longer than the idle timeout; one that publishes has
      the first N of the others selected, as long as no track ends and N is at
      least 1.
    - Threads: over any interleaving of the coroutines of a thread the only abort
      is the replay of a setup's events to a publisher that was not reached (the
      relay's answer has neither error nor callback); otherwise every setup in
      progress has a coroutine that owes its end, waiting requests wait for such a
      setup, and what subscribers ask during a setup that reaches its publisher is
      told to the publisher's side.
    - Executors: no closure runs on a filter that is gone, none is left behind;
      the calls a consumer gets are the calls its source made, as the events of
      the source say, in order; the payload on the way is bounded but for the call
      that ends a fetch; once an error is visible each call of the source, the
      waits included, returns it; an executor without new calls runs out of
      closures.
    - Links: no crash, one attempt at a time, no request left waiting, as long as
      no session ends during its handshake.  The pauses of any run are those due:
      one second, doubled with each failure in a row, at most one minute.
    - Cache: from an empty cache any sequence of calls runs without a failed check
      or dangling reference, with exact byte counters and consistent lists; when
      every writeback is closed nothing stays pinned or unlisted, so that any byte
      limit can be enforced; byte-limit eviction reaches
      its watermark unless nothing evictable is left; chunks of copies of an
      object in any order leave a prefix of it.
    - Fetch, in ascending order: a range the cache knows is served from it, each
      object once and in order; otherwise every position is served, requested or
      known to be empty, in order and without overlap, as long as what the fetch
      holds stays in place.
    - Authorization: a request is let through exactly when a grant covers it, a
      verified token is signed with a configured key and unexpired, rules on
      canonical bytes are rules on segments, an issued token is accepted for what
      it was issued for; a request of an admitted session reaches the relay only
      through these decisions (a REQUEST_UPDATE goes through the handle of its
      request, passes no filter and is not among the requests).
    - Configuration: the resolver never throws and accepts only configurations in
      which everything later code relies on holds; the most specific match entry
      wins; the dump shows everything but secrets.
    - Names: printed names are read back, but for the namespace of one empty tuple,
      which prints like the empty namespace.
    - Some theorems state behaviours that differ from what the code means to do:
      descending fetches (the tail skips group 0 or overfetches, walks leave a
      group at a gap or go back), a fetch whose held group is evicted, a FETCH
      refused while the first SUBSCRIBE of its track is in flight, a SUBSCRIBE
      accepted on a thread although no publisher was reached, the late end of
      a replaced publisher, a republished track that its TRACK_FILTER subscribers
      lose, a session that ends during the handshake of a link, a filter left
      behind after an error, a node of the namespace tree that is never pruned,
      the suffix rule on namespaces, the length of a CBOR map on 64 bits.

    ** Bounds and fuel

    Loops without a structural measure take fuel, with the bound in the
    definition: [it_skipGaps_loop] twice the number of gap intervals (a round
    leaves its interval and returns to it at most once), eviction loops the
    length of the list they shorten, [enforceGapLimit_loop] the number of gaps,
    [skip_fuel] twice the bytes left plus one (each item takes a byte; the
    equations [skip_eq] and [skipN_eq] show the fuel is enough), [claimsLoop]
    three rounds (two claims may be seen), the walk over a subtree of namespaces
    the number of nodes.  In the state monad running out of fuel is an abort, and
    the safety theorems show that it does not happen.  The fetch theorem gives the
    fuel with which the coroutine ends.  An executor is idle after two closures
    for each one that waits.  Counters of 64 bits are kept at their width, but
    for the sequence numbers of routes and the references that stand for pointers,
    which are unbounded; the theorems on runs that number things (epochs, requests, generations) are for
    runs of fewer than 2^64 operations, those on bytes for contents below 2^64.

    ** Not modelled

    - In the relay: the handshake of an upstream connection, which issues requests
      of the relay on a new session, and the bridge of a peer's namespaces; fills;
      statistics.  Local forwarders are modelled per thread, with the relay's part
      of a subscribe; the interleaving of several threads is in the inputs.
    - The wrappers that run one call of a publisher, subscriber or handle on
      another executor: they have no state of their own.
    - Admin server, servers and process start, statistics and logging, reading the
      configuration file: input and output, and calls of libraries.
    - Library code (moxygen, folly, catapult, rfl) is a parameter: a class of
      operations with the laws that are relied on, an input of a step, or an
      event.  Sessions, consumers, forwarders and callbacks are references.  The
      clock is an argument.  The order in which a hash map is visited is that of
      the finite map, or of an association list where it matters. *)

From stdpp Require Export base option list sorting gmap strings.
From Stdlib Require Export ZArith Lia.

#[global] Open Scope Z_scope.

(** ** Fallible code

    [result E A] is the model of [folly::Expected<A, E>] (and of a function
    that returns a value or throws an [E]). *)
Inductive result (E A : Type) : Type :=
| Ok (a : A)
| Err (e : E).
Arguments Ok {E A} a.
Arguments Err {E A} e.

#[global] Instance result_ret E : MRet (result E) := fun A a => Ok a.
#[global] Instance result_bind E : MBind (result E) := fun A B f m =>
  match m with Ok a => f a | Err e => Err e end.
#[global] Instance result_fmap E : FMap (result E) := fun A B f m =>
  match m with Ok a => Ok (f a) | Err e => Err e end.

Definition is_Ok {E A} (r : result E A) : bool :=
  match r with Ok _ => true | Err _ => false end.

(** ** Machine integers

    Unsigned [w]-bit values are integers in [0, 2^w); every operation of the
    source that can leave that range is written with the wrap-around of C++
    unsigned arithmetic. *)
Definition u64_modulus : Z := 2 ^ 64.
Definition u64 (z : Z) : Z := z `mod` u64_modulus.
(** Signed 64-bit values, in two's complement. *)
Definition s64 (z : Z) : Z := (z + 2 ^ 63) `mod` 2 ^ 64 - 2 ^ 63.
Definition u64_ok (z : Z) : Prop := 0 <= z < u64_modulus.

(** ** Stateful code

    [M S A] is a computation on a store [S].  [None] is a failed [XCHECK] or
    the dereference of a null pointer or empty optional: the process aborts. *)
Definition M (S A : Type) : Type := S -> option (A * S).

#[global] Instance M_ret S : MRet (M S) := fun A a s => Some (a, s).
#[global] Instance M_bind S : MBind (M S) := fun A B f m s =>
  match m s with Some (a, s') => f a s' | None => None end.

Definition get {S} : M S S := fun s => Some (s, s).
Definition gets {S A} (f : S -> A) : M S A := fun s => Some (f s, s).
Definition modify {S} (f : S -> S) : M S unit := fun s => Some (tt, f s).
Definition abort {S A} : M S A := fun _ => None.
Definition xcheck {S} (b : bool) : M S unit := if b then mret tt else abort.
Definition deref {S A} (o : option A) : M S A :=
  match o with Some a => mret a | None => abort end.

(** Total correctness: from a store that satisfies [P] the computation does not
    abort, and its result and final store satisfy [Q]. *)
Definition spec {S A} (P : S -> Prop) (m : M S A) (Q : A -> S -> Prop) : Prop :=
  forall s, P s -> exists a s', m s = Some (a, s') /\ Q a s'.

(** ** Automation *)
Create HintDb moqx discriminated.

(** Case analysis on the boolean tests of the code; [lia] then reads the
    recorded equations. *)
Ltac case_test :=
  match goal with
  | |- context [if ?b then _ else _] => let E := fresh "Eb" in destruct b eqn:E
  end.
Ltac case_test_in H :=
  match type of H with
  | context [if ?b then _ else _] => let E := fresh "Eb" in destruct b eqn:E
  end.

(** ** The rules of the specification triples *)
Section spec_rules.
Context {S : Type}.

Lemma spec_ret {A} (P : S -> Prop) (a : A) (Q : A -> S -> Prop) :
  (forall s, P s -> Q a s) -> spec P (mret a) Q.
Proof. intros H s Hs. exists a, s. split; [done|by apply H]. Qed.

Lemma spec_bind {A B} (P : S -> Prop) (R : A -> S -> Prop) (Q : B -> S -> Prop)
    (m : M S A) (k : A -> M S B) :
  spec P m R -> (forall a, spec (R a) (k a) Q) -> spec P (m ≫= k) Q.
Proof.
  intros Hm Hk s Hs. destruct (Hm s Hs) as (a & s' & E & HR).
  destruct (Hk a s' HR) as (b & s'' & E' & HQ). exists b, s''.
  split; [|done]. unfold mbind, M_bind. by rewrite E.
Qed.

Lemma spec_conseq {A} (P P' : S -> Prop) (Q Q' : A -> S -> Prop) (m : M S A) :
  spec P' m Q' -> (forall s, P s -> P' s) -> (forall a s, Q' a s -> Q a s) -> spec P m Q.
Proof. intros Hm HP HQ s Hs. destruct (Hm s (HP s Hs)) as (a & s' & E & HR). eauto. Qed.

Lemma spec_gets {A} (P : S -> Prop) (f : S -> A) (Q : A -> S -> Prop) :
  (forall s, P s -> Q (f s) s) -> spec P (gets f) Q.
Proof. intros H s Hs. exists (f s), s. split; [done|by apply H]. Qed.

Lemma spec_modify (P : S -> Prop) (f : S -> S) (Q : unit -> S -> Prop) :
  (forall s, P s -> Q tt (f s)) -> spec P (modify f) Q.
Proof. intros H s Hs. exists tt, (f s). split; [done|by apply H]. Qed.

Lemma spec_xcheck (P : S -> Prop) (b : bool) (Q : unit -> S -> Prop) :
  (forall s, P s -> b = true) -> (forall s, P s -> Q tt s) -> spec P (xcheck b) Q.
Proof. intros Hb HQ s Hs. rewrite (Hb s Hs). exists tt, s. split; [done|by apply HQ]. Qed.

Lemma spec_if {A} (P : S -> Prop) (b : bool) (m m' : M S A) (Q : A -> S -> Prop) :
  (b = true -> spec P m Q) -> (b = false -> spec P m' Q) -> spec P (if b then m else m') Q.
Proof. destruct b; auto. Qed.

(** A fact that does not depend on the store can be moved out of the precondition. *)
Lemma spec_pure {A} (F : Prop) (P : S -> Prop) (m : M S A) (Q : A -> S -> Prop) :
  (F -> spec P m Q) -> spec (fun s => F /\ P s) m Q.
Proof. intros H s [HF Hs]. by apply H. Qed.
End spec_rules.

(** ** Integers *)
Lemma u64_small z : u64_ok z -> u64 z = z.
Proof. unfold u64, u64_ok. intros H. apply Z.mod_small. exact H. Qed.

Lemma s64_small z : - 2 ^ 63 <= z < 2 ^ 63 -> s64 z = z.
Proof. unfold s64. intros H. rewrite Z.mod_small; lia. Qed.

Lemma u64_range z : u64_ok (u64 z).
Proof. unfold u64, u64_ok, u64_modulus. apply Z.mod_pos_bound. lia. Qed.

#[export] Hint Resolve u64_range : moqx.

(** ** Lists *)
Lemma existsb_Exists {A} (f : A -> bool) l :
  existsb f l = true <-> Exists (fun x => f x = true) l.
Proof. rewrite List.existsb_exists, Exists_exists. setoid_rewrite list_elem_of_In. done. Qed.

Lemma existsb_false {A} (f : A -> bool) l :
  existsb f l = false <-> Forall (fun x => f x = false) l.
Proof.
  rewrite <- Bool.not_true_iff_false, existsb_Exists, <- Forall_Exists_neg.
  apply Forall_iff. intros x. by rewrite Bool.not_true_iff_false.
Qed.

(** [sumZ f l] is the sum of [f] over [l]. *)
Definition sumZ {A} (f : A -> Z) (l : list A) : Z := foldr (fun x acc => f x + acc) 0 l.

Lemma sumZ_app {A} (f : A -> Z) l k : sumZ f (l ++ k) = sumZ f l + sumZ f k.
Proof. induction l as [|x l IH]; simpl; [done|]. rewrite IH. lia. Qed.

Lemma sumZ_nonneg {A} (f : A -> Z) l : Forall (fun x => 0 <= f x) l -> 0 <= sumZ f l.
Proof. induction 1; simpl; lia. Qed.

Lemma sumZ_perm {A} (f : A -> Z) l k : l ≡ₚ k -> sumZ f l = sumZ f k.
Proof. induction 1; simpl; lia. Qed.

(** Sum of a function over the values of a finite map. *)
Definition map_sumZ {K V} `{Countable K} (f : V -> Z) (m : gmap K V) : Z :=
  sumZ (fun kv => f kv.2) (map_to_list m).

Section map_sum.
Context {K V : Type} `{Countable K} (f : V -> Z).
Implicit Types m : gmap K V.

Lemma map_sumZ_empty : map_sumZ f (∅ : gmap K V) = 0.
Proof. unfold map_sumZ. by rewrite map_to_list_empty. Qed.

Lemma map_sumZ_insert_new m k v :
  m !! k = None -> map_sumZ f (<[k:=v]> m) = f v + map_sumZ f m.
Proof.
  intros Hk. unfold map_sumZ.
  by rewrite (sumZ_perm _ _ _ (map_to_list_insert m k v Hk)).
Qed.

Lemma map_sumZ_delete m k v :
  m !! k = Some v -> map_sumZ f m = f v + map_sumZ f (delete k m).
Proof.
  intros Hk. rewrite <- (insert_delete_id m k v Hk) at 1.
  apply map_sumZ_insert_new, lookup_delete_eq.
Qed.

Lemma map_sumZ_insert m k v v' :
  m !! k = Some v -> map_sumZ f (<[k:=v']> m) = f v' - f v + map_sumZ f m.
Proof.
  intros Hk. rewrite <- insert_delete_eq, map_sumZ_insert_new, (map_sumZ_delete m k v Hk).
  - lia.
  - apply lookup_delete_eq.
Qed.

Lemma map_sumZ_nonneg m : map_Forall (fun _ v => 0 <= f v) m -> 0 <= map_sumZ f m.
Proof.
  intros Hm. apply sumZ_nonneg, Forall_forall. intros [k v] Hin.
  apply elem_of_map_to_list in Hin. by apply (Hm k v).
Qed.

Lemma map_sumZ_lookup_le m k v :
  map_Forall (fun _ v => 0 <= f v) m -> m !! k = Some v -> f v <= map_sumZ f m.
Proof.
  intros Hm Hk. rewrite (map_sumZ_delete m k v Hk).
  pose proof (map_sumZ_nonneg (delete k m) (map_Forall_delete _ _ _ Hm)). lia.
Qed.
End map_sum.

Lemma map_sumZ_ext {K V} `{Countable K} (f g : V -> Z) (m : gmap K V) :
  (forall k v, m !! k = Some v -> f v = g v) -> map_sumZ f m = map_sumZ g m.
Proof.
  intros Hfg. unfold map_sumZ.
  assert (Hl : forall k v, (k, v) ∈ map_to_list m -> f v = g v).
  { intros k v Hin. apply elem_of_map_to_list in Hin. by apply (Hfg k). }
  induction (map_to_list m) as [|[k v] l IH]; simpl; [done|].
  rewrite (Hl k v), IH; [done| |apply list_elem_of_here].
  intros k' v' Hin. apply (Hl k'). by apply list_elem_of_further.
Qed.

(** The sums of two functions that differ at one key only. *)
Lemma map_sumZ_change {K V} `{Countable K} (f g : V -> Z) (m : gmap K V) k0 v0 :
  m !! k0 = Some v0 ->
  (forall k v, m !! k = Some v -> k <> k0 -> f v = g v) ->
  map_sumZ g m = map_sumZ f m + (g v0 - f v0).
Proof.
  intros Hk Hfg. rewrite !(map_sumZ_delete _ m k0 v0 Hk).
  rewrite (map_sumZ_ext g f (delete k0 m)); [lia|].
  intros k v. rewrite lookup_delete_Some. intros [Hne Hv]. symmetry. by apply (Hfg k).
Qed.
