(* ===== verification/Assoc.v ===== *)
(** Association lists: the hash maps the code iterates over, as the list of
    their bindings in the (unspecified) order of iteration. *)

From S2P Require Import Prelude.

Fixpoint assoc {K A} `{EqDecision K} (k : K) (l : list (K * A)) : option A :=
  match l with
  | [] => None
  | (k', a) :: r => if bool_decide (k = k') then Some a else assoc k r
  end.
Fixpoint assoc_set {K A} `{EqDecision K} (k : K) (a : A) (l : list (K * A)) : list (K * A) :=
  match l with
  | [] => [(k, a)]
  | (k', a') :: r => if bool_decide (k = k') then (k, a) :: r else (k', a') :: assoc_set k a r
  end.
Definition assoc_erase {K A} `{EqDecision K} (k : K) (l : list (K * A)) : list (K * A) :=
  filter (fun p => p.1 <> k) l.

Section assoc.
Context {K A : Type} `{EqDecision K}.
Implicit Types (l : list (K * A)).

Lemma assoc_elem k a l : NoDup (map fst l) -> assoc k l = Some a <-> (k, a) ∈ l.
Proof.
  induction l as [|[k' a'] l IH]; cbn; [by rewrite elem_of_nil|].
  intros [Hk Hn]%NoDup_cons. rewrite elem_of_cons. case_bool_decide as E.
  - subst k'. split; [intros [= ->]; by left|]. intros [[= ->] | Hin]; [done|].
    exfalso. apply Hk. apply list_elem_of_In, in_map_iff. exists (k, a). by rewrite <-list_elem_of_In.
  - rewrite IH by done. naive_solver.
Qed.
Lemma assoc_None k l : assoc k l = None <-> k ∉ map fst l.
Proof.
  induction l as [|[k' a'] l IH]; cbn; [by split; [intros _ ?%elem_of_nil|]|].
  rewrite not_elem_of_cons, <-IH. case_bool_decide; naive_solver.
Qed.

Lemma assoc_set_keys k a l :
  map fst (assoc_set k a l) = if bool_decide (k ∈ map fst l) then map fst l else map fst l ++ [k].
Proof.
  induction l as [|[k' a'] l IH]; cbn.
  - by rewrite bool_decide_false by by intros ?%elem_of_nil.
  - destruct (decide (k = k')) as [<- | E].
    + rewrite (bool_decide_true (k = k)) by done. cbn.
      by rewrite bool_decide_true by apply list_elem_of_here.
    + rewrite (bool_decide_false (k = k')) by done. cbn. rewrite IH. assert (Hiff : k ∈ k' :: map fst l <-> k ∈ map fst l) by (rewrite elem_of_cons; naive_solver).
      rewrite (bool_decide_ext _ _ Hiff). by case_bool_decide.
Qed.
Lemma assoc_set_in_keys k k' a l : k' ∈ map fst (assoc_set k a l) <-> k' = k \/ k' ∈ map fst l.
Proof.
  rewrite assoc_set_keys. case_bool_decide; [naive_solver|].
  rewrite elem_of_app, list_elem_of_singleton. naive_solver.
Qed.
Lemma assoc_set_nodup k a l : NoDup (map fst l) -> NoDup (map fst (assoc_set k a l)).
Proof.
  intros H. rewrite assoc_set_keys. case_bool_decide as E; [done|]. apply NoDup_app.
  split; [done|]. split; [|apply NoDup_singleton]. intros x Hx ->%list_elem_of_singleton. done.
Qed.
Lemma assoc_set_elem k a l k' a' :
  NoDup (map fst l) ->
  (k', a') ∈ assoc_set k a l <-> (k' = k /\ a' = a) \/ (k' <> k /\ (k', a') ∈ l).
Proof.
  induction l as [|[k1 a1] l IH]; cbn; [rewrite list_elem_of_singleton, elem_of_nil; naive_solver|].
  intros [Hk Hn]%NoDup_cons.
  assert (Hk' : forall x, (k1, x) ∉ l).
  { intros x Hx. apply Hk. apply list_elem_of_In, in_map_iff. exists (k1, x). by rewrite <-list_elem_of_In. }
  case_bool_decide as E.
  - subst k1. rewrite !elem_of_cons. split.
    + intros [[= -> ->]|Hin]; [by left|]. right. split; [|by right]. intros ->. by apply (Hk' a').
    + intros [[-> ->]|[Hne [[= -> ->]|Hin]]]; [by left|done|by right].
  - rewrite !elem_of_cons, IH by done. split.
    + intros [[= -> ->]|[H|[Hne H]]]; [by right; split; [|by left]|by left|right; split; [done|by right]].
    + intros [H|[Hne [[= -> ->]|H]]]; [by right; left|by left|by right; right].
Qed.
Lemma assoc_erase_elem k l p : p ∈ assoc_erase k l <-> p.1 <> k /\ p ∈ l.
Proof. unfold assoc_erase. by rewrite list_elem_of_filter. Qed.
Lemma assoc_erase_nodup k l : NoDup (map fst l) -> NoDup (map fst (assoc_erase k l)).
Proof.
  intros H. induction l as [|[k' a'] l IH]; [done|]. cbn in H. apply NoDup_cons in H as [Hk Hn].
  unfold assoc_erase. rewrite filter_cons. case_decide; cbn; [|by apply IH].
  constructor; [|by apply IH]. intros Hin. apply Hk.
  apply list_elem_of_In, in_map_iff in Hin as (q & Hq & Hin). apply list_elem_of_In in Hin.
  apply list_elem_of_filter in Hin as [_ Hin]. apply list_elem_of_In, in_map_iff. exists q.
  by rewrite <-list_elem_of_In.
Qed.
Lemma assoc_erase_keys k k' l : k' ∈ map fst (assoc_erase k l) <-> k' <> k /\ k' ∈ map fst l.
Proof.
  rewrite !list_elem_of_In, !in_map_iff. split.
  - intros (q & <- & Hq%list_elem_of_In). apply assoc_erase_elem in Hq as [H1 H2].
    split; [done|]. exists q. by rewrite <-list_elem_of_In.
  - intros (Hne & q & <- & Hq). exists q. split; [done|].
    by apply list_elem_of_In, assoc_erase_elem; rewrite list_elem_of_In.
Qed.
Lemma elem_of_keys k a l : (k, a) ∈ l -> k ∈ map fst l.
Proof. intros H. apply list_elem_of_In, in_map_iff. exists (k, a). by rewrite <-list_elem_of_In. Qed.
End assoc.

