(* ===== verification/Location.v ===== *)
(** Track names, locations and location interval sets: the types of the moxygen
    library the components are written against.

    [AbsoluteLocation] is the (group, object) pair of MoQT with its
    lexicographic order.  Its step functions ([next], [prev], [nextGroup], ...)
    and [LocationIntervalSet] are library code that is not part of the
    repository, so they are parameters: a class of operations ([LocationApi],
    [IntervalSetApi]) and a class of laws that states what the cache relies on
    ([LocationLaws], [IntervalSetLaws]).  The end of the file gives one concrete
    implementation of each, so that the laws are known to be satisfiable and the
    cache model can be run on concrete inputs. *)

From S2P Require Import Prelude.

(** ** Track names *)
Record FullTrackName := FTN { trackNamespace : list string; trackName : string }.

#[global] Instance FullTrackName_eq_dec : EqDecision FullTrackName.
Proof. solve_decision. Defined.
#[global] Instance FullTrackName_countable : Countable FullTrackName.
Proof.
  apply (inj_countable (fun f => (trackNamespace f, trackName f))
    (fun p => Some (FTN p.1 p.2))). by intros [].
Defined.

(** ** Locations *)
Record AbsoluteLocation := Loc { group : Z; object : Z }.

#[global] Instance AbsoluteLocation_eq_dec : EqDecision AbsoluteLocation.
Proof. solve_decision. Defined.

Definition loc_eqb (a b : AbsoluteLocation) : bool :=
  (group a =? group b) && (object a =? object b).
Definition loc_ltb (a b : AbsoluteLocation) : bool :=
  (group a <? group b) || ((group a =? group b) && (object a <? object b)).
Definition loc_leb (a b : AbsoluteLocation) : bool := negb (loc_ltb b a).

Definition loc_lt (a b : AbsoluteLocation) : Prop :=
  group a < group b \/ (group a = group b /\ object a < object b).
Definition loc_le (a b : AbsoluteLocation) : Prop :=
  group a < group b \/ (group a = group b /\ object a <= object b).
Definition loc_max (a b : AbsoluteLocation) : AbsoluteLocation := if loc_ltb a b then b else a.
Definition loc_min (a b : AbsoluteLocation) : AbsoluteLocation := if loc_ltb b a then b else a.

(** ** The step functions of moxygen *)
Class LocationApi := {
  kLocationMax : AbsoluteLocation;
  next : AbsoluteLocation -> option AbsoluteLocation;
  prev : AbsoluteLocation -> option AbsoluteLocation;
  nextInGroup : AbsoluteLocation -> option AbsoluteLocation;
  prevInGroup : AbsoluteLocation -> option AbsoluteLocation;
  nextGroup : AbsoluteLocation -> option AbsoluteLocation;
  prevGroup : AbsoluteLocation -> option AbsoluteLocation;
  prevGroupEnd : AbsoluteLocation -> option AbsoluteLocation;
}.

(** A location a peer can name: both coordinates between 0 and the maximum. *)
Definition loc_ok `{LocationApi} (l : AbsoluteLocation) : Prop :=
  0 <= group l <= group kLocationMax /\ 0 <= object l <= object kLocationMax.

Class LocationLaws `{LocationApi} : Prop := {
  kLocationMax_range :
    0 < group kLocationMax < 2 ^ 64 /\ 0 < object kLocationMax < 2 ^ 64;
  next_spec l : next l =
    if object l <? object kLocationMax then Some (Loc (group l) (object l + 1))
    else if group l <? group kLocationMax then Some (Loc (group l + 1) 0) else None;
  prev_spec l : prev l =
    if 0 <? object l then Some (Loc (group l) (object l - 1))
    else if 0 <? group l then Some (Loc (group l - 1) (object kLocationMax)) else None;
  nextInGroup_spec l : nextInGroup l =
    if object l <? object kLocationMax then Some (Loc (group l) (object l + 1)) else None;
  prevInGroup_spec l : prevInGroup l =
    if 0 <? object l then Some (Loc (group l) (object l - 1)) else None;
  nextGroup_spec l : nextGroup l =
    if group l <? group kLocationMax then Some (Loc (group l + 1) 0) else None;
  prevGroup_spec l : prevGroup l =
    if 0 <? group l then Some (Loc (group l - 1) 0) else None;
  prevGroupEnd_spec l : prevGroupEnd l =
    if 0 <? group l then Some (Loc (group l - 1) (object kLocationMax)) else None;
}.

(** ** Interval sets *)
Abbreviation interval := (AbsoluteLocation * AbsoluteLocation)%type.

(** Membership in a closed interval. *)
Definition in_interval (l : AbsoluteLocation) (i : interval) : bool :=
  loc_leb i.1 l && loc_leb l i.2.

Class IntervalSetApi := {
  ISet : Type;
  iset_empty : ISet;
  iset_insert : ISet -> AbsoluteLocation -> AbsoluteLocation -> ISet;
  iset_remove : ISet -> AbsoluteLocation -> AbsoluteLocation -> ISet;
  iset_contains : ISet -> AbsoluteLocation -> bool;
  iset_size : ISet -> Z;
  iset_popFront : ISet -> option interval * ISet;
  iset_findInterval : ISet -> AbsoluteLocation -> option interval;
  iset_findIntervalEnd : ISet -> AbsoluteLocation -> option AbsoluteLocation;
  iset_findNextInterval : ISet -> AbsoluteLocation -> option interval;
  iset_findPrevInterval : ISet -> AbsoluteLocation -> option interval;
}.

(** Intervals are closed, non-empty, ascending and pairwise disjoint. *)
Definition intervals_wf `{LocationApi} (l : list interval) : Prop :=
  Forall (fun i => loc_le i.1 i.2 /\ loc_ok i.1 /\ loc_ok i.2) l /\
  StronglySorted (fun i j => loc_lt i.2 j.1) l.

Class IntervalSetLaws `{LocationApi} `{IntervalSetApi} := {
  iset_intervals : ISet -> list interval;
  intervals_ok s : intervals_wf (iset_intervals s);
  intervals_empty : iset_intervals iset_empty = [];
  contains_spec s l : iset_contains s l = existsb (in_interval l) (iset_intervals s);
  contains_insert s a b l : loc_ok a -> loc_ok b -> loc_le a b -> loc_ok l ->
    iset_contains (iset_insert s a b) l = iset_contains s l || in_interval l (a, b);
  contains_remove s a b l : loc_ok a -> loc_ok b -> loc_le a b -> loc_ok l ->
    iset_contains (iset_remove s a b) l = iset_contains s l && negb (in_interval l (a, b));
  size_spec s : iset_size s = Z.of_nat (length (iset_intervals s));
  popFront_spec s : (iset_popFront s).1 = head (iset_intervals s);
  popFront_rest s : iset_intervals (iset_popFront s).2 = tail (iset_intervals s);
  findInterval_spec s l : iset_findInterval s l = List.find (in_interval l) (iset_intervals s);
  findIntervalEnd_spec s l : iset_findIntervalEnd s l = snd <$> iset_findInterval s l;
  findNextInterval_spec s l : iset_contains s l = false ->
    iset_findNextInterval s l = List.find (fun i => loc_ltb l i.1) (iset_intervals s);
  findPrevInterval_spec s l : iset_contains s l = false ->
    iset_findPrevInterval s l = last (List.filter (fun i => loc_ltb i.2 l) (iset_intervals s));
}.

(** ** Order lemmas *)
Lemma loc_ltb_spec a b : loc_ltb a b = true <-> loc_lt a b.
Proof. unfold loc_ltb, loc_lt. lia. Qed.
Lemma loc_ltb_false a b : loc_ltb a b = false <-> loc_le b a.
Proof. unfold loc_ltb, loc_le. lia. Qed.
Lemma loc_leb_spec a b : loc_leb a b = true <-> loc_le a b.
Proof. unfold loc_leb, loc_ltb, loc_le. lia. Qed.
Lemma loc_leb_false a b : loc_leb a b = false <-> loc_lt b a.
Proof. unfold loc_leb, loc_ltb, loc_lt. lia. Qed.
Lemma loc_eqb_spec a b : loc_eqb a b = true <-> a = b.
Proof.
  unfold loc_eqb. destruct a, b; simpl. split; [|intros [= -> ->]; lia].
  intros H. f_equal; lia.
Qed.
Lemma loc_eq_ext a b : group a = group b -> object a = object b -> a = b.
Proof. destruct a, b; simpl; congruence. Qed.

(** Unfolds every location comparison to integer arithmetic and calls [lia]. *)
Ltac loc_unfold :=
  unfold loc_max, loc_min in *;
  unfold in_interval, loc_leb, loc_eqb in *; unfold loc_ltb, loc_le, loc_lt, loc_ok in *;
  simpl in *.
Ltac loc_lia :=
  loc_unfold;
  repeat match goal with
  | |- context [if ?b then _ else _] => destruct b eqn:?
  | _ : context [if ?b then _ else _] |- _ => destruct b eqn:?
  end; simpl in *; lia.

Lemma in_interval_spec l i : in_interval l i = true <-> loc_le i.1 l /\ loc_le l i.2.
Proof. unfold in_interval. rewrite andb_true_iff, !loc_leb_spec. done. Qed.

(** ** Consequences of the laws *)
Section step_laws.
Context `{LL : LocationLaws}.

(** [prev a] is the greatest location below [a], [next b] the least above [b]. *)
Lemma prev_cut a x : loc_ok a -> loc_ok x -> loc_lt x a ->
  exists p, prev a = Some p /\ loc_ok p /\ forall l, loc_ok l -> (loc_lt l a <-> loc_le l p).
Proof.
  intros Ha Hx Hlt. pose proof kLocationMax_range. rewrite prev_spec. repeat case_test.
  3: { exfalso. loc_lia. }
  all: eexists; split; [done|split; [loc_lia|intros l Hl; loc_lia]].
Qed.

Lemma next_cut b x : loc_ok b -> loc_ok x -> loc_lt b x ->
  exists n, next b = Some n /\ loc_ok n /\ forall l, loc_ok l -> (loc_lt b l <-> loc_le n l).
Proof.
  intros Ha Hx Hlt. pose proof kLocationMax_range. rewrite next_spec. repeat case_test.
  3: { exfalso. loc_lia. }
  all: eexists; split; [done|split; [loc_lia|intros l Hl; loc_lia]].
Qed.
End step_laws.

Section set_laws.
Context `{LL : LocationLaws} `{!IntervalSetApi} `{IL : !IntervalSetLaws}.

Lemma contains_empty l : iset_contains iset_empty l = false.
Proof. rewrite contains_spec, intervals_empty. done. Qed.

Lemma findInterval_contains s l :
  iset_contains s l = true -> exists a b, iset_findInterval s l = Some (a, b) /\
    loc_le a l /\ loc_le l b /\ (a, b) ∈ iset_intervals s.
Proof.
  rewrite contains_spec, findInterval_spec, existsb_Exists. intros Hex.
  destruct (List.find _ _) as [[a b]|] eqn:E.
  - apply List.find_some in E as [Hin Hl]. exists a, b. split; [done|].
    apply in_interval_spec in Hl as [??]. split_and!; [done..|]. by apply list_elem_of_In.
  - exfalso. apply Exists_exists in Hex as (i & Hin & Hi).
    apply list_elem_of_In, (List.find_none _ _ E) in Hin. congruence.
Qed.

Lemma interval_contained s i l :
  i ∈ iset_intervals s -> loc_le i.1 l -> loc_le l i.2 -> iset_contains s l = true.
Proof.
  intros Hin H1 H2. rewrite contains_spec, existsb_Exists, Exists_exists.
  exists i. split; [done|]. by apply in_interval_spec.
Qed.

Lemma interval_wf s i :
  i ∈ iset_intervals s -> loc_le i.1 i.2 /\ loc_ok i.1 /\ loc_ok i.2.
Proof.
  intros Hin. destruct (intervals_ok s) as [Hf _]. rewrite Forall_forall in Hf. by apply Hf.
Qed.

(** After [popFront] the popped interval, and nothing else, is gone. *)
Lemma popFront_contains s i rest l :
  iset_popFront s = (Some i, rest) ->
  iset_contains rest l = iset_contains s l && negb (in_interval l i).
Proof.
  intros Hp. pose proof (popFront_spec s) as Hh. pose proof (popFront_rest s) as Ht.
  rewrite Hp in Hh, Ht. simpl in Hh, Ht. rewrite !contains_spec, Ht.
  destruct (iset_intervals s) as [|j r] eqn:E; [done|]. simpl in *. injection Hh as ->.
  destruct (in_interval l j) eqn:Ej; simpl; [|by rewrite andb_true_r].
  apply existsb_false, Forall_forall. intros k Hk.
  destruct (intervals_ok s) as [_ Hs]. rewrite E in Hs. apply StronglySorted_inv in Hs as [_ Hs].
  rewrite Forall_forall in Hs. specialize (Hs k Hk). loc_lia.
Qed.

Lemma popFront_size s i rest :
  iset_popFront s = (Some i, rest) -> iset_size rest = iset_size s - 1 /\ i ∈ iset_intervals s.
Proof.
  intros Hp. pose proof (popFront_spec s) as Hh. pose proof (popFront_rest s) as Ht.
  rewrite Hp in Hh, Ht. simpl in Hh, Ht. rewrite !size_spec, Ht.
  destruct (iset_intervals s) as [|j r]; [done|]. simpl in *. injection Hh as ->.
  split; [lia|]. apply list_elem_of_here.
Qed.

Lemma popFront_none s : (iset_popFront s).1 = None -> iset_size s = 0.
Proof. rewrite popFront_spec, size_spec. by destruct (iset_intervals s). Qed.

Lemma findNextInterval_some s l a b :
  iset_contains s l = false -> iset_findNextInterval s l = Some (a, b) ->
  loc_lt l a /\ (a, b) ∈ iset_intervals s /\
  forall x, loc_le l x -> loc_lt x a -> iset_contains s x = false.
Proof.
  intros Hc. rewrite findNextInterval_spec by done.
  destruct (intervals_ok s) as [Hf Hs]. rewrite contains_spec in Hc.
  setoid_rewrite contains_spec.
  induction (iset_intervals s) as [|[c d] r IH]; [done|]. simpl in *.
  apply orb_false_iff in Hc as [Hcd Hc].
  apply Forall_cons in Hf as [Hcd' Hf]. apply StronglySorted_inv in Hs as [Hs Hlt].
  destruct (loc_ltb l c) eqn:E.
  - intros [= -> ->]. apply loc_ltb_spec in E. split_and!; [done|apply list_elem_of_here|].
    intros x Hx1 Hx2. apply orb_false_iff. split; [loc_lia|].
    apply existsb_false, Forall_forall. intros k Hk. rewrite Forall_forall in Hlt.
    specialize (Hlt k Hk). loc_lia.
  - intros Hfind. destruct (IH Hc Hf Hs Hfind) as (H1 & H2 & H3).
    split_and!; [done|by apply list_elem_of_further|]. intros x Hx1 Hx2.
    apply orb_false_iff. split; [|by apply H3]. loc_lia.
Qed.

Lemma findNextInterval_none s l :
  iset_contains s l = false -> iset_findNextInterval s l = None ->
  forall x, loc_le l x -> iset_contains s x = false.
Proof.
  intros Hc. rewrite findNextInterval_spec by done. intros Hn x Hx.
  rewrite contains_spec in *. apply existsb_false, Forall_forall. intros i Hi.
  rewrite existsb_false, Forall_forall in Hc. specialize (Hc i Hi).
  apply list_elem_of_In in Hi. pose proof (List.find_none _ _ Hn i Hi) as H'. simpl in H'. loc_lia.
Qed.
End set_laws.

(** ** A concrete implementation of the laws

    Locations with 64-bit coordinates, and interval sets kept as an ascending
    list of disjoint closed intervals. *)
Module Reference.
Definition kMax : Z := 2 ^ 64 - 1.

#[export] Instance location_api : LocationApi := {
  kLocationMax := Loc kMax kMax;
  next l := if object l <? kMax then Some (Loc (group l) (object l + 1))
    else if group l <? kMax then Some (Loc (group l + 1) 0) else None;
  prev l := if 0 <? object l then Some (Loc (group l) (object l - 1))
    else if 0 <? group l then Some (Loc (group l - 1) kMax) else None;
  nextInGroup l := if object l <? kMax then Some (Loc (group l) (object l + 1)) else None;
  prevInGroup l := if 0 <? object l then Some (Loc (group l) (object l - 1)) else None;
  nextGroup l := if group l <? kMax then Some (Loc (group l + 1) 0) else None;
  prevGroup l := if 0 <? group l then Some (Loc (group l - 1) 0) else None;
  prevGroupEnd l := if 0 <? group l then Some (Loc (group l - 1) kMax) else None;
}.

#[export] Instance location_laws : LocationLaws.
Proof. constructor; try done; simpl; unfold kMax; lia. Qed.

Definition loc_okb (l : AbsoluteLocation) : bool :=
  (0 <=? group l) && (group l <=? kMax) && (0 <=? object l) && (object l <=? kMax).

Definition below (a : AbsoluteLocation) (s : list interval) : list interval :=
  List.filter (fun i => loc_ltb i.2 a) s.
Definition above (b : AbsoluteLocation) (s : list interval) : list interval :=
  List.filter (fun i => loc_ltb b i.1) s.
Definition touching (a b : AbsoluteLocation) (s : list interval) : list interval :=
  List.filter (fun i => negb (loc_ltb i.2 a) && negb (loc_ltb b i.1)) s.

(** The hull of [a, b] and the intervals that meet it. *)
Fixpoint hull (s : list interval) (a b : AbsoluteLocation) : interval :=
  match s with
  | [] => (a, b)
  | i :: s => hull s (loc_min a i.1) (loc_max b i.2)
  end.

Definition insert_raw (s : list interval) (a b : AbsoluteLocation) : list interval :=
  if loc_okb a && loc_okb b && loc_leb a b
  then below a s ++ hull (touching a b s) a b :: above b s else s.

(** What is left of one interval once [a, b] is cut out of it. *)
Definition cut (a b : AbsoluteLocation) (i : interval) : list interval :=
  if loc_ltb i.2 a || loc_ltb b i.1 then [i]
  else (if loc_ltb i.1 a then match prev a with Some p => [(i.1, p)] | None => [] end else []) ++
       (if loc_ltb b i.2 then match next b with Some n => [(n, i.2)] | None => [] end else []).

Definition remove_raw (s : list interval) (a b : AbsoluteLocation) : list interval :=
  if loc_okb a && loc_okb b && loc_leb a b then List.flat_map (cut a b) s else s.

Lemma loc_okb_spec l : loc_okb l = true <-> loc_ok l.
Proof. unfold loc_okb, loc_ok. simpl. unfold kMax. lia. Qed.

Lemma wf_filter f s : intervals_wf s -> intervals_wf (List.filter f s).
Proof.
  intros [Hf Hs]. split.
  - rewrite Forall_forall in *. intros i Hi. apply Hf.
    apply list_elem_of_In in Hi. apply List.filter_In in Hi as [Hi _]. by apply list_elem_of_In.
  - induction Hs as [|i s Hs IH Hi]; simpl; [constructor|].
    apply Forall_cons in Hf as [? Hf].
    destruct (f i); [|by apply IH]. constructor; [by apply IH|].
    rewrite Forall_forall in *. intros j Hj. apply Hi.
    apply list_elem_of_In in Hj. apply List.filter_In in Hj as [Hj _]. by apply list_elem_of_In.
Qed.

Lemma wf_app s t :
  intervals_wf s -> intervals_wf t ->
  (forall i j, i ∈ s -> j ∈ t -> loc_lt i.2 j.1) -> intervals_wf (s ++ t).
Proof.
  intros [Hf Hs] [Hf' Hs'] Hlt. split; [by apply Forall_app|].
  induction Hs as [|i s Hs IH Hi]; simpl; [done|]. apply Forall_cons in Hf as [? Hf].
  constructor.
  - apply IH; [done|]. intros; apply Hlt; [by apply list_elem_of_further|done].
  - apply Forall_app. split; [done|]. apply Forall_forall. intros j Hj.
    apply Hlt; [apply list_elem_of_here|done].
Qed.

Lemma wf_cons i s :
  loc_le i.1 i.2 -> loc_ok i.1 -> loc_ok i.2 -> intervals_wf s ->
  (forall j, j ∈ s -> loc_lt i.2 j.1) -> intervals_wf (i :: s).
Proof.
  intros ??? [Hf Hs] Hlt. split; [by constructor|]. constructor; [done|]. by apply Forall_forall.
Qed.

Lemma wf_inv i s :
  intervals_wf (i :: s) -> loc_le i.1 i.2 /\ loc_ok i.1 /\ loc_ok i.2 /\ intervals_wf s /\
  (forall j, j ∈ s -> loc_lt i.2 j.1).
Proof.
  intros [Hf Hs]. apply Forall_cons in Hf as [(?&?&?) Hf]. apply StronglySorted_inv in Hs as [Hs Hi].
  split_and!; try done. by apply Forall_forall.
Qed.

(** The hull of [a, b] with intervals that all meet it. *)
Lemma hull_spec s : forall a b, loc_ok a -> loc_ok b -> loc_le a b ->
  Forall (fun i => (loc_le i.1 i.2 /\ loc_ok i.1 /\ loc_ok i.2) /\ loc_le a i.2 /\ loc_le i.1 b) s ->
  let h := hull s a b in
  loc_le h.1 a /\ loc_le b h.2 /\ loc_ok h.1 /\ loc_ok h.2 /\
  (forall l, in_interval l h = in_interval l (a, b) || existsb (in_interval l) s) /\
  (h.1 = a \/ exists i, i ∈ s /\ h.1 = i.1) /\ (h.2 = b \/ exists i, i ∈ s /\ h.2 = i.2).
Proof.
  induction s as [|i s IH]; intros a b Ha Hb Hab Hall; simpl.
  - split_and!; [loc_lia..| |by left|by left]. intros l. by rewrite orb_false_r.
  - apply Forall_cons in Hall as [((Hi & Hi1 & Hi2) & Hai & Hib) Hall].
    destruct (IH (loc_min a i.1) (loc_max b i.2)) as (H1 & H2 & H3 & H4 & H5 & H6 & H7).
    + unfold loc_min. by case_test.
    + unfold loc_max. by case_test.
    + clear IH Hall. loc_lia.
    + eapply Forall_impl; [exact Hall|]. simpl. intros j (?&?&?). split; [done|]. clear IH Hall. loc_lia.
    + clear IH. split_and!; [clear -H1; loc_lia|clear -H2; loc_lia|done|done| | |].
      * intros l. rewrite H5. clear -Hai Hib Hi Hab. rewrite orb_assoc. f_equal.
        destruct (in_interval l (a, b)) eqn:E1, (in_interval l i) eqn:E2;
          destruct (in_interval l (loc_min a i.1, loc_max b i.2)) eqn:E3; try done; loc_lia.
      * destruct H6 as [-> | (j & ? & ?)]; [|right; exists j; split; [by apply list_elem_of_further|done]].
        unfold loc_min. case_test; [right; exists i; split; [apply list_elem_of_here|done]|by left].
      * destruct H7 as [-> | (j & ? & ?)]; [|right; exists j; split; [by apply list_elem_of_further|done]].
        unfold loc_max. case_test; [right; exists i; split; [apply list_elem_of_here|done]|by left].
Qed.

Lemma elem_filter {A} (f : A -> bool) s x : x ∈ List.filter f s <-> x ∈ s /\ f x = true.
Proof. rewrite !list_elem_of_In. apply List.filter_In. Qed.

Lemma touching_ok a b s :
  intervals_wf s ->
  Forall (fun i => (loc_le i.1 i.2 /\ loc_ok i.1 /\ loc_ok i.2) /\ loc_le a i.2 /\ loc_le i.1 b)
    (touching a b s).
Proof.
  intros [Hf _]. rewrite Forall_forall in *. intros i Hi. apply elem_filter in Hi as [Hi Ht].
  split; [by apply Hf|]. loc_lia.
Qed.

(** In a well-formed list an interval that ends before another one's end
    starts before its start. *)
Lemma wf_order s i j :
  intervals_wf s -> i ∈ s -> j ∈ s -> i = j \/ loc_lt i.2 j.1 \/ loc_lt j.2 i.1.
Proof.
  intros Hs. induction s as [|k s IH]; [intros Hi; by apply elem_of_nil in Hi|].
  apply wf_inv in Hs as (?&?&?&Hs&Hk). intros Hi Hj.
  apply elem_of_cons in Hi as [->|Hi]; apply elem_of_cons in Hj as [->|Hj]; auto.
Qed.

Lemma insert_raw_wf s a b : intervals_wf s -> intervals_wf (insert_raw s a b).
Proof.
  intros Hs. unfold insert_raw. case_test; [|done].
  apply andb_true_iff in Eb as [Eb Hab%loc_leb_spec].
  apply andb_true_iff in Eb as [Ha%loc_okb_spec Hb%loc_okb_spec].
  destruct (hull_spec (touching a b s) a b Ha Hb Hab (touching_ok a b s Hs))
    as (H1 & H2 & H3 & H4 & _ & H6 & H7). set (h := hull _ _ _) in *.
  assert (Hself : forall i, i ∈ s -> loc_le i.1 i.2).
  { intros i Hi. destruct Hs as [Hf _]. rewrite Forall_forall in Hf. by apply Hf. }
  apply wf_app; [by apply wf_filter|apply wf_cons; [loc_lia|done|done|by apply wf_filter|]|].
  - intros j [Hj Hj']%elem_filter. apply loc_ltb_spec in Hj'.
    destruct H7 as [->|(i & [Hi Hi']%elem_filter & ->)]; [done|].
    specialize (Hself j Hj). destruct (wf_order s i j Hs Hi Hj) as [->|[?|?]]; loc_lia.
  - intros i j [Hi Hi']%elem_filter [->|[Hj Hj']%elem_filter]%elem_of_cons; [|loc_lia].
    apply loc_ltb_spec in Hi'. specialize (Hself i Hi).
    destruct H6 as [->|(k & [Hk Hk']%elem_filter & ->)]; [done|].
    destruct (wf_order s i k Hs Hi Hk) as [->|[?|?]]; loc_lia.
Qed.

Lemma existsb_split s a b l :
  existsb (in_interval l) s = existsb (in_interval l) (below a s) ||
    existsb (in_interval l) (touching a b s) || existsb (in_interval l) (above b s) \/
  exists i, i ∈ s /\ loc_lt i.2 i.1.
Proof.
  induction s as [|i s IH]; [by left|]. destruct IH as [IH|(j&?&?)];
    [|right; exists j; split; [by apply list_elem_of_further|done]].
  left. unfold below, touching, above in *. simpl. rewrite IH.
  destruct (loc_ltb i.2 a), (loc_ltb b i.1); simpl;
    destruct (in_interval l i), (existsb _ (List.filter (fun i => loc_ltb i.2 a) s)),
      (existsb _ (List.filter (fun i => loc_ltb b i.1) s)); simpl;
    try done; by rewrite ?orb_true_r, ?orb_false_r.
Qed.

Lemma insert_raw_contains s a b l :
  intervals_wf s -> loc_ok a -> loc_ok b -> loc_le a b ->
  existsb (in_interval l) (insert_raw s a b) =
  existsb (in_interval l) s || in_interval l (a, b).
Proof.
  intros Hs Ha Hb Hab. unfold insert_raw.
  rewrite (proj2 (loc_okb_spec a) Ha), (proj2 (loc_okb_spec b) Hb), (proj2 (loc_leb_spec a b) Hab).
  destruct (hull_spec (touching a b s) a b Ha Hb Hab (touching_ok a b s Hs)) as (_&_&_&_&H5&_&_).
  simpl. rewrite List.existsb_app. simpl. rewrite H5.
  destruct (existsb_split s a b l) as [->|(i & Hi & Hlt)].
  - destruct (existsb _ (below a s)), (existsb _ (touching a b s)), (existsb _ (above b s)),
      (in_interval l (a, b)); done.
  - destruct Hs as [Hf _]. rewrite Forall_forall in Hf. destruct (Hf i Hi) as [Hle _].
    exfalso. loc_lia.
Qed.

Lemma wf_single x y : loc_le x y -> loc_ok x -> loc_ok y -> intervals_wf [(x, y)].
Proof.
  intros ???. apply wf_cons; try done; [split; constructor|].
  intros j Hj. by apply elem_of_nil in Hj.
Qed.

Lemma cut_spec a b i :
  loc_ok a -> loc_ok b -> loc_le a b -> loc_le i.1 i.2 -> loc_ok i.1 -> loc_ok i.2 ->
  intervals_wf (cut a b i) /\
  (forall j, j ∈ cut a b i -> loc_le i.1 j.1 /\ loc_le j.2 i.2) /\
  (forall l, loc_ok l ->
     existsb (in_interval l) (cut a b i) = in_interval l i && negb (in_interval l (a, b))).
Proof.
  intros Ha Hb Hab Hi Hi1 Hi2. destruct i as [x y]. unfold cut. cbn [fst snd] in *.
  destruct (loc_ltb y a || loc_ltb b x) eqn:E.
  { split_and!; [by apply wf_single| |].
    - intros j [->|Hj%elem_of_nil]%elem_of_cons; [loc_lia|done].
    - intros l Hl. simpl. rewrite orb_false_r. loc_lia. }
  assert (Hleft : loc_ltb x a = false \/ loc_ltb x a = true /\ exists p, prev a = Some p /\
    loc_ok p /\ loc_lt p a /\ loc_le x p /\ forall l, loc_ok l -> (loc_lt l a <-> loc_le l p)).
  { destruct (loc_ltb x a) eqn:E1; [right; split; [done|]|by left]. apply loc_ltb_spec in E1.
    destruct (prev_cut a x) as (p & Hp & Hok & Hpl); try done. exists p.
    split_and!; try done; apply Hpl; try done. loc_lia. }
  assert (Hright : loc_ltb b y = false \/ loc_ltb b y = true /\ exists n, next b = Some n /\
    loc_ok n /\ loc_lt b n /\ loc_le n y /\ forall l, loc_ok l -> (loc_lt b l <-> loc_le n l)).
  { destruct (loc_ltb b y) eqn:E1; [right; split; [done|]|by left]. apply loc_ltb_spec in E1.
    destruct (next_cut b y) as (p & Hp & Hok & Hpl); try done. exists p.
    split_and!; try done; apply Hpl; try done. loc_lia. }
  assert (Hyp : forall l, in_interval l (x, y) && negb (in_interval l (a, b)) =
    (loc_leb x l && loc_ltb l a) || (loc_ltb b l && loc_leb l y)).
  { clear -Hab E Hi. intros l. loc_lia. }
  destruct Hleft as [E1|(E1 & p & Hp & Hpok & Hpa & Hxp & Hpl)]; rewrite E1; [|rewrite Hp];
    (destruct Hright as [E2|(E2 & n & Hn & Hnok & Hbn & Hny & Hnl)]; rewrite E2; [|rewrite Hn]); simpl.
  - split_and!; [split; constructor|intros j Hj; by apply elem_of_nil in Hj|].
    intros l Hl. rewrite Hyp. clear -E1 E2. loc_lia.
  - split_and!; [by apply wf_single| |].
    + intros j [->|Hj%elem_of_nil]%elem_of_cons; [clear -E Hbn; loc_lia|done].
    + intros l Hl. rewrite Hyp. specialize (Hnl l Hl). clear -E1 Hnl. loc_lia.
  - split_and!; [by apply wf_single| |].
    + intros j [->|Hj%elem_of_nil]%elem_of_cons; [clear -E Hpa Hab; loc_lia|done].
    + intros l Hl. rewrite Hyp. specialize (Hpl l Hl). clear -E2 Hpl. loc_lia.
  - split_and!.
    + apply wf_cons; try done; [by apply wf_single|].
      intros j [->|Hj%elem_of_nil]%elem_of_cons; [clear -Hpa Hab Hbn; loc_lia|done].
    + intros j [->|[->|Hj%elem_of_nil]%elem_of_cons]%elem_of_cons;
        [clear -E Hpa Hab; loc_lia|clear -E Hbn; loc_lia|done].
    + intros l Hl. rewrite Hyp. specialize (Hpl l Hl). specialize (Hnl l Hl). clear -Hpl Hnl. loc_lia.
Qed.

Lemma remove_raw_spec s a b :
  intervals_wf s ->
  intervals_wf (remove_raw s a b) /\
  (loc_ok a -> loc_ok b -> loc_le a b -> forall l, loc_ok l ->
   existsb (in_interval l) (remove_raw s a b) =
   existsb (in_interval l) s && negb (in_interval l (a, b))).
Proof.
  intros Hs. unfold remove_raw.
  destruct (loc_okb a && loc_okb b && loc_leb a b) eqn:E.
  2: { split; [done|]. intros Ha%loc_okb_spec Hb%loc_okb_spec Hab%loc_leb_spec.
       by rewrite Ha, Hb, Hab in E. }
  apply andb_true_iff in E as [E Hab%loc_leb_spec].
  apply andb_true_iff in E as [Ha%loc_okb_spec Hb%loc_okb_spec].
  enough (intervals_wf (List.flat_map (cut a b) s) /\
    (forall j, j ∈ List.flat_map (cut a b) s -> exists i, i ∈ s /\ loc_le i.1 j.1) /\
    forall l, loc_ok l -> existsb (in_interval l) (List.flat_map (cut a b) s) =
      existsb (in_interval l) s && negb (in_interval l (a, b))) as (H1 & _ & H3) by (split; auto).
  induction s as [|i s IH]; simpl; [split_and!; [done|set_solver|done]|].
  apply wf_inv in Hs as (Hi & Hi1 & Hi2 & Hs & Hlt).
  destruct (IH Hs) as (H1 & H2 & H3).
  destruct (cut_spec a b i Ha Hb Hab Hi Hi1 Hi2) as (C1 & C2 & C3). split_and!.
  - apply wf_app; [done|done|]. intros j k Hj Hk. destruct (C2 j Hj) as [_ C2'].
    destruct (H2 k Hk) as (i' & Hi' & Hle). specialize (Hlt i' Hi'). clear -C2' Hlt Hle. loc_lia.
  - intros j [Hj|Hj]%elem_of_app; [exists i|destruct (H2 j Hj) as (i' & ? & ?); exists i'].
    + split; [apply list_elem_of_here|by apply C2].
    + split; [by apply list_elem_of_further|done].
  - intros l Hl. rewrite List.existsb_app, C3, H3 by done.
    by destruct (in_interval l i), (existsb _ s), (in_interval l (a, b)).
Qed.

(** The sets themselves: well-formed lists of intervals. *)
Definition iset : Type := { s : list interval | intervals_wf s }.

#[export] Instance interval_set_api : IntervalSetApi := {
  ISet := iset;
  iset_empty := exist intervals_wf [] (conj (List.Forall_nil _) (SSorted_nil _));
  iset_insert s a b := exist intervals_wf (insert_raw (`s) a b) (insert_raw_wf _ a b (proj2_sig s));
  iset_remove s a b := exist intervals_wf (remove_raw (`s) a b) (proj1 (remove_raw_spec _ a b (proj2_sig s)));
  iset_contains s l := existsb (in_interval l) (`s);
  iset_size s := Z.of_nat (length (`s));
  iset_popFront s := match s with
    | exist _ [] _ => (None, s)
    | exist _ (i :: r) H =>
      (Some i, exist intervals_wf r (proj1 (proj2 (proj2 (proj2 (wf_inv i r H))))))
    end;
  iset_findInterval s l := List.find (in_interval l) (`s);
  iset_findIntervalEnd s l := snd <$> List.find (in_interval l) (`s);
  iset_findNextInterval s l := List.find (fun i => loc_ltb l i.1) (`s);
  iset_findPrevInterval s l := last (List.filter (fun i => loc_ltb i.2 l) (`s));
}.

#[export] Instance interval_set_laws : IntervalSetLaws.
Proof.
  refine {| iset_intervals := fun s => `s |}; try done.
  - intros [s Hs]. exact Hs.
  - intros [s Hs] a b l Ha Hb Hab Hl. simpl. by apply insert_raw_contains.
  - intros [s Hs] a b l Ha Hb Hab Hl. simpl. by apply (proj2 (remove_raw_spec s a b Hs)).
  - by intros [[|i s] Hs].
  - by intros [[|i s] Hs].
Defined.
End Reference.
