(* ===== verification/CacheRanges.v ===== *)
(** The range arithmetic of the object cache: the free functions at the top of
    MoqxCache.cpp that turn a requested range, a run of cache misses or a jump
    of an upstream fetch into location intervals.

    A FETCH is served in one of two orders.  Ascending order visits locations
    in lexicographic order.  Descending order ([NewestFirst]) visits groups from
    high to low and objects within a group from low to high.  [before] is the
    order in which positions are visited; the theorems say that each function
    returns exactly the positions between its two arguments in that order. *)

From S2P Require Import Prelude Location.

Inductive GroupOrder := OrderDefault | OldestFirst | NewestFirst.

#[global] Instance GroupOrder_eq_dec : EqDecision GroupOrder.
Proof. solve_decision. Defined.

Definition isNewestFirst (o : GroupOrder) : bool :=
  match o with NewestFirst => true | _ => false end.

Inductive ObjectStatus := NORMAL | END_OF_GROUP | END_OF_TRACK | STATUS_OTHER (code : Z).

#[global] Instance ObjectStatus_eq_dec : EqDecision ObjectStatus.
Proof. solve_decision. Defined.

Definition isEndOfTrack (status : ObjectStatus) : bool :=
  match status with END_OF_TRACK => true | _ => false end.

Definition exists_ (status : ObjectStatus) : bool :=
  match status with NORMAL | END_OF_GROUP | END_OF_TRACK => true | STATUS_OTHER _ => false end.

Section ranges.
Context `{LA : LocationApi}.

Definition toExclusiveEnd (wireEnd : AbsoluteLocation) : AbsoluteLocation :=
  if negb (object wireEnd =? 0) then wireEnd
  else default kLocationMax (nextGroup wireEnd).

(** The wire form of an exclusive end, as [fetchUpstream] computes it; [None]
    is its [XCHECK] failing. *)
Definition adjFetchEnd (fetchEnd : AbsoluteLocation) : option AbsoluteLocation :=
  if object fetchEnd =? 0 then prevGroup fetchEnd else Some fetchEnd.

Definition computeDescendingAfterGap (current gapStart minLocation : AbsoluteLocation)
  : option AbsoluteLocation :=
  if (0 <? object gapStart) && negb (group gapStart =? group current) then
    Some (if group gapStart =? group minLocation
          then Loc (group gapStart) (object minLocation) else Loc (group gapStart) 0)
  else
    (fun afterGap => if group afterGap =? group minLocation
                     then Loc (group afterGap) (object minLocation) else afterGap)
    <$> prevGroup gapStart.

Definition getFetchIntervals (start end_ missLocation hitLocation : AbsoluteLocation)
    (order : GroupOrder) (isTail : bool) : list interval :=
  if negb (isNewestFirst order) then
    [(missLocation, if isTail then end_ else hitLocation)]
  else if group missLocation =? group hitLocation then
    [(missLocation, if isTail then default end_ (nextGroup missLocation) else hitLocation)]
  else
    let intervalEnd := if group missLocation =? group end_ then end_
                       else default end_ (nextGroup missLocation) in
    let numIntermediateGroups := u64 (group missLocation - group hitLocation - 1) in
    let first_and_middle :=
      if 0 <? numIntermediateGroups then
        if object missLocation =? 0 then
          [(loc_max start (Loc (u64 (group missLocation - numIntermediateGroups)) 0), intervalEnd)]
        else
          let intStart := Loc (u64 (group hitLocation + 1)) 0 in
          let intStart := if group start =? group intStart
                          then Loc (group intStart) (object start) else intStart in
          [(missLocation, intervalEnd); (intStart, Loc (group missLocation) 0)]
      else [(missLocation, intervalEnd)] in
    let last_ :=
      if negb (object hitLocation =? 0) then
        let lastStart := if group start =? group hitLocation then start
                         else Loc (group hitLocation) 0 in
        if loc_ltb lastStart hitLocation then [(lastStart, hitLocation)] else []
      else [] in
    first_and_middle ++ last_.

(** [None] is a failing [XCHECK] or the dereference of an empty optional. *)
Definition getGapRanges (start end_ : AbsoluteLocation) (order : GroupOrder)
    (fetchStart fetchEnd : AbsoluteLocation) : option (list interval) :=
  let isEmpty :=
    if negb (isNewestFirst order) then loc_leb end_ start
    else (group start <? group end_) ||
         ((group start =? group end_) && (object end_ <=? object start)) in
  if isEmpty then Some []
  else if group start =? group end_ then
    match prevInGroup end_ with Some p => Some [(start, p)] | None => Some [] end
  else if negb (isNewestFirst order) then
    gapEnd ← prev end_; Some [(start, gapEnd)]
  else
    startGroupEnd ← (if group start =? group fetchEnd then prevInGroup fetchEnd
                     else Some (Loc (group start) (object kLocationMax)));
    endNextGroup ← nextGroup end_;
    startPrevGroupEnd ← prevGroupEnd start;
    let middle := if group endNextGroup <=? group startPrevGroupEnd
                  then [(endNextGroup, startPrevGroupEnd)] else [] in
    let endGroupStart := if group end_ =? group fetchStart then fetchStart
                         else Loc (group end_) 0 in
    last_ ← (if loc_ltb endGroupStart end_
             then p ← prevInGroup end_; Some [(endGroupStart, p)] else Some []);
    Some ((start, startGroupEnd) :: middle ++ last_).

Definition isGroupNonExistent `{!IntervalSetApi} (gaps : ISet) (groupID : Z) : bool :=
  match iset_findIntervalEnd gaps (Loc groupID 0) with
  | Some e => (groupID <? group e) || ((group e =? groupID) && (object e =? object kLocationMax))
  | None => false
  end.
End ranges.

(** ** The visiting order *)
Definition before (order : GroupOrder) (a b : AbsoluteLocation) : Prop :=
  if isNewestFirst order
  then group b < group a \/ (group a = group b /\ object a < object b)
  else loc_lt a b.

(** [a] is visited no later than [l], and [l] before [b]. *)
Definition visited_between (order : GroupOrder) (a b l : AbsoluteLocation) : Prop :=
  (a = l \/ before order a l) /\ before order l b.

Definition in_range (lo hi l : AbsoluteLocation) : Prop := loc_le lo l /\ loc_lt l hi.

(** The positions of a list of half-open, resp. closed, intervals. *)
Definition fetched (l : AbsoluteLocation) (ivs : list interval) : bool :=
  existsb (fun i => loc_leb i.1 l && loc_ltb l i.2) ivs.
Definition marked (l : AbsoluteLocation) (ivs : list interval) : bool :=
  existsb (in_interval l) ivs.

Section theorems.
Context `{LL : LocationLaws}.

(** Unfolds the visiting order and splits the code's tests. *)
Ltac range_lia :=
  unfold visited_between, before, in_range, fetched, marked in *; simpl in *; loc_unfold;
  repeat match goal with
  | |- context [if ?b then _ else _] => destruct b eqn:?
  | _ : context [if ?b then _ else _] |- _ => destruct b eqn:?
  end; simpl in *; try lia.

Lemma eq_or a b : a = b <-> group a = group b /\ object a = object b.
Proof. split; [intros ->; done|]. intros [??]. by apply loc_eq_ext. Qed.

(** Exclusive end and wire form of a fetch describe the same range: for
    every exclusive end above {0,0}, the wire form [fetchUpstream] sends does
    not trip its XCHECK, and [toExclusiveEnd] of it is the end again. *)
Theorem toExclusiveEnd_adjFetchEnd e :
  loc_ok e -> loc_lt (Loc 0 0) e -> exists w, adjFetchEnd e = Some w /\ toExclusiveEnd w = e.
Proof.
  intros He Hpos. unfold adjFetchEnd, toExclusiveEnd. rewrite prevGroup_spec.
  destruct (object e =? 0) eqn:E; [|eexists; rewrite E; done].
  destruct (0 <? group e) eqn:Eg; [|loc_lia].
  eexists; split; [done|]. rewrite nextGroup_spec. simpl. case_test; [|loc_lia].
  simpl. apply loc_eq_ext; simpl; lia.
Qed.

Lemma u64_id z : 0 <= z < 2 ^ 64 -> u64 z = z.
Proof. apply u64_small. Qed.

Lemma fetched_nil l : fetched l [] = true <-> False.
Proof. done. Qed.
Lemma fetched_cons l i r : fetched l (i :: r) = true <-> in_range i.1 i.2 l \/ fetched l r = true.
Proof. unfold fetched, in_range. simpl. rewrite orb_true_iff, andb_true_iff, loc_leb_spec, loc_ltb_spec. done. Qed.
Lemma fetched_app l r r' : fetched l (r ++ r') = true <-> fetched l r = true \/ fetched l r' = true.
Proof. unfold fetched. rewrite List.existsb_app, orb_true_iff. done. Qed.

(** The groups from the miss down to just above the hit. *)
Lemma desc_first_and_middle start end_ miss hit l :
  loc_ok end_ -> loc_ok miss -> loc_ok l -> loc_lt miss end_ ->
  group start <= group hit -> group hit < group miss ->
  fetched l (if 0 <? group miss - group hit - 1 then
    if object miss =? 0 then
      [(loc_max start (Loc (group miss - (group miss - group hit - 1)) 0),
        if group miss =? group end_ then end_ else default end_ (nextGroup miss))]
    else
      [(miss, if group miss =? group end_ then end_ else default end_ (nextGroup miss));
       (if group start =? group hit + 1 then Loc (group hit + 1) (object start)
        else Loc (group hit + 1) 0, Loc (group miss) 0)]
    else [(miss, if group miss =? group end_ then end_ else default end_ (nextGroup miss))]) = true <->
  loc_lt l end_ /\ (group hit < group l < group miss \/ (group l = group miss /\ object miss <= object l)).
Proof.
  intros He Hm Hl Hme Hsh Hgt.
  set (ie := if group miss =? group end_ then end_ else default end_ (nextGroup miss)).
  assert (Hie : loc_lt l ie <-> loc_lt l end_ /\ group l <= group miss).
  { unfold ie. rewrite nextGroup_spec. clear -Hme Hm Hl He. loc_lia. }
  replace (group miss - (group miss - group hit - 1)) with (group hit + 1) by lia.
  replace (loc_max start (Loc (group hit + 1) 0)) with (Loc (group hit + 1) 0).
  2: { unfold loc_max. rewrite (proj2 (loc_ltb_spec _ _)); [done|]. unfold loc_lt. simpl. lia. }
  replace (group start =? group hit + 1) with false by lia.
  clearbody ie. unfold loc_ok in Hl.
  repeat case_test; rewrite ?fetched_cons, fetched_nil; unfold in_range; simpl; rewrite Hie;
    clear Hie He Hm; unfold loc_le, loc_lt in *; simpl in *; lia.
Qed.

(** The part of the hit's group below the hit. *)
Lemma desc_last start hit l :
  loc_ok hit -> loc_ok l -> loc_le start hit ->
  fetched l (if negb (object hit =? 0) then
      if loc_ltb (if group start =? group hit then start else Loc (group hit) 0) hit
      then [(if group start =? group hit then start else Loc (group hit) 0, hit)] else []
    else []) = true <->
  loc_le start l /\ group l = group hit /\ object l < object hit.
Proof.
  intros Hh Hl Hs. repeat case_test; rewrite ?fetched_cons, fetched_nil; unfold in_range; simpl;
    loc_lia.
Qed.

Lemma desc_interval_end end_ miss l :
  loc_ok end_ -> loc_ok miss -> loc_ok l -> loc_lt miss end_ ->
  loc_lt l (if group miss =? group end_ then end_ else default end_ (nextGroup miss)) <->
  loc_lt l end_ /\ group l <= group miss.
Proof. intros He Hm Hl Hme. rewrite nextGroup_spec. loc_lia. Qed.

(** The intervals of a tail whose position is the sentinel {0,0}. *)
Lemma desc_tail_shape start end_ miss :
  loc_ok miss -> 0 < group miss ->
  getFetchIntervals start end_ miss (Loc 0 0) NewestFirst true =
  let ie := if group miss =? group end_ then end_ else default end_ (nextGroup miss) in
  if 0 <? group miss - 1 then
    if object miss =? 0 then [(loc_max start (Loc 1 0), ie)]
    else [(miss, ie); (if group start =? 1 then Loc 1 (object start) else Loc 1 0, Loc (group miss) 0)]
  else [(miss, ie)].
Proof.
  intros Hm Hg. pose proof kLocationMax_range as Hk. unfold getFetchIntervals. simpl.
  replace (group miss =? 0) with false by lia. unfold loc_ok in Hm.
  rewrite (u64_id (group miss - 0 - 1)) by lia. rewrite !u64_id by lia.
  replace (group miss - 0 - 1) with (group miss - 1) by lia.
  replace (group miss - (group miss - 1)) with 1 by lia.
  by destruct (0 <? group miss - 1), (object miss =? 0).
Qed.

Lemma marked_nil l : marked l [] = true <-> False.
Proof. done. Qed.
Lemma marked_cons l i r :
  marked l (i :: r) = true <-> (loc_le i.1 l /\ loc_le l i.2) \/ marked l r = true.
Proof. unfold marked. simpl. rewrite orb_true_iff, in_interval_spec. done. Qed.
Lemma marked_app l r r' : marked l (r ++ r') = true <-> marked l r = true \/ marked l r' = true.
Proof. unfold marked. rewrite List.existsb_app, orb_true_iff. done. Qed.

Lemma gap_ranges_same_group order start end_ fetchStart fetchEnd :
  loc_ok start -> in_range fetchStart fetchEnd start -> loc_le end_ fetchEnd ->
  (group start =? group end_) = true -> object start < object end_ ->
  exists ranges,
    match prevInGroup end_ with Some p => Some [(start, p)] | None => Some [] end = Some ranges /\
    forall l, loc_ok l -> marked l ranges = true <->
      in_range fetchStart fetchEnd l /\ visited_between order start end_ l.
Proof.
  intros Hs [R1 R2] R4 Eg Hlt. rewrite prevInGroup_spec.
  replace (0 <? object end_) with true by (clear -Hs Hlt; loc_lia).
  eexists; split; [done|]. intros l Hl. unfold visited_between, before. rewrite eq_or.
  rewrite marked_cons, marked_nil. unfold in_range.
  destruct (isNewestFirst order); clear -R1 R2 R4 Eg Hlt; loc_lia.
Qed.

Lemma gap_ranges_desc order start end_ fetchStart fetchEnd :
  isNewestFirst order = true ->
  loc_ok start -> loc_ok end_ -> loc_ok fetchStart -> loc_ok fetchEnd ->
  in_range fetchStart fetchEnd start -> loc_le fetchStart end_ -> group end_ < group start ->
  exists ranges,
    (startGroupEnd ← (if group start =? group fetchEnd then prevInGroup fetchEnd
                      else Some (Loc (group start) (object kLocationMax)));
     endNextGroup ← nextGroup end_;
     startPrevGroupEnd ← prevGroupEnd start;
     last_ ← (if loc_ltb (if group end_ =? group fetchStart then fetchStart else Loc (group end_) 0) end_
              then p ← prevInGroup end_;
                   Some [(if group end_ =? group fetchStart then fetchStart else Loc (group end_) 0, p)]
              else Some []);
     Some ((start, startGroupEnd) ::
           (if group endNextGroup <=? group startPrevGroupEnd
            then [(endNextGroup, startPrevGroupEnd)] else []) ++ last_)) = Some ranges /\
    forall l, loc_ok l -> marked l ranges = true <->
      in_range fetchStart fetchEnd l /\ visited_between order start end_ l.
Proof.
  intros Ho Hs He Hfs Hfe [R1 R2] R3 Hlt.
  rewrite nextGroup_spec, prevGroupEnd_spec, !prevInGroup_spec.
  replace (group end_ <? group kLocationMax) with true by (clear -Hs Hlt; loc_lia).
  replace (0 <? group start) with true by (clear -He Hlt; loc_lia).
  set (sge := if group start =? group fetchEnd then Loc (group start) (object fetchEnd - 1)
              else Loc (group start) (object kLocationMax)).
  replace (if group start =? group fetchEnd then _ else _) with (Some sge).
  2: { unfold sge. clear -Hs R2. destruct (group start =? group fetchEnd) eqn:E; [|done].
       replace (0 <? object fetchEnd) with true by loc_lia. do 2 f_equal. lia. }
  assert (Hsge : forall l, loc_ok l -> loc_le start l /\ loc_le l sge <->
    group l = group start /\ object start <= object l /\ loc_lt l fetchEnd).
  { intros l Hl. unfold sge. clear -Hl R2. loc_lia. }
  clearbody sge. simpl.
  set (egs := if group end_ =? group fetchStart then fetchStart else Loc (group end_) 0).
  assert (Hegs : forall l, loc_ok l -> group l = group end_ -> loc_le egs l <-> loc_le fetchStart l).
  { intros l Hl Hg. unfold egs. clear -Hl Hg R3. loc_lia. }
  assert (Hegs' : group egs = group end_ /\ 0 <= object egs).
  { unfold egs. clear -He Hfs. loc_lia. }
  clearbody egs.
  destruct (loc_ltb egs end_) eqn:El.
  1: replace (0 <? object end_) with true by (clear -El Hegs'; loc_lia).
  all: simpl; eexists; (split; [done|]); intros l Hl; specialize (Hsge l Hl); specialize (Hegs l Hl);
    unfold visited_between, before; rewrite Ho, eq_or; rewrite marked_cons, Hsge, marked_app;
    clear Hsge; (case_test; rewrite ?marked_cons, ?marked_nil); unfold in_range; simpl;
    clear -Hl R1 R2 R3 Hlt Hegs Hegs' El Eb; loc_unfold; lia.
Qed.

(** Descending order, a miss run that ends at a boundary inside the range:
    the upstream intervals cover exactly the positions visited from the miss up
    to the boundary, and none outside the requested range. *)
Theorem getFetchIntervals_desc_exact start end_ miss hit l :
  loc_ok start -> loc_ok end_ -> loc_ok miss -> loc_ok hit -> loc_ok l ->
  in_range start end_ miss -> in_range start end_ hit -> before NewestFirst miss hit ->
  fetched l (getFetchIntervals start end_ miss hit NewestFirst false) = true <->
  in_range start end_ l /\ visited_between NewestFirst miss hit l.
Proof.
  intros Hs He Hm Hh Hl [Rm1 Rm2] [Rh1 Rh2] Hb. pose proof kLocationMax_range as Hk.
  unfold visited_between. rewrite eq_or. unfold getFetchIntervals. simpl.
  destruct (group miss =? group hit) eqn:E.
  { rewrite fetched_cons, fetched_nil. clear Hk Hs He Hm Hh Hl. range_lia. }
  assert (Hgt : group hit < group miss) by (clear -E Hb; unfold before in Hb; simpl in Hb; lia).
  assert (Hsh : group start <= group hit) by (clear -Rh1; loc_lia).
  unfold loc_ok in *. rewrite (u64_id (group miss - group hit - 1)) by (clear -Hm Hh Hk Hgt; lia).
  rewrite !u64_id by (clear -Hm Hh Hk Hgt; lia).
  rewrite fetched_app, desc_first_and_middle, desc_last by done. clear -Hgt Hsh Rm2.
  unfold before, in_range. simpl. loc_unfold. lia.
Qed.

(** Ascending order: one interval, exactly the positions from the miss to
    the boundary, or to the end of the range for the tail. *)
Theorem getFetchIntervals_asc_exact start end_ miss hit order isTail l :
  isNewestFirst order = false ->
  fetched l (getFetchIntervals start end_ miss hit order isTail) = true <->
  in_range miss (if isTail then end_ else hit) l.
Proof.
  intros Ho. unfold getFetchIntervals. rewrite Ho. simpl. range_lia.
Qed.

(** Descending order, the tail of the range, when the iterator ran out of
    cached content (its position is then the sentinel {0,0}): the upstream
    intervals cover exactly the rest of the range when the range starts in
    group 1, or starts later and the miss is at the start of its group. *)
Theorem getFetchIntervals_desc_tail_exact start end_ miss l :
  loc_ok start -> loc_ok end_ -> loc_ok miss -> loc_ok l ->
  in_range start end_ miss ->
  group start = 1 \/ (1 < group start /\ object miss = 0) ->
  fetched l (getFetchIntervals start end_ miss (Loc 0 0) NewestFirst true) = true <->
  in_range start end_ l /\ (miss = l \/ before NewestFirst miss l).
Proof.
  intros Hs He Hm Hl [Rm1 Rm2] Hg.
  rewrite desc_tail_shape, eq_or by (try done; clear -Rm1 Hg; loc_lia).
  pose proof (desc_interval_end end_ miss l He Hm Hl Rm2) as Hie.
  unfold in_range, before. simpl.
  set (ie := if group miss =? group end_ then end_ else default end_ (nextGroup miss)) in *.
  clearbody ie. destruct (0 <? group miss - 1) eqn:E1; [destruct (object miss =? 0) eqn:E2|];
    rewrite ?fetched_cons, fetched_nil; unfold in_range; simpl; rewrite Hie; clear Hie.
  - replace (loc_max start (Loc 1 0)) with start
      by (unfold loc_max; case_test; [exfalso|done]; clear -Eb Hg Hs; loc_lia).
    clear -Rm1 Rm2 Hl E2. loc_lia.
  - destruct Hg as [Hg|[_ Hg]]; [|lia]. rewrite Hg. simpl. clear -Rm1 Rm2 Hl E1 E2 Hg. loc_lia.
  - clear -Rm1 Rm2 Hl E1 Hg. loc_lia.
Qed.

(** A descending tail never asks upstream for group 0: whatever the range
    requests there is dropped once the miss is in a later group. *)
Theorem getFetchIntervals_desc_tail_skips_group0 start end_ miss o :
  loc_ok end_ -> loc_ok miss -> loc_lt miss end_ -> 0 < group miss -> 0 <= o ->
  fetched (Loc 0 o) (getFetchIntervals start end_ miss (Loc 0 0) NewestFirst true) = false.
Proof.
  intros He Hm Rm2 Hg Ho. rewrite desc_tail_shape by done. apply not_true_iff_false.
  destruct (0 <? group miss - 1) eqn:E1; [destruct (object miss =? 0) eqn:E2|];
    rewrite ?fetched_cons, fetched_nil; unfold in_range; simpl; clear He Hm Rm2; loc_lia.
Qed.

(** A descending tail that starts in the middle of a group asks upstream
    for the groups from 1 on, also when the range starts in a later group. *)
Theorem getFetchIntervals_desc_tail_overfetches start end_ miss o :
  loc_ok end_ -> loc_ok miss -> in_range start end_ miss ->
  1 < group start -> 0 < object miss -> 0 <= o ->
  let l := Loc 1 o in
  ~ in_range start end_ l /\
  fetched l (getFetchIntervals start end_ miss (Loc 0 0) NewestFirst true) = true.
Proof.
  intros He Hm [Rm1 Rm2] Hg Ho1 Ho l. assert (1 < group miss) by (clear -Rm1 Hg; loc_lia).
  split; [unfold in_range, l; clear -Hg; loc_lia|]. rewrite desc_tail_shape by (done || lia).
  replace (0 <? group miss - 1) with true by lia. replace (object miss =? 0) with false by lia.
  replace (group start =? 1) with false by lia.
  rewrite !fetched_cons. right. left. unfold in_range, l. simpl. clear He Hm Rm1 Rm2. loc_lia.
Qed.

(** The gap ranges of a jump of the fetch cursor are computed without
    failing a check, and mark exactly the positions of the requested range that
    the fetch order visits from the cursor up to the target: no position
    outside the requested range is ever recorded as non-existent. *)
Theorem getGapRanges_exact order start end_ fetchStart fetchEnd :
  loc_ok start -> loc_ok end_ -> loc_ok fetchStart -> loc_ok fetchEnd ->
  in_range fetchStart fetchEnd start -> loc_le fetchStart end_ -> loc_le end_ fetchEnd ->
  exists ranges, getGapRanges start end_ order fetchStart fetchEnd = Some ranges /\
    forall l, loc_ok l ->
      marked l ranges = true <->
      in_range fetchStart fetchEnd l /\ visited_between order start end_ l.
Proof.
  intros Hs He Hfs Hfe [R1 R2] R3 R4. unfold getGapRanges.
  destruct (isNewestFirst order) eqn:Ho; simpl.
  - destruct (_ || _) eqn:Eem.
    { eexists; split; [done|]. intros l Hl. unfold visited_between, before. rewrite Ho, eq_or.
      clear -Eem. unfold marked. simpl. loc_lia. }
    destruct (group start =? group end_) eqn:Eg.
    { apply gap_ranges_same_group; try done. clear -Eem Eg. lia. }
    apply gap_ranges_desc; try done. clear -Eem Eg. lia.
  - destruct (loc_leb end_ start) eqn:Eem.
    { eexists; split; [done|]. intros l Hl. unfold visited_between, before. rewrite Ho, eq_or.
      clear -Eem. unfold marked. simpl. loc_lia. }
    apply loc_leb_false in Eem.
    destruct (group start =? group end_) eqn:Eg.
    { apply gap_ranges_same_group; try done. clear -Eem Eg. loc_lia. }
    destruct (prev_cut end_ start He Hs Eem) as (p & Hp & Hpok & Hpl). rewrite Hp. simpl.
    eexists; split; [done|]. intros l Hl. unfold visited_between, before. rewrite Ho, eq_or.
    rewrite marked_cons, marked_nil. specialize (Hpl l Hl). clear -Hpl R1 R2 R3 R4 Eem.
    unfold in_range in *. loc_lia.
Qed.
End theorems.
