(* ===== verification/CacheState.v ===== *)
(** The store of the object cache (MoqxCache.h): entries, groups, tracks and
    the cache itself.

    Tracks and groups are shared objects: the cache maps name them, and
    in-flight writebacks and fetches keep pointers to them after the cache has
    dropped them.  The store therefore has two heaps, [theTracks] and
    [theGroups], and the maps of the source hold references into them.  A
    [std::list] iterator kept by an object (its place in an LRU list) is modelled
    by marking the list node with the object that owns it; the optional iterator
    itself is then a boolean.  Byte counts and times are unbounded integers; a
    time is in nanoseconds and a cache duration in milliseconds. *)

From Stdlib Require Import Init.Byte.
From S2P Require Import Prelude Location CacheRanges.

(** ** Types of the moxygen library *)
(** A payload is a chain of buffers or null; only its bytes matter here. *)
Abbreviation Payload := (option (list byte)).
Definition payloadLength (p : Payload) : Z :=
  match p with Some b => Z.of_nat (length b) | None => 0 end.

(** Object and track extensions: an opaque type queried for integer values. *)
Class ExtensionsApi := {
  Extensions : Type;
  noExtensions : Extensions;
  getIntExtension : Extensions -> Z -> option Z;
  kPriorGroupIdGapExtensionType : Z;
  kPriorObjectIdGapExtensionType : Z;
  kMaxCacheDurationExtensionType : Z;
}.

Inductive PublishErrorCode := MALFORMED_TRACK | API_ERROR | BLOCKED | OTHER_ERROR (code : Z).
Record MoQPublishError := PubErr { pe_code : PublishErrorCode; pe_msg : string }.

(** ** Constants (MoqxCache.h, MoqxCache.cpp) *)
Definition kDefaultMaxCachedTracks : Z := 100.
Definition kDefaultMaxCachedGroupsPerTrack : Z := 3.
Definition kDefaultMaxCachedBytes : Z := 10 * 1024 * 1024.
Definition kDefaultMinEvictionBytes : Z := 100 * 1024.
Definition kMaxGapIntervalsPerTrack : Z := 256.
Definition kMaxGapValidation : Z := 100.

(** References into the heaps; [wref] names a FetchWriteback object. *)
Abbreviation gref := Z.
Abbreviation tref := Z.
Abbreviation wref := Z.

Section store.
Context `{LA : LocationApi} `{IA : IntervalSetApi} `{EA : ExtensionsApi}.

(** A cached object. *)
Record CacheEntry := mkEntry {
  ce_subgroup : Z;
  ce_status : ObjectStatus;
  ce_extensions : Extensions;
  ce_payload : Payload;
  ce_payloadSize : Z;
  ce_complete : bool;
  ce_forwardingPreferenceIsDatagram : bool;
  ce_cachedAt : Z;
}.

(** A cached group. *)
Record CacheGroup := mkGroup {
  objects : gmap Z CacheEntry;
  maxCachedObject : Z;
  endOfGroup : bool;
  seenPriorGroupIdGap : option Z;
  totalBytes : Z;
  pinCount_ : Z;
  g_lruIter_ : bool;
  g_globalLruIter_ : bool;
}.

(** An upstream fetch that is writing into a track. *)
Record FetchInProgressEntry := mkFetchInProgress {
  fip_end : AbsoluteLocation;
  fip_progress : AbsoluteLocation;
  fip_writeback : wref;
}.

(** A cached track. *)
Record CacheTrack := mkTrack {
  groups : gmap Z gref;
  gaps : ISet;
  cachedContent : ISet;
  liveWritebackCount : Z;
  endOfTrack : bool;
  largestGroupAndObject : option AbsoluteLocation;
  fetchesInProgress : list (AbsoluteLocation * FetchInProgressEntry);
  t_lruIter_ : bool;
  groupLRU : list (gref * Z);
  maxCacheDuration : option Z;
  extensions : Extensions;
  evicted : bool;
  lastWrite : Z;
}.

(** The cache. *)
Record MoqxCache := mkCache {
  theGroups : gmap gref CacheGroup;
  theTracks : gmap tref CacheTrack;
  nextGref : gref;
  nextTref : tref;
  cache_ : gmap FullTrackName tref;
  trackLRU_ : list (tref * FullTrackName);
  globalGroupLRU_ : list (gref * (FullTrackName * Z));
  maxCachedTracks_ : Z;
  maxCachedGroupsPerTrack_ : Z;
  maxCachedBytes_ : Z;
  minEvictionBytes_ : Z;
  totalCachedBytes_ : Z;
  defaultMaxCacheDuration_ : option Z;
  maxAllowedCacheDuration_ : option Z;
}.

(** Field updates. *)
Definition set_ce_subgroup (v : Z) (r : CacheEntry) : CacheEntry :=
  mkEntry v (ce_status r) (ce_extensions r) (ce_payload r) (ce_payloadSize r) (ce_complete r) (ce_forwardingPreferenceIsDatagram r) (ce_cachedAt r).
Definition set_ce_status (v : ObjectStatus) (r : CacheEntry) : CacheEntry :=
  mkEntry (ce_subgroup r) v (ce_extensions r) (ce_payload r) (ce_payloadSize r) (ce_complete r) (ce_forwardingPreferenceIsDatagram r) (ce_cachedAt r).
Definition set_ce_extensions (v : Extensions) (r : CacheEntry) : CacheEntry :=
  mkEntry (ce_subgroup r) (ce_status r) v (ce_payload r) (ce_payloadSize r) (ce_complete r) (ce_forwardingPreferenceIsDatagram r) (ce_cachedAt r).
Definition set_ce_payload (v : Payload) (r : CacheEntry) : CacheEntry :=
  mkEntry (ce_subgroup r) (ce_status r) (ce_extensions r) v (ce_payloadSize r) (ce_complete r) (ce_forwardingPreferenceIsDatagram r) (ce_cachedAt r).
Definition set_ce_payloadSize (v : Z) (r : CacheEntry) : CacheEntry :=
  mkEntry (ce_subgroup r) (ce_status r) (ce_extensions r) (ce_payload r) v (ce_complete r) (ce_forwardingPreferenceIsDatagram r) (ce_cachedAt r).
Definition set_ce_complete (v : bool) (r : CacheEntry) : CacheEntry :=
  mkEntry (ce_subgroup r) (ce_status r) (ce_extensions r) (ce_payload r) (ce_payloadSize r) v (ce_forwardingPreferenceIsDatagram r) (ce_cachedAt r).
Definition set_ce_forwardingPreferenceIsDatagram (v : bool) (r : CacheEntry) : CacheEntry :=
  mkEntry (ce_subgroup r) (ce_status r) (ce_extensions r) (ce_payload r) (ce_payloadSize r) (ce_complete r) v (ce_cachedAt r).
Definition set_ce_cachedAt (v : Z) (r : CacheEntry) : CacheEntry :=
  mkEntry (ce_subgroup r) (ce_status r) (ce_extensions r) (ce_payload r) (ce_payloadSize r) (ce_complete r) (ce_forwardingPreferenceIsDatagram r) v.
Definition set_objects (v : gmap Z CacheEntry) (r : CacheGroup) : CacheGroup :=
  mkGroup v (maxCachedObject r) (endOfGroup r) (seenPriorGroupIdGap r) (totalBytes r) (pinCount_ r) (g_lruIter_ r) (g_globalLruIter_ r).
Definition set_maxCachedObject (v : Z) (r : CacheGroup) : CacheGroup :=
  mkGroup (objects r) v (endOfGroup r) (seenPriorGroupIdGap r) (totalBytes r) (pinCount_ r) (g_lruIter_ r) (g_globalLruIter_ r).
Definition set_endOfGroup (v : bool) (r : CacheGroup) : CacheGroup :=
  mkGroup (objects r) (maxCachedObject r) v (seenPriorGroupIdGap r) (totalBytes r) (pinCount_ r) (g_lruIter_ r) (g_globalLruIter_ r).
Definition set_seenPriorGroupIdGap (v : option Z) (r : CacheGroup) : CacheGroup :=
  mkGroup (objects r) (maxCachedObject r) (endOfGroup r) v (totalBytes r) (pinCount_ r) (g_lruIter_ r) (g_globalLruIter_ r).
Definition set_totalBytes (v : Z) (r : CacheGroup) : CacheGroup :=
  mkGroup (objects r) (maxCachedObject r) (endOfGroup r) (seenPriorGroupIdGap r) v (pinCount_ r) (g_lruIter_ r) (g_globalLruIter_ r).
Definition set_pinCount_ (v : Z) (r : CacheGroup) : CacheGroup :=
  mkGroup (objects r) (maxCachedObject r) (endOfGroup r) (seenPriorGroupIdGap r) (totalBytes r) v (g_lruIter_ r) (g_globalLruIter_ r).
Definition set_g_lruIter_ (v : bool) (r : CacheGroup) : CacheGroup :=
  mkGroup (objects r) (maxCachedObject r) (endOfGroup r) (seenPriorGroupIdGap r) (totalBytes r) (pinCount_ r) v (g_globalLruIter_ r).
Definition set_g_globalLruIter_ (v : bool) (r : CacheGroup) : CacheGroup :=
  mkGroup (objects r) (maxCachedObject r) (endOfGroup r) (seenPriorGroupIdGap r) (totalBytes r) (pinCount_ r) (g_lruIter_ r) v.
Definition set_groups (v : gmap Z gref) (r : CacheTrack) : CacheTrack :=
  mkTrack v (gaps r) (cachedContent r) (liveWritebackCount r) (endOfTrack r) (largestGroupAndObject r) (fetchesInProgress r) (t_lruIter_ r) (groupLRU r) (maxCacheDuration r) (extensions r) (evicted r) (lastWrite r).
Definition set_gaps (v : ISet) (r : CacheTrack) : CacheTrack :=
  mkTrack (groups r) v (cachedContent r) (liveWritebackCount r) (endOfTrack r) (largestGroupAndObject r) (fetchesInProgress r) (t_lruIter_ r) (groupLRU r) (maxCacheDuration r) (extensions r) (evicted r) (lastWrite r).
Definition set_cachedContent (v : ISet) (r : CacheTrack) : CacheTrack :=
  mkTrack (groups r) (gaps r) v (liveWritebackCount r) (endOfTrack r) (largestGroupAndObject r) (fetchesInProgress r) (t_lruIter_ r) (groupLRU r) (maxCacheDuration r) (extensions r) (evicted r) (lastWrite r).
Definition set_liveWritebackCount (v : Z) (r : CacheTrack) : CacheTrack :=
  mkTrack (groups r) (gaps r) (cachedContent r) v (endOfTrack r) (largestGroupAndObject r) (fetchesInProgress r) (t_lruIter_ r) (groupLRU r) (maxCacheDuration r) (extensions r) (evicted r) (lastWrite r).
Definition set_endOfTrack (v : bool) (r : CacheTrack) : CacheTrack :=
  mkTrack (groups r) (gaps r) (cachedContent r) (liveWritebackCount r) v (largestGroupAndObject r) (fetchesInProgress r) (t_lruIter_ r) (groupLRU r) (maxCacheDuration r) (extensions r) (evicted r) (lastWrite r).
Definition set_largestGroupAndObject (v : option AbsoluteLocation) (r : CacheTrack) : CacheTrack :=
  mkTrack (groups r) (gaps r) (cachedContent r) (liveWritebackCount r) (endOfTrack r) v (fetchesInProgress r) (t_lruIter_ r) (groupLRU r) (maxCacheDuration r) (extensions r) (evicted r) (lastWrite r).
Definition set_fetchesInProgress (v : list (AbsoluteLocation * FetchInProgressEntry)) (r : CacheTrack) : CacheTrack :=
  mkTrack (groups r) (gaps r) (cachedContent r) (liveWritebackCount r) (endOfTrack r) (largestGroupAndObject r) v (t_lruIter_ r) (groupLRU r) (maxCacheDuration r) (extensions r) (evicted r) (lastWrite r).
Definition set_t_lruIter_ (v : bool) (r : CacheTrack) : CacheTrack :=
  mkTrack (groups r) (gaps r) (cachedContent r) (liveWritebackCount r) (endOfTrack r) (largestGroupAndObject r) (fetchesInProgress r) v (groupLRU r) (maxCacheDuration r) (extensions r) (evicted r) (lastWrite r).
Definition set_groupLRU (v : list (gref * Z)) (r : CacheTrack) : CacheTrack :=
  mkTrack (groups r) (gaps r) (cachedContent r) (liveWritebackCount r) (endOfTrack r) (largestGroupAndObject r) (fetchesInProgress r) (t_lruIter_ r) v (maxCacheDuration r) (extensions r) (evicted r) (lastWrite r).
Definition set_maxCacheDuration (v : option Z) (r : CacheTrack) : CacheTrack :=
  mkTrack (groups r) (gaps r) (cachedContent r) (liveWritebackCount r) (endOfTrack r) (largestGroupAndObject r) (fetchesInProgress r) (t_lruIter_ r) (groupLRU r) v (extensions r) (evicted r) (lastWrite r).
Definition set_extensions (v : Extensions) (r : CacheTrack) : CacheTrack :=
  mkTrack (groups r) (gaps r) (cachedContent r) (liveWritebackCount r) (endOfTrack r) (largestGroupAndObject r) (fetchesInProgress r) (t_lruIter_ r) (groupLRU r) (maxCacheDuration r) v (evicted r) (lastWrite r).
Definition set_evicted (v : bool) (r : CacheTrack) : CacheTrack :=
  mkTrack (groups r) (gaps r) (cachedContent r) (liveWritebackCount r) (endOfTrack r) (largestGroupAndObject r) (fetchesInProgress r) (t_lruIter_ r) (groupLRU r) (maxCacheDuration r) (extensions r) v (lastWrite r).
Definition set_lastWrite (v : Z) (r : CacheTrack) : CacheTrack :=
  mkTrack (groups r) (gaps r) (cachedContent r) (liveWritebackCount r) (endOfTrack r) (largestGroupAndObject r) (fetchesInProgress r) (t_lruIter_ r) (groupLRU r) (maxCacheDuration r) (extensions r) (evicted r) v.
Definition set_theGroups (v : gmap gref CacheGroup) (r : MoqxCache) : MoqxCache :=
  mkCache v (theTracks r) (nextGref r) (nextTref r) (cache_ r) (trackLRU_ r) (globalGroupLRU_ r) (maxCachedTracks_ r) (maxCachedGroupsPerTrack_ r) (maxCachedBytes_ r) (minEvictionBytes_ r) (totalCachedBytes_ r) (defaultMaxCacheDuration_ r) (maxAllowedCacheDuration_ r).
Definition set_theTracks (v : gmap tref CacheTrack) (r : MoqxCache) : MoqxCache :=
  mkCache (theGroups r) v (nextGref r) (nextTref r) (cache_ r) (trackLRU_ r) (globalGroupLRU_ r) (maxCachedTracks_ r) (maxCachedGroupsPerTrack_ r) (maxCachedBytes_ r) (minEvictionBytes_ r) (totalCachedBytes_ r) (defaultMaxCacheDuration_ r) (maxAllowedCacheDuration_ r).
Definition set_nextGref (v : gref) (r : MoqxCache) : MoqxCache :=
  mkCache (theGroups r) (theTracks r) v (nextTref r) (cache_ r) (trackLRU_ r) (globalGroupLRU_ r) (maxCachedTracks_ r) (maxCachedGroupsPerTrack_ r) (maxCachedBytes_ r) (minEvictionBytes_ r) (totalCachedBytes_ r) (defaultMaxCacheDuration_ r) (maxAllowedCacheDuration_ r).
Definition set_nextTref (v : tref) (r : MoqxCache) : MoqxCache :=
  mkCache (theGroups r) (theTracks r) (nextGref r) v (cache_ r) (trackLRU_ r) (globalGroupLRU_ r) (maxCachedTracks_ r) (maxCachedGroupsPerTrack_ r) (maxCachedBytes_ r) (minEvictionBytes_ r) (totalCachedBytes_ r) (defaultMaxCacheDuration_ r) (maxAllowedCacheDuration_ r).
Definition set_cache_ (v : gmap FullTrackName tref) (r : MoqxCache) : MoqxCache :=
  mkCache (theGroups r) (theTracks r) (nextGref r) (nextTref r) v (trackLRU_ r) (globalGroupLRU_ r) (maxCachedTracks_ r) (maxCachedGroupsPerTrack_ r) (maxCachedBytes_ r) (minEvictionBytes_ r) (totalCachedBytes_ r) (defaultMaxCacheDuration_ r) (maxAllowedCacheDuration_ r).
Definition set_trackLRU_ (v : list (tref * FullTrackName)) (r : MoqxCache) : MoqxCache :=
  mkCache (theGroups r) (theTracks r) (nextGref r) (nextTref r) (cache_ r) v (globalGroupLRU_ r) (maxCachedTracks_ r) (maxCachedGroupsPerTrack_ r) (maxCachedBytes_ r) (minEvictionBytes_ r) (totalCachedBytes_ r) (defaultMaxCacheDuration_ r) (maxAllowedCacheDuration_ r).
Definition set_globalGroupLRU_ (v : list (gref * (FullTrackName * Z))) (r : MoqxCache) : MoqxCache :=
  mkCache (theGroups r) (theTracks r) (nextGref r) (nextTref r) (cache_ r) (trackLRU_ r) v (maxCachedTracks_ r) (maxCachedGroupsPerTrack_ r) (maxCachedBytes_ r) (minEvictionBytes_ r) (totalCachedBytes_ r) (defaultMaxCacheDuration_ r) (maxAllowedCacheDuration_ r).
Definition set_maxCachedTracks_ (v : Z) (r : MoqxCache) : MoqxCache :=
  mkCache (theGroups r) (theTracks r) (nextGref r) (nextTref r) (cache_ r) (trackLRU_ r) (globalGroupLRU_ r) v (maxCachedGroupsPerTrack_ r) (maxCachedBytes_ r) (minEvictionBytes_ r) (totalCachedBytes_ r) (defaultMaxCacheDuration_ r) (maxAllowedCacheDuration_ r).
Definition set_maxCachedGroupsPerTrack_ (v : Z) (r : MoqxCache) : MoqxCache :=
  mkCache (theGroups r) (theTracks r) (nextGref r) (nextTref r) (cache_ r) (trackLRU_ r) (globalGroupLRU_ r) (maxCachedTracks_ r) v (maxCachedBytes_ r) (minEvictionBytes_ r) (totalCachedBytes_ r) (defaultMaxCacheDuration_ r) (maxAllowedCacheDuration_ r).
Definition set_maxCachedBytes_ (v : Z) (r : MoqxCache) : MoqxCache :=
  mkCache (theGroups r) (theTracks r) (nextGref r) (nextTref r) (cache_ r) (trackLRU_ r) (globalGroupLRU_ r) (maxCachedTracks_ r) (maxCachedGroupsPerTrack_ r) v (minEvictionBytes_ r) (totalCachedBytes_ r) (defaultMaxCacheDuration_ r) (maxAllowedCacheDuration_ r).
Definition set_minEvictionBytes_ (v : Z) (r : MoqxCache) : MoqxCache :=
  mkCache (theGroups r) (theTracks r) (nextGref r) (nextTref r) (cache_ r) (trackLRU_ r) (globalGroupLRU_ r) (maxCachedTracks_ r) (maxCachedGroupsPerTrack_ r) (maxCachedBytes_ r) v (totalCachedBytes_ r) (defaultMaxCacheDuration_ r) (maxAllowedCacheDuration_ r).
Definition set_totalCachedBytes_ (v : Z) (r : MoqxCache) : MoqxCache :=
  mkCache (theGroups r) (theTracks r) (nextGref r) (nextTref r) (cache_ r) (trackLRU_ r) (globalGroupLRU_ r) (maxCachedTracks_ r) (maxCachedGroupsPerTrack_ r) (maxCachedBytes_ r) (minEvictionBytes_ r) v (defaultMaxCacheDuration_ r) (maxAllowedCacheDuration_ r).
Definition set_defaultMaxCacheDuration_ (v : option Z) (r : MoqxCache) : MoqxCache :=
  mkCache (theGroups r) (theTracks r) (nextGref r) (nextTref r) (cache_ r) (trackLRU_ r) (globalGroupLRU_ r) (maxCachedTracks_ r) (maxCachedGroupsPerTrack_ r) (maxCachedBytes_ r) (minEvictionBytes_ r) (totalCachedBytes_ r) v (maxAllowedCacheDuration_ r).
Definition set_maxAllowedCacheDuration_ (v : option Z) (r : MoqxCache) : MoqxCache :=
  mkCache (theGroups r) (theTracks r) (nextGref r) (nextTref r) (cache_ r) (trackLRU_ r) (globalGroupLRU_ r) (maxCachedTracks_ r) (maxCachedGroupsPerTrack_ r) (maxCachedBytes_ r) (minEvictionBytes_ r) (totalCachedBytes_ r) (defaultMaxCacheDuration_ r) v.

(** [TimePoint::min()]. *)
Definition timePointMin : Z := - 2 ^ 63.

Definition newGroup : CacheGroup := mkGroup ∅ 0 false None 0 0 false false.
Definition newTrack : CacheTrack :=
  mkTrack ∅ iset_empty iset_empty 0 false None [] false [] None noExtensions false timePointMin.
Definition newCache (maxTracks maxGroups maxBytes minEvict : Z) : MoqxCache :=
  mkCache ∅ ∅ 0 0 ∅ [] [] maxTracks maxGroups maxBytes minEvict 0 None None.

(** ** Heap access *)
Definition getGroup (r : gref) : M MoqxCache CacheGroup :=
  c ← get; deref (theGroups c !! r).
Definition putGroup (r : gref) (g : CacheGroup) : M MoqxCache unit :=
  modify (fun c => set_theGroups (<[r:=g]> (theGroups c)) c).
Definition modGroup (r : gref) (f : CacheGroup -> CacheGroup) : M MoqxCache unit :=
  g ← getGroup r; putGroup r (f g).
Definition getTrack (t : tref) : M MoqxCache CacheTrack :=
  c ← get; deref (theTracks c !! t).
Definition putTrack (t : tref) (tr : CacheTrack) : M MoqxCache unit :=
  modify (fun c => set_theTracks (<[t:=tr]> (theTracks c)) c).
Definition modTrack (t : tref) (f : CacheTrack -> CacheTrack) : M MoqxCache unit :=
  tr ← getTrack t; putTrack t (f tr).

(** [std::make_shared<CacheGroup>()] and [std::make_shared<CacheTrack>()]. *)
Definition makeGroup : M MoqxCache gref :=
  c ← get; let r := nextGref c in
  modify (fun c => set_nextGref (r + 1) (set_theGroups (<[r:=newGroup]> (theGroups c)) c));; mret r.
Definition makeTrack : M MoqxCache tref :=
  c ← get; let t := nextTref c in
  modify (fun c => set_nextTref (t + 1) (set_theTracks (<[t:=newTrack]> (theTracks c)) c));; mret t.

(** ** CacheTrack, the operations that stay inside one track *)
Definition canEvict (tr : CacheTrack) : bool :=
  (liveWritebackCount tr =? 0) && match fetchesInProgress tr with [] => true | _ => false end.

Definition isJoinPoint (tr : CacheTrack) (groupID : Z) : bool :=
  (0 <? liveWritebackCount tr) &&
  match largestGroupAndObject tr with Some l => group l =? groupID | None => false end.

Definition shouldSkipCaching (tr : CacheTrack) : bool :=
  evicted tr || match maxCacheDuration tr with Some d => d =? 0 | None => false end.

(** The loop of [enforceGapLimit]; every round pops one gap interval, so the
    number of intervals is enough fuel. *)
Fixpoint enforceGapLimit_loop (fuel : nat) (tr : CacheTrack) : CacheTrack :=
  if kMaxGapIntervalsPerTrack <? iset_size (gaps tr) then
    match fuel with
    | O => tr
    | S fuel =>
      match iset_popFront (gaps tr) with
      | (Some (a, b), rest) =>
        enforceGapLimit_loop fuel
          (set_cachedContent (iset_remove (cachedContent tr) a b) (set_gaps rest tr))
      | (None, rest) => tr
      end
    end
  else tr.
Definition enforceGapLimit (tr : CacheTrack) : CacheTrack :=
  enforceGapLimit_loop (Z.to_nat (iset_size (gaps tr))) tr.

Definition insertGap (start end_ : AbsoluteLocation) (tr : CacheTrack) : CacheTrack :=
  enforceGapLimit
    (set_cachedContent (iset_insert (cachedContent tr) start end_)
      (set_gaps (iset_insert (gaps tr) start end_) tr)).

Definition forgetRange (start end_ : AbsoluteLocation) (tr : CacheTrack) : CacheTrack :=
  enforceGapLimit
    (set_cachedContent (iset_remove (cachedContent tr) start end_)
      (set_gaps (iset_remove (gaps tr) start end_) tr)).

Definition malformed (msg : string) : MoQPublishError := PubErr MALFORMED_TRACK msg.

(** Only [endOfTrack] and [largestGroupAndObject] change. *)
Definition updateLargest (current : AbsoluteLocation) (eot : bool) (tr : CacheTrack)
  : result MoQPublishError CacheTrack :=
  let isNew := match largestGroupAndObject tr with
               | None => true | Some l => loc_ltb l current end in
  if isNew then
    if endOfTrack tr then Err (malformed "Malformed track")
    else Ok (set_largestGroupAndObject (Some current) (set_endOfTrack eot tr))
  else if eot then
    if match largestGroupAndObject tr with Some l => negb (loc_eqb current l) | None => true end
    then Err (malformed "Malformed track")
    else Ok (set_endOfTrack true tr)
  else Ok tr.

Definition fetchOkEnd (tr : CacheTrack) (start exclusiveEnd : AbsoluteLocation)
  : AbsoluteLocation * bool :=
  match largestGroupAndObject tr with
  | None => (exclusiveEnd, false)
  | Some largest =>
    let trackEnd := default kLocationMax (next largest) in
    if loc_ltb exclusiveEnd trackEnd then (exclusiveEnd, false)
    else if loc_leb trackEnd start then (start, false)
    else if negb (endOfTrack tr) && (liveWritebackCount tr =? 0) then (exclusiveEnd, false)
    else (trackEnd, endOfTrack tr)
  end.

(** The first writeback, from the last key not above [loc] downwards, whose
    unwritten part covers [loc].  The multimap is a list in key order. *)
Definition findFetchInProgress (tr : CacheTrack) (loc : AbsoluteLocation) : option wref :=
  (fun e => fip_writeback (snd e)) <$>
  List.find (fun e => loc_ltb loc (fip_end (snd e)) && loc_leb (fip_progress (snd e)) loc)
    (rev (List.filter (fun e => loc_leb (fst e) loc) (fetchesInProgress tr))).
End store.

(** ** Gap bookkeeping changes the two interval sets only *)
Section gap_frame.
Context `{LA : LocationApi} `{IA : IntervalSetApi} `{EA : ExtensionsApi}.
Implicit Types tr : CacheTrack.

Definition gap_frame tr tr' : Prop := exists x y, tr' = set_cachedContent x (set_gaps y tr).

Lemma gap_frame_refl tr : gap_frame tr tr.
Proof. exists (cachedContent tr), (gaps tr). by destruct tr. Qed.

Lemma gap_frame_trans tr1 tr2 tr3 : gap_frame tr1 tr2 -> gap_frame tr2 tr3 -> gap_frame tr1 tr3.
Proof. intros (x & y & ->) (x' & y' & ->). by exists x', y'. Qed.

Lemma enforceGapLimit_frame tr : gap_frame tr (enforceGapLimit tr).
Proof.
  unfold enforceGapLimit. generalize (Z.to_nat (iset_size (gaps tr))) as fuel. intros fuel.
  revert tr. induction fuel as [|fuel IH]; intros tr; simpl; case_test; try apply gap_frame_refl.
  destruct (iset_popFront (gaps tr)) as [[[a b]|] rest]; [|apply gap_frame_refl].
  eapply gap_frame_trans; [|apply IH]. eexists _, _. done.
Qed.

Lemma insertGap_frame a b tr : gap_frame tr (insertGap a b tr).
Proof. eapply gap_frame_trans; [|apply enforceGapLimit_frame]. eexists _, _. done. Qed.
Lemma forgetRange_frame a b tr : gap_frame tr (forgetRange a b tr).
Proof. eapply gap_frame_trans; [|apply enforceGapLimit_frame]. eexists _, _. done. Qed.
End gap_frame.
#[export] Hint Resolve gap_frame_refl insertGap_frame forgetRange_frame : moqx.

(** ** Gap bookkeeping *)
Section gap_theorems.
Context `{LL : LocationLaws} `{!IntervalSetApi} `{IL : !IntervalSetLaws} `{EA : ExtensionsApi}.
Implicit Types tr : CacheTrack.

(** "The two sets must stay aligned: cachedContent doubles as the union of the
    real objects and the known gaps." *)
Definition gaps_aligned (tr : CacheTrack) : Prop :=
  forall l, loc_ok l -> iset_contains (gaps tr) l = true -> iset_contains (cachedContent tr) l = true.

Lemma enforceGapLimit_loop_spec fuel : forall tr,
  iset_size (gaps tr) <= Z.of_nat fuel + kMaxGapIntervalsPerTrack ->
  let tr' := enforceGapLimit_loop fuel tr in
  iset_size (gaps tr') <= kMaxGapIntervalsPerTrack /\
  (forall l, loc_ok l -> iset_contains (gaps tr') l = true -> iset_contains (gaps tr) l = true) /\
  (forall l, loc_ok l -> iset_contains (cachedContent tr') l =
    iset_contains (cachedContent tr) l &&
    negb (iset_contains (gaps tr) l && negb (iset_contains (gaps tr') l))).
Proof.
  induction fuel as [|fuel IH]; intros tr Hsz; simpl; (case_test; [|split_and!; [lia|done|];
    intros l Hl; by destruct (iset_contains (gaps tr) l), (iset_contains (cachedContent tr) l)]).
  { unfold kMaxGapIntervalsPerTrack in *. lia. }
  destruct (iset_popFront (gaps tr)) as [[[a b]|] rest] eqn:Ep.
  2: { pose proof (popFront_none (gaps tr)) as Hn. rewrite Ep in Hn.
       unfold kMaxGapIntervalsPerTrack in *. specialize (Hn eq_refl). lia. }
  destruct (popFront_size _ _ _ Ep) as [Hsz' Hin]. destruct (interval_wf _ _ Hin) as (Hab & Ha & Hb).
  match goal with |- context [enforceGapLimit_loop fuel ?x] => set (tr1 := x) end.
  destruct (IH tr1) as (H1 & H2 & H3); [unfold tr1; simpl; lia|].
  assert (Hg : forall l, iset_contains (gaps tr1) l =
    iset_contains (gaps tr) l && negb (in_interval l (a, b))).
  { intros l. apply (popFront_contains _ _ _ _ Ep). }
  assert (Hc : forall l, loc_ok l -> iset_contains (cachedContent tr1) l =
    iset_contains (cachedContent tr) l && negb (in_interval l (a, b))).
  { intros l Hl. by apply contains_remove. }
  split_and!; [done| |].
  - intros l Hl Hl'. specialize (H2 l Hl Hl'). rewrite Hg in H2. by apply andb_true_iff in H2 as [? _].
  - intros l Hl. rewrite H3, Hc, Hg by done. specialize (H2 l Hl). rewrite Hg in H2.
    assert (in_interval l (a, b) = true -> iset_contains (gaps tr) l = true).
    { intros [Hi1 Hi2]%in_interval_spec. by apply (interval_contained _ _ _ Hin). }
    destruct (iset_contains (gaps tr) l), (iset_contains (cachedContent tr) l), (in_interval l (a, b)),
      (iset_contains (gaps (enforceGapLimit_loop fuel tr1)) l); simpl in *; intuition congruence.
Qed.

Lemma enforceGapLimit_spec tr :
  let tr' := enforceGapLimit tr in
  iset_size (gaps tr') <= kMaxGapIntervalsPerTrack /\
  (forall l, loc_ok l -> iset_contains (gaps tr') l = true -> iset_contains (gaps tr) l = true) /\
  (forall l, loc_ok l -> iset_contains (cachedContent tr') l =
    iset_contains (cachedContent tr) l &&
    negb (iset_contains (gaps tr) l && negb (iset_contains (gaps tr') l))).
Proof.
  apply enforceGapLimit_loop_spec. unfold kMaxGapIntervalsPerTrack.
  rewrite size_spec. lia.
Qed.

(** [insertGap]: the number of gap intervals stays within the limit, the
    two sets stay aligned, no position outside the inserted range becomes a
    gap, and no cached position is lost except gaps the limit dropped. *)
Theorem insertGap_correct tr start end_ :
  loc_ok start -> loc_ok end_ -> loc_le start end_ -> gaps_aligned tr ->
  let tr' := insertGap start end_ tr in
  iset_size (gaps tr') <= kMaxGapIntervalsPerTrack /\
  gaps_aligned tr' /\
  forall l, loc_ok l ->
    (iset_contains (gaps tr') l = true ->
       iset_contains (gaps tr) l = true \/ in_interval l (start, end_) = true) /\
    (iset_contains (cachedContent tr) l = true -> iset_contains (gaps tr) l = false ->
       in_interval l (start, end_) = false -> iset_contains (cachedContent tr') l = true).
Proof.
  intros Hs He Hle Hal tr'. unfold insertGap in tr'.
  match goal with tr' := enforceGapLimit ?x |- _ => destruct (enforceGapLimit_spec x) as (H1 & H2 & H3) end.
  fold tr' in H1, H2, H3. simpl in H2, H3. split_and!; [done| |].
  - intros l Hl Hg. rewrite H3 by done. specialize (H2 l Hl Hg). rewrite Hg.
    rewrite !contains_insert in * by done. specialize (Hal l Hl). rewrite andb_false_r, andb_true_r.
    apply orb_true_iff in H2 as [Hg'|Hi]; [by rewrite (Hal Hg')|by rewrite Hi, orb_true_r].
  - intros l Hl. specialize (H2 l Hl). rewrite H3 by done. rewrite !contains_insert in * by done.
    split; [intros Hg; specialize (H2 Hg); by apply orb_true_iff in H2|].
    intros -> -> ->. done.
Qed.

(** [forgetRange]: the limit and the alignment hold afterwards, nothing of
    the forgotten range is left in either set, and nothing is added. *)
Theorem forgetRange_correct tr start end_ :
  loc_ok start -> loc_ok end_ -> loc_le start end_ -> gaps_aligned tr ->
  let tr' := forgetRange start end_ tr in
  iset_size (gaps tr') <= kMaxGapIntervalsPerTrack /\
  gaps_aligned tr' /\
  forall l, loc_ok l ->
    (in_interval l (start, end_) = true -> iset_contains (gaps tr') l = false /\
       iset_contains (cachedContent tr') l = false) /\
    (iset_contains (gaps tr') l = true -> iset_contains (gaps tr) l = true) /\
    (iset_contains (cachedContent tr') l = true -> iset_contains (cachedContent tr) l = true).
Proof.
  intros Hs He Hle Hal tr'. unfold forgetRange in tr'.
  match goal with tr' := enforceGapLimit ?x |- _ => destruct (enforceGapLimit_spec x) as (H1 & H2 & H3) end.
  fold tr' in H1, H2, H3. simpl in H2, H3.
  assert (Hg : forall l, loc_ok l -> iset_contains (gaps tr') l = true ->
    iset_contains (gaps tr) l = true /\ in_interval l (start, end_) = false).
  { intros l Hl Hg. specialize (H2 l Hl Hg). rewrite contains_remove in H2 by done.
    apply andb_true_iff in H2 as [? ?%negb_true_iff]. done. }
  split_and!; [done| |].
  - intros l Hl Hgl. rewrite H3, Hgl by done. destruct (Hg l Hl Hgl) as [Hgl' Hi].
    rewrite !contains_remove, Hi, (Hal l) by done. simpl. by rewrite andb_false_r.
  - intros l Hl. rewrite H3, !contains_remove by done. split_and!.
    + intros Hi. rewrite Hi. simpl. rewrite andb_false_r. split; [|done].
      apply not_true_iff_false. intros Hgl. destruct (Hg l Hl Hgl). congruence.
    + intros Hgl. by apply Hg.
    + intros Hc. apply andb_true_iff in Hc as [Hc _]. by apply andb_true_iff in Hc as [? _].
Qed.
End gap_theorems.

(** ** Largest object and end of track *)
Section largest_theorems.
Context `{LL : LocationLaws} `{IA : IntervalSetApi} `{EA : ExtensionsApi}.
Implicit Types tr : CacheTrack.

(** [updateLargest] on every branch: it fails exactly when the location is
    past a known end of track, or claims an end of track below the largest
    location; otherwise the largest location is the maximum of the old and the
    new one, the end-of-track flag is never lost, and nothing else changes. *)
Theorem updateLargest_correct tr current eot :
  match updateLargest current eot tr with
  | Ok tr' =>
      (exists l', largestGroupAndObject tr' = Some l' /\ loc_le current l' /\
        (l' = current \/ largestGroupAndObject tr = Some l') /\
        (forall l, largestGroupAndObject tr = Some l -> loc_le l l')) /\
      endOfTrack tr' = endOfTrack tr || eot /\
      (eot = true -> largestGroupAndObject tr' = Some current) /\
      tr' = set_largestGroupAndObject (largestGroupAndObject tr') (set_endOfTrack (endOfTrack tr') tr)
  | Err e => pe_code e = MALFORMED_TRACK /\
      ((endOfTrack tr = true /\
        forall l, largestGroupAndObject tr = Some l -> loc_lt l current) \/
       (eot = true /\ exists l, largestGroupAndObject tr = Some l /\ loc_lt current l))
  end.
Proof.
  unfold updateLargest.
  destruct (largestGroupAndObject tr) as [l|] eqn:El; simpl.
  - destruct (loc_ltb l current) eqn:E.
    + apply loc_ltb_spec in E. destruct (endOfTrack tr) eqn:Ee; simpl.
      * split; [done|]. left. split; [done|]. intros l' [= <-]. done.
      * split_and!; [|done|done|by destruct tr].
        exists current. split_and!; [done|loc_lia|by left|]. intros l' [= <-]. loc_lia.
    + apply loc_ltb_false in E. destruct eot.
      * destruct (loc_eqb current l) eqn:Eq; simpl.
        -- apply loc_eqb_spec in Eq as ->. split_and!;
             [|by rewrite orb_true_r|done|by destruct tr].
           exists l. split_and!; [by rewrite El|loc_lia|by left|]. intros l' [= <-]. loc_lia.
        -- split; [done|]. right. split; [done|]. exists l. split; [done|].
           assert (current <> l) as Hne by (intros ->; unfold loc_eqb in Eq; lia).
           destruct current, l. loc_unfold. destruct E as [?|[-> ?]]; [by left|]. right.
           split; [done|]. enough (object <> object0) by lia. congruence.
      * rewrite orb_false_r. split_and!; [|done|done|by destruct tr].
        exists l. rewrite El. split_and!; [done|done|by right|]. intros l' [= <-]. loc_lia.
  - destruct (endOfTrack tr) eqn:Ee; simpl.
    + split; [done|]. left. split; [done|]. intros ? [=].
    + split_and!; [|done|done|by destruct tr].
      exists current. split_and!; [done|loc_lia|by left|]. intros l' [=].
Qed.

(** The End Location reported in FETCH_OK is never below the start of the
    fetch and never above its requested end, and end of track is reported only
    together with one past the largest object. *)
Theorem fetchOkEnd_bounds tr start exclusiveEnd :
  loc_le start exclusiveEnd ->
  let r := fetchOkEnd tr start exclusiveEnd in
  loc_le start r.1 /\ loc_le r.1 exclusiveEnd /\
  (r.2 = true -> endOfTrack tr = true /\ exists l, largestGroupAndObject tr = Some l /\
     r.1 = default kLocationMax (next l) /\ loc_lt start r.1).
Proof.
  intros Hle. unfold fetchOkEnd. destruct (largestGroupAndObject tr) as [l|]; simpl; [|split_and!; [done|loc_lia|done]].
  set (te := default kLocationMax (next l)).
  destruct (loc_ltb exclusiveEnd te) eqn:E1; [split_and!; [done|loc_lia|done]|].
  destruct (loc_leb te start) eqn:E2; [split_and!; [simpl; loc_lia|done|done]|].
  destruct (negb (endOfTrack tr) && (liveWritebackCount tr =? 0)) eqn:E3; [split_and!; [done|loc_lia|done]|].
  apply loc_ltb_false in E1. apply loc_leb_false in E2. simpl. split_and!; [loc_lia|done|].
  intros He. split; [done|]. exists l. done.
Qed.

(** [findFetchInProgress] returns a writeback exactly when some fetch in
    progress, keyed at or below the location, has yet to write it. *)
Theorem findFetchInProgress_correct tr loc :
  match findFetchInProgress tr loc with
  | Some w => exists k e, (k, e) ∈ fetchesInProgress tr /\ fip_writeback e = w /\
      loc_le k loc /\ loc_le (fip_progress e) loc /\ loc_lt loc (fip_end e)
  | None => forall k e, (k, e) ∈ fetchesInProgress tr -> loc_le k loc ->
      loc_le (fip_progress e) loc -> loc_le (fip_end e) loc
  end.
Proof.
  unfold findFetchInProgress. destruct (List.find _ _) as [[k e]|] eqn:E; simpl.
  - apply List.find_some in E as [Hin [H1 H2]%andb_true_iff]. simpl in *.
    rewrite <- List.in_rev, List.filter_In in Hin. simpl in Hin. destruct Hin as [Hin Hk].
    exists k, e. rewrite list_elem_of_In, loc_leb_spec in *. apply loc_ltb_spec in H1. done.
  - intros k e Hin Hk Hp. apply loc_ltb_false.
    pose proof (List.find_none _ _ E (k, e)) as Hn. simpl in Hn.
    rewrite (proj2 (loc_leb_spec (fip_progress e) loc)), andb_true_r in Hn by done.
    apply Hn. rewrite <- List.in_rev, List.filter_In. simpl. rewrite loc_leb_spec.
    split; [by apply list_elem_of_In|done].
Qed.
End largest_theorems.
