(* ===== verification/CacheObject.v ===== *)
(** Writing one object into the cache: the gap extensions of the object
    ([CacheTrack::processGapExtensions]), the entry of the object in its group
    ([CacheGroup::cacheObject]) and the lookup that serves it
    ([MoqxCache::getCachedObjectMaybe]). *)

From Stdlib Require Import Init.Byte.
From S2P Require Import Prelude Location CacheRanges CacheState.

Section objects.
Context `{LA : LocationApi} `{IA : IntervalSetApi} `{EA : ExtensionsApi}.

Definition getOrCreateGroup (t : tref) (groupID : Z) : M MoqxCache gref :=
  tr ← getTrack t;
  match groups tr !! groupID with
  | Some r => mret r
  | None =>
    r ← makeGroup;
    modTrack t (fun tr => set_groups (<[groupID:=r]> (groups tr)) tr);;
    mret r
  end.

(** Does the track hold group [g] with at least one object? *)
Definition groupHasObjects (c : MoqxCache) (tr : CacheTrack) (g : Z) : bool :=
  match groups tr !! g with
  | Some r => match theGroups c !! r with
              | Some grp => negb (bool_decide (objects grp = ∅))
              | None => false
              end
  | None => false
  end.

Definition processPriorGroupGap (t : tref) (groupID : Z) (gap : Z)
  : M MoqxCache (result MoQPublishError unit) :=
  if groupID <? gap then mret (Err (malformed "Prior Group ID Gap larger than Group ID"))
  else
    cur ← getOrCreateGroup t groupID;
    g ← getGroup cur;
    match seenPriorGroupIdGap g with
    | Some seen =>
      if negb (seen =? gap)
      then mret (Err (malformed "Inconsistent Prior Group ID Gap values in group"))
      else mret (Ok tt)
    | None =>
      putGroup cur (set_seenPriorGroupIdGap (Some gap) g);;
      if 0 <? gap then
        let checkCount := Z.min gap kMaxGapValidation in
        c ← get; tr ← getTrack t;
        if existsb (groupHasObjects c tr) (seqZ (groupID - checkCount) checkCount)
        then mret (Err (malformed "Prior Group ID Gap covers existing object"))
        else
          modTrack t (insertGap (Loc (groupID - gap) 0) (Loc (groupID - 1) (object kLocationMax)));;
          mret (Ok tt)
      else mret (Ok tt)
    end.

Definition processPriorObjectGap (t : tref) (groupID objectID : Z) (gap : Z)
  : M MoqxCache (result MoQPublishError unit) :=
  if objectID <? gap then mret (Err (malformed "Prior Object ID Gap larger than Object ID"))
  else if 0 <? gap then
    let checkCount := Z.min gap kMaxGapValidation in
    cur ← getOrCreateGroup t groupID;
    g ← getGroup cur;
    if existsb (fun o => bool_decide (is_Some (objects g !! o)))
         (seqZ (objectID - checkCount) checkCount)
    then mret (Err (malformed "Prior Object ID Gap covers existing object"))
    else
      modTrack t (insertGap (Loc groupID (objectID - gap)) (Loc groupID (objectID - 1)));;
      mret (Ok tt)
  else mret (Ok tt).

Definition processGapExtensions (t : tref) (groupID objectID : Z) (ext : Extensions)
  : M MoqxCache (result MoQPublishError unit) :=
  r ← match getIntExtension ext kPriorGroupIdGapExtensionType with
      | Some gap => processPriorGroupGap t groupID gap
      | None => mret (Ok tt)
      end;
  match r with
  | Err e => mret (Err e)
  | Ok _ =>
    match getIntExtension ext kPriorObjectIdGapExtensionType with
    | Some gap => processPriorObjectGap t groupID objectID gap
    | None => mret (Ok tt)
    end
  end.

Definition payloadMismatch (payload cached : Payload) (newSize cachedSize : Z) : bool :=
  match payload, cached with
  | None, Some _ | Some _, None => true
  | Some _, Some _ => negb (newSize =? cachedSize)
  | None, None => false
  end.

(** The second half of [cacheObject]: the entry for the object in its group.
    The boolean says whether control reaches the end of the function, where the
    location is recorded as cached content. *)
Definition storeObject (g : CacheGroup) (subgroup objectID : Z) (status : ObjectStatus)
    (ext : Extensions) (payload : Payload) (complete forwardingPreferenceIsDatagram : bool)
    (now offset : Z) : result MoQPublishError (CacheGroup * bool) :=
  let newPayloadSize := payloadLength payload in
  match objects g !! objectID with
  | None =>
    if 0 <? offset then Ok (g, false)
    else
      let entry := mkEntry subgroup status ext payload newPayloadSize complete
                     forwardingPreferenceIsDatagram now in
      Ok (set_objects (<[objectID:=entry]> (objects g))
            (set_totalBytes (totalBytes g + newPayloadSize) g), true)
  | Some co =>
    if negb (bool_decide (status = ce_status co)) then Err (malformed "Invalid status change")
    else if bool_decide (status = NORMAL) && (offset =? 0) && complete && ce_complete co &&
            payloadMismatch payload (ce_payload co) newPayloadSize (ce_payloadSize co)
    then Err (malformed "payload mismatch")
    else if negb (Bool.eqb (ce_forwardingPreferenceIsDatagram co) forwardingPreferenceIsDatagram)
    then Err (malformed "forwardingPreference mismatch")
    else
      let co1 := if offset =? 0 then set_ce_cachedAt now (set_ce_extensions ext co) else co in
      let put e g := set_objects (<[objectID:=e]> (objects g)) g in
      if ce_complete co1 then Ok (put co1 g, false)
      else
        let frontier := ce_payloadSize co1 in
        let end_ := offset + newPayloadSize in
        let '(co2, g2) :=
          if (offset <=? frontier) && (frontier <? end_) then
            let tail := drop (Z.to_nat (frontier - offset)) (default [] payload) in
            (set_ce_payloadSize end_
               (set_ce_payload (Some (default [] (ce_payload co1) ++ tail)) co1),
             set_totalBytes (totalBytes g + (end_ - frontier)) g)
          else (co1, g) in
        if negb complete || negb (ce_payloadSize co2 =? end_) then Ok (put co2 g2, false)
        else Ok (put (set_ce_complete true co2) g2, true)
  end.

(** [CacheGroup::cacheObject] on the group [r] of track [t]. *)
Definition cacheObject (r : gref) (t : tref) (groupID subgroup objectID : Z)
    (status : ObjectStatus) (ext : Extensions) (payload : Payload)
    (complete forwardingPreferenceIsDatagram : bool) (now offset : Z)
  : M MoqxCache (result MoQPublishError unit) :=
  tr ← getTrack t;
  if iset_contains (gaps tr) (Loc groupID objectID)
  then mret (Err (malformed "Object in known gap"))
  else
    gapRes ← processGapExtensions t groupID objectID ext;
    match gapRes with
    | Err e => mret (Err e)
    | Ok _ =>
      (match status with
       | END_OF_GROUP | END_OF_TRACK =>
         (match nextInGroup (Loc groupID objectID) with
          | Some n => modTrack t (insertGap n (Loc groupID (object kLocationMax)))
          | None => mret tt
          end);;
         (if isEndOfTrack status then
            match nextGroup (Loc groupID 0) with
            | Some n => modTrack t (insertGap n kLocationMax)
            | None => mret tt
            end
          else mret tt);;
         modGroup r (set_endOfGroup true)
       | _ => mret tt
       end);;
      g ← getGroup r;
      match storeObject g subgroup objectID status ext payload complete
              forwardingPreferenceIsDatagram now offset with
      | Err e => mret (Err e)
      | Ok (g', false) => putGroup r g';; mret (Ok tt)
      | Ok (g', true) =>
        putGroup r g';;
        (if complete then
           modTrack t (fun tr => set_cachedContent
             (iset_insert (cachedContent tr) (Loc groupID objectID) (Loc groupID objectID)) tr)
         else mret tt);;
        modGroup r (fun g => if maxCachedObject g <=? objectID
                             then set_maxCachedObject objectID g else g);;
        mret (Ok tt)
      end
    end.

(** [age > *effectiveDuration]: the comparison converts the duration from
    milliseconds to 64-bit nanoseconds. *)
Definition isExpired (duration : option Z) (now cachedAt : Z) : bool :=
  match duration with
  | Some d => s64 (d * 1000000) <? now - cachedAt
  | None => false
  end.

(** Cache lookup; an expired entry is dropped on the way. *)
Definition getCachedObjectMaybe (t : tref) (current : AbsoluteLocation) (now : Z)
  : M MoqxCache (option CacheEntry) :=
  c ← get; tr ← getTrack t;
  match groups tr !! group current with
  | None => mret None
  | Some r =>
    g ← getGroup r;
    match objects g !! object current with
    | None => mret None
    | Some e =>
      let effectiveDuration := match maxCacheDuration tr with
                               | Some d => Some d | None => defaultMaxCacheDuration_ c end in
      if isExpired effectiveDuration now (ce_cachedAt e) then
        putGroup r (set_objects (delete (object current) (objects g))
                      (set_totalBytes (totalBytes g - ce_payloadSize e) g));;
        modify (fun c => set_totalCachedBytes_ (totalCachedBytes_ c - ce_payloadSize e) c);;
        modTrack t (fun tr => set_cachedContent (iset_remove (cachedContent tr) current current) tr);;
        mret None
      else if negb (ce_complete e) then mret None
      else mret (Some e)
    end
  end.
End objects.

(** ** The entry of one object *)
Section entry_theorems.
Context `{EA : ExtensionsApi}.

(** Byte counts of a group: each entry's cached size is the length of its
    payload, and the group total is their sum. *)
Definition entry_size_ok (e : CacheEntry) : Prop := ce_payloadSize e = payloadLength (ce_payload e).
Definition group_bytes_ok (g : CacheGroup) : Prop :=
  map_Forall (fun _ => entry_size_ok) (objects g) /\ totalBytes g = map_sumZ ce_payloadSize (objects g).

Lemma payloadLength_nonneg p : 0 <= payloadLength p.
Proof. destruct p; simpl; lia. Qed.

Lemma storeObject_bytes g subgroup objectID status ext payload complete fwd now offset g' b :
  0 <= offset -> group_bytes_ok g ->
  storeObject g subgroup objectID status ext payload complete fwd now offset = Ok (g', b) ->
  group_bytes_ok g' /\ totalBytes g <= totalBytes g' /\
  g_lruIter_ g' = g_lruIter_ g /\ g_globalLruIter_ g' = g_globalLruIter_ g /\
  pinCount_ g' = pinCount_ g /\ seenPriorGroupIdGap g' = seenPriorGroupIdGap g.
Proof.
  intros Hoff [Hall Htot]. unfold storeObject.
  destruct (objects g !! objectID) as [co|] eqn:Eco.
  - assert (Hco : entry_size_ok co) by exact (Hall _ _ Eco).
    repeat (case_test; [discriminate|]).
    set (co1 := if offset =? 0 then _ else co).
    assert (Hco1 : ce_payloadSize co1 = ce_payloadSize co /\ ce_payload co1 = ce_payload co /\
                   ce_complete co1 = ce_complete co) by (unfold co1; by case_test).
    destruct Hco1 as (Hs1 & Hp1 & Hc1). clearbody co1.
    assert (Hput : forall e, entry_size_ok e ->
      group_bytes_ok (set_objects (<[objectID:=e]> (objects g))
        (set_totalBytes (totalBytes g + (ce_payloadSize e - ce_payloadSize co)) g))).
    { intros e He. split; [by apply map_Forall_insert_2|]. simpl.
      rewrite (map_sumZ_insert _ _ _ _ e Eco). lia. }
    assert (He1 : entry_size_ok co1) by (unfold entry_size_ok in *; congruence).
    destruct (ce_complete co1).
    { intros [= <- <-]. split_and!; try done; try (simpl; lia).
      specialize (Hput co1 He1). rewrite Hs1, Z.sub_diag, Z.add_0_r in Hput.
      by destruct g. }
    rewrite Hs1, Hp1.
    destruct ((offset <=? ce_payloadSize co) && (ce_payloadSize co <? offset + payloadLength payload)) eqn:Ec.
    + set (tail := drop _ _).
      assert (Htail : Z.of_nat (length tail) = offset + payloadLength payload - ce_payloadSize co).
      { unfold tail. rewrite length_drop. destruct payload; simpl in *; lia. }
      set (co2 := set_ce_payloadSize _ _).
      assert (He2 : entry_size_ok co2).
      { unfold entry_size_ok, co2. simpl. rewrite length_app, Nat2Z.inj_add, Htail.
        unfold entry_size_ok in Hco. destruct (ce_payload co); simpl in *; lia. }
      case_test; intros [= <- <-]; split_and!; try done; try (simpl; lia).
      * by apply Hput.
      * by apply (Hput (set_ce_complete true co2)).
    + case_test; intros [= <- <-]; split_and!; try done; try (simpl; lia).
      * specialize (Hput co1 He1). rewrite Hs1, Z.sub_diag, Z.add_0_r in Hput. by destruct g.
      * specialize (Hput (set_ce_complete true co1) He1). simpl in Hput.
        rewrite Hs1, Z.sub_diag, Z.add_0_r in Hput. by destruct g.
  - case_test; intros [= <- <-]; [done|].
    pose proof (payloadLength_nonneg payload). split_and!; try done; try (simpl; lia).
    split; simpl; [by apply map_Forall_insert_2|].
    rewrite map_sumZ_insert_new by done. simpl. lia.
Qed.

(** [full] are the bytes of the object.  An entry holds a prefix of them, and
    all of them once it is marked complete. *)
Definition entry_holds (full : list byte) (e : CacheEntry) : Prop :=
  entry_size_ok e /\
  default [] (ce_payload e) `prefix_of` full /\
  (ce_complete e = true -> default [] (ce_payload e) = full).

(** A write of some copy of the object: a slice of its bytes, marked as the end
    of the copy only if it reaches the end of the object. *)
Definition copy_chunk (full : list byte) (offset : Z) (payload : Payload) (complete : bool) : Prop :=
  0 <= offset /\
  (exists n, default [] payload = take n (drop (Z.to_nat offset) full)) /\
  (complete = true -> offset + payloadLength payload = Z.of_nat (length full)).

(** Appending what a slice adds past the end of a prefix gives a prefix. *)
Lemma prefix_extend (full pre : list byte) (offset n : nat) :
  pre `prefix_of` full -> (offset <= length pre)%nat ->
  pre ++ drop (length pre - offset) (take n (drop offset full)) `prefix_of` full.
Proof.
  intros [k ->] Hle. apply prefix_app. rewrite drop_app.
  replace (offset - length pre)%nat with O by lia. rewrite drop_0, take_app.
  rewrite drop_app, length_take, length_drop.
  rewrite (drop_ge (take n (drop offset pre))) by (rewrite length_take, length_drop; lia).
  simpl. destruct (decide (n < length pre - offset)%nat).
  - replace (n - (length pre - offset))%nat with O by lia. rewrite take_0, drop_nil. apply prefix_nil.
  - replace (length pre - offset - n `min` (length pre - offset))%nat with O by lia.
    rewrite drop_0. exists (drop (n - (length pre - offset)) k). by rewrite take_drop.
Qed.

Lemma prefix_full (l full : list byte) :
  l `prefix_of` full -> length l = length full -> l = full.
Proof.
  intros [k ->] Hl. rewrite length_app in Hl. destruct k; [by rewrite app_nil_r|simpl in Hl; lia].
Qed.

Lemma payloadLength_default p : payloadLength p = Z.of_nat (length (default [] p)).
Proof. by destruct p. Qed.

(** One write of a copy into the entry of an object. *)
Lemma storeObject_holds full g subgroup objectID status ext payload complete fwd now offset g' b :
  copy_chunk full offset payload complete ->
  (forall e, objects g !! objectID = Some e -> entry_holds full e) ->
  storeObject g subgroup objectID status ext payload complete fwd now offset = Ok (g', b) ->
  (forall e, objects g' !! objectID = Some e -> entry_holds full e) /\
  (forall o, o <> objectID -> objects g' !! o = objects g !! o) /\
  (offset = 0 -> complete = true ->
     exists e, objects g' !! objectID = Some e /\ ce_complete e = true).
Proof.
  intros (Hoff & [n Hn] & Hcomp) Hold. unfold storeObject.
  destruct (objects g !! objectID) as [co|] eqn:Eco.
  - destruct (Hold co eq_refl) as (Hsz & Hpre & Hfull).
    repeat (case_test; [discriminate|]).
    set (co1 := if offset =? 0 then _ else co).
    assert (Hco1 : ce_payloadSize co1 = ce_payloadSize co /\ ce_payload co1 = ce_payload co /\
                   ce_complete co1 = ce_complete co) by (unfold co1; by case_test).
    destruct Hco1 as (Hs1 & Hp1 & Hc1). clearbody co1.
    assert (Hput : forall e g0, entry_holds full e -> objects g0 = objects g ->
      (forall e', objects (set_objects (<[objectID:=e]> (objects g0)) g0) !! objectID = Some e' ->
         entry_holds full e') /\
      (forall o, o <> objectID ->
         objects (set_objects (<[objectID:=e]> (objects g0)) g0) !! o = objects g !! o)).
    { intros e g0 He ->. simpl. split; [intros e'; rewrite lookup_insert_eq; congruence|].
      intros o Ho. by rewrite lookup_insert_ne. }
    assert (Hh1 : entry_holds full co1).
    { unfold entry_holds, entry_size_ok in *. by rewrite Hs1, Hp1, Hc1. }
    destruct (ce_complete co1) eqn:Ec1.
    { intros [= <- <-]. destruct (Hput co1 g Hh1 eq_refl). split_and!; try done.
      intros _ _. exists co1. simpl. by rewrite lookup_insert_eq. }
    assert (Hlen : ce_payloadSize co = Z.of_nat (length (default [] (ce_payload co)))).
    { rewrite Hsz. apply payloadLength_default. }
    assert (Hpl : payloadLength payload = Z.of_nat (length (default [] payload)))
      by apply payloadLength_default.
    pose proof (prefix_length _ _ Hpre) as Hple. rewrite Hs1, Hp1.
    destruct ((offset <=? ce_payloadSize co) && (ce_payloadSize co <? offset + payloadLength payload)) eqn:Ec.
    + set (co2 := set_ce_payloadSize _ _).
      assert (Hext : default [] (ce_payload co2) `prefix_of` full).
      { unfold co2. simpl. rewrite Hn.
        replace (Z.to_nat (ce_payloadSize co - offset)) with
          (length (default [] (ce_payload co)) - Z.to_nat offset)%nat by lia.
        apply prefix_extend; [done|lia]. }
      assert (Hsz2 : entry_size_ok co2).
      { unfold entry_size_ok, co2. simpl. rewrite length_app, length_drop. lia. }
      assert (Hh2 : entry_holds full co2).
      { split_and!; try done. unfold co2. simpl. congruence. }
      case_test; intros [= <- <-].
      * destruct (Hput co2 (set_totalBytes (totalBytes g + (offset + payloadLength payload - ce_payloadSize co)) g) Hh2 eq_refl).
        split_and!; try done. intros -> ->. simpl in Eb1.
        rewrite negb_false_iff in *. unfold co2 in Eb2. simpl in Eb2. lia.
      * apply orb_false_iff in Eb2 as [->%negb_false_iff Hend].
        assert (Hh3 : entry_holds full (set_ce_complete true co2)).
        { split_and!; try done. intros _. simpl. apply prefix_full; [done|].
          specialize (Hcomp eq_refl). unfold entry_size_ok in Hsz2. unfold co2 in *. simpl in *. lia. }
        destruct (Hput (set_ce_complete true co2)
          (set_totalBytes (totalBytes g + (offset + payloadLength payload - ce_payloadSize co)) g) Hh3 eq_refl).
        split_and!; try done. intros _ _. eexists. simpl. by rewrite lookup_insert_eq.
    + case_test; intros [= <- <-].
      * destruct (Hput co1 g Hh1 eq_refl). split_and!; try done. intros -> ->.
        specialize (Hcomp eq_refl). lia.
      * apply orb_false_iff in Eb2 as [->%negb_false_iff Hend].
        assert (Hh3 : entry_holds full (set_ce_complete true co1)).
        { destruct Hh1 as (? & ? & _). split_and!; try done. intros _. simpl. apply prefix_full; [done|].
          specialize (Hcomp eq_refl). rewrite Hp1. lia. }
        destruct (Hput (set_ce_complete true co1) g Hh3 eq_refl).
        split_and!; try done. intros _ _. eexists. simpl. by rewrite lookup_insert_eq.
  - case_test; intros [= <- <-].
    { split_and!; try done; [|lia]. intros e. congruence. }
    assert (offset = 0) as -> by lia. simpl. split_and!.
    + intros e. rewrite lookup_insert_eq. intros [= <-]. split_and!; try done.
      * simpl. rewrite Hn. simpl. exists (drop n full). by rewrite take_drop.
      * simpl. intros ->. apply prefix_full; [rewrite Hn; exists (drop n full); by rewrite take_drop|].
        specialize (Hcomp eq_refl). rewrite payloadLength_default in Hcomp. lia.
    + intros o Ho. by rewrite lookup_insert_ne.
    + intros _ ->. eexists. by rewrite lookup_insert_eq.
Qed.

(** One write as it arrives from a writeback or a fetch. *)
Record write := mkWrite {
  w_subgroup : Z; w_status : ObjectStatus; w_extensions : Extensions; w_payload : Payload;
  w_complete : bool; w_datagram : bool; w_now : Z; w_offset : Z }.

(** A refused write leaves the group as it was; other writers carry on. *)
Definition storeWrite (objectID : Z) (g : CacheGroup) (w : write) : CacheGroup :=
  match storeObject g (w_subgroup w) objectID (w_status w) (w_extensions w) (w_payload w)
          (w_complete w) (w_datagram w) (w_now w) (w_offset w) with
  | Ok (g', _) => g'
  | Err _ => g
  end.

(** Concurrent copies of one object.  However the chunks of several copies
    of the same object interleave, whatever their sizes and offsets and whether
    they are accepted or refused, the cached payload is always a prefix of the
    object's bytes, its recorded size is its length, it is marked complete only
    when it is the whole object, and no other object of the group changes. *)
Theorem storeWrite_copies full objectID ws : forall g,
  (forall e, objects g !! objectID = Some e -> entry_holds full e) ->
  Forall (fun w => copy_chunk full (w_offset w) (w_payload w) (w_complete w)) ws ->
  let g' := foldl (storeWrite objectID) g ws in
  (forall e, objects g' !! objectID = Some e -> entry_holds full e) /\
  (forall o, o <> objectID -> objects g' !! o = objects g !! o).
Proof.
  induction ws as [|w ws IH]; intros g Hg Hws; simpl; [done|].
  apply Forall_cons in Hws as [Hw Hws].
  assert (H1 : (forall e, objects (storeWrite objectID g w) !! objectID = Some e -> entry_holds full e) /\
    (forall o, o <> objectID -> objects (storeWrite objectID g w) !! o = objects g !! o)).
  { unfold storeWrite. destruct (storeObject _ _ _ _ _ _ _ _ _ _) as [[g' b]|] eqn:E; [|done].
    destruct (storeObject_holds _ _ _ _ _ _ _ _ _ _ _ _ _ Hw Hg E) as (? & ? & _). done. }
  destruct H1 as [H1 H2]. destruct (IH _ H1 Hws) as [H3 H4].
  split; [done|]. intros o Ho. by rewrite H4, H2.
Qed.

(** An accepted complete copy written in one piece makes the entry
    complete, with exactly the object's bytes, whatever partial copy was there. *)
Theorem storeObject_complete full g subgroup objectID status ext payload fwd now g' b :
  default [] payload = full ->
  (forall e, objects g !! objectID = Some e -> entry_holds full e) ->
  storeObject g subgroup objectID status ext payload true fwd now 0 = Ok (g', b) ->
  exists e, objects g' !! objectID = Some e /\ ce_complete e = true /\
    default [] (ce_payload e) = full /\ ce_payloadSize e = Z.of_nat (length full).
Proof.
  intros Hp Hold E.
  assert (Hw : copy_chunk full 0 payload true).
  { split_and!; [lia|exists (length full); by rewrite drop_0, firstn_all|].
    intros _. by rewrite payloadLength_default, Hp. }
  destruct (storeObject_holds _ _ _ _ _ _ _ _ _ _ _ _ _ Hw Hold E) as (H1 & _ & H3).
  destruct (H3 eq_refl eq_refl) as (e & He & Hc). exists e.
  destruct (H1 e He) as (Hs & _ & Hf). specialize (Hf Hc).
  split_and!; try done. by rewrite Hs, payloadLength_default, Hf.
Qed.
End entry_theorems.
