(* ===== verification/CacheEvict.v ===== *)
(** LRU bookkeeping and eviction (the last third of MoqxCache.cpp): which
    tracks and groups may be dropped, in which order, and the byte accounting
    that goes with it; then the write path that ties an object write to the
    accounting ([cacheObjectAndUpdateBytes]). *)

From Stdlib Require Import Init.Byte.
From S2P Require Import Prelude Location CacheRanges CacheState CacheObject.

Section evict.
Context `{LA : LocationApi} `{IA : IntervalSetApi} `{EA : ExtensionsApi}.

(** [list.erase(iterator)]: the node owned by [k] is removed. *)
Definition lru_erase {B} (k : Z) (l : list (Z * B)) : list (Z * B) :=
  List.filter (fun n => negb (n.1 =? k)) l.

(** ** Tracks *)
Definition addTrackToLRU (ftn : FullTrackName) (t : tref) : M MoqxCache unit :=
  tr ← getTrack t;
  if t_lruIter_ tr then mret tt
  else
    modify (fun c => set_trackLRU_ ((t, ftn) :: trackLRU_ c) c);;
    modTrack t (set_t_lruIter_ true).

Definition removeTrackFromLRU (t : tref) : M MoqxCache unit :=
  tr ← getTrack t;
  if negb (t_lruIter_ tr) then mret tt
  else
    modify (fun c => set_trackLRU_ (lru_erase t (trackLRU_ c)) c);;
    modTrack t (set_t_lruIter_ false).

Definition onTrackBecameEvictable (ftn : FullTrackName) : M MoqxCache unit :=
  c ← get;
  match cache_ c !! ftn with
  | None => mret tt
  | Some t => tr ← getTrack t; if canEvict tr then addTrackToLRU ftn t else mret tt
  end.

(** ** Groups *)
Definition addGroupToLRU (ftn : FullTrackName) (groupID : Z) (r : gref) (t : tref)
  : M MoqxCache unit :=
  g ← getGroup r;
  if g_lruIter_ g then mret tt
  else
    tr ← getTrack t;
    if evicted tr || negb (bool_decide (groups tr !! groupID = Some r)) then mret tt
    else
      modTrack t (fun tr => set_groupLRU ((r, groupID) :: groupLRU tr) tr);;
      modGroup r (set_g_lruIter_ true);;
      modify (fun c => set_globalGroupLRU_ ((r, (ftn, groupID)) :: globalGroupLRU_ c) c);;
      modGroup r (set_g_globalLruIter_ true).

Definition removeGroupFromLRU (r : gref) (t : tref) : M MoqxCache unit :=
  g ← getGroup r;
  if negb (g_lruIter_ g) then mret tt
  else
    modTrack t (fun tr => set_groupLRU (lru_erase r (groupLRU tr)) tr);;
    modGroup r (set_g_lruIter_ false);;
    if g_globalLruIter_ g then
      modify (fun c => set_globalGroupLRU_ (lru_erase r (globalGroupLRU_ c)) c);;
      modGroup r (set_g_globalLruIter_ false)
    else mret tt.

Definition pinGroup (r : gref) (t : tref) : M MoqxCache unit :=
  g ← getGroup r;
  putGroup r (set_pinCount_ (pinCount_ g + 1) g);;
  if pinCount_ g =? 0 then removeGroupFromLRU r t else mret tt.

Definition unpinGroup (ftn : FullTrackName) (groupID : Z) (r : gref) (t : tref)
  : M MoqxCache unit :=
  g ← getGroup r;
  xcheck (0 <? pinCount_ g);;
  putGroup r (set_pinCount_ (pinCount_ g - 1) g);;
  if pinCount_ g - 1 =? 0 then addGroupToLRU ftn groupID r t else mret tt.

(** ** Eviction *)
Definition evictGroup (t : tref) (groupID : Z) : M MoqxCache unit :=
  tr ← getTrack t;
  match groups tr !! groupID with
  | None => mret tt
  | Some r =>
    g ← getGroup r;
    (if g_lruIter_ g then
       modTrack t (fun tr => set_groupLRU (lru_erase r (groupLRU tr)) tr);;
       modGroup r (set_g_lruIter_ false)
     else mret tt);;
    (if g_globalLruIter_ g then
       modify (fun c => set_globalGroupLRU_ (lru_erase r (globalGroupLRU_ c)) c);;
       modGroup r (set_g_globalLruIter_ false)
     else mret tt);;
    modTrack t (forgetRange (Loc groupID 0) (Loc groupID (object kLocationMax)));;
    (let seen := default 0 (seenPriorGroupIdGap g) in
     if 0 <? seen then
       modTrack t (forgetRange (Loc (groupID - seen) 0) (Loc (groupID - 1) (object kLocationMax)))
     else mret tt);;
    c ← get;
    xcheck (totalBytes g <=? totalCachedBytes_ c);;
    modify (fun c => set_totalCachedBytes_ (totalCachedBytes_ c - totalBytes g) c);;
    modTrack t (fun tr => set_groups (delete groupID (groups tr)) tr)
  end.

(** [while (!track.groups.empty()) evictGroup(track, begin()->first)]: the
    groups are visited in some order of the hash map, each once. *)
Definition evictAllGroups (t : tref) : M MoqxCache unit :=
  tr ← getTrack t;
  foldr (fun gid k => evictGroup t gid;; k) (mret tt) (map_to_list (groups tr)).*1.

Definition evictTrack (ftn : FullTrackName) : M MoqxCache Z :=
  c ← get;
  match cache_ c !! ftn with
  | None => mret 0
  | Some t =>
    tr ← getTrack t;
    modTrack t (set_evicted true);;
    (if t_lruIter_ tr then
       modify (fun c => set_trackLRU_ (lru_erase t (trackLRU_ c)) c);;
       modTrack t (set_t_lruIter_ false)
     else mret tt);;
    evictAllGroups t;;
    modify (fun c => set_cache_ (delete ftn (cache_ c)) c);;
    mret 1
  end.

Definition evictOldestTrackIfNeeded : M MoqxCache bool :=
  c ← get;
  if (maxCachedTracks_ c =? 0) || (Z.of_nat (size (cache_ c)) <? maxCachedTracks_ c) then mret true
  else match last (trackLRU_ c) with
       | None => mret false
       | Some (_, oldestTrack) => evictTrack oldestTrack;; mret true
       end.

(** The loop of [evictOldestGroupsIfNeeded]: every round removes the back entry
    of the group LRU, so the length of the list is enough fuel. *)
Fixpoint evictOldestGroups_loop (fuel : nat) (t : tref) : M MoqxCache unit :=
  c ← get; tr ← getTrack t;
  if maxCachedGroupsPerTrack_ c <? Z.of_nat (size (groups tr)) then
    match fuel, last (groupLRU tr) with
    | S fuel, Some (_, oldestGroupID) =>
      (if bool_decide (is_Some (groups tr !! oldestGroupID)) then evictGroup t oldestGroupID
       else modTrack t (fun tr => set_groupLRU (removelast (groupLRU tr)) tr));;
      evictOldestGroups_loop fuel t
    | _, _ => mret tt
    end
  else mret tt.

Definition evictOldestGroupsIfNeeded (t : tref) : M MoqxCache unit :=
  c ← get; tr ← getTrack t;
  if maxCachedGroupsPerTrack_ c =? 0 then mret tt
  else evictOldestGroups_loop (length (groupLRU tr)) t.

(** One pass over the global group LRU from its back.  [n] is the number of
    nodes before the iterator; each round looks at node [n - 1] and leaves the
    iterator just after where that node was. *)
Fixpoint evictBytes_loop (targetBytes : Z) (n : nat) : M MoqxCache unit :=
  match n with
  | O => mret tt
  | S n =>
    c ← get;
    if totalCachedBytes_ c <=? targetBytes then mret tt
    else
      (match globalGroupLRU_ c !! n with
       | None => abort
       | Some (r, (ftn, groupID)) =>
         match cache_ c !! ftn with
         | None => modify (fun c => set_globalGroupLRU_ (delete n (globalGroupLRU_ c)) c)
         | Some t =>
           tr ← getTrack t;
           if negb (bool_decide (is_Some (groups tr !! groupID)))
           then modify (fun c => set_globalGroupLRU_ (delete n (globalGroupLRU_ c)) c)
           else if isJoinPoint tr groupID then mret tt
           else
             evictGroup t groupID;;
             tr ← getTrack t;
             if bool_decide (groups tr = ∅) && canEvict tr then evictTrack ftn;; mret tt
             else mret tt
         end
       end);;
      evictBytes_loop targetBytes n
  end.

Definition evictForByteLimitIfNeeded : M MoqxCache bool :=
  c ← get;
  if (maxCachedBytes_ c =? 0) || (totalCachedBytes_ c <=? maxCachedBytes_ c) then mret true
  else
    let targetBytes := if minEvictionBytes_ c <? maxCachedBytes_ c
                       then maxCachedBytes_ c - minEvictionBytes_ c else 0 in
    evictBytes_loop targetBytes (length (globalGroupLRU_ c));;
    c ← get;
    mret (totalCachedBytes_ c <=? maxCachedBytes_ c).

Definition evictAll (names : list FullTrackName) : M MoqxCache Z :=
  foldr (fun ftn k => n ← evictTrack ftn; m ← k; mret (n + m)) (mret 0) names.

Definition purgeNamespace (ns : list string) : M MoqxCache Z :=
  c ← get;
  evictAll (List.filter (fun ftn => bool_decide (trackNamespace ftn = ns)) (map_to_list (cache_ c)).*1).

Definition purge : M MoqxCache Z :=
  c ← get;
  let all := (map_to_list (cache_ c)).*1 in
  evictAll all;; mret (Z.of_nat (length all)).

(** ** Writes *)
Definition getOrCreateGroupWithEviction (t : tref) (groupID : Z) (ftn : FullTrackName)
  : M MoqxCache gref :=
  tr ← getTrack t;
  match groups tr !! groupID with
  | Some r => mret r
  | None =>
    evictOldestGroupsIfNeeded t;;
    r ← makeGroup;
    modTrack t (fun tr => set_groups (<[groupID:=r]> (groups tr)) tr);;
    addGroupToLRU ftn groupID r t;;
    mret r
  end.

Definition cacheObjectAndUpdateBytes (r : gref) (t : tref) (groupID subgroup objectID : Z)
    (status : ObjectStatus) (ext : Extensions) (payload : Payload)
    (complete forwardingPreferenceIsDatagram : bool) (now offset : Z)
  : M MoqxCache (result MoQPublishError unit) :=
  g ← getGroup r;
  let oldGroupBytes := totalBytes g in
  res ← cacheObject r t groupID subgroup objectID status ext payload complete
          forwardingPreferenceIsDatagram now offset;
  match res with
  | Err e => mret (Err e)
  | Ok _ =>
    g ← getGroup r;
    (if oldGroupBytes <=? totalBytes g then
       modify (fun c => set_totalCachedBytes_ (totalCachedBytes_ c + (totalBytes g - oldGroupBytes)) c)
     else
       c ← get;
       xcheck (oldGroupBytes - totalBytes g <=? totalCachedBytes_ c);;
       modify (fun c => set_totalCachedBytes_ (totalCachedBytes_ c - (oldGroupBytes - totalBytes g)) c));;
    modTrack t (set_lastWrite now);;
    evictForByteLimitIfNeeded;;
    mret (Ok tt)
  end.

(** ** Track creation and per-track settings *)
Definition emplaceTrack (ftn : FullTrackName) : M MoqxCache tref :=
  t ← makeTrack; modify (fun c => set_cache_ (<[ftn:=t]> (cache_ c)) c);; mret t.

Definition getOrCreateTrack (ftn : FullTrackName) : M MoqxCache tref :=
  c ← get;
  match cache_ c !! ftn with
  | Some t => mret t
  | None => t ← emplaceTrack ftn; addTrackToLRU ftn t;; mret t
  end.

Definition setMaxCacheDuration (ftn : FullTrackName) (duration : Z) : M MoqxCache unit :=
  t ← getOrCreateTrack ftn; modTrack t (set_maxCacheDuration (Some duration)).

Definition clearMaxCacheDuration (ftn : FullTrackName) : M MoqxCache unit :=
  c ← get;
  match cache_ c !! ftn with
  | Some t => modTrack t (set_maxCacheDuration None)
  | None => mret tt
  end.

Definition getEffectiveCacheDuration (c : MoqxCache) (ext : Extensions) : option Z :=
  match getIntExtension ext kMaxCacheDurationExtensionType with
  | Some ms => let dur := s64 ms in
               Some (match maxAllowedCacheDuration_ c with
                     | Some cap => Z.min dur cap | None => dur end)
  | None => defaultMaxCacheDuration_ c
  end.

Definition setTrackState (ftn : FullTrackName) (largest : option AbsoluteLocation)
    (ext : Extensions) : M MoqxCache unit :=
  c ← get;
  (match getEffectiveCacheDuration c ext with
   | Some dur => setMaxCacheDuration ftn dur
   | None => clearMaxCacheDuration ftn
   end);;
  t ← getOrCreateTrack ftn;
  modTrack t (set_extensions ext);;
  match largest with
  | None => mret tt
  | Some l =>
    tr ← getTrack t;
    match updateLargest l false tr with
    | Ok tr' => putTrack t tr'
    | Err _ => mret tt
    end
  end.

(** ** Limits and lookups of the public interface *)
Definition hasCachedObject (ftn : FullTrackName) (obj : AbsoluteLocation) (now : Z) : M MoqxCache bool :=
  c ← get;
  match cache_ c !! ftn with
  | None => mret false
  | Some t => o ← getCachedObjectMaybe t obj now; mret (bool_decide (is_Some o))
  end.

(** The loop of [setMaxCachedTracks]: every round drops one track. *)
Fixpoint evictTracks_loop (fuel : nat) : M MoqxCache unit :=
  c ← get;
  if (0 <? maxCachedTracks_ c) && (maxCachedTracks_ c <? Z.of_nat (size (cache_ c))) &&
     negb (bool_decide (trackLRU_ c = [])) then
    match fuel with
    | O => mret tt
    | S fuel => evictOldestTrackIfNeeded;; evictTracks_loop fuel
    end
  else mret tt.

Definition setMaxCachedTracks (maxTracks : Z) : M MoqxCache unit :=
  modify (set_maxCachedTracks_ maxTracks);;
  c ← get;
  evictTracks_loop (size (cache_ c)).

Definition setMaxCachedBytes (maxBytes : Z) : M MoqxCache unit :=
  modify (set_maxCachedBytes_ maxBytes);;
  evictForByteLimitIfNeeded;; mret tt.

Definition setMinEvictionBytes (minBytes : Z) : M MoqxCache unit :=
  modify (set_minEvictionBytes_ minBytes).

Definition setMaxCachedGroupsPerTrack (maxGroups : Z) : M MoqxCache unit :=
  c ← get;
  let oldMax := maxCachedGroupsPerTrack_ c in
  modify (set_maxCachedGroupsPerTrack_ maxGroups);;
  if maxGroups <? oldMax
  then foldr (fun t k => evictOldestGroupsIfNeeded t;; k) (mret tt) (map_to_list (cache_ c)).*2
  else mret tt.
End evict.
