(* ===== verification/CacheInv.v ===== *)
(** The invariant of the cache store, and that eviction and object writes keep
    it without ever failing one of the [XCHECK]s of the accounting.

    The invariant ties three views of the same data together: the byte counter
    of the cache, the per-group totals, and the entries; and the membership of
    the LRU lists with the flags (iterators) of the groups and their pin counts. *)

From Stdlib Require Import Init.Byte.
From S2P Require Import Prelude Location CacheRanges CacheState CacheObject CacheEvict.

(** ** Byte totals over the heap *)
Section totals.
Context `{LA : LocationApi} `{IA : IntervalSetApi} `{EA : ExtensionsApi}.
Implicit Types c : MoqxCache.

Definition group_total c (r : gref) : Z :=
  match theGroups c !! r with Some g => totalBytes g | None => 0 end.
Definition track_total c (t : tref) : Z :=
  match theTracks c !! t with Some tr => map_sumZ (group_total c) (groups tr) | None => 0 end.
Definition cache_total c : Z := map_sumZ (track_total c) (cache_ c).

(** What does not depend on whether a track is marked evicted. *)
Record store_ok c : Prop := {
  ok_total : totalCachedBytes_ c = cache_total c;
  ok_cached ftn t : cache_ c !! ftn = Some t -> exists tr, theTracks c !! t = Some tr;
  ok_cache_inj f1 f2 t : cache_ c !! f1 = Some t -> cache_ c !! f2 = Some t -> f1 = f2;
  ok_group t tr gid r : theTracks c !! t = Some tr -> groups tr !! gid = Some r ->
    exists g, theGroups c !! r = Some g;
  ok_group_inj t1 tr1 g1 t2 tr2 g2 r :
    theTracks c !! t1 = Some tr1 -> groups tr1 !! g1 = Some r ->
    theTracks c !! t2 = Some tr2 -> groups tr2 !! g2 = Some r -> t1 = t2 /\ g1 = g2;
  ok_gfresh r g : theGroups c !! r = Some g -> r < nextGref c;
  ok_tfresh t tr : theTracks c !! t = Some tr -> t < nextTref c;
  ok_bytes r g : theGroups c !! r = Some g -> group_bytes_ok g;
  ok_lru t tr r gid : theTracks c !! t = Some tr -> (r, gid) ∈ groupLRU tr ->
    groups tr !! gid = Some r /\ exists g, theGroups c !! r = Some g /\ g_lruIter_ g = true;
  ok_lru_nodup t tr : theTracks c !! t = Some tr -> NoDup (groupLRU tr).*1;
  ok_flags r g : theGroups c !! r = Some g ->
    g_globalLruIter_ g = g_lruIter_ g /\ 0 <= pinCount_ g /\ (g_lruIter_ g = true -> pinCount_ g = 0);
  ok_global r ftn gid : (r, (ftn, gid)) ∈ globalGroupLRU_ c ->
    exists t tr g, cache_ c !! ftn = Some t /\ theTracks c !! t = Some tr /\
      groups tr !! gid = Some r /\ theGroups c !! r = Some g /\ g_lruIter_ g = true;
  ok_global_nodup : NoDup (globalGroupLRU_ c).*1;
  ok_tlru t ftn : (t, ftn) ∈ trackLRU_ c -> cache_ c !! ftn = Some t /\
    exists tr, theTracks c !! t = Some tr /\ t_lruIter_ tr = true;
}.

(** A track of the heap is marked evicted exactly when the cache has dropped it,
    and then none of its groups is listed for eviction. *)
Definition evicted_ok c : Prop :=
  forall t tr, theTracks c !! t = Some tr ->
    (evicted tr = false <-> exists ftn, cache_ c !! ftn = Some t) /\
    (evicted tr = true -> groupLRU tr = []).

Definition cache_ok c : Prop := store_ok c /\ evicted_ok c.

(** ** Running operations that touch one group and one track *)
Definition at_ c (r : gref) (t : tref) (g : CacheGroup) (tr : CacheTrack) : MoqxCache :=
  set_theTracks (<[t:=tr]> (theTracks c)) (set_theGroups (<[r:=g]> (theGroups c)) c).

Lemma at_self c r t g tr :
  theGroups c !! r = Some g -> theTracks c !! t = Some tr -> c = at_ c r t g tr.
Proof.
  intros Hg Ht. unfold at_, set_theTracks, set_theGroups. simpl.
  rewrite !insert_id by done. by destruct c.
Qed.

Lemma getTrack_at c r t g tr : getTrack t (at_ c r t g tr) = Some (tr, at_ c r t g tr).
Proof. unfold getTrack, mbind, M_bind, get, deref. simpl. by rewrite lookup_insert_eq. Qed.
Lemma getGroup_at c r t g tr : getGroup r (at_ c r t g tr) = Some (g, at_ c r t g tr).
Proof. unfold getGroup, mbind, M_bind, get, deref. simpl. by rewrite lookup_insert_eq. Qed.
Lemma putTrack_at c r t g tr tr' : putTrack t tr' (at_ c r t g tr) = Some (tt, at_ c r t g tr').
Proof. unfold putTrack, modify, at_, set_theTracks. simpl. by rewrite insert_insert_eq. Qed.
Lemma putGroup_at c r t g tr g' : putGroup r g' (at_ c r t g tr) = Some (tt, at_ c r t g' tr).
Proof.
  unfold putGroup, modify, at_, set_theTracks, set_theGroups. simpl. by rewrite insert_insert_eq.
Qed.
Lemma modTrack_at c r t g tr f : modTrack t f (at_ c r t g tr) = Some (tt, at_ c r t g (f tr)).
Proof. unfold modTrack, mbind, M_bind. by rewrite getTrack_at, putTrack_at. Qed.
Lemma modGroup_at c r t g tr f : modGroup r f (at_ c r t g tr) = Some (tt, at_ c r t (f g) tr).
Proof. unfold modGroup, mbind, M_bind. by rewrite getGroup_at, putGroup_at. Qed.

Lemma bind_some {A B} (m : M MoqxCache A) (k : A -> M MoqxCache B) c a c' :
  m c = Some (a, c') -> (m ≫= k) c = k a c'.
Proof. unfold mbind, M_bind. by intros ->. Qed.

(** ** Byte totals under updates *)
Lemma track_total_ext c c' t :
  theTracks c' !! t = theTracks c !! t ->
  (forall tr gid r, theTracks c !! t = Some tr -> groups tr !! gid = Some r ->
     group_total c' r = group_total c r) ->
  track_total c' t = track_total c t.
Proof.
  intros Ht Hg. unfold track_total. rewrite Ht. destruct (theTracks c !! t) as [tr|]; [|done].
  apply map_sumZ_ext. intros gid r Hr. by apply (Hg tr gid).
Qed.

(** Updating one group and one track of the cache. *)
Lemma cache_total_at c r t g g' tr tr' ftn gid (keep : bool) :
  store_ok c -> cache_ c !! ftn = Some t -> theTracks c !! t = Some tr ->
  groups tr !! gid = Some r -> theGroups c !! r = Some g ->
  groups tr' = (if keep then groups tr else delete gid (groups tr)) ->
  cache_total (at_ c r t g' tr') =
  cache_total c + ((if keep then totalBytes g' else 0) - totalBytes g).
Proof.
  intros Hok Hf Ht Hr Hg Hgr. unfold cache_total. simpl.
  rewrite (map_sumZ_change (track_total c) (track_total (at_ c r t g' tr')) _ ftn t Hf).
  2: { intros f t' Hf' Hne. symmetry. apply track_total_ext.
       - simpl. rewrite lookup_insert_ne; [done|]. intros <-. apply Hne. by eapply ok_cache_inj.
       - intros tr1 gid1 r1 Ht1 Hr1. unfold group_total. simpl. rewrite lookup_insert_ne; [done|].
         intros <-. destruct (ok_group_inj c Hok _ _ _ _ _ _ _ Ht Hr Ht1 Hr1) as [<- _].
         apply Hne. by eapply ok_cache_inj. }
  f_equal. unfold track_total. simpl. rewrite lookup_insert_eq, Ht, Hgr.
  assert (Hoth : forall gid1 r1, groups tr !! gid1 = Some r1 -> gid1 <> gid ->
    group_total (at_ c r t g' tr') r1 = group_total c r1).
  { intros gid1 r1 Hr1 Hne. unfold group_total. simpl. rewrite lookup_insert_ne; [done|].
    intros <-. apply Hne. by destruct (ok_group_inj c Hok _ _ _ _ _ _ _ Ht Hr1 Ht Hr). }
  assert (Hr' : group_total (at_ c r t g' tr') r = totalBytes g')
    by (unfold group_total; simpl; by rewrite lookup_insert_eq).
  assert (Hr0 : group_total c r = totalBytes g) by (unfold group_total; by rewrite Hg).
  destruct keep.
  - rewrite (map_sumZ_change (group_total c) (group_total (at_ c r t g' tr')) _ gid r Hr).
    + rewrite Hr', Hr0. lia.
    + intros. symmetry. by apply (Hoth k).
  - rewrite (map_sumZ_delete (group_total c) _ gid r Hr), Hr0.
    rewrite (map_sumZ_ext (group_total (at_ c r t g' tr')) (group_total c)); [lia|].
    intros k v. rewrite lookup_delete_Some. intros [Hne Hv]. by apply (Hoth k).
Qed.

Lemma group_total_nonneg c r : store_ok c -> 0 <= group_total c r.
Proof.
  intros Hok. unfold group_total. destruct (theGroups c !! r) as [g|] eqn:E; [|done].
  destruct (ok_bytes c Hok r g E) as [Hall ->]. apply map_sumZ_nonneg.
  intros o e He. rewrite (Hall o e He). apply payloadLength_nonneg.
Qed.

Lemma track_total_nonneg c t : store_ok c -> 0 <= track_total c t.
Proof.
  intros Hok. unfold track_total. destruct (theTracks c !! t) as [tr|]; [|done].
  apply map_sumZ_nonneg. intros gid r _. by apply group_total_nonneg.
Qed.

(** The counter covers every group of the cache, so subtracting one cannot go
    below zero. *)
Lemma group_le_total c ftn t tr gid r g :
  store_ok c -> cache_ c !! ftn = Some t -> theTracks c !! t = Some tr ->
  groups tr !! gid = Some r -> theGroups c !! r = Some g ->
  totalBytes g <= totalCachedBytes_ c.
Proof.
  intros Hok Hf Ht Hr Hg. rewrite (ok_total c Hok).
  assert (H1 : group_total c r <= track_total c t).
  { unfold track_total. rewrite Ht. apply (map_sumZ_lookup_le (group_total c) _ gid); [|done].
    intros ? ? _. by apply group_total_nonneg. }
  assert (H2 : track_total c t <= cache_total c).
  { apply (map_sumZ_lookup_le (track_total c) _ ftn); [|done].
    intros ? ? _. by apply track_total_nonneg. }
  unfold group_total in H1. rewrite Hg in H1. lia.
Qed.

(** ** LRU lists *)
Lemma elem_lru_erase {B} (k : Z) (l : list (Z * B)) x :
  x ∈ lru_erase k l <-> x ∈ l /\ x.1 <> k.
Proof.
  unfold lru_erase. rewrite !list_elem_of_In, List.filter_In.
  destruct (x.1 =? k) eqn:E; simpl; split; intros [? ?]; split; try done; lia.
Qed.

Lemma lru_erase_fst {B} (k : Z) (l : list (Z * B)) x : x ∈ (lru_erase k l).*1 <-> x ∈ l.*1 /\ x <> k.
Proof.
  rewrite !list_elem_of_fmap. setoid_rewrite elem_lru_erase. split.
  - intros ([y b] & -> & ? & ?). split; [by exists (y, b)|done].
  - intros [([y b] & -> & ?) ?]. by exists (y, b).
Qed.

Lemma lru_erase_nodup {B} (k : Z) (l : list (Z * B)) : NoDup l.*1 -> NoDup (lru_erase k l).*1.
Proof.
  induction l as [|[x b] l IH]; simpl; [done|]. rewrite NoDup_cons. intros [Hx Hl].
  unfold lru_erase. simpl. case_test; simpl; [|by apply IH].
  apply NoDup_cons. split; [|by apply IH]. intros Hin. fold (lru_erase k l) in Hin.
  by apply lru_erase_fst in Hin as [Hin _].
Qed.

Lemma lru_erase_id {B} (k : Z) (l : list (Z * B)) : k ∉ l.*1 -> lru_erase k l = l.
Proof.
  induction l as [|[x b] l IH]; simpl; [done|]. rewrite not_elem_of_cons. intros [Hx Hl].
  unfold lru_erase. simpl. replace (x =? k) with false by lia. simpl. f_equal. by apply IH.
Qed.

(** ** The update lemma

    One group and one track change, the global LRU list and the byte counter
    are replaced.  [r] is the group of the track; other groups keep their place. *)
Lemma store_ok_update c r t g g' tr tr' gl tot gid0 :
  store_ok c -> theTracks c !! t = Some tr -> theGroups c !! r = Some g ->
  groups tr !! gid0 = Some r ->
  let c' := at_ (set_globalGroupLRU_ gl (set_totalCachedBytes_ tot c)) r t g' tr' in
  tot = cache_total c' ->
  t_lruIter_ tr' = t_lruIter_ tr ->
  group_bytes_ok g' ->
  g_globalLruIter_ g' = g_lruIter_ g' /\ 0 <= pinCount_ g' /\ (g_lruIter_ g' = true -> pinCount_ g' = 0) ->
  (forall gid r1, groups tr' !! gid = Some r1 -> groups tr !! gid = Some r1) ->
  (forall gid r1, r1 <> r -> groups tr !! gid = Some r1 -> groups tr' !! gid = Some r1) ->
  (forall r1 gid, (r1, gid) ∈ groupLRU tr' -> groups tr' !! gid = Some r1 /\
     (r1 = r -> g_lruIter_ g' = true) /\ (r1 <> r -> (r1, gid) ∈ groupLRU tr)) ->
  NoDup (groupLRU tr').*1 ->
  (forall r1 f gid, (r1, (f, gid)) ∈ gl ->
     (r1 = r -> g_lruIter_ g' = true /\ cache_ c !! f = Some t /\ groups tr' !! gid = Some r) /\
     (r1 <> r -> (r1, (f, gid)) ∈ globalGroupLRU_ c)) ->
  NoDup gl.*1 ->
  store_ok c'.
Proof.
  intros Hok Ht Hg Hr c' Htot Htlf Hb Hfl Hsub Hkeep Hlru Hnd Hgl Hgnd.
  assert (Htl : forall t1 tr1, theTracks c' !! t1 = Some tr1 ->
    (t1 = t /\ tr1 = tr') \/ (t1 <> t /\ theTracks c !! t1 = Some tr1)).
  { intros t1 tr1. unfold c'. simpl. rewrite lookup_insert_Some.
    intros [[<- <-]|[Hne H]]; [by left|right; by split]. }
  assert (Hgl' : forall r1 g1, theGroups c' !! r1 = Some g1 ->
    (r1 = r /\ g1 = g') \/ (r1 <> r /\ theGroups c !! r1 = Some g1)).
  { intros r1 g1. unfold c'. simpl. rewrite lookup_insert_Some.
    intros [[<- <-]|[Hne H]]; [by left|right; by split]. }
  assert (Hgr : forall t1 tr1 gid r1, theTracks c' !! t1 = Some tr1 -> groups tr1 !! gid = Some r1 ->
    exists tr0, theTracks c !! t1 = Some tr0 /\ groups tr0 !! gid = Some r1).
  { intros t1 tr1 gid r1 [[-> ->]|[_ H]]%Htl Hr1; [exists tr; eauto|eauto]. }
  assert (Hg' : forall r1, r1 <> r -> theGroups c' !! r1 = theGroups c !! r1).
  { intros r1 Hne. unfold c'. simpl. by rewrite lookup_insert_ne. }
  assert (Hgr' : theGroups c' !! r = Some g') by (unfold c'; simpl; by rewrite lookup_insert_eq).
  assert (Ht' : theTracks c' !! t = Some tr') by (unfold c'; simpl; by rewrite lookup_insert_eq).
  constructor.
  - done.
  - intros f t1 Hf. destruct (decide (t1 = t)) as [->|Hne]; [eauto|].
    destruct (ok_cached c Hok f t1 Hf) as [tr1 ?]. exists tr1. unfold c'. simpl. by rewrite lookup_insert_ne.
  - intros f1 f2 t1 H1 H2. exact (ok_cache_inj c Hok f1 f2 t1 H1 H2).
  - intros t1 tr1 gid r1 H1 H2. destruct (Hgr _ _ _ _ H1 H2) as (tr0 & H3 & H4).
    destruct (decide (r1 = r)) as [->|Hne]; [eauto|]. rewrite Hg' by done. by eapply (ok_group c Hok).
  - intros t1 tr1 g1 t2 tr2 g2 r1 H1 H2 H3 H4.
    destruct (Hgr _ _ _ _ H1 H2) as (? & ? & ?). destruct (Hgr _ _ _ _ H3 H4) as (? & ? & ?).
    by eapply (ok_group_inj c Hok).
  - intros r1 g1 [[-> ->]|[_ H]]%Hgl'; by eapply (ok_gfresh c Hok).
  - intros t1 tr1 [[-> ->]|[_ H]]%Htl; by eapply (ok_tfresh c Hok).
  - intros r1 g1 [[-> ->]|[_ H]]%Hgl'; [done|by eapply (ok_bytes c Hok)].
  - intros t1 tr1 r1 gid [[-> ->]|[Hne H]]%Htl Hin.
    + destruct (Hlru r1 gid Hin) as (H1 & H2 & H3). split; [done|].
      destruct (decide (r1 = r)) as [->|Hner]; [eauto|]. rewrite Hg' by done.
      destruct (ok_lru c Hok _ _ _ _ Ht (H3 Hner)) as [_ ?]. done.
    + destruct (ok_lru c Hok _ _ _ _ H Hin) as [H1 H2]. split; [done|].
      destruct (decide (r1 = r)) as [->|Hner]; [|by rewrite Hg'].
      destruct (ok_group_inj c Hok _ _ _ _ _ _ _ H H1 Ht Hr). congruence.
  - intros t1 tr1 [[-> ->]|[_ H]]%Htl; [done|by eapply (ok_lru_nodup c Hok)].
  - intros r1 g1 [[-> ->]|[_ H]]%Hgl'; [done|by eapply (ok_flags c Hok)].
  - intros r1 f gid Hin. change (globalGroupLRU_ c') with gl in Hin.
    destruct (Hgl r1 f gid Hin) as [H1 H2]. destruct (decide (r1 = r)) as [->|Hner].
    + destruct (H1 eq_refl) as (? & ? & ?). exists t, tr', g'. done.
    + destruct (ok_global c Hok _ _ _ (H2 Hner)) as (t1 & tr1 & g1 & H3 & H4 & H5 & H6 & H7).
      exists t1. destruct (decide (t1 = t)) as [->|Hne].
      * exists tr', g1. split_and!; try done; [|by rewrite Hg'].
        apply Hkeep; [done|]. congruence.
      * exists tr1, g1. split_and!; try done; [|by rewrite Hg'].
        unfold c'. simpl. by rewrite lookup_insert_ne.
  - done.
  - intros t1 f Hin. destruct (ok_tlru c Hok t1 f Hin) as (H1 & tr1 & H2 & H3). split; [done|].
    destruct (decide (t1 = t)) as [->|Hne]; [exists tr'; split; [done|congruence]|].
    exists tr1. unfold c'. simpl. by rewrite lookup_insert_ne.
Qed.

(** ** [evictGroup] *)
Definition unlisted (g : CacheGroup) : CacheGroup := set_g_globalLruIter_ false (set_g_lruIter_ false g).

Lemma lru_erase_unflagged c t tr r g :
  store_ok c -> theTracks c !! t = Some tr -> theGroups c !! r = Some g -> g_lruIter_ g = false ->
  lru_erase r (groupLRU tr) = groupLRU tr /\ lru_erase r (globalGroupLRU_ c) = globalGroupLRU_ c.
Proof.
  intros Hok Ht Hg Hf. split; apply lru_erase_id; rewrite list_elem_of_fmap.
  - intros ([r1 gid] & -> & Hin). destruct (ok_lru c Hok _ _ _ _ Ht Hin) as (_ & g1 & ? & ?).
    simpl in *. congruence.
  - intros ([r1 [f gid]] & -> & Hin).
    destruct (ok_global c Hok _ _ _ Hin) as (? & ? & ? & ? & ? & ? & ? & ?). simpl in *. congruence.
Qed.

(** What [evictGroup] does to the track and to the store. *)
Lemma evictGroup_run c ftn t tr gid r g :
  store_ok c -> cache_ c !! ftn = Some t -> theTracks c !! t = Some tr ->
  groups tr !! gid = Some r -> theGroups c !! r = Some g ->
  exists tr',
    evictGroup t gid c = Some (tt,
      at_ (set_globalGroupLRU_ (lru_erase r (globalGroupLRU_ c))
             (set_totalCachedBytes_ (totalCachedBytes_ c - totalBytes g) c)) r t (unlisted g) tr') /\
    gap_frame (set_groupLRU (lru_erase r (groupLRU tr)) (set_groups (delete gid (groups tr)) tr)) tr'.
Proof.
  intros Hok Hf Ht Hr Hg. pose proof (group_le_total _ _ _ _ _ _ _ Hok Hf Ht Hr Hg) as Hle.
  destruct (ok_flags c Hok r g Hg) as (Hfl & _ & _).
  set (run := evictGroup t gid c).
  assert (Hrun : run = evictGroup t gid (at_ c r t g tr)) by (unfold run; by rewrite <- (at_self c r t g tr)).
  clearbody run. subst run.
  unfold evictGroup. erewrite bind_some by apply getTrack_at. rewrite Hr.
  erewrite bind_some by apply getGroup_at.
  set (tr1 := set_groupLRU (lru_erase r (groupLRU tr)) tr).
  set (c1 := set_globalGroupLRU_ (lru_erase r (globalGroupLRU_ c)) c).
  assert (Hstep : forall (k : unit -> M MoqxCache unit),
    ((if g_lruIter_ g then modTrack t (fun tr => set_groupLRU (lru_erase r (groupLRU tr)) tr);;
        modGroup r (set_g_lruIter_ false) else mret tt) ≫= fun _ =>
     (if g_globalLruIter_ g then
        modify (fun c => set_globalGroupLRU_ (lru_erase r (globalGroupLRU_ c)) c);;
        modGroup r (set_g_globalLruIter_ false) else mret tt) ≫= k) (at_ c r t g tr) =
    k tt (at_ c1 r t (unlisted g) tr1)).
  { intros k. rewrite Hfl. destruct (g_lruIter_ g) eqn:El.
    - unfold mbind, M_bind. rewrite modTrack_at, modGroup_at. unfold modify.
      change (set_globalGroupLRU_ _ (at_ c r t _ _)) with
        (at_ c1 r t (set_g_lruIter_ false g) tr1).
      by rewrite modGroup_at.
    - destruct (lru_erase_unflagged c t tr r g Hok Ht Hg El) as [H1 H2].
      unfold c1, tr1, unlisted. rewrite H1, H2.
      replace (set_groupLRU (groupLRU tr) tr) with tr by (by destruct tr).
      replace (set_globalGroupLRU_ (globalGroupLRU_ c) c) with c by (by destruct c).
      replace (set_g_globalLruIter_ false (set_g_lruIter_ false g)) with g; [done|].
      destruct g; simpl in *. by subst. }
  rewrite Hstep. clear Hstep. erewrite bind_some by apply modTrack_at.
  set (tr2 := forgetRange _ _ tr1).
  assert (Hfr : gap_frame tr1 tr2) by apply forgetRange_frame. clearbody tr2.
  set (seen := default 0 (seenPriorGroupIdGap g)).
  assert (exists tr3, gap_frame tr1 tr3 /\ forall (k : unit -> M MoqxCache unit),
    ((if 0 <? seen then modTrack t (forgetRange (Loc (gid - seen) 0) (Loc (gid - 1) (object kLocationMax)))
      else mret tt) ≫= k) (at_ c1 r t (unlisted g) tr2) = k tt (at_ c1 r t (unlisted g) tr3))
    as (tr3 & Hfr3 & Hstep).
  { destruct (0 <? seen); eexists; (split; [|intros k]).
    - eapply gap_frame_trans; [exact Hfr|apply forgetRange_frame].
    - by erewrite bind_some by apply modTrack_at.
    - exact Hfr.
    - done. }
  rewrite Hstep. clear Hstep Hfr. simpl.
  unfold mbind, M_bind, get, xcheck, modify. simpl.
  replace (totalBytes g <=? totalCachedBytes_ c) with true by lia. simpl.
  change (set_totalCachedBytes_ ?v (at_ ?c0 ?a ?b ?x ?y)) with (at_ (set_totalCachedBytes_ v c0) a b x y).
  rewrite modTrack_at. eexists; split; [done|].
  destruct Hfr3 as (x & y & ->). exists x, y. by destruct tr.
Qed.

(** ** What eviction may change

    [evict_rel c c'] holds when [c'] results from [c] by dropping groups and
    tracks: objects in flight keep their contents and counts, tracks only lose
    groups, and a track that stays in the cache keeps every pinned group. *)
Record track_rel c (tr tr' : CacheTrack) : Prop := {
  tr_live : liveWritebackCount tr' = liveWritebackCount tr;
  tr_fetches : fetchesInProgress tr' = fetchesInProgress tr;
  tr_largest : largestGroupAndObject tr' = largestGroupAndObject tr;
  tr_endOfTrack : endOfTrack tr' = endOfTrack tr;
  tr_evicted : evicted tr = true -> evicted tr' = true;
  tr_groups gid r : groups tr' !! gid = Some r -> groups tr !! gid = Some r;
  tr_pinned gid r g : evicted tr' = false -> groups tr !! gid = Some r ->
    theGroups c !! r = Some g -> 0 < pinCount_ g -> groups tr' !! gid = Some r;
}.

Record group_rel (g g' : CacheGroup) : Prop := {
  gr_objects : objects g' = objects g;
  gr_totalBytes : totalBytes g' = totalBytes g;
  gr_pinCount : pinCount_ g' = pinCount_ g;
  gr_seen : seenPriorGroupIdGap g' = seenPriorGroupIdGap g;
}.

(** Every unpinned group of a cached track waits in both LRU lists. *)
Definition listed c : Prop :=
  forall ftn t tr gid r g, cache_ c !! ftn = Some t -> theTracks c !! t = Some tr ->
    groups tr !! gid = Some r -> theGroups c !! r = Some g -> pinCount_ g = 0 ->
    (r, (ftn, gid)) ∈ globalGroupLRU_ c /\ (r, gid) ∈ groupLRU tr.

Record evict_rel c c' : Prop := {
  er_tracks t tr : theTracks c !! t = Some tr ->
    exists tr', theTracks c' !! t = Some tr' /\ track_rel c tr tr';
  er_groups r g : theGroups c !! r = Some g -> exists g', theGroups c' !! r = Some g' /\ group_rel g g';
  er_cache ftn t : cache_ c' !! ftn = Some t -> cache_ c !! ftn = Some t;
  er_bytes : totalCachedBytes_ c' <= totalCachedBytes_ c;
  er_limits : maxCachedTracks_ c' = maxCachedTracks_ c /\
    maxCachedGroupsPerTrack_ c' = maxCachedGroupsPerTrack_ c /\
    maxCachedBytes_ c' = maxCachedBytes_ c /\ minEvictionBytes_ c' = minEvictionBytes_ c;
  er_next : nextGref c' = nextGref c /\ nextTref c' = nextTref c;
  er_tlru x : x ∈ trackLRU_ c' -> x ∈ trackLRU_ c;
  er_newg r : theGroups c !! r = None -> theGroups c' !! r = None;
  er_newt t : theTracks c !! t = None -> theTracks c' !! t = None;
  er_listed : listed c -> listed c';
}.

Lemma group_rel_refl g : group_rel g g.
Proof. by constructor. Qed.
Lemma track_rel_refl c tr : track_rel c tr tr.
Proof. by constructor. Qed.
Lemma evict_rel_refl c : evict_rel c c.
Proof.
  constructor; eauto using group_rel_refl, track_rel_refl. done.
Qed.

Lemma evict_rel_trans c1 c2 c3 : evict_rel c1 c2 -> evict_rel c2 c3 -> evict_rel c1 c3.
Proof.
  intros H12 H23. constructor.
  - intros t tr Ht. destruct (er_tracks _ _ H12 _ _ Ht) as (tr2 & Ht2 & Hr2).
    destruct (er_tracks _ _ H23 _ _ Ht2) as (tr3 & Ht3 & Hr3). exists tr3. split; [done|].
    destruct Hr2, Hr3. constructor; try congruence; eauto.
    intros gid r g He Hg Hgr Hp. destruct (er_groups _ _ H12 _ _ Hgr) as (g2 & Hg2 & Hgr2).
    apply (tr_pinned1 gid r g2); try done; [|by rewrite (gr_pinCount _ _ Hgr2)].
    apply (tr_pinned0 gid r g); try done. destruct (evicted tr2) eqn:E; [|done].
    rewrite tr_evicted1 in He by done. done.
  - intros r g Hg. destruct (er_groups _ _ H12 _ _ Hg) as (g2 & Hg2 & H2).
    destruct (er_groups _ _ H23 _ _ Hg2) as (g3 & Hg3 & H3). exists g3. split; [done|].
    destruct H2, H3. constructor; congruence.
  - intros ftn t H. by eapply (er_cache _ _ H12), (er_cache _ _ H23).
  - pose proof (er_bytes _ _ H12). pose proof (er_bytes _ _ H23). lia.
  - destruct (er_limits _ _ H12) as (?&?&?&?). destruct (er_limits _ _ H23) as (?&?&?&?).
    split_and!; congruence.
  - destruct (er_next _ _ H12), (er_next _ _ H23). split; congruence.
  - intros x Hx. by apply (er_tlru _ _ H12), (er_tlru _ _ H23).
  - intros r Hr. by apply (er_newg _ _ H23), (er_newg _ _ H12).
  - intros t Ht. by apply (er_newt _ _ H23), (er_newt _ _ H12).
  - intros Hl. by apply (er_listed _ _ H23), (er_listed _ _ H12).
Qed.

(** Taking a group off its track and both lists leaves the others listed. *)
Lemma listed_detach c r t g tr tr' gid tot :
  store_ok c -> theTracks c !! t = Some tr -> groups tr !! gid = Some r ->
  groups tr' = delete gid (groups tr) -> groupLRU tr' = lru_erase r (groupLRU tr) -> listed c ->
  listed (at_ (set_globalGroupLRU_ (lru_erase r (globalGroupLRU_ c)) (set_totalCachedBytes_ tot c)) r t g tr').
Proof.
  intros Hok Ht Hr Hgrp Hlru Hl f t1 tr1 gid1 r1 g1. simpl. intros Hf1 Ht1 Hr1 Hg1 Hp1.
  assert (exists tr0, theTracks c !! t1 = Some tr0 /\ groups tr0 !! gid1 = Some r1 /\ r1 <> r /\
    ((r1, gid1) ∈ groupLRU tr0 -> (r1, gid1) ∈ groupLRU tr1)) as (tr0 & Ht0 & Hr0 & Hne & Hkeep).
  { apply lookup_insert_Some in Ht1 as [[<- <-]|[Hne Ht1]].
    - rewrite Hgrp, lookup_delete_Some in Hr1. destruct Hr1 as [Hn Hr1].
      assert (r1 <> r).
      { intros ->. destruct Hn. by destruct (ok_group_inj c Hok _ _ _ _ _ _ _ Ht Hr Ht Hr1). }
      exists tr. split_and!; try done. rewrite Hlru, elem_lru_erase. done.
    - exists tr1. split_and!; try done. intros ->. destruct Hne.
      by destruct (ok_group_inj c Hok _ _ _ _ _ _ _ Ht Hr Ht1 Hr1). }
  rewrite lookup_insert_ne in Hg1 by done.
  destruct (Hl f t1 tr0 gid1 r1 g1) as [Ha Hb]; try done. rewrite elem_lru_erase. auto.
Qed.

Lemma evictGroup_spec c ftn t tr gid r g :
  store_ok c -> cache_ c !! ftn = Some t -> theTracks c !! t = Some tr ->
  groups tr !! gid = Some r -> theGroups c !! r = Some g ->
  pinCount_ g = 0 \/ evicted tr = true ->
  exists c' tr', evictGroup t gid c = Some (tt, c') /\ store_ok c' /\ evict_rel c c' /\
    cache_ c' = cache_ c /\ trackLRU_ c' = trackLRU_ c /\
    totalCachedBytes_ c' = totalCachedBytes_ c - totalBytes g /\
    globalGroupLRU_ c' = lru_erase r (globalGroupLRU_ c) /\
    theTracks c' = <[t:=tr']> (theTracks c) /\
    groups tr' = delete gid (groups tr) /\ groupLRU tr' = lru_erase r (groupLRU tr) /\
    evicted tr' = evicted tr /\ t_lruIter_ tr' = t_lruIter_ tr.
Proof.
  intros Hok Hf Ht Hr Hg Hpin.
  destruct (evictGroup_run c ftn t tr gid r g Hok Hf Ht Hr Hg) as (tr' & Hrun & x & y & Htr').
  assert (Hgrp : groups tr' = delete gid (groups tr)) by (by rewrite Htr').
  assert (Hlru : groupLRU tr' = lru_erase r (groupLRU tr)) by (by rewrite Htr').
  assert (Hev : evicted tr' = evicted tr) by (by rewrite Htr').
  eexists _, tr'. split; [exact Hrun|]. split_and!; try done; [| |by rewrite Htr'].
  - destruct (ok_flags c Hok r g Hg) as (Hfl & Hp0 & _).
    apply (store_ok_update c r t g (unlisted g) tr tr' _ _ gid Hok Ht Hg Hr).
    + rewrite (ok_total c Hok).
      transitivity (cache_total (at_ c r t (unlisted g) tr')); [|done].
      by rewrite (cache_total_at c r t g (unlisted g) tr tr' ftn gid false).
    + by rewrite Htr'.
    + exact (ok_bytes c Hok r g Hg).
    + done.
    + intros gid1 r1. rewrite Hgrp, lookup_delete_Some. tauto.
    + intros gid1 r1 Hne H1. rewrite Hgrp, lookup_delete_ne; [done|]. congruence.
    + intros r1 gid1. rewrite Hlru, elem_lru_erase. simpl. intros [Hin Hne].
      destruct (ok_lru c Hok _ _ _ _ Ht Hin) as [H1 _]. split_and!; try done.
      rewrite Hgrp, lookup_delete_ne; congruence.
    + rewrite Hlru. by apply lru_erase_nodup, (ok_lru_nodup c Hok t).
    + intros r1 f gid1. rewrite elem_lru_erase. simpl. intros [Hin Hne]. by split.
    + apply lru_erase_nodup, (ok_global_nodup c Hok).
  - constructor.
    + intros t1 tr1 Ht1. simpl. destruct (decide (t = t1)) as [<-|Hne].
      * exists tr'. rewrite lookup_insert_eq. split; [done|]. assert (tr1 = tr) as -> by congruence.
        rewrite Htr'. constructor; try done; simpl.
        -- intros gid1 r1. rewrite lookup_delete_Some. tauto.
        -- intros gid1 r1 g1 He H1 H2 H3. rewrite lookup_delete_ne; [done|]. intros <-.
           rewrite Hr in H1. injection H1 as <-. rewrite Hg in H2. injection H2 as <-.
           destruct Hpin as [?|?]; [lia|congruence].
      * exists tr1. rewrite lookup_insert_ne by done. split; [done|apply track_rel_refl].
    + intros r1 g1 Hg1. simpl. destruct (decide (r = r1)) as [<-|Hne].
      * exists (unlisted g). rewrite lookup_insert_eq. split; [done|]. rewrite Hg in Hg1.
        injection Hg1 as <-. by constructor.
      * exists g1. rewrite lookup_insert_ne by done. split; [done|apply group_rel_refl].
    + done.
    + simpl. pose proof (group_total_nonneg c r Hok) as Hn. unfold group_total in Hn.
      rewrite Hg in Hn. lia.
    + done.
    + done.
    + done.
    + intros r1. simpl. rewrite lookup_insert_None. intros H1. split; congruence.
    + intros t1. simpl. rewrite lookup_insert_None. intros H1. split; congruence.
    + by apply (listed_detach c r t _ tr tr' gid).
Qed.

(** ** Whole tracks *)

(** A change of a track that leaves its groups alone, with a new track LRU. *)
Lemma store_ok_track c t tr tr' tl :
  store_ok c -> theTracks c !! t = Some tr ->
  groups tr' = groups tr -> groupLRU tr' = groupLRU tr ->
  (forall t1 f, (t1, f) ∈ tl -> cache_ c !! f = Some t1 /\
     if decide (t1 = t) then t_lruIter_ tr' = true else (t1, f) ∈ trackLRU_ c) ->
  store_ok (set_trackLRU_ tl (set_theTracks (<[t:=tr']> (theTracks c)) c)).
Proof.
  intros Hok Ht Hgr Hlru Htl. set (c' := set_trackLRU_ _ _).
  assert (Htr : forall t1 tr1, theTracks c' !! t1 = Some tr1 -> exists tr0,
    theTracks c !! t1 = Some tr0 /\ groups tr1 = groups tr0 /\ groupLRU tr1 = groupLRU tr0).
  { intros t1 tr1. unfold c'. simpl. rewrite lookup_insert_Some. intros [[<- <-]|[Hne H]]; eauto. }
  assert (Htr' : forall t1 tr0, theTracks c !! t1 = Some tr0 -> exists tr1,
    theTracks c' !! t1 = Some tr1 /\ groups tr1 = groups tr0).
  { intros t1 tr0 H. unfold c'. simpl. destruct (decide (t = t1)) as [<-|Hne].
    - exists tr'. rewrite lookup_insert_eq. split; [done|congruence].
    - exists tr0. by rewrite lookup_insert_ne. }
  constructor.
  - change (totalCachedBytes_ c') with (totalCachedBytes_ c). rewrite (ok_total c Hok).
    apply map_sumZ_ext. intros f t1 _. unfold track_total. unfold c'. simpl.
    destruct (decide (t = t1)) as [<-|Hne]; [rewrite lookup_insert_eq, Ht, Hgr|by rewrite lookup_insert_ne].
    done.
  - intros f t1 Hf. destruct (ok_cached c Hok f t1 Hf) as [tr0 H]. destruct (Htr' _ _ H) as (? & ? & _). eauto.
  - exact (ok_cache_inj c Hok).
  - intros t1 tr1 gid r H1 H2. destruct (Htr _ _ H1) as (tr0 & H3 & H4 & _).
    rewrite H4 in H2. exact (ok_group c Hok _ _ _ _ H3 H2).
  - intros t1 tr1 g1 t2 tr2 g2 r H1 H2 H3 H4.
    destruct (Htr _ _ H1) as (? & H5 & H6 & _). destruct (Htr _ _ H3) as (? & H7 & H8 & _).
    rewrite H6 in H2. rewrite H8 in H4. exact (ok_group_inj c Hok _ _ _ _ _ _ _ H5 H2 H7 H4).
  - exact (ok_gfresh c Hok).
  - intros t1 tr1 H1. destruct (Htr _ _ H1) as (? & H2 & _). exact (ok_tfresh c Hok _ _ H2).
  - exact (ok_bytes c Hok).
  - intros t1 tr1 r gid H1 H2. destruct (Htr _ _ H1) as (? & H3 & H4 & H5).
    rewrite H5 in H2. rewrite H4. exact (ok_lru c Hok _ _ _ _ H3 H2).
  - intros t1 tr1 H1. destruct (Htr _ _ H1) as (? & H3 & H4 & H5). rewrite H5.
    exact (ok_lru_nodup c Hok _ _ H3).
  - exact (ok_flags c Hok).
  - intros r f gid Hin. destruct (ok_global c Hok r f gid Hin) as (t1 & tr0 & g & H1 & H2 & H3 & H4).
    destruct (Htr' _ _ H2) as (tr1 & H5 & H6). exists t1, tr1, g. rewrite H6. done.
  - exact (ok_global_nodup c Hok).
  - intros t1 f Hin. destruct (Htl t1 f Hin) as [H1 H2]. split; [done|]. unfold c'. simpl.
    destruct (decide (t1 = t)) as [->|Hne]; [exists tr'; by rewrite lookup_insert_eq|].
    rewrite lookup_insert_ne by done. by destruct (ok_tlru c Hok t1 f H2).
Qed.

(** Dropping a track that has no groups and is in no LRU list. *)
Lemma store_ok_drop c ftn t tr :
  store_ok c -> cache_ c !! ftn = Some t -> theTracks c !! t = Some tr ->
  groups tr = ∅ -> (forall f, (t, f) ∉ trackLRU_ c) ->
  store_ok (set_cache_ (delete ftn (cache_ c)) c).
Proof.
  intros Hok Hf Ht Hgr Htl. constructor; simpl; try apply Hok.
  - rewrite (ok_total c Hok). unfold cache_total at 1. rewrite (map_sumZ_delete _ _ ftn t Hf).
    unfold track_total at 1. rewrite Ht, Hgr, map_sumZ_empty. simpl. apply map_sumZ_ext. done.
  - intros f t1. rewrite lookup_delete_Some. intros [_ H]. by eapply (ok_cached c Hok).
  - intros f1 f2 t1. rewrite !lookup_delete_Some. intros [_ H1] [_ H2].
    exact (ok_cache_inj c Hok _ _ _ H1 H2).
  - intros r f gid Hin. destruct (ok_global c Hok r f gid Hin) as (t1 & tr1 & g & H1 & H2 & H3 & H4).
    exists t1, tr1, g. rewrite lookup_delete_ne; [done|]. intros <-.
    assert (t1 = t) as -> by congruence. assert (tr1 = tr) as -> by congruence.
    by rewrite Hgr, lookup_empty in H3.
  - intros t1 f Hin. destruct (ok_tlru c Hok t1 f Hin) as [H1 H2]. split; [|done].
    rewrite lookup_delete_ne; [done|]. intros <-. assert (t1 = t) as -> by congruence. by eapply Htl.
Qed.

Lemma decide_cons_eq {A} (k : Z) l (a b : A) : (if decide (k ∈ k :: l) then a else b) = a.
Proof. apply decide_True, list_elem_of_here. Qed.
Lemma decide_cons_ne {A} (k' k : Z) l (a b : A) :
  k' <> k -> (if decide (k' ∈ k :: l) then a else b) = (if decide (k' ∈ l) then a else b).
Proof. intros Hne. apply decide_ext. rewrite elem_of_cons. tauto. Qed.

Lemma evictGroups_list c ftn t gids : forall tr,
  store_ok c -> cache_ c !! ftn = Some t -> theTracks c !! t = Some tr -> evicted tr = true ->
  exists c' tr', foldr (fun gid k => evictGroup t gid;; k) (mret tt) gids c = Some (tt, c') /\
    store_ok c' /\ evict_rel c c' /\ cache_ c' = cache_ c /\ trackLRU_ c' = trackLRU_ c /\
    theTracks c' = <[t:=tr']> (theTracks c) /\ evicted tr' = true /\ t_lruIter_ tr' = t_lruIter_ tr /\
    (forall gid, groups tr' !! gid = if decide (gid ∈ gids) then None else groups tr !! gid) /\
    (gids = [] -> c' = c).
Proof.
  revert c. induction gids as [|gid gids IH]; intros c tr Hok Hf Ht Hev.
  - exists c, tr. split_and!; try done; [apply evict_rel_refl|by rewrite insert_id].
  - simpl. destruct (groups tr !! gid) as [r|] eqn:Hr.
    + destruct (ok_group c Hok _ _ _ _ Ht Hr) as [g Hg].
      destruct (evictGroup_spec c ftn t tr gid r g Hok Hf Ht Hr Hg (or_intror Hev)) as
        (c1 & tr1 & Hrun & Hok1 & Hrel1 & Hc1 & Htl1 & _ & _ & Ht1 & Hgr1 & _ & Hev1 & Hlf1).
      destruct (IH c1 tr1) as (c' & tr' & Hrun' & Hok' & Hrel' & Hc' & Htl' & Ht' & Hev' & Hlf' & Hgr' & _);
        [done|by rewrite Hc1|by rewrite Ht1, lookup_insert_eq|by rewrite Hev1|].
      exists c', tr'. split; [by rewrite (bind_some _ _ _ _ _ Hrun)|].
      split_and!; try done; try congruence.
      * by eapply evict_rel_trans.
      * rewrite Ht', Ht1. by rewrite insert_insert_eq.
      * intros gid'. rewrite Hgr', Hgr1. destruct (decide (gid' = gid)) as [->|Hne].
        -- rewrite decide_cons_eq, lookup_delete_eq. by case_decide.
        -- by rewrite decide_cons_ne, lookup_delete_ne.
    + destruct (IH c tr Hok Hf Ht Hev) as (c' & tr' & Hrun' & H).
      exists c', tr'. split.
      * assert (Hrun : evictGroup t gid c = Some (tt, c)).
        { unfold evictGroup, getTrack, mbind, M_bind, get, deref. simpl. rewrite Ht. simpl. by rewrite Hr. }
        by rewrite (bind_some _ _ _ _ _ Hrun).
      * destruct H as (?&?&?&?&?&?&?&Hgr'&_). split_and!; try done. intros gid'. rewrite Hgr'.
        destruct (decide (gid' = gid)) as [->|Hne]; [|by rewrite decide_cons_ne].
        rewrite decide_cons_eq, Hr. by case_decide.
Qed.

Lemma evictTrack_spec c ftn :
  cache_ok c ->
  exists c', evictTrack ftn c = Some (if decide (is_Some (cache_ c !! ftn)) then 1 else 0, c') /\
    cache_ok c' /\ evict_rel c c' /\ cache_ c' = delete ftn (cache_ c) /\
    (forall t tr, cache_ c !! ftn = Some t -> theTracks c !! t = Some tr -> groups tr = ∅ ->
       globalGroupLRU_ c' = globalGroupLRU_ c).
Proof.
  intros [Hok Hev]. unfold evictTrack.
  erewrite bind_some by done. destruct (cache_ c !! ftn) as [t|] eqn:Hf.
  2: { exists c. split_and!; [|by split|apply evict_rel_refl|by rewrite delete_id|done].
       by rewrite decide_False by (intros [? ?]; congruence). }
  rewrite decide_True by eauto.
  destruct (ok_cached c Hok _ _ Hf) as [tr Ht].
  assert (Hget : getTrack t c = Some (tr, c))
    by (unfold getTrack, mbind, M_bind, get, deref; simpl; by rewrite Ht).
  rewrite (bind_some _ _ _ _ _ Hget).
  set (tl := lru_erase t (trackLRU_ c)). set (tr1 := set_t_lruIter_ false (set_evicted true tr)).
  set (c1 := set_trackLRU_ tl (set_theTracks (<[t:=tr1]> (theTracks c)) c)).
  assert (Hstart : forall (k : unit -> M MoqxCache Z),
    (modTrack t (set_evicted true) ≫= fun _ =>
     (if t_lruIter_ tr then modify (fun c => set_trackLRU_ (lru_erase t (trackLRU_ c)) c);;
        modTrack t (set_t_lruIter_ false) else mret tt) ≫= k) c = k tt c1).
  { intros k. unfold modTrack, getTrack, putTrack, mbind, M_bind, get, modify, deref. simpl. rewrite Ht. simpl.
    destruct (t_lruIter_ tr) eqn:El; simpl.
    - rewrite lookup_insert_eq. simpl. unfold c1, tr1, set_theTracks, set_trackLRU_. simpl.
      by rewrite insert_insert_eq.
    - unfold c1, tl. rewrite lru_erase_id.
      + unfold tr1. f_equal. unfold set_trackLRU_, set_theTracks. simpl.
        f_equal. f_equal. unfold set_t_lruIter_. simpl. rewrite <- El. by destruct tr.
      + rewrite list_elem_of_fmap. intros ([t1 f] & -> & Hin).
        destruct (ok_tlru c Hok _ _ Hin) as (_ & tr' & ? & ?). simpl in *. congruence. }
  rewrite Hstart. clear Hstart.
  assert (Hok1 : store_ok c1).
  { apply (store_ok_track c t tr tr1 tl Hok Ht eq_refl eq_refl). intros t1 f.
    unfold tl. rewrite elem_lru_erase. simpl. intros [Hin Hne].
    rewrite decide_False by done. split; [|done]. by apply (ok_tlru c Hok). }
  assert (Ht1 : theTracks c1 !! t = Some tr1) by (unfold c1; simpl; by rewrite lookup_insert_eq).
  assert (Hf1 : cache_ c1 !! ftn = Some t) by done.
  destruct (evictGroups_list c1 ftn t ((map_to_list (groups tr1)).*1) tr1 Hok1 Hf1 Ht1 eq_refl) as
    (c2 & tr2 & Hrun & Hok2 & Hrel & Hc2 & Htl2 & Ht2 & Hev2 & Hlf2 & Hgr2 & Hnil).
  assert (Hall : evictAllGroups t c1 = Some (tt, c2)).
  { unfold evictAllGroups. rewrite <- Hrun. unfold mbind at 1, M_bind at 1, getTrack, mbind, M_bind, get, deref.
    simpl. rewrite lookup_insert_eq. done. }
  rewrite (bind_some _ _ _ _ _ Hall). clear Hall Hrun.
  assert (Hempty : groups tr2 = ∅).
  { apply map_eq. intros gid. rewrite Hgr2, lookup_empty. case_decide as Hin; [done|].
    destruct (groups tr1 !! gid) as [r|] eqn:Er; [|done]. destruct Hin.
    apply list_elem_of_fmap. exists (gid, r). split; [done|]. by apply elem_of_map_to_list. }
  eexists. split; [reflexivity|]. split_and!.
  - split.
    + apply (store_ok_drop c2 ftn t tr2); try done; [by rewrite Hc2|by rewrite Ht2, lookup_insert_eq|].
      intros f. rewrite Htl2. unfold c1. simpl. unfold tl. rewrite elem_lru_erase. simpl. tauto.
    + intros t1 tr' . simpl. rewrite Ht2, Hc2. unfold c1. simpl. rewrite insert_insert_eq.
      rewrite lookup_insert_Some. intros [[<- <-]|[Hne H1]].
      * rewrite Hev2. split; [split; [done|]|intros _].
        -- intros [f [Hfn Hf']%lookup_delete_Some]. destruct Hfn. by eapply (ok_cache_inj c Hok).
        -- destruct (groupLRU tr2) as [|[r gid] l] eqn:El; [done|].
           destruct (ok_lru c2 Hok2 t tr2 r gid) as [H1 _];
             [by rewrite Ht2, lookup_insert_eq|rewrite El; apply list_elem_of_here|].
           by rewrite Hempty, lookup_empty in H1.
      * destruct (Hev t1 tr' H1) as [Hev1 Hev1']. split; [|done].
        rewrite Hev1. split; intros [f Hf'].
        -- exists f. rewrite lookup_delete_ne; [done|]. congruence.
        -- apply lookup_delete_Some in Hf' as [_ ?]. eauto.
  - eapply evict_rel_trans; [|eapply evict_rel_trans; [exact Hrel|]].
    + constructor; try done; [|by eauto using group_rel_refl| | |].
      4: { intros Hl f t1 tr' gid r g Hf' Ht'. unfold c1 in Ht'. simpl in Ht'.
           apply lookup_insert_Some in Ht' as [[<- <-]|[_ Ht']]; [|by apply (Hl f t1 tr')].
           exact (Hl f t tr gid r g Hf' Ht). }
      2: { intros x. unfold c1, tl. simpl. rewrite elem_lru_erase. tauto. }
      2: { intros t1. unfold c1. simpl. rewrite lookup_insert_None. intros H1. split; congruence. }
      intros t1 tr' H1. unfold c1. simpl. destruct (decide (t = t1)) as [<-|Hne].
      * exists tr1. rewrite lookup_insert_eq. split; [done|]. assert (tr' = tr) as -> by congruence. by constructor.
      * exists tr'. rewrite lookup_insert_ne by done. split; [done|apply track_rel_refl].
    + constructor; try done; eauto using group_rel_refl, track_rel_refl.
      * intros f t1. simpl. rewrite lookup_delete_Some. tauto.
      * intros Hl f t1 tr' gid r g. simpl. rewrite lookup_delete_Some. intros [_ Hf']. by apply (Hl f t1).
  - simpl. by rewrite Hc2.
  - intros t' tr' Hf' Ht' He. simpl. rewrite Hnil; [done|].
    assert (t' = t) as -> by congruence. assert (tr' = tr) as -> by congruence.
    unfold tr1. simpl. by rewrite He, map_to_list_empty.
Qed.

Lemma getTrack_run c t tr : theTracks c !! t = Some tr -> getTrack t c = Some (tr, c).
Proof. intros Ht. unfold getTrack, mbind, M_bind, get, deref. simpl. by rewrite Ht. Qed.
Lemma getGroup_run c r g : theGroups c !! r = Some g -> getGroup r c = Some (g, c).
Proof. intros Ht. unfold getGroup, mbind, M_bind, get, deref. simpl. by rewrite Ht. Qed.

(** [evictGroup] on a listed group of a cached track. *)
Lemma evictGroup_listed c ftn t tr gid r g :
  cache_ok c -> cache_ c !! ftn = Some t -> theTracks c !! t = Some tr ->
  groups tr !! gid = Some r -> theGroups c !! r = Some g -> g_lruIter_ g = true ->
  exists c' tr', evictGroup t gid c = Some (tt, c') /\ cache_ok c' /\ evict_rel c c' /\
    cache_ c' = cache_ c /\ totalCachedBytes_ c' = totalCachedBytes_ c - totalBytes g /\
    globalGroupLRU_ c' = lru_erase r (globalGroupLRU_ c) /\
    theTracks c' = <[t:=tr']> (theTracks c) /\
    groups tr' = delete gid (groups tr) /\ groupLRU tr' = lru_erase r (groupLRU tr).
Proof.
  intros [Hok Hev] Hf Ht Hr Hg Hl.
  destruct (ok_flags c Hok r g Hg) as (_ & _ & Hp).
  destruct (evictGroup_spec c ftn t tr gid r g Hok Hf Ht Hr Hg (or_introl (Hp Hl))) as
    (c' & tr' & H1 & H2 & H3 & H4 & H5 & H6 & H7 & H8 & H9 & H10 & H11 & H12).
  exists c', tr'. split_and!; try done. split; [done|].
  intros t1 tr1. rewrite H8, H4, lookup_insert_Some. intros [[<- <-]|[Hne H]].
  - destruct (Hev t tr Ht) as [He1 He2]. rewrite H11, H10. split; [done|].
    intros He. by rewrite (He2 He).
  - exact (Hev t1 tr1 H).
Qed.

Lemma lru_erase_length {B} (r : Z) (l : list (Z * B)) :
  r ∈ l.*1 -> (length (lru_erase r l) < length l)%nat.
Proof.
  assert (Hle : forall l : list (Z * B), (length (lru_erase r l) <= length l)%nat).
  { intros k. apply List.filter_length_le. }
  induction l as [|[x b] l IH]; simpl; [intros H; by apply elem_of_nil in H|].
  unfold lru_erase in *. simpl. case_test; simpl.
  - intros [->|Hin]%elem_of_cons; [lia|]. specialize (IH Hin). lia.
  - intros _. specialize (Hle l). lia.
Qed.

Lemma last_elem_of {A} (l : list A) x : last l = Some x -> x ∈ l.
Proof. intros [l' ->]%last_Some. apply elem_of_app. right. apply list_elem_of_here. Qed.

(** ** The per-track group limit *)
Lemma evictOldestGroups_loop_spec fuel : forall c ftn t tr,
  cache_ok c -> cache_ c !! ftn = Some t -> theTracks c !! t = Some tr ->
  (length (groupLRU tr) <= fuel)%nat ->
  exists c' tr', evictOldestGroups_loop fuel t c = Some (tt, c') /\ cache_ok c' /\ evict_rel c c' /\
    cache_ c' = cache_ c /\ theTracks c' !! t = Some tr' /\
    (Z.of_nat (size (groups tr')) <= maxCachedGroupsPerTrack_ c \/ groupLRU tr' = []).
Proof.
  induction fuel as [|fuel IH]; intros c ftn t tr Hok Hf Ht Hlen; simpl;
    (erewrite bind_some by done); rewrite (bind_some _ _ _ _ _ (getTrack_run c t tr Ht)); case_test.
  - exists c, tr. split_and!; try done; [apply evict_rel_refl|].
    right. destruct (groupLRU tr); [done|simpl in Hlen; lia].
  - exists c, tr. split_and!; try done; [apply evict_rel_refl|lia].
  - destruct (last (groupLRU tr)) as [[r gid]|] eqn:El.
    2: { apply last_None in El. exists c, tr. split_and!; try done; [apply evict_rel_refl|by right]. }
    assert (Hin : (r, gid) ∈ groupLRU tr) by exact (last_elem_of _ _ El).
    destruct (ok_lru c (proj1 Hok) _ _ _ _ Ht Hin) as (Hr & g & Hg & Hl).
    rewrite bool_decide_true by eauto.
    destruct (evictGroup_listed c ftn t tr gid r g Hok Hf Ht Hr Hg Hl) as
      (c1 & tr1 & H1 & H2 & H3 & H4 & _ & _ & H5 & _ & H6).
    rewrite (bind_some _ _ _ _ _ H1).
    destruct (IH c1 ftn t tr1) as (c' & tr' & H7 & H8 & H9 & H10 & H11 & H12);
      [done|by rewrite H4|by rewrite H5, lookup_insert_eq| |].
    { rewrite H6. enough (length (lru_erase r (groupLRU tr)) < length (groupLRU tr))%nat by lia.
      apply lru_erase_length, list_elem_of_fmap. by exists (r, gid). }
    exists c', tr'. split_and!; try done; [by eapply evict_rel_trans|congruence|].
    destruct (er_limits _ _ H3) as (_ & <- & _). done.
  - exists c, tr. split_and!; try done; [apply evict_rel_refl|lia].
Qed.
End totals.
