(* ===== verification/CacheSafety.v ===== *)
(** Safety of the cache: what eviction under the byte limit, the group limit,
    the track limit and a purge guarantee, and that object writes keep the
    invariant of the store ([CacheInv.cache_ok]) on every path. *)

From Stdlib Require Import Init.Byte.
From S2P Require Import Prelude Location CacheRanges CacheState CacheObject CacheEvict CacheInv.

Section safety.
Context `{LA : LocationApi} `{IA : IntervalSetApi} `{EA : ExtensionsApi}.
Implicit Types c : MoqxCache.

(** An entry of the global group LRU whose group is the newest group of a live
    track. *)
Definition at_join_point c (x : gref * (FullTrackName * Z)) : Prop :=
  exists t tr, cache_ c !! x.2.1 = Some t /\ theTracks c !! t = Some tr /\ isJoinPoint tr x.2.2 = true.

Lemma lru_erase_nth {B} (l : list (Z * B)) n r b :
  NoDup l.*1 -> l !! n = Some (r, b) -> lru_erase r l = delete n l.
Proof.
  revert n. induction l as [|[x y] l IH]; intros n; [done|]. simpl. rewrite NoDup_cons. intros [Hx Hl].
  destruct n as [|n]; simpl.
  - intros [= -> ->]. unfold lru_erase. simpl. rewrite Z.eqb_refl. simpl. by apply lru_erase_id.
  - intros Hn. unfold lru_erase. simpl. destruct (x =? r) eqn:E; simpl.
    + assert (x = r) as -> by lia. destruct Hx. apply list_elem_of_fmap. exists (r, b). split; [done|].
      by eapply list_elem_of_lookup_2.
    + f_equal. by apply IH.
Qed.

Lemma drop_delete {A} (l : list A) n : drop n (delete n l) = drop (S n) l.
Proof. revert n. induction l as [|x l IH]; intros [|n]; simpl; auto. Qed.

Lemma isJoinPoint_rel c c' tr tr' gid :
  track_rel c tr tr' -> isJoinPoint tr' gid = isJoinPoint tr gid.
Proof. intros [H1 H2 H3 _ _ _ _]. unfold isJoinPoint. by rewrite H1, H3. Qed.

Lemma isJoinPoint_not_canEvict tr gid : isJoinPoint tr gid = true -> canEvict tr = false.
Proof. unfold isJoinPoint, canEvict. intros [H _]%andb_true_iff. destruct (_ =? 0) eqn:E; [lia|done]. Qed.

(** Join points stay join points while other things are evicted. *)
Lemma at_join_point_rel c c' x :
  evict_rel c c' ->
  (forall ftn t tr, cache_ c !! ftn = Some t -> theTracks c !! t = Some tr -> canEvict tr = false ->
     cache_ c' !! ftn = Some t) ->
  at_join_point c x -> at_join_point c' x.
Proof.
  intros Hrel Hkeep (t & tr & Hf & Ht & Hj).
  destruct (er_tracks _ _ Hrel t tr Ht) as (tr' & Ht' & Hr). exists t, tr'. split_and!; [|done|].
  - apply (Hkeep _ t tr); try done. by eapply isJoinPoint_not_canEvict.
  - rewrite (isJoinPoint_rel c c' tr tr' _ Hr). done.
Qed.

(** What one round of the byte-limit loop does with the node it looks at. *)
Lemma evictBytes_node c n r ftn gid t tr :
  cache_ok c -> globalGroupLRU_ c !! n = Some (r, (ftn, gid)) ->
  cache_ c !! ftn = Some t -> theTracks c !! t = Some tr -> groups tr !! gid = Some r ->
  isJoinPoint tr gid = false ->
  exists c', (evictGroup t gid;; tr ← getTrack t;
     if bool_decide (groups tr = ∅) && canEvict tr then evictTrack ftn;; mret tt else mret tt) c
     = Some (tt, c') /\ cache_ok c' /\ evict_rel c c' /\
     globalGroupLRU_ c' = delete n (globalGroupLRU_ c) /\
     (forall ftn t tr, cache_ c !! ftn = Some t -> theTracks c !! t = Some tr -> canEvict tr = false ->
       cache_ c' !! ftn = Some t).
Proof.
  intros Hok Hn Hf Ht Hr Hj.
  destruct (ok_global c (proj1 Hok) r ftn gid) as (t0 & tr0 & g & Hf0 & Ht0 & _ & Hg & Hl);
    [by eapply list_elem_of_lookup_2|].
  destruct (evictGroup_listed c ftn t tr gid r g Hok Hf Ht Hr Hg Hl) as
    (c1 & tr1 & H1 & H2 & H3 & H4 & _ & H5 & H6 & H7 & _).
  rewrite (lru_erase_nth _ n r (ftn, gid) (ok_global_nodup c (proj1 Hok)) Hn) in H5.
  assert (Ht1 : theTracks c1 !! t = Some tr1) by (by rewrite H6, lookup_insert_eq).
  rewrite (bind_some _ _ _ _ _ H1), (bind_some _ _ _ _ _ (getTrack_run c1 t tr1 Ht1)).
  destruct (bool_decide (groups tr1 = ∅) && canEvict tr1) eqn:E.
  2: { exists c1. split_and!; try done. intros f t' tr'. by rewrite H4. }
  apply andb_true_iff in E as [He%bool_decide_eq_true Hc].
  destruct (evictTrack_spec c1 ftn H2) as (c' & H8 & H9 & H10 & H11 & H12).
  rewrite (bind_some _ _ _ _ _ H8). exists c'. split_and!; try done.
  - by eapply evict_rel_trans.
  - rewrite (H12 t tr1); [done|by rewrite H4|done|done].
  - intros f t' tr' Hf' Ht' Hc'. rewrite H11, H4. rewrite lookup_delete_ne; [done|]. intros <-.
    assert (t' = t) as -> by congruence. assert (tr' = tr) as -> by congruence.
    destruct (er_tracks _ _ H3 t tr Ht) as (tr2 & Ht2 & Hrel). assert (tr2 = tr1) as -> by congruence.
    destruct Hrel as [Hl1 Hl2 _ _ _ _ _]. unfold canEvict in *. rewrite Hl1, Hl2 in Hc. congruence.
Qed.

Lemma evictBytes_loop_spec target n : forall c,
  cache_ok c -> (n <= length (globalGroupLRU_ c))%nat ->
  Forall (at_join_point c) (drop n (globalGroupLRU_ c)) ->
  exists c', evictBytes_loop target n c = Some (tt, c') /\ cache_ok c' /\ evict_rel c c' /\
    (forall ftn t tr, cache_ c !! ftn = Some t -> theTracks c !! t = Some tr -> canEvict tr = false ->
       cache_ c' !! ftn = Some t) /\
    (totalCachedBytes_ c' <= target \/ Forall (at_join_point c') (globalGroupLRU_ c')).
Proof.
  induction n as [|n IH]; intros c Hok Hlen Hjp; simpl.
  { exists c. split_and!; try done; [apply evict_rel_refl|by right]. }
  erewrite bind_some by done. case_test.
  { exists c. split_and!; try done; [apply evict_rel_refl|left; lia]. }
  destruct (globalGroupLRU_ c !! n) as [[r [ftn gid]]|] eqn:Hn.
  2: { apply lookup_ge_None in Hn. lia. }
  destruct (ok_global c (proj1 Hok) r ftn gid) as (t & tr & g & Hf & Ht & Hr & Hg & Hl);
    [by eapply list_elem_of_lookup_2|].
  rewrite Hf. unfold mbind at 1, M_bind at 1.
  rewrite (bind_some _ _ _ _ _ (getTrack_run c t tr Ht)), bool_decide_true by eauto. simpl.
  destruct (isJoinPoint tr gid) eqn:Hj.
  - apply IH; [done|lia|]. erewrite drop_S by done. constructor; [|done]. by exists t, tr.
  - destruct (evictBytes_node c n r ftn gid t tr Hok Hn Hf Ht Hr Hj) as (c1 & H1 & H2 & H3 & H4 & H5).
    rewrite H1. destruct (IH c1) as (c' & H6 & H7 & H8 & H9 & H10); [done| | |].
    + rewrite H4, length_delete by eauto. lia.
    + rewrite H4, drop_delete. eapply Forall_impl; [exact Hjp|]. intros x. by apply at_join_point_rel.
    + exists c'. split_and!; try done; [by eapply evict_rel_trans|].
      intros f t' tr' Hf' Ht' Hc'. destruct (er_tracks _ _ H3 t' tr' Ht') as (tr2 & Ht2 & Hrel).
      apply (H9 f t' tr2); [by eapply H5|done|].
      destruct Hrel as [Hl1 Hl2 _ _ _ _ _]. unfold canEvict in *. by rewrite Hl1, Hl2.
Qed.

(** The watermark the byte-limit eviction aims at. *)
Definition byteTarget c : Z :=
  if minEvictionBytes_ c <? maxCachedBytes_ c then maxCachedBytes_ c - minEvictionBytes_ c else 0.

Lemma evictForByteLimitIfNeeded_spec c :
  cache_ok c ->
  exists b c', evictForByteLimitIfNeeded c = Some (b, c') /\ cache_ok c' /\ evict_rel c c' /\
    (forall ftn t tr, cache_ c !! ftn = Some t -> theTracks c !! t = Some tr -> canEvict tr = false ->
       cache_ c' !! ftn = Some t) /\
    (b = true <-> maxCachedBytes_ c' = 0 \/ totalCachedBytes_ c' <= maxCachedBytes_ c') /\
    (maxCachedBytes_ c <> 0 -> maxCachedBytes_ c < totalCachedBytes_ c ->
       totalCachedBytes_ c' <= byteTarget c \/ Forall (at_join_point c') (globalGroupLRU_ c')).
Proof.
  intros Hok. unfold evictForByteLimitIfNeeded. erewrite bind_some by done.
  destruct ((maxCachedBytes_ c =? 0) || (totalCachedBytes_ c <=? maxCachedBytes_ c)) eqn:E.
  { exists true, c. split_and!; try done; try apply evict_rel_refl; try lia. }
  fold (byteTarget c).
  destruct (evictBytes_loop_spec (byteTarget c) (length (globalGroupLRU_ c)) c) as
    (c' & H1 & H2 & H3 & H4 & H5); [done|lia|by rewrite drop_all|].
  rewrite (bind_some _ _ _ _ _ H1). erewrite bind_some by done. eexists _, c'.
  split; [reflexivity|]. destruct (er_limits _ _ H3) as (_ & _ & Hm & _).
  split_and!; try done. rewrite Hm. lia.
Qed.

Lemma evictForByteLimitIfNeeded_run c :
  cache_ok c ->
  exists b c', evictForByteLimitIfNeeded c = Some (b, c') /\ cache_ok c' /\ evict_rel c c'.
Proof.
  intros H. destruct (evictForByteLimitIfNeeded_spec c H) as (b & c' & ? & ? & ? & _). by exists b, c'.
Qed.

(** (C19) Byte-limit eviction: it terminates without failing a check and keeps
    the invariant; a track with active operations stays in the cache and keeps
    its pinned groups; and when it returns over the low watermark, every group
    still listed for eviction is the newest group of a live track, so nothing
    else could have been evicted.  Its result says whether the limit holds. *)
Theorem evictForByteLimitIfNeeded_correct c :
  cache_ok c ->
  exists b c', evictForByteLimitIfNeeded c = Some (b, c') /\ cache_ok c' /\ evict_rel c c' /\
    (forall ftn t tr, cache_ c !! ftn = Some t -> theTracks c !! t = Some tr -> canEvict tr = false ->
       cache_ c' !! ftn = Some t) /\
    (b = true <-> maxCachedBytes_ c' = 0 \/ totalCachedBytes_ c' <= maxCachedBytes_ c') /\
    (maxCachedBytes_ c <> 0 -> maxCachedBytes_ c < totalCachedBytes_ c ->
       totalCachedBytes_ c' <= byteTarget c \/ Forall (at_join_point c') (globalGroupLRU_ c')).
Proof. apply evictForByteLimitIfNeeded_spec. Qed.

(** A purge terminates without failing a check, empties the cache and
    brings the byte counter to zero, whatever writebacks and fetches are open. *)
Theorem purge_correct c :
  cache_ok c ->
  exists c', purge c = Some (Z.of_nat (size (cache_ c)), c') /\ cache_ok c' /\ evict_rel c c' /\
    cache_ c' = ∅ /\ totalCachedBytes_ c' = 0.
Proof.
  intros Hok. unfold purge. erewrite bind_some by done.
  set (all := (map_to_list (cache_ c)).*1).
  enough (H : forall names c, cache_ok c -> exists m c', evictAll names c = Some (m, c') /\ cache_ok c' /\
    evict_rel c c' /\ forall ftn, cache_ c' !! ftn = if decide (ftn ∈ names) then None else cache_ c !! ftn).
  { destruct (H all c Hok) as (m & c' & H1 & H2 & H3 & H4). rewrite (bind_some _ _ _ _ _ H1).
    assert (He : cache_ c' = ∅).
    { apply map_eq. intros ftn. rewrite H4, lookup_empty. case_decide as Hin; [done|].
      destruct (cache_ c !! ftn) as [t|] eqn:Ef; [|done]. destruct Hin.
      apply list_elem_of_fmap. exists (ftn, t). split; [done|]. by apply elem_of_map_to_list. }
    exists c'. split_and!; try done.
    - unfold all. by rewrite length_fmap, length_map_to_list.
    - rewrite (ok_total c' (proj1 H2)). unfold cache_total. by rewrite He, map_sumZ_empty. }
  clear c Hok all. induction names as [|ftn names IH]; intros c Hok; simpl.
  { exists 0, c. split_and!; try done. apply evict_rel_refl. }
  destruct (evictTrack_spec c ftn Hok) as (c1 & H1 & H2 & H3 & H4 & _).
  rewrite (bind_some _ _ _ _ _ H1). destruct (IH c1 H2) as (m & c' & H5 & H6 & H7 & H8).
  rewrite (bind_some _ _ _ _ _ H5). eexists _, c'. split_and!; [reflexivity|done|by eapply evict_rel_trans|].
  intros ftn'. rewrite H8, H4. destruct (decide (ftn' = ftn)) as [->|Hne].
  - rewrite (decide_True (P := ftn ∈ ftn :: names)), lookup_delete_eq by apply list_elem_of_here.
    by destruct (decide (ftn ∈ names)).
  - rewrite lookup_delete_ne by done. apply decide_ext. rewrite elem_of_cons. tauto.
Qed.
End safety.
