(* ===== verification/CacheWrite.v ===== *)
(** Writing into the cache: object writes, pins, lookups and the creation of
    tracks and groups keep the invariant of the store ([CacheInv.cache_ok]) and
    never fail a check of the source. *)

From Stdlib Require Import Init.Byte.
From S2P Require Import Prelude Location CacheRanges CacheState CacheObject CacheEvict CacheInv CacheSafety.

(** ** One object write on a group of the track *)
Section object_write.
Context `{LA : LocationApi} `{IA : IntervalSetApi} `{EA : ExtensionsApi}.
Implicit Types c : MoqxCache.

(** A write changes the entries of a group, its byte total and its end and gap
    marks, never its pins or its place in the LRU lists. *)
Definition group_frame (g g' : CacheGroup) : Prop :=
  group_bytes_ok g' /\ totalBytes g <= totalBytes g' /\
  g_lruIter_ g' = g_lruIter_ g /\ g_globalLruIter_ g' = g_globalLruIter_ g /\ pinCount_ g' = pinCount_ g.

Lemma group_frame_trans g1 g2 g3 : group_frame g1 g2 -> group_frame g2 g3 -> group_frame g1 g3.
Proof. intros (? & ? & ? & ? & ?) (? & ? & ? & ? & ?). split_and!; [done|lia|congruence..]. Qed.

Lemma getOrCreateGroup_at c r t g tr gid :
  groups tr !! gid = Some r -> getOrCreateGroup t gid (at_ c r t g tr) = Some (r, at_ c r t g tr).
Proof. intros Hr. unfold getOrCreateGroup. erewrite bind_some by apply getTrack_at. by rewrite Hr. Qed.

(** Gap extensions change the two interval sets and the gap mark of the group. *)
Definition seen_frame (g g' : CacheGroup) : Prop := exists s, g' = set_seenPriorGroupIdGap s g.

Lemma processPriorGroupGap_run c r t g tr gid gap :
  groups tr !! gid = Some r ->
  exists res g' tr', processPriorGroupGap t gid gap (at_ c r t g tr) = Some (res, at_ c r t g' tr') /\
    gap_frame tr tr' /\ seen_frame g g'.
Proof.
  intros Hr. unfold processPriorGroupGap. case_test.
  { exists (Err (malformed "Prior Group ID Gap larger than Group ID")), g, tr. split_and!; try done; [apply gap_frame_refl|]. exists (seenPriorGroupIdGap g). by destruct g. }
  erewrite bind_some by (by apply getOrCreateGroup_at). erewrite bind_some by apply getGroup_at.
  destruct (seenPriorGroupIdGap g) as [seen|] eqn:Es.
  { exists (if negb (seen =? gap) then Err (malformed "Inconsistent Prior Group ID Gap values in group")
            else Ok tt), g, tr. split_and!; [by destruct (negb _)|apply gap_frame_refl|].
    exists (seenPriorGroupIdGap g). by destruct g. }
  erewrite bind_some by apply putGroup_at.
  case_test; [|eexists _, _, _; split_and!; [done|apply gap_frame_refl|by eexists]].
  erewrite bind_some by done. erewrite bind_some by apply getTrack_at.
  case_test; [eexists _, _, _; split_and!; [done|apply gap_frame_refl|by eexists]|].
  erewrite bind_some by apply modTrack_at.
  eexists _, _, _; split_and!; [done|apply insertGap_frame|by eexists].
Qed.

Lemma processPriorObjectGap_run c r t g tr gid oid gap :
  groups tr !! gid = Some r ->
  exists res tr', processPriorObjectGap t gid oid gap (at_ c r t g tr) = Some (res, at_ c r t g tr') /\
    gap_frame tr tr'.
Proof.
  intros Hr. unfold processPriorObjectGap. case_test; [eexists _, _; split; [done|apply gap_frame_refl]|].
  case_test; [|eexists _, _; split; [done|apply gap_frame_refl]].
  erewrite bind_some by (by apply getOrCreateGroup_at). erewrite bind_some by apply getGroup_at.
  case_test; [eexists _, _; split; [done|apply gap_frame_refl]|].
  erewrite bind_some by apply modTrack_at. eexists _, _; split; [done|apply insertGap_frame].
Qed.

Lemma processGapExtensions_run c r t g tr gid oid ext :
  groups tr !! gid = Some r ->
  exists res g' tr', processGapExtensions t gid oid ext (at_ c r t g tr) = Some (res, at_ c r t g' tr') /\
    gap_frame tr tr' /\ seen_frame g g'.
Proof.
  intros Hr. unfold processGapExtensions.
  assert (H1 : exists res g1 tr1,
    match getIntExtension ext kPriorGroupIdGapExtensionType with
    | Some gap => processPriorGroupGap t gid gap | None => mret (Ok tt) end (at_ c r t g tr)
    = Some (res, at_ c r t g1 tr1) /\ gap_frame tr tr1 /\ seen_frame g g1).
  { destruct (getIntExtension ext kPriorGroupIdGapExtensionType).
    - by apply processPriorGroupGap_run.
    - eexists _, _, _. split_and!; [done|apply gap_frame_refl|]. exists (seenPriorGroupIdGap g). by destruct g. }
  destruct H1 as (res & g1 & tr1 & H1 & Hf & Hs). erewrite bind_some by exact H1.
  destruct res as [u|e]; [|eexists _, _, _; split_and!; done].
  destruct (getIntExtension ext kPriorObjectIdGapExtensionType) as [gap|];
    [|eexists _, _, _; split_and!; done].
  destruct (processPriorObjectGap_run c r t g1 tr1 gid oid gap) as (res & tr2 & H2 & Hf2).
  { by destruct Hf as (x & y & ->). }
  eexists _, _, _. split_and!; [exact H2| |done]. by eapply gap_frame_trans.
Qed.

(** The end marks of a group and a track. *)
Lemma endMarks_run c r t g tr gid oid status (k : unit -> M MoqxCache (result MoQPublishError unit)) :
  exists g' tr',
    ((match status with
      | END_OF_GROUP | END_OF_TRACK =>
        (match nextInGroup (Loc gid oid) with
         | Some n => modTrack t (insertGap n (Loc gid (object kLocationMax)))
         | None => mret tt
         end);;
        (if isEndOfTrack status then
           match nextGroup (Loc gid 0) with
           | Some n => modTrack t (insertGap n kLocationMax)
           | None => mret tt
           end
         else mret tt);;
        modGroup r (set_endOfGroup true)
      | _ => mret tt
      end) ≫= k) (at_ c r t g tr) = k tt (at_ c r t g' tr') /\
    gap_frame tr tr' /\ (g' = g \/ g' = set_endOfGroup true g).
Proof.
  assert (Hmark : forall b : bool, exists tr',
    (((match nextInGroup (Loc gid oid) with
         | Some n => modTrack t (insertGap n (Loc gid (object kLocationMax)))
         | None => mret tt
         end);;
        (if b then
           match nextGroup (Loc gid 0) with
           | Some n => modTrack t (insertGap n kLocationMax)
           | None => mret tt
           end
         else mret tt);;
        modGroup r (set_endOfGroup true)) ≫= k) (at_ c r t g tr) = k tt (at_ c r t (set_endOfGroup true g) tr')
     /\ gap_frame tr tr').
  { intros b. set (m1 := match nextInGroup (Loc gid oid) with Some _ => _ | None => _ end).
    assert (exists tr1, m1 (at_ c r t g tr) = Some (tt, at_ c r t g tr1) /\ gap_frame tr tr1) as (tr1 & H1 & Hf1).
    { unfold m1. destruct (nextInGroup _); [rewrite modTrack_at|]; eexists; (split; [done|auto with moqx]). }
    set (m2 := if b then _ else _).
    assert (exists tr2, m2 (at_ c r t g tr1) = Some (tt, at_ c r t g tr2) /\ gap_frame tr1 tr2) as (tr2 & H2 & Hf2).
    { unfold m2. destruct b; [|eexists; (split; [done|auto with moqx])].
      destruct (nextGroup _); [rewrite modTrack_at|]; eexists; (split; [done|auto with moqx]). }
    exists tr2. split; [|by eapply gap_frame_trans].
    unfold mbind, M_bind. by rewrite H1, H2, modGroup_at. }
  destruct status; try (exists g, tr; split_and!; [done|apply gap_frame_refl|by left]).
  - destruct (Hmark false) as (tr' & H & Hf). eexists _, tr'. split_and!; [exact H|done|by right].
  - destruct (Hmark true) as (tr' & H & Hf). eexists _, tr'. split_and!; [exact H|done|by right].
Qed.

Lemma cacheObject_run c r t g tr gid sg oid st ext p comp fwd now off :
  groups tr !! gid = Some r -> group_bytes_ok g -> 0 <= off ->
  exists res g' tr',
    cacheObject r t gid sg oid st ext p comp fwd now off (at_ c r t g tr) = Some (res, at_ c r t g' tr') /\
    gap_frame tr tr' /\ group_frame g g' /\ (forall e, res = Err e -> totalBytes g' = totalBytes g).
Proof.
  intros Hr Hb Hoff.
  assert (Href : group_frame g g) by (split_and!; try done; lia).
  unfold cacheObject. erewrite bind_some by apply getTrack_at.
  case_test; [eexists _, _, _; split_and!; [done|apply gap_frame_refl|done|done]|].
  destruct (processGapExtensions_run c r t g tr gid oid ext Hr) as (res & g1 & tr1 & H1 & Hf1 & s & ->).
  erewrite bind_some by exact H1.
  destruct res as [u|e]; [|eexists _, _, _; split_and!; [done|done|done|done]].
  match goal with |- context [(_ ≫= ?k) _] => set (k0 := k) end.
  destruct (endMarks_run c r t (set_seenPriorGroupIdGap s g) tr1 gid oid st k0) as (g2 & tr2 & H2 & Hf2 & Hg2).
  rewrite H2. clear H1 H2. unfold k0. clear k0.
  assert (Hfr2 : group_frame g g2 /\ totalBytes g2 = totalBytes g).
  { destruct Hg2 as [->| ->]; (split; [|done]); by split_and!. }
  destruct Hfr2 as [Hfr2 Ht2]. pose proof (gap_frame_trans _ _ _ Hf1 Hf2) as Hf. clear Hf1 Hf2 Hg2.
  erewrite bind_some by apply getGroup_at.
  destruct (storeObject _ _ _ _ _ _ _ _ _ _) as [[g3 b]|e] eqn:Es;
    [|eexists _, _, _; split_and!; done].
  apply storeObject_bytes in Es as (Hb3 & Hle & Hl & Hgl & Hp & _); [|done|by destruct Hfr2].
  assert (Hfr3 : group_frame g g3) by (eapply group_frame_trans; [exact Hfr2|by split_and!]).
  destruct b; [|erewrite bind_some by apply putGroup_at; eexists _, _, _; by split_and!].
  erewrite bind_some by apply putGroup_at.
  assert (exists tr4, (if comp then modTrack t (fun tr => set_cachedContent
      (iset_insert (cachedContent tr) (Loc gid oid) (Loc gid oid)) tr) else mret tt) (at_ c r t g3 tr2)
      = Some (tt, at_ c r t g3 tr4) /\ gap_frame tr2 tr4) as (tr4 & H4 & Hf4).
  { destruct comp; [rewrite modTrack_at|]; eexists; (split; [done|]); [|apply gap_frame_refl].
    exists (iset_insert (cachedContent tr2) (Loc gid oid) (Loc gid oid)), (gaps tr2). by destruct tr2. }
  erewrite bind_some by exact H4. erewrite bind_some by apply modGroup_at.
  eexists _, _, _. split_and!; [done|by eapply gap_frame_trans| |done].
  eapply group_frame_trans; [exact Hfr3|]. destruct Hfr3. case_test; by split_and!.
Qed.
End object_write.

(** ** Writes keep the invariant *)
Section write_spec.
Context `{LA : LocationApi} `{IA : IntervalSetApi} `{EA : ExtensionsApi}.
Implicit Types c : MoqxCache.

(** What an operation of one writer guarantees to all others: tracks and groups
    stay allocated with their counts, evicted tracks stay evicted, and a pinned
    group of a track that is not evicted stays attached to it.  No group that
    existed before is attached anew, and if all unpinned groups of cached tracks
    were in the LRU lists they still are. *)
Record run_rel c c' : Prop := {
  rr_tracks t tr : theTracks c !! t = Some tr -> exists tr', theTracks c' !! t = Some tr' /\
    liveWritebackCount tr' = liveWritebackCount tr /\ fetchesInProgress tr' = fetchesInProgress tr /\
    (evicted tr = true -> evicted tr' = true) /\
    (forall gid r g, evicted tr' = false -> groups tr !! gid = Some r -> theGroups c !! r = Some g ->
       0 < pinCount_ g -> groups tr' !! gid = Some r);
  rr_groups r g : theGroups c !! r = Some g ->
    exists g', theGroups c' !! r = Some g' /\ pinCount_ g' = pinCount_ g;
  rr_cache ftn t : is_Some (theTracks c !! t) -> cache_ c' !! ftn = Some t -> cache_ c !! ftn = Some t;
  rr_tlru x : x ∈ trackLRU_ c' -> x ∈ trackLRU_ c;
  rr_newg r g' : theGroups c !! r = None -> theGroups c' !! r = Some g' -> pinCount_ g' = 0;
  rr_newt t tr' : theTracks c !! t = None -> theTracks c' !! t = Some tr' -> liveWritebackCount tr' = 0;
  rr_attach t tr' gid r : theTracks c' !! t = Some tr' -> groups tr' !! gid = Some r ->
    is_Some (theGroups c !! r) -> exists tr, theTracks c !! t = Some tr /\ groups tr !! gid = Some r;
  rr_listed : listed c -> listed c';
}.

Lemma run_rel_refl c : run_rel c c.
Proof. constructor; [intros t tr Ht; exists tr; by split_and!|eauto|done|done|congruence|congruence|eauto|done]. Qed.

Lemma run_rel_trans c1 c2 c3 : run_rel c1 c2 -> run_rel c2 c3 -> run_rel c1 c3.
Proof.
  intros H12 H23. constructor.
  - intros t tr Ht. destruct (rr_tracks _ _ H12 _ _ Ht) as (tr2 & Ht2 & Ha & Hb & Hc & Hd).
    destruct (rr_tracks _ _ H23 _ _ Ht2) as (tr3 & Ht3 & Ha' & Hb' & Hc' & Hd').
    exists tr3. split_and!; [done|congruence|congruence|auto|].
    intros gid r g He Hg Hgr Hp. destruct (rr_groups _ _ H12 _ _ Hgr) as (g2 & Hg2 & Hp2).
    apply (Hd' gid r g2); [done| |done|lia]. apply (Hd gid r g); try done.
    destruct (evicted tr2); [by rewrite Hc' in He|done].
  - intros r g Hg. destruct (rr_groups _ _ H12 _ _ Hg) as (g2 & Hg2 & H2).
    destruct (rr_groups _ _ H23 _ _ Hg2) as (g3 & Hg3 & H3). exists g3. split; [done|congruence].
  - intros ftn t Ht Hc. apply (rr_cache _ _ H12); [done|]. apply (rr_cache _ _ H23); [|done].
    destruct Ht as [tr Ht]. destruct (rr_tracks _ _ H12 _ _ Ht) as (? & ? & _). eauto.
  - intros x Hx. by apply (rr_tlru _ _ H12), (rr_tlru _ _ H23).
  - intros r g3 Hn Hg3. destruct (theGroups c2 !! r) as [g2|] eqn:E; [|by eapply (rr_newg _ _ H23)].
    destruct (rr_groups _ _ H23 _ _ E) as (g3' & Hg3' & Hp). rewrite Hg3 in Hg3'. injection Hg3' as <-.
    rewrite Hp. by eapply (rr_newg _ _ H12).
  - intros t tr3 Hn Ht3. destruct (theTracks c2 !! t) as [tr2|] eqn:E; [|by eapply (rr_newt _ _ H23)].
    destruct (rr_tracks _ _ H23 _ _ E) as (tr3' & Ht3' & Hp & _). rewrite Ht3 in Ht3'. injection Ht3' as <-.
    rewrite Hp. by eapply (rr_newt _ _ H12).
  - intros t tr3 gid r Ht3 Hr3 [g Hg]. destruct (rr_groups _ _ H12 _ _ Hg) as (g2 & Hg2 & _).
    destruct (rr_attach _ _ H23 _ _ _ _ Ht3 Hr3) as (tr2 & Ht2 & Hr2); [by eauto|].
    apply (rr_attach _ _ H12 _ _ _ _ Ht2 Hr2). eauto.
  - intros Hl. by apply (rr_listed _ _ H23), (rr_listed _ _ H12).
Qed.

Lemma evict_run_rel c c' : evict_rel c c' -> run_rel c c'.
Proof.
  intros H. constructor.
  - intros t tr Ht. destruct (er_tracks _ _ H _ _ Ht) as (tr' & Ht' & [? ? _ _ ? _ ?]).
    exists tr'. by split_and!.
  - intros r g Hg. destruct (er_groups _ _ H _ _ Hg) as (g' & Hg' & [_ _ ? _]). eauto.
  - intros ftn t _. apply (er_cache _ _ H).
  - apply (er_tlru _ _ H).
  - intros r g' Hn%(er_newg _ _ H). congruence.
  - intros t tr' Hn%(er_newt _ _ H). congruence.
  - intros t tr' gid r Ht' Hr' _. destruct (theTracks c !! t) as [tr|] eqn:Ht.
    + destruct (er_tracks _ _ H _ _ Ht) as (tr2 & Ht2 & [_ _ _ _ _ Hgr _]).
      assert (tr2 = tr') as -> by congruence. eauto.
    + apply (er_newt _ _ H) in Ht. congruence.
  - apply (er_listed _ _ H).
Qed.

(** A track keeps the name it is cached under until it is evicted. *)
Lemma name_stable c c' ftn t tr' :
  cache_ok c -> cache_ok c' -> run_rel c c' -> cache_ c !! ftn = Some t ->
  theTracks c' !! t = Some tr' -> evicted tr' = false -> cache_ c' !! ftn = Some t.
Proof.
  intros [Hok _] [_ Hev'] Hrel Hf Ht' He. destruct (proj1 (proj1 (Hev' t tr' Ht')) He) as [f Hf'].
  assert (Hf2 : cache_ c !! f = Some t).
  { apply (rr_cache _ _ Hrel); [|done]. by apply (ok_cached c Hok ftn). }
  by rewrite (ok_cache_inj c Hok _ _ _ Hf Hf2).
Qed.

(** The part of a track that writes leave alone. *)
Definition track_frame (tr tr' : CacheTrack) : Prop :=
  groups tr' = groups tr /\ groupLRU tr' = groupLRU tr /\ evicted tr' = evicted tr /\
  t_lruIter_ tr' = t_lruIter_ tr /\ liveWritebackCount tr' = liveWritebackCount tr /\
  fetchesInProgress tr' = fetchesInProgress tr.

Lemma gap_track_frame tr tr' : gap_frame tr tr' -> track_frame tr tr'.
Proof. intros (x & y & ->). by split_and!. Qed.

Lemma evicted_ok_track c t tr tr' :
  evicted_ok c -> theTracks c !! t = Some tr -> evicted tr' = evicted tr -> groupLRU tr' = groupLRU tr ->
  forall c', theTracks c' = <[t:=tr']> (theTracks c) -> cache_ c' = cache_ c -> evicted_ok c'.
Proof.
  intros Hev Ht He Hl c' Hts Hc t1 tr1. rewrite Hts, Hc, lookup_insert_Some.
  intros [[<- <-]|[_ H]]; [|by apply Hev]. rewrite He, Hl. by apply Hev.
Qed.

(** An update of one attached group and its track. *)
Lemma cache_ok_write c ftn t tr tr' gid r g g' :
  cache_ok c -> cache_ c !! ftn = Some t -> theTracks c !! t = Some tr ->
  groups tr !! gid = Some r -> theGroups c !! r = Some g ->
  track_frame tr tr' -> group_bytes_ok g' ->
  g_lruIter_ g' = g_lruIter_ g -> g_globalLruIter_ g' = g_globalLruIter_ g -> pinCount_ g' = pinCount_ g ->
  let c' := at_ (set_totalCachedBytes_ (totalCachedBytes_ c + (totalBytes g' - totalBytes g)) c) r t g' tr' in
  cache_ok c' /\ run_rel c c'.
Proof.
  intros [Hok Hev] Hf Ht Hr Hg (Hgr & Hlru & He & Htl & Hlw & Hfp) Hb Hl Hgl Hp c'.
  split; [split|].
  - replace c' with (at_ (set_globalGroupLRU_ (globalGroupLRU_ c) (set_totalCachedBytes_
      (totalCachedBytes_ c + (totalBytes g' - totalBytes g)) c)) r t g' tr') by (by destruct c).
    destruct (ok_flags c Hok r g Hg) as (Hfl & Hp0 & Hlp).
    apply (store_ok_update c r t g g' tr tr' _ _ gid Hok Ht Hg Hr).
    + rewrite (ok_total c Hok).
      transitivity (cache_total (at_ c r t g' tr')); [|done].
      by rewrite (cache_total_at c r t g g' tr tr' ftn gid true).
    + done.
    + done.
    + rewrite Hl, Hgl, Hp. done.
    + by rewrite Hgr.
    + by rewrite Hgr.
    + intros r1 gid1. rewrite Hlru, Hgr. intros Hin.
      destruct (ok_lru c Hok _ _ _ _ Ht Hin) as (H1 & g1 & H2 & H3). split_and!; try done.
      intros ->. rewrite Hl. congruence.
    + rewrite Hlru. by apply (ok_lru_nodup c Hok t).
    + intros r1 f gid1 Hin. split; [|done]. intros ->.
      destruct (ok_global c Hok _ _ _ Hin) as (t1 & tr1 & g1 & H1 & H2 & H3 & H4 & H5).
      rewrite Hg in H4. injection H4 as <-. rewrite Hl, Hgr.
      destruct (ok_group_inj c Hok _ _ _ _ _ _ _ H2 H3 Ht Hr) as [-> ->]. by split_and!.
    + apply (ok_global_nodup c Hok).
  - eapply evicted_ok_track; eauto.
  - constructor.
    + intros t1 tr1 Ht1. unfold c'. simpl. destruct (decide (t = t1)) as [<-|Hne].
      * exists tr'. rewrite lookup_insert_eq. assert (tr1 = tr) as -> by congruence.
        split_and!; try done; [congruence|]. intros. by rewrite Hgr.
      * exists tr1. rewrite lookup_insert_ne by done. by split_and!.
    + intros r1 g1 Hg1. unfold c'. simpl. destruct (decide (r = r1)) as [<-|Hne].
      * exists g'. rewrite lookup_insert_eq. split; [done|congruence].
      * exists g1. by rewrite lookup_insert_ne.
    + done.
    + done.
    + intros r1 g1 Hn. unfold c'. simpl. rewrite lookup_insert_Some. intros [[<- <-]|[_ H]]; congruence.
    + intros t1 tr1 Hn. unfold c'. simpl. rewrite lookup_insert_Some. intros [[<- <-]|[_ H]]; congruence.
    + intros t1 tr1 gid1 r1. unfold c'. simpl. rewrite lookup_insert_Some.
      intros [[<- <-]|[_ H]] Hr1 _; [|by eauto]. rewrite Hgr in Hr1. eauto.
    + intros Hli f t1 tr1 gid1 r1 g1. unfold c'. simpl. intros Hf1 Ht1 Hr1 Hg1 Hp1.
      assert (exists g0, theGroups c !! r1 = Some g0 /\ pinCount_ g0 = 0) as (g0 & Hg0 & Hp0).
      { apply lookup_insert_Some in Hg1 as [[<- <-]|[_ Hg1]]; [|by eauto]. exists g. split; [done|congruence]. }
      apply lookup_insert_Some in Ht1 as [[<- <-]|[_ Ht1]]; [|by apply (Hli f t1 tr1 gid1 r1 g0)].
      rewrite Hgr in Hr1. rewrite Hlru. by apply (Hli f t tr gid1 r1 g0).
Qed.

(** Tracks of the cache are the ones not marked evicted. *)
Lemma not_evicted_cached c t tr :
  cache_ok c -> theTracks c !! t = Some tr -> evicted tr = false -> exists ftn, cache_ c !! ftn = Some t.
Proof. intros [_ Hev] Ht He. by apply (Hev t tr Ht). Qed.

Lemma cacheObjectAndUpdateBytes_spec c t tr gid r g sg oid st ext p comp fwd now off :
  cache_ok c -> theTracks c !! t = Some tr -> evicted tr = false ->
  groups tr !! gid = Some r -> theGroups c !! r = Some g -> 0 <= off ->
  exists res c', cacheObjectAndUpdateBytes r t gid sg oid st ext p comp fwd now off c = Some (res, c') /\
    cache_ok c' /\ run_rel c c'.
Proof.
  intros Hok Ht He Hr Hg Hoff. destruct (not_evicted_cached c t tr Hok Ht He) as [ftn Hf].
  unfold cacheObjectAndUpdateBytes. rewrite (bind_some _ _ _ _ _ (getGroup_run c r g Hg)).
  destruct (cacheObject_run c r t g tr gid sg oid st ext p comp fwd now off Hr
    (ok_bytes c (proj1 Hok) r g Hg) Hoff) as (res & g' & tr' & H1 & Hgf & (Hb & Hle & Hl & Hgl & Hp) & Herr).
  rewrite <- (at_self c r t g tr Hg Ht) in H1. rewrite (bind_some _ _ _ _ _ H1).
  destruct res as [u|e].
  - erewrite bind_some by apply getGroup_at. replace (totalBytes g <=? totalBytes g') with true by lia.
    erewrite bind_some by done.
    set (tot := totalCachedBytes_ c + (totalBytes g' - totalBytes g)).
    change (set_totalCachedBytes_ _ (at_ c r t g' tr')) with (at_ (set_totalCachedBytes_ tot c) r t g' tr').
    erewrite bind_some by apply modTrack_at.
    destruct (cache_ok_write c ftn t tr (set_lastWrite now tr') gid r g g' Hok Hf Ht Hr Hg) as [H2 H3];
      try done.
    { apply gap_track_frame in Hgf. exact Hgf. }
    fold tot in H2, H3.
    destruct (evictForByteLimitIfNeeded_run _ H2) as (b & c' & H4 & H5 & H6).
    erewrite bind_some by exact H4. exists (Ok tt), c'. split_and!; [done|done|].
    eapply run_rel_trans; [exact H3|by apply evict_run_rel].
  - exists (Err e), (at_ c r t g' tr'). split; [done|].
    destruct (cache_ok_write c ftn t tr tr' gid r g g' Hok Hf Ht Hr Hg) as [H2 H3]; try done.
    { by apply gap_track_frame. }
    rewrite (Herr e eq_refl), Z.sub_diag, Z.add_0_r in H2, H3.
    replace (set_totalCachedBytes_ (totalCachedBytes_ c) c) with c in H2, H3 by (by destruct c). done.
Qed.
End write_spec.
