(* ===== verification/CachePins.v ===== *)
(** Pins and allocation: pinning and unpinning groups, creating groups and
    tracks, and the lookup that drops expired entries, each with the invariant
    of the store. *)

From Stdlib Require Import Init.Byte.
From S2P Require Import Prelude Location CacheRanges CacheState CacheObject CacheEvict CacheInv CacheSafety CacheWrite.

Section pins.
Context `{LA : LocationApi} `{IA : IntervalSetApi} `{EA : ExtensionsApi}.
Implicit Types c : MoqxCache.

(** A change of a group that keeps its bytes and its place in the LRU lists. *)
Lemma store_ok_group c r g g' :
  store_ok c -> theGroups c !! r = Some g -> totalBytes g' = totalBytes g -> group_bytes_ok g' ->
  g_lruIter_ g' = g_lruIter_ g -> g_globalLruIter_ g' = g_globalLruIter_ g ->
  0 <= pinCount_ g' -> (g_lruIter_ g' = true -> pinCount_ g' = 0) ->
  store_ok (set_theGroups (<[r:=g']> (theGroups c)) c).
Proof.
  intros Hok Hg Htb Hb Hl Hgl Hp Hlp.
  assert (Hlk : forall r1 g1, theGroups c !! r1 = Some g1 -> exists g1',
    <[r:=g']> (theGroups c) !! r1 = Some g1' /\ g_lruIter_ g1' = g_lruIter_ g1).
  { intros r1 g1 H1. destruct (decide (r = r1)) as [<-|Hne].
    - exists g'. rewrite lookup_insert_eq. split; [done|congruence].
    - exists g1. by rewrite lookup_insert_ne. }
  constructor; simpl; try apply Hok.
  - rewrite (ok_total c Hok). apply map_sumZ_ext. intros f t _. symmetry. apply track_total_ext; [done|].
    intros tr gid r1 _ _. unfold group_total. simpl. destruct (decide (r = r1)) as [<-|Hne].
    + by rewrite lookup_insert_eq, Hg.
    + by rewrite lookup_insert_ne.
  - intros t tr gid r1 Ht Hr. destruct (ok_group c Hok _ _ _ _ Ht Hr) as [g1 H1].
    destruct (Hlk _ _ H1) as (? & ? & _). eauto.
  - intros r1 g1. rewrite lookup_insert_Some. intros [[<- <-]|[_ H]]; by eapply (ok_gfresh c Hok).
  - intros r1 g1. rewrite lookup_insert_Some. intros [[<- <-]|[_ H]]; [done|by eapply (ok_bytes c Hok)].
  - intros t tr r1 gid Ht Hin. destruct (ok_lru c Hok _ _ _ _ Ht Hin) as (H1 & g1 & H2 & H3).
    split; [done|]. destruct (Hlk _ _ H2) as (g1' & ? & ?). exists g1'. split; [done|congruence].
  - intros r1 g1. rewrite lookup_insert_Some. intros [[<- <-]|[_ H]]; [|by eapply (ok_flags c Hok)].
    split_and!; try done. destruct (ok_flags c Hok r g Hg) as (? & _). congruence.
  - intros r1 f gid Hin. destruct (ok_global c Hok _ _ _ Hin) as (t & tr & g1 & H1 & H2 & H3 & H4 & H5).
    destruct (Hlk _ _ H4) as (g1' & ? & ?). exists t, tr, g1'. split_and!; try done. congruence.
Qed.

(** ** [pinGroup] on an attached group *)
Definition pinned (g : CacheGroup) : CacheGroup := unlisted (set_pinCount_ (pinCount_ g + 1) g).

Lemma pinGroup_run c t tr gid r g :
  store_ok c -> theTracks c !! t = Some tr -> groups tr !! gid = Some r -> theGroups c !! r = Some g ->
  pinGroup r t c = Some (tt,
    at_ (set_globalGroupLRU_ (lru_erase r (globalGroupLRU_ c)) c) r t (pinned g)
      (set_groupLRU (lru_erase r (groupLRU tr)) tr)).
Proof.
  intros Hok Ht Hr Hg. destruct (ok_flags c Hok r g Hg) as (Hfl & Hp & Hlp).
  rewrite (at_self c r t g tr Hg Ht) at 1.
  unfold pinGroup. erewrite bind_some by apply getGroup_at. erewrite bind_some by apply putGroup_at.
  assert (Hun : g_lruIter_ g = false -> (mret tt : M MoqxCache unit) (at_ c r t (set_pinCount_ (pinCount_ g + 1) g) tr) =
    Some (tt, at_ (set_globalGroupLRU_ (lru_erase r (globalGroupLRU_ c)) c) r t (pinned g)
      (set_groupLRU (lru_erase r (groupLRU tr)) tr))).
  { intros El. destruct (lru_erase_unflagged c t tr r g Hok Ht Hg El) as [-> ->].
    rewrite El in Hfl. unfold pinned, unlisted, mret, M_ret. f_equal. f_equal.
    replace (set_groupLRU (groupLRU tr) tr) with tr by (by destruct tr).
    replace (set_globalGroupLRU_ (globalGroupLRU_ c) c) with c by (by destruct c).
    f_equal. destruct g; simpl in *. by subst. }
  destruct (pinCount_ g =? 0) eqn:E0.
  - unfold removeGroupFromLRU. erewrite bind_some by apply getGroup_at. simpl.
    destruct (g_lruIter_ g) eqn:El; simpl; [|by apply Hun].
    erewrite bind_some by apply modTrack_at. erewrite bind_some by apply modGroup_at. simpl. rewrite Hfl.
    erewrite bind_some by done.
    change (set_globalGroupLRU_ _ (at_ c r t ?x ?y)) with
      (at_ (set_globalGroupLRU_ (lru_erase r (globalGroupLRU_ c)) c) r t x y).
    by rewrite modGroup_at.
  - apply Hun. destruct (g_lruIter_ g); [|done]. rewrite Hlp in E0; done.
Qed.

(** Pinning takes the group out of both LRU lists. *)
Lemma pinGroup_spec c t tr gid r g :
  cache_ok c -> theTracks c !! t = Some tr -> groups tr !! gid = Some r -> theGroups c !! r = Some g ->
  exists c' tr', pinGroup r t c = Some (tt, c') /\ cache_ok c' /\ cache_ c' = cache_ c /\
    theGroups c' = <[r:=pinned g]> (theGroups c) /\ theTracks c' = <[t:=tr']> (theTracks c) /\
    tr' = set_groupLRU (lru_erase r (groupLRU tr)) tr /\ trackLRU_ c' = trackLRU_ c.
Proof.
  intros [Hok Hev] Ht Hr Hg. eexists _, _. split; [by eapply pinGroup_run|].
  set (tr' := set_groupLRU _ tr). split_and!; try done. split.
  - destruct (ok_flags c Hok r g Hg) as (Hfl & Hp & Hlp).
    assert (Hup := store_ok_update c r t g (pinned g) tr tr' (lru_erase r (globalGroupLRU_ c))
      (totalCachedBytes_ c) gid Hok Ht Hg Hr). simpl in Hup.
    replace (set_totalCachedBytes_ (totalCachedBytes_ c) c) with c in Hup by (by destruct c).
    apply Hup; clear Hup; try done.
    + rewrite (ok_total c Hok). destruct (evicted tr) eqn:He.
      * apply map_sumZ_ext. intros f t1 Hf. unfold track_total. simpl.
        assert (Hgt : forall r1, group_total (at_ (set_globalGroupLRU_ (lru_erase r (globalGroupLRU_ c)) c) r t
          (pinned g) tr') r1 = group_total c r1).
        { intros r1. unfold group_total. simpl. destruct (decide (r = r1)) as [<-|Hne].
          - by rewrite lookup_insert_eq, Hg.
          - by rewrite lookup_insert_ne. }
        destruct (decide (t = t1)) as [<-|Hne]; [rewrite lookup_insert_eq, Ht|rewrite lookup_insert_ne by done].
        -- by apply map_sumZ_ext.
        -- destruct (theTracks c !! t1); [|done]. by apply map_sumZ_ext.
      * apply (Hev t tr Ht) in He as [ftn Hf].
        transitivity (cache_total (at_ c r t (pinned g) tr')); [|done].
        rewrite (cache_total_at c r t g (pinned g) tr tr' ftn gid true); try done. simpl. lia.
    + exact (ok_bytes c Hok r g Hg).
    + simpl. split_and!; try done; lia.
    + intros r1 gid1. unfold tr'. simpl. rewrite elem_lru_erase. simpl. intros [Hin Hne].
      destruct (ok_lru c Hok _ _ _ _ Ht Hin) as [H1 _]. by split_and!.
    + unfold tr'. simpl. by apply lru_erase_nodup, (ok_lru_nodup c Hok t).
    + intros r1 f gid1. rewrite elem_lru_erase. simpl. intros [Hin Hne]. by split.
    + apply lru_erase_nodup, (ok_global_nodup c Hok).
  - intros t1 tr1. simpl. rewrite lookup_insert_Some. intros [[<- <-]|[_ H]]; [|by apply Hev].
    destruct (Hev t tr Ht) as [He1 He2]. unfold tr'. simpl. split; [done|]. intros He. by rewrite (He2 He).
Qed.

Lemma pinGroup_listed c c' t tr gid r g :
  store_ok c -> theTracks c !! t = Some tr -> groups tr !! gid = Some r -> theGroups c !! r = Some g ->
  pinGroup r t c = Some (tt, c') -> listed c -> listed c'.
Proof.
  intros Hok Ht Hr Hg Hrun Hl. rewrite (pinGroup_run c t tr gid r g) in Hrun by done. injection Hrun as <-.
  intros f t1 tr1 gid1 r1 g1. simpl. intros Hf1 Ht1 Hr1 Hg1 Hp1. rewrite elem_lru_erase. simpl.
  apply lookup_insert_Some in Hg1 as [[<- <-]|[Hne Hg1]].
  { destruct (ok_flags c Hok r g Hg) as (_ & ? & _). simpl in Hp1. lia. }
  apply lookup_insert_Some in Ht1 as [[<- <-]|[_ Ht1]].
  - destruct (Hl f t tr gid1 r1 g1) as [Ha Hb]; try done. simpl. rewrite elem_lru_erase. simpl. auto.
  - destruct (Hl f t1 tr1 gid1 r1 g1) as [Ha Hb]; try done; auto.
Qed.

(** ** [addGroupToLRU] and [unpinGroup] *)

(** As [listed], but the group [r] may be missing. *)
Definition listed_but (r : gref) c : Prop :=
  forall ftn t tr gid r1 g, cache_ c !! ftn = Some t -> theTracks c !! t = Some tr ->
    groups tr !! gid = Some r1 -> theGroups c !! r1 = Some g -> pinCount_ g = 0 -> r1 <> r ->
    (r1, (ftn, gid)) ∈ globalGroupLRU_ c /\ (r1, gid) ∈ groupLRU tr.

(** Listing the one group that may be missing. *)
Lemma addGroupToLRU_listed c c' ftn gid t tr r g :
  cache_ok c -> theTracks c !! t = Some tr -> theGroups c !! r = Some g -> g_lruIter_ g = false ->
  (evicted tr = false -> cache_ c !! ftn = Some t /\ groups tr !! gid = Some r) ->
  (forall t1 tr1 gid1, theTracks c !! t1 = Some tr1 -> groups tr1 !! gid1 = Some r -> t1 = t) ->
  listed_but r c -> addGroupToLRU ftn gid r t c = Some (tt, c') -> listed c'.
Proof.
  intros [Hok Hev] Ht Hg El Hn Hown Hl. unfold addGroupToLRU.
  rewrite (bind_some _ _ _ _ _ (getGroup_run c r g Hg)), El, (bind_some _ _ _ _ _ (getTrack_run c t tr Ht)).
  destruct (evicted tr) eqn:He; simpl.
  { intros [= <-] f t1 tr1 gid1 r1 g1 Hf1 Ht1 Hr1 Hg1 Hp1. apply (Hl f t1 tr1 gid1 r1 g1); try done.
    intros ->. assert (t1 = t) as -> by (by eapply Hown). destruct (Hev t tr Ht) as [[_ Hc] _].
    rewrite He in Hc. discriminate Hc. eauto. }
  destruct (Hn eq_refl) as [Hf Hr]. rewrite bool_decide_true by done. simpl.
  rewrite (at_self c r t g tr Hg Ht) at 1. erewrite bind_some by apply modTrack_at.
  erewrite bind_some by apply modGroup_at. erewrite bind_some by done.
  change (set_globalGroupLRU_ _ (at_ c r t ?x ?y)) with
    (at_ (set_globalGroupLRU_ ((r, (ftn, gid)) :: globalGroupLRU_ c) c) r t x y).
  rewrite modGroup_at. intros [= <-] f t1 tr1 gid1 r1 g1. simpl. intros Hf1 Ht1 Hr1 Hg1 Hp1.
  assert (exists tr0, theTracks c !! t1 = Some tr0 /\ groups tr0 !! gid1 = Some r1 /\
    (r1 <> r -> (r1, gid1) ∈ groupLRU tr0 -> (r1, gid1) ∈ groupLRU tr1)) as (tr0 & Ht0 & Hr0 & Hkeep).
  { apply lookup_insert_Some in Ht1 as [[<- <-]|[_ Ht1]]; [|by eauto]. exists tr. split_and!; try done.
    intros _ Hin. simpl. apply elem_of_cons. auto. }
  destruct (decide (r1 = r)) as [->|Hne].
  - destruct (ok_group_inj c Hok _ _ _ _ _ _ _ Ht0 Hr0 Ht Hr) as [-> ->].
    rewrite (ok_cache_inj c Hok _ _ _ Hf1 Hf). rewrite lookup_insert_eq in Ht1. injection Ht1 as <-.
    split; apply list_elem_of_here.
  - rewrite lookup_insert_ne in Hg1 by done.
    destruct (Hl f t1 tr0 gid1 r1 g1) as [Ha Hb]; try done. split; [by apply elem_of_cons; right|auto].
Qed.

Lemma listed_listed_but r c : listed c -> listed_but r c.
Proof. intros Hl ftn t tr gid r1 g Hf Ht Hr Hg Hp _. by apply (Hl ftn t tr gid r1 g). Qed.

Lemma unflagged_not_listed c t tr r g :
  store_ok c -> theTracks c !! t = Some tr -> theGroups c !! r = Some g -> g_lruIter_ g = false ->
  r ∉ (groupLRU tr).*1 /\ r ∉ (globalGroupLRU_ c).*1.
Proof.
  intros Hok Ht Hg Hf. split; rewrite list_elem_of_fmap.
  - intros ([r1 gid] & -> & Hin). destruct (ok_lru c Hok _ _ _ _ Ht Hin) as (_ & g1 & ? & ?).
    simpl in *. congruence.
  - intros ([r1 [f gid]] & -> & Hin).
    destruct (ok_global c Hok _ _ _ Hin) as (? & ? & ? & ? & ? & ? & ? & ?). simpl in *. congruence.
Qed.

Lemma addGroupToLRU_spec c ftn gid t tr r g :
  cache_ok c -> theTracks c !! t = Some tr -> theGroups c !! r = Some g -> pinCount_ g = 0 ->
  (evicted tr = false -> cache_ c !! ftn = Some t) ->
  exists c' tr' g', addGroupToLRU ftn gid r t c = Some (tt, c') /\ cache_ok c' /\ cache_ c' = cache_ c /\
    theGroups c' = <[r:=g']> (theGroups c) /\ pinCount_ g' = pinCount_ g /\ objects g' = objects g /\
    theTracks c' = <[t:=tr']> (theTracks c) /\ tr' = set_groupLRU (groupLRU tr') tr /\
    (groupLRU tr' = groupLRU tr \/ groupLRU tr' = (r, gid) :: groupLRU tr) /\ trackLRU_ c' = trackLRU_ c.
Proof.
  intros [Hok Hev] Ht Hg Hp Hn.
  assert (Hid : (mret tt : M MoqxCache unit) c = Some (tt, c) -> exists c' tr' g',
    (mret tt : M MoqxCache unit) c = Some (tt, c') /\ cache_ok c' /\ cache_ c' = cache_ c /\
    theGroups c' = <[r:=g']> (theGroups c) /\ pinCount_ g' = pinCount_ g /\ objects g' = objects g /\
    theTracks c' = <[t:=tr']> (theTracks c) /\ tr' = set_groupLRU (groupLRU tr') tr /\
    (groupLRU tr' = groupLRU tr \/ groupLRU tr' = (r, gid) :: groupLRU tr) /\ trackLRU_ c' = trackLRU_ c).
  { intros _. exists c, tr, g. split_and!; try done; [by rewrite insert_id|by rewrite insert_id|by destruct tr|by left]. }
  unfold addGroupToLRU. rewrite (bind_some _ _ _ _ _ (getGroup_run c r g Hg)).
  destruct (g_lruIter_ g) eqn:El; [by apply Hid|].
  rewrite (bind_some _ _ _ _ _ (getTrack_run c t tr Ht)).
  destruct (evicted tr || negb (bool_decide (groups tr !! gid = Some r))) eqn:Ee; [by apply Hid|]. clear Hid.
  apply orb_false_iff in Ee as [He Hr%negb_false_iff%bool_decide_eq_true]. specialize (Hn He).
  destruct (unflagged_not_listed c t tr r g Hok Ht Hg El) as [Hni Hgni].
  set (tr' := set_groupLRU ((r, gid) :: groupLRU tr) tr).
  set (g' := set_g_globalLruIter_ true (set_g_lruIter_ true g)).
  set (gl := (r, (ftn, gid)) :: globalGroupLRU_ c).
  assert (Hrun : (modTrack t (fun tr => set_groupLRU ((r, gid) :: groupLRU tr) tr);;
      modGroup r (set_g_lruIter_ true);;
      modify (fun c => set_globalGroupLRU_ ((r, (ftn, gid)) :: globalGroupLRU_ c) c);;
      modGroup r (set_g_globalLruIter_ true)) c = Some (tt, at_ (set_globalGroupLRU_ gl c) r t g' tr')).
  { rewrite (at_self c r t g tr Hg Ht) at 1. erewrite bind_some by apply modTrack_at.
    erewrite bind_some by apply modGroup_at. erewrite bind_some by done.
    change (set_globalGroupLRU_ _ (at_ c r t ?x ?y)) with (at_ (set_globalGroupLRU_ gl c) r t x y).
    by rewrite modGroup_at. }
  rewrite Hrun. eexists _, tr', g'. split_and!; try done; [|by right]. split.
  - assert (Hup := store_ok_update c r t g g' tr tr' gl (totalCachedBytes_ c) gid Hok Ht Hg Hr).
    simpl in Hup. replace (set_totalCachedBytes_ (totalCachedBytes_ c) c) with c in Hup by (by destruct c).
    apply Hup; clear Hup; try done.
    + rewrite (ok_total c Hok). transitivity (cache_total (at_ c r t g' tr')); [|done].
      rewrite (cache_total_at c r t g g' tr tr' ftn gid true); try done. simpl. lia.
    + exact (ok_bytes c Hok r g Hg).
    + simpl. split_and!; try done; lia.
    + intros r1 gid1. unfold tr'. simpl. rewrite elem_of_cons. intros [[= -> ->]|Hin].
      { split_and!; try done. }
      destruct (ok_lru c Hok _ _ _ _ Ht Hin) as [H1 _]. by split_and!.
    + unfold tr'. simpl. apply NoDup_cons. split; [done|]. by apply (ok_lru_nodup c Hok t).
    + intros r1 f gid1. unfold gl. rewrite elem_of_cons. intros [[= -> -> ->]|Hin].
      { split; [|done]. intros _. by split_and!. }
      split; [|done]. intros ->. destruct Hgni. apply list_elem_of_fmap. by exists (r, (f, gid1)).
    + unfold gl. simpl. apply NoDup_cons. split; [done|]. apply (ok_global_nodup c Hok).
  - intros t1 tr1. simpl. rewrite lookup_insert_Some. intros [[<- <-]|[_ H]]; [|by apply Hev].
    unfold tr'. simpl. split; [by apply (Hev t tr Ht)|]. congruence.
Qed.

Lemma unpinGroup_spec c ftn gid t tr r g :
  cache_ok c -> theTracks c !! t = Some tr -> theGroups c !! r = Some g -> 0 < pinCount_ g ->
  (evicted tr = false -> cache_ c !! ftn = Some t) ->
  exists c' tr' g', unpinGroup ftn gid r t c = Some (tt, c') /\ cache_ok c' /\ cache_ c' = cache_ c /\
    theGroups c' = <[r:=g']> (theGroups c) /\ pinCount_ g' = pinCount_ g - 1 /\ objects g' = objects g /\
    theTracks c' = <[t:=tr']> (theTracks c) /\ tr' = set_groupLRU (groupLRU tr') tr /\
    trackLRU_ c' = trackLRU_ c.
Proof.
  intros [Hok Hev] Ht Hg Hp Hn. destruct (ok_flags c Hok r g Hg) as (Hfl & _ & Hlp).
  assert (El : g_lruIter_ g = false) by (destruct (g_lruIter_ g); [lia|done]).
  unfold unpinGroup. rewrite (bind_some _ _ _ _ _ (getGroup_run c r g Hg)).
  replace (0 <? pinCount_ g) with true by lia. erewrite bind_some by done. erewrite bind_some by done.
  set (g1 := set_pinCount_ (pinCount_ g - 1) g). set (c1 := set_theGroups (<[r:=g1]> (theGroups c)) c).
  assert (Hok1 : cache_ok c1).
  { split; [|exact Hev]. apply (store_ok_group c r g g1 Hok Hg); try done;
      [exact (ok_bytes c Hok r g Hg)|simpl; lia|simpl; congruence]. }
  assert (Hg1 : theGroups c1 !! r = Some g1) by (unfold c1; simpl; by rewrite lookup_insert_eq).
  case_test.
  - destruct (addGroupToLRU_spec c1 ftn gid t tr r g1) as (c' & tr' & g' & H1 & H2 & H3 & H4 & H5 & H6 & H7 & H8 & _ & H9);
      try done; [simpl; lia|].
    exists c', tr', g'. split_and!; try done. rewrite H4. unfold c1. simpl. by rewrite insert_insert_eq.
  - exists c1, tr, g1. split_and!; try done; [unfold c1; simpl; by rewrite insert_id|by destruct tr].
Qed.

(** The last unpinning puts the group back on the LRU lists. *)
Lemma unpinGroup_listed c c' ftn gid t tr r g :
  cache_ok c -> theTracks c !! t = Some tr -> theGroups c !! r = Some g -> 0 < pinCount_ g ->
  (evicted tr = false -> cache_ c !! ftn = Some t /\ groups tr !! gid = Some r) ->
  (forall t1 tr1 gid1, theTracks c !! t1 = Some tr1 -> groups tr1 !! gid1 = Some r -> t1 = t) ->
  listed c -> unpinGroup ftn gid r t c = Some (tt, c') -> listed c'.
Proof.
  intros [Hok Hev] Ht Hg Hp Hn Hown Hl. destruct (ok_flags c Hok r g Hg) as (Hfl & _ & Hlp).
  assert (El : g_lruIter_ g = false) by (destruct (g_lruIter_ g); [lia|done]).
  unfold unpinGroup. rewrite (bind_some _ _ _ _ _ (getGroup_run c r g Hg)).
  replace (0 <? pinCount_ g) with true by lia. erewrite bind_some by done. erewrite bind_some by done.
  set (g1 := set_pinCount_ (pinCount_ g - 1) g). set (c1 := set_theGroups (<[r:=g1]> (theGroups c)) c).
  assert (Hok1 : cache_ok c1).
  { split; [|exact Hev]. apply (store_ok_group c r g g1 Hok Hg); try done;
      [exact (ok_bytes c Hok r g Hg)|simpl; lia|simpl; congruence]. }
  assert (Hg1 : theGroups c1 !! r = Some g1) by (unfold c1; simpl; by rewrite lookup_insert_eq).
  assert (Hl1 : listed_but r c1).
  { intros f t1 tr1 gid1 r1 g2 Hf1 Ht1 Hr1 Hg2 Hp1 Hne. unfold c1 in Hg2. simpl in Hg2.
    rewrite lookup_insert_ne in Hg2 by done. by apply (Hl f t1 tr1 gid1 r1 g2). }
  case_test.
  - by apply (addGroupToLRU_listed c1 c' ftn gid t tr r g1).
  - intros [= <-] f t1 tr1 gid1 r1 g2 Hf1 Ht1 Hr1 Hg2 Hp1. apply (Hl1 f t1 tr1 gid1 r1 g2); try done.
    intros ->. rewrite Hg1 in Hg2. injection Hg2 as <-. simpl in Hp1. lia.
Qed.
End pins.
