(* ===== verification/CacheAlloc.v ===== *)
(** Creating groups and tracks, dropping expired entries, and the contracts of
    the cache that combine several of its parts. *)

From Stdlib Require Import Init.Byte.
From S2P Require Import Prelude Location CacheRanges CacheState CacheObject CacheEvict CacheInv CacheSafety CacheWrite CachePins.

Section alloc.
Context `{LA : LocationApi} `{IA : IntervalSetApi} `{EA : ExtensionsApi}.
Implicit Types c : MoqxCache.

(** ** A new group *)
Definition attached c (t : tref) (tr : CacheTrack) (gid : Z) : MoqxCache :=
  let r := nextGref c in
  set_theTracks (<[t:=set_groups (<[gid:=r]> (groups tr)) tr]> (theTracks c))
    (set_nextGref (r + 1) (set_theGroups (<[r:=newGroup]> (theGroups c)) c)).

Lemma group_fresh c : store_ok c -> theGroups c !! nextGref c = None.
Proof.
  intros Hok. destruct (theGroups c !! nextGref c) eqn:E; [|done]. apply (ok_gfresh c Hok) in E. lia.
Qed.

Lemma attached_fresh c t tr gid r :
  store_ok c -> theTracks c !! t = Some tr -> groups tr !! gid = Some r -> r <> nextGref c.
Proof.
  intros Hok Ht Hr ->. destruct (ok_group c Hok _ _ _ _ Ht Hr) as [g Hg].
  by rewrite group_fresh in Hg.
Qed.

Lemma newGroup_bytes_ok : group_bytes_ok newGroup.
Proof. split; [apply map_Forall_empty|]. simpl. by rewrite map_sumZ_empty. Qed.

Lemma attached_total c t tr gid :
  store_ok c -> theTracks c !! t = Some tr -> groups tr !! gid = None ->
  cache_total (attached c t tr gid) = cache_total c.
Proof.
  intros Hok Ht Hr. apply map_sumZ_ext. intros f t1 _. unfold track_total, attached. simpl.
  assert (Hgt : forall t2 tr2 gid2 r2, theTracks c !! t2 = Some tr2 -> groups tr2 !! gid2 = Some r2 ->
    group_total (attached c t tr gid) r2 = group_total c r2).
  { intros t2 tr2 gid2 r2 H1 H2. unfold group_total, attached. simpl.
    rewrite lookup_insert_ne; [done|]. intros E. by eapply attached_fresh. }
  destruct (decide (t = t1)) as [<-|Hne].
  - rewrite lookup_insert_eq, Ht. simpl. rewrite map_sumZ_insert_new by done.
    unfold group_total at 1. simpl. rewrite lookup_insert_eq. simpl.
    apply map_sumZ_ext. intros k r Hk. by apply (Hgt t tr k).
  - rewrite lookup_insert_ne by done. destruct (theTracks c !! t1) as [tr1|] eqn:E1; [|done].
    apply map_sumZ_ext. intros k r Hk. by apply (Hgt t1 tr1 k).
Qed.

Lemma store_ok_attach c t tr gid :
  store_ok c -> theTracks c !! t = Some tr -> groups tr !! gid = None -> store_ok (attached c t tr gid).
Proof.
  intros Hok Ht Hr. set (c' := attached c t tr gid). set (r := nextGref c).
  pose proof (group_fresh c Hok) as Hfr.
  assert (Hgm : forall r1 g1, theGroups c !! r1 = Some g1 -> theGroups c' !! r1 = Some g1).
  { intros r1 g1 H. unfold c', attached. simpl. rewrite lookup_insert_ne; [done|]. congruence. }
  assert (Hgi : forall r1 g1, theGroups c' !! r1 = Some g1 ->
    (r1 = r /\ g1 = newGroup) \/ theGroups c !! r1 = Some g1).
  { intros r1 g1. unfold c', attached. simpl. rewrite lookup_insert_Some. intros [[<- <-]|[_ H]]; auto. }
  assert (Htr : forall t1 tr1, theTracks c' !! t1 = Some tr1 -> exists tr0, theTracks c !! t1 = Some tr0 /\
    groupLRU tr1 = groupLRU tr0 /\ t_lruIter_ tr1 = t_lruIter_ tr0 /\
    (forall gid1 r1, groups tr1 !! gid1 = Some r1 ->
       groups tr0 !! gid1 = Some r1 \/ (t1 = t /\ gid1 = gid /\ r1 = r)) /\
    (forall gid1 r1, groups tr0 !! gid1 = Some r1 -> groups tr1 !! gid1 = Some r1)).
  { intros t1 tr1. unfold c', attached. simpl. rewrite lookup_insert_Some. intros [[<- <-]|[Hne H]].
    - exists tr. split_and!; try done.
      + intros gid1 r1. simpl. rewrite lookup_insert_Some. intros [[<- <-]|[_ H]]; auto.
      + intros gid1 r1 H. simpl. rewrite lookup_insert_ne; [done|]. congruence.
    - exists tr1. split_and!; auto. }
  assert (Htm : forall t1 tr0, theTracks c !! t1 = Some tr0 -> is_Some (theTracks c' !! t1)).
  { intros t1 tr0 H. unfold c', attached. simpl. by rewrite lookup_insert_is_Some', H; auto. }
  constructor.
  - unfold c'. rewrite attached_total by done. exact (ok_total c Hok).
  - intros f t1 Hf. destruct (ok_cached c Hok f t1 Hf) as [tr0 H]. by destruct (Htm t1 tr0 H) as [? ?]; eauto.
  - exact (ok_cache_inj c Hok).
  - intros t1 tr1 gid1 r1 H1 H2. destruct (Htr _ _ H1) as (tr0 & H3 & _ & _ & H4 & _).
    destruct (H4 _ _ H2) as [H5|(_ & _ & ->)].
    + destruct (ok_group c Hok _ _ _ _ H3 H5) as [g ?]. eauto.
    + exists newGroup. unfold c', attached. simpl. by rewrite lookup_insert_eq.
  - intros t1 tr1 g1 t2 tr2 g2 r1 H1 H2 H3 H4.
    destruct (Htr _ _ H1) as (tr1' & H5 & _ & _ & H6 & _). destruct (Htr _ _ H3) as (tr2' & H7 & _ & _ & H8 & _).
    destruct (H6 _ _ H2) as [Ha|(-> & -> & ->)], (H8 _ _ H4) as [Hb|(E1 & E2 & E3)].
    + exact (ok_group_inj c Hok _ _ _ _ _ _ _ H5 Ha H7 Hb).
    + subst. by destruct (attached_fresh c t1 tr1' g1 r Hok H5 Ha).
    + by destruct (attached_fresh c t2 tr2' g2 r Hok H7 Hb).
    + by subst.
  - intros r1 g1 [[-> ->]|H]%Hgi; [|apply (ok_gfresh c Hok) in H]; unfold c', attached, r in *; simpl; lia.
  - intros t1 tr1 H1. destruct (Htr _ _ H1) as (tr0 & H2 & _). exact (ok_tfresh c Hok _ _ H2).
  - intros r1 g1 [[-> ->]|H]%Hgi; [apply newGroup_bytes_ok|exact (ok_bytes c Hok _ _ H)].
  - intros t1 tr1 r1 gid1 H1 Hin. destruct (Htr _ _ H1) as (tr0 & H2 & Hl & _ & _ & H3). rewrite Hl in Hin.
    destruct (ok_lru c Hok _ _ _ _ H2 Hin) as (H4 & g & H5 & H6). split; [auto|]. eauto.
  - intros t1 tr1 H1. destruct (Htr _ _ H1) as (tr0 & H2 & -> & _). exact (ok_lru_nodup c Hok _ _ H2).
  - intros r1 g1 [[-> ->]|H]%Hgi; [done|exact (ok_flags c Hok _ _ H)].
  - intros r1 f gid1 Hin. destruct (ok_global c Hok _ _ _ Hin) as (t1 & tr0 & g & H1 & H2 & H3 & H4 & H5).
    destruct (Htm _ _ H2) as [tr1 H6]. destruct (Htr _ _ H6) as (tr0' & H7 & _ & _ & _ & H8).
    assert (tr0' = tr0) as -> by congruence. exists t1, tr1, g. split_and!; auto.
  - exact (ok_global_nodup c Hok).
  - intros t1 f Hin. destruct (ok_tlru c Hok t1 f Hin) as (H1 & tr0 & H2 & H3). split; [done|].
    destruct (Htm _ _ H2) as [tr1 H6]. destruct (Htr _ _ H6) as (tr0' & H7 & _ & Hl & _).
    exists tr1. split; [done|]. congruence.
Qed.

Lemma cache_ok_attach c t tr gid :
  cache_ok c -> theTracks c !! t = Some tr -> groups tr !! gid = None -> cache_ok (attached c t tr gid).
Proof.
  intros [Hok Hev] Ht Hr. split; [by apply store_ok_attach|].
  by eapply (evicted_ok_track c t tr (set_groups (<[gid:=nextGref c]> (groups tr)) tr)).
Qed.

(** The new group is attached and then listed; the lists may not miss another. *)
Lemma attached_listed_but c t tr gid :
  store_ok c -> theTracks c !! t = Some tr -> groups tr !! gid = None ->
  listed c -> listed_but (nextGref c) (attached c t tr gid).
Proof.
  intros Hok Ht Hr Hl f t1 tr1 gid1 r1 g1. unfold attached. simpl. intros Hf1 Ht1 Hr1 Hg1 Hp1 Hne.
  rewrite lookup_insert_ne in Hg1 by done.
  apply lookup_insert_Some in Ht1 as [[<- <-]|[_ Ht1]]; [|by apply (Hl f t1 tr1 gid1 r1 g1)].
  simpl in *. apply lookup_insert_Some in Hr1 as [[_ <-]|[_ Hr1]]; [done|]. by apply (Hl f t tr gid1 r1 g1).
Qed.

Lemma attached_rel c c' t tr tr' gid g' :
  store_ok c -> theTracks c !! t = Some tr -> groups tr !! gid = None ->
  let c1 := attached c t tr gid in
  theGroups c' = <[nextGref c:=g']> (theGroups c1) -> theTracks c' = <[t:=tr']> (theTracks c1) ->
  tr' = set_groupLRU (groupLRU tr') (set_groups (<[gid:=nextGref c]> (groups tr)) tr) ->
  pinCount_ g' = 0 -> cache_ c' = cache_ c -> trackLRU_ c' = trackLRU_ c -> (listed c -> listed c') ->
  run_rel c c'.
Proof.
  intros Hok Ht Hr c1 Hgs Hts Htr Hp Hc Htl Hli. unfold c1, attached in Hgs, Hts. simpl in Hgs, Hts.
  rewrite insert_insert_eq in Hgs. rewrite insert_insert_eq in Hts. constructor.
  - intros t1 tr1 Ht1. rewrite Hts. destruct (decide (t = t1)) as [<-|Hne].
    + exists tr'. rewrite lookup_insert_eq. assert (tr1 = tr) as -> by congruence. rewrite Htr. split_and!; try done.
      intros gid1 r g _ Hr1 _ _. simpl. rewrite lookup_insert_ne; [done|]. congruence.
    + exists tr1. rewrite lookup_insert_ne by done. by split_and!.
  - intros r g Hg. exists g. split; [|done]. rewrite Hgs, lookup_insert_ne; [done|].
    intros <-. by rewrite group_fresh in Hg.
  - intros f t1 _. by rewrite Hc.
  - intros x. by rewrite Htl.
  - intros r1 g1 Hn. rewrite Hgs, lookup_insert_Some. intros [[<- <-]|[_ H]]; [done|congruence].
  - intros t1 tr1 Hn. rewrite Hts, lookup_insert_Some. intros [[<- <-]|[_ H]]; congruence.
  - intros t1 tr1 gid1 r1. rewrite Hts, lookup_insert_Some. intros [[<- <-]|[_ H]] Hr1 Hg1; [|by eauto].
    exists tr. split; [done|]. rewrite Htr in Hr1. simpl in Hr1.
    apply lookup_insert_Some in Hr1 as [[_ <-]|[_ Hr1]]; [|done].
    rewrite group_fresh in Hg1 by done. by destruct Hg1.
  - done.
Qed.

(** ** [getOrCreateGroupWithEviction] *)
Lemma evictOldestGroupsIfNeeded_spec c ftn t tr :
  cache_ok c -> cache_ c !! ftn = Some t -> theTracks c !! t = Some tr ->
  exists c' tr', evictOldestGroupsIfNeeded t c = Some (tt, c') /\ cache_ok c' /\ evict_rel c c' /\
    cache_ c' = cache_ c /\ theTracks c' !! t = Some tr' /\
    (maxCachedGroupsPerTrack_ c <> 0 ->
       Z.of_nat (size (groups tr')) <= maxCachedGroupsPerTrack_ c \/ groupLRU tr' = []).
Proof.
  intros Hok Hf Ht. unfold evictOldestGroupsIfNeeded. erewrite bind_some by done.
  rewrite (bind_some _ _ _ _ _ (getTrack_run c t tr Ht)). case_test.
  - exists c, tr. split_and!; try done; [apply evict_rel_refl|lia].
  - destruct (evictOldestGroups_loop_spec (length (groupLRU tr)) c ftn t tr Hok Hf Ht) as
      (c' & tr' & H1 & H2 & H3 & H4 & H5 & H6); [lia|]. exists c', tr'. split_and!; try done.
Qed.

Lemma not_evicted_of_cached c ftn t tr :
  cache_ok c -> cache_ c !! ftn = Some t -> theTracks c !! t = Some tr -> evicted tr = false.
Proof. intros [_ Hev] Hf Ht. apply (Hev t tr Ht). eauto. Qed.

Lemma makeGroup_attach {A} c t tr gid (k : gref -> M MoqxCache A) :
  theTracks c !! t = Some tr ->
  (r ← makeGroup; modTrack t (fun tr => set_groups (<[gid:=r]> (groups tr)) tr);; k r) c =
  k (nextGref c) (attached c t tr gid).
Proof.
  intros Ht. unfold makeGroup, modTrack, getTrack, putTrack, mbind, M_bind, get, modify, deref, mret, M_ret.
  simpl. by rewrite Ht.
Qed.

Lemma getOrCreateGroupWithEviction_spec c ftn t tr gid :
  cache_ok c -> cache_ c !! ftn = Some t -> theTracks c !! t = Some tr ->
  exists r c' tr' g', getOrCreateGroupWithEviction t gid ftn c = Some (r, c') /\
    cache_ok c' /\ run_rel c c' /\ cache_ c' = cache_ c /\ theTracks c' !! t = Some tr' /\
    groups tr' !! gid = Some r /\ theGroups c' !! r = Some g' /\
    (groups tr !! gid = None -> maxCachedGroupsPerTrack_ c <> 0 ->
       Z.of_nat (size (groups tr')) <= maxCachedGroupsPerTrack_ c + 1 \/ (forall r1 gid1, (r1, gid1) ∈ groupLRU tr' -> gid1 = gid)).
Proof.
  intros Hok Hf Ht. unfold getOrCreateGroupWithEviction.
  rewrite (bind_some _ _ _ _ _ (getTrack_run c t tr Ht)).
  destruct (groups tr !! gid) as [r|] eqn:Hr.
  { destruct (ok_group c (proj1 Hok) _ _ _ _ Ht Hr) as [g Hg].
    exists r, c, tr, g. split_and!; try done; apply run_rel_refl. }
  destruct (evictOldestGroupsIfNeeded_spec c ftn t tr Hok Hf Ht) as (c1 & tr1 & H1 & H2 & H3 & H4 & H5 & H6).
  rewrite (bind_some _ _ _ _ _ H1), (makeGroup_attach c1 t tr1 gid _ H5).
  destruct (er_tracks _ _ H3 _ _ Ht) as (tr1' & H5' & Hrel). assert (tr1' = tr1) as -> by congruence.
  assert (Hr1 : groups tr1 !! gid = None).
  { destruct (groups tr1 !! gid) eqn:E; [|done]. apply (tr_groups _ _ _ Hrel) in E. congruence. }
  set (r := nextGref c1). set (c2 := attached c1 t tr1 gid).
  set (tr2 := set_groups (<[gid:=r]> (groups tr1)) tr1).
  assert (Ht2 : theTracks c2 !! t = Some tr2) by (unfold c2, attached; simpl; by rewrite lookup_insert_eq).
  assert (Hg2 : theGroups c2 !! r = Some newGroup) by (unfold c2, attached; simpl; by rewrite lookup_insert_eq).
  destruct (addGroupToLRU_spec c2 ftn gid t tr2 r newGroup) as
    (c' & tr' & g' & H7 & H8 & H9 & H10 & H11 & _ & H12 & H13 & H14 & H15); try done.
  { by apply cache_ok_attach. }
  { intros _. unfold c2, attached. simpl. by rewrite H4. }
  rewrite (bind_some _ _ _ _ _ H7). exists r, c', tr', g'. split_and!; try done.
  - eapply run_rel_trans; [by apply evict_run_rel|].
    apply (attached_rel c1 c' t tr1 tr' gid g' (proj1 H2)); try done. intros Hl1.
    apply (addGroupToLRU_listed c2 c' ftn gid t tr2 r newGroup); try done.
    + by apply cache_ok_attach.
    + intros _. split; [unfold c2, attached; simpl; by rewrite H4|]. unfold tr2. simpl. by rewrite lookup_insert_eq.
    + intros t1 tr3 gid1 Ht3 Hr3. apply (ok_group_inj c2 (store_ok_attach c1 t tr1 gid (proj1 H2) H5 Hr1)
        t1 tr3 gid1 t tr2 gid r); try done. unfold tr2. simpl. by rewrite lookup_insert_eq.
    + by apply attached_listed_but, Hl1; [apply H2| |].
  - by rewrite H9.
  - by rewrite H12, lookup_insert_eq.
  - rewrite H13. unfold tr2. simpl. by rewrite lookup_insert_eq.
  - by rewrite H10, lookup_insert_eq.
  - intros _ Hmax. destruct (H6 Hmax) as [Hle|Hnil].
    + left. rewrite H13. unfold tr2. simpl. rewrite map_size_insert_None by done. lia.
    + right. intros r1 gid1. change (groupLRU tr2) with (groupLRU tr1) in H14. rewrite Hnil in H14.
      destruct H14 as [-> | ->]; [intros Hin; by apply elem_of_nil in Hin|].
      intros [= _ ->]%list_elem_of_singleton. done.
Qed.

(** ** Tracks *)
Definition emplaced c (ftn : FullTrackName) : MoqxCache :=
  let t := nextTref c in
  set_cache_ (<[ftn:=t]> (cache_ c))
    (set_nextTref (t + 1) (set_theTracks (<[t:=newTrack]> (theTracks c)) c)).

Lemma emplaceTrack_run c ftn : emplaceTrack ftn c = Some (nextTref c, emplaced c ftn).
Proof. done. Qed.

Lemma track_fresh c : store_ok c -> theTracks c !! nextTref c = None.
Proof.
  intros Hok. destruct (theTracks c !! nextTref c) eqn:E; [|done]. apply (ok_tfresh c Hok) in E. lia.
Qed.

Lemma store_ok_emplace c ftn : store_ok c -> cache_ c !! ftn = None -> store_ok (emplaced c ftn).
Proof.
  intros Hok Hn. pose proof (track_fresh c Hok) as Hfr. set (t := nextTref c) in *.
  assert (Htr : forall t1 tr1, <[t:=newTrack]> (theTracks c) !! t1 = Some tr1 ->
    (t1 = t /\ tr1 = newTrack) \/ theTracks c !! t1 = Some tr1).
  { intros t1 tr1. rewrite lookup_insert_Some. intros [[<- <-]|[_ H]]; auto. }
  assert (Hgr : forall t1 tr1 gid r, <[t:=newTrack]> (theTracks c) !! t1 = Some tr1 ->
    groups tr1 !! gid = Some r -> theTracks c !! t1 = Some tr1).
  { intros t1 tr1 gid r [[-> ->]|H]%Htr; [|done]. simpl. by rewrite lookup_empty. }
  assert (Htm : forall t1 tr1, theTracks c !! t1 = Some tr1 -> <[t:=newTrack]> (theTracks c) !! t1 = Some tr1).
  { intros t1 tr1 H. rewrite lookup_insert_ne; [done|]. congruence. }
  assert (Hcm : forall f t1, cache_ c !! f = Some t1 -> <[ftn:=t]> (cache_ c) !! f = Some t1).
  { intros f t1 H. rewrite lookup_insert_ne; [done|]. congruence. }
  assert (Hct : forall f, cache_ c !! f = Some t -> False).
  { intros f H. destruct (ok_cached c Hok f t H). congruence. }
  constructor; simpl; fold t.
  - rewrite (ok_total c Hok). unfold cache_total. simpl. rewrite map_sumZ_insert_new by done.
    unfold track_total at 2. simpl. fold t. rewrite lookup_insert_eq. simpl. rewrite map_sumZ_empty. simpl.
    apply map_sumZ_ext. intros f t1 Hf. symmetry. unfold track_total, emplaced. simpl. fold t.
    rewrite lookup_insert_ne; [done|]. intros <-. by eapply Hct.
  - intros f t1. rewrite lookup_insert_Some. intros [[<- <-]|[_ H]].
    + exists newTrack. by rewrite lookup_insert_eq.
    + destruct (ok_cached c Hok f t1 H) as [tr1 ?]. eauto.
  - intros f1 f2 t1. rewrite !lookup_insert_Some. intros [[<- <-]|[? H1]] [[<- E]|[? H2]]; try done.
    + by destruct (Hct f2).
    + subst. by destruct (Hct f1).
    + by apply (ok_cache_inj c Hok f1 f2 t1).
  - intros t1 tr1 gid r H1 H2. exact (ok_group c Hok _ _ _ _ (Hgr _ _ _ _ H1 H2) H2).
  - intros t1 tr1 g1 t2 tr2 g2 r H1 H2 H3 H4.
    exact (ok_group_inj c Hok _ _ _ _ _ _ _ (Hgr _ _ _ _ H1 H2) H2 (Hgr _ _ _ _ H3 H4) H4).
  - exact (ok_gfresh c Hok).
  - intros t1 tr1 [[-> ->]|H]%Htr; [lia|]. apply (ok_tfresh c Hok) in H. unfold t. lia.
  - exact (ok_bytes c Hok).
  - intros t1 tr1 r gid [[-> ->]|H]%Htr Hin; [by apply elem_of_nil in Hin|].
    exact (ok_lru c Hok _ _ _ _ H Hin).
  - intros t1 tr1 [[-> ->]|H]%Htr; [apply NoDup_nil_2|exact (ok_lru_nodup c Hok _ _ H)].
  - exact (ok_flags c Hok).
  - intros r f gid Hin. destruct (ok_global c Hok r f gid Hin) as (t1 & tr1 & g & H1 & H2 & H3 & H4).
    exists t1, tr1, g. split_and!; eauto; by destruct H4.
  - exact (ok_global_nodup c Hok).
  - intros t1 f Hin. destruct (ok_tlru c Hok t1 f Hin) as (H1 & tr1 & H2 & H3). split; [auto|]. eauto.
Qed.

Lemma emplace_spec c ftn :
  cache_ok c -> cache_ c !! ftn = None -> cache_ok (emplaced c ftn) /\ run_rel c (emplaced c ftn).
Proof.
  intros [Hok Hev] Hn. pose proof (track_fresh c Hok) as Hfr. split; [split|].
  - by apply store_ok_emplace.
  - intros t1 tr1. unfold emplaced. simpl. rewrite lookup_insert_Some. intros [[<- <-]|[Hne H]].
    + simpl. split; [|done]. split; [|done]. intros _. exists ftn. by rewrite lookup_insert_eq.
    + destruct (Hev t1 tr1 H) as [He1 He2]. split; [|done]. rewrite He1. split; intros [f Hf]; exists f.
      * rewrite lookup_insert_ne; [done|]. congruence.
      * apply lookup_insert_Some in Hf as [[_ E]|[_ Hf]]; [congruence|done].
  - constructor; try done.
    + intros t1 tr1 H. exists tr1. unfold emplaced. simpl. rewrite lookup_insert_ne; [by split_and!|]. congruence.
    + eauto.
    + intros f t1 [tr1 H]. unfold emplaced. simpl. rewrite lookup_insert_Some.
      intros [[_ E]|[_ Hf]]; [congruence|done].
    + intros r g Hn'. unfold emplaced. simpl. congruence.
    + intros t1 tr1 Hn'. unfold emplaced. simpl. rewrite lookup_insert_Some.
      intros [[<- <-]|[_ H]]; [done|congruence].
    + intros t1 tr1 gid r. unfold emplaced. simpl. rewrite lookup_insert_Some.
      intros [[<- <-]|[_ H]] Hr _; [simpl in Hr; by rewrite lookup_empty in Hr|eauto].
    + intros Hl f t1 tr1 gid r g. unfold emplaced. simpl. intros Hf1 Ht1 Hr1 Hg1 Hp1.
      apply lookup_insert_Some in Ht1 as [[<- <-]|[Hne Ht1]]; [simpl in Hr1; by rewrite lookup_empty in Hr1|].
      apply lookup_insert_Some in Hf1 as [[_ E]|[_ Hf1]]; [congruence|]. by apply (Hl f t1 tr1 gid r g).
Qed.

(** A change of a track that leaves its groups alone, with a new track LRU. *)
Lemma cache_ok_track c t tr tr' tl :
  cache_ok c -> theTracks c !! t = Some tr ->
  groups tr' = groups tr -> groupLRU tr' = groupLRU tr -> evicted tr' = evicted tr ->
  (forall t1 f, (t1, f) ∈ tl -> cache_ c !! f = Some t1 /\
     if decide (t1 = t) then t_lruIter_ tr' = true else (t1, f) ∈ trackLRU_ c) ->
  cache_ok (set_trackLRU_ tl (set_theTracks (<[t:=tr']> (theTracks c)) c)).
Proof.
  intros [Hok Hev] Ht Hg Hl He Htl. split; [by apply (store_ok_track c t tr)|].
  by eapply (evicted_ok_track c t tr tr').
Qed.

(** Only idle tracks wait for eviction. *)
Definition lru_idle c : Prop :=
  forall t ftn tr, (t, ftn) ∈ trackLRU_ c -> theTracks c !! t = Some tr -> canEvict tr = true.

Lemma lru_idle_rel c c' : cache_ok c -> lru_idle c -> run_rel c c' -> lru_idle c'.
Proof.
  intros [Hok _] Hid Hrel t ftn tr' Hin Ht'. apply (rr_tlru _ _ Hrel) in Hin.
  destruct (ok_tlru c Hok t ftn Hin) as (_ & tr & Ht & _).
  destruct (rr_tracks _ _ Hrel _ _ Ht) as (tr2 & Ht2 & H1 & H2 & _). assert (tr2 = tr') as -> by congruence.
  specialize (Hid t ftn tr Hin Ht). unfold canEvict in *. by rewrite H1, H2.
Qed.

(** ** Lookups *)
Lemma group_bytes_delete g o e :
  group_bytes_ok g -> objects g !! o = Some e ->
  group_bytes_ok (set_objects (delete o (objects g)) (set_totalBytes (totalBytes g - ce_payloadSize e) g)).
Proof.
  intros [Hall Htot] He. split; simpl; [by apply map_Forall_delete|].
  rewrite Htot, (map_sumZ_delete _ _ o e He). lia.
Qed.

(** The duration a track's entries are kept for. *)
Definition effectiveDuration c (tr : CacheTrack) : option Z :=
  match maxCacheDuration tr with Some d => Some d | None => defaultMaxCacheDuration_ c end.

(** A lookup returns the stored entry exactly when it is complete and has not
    expired; an expired entry is dropped with its bytes. *)
Lemma getCachedObjectMaybe_spec c ftn t tr loc now :
  cache_ok c -> cache_ c !! ftn = Some t -> theTracks c !! t = Some tr ->
  exists res c', getCachedObjectMaybe t loc now c = Some (res, c') /\ cache_ok c' /\ run_rel c c' /\
    cache_ c' = cache_ c /\
    (forall e, res = Some e <-> ce_complete e = true /\
       isExpired (effectiveDuration c tr) now (ce_cachedAt e) = false /\
       exists r g, groups tr !! group loc = Some r /\ theGroups c !! r = Some g /\
         objects g !! object loc = Some e).
Proof.
  intros Hok Hf Ht. unfold getCachedObjectMaybe. erewrite bind_some by done.
  rewrite (bind_some _ _ _ _ _ (getTrack_run c t tr Ht)).
  destruct (groups tr !! group loc) as [r|] eqn:Hr.
  2: { exists None, c. split_and!; try done; [apply run_rel_refl|]. intros e. split; [done|].
       intros (_ & _ & r & g & ? & _). congruence. }
  destruct (ok_group c (proj1 Hok) _ _ _ _ Ht Hr) as [g Hg].
  rewrite (bind_some _ _ _ _ _ (getGroup_run c r g Hg)).
  destruct (objects g !! object loc) as [e|] eqn:He.
  2: { exists None, c. split_and!; try done; [apply run_rel_refl|]. intros e. split; [done|].
       intros (_ & _ & r' & g' & ? & ? & ?). assert (r' = r) as -> by congruence. congruence. }
  fold (effectiveDuration c tr).
  assert (Huniq : forall e' r' g', Some r = Some r' ->
    theGroups c !! r' = Some g' -> objects g' !! object loc = Some e' -> e' = e).
  { intros e' r' g' ? ? ?. assert (r' = r) as -> by congruence. congruence. }
  destruct (isExpired (effectiveDuration c tr) now (ce_cachedAt e)) eqn:Ex.
  - set (g' := set_objects _ _).
    destruct (cache_ok_write c ftn t tr
      (set_cachedContent (iset_remove (cachedContent tr) loc loc) tr) (group loc) r g g' Hok Hf Ht Hr Hg)
      as [H1 H2]; try done.
    { apply group_bytes_delete; [exact (ok_bytes c (proj1 Hok) r g Hg)|done]. }
    eexists None, _. split_and!; [|exact H1|exact H2|done|].
    + rewrite (at_self c r t g tr Hg Ht) at 1. erewrite bind_some by apply putGroup_at.
      erewrite bind_some by done.
      change (set_totalCachedBytes_ ?x (at_ c r t ?y ?z)) with (at_ (set_totalCachedBytes_ x c) r t y z).
      erewrite bind_some by apply modTrack_at. unfold mret, M_ret. do 2 f_equal.
      simpl. f_equal. f_equal. lia.
    + intros e'. split; [done|]. intros (_ & Hx & r' & g'' & ? & ? & ?).
      assert (e' = e) as -> by (by eapply Huniq). congruence.
  - destruct (ce_complete e) eqn:Ec; simpl; eexists _, c; (split; [done|]); split_and!; try done;
      try apply run_rel_refl; intros e'; split.
    + intros [= <-]. split_and!; try done. by exists r, g.
    + intros (_ & _ & r' & g' & ? & ? & ?). f_equal. symmetry. by eapply Huniq.
    + done.
    + intros (Hc & _ & r' & g' & ? & ? & ?). assert (e' = e) as -> by (by eapply Huniq). congruence.
Qed.
End alloc.

(** ** Contracts

    What the cache promises to its users: what a lookup returns, what creating a
    group may evict, and how long entries live. *)
Section contracts.
Context `{LA : LocationApi} `{IA : IntervalSetApi} `{EA : ExtensionsApi}.
Implicit Types c : MoqxCache.

(** A lookup in a cached track never aborts and keeps the invariant; it
    returns an entry exactly when the track holds that entry at the location,
    complete and not older than the track's duration (or the default one).  An
    expired entry is dropped, and its bytes leave the counters. *)
Theorem getCachedObjectMaybe_correct c ftn t tr loc now :
  cache_ok c -> cache_ c !! ftn = Some t -> theTracks c !! t = Some tr ->
  exists res c', getCachedObjectMaybe t loc now c = Some (res, c') /\ cache_ok c' /\
    (forall e, res = Some e <-> ce_complete e = true /\
       isExpired (effectiveDuration c tr) now (ce_cachedAt e) = false /\
       exists r g, groups tr !! group loc = Some r /\ theGroups c !! r = Some g /\
         objects g !! object loc = Some e).
Proof.
  intros Hok Hf Ht. destruct (getCachedObjectMaybe_spec c ftn t tr loc now Hok Hf Ht) as
    (res & c' & H1 & H2 & _ & _ & H5). by exists res, c'.
Qed.

(** Creating a group: the group is attached to the track afterwards, the
    invariant holds, pinned groups of the track stay, and the track holds at
    most one group more than the limit unless no other group of it may be
    evicted. *)
Theorem getOrCreateGroupWithEviction_correct c ftn t tr gid :
  cache_ok c -> cache_ c !! ftn = Some t -> theTracks c !! t = Some tr ->
  exists r c' tr', getOrCreateGroupWithEviction t gid ftn c = Some (r, c') /\ cache_ok c' /\ run_rel c c' /\
    cache_ c' = cache_ c /\ theTracks c' !! t = Some tr' /\ groups tr' !! gid = Some r /\
    (groups tr !! gid = None -> maxCachedGroupsPerTrack_ c <> 0 ->
       Z.of_nat (size (groups tr')) <= maxCachedGroupsPerTrack_ c + 1 \/
       (forall r1 gid1, (r1, gid1) ∈ groupLRU tr' -> gid1 = gid)).
Proof.
  intros Hok Hf Ht. destruct (getOrCreateGroupWithEviction_spec c ftn t tr gid Hok Hf Ht) as
    (r & c' & tr' & g' & H1 & H2 & H3 & H4 & H5 & H6 & _ & H8). by exists r, c', tr'.
Qed.

(** The duration taken from a publisher's extension is capped by the
    configured maximum, and an extension without a value falls back to the
    default. *)
Theorem getEffectiveCacheDuration_capped c ext d :
  getEffectiveCacheDuration c ext = Some d ->
  (forall cap, maxAllowedCacheDuration_ c = Some cap ->
     getIntExtension ext kMaxCacheDurationExtensionType <> None -> d <= cap) /\
  (getIntExtension ext kMaxCacheDurationExtensionType = None -> defaultMaxCacheDuration_ c = Some d).
Proof.
  unfold getEffectiveCacheDuration. destruct (getIntExtension ext kMaxCacheDurationExtensionType) as [ms|].
  - intros [= <-]. split; [|done]. intros cap -> _. lia.
  - intros H. split; [done|]. done.
Qed.

(** Expiry of an entry whose duration fits in 64-bit nanoseconds: the entry
    is expired exactly when it is older than the duration. *)
Theorem isExpired_exact d now cachedAt :
  0 <= d -> d * 1000000 < 2 ^ 63 ->
  isExpired (Some d) now cachedAt = true <-> cachedAt + d * 1000000 < now.
Proof. intros H0 H1. unfold isExpired. rewrite s64_small by lia. lia. Qed.

(** A duration whose nanoseconds do not fit in 64 bits can wrap to a negative
    value, and then an entry written at this very instant counts as expired. *)
Theorem isExpired_overflow now : isExpired (Some (2 ^ 62 - 1)) now now = true.
Proof. unfold isExpired. rewrite Z.sub_diag. vm_compute. done. Qed.
End contracts.
