(* ===== verification/CacheWriteback.v ===== *)
(** Writebacks of a subscription (MoqxCache.cpp, [SubgroupWriteback] and
    [SubscribeWriteback]): objects that arrive from the publisher are cached and
    then forwarded to the wrapped consumer.

    The wrapped consumer is code of the caller.  A handler that ends in a call
    of the consumer returns what that call returns, so the model returns the call
    itself ([Forward]); a handler that fails returns the error it produces
    together with the reset it sends to the consumer first ([Refuse]). *)

From Stdlib Require Import Init.Byte.
From S2P Require Import Prelude Location CacheRanges CacheState CacheObject CacheEvict CacheInv CacheSafety CacheWrite CachePins CacheAlloc.

Inductive ResetStreamErrorCode := RESET_INTERNAL_ERROR | RESET_CANCELLED | RESET_MALFORMED_TRACK.

Inductive Outcome (Call : Type) :=
| Forward (call : Call)
| Refuse (resetCode : option ResetStreamErrorCode) (e : MoQPublishError).
Arguments Forward {Call} call.
Arguments Refuse {Call} resetCode e.

Section writeback.
Context `{LA : LocationApi} `{IA : IntervalSetApi} `{EA : ExtensionsApi}.

(** The calls of moxygen's [SubgroupConsumer] and [TrackConsumer]. *)
Inductive SubgroupCall :=
| SObject (objID : Z) (payload : Payload) (ext : Extensions) (finSub : bool)
| SCheckpoint
| SBeginObject (objectID length : Z) (initialPayload : Payload) (ext : Extensions)
| SObjectPayload (payload : Payload) (finSubgroup : bool)
| SEndOfGroup (objectID : Z)
| SEndOfTrackAndGroup (objectID : Z)
| SEndOfSubgroup
| SReset (error : ResetStreamErrorCode).

Record ObjectHeader := mkHeader {
  oh_group : Z; oh_subgroup : Z; oh_id : Z; oh_status : ObjectStatus; oh_extensions : Extensions }.

Inductive TrackCall :=
| TObjectStream (header : ObjectHeader) (payload : Payload)
| TDatagram (header : ObjectHeader) (payload : Payload) (lastInGroup : bool)
| TPublishDone
| TSetTrackAlias (alias : Z).

(** ** SubgroupWriteback *)
Record SubgroupWriteback := mkSubgroupWriteback {
  sw_group : Z;
  sw_subgroup : Z;
  sw_track : tref;
  sw_cgroup : gref;
  sw_ftn : FullTrackName;
  currentObject_ : Z;
  currentLength_ : Z;
  currentOffset_ : Z;
  cachingCurrentObject_ : bool;
}.

(** [track.updateLargest(...)] on a track of the heap. *)
Definition updateLargestM (t : tref) (loc : AbsoluteLocation) (eot : bool)
  : M MoqxCache (result MoQPublishError unit) :=
  tr ← getTrack t;
  match updateLargest loc eot tr with
  | Ok tr' => putTrack t tr';; mret (Ok tt)
  | Err e => mret (Err e)
  end.

Definition newSubgroupWriteback (groupID subgroup : Z) (t : tref) (r : gref) (ftn : FullTrackName)
  : M MoqxCache SubgroupWriteback :=
  pinGroup r t;;
  mret (mkSubgroupWriteback groupID subgroup t r ftn 0 0 0 false).

Definition closeSubgroupWriteback (w : SubgroupWriteback) : M MoqxCache unit :=
  unpinGroup (sw_ftn w) (sw_group w) (sw_cgroup w) (sw_track w).

(** The shared shape of the handlers that write one object: record it as
    largest, cache it, and only then forward the call. *)
Definition cacheThenForward (w : SubgroupWriteback) (objID : Z) (eot : bool) (status : ObjectStatus)
    (ext : Extensions) (payload : Payload) (complete : bool) (now : Z) (call : SubgroupCall)
  : M MoqxCache (Outcome SubgroupCall) :=
  res ← updateLargestM (sw_track w) (Loc (sw_group w) objID) eot;
  match res with
  | Err e => mret (Refuse (Some RESET_INTERNAL_ERROR) e)
  | Ok _ =>
    cacheRes ← cacheObjectAndUpdateBytes (sw_cgroup w) (sw_track w) (sw_group w) (sw_subgroup w)
                 objID status ext payload complete false now 0;
    match cacheRes with
    | Err e => mret (Refuse (Some RESET_INTERNAL_ERROR) e)
    | Ok _ => mret (Forward call)
    end
  end.

Definition sw_object (w : SubgroupWriteback) (objID : Z) (payload : Payload) (ext : Extensions)
    (finSub : bool) (now : Z) : M MoqxCache (Outcome SubgroupCall) :=
  tr ← getTrack (sw_track w);
  if shouldSkipCaching tr then mret (Forward (SObject objID payload ext finSub))
  else cacheThenForward w objID false NORMAL ext payload true now (SObject objID payload ext finSub).

Definition sw_beginObject (w : SubgroupWriteback) (objectID length : Z) (initialPayload : Payload)
    (ext : Extensions) (now : Z) : M MoqxCache (Outcome SubgroupCall * SubgroupWriteback) :=
  let call := SBeginObject objectID length initialPayload ext in
  tr ← getTrack (sw_track w);
  let caching := negb (shouldSkipCaching tr) in
  let w := mkSubgroupWriteback (sw_group w) (sw_subgroup w) (sw_track w) (sw_cgroup w) (sw_ftn w)
             (currentObject_ w) (currentLength_ w) (currentOffset_ w) caching in
  if negb caching then mret (Forward call, w)
  else
    res ← updateLargestM (sw_track w) (Loc (sw_group w) objectID) false;
    match res with
    | Err e => mret (Refuse (Some RESET_INTERNAL_ERROR) e, w)
    | Ok _ =>
      let initBytes := payloadLength initialPayload in
      xcheck (initBytes <=? length);;
      cacheRes ← cacheObjectAndUpdateBytes (sw_cgroup w) (sw_track w) (sw_group w) (sw_subgroup w)
                   objectID NORMAL ext initialPayload (initBytes =? length) false now 0;
      match cacheRes with
      | Err e => mret (Refuse (Some RESET_INTERNAL_ERROR) e, w)
      | Ok _ =>
        mret (Forward call,
              mkSubgroupWriteback (sw_group w) (sw_subgroup w) (sw_track w) (sw_cgroup w) (sw_ftn w)
                objectID length initBytes caching)
      end
    end.

Definition sw_objectPayload (w : SubgroupWriteback) (payload : Payload) (finSubgroup : bool) (now : Z)
  : M MoqxCache (Outcome SubgroupCall * SubgroupWriteback) :=
  let call := SObjectPayload payload finSubgroup in
  tr ← getTrack (sw_track w);
  if negb (cachingCurrentObject_ w) || evicted tr then mret (Forward call, w)
  else
    bytes ← deref payload;
    let addedBytes := Z.of_nat (length bytes) in
    let end_ := u64 (currentOffset_ w + addedBytes) in
    if currentLength_ w <? end_
    then mret (Refuse (Some RESET_MALFORMED_TRACK) (malformed "Payload past object length"), w)
    else
      cacheRes ← cacheObjectAndUpdateBytes (sw_cgroup w) (sw_track w) (sw_group w) (sw_subgroup w)
                   (currentObject_ w) NORMAL noExtensions payload (end_ =? currentLength_ w) false
                   now (currentOffset_ w);
      match cacheRes with
      | Err e => mret (Refuse (Some RESET_INTERNAL_ERROR) e, w)
      | Ok _ =>
        mret (Forward call,
              mkSubgroupWriteback (sw_group w) (sw_subgroup w) (sw_track w) (sw_cgroup w) (sw_ftn w)
                (currentObject_ w) (currentLength_ w) end_ (cachingCurrentObject_ w))
      end.

Definition sw_endOfGroup (w : SubgroupWriteback) (objectID now : Z)
  : M MoqxCache (Outcome SubgroupCall) :=
  tr ← getTrack (sw_track w);
  if shouldSkipCaching tr then mret (Forward (SEndOfGroup objectID))
  else cacheThenForward w objectID false END_OF_GROUP noExtensions None true now (SEndOfGroup objectID).

Definition sw_endOfTrackAndGroup (w : SubgroupWriteback) (objectID now : Z)
  : M MoqxCache (Outcome SubgroupCall) :=
  tr ← getTrack (sw_track w);
  if shouldSkipCaching tr then mret (Forward (SEndOfTrackAndGroup objectID))
  else cacheThenForward w objectID true END_OF_TRACK noExtensions None true now
         (SEndOfTrackAndGroup objectID).

Definition sw_checkpoint : Outcome SubgroupCall := Forward SCheckpoint.
Definition sw_endOfSubgroup : Outcome SubgroupCall := Forward SEndOfSubgroup.
Definition sw_reset (error : ResetStreamErrorCode) : Outcome SubgroupCall := Forward (SReset error).

(** ** SubscribeWriteback *)
Record SubscribeWriteback := mkSubscribeWriteback { sb_track : tref; sb_ftn : FullTrackName }.

Definition newSubscribeWriteback (t : tref) (ftn : FullTrackName) : M MoqxCache SubscribeWriteback :=
  removeTrackFromLRU t;;
  modTrack t (fun tr => set_liveWritebackCount (liveWritebackCount tr + 1) tr);;
  mret (mkSubscribeWriteback t ftn).

Definition closeSubscribeWriteback (b : SubscribeWriteback) : M MoqxCache unit :=
  tr ← getTrack (sb_track b);
  xcheck (0 <? liveWritebackCount tr);;
  modTrack (sb_track b) (fun tr => set_liveWritebackCount (liveWritebackCount tr - 1) tr);;
  onTrackBecameEvictable (sb_ftn b).

(** [beginSubgroup]: [consumerRes] is what the wrapped consumer answers. *)
Inductive BeginSubgroupResult :=
| BSRefused (e : MoQPublishError)
| BSForwarded (res : result MoQPublishError unit)
| BSWrapped (w : SubgroupWriteback).

Definition sb_beginSubgroup (b : SubscribeWriteback) (groupID subgroupID : Z)
    (consumerRes : result MoQPublishError unit) : M MoqxCache BeginSubgroupResult :=
  tr ← getTrack (sb_track b);
  if isGroupNonExistent (gaps tr) groupID
  then mret (BSRefused (malformed "Invalid status change"))
  else if is_Ok consumerRes && negb (shouldSkipCaching tr) then
    getOrCreateGroupWithEviction (sb_track b) groupID (sb_ftn b);;
    tr ← getTrack (sb_track b);
    r ← deref (groups tr !! groupID);
    w ← newSubgroupWriteback groupID subgroupID (sb_track b) r (sb_ftn b);
    mret (BSWrapped w)
  else mret (BSForwarded consumerRes).

Definition cacheHeader (b : SubscribeWriteback) (header : ObjectHeader) (payload : Payload)
    (isDatagram : bool) (now : Z) (call : TrackCall) : M MoqxCache (Outcome TrackCall) :=
  res ← updateLargestM (sb_track b) (Loc (oh_group header) (oh_id header)) (isEndOfTrack (oh_status header));
  match res with
  | Err e => mret (Refuse None e)
  | Ok _ =>
    r ← getOrCreateGroupWithEviction (sb_track b) (oh_group header) (sb_ftn b);
    cacheRes ← cacheObjectAndUpdateBytes r (sb_track b) (oh_group header) (oh_subgroup header)
                 (oh_id header) (oh_status header) (oh_extensions header) payload true isDatagram now 0;
    match cacheRes with
    | Err e => mret (Refuse None e)
    | Ok _ => mret (Forward call)
    end
  end.

Definition sb_objectStream (b : SubscribeWriteback) (header : ObjectHeader) (payload : Payload) (now : Z)
  : M MoqxCache (Outcome TrackCall) :=
  tr ← getTrack (sb_track b);
  if shouldSkipCaching tr then mret (Forward (TObjectStream header payload))
  else cacheHeader b header payload false now (TObjectStream header payload).

Definition sb_datagram (b : SubscribeWriteback) (header : ObjectHeader) (payload : Payload)
    (lastInGroup : bool) (now : Z) : M MoqxCache (Outcome TrackCall) :=
  tr ← getTrack (sb_track b);
  if shouldSkipCaching tr then mret (Forward (TDatagram header payload lastInGroup))
  else cacheHeader b header payload true now (TDatagram header payload lastInGroup).

Definition sb_publishDone : Outcome TrackCall := Forward TPublishDone.
Definition sb_setTrackAlias (alias : Z) : Outcome TrackCall := Forward (TSetTrackAlias alias).

Definition getSubscribeWriteback (ftn : FullTrackName) : M MoqxCache SubscribeWriteback :=
  c ← get;
  t ← match cache_ c !! ftn with
      | Some t => mret t
      | None =>
        (if maxCachedTracks_ c <=? Z.of_nat (size (cache_ c))
         then evictOldestTrackIfNeeded;; mret tt else mret tt);;
        emplaceTrack ftn
      end;
  newSubscribeWriteback t ftn.
End writeback.
