(* ===== verification/CacheSystem.v ===== *)
(** The cache with its open writebacks as one system.

    A state is the cache together with the subscriptions and subgroups that are
    being written.  An operation is one call into the cache: opening, using and
    closing writebacks, lookups, purges and changes of the limits, in any order
    and any interleaving.  [run_system_safe] shows that no sequence of calls
    fails a check of the source, and that the invariant of the store, the pin
    counts and the live counts hold throughout. *)

From Stdlib Require Import Init.Byte.
From S2P Require Import Prelude Location CacheRanges CacheState CacheObject CacheEvict CacheInv CacheSafety CacheWrite CachePins CacheAlloc CacheWriteback.

Section handlers.
Context `{LA : LocationApi} `{IA : IntervalSetApi} `{EA : ExtensionsApi}.
Implicit Types c : MoqxCache.

(** What an open subgroup writeback relies on: its track and group are alive,
    the group is pinned, unless the track was evicted the group is the one the
    track holds under that id, and no other track holds the group. *)
Record sub_ok c (w : SubgroupWriteback) : Prop := {
  so_offset : 0 <= currentOffset_ w;
  so_live : exists tr g, theTracks c !! sw_track w = Some tr /\ theGroups c !! sw_cgroup w = Some g /\
    0 < pinCount_ g /\
    (evicted tr = false -> groups tr !! sw_group w = Some (sw_cgroup w) /\
                           cache_ c !! sw_ftn w = Some (sw_track w));
  so_own t tr gid : theTracks c !! t = Some tr -> groups tr !! gid = Some (sw_cgroup w) -> t = sw_track w;
}.

Record subscribe_ok c (b : SubscribeWriteback) : Prop := {
  sbo_live : exists tr, theTracks c !! sb_track b = Some tr /\
    (evicted tr = false -> cache_ c !! sb_ftn b = Some (sb_track b));
}.

Lemma sub_ok_rel c c' w : cache_ok c -> cache_ok c' -> run_rel c c' -> sub_ok c w -> sub_ok c' w.
Proof.
  intros Hok Hok' Hrel [Ho (tr & g & Ht & Hg & Hp & Hat) Hown]. constructor; [done| |].
  2: { intros t1 tr1 gid1 Ht1 Hr1. destruct (rr_attach _ _ Hrel _ _ _ _ Ht1 Hr1) as (tr0 & H1 & H2); eauto. }
  destruct (rr_tracks _ _ Hrel _ _ Ht) as (tr' & Ht' & _ & _ & Hev & Hpin).
  destruct (rr_groups _ _ Hrel _ _ Hg) as (g' & Hg' & Hp'). exists tr', g'. split_and!; try done; [lia|].
  intros He'. assert (He : evicted tr = false) by (destruct (evicted tr); [by rewrite Hev in He'|done]).
  destruct (Hat He) as [Hr Hf]. split; [by apply (Hpin _ _ g)|by eapply (name_stable c c')].
Qed.

Lemma subscribe_ok_rel c c' b :
  cache_ok c -> cache_ok c' -> run_rel c c' -> subscribe_ok c b -> subscribe_ok c' b.
Proof.
  intros Hok Hok' Hrel [(tr & Ht & Hat)]. constructor.
  destruct (rr_tracks _ _ Hrel _ _ Ht) as (tr' & Ht' & _ & _ & Hev & _). exists tr'. split; [done|].
  intros He'. assert (He : evicted tr = false) by (destruct (evicted tr); [by rewrite Hev in He'|done]).
  by eapply (name_stable c c'), He'; eauto.
Qed.

(** Replacing the fields of a track that writes leave alone. *)
Lemma cache_ok_put c t tr tr' :
  cache_ok c -> theTracks c !! t = Some tr -> track_frame tr tr' ->
  let c' := set_theTracks (<[t:=tr']> (theTracks c)) c in cache_ok c' /\ run_rel c c'.
Proof.
  intros Hok Ht (Hg & Hl & He & Htl & Hlw & Hfp) c'. split.
  - replace c' with (set_trackLRU_ (trackLRU_ c) c') by (by destruct c).
    apply (cache_ok_track c t tr tr'); try done. intros t1 f Hin.
    destruct (ok_tlru c (proj1 Hok) _ _ Hin) as (Hf & tr1 & H1 & H2). split; [done|].
    case_decide; [|done]. congruence.
  - constructor; try done.
    + intros t1 tr1 H1. unfold c'. simpl. destruct (decide (t = t1)) as [<-|Hne].
      * exists tr'. rewrite lookup_insert_eq. assert (tr1 = tr) as -> by congruence.
        split_and!; try done; [congruence|]. intros. by rewrite Hg.
      * exists tr1. rewrite lookup_insert_ne by done. by split_and!.
    + eauto.
    + unfold c'. simpl. congruence.
    + intros t1 tr1 Hn. unfold c'. simpl. rewrite lookup_insert_Some. intros [[<- <-]|[_ H]]; congruence.
    + intros t1 tr1 gid r. unfold c'. simpl. rewrite lookup_insert_Some.
      intros [[<- <-]|[_ H]] Hr _; [|by eauto]. rewrite Hg in Hr. eauto.
    + intros Hli f t1 tr1 gid r g. unfold c'. simpl. intros Hf1 Ht1 Hr1 Hg1 Hp1.
      apply lookup_insert_Some in Ht1 as [[<- <-]|[_ Ht1]]; [|by apply (Hli f t1 tr1 gid r g)].
      rewrite Hg in Hr1. rewrite Hl. by apply (Hli f t tr gid r g).
Qed.

Lemma updateLargest_frame current eot tr tr' : updateLargest current eot tr = Ok tr' -> track_frame tr tr'.
Proof. unfold updateLargest. repeat case_test; intros [= <-]; by split_and!. Qed.

Lemma updateLargestM_spec c t tr loc eot :
  cache_ok c -> theTracks c !! t = Some tr ->
  exists res c' tr', updateLargestM t loc eot c = Some (res, c') /\ cache_ok c' /\ run_rel c c' /\
    cache_ c' = cache_ c /\ theGroups c' = theGroups c /\ theTracks c' !! t = Some tr' /\
    track_frame tr tr' /\ maxCachedGroupsPerTrack_ c' = maxCachedGroupsPerTrack_ c.
Proof.
  intros Hok Ht. unfold updateLargestM. rewrite (bind_some _ _ _ _ _ (getTrack_run c t tr Ht)).
  destruct (updateLargest loc eot tr) as [tr'|e] eqn:E.
  - apply updateLargest_frame in E. destruct (cache_ok_put c t tr tr' Hok Ht E) as [H1 H2].
    eexists _, _, tr'. split; [done|]. split_and!; try done. simpl. by rewrite lookup_insert_eq.
  - eexists _, c, tr. split; [done|]. split_and!; try done. apply run_rel_refl.
Qed.

(** A write of an open subgroup writeback. *)
Lemma sub_write_spec c w tr oid st ext p comp now off :
  cache_ok c -> sub_ok c w -> theTracks c !! sw_track w = Some tr -> evicted tr = false -> 0 <= off ->
  exists res c', cacheObjectAndUpdateBytes (sw_cgroup w) (sw_track w) (sw_group w) (sw_subgroup w) oid st ext
      p comp false now off c = Some (res, c') /\ cache_ok c' /\ run_rel c c'.
Proof.
  intros Hok [_ (tr' & g & Ht & Hg & _ & Hat) _] Ht' He Hoff. assert (tr' = tr) as -> by congruence.
  destruct (Hat He) as [Hr _]. by eapply (cacheObjectAndUpdateBytes_spec c _ tr).
Qed.

Lemma not_skip_not_evicted tr : shouldSkipCaching tr = false -> evicted tr = false.
Proof. unfold shouldSkipCaching. by intros [? _]%orb_false_iff. Qed.

Lemma cacheThenForward_spec c w tr oid eot st ext p comp now call :
  cache_ok c -> sub_ok c w -> theTracks c !! sw_track w = Some tr -> evicted tr = false ->
  exists out c', cacheThenForward w oid eot st ext p comp now call c = Some (out, c') /\
    cache_ok c' /\ run_rel c c'.
Proof.
  intros Hok Hw Ht He. unfold cacheThenForward.
  destruct (updateLargestM_spec c _ tr (Loc (sw_group w) oid) eot Hok Ht) as
    (res & c1 & tr1 & H1 & H2 & H3 & H4 & H5 & H6 & (_ & _ & Hev & _) & _).
  rewrite (bind_some _ _ _ _ _ H1). destruct res as [u|e]; [|eexists _, c1; by split_and!].
  destruct (sub_write_spec c1 w tr1 oid st ext p comp now 0) as (res & c' & H7 & H8 & H9); try done.
  { by apply (sub_ok_rel c c1). } { by rewrite Hev. }
  rewrite (bind_some _ _ _ _ _ H7). destruct res as [u'|e]; eexists _, c'; (split; [done|]); (split; [done|]);
    by eapply run_rel_trans.
Qed.

Lemma sw_object_spec c w oid p ext fin now :
  cache_ok c -> sub_ok c w ->
  exists out c', sw_object w oid p ext fin now c = Some (out, c') /\ cache_ok c' /\ run_rel c c'.
Proof.
  intros Hok Hw. pose proof Hw as [_ (tr & g & Ht & _) _]. unfold sw_object.
  rewrite (bind_some _ _ _ _ _ (getTrack_run c _ tr Ht)). case_test.
  - eexists _, c. split_and!; try done. apply run_rel_refl.
  - eapply cacheThenForward_spec; try done. by apply not_skip_not_evicted.
Qed.

Lemma sw_endOfGroup_spec c w oid now :
  cache_ok c -> sub_ok c w ->
  exists out c', sw_endOfGroup w oid now c = Some (out, c') /\ cache_ok c' /\ run_rel c c'.
Proof.
  intros Hok Hw. pose proof Hw as [_ (tr & g & Ht & _) _]. unfold sw_endOfGroup.
  rewrite (bind_some _ _ _ _ _ (getTrack_run c _ tr Ht)). case_test.
  - eexists _, c. split_and!; try done. apply run_rel_refl.
  - eapply cacheThenForward_spec; try done. by apply not_skip_not_evicted.
Qed.

Lemma sw_endOfTrackAndGroup_spec c w oid now :
  cache_ok c -> sub_ok c w ->
  exists out c', sw_endOfTrackAndGroup w oid now c = Some (out, c') /\ cache_ok c' /\ run_rel c c'.
Proof.
  intros Hok Hw. pose proof Hw as [_ (tr & g & Ht & _) _]. unfold sw_endOfTrackAndGroup.
  rewrite (bind_some _ _ _ _ _ (getTrack_run c _ tr Ht)). case_test.
  - eexists _, c. split_and!; try done. apply run_rel_refl.
  - eapply cacheThenForward_spec; try done. by apply not_skip_not_evicted.
Qed.

(** The identity of a writeback does not change while it is used. *)
Definition same_writeback (w w' : SubgroupWriteback) : Prop :=
  sw_group w' = sw_group w /\ sw_track w' = sw_track w /\ sw_cgroup w' = sw_cgroup w /\
  sw_ftn w' = sw_ftn w /\ sw_subgroup w' = sw_subgroup w.

Lemma sub_ok_same c w w' : same_writeback w w' -> 0 <= currentOffset_ w' -> sub_ok c w -> sub_ok c w'.
Proof. intros (E1 & E2 & E3 & E4 & _) Ho [_ H Hown]. constructor; [done| |]; by rewrite ?E1, E2, E3, ?E4. Qed.

Lemma sw_beginObject_spec c w oid len p ext now :
  cache_ok c -> sub_ok c w -> payloadLength p <= len ->
  exists out w' c', sw_beginObject w oid len p ext now c = Some ((out, w'), c') /\ cache_ok c' /\
    run_rel c c' /\ same_writeback w w' /\ 0 <= currentOffset_ w'.
Proof.
  intros Hok Hw Hlen. pose proof Hw as [Ho (tr & g & Ht & _) _]. unfold sw_beginObject.
  rewrite (bind_some _ _ _ _ _ (getTrack_run c _ tr Ht)).
  set (w1 := mkSubgroupWriteback _ _ _ _ _ _ _ _ (negb (shouldSkipCaching tr))).
  destruct (shouldSkipCaching tr) eqn:Es; simpl.
  { eexists _, w1, c. split_and!; try done. apply run_rel_refl. }
  apply not_skip_not_evicted in Es as He.
  destruct (updateLargestM_spec c _ tr (Loc (sw_group w) oid) false Hok Ht) as
    (res & c1 & tr1 & H1 & H2 & H3 & _ & _ & H6 & (_ & _ & Hev & _) & _).
  rewrite (bind_some _ _ _ _ _ H1). destruct res as [u|e]; [|eexists _, w1, c1; by split_and!].
  replace (payloadLength p <=? len) with true by lia. erewrite bind_some by done.
  destruct (sub_write_spec c1 w tr1 oid NORMAL ext p (payloadLength p =? len) now 0) as
    (res & c' & H7 & H8 & H9); try done.
  { by apply (sub_ok_rel c c1). } { by rewrite Hev. }
  rewrite (bind_some _ _ _ _ _ H7). pose proof (run_rel_trans _ _ _ H3 H9).
  destruct res as [u'|e]; eexists _, _, c'; (split; [done|]); split_and!; try done. simpl.
  apply payloadLength_nonneg.
Qed.

Lemma sw_objectPayload_spec c w bytes fin now :
  cache_ok c -> sub_ok c w ->
  exists out w' c', sw_objectPayload w (Some bytes) fin now c = Some ((out, w'), c') /\ cache_ok c' /\
    run_rel c c' /\ same_writeback w w' /\ 0 <= currentOffset_ w'.
Proof.
  intros Hok Hw. pose proof Hw as [Ho (tr & g & Ht & _) _]. unfold sw_objectPayload.
  rewrite (bind_some _ _ _ _ _ (getTrack_run c _ tr Ht)).
  destruct (negb (cachingCurrentObject_ w) || evicted tr) eqn:Es.
  { eexists _, w, c. split_and!; try done. apply run_rel_refl. }
  apply orb_false_iff in Es as [_ He]. erewrite bind_some by done.
  case_test. { eexists _, w, c. split_and!; try done. apply run_rel_refl. }
  match goal with |- context [cacheObjectAndUpdateBytes _ _ _ _ _ _ _ _ ?comp _ _ _] =>
    destruct (sub_write_spec c w tr (currentObject_ w) NORMAL noExtensions (Some bytes) comp now
      (currentOffset_ w)) as (res & c' & H7 & H8 & H9); try done end.
  rewrite (bind_some _ _ _ _ _ H7).
  destruct res as [u'|e]; eexists _, _, c'; (split; [done|]); split_and!; try done. simpl. apply u64_range.
Qed.
End handlers.

(** ** Subscriptions *)
Section subscriptions.
Context `{LA : LocationApi} `{IA : IntervalSetApi} `{EA : ExtensionsApi}.
Implicit Types c : MoqxCache.

(** Tracks keep their groups and their eviction mark; live counts move by [d]. *)
Record track_change c c' (d : tref -> Z) : Prop := {
  tc_groups : theGroups c' = theGroups c;
  tc_cache : cache_ c' = cache_ c;
  tc_global : globalGroupLRU_ c' = globalGroupLRU_ c;
  tc_tracks t : match theTracks c !! t, theTracks c' !! t with
    | Some tr, Some tr' => groups tr' = groups tr /\ evicted tr' = evicted tr /\
                           liveWritebackCount tr' = liveWritebackCount tr + d t /\
                           groupLRU tr' = groupLRU tr
    | None, None => True
    | _, _ => False
    end;
}.

Lemma track_change_trans c1 c2 c3 d1 d2 d3 :
  track_change c1 c2 d1 -> track_change c2 c3 d2 -> (forall t, d3 t = d1 t + d2 t) -> track_change c1 c3 d3.
Proof.
  intros [G1 C1 L1 T1] [G2 C2 L2 T2] Hd. constructor; [congruence|congruence|congruence|]. intros t.
  specialize (T1 t). specialize (T2 t). rewrite Hd.
  destruct (theTracks c1 !! t), (theTracks c2 !! t), (theTracks c3 !! t); try done.
  destruct T1 as (? & ? & ? & ?), T2 as (? & ? & ? & ?). split_and!; [congruence|congruence|lia|congruence].
Qed.

(** Writing one track with a new track LRU list. *)
Lemma track_change_put c t tr tr' tl d :
  theTracks c !! t = Some tr -> groups tr' = groups tr -> evicted tr' = evicted tr ->
  groupLRU tr' = groupLRU tr ->
  (forall t', d t' = if t' =? t then liveWritebackCount tr' - liveWritebackCount tr else 0) ->
  track_change c (set_trackLRU_ tl (set_theTracks (<[t:=tr']> (theTracks c)) c)) d.
Proof.
  intros Ht Hg He Hl Hd. constructor; [done|done|done|]. intros t1. simpl. rewrite Hd.
  destruct (decide (t1 = t)) as [->|Hne].
  - rewrite Ht, lookup_insert_eq, Z.eqb_refl. split_and!; [done|done|lia|done].
  - rewrite lookup_insert_ne by done. destruct (theTracks c !! t1); [|done].
    replace (t1 =? t) with false by lia. split_and!; [done|done|lia|done].
Qed.

Definition zero_d : tref -> Z := fun _ => 0.
Definition one_d (t : tref) (v : Z) : tref -> Z := fun t' => if t' =? t then v else 0.

Lemma removeTrackFromLRU_run c t tr :
  cache_ok c -> theTracks c !! t = Some tr ->
  removeTrackFromLRU t c = Some (tt, set_trackLRU_ (lru_erase t (trackLRU_ c))
    (set_theTracks (<[t:=set_t_lruIter_ false tr]> (theTracks c)) c)).
Proof.
  intros [Hok _] Ht. unfold removeTrackFromLRU. rewrite (bind_some _ _ _ _ _ (getTrack_run c t tr Ht)).
  destruct (t_lruIter_ tr) eqn:El; simpl.
  - erewrite bind_some by done. unfold modTrack, getTrack, putTrack, mbind, M_bind, get, modify, deref. simpl.
    by rewrite Ht.
  - rewrite lru_erase_id.
    + unfold mret, M_ret. do 2 f_equal. replace (set_t_lruIter_ false tr) with tr by (by destruct tr; simpl in *; subst).
      rewrite insert_id by done. by destruct c.
    + rewrite list_elem_of_fmap. intros ([t1 f] & -> & Hin).
      destruct (ok_tlru c Hok _ _ Hin) as (_ & tr' & ? & ?). simpl in *. congruence.
Qed.

Lemma newSubscribeWriteback_spec c t tr ftn :
  cache_ok c -> lru_idle c -> theTracks c !! t = Some tr ->
  exists c', newSubscribeWriteback t ftn c = Some (mkSubscribeWriteback t ftn, c') /\
    cache_ok c' /\ lru_idle c' /\ track_change c c' (one_d t 1).
Proof.
  intros Hok Hid Ht. unfold newSubscribeWriteback.
  rewrite (bind_some _ _ _ _ _ (removeTrackFromLRU_run c t tr Hok Ht)).
  set (tl := lru_erase t (trackLRU_ c)). set (tr1 := set_t_lruIter_ false tr).
  set (tr' := set_liveWritebackCount (liveWritebackCount tr1 + 1) tr1).
  set (c' := set_trackLRU_ tl (set_theTracks (<[t:=tr']> (theTracks c)) c)).
  assert (Hrun : modTrack t (fun tr => set_liveWritebackCount (liveWritebackCount tr + 1) tr)
    (set_trackLRU_ tl (set_theTracks (<[t:=tr1]> (theTracks c)) c)) = Some (tt, c')).
  { unfold modTrack, getTrack, putTrack, mbind, M_bind, get, modify, deref. simpl. rewrite lookup_insert_eq. simpl.
    unfold c', set_theTracks, set_trackLRU_. simpl. by rewrite insert_insert_eq. }
  rewrite (bind_some _ _ _ _ _ Hrun). exists c'. split_and!; [done| | |].
  - apply (cache_ok_track c t tr tr'); try done. intros t1 f. unfold tl. rewrite elem_lru_erase. simpl.
    intros [Hin Hne]. rewrite decide_False by done. split; [|done]. by apply (ok_tlru c (proj1 Hok)).
  - intros t1 f tr2. unfold c', tl. simpl. rewrite elem_lru_erase. simpl. intros [Hin Hne].
    rewrite lookup_insert_ne by done. by apply (Hid t1 f).
  - apply (track_change_put c t tr tr'); try done. intros t'. unfold one_d, tr', tr1. simpl.
    case_test; lia.
Qed.

Lemma addTrackToLRU_spec c t tr ftn :
  cache_ok c -> lru_idle c -> cache_ c !! ftn = Some t -> theTracks c !! t = Some tr -> canEvict tr = true ->
  exists c', addTrackToLRU ftn t c = Some (tt, c') /\ cache_ok c' /\ lru_idle c' /\ track_change c c' zero_d.
Proof.
  intros Hok Hid Hf Ht Hc. unfold addTrackToLRU. rewrite (bind_some _ _ _ _ _ (getTrack_run c t tr Ht)).
  destruct (t_lruIter_ tr) eqn:El.
  { exists c. split_and!; try done. constructor; [done|done|done|]. intros t1. destruct (theTracks c !! t1); [|done].
    unfold zero_d. split_and!; [done|done|lia|done]. }
  set (tl := (t, ftn) :: trackLRU_ c). set (tr' := set_t_lruIter_ true tr).
  exists (set_trackLRU_ tl (set_theTracks (<[t:=tr']> (theTracks c)) c)). split_and!.
  - erewrite bind_some by done. unfold modTrack, getTrack, putTrack, mbind, M_bind, get, modify, deref. simpl.
    by rewrite Ht.
  - apply (cache_ok_track c t tr tr'); try done. intros t1 f. unfold tl. rewrite elem_of_cons.
    intros [[= -> ->]|Hin]; [by rewrite decide_True|].
    destruct (ok_tlru c (proj1 Hok) _ _ Hin) as (Hf' & tr1 & H1 & H2). split; [done|].
    case_decide; [|done]. by subst.
  - intros t1 f tr1. unfold tl. simpl. rewrite elem_of_cons, lookup_insert_Some.
    intros Hin [[<- <-]|[Hne H1]]; [done|]. destruct Hin as [[= -> ->]|Hin]; [done|]. by apply (Hid t1 f).
  - apply (track_change_put c t tr tr'); try done. intros t'. unfold zero_d, tr'. simpl. case_test; lia.
Qed.

Lemma onTrackBecameEvictable_spec c ftn :
  cache_ok c -> lru_idle c ->
  exists c', onTrackBecameEvictable ftn c = Some (tt, c') /\ cache_ok c' /\ lru_idle c' /\ track_change c c' zero_d.
Proof.
  intros Hok Hid. unfold onTrackBecameEvictable. erewrite bind_some by done.
  assert (Hrefl : track_change c c zero_d).
  { constructor; [done|done|done|]. intros t1. destruct (theTracks c !! t1); [|done].
    unfold zero_d. split_and!; [done|done|lia|done]. }
  destruct (cache_ c !! ftn) as [t|] eqn:Hf; [|by exists c].
  destruct (ok_cached c (proj1 Hok) _ _ Hf) as [tr Ht]. rewrite (bind_some _ _ _ _ _ (getTrack_run c t tr Ht)).
  destruct (canEvict tr) eqn:Hc; [|by exists c]. by apply (addTrackToLRU_spec c t tr).
Qed.

Lemma closeSubscribeWriteback_spec c b tr :
  cache_ok c -> lru_idle c -> theTracks c !! sb_track b = Some tr -> 0 < liveWritebackCount tr ->
  exists c', closeSubscribeWriteback b c = Some (tt, c') /\ cache_ok c' /\ lru_idle c' /\
    track_change c c' (one_d (sb_track b) (-1)).
Proof.
  intros Hok Hid Ht Hl. unfold closeSubscribeWriteback. rewrite (bind_some _ _ _ _ _ (getTrack_run c _ tr Ht)).
  replace (0 <? liveWritebackCount tr) with true by lia. erewrite bind_some by done.
  set (tr' := set_liveWritebackCount (liveWritebackCount tr - 1) tr). set (t := sb_track b) in *.
  set (c1 := set_trackLRU_ (trackLRU_ c) (set_theTracks (<[t:=tr']> (theTracks c)) c)).
  assert (Hrun : modTrack t (fun tr => set_liveWritebackCount (liveWritebackCount tr - 1) tr) c = Some (tt, c1)).
  { unfold modTrack, getTrack, putTrack, mbind, M_bind, get, modify, deref. simpl. by rewrite Ht. }
  rewrite (bind_some _ _ _ _ _ Hrun).
  assert (Hlru : forall f tr1, (t, f) ∈ trackLRU_ c -> theTracks c !! t = Some tr1 -> False).
  { intros f tr1 Hin H1. specialize (Hid t f tr Hin Ht). unfold canEvict in Hid.
    apply andb_true_iff in Hid as [? _]. lia. }
  destruct (onTrackBecameEvictable_spec c1 (sb_ftn b)) as (c' & H1 & H2 & H3 & H4).
  - apply (cache_ok_track c t tr tr'); try done. intros t1 f Hin.
    destruct (ok_tlru c (proj1 Hok) _ _ Hin) as (Hf' & tr1 & H1 & H2). split; [done|].
    case_decide; [|done]. subst. by destruct (Hlru f tr1).
  - intros t1 f tr1 Hin. unfold c1. simpl. rewrite lookup_insert_Some.
    intros [[<- <-]|[Hne H1]]; [by destruct (Hlru f tr)|by apply (Hid t1 f)].
  - exists c'. split_and!; try done. eapply track_change_trans; [|exact H4|].
    + apply (track_change_put c t tr tr' _ (one_d t (-1))); try done. intros t'. unfold one_d, tr'. simpl.
      case_test; lia.
    + intros t'. unfold zero_d. lia.
Qed.
End subscriptions.

(** ** The system invariant *)
Section system_inv.
Context `{LA : LocationApi} `{IA : IntervalSetApi} `{EA : ExtensionsApi}.
Implicit Types c : MoqxCache.

Definition countb {A} (f : A -> bool) (l : list A) : Z := Z.of_nat (length (List.filter f l)).

Lemma countb_app {A} (f : A -> bool) l k : countb f (l ++ k) = countb f l + countb f k.
Proof. unfold countb. rewrite List.filter_app, length_app. lia. Qed.

Lemma countb_pos {A} (f : A -> bool) l x : x ∈ l -> f x = true -> 0 < countb f l.
Proof.
  intros Hx Hf. unfold countb. assert (Hin : In x (List.filter f l)).
  { apply List.filter_In. split; [by apply list_elem_of_In|done]. }
  destruct (List.filter f l); [done|simpl; lia].
Qed.

Lemma countb_zero {A} (f : A -> bool) l : Forall (fun x => f x = false) l -> countb f l = 0.
Proof. unfold countb. induction 1 as [|x l Hx _ IH]; simpl; [done|]. by rewrite Hx. Qed.

Lemma countb_delete {A} (f : A -> bool) l i x :
  l !! i = Some x -> countb f (delete i l) = countb f l - (if f x then 1 else 0).
Proof.
  intros Hi. rewrite delete_take_drop. rewrite <- (take_drop_middle l i x Hi) at 3.
  rewrite !countb_app. unfold countb at 4. simpl. case_test; unfold countb; simpl; lia.
Qed.

Lemma countb_insert {A} (f : A -> bool) l i x y :
  l !! i = Some x -> f y = f x -> countb f (<[i:=y]> l) = countb f l.
Proof.
  intros Hi Hf. rewrite insert_take_drop by (by eapply lookup_lt_Some).
  rewrite <- (take_drop_middle l i x Hi) at 3. rewrite !countb_app. unfold countb. simpl. rewrite Hf. by case_test.
Qed.

(** [ws] and [bs] are the open subgroup and subscription writebacks. *)
Record sys_inv (ws : list SubgroupWriteback) (bs : list SubscribeWriteback) c : Prop := {
  si_cache : cache_ok c;
  si_idle : lru_idle c;
  si_subs : Forall (sub_ok c) ws;
  si_subscribes : Forall (subscribe_ok c) bs;
  si_pins r g : theGroups c !! r = Some g -> pinCount_ g = countb (fun w => sw_cgroup w =? r) ws;
  si_lives t tr : theTracks c !! t = Some tr -> liveWritebackCount tr = countb (fun b => sb_track b =? t) bs;
  si_listed : listed c;
}.

Lemma sys_inv_run ws bs c c' : sys_inv ws bs c -> cache_ok c' -> run_rel c c' -> sys_inv ws bs c'.
Proof.
  intros [Hok Hid Hw Hb Hp Hl Hli] Hok' Hrel. constructor; try done.
  - by apply (lru_idle_rel c).
  - eapply Forall_impl; [exact Hw|]. intros w. by apply sub_ok_rel.
  - eapply Forall_impl; [exact Hb|]. intros b. by apply subscribe_ok_rel.
  - intros r g' Hg'. destruct (theGroups c !! r) as [g|] eqn:Hg.
    + destruct (rr_groups _ _ Hrel _ _ Hg) as (g2 & Hg2 & Hpc). assert (g2 = g') as -> by congruence.
      rewrite Hpc. by apply Hp.
    + rewrite (rr_newg _ _ Hrel r g' Hg Hg'). symmetry. apply countb_zero.
      eapply Forall_impl; [exact Hw|]. intros w [_ (tr & g & _ & H & _) _].
      destruct (sw_cgroup w =? r) eqn:E; [|done]. assert (sw_cgroup w = r) by lia. congruence.
  - intros t tr' Ht'. destruct (theTracks c !! t) as [tr|] eqn:Ht.
    + destruct (rr_tracks _ _ Hrel _ _ Ht) as (tr2 & Ht2 & Hpc & _). assert (tr2 = tr') as -> by congruence.
      rewrite Hpc. by apply Hl.
    + rewrite (rr_newt _ _ Hrel t tr' Ht Ht'). symmetry. apply countb_zero.
      eapply Forall_impl; [exact Hb|]. intros b [(tr & H & _)].
      destruct (sb_track b =? t) eqn:E; [|done]. assert (sb_track b = t) by lia. congruence.
  - by apply (rr_listed _ _ Hrel).
Qed.

Lemma tc_lookup c c' d t tr :
  track_change c c' d -> theTracks c !! t = Some tr -> exists tr', theTracks c' !! t = Some tr' /\
    groups tr' = groups tr /\ evicted tr' = evicted tr /\ liveWritebackCount tr' = liveWritebackCount tr + d t.
Proof.
  intros [_ _ _ Htr] Ht. specialize (Htr t). rewrite Ht in Htr. destruct (theTracks c' !! t) as [tr'|]; [|done].
  destruct Htr as (? & ? & ? & _). eauto.
Qed.

Lemma tc_lookup_back c c' d t tr' :
  track_change c c' d -> theTracks c' !! t = Some tr' -> exists tr, theTracks c !! t = Some tr /\
    groups tr' = groups tr /\ groupLRU tr' = groupLRU tr /\
    liveWritebackCount tr' = liveWritebackCount tr + d t.
Proof.
  intros [_ _ _ Htr] Ht. specialize (Htr t). rewrite Ht in Htr. destruct (theTracks c !! t) as [tr|]; [|done].
  destruct Htr as (? & ? & ? & ?). eauto.
Qed.

Lemma listed_tc c c' d : track_change c c' d -> listed c -> listed c'.
Proof.
  intros Htc Hl f t tr' gid r g Hf Ht' Hr Hg Hp. destruct (tc_lookup_back _ _ _ _ _ Htc Ht') as (tr & Ht & E1 & E2 & _).
  rewrite (tc_cache _ _ _ Htc) in Hf. rewrite (tc_groups _ _ _ Htc) in Hg. rewrite E1 in Hr.
  rewrite (tc_global _ _ _ Htc), E2. by apply (Hl f t tr gid r g).
Qed.

Lemma sub_ok_tc c c' d w : track_change c c' d -> sub_ok c w -> sub_ok c' w.
Proof.
  intros Htc [Ho (tr & g & Ht & Hg & Hp & Hat) Hown]. constructor; [done| |].
  2: { intros t1 tr1 gid1 Ht1 Hr1. destruct (tc_lookup_back _ _ _ _ _ Htc Ht1) as (tr0 & H1 & E1 & _).
       rewrite E1 in Hr1. eauto. }
  destruct (tc_lookup _ _ _ _ _ Htc Ht) as (tr' & Ht' & E1 & E2 & _). exists tr', g.
  rewrite (tc_groups _ _ _ Htc), (tc_cache _ _ _ Htc), E1, E2. by split_and!.
Qed.

Lemma sys_inv_tc ws bs bs' c c' d :
  sys_inv ws bs c -> cache_ok c' -> lru_idle c' -> track_change c c' d ->
  Forall (subscribe_ok c) bs' ->
  (forall t, countb (fun b => sb_track b =? t) bs' = countb (fun b => sb_track b =? t) bs + d t) ->
  sys_inv ws bs' c'.
Proof.
  intros [Hok Hid Hw Hb Hp Hl Hli] Hok' Hid' Htc Hb' Hcnt. constructor; try done.
  - eapply Forall_impl; [exact Hw|]. intros w. by apply (sub_ok_tc c c' d).
  - eapply Forall_impl; [exact Hb'|]. intros b [(tr & Ht & Hat)]. constructor.
    destruct (tc_lookup _ _ _ _ _ Htc Ht) as (tr' & Ht' & E1 & E2 & _). exists tr'.
    rewrite (tc_cache _ _ _ Htc), E2. done.
  - intros r g. rewrite (tc_groups _ _ _ Htc). apply Hp.
  - intros t tr' Ht'. destruct (tc_lookup_back _ _ _ _ _ Htc Ht') as (tr & Ht & _ & _ & ->).
    rewrite Hcnt, (Hl t tr Ht). done.
  - by apply (listed_tc c c' d).
Qed.

Lemma sys_inv_tc0 ws bs c c' :
  sys_inv ws bs c -> cache_ok c' -> lru_idle c' -> track_change c c' zero_d -> sys_inv ws bs c'.
Proof.
  intros H ? ? ?. eapply sys_inv_tc; try done; [apply (si_subscribes _ _ _ H)|]. intros t. unfold zero_d. lia.
Qed.

(** A change of one group's pin count and LRU membership. *)
Lemma sys_inv_pins ws ws' bs c c' t tr tr' r g g' :
  sys_inv ws bs c -> cache_ok c' -> theTracks c !! t = Some tr -> theGroups c !! r = Some g ->
  theGroups c' = <[r:=g']> (theGroups c) -> theTracks c' = <[t:=tr']> (theTracks c) ->
  tr' = set_groupLRU (groupLRU tr') tr -> cache_ c' = cache_ c -> trackLRU_ c' = trackLRU_ c ->
  (forall w, w ∈ ws' -> w ∈ ws \/ (sw_track w = t /\ sw_cgroup w = r /\ groups tr !! sw_group w = Some r /\
     cache_ c !! sw_ftn w = Some t /\ 0 <= currentOffset_ w)) ->
  (forall r1, countb (fun w => sw_cgroup w =? r1) ws' =
     countb (fun w => sw_cgroup w =? r1) ws + (if r1 =? r then pinCount_ g' - pinCount_ g else 0)) ->
  listed c' -> sys_inv ws' bs c'.
Proof.
  intros [Hok Hid Hw Hb Hp Hl Hli] Hok' Ht Hg Hgs Hts Htr Hc Htl Hws Hcnt Hli'.
  assert (Hlk : forall t1 tr1, theTracks c !! t1 = Some tr1 -> exists tr2, theTracks c' !! t1 = Some tr2 /\
    groups tr2 = groups tr1 /\ evicted tr2 = evicted tr1 /\ liveWritebackCount tr2 = liveWritebackCount tr1 /\
    canEvict tr2 = canEvict tr1).
  { intros t1 tr1 H1. rewrite Hts. destruct (decide (t = t1)) as [<-|Hne].
    - exists tr'. rewrite lookup_insert_eq. assert (tr1 = tr) as -> by congruence. rewrite Htr. by split_and!.
    - exists tr1. rewrite lookup_insert_ne by done. by split_and!. }
  assert (Hpins : forall r1 g1, theGroups c' !! r1 = Some g1 ->
    pinCount_ g1 = countb (fun w => sw_cgroup w =? r1) ws').
  { intros r1 g1. rewrite Hgs, Hcnt, lookup_insert_Some. intros [[<- <-]|[Hne H1]].
    - rewrite Z.eqb_refl, <- (Hp r g Hg). lia.
    - replace (r1 =? r) with false by lia. rewrite (Hp r1 g1 H1). lia. }
  constructor; try done.
  - intros t1 f tr2 Hin Ht2. rewrite Htl in Hin. destruct (ok_tlru c (proj1 Hok) _ _ Hin) as (_ & tr1 & H1 & _).
    destruct (Hlk _ _ H1) as (tr2' & ? & _ & _ & _ & E). assert (tr2' = tr2) as -> by congruence.
    rewrite E. by apply (Hid t1 f).
  - apply Forall_forall. intros w Hin. rewrite Forall_forall in Hw.
    assert (Hsub : 0 <= currentOffset_ w /\ exists tr0 g0, theTracks c !! sw_track w = Some tr0 /\
      theGroups c !! sw_cgroup w = Some g0 /\ (evicted tr0 = false ->
        groups tr0 !! sw_group w = Some (sw_cgroup w) /\ cache_ c !! sw_ftn w = Some (sw_track w)) /\
      forall t1 tr1 gid1, theTracks c !! t1 = Some tr1 -> groups tr1 !! gid1 = Some (sw_cgroup w) -> t1 = sw_track w).
    { destruct (Hws w Hin) as [Hin'|(E1 & E2 & E3 & E4 & E5)].
      - destruct (Hw w Hin') as [Ho (tr0 & g0 & H1 & H2 & _ & H3) H4]. split; [done|]. by exists tr0, g0.
      - split; [done|]. exists tr, g. rewrite E1, E2. split_and!; try done. intros t1 tr1 gid1 H1 H2.
        by destruct (ok_group_inj c (proj1 Hok) _ _ _ _ _ _ _ H1 H2 Ht E3). }
    destruct Hsub as (Ho & tr0 & g0 & H1 & H2 & H3 & Hown). constructor; [done| |].
    2: { intros t1 tr1 gid1 Ht1 Hr1. rewrite Hts in Ht1. apply lookup_insert_Some in Ht1 as [[<- <-]|[_ Ht1]]; [|by eauto].
         rewrite Htr in Hr1. eauto. }
    destruct (Hlk _ _ H1) as (tr2 & H4 & E1 & E2 & _).
    assert (exists g2, theGroups c' !! sw_cgroup w = Some g2) as [g2 Hg2].
    { rewrite Hgs. destruct (decide (r = sw_cgroup w)) as [<-|Hne].
      - exists g'. by rewrite lookup_insert_eq.
      - exists g0. by rewrite lookup_insert_ne. }
    exists tr2, g2. rewrite Hc, E1, E2. split_and!; try done.
    rewrite (Hpins _ _ Hg2). eapply countb_pos; [exact Hin|]. simpl. lia.
  - eapply Forall_impl; [exact Hb|]. intros b [(tr1 & H1 & Hat)]. constructor.
    destruct (Hlk _ _ H1) as (tr2 & H2 & _ & E & _). exists tr2. rewrite Hc, E. done.
  - intros t1 tr2 H2. rewrite Hts in H2. apply lookup_insert_Some in H2 as [[<- <-]|[_ H2]]; [|by apply Hl].
    rewrite Htr. simpl. by apply Hl.
Qed.
End system_inv.
