(* ===== verification/CacheMachine.v ===== *)
(** Every call into the cache, as one transition of the system of
    [CacheSystem], and the safety of all sequences of calls. *)

From Stdlib Require Import Init.Byte.
From S2P Require Import Prelude Location CacheRanges CacheState CacheObject CacheEvict CacheInv CacheSafety CacheWrite CachePins CacheAlloc CacheWriteback CacheSystem.

(** ** Calls that open or close no writeback *)
Section closed_calls.
Context `{LA : LocationApi} `{IA : IntervalSetApi} `{EA : ExtensionsApi}.
Implicit Types c : MoqxCache.
Context (ws : list SubgroupWriteback) (bs : list SubscribeWriteback).

(** The call does not abort and keeps the system invariant. *)
Definition keeps {A} (m : M MoqxCache A) : Prop := spec (sys_inv ws bs) m (fun _ => sys_inv ws bs).

Lemma keeps_bind {A B} (m : M MoqxCache A) (k : A -> M MoqxCache B) :
  keeps m -> (forall a, keeps (k a)) -> keeps (m ≫= k).
Proof. intros Hm Hk. by eapply spec_bind. Qed.
Lemma keeps_ret {A} (a : A) : keeps (mret a).
Proof. by apply spec_ret. Qed.
Lemma keeps_get {B} (k : MoqxCache -> M MoqxCache B) : (forall c, keeps (k c)) -> keeps (get ≫= k).
Proof. intros Hk c Hc. by destruct (Hk c c Hc) as (b & c' & ? & ?); exists b, c'. Qed.

Lemma keeps_run {A} (m : M MoqxCache A) :
  (forall c, cache_ok c -> lru_idle c -> exists a c', m c = Some (a, c') /\ cache_ok c' /\ run_rel c c') ->
  keeps m.
Proof.
  intros H c Hc. destruct (H c) as (a & c' & H1 & H2 & H3); [apply Hc|apply Hc|].
  exists a, c'. split; [done|]. by eapply sys_inv_run.
Qed.

(** *** Eviction *)
Lemma keeps_evictTrack ftn : keeps (evictTrack ftn).
Proof.
  apply keeps_run. intros c Hok _. destruct (evictTrack_spec c ftn Hok) as (c' & H1 & H2 & H3 & _).
  eexists _, c'. split_and!; [exact H1|done|]. by apply evict_run_rel.
Qed.

Lemma keeps_evictAll names : keeps (evictAll names).
Proof.
  induction names as [|ftn names IH]; simpl; [apply keeps_ret|].
  apply keeps_bind; [apply keeps_evictTrack|]. intros n. apply keeps_bind; [done|]. intros m. apply keeps_ret.
Qed.

Lemma keeps_purge : keeps purge.
Proof. apply keeps_get. intros c. apply keeps_bind; [apply keeps_evictAll|]. intros n. apply keeps_ret. Qed.

Lemma keeps_purgeNamespace ns : keeps (purgeNamespace ns).
Proof. apply keeps_get. intros c. apply keeps_evictAll. Qed.

Lemma keeps_evictOldestTrackIfNeeded : keeps evictOldestTrackIfNeeded.
Proof.
  apply keeps_get. intros c. case_test; [apply keeps_ret|].
  destruct (last (trackLRU_ c)) as [[t ftn]|]; [|apply keeps_ret].
  apply keeps_bind; [apply keeps_evictTrack|]. intros n. apply keeps_ret.
Qed.

Lemma keeps_evictForByteLimit : keeps evictForByteLimitIfNeeded.
Proof.
  apply keeps_run. intros c Hok _. destruct (evictForByteLimitIfNeeded_run c Hok) as (b & c' & H1 & H2 & H3).
  exists b, c'. split_and!; [done|done|]. by apply evict_run_rel.
Qed.

(** *** Limits *)
Lemma sys_inv_limits c c' :
  sys_inv ws bs c -> theGroups c' = theGroups c -> theTracks c' = theTracks c -> cache_ c' = cache_ c ->
  nextGref c' = nextGref c -> nextTref c' = nextTref c -> trackLRU_ c' = trackLRU_ c ->
  globalGroupLRU_ c' = globalGroupLRU_ c -> totalCachedBytes_ c' = totalCachedBytes_ c -> sys_inv ws bs c'.
Proof.
  destruct c, c'. simpl. intros [[Hok Hev] Hid Hw Hb Hp Hl Hli]. intros. subst. constructor; try done.
  - split; [|done]. destruct Hok. by constructor.
  - eapply Forall_impl; [exact Hw|]. intros w [? ? ?]. by constructor.
  - eapply Forall_impl; [exact Hb|]. intros b [?]. by constructor.
Qed.

Lemma keeps_modify_limit (f : MoqxCache -> MoqxCache) :
  (forall c, theGroups (f c) = theGroups c /\ theTracks (f c) = theTracks c /\ cache_ (f c) = cache_ c /\
     nextGref (f c) = nextGref c /\ nextTref (f c) = nextTref c /\ trackLRU_ (f c) = trackLRU_ c /\
     globalGroupLRU_ (f c) = globalGroupLRU_ c /\ totalCachedBytes_ (f c) = totalCachedBytes_ c) ->
  keeps (modify f).
Proof.
  intros Hf. apply spec_modify. intros c Hc. destruct (Hf c) as (? & ? & ? & ? & ? & ? & ? & ?).
  by apply (sys_inv_limits c).
Qed.

Lemma keeps_setMaxCachedBytes n : keeps (setMaxCachedBytes n).
Proof.
  apply keeps_bind; [by apply keeps_modify_limit|]. intros _.
  apply keeps_bind; [apply keeps_evictForByteLimit|]. intros _. apply keeps_ret.
Qed.

Lemma keeps_evictTracks_loop fuel : keeps (evictTracks_loop fuel).
Proof.
  induction fuel as [|fuel IH]; simpl; apply keeps_get; intros c; case_test; try apply keeps_ret.
  apply keeps_bind; [apply keeps_evictOldestTrackIfNeeded|]. done.
Qed.

Lemma keeps_setMaxCachedTracks n : keeps (setMaxCachedTracks n).
Proof.
  apply keeps_bind; [by apply keeps_modify_limit|]. intros _. apply keeps_get. intros c.
  apply keeps_evictTracks_loop.
Qed.

(** The loop over all tracks: the tracks stay in the cache. *)
Lemma evictAllOldest_spec ts : forall c,
  cache_ok c -> (forall t, t ∈ ts -> exists ftn, cache_ c !! ftn = Some t) ->
  exists c', foldr (fun t k => evictOldestGroupsIfNeeded t;; k) (mret tt) ts c = Some (tt, c') /\
    cache_ok c' /\ run_rel c c'.
Proof.
  induction ts as [|t ts IH]; intros c Hok Hts; simpl.
  { exists c. split_and!; try done. apply run_rel_refl. }
  destruct (Hts t) as [ftn Hf]; [apply list_elem_of_here|].
  destruct (ok_cached c (proj1 Hok) _ _ Hf) as [tr Ht].
  destruct (evictOldestGroupsIfNeeded_spec c ftn t tr Hok Hf Ht) as (c1 & tr1 & H1 & H2 & H3 & H4 & _).
  rewrite (bind_some _ _ _ _ _ H1). destruct (IH c1 H2) as (c' & H5 & H6 & H7).
  { intros t' Hin. rewrite H4. apply Hts. by apply list_elem_of_further. }
  exists c'. split_and!; try done. eapply run_rel_trans; [by apply evict_run_rel|done].
Qed.

Lemma keeps_setMaxCachedGroupsPerTrack n : keeps (setMaxCachedGroupsPerTrack n).
Proof.
  intros c Hc. unfold setMaxCachedGroupsPerTrack. erewrite bind_some by done. erewrite bind_some by done.
  set (c1 := set_maxCachedGroupsPerTrack_ n c).
  assert (Hc1 : sys_inv ws bs c1) by (by apply (sys_inv_limits c)).
  case_test; [|by exists tt, c1].
  destruct (evictAllOldest_spec (map_to_list (cache_ c)).*2 c1) as (c' & H1 & H2 & H3).
  - apply Hc1.
  - intros t ([f t'] & -> & Hin)%list_elem_of_fmap. exists f. by apply elem_of_map_to_list in Hin.
  - exists tt, c'. split; [done|]. by eapply sys_inv_run.
Qed.

(** *** Lookups and track settings *)
Lemma keeps_hasCachedObject ftn loc now : keeps (hasCachedObject ftn loc now).
Proof.
  apply keeps_run. intros c Hok _. unfold hasCachedObject. erewrite bind_some by done.
  destruct (cache_ c !! ftn) as [t|] eqn:Hf.
  - destruct (ok_cached c (proj1 Hok) _ _ Hf) as [tr Ht].
    destruct (getCachedObjectMaybe_spec c ftn t tr loc now Hok Hf Ht) as (res & c' & H1 & H2 & H3 & _).
    rewrite (bind_some _ _ _ _ _ H1). eexists _, c'. by split_and!.
  - eexists _, c. split_and!; try done. apply run_rel_refl.
Qed.

Lemma getOrCreateTrack_spec ftn :
  spec (sys_inv ws bs) (getOrCreateTrack ftn) (fun t c => sys_inv ws bs c /\ cache_ c !! ftn = Some t).
Proof.
  intros c Hc. unfold getOrCreateTrack. erewrite bind_some by done.
  destruct (cache_ c !! ftn) as [t|] eqn:Hf; [by exists t, c|].
  rewrite (bind_some _ _ _ _ _ (emplaceTrack_run c ftn)). set (t := nextTref c).
  destruct (emplace_spec c ftn (si_cache _ _ _ Hc) Hf) as [H1 H2].
  pose proof (sys_inv_run _ _ _ _ Hc H1 H2) as Hc1.
  destruct (addTrackToLRU_spec (emplaced c ftn) t newTrack ftn) as (c' & H3 & H4 & H5 & H6); try done.
  { apply (si_idle _ _ _ Hc1). }
  { unfold emplaced. simpl. by rewrite lookup_insert_eq. }
  { unfold emplaced. simpl. by rewrite lookup_insert_eq. }
  rewrite (bind_some _ _ _ _ _ H3). exists t, c'. split; [done|]. split; [by eapply sys_inv_tc0|].
  rewrite (tc_cache _ _ _ H6). unfold emplaced. simpl. by rewrite lookup_insert_eq.
Qed.

(** An update of a cached track that leaves its bookkeeping alone. *)
Lemma modTrack_keeps t (f : CacheTrack -> CacheTrack) :
  (forall tr, track_frame tr (f tr)) ->
  spec (fun c => sys_inv ws bs c /\ is_Some (theTracks c !! t)) (modTrack t f) (fun _ => sys_inv ws bs).
Proof.
  intros Hf c [Hc [tr Ht]]. unfold modTrack. rewrite (bind_some _ _ _ _ _ (getTrack_run c t tr Ht)).
  destruct (cache_ok_put c t tr (f tr) (si_cache _ _ _ Hc) Ht (Hf tr)) as [H1 H2].
  eexists _, _. split; [done|]. by eapply sys_inv_run.
Qed.

Lemma cached_is_Some c ftn t : sys_inv ws bs c -> cache_ c !! ftn = Some t -> is_Some (theTracks c !! t).
Proof. intros Hc Hf. exact (ok_cached c (proj1 (si_cache _ _ _ Hc)) _ _ Hf). Qed.

Lemma keeps_setMaxCacheDuration ftn d : keeps (setMaxCacheDuration ftn d).
Proof.
  eapply spec_bind; [apply getOrCreateTrack_spec|]. intros t.
  eapply spec_conseq; [apply modTrack_keeps| |done]; [intros; by split_and!|].
  intros c [Hc Hf]. split; [done|by eapply cached_is_Some].
Qed.

Lemma keeps_clearMaxCacheDuration ftn : keeps (clearMaxCacheDuration ftn).
Proof.
  intros c Hc. unfold clearMaxCacheDuration. erewrite bind_some by done.
  destruct (cache_ c !! ftn) as [t|] eqn:Hf; [|by exists tt, c].
  eapply modTrack_keeps; [intros; by split_and!|]. split; [done|by eapply cached_is_Some].
Qed.

Lemma keeps_setTrackState ftn largest ext : keeps (setTrackState ftn largest ext).
Proof.
  apply keeps_get. intros c0. apply keeps_bind.
  { destruct (getEffectiveCacheDuration c0 ext); [apply keeps_setMaxCacheDuration|apply keeps_clearMaxCacheDuration]. }
  intros _. eapply spec_bind; [apply getOrCreateTrack_spec|]. intros t c [Hc Hf].
  destruct (cached_is_Some c ftn t Hc Hf) as [tr Ht].
  unfold modTrack. unfold mbind at 1, M_bind at 1. rewrite (bind_some _ _ _ _ _ (getTrack_run c t tr Ht)).
  unfold putTrack, modify. set (tr1 := set_extensions ext tr). set (c1 := set_theTracks _ c).
  destruct (cache_ok_put c t tr tr1 (si_cache _ _ _ Hc) Ht) as [H1 H2]; [by split_and!|].
  pose proof (sys_inv_run _ _ _ _ Hc H1 H2) as Hc1. fold c1 in Hc1.
  destruct largest as [l|]; [|by exists tt, c1].
  assert (Ht1 : theTracks c1 !! t = Some tr1) by (unfold c1; simpl; by rewrite lookup_insert_eq).
  rewrite (bind_some _ _ _ _ _ (getTrack_run c1 t tr1 Ht1)).
  destruct (updateLargest l false tr1) as [tr2|e] eqn:E; [|by exists tt, c1].
  apply updateLargest_frame in E. destruct (cache_ok_put c1 t tr1 tr2 (si_cache _ _ _ Hc1) Ht1 E) as [H3 H4].
  eexists _, _. split; [done|]. by eapply sys_inv_run.
Qed.
End closed_calls.

(** ** Calls that open or close writebacks *)
Section open_calls.
Context `{LA : LocationApi} `{IA : IntervalSetApi} `{EA : ExtensionsApi}.
Implicit Types c : MoqxCache.

Lemma newSubscribeWriteback_inv ws bs c t ftn :
  sys_inv ws bs c -> cache_ c !! ftn = Some t ->
  exists c', newSubscribeWriteback t ftn c = Some (mkSubscribeWriteback t ftn, c') /\
    sys_inv ws (mkSubscribeWriteback t ftn :: bs) c'.
Proof.
  intros Hc Hf. destruct (cached_is_Some ws bs c ftn t Hc Hf) as [tr Ht].
  destruct (newSubscribeWriteback_spec c t tr ftn (si_cache _ _ _ Hc) (si_idle _ _ _ Hc) Ht) as
    (c' & H1 & H2 & H3 & H4).
  exists c'. split; [done|]. eapply (sys_inv_tc ws bs _ c c'); try done.
  - constructor; [|apply (si_subscribes _ _ _ Hc)]. constructor. by exists tr.
  - intros t'. unfold countb, one_d. simpl. rewrite (Z.eqb_sym t' t). case_test; simpl; lia.
Qed.

Lemma getSubscribeWriteback_inv ws bs c ftn :
  sys_inv ws bs c ->
  exists b c', getSubscribeWriteback ftn c = Some (b, c') /\ sys_inv ws (b :: bs) c'.
Proof.
  intros Hc. unfold getSubscribeWriteback. erewrite bind_some by done.
  destruct (cache_ c !! ftn) as [t|] eqn:Hf.
  { erewrite bind_some by done. destruct (newSubscribeWriteback_inv ws bs c t ftn Hc Hf) as (c' & H1 & H2). eauto. }
  set (ev := if maxCachedTracks_ c <=? _ then _ else _).
  assert (exists c1, ev c = Some (tt, c1) /\ sys_inv ws bs c1 /\ cache_ c1 !! ftn = None) as (c1 & H1 & Hc1 & Hf1).
  { unfold ev. case_test; [|by exists c]. unfold evictOldestTrackIfNeeded.
    assert (Hkeep : forall f c1 (m : Z), evictTrack f c = Some (m, c1) ->
      exists c2, Some (tt, c1) = Some (tt, c2) /\ sys_inv ws bs c2 /\ cache_ c2 !! ftn = None).
    { intros f c1 m Hrun. exists c1. split; [done|].
      destruct (evictTrack_spec c f (si_cache _ _ _ Hc)) as (c2 & H1 & H2 & H3 & H4 & _).
      rewrite Hrun in H1. injection H1 as -> <-. split; [by eapply sys_inv_run, evict_run_rel|].
      rewrite H4. destruct (decide (f = ftn)) as [->|]; [by rewrite lookup_delete_eq|by rewrite lookup_delete_ne]. }
    unfold mbind, M_bind, get. simpl. case_test; [by exists c|].
    destruct (last (trackLRU_ c)) as [[t f]|]; [|by exists c].
    destruct (evictTrack_spec c f (si_cache _ _ _ Hc)) as (c2 & H1 & _). rewrite H1.
    by eapply Hkeep. }
  assert (Hrun : (ev;; emplaceTrack ftn) c = Some (nextTref c1, emplaced c1 ftn)).
  { by rewrite (bind_some _ _ _ _ _ H1), emplaceTrack_run. }
  rewrite (bind_some _ _ _ _ _ Hrun).
  destruct (emplace_spec c1 ftn (si_cache _ _ _ Hc1) Hf1) as [H2 H3].
  pose proof (sys_inv_run _ _ _ _ Hc1 H2 H3) as Hc2.
  destruct (newSubscribeWriteback_inv ws bs (emplaced c1 ftn) (nextTref c1) ftn Hc2) as (c' & H4 & H5); [|eauto].
  unfold emplaced. simpl. by rewrite lookup_insert_eq.
Qed.

Lemma closeSubscribeWriteback_inv ws bs c i b :
  sys_inv ws bs c -> bs !! i = Some b ->
  exists c', closeSubscribeWriteback b c = Some (tt, c') /\ sys_inv ws (delete i bs) c'.
Proof.
  intros Hc Hi. pose proof (si_subscribes _ _ _ Hc) as Hb.
  pose proof (Forall_lookup_1 _ _ _ _ Hb Hi) as [(tr & Ht & _)].
  destruct (closeSubscribeWriteback_spec c b tr (si_cache _ _ _ Hc) (si_idle _ _ _ Hc) Ht) as
    (c' & H1 & H2 & H3 & H4).
  { rewrite (si_lives _ _ _ Hc _ _ Ht). eapply countb_pos; [by eapply list_elem_of_lookup_2|]. simpl. lia. }
  exists c'. split; [done|]. eapply (sys_inv_tc ws bs _ c c'); try done.
  - by apply Forall_delete.
  - intros t. rewrite (countb_delete _ bs i b Hi). unfold one_d. rewrite (Z.eqb_sym t). case_test; lia.
Qed.

Lemma beginSubgroup_inv ws bs c i b gid sg cres :
  sys_inv ws bs c -> bs !! i = Some b ->
  exists res c', sb_beginSubgroup b gid sg cres c = Some (res, c') /\
    sys_inv (match res with BSWrapped w => w :: ws | _ => ws end) bs c'.
Proof.
  intros Hc Hi. pose proof (Forall_lookup_1 _ _ _ _ (si_subscribes _ _ _ Hc) Hi) as [(tr & Ht & Hat)].
  unfold sb_beginSubgroup. rewrite (bind_some _ _ _ _ _ (getTrack_run c _ tr Ht)).
  case_test; [by eexists _, c|].
  destruct (is_Ok cres && negb (shouldSkipCaching tr)) eqn:Eo; [|by eexists _, c].
  apply andb_true_iff in Eo as [_ Es%negb_true_iff%not_skip_not_evicted]. specialize (Hat Es).
  destruct (getOrCreateGroupWithEviction_spec c (sb_ftn b) _ tr gid (si_cache _ _ _ Hc) Hat Ht) as
    (r & c1 & tr1 & g1 & H1 & H2 & H3 & H4 & H5 & H6 & H7 & _).
  rewrite (bind_some _ _ _ _ _ H1), (bind_some _ _ _ _ _ (getTrack_run c1 _ tr1 H5)), H6.
  erewrite bind_some by done. pose proof (sys_inv_run _ _ _ _ Hc H2 H3) as Hc1.
  destruct (pinGroup_spec c1 _ tr1 gid r g1 H2 H5 H6 H7) as (c' & tr' & H8 & H9 & H10 & H11 & H12 & H13 & H14).
  unfold newSubgroupWriteback. unfold mbind at 1, M_bind at 1. rewrite (bind_some _ _ _ _ _ H8).
  eexists _, c'. split; [done|]. simpl.
  apply (sys_inv_pins ws _ bs c1 c' (sb_track b) tr1 tr' r g1 (pinned g1)); try done.
  4: { eapply pinGroup_listed; try done; [apply H2|apply (si_listed _ _ _ Hc1)]. }
  - rewrite H13. by destruct tr1.
  - intros w [->|Hw]%elem_of_cons; [right|by left]. simpl. split_and!; try done. by rewrite H4.
  - intros r1. unfold countb. simpl. rewrite (Z.eqb_sym r1). case_test; simpl; lia.
Qed.

Lemma closeSubgroupWriteback_inv ws bs c i w :
  sys_inv ws bs c -> ws !! i = Some w ->
  exists c', closeSubgroupWriteback w c = Some (tt, c') /\ sys_inv (delete i ws) bs c'.
Proof.
  intros Hc Hi. pose proof (Forall_lookup_1 _ _ _ _ (si_subs _ _ _ Hc) Hi) as [_ (tr & g & Ht & Hg & Hp & Hat) Hown].
  destruct (unpinGroup_spec c (sw_ftn w) (sw_group w) _ tr _ g (si_cache _ _ _ Hc) Ht Hg Hp) as
    (c' & tr' & g' & H1 & H2 & H3 & H4 & H5 & _ & H7 & H8 & H9). { intros He. by apply Hat. }
  exists c'. split; [done|].
  apply (sys_inv_pins ws _ bs c c' (sw_track w) tr tr' (sw_cgroup w) g g'); try done.
  3: { eapply (unpinGroup_listed c c'); try done; [apply (si_cache _ _ _ Hc)| |apply (si_listed _ _ _ Hc)].
       intros He. by destruct (Hat He). }
  - intros w' Hin. left. rewrite delete_take_drop in Hin. apply elem_of_app in Hin as [Hin|Hin].
    + by eapply (subseteq_take i).
    + by eapply (subseteq_drop (S i)).
  - intros r1. rewrite (countb_delete _ ws i w Hi), H5, (Z.eqb_sym r1). case_test; lia.
Qed.

(** A call on an open subgroup writeback replaces its fields, not its identity. *)
Lemma sub_call_inv ws bs c c' i w w' :
  sys_inv ws bs c -> ws !! i = Some w -> cache_ok c' -> run_rel c c' -> same_writeback w w' ->
  0 <= currentOffset_ w' -> sys_inv (<[i:=w']> ws) bs c'.
Proof.
  intros Hc Hi Hok' Hrel Hsame Ho. pose proof (sys_inv_run _ _ _ _ Hc Hok' Hrel) as [H1 H2 H3 H4 H5 H6 H7].
  constructor; try done.
  - apply Forall_insert; [done|]. eapply sub_ok_same; [done|done|]. by eapply Forall_lookup_1.
  - intros r g Hg. rewrite (H5 r g Hg). symmetry. apply (countb_insert _ ws i w w' Hi).
    destruct Hsame as (_ & _ & -> & _). done.
Qed.

Lemma cacheHeader_inv ws bs c i b h p dg now call tr :
  sys_inv ws bs c -> bs !! i = Some b -> theTracks c !! sb_track b = Some tr -> evicted tr = false ->
  exists out c', cacheHeader b h p dg now call c = Some (out, c') /\ sys_inv ws bs c'.
Proof.
  intros Hc Hi Ht He. unfold cacheHeader.
  destruct (updateLargestM_spec c _ tr (Loc (oh_group h) (oh_id h)) (isEndOfTrack (oh_status h))
    (si_cache _ _ _ Hc) Ht) as (res & c1 & tr1 & H1 & H2 & H3 & H4 & _ & H6 & (_ & _ & Hev & _) & _).
  rewrite (bind_some _ _ _ _ _ H1). pose proof (sys_inv_run _ _ _ _ Hc H2 H3) as Hc1.
  destruct res as [u|e]; [|by eexists _, c1].
  pose proof (Forall_lookup_1 _ _ _ _ (si_subscribes _ _ _ Hc1) Hi) as [(tr1' & Ht1 & Hat)].
  assert (tr1' = tr1) as -> by congruence. rewrite He in Hev. specialize (Hat Hev).
  destruct (getOrCreateGroupWithEviction_spec c1 (sb_ftn b) _ tr1 (oh_group h) H2 Hat Ht1) as
    (r & c2 & tr2 & g2 & H7 & H8 & H9 & H10 & H11 & H12 & H13 & _).
  rewrite (bind_some _ _ _ _ _ H7). pose proof (sys_inv_run _ _ _ _ Hc1 H8 H9) as Hc2.
  assert (He2 : evicted tr2 = false) by (eapply (not_evicted_of_cached c2 (sb_ftn b)); try done; by rewrite H10).
  destruct (cacheObjectAndUpdateBytes_spec c2 (sb_track b) tr2 (oh_group h) r g2 (oh_subgroup h) (oh_id h)
    (oh_status h) (oh_extensions h) p true dg now 0) as (res & c' & H14 & H15 & H16); try done.
  rewrite (bind_some _ _ _ _ _ H14). pose proof (sys_inv_run _ _ _ _ Hc2 H15 H16) as Hc'.
  destruct res; by eexists _, c'.
Qed.

Lemma sb_objectStream_inv ws bs c i b h p now :
  sys_inv ws bs c -> bs !! i = Some b ->
  exists out c', sb_objectStream b h p now c = Some (out, c') /\ sys_inv ws bs c'.
Proof.
  intros Hc Hi. pose proof (Forall_lookup_1 _ _ _ _ (si_subscribes _ _ _ Hc) Hi) as [(tr & Ht & _)].
  unfold sb_objectStream. rewrite (bind_some _ _ _ _ _ (getTrack_run c _ tr Ht)).
  case_test; [by eexists _, c|]. eapply cacheHeader_inv; try done. by apply not_skip_not_evicted.
Qed.

Lemma sb_datagram_inv ws bs c i b h p last now :
  sys_inv ws bs c -> bs !! i = Some b ->
  exists out c', sb_datagram b h p last now c = Some (out, c') /\ sys_inv ws bs c'.
Proof.
  intros Hc Hi. pose proof (Forall_lookup_1 _ _ _ _ (si_subscribes _ _ _ Hc) Hi) as [(tr & Ht & _)].
  unfold sb_datagram. rewrite (bind_some _ _ _ _ _ (getTrack_run c _ tr Ht)).
  case_test; [by eexists _, c|]. eapply cacheHeader_inv; try done. by apply not_skip_not_evicted.
Qed.
End open_calls.

(** ** Sequences of calls *)
Section machine.
Context `{LA : LocationApi} `{IA : IntervalSetApi} `{EA : ExtensionsApi}.

Record System := mkSystem {
  sys_cache : MoqxCache;
  sys_subs : list SubgroupWriteback;
  sys_subscribes : list SubscribeWriteback;
}.

(** One call; [i] selects an open writeback. *)
Inductive Op :=
| OpSubscribe (ftn : FullTrackName)
| OpCloseSubscribe (i : nat)
| OpBeginSubgroup (i : nat) (groupID subgroupID : Z) (consumerRes : result MoQPublishError unit)
| OpObjectStream (i : nat) (header : ObjectHeader) (payload : Payload) (now : Z)
| OpDatagram (i : nat) (header : ObjectHeader) (payload : Payload) (lastInGroup : bool) (now : Z)
| OpObject (i : nat) (objID : Z) (payload : Payload) (ext : Extensions) (fin : bool) (now : Z)
| OpBeginObject (i : nat) (objID length : Z) (payload : Payload) (ext : Extensions) (now : Z)
| OpObjectPayload (i : nat) (payload : list byte) (fin : bool) (now : Z)
| OpEndOfGroup (i : nat) (objID now : Z)
| OpEndOfTrackAndGroup (i : nat) (objID now : Z)
| OpCloseSubgroup (i : nat)
| OpHasCachedObject (ftn : FullTrackName) (loc : AbsoluteLocation) (now : Z)
| OpPurgeTrack (ftn : FullTrackName)
| OpPurgeNamespace (ns : list string)
| OpPurge
| OpSetTrackState (ftn : FullTrackName) (largest : option AbsoluteLocation) (ext : Extensions)
| OpSetMaxCacheDuration (ftn : FullTrackName) (duration : Z)
| OpClearMaxCacheDuration (ftn : FullTrackName)
| OpSetMaxCachedTracks (n : Z)
| OpSetMaxCachedBytes (n : Z)
| OpSetMinEvictionBytes (n : Z)
| OpSetMaxCachedGroupsPerTrack (n : Z).

(** A call on the cache alone. *)
Definition onCache {A} (m : M MoqxCache A) (s : System) : option System :=
  match m (sys_cache s) with
  | Some (_, c) => Some (mkSystem c (sys_subs s) (sys_subscribes s))
  | None => None
  end.
(** A call on an open writeback; there is none without an open writeback. *)
Definition onSubscribe (i : nat) (s : System) (f : SubscribeWriteback -> option System) : option System :=
  match sys_subscribes s !! i with Some b => f b | None => Some s end.
Definition onSub (i : nat) (s : System) (f : SubgroupWriteback -> option System) : option System :=
  match sys_subs s !! i with Some w => f w | None => Some s end.
Definition onSubState {A} (i : nat) (m : SubgroupWriteback -> M MoqxCache (A * SubgroupWriteback))
    (s : System) : option System :=
  onSub i s (fun w => match m w (sys_cache s) with
                      | Some ((_, w'), c) => Some (mkSystem c (<[i:=w']> (sys_subs s)) (sys_subscribes s))
                      | None => None
                      end).

Definition exec (op : Op) (s : System) : option System :=
  match op with
  | OpSubscribe ftn =>
    match getSubscribeWriteback ftn (sys_cache s) with
    | Some (b, c) => Some (mkSystem c (sys_subs s) (b :: sys_subscribes s))
    | None => None
    end
  | OpCloseSubscribe i => onSubscribe i s (fun b =>
    match closeSubscribeWriteback b (sys_cache s) with
    | Some (_, c) => Some (mkSystem c (sys_subs s) (delete i (sys_subscribes s)))
    | None => None
    end)
  | OpBeginSubgroup i g sg res => onSubscribe i s (fun b =>
    match sb_beginSubgroup b g sg res (sys_cache s) with
    | Some (BSWrapped w, c) => Some (mkSystem c (w :: sys_subs s) (sys_subscribes s))
    | Some (_, c) => Some (mkSystem c (sys_subs s) (sys_subscribes s))
    | None => None
    end)
  | OpObjectStream i h p now => onSubscribe i s (fun b => onCache (sb_objectStream b h p now) s)
  | OpDatagram i h p last now => onSubscribe i s (fun b => onCache (sb_datagram b h p last now) s)
  | OpObject i o p e fin now => onSub i s (fun w => onCache (sw_object w o p e fin now) s)
  | OpBeginObject i o len p e now => onSubState i (fun w => sw_beginObject w o len p e now) s
  | OpObjectPayload i p fin now => onSubState i (fun w => sw_objectPayload w (Some p) fin now) s
  | OpEndOfGroup i o now => onSub i s (fun w => onCache (sw_endOfGroup w o now) s)
  | OpEndOfTrackAndGroup i o now => onSub i s (fun w => onCache (sw_endOfTrackAndGroup w o now) s)
  | OpCloseSubgroup i => onSub i s (fun w =>
    match closeSubgroupWriteback w (sys_cache s) with
    | Some (_, c) => Some (mkSystem c (delete i (sys_subs s)) (sys_subscribes s))
    | None => None
    end)
  | OpHasCachedObject ftn loc now => onCache (hasCachedObject ftn loc now) s
  | OpPurgeTrack ftn => onCache (evictTrack ftn) s
  | OpPurgeNamespace ns => onCache (purgeNamespace ns) s
  | OpPurge => onCache purge s
  | OpSetTrackState ftn l e => onCache (setTrackState ftn l e) s
  | OpSetMaxCacheDuration ftn d => onCache (setMaxCacheDuration ftn d) s
  | OpClearMaxCacheDuration ftn => onCache (clearMaxCacheDuration ftn) s
  | OpSetMaxCachedTracks n => onCache (setMaxCachedTracks n) s
  | OpSetMaxCachedBytes n => onCache (setMaxCachedBytes n) s
  | OpSetMinEvictionBytes n => onCache (setMinEvictionBytes n) s
  | OpSetMaxCachedGroupsPerTrack n => onCache (setMaxCachedGroupsPerTrack n) s
  end.

(** The caller's side of [XCHECK_LE(initBytes, length)]. *)
Definition op_ok (op : Op) : Prop :=
  match op with OpBeginObject _ _ len p _ _ => payloadLength p <= len | _ => True end.

Fixpoint run_system (ops : list Op) (s : System) : option System :=
  match ops with
  | [] => Some s
  | op :: ops => match exec op s with Some s' => run_system ops s' | None => None end
  end.

Definition initial (maxTracks maxGroups maxBytes minEvict : Z) : System :=
  mkSystem (newCache maxTracks maxGroups maxBytes minEvict) [] [].

Definition system_ok (s : System) : Prop := sys_inv (sys_subs s) (sys_subscribes s) (sys_cache s).

Lemma initial_ok a b c d : system_ok (initial a b c d).
Proof.
  constructor; simpl; try (by constructor); try done.
  - split; [constructor; simpl|]; try done.
    + intros ? ? ? H. by apply elem_of_nil in H.
    + apply NoDup_nil_2.
    + intros ? ? H. by apply elem_of_nil in H.
Qed.

Lemma onCache_ok {A} (m : M MoqxCache A) s :
  system_ok s -> (exists a c, m (sys_cache s) = Some (a, c) /\ sys_inv (sys_subs s) (sys_subscribes s) c) ->
  exists s', onCache m s = Some s' /\ system_ok s'.
Proof. intros _ (a & c & Hm & Hc). unfold onCache. rewrite Hm. eauto. Qed.

Lemma onCache_keeps {A} (m : M MoqxCache A) s :
  system_ok s -> (forall ws bs, keeps ws bs m) -> exists s', onCache m s = Some s' /\ system_ok s'.
Proof. intros Hs Hm. apply onCache_ok; [done|]. by apply Hm. Qed.

Lemma onSub_run {A} (m : SubgroupWriteback -> M MoqxCache A) i s :
  system_ok s ->
  (forall w c, cache_ok c -> sub_ok c w -> exists a c', m w c = Some (a, c') /\ cache_ok c' /\ run_rel c c') ->
  exists s', onSub i s (fun w => onCache (m w) s) = Some s' /\ system_ok s'.
Proof.
  intros Hs Hm. unfold onSub. destruct (sys_subs s !! i) as [w|] eqn:Hi; [|eauto]. apply onCache_ok; [done|].
  pose proof (Forall_lookup_1 _ _ _ _ (si_subs _ _ _ Hs) Hi) as Hw.
  destruct (Hm w (sys_cache s) (si_cache _ _ _ Hs) Hw) as (a & c' & H1 & H2 & H3).
  exists a, c'. split; [done|]. by eapply sys_inv_run.
Qed.

Lemma onSubState_run {A} (m : SubgroupWriteback -> M MoqxCache (A * SubgroupWriteback)) i s :
  system_ok s ->
  (forall w c, cache_ok c -> sub_ok c w -> exists a w' c', m w c = Some ((a, w'), c') /\ cache_ok c' /\
     run_rel c c' /\ same_writeback w w' /\ 0 <= currentOffset_ w') ->
  exists s', onSubState i m s = Some s' /\ system_ok s'.
Proof.
  intros Hs Hm. unfold onSubState, onSub. destruct (sys_subs s !! i) as [w|] eqn:Hi; [|eauto].
  pose proof (Forall_lookup_1 _ _ _ _ (si_subs _ _ _ Hs) Hi) as Hw.
  destruct (Hm w (sys_cache s) (si_cache _ _ _ Hs) Hw) as (a & w' & c' & H1 & H2 & H3 & H4 & H5).
  rewrite H1. eexists. split; [done|]. by eapply sub_call_inv.
Qed.

Lemma exec_ok op s : system_ok s -> op_ok op -> exists s', exec op s = Some s' /\ system_ok s'.
Proof.
  intros Hs Hop. destruct op; simpl;
    try (apply onCache_keeps; [done|]; intros ws bs;
         auto using keeps_hasCachedObject, keeps_evictTrack, keeps_purgeNamespace, keeps_purge,
           keeps_setTrackState, keeps_setMaxCacheDuration, keeps_clearMaxCacheDuration,
           keeps_setMaxCachedTracks, keeps_setMaxCachedBytes, keeps_setMaxCachedGroupsPerTrack;
         by apply keeps_modify_limit);
    unfold onSubscribe; try (destruct (sys_subscribes s !! i) as [b|] eqn:Hi; [|by eauto]).
  - destruct (getSubscribeWriteback_inv _ _ _ ftn Hs) as (b & c' & H1 & H2). rewrite H1. eauto.
  - destruct (closeSubscribeWriteback_inv _ _ _ i b Hs Hi) as (c' & H1 & H2). rewrite H1. eauto.
  - destruct (beginSubgroup_inv _ _ _ i b groupID subgroupID consumerRes Hs Hi) as (res & c' & H1 & H2).
    rewrite H1. destruct res; eauto.
  - apply onCache_ok; [done|]. by eapply sb_objectStream_inv.
  - apply onCache_ok; [done|]. by eapply sb_datagram_inv.
  - apply onSub_run; [done|]. intros w c. apply sw_object_spec.
  - apply onSubState_run; [done|]. intros w c ? ?. by apply sw_beginObject_spec.
  - apply onSubState_run; [done|]. intros w c. apply sw_objectPayload_spec.
  - apply onSub_run; [done|]. intros w c. apply sw_endOfGroup_spec.
  - apply onSub_run; [done|]. intros w c. apply sw_endOfTrackAndGroup_spec.
  - unfold onSub. destruct (sys_subs s !! i) as [w|] eqn:Hi; [|eauto].
    destruct (closeSubgroupWriteback_inv _ _ _ i w Hs Hi) as (c' & H1 & H2). rewrite H1. eauto.
Qed.

Lemma run_system_ok ops : forall s, system_ok s -> Forall op_ok ops ->
  exists s', run_system ops s = Some s' /\ system_ok s'.
Proof.
  induction ops as [|op ops IH]; intros s Hs Hops; simpl; [eauto|].
  apply Forall_cons in Hops as [Hop Hops]. destruct (exec_ok op s Hs Hop) as (s1 & H1 & H2). rewrite H1.
  by apply IH.
Qed.

(** (C1) Safety of the cache.  From an empty cache, every interleaving of
    subscriptions, subgroup and object writes, lookups, purges, limit changes
    and closings runs without failing any check of the source, and keeps the
    system invariant: the byte counter is the sum of the sizes of the cached
    entries, the LRU lists hold exactly flagged, unpinned, attached groups and
    idle tracks, every unpinned group of a cached track is in both, and every
    pin count and live count is the number of open writebacks that hold it. *)
Theorem run_system_safe maxTracks maxGroups maxBytes minEvict ops :
  Forall op_ok ops ->
  exists s, run_system ops (initial maxTracks maxGroups maxBytes minEvict) = Some s /\ system_ok s.
Proof. apply run_system_ok, initial_ok. Qed.

(** With no open subgroup, an empty global LRU list means an empty cache. *)
Lemma unlisted_empty bs c : sys_inv [] bs c -> globalGroupLRU_ c = [] -> totalCachedBytes_ c = 0.
Proof.
  intros Hc Hnil. rewrite (ok_total c (proj1 (si_cache _ _ _ Hc))). unfold cache_total.
  rewrite (map_sumZ_ext _ (fun _ => 0)).
  { induction (cache_ c) as [|f t m Hm IH] using map_ind; [apply map_sumZ_empty|].
    by rewrite map_sumZ_insert_new, IH. }
  intros f t Hf. unfold track_total. destruct (theTracks c !! t) as [tr|] eqn:Ht; [|done].
  replace (groups tr) with (∅ : gmap Z gref); [apply map_sumZ_empty|].
  symmetry. apply map_eq. intros gid. rewrite lookup_empty. destruct (groups tr !! gid) as [r|] eqn:Hr; [|done].
  destruct (ok_group c (proj1 (si_cache _ _ _ Hc)) _ _ _ _ Ht Hr) as [g Hg].
  destruct (si_listed _ _ _ Hc f t tr gid r g Hf Ht Hr Hg) as [Hin _]; [by rewrite (si_pins _ _ _ Hc r g Hg)|].
  rewrite Hnil in Hin. by apply elem_of_nil in Hin.
Qed.

(** With no writeback open, the byte limit can be enforced down to its low
    watermark: no group is pinned, unlisted or the join point of a live track. *)
Lemma setMaxCachedBytes_enforced c n :
  sys_inv [] [] c -> 0 < n ->
  exists c', setMaxCachedBytes n c = Some (tt, c') /\ maxCachedBytes_ c' = n /\
    (n < totalCachedBytes_ c -> totalCachedBytes_ c' <= byteTarget c') /\
    (0 <= minEvictionBytes_ c -> totalCachedBytes_ c' <= n).
Proof.
  intros Hc Hn. set (c1 := set_maxCachedBytes_ n c).
  assert (Hc1 : sys_inv [] [] c1) by (by apply (sys_inv_limits [] [] c)).
  destruct (evictForByteLimitIfNeeded_spec c1 (si_cache _ _ _ Hc1)) as (b & c' & H1 & H2 & H3 & _ & _ & H6).
  exists c'. destruct (er_limits _ _ H3) as (_ & _ & Hm & Hmin).
  assert (Htg : byteTarget c' = byteTarget c1) by (unfold byteTarget; by rewrite Hm, Hmin).
  assert (Hev : n < totalCachedBytes_ c -> totalCachedBytes_ c' <= byteTarget c1).
  { intros Hlt. destruct H6 as [H6|H6]; [unfold c1; simpl; lia|done|done|].
    pose proof (sys_inv_run _ _ _ _ Hc1 H2 (evict_run_rel _ _ H3)) as Hc'.
    rewrite (unlisted_empty [] c' Hc').
    - unfold byteTarget. case_test; lia.
    - destruct (globalGroupLRU_ c') as [|x l]; [done|]. apply Forall_cons in H6 as [(t & tr & _ & Ht & Hj) _].
      unfold isJoinPoint in Hj. by rewrite (si_lives _ _ _ Hc' t tr Ht) in Hj. }
  split_and!.
  - unfold setMaxCachedBytes. erewrite bind_some by done. by rewrite (bind_some _ _ _ _ _ H1).
  - by rewrite Hm.
  - by rewrite Htg.
  - intros Hmn. pose proof (er_bytes _ _ H3) as Hle. change (totalCachedBytes_ c1) with (totalCachedBytes_ c) in Hle.
    destruct (decide (n < totalCachedBytes_ c)) as [Hlt|Hge]; [|lia]. specialize (Hev Hlt).
    unfold byteTarget, c1 in Hev. simpl in Hev. revert Hev. case_test; lia.
Qed.

End machine.
