(* ===== verification/CacheIterator.v ===== *)
(** The iterator that walks a FETCH range ([MoqxCache::FetchRangeIterator]): it
    visits groups in the requested order and objects of a group in ascending
    order, and steps over known gaps.

    The iterator reads the track and its groups through the cache store; it
    changes nothing but itself, so each method returns the new iterator. *)

From Stdlib Require Import Init.Byte.
From S2P Require Import Prelude Location CacheRanges CacheState CacheObject.

Section iterator.
Context `{LA : LocationApi} `{IA : IntervalSetApi} `{EA : ExtensionsApi}.

Record FetchRangeIterator := mkIter {
  it_minLocation : AbsoluteLocation;
  it_maxLocation : AbsoluteLocation;
  it_order : GroupOrder;
  it_track : tref;
  it_current : AbsoluteLocation;
  it_end : AbsoluteLocation;
  it_isValid : bool;
  it_cachedGroupId : Z;
  it_cachedGroupPtr : option gref;
  it_cachedEndGroupId : Z;
  it_cachedEndGroupPtr : option gref;
}.

Definition set_it_current (v : AbsoluteLocation) (i : FetchRangeIterator) : FetchRangeIterator :=
  mkIter (it_minLocation i) (it_maxLocation i) (it_order i) (it_track i) v (it_end i) (it_isValid i)
    (it_cachedGroupId i) (it_cachedGroupPtr i) (it_cachedEndGroupId i) (it_cachedEndGroupPtr i).
Definition set_it_end (v : AbsoluteLocation) (i : FetchRangeIterator) : FetchRangeIterator :=
  mkIter (it_minLocation i) (it_maxLocation i) (it_order i) (it_track i) (it_current i) v (it_isValid i)
    (it_cachedGroupId i) (it_cachedGroupPtr i) (it_cachedEndGroupId i) (it_cachedEndGroupPtr i).
Definition set_it_isValid (v : bool) (i : FetchRangeIterator) : FetchRangeIterator :=
  mkIter (it_minLocation i) (it_maxLocation i) (it_order i) (it_track i) (it_current i) (it_end i) v
    (it_cachedGroupId i) (it_cachedGroupPtr i) (it_cachedEndGroupId i) (it_cachedEndGroupPtr i).
Definition set_it_cachedGroup (v : Z * option gref) (i : FetchRangeIterator) : FetchRangeIterator :=
  mkIter (it_minLocation i) (it_maxLocation i) (it_order i) (it_track i) (it_current i) (it_end i) (it_isValid i)
    v.1 v.2 (it_cachedEndGroupId i) (it_cachedEndGroupPtr i).
Definition set_it_cachedEndGroup (v : Z * option gref) (i : FetchRangeIterator) : FetchRangeIterator :=
  mkIter (it_minLocation i) (it_maxLocation i) (it_order i) (it_track i) (it_current i) (it_end i) (it_isValid i)
    (it_cachedGroupId i) (it_cachedGroupPtr i) v.1 v.2.

Definition isDescending (i : FetchRangeIterator) : bool := isNewestFirst (it_order i).

(** How far objects of a known group go, from its end mark and largest cached
    object. *)
Definition knownGroupEnd (isFirstGroup descending : bool) (g : CacheGroup) : Z :=
  let maxObjectInGroup := maxCachedObject g in
  let endIncludingMaxCached :=
    if maxObjectInGroup <? object kLocationMax then maxObjectInGroup + 1 else maxObjectInGroup in
  let firstUncachedObject :=
    if endIncludingMaxCached <? object kLocationMax
    then endIncludingMaxCached + 1 else endIncludingMaxCached in
  if isFirstGroup && descending then
    if endOfGroup g then endIncludingMaxCached else firstUncachedObject
  else if endOfGroup g then maxObjectInGroup else endIncludingMaxCached.

(** [cached] is the pair of cache slots the caller passes by reference. *)
Definition findGroupEndMaybe (i : FetchRangeIterator) (currGroup : Z) (cached : Z * option gref)
  : M MoqxCache (option Z * (Z * option gref)) :=
  let isFirstGroup := currGroup =? group (it_minLocation i) in
  let isLastGroup := currGroup =? group (it_maxLocation i) in
  if isLastGroup then
    mret (Some (if isDescending i && negb isFirstGroup then u64 (object (it_maxLocation i) - 1)
                else object (it_maxLocation i)), cached)
  else
    tr ← getTrack (it_track i);
    let cached' := if negb (cached.1 =? currGroup) then (currGroup, groups tr !! currGroup) else cached in
    match cached'.2 with
    | None => mret (None, cached')
    | Some r => g ← getGroup r; mret (Some (knownGroupEnd isFirstGroup (isDescending i) g), cached')
    end.

Definition it_advanceOne (i : FetchRangeIterator) : M MoqxCache FetchRangeIterator :=
  if negb (it_isValid i) then mret i
  else if loc_eqb (it_current i) (it_end i) then mret i
  else
    '(groupEndMaybe, cached) ← findGroupEndMaybe i (group (it_current i)) (it_cachedGroupId i, it_cachedGroupPtr i);
    let i := set_it_cachedGroup cached i in
    let cur := it_current i in
    if match groupEndMaybe with Some e => object cur <? e | None => false end then
      mret (set_it_current (Loc (group cur) (object cur + 1)) i)
    else if isDescending i then
      if group cur =? 0 then mret (set_it_isValid false i)
      else
        let g := group cur - 1 in
        mret (set_it_current
          (Loc g (if g =? group (it_minLocation i) then object (it_minLocation i) else 0)) i)
    else if group cur =? group (it_maxLocation i) then mret (set_it_current (it_end i) i)
    else mret (set_it_current (Loc (group cur + 1) 0) i).

(** The loop of [skipGaps].  Every round leaves the gap interval it is in, and
    comes back to the same one at most once, so twice the number of intervals
    is enough fuel; running out is an abort of the model. *)
Fixpoint it_skipGaps_loop (fuel : nat) (i : FetchRangeIterator) : M MoqxCache FetchRangeIterator :=
  tr ← getTrack (it_track i);
  if it_isValid i && iset_contains (gaps tr) (it_current i) then
    match fuel with
    | O => abort
    | S fuel =>
      match iset_findInterval (gaps tr) (it_current i) with
      | None => i ← it_advanceOne i; it_skipGaps_loop fuel i
      | Some (gapStart, gapEnd) =>
        let afterGap := if negb (isDescending i) then next gapEnd
                        else computeDescendingAfterGap (it_current i) gapStart (it_minLocation i) in
        match afterGap with
        | Some a =>
          let inRange := if negb (isDescending i) then loc_ltb a (it_end i)
                         else loc_leb (it_minLocation i) a in
          if inRange then it_skipGaps_loop fuel (set_it_current a i)
          else mret (set_it_current (it_end i) i)
        | None => mret (set_it_current (it_end i) i)
        end
      end
    end
  else mret i.

Definition it_skipGaps (i : FetchRangeIterator) : M MoqxCache FetchRangeIterator :=
  tr ← getTrack (it_track i);
  it_skipGaps_loop (2 * Z.to_nat (iset_size (gaps tr)) + 2) i.

Definition newFetchRangeIterator (start end_ : AbsoluteLocation) (order : GroupOrder) (t : tref)
  : M MoqxCache FetchRangeIterator :=
  tr ← getTrack t;
  let i := mkIter start end_ order t start end_ true (group kLocationMax) None (group kLocationMax) None in
  i ← (if isNewestFirst order && negb (group start =? group end_) then
         let current :=
           if object end_ =? 0 then
             let g := u64 (group end_ - 1) in
             Loc g (if g =? group start then object start else 0)
           else Loc (group end_) 0 in
         endObject ← match groups tr !! group start with
                     | Some r =>
                       g ← getGroup r;
                       mret (if endOfGroup g && (maxCachedObject g <? object kLocationMax)
                             then maxCachedObject g + 1 else object kLocationMax)
                     | None => mret (object kLocationMax)
                     end;
         mret (set_it_end (Loc (group start) endObject) (set_it_current current i))
       else mret i);
  it_skipGaps i.

Definition it_invalidate (i : FetchRangeIterator) : FetchRangeIterator :=
  set_it_isValid false (set_it_current (it_maxLocation i) i).

Definition it_advanceTo (i : FetchRangeIterator) (loc : AbsoluteLocation) : M MoqxCache FetchRangeIterator :=
  let i := set_it_current loc i in
  if (if negb (isDescending i) then loc_ltb (it_maxLocation i) loc else loc_ltb loc (it_minLocation i))
  then mret (set_it_isValid false i)
  else it_skipGaps i.

Definition it_next (i : FetchRangeIterator) : M MoqxCache FetchRangeIterator :=
  if negb (it_isValid i) then mret i
  else i ← it_advanceOne i; it_skipGaps i.

(** [None] in the inner option: no cached position in a lower group. *)
Definition it_findPrevGroupCachedPosition (i : FetchRangeIterator) : M MoqxCache (option AbsoluteLocation) :=
  tr ← getTrack (it_track i);
  match prevGroupEnd (it_current i) with
  | None => mret None
  | Some prevGE =>
    let prev := match iset_findInterval (cachedContent tr) prevGE with
                | Some p => Some p
                | None => iset_findPrevInterval (cachedContent tr) prevGE
                end in
    match prev with
    | None => mret None
    | Some (_, prevEnd) =>
      if loc_ltb prevEnd (it_minLocation i) then mret None
      else
        let targetGroup := Z.min (group prevEnd) (group prevGE) in
        let target := Loc targetGroup 0 in
        let target := if loc_ltb target (it_minLocation i) then it_minLocation i else target in
        if negb (iset_contains (cachedContent tr) target) then
          match iset_findNextInterval (cachedContent tr) target with
          | Some (first, _) => xcheck (group first =? targetGroup);; mret (Some first)
          | None => abort
          end
        else mret (Some target)
    end
  end.

Definition it_skipUncached (i : FetchRangeIterator) : M MoqxCache FetchRangeIterator :=
  if negb (it_isValid i) || loc_eqb (it_current i) (it_end i) then mret i
  else
    tr ← getTrack (it_track i);
    if iset_contains (cachedContent tr) (it_current i) then mret i
    else if negb (isDescending i) then
      match iset_findNextInterval (cachedContent tr) (it_current i) with
      | Some (first, _) => mret (set_it_current (if loc_leb (it_end i) first then it_end i else first) i)
      | None => mret (set_it_current (it_end i) i)
      end
    else
      let toLower :=
        target ← it_findPrevGroupCachedPosition i;
        match target with
        | None => mret (set_it_isValid false (set_it_current (Loc 0 0) i))
        | Some l => mret (set_it_current l i)
        end in
      match iset_findNextInterval (cachedContent tr) (it_current i) with
      | Some (first, _) =>
        if group first =? group (it_current i) then mret (set_it_current first i) else toLower
      | None => toLower
      end.

(** [end()]; it also updates the stored end. *)
Definition it_endOf (i : FetchRangeIterator) : M MoqxCache (AbsoluteLocation * FetchRangeIterator) :=
  tr ← getTrack (it_track i);
  past ← (if endOfTrack tr then
            largest ← deref (largestGroupAndObject tr); mret (loc_ltb largest (it_current i))
          else mret false);
  if past || negb (it_isValid i) then mret (it_current i, set_it_end (it_current i) i)
  else if negb (isDescending i) then mret (it_end i, i)
  else
    '(e, cached) ← findGroupEndMaybe i (group (it_end i)) (it_cachedEndGroupId i, it_cachedEndGroupPtr i);
    let i := set_it_cachedEndGroup cached i in
    let i := match e with Some o => set_it_end (Loc (group (it_end i)) o) i | None => i end in
    mret (it_end i, i).
End iterator.

(** ** Ascending order *)
Section ascending.
Context `{LL : LocationLaws} `{!IntervalSetApi} `{IL : !IntervalSetLaws} `{EA : ExtensionsApi}.
Implicit Types (c : MoqxCache) (i : FetchRangeIterator).

Lemma next_some b n : loc_ok b -> next b = Some n ->
  loc_ok n /\ forall l, loc_ok l -> (loc_lt b l <-> loc_le n l).
Proof.
  pose proof kLocationMax_range. rewrite next_spec. intros Hb.
  repeat case_test; intros [= <-]; (split; [loc_lia|intros l Hl; loc_lia]).
Qed.

Lemma next_none b l : loc_ok b -> loc_ok l -> next b = None -> loc_le l b.
Proof. rewrite next_spec. intros Hb Hl. repeat case_test; [done|done|]. loc_lia. Qed.

Lemma filter_length_lt {A} (f g : A -> bool) (l : list A) x :
  (forall y, g y = true -> f y = true) -> x ∈ l -> f x = true -> g x = false ->
  (length (List.filter g l) < length (List.filter f l))%nat.
Proof.
  intros Hgf Hx Hf Hg.
  assert (Hle : forall k : list A, (length (List.filter g k) <= length (List.filter f k))%nat).
  { induction k as [|y k IH]; simpl; [done|]. destruct (g y) eqn:E; [rewrite (Hgf y E)|case_test]; simpl; lia. }
  induction l as [|y l IH]; [by apply elem_of_nil in Hx|].
  apply elem_of_cons in Hx as [<-|Hx]; simpl.
  - rewrite Hf, Hg. simpl. specialize (Hle l). lia.
  - specialize (IH Hx). destruct (g y) eqn:E; [rewrite (Hgf y E)|case_test]; simpl; lia.
Qed.

(** The gap intervals that do not end before [l]. *)
Definition gaps_from (s : ISet) (l : AbsoluteLocation) : list interval :=
  List.filter (fun iv => loc_leb l iv.2) (iset_intervals s).

Lemma getTrack_lookup c t tr : theTracks c !! t = Some tr -> getTrack t c = Some (tr, c).
Proof. intros Ht. unfold getTrack, mbind, M_bind, get, deref. simpl. by rewrite Ht. Qed.

Lemma mbind_some {A B} (m : M MoqxCache A) (k : A -> M MoqxCache B) c a c' :
  m c = Some (a, c') -> (m ≫= k) c = k a c'.
Proof. unfold mbind, M_bind. by intros ->. Qed.

Lemma skipGaps_asc_loop fuel : forall i c tr,
  theTracks c !! it_track i = Some tr -> isDescending i = false -> it_isValid i = true ->
  loc_ok (it_current i) -> loc_ok (it_end i) -> loc_le (it_current i) (it_end i) ->
  (length (gaps_from (gaps tr) (it_current i)) <= fuel)%nat ->
  exists cur, it_skipGaps_loop fuel i c = Some (set_it_current cur i, c) /\ loc_ok cur /\
    loc_le (it_current i) cur /\ loc_le cur (it_end i) /\
    (iset_contains (gaps tr) cur = false \/ cur = it_end i) /\
    forall l, loc_ok l -> loc_le (it_current i) l -> loc_lt l cur -> iset_contains (gaps tr) l = true.
Proof.
  induction fuel as [|fuel IH]; intros i c tr Ht Ho Hv Hc He Hle Hf; simpl;
    rewrite (mbind_some _ _ _ _ _ (getTrack_lookup c _ tr Ht)), Hv; simpl;
    (destruct (iset_contains (gaps tr) (it_current i)) eqn:Eg;
      [|exists (it_current i); split; [by destruct i|]; split_and!; [done|loc_lia|done|by left|];
        intros l _ ? ?; exfalso; loc_lia]);
    destruct (findInterval_contains _ _ Eg) as (a & b & Efi & Ha & Hb & Hin).
  - exfalso. assert (Hin' : In (a, b) (gaps_from (gaps tr) (it_current i))).
    { apply List.filter_In. split; [by apply list_elem_of_In|by apply loc_leb_spec]. }
    destruct (gaps_from _ _); [done|simpl in Hf; lia].
  - rewrite Efi, Ho. simpl. destruct (interval_wf _ _ Hin) as (_ & Hok1 & Hok2). simpl in Hok1, Hok2.
    assert (Hcov : forall l, loc_le (it_current i) l -> loc_le l b -> iset_contains (gaps tr) l = true).
    { intros l H1 H2. eapply (interval_contained _ (a, b)); [done|simpl; loc_lia|done]. }
    assert (Hclamp : (forall l, loc_ok l -> loc_lt l (it_end i) -> loc_le l b) -> exists cur,
      Some (set_it_current (it_end i) i, c) = Some (set_it_current cur i, c) /\ loc_ok cur /\
      loc_le (it_current i) cur /\ loc_le cur (it_end i) /\
      (iset_contains (gaps tr) cur = false \/ cur = it_end i) /\
      forall l, loc_ok l -> loc_le (it_current i) l -> loc_lt l cur -> iset_contains (gaps tr) l = true).
    { intros Hb'. exists (it_end i). split_and!; [done|done|done|loc_lia|by right|]. intros l Hl H1 H2.
      apply Hcov; [done|by apply Hb']. }
    destruct (next b) as [n|] eqn:En.
    2: { apply Hclamp. intros l Hl _. by apply next_none. }
    destruct (next_some b n Hok2 En) as [Hn Hcut].
    destruct (loc_ltb n (it_end i)) eqn:Elt.
    2: { apply Hclamp. intros l Hl Hlt. apply loc_ltb_false in Elt. specialize (Hcut l Hl). loc_lia. }
    apply loc_ltb_spec in Elt. pose proof (proj2 (Hcut n Hn)) as Hbn.
    assert (Hbn' : loc_lt b n) by (apply Hbn; loc_lia).
    destruct (IH (set_it_current n i) c tr) as (cur & H1 & H2 & H3 & H4 & H5 & H6); simpl; try done.
    { loc_lia. }
    { unfold gaps_from in *. enough (length (List.filter (fun iv => loc_leb n iv.2) (iset_intervals (gaps tr))) <
        length (List.filter (fun iv => loc_leb (it_current i) iv.2) (iset_intervals (gaps tr))))%nat by lia.
      apply (filter_length_lt _ _ _ (a, b)); simpl; [|done|by apply loc_leb_spec|by apply loc_leb_false].
      intros [x y]. rewrite !loc_leb_spec. simpl. clear -Hb Hbn'. loc_lia. }
    exists cur. simpl in *. split_and!; [exact H1|done|clear -Hb Hbn' H3; loc_lia|done|done|].
    intros l Hl Hl1 Hl2. destruct (loc_ltb b l) eqn:Ebl.
    + apply H6; [done| |done]. apply Hcut; [done|]. by apply loc_ltb_spec.
    + apply Hcov; [done|]. by apply loc_ltb_false.
Qed.

Lemma skipGaps_asc_run i c tr :
  theTracks c !! it_track i = Some tr -> isDescending i = false -> it_isValid i = true ->
  loc_ok (it_current i) -> loc_ok (it_end i) -> loc_le (it_current i) (it_end i) ->
  exists cur, it_skipGaps i c = Some (set_it_current cur i, c) /\ loc_ok cur /\
    loc_le (it_current i) cur /\ loc_le cur (it_end i) /\
    (iset_contains (gaps tr) cur = false \/ cur = it_end i) /\
    forall l, loc_ok l -> loc_le (it_current i) l -> loc_lt l cur -> iset_contains (gaps tr) l = true.
Proof.
  intros Ht Ho Hv Hc He Hle. unfold it_skipGaps.
  rewrite (mbind_some _ _ _ _ _ (getTrack_lookup c _ tr Ht)). apply skipGaps_asc_loop; try done.
  unfold gaps_from. pose proof (List.filter_length_le (fun iv : interval => loc_leb (it_current i) iv.2)
    (iset_intervals (gaps tr))). rewrite size_spec. lia.
Qed.

(** Ascending order, [skipGaps]: it terminates, everything it steps over is
    a known gap, and it stops at the end of the range or at the first position
    that is not a gap. *)
Theorem skipGaps_asc_exact i c tr :
  theTracks c !! it_track i = Some tr -> isDescending i = false -> it_isValid i = true ->
  loc_ok (it_current i) -> loc_ok (it_end i) -> loc_le (it_current i) (it_end i) ->
  exists cur, it_skipGaps i c = Some (set_it_current cur i, c) /\
    loc_le (it_current i) cur /\ loc_le cur (it_end i) /\
    (iset_contains (gaps tr) cur = false \/ cur = it_end i) /\
    forall l, loc_ok l -> loc_le (it_current i) l -> loc_lt l cur -> iset_contains (gaps tr) l = true.
Proof.
  intros Ht Ho Hv Hc He Hle. destruct (skipGaps_asc_run i c tr Ht Ho Hv Hc He Hle) as (cur & ? & ? & ? & ? & ? & ?).
  by exists cur.
Qed.

Lemma skipUncached_asc_run i c tr :
  theTracks c !! it_track i = Some tr -> isDescending i = false -> it_isValid i = true ->
  loc_lt (it_current i) (it_end i) ->
  exists cur, it_skipUncached i c = Some (set_it_current cur i, c) /\
    (loc_ok (it_current i) -> loc_ok (it_end i) -> loc_ok cur) /\
    loc_le (it_current i) cur /\ loc_le cur (it_end i) /\
    (iset_contains (cachedContent tr) (it_current i) = false -> loc_lt (it_current i) cur) /\
    (iset_contains (cachedContent tr) cur = true \/ cur = it_end i) /\
    forall l, loc_le (it_current i) l -> loc_lt l cur -> iset_contains (cachedContent tr) l = false.
Proof.
  intros Ht Ho Hv Hlt. unfold it_skipUncached. rewrite Hv. simpl.
  replace (loc_eqb (it_current i) (it_end i)) with false by (clear -Hlt; loc_lia).
  rewrite (mbind_some _ _ _ _ _ (getTrack_lookup c _ tr Ht)), Ho. simpl.
  destruct (iset_contains (cachedContent tr) (it_current i)) eqn:Ec.
  { exists (it_current i). split; [by destruct i|]. split_and!; [done|loc_lia|loc_lia|done|by left|].
    intros l ? ?. exfalso. loc_lia. }
  destruct (iset_findNextInterval (cachedContent tr) (it_current i)) as [[a b]|] eqn:En.
  - destruct (findNextInterval_some _ _ _ _ Ec En) as (Ha & Hin & Hbet).
    destruct (interval_wf _ _ Hin) as (Hab & Hoka & _). simpl in Hab, Hoka.
    eexists. split; [done|]. destruct (loc_leb (it_end i) a) eqn:Ee.
    + apply loc_leb_spec in Ee. split_and!; [done|clear -Hlt; loc_lia|clear; loc_lia|done|by right|].
      intros l H1 H2. apply Hbet; [done|clear -Ee H2; loc_lia].
    + apply loc_leb_false in Ee. split_and!; [done|clear -Ha; loc_lia|clear -Ee; loc_lia|done| |done].
      left. eapply (interval_contained _ (a, b)); [done|simpl; clear; loc_lia|done].
  - eexists. split; [done|]. split_and!; [done|clear -Hlt; loc_lia|clear; loc_lia|done|by right|].
    intros l H1 _. by apply (findNextInterval_none _ (it_current i)).
Qed.

(** Ascending order, [skipUncached]: it stops at the first position that is
    cached or a known gap, or at the end of the range; nothing it steps over is
    cached. *)
Theorem skipUncached_asc_exact i c tr :
  theTracks c !! it_track i = Some tr -> isDescending i = false -> it_isValid i = true ->
  loc_lt (it_current i) (it_end i) ->
  exists cur, it_skipUncached i c = Some (set_it_current cur i, c) /\
    loc_le (it_current i) cur /\ loc_le cur (it_end i) /\
    (iset_contains (cachedContent tr) cur = true \/ cur = it_end i) /\
    forall l, loc_le (it_current i) l -> loc_lt l cur -> iset_contains (cachedContent tr) l = false.
Proof.
  intros Ht Ho Hv Hlt.
  destruct (skipUncached_asc_run i c tr Ht Ho Hv Hlt) as (cur & H1 & _ & H2 & H3 & _ & H4 & H5).
  by exists cur.
Qed.

(** The largest cached object bounds the complete entries of its group. *)
Definition group_max_ok (g : CacheGroup) : Prop :=
  0 <= maxCachedObject g <= object kLocationMax /\
  forall o e, objects g !! o = Some e -> ce_complete e = true -> o <= maxCachedObject g.

(** What the iterator relies on: groups it can reach are alive, and the group it
    remembers is the one the track holds (the maximum stands for none). *)
Record iter_ok c tr i : Prop := {
  io_groups gid r : groups tr !! gid = Some r -> exists g, theGroups c !! r = Some g /\ group_max_ok g;
  io_fresh : it_cachedGroupId i <> group kLocationMax -> it_cachedGroupPtr i = groups tr !! it_cachedGroupId i;
}.

(** No complete object is cached at [l]. *)
Definition not_cached c tr (l : AbsoluteLocation) : Prop :=
  forall r g e, groups tr !! group l = Some r -> theGroups c !! r = Some g ->
    objects g !! object l = Some e -> ce_complete e = false.

(** The walk leaves a group after [cur]: [l] is past what the group can hold. *)
Definition beyond c tr (cur l : AbsoluteLocation) : Prop :=
  forall r, groups tr !! group l = Some r -> exists g, theGroups c !! r = Some g /\ group_max_ok g /\
    maxCachedObject g < object l /\ (endOfGroup g = true \/ maxCachedObject g < object cur).

Lemma beyond_not_cached c tr cur l : beyond c tr cur l -> not_cached c tr l.
Proof.
  intros Hb r g e Hr Hg He. destruct (Hb r Hr) as (g' & Hg' & [_ Hm] & Hlt & _).
  assert (g' = g) as -> by congruence. destruct (ce_complete e) eqn:Ec; [|done]. specialize (Hm _ _ He Ec). lia.
Qed.

(** The end of a group that is not the last of the range. *)
Lemma findGroupEnd_inner i c tr gid cached :
  theTracks c !! it_track i = Some tr -> (gid =? group (it_maxLocation i)) = false ->
  (forall r, groups tr !! gid = Some r -> exists g, theGroups c !! r = Some g) ->
  (cached.1 = gid -> cached.2 = groups tr !! gid) ->
  exists cached', findGroupEndMaybe i gid cached c = Some ((
    (match groups tr !! gid with
     | Some r => (fun g => knownGroupEnd (gid =? group (it_minLocation i)) (isDescending i) g) <$> theGroups c !! r
     | None => None
     end), cached'), c) /\ cached'.2 = groups tr !! cached'.1.
Proof.
  intros Ht Hl Hgs Hfr. unfold findGroupEndMaybe. rewrite Hl.
  rewrite (mbind_some _ _ _ _ _ (getTrack_lookup c _ tr Ht)).
  set (cached' := if negb (cached.1 =? gid) then (gid, groups tr !! gid) else cached).
  assert (Hptr : cached'.2 = groups tr !! gid).
  { unfold cached'. destruct (cached.1 =? gid) eqn:E; simpl; [|done]. apply Hfr. lia. }
  assert (Hid : cached'.1 = gid) by (unfold cached'; destruct (cached.1 =? gid) eqn:E; simpl; [lia|done]).
  exists cached'. rewrite Hid. split; [|done].
  clearbody cached'. rewrite Hptr. destruct (groups tr !! gid) as [r|] eqn:Er; [|done].
  destruct (Hgs r) as [g Hg]; [done|].
  assert (Hrun : getGroup r c = Some (g, c)) by (unfold getGroup, mbind, M_bind, get, deref; simpl; by rewrite Hg).
  by rewrite (mbind_some _ _ _ _ _ Hrun), Hg.
Qed.

Lemma knownGroupEnd_asc isFirst g :
  group_max_ok g -> maxCachedObject g <= knownGroupEnd isFirst false g <= object kLocationMax /\
    (endOfGroup g = true \/ maxCachedObject g < knownGroupEnd isFirst false g \/
     knownGroupEnd isFirst false g = object kLocationMax).
Proof. intros [Hm _]. unfold knownGroupEnd. rewrite andb_false_r. repeat case_test; lia. Qed.

Lemma advanceOne_asc i c tr :
  theTracks c !! it_track i = Some tr -> isDescending i = false -> it_isValid i = true ->
  loc_ok (it_current i) -> loc_ok (it_end i) -> it_end i = it_maxLocation i ->
  loc_lt (it_current i) (it_end i) -> iter_ok c tr i ->
  exists cur cached, it_advanceOne i c = Some (set_it_current cur (set_it_cachedGroup cached i), c) /\
    (cached.1 <> group kLocationMax -> cached.2 = groups tr !! cached.1) /\
    loc_ok cur /\ loc_lt (it_current i) cur /\ loc_le cur (it_end i) /\
    forall l, loc_ok l -> loc_lt (it_current i) l -> loc_lt l cur ->
      group l = group (it_current i) /\ beyond c tr (it_current i) l.
Proof.
  intros Ht Ho Hv Hc He Hmax Hlt [Hgs Hfr]. pose proof kLocationMax_range as Hk.
  unfold it_advanceOne. rewrite Hv. simpl.
  replace (loc_eqb (it_current i) (it_end i)) with false by (clear -Hlt; loc_lia).
  destruct (group (it_current i) =? group (it_maxLocation i)) eqn:Eg.
  { unfold findGroupEndMaybe. rewrite Ho, Eg. erewrite mbind_some by done. simpl.
    replace (object (it_current i) <? object (it_maxLocation i)) with true
      by (rewrite <- Hmax in *; clear -Hlt Eg; loc_lia).
    eexists _, _. split; [done|]. split; [exact Hfr|]. rewrite <- Hmax in Eg. split_and!.
    - clear -Hc He Hlt Eg Hk. loc_lia.
    - clear. loc_lia.
    - clear -Hlt Eg. loc_lia.
    - intros l _ H1 H2. exfalso. clear -H1 H2. loc_lia. }
  destruct (findGroupEnd_inner i c tr (group (it_current i)) (it_cachedGroupId i, it_cachedGroupPtr i) Ht Eg) as
    (cached & Hrun & Hcached).
  { intros r Hr; destruct (Hgs _ _ Hr) as (g & ? & _); eauto. }
  { simpl. intros Heq. rewrite <- Heq. apply Hfr. rewrite Heq. rewrite <- Hmax in *.
    clear -Hc He Hlt Eg. loc_lia. }
  rewrite (mbind_some _ _ _ _ _ Hrun). clear Hrun Hfr. simpl.
  change (isDescending (set_it_cachedGroup cached i)) with (isDescending i). rewrite Ho.
  rewrite <- Hmax in Eg.
  destruct (groups tr !! group (it_current i)) as [r|] eqn:Er.
  2: { eexists _, _. split; [done|]. split; [done|].
       split_and!; [clear -Hc He Hlt Eg Hk; loc_lia|clear; loc_lia|clear -Hc He Hlt Eg; loc_lia|].
       intros l Hl Hl1 Hl2. assert (group l = group (it_current i)) as El by (clear -Hl Hl1 Hl2; loc_lia).
       split; [done|]. intros r' Hr'. congruence. }
  destruct (Hgs _ _ Er) as (g & Hg & Hm). rewrite Hg. simpl.
  pose proof (knownGroupEnd_asc (group (it_current i) =? group (it_minLocation i)) g Hm) as [Hend Hopen].
  set (e := knownGroupEnd _ _ g) in *. destruct (object (it_current i) <? e) eqn:Elt; (eexists _, _; split; [done|]; split; [done|]).
  - split_and!; [clear -Hc Hend Elt; loc_lia|clear; loc_lia|clear -Hlt Eg; loc_lia|].
    intros l _ H1 H2. exfalso. clear -H1 H2. loc_lia.
  - split_and!; [clear -Hc He Hlt Eg Hk; loc_lia|clear; loc_lia|clear -Hc He Hlt Eg; loc_lia|].
    intros l Hl Hl1 Hl2.
    assert (group l = group (it_current i)) as El by (clear -Hl Hl1 Hl2; loc_lia).
    split; [done|]. intros r' Hr'. assert (r' = r) as -> by congruence. exists g.
    assert (object (it_current i) < object l) by (clear -Hl1 El; loc_lia).
    split_and!; [done|done|lia|]. destruct (endOfGroup g); [by left|right].
    destruct Hopen as [?|Hopen]; [done|]. destruct Hl as [_ Hl]. lia.
Qed.

Lemma next_asc_run i c tr :
  theTracks c !! it_track i = Some tr -> isDescending i = false -> it_isValid i = true ->
  loc_ok (it_current i) -> loc_ok (it_end i) -> it_end i = it_maxLocation i ->
  loc_lt (it_current i) (it_end i) -> iter_ok c tr i ->
  exists cur cached, let i' := set_it_current cur (set_it_cachedGroup cached i) in
    it_next i c = Some (i', c) /\ iter_ok c tr i' /\ loc_ok cur /\
    loc_lt (it_current i) cur /\ loc_le cur (it_end i) /\
    (iset_contains (gaps tr) cur = true -> cur = it_end i) /\
    forall l, loc_ok l -> loc_lt (it_current i) l -> loc_lt l cur ->
      iset_contains (gaps tr) l = true \/ (group l = group (it_current i) /\ beyond c tr (it_current i) l).
Proof.
  intros Ht Ho Hv Hc He Hmax Hlt Hok. unfold it_next. rewrite Hv. simpl.
  destruct (advanceOne_asc i c tr Ht Ho Hv Hc He Hmax Hlt Hok) as (cur & cached & H1 & Hfr & H2 & H3 & H4 & H5).
  rewrite (mbind_some _ _ _ _ _ H1). set (i1 := set_it_current cur (set_it_cachedGroup cached i)).
  destruct (skipGaps_asc_run i1 c tr) as (cur2 & G1 & G2 & G3 & G4 & G5 & G6); try done.
  exists cur2, cached. split; [exact G1|]. split; [by constructor; [apply Hok|]|]. simpl in *.
  split_and!; try done; [clear -H3 G3; loc_lia|destruct G5; congruence|].
  intros l Hl Hl1 Hl2. destruct (loc_ltb l cur) eqn:E.
  - right. apply H5; [done|done|by apply loc_ltb_spec].
  - left. apply G6; [done|by apply loc_ltb_false|done].
Qed.

(** (C36) Ascending order, [next]: inside the range it always moves forward and
    never past the end, so a walk terminates; and every position it steps over
    is a known gap or holds no complete object. *)
Theorem next_asc_complete i c tr :
  theTracks c !! it_track i = Some tr -> isDescending i = false -> it_isValid i = true ->
  loc_ok (it_current i) -> loc_ok (it_end i) -> it_end i = it_maxLocation i ->
  loc_lt (it_current i) (it_end i) -> iter_ok c tr i ->
  exists i', it_next i c = Some (i', c) /\ it_isValid i' = true /\ it_end i' = it_end i /\
    loc_lt (it_current i) (it_current i') /\ loc_le (it_current i') (it_end i') /\
    forall l, loc_ok l -> loc_lt (it_current i) l -> loc_lt l (it_current i') ->
      iset_contains (gaps tr) l = true \/ not_cached c tr l.
Proof.
  intros Ht Ho Hv Hc He Hmax Hlt Hok.
  destruct (next_asc_run i c tr Ht Ho Hv Hc He Hmax Hlt Hok) as (cur & cached & H1 & _ & _ & H3 & H4 & _ & H5).
  eexists. split; [exact H1|]. split_and!; try done.
  intros l Hl H1' H2'. destruct (H5 l Hl H1' H2') as [?|[_ Hb]]; [by left|right]. by eapply beyond_not_cached.
Qed.
End ascending.

(** ** Descending order *)
Section descending.
Context `{LL : LocationLaws} `{!IntervalSetApi} `{IL : !IntervalSetLaws} `{EA : ExtensionsApi}.
Implicit Types (c : MoqxCache) (i : FetchRangeIterator).

(** The gap intervals that do not start after [l]. *)
Definition gaps_to (s : ISet) (l : AbsoluteLocation) : list interval :=
  List.filter (fun iv => loc_leb iv.1 l) (iset_intervals s).

(** Where a descending iterator goes from a gap: always to a lower group. *)
Lemma computeDescendingAfterGap_lower cur a mn x :
  loc_le a cur -> computeDescendingAfterGap cur a mn = Some x ->
  group x < group cur /\
  (loc_lt x a \/ (group x = group mn /\ group x = group a /\ object x = object mn)).
Proof.
  intros Ha. unfold computeDescendingAfterGap. rewrite prevGroup_spec.
  destruct ((0 <? object a) && negb (group a =? group cur)) eqn:E.
  - intros [= <-]. destruct (group a =? group mn) eqn:Em; simpl; clear -Ha E Em; loc_lia.
  - destruct (0 <? group a) eqn:Ea; [|done]. simpl. intros [= <-].
    destruct (group a - 1 =? group mn) eqn:Em; simpl; clear -Ha E Em Ea; loc_lia.
Qed.

Lemma skipGaps_desc_loop fuel : forall i c tr,
  theTracks c !! it_track i = Some tr -> isDescending i = true -> it_isValid i = true ->
  loc_le (it_minLocation i) (it_current i) ->
  (length (gaps_to (gaps tr) (it_current i)) +
     (if (group (it_current i) =? group (it_minLocation i))%Z then 0 else 1) <= fuel)%nat ->
  exists cur, it_skipGaps_loop fuel i c = Some (set_it_current cur i, c) /\
    (iset_contains (gaps tr) cur = false \/ cur = it_end i) /\
    (iset_contains (gaps tr) (it_current i) = true -> group cur < group (it_current i) \/ cur = it_end i).
Proof.
  induction fuel as [|fuel IH]; intros i c tr Ht Ho Hv Hmn Hf; simpl;
    rewrite (mbind_some _ _ _ _ _ (getTrack_lookup c _ tr Ht)), Hv; simpl;
    (destruct (iset_contains (gaps tr) (it_current i)) eqn:Eg;
      [|exists (it_current i); split; [by destruct i|]; by split; [left|]]);
    destruct (findInterval_contains _ _ Eg) as (a & b & Efi & Ha & Hb & Hin);
    assert (Hin' : In (a, b) (gaps_to (gaps tr) (it_current i)))
      by (apply List.filter_In; split; [by apply list_elem_of_In|by apply loc_leb_spec]).
  - exfalso. destruct (gaps_to _ _); [done|simpl in Hf; lia].
  - rewrite Efi, Ho. simpl.
    assert (Hclamp : exists cur, Some (set_it_current (it_end i) i, c) = Some (set_it_current cur i, c) /\
      (iset_contains (gaps tr) cur = false \/ cur = it_end i) /\
      (true = true -> group cur < group (it_current i) \/ cur = it_end i)).
    { exists (it_end i). split; [done|]. by split; right. }
    destruct (computeDescendingAfterGap (it_current i) a (it_minLocation i)) as [x|] eqn:Ex; [|done].
    destruct (computeDescendingAfterGap_lower _ _ _ _ Ha Ex) as [Hgrp Hlow].
    destruct (loc_leb (it_minLocation i) x) eqn:Er; [|done]. apply loc_leb_spec in Er.
    destruct (IH (set_it_current x i) c tr) as (cur & H1 & H2 & H3); simpl; try done.
    { assert (Hng : (group (it_current i) =? group (it_minLocation i)) = false) by (clear -Hgrp Er; loc_lia).
      rewrite Hng in Hf. unfold gaps_to in *.
      assert (Hmono : forall y : interval, loc_leb y.1 x = true -> loc_leb y.1 (it_current i) = true).
      { intros y. rewrite !loc_leb_spec. clear -Hgrp. loc_lia. }
      destruct Hlow as [Hlow|(E1 & _)].
      - pose proof (filter_length_lt (fun iv : interval => loc_leb iv.1 (it_current i))
          (fun iv => loc_leb iv.1 x) (iset_intervals (gaps tr)) (a, b) Hmono Hin
          (proj2 (loc_leb_spec _ _) Ha) (proj2 (loc_leb_false _ _) Hlow)) as Hlt.
        destruct (group x =? _); lia.
      - assert (Hle : (length (List.filter (fun iv : interval => loc_leb iv.1 x) (iset_intervals (gaps tr))) <=
          length (List.filter (fun iv : interval => loc_leb iv.1 (it_current i)) (iset_intervals (gaps tr))))%nat).
        { clear -Hmono. induction (iset_intervals (gaps tr)) as [|y k IH]; simpl; [done|].
          destruct (loc_leb y.1 x) eqn:E; [rewrite (Hmono y E)|case_test]; simpl; lia. }
        replace (group x =? group (it_minLocation i)) with true by lia. lia. }
    exists cur. split; [exact H1|]. split; [done|]. intros _.
    destruct (iset_contains (gaps tr) x) eqn:Egx.
    + destruct (H3 Egx) as [Hd|Hd]; [left; simpl in Hd; lia|by right].
    + destruct fuel; simpl in H1; rewrite (mbind_some _ _ _ _ _ (getTrack_lookup c _ tr Ht)) in H1; simpl in H1;
        rewrite Hv, Egx in H1; simpl in H1; injection H1 as <-; left; done.
Qed.

(** Descending order, [skipGaps]: it terminates outside every gap or at the
    end; and from a gap it always leaves the current group, also when the gap
    ends inside that group, so the objects of the group above the gap are not
    visited. *)
Theorem skipGaps_desc_leaves_group i c tr :
  theTracks c !! it_track i = Some tr -> isDescending i = true -> it_isValid i = true ->
  loc_le (it_minLocation i) (it_current i) ->
  exists cur, it_skipGaps i c = Some (set_it_current cur i, c) /\
    (iset_contains (gaps tr) cur = false \/ cur = it_end i) /\
    (iset_contains (gaps tr) (it_current i) = true -> group cur < group (it_current i) \/ cur = it_end i).
Proof.
  intros Ht Ho Hv Hmn. unfold it_skipGaps. rewrite (mbind_some _ _ _ _ _ (getTrack_lookup c _ tr Ht)).
  apply skipGaps_desc_loop; try done. unfold gaps_to.
  pose proof (List.filter_length_le (fun iv : interval => loc_leb iv.1 (it_current i))
    (iset_intervals (gaps tr))). rewrite size_spec. case_test; lia.
Qed.
End descending.
