(* ===== verification/CacheFetchWriteback.v ===== *)
(** The writeback of an upstream FETCH ([MoqxCache::FetchWriteback]): objects
    that upstream sends for a range are cached, the positions it skips are
    recorded as gaps, and everything is forwarded to the consumer.

    [this] is the identity of the writeback; its entry in the multimap of
    fetches in progress is the one that carries it, so the multimap iterator of
    the source is the flag [fw_hasEntry].  The batons are flags ([post] sets
    them), and calls of the consumer are modelled as in [CacheWriteback]. *)

From Stdlib Require Import Init.Byte.
From S2P Require Import Prelude Location CacheRanges CacheState CacheObject CacheEvict CacheWriteback CacheIterator.

Section fetch_writeback.
Context `{LA : LocationApi} `{IA : IntervalSetApi} `{EA : ExtensionsApi}.

(** The calls of moxygen's [FetchConsumer]. *)
Inductive FetchCall :=
| FObject (gID sgID objID : Z) (payload : Payload) (ext : Extensions) (fin isDatagram : bool)
| FCheckpoint
| FBeginObject (gID sgID objID len : Z) (initPayload : Payload) (ext : Extensions)
| FObjectPayload (payload : Payload) (finFetch : bool)
| FEndOfGroup (gID sgID objID : Z) (fin : bool)
| FEndOfTrackAndGroup (gID sgID objID : Z)
| FEndOfFetch
| FEndOfUnknownRange (groupId objectId : Z) (finFetch : bool)
| FReset (error : ResetStreamErrorCode)
| FNone.

Record FetchWriteback := mkFetchWriteback {
  fw_this : wref;
  fw_proxyFin : bool;
  fw_it : FetchRangeIterator;
  fw_ftn : FullTrackName;
  fw_cachingEnabled : bool;
  fw_hasEntry : bool;
  fw_pinnedGroup : option gref;
  fw_inProgress : bool;
  fw_complete : bool;
  fw_currentSubgroup : Z;
  fw_currentLength : Z;
  fw_currentOffset : Z;
  fw_beginObjectAccepted : bool;
  fw_wasReset : bool;
  fw_cancelled : bool;
  fw_upstreamEnd : option AbsoluteLocation;
  fw_largestReceived : option AbsoluteLocation;
  fw_pendingGaps : list interval;
}.

(** Field updates. *)
Definition set_fw_it (v : FetchRangeIterator) (w : FetchWriteback) : FetchWriteback :=
  mkFetchWriteback (fw_this w) (fw_proxyFin w) v (fw_ftn w) (fw_cachingEnabled w) (fw_hasEntry w) (fw_pinnedGroup w) (fw_inProgress w) (fw_complete w) (fw_currentSubgroup w) (fw_currentLength w) (fw_currentOffset w) (fw_beginObjectAccepted w) (fw_wasReset w) (fw_cancelled w) (fw_upstreamEnd w) (fw_largestReceived w) (fw_pendingGaps w).
Definition set_fw_hasEntry (v : bool) (w : FetchWriteback) : FetchWriteback :=
  mkFetchWriteback (fw_this w) (fw_proxyFin w) (fw_it w) (fw_ftn w) (fw_cachingEnabled w) v (fw_pinnedGroup w) (fw_inProgress w) (fw_complete w) (fw_currentSubgroup w) (fw_currentLength w) (fw_currentOffset w) (fw_beginObjectAccepted w) (fw_wasReset w) (fw_cancelled w) (fw_upstreamEnd w) (fw_largestReceived w) (fw_pendingGaps w).
Definition set_fw_pinnedGroup (v : option gref) (w : FetchWriteback) : FetchWriteback :=
  mkFetchWriteback (fw_this w) (fw_proxyFin w) (fw_it w) (fw_ftn w) (fw_cachingEnabled w) (fw_hasEntry w) v (fw_inProgress w) (fw_complete w) (fw_currentSubgroup w) (fw_currentLength w) (fw_currentOffset w) (fw_beginObjectAccepted w) (fw_wasReset w) (fw_cancelled w) (fw_upstreamEnd w) (fw_largestReceived w) (fw_pendingGaps w).
Definition set_fw_inProgress (v : bool) (w : FetchWriteback) : FetchWriteback :=
  mkFetchWriteback (fw_this w) (fw_proxyFin w) (fw_it w) (fw_ftn w) (fw_cachingEnabled w) (fw_hasEntry w) (fw_pinnedGroup w) v (fw_complete w) (fw_currentSubgroup w) (fw_currentLength w) (fw_currentOffset w) (fw_beginObjectAccepted w) (fw_wasReset w) (fw_cancelled w) (fw_upstreamEnd w) (fw_largestReceived w) (fw_pendingGaps w).
Definition set_fw_complete (v : bool) (w : FetchWriteback) : FetchWriteback :=
  mkFetchWriteback (fw_this w) (fw_proxyFin w) (fw_it w) (fw_ftn w) (fw_cachingEnabled w) (fw_hasEntry w) (fw_pinnedGroup w) (fw_inProgress w) v (fw_currentSubgroup w) (fw_currentLength w) (fw_currentOffset w) (fw_beginObjectAccepted w) (fw_wasReset w) (fw_cancelled w) (fw_upstreamEnd w) (fw_largestReceived w) (fw_pendingGaps w).
Definition set_fw_currentSubgroup (v : Z) (w : FetchWriteback) : FetchWriteback :=
  mkFetchWriteback (fw_this w) (fw_proxyFin w) (fw_it w) (fw_ftn w) (fw_cachingEnabled w) (fw_hasEntry w) (fw_pinnedGroup w) (fw_inProgress w) (fw_complete w) v (fw_currentLength w) (fw_currentOffset w) (fw_beginObjectAccepted w) (fw_wasReset w) (fw_cancelled w) (fw_upstreamEnd w) (fw_largestReceived w) (fw_pendingGaps w).
Definition set_fw_currentLength (v : Z) (w : FetchWriteback) : FetchWriteback :=
  mkFetchWriteback (fw_this w) (fw_proxyFin w) (fw_it w) (fw_ftn w) (fw_cachingEnabled w) (fw_hasEntry w) (fw_pinnedGroup w) (fw_inProgress w) (fw_complete w) (fw_currentSubgroup w) v (fw_currentOffset w) (fw_beginObjectAccepted w) (fw_wasReset w) (fw_cancelled w) (fw_upstreamEnd w) (fw_largestReceived w) (fw_pendingGaps w).
Definition set_fw_currentOffset (v : Z) (w : FetchWriteback) : FetchWriteback :=
  mkFetchWriteback (fw_this w) (fw_proxyFin w) (fw_it w) (fw_ftn w) (fw_cachingEnabled w) (fw_hasEntry w) (fw_pinnedGroup w) (fw_inProgress w) (fw_complete w) (fw_currentSubgroup w) (fw_currentLength w) v (fw_beginObjectAccepted w) (fw_wasReset w) (fw_cancelled w) (fw_upstreamEnd w) (fw_largestReceived w) (fw_pendingGaps w).
Definition set_fw_beginObjectAccepted (v : bool) (w : FetchWriteback) : FetchWriteback :=
  mkFetchWriteback (fw_this w) (fw_proxyFin w) (fw_it w) (fw_ftn w) (fw_cachingEnabled w) (fw_hasEntry w) (fw_pinnedGroup w) (fw_inProgress w) (fw_complete w) (fw_currentSubgroup w) (fw_currentLength w) (fw_currentOffset w) v (fw_wasReset w) (fw_cancelled w) (fw_upstreamEnd w) (fw_largestReceived w) (fw_pendingGaps w).
Definition set_fw_wasReset (v : bool) (w : FetchWriteback) : FetchWriteback :=
  mkFetchWriteback (fw_this w) (fw_proxyFin w) (fw_it w) (fw_ftn w) (fw_cachingEnabled w) (fw_hasEntry w) (fw_pinnedGroup w) (fw_inProgress w) (fw_complete w) (fw_currentSubgroup w) (fw_currentLength w) (fw_currentOffset w) (fw_beginObjectAccepted w) v (fw_cancelled w) (fw_upstreamEnd w) (fw_largestReceived w) (fw_pendingGaps w).
Definition set_fw_cancelled (v : bool) (w : FetchWriteback) : FetchWriteback :=
  mkFetchWriteback (fw_this w) (fw_proxyFin w) (fw_it w) (fw_ftn w) (fw_cachingEnabled w) (fw_hasEntry w) (fw_pinnedGroup w) (fw_inProgress w) (fw_complete w) (fw_currentSubgroup w) (fw_currentLength w) (fw_currentOffset w) (fw_beginObjectAccepted w) (fw_wasReset w) v (fw_upstreamEnd w) (fw_largestReceived w) (fw_pendingGaps w).
Definition set_fw_upstreamEnd (v : option AbsoluteLocation) (w : FetchWriteback) : FetchWriteback :=
  mkFetchWriteback (fw_this w) (fw_proxyFin w) (fw_it w) (fw_ftn w) (fw_cachingEnabled w) (fw_hasEntry w) (fw_pinnedGroup w) (fw_inProgress w) (fw_complete w) (fw_currentSubgroup w) (fw_currentLength w) (fw_currentOffset w) (fw_beginObjectAccepted w) (fw_wasReset w) (fw_cancelled w) v (fw_largestReceived w) (fw_pendingGaps w).
Definition set_fw_largestReceived (v : option AbsoluteLocation) (w : FetchWriteback) : FetchWriteback :=
  mkFetchWriteback (fw_this w) (fw_proxyFin w) (fw_it w) (fw_ftn w) (fw_cachingEnabled w) (fw_hasEntry w) (fw_pinnedGroup w) (fw_inProgress w) (fw_complete w) (fw_currentSubgroup w) (fw_currentLength w) (fw_currentOffset w) (fw_beginObjectAccepted w) (fw_wasReset w) (fw_cancelled w) (fw_upstreamEnd w) v (fw_pendingGaps w).
Definition set_fw_pendingGaps (v : list interval) (w : FetchWriteback) : FetchWriteback :=
  mkFetchWriteback (fw_this w) (fw_proxyFin w) (fw_it w) (fw_ftn w) (fw_cachingEnabled w) (fw_hasEntry w) (fw_pinnedGroup w) (fw_inProgress w) (fw_complete w) (fw_currentSubgroup w) (fw_currentLength w) (fw_currentOffset w) (fw_beginObjectAccepted w) (fw_wasReset w) (fw_cancelled w) (fw_upstreamEnd w) (fw_largestReceived w) v.

Definition fw_track (w : FetchWriteback) : tref := it_track (fw_it w).

(** [multimap::emplace]: after every entry with a key not above the new one. *)
Fixpoint mm_emplace (k : AbsoluteLocation) (e : FetchInProgressEntry)
    (m : list (AbsoluteLocation * FetchInProgressEntry)) : list (AbsoluteLocation * FetchInProgressEntry) :=
  match m with
  | [] => [(k, e)]
  | (k', e') :: m' => if loc_leb k' k then (k', e') :: mm_emplace k e m' else (k, e) :: m
  end.
Definition mm_find (this : wref) (m : list (AbsoluteLocation * FetchInProgressEntry)) :=
  List.find (fun x => fip_writeback x.2 =? this) m.
Definition mm_erase (this : wref) (m : list (AbsoluteLocation * FetchInProgressEntry)) :=
  List.filter (fun x => negb (fip_writeback x.2 =? this)) m.
Definition mm_setProgress (this : wref) (loc : AbsoluteLocation) (m : list (AbsoluteLocation * FetchInProgressEntry)) :=
  map (fun x => if fip_writeback x.2 =? this
                then (x.1, mkFetchInProgress (fip_end x.2) loc (fip_writeback x.2)) else x) m.

Definition emplaceAndPinGroup (w : FetchWriteback) (loc : AbsoluteLocation) (entry : FetchInProgressEntry)
  : M MoqxCache FetchWriteback :=
  let t := fw_track w in
  modTrack t (fun tr => set_fetchesInProgress (mm_emplace loc entry (fetchesInProgress tr)) tr);;
  tr ← getTrack t;
  r ← match groups tr !! group loc with
      | Some r => mret r
      | None =>
        evictOldestGroupsIfNeeded t;;
        r ← makeGroup;
        modTrack t (fun tr => set_groups (<[group loc:=r]> (groups tr)) tr);;
        mret r
      end;
  pinGroup r t;;
  mret (set_fw_pinnedGroup (Some r) (set_fw_hasEntry true w)).

Definition eraseAndMakeGroupEvictable (w : FetchWriteback) : M MoqxCache FetchWriteback :=
  if negb (fw_hasEntry w) then mret w
  else
    let t := fw_track w in
    tr ← getTrack t;
    e ← deref (mm_find (fw_this w) (fetchesInProgress tr));
    let groupID := group e.1 in
    modTrack t (fun tr => set_fetchesInProgress (mm_erase (fw_this w) (fetchesInProgress tr)) tr);;
    let w := set_fw_hasEntry false w in
    match fw_pinnedGroup w with
    | Some r => unpinGroup (fw_ftn w) groupID r t;; mret (set_fw_pinnedGroup None w)
    | None => mret w
    end.

Definition newFetchWriteback (this : wref) (proxyFin : bool) (it : FetchRangeIterator) (ftn : FullTrackName)
  : M MoqxCache FetchWriteback :=
  let t := it_track it in
  tr ← getTrack t;
  let cachingEnabled := negb (shouldSkipCaching tr) in
  let w := mkFetchWriteback this proxyFin it ftn cachingEnabled false None false false 0 0 0 false false false
             None None [] in
  removeTrackFromLRU t;;
  if cachingEnabled then
    let start := it_minLocation it in
    emplaceAndPinGroup w start (mkFetchInProgress (it_maxLocation it) start this)
  else mret w.

Definition closeFetchWriteback (w : FetchWriteback) : M MoqxCache FetchWriteback :=
  let w := set_fw_inProgress true w in
  w ← eraseAndMakeGroupEvictable w;
  let w := set_fw_cancelled true w in
  onTrackBecameEvictable (fw_ftn w);;
  mret w.

Definition updateInProgress (w : FetchWriteback) : M MoqxCache FetchWriteback :=
  let w := set_fw_inProgress true w in
  if it_isValid (fw_it w) then
    let current := it_current (fw_it w) in
    w ← (if fw_hasEntry w then
           let t := fw_track w in
           modTrack t (fun tr => set_fetchesInProgress
             (mm_setProgress (fw_this w) current (fetchesInProgress tr)) tr);;
           tr ← getTrack t;
           e ← deref (mm_find (fw_this w) (fetchesInProgress tr));
           if group e.1 <? group current then
             if loc_ltb current (it_maxLocation (fw_it w)) then
               w ← eraseAndMakeGroupEvictable w;
               emplaceAndPinGroup w current e.2
             else eraseAndMakeGroupEvictable w
           else mret w
         else mret w);
    mret (set_fw_inProgress false w)
  else if fw_hasEntry w then eraseAndMakeGroupEvictable w
  else mret w.

(** The condition of the loop in [waitFor]: the caller waits while it holds. *)
Definition mustWaitFor (w : FetchWriteback) (loc : AbsoluteLocation) : bool :=
  negb (loc_leb (it_maxLocation (fw_it w)) loc) &&
  (negb (fw_cancelled w) && it_isValid (fw_it w) && loc_leb (it_current (fw_it w)) loc).

Definition skipCaching (w : FetchWriteback) : M MoqxCache bool :=
  tr ← getTrack (fw_track w); mret (negb (fw_cachingEnabled w) || evicted tr).

Definition checkInRange (w : FetchWriteback) (loc : AbsoluteLocation) : result MoQPublishError unit :=
  if loc_ltb loc (it_minLocation (fw_it w)) || loc_leb (it_maxLocation (fw_it w)) loc
  then Err (malformed "Object outside fetch range") else Ok tt.

(** [FetchWriteback::insertGap], the inclusive range [start, end]. *)
Definition fw_insertGap (w : FetchWriteback) (start end_ : AbsoluteLocation) : M MoqxCache FetchWriteback :=
  let t := fw_track w in
  match fw_upstreamEnd w with
  | None =>
    match fw_largestReceived w with
    | Some lr =>
      if loc_ltb start lr then
        p ← deref (prev lr);
        let finalEnd := loc_min end_ p in
        modTrack t (insertGap start finalEnd);;
        if loc_eqb finalEnd end_ then mret w
        else
          start ← deref (next finalEnd);
          mret (set_fw_pendingGaps (fw_pendingGaps w ++ [(start, end_)]) w)
      else mret (set_fw_pendingGaps (fw_pendingGaps w ++ [(start, end_)]) w)
    | None => mret (set_fw_pendingGaps (fw_pendingGaps w ++ [(start, end_)]) w)
    end
  | Some ue =>
    if loc_leb ue start then mret w
    else
      p ← deref (prev ue);
      modTrack t (insertGap start (loc_min end_ p));; mret w
  end.

Fixpoint fw_insertGaps (w : FetchWriteback) (ranges : list interval) : M MoqxCache FetchWriteback :=
  match ranges with
  | [] => mret w
  | (a, b) :: ranges => w ← fw_insertGap w a b; fw_insertGaps w ranges
  end.

Definition setUpstreamEnd (w : FetchWriteback) (end_ : AbsoluteLocation) : M MoqxCache FetchWriteback :=
  let w := set_fw_upstreamEnd (Some end_) w in
  fw_insertGaps (set_fw_pendingGaps [] w) (fw_pendingGaps w).

Definition markNonExistentTo (w : FetchWriteback) (target : AbsoluteLocation) : M MoqxCache FetchWriteback :=
  let it := fw_it w in
  if loc_eqb (it_current it) target then mret w
  else
    ranges ← deref (getGapRanges (it_current it) target (it_order it) (it_minLocation it) (it_maxLocation it));
    w ← fw_insertGaps w ranges;
    it ← it_advanceTo (fw_it w) target;
    mret (set_fw_it it w).

Definition finishRange (w : FetchWriteback) : M MoqxCache FetchWriteback :=
  '(e, it) ← it_endOf (fw_it w);
  w ← markNonExistentTo (set_fw_it it w) e;
  mret (set_fw_it (it_invalidate (fw_it w)) w).

Definition onFetchStreamEnd (w : FetchWriteback) : M MoqxCache FetchWriteback :=
  skip ← skipCaching w;
  w ← (if skip : bool then mret (set_fw_it (it_invalidate (fw_it w)) w) else finishRange w);
  w ← updateInProgress w;
  mret (set_fw_complete true w).

Definition fw_reset (w : FetchWriteback) : M MoqxCache FetchWriteback :=
  let w := set_fw_complete true (set_fw_wasReset true w) in
  updateInProgress (set_fw_it (it_invalidate (fw_it w)) w).

Definition cacheImpl (w : FetchWriteback) (groupID subgroupID objectID : Z) (status : ObjectStatus)
    (ext : Extensions) (payload : Payload) (complete finFetch isDatagram : bool) (now : Z)
  : M MoqxCache (result MoQPublishError unit * FetchWriteback) :=
  let t := fw_track w in
  r ← getOrCreateGroupWithEviction t groupID (fw_ftn w);
  cacheRes ← cacheObjectAndUpdateBytes r t groupID subgroupID objectID status ext payload complete
               isDatagram now 0;
  let loc := Loc groupID objectID in
  let w := if match fw_largestReceived w with None => true | Some lr => loc_ltb lr loc end
           then set_fw_largestReceived (Some loc) w else w in
  w ← markNonExistentTo w loc;
  match cacheRes with
  | Err e => w ← updateInProgress w; mret (Err e, w)
  | Ok _ =>
    res ← updateLargestM t loc (isEndOfTrack status);
    match res with
    | Err e => w ← updateInProgress w; mret (Err e, w)
    | Ok _ =>
      if complete then
        it ← it_next (fw_it w);
        w ← updateInProgress (set_fw_it it w);
        if finFetch then
          w ← finishRange w;
          w ← updateInProgress w;
          mret (Ok tt, set_fw_complete true w)
        else mret (Ok tt, w)
      else mret (Ok tt, w)
    end
  end.

(** The handlers.  [Refuse] here carries the reset that [fw_reset] sent. *)
Definition fw_object (w : FetchWriteback) (gID sgID objID : Z) (payload : Payload) (ext : Extensions)
    (fin isDatagram : bool) (now : Z) : M MoqxCache (Outcome FetchCall * FetchWriteback) :=
  let call := FObject gID sgID objID payload ext (fin && fw_proxyFin w) isDatagram in
  match checkInRange w (Loc gID objID) with
  | Err e => mret (Refuse None e, w)
  | Ok _ =>
    skip ← skipCaching w;
    if skip : bool then
      w ← (if fin then onFetchStreamEnd w else mret w);
      mret (Forward call, w)
    else
      '(res, w) ← cacheImpl w gID sgID objID NORMAL ext payload true fin isDatagram now;
      mret (match res with Err e => Refuse None e | Ok _ => Forward call end, w)
  end.

Definition fw_beginObject (w : FetchWriteback) (gID sgID objID len : Z) (initPayload : Payload)
    (ext : Extensions) (now : Z) : M MoqxCache (Outcome FetchCall * FetchWriteback) :=
  let call := FBeginObject gID sgID objID len initPayload ext in
  let inRange := checkInRange w (Loc gID objID) in
  let w := set_fw_beginObjectAccepted (is_Ok inRange) w in
  match inRange with
  | Err e => mret (Refuse None e, w)
  | Ok _ =>
    skip ← skipCaching w;
    if skip : bool then mret (Forward call, w)
    else
      let initBytes := payloadLength initPayload in
      xcheck (initBytes <=? len);;
      '(res, w) ← cacheImpl w gID sgID objID NORMAL ext initPayload (initBytes =? len) false false now;
      match res with
      | Err e => mret (Refuse None e, w)
      | Ok _ => mret (Forward call,
                  set_fw_currentOffset initBytes (set_fw_currentLength len (set_fw_currentSubgroup sgID w)))
      end
  end.

Definition fw_objectPayload (w : FetchWriteback) (payload : Payload) (finFetch : bool) (now : Z)
  : M MoqxCache (Outcome FetchCall * FetchWriteback) :=
  let call := FObjectPayload payload (finFetch && fw_proxyFin w) in
  if negb (fw_beginObjectAccepted w)
  then mret (Refuse None (malformed "Payload without beginObject"), w)
  else
    skip ← skipCaching w;
    if skip : bool then
      w ← (if finFetch then onFetchStreamEnd w else mret w);
      mret (Forward call, w)
    else
      bytes ← deref payload;
      let addedBytes := Z.of_nat (length bytes) in
      let end_ := u64 (fw_currentOffset w + addedBytes) in
      if fw_currentLength w <? end_ then
        w ← fw_reset w;
        mret (Refuse (Some RESET_MALFORMED_TRACK) (malformed "Payload past object length"), w)
      else
        let objectComplete := end_ =? fw_currentLength w in
        let t := fw_track w in
        let cur := it_current (fw_it w) in
        tr ← getTrack t;
        cacheRes ← match groups tr !! group cur with
                   | Some r =>
                     cacheObjectAndUpdateBytes r t (group cur) (fw_currentSubgroup w) (object cur) NORMAL
                       noExtensions payload objectComplete false now (fw_currentOffset w)
                   | None => mret (Ok tt)
                   end;
        match cacheRes with
        | Err e => mret (Refuse None e, w)
        | Ok _ =>
          let w := set_fw_currentOffset end_ w in
          w ← (if objectComplete || finFetch then
                 it ← it_next (fw_it w);
                 let w := set_fw_it it w in
                 w ← (if finFetch then finishRange w else mret w);
                 updateInProgress w
               else mret w);
          mret (Forward call, w)
        end.

Definition fw_endOfGroup (w : FetchWriteback) (gID sgID objID : Z) (fin : bool) (now : Z)
  : M MoqxCache (Outcome FetchCall * FetchWriteback) :=
  let call := FEndOfGroup gID sgID objID (fin && fw_proxyFin w) in
  match checkInRange w (Loc gID objID) with
  | Err e => mret (Refuse None e, w)
  | Ok _ =>
    skip ← skipCaching w;
    if skip : bool then
      w ← (if fin then onFetchStreamEnd w else mret w);
      mret (Forward call, w)
    else
      '(res, w) ← cacheImpl w gID sgID objID END_OF_GROUP noExtensions None true fin false now;
      mret (match res with Err e => Refuse None e | Ok _ => Forward call end, w)
  end.

Definition fw_endOfTrackAndGroup (w : FetchWriteback) (gID sgID objID : Z) (now : Z)
  : M MoqxCache (Outcome FetchCall * FetchWriteback) :=
  let call := FEndOfTrackAndGroup gID sgID objID in
  match checkInRange w (Loc gID objID) with
  | Err e => mret (Refuse None e, w)
  | Ok _ =>
    skip ← skipCaching w;
    if skip : bool then w ← onFetchStreamEnd w; mret (Forward call, w)
    else
      '(res, w) ← cacheImpl w gID sgID objID END_OF_TRACK noExtensions None true true false now;
      mret (match res with Err e => Refuse None e | Ok _ => Forward call end, w)
  end.

Definition fw_endOfFetch (w : FetchWriteback) : M MoqxCache (Outcome FetchCall * FetchWriteback) :=
  w ← onFetchStreamEnd w;
  mret (Forward (if fw_proxyFin w then FEndOfFetch else FNone), w).

Definition fw_endOfUnknownRange (w : FetchWriteback) (groupId objectId : Z) (finFetch : bool)
  : M MoqxCache (Outcome FetchCall * FetchWriteback) :=
  it ← it_advanceTo (fw_it w) (Loc groupId objectId);
  it ← it_next it;
  w ← updateInProgress (set_fw_it it w);
  let w := if finFetch then set_fw_complete true w else w in
  mret (Forward (FEndOfUnknownRange groupId objectId (finFetch && fw_proxyFin w)), w).
End fetch_writeback.

(** ** Gaps inferred from a fetch *)
Section fetch_gaps.
Context `{LL : LocationLaws} `{!IntervalSetApi} `{IL : !IntervalSetLaws} `{EA : ExtensionsApi}.
Implicit Types (c : MoqxCache) (w : FetchWriteback).

Lemma insertGap_gaps tr a b l :
  loc_ok a -> loc_ok b -> loc_le a b -> loc_ok l ->
  iset_contains (gaps (insertGap a b tr)) l = true ->
  iset_contains (gaps tr) l = true \/ in_interval l (a, b) = true.
Proof.
  intros Ha Hb Hab Hl. unfold insertGap.
  match goal with |- context [enforceGapLimit ?x] => destruct (enforceGapLimit_spec x) as (_ & H2 & _) end.
  intros Hg. specialize (H2 l Hl Hg). simpl in H2. rewrite contains_insert in H2 by done.
  by apply orb_true_iff.
Qed.

Lemma modTrack_run c t tr f : theTracks c !! t = Some tr ->
  modTrack t f c = Some (tt, set_theTracks (<[t:=f tr]> (theTracks c)) c).
Proof. intros Ht. unfold modTrack. by rewrite (mbind_some _ _ _ _ _ (getTrack_lookup c t tr Ht)). Qed.

Definition range_ok (iv : interval) : Prop := loc_ok iv.1 /\ loc_ok iv.2 /\ loc_le iv.1 iv.2.

(** Below what is known to exist upstream: a position can be recorded as a gap
    only there. *)
Definition below_known w (l : AbsoluteLocation) : Prop :=
  match fw_upstreamEnd w with
  | Some ue => loc_lt l ue
  | None => exists lr, fw_largestReceived w = Some lr /\ loc_lt l lr
  end.

(** The bounds a writeback has learnt are locations. *)
Definition bounds_ok w : Prop :=
  (forall ue, fw_upstreamEnd w = Some ue -> loc_ok ue) /\
  (forall lr, fw_largestReceived w = Some lr -> loc_ok lr).

(** Nothing but the pending gaps changes in the writeback. *)
Definition gap_step w w' : Prop :=
  exists p, w' = set_fw_pendingGaps (fw_pendingGaps w ++ p) w /\ Forall range_ok p.

Lemma fw_insertGap_run c w tr a b :
  theTracks c !! fw_track w = Some tr -> range_ok (a, b) -> bounds_ok w ->
  exists w' c' tr', fw_insertGap w a b c = Some (w', c') /\ gap_step w w' /\
    theTracks c' !! fw_track w = Some tr' /\
    (forall l, loc_ok l -> iset_contains (gaps tr') l = true ->
       iset_contains (gaps tr) l = true \/ (in_interval l (a, b) = true /\ below_known w l)) /\
    (fw_upstreamEnd w <> None -> w' = w) /\
    (forall l, loc_ok l -> in_interval l (a, b) = true -> fw_upstreamEnd w = None ->
       below_known w l \/ exists p, p ∈ fw_pendingGaps w' /\ in_interval l p = true).
Proof.
  intros Ht (Ha & Hb & Hab) [Hue Hlr]. simpl in Ha, Hb, Hab.
  assert (Hpend : fw_upstreamEnd w = None -> exists w' c' tr',
    (mret (set_fw_pendingGaps (fw_pendingGaps w ++ [(a, b)]) w) : M MoqxCache FetchWriteback) c = Some (w', c') /\ gap_step w w' /\
    theTracks c' !! fw_track w = Some tr' /\
    (forall l, loc_ok l -> iset_contains (gaps tr') l = true ->
       iset_contains (gaps tr) l = true \/ (in_interval l (a, b) = true /\ below_known w l)) /\
    (fw_upstreamEnd w <> None -> w' = w) /\
    (forall l, loc_ok l -> in_interval l (a, b) = true -> fw_upstreamEnd w = None ->
       below_known w l \/ exists p, p ∈ fw_pendingGaps w' /\ in_interval l p = true)).
  { intros Hn. eexists _, c, tr. split; [done|]. split_and!; try done.
    - exists [(a, b)]. split; [done|]. by constructor.
    - auto.
    - intros l _ Hl _. right. exists (a, b). split; [|done]. simpl. apply elem_of_app. right. apply list_elem_of_here. }
  unfold fw_insertGap. destruct (fw_upstreamEnd w) as [ue|] eqn:Eue.
  - specialize (Hue ue eq_refl). clear Hpend.
    destruct (loc_leb ue a) eqn:Ele.
    { exists w, c, tr. split; [done|]. split_and!; try done; [|auto].
      exists []. split; [by destruct w; rewrite app_nil_r|constructor]. }
    apply loc_leb_false in Ele. destruct (prev_cut ue a Hue Ha Ele) as (p & Ep & Hp & Hcut).
    rewrite Ep. erewrite mbind_some by done. rewrite (mbind_some _ _ _ _ _ (modTrack_run c _ tr _ Ht)).
    eexists w, _, _. split; [done|]. split_and!; [|simpl; by rewrite lookup_insert_eq| |done|done].
    { exists []. split; [by destruct w; rewrite app_nil_r|constructor]. }
    intros l Hl Hg. unfold below_known. rewrite Eue.
    apply insertGap_gaps in Hg; try done.
    + destruct Hg as [?|Hg]; [by left|right]. apply in_interval_spec in Hg as [H1 H2]. simpl in H1, H2.
      split; [apply in_interval_spec; simpl; split; [done|clear -H2; loc_lia]|].
      apply Hcut; [done|clear -H2; loc_lia].
    + unfold loc_min. by case_test.
    + apply Hcut in Ele; [|done]. clear -Ele Hab. loc_lia.
  - destruct (fw_largestReceived w) as [lr|] eqn:Elr; [|by apply Hpend].
    destruct (loc_ltb a lr) eqn:Elt; [|by apply Hpend]. clear Hpend. apply loc_ltb_spec in Elt.
    specialize (Hlr lr eq_refl). destruct (prev_cut lr a Hlr Ha Elt) as (p & Ep & Hp & Hcut).
    rewrite Ep. erewrite mbind_some by done. rewrite (mbind_some _ _ _ _ _ (modTrack_run c _ tr _ Ht)).
    set (c1 := set_theTracks _ c).
    assert (Hsound : forall l, loc_ok l -> iset_contains (gaps (insertGap a (loc_min b p) tr)) l = true ->
       iset_contains (gaps tr) l = true \/ (in_interval l (a, b) = true /\ below_known w l)).
    { intros l Hl Hg. unfold below_known. rewrite Eue. apply insertGap_gaps in Hg; try done.
      - destruct Hg as [?|Hg]; [by left|right]. apply in_interval_spec in Hg as [H1 H2]. simpl in H1, H2.
        split; [apply in_interval_spec; simpl; split; [done|clear -H2; loc_lia]|].
        exists lr. split; [done|]. apply Hcut; [done|clear -H2; loc_lia].
      - unfold loc_min. by case_test.
      - apply Hcut in Elt; [|done]. clear -Elt Hab. loc_lia. }
    assert (Ht1 : theTracks c1 !! fw_track w = Some (insertGap a (loc_min b p) tr))
      by (unfold c1; simpl; by rewrite lookup_insert_eq).
    assert (Hbelow : forall l, loc_ok l -> loc_le l p -> below_known w l).
    { intros l Hl Hlp. unfold below_known. rewrite Eue. exists lr. split; [done|]. by apply Hcut. }
    destruct (loc_eqb (loc_min b p) b) eqn:Eq.
    + apply loc_eqb_spec in Eq. exists w, c1, (insertGap a (loc_min b p) tr). split; [done|]. split_and!; try done.
      * exists []. split; [by destruct w; rewrite app_nil_r|constructor].
      * intros l Hl [H1 H2]%in_interval_spec _. left. apply Hbelow; [done|]. simpl in H2. clear -H2 Eq.
        unfold loc_min in Eq. destruct (loc_ltb p b) eqn:E; [subst; done|apply loc_ltb_false in E; loc_lia].
    + assert (Hpb : loc_lt p b).
      { unfold loc_min in Eq. destruct (loc_ltb p b) eqn:E; [by apply loc_ltb_spec|]. clear -Eq. unfold loc_eqb in Eq. lia. }
      assert (Hmin : loc_min b p = p) by (unfold loc_min; by rewrite (proj2 (loc_ltb_spec p b) Hpb)).
      rewrite Hmin in *. destruct (next_cut p b Hp Hb Hpb) as (n & En & Hn & Hncut).
      rewrite En. erewrite mbind_some by done. eexists _, c1, (insertGap a p tr). split; [done|]. split_and!; try done.
      * exists [(n, b)]. split; [done|]. constructor; [|constructor]. split_and!; [done|done|]. simpl. by apply Hncut.
      * intros l Hl [H1 H2]%in_interval_spec _. simpl in H1, H2.
        destruct (loc_ltb p l) eqn:E.
        -- right. exists (n, b). split; [simpl; apply elem_of_app; right; apply list_elem_of_here|].
           apply in_interval_spec. simpl. split; [|done]. apply Hncut; [done|by apply loc_ltb_spec].
        -- left. apply Hbelow; [done|by apply loc_ltb_false].
Qed.

(** Before FETCH_OK, a range that upstream skipped is recorded as a gap only
    below the largest object received so far, and no part of it is lost: every
    position of the range is either below that object or kept pending.  Once
    the End Location is known, gaps are recorded only below it. *)
Theorem fw_insertGap_sound c w tr a b :
  theTracks c !! fw_track w = Some tr -> range_ok (a, b) -> bounds_ok w ->
  exists w' c' tr', fw_insertGap w a b c = Some (w', c') /\ theTracks c' !! fw_track w = Some tr' /\
    (forall l, loc_ok l -> iset_contains (gaps tr') l = true ->
       iset_contains (gaps tr) l = true \/ (in_interval l (a, b) = true /\ below_known w l)) /\
    (forall l, loc_ok l -> in_interval l (a, b) = true -> fw_upstreamEnd w = None ->
       below_known w l \/ exists p, p ∈ fw_pendingGaps w' /\ in_interval l p = true).
Proof.
  intros Ht Hr Hb. destruct (fw_insertGap_run c w tr a b Ht Hr Hb) as (w' & c' & tr' & H1 & _ & H3 & H4 & _ & H6).
  by exists w', c', tr'.
Qed.

Lemma fw_insertGaps_known c w tr ue ranges :
  theTracks c !! fw_track w = Some tr -> fw_upstreamEnd w = Some ue -> bounds_ok w -> Forall range_ok ranges ->
  exists c' tr', fw_insertGaps w ranges c = Some (w, c') /\ theTracks c' !! fw_track w = Some tr' /\
    forall l, loc_ok l -> iset_contains (gaps tr') l = true ->
      iset_contains (gaps tr) l = true \/ (loc_lt l ue /\ exists p, p ∈ ranges /\ in_interval l p = true).
Proof.
  intros Ht Hue Hbd. revert c tr Ht. induction ranges as [|[a b] ranges IH]; intros c tr Ht Hall; simpl.
  { exists c, tr. split_and!; try done. auto. }
  apply Forall_cons in Hall as [Hr Hall].
  destruct (fw_insertGap_run c w tr a b Ht Hr Hbd) as (w' & c1 & tr1 & H1 & _ & H2 & H3 & H4 & _).
  rewrite (mbind_some _ _ _ _ _ H1), H4 by congruence.
  destruct (IH c1 tr1 H2 Hall) as (c' & tr' & G1 & G2 & G3). exists c', tr'. split_and!; try done.
  intros l Hl Hg. destruct (G3 l Hl Hg) as [Hg1|(Hlt & p & Hp & Hin)].
  - destruct (H3 l Hl Hg1) as [?|[Hin Hbk]]; [by left|right]. unfold below_known in Hbk. rewrite Hue in Hbk.
    split; [done|]. exists (a, b). split; [apply list_elem_of_here|done].
  - right. split; [done|]. exists p. split; [by apply list_elem_of_further|done].
Qed.

(** "A short fetch proves non-existence only below the FETCH_OK End
    Location": when the End Location arrives, the pending ranges are settled,
    and the only new gaps are positions of those ranges below it. *)
Theorem setUpstreamEnd_sound c w tr ue :
  theTracks c !! fw_track w = Some tr -> loc_ok ue -> Forall range_ok (fw_pendingGaps w) -> bounds_ok w ->
  exists w' c' tr', setUpstreamEnd w ue c = Some (w', c') /\ theTracks c' !! fw_track w = Some tr' /\
    fw_pendingGaps w' = [] /\ fw_upstreamEnd w' = Some ue /\
    forall l, loc_ok l -> iset_contains (gaps tr') l = true ->
      iset_contains (gaps tr) l = true \/
      (loc_lt l ue /\ exists p, p ∈ fw_pendingGaps w /\ in_interval l p = true).
Proof.
  intros Ht Hue Hp [_ Hlr]. unfold setUpstreamEnd. set (w1 := set_fw_pendingGaps [] (set_fw_upstreamEnd (Some ue) w)).
  destruct (fw_insertGaps_known c w1 tr ue (fw_pendingGaps w)) as (c' & tr' & H1 & H2 & H3); try done.
  { split; [intros ue' [= <-]; done|exact Hlr]. }
  by exists w1, c', tr'.
Qed.
End fetch_gaps.

(** ** Out-of-range data *)
Section fetch_range.
Context `{LA : LocationApi} `{IA : IntervalSetApi} `{EA : ExtensionsApi}.
Implicit Types (c : MoqxCache) (w : FetchWriteback).

(** Upstream may only send what it was asked for: an object or a marker
    outside the requested range is refused as malformed, and neither the cache
    nor the writeback changes and nothing is forwarded; the payload that follows
    a refused object is refused as well. *)
Theorem fw_out_of_range_refused c w gID sgID objID :
  ~ in_range (it_minLocation (fw_it w)) (it_maxLocation (fw_it w)) (Loc gID objID) ->
  exists e, pe_code e = MALFORMED_TRACK /\
    (forall payload ext fin dg now, fw_object w gID sgID objID payload ext fin dg now c = Some ((Refuse None e, w), c)) /\
    (forall fin now, fw_endOfGroup w gID sgID objID fin now c = Some ((Refuse None e, w), c)) /\
    (forall now, fw_endOfTrackAndGroup w gID sgID objID now c = Some ((Refuse None e, w), c)) /\
    (forall len payload ext now, exists w' e',
       fw_beginObject w gID sgID objID len payload ext now c = Some ((Refuse None e, w'), c) /\
       forall payload' fin now', fw_objectPayload w' payload' fin now' c = Some ((Refuse None e', w'), c)).
Proof.
  intros Hout. exists (malformed "Object outside fetch range"). split; [done|].
  assert (Hchk : checkInRange w (Loc gID objID) = Err (malformed "Object outside fetch range")).
  { unfold checkInRange. case_test; [done|]. apply orb_false_iff in Eb as [H1%loc_ltb_false H2%loc_leb_false].
    destruct Hout. by split. }
  split_and!.
  - intros. unfold fw_object. by rewrite Hchk.
  - intros. unfold fw_endOfGroup. by rewrite Hchk.
  - intros. unfold fw_endOfTrackAndGroup. by rewrite Hchk.
  - intros. unfold fw_beginObject. rewrite Hchk. simpl. eexists _, (malformed "Payload without beginObject").
    split; [done|]. intros. done.
Qed.
End fetch_range.
