(* ===== verification/CacheWitness.v ===== *)
(** Concrete runs of the cache model: the hypotheses of the cache theorems hold
    on them.  Locations and interval sets are the reference implementations of
    [Location.Reference]; extensions are lists of (type, value) pairs. *)

From Stdlib Require Import Init.Byte.
From S2P Require Import Prelude Location CacheRanges CacheState CacheObject CacheEvict CacheInv CacheSafety CacheWrite CachePins CacheAlloc CacheWriteback CacheSystem CacheMachine CacheIterator CacheFetchWriteback.
Import Reference.

#[export] Instance extensions_api : ExtensionsApi := {
  Extensions := list (Z * Z);
  noExtensions := [];
  getIntExtension e ty := snd <$> List.find (fun p => p.1 =? ty) e;
  kPriorGroupIdGapExtensionType := 60;
  kPriorObjectIdGapExtensionType := 62;
  kMaxCacheDurationExtensionType := 4;
}.

(** Decides the order and range conditions on concrete locations. *)
Ltac conc :=
  unfold range_ok, bounds_ok, in_range, before, loc_ok, loc_lt, loc_le; simpl; unfold kMax;
  repeat split; lia.

(** ** Ranges *)
Lemma toExclusiveEnd_adjFetchEnd_witness :
  exists w, adjFetchEnd (Loc 3 0) = Some w /\ toExclusiveEnd w = Loc 3 0.
Proof. apply toExclusiveEnd_adjFetchEnd; conc. Defined.

(** A descending miss from {5,2} to a hit at {2,4} of the range {1,3}-{5,8}. *)
Lemma getFetchIntervals_desc_exact_witness :
  fetched (Loc 3 7) (getFetchIntervals (Loc 1 3) (Loc 5 8) (Loc 5 2) (Loc 2 4) NewestFirst false) = true <->
  in_range (Loc 1 3) (Loc 5 8) (Loc 3 7) /\ visited_between NewestFirst (Loc 5 2) (Loc 2 4) (Loc 3 7).
Proof. apply getFetchIntervals_desc_exact; conc. Defined.

Lemma getFetchIntervals_asc_exact_witness :
  fetched (Loc 3 7) (getFetchIntervals (Loc 1 3) (Loc 5 8) (Loc 2 2) (Loc 4 4) OldestFirst false) = true <->
  in_range (Loc 2 2) (Loc 4 4) (Loc 3 7).
Proof. apply (getFetchIntervals_asc_exact (Loc 1 3) (Loc 5 8) (Loc 2 2) (Loc 4 4) OldestFirst false). reflexivity. Defined.

Lemma getFetchIntervals_desc_tail_exact_witness :
  fetched (Loc 2 7) (getFetchIntervals (Loc 1 3) (Loc 5 8) (Loc 4 0) (Loc 0 0) NewestFirst true) = true <->
  in_range (Loc 1 3) (Loc 5 8) (Loc 2 7) /\ (Loc 4 0 = Loc 2 7 \/ before NewestFirst (Loc 4 0) (Loc 2 7)).
Proof. apply getFetchIntervals_desc_tail_exact; conc. Defined.

(** FETCH {0,0}-{3,0}, nothing cached: group 0 is never requested. *)
Lemma getFetchIntervals_desc_tail_skips_group0_witness :
  fetched (Loc 0 5) (getFetchIntervals (Loc 0 0) (Loc 3 0) (Loc 2 0) (Loc 0 0) NewestFirst true) = false.
Proof. apply getFetchIntervals_desc_tail_skips_group0; conc. Defined.

(** FETCH {4,0}-{6,9}, missing from {5,2}: group 1 is requested. *)
Lemma getFetchIntervals_desc_tail_overfetches_witness :
  ~ in_range (Loc 4 0) (Loc 6 9) (Loc 1 5) /\
  fetched (Loc 1 5) (getFetchIntervals (Loc 4 0) (Loc 6 9) (Loc 5 2) (Loc 0 0) NewestFirst true) = true.
Proof. apply (getFetchIntervals_desc_tail_overfetches (Loc 4 0) (Loc 6 9) (Loc 5 2) 5); conc. Defined.

Lemma getGapRanges_exact_witness :
  exists ranges, getGapRanges (Loc 5 2) (Loc 2 4) NewestFirst (Loc 1 3) (Loc 5 8) = Some ranges /\
    forall l, loc_ok l -> marked l ranges = true <->
      in_range (Loc 1 3) (Loc 5 8) l /\ visited_between NewestFirst (Loc 5 2) (Loc 2 4) l.
Proof. apply getGapRanges_exact; conc. Defined.

(** ** One track *)
Definition aTrack : CacheTrack :=
  set_largestGroupAndObject (Some (Loc 3 7)) (insertGap (Loc 2 3) (Loc 2 9) newTrack).

Lemma aTrack_aligned : gaps_aligned aTrack.
Proof.
  unfold aTrack. change (gaps_aligned (insertGap (Loc 2 3) (Loc 2 9) newTrack)).
  intros l Hl. vm_compute. done.
Qed.

Lemma insertGap_correct_witness :
  let tr' := insertGap (Loc 2 5) (Loc 3 4) aTrack in
  iset_size (gaps tr') <= kMaxGapIntervalsPerTrack /\ gaps_aligned tr' /\
  forall l, loc_ok l ->
    (iset_contains (gaps tr') l = true ->
       iset_contains (gaps aTrack) l = true \/ in_interval l (Loc 2 5, Loc 3 4) = true) /\
    (iset_contains (cachedContent aTrack) l = true -> iset_contains (gaps aTrack) l = false ->
       in_interval l (Loc 2 5, Loc 3 4) = false -> iset_contains (cachedContent tr') l = true).
Proof. apply insertGap_correct; [conc|conc|conc|exact aTrack_aligned]. Defined.

Lemma forgetRange_correct_witness :
  let tr' := forgetRange (Loc 2 5) (Loc 2 6) aTrack in
  iset_size (gaps tr') <= kMaxGapIntervalsPerTrack /\ gaps_aligned tr' /\
  forall l, loc_ok l ->
    (in_interval l (Loc 2 5, Loc 2 6) = true -> iset_contains (gaps tr') l = false /\
       iset_contains (cachedContent tr') l = false) /\
    (iset_contains (gaps tr') l = true -> iset_contains (gaps aTrack) l = true) /\
    (iset_contains (cachedContent tr') l = true -> iset_contains (cachedContent aTrack) l = true).
Proof. apply forgetRange_correct; [conc|conc|conc|exact aTrack_aligned]. Defined.

Lemma fetchOkEnd_bounds_witness :
  let r := fetchOkEnd aTrack (Loc 1 0) (Loc 9 0) in
  loc_le (Loc 1 0) r.1 /\ loc_le r.1 (Loc 9 0) /\
  (r.2 = true -> endOfTrack aTrack = true /\ exists l, largestGroupAndObject aTrack = Some l /\
     r.1 = default kLocationMax (next l) /\ loc_lt (Loc 1 0) r.1).
Proof. apply fetchOkEnd_bounds. conc. Defined.

(** ** Copies of one object *)
Definition fullObject : list byte := [x01; x02; x03; x04].

(** A slow copy and a fast copy of the object, interleaved. *)
Definition twoCopies : list write := [
  mkWrite 0 NORMAL [] (Some [x01; x02]) false false 10 0;
  mkWrite 0 NORMAL [] (Some [x01]) false false 11 0;
  mkWrite 0 NORMAL [] (Some [x02; x03; x04]) true false 12 1;
  mkWrite 0 NORMAL [] (Some [x03; x04]) true false 13 2].

Lemma storeWrite_copies_witness :
  let g' := foldl (storeWrite 7) newGroup twoCopies in
  (forall e, objects g' !! 7 = Some e -> entry_holds fullObject e) /\
  (forall o, o <> 7 -> objects g' !! o = objects newGroup !! o).
Proof.
  apply (storeWrite_copies fullObject 7 twoCopies newGroup).
  - intros e. simpl. by rewrite lookup_empty.
  - repeat (apply Forall_cons; split); try apply Forall_nil; try done; unfold copy_chunk; simpl;
      (split_and!; [lia| |try done]).
    + by exists 2%nat.
    + by exists 1%nat.
    + by exists 3%nat.
    + by exists 2%nat.
Defined.

Definition partialGroup : CacheGroup :=
  storeWrite 7 newGroup (mkWrite 0 NORMAL [] (Some [x01; x02]) false false 10 0).
Definition completedGroup : CacheGroup :=
  storeWrite 7 partialGroup (mkWrite 0 NORMAL [] (Some fullObject) true false 11 0).

Lemma storeObject_complete_witness :
  exists e, objects completedGroup !! 7 = Some e /\ ce_complete e = true /\
    default [] (ce_payload e) = fullObject /\ ce_payloadSize e = Z.of_nat (length fullObject).
Proof.
  apply (storeObject_complete fullObject partialGroup 0 7 NORMAL [] (Some fullObject) false 11 completedGroup true).
  - reflexivity.
  - intros e.
    assert (H : objects partialGroup !! 7 = Some (mkEntry 0 NORMAL [] (Some [x01; x02]) 2 false false 10))
      by (vm_compute; reflexivity).
    rewrite H. intros [= <-]. split_and!; try done. by exists [x03; x04].
  - vm_compute. reflexivity.
Defined.

(** ** The system *)
Definition video : FullTrackName := FTN ["live"] "video".
Definition audio : FullTrackName := FTN ["live"] "audio".

Definition demoOps : list Op := [
  OpSubscribe video;
  OpBeginSubgroup 0 1 0 (Ok tt);
  OpObject 0 0 (Some [x01; x02; x03]) [] false 10;
  OpBeginObject 0 1 4 (Some [x01]) [] 11;
  OpObjectPayload 0 [x02; x03; x04] false 12;
  OpSubscribe audio;
  OpDatagram 0 (mkHeader 5 0 0 NORMAL [(60, 2)]) (Some [x05]) true 13;
  OpEndOfGroup 0 2 14;
  OpCloseSubgroup 0;
  OpHasCachedObject video (Loc 1 0) 20].

Lemma demoOps_ok : Forall op_ok demoOps.
Proof. repeat (apply Forall_cons; split); try apply Forall_nil; simpl; try done. Qed.

Lemma run_system_safe_witness :
  exists s, run_system demoOps (initial 8 3 1000 100) = Some s /\ system_ok s.
Proof. apply run_system_safe. exact demoOps_ok. Defined.

Definition demoState : System := default (initial 0 0 0 0) (run_system demoOps (initial 8 3 1000 100)).

Lemma demoState_run : run_system demoOps (initial 8 3 1000 100) = Some demoState.
Proof.
  unfold demoState. destruct (run_system_ok demoOps _ (initial_ok 8 3 1000 100) demoOps_ok) as (s & Hs & _).
  by rewrite Hs.
Qed.

Lemma demoState_ok : cache_ok (sys_cache demoState).
Proof.
  destruct (run_system_ok demoOps _ (initial_ok 8 3 1000 100) demoOps_ok) as (s & Hs & Hok).
  unfold demoState. rewrite Hs. exact (si_cache _ _ _ Hok).
Qed.

Lemma cache_ok_limit c n : cache_ok c -> cache_ok (set_maxCachedBytes_ n c).
Proof. intros [Hok Hev]. split; [|exact Hev]. destruct Hok. by constructor. Qed.

(** The two objects of group 1 and the datagram of group 5 are counted. *)
Example demoState_bytes : totalCachedBytes_ (sys_cache demoState) = 8.
Proof. vm_compute. reflexivity. Qed.

(** The same run, with both subscriptions closed at its end. *)
Definition closedOps : list Op := demoOps ++ [OpCloseSubscribe 0; OpCloseSubscribe 0].
Definition closedState : System := default (initial 0 0 0 0) (run_system closedOps (initial 8 3 1000 2)).

Example closedState_bytes :
  totalCachedBytes_ (sys_cache closedState) = 8 /\ sys_subs closedState = [] /\ sys_subscribes closedState = [].
Proof. vm_compute. split_and!; reflexivity. Qed.

Lemma closedOps_ok : Forall op_ok closedOps.
Proof. apply Forall_app. split; [exact demoOps_ok|]. by repeat constructor. Qed.

Lemma closedState_run : run_system closedOps (initial 8 3 1000 2) = Some closedState.
Proof.
  unfold closedState. destruct (run_system_ok closedOps _ (initial_ok 8 3 1000 2) closedOps_ok) as (s & Hs & _).
  by rewrite Hs.
Qed.


Lemma evictForByteLimitIfNeeded_correct_witness :
  let c := set_maxCachedBytes_ 4 (sys_cache demoState) in
  exists b c', evictForByteLimitIfNeeded c = Some (b, c') /\ cache_ok c' /\ evict_rel c c' /\
    (forall ftn t tr, cache_ c !! ftn = Some t -> theTracks c !! t = Some tr -> canEvict tr = false ->
       cache_ c' !! ftn = Some t) /\
    (b = true <-> maxCachedBytes_ c' = 0 \/ totalCachedBytes_ c' <= maxCachedBytes_ c') /\
    (maxCachedBytes_ c <> 0 -> maxCachedBytes_ c < totalCachedBytes_ c ->
       totalCachedBytes_ c' <= byteTarget c \/ Forall (at_join_point c') (globalGroupLRU_ c')).
Proof.
  intros c. apply evictForByteLimitIfNeeded_correct. apply cache_ok_limit. exact demoState_ok.
Defined.

Lemma purge_correct_witness :
  exists c', purge (sys_cache demoState) = Some (Z.of_nat (size (cache_ (sys_cache demoState))), c') /\
    cache_ok c' /\ evict_rel (sys_cache demoState) c' /\ cache_ c' = ∅ /\ totalCachedBytes_ c' = 0.
Proof. apply purge_correct. exact demoState_ok. Defined.

Lemma demo_video : cache_ (sys_cache demoState) !! video = Some 0.
Proof. vm_compute. reflexivity. Qed.

Lemma getCachedObjectMaybe_correct_witness :
  exists tr, theTracks (sys_cache demoState) !! 0 = Some tr /\
  exists res c', getCachedObjectMaybe 0 (Loc 1 0) 20 (sys_cache demoState) = Some (res, c') /\ cache_ok c' /\
    (forall e, res = Some e <-> ce_complete e = true /\
       isExpired (effectiveDuration (sys_cache demoState) tr) 20 (ce_cachedAt e) = false /\
       exists r g, groups tr !! 1 = Some r /\ theGroups (sys_cache demoState) !! r = Some g /\
         objects g !! 0 = Some e).
Proof.
  destruct (ok_cached _ (proj1 demoState_ok) _ _ demo_video) as [tr Ht]. exists tr. split; [exact Ht|].
  apply (getCachedObjectMaybe_correct (sys_cache demoState) video 0 tr (Loc 1 0) 20);
    [exact demoState_ok|exact demo_video|exact Ht].
Defined.

Lemma getOrCreateGroupWithEviction_correct_witness :
  exists tr, theTracks (sys_cache demoState) !! 0 = Some tr /\
  exists r c' tr', getOrCreateGroupWithEviction 0 9 video (sys_cache demoState) = Some (r, c') /\ cache_ok c' /\
    run_rel (sys_cache demoState) c' /\ cache_ c' = cache_ (sys_cache demoState) /\
    theTracks c' !! 0 = Some tr' /\ groups tr' !! 9 = Some r /\
    (groups tr !! 9 = None -> maxCachedGroupsPerTrack_ (sys_cache demoState) <> 0 ->
       Z.of_nat (size (groups tr')) <= maxCachedGroupsPerTrack_ (sys_cache demoState) + 1 \/
       (forall r1 gid1, (r1, gid1) ∈ groupLRU tr' -> gid1 = 9)).
Proof.
  destruct (ok_cached _ (proj1 demoState_ok) _ _ demo_video) as [tr Ht]. exists tr. split; [exact Ht|].
  apply (getOrCreateGroupWithEviction_correct (sys_cache demoState) video 0 tr 9);
    [exact demoState_ok|exact demo_video|exact Ht].
Defined.

Lemma getEffectiveCacheDuration_capped_witness :
  let c := set_maxAllowedCacheDuration_ (Some 5000) (newCache 1 1 1 1) in
  (forall cap, maxAllowedCacheDuration_ c = Some cap ->
     getIntExtension [(4, 60000)] kMaxCacheDurationExtensionType <> None -> 5000 <= cap) /\
  (getIntExtension [(4, 60000)] kMaxCacheDurationExtensionType = None ->
     defaultMaxCacheDuration_ c = Some 5000).
Proof. intros c. apply (getEffectiveCacheDuration_capped c [(4, 60000)] 5000). reflexivity. Defined.

Lemma isExpired_exact_witness : isExpired (Some 5) 6000001 1000000 = true <-> 1000000 + 5 * 1000000 < 6000001.
Proof. apply isExpired_exact; lia. Defined.

(** ** Iterators *)
Definition storeWith (tr : CacheTrack) (gs : gmap Z CacheGroup) : MoqxCache :=
  set_theTracks (<[0:=tr]> ∅) (set_theGroups gs (newCache 8 3 1000 100)).
Definition iterAt (order : GroupOrder) (lo hi cur e : AbsoluteLocation) : FetchRangeIterator :=
  mkIter lo hi order 0 cur e true kMax None kMax None.

Lemma skipGaps_asc_exact_witness :
  let i := iterAt OldestFirst (Loc 1 0) (Loc 4 0) (Loc 2 5) (Loc 4 0) in
  exists cur, it_skipGaps i (storeWith aTrack ∅) = Some (set_it_current cur i, storeWith aTrack ∅) /\
    loc_le (Loc 2 5) cur /\ loc_le cur (Loc 4 0) /\
    (iset_contains (gaps aTrack) cur = false \/ cur = Loc 4 0) /\
    forall l, loc_ok l -> loc_le (Loc 2 5) l -> loc_lt l cur -> iset_contains (gaps aTrack) l = true.
Proof.
  intros i. apply (skipGaps_asc_exact i (storeWith aTrack ∅) aTrack);
    [apply lookup_insert_eq|reflexivity|reflexivity|conc|conc|conc].
Defined.

Lemma skipUncached_asc_exact_witness :
  let i := iterAt OldestFirst (Loc 1 0) (Loc 4 0) (Loc 1 5) (Loc 4 0) in
  exists cur, it_skipUncached i (storeWith aTrack ∅) = Some (set_it_current cur i, storeWith aTrack ∅) /\
    loc_le (Loc 1 5) cur /\ loc_le cur (Loc 4 0) /\
    (iset_contains (cachedContent aTrack) cur = true \/ cur = Loc 4 0) /\
    forall l, loc_le (Loc 1 5) l -> loc_lt l cur -> iset_contains (cachedContent aTrack) l = false.
Proof.
  intros i. apply (skipUncached_asc_exact i (storeWith aTrack ∅) aTrack);
    [apply lookup_insert_eq|reflexivity|reflexivity|conc].
Defined.

(** Group 2 of the track, with the complete object 7. *)
Definition groupWith7 : CacheGroup := set_maxCachedObject 7 completedGroup.
Definition trackWithGroup : CacheTrack := set_groups (<[2:=0]> ∅) aTrack.
Definition storeWithGroup : MoqxCache := storeWith trackWithGroup (<[0:=groupWith7]> ∅).

Lemma groupWith7_max : group_max_ok groupWith7.
Proof.
  split; [simpl; unfold kMax; lia|]. intros o e Ho _. change (objects groupWith7) with (objects completedGroup) in Ho.
  assert (Hd : objects completedGroup = <[7:=mkEntry 0 NORMAL [] (Some fullObject) 4 true false 11]> ∅)
    by (vm_compute; reflexivity).
  rewrite Hd in Ho. apply lookup_insert_Some in Ho as [[<- _]|[_ Ho]]; [simpl; lia|by rewrite lookup_empty in Ho].
Qed.

Lemma next_asc_complete_witness :
  let i := iterAt OldestFirst (Loc 1 0) (Loc 4 0) (Loc 2 2) (Loc 4 0) in
  exists i', it_next i storeWithGroup = Some (i', storeWithGroup) /\ it_isValid i' = true /\
    it_end i' = Loc 4 0 /\ loc_lt (Loc 2 2) (it_current i') /\ loc_le (it_current i') (it_end i') /\
    forall l, loc_ok l -> loc_lt (Loc 2 2) l -> loc_lt l (it_current i') ->
      iset_contains (gaps trackWithGroup) l = true \/ not_cached storeWithGroup trackWithGroup l.
Proof.
  intros i. apply (next_asc_complete i storeWithGroup trackWithGroup);
    [apply lookup_insert_eq|reflexivity|reflexivity|conc|conc|reflexivity|conc|].
  constructor.
  - intros gid r Hr. unfold trackWithGroup in Hr. simpl in Hr. apply lookup_insert_Some in Hr as [[_ <-]|[_ Hr]]; [|by rewrite lookup_empty in Hr].
    exists groupWith7. split; [apply lookup_insert_eq|exact groupWith7_max].
  - unfold i. simpl. done.
Defined.

(** Group 3 misses objects 2 to 5 and has object 6: a descending walk that meets
    the gap goes on in group 2. *)
Definition trackWithHole : CacheTrack := insertGap (Loc 3 2) (Loc 3 5) newTrack.

Lemma skipGaps_desc_leaves_group_witness :
  let i := iterAt NewestFirst (Loc 1 0) (Loc 5 0) (Loc 3 2) (Loc 1 kMax) in
  exists cur, it_skipGaps i (storeWith trackWithHole ∅) = Some (set_it_current cur i, storeWith trackWithHole ∅) /\
    (iset_contains (gaps trackWithHole) cur = false \/ cur = Loc 1 kMax) /\
    (iset_contains (gaps trackWithHole) (Loc 3 2) = true -> group cur < 3 \/ cur = Loc 1 kMax).
Proof.
  intros i. apply (skipGaps_desc_leaves_group i (storeWith trackWithHole ∅) trackWithHole);
    [apply lookup_insert_eq|reflexivity|reflexivity|conc].
Defined.

Definition markCached (a b : AbsoluteLocation) (tr : CacheTrack) : CacheTrack :=
  set_cachedContent (iset_insert (cachedContent tr) a b) tr.

(** The position an iterator ends up at. *)
Definition positionAfter (m : FetchRangeIterator -> M MoqxCache FetchRangeIterator) (i : FetchRangeIterator)
    (c : MoqxCache) : option AbsoluteLocation := (fun p => it_current p.1) <$> m i c.

(** A descending walk can leave the requested range at the top: from {3,0}
    of the range {1,0}-{3,5} with {3,7} cached, [skipUncached] goes to {3,7},
    past the requested end. *)
Theorem skipUncached_desc_past_end :
  exists tr i, in_range (it_minLocation i) (it_maxLocation i) (it_current i) /\
    exists l, positionAfter it_skipUncached i (storeWith tr ∅) = Some l /\ loc_le (it_maxLocation i) l.
Proof.
  exists (markCached (Loc 3 7) (Loc 3 7) newTrack), (iterAt NewestFirst (Loc 1 0) (Loc 3 5) (Loc 3 0) (Loc 1 kMax)).
  split; [conc|]. exists (Loc 3 7). split; [vm_compute; reflexivity|conc].
Qed.

(** A descending walk can go back to a position it already served: with the
    cached interval {2,5}-{3,5} and the range {3,2}-{3,20}, [skipUncached] at
    {3,6} returns to {3,2}. *)
Theorem skipUncached_desc_goes_back :
  exists tr i, in_range (it_minLocation i) (it_maxLocation i) (it_current i) /\
    exists l, positionAfter it_skipUncached i (storeWith tr ∅) = Some l /\ before NewestFirst l (it_current i).
Proof.
  exists (markCached (Loc 2 5) (Loc 3 5) newTrack), (iterAt NewestFirst (Loc 3 2) (Loc 3 20) (Loc 3 6) (Loc 3 20)).
  split; [conc|]. exists (Loc 3 2). split; [vm_compute; reflexivity|]. simpl. right. simpl. lia.
Qed.

(** ** Fetch writebacks *)
Definition aFetchWriteback : FetchWriteback :=
  mkFetchWriteback 1 true (iterAt OldestFirst (Loc 1 0) (Loc 4 0) (Loc 2 0) (Loc 4 0)) video true false None
    false false 0 0 0 false false false None (Some (Loc 3 1)) [(Loc 3 5, Loc 3 8)].

Lemma aFetchWriteback_bounds : bounds_ok aFetchWriteback.
Proof. split; [done|]. intros lr [= <-]. conc. Qed.

Lemma fw_insertGap_sound_witness :
  exists w' c' tr', fw_insertGap aFetchWriteback (Loc 2 0) (Loc 3 4) (storeWith aTrack ∅) = Some (w', c') /\
    theTracks c' !! 0 = Some tr' /\
    (forall l, loc_ok l -> iset_contains (gaps tr') l = true ->
       iset_contains (gaps aTrack) l = true \/
       (in_interval l (Loc 2 0, Loc 3 4) = true /\ below_known aFetchWriteback l)) /\
    (forall l, loc_ok l -> in_interval l (Loc 2 0, Loc 3 4) = true -> fw_upstreamEnd aFetchWriteback = None ->
       below_known aFetchWriteback l \/ exists p, p ∈ fw_pendingGaps w' /\ in_interval l p = true).
Proof.
  apply (fw_insertGap_sound (storeWith aTrack ∅) aFetchWriteback aTrack (Loc 2 0) (Loc 3 4));
    [apply lookup_insert_eq|conc|exact aFetchWriteback_bounds].
Defined.

Lemma setUpstreamEnd_sound_witness :
  exists w' c' tr', setUpstreamEnd aFetchWriteback (Loc 3 6) (storeWith aTrack ∅) = Some (w', c') /\
    theTracks c' !! 0 = Some tr' /\ fw_pendingGaps w' = [] /\ fw_upstreamEnd w' = Some (Loc 3 6) /\
    forall l, loc_ok l -> iset_contains (gaps tr') l = true ->
      iset_contains (gaps aTrack) l = true \/
      (loc_lt l (Loc 3 6) /\ exists p, p ∈ fw_pendingGaps aFetchWriteback /\ in_interval l p = true).
Proof.
  apply (setUpstreamEnd_sound (storeWith aTrack ∅) aFetchWriteback aTrack (Loc 3 6));
    [apply lookup_insert_eq|conc| |exact aFetchWriteback_bounds].
  simpl. apply Forall_cons. split; [conc|apply Forall_nil; exact I].
Defined.

(** Object {4,0} is past the requested range {1,0}-{4,0}. *)
Lemma fw_out_of_range_refused_witness :
  ~ in_range (it_minLocation (fw_it aFetchWriteback)) (it_maxLocation (fw_it aFetchWriteback)) (Loc 4 0) /\
  exists e, pe_code e = MALFORMED_TRACK /\
    forall payload ext fin dg now, fw_object aFetchWriteback 4 0 0 payload ext fin dg now (storeWith aTrack ∅) =
      Some ((Refuse None e, aFetchWriteback), storeWith aTrack ∅).
Proof.
  assert (Hout : ~ in_range (it_minLocation (fw_it aFetchWriteback)) (it_maxLocation (fw_it aFetchWriteback)) (Loc 4 0)).
  { intros [_ [H|[_ H]]]; simpl in H; lia. }
  split; [exact Hout|].
  destruct (fw_out_of_range_refused (storeWith aTrack ∅) aFetchWriteback 4 0 0 Hout) as (e & H1 & H2 & _).
  exists e. split; [exact H1|exact H2].
Defined.

(** ** The group limit *)
Definition limitOps : list Op := [
  OpSubscribe video;
  OpDatagram 0 (mkHeader 1 0 0 NORMAL []) (Some [x01]) true 1;
  OpDatagram 0 (mkHeader 2 0 0 NORMAL []) (Some [x01]) true 2;
  OpDatagram 0 (mkHeader 3 0 0 NORMAL []) (Some [x01]) true 3;
  OpDatagram 0 (mkHeader 4 0 0 NORMAL []) (Some [x01]) true 4].

Lemma fmap_Some_exists {A B} (f : A -> B) (o : option A) v : f <$> o = Some v -> exists a, o = Some a /\ f a = v.
Proof. destruct o as [a|]; [|done]. intros [= <-]. by exists a. Qed.

(** The limit on cached groups is checked before a group is created, so a
    track holds one group more than the configured maximum: with a limit of 2,
    four datagrams in four groups leave three groups cached. *)
Theorem group_limit_exceeded_by_one :
  exists s tr, run_system limitOps (initial 8 2 1000 100) = Some s /\
    theTracks (sys_cache s) !! 0 = Some tr /\
    maxCachedGroupsPerTrack_ (sys_cache s) = 2 /\ size (groups tr) = 3%nat.
Proof.
  destruct (fmap_Some_exists (fun s => (maxCachedGroupsPerTrack_ (sys_cache s),
    (fun tr => size (groups tr)) <$> theTracks (sys_cache s) !! 0)) (run_system limitOps (initial 8 2 1000 100))
    (2, Some 3%nat)) as (s & Hs & Hv); [vm_compute; reflexivity|].
  injection Hv as Hm Ht. destruct (fmap_Some_exists _ _ _ Ht) as (tr & Htr & Hsz).
  exists s, tr. by split_and!.
Qed.
