(* ===== verification/CacheFetch.v ===== *)
(** The fetch coroutines of the cache (MoqxCache.cpp: [fetch], [fetchImpl],
    [fetchUpstream], [handleBlocked], [publishObject], [FetchHandle]).

    A coroutine runs until it suspends.  [FetchTask] is the frame of
    [fetchImpl], with the frame of the [fetchUpstream] it is in, and [ft_await]
    is the place it is suspended at; each function below runs from one such
    place, or from the head of the loop, to the next.  The store [FetchSys] is
    the cache with the fetch writebacks that are alive: between two steps of a
    task upstream sessions call the writebacks, other tasks run and other
    operations of the cache happen.

    What the code gets from outside is an input of a step: the clock, the
    cancellation of the request, the answer of the consumer, the answer of the
    upstream session.  What it calls outside is the list of events of the step. *)

From Stdlib Require Import Init.Byte.
From S2P Require Import Prelude Location CacheRanges CacheState CacheObject CacheEvict CacheWriteback CacheIterator CacheFetchWriteback.

(** moxygen's FETCH_OK carries parameters, which are passed on unread. *)
Class FetchParams := { Params : Type; noParams : Params }.

Section fetch.
Context `{LA : LocationApi} `{IA : IntervalSetApi} `{EA : ExtensionsApi} `{FP : FetchParams}.

(** A stand-alone FETCH; the other kinds are resolved before the cache is asked. *)
Record Fetch := mkFetch {
  f_requestID : Z;
  f_ftn : FullTrackName;
  f_start : AbsoluteLocation;
  f_end : AbsoluteLocation;
  f_priority : Z;
  f_groupOrder : GroupOrder;
}.
Definition set_f_end (e : AbsoluteLocation) (f : Fetch) : Fetch :=
  mkFetch (f_requestID f) (f_ftn f) (f_start f) e (f_priority f) (f_groupOrder f).

Record FetchOk := mkFetchOk {
  ok_requestID : Z;
  ok_groupOrder : GroupOrder;
  ok_endOfTrack : bool;
  ok_endLocation : AbsoluteLocation;
  ok_extensions : Extensions;
  ok_params : Params;
}.

Inductive FetchErrorCode := FETCH_INTERNAL_ERROR | FETCH_NOT_SUPPORTED | UpstreamErrorCode (code : Z).
Record FetchError := mkFetchError { fe_requestID : Z; fe_code : FetchErrorCode; fe_reason : string }.

(** The handle given to the client; the upstream handle is a reference. *)
Record FetchHandle := mkHandle {
  fh_ok : FetchOk;
  fh_cancelled : bool;
  fh_upstream : option Z;
}.
Definition newHandle (ok : FetchOk) : FetchHandle := mkHandle ok false None.
Definition setUpstreamFetchHandle (u : Z) (h : FetchHandle) : FetchHandle :=
  mkHandle (fh_ok h) (fh_cancelled h) (Some u).
Definition requestUpdate (requestID : Z) : result FetchError unit :=
  Err (mkFetchError requestID FETCH_NOT_SUPPORTED "REQUEST_UPDATE not supported for cached FETCH").

(** A fetch result: an error, a handle, or the null handle. *)
Definition FetchResult : Type := result FetchError (option FetchHandle).
(** What an upstream session answers: an error, or its handle and FETCH_OK. *)
Definition UpstreamResult : Type := result (FetchErrorCode * string) (Z * FetchOk).

Inductive FetchEvent :=
  | ToConsumer (call : FetchCall)
  | UpstreamFetch (w : wref) (request : Fetch)
  | UpstreamCancel (u : Z).

(** [fetchCancel], with the callback [fetchImpl] registers for the cancellation
    while it is [running]. *)
Definition fetchCancel (running : bool) (h : FetchHandle) : FetchHandle * list FetchEvent :=
  (mkHandle (fh_ok h) true (fh_upstream h),
   (if running && negb (fh_cancelled h) then [ToConsumer (FReset RESET_CANCELLED)] else []) ++
   match fh_upstream h with Some u => [UpstreamCancel u] | None => [] end).

(** The call [publishObject] makes; [None]: it returns API_ERROR itself. *)
Definition publishObject (current : AbsoluteLocation) (e : CacheEntry) (lastObject : bool)
  : option FetchCall :=
  match ce_status e with
  | NORMAL => Some (FObject (group current) (ce_subgroup e) (object current) (ce_payload e)
                      (ce_extensions e) lastObject (ce_forwardingPreferenceIsDatagram e))
  | END_OF_GROUP => Some (FEndOfGroup (group current) (ce_subgroup e) (object current) lastObject)
  | END_OF_TRACK => Some (FEndOfTrackAndGroup (group current) (ce_subgroup e) (object current))
  | STATUS_OTHER _ => None
  end.

(** ** The store *)
Record FetchSys := mkSys {
  fs_cache : MoqxCache;
  fs_writebacks : gmap wref FetchWriteback;
  fs_nextWref : wref;
}.
Definition onCache {A} (m : M MoqxCache A) : M FetchSys A := fun s =>
  match m (fs_cache s) with
  | Some (a, c) => Some (a, mkSys c (fs_writebacks s) (fs_nextWref s))
  | None => None
  end.
Definition getWriteback (w : wref) : M FetchSys FetchWriteback :=
  s ← get; deref (fs_writebacks s !! w).
Definition putWriteback (w : wref) (x : FetchWriteback) : M FetchSys unit :=
  modify (fun s => mkSys (fs_cache s) (<[w := x]> (fs_writebacks s)) (fs_nextWref s)).
(** [std::make_shared<FetchWriteback>(...)]. *)
Definition makeWriteback (proxyFin : bool) (it : FetchRangeIterator) (ftn : FullTrackName)
  : M FetchSys wref :=
  s ← get;
  let w := fs_nextWref s in
  x ← onCache (newFetchWriteback w proxyFin it ftn);
  modify (fun s => mkSys (fs_cache s) (<[w := x]> (fs_writebacks s)) (w + 1));; mret w.

(** ** Frames *)
(** A position reached by the loop, once it is known what is there: a cached
    object (with the group that is kept alive), a gap, or the range of another
    fetch ([flushBeforeWait]). *)
Inductive Boundary := Hit (r : gref) | Gap | InProgress.

(** The loop over upstream intervals: at a boundary, or for the tail. *)
Inductive FlushOf := AtBoundary (current : AbsoluteLocation) (b : Boundary) | Tail.
Record Flush := mkFlush { fl_of : FlushOf; fl_rest : list interval }.

Inductive Await :=
  | LoopHead
  | WaitFor (w : wref) (current : AbsoluteLocation)
  | WaitUpstream (w : wref) (lastObject : bool) (fl : Flush)
  | WaitComplete (w : wref) (fl : Flush)
  | WaitReady (e : AbsoluteLocation * gref)
  | Finished (res : FetchResult).

Record FetchTask := mkTask {
  ft_handle : option FetchHandle;
  ft_fetch : Fetch;
  ft_track : tref;
  ft_it : FetchRangeIterator;
  ft_fetchStart : option AbsoluteLocation;
  ft_servedOneObject : bool;
  ft_lastObject : bool;
  ft_cachedNow : Z;
  ft_await : Await;
}.
Definition set_ft_handle (h : option FetchHandle) (k : FetchTask) : FetchTask :=
  mkTask h (ft_fetch k) (ft_track k) (ft_it k) (ft_fetchStart k) (ft_servedOneObject k) (ft_lastObject k) (ft_cachedNow k) (ft_await k).
Definition set_ft_it (i : FetchRangeIterator) (k : FetchTask) : FetchTask :=
  mkTask (ft_handle k) (ft_fetch k) (ft_track k) i (ft_fetchStart k) (ft_servedOneObject k) (ft_lastObject k) (ft_cachedNow k) (ft_await k).
Definition set_ft_fetchStart (l : option AbsoluteLocation) (k : FetchTask) : FetchTask :=
  mkTask (ft_handle k) (ft_fetch k) (ft_track k) (ft_it k) l (ft_servedOneObject k) (ft_lastObject k) (ft_cachedNow k) (ft_await k).
Definition set_ft_served (b : bool) (k : FetchTask) : FetchTask :=
  mkTask (ft_handle k) (ft_fetch k) (ft_track k) (ft_it k) (ft_fetchStart k) b (ft_lastObject k) (ft_cachedNow k) (ft_await k).
Definition set_ft_lastObject (b : bool) (k : FetchTask) : FetchTask :=
  mkTask (ft_handle k) (ft_fetch k) (ft_track k) (ft_it k) (ft_fetchStart k) (ft_servedOneObject k) b (ft_cachedNow k) (ft_await k).
Definition set_ft_now (n : Z) (k : FetchTask) : FetchTask :=
  mkTask (ft_handle k) (ft_fetch k) (ft_track k) (ft_it k) (ft_fetchStart k) (ft_servedOneObject k) (ft_lastObject k) n (ft_await k).
Definition set_ft_await (a : Await) (k : FetchTask) : FetchTask :=
  mkTask (ft_handle k) (ft_fetch k) (ft_track k) (ft_it k) (ft_fetchStart k) (ft_servedOneObject k) (ft_lastObject k) (ft_cachedNow k) a.

(** What a step reads from outside. *)
Record Inputs := mkInputs {
  in_now : Z;
  in_cancelled : bool;
  in_consumer : result MoQPublishError unit;   (** answer to [object] and the like *)
  in_ready : result MoQPublishError unit;      (** answer to [awaitReadyToConsume] *)
  in_upstream : UpstreamResult;                (** answer to the upstream FETCH *)
}.

Abbreviation Step := (M FetchSys (FetchTask * list FetchEvent)).

Definition continue (k : FetchTask) : Step := mret (set_ft_await LoopHead k, []).
Definition suspend (a : Await) (k : FetchTask) (evs : list FetchEvent) : Step :=
  mret (set_ft_await a k, evs).
Definition finish (res : FetchResult) (k : FetchTask) (evs : list FetchEvent) : Step :=
  mret (set_ft_await (Finished res) k, evs).
Definition fail (code : FetchErrorCode) (reason : string) (k : FetchTask) (evs : list FetchEvent) : Step :=
  finish (Err (mkFetchError (f_requestID (ft_fetch k)) code reason)) k evs.

(** ** [fetchUpstream] *)
(** From its start to the call of the upstream session. *)
Definition fetchUpstream (iv : interval) (lastObject : bool) (fl : Flush) (k : FetchTask) : Step :=
  let f := ft_fetch k in
  wireEnd ← deref (adjFetchEnd iv.2);
  it ← onCache (newFetchRangeIterator iv.1 iv.2 (f_groupOrder f) (ft_track k));
  w ← makeWriteback lastObject it (f_ftn f);
  suspend (WaitUpstream w lastObject fl) k
    [UpstreamFetch w (mkFetch 0 (f_ftn f) iv.1 wireEnd (f_priority f) (f_groupOrder f))].

Definition recordUpstreamEndOfTrack (t : tref) (res : UpstreamResult) : M MoqxCache unit :=
  match res with
  | Err _ => mret tt
  | Ok (_, ok) =>
    if negb (ok_endOfTrack ok) then mret tt
    else match prev (ok_endLocation ok) with
         | None => mret tt
         | Some last => updateLargestM t last true;; mret tt
         end
  end.

(** The FETCH_OK of a range served by this task. *)
Definition rangeOk (tr : CacheTrack) (f : Fetch) (ext : Extensions) : FetchOk :=
  let okEnd := fetchOkEnd tr (f_start f) (f_end f) in
  mkFetchOk (f_requestID f) (f_groupOrder f) okEnd.2 okEnd.1 ext noParams.

(** ** [fetchImpl] *)
Definition fetchImpl_start (handle : option FetchHandle) (f : Fetch) (t : tref) (now : Z)
  : M FetchSys FetchTask :=
  it ← onCache (newFetchRangeIterator (f_start f) (f_end f) (f_groupOrder f) t);
  mret (mkTask handle f t it None false false now LoopHead).

(** After the loop, when nothing is left to request. *)
Definition fetchImpl_end (k : FetchTask) : Step :=
  let evs := if ft_lastObject k && ft_servedOneObject k then [] else [ToConsumer FEndOfFetch] in
  match ft_handle k with
  | Some _ => finish (Ok None) k evs
  | None =>
    tr ← onCache (getTrack (ft_track k));
    finish (Ok (Some (newHandle (rangeOk tr (ft_fetch k) noExtensions)))) k evs
  end.

(** After the tail: [res] is the handle of its last interval.  With no interval
    at all there is no result to return.  Newest first, the new handle refers to
    that handle, which nothing else refers to and whose cancellation goes on to
    the upstream handle; it refers to the upstream handle directly here. *)
Definition fetchImpl_tailDone (res : option FetchHandle) (k : FetchTask) (evs : list FetchEvent) : Step :=
  match ft_handle k with
  | Some _ => finish (Ok None) k evs
  | None =>
    h ← deref res;
    if negb (isNewestFirst (f_groupOrder (ft_fetch k))) then finish (Ok (Some h)) k evs
    else
      tr ← onCache (getTrack (ft_track k));
      let own := newHandle (rangeOk tr (ft_fetch k) noExtensions) in
      finish (Ok (Some (match fh_upstream h with
                        | Some u => setUpstreamFetchHandle u own | None => own end))) k evs
  end.

(** Publication of the object at [current], in group [r]. *)
Definition publishHit (inp : Inputs) (current : AbsoluteLocation) (r : gref) (k : FetchTask) : Step :=
  it ← onCache (it_next (ft_it k));
  '(e, it) ← onCache (it_endOf it);
  let lastObject := loc_eqb (it_current it) e in
  let k := set_ft_lastObject lastObject (set_ft_it it k) in
  g ← onCache (getGroup r);
  entry ← deref (objects g !! object current);
  let call := publishObject current entry lastObject in
  let evs := match call with Some c => [ToConsumer c] | None => [] end in
  let answer := match call with Some _ => in_consumer inp | None => Err (PubErr API_ERROR "Unknown status") end in
  match answer with
  | Ok _ => mret (set_ft_await LoopHead (set_ft_served (ft_servedOneObject k || exists_ (ce_status entry)) k), evs)
  | Err err =>
    match pe_code err with
    | BLOCKED =>
      match in_ready inp with
      | Ok _ => suspend (WaitReady (current, r)) k evs
      | Err rerr => fail FETCH_INTERNAL_ERROR ("Consumer error awaiting ready=" ++ pe_msg rerr) k
                      (evs ++ [ToConsumer (FReset RESET_INTERNAL_ERROR)])
      end
    | code =>
      let resetCode := match code with MALFORMED_TRACK => RESET_MALFORMED_TRACK | _ => RESET_INTERNAL_ERROR end in
      fail FETCH_INTERNAL_ERROR ("Consumer error on object=" ++ pe_msg err) k
        (evs ++ [ToConsumer (FReset resetCode)])
    end
  end.

(** At a boundary, with no miss run left to request. *)
Definition atBoundary (inp : Inputs) (current : AbsoluteLocation) (b : Boundary) (k : FetchTask) : Step :=
  match b with
  | InProgress => continue k
  | Gap => it ← onCache (it_skipGaps (ft_it k)); continue (set_ft_it it k)
  | Hit r => publishHit inp current r k
  end.

(** The next interval of a flush, or what follows the flush. *)
Definition nextInterval (inp : Inputs) (fl : Flush) (k : FetchTask) : Step :=
  match fl_of fl, fl_rest fl with
  | AtBoundary current b, [] => atBoundary inp current b (set_ft_fetchStart None k)
  | AtBoundary _ _, iv :: rest => fetchUpstream iv false (mkFlush (fl_of fl) rest) k
  | Tail, [] => fetchImpl_tailDone None k []
  | Tail, iv :: rest =>
    fetchUpstream iv (match rest with [] => true | _ => false end) (mkFlush Tail rest) k
  end.

(** After the loop. *)
Definition fetchImpl_exit (inp : Inputs) (k : FetchTask) : Step :=
  match ft_fetchStart k with
  | Some s =>
    let it := ft_it k in
    nextInterval inp (mkFlush Tail (getFetchIntervals (it_minLocation it) (it_maxLocation it) s
                                      (it_current it) (it_order it) true)) k
  | None => fetchImpl_end k
  end.

(** The body of the loop from the cache lookup on. *)
Definition fetchImpl_lookup (inp : Inputs) (current : AbsoluteLocation) (flushBeforeWait : bool)
    (k : FetchTask) : Step :=
  cached ← (if flushBeforeWait then mret None
            else onCache (getCachedObjectMaybe (ft_track k) current (ft_cachedNow k)));
  tr ← onCache (getTrack (ft_track k));
  if negb flushBeforeWait && negb (bool_decide (is_Some cached)) && negb (iset_contains (gaps tr) current) then
    it ← onCache (it_skipUncached (ft_it k));
    continue (set_ft_fetchStart (Some (default current (ft_fetchStart k))) (set_ft_it it k))
  else
    b ← (if flushBeforeWait then mret InProgress
         else match cached with
              | Some _ => r ← deref (groups tr !! group current); mret (Hit r)
              | None => mret Gap
              end);
    match ft_fetchStart k with
    | Some s =>
      let it := ft_it k in
      nextInterval inp (mkFlush (AtBoundary current b)
        (getFetchIntervals (it_minLocation it) (it_maxLocation it) s current (it_order it) false)) k
    | None => atBoundary inp current b k
    end.

(** One round of the loop, from its test. *)
Definition fetchImpl_round (inp : Inputs) (k : FetchTask) : Step :=
  if in_cancelled inp then fetchImpl_exit inp k
  else
    '(e, it) ← onCache (it_endOf (ft_it k));
    let k := set_ft_it it k in
    let current := it_current it in
    if loc_eqb current e then fetchImpl_exit inp k
    else
      tr ← onCache (getTrack (ft_track k));
      match findFetchInProgress tr current, ft_fetchStart k with
      | Some w, None => suspend (WaitFor w current) k []
      | Some _, Some _ => fetchImpl_lookup inp current true k
      | None, _ => fetchImpl_lookup inp current false k
      end.

(** After [waitFor]: the fetch that was waited for may have recorded a gap. *)
Definition afterWaitFor (inp : Inputs) (current : AbsoluteLocation) (k : FetchTask) : Step :=
  let k := set_ft_now (in_now inp) k in
  it ← onCache (it_skipGaps (ft_it k));
  let k := set_ft_it it k in
  if negb (loc_eqb (it_current it) current) then continue k
  else fetchImpl_lookup inp current false k.

(** In [fetchUpstream], after the upstream session has answered. *)
Definition afterUpstream (inp : Inputs) (w : wref) (lastObject : bool) (fl : Flush) (k : FetchTask) : Step :=
  match in_upstream inp with
  | Err (code, reason) => fail code reason k [ToConsumer (FReset RESET_CANCELLED)]
  | Ok (u, ok) =>
    x ← getWriteback w;
    x ← onCache (setUpstreamEnd x (ok_endLocation ok));
    putWriteback w x;;
    onCache (modTrack (ft_track k) (set_extensions (ok_extensions ok)));;
    onCache (recordUpstreamEndOfTrack (ft_track k) (in_upstream inp));;
    if lastObject then
      let h := match ft_handle k with
               | Some h => h
               | None => newHandle (mkFetchOk (f_requestID (ft_fetch k)) (f_groupOrder (ft_fetch k))
                           (ok_endOfTrack ok) (ok_endLocation ok) (ok_extensions ok) (ok_params ok))
               end in
      let h := setUpstreamFetchHandle u h in
      fetchImpl_tailDone (Some h) (match ft_handle k with Some _ => set_ft_handle (Some h) k | None => k end) []
    else
      suspend (WaitComplete w fl) (set_ft_handle (setUpstreamFetchHandle u <$> ft_handle k) k) []
  end.

(** In [fetchUpstream], after the writeback has completed. *)
Definition afterComplete (inp : Inputs) (w : wref) (fl : Flush) (k : FetchTask) : Step :=
  x ← getWriteback w;
  if fw_wasReset x then fail FETCH_INTERNAL_ERROR "Upstream fetch reset" k []
  else nextInterval inp fl (match fl_of fl with AtBoundary _ _ => set_ft_now (in_now inp) k | Tail => k end).

(** After [handleBlocked]. *)
Definition afterReady (inp : Inputs) (current : AbsoluteLocation) (r : gref) (k : FetchTask) : Step :=
  g ← onCache (getGroup r);
  entry ← deref (objects g !! object current);
  continue (set_ft_now (in_now inp) (set_ft_served (ft_servedOneObject k || exists_ (ce_status entry)) k)).

(** A task runs from where it is suspended. *)
Definition fetchImpl (inp : Inputs) (k : FetchTask) : Step :=
  match ft_await k with
  | LoopHead => fetchImpl_round inp k
  | WaitFor _ current => afterWaitFor inp current k
  | WaitUpstream w lastObject fl => afterUpstream inp w lastObject fl k
  | WaitComplete w fl => afterComplete inp w fl k
  | WaitReady (current, r) => afterReady inp current r k
  | Finished _ => mret (k, [])
  end.

(** What a suspended task waits for has happened.  A writeback that is gone has
    cancelled its waiters; it stays alive as long as the task's own frame
    holds it. *)
Definition resumable (s : FetchSys) (k : FetchTask) : bool :=
  match ft_await k with
  | WaitFor w current =>
    match fs_writebacks s !! w with Some x => negb (mustWaitFor x current) | None => true end
  | WaitComplete w _ =>
    match fs_writebacks s !! w with Some x => fw_complete x | None => false end
  | Finished _ => false
  | _ => true
  end.

(** ** [fetch] *)
Inductive FetchReply :=
  | Forwarded (w : wref) (t : tref)          (** unknown track: the request itself went upstream *)
  | Serving (h : option FetchHandle) (k : FetchTask).
      (** served by a task; [h] is returned at once, or the task's result is awaited *)

Definition fetch (f : Fetch) (now : Z) : M FetchSys (FetchReply * list FetchEvent) :=
  s ← get;
  match cache_ (fs_cache s) !! f_ftn f with
  | None =>
    t ← onCache makeTrack;
    onCache (modify (fun c => set_cache_ (<[f_ftn f := t]> (cache_ c)) c));;
    c ← onCache get;
    (if maxCachedTracks_ c <=? Z.of_nat (size (cache_ c)) then onCache (evictOldestTrackIfNeeded;; mret tt) else mret tt);;
    onCache (addTrackToLRU (f_ftn f) t);;
    it ← onCache (newFetchRangeIterator (f_start f) (toExclusiveEnd (f_end f)) (f_groupOrder f) t);
    w ← makeWriteback true it (f_ftn f);
    mret (Forwarded w t, [UpstreamFetch w f])
  | Some t =>
    let f := set_f_end (toExclusiveEnd (f_end f)) f in
    last ← deref (prev (f_end f));
    tr ← onCache (getTrack t);
    if match largestGroupAndObject tr with
       | Some largest => (0 <? liveWritebackCount tr) || loc_leb last largest
       | None => false
       end
    then
      let ok := rangeOk tr f (extensions tr) in
      let h := newHandle ok in
      k ← fetchImpl_start (Some h) (set_f_end (ok_endLocation ok) f) t now;
      mret (Serving (Some h) k, [])
    else
      k ← fetchImpl_start None f t now;
      mret (Serving None k, [])
  end.

(** The end of [fetch] for an unknown track, when upstream has answered; the
    answer is returned as it is. *)
Definition fetch_forwarded (w : wref) (t : tref) (res : UpstreamResult) : M FetchSys UpstreamResult :=
  (match res with
   | Ok (_, ok) => x ← getWriteback w; x ← onCache (setUpstreamEnd x (ok_endLocation ok)); putWriteback w x
   | Err _ => mret tt
   end);;
  onCache (recordUpstreamEndOfTrack t res);;
  mret res.
End fetch.
