(* ===== verification/CacheFetchTheorems.v ===== *)
(** What the fetch coroutines deliver, in ascending order.

    A range that is fully known (every position is cached and fresh, or a known
    gap) is served from the cache alone, each object once and in order; and a
    fetch that runs among any other activity accounts for every position of its
    range. *)

From Stdlib Require Import Init.Byte.
From S2P Require Import Prelude Location CacheRanges CacheState CacheObject CacheEvict CacheWriteback CacheIterator CacheFetchWriteback CacheFetch.

Section ascending_fetch.
Context `{LL : LocationLaws} `{!IntervalSetApi} `{IL : !IntervalSetLaws} `{EA : ExtensionsApi} `{FP : FetchParams}.
Implicit Types (c : MoqxCache) (i : FetchRangeIterator) (k : FetchTask) (s : FetchSys).

(** ** The store of a task *)
Lemma onCache_bind {A B} (m : M MoqxCache A) (f : A -> M FetchSys B) s a :
  m (fs_cache s) = Some (a, fs_cache s) -> (onCache m ≫= f) s = f a s.
Proof. unfold mbind, M_bind, onCache. intros ->. by destruct s. Qed.

Lemma sbind {A B} (m : M FetchSys A) (f : A -> M FetchSys B) s a s' :
  m s = Some (a, s') -> (m ≫= f) s = f a s'.
Proof. unfold mbind, M_bind. by intros ->. Qed.

(** A complete object that has not expired. *)
Definition servable c tr (now : Z) (l : AbsoluteLocation) (e : CacheEntry) : Prop :=
  exists r g, groups tr !! group l = Some r /\ theGroups c !! r = Some g /\ objects g !! object l = Some e /\
    ce_complete e = true /\
    isExpired (match maxCacheDuration tr with Some d => Some d | None => defaultMaxCacheDuration_ c end)
      now (ce_cachedAt e) = false.

Lemma getGroup_lookup c r g : theGroups c !! r = Some g -> getGroup r c = Some (g, c).
Proof. intros Hg. unfold getGroup, mbind, M_bind, get, deref. simpl. by rewrite Hg. Qed.

Lemma lookup_hit c t tr now l e :
  theTracks c !! t = Some tr -> servable c tr now l e -> getCachedObjectMaybe t l now c = Some (Some e, c).
Proof.
  intros Ht (r & g & Hr & Hg & He & Hc & Hx). unfold getCachedObjectMaybe.
  erewrite mbind_some by done. rewrite (mbind_some _ _ _ _ _ (getTrack_lookup c t tr Ht)), Hr.
  rewrite (mbind_some _ _ _ _ _ (getGroup_lookup c r g Hg)), He, Hx, Hc. done.
Qed.

(** The objects of a track, as positions. *)
Definition all_entries c tr : list AbsoluteLocation :=
  flat_map (fun p : Z * gref =>
    match theGroups c !! p.2 with
    | Some g => map (fun q => Loc p.1 q.1) (map_to_list (objects g))
    | None => []
    end) (map_to_list (groups tr)).

Lemma servable_entry c tr now l e : servable c tr now l e -> l ∈ all_entries c tr.
Proof.
  intros (r & g & Hr & Hg & He & _). apply list_elem_of_In, in_flat_map. exists (group l, r). split.
  - by apply list_elem_of_In, elem_of_map_to_list.
  - simpl. rewrite Hg. apply in_map_iff. exists (object l, e). split; [by destruct l|].
    by apply list_elem_of_In, elem_of_map_to_list.
Qed.

(** ** The iterator of a task *)
Record asc_iter (t : tref) (hi : AbsoluteLocation) i : Prop := {
  ai_track : it_track i = t;
  ai_asc : isDescending i = false;
  ai_valid : it_isValid i = true;
  ai_cur : loc_ok (it_current i);
  ai_hi : loc_ok hi;
  ai_max : it_maxLocation i = hi;
  ai_le : loc_le (it_current i) hi;
}.

(** A track the iterator can read: its groups are alive and their largest
    objects right, and a track that has ended knows where. *)
Record track_ok c tr : Prop := {
  to_groups gid r : groups tr !! gid = Some r -> exists g, theGroups c !! r = Some g /\ group_max_ok g;
  to_end : endOfTrack tr = true -> is_Some (largestGroupAndObject tr);
  to_largest lg : largestGroupAndObject tr = Some lg -> loc_ok lg;
}.

(** The track has ended before [l]. *)
Definition track_ended tr (l : AbsoluteLocation) : Prop :=
  endOfTrack tr = true /\ exists lg, largestGroupAndObject tr = Some lg /\ loc_lt lg l.

Lemma track_ended_dec tr l : track_ended tr l \/ ~ track_ended tr l.
Proof.
  unfold track_ended. destruct (endOfTrack tr); [|right; by intros [? _]].
  destruct (largestGroupAndObject tr) as [lg|]; [|right; by intros (_ & ? & ? & _)].
  destruct (loc_ltb lg l) eqn:E; [left; split; [done|]; exists lg; split; [done|by apply loc_ltb_spec]|right].
  intros (_ & lg' & [= <-] & Hlt%loc_ltb_spec). congruence.
Qed.

Lemma set_it_end_id i : set_it_end (it_end i) i = i.
Proof. by destruct i. Qed.

Lemma endOf_asc c tr t hi i :
  asc_iter t hi i -> theTracks c !! t = Some tr -> track_ok c tr ->
  exists e, it_endOf i c = Some ((e, set_it_end e i), c) /\
    ((e = it_end i /\ ~ track_ended tr (it_current i)) \/ (e = it_current i /\ track_ended tr (it_current i))).
Proof.
  intros Hi Ht Hok. unfold it_endOf. rewrite (ai_track _ _ _ Hi).
  rewrite (mbind_some _ _ _ _ _ (getTrack_lookup c t tr Ht)).
  destruct (endOfTrack tr) eqn:Ee.
  - destruct (to_end _ _ Hok Ee) as [lg Hlg]. rewrite Hlg.
    erewrite mbind_some by (erewrite mbind_some by done; done).
    rewrite (ai_valid _ _ _ Hi). destruct (loc_ltb lg (it_current i)) eqn:El.
    + exists (it_current i). split; [done|]. right. split; [done|]. split; [done|].
      exists lg. split; [done|by apply loc_ltb_spec].
    + exists (it_end i). simpl. rewrite (ai_asc _ _ _ Hi). simpl. rewrite set_it_end_id. split; [done|].
      left. split; [done|]. intros (_ & lg' & Hlg' & Hlt). assert (lg' = lg) as -> by congruence.
      apply loc_ltb_spec in Hlt. congruence.
  - erewrite mbind_some by done. rewrite (ai_valid _ _ _ Hi). simpl. rewrite (ai_asc _ _ _ Hi). simpl.
    exists (it_end i). rewrite set_it_end_id. split; [done|]. left. split; [done|]. intros [? _]. congruence.
Qed.

Lemma asc_iter_move t hi i cur cached e :
  asc_iter t hi i -> loc_ok cur -> loc_le cur hi ->
  asc_iter t hi (set_it_end e (set_it_current cur (set_it_cachedGroup cached i))).
Proof. intros [] H1 H2. by constructor. Qed.
Lemma asc_iter_end t hi i e : asc_iter t hi i -> asc_iter t hi (set_it_end e i).
Proof. intros []. by constructor. Qed.
Lemma asc_iter_current t hi i cur :
  asc_iter t hi i -> loc_ok cur -> loc_le cur hi -> asc_iter t hi (set_it_current cur i).
Proof. intros [] H1 H2. by constructor. Qed.

Lemma iter_ok_end c tr i e : iter_ok c tr i -> iter_ok c tr (set_it_end e i).
Proof. intros []. by constructor. Qed.

(** The iterator a fetch starts with. *)
Lemma newIterator_asc c t tr start hi order :
  theTracks c !! t = Some tr -> isNewestFirst order = false -> loc_ok start -> loc_ok hi -> loc_le start hi ->
  track_ok c tr ->
  exists i, newFetchRangeIterator start hi order t c = Some (i, c) /\ asc_iter t hi i /\ iter_ok c tr i /\
    it_end i = hi /\ it_minLocation i = start /\ it_order i = order /\ loc_le start (it_current i) /\
    (iset_contains (gaps tr) (it_current i) = true -> it_current i = hi) /\
    forall l, loc_ok l -> in_range start (it_current i) l -> iset_contains (gaps tr) l = true.
Proof.
  intros Ht Ho Hs Hh Hle Hok. unfold newFetchRangeIterator.
  rewrite (mbind_some _ _ _ _ _ (getTrack_lookup c t tr Ht)), Ho. simpl. erewrite mbind_some by done.
  set (i0 := mkIter start hi order t start hi true _ _ _ _).
  destruct (skipGaps_asc_run i0 c tr) as (cur & H1 & H2 & H3 & H4 & H5 & H6); try done.
  exists (set_it_current cur i0). split; [exact H1|]. split_and!; try done; simpl in *.
  - constructor; [apply Hok|]. simpl. done.
  - destruct H5; congruence.
  - intros l Hl [Hl1 Hl2]. by apply H6.
Qed.

(** ** Serving from the cache *)
(** A task runs while it does not wait. *)
Fixpoint run_fetch (fuel : nat) (inp : Inputs) k : M FetchSys (FetchTask * list FetchEvent) :=
  match fuel with
  | O => mret (k, [])
  | S fuel =>
    match ft_await k with
    | LoopHead =>
      '(k1, evs1) ← fetchImpl inp k;
      '(k2, evs2) ← run_fetch fuel inp k1;
      mret (k2, evs1 ++ evs2)
    | _ => mret (k, [])
    end
  end.

(** The calls for a list of objects: the last one ends the fetch, and a fetch
    with no object is ended by itself. *)
Fixpoint publish_rest (l : list (AbsoluteLocation * CacheEntry)) : list FetchCall :=
  match l with
  | [] => []
  | p :: r =>
    (match publishObject p.1 p.2 (match r with [] => true | _ => false end) with
     | Some call => [call] | None => [] end) ++ publish_rest r
  end.
Definition publish_all (l : list (AbsoluteLocation * CacheEntry)) : list FetchCall :=
  match l with [] => [FEndOfFetch] | _ => publish_rest l end.

(** The objects of the range, in order. *)
Definition serves c tr (now : Z) (lo hi : AbsoluteLocation) (l : list (AbsoluteLocation * CacheEntry)) : Prop :=
  StronglySorted (fun a b => loc_lt a.1 b.1) l /\
  forall p e, (p, e) ∈ l <->
    loc_ok p /\ in_range lo hi p /\ iset_contains (gaps tr) p = false /\ servable c tr now p e.

Section from_cache.
Context (s : FetchSys) (t : tref) (tr : CacheTrack) (now : Z) (inp : Inputs) (hi : AbsoluteLocation).
Context (Htr : theTracks (fs_cache s) !! t = Some tr) (Hok : track_ok (fs_cache s) tr) (Hhi : loc_ok hi).
Context (Hrun : in_cancelled inp = false) (Hcons : in_consumer inp = Ok tt).

(** A position the cache can answer for. *)
Definition known (l : AbsoluteLocation) : Prop :=
  findFetchInProgress tr l = None /\
  (iset_contains (gaps tr) l = true \/
   exists e, servable (fs_cache s) tr now l e /\ exists_ (ce_status e) = true /\
     ~ track_ended tr l).

Record at_head k : Prop := {
  ah_await : ft_await k = LoopHead;
  ah_track : ft_track k = t;
  ah_start : ft_fetchStart k = None;
  ah_now : ft_cachedNow k = now;
  ah_iter : asc_iter t hi (ft_it k);
  ah_ok : iter_ok (fs_cache s) tr (ft_it k);
  ah_stop : iset_contains (gaps tr) (it_current (ft_it k)) = true -> it_current (ft_it k) = hi;
  ah_end : it_end (ft_it k) = hi \/ (it_end (ft_it k) = it_current (ft_it k) /\ track_ended tr (it_current (ft_it k)));
}.

Definition result_of k : FetchResult :=
  Ok (match ft_handle k with
      | Some _ => None
      | None => Some (newHandle (rangeOk tr (ft_fetch k) noExtensions))
      end).

(** The last round. *)
Lemma round_done k :
  at_head k -> it_current (ft_it k) = hi \/ track_ended tr (it_current (ft_it k)) ->
  exists k', fetchImpl inp k s =
    Some ((k', if ft_lastObject k && ft_servedOneObject k then [] else [ToConsumer FEndOfFetch]), s) /\
    ft_await k' = Finished (result_of k).
Proof.
  intros Hk Hd. unfold fetchImpl. rewrite (ah_await _ Hk). unfold fetchImpl_round. rewrite Hrun.
  destruct (endOf_asc _ tr t hi (ft_it k) (ah_iter _ Hk) Htr Hok) as (e & He & Hcase).
  rewrite (onCache_bind _ _ _ _ He).
  assert (e = it_current (ft_it k)) as ->.
  { destruct Hcase as [[-> Hn]|[-> _]]; [|done]. destruct (ah_end _ Hk) as [Hh|[Hh _]]; [|done].
    destruct Hd as [Hd|Hd]; [congruence|done]. }
  cbn [it_current set_it_end set_ft_it ft_it].
  rewrite (proj2 (loc_eqb_spec _ _) eq_refl). unfold fetchImpl_exit.
  cbn [ft_fetchStart set_ft_it]. rewrite (ah_start _ Hk). unfold fetchImpl_end, result_of.
  cbn [ft_handle set_ft_it ft_lastObject ft_servedOneObject]. destruct (ft_handle k) eqn:Eh.
  - eexists. split; done.
  - cbn [ft_track set_ft_it]. rewrite (ah_track _ Hk).
    rewrite (onCache_bind _ _ _ _ (getTrack_lookup _ _ _ Htr)). eexists. split; done.
Qed.

(** A round that serves an object. *)
Lemma round_hit k e :
  at_head k -> loc_lt (it_current (ft_it k)) hi -> ~ track_ended tr (it_current (ft_it k)) ->
  findFetchInProgress tr (it_current (ft_it k)) = None ->
  iset_contains (gaps tr) (it_current (ft_it k)) = false ->
  servable (fs_cache s) tr now (it_current (ft_it k)) e -> exists_ (ce_status e) = true ->
  exists k' call last, fetchImpl inp k s = Some ((k', [ToConsumer call]), s) /\ at_head k' /\
    publishObject (it_current (ft_it k)) e last = Some call /\
    ft_handle k' = ft_handle k /\ ft_fetch k' = ft_fetch k /\
    ft_lastObject k' = last /\ ft_servedOneObject k' = true /\
    (last = true <-> it_current (ft_it k') = hi \/ track_ended tr (it_current (ft_it k'))) /\
    loc_lt (it_current (ft_it k)) (it_current (ft_it k')) /\
    forall l, loc_ok l -> loc_lt (it_current (ft_it k)) l -> loc_lt l (it_current (ft_it k')) ->
      iset_contains (gaps tr) l = true \/ not_cached (fs_cache s) tr l.
Proof.
  intros Hk Hlt Hne Hfip Hg Hs Hex. unfold fetchImpl. rewrite (ah_await _ Hk). unfold fetchImpl_round. rewrite Hrun.
  assert (Hend : it_end (ft_it k) = hi) by (destruct (ah_end _ Hk) as [?|[_ ?]]; done).
  destruct (endOf_asc _ tr t hi (ft_it k) (ah_iter _ Hk) Htr Hok) as (e0 & He & Hcase).
  rewrite (onCache_bind _ _ _ _ He). destruct Hcase as [[-> _]|[_ ?]]; [|done]. rewrite set_it_end_id, Hend.
  replace (loc_eqb (it_current (ft_it k)) hi) with false by (clear -Hlt; loc_lia).
  cbn [ft_track set_ft_it]. rewrite (ah_track _ Hk), (onCache_bind _ _ _ _ (getTrack_lookup _ _ _ Htr)), Hfip.
  unfold fetchImpl_lookup. cbn [ft_track ft_cachedNow set_ft_it]. rewrite (ah_track _ Hk), (ah_now _ Hk).
  rewrite (onCache_bind _ _ _ _ (lookup_hit _ _ _ _ _ _ Htr Hs)).
  rewrite (onCache_bind _ _ _ _ (getTrack_lookup _ _ _ Htr)). rewrite bool_decide_eq_true_2 by eauto. cbn [negb andb].
  destruct Hs as (r & g & Hr & Hgr & Ho & Hc & Hx). rewrite Hr. erewrite sbind by (cbn; erewrite sbind by done; done).
  cbn [ft_fetchStart set_ft_it]. rewrite (ah_start _ Hk). unfold atBoundary, publishHit. cbn [ft_it set_ft_it].
  pose proof (ah_iter _ Hk) as Hi.
  destruct (next_asc_run (ft_it k) (fs_cache s) tr) as (cur & cached & N1 & N2 & N3 & N4 & N5 & N6 & N7);
    [rewrite (ai_track _ _ _ Hi); exact Htr|apply Hi|apply Hi|apply Hi|by rewrite Hend|rewrite Hend; symmetry; apply Hi
    |by rewrite Hend|apply (ah_ok _ Hk)|].
  rewrite Hend in N5, N6. rewrite (onCache_bind _ _ _ _ N1). clear N1.
  set (i1 := set_it_current cur (set_it_cachedGroup cached (ft_it k))) in *.
  assert (Hi1 : asc_iter t hi i1) by (unfold i1; destruct Hi; by constructor).
  destruct (endOf_asc _ tr t hi i1 Hi1 Htr Hok) as (e1 & He1 & Hcase1).
  rewrite (onCache_bind _ _ _ _ He1). cbn [it_current set_it_end].
  rewrite (onCache_bind _ _ _ _ (getGroup_lookup _ _ _ Hgr)), Ho. erewrite sbind by done.
  change (it_current i1) with cur.
  assert (Hpub : exists call, publishObject (it_current (ft_it k)) e (loc_eqb cur e1) = Some call)
    by (unfold publishObject; destruct (ce_status e); try done; eauto).
  destruct Hpub as [call Hcall]. rewrite Hcall, Hcons. cbn [it_end] in Hcase1.
  change (it_current i1) with cur in Hcase1. change (it_end i1) with (it_end (ft_it k)) in Hcase1. rewrite Hend in Hcase1.
  eexists _, call, (loc_eqb cur e1). split; [done|]. split.
  { constructor; cbn [ft_await ft_track ft_fetchStart ft_cachedNow ft_it set_ft_await set_ft_served set_ft_lastObject set_ft_it].
    - done.
    - apply (ah_track _ Hk).
    - apply (ah_start _ Hk).
    - apply (ah_now _ Hk).
    - by apply asc_iter_end.
    - by apply iter_ok_end.
    - exact N6.
    - cbn. destruct Hcase1 as [[-> _]|[-> ?]]; [by left|by right]. }
  split; [done|].
  cbn [ft_handle ft_fetch ft_lastObject ft_servedOneObject ft_it set_ft_await set_ft_served set_ft_lastObject set_ft_it].
  split_and!; [done|done|done|rewrite Hex; by rewrite orb_true_r| |exact N4|].
  - rewrite loc_eqb_spec. cbn. destruct Hcase1 as [[-> ?]|[-> ?]]; split; auto. intros [?|?]; done.
  - intros l Hl H1 H2. destruct (N7 l Hl H1 H2) as [?|[_ Hb]]; [by left|right]. by eapply beyond_not_cached.
Qed.

Lemma servable_fun c l e e' : servable c tr now l e -> servable c tr now l e' -> e = e'.
Proof. intros (r & g & ? & ? & ? & _) (r' & g' & ? & ? & ? & _). congruence. Qed.

Lemma track_ended_le l l' : track_ended tr l -> loc_le l l' -> track_ended tr l'.
Proof. intros (H1 & lg & H2 & H3) Hle. split; [done|]. exists lg. split; [done|]. clear -H3 Hle. loc_lia. Qed.

Definition rest_calls k (l : list (AbsoluteLocation * CacheEntry)) : list FetchCall :=
  match l with
  | [] => if ft_lastObject k && ft_servedOneObject k then [] else [FEndOfFetch]
  | _ => publish_rest l
  end.

Lemma serves_nil lo :
  loc_ok lo -> lo = hi \/ track_ended tr lo -> (forall l, loc_ok l -> in_range lo hi l -> known l) ->
  serves (fs_cache s) tr now lo hi [].
Proof.
  intros Hlo Hd Hkn. split; [constructor|]. intros p e. split; [by intros ?%elem_of_nil|].
  intros (Hp & [H1 H2] & Hg & Hs). exfalso. destruct Hd as [->|Hd]; [clear -H1 H2; loc_lia|].
  destruct (Hkn p Hp (conj H1 H2)) as (_ & [?|(e' & _ & _ & Hne)]); [congruence|].
  destruct Hne. by eapply track_ended_le.
Qed.

Lemma serves_cons lo lo' e l :
  loc_ok lo -> loc_lt lo lo' -> loc_lt lo hi -> iset_contains (gaps tr) lo = false ->
  servable (fs_cache s) tr now lo e ->
  (forall p, loc_ok p -> loc_lt lo p -> loc_lt p lo' ->
     iset_contains (gaps tr) p = true \/ not_cached (fs_cache s) tr p) ->
  serves (fs_cache s) tr now lo' hi l -> serves (fs_cache s) tr now lo hi ((lo, e) :: l).
Proof.
  intros Hlo Hlt Hhi' Hg He Hskip [Hsort Hin]. split.
  - constructor; [done|]. apply Forall_forall. intros [p e'] Hp. apply Hin in Hp as (_ & [Hp _] & _).
    simpl. clear -Hp Hlt. loc_lia.
  - intros p e'. rewrite elem_of_cons, Hin. split.
    + intros [[= -> ->]|(Hp & [H1 H2] & H3)].
      * split_and!; try done. split; [clear; loc_lia|done].
      * split_and!; try apply H3; [done|]. split; [clear -H1 Hlt; loc_lia|done].
    + intros (Hp & [H1 H2] & Hgp & Hs).
      destruct (loc_eqb lo p) eqn:E.
      { apply loc_eqb_spec in E as <-. left. by rewrite (servable_fun _ _ _ _ He Hs). }
      right. split_and!; try done. split; [|done]. destruct (loc_leb lo' p) eqn:E'; [by apply loc_leb_spec|].
      apply loc_leb_false in E'. assert (Hgt : loc_lt lo p) by (clear -E H1; loc_lia).
      destruct (Hskip p Hp Hgt E') as [?|Hn]; [congruence|].
      destruct Hs as (r & g & Hr & Hgr & Ho & Hc & _). rewrite (Hn r g e' Hr Hgr Ho) in Hc. done.
Qed.

Lemma serve_rest n : forall k,
  at_head k -> (length (List.filter (loc_leb (it_current (ft_it k))) (all_entries (fs_cache s) tr)) <= n)%nat ->
  (forall l, loc_ok l -> in_range (it_current (ft_it k)) hi l -> known l) ->
  exists fuel k' l, run_fetch fuel inp k s = Some ((k', map ToConsumer (rest_calls k l)), s) /\
    serves (fs_cache s) tr now (it_current (ft_it k)) hi l /\ ft_await k' = Finished (result_of k) /\
    (l = [] <-> it_current (ft_it k) = hi \/ track_ended tr (it_current (ft_it k))).
Proof.
  induction n as [n IH] using lt_wf_ind. intros k Hk Hn Hkn. pose proof (ah_iter _ Hk) as Hi.
  destruct (decide (it_current (ft_it k) = hi)) as [Hd|Hd];
    [|destruct (track_ended_dec tr (it_current (ft_it k))) as [He|He]].
  1,2: assert (Hdone : it_current (ft_it k) = hi \/ track_ended tr (it_current (ft_it k))) by auto;
    destruct (round_done k Hk Hdone) as (k' & Hr & Hf); exists 1%nat, k', []; cbn [run_fetch];
    rewrite (ah_await _ Hk), (sbind _ _ _ _ _ Hr); split_and!; [|by apply serves_nil; [apply Hi| |]|done|done];
    unfold rest_calls; by destruct (ft_lastObject k && ft_servedOneObject k).
  assert (Hlt : loc_lt (it_current (ft_it k)) hi).
  { pose proof (ai_le _ _ _ Hi) as Hle0. destruct (loc_ltb (it_current (ft_it k)) hi) eqn:E; [by apply loc_ltb_spec|].
    apply loc_ltb_false in E. destruct Hd. apply loc_eq_ext; clear -E Hle0; loc_lia. }
  destruct (Hkn (it_current (ft_it k))) as (Hfip & Hcase); [apply Hi|split; [clear; loc_lia|done]|].
  assert (Hg : iset_contains (gaps tr) (it_current (ft_it k)) = false).
  { apply not_true_iff_false. intros Hg. by apply Hd, (ah_stop _ Hk). }
  destruct Hcase as [?|(e & Hs & Hex & _)]; [congruence|].
  destruct (round_hit k e Hk Hlt He Hfip Hg Hs Hex) as
    (k1 & call & last & Hr & Hk1 & Hcall & Hh & Hf & Hl & Hsv & Hlast & Hmv & Hskip).
  assert (Hdec : (length (List.filter (loc_leb (it_current (ft_it k1))) (all_entries (fs_cache s) tr)) <
                  length (List.filter (loc_leb (it_current (ft_it k))) (all_entries (fs_cache s) tr)))%nat).
  { apply (filter_length_lt _ _ _ (it_current (ft_it k))); [|by eapply servable_entry|by apply loc_leb_spec; clear; loc_lia
      |by apply loc_leb_false].
    intros y. rewrite !loc_leb_spec. clear -Hmv. loc_lia. }
  destruct (IH _ ltac:(eapply Nat.lt_le_trans; [exact Hdec|exact Hn]) k1 Hk1 (le_n _)) as (fuel & k' & l & Hrun' & Hsrv & Hfin & Hnil).
  { intros l Hl' [H1 H2]. apply Hkn; [done|]. split; [clear -H1 Hmv; loc_lia|done]. }
  exists (S fuel), k', ((it_current (ft_it k), e) :: l). split_and!.
  - cbn [run_fetch]. rewrite (ah_await _ Hk), (sbind _ _ _ _ _ Hr), (sbind _ _ _ _ _ Hrun').
    cbn. rewrite <- Hl in Hcall. unfold rest_calls. rewrite Hsv, andb_true_r.
    assert (Hb : ft_lastObject k1 = match l with [] => true | _ => false end).
    { rewrite Hl. destruct l as [|p l]; [apply Hlast; tauto|]. destruct last; [|done].
      exfalso. assert (p :: l = []) by (apply Hnil; tauto). done. }
    rewrite Hb in Hcall |- *. rewrite Hcall. by destruct l.
  - eapply serves_cons; try done. apply Hi.
  - rewrite Hfin. unfold result_of. by rewrite Hh, Hf.
  - split; [done|]. intros [?|?]; done.
Qed.
End from_cache.

(** ** A fetch of a cached track *)
(** The request with its end made exclusive, whether FETCH_OK is sent at once,
    and the end of the range that is then served. *)
Definition wholeRange (f : Fetch) : Fetch := set_f_end (toExclusiveEnd (f_end f)) f.
Definition answersAtOnce tr (f : Fetch) : bool :=
  match largestGroupAndObject tr with
  | Some lg => (0 <? liveWritebackCount tr) ||
               match prev (f_end (wholeRange f)) with Some last => loc_leb last lg | None => false end
  | None => false
  end.
Definition servedEnd tr (f : Fetch) : AbsoluteLocation :=
  if answersAtOnce tr f then (fetchOkEnd tr (f_start f) (f_end (wholeRange f))).1 else f_end (wholeRange f).

Lemma toExclusiveEnd_ok l : loc_ok l -> loc_ok (toExclusiveEnd l).
Proof.
  intros Hl. pose proof kLocationMax_range. unfold toExclusiveEnd. case_test; [done|]. rewrite nextGroup_spec.
  case_test; simpl; loc_lia.
Qed.

Lemma fetchOkEnd_range c tr start hi :
  track_ok c tr -> loc_ok start -> loc_ok hi -> loc_le start hi ->
  loc_ok (fetchOkEnd tr start hi).1 /\ loc_le start (fetchOkEnd tr start hi).1.
Proof.
  intros Hok Hs Hh Hle. unfold fetchOkEnd. destruct (largestGroupAndObject tr) as [l|] eqn:El; simpl; [|done].
  pose proof (to_largest _ _ Hok l El) as Hl.
  assert (Hte : loc_ok (default kLocationMax (next l))).
  { destruct (next l) as [n|] eqn:En; [by apply (next_some l n Hl En)|]. pose proof kLocationMax_range. simpl. loc_lia. }
  repeat case_test; simpl; try done; [split; [done|clear; loc_lia]|].
  apply loc_leb_false in Eb0. split; [done|clear -Eb0; loc_lia].
Qed.

(** (C16) A fetch that the cache can answer, in ascending order: every position
    of the range is a known gap or holds a complete, fresh object, and no other
    fetch is writing there.  Then the fetch runs to its end without any
    upstream request and without changing the cache, and gives the consumer
    exactly the objects of the range that are not in a gap, each once and in
    order, the last one marked as the end (or the end alone, if there is none). *)
Theorem fetch_from_cache s (f : Fetch) t tr now (inp : Inputs) :
  cache_ (fs_cache s) !! f_ftn f = Some t -> theTracks (fs_cache s) !! t = Some tr -> track_ok (fs_cache s) tr ->
  isNewestFirst (f_groupOrder f) = false -> loc_ok (f_start f) -> loc_ok (f_end f) ->
  loc_lt (f_start f) (toExclusiveEnd (f_end f)) ->
  in_cancelled inp = false -> in_consumer inp = Ok tt ->
  (forall l, loc_ok l -> in_range (f_start f) (servedEnd tr f) l -> known s tr now l) ->
  exists h k fuel k' l,
    fetch f now s = Some ((Serving h k, []), s) /\
    run_fetch fuel inp k s = Some ((k', map ToConsumer (publish_all l)), s) /\
    serves (fs_cache s) tr now (f_start f) (servedEnd tr f) l /\
    h = (if answersAtOnce tr f then Some (newHandle (rangeOk tr (wholeRange f) (extensions tr))) else None) /\
    ft_await k' = Finished (Ok (match h with
                                | Some _ => None
                                | None => Some (newHandle (rangeOk tr (wholeRange f) noExtensions))
                                end)).
Proof.
  intros Hf Ht Hok Ho Hs He Hlt Hc Hcons Hkn.
  pose proof (toExclusiveEnd_ok _ He) as Hx.
  destruct (prev_cut _ _ Hx Hs Hlt) as (last & Hlast & _).
  assert (Hle : loc_le (f_start f) (toExclusiveEnd (f_end f))) by (clear -Hlt; loc_lia).
  assert (Hend : loc_ok (servedEnd tr f) /\ loc_le (f_start f) (servedEnd tr f)).
  { unfold servedEnd. case_test; [by eapply fetchOkEnd_range|by split]. }
  destruct Hend as [Hhi Hle'].
  destruct (newIterator_asc (fs_cache s) t tr (f_start f) (servedEnd tr f) (f_groupOrder f) Ht Ho Hs Hhi Hle' Hok) as
    (i & Hi & Hai & Hio & Hie & Him & Hior & Hist & Hstop & Hskip).
  set (h := if answersAtOnce tr f then Some (newHandle (rangeOk tr (wholeRange f) (extensions tr))) else None).
  set (k := mkTask h (set_f_end (servedEnd tr f) (wholeRange f)) t i None false false now LoopHead).
  assert (Hfetch : fetch f now s = Some ((Serving h k, []), s)).
  { unfold fetch. erewrite sbind by done. rewrite Hf. cbn [f_end set_f_end]. rewrite Hlast.
    erewrite sbind by done. rewrite (onCache_bind _ _ _ _ (getTrack_lookup _ _ _ Ht)).
    unfold k, h, servedEnd in *. unfold answersAtOnce in *. unfold wholeRange in *. cbn [f_end set_f_end] in *.
    rewrite Hlast in *.
    destruct (largestGroupAndObject tr) as [lg|]; [case_test|].
    all: unfold fetchImpl_start; cbn [f_start f_end f_groupOrder set_f_end];
      erewrite sbind by (rewrite (onCache_bind _ _ _ _ Hi); done); done. }
  assert (Hat : at_head s t tr now (servedEnd tr f) k).
  { constructor; try done. by left. }
  destruct (serve_rest s t tr now inp (servedEnd tr f) Ht Hok Hhi Hc Hcons _ k Hat (le_n _)) as
    (fuel & k' & l & Hrun & Hsrv & Hfin & _).
  { intros l Hl [H1 H2]. apply Hkn; [done|]. split; [|done]. cbn [ft_it k] in H1. clear -H1 Hist. loc_lia. }
  exists h, k, fuel, k', l. split_and!; [done|by destruct l|..|done|].
  - destruct Hsrv as [Hsort Hin]. split; [done|]. intros p e. rewrite Hin. split.
    + intros (Hp & [H1 H2] & ?). split_and!; try tauto. split; [cbn [ft_it k] in H1; clear -H1 Hist; loc_lia|done].
    + intros (Hp & [H1 H2] & Hg & ?). split_and!; try tauto. split; [|done].
      destruct (loc_leb (it_current i) p) eqn:E; [by apply loc_leb_spec|]. apply loc_leb_false in E.
      rewrite (Hskip p Hp (conj H1 E)) in Hg. done.
  - rewrite Hfin. unfold result_of, k, h. cbn [ft_handle ft_fetch]. unfold servedEnd.
    by destruct (answersAtOnce tr f).
Qed.
End ascending_fetch.
