(* ===== verification/CacheFetchCover.v ===== *)
(** A fetch among other activity, in ascending order: every position of its range
    is served from the cache, requested upstream, or known to hold nothing, in
    order and without overlap.

    Between two steps of the task anything may happen to the store; what is
    required is that a step finds the track readable and what the task holds
    still in place ([undisturbed]). *)

From Stdlib Require Import Init.Byte.
From S2P Require Import Prelude Location CacheRanges CacheState CacheObject CacheEvict CacheWriteback CacheIterator CacheFetchWriteback CacheFetch CacheFetchTheorems.
From S2P Require Import CacheWitness.

Section cover.
Context `{LL : LocationLaws} `{!IntervalSetApi} `{IL : !IntervalSetLaws} `{EA : ExtensionsApi} `{FP : FetchParams}.
Implicit Types (c : MoqxCache) (i : FetchRangeIterator) (k : FetchTask) (s : FetchSys) (evs : list FetchEvent).

(** ** What happens to a position *)
Definition call_at (call : FetchCall) : option AbsoluteLocation :=
  match call with
  | FObject g _ o _ _ _ _ | FEndOfGroup g _ o _ | FEndOfTrackAndGroup g _ o => Some (Loc g o)
  | _ => None
  end.
Definition served evs (l : AbsoluteLocation) : Prop :=
  exists call, ToConsumer call ∈ evs /\ call_at call = Some l.
Definition requested evs (l : AbsoluteLocation) : Prop :=
  exists w r, UpstreamFetch w r ∈ evs /\ in_range (f_start r) (toExclusiveEnd (f_end r)) l.

Definition group_ended c tr (l : AbsoluteLocation) : Prop :=
  exists r g, groups tr !! group l = Some r /\ theGroups c !! r = Some g /\
    endOfGroup g = true /\ maxCachedObject g < object l.
(** The cache knows that there is no object at [l]. *)
Definition absent (t : tref) (l : AbsoluteLocation) c : Prop :=
  exists tr, theTracks c !! t = Some tr /\
    (iset_contains (gaps tr) l = true \/ track_ended tr l \/ group_ended c tr l).
(** The cache holds the object that [call] publishes. *)
Definition holds (t : tref) (l : AbsoluteLocation) (call : FetchCall) c : Prop :=
  exists tr r g e last, theTracks c !! t = Some tr /\ groups tr !! group l = Some r /\
    theGroups c !! r = Some g /\ objects g !! object l = Some e /\ ce_complete e = true /\
    publishObject l e last = Some call.

Definition accounted (t : tref) (hist : list MoqxCache) evs (l : AbsoluteLocation) : Prop :=
  served evs l \/ requested evs l \/ Exists (absent t l) hist.

(** The events from [p] on, in order, are below [q]. *)
Inductive ordered (p : AbsoluteLocation) : list FetchEvent -> AbsoluteLocation -> Prop :=
  | ord_nil q : loc_le p q -> ordered p [] q
  | ord_data evs q1 call l q : ordered p evs q1 -> call_at call = Some l -> loc_le q1 l -> loc_lt l q ->
      ordered p (evs ++ [ToConsumer call]) q
  | ord_request evs q1 w r q : ordered p evs q1 -> loc_le q1 (f_start r) ->
      loc_le (f_start r) (toExclusiveEnd (f_end r)) -> loc_le (toExclusiveEnd (f_end r)) q ->
      ordered p (evs ++ [UpstreamFetch w r]) q
  | ord_control evs call q : ordered p evs q -> call_at call = None -> ordered p (evs ++ [ToConsumer call]) q.

Lemma ordered_le p evs q q' : ordered p evs q -> loc_le q q' -> ordered p evs q'.
Proof.
  intros Ho. revert q'. induction Ho; intros q' Hle.
  - constructor. loc_lia.
  - econstructor; try done. loc_lia.
  - econstructor; try done. loc_lia.
  - constructor; auto.
Qed.

Lemma accounted_app t hist evs evs' l : accounted t hist evs l -> accounted t hist (evs ++ evs') l.
Proof.
  intros [(call & Hin & Hat)|[(w & r & Hin & Hr)|?]].
  - left. exists call. split; [apply elem_of_app; by left|done].
  - right; left. exists w, r. split; [apply elem_of_app; by left|done].
  - by right; right.
Qed.

(** Everything from [lo] up to [p] is dealt with. *)
Record settled (t : tref) (hist : list MoqxCache) (lo : AbsoluteLocation) evs (p : AbsoluteLocation) : Prop := {
  st_order : ordered lo evs p;
  st_all l : loc_ok l -> in_range lo p l -> accounted t hist evs l;
  st_data call l : ToConsumer call ∈ evs -> call_at call = Some l -> Exists (holds t l call) hist;
}.

Lemma settled_hist t hist hist' lo evs p :
  settled t hist lo evs p -> hist ⊆ hist' -> settled t hist' lo evs p.
Proof.
  intros [H1 H2 H3] Hsub. constructor; [done|..].
  - intros l Hl Hr. destruct (H2 l Hl Hr) as [?|[?|Hex]]; [by left|by right; left|right; right].
    apply Exists_exists in Hex as (c & Hc & Ha). apply Exists_exists. eauto.
  - intros call l Hin Hat. specialize (H3 call l Hin Hat). apply Exists_exists in H3 as (c & Hc & Ha).
    apply Exists_exists. eauto.
Qed.

Lemma sub_cons (c : MoqxCache) hist : hist ⊆ c :: hist.
Proof. intros x Hx. by apply list_elem_of_further. Qed.

(** The positions from [p] to [q] are absent in a state of the history. *)
Lemma settled_absent t hist lo evs p q :
  settled t hist lo evs p -> loc_le p q ->
  (forall l, loc_ok l -> in_range p q l -> Exists (absent t l) hist) -> settled t hist lo evs q.
Proof.
  intros [H1 H2 H3] Hle Ha. constructor; [by eapply ordered_le| |done].
  intros l Hl [Hl1 Hl2]. destruct (loc_ltb l p) eqn:E.
  - apply H2; [done|]. split; [done|by apply loc_ltb_spec].
  - right; right. apply Ha; [done|]. split; [by apply loc_ltb_false|done].
Qed.

Lemma settled_request t hist lo evs p q w r :
  settled t hist lo evs p -> f_start r = p -> toExclusiveEnd (f_end r) = q -> loc_le p q ->
  settled t hist lo (evs ++ [UpstreamFetch w r]) q.
Proof.
  intros [H1 H2 H3] Hs He Hle. constructor.
  - eapply ord_request; [done|..]; rewrite ?Hs, ?He; [clear; loc_lia|done|clear; loc_lia].
  - intros l Hl [Hl1 Hl2]. destruct (loc_ltb l p) eqn:E.
    + apply accounted_app, H2; [done|]. split; [done|by apply loc_ltb_spec].
    + right; left. exists w, r. split; [apply elem_of_app; right; apply list_elem_of_here|].
      rewrite Hs, He. split; [by apply loc_ltb_false|done].
  - intros call l [Hin|Hin]%elem_of_app Hat; [by eapply H3|]. apply list_elem_of_singleton in Hin. done.
Qed.

Lemma settled_data t hist lo evs p q call c :
  settled t hist lo evs p -> call_at call = Some p -> holds t p call c -> c ∈ hist -> loc_lt p q ->
  (forall l, loc_ok l -> loc_lt p l -> loc_lt l q -> Exists (absent t l) hist) ->
  settled t hist lo (evs ++ [ToConsumer call]) q.
Proof.
  intros [H1 H2 H3] Hat Hh Hc Hlt Ha. constructor.
  - eapply ord_data; [done|done|clear; loc_lia|done].
  - intros l Hl [Hl1 Hl2]. destruct (loc_ltb l p) eqn:E.
    + apply accounted_app, H2; [done|]. split; [done|by apply loc_ltb_spec].
    + destruct (loc_eqb l p) eqn:E'.
      * apply loc_eqb_spec in E' as ->. left. exists call. split; [apply elem_of_app; right; apply list_elem_of_here|done].
      * right; right. apply Ha; [done| |done]. clear -E E'. loc_lia.
  - intros call' l [Hin|Hin]%elem_of_app Hat'; [by eapply H3|]. apply list_elem_of_singleton in Hin as [= ->].
    assert (l = p) as -> by congruence. apply Exists_exists. eauto.
Qed.

Lemma settled_control t hist lo evs p call :
  settled t hist lo evs p -> call_at call = None -> settled t hist lo (evs ++ [ToConsumer call]) p.
Proof.
  intros [H1 H2 H3] Hn. constructor; [by constructor|..].
  - intros l Hl Hr. by apply accounted_app, H2.
  - intros call' l [Hin|Hin]%elem_of_app Hat'; [by eapply H3|]. apply list_elem_of_singleton in Hin as [= ->]. congruence.
Qed.

Ltac task_simpl :=
  cbn [ft_await ft_it ft_fetchStart ft_track ft_handle ft_fetch ft_cachedNow ft_lastObject ft_servedOneObject
       set_ft_handle set_ft_it set_ft_fetchStart set_ft_served set_ft_lastObject set_ft_now set_ft_await].

(** ** Runs of a task *)
(** What the task holds on to while it waits. *)
Definition held k : option (AbsoluteLocation * gref) :=
  match ft_await k with
  | WaitUpstream _ _ (mkFlush (AtBoundary l (Hit r)) _) | WaitComplete _ (mkFlush (AtBoundary l (Hit r)) _) => Some (l, r)
  | _ => None
  end.
Definition holds_object c tr (l : AbsoluteLocation) (r : gref) : Prop :=
  groups tr !! group l = Some r /\
  exists g e, theGroups c !! r = Some g /\ objects g !! object l = Some e /\ ce_complete e = true.
(** The track is readable, the group the iterator remembers is still the one of
    the track, and so is the object the task is about to serve. *)
Definition undisturbed k s : Prop :=
  exists tr, theTracks (fs_cache s) !! ft_track k = Some tr /\ track_ok (fs_cache s) tr /\
    iter_ok (fs_cache s) tr (ft_it k) /\
    (forall l r, held k = Some (l, r) -> holds_object (fs_cache s) tr l r).

(** A task, the store, the states the task has seen and the events so far. *)
Inductive fetch_run (handle : option FetchHandle) (f : Fetch) (t : tref)
  : FetchTask -> FetchSys -> list MoqxCache -> list FetchEvent -> Prop :=
  | run_start now s tr k s' : theTracks (fs_cache s) !! t = Some tr -> track_ok (fs_cache s) tr ->
      fetchImpl_start handle f t now s = Some (k, s') -> fetch_run handle f t k s' [fs_cache s] []
  | run_step inp k s hist evs k' evs' s' : fetch_run handle f t k s hist evs ->
      undisturbed k s -> in_cancelled inp = false -> fetchImpl inp k s = Some ((k', evs'), s') ->
      fetch_run handle f t k' s' (fs_cache s' :: fs_cache s :: hist) (evs ++ evs')
  | run_others k s hist evs s' : fetch_run handle f t k s hist evs -> fetch_run handle f t k s' hist evs.

Section task.
Context (t : tref) (lo hi : AbsoluteLocation).

Definition end_ok (hist : list MoqxCache) k : Prop :=
  it_end (ft_it k) = hi \/
  (it_end (ft_it k) = it_current (ft_it k) /\
   forall l, loc_ok l -> in_range (it_current (ft_it k)) hi l -> Exists (absent t l) hist).
Definition flush_ok (hist : list MoqxCache) evs k (fl : Flush) : Prop :=
  fl_rest fl = [] /\
  match fl_of fl with
  | AtBoundary cur _ => cur = it_current (ft_it k) /\ it_end (ft_it k) = hi /\ loc_lt cur hi /\
                        settled t hist lo evs cur
  | Tail => settled t hist lo evs hi
  end.

Definition cinv (hist : list MoqxCache) evs k : Prop :=
  ft_track k = t /\ asc_iter t hi (ft_it k) /\
  match ft_await k with
  | LoopHead => end_ok hist k /\
      (forall st, ft_fetchStart k = Some st -> loc_ok st /\ loc_le st (it_current (ft_it k))) /\
      settled t hist lo evs (default (it_current (ft_it k)) (ft_fetchStart k))
  | WaitFor _ cur => cur = it_current (ft_it k) /\ it_end (ft_it k) = hi /\ loc_lt cur hi /\ ft_fetchStart k = None /\
      settled t hist lo evs cur
  | WaitUpstream _ lastObject fl => flush_ok hist evs k fl /\ (lastObject = true -> fl_of fl = Tail)
  | WaitComplete _ fl => flush_ok hist evs k fl
  | WaitReady _ => end_ok hist k /\ ft_fetchStart k = None /\ settled t hist lo evs (it_current (ft_it k))
  | Finished (Ok _) => settled t hist lo evs hi
  | Finished (Err _) => True
  end.

Definition good (hist : list MoqxCache) evs s (m : M FetchSys (FetchTask * list FetchEvent)) : Prop :=
  forall k' evs' s', m s = Some ((k', evs'), s') -> cinv (fs_cache s' :: hist) (evs ++ evs') k'.

Lemma bind_good {A} hist evs s (m : M FetchSys A) f :
  (forall a s1, m s = Some (a, s1) -> good hist evs s1 (f a)) -> good hist evs s (m ≫= f).
Proof.
  intros Hf k' evs' s' Hr. unfold mbind, M_bind in Hr. destruct (m s) as [[a s1]|] eqn:E; [|done].
  by apply (Hf a s1 eq_refl).
Qed.
Lemma onCache_good {A} hist evs s (m : M MoqxCache A) f a :
  m (fs_cache s) = Some (a, fs_cache s) -> good hist evs s (f a) -> good hist evs s (onCache m ≫= f).
Proof. intros Hm Hg k' evs' s'. rewrite (onCache_bind _ _ _ _ Hm). apply Hg. Qed.

Lemma cinv_tail hist evs k c : cinv hist evs k -> cinv (c :: hist) evs k.
Proof.
  assert (Hs : forall p, settled t hist lo evs p -> settled t (c :: hist) lo evs p).
  { intros p Hp. eapply settled_hist; [done|]. apply sub_cons. }
  assert (He : end_ok hist k -> end_ok (c :: hist) k).
  { intros [?|[? Ha]]; [by left|right]. split; [done|]. intros l Hl Hr. apply Exists_cons. right. by apply Ha. }
  intros (H1 & H2 & H3). split; [done|]. split; [done|]. destruct (ft_await k) as [| | ? ? fl | ? fl | |[]]; try done.
  - destruct H3 as (? & ? & ?). auto.
  - destruct H3 as (? & ? & ? & ? & ?). split_and!; auto.
  - destruct H3 as [[? H3] Hl]. split; [|done]. split; [done|]. destruct (fl_of fl); [|auto].
    destruct H3 as (? & ? & ? & ?). auto.
  - destruct H3 as [? H3]. split; [done|]. destruct (fl_of fl); [|auto]. destruct H3 as (? & ? & ? & ?). auto.
  - destruct H3 as (? & ? & ?). auto.
  - auto.
Qed.

Lemma fail_good hist evs s code reason k evs0 :
  ft_track k = t -> asc_iter t hi (ft_it k) -> good hist evs s (fail code reason k evs0).
Proof. intros Ht Hi k' evs' s' [= <- <- <-]. split_and!; done. Qed.

Lemma publishObject_at l e last call : publishObject l e last = Some call -> call_at call = Some l.
Proof. unfold publishObject. destruct (ce_status e); intros [= <-]; destruct l; done. Qed.

(** Serving the object at the current position. *)
Lemma publishHit_good inp hist evs s k r tr :
  theTracks (fs_cache s) !! t = Some tr -> track_ok (fs_cache s) tr -> iter_ok (fs_cache s) tr (ft_it k) ->
  ft_track k = t -> asc_iter t hi (ft_it k) -> it_end (ft_it k) = hi -> loc_lt (it_current (ft_it k)) hi ->
  ft_fetchStart k = None -> settled t hist lo evs (it_current (ft_it k)) ->
  holds_object (fs_cache s) tr (it_current (ft_it k)) r ->
  good hist evs s (publishHit inp (it_current (ft_it k)) r k).
Proof.
  intros Htr Hok Hio Ht Hi Hend Hlt Hst Hset (Hr & g & e & Hg & He & Hc).
  destruct (next_asc_run (ft_it k) (fs_cache s) tr) as (cur & cached & N1 & N2 & N3 & N4 & N5 & N6 & N7);
    [rewrite (ai_track _ _ _ Hi); exact Htr|apply Hi|apply Hi|apply Hi|rewrite Hend; apply Hi
    |rewrite Hend; symmetry; apply Hi|by rewrite Hend|done|].
  rewrite Hend in N5. eapply onCache_good; [exact N1|]. clear N1.
  set (i1 := set_it_current cur (set_it_cachedGroup cached (ft_it k))).
  assert (Hi1 : asc_iter t hi i1) by (destruct Hi; by constructor).
  destruct (endOf_asc _ tr t hi i1 Hi1 Htr Hok) as (e1 & He1 & Hcase). eapply onCache_good; [exact He1|].
  cbn beta iota. eapply onCache_good; [exact (getGroup_lookup _ _ _ Hg)|]. rewrite He.
  intros k' evs' s'. erewrite sbind by done. cbn [it_current set_it_end]. change (it_current i1) with cur in *.
  change (it_end i1) with (it_end (ft_it k)) in *. rewrite Hend in Hcase.
  assert (Habs : forall l, loc_ok l -> loc_lt (it_current (ft_it k)) l -> loc_lt l cur ->
                  absent t l (fs_cache s)).
  { intros l Hl H1 H2. exists tr. split; [done|]. destruct (N7 l Hl H1 H2) as [?|[Hgl Hb]]; [by left|right; right].
    rewrite <- Hgl in Hr. destruct (Hb r Hr) as (g' & Hg' & [_ Hm] & Hlt' & Heog).
    assert (g' = g) as -> by congruence. exists r, g. split_and!; try done.
    destruct Heog as [?|Hlt'']; [done|]. specialize (Hm _ _ He Hc). lia. }
  assert (Hendok : forall x, x = e1 -> x = hi \/ (x = cur /\
    forall l, loc_ok l -> in_range cur hi l -> Exists (absent t l) (fs_cache s :: hist))).
  { intros x ->. destruct Hcase as [[-> _]|[-> Hte]]; [by left|right]. split; [done|].
    intros l _ [Hl _]. apply Exists_cons. left. exists tr. split; [done|]. right; left.
    by eapply track_ended_le. }
  assert (Hdata : forall call, publishObject (it_current (ft_it k)) e (loc_eqb cur e1) = Some call ->
            settled t (fs_cache s :: hist) lo (evs ++ [ToConsumer call]) cur).
  { intros call Hcall. apply (settled_data _ _ _ _ (it_current (ft_it k)) _ _ (fs_cache s)).
    - eapply settled_hist; [done|]. apply sub_cons.
    - by eapply publishObject_at.
    - by eexists tr, r, g, e, _.
    - apply list_elem_of_here.
    - done.
    - intros l Hl H1 H2. apply Exists_cons. left. by apply Habs. }
  assert (Hi1' : asc_iter t hi (set_it_end e1 i1)) by by apply asc_iter_end.
  destruct (publishObject _ e _) as [call|] eqn:Ecall; specialize (Hdata _ eq_refl) || clear Hdata.
  - destruct (in_consumer inp) as [|err].
    + intros [= <- <- <-]. split; [done|]. split; [done|]. task_simpl. rewrite Hst.
      split_and!; [by apply Hendok|done|done].
    + destruct (pe_code err); try (by refine (fail_good hist evs s _ _ _ _ _ _ k' evs' s')).
      destruct (in_ready inp); [|by refine (fail_good hist evs s _ _ _ _ _ _ k' evs' s')].
      intros [= <- <- <-]. split; [done|]. split; [done|]. task_simpl. split_and!; [by apply Hendok|done|done].
  - by refine (fail_good hist evs s _ _ _ _ _ _ k' evs' s').
Qed.

(** Stepping over a gap. *)
Lemma skipGaps_settled s tr hist evs i :
  theTracks (fs_cache s) !! t = Some tr -> asc_iter t hi i -> it_end i = hi -> settled t hist lo evs (it_current i) ->
  exists cur, it_skipGaps i (fs_cache s) = Some (set_it_current cur i, fs_cache s) /\
    asc_iter t hi (set_it_current cur i) /\ settled t (fs_cache s :: hist) lo evs cur.
Proof.
  intros Htr Hi Hend Hset.
  destruct (skipGaps_asc_run i (fs_cache s) tr) as (cur & H1 & H2 & H3 & H4 & _ & H6);
    [rewrite (ai_track _ _ _ Hi); exact Htr|apply Hi|apply Hi|apply Hi|rewrite Hend; apply Hi|rewrite Hend; apply Hi|].
  rewrite Hend in H4. exists cur. split; [done|]. split; [by apply asc_iter_current|].
  eapply settled_absent; [eapply settled_hist; [exact Hset|apply sub_cons]|done|].
  intros l Hl [Hl1 Hl2]. apply Exists_cons. left. exists tr. split; [done|]. left. by apply H6.
Qed.

Lemma atBoundary_good inp hist evs s k b tr :
  theTracks (fs_cache s) !! t = Some tr ->
  ft_track k = t -> asc_iter t hi (ft_it k) -> it_end (ft_it k) = hi -> loc_lt (it_current (ft_it k)) hi ->
  ft_fetchStart k = None -> settled t hist lo evs (it_current (ft_it k)) ->
  (forall r, b = Hit r -> track_ok (fs_cache s) tr /\ iter_ok (fs_cache s) tr (ft_it k) /\
     holds_object (fs_cache s) tr (it_current (ft_it k)) r) ->
  good hist evs s (atBoundary inp (it_current (ft_it k)) b k).
Proof.
  intros Htr Ht Hi Hend Hlt Hst Hset Hb. destruct b as [r| |].
  - destruct (Hb r eq_refl) as (H1 & H2 & H3). by eapply publishHit_good.
  - destruct (skipGaps_settled s tr hist evs (ft_it k) Htr Hi Hend Hset) as (cur & H1 & H2 & H3).
    eapply onCache_good; [exact H1|]. intros k' evs' s' [= <- <- <-]. rewrite app_nil_r.
    split; [done|]. split; [done|]. task_simpl. rewrite Hst. split_and!; [by left|done|done].
  - intros k' evs' s' [= <- <- <-]. rewrite app_nil_r. split; [done|]. split; [done|]. task_simpl. rewrite Hst.
    split_and!; [by left|done|]. eapply settled_hist; [done|apply sub_cons].
Qed.

Lemma adjFetchEnd_some e w : loc_ok e -> adjFetchEnd e = Some w -> toExclusiveEnd w = e.
Proof.
  intros He Hw. destruct (toExclusiveEnd_adjFetchEnd e He) as (w' & Hw' & Hx); [|congruence].
  unfold adjFetchEnd in Hw. rewrite prevGroup_spec in Hw. destruct (object e =? 0) eqn:E; [|clear -E He; loc_lia].
  destruct (0 <? group e) eqn:Eg; [|done]. clear -Eg. loc_lia.
Qed.

Lemma fetchUpstream_good hist evs s k iv last fl :
  ft_track k = t -> asc_iter t hi (ft_it k) -> settled t hist lo evs iv.1 -> loc_le iv.1 iv.2 -> loc_ok iv.2 ->
  fl_rest fl = [] -> (last = true -> fl_of fl = Tail) ->
  (match fl_of fl with
   | AtBoundary cur _ => cur = iv.2 /\ cur = it_current (ft_it k) /\ it_end (ft_it k) = hi /\ loc_lt cur hi
   | Tail => iv.2 = hi
   end) ->
  good hist evs s (fetchUpstream iv last fl k).
Proof.
  intros Ht Hi Hset Hle Hok Hrest Hlast Hof. unfold fetchUpstream.
  apply bind_good. intros wireEnd s1 Hw. destruct (adjFetchEnd iv.2) as [w'|] eqn:Ew; [|done].
  injection Hw as -> ->. apply (adjFetchEnd_some _ _ Hok) in Ew.
  apply bind_good. intros it s2 _. apply bind_good. intros w s3 _.
  intros k' evs' s' [= <- <- <-]. split; [done|]. split; [done|]. task_simpl. split; [|done]. split; [done|].
  assert (Hreq : settled t (fs_cache s3 :: hist) lo (evs ++ [UpstreamFetch w (mkFetch 0 (f_ftn (ft_fetch k)) iv.1 wireEnd
            (f_priority (ft_fetch k)) (f_groupOrder (ft_fetch k)))]) iv.2).
  { apply (settled_request _ _ _ _ iv.1); [|done|done|done]. eapply settled_hist; [done|apply sub_cons]. }
  destruct (fl_of fl) as [cur b|]; [|by rewrite <- Hof]. destruct Hof as (-> & Hc & Hend & Hlt). done.
Qed.

Lemma tailDone_good hist evs s k res evs0 :
  ft_track k = t -> asc_iter t hi (ft_it k) -> settled t hist lo (evs ++ evs0) hi ->
  good hist evs s (fetchImpl_tailDone res k evs0).
Proof.
  intros Ht Hi Hset. unfold fetchImpl_tailDone.
  assert (Hfin : forall r s1, good hist evs s1 (finish (Ok r) k evs0)).
  { intros r s1 k' evs' s' [= <- <- <-]. split; [done|]. split; [done|]. task_simpl.
    eapply settled_hist; [done|apply sub_cons]. }
  destruct (ft_handle k); [apply Hfin|]. apply bind_good. intros h s1 _. case_test; [apply Hfin|].
  apply bind_good. intros tr s2 _. apply Hfin.
Qed.

(** A flush whose one interval is still to be requested, or has been. *)
Lemma nextInterval_flush hist evs inp s k fl p q :
  ft_track k = t -> asc_iter t hi (ft_it k) -> fl_rest fl = [(p, q)] -> settled t hist lo evs p -> loc_le p q ->
  loc_ok q ->
  (match fl_of fl with
   | AtBoundary cur _ => cur = q /\ cur = it_current (ft_it k) /\ it_end (ft_it k) = hi /\ loc_lt cur hi
   | Tail => q = hi
   end) ->
  good hist evs s (nextInterval inp fl k).
Proof.
  intros Ht Hi Hrest Hset Hle Hok Hof. unfold nextInterval. rewrite Hrest.
  destruct (fl_of fl) as [cur b|] eqn:Ef; apply fetchUpstream_good; try done.
Qed.

Lemma lookup_cases c tr l now res c' :
  theTracks c !! t = Some tr -> getCachedObjectMaybe t l now c = Some (res, c') ->
  (exists tr', theTracks c' !! t = Some tr') /\
  (forall e, res = Some e -> c' = c /\ exists r, holds_object c tr l r).
Proof.
  intros Ht. unfold getCachedObjectMaybe. erewrite mbind_some by done.
  rewrite (mbind_some _ _ _ _ _ (getTrack_lookup c t tr Ht)).
  assert (Hnone : forall (x : M MoqxCache (option CacheEntry)), x = mret None -> x c = Some (res, c') ->
    (exists tr', theTracks c' !! t = Some tr') /\
    (forall e, res = Some e -> c' = c /\ exists r, holds_object c tr l r)).
  { intros x -> [= <- <-]. split; [eauto|done]. }
  destruct (groups tr !! group l) as [r|] eqn:Er; [|by apply Hnone].
  unfold getGroup. unfold mbind at 1, M_bind at 1. unfold mbind at 1, M_bind at 1, get. cbn beta iota.
  destruct (theGroups c !! r) as [g|] eqn:Eg; [|done]. cbn [deref mret M_ret].
  destruct (objects g !! object l) as [e|] eqn:Eo; [|by apply Hnone].
  destruct (isExpired _ now (ce_cachedAt e)).
  - unfold modTrack, getTrack, putTrack, putGroup, modify, mbind, M_bind, get, deref. cbn. rewrite Ht. cbn.
    intros [= <- <-]. split; [|done]. eexists. cbn. apply lookup_insert_eq.
  - destruct (ce_complete e) eqn:Ec; cbn [negb]; [|by apply Hnone]. intros [= <- <-]. split; [eauto|].
    intros e' [= <-]. split; [done|]. exists r. split; [done|]. by exists g, e.
Qed.

Lemma intervals_asc k st l tail :
  asc_iter t hi (ft_it k) ->
  getFetchIntervals (it_minLocation (ft_it k)) (it_maxLocation (ft_it k)) st l (it_order (ft_it k)) tail =
    [(st, if tail then hi else l)].
Proof.
  intros Hi. unfold getFetchIntervals. pose proof (ai_asc _ _ _ Hi) as Ho. unfold isDescending in Ho.
  by rewrite Ho, (ai_max _ _ _ Hi).
Qed.

(** The body of the loop. *)
Lemma fetchImpl_lookup_good hist evs inp s k tr flushBeforeWait :
  theTracks (fs_cache s) !! t = Some tr -> track_ok (fs_cache s) tr -> iter_ok (fs_cache s) tr (ft_it k) ->
  ft_track k = t -> asc_iter t hi (ft_it k) -> it_end (ft_it k) = hi -> loc_lt (it_current (ft_it k)) hi ->
  (forall st, ft_fetchStart k = Some st -> loc_ok st /\ loc_le st (it_current (ft_it k))) ->
  settled t hist lo evs (default (it_current (ft_it k)) (ft_fetchStart k)) ->
  good hist evs s (fetchImpl_lookup inp (it_current (ft_it k)) flushBeforeWait k).
Proof.
  intros Htr Hok Hio Ht Hi Hend Hlt Hst Hset. unfold fetchImpl_lookup. rewrite Ht.
  apply bind_good. intros cached s1 Hc.
  assert (Hcase : (exists tr', theTracks (fs_cache s1) !! t = Some tr') /\
    (forall e, cached = Some e -> s1 = s /\ exists r, holds_object (fs_cache s) tr (it_current (ft_it k)) r)).
  { destruct flushBeforeWait; [injection Hc as <- <-; split; [eauto|done]|].
    unfold onCache in Hc. destruct (getCachedObjectMaybe _ _ _ _) as [[res c']|] eqn:E; [|done].
    injection Hc as <- <-. destruct (lookup_cases _ _ _ _ _ _ Htr E) as [H1 H2]. split; [done|].
    intros e He. destruct (H2 e He) as [-> ?]. by destruct s. }
  clear Hc. destruct Hcase as [[tr' Htr'] Hhit]. eapply onCache_good; [exact (getTrack_lookup _ _ _ Htr')|].
  case_test.
  - destruct (skipUncached_asc_run (ft_it k) (fs_cache s1) tr') as (cur & H1 & H2 & H3 & H4 & _);
      [rewrite (ai_track _ _ _ Hi); exact Htr'|apply Hi|apply Hi|by rewrite Hend|].
    rewrite Hend in H4. eapply onCache_good; [exact H1|]. intros k' evs' s' [= <- <- <-]. rewrite app_nil_r.
    split; [done|]. split; [apply asc_iter_current; [done|apply H2; [apply Hi|rewrite Hend; apply Hi]|done]|].
    task_simpl. split_and!; [by left| |].
    + intros st [= <-]. cbn [it_current set_it_current]. destruct (ft_fetchStart k) as [st|]; cbn.
      * destruct (Hst st eq_refl) as [? Hle]. split; [done|clear -Hle H3; loc_lia].
      * split; [apply Hi|done].
    + cbn. eapply settled_hist; [done|apply sub_cons].
  - apply bind_good. intros b s2 Hb.
    assert (Hb' : s2 = s1 /\ forall r, b = Hit r -> s1 = s /\ tr' = tr /\ holds_object (fs_cache s) tr (it_current (ft_it k)) r).
    { destruct flushBeforeWait; [by injection Hb as <- <-|]. destruct cached as [e|]; [|by injection Hb as <- <-].
      destruct (Hhit e eq_refl) as [-> [r0 Hr0]]. assert (tr' = tr) as -> by congruence.
      unfold mbind, M_bind in Hb. destruct (groups tr !! _) as [r|] eqn:Er; [|done]. cbn in Hb. injection Hb as <- <-.
      split; [done|]. intros r' [= <-]. split_and!; try done. destruct Hr0 as [Hr0 Hx]. split; [done|].
      assert (r0 = r) as -> by congruence. done. }
    destruct Hb' as [-> Hb']. destruct (ft_fetchStart k) as [st|] eqn:Est.
    + rewrite (intervals_asc k st _ false Hi). destruct (Hst st eq_refl) as [? Hle].
      eapply nextInterval_flush; [done|done|done|exact Hset|done|apply Hi|done].
    + eapply atBoundary_good; try done. intros r Hr. destruct (Hb' r Hr) as (-> & -> & ?). done.
Qed.

Lemma fetchImpl_end_good hist evs s k tr :
  theTracks (fs_cache s) !! t = Some tr -> ft_track k = t -> asc_iter t hi (ft_it k) ->
  settled t (fs_cache s :: hist) lo evs hi -> good hist evs s (fetchImpl_end k).
Proof.
  intros Htr Ht Hi Hset. unfold fetchImpl_end. rewrite Ht.
  assert (Hfin : forall r, good hist evs s (finish (Ok r) k
     (if ft_lastObject k && ft_servedOneObject k then [] else [ToConsumer FEndOfFetch]))).
  { intros r k' evs' s' [= <- <- <-]. split; [done|]. split; [done|]. task_simpl.
    destruct (_ && _); [by rewrite app_nil_r|by apply settled_control]. }
  destruct (ft_handle k); [apply Hfin|]. eapply onCache_good; [exact (getTrack_lookup _ _ _ Htr)|]. apply Hfin.
Qed.

Lemma round_good hist evs inp s k tr :
  theTracks (fs_cache s) !! t = Some tr -> track_ok (fs_cache s) tr -> iter_ok (fs_cache s) tr (ft_it k) ->
  ft_await k = LoopHead -> cinv hist evs k -> in_cancelled inp = false -> good hist evs s (fetchImpl_round inp k).
Proof.
  intros Htr Hok Hio Ha (Ht & Hi & Hinv) Hc. rewrite Ha in Hinv. destruct Hinv as (Hend & Hst & Hset).
  unfold fetchImpl_round. rewrite Hc.
  destruct (endOf_asc _ tr t hi (ft_it k) Hi Htr Hok) as (e & He & Hcase). eapply onCache_good; [exact He|].
  cbn beta iota. task_simpl. cbn [it_current set_it_end].
  assert (Hi' : asc_iter t hi (set_it_end e (ft_it k))) by by apply asc_iter_end.
  destruct (loc_eqb (it_current (ft_it k)) e) eqn:Ee.
  - apply loc_eqb_spec in Ee. unfold fetchImpl_exit. task_simpl.
    destruct (ft_fetchStart k) as [st|] eqn:Est.
    + pose proof (intervals_asc (set_ft_it (set_it_end e (ft_it k)) k) st (it_current (ft_it k)) true Hi') as E.
      task_simpl. cbn in E. cbn [it_minLocation it_maxLocation it_order it_current set_it_end]. rewrite E.
      destruct (Hst st eq_refl) as [? Hle]. pose proof (ai_le _ _ _ Hi) as Hle'.
      eapply nextInterval_flush; [done|done|done|exact Hset|clear -Hle Hle'; loc_lia|apply Hi|done].
    + eapply fetchImpl_end_good; try done. cbn in Hset.
      eapply settled_absent; [eapply settled_hist; [exact Hset|apply sub_cons]|apply Hi|].
      intros l Hl Hr. apply Exists_cons. destruct Hcase as [[Hx _]|[_ Hte]].
      * right. destruct Hend as [Hh|[_ Habs]]; [|by apply Habs]. exfalso. destruct Hr as [H1 H2].
        assert (it_current (ft_it k) = hi) as Hcur by congruence. rewrite Hcur in H1. clear -H1 H2. loc_lia.
      * left. exists tr. split; [done|]. right; left. destruct Hr as [H1 _]. by eapply track_ended_le.
  - assert (Hehi : e = it_end (ft_it k) /\ it_end (ft_it k) = hi).
    { destruct Hcase as [[-> _]|[-> _]].
      - split; [done|]. destruct Hend as [?|[Hx _]]; [done|]. rewrite Hx, (proj2 (loc_eqb_spec _ _) eq_refl) in Ee. done.
      - rewrite (proj2 (loc_eqb_spec _ _) eq_refl) in Ee. done. }
    destruct Hehi as [-> Hh]. rewrite set_it_end_id. clear Hi'.
    assert (Hlt : loc_lt (it_current (ft_it k)) hi).
    { rewrite Hh in Ee. pose proof (ai_le _ _ _ Hi). clear -Ee H1. loc_lia. }
    rewrite Ht. eapply onCache_good; [exact (getTrack_lookup _ _ _ Htr)|].
    assert (Hlook : forall b, good hist evs s (fetchImpl_lookup inp (it_current (ft_it k)) b (set_ft_it (ft_it k) k)))
      by (intros b; by eapply (fetchImpl_lookup_good hist evs inp s (set_ft_it (ft_it k) k))).
    destruct (findFetchInProgress tr _); [|apply Hlook]. destruct (ft_fetchStart k) as [st|] eqn:Est; [apply Hlook|].
    intros k' evs' s' [= <- <- <-]. rewrite app_nil_r. split; [done|]. split; [done|]. task_simpl.
    split_and!; try done. eapply settled_hist; [exact Hset|apply sub_cons].
Qed.

Lemma afterWaitFor_good hist evs inp s k tr w cur :
  theTracks (fs_cache s) !! t = Some tr -> track_ok (fs_cache s) tr -> iter_ok (fs_cache s) tr (ft_it k) ->
  ft_await k = WaitFor w cur -> cinv hist evs k -> good hist evs s (afterWaitFor inp cur k).
Proof.
  intros Htr Hok Hio Ha (Ht & Hi & Hinv). rewrite Ha in Hinv. destruct Hinv as (-> & Hend & Hlt & Hst & Hset).
  unfold afterWaitFor. task_simpl.
  destruct (skipGaps_settled s tr hist evs (ft_it k) Htr Hi Hend Hset) as (cur & H1 & H2 & H3).
  eapply onCache_good; [exact H1|]. cbn [it_current set_it_current].
  destruct (loc_eqb cur (it_current (ft_it k))) eqn:E; cbn [negb].
  - apply loc_eqb_spec in E as ->. replace (set_it_current _ _) with (ft_it k) by by destruct (ft_it k).
    eapply (fetchImpl_lookup_good _ _ _ _ (set_ft_it (ft_it k) (set_ft_now (in_now inp) k)));
      task_simpl; try done; by rewrite Hst.
  - intros k' evs' s' [= <- <- <-]. rewrite app_nil_r. split; [done|]. split; [done|]. task_simpl. rewrite Hst.
    split_and!; [by left|done|done].
Qed.

Lemma afterUpstream_good hist evs inp s k w lastObject fl :
  ft_await k = WaitUpstream w lastObject fl -> cinv hist evs k -> good hist evs s (afterUpstream inp w lastObject fl k).
Proof.
  intros Ha (Ht & Hi & Hinv). rewrite Ha in Hinv. destruct Hinv as [[Hrest Hof] Hlast]. unfold afterUpstream.
  destruct (in_upstream inp) as [[u ok]|[code reason]]; [|by apply fail_good].
  do 5 (apply bind_good; intros ? ? _). destruct lastObject.
  - rewrite (Hlast eq_refl) in Hof. apply tailDone_good; [by destruct (ft_handle k)..|by rewrite app_nil_r].
  - intros k' evs' s' [= <- <- <-]. rewrite app_nil_r. split; [done|]. split; [done|]. task_simpl.
    split; [done|]. destruct (fl_of fl); [|eapply settled_hist; [done|apply sub_cons]].
    destruct Hof as (? & ? & ? & ?). split_and!; try done. eapply settled_hist; [done|apply sub_cons].
Qed.

Lemma afterComplete_good hist evs inp s k tr w fl :
  theTracks (fs_cache s) !! t = Some tr -> track_ok (fs_cache s) tr -> iter_ok (fs_cache s) tr (ft_it k) ->
  (forall l r, held k = Some (l, r) -> holds_object (fs_cache s) tr l r) ->
  ft_await k = WaitComplete w fl -> cinv hist evs k -> good hist evs s (afterComplete inp w fl k).
Proof.
  intros Htr Hok Hio Hh Ha (Ht & Hi & Hinv). rewrite Ha in Hinv. destruct Hinv as [Hrest Hof]. unfold afterComplete.
  apply bind_good. intros x s1 Hx. assert (s1 = s) as ->.
  { unfold getWriteback, mbind, M_bind, get, deref in Hx. destruct (fs_writebacks s !! w); [|done].
    injection Hx as _ <-. done. }
  clear Hx. case_test; [by apply fail_good|]. unfold nextInterval. rewrite Hrest.
  destruct (fl_of fl) as [cur b|] eqn:Ef.
  - destruct Hof as (-> & Hend & Hlt & Hset).
    eapply (atBoundary_good _ _ _ _ (set_ft_fetchStart None (set_ft_now (in_now inp) k))); task_simpl; try done.
    intros r ->. split_and!; try done. apply Hh. unfold held. rewrite Ha. destruct fl as [o rest]. cbn in Ef. by subst o.
  - apply tailDone_good; [done|done|by rewrite app_nil_r].
Qed.

Lemma afterReady_good hist evs inp s k cur r :
  ft_await k = WaitReady (cur, r) -> cinv hist evs k -> good hist evs s (afterReady inp cur r k).
Proof.
  intros Ha Hinv. pose proof (cinv_tail _ _ _ (fs_cache s) Hinv) as Hinv'.
  destruct Hinv as (Ht & Hi & Hinv). rewrite Ha in Hinv. destruct Hinv as (Hend & Hst & Hset). unfold afterReady.
  do 2 (apply bind_good; intros ? ? _).
  intros k' evs' s' [= <- <- <-]. rewrite app_nil_r. split; [done|]. split; [done|]. task_simpl. rewrite Hst.
  split_and!; [|done|eapply settled_hist; [done|apply sub_cons]].
  destruct Hend as [?|[? Habs]]; [by left|right]. split; [done|]. intros l Hl Hr. apply Exists_cons. right. by apply Habs.
Qed.

Lemma fetchImpl_good hist evs inp s k :
  undisturbed k s -> cinv hist evs k -> in_cancelled inp = false -> good hist evs s (fetchImpl inp k).
Proof.
  intros (tr & Htr & Hok & Hio & Hh) Hinv Hc. pose proof Hinv as (Ht & _). rewrite Ht in Htr. unfold fetchImpl.
  destruct (ft_await k) as [|w cur|w lastObject fl|w fl|[cur r]|res] eqn:Ha.
  - by eapply round_good.
  - by eapply afterWaitFor_good.
  - by apply afterUpstream_good.
  - by eapply afterComplete_good.
  - by apply afterReady_good.
  - intros k' evs' s' [= <- <- <-]. rewrite app_nil_r. by apply cinv_tail.
Qed.
End task.

(** (C3) A fetch in ascending order accounts for its whole range.  Whatever
    happens to the cache between the steps of the fetch (as long as each step
    finds the group it was reading still in the track), when the fetch ends
    without an error every position of the range has been given to the consumer
    as an object the cache held, or requested from upstream, or was known to
    the cache not to exist (a gap, past the end of its group or past the end of
    the track); and objects and upstream requests follow each other in
    ascending order without overlap, so nothing is delivered twice. *)
Theorem fetch_covers (handle : option FetchHandle) (f : Fetch) (t : tref) k s hist evs res :
  fetch_run handle f t k s hist evs -> isNewestFirst (f_groupOrder f) = false ->
  loc_ok (f_start f) -> loc_ok (f_end f) -> loc_le (f_start f) (f_end f) ->
  ft_await k = Finished (Ok res) ->
  ordered (f_start f) evs (f_end f) /\
  (forall l, loc_ok l -> in_range (f_start f) (f_end f) l -> accounted t hist evs l) /\
  (forall call l, ToConsumer call ∈ evs -> call_at call = Some l -> Exists (holds t l call) hist).
Proof.
  intros Hrun Ho Hs He Hle Hfin.
  enough (Hinv : cinv t (f_start f) (f_end f) hist evs k).
  { destruct Hinv as (_ & _ & Hinv). rewrite Hfin in Hinv. destruct Hinv as [H1 H2 H3]. done. }
  clear Hfin res. induction Hrun as [now s tr k s' Htr Hok Hst|inp k s hist evs k' evs' s' _ IH Hu Hc Hstep|]; [| |done].
  - unfold fetchImpl_start in Hst.
    destruct (newIterator_asc (fs_cache s) t tr (f_start f) (f_end f) (f_groupOrder f) Htr Ho Hs He Hle Hok) as
      (i & Hi & Hai & _ & Hie & _ & _ & Hist & _ & Hskip).
    rewrite (onCache_bind _ _ _ _ Hi) in Hst. injection Hst as <- <-. split; [done|]. split; [done|].
    split_and!; [by left|done|]. cbn. constructor.
    + by constructor.
    + intros l Hl Hr. right; right. apply Exists_cons. left. exists tr. split; [done|]. left. by apply Hskip.
    + by intros call l ?%elem_of_nil.
  - by eapply (fetchImpl_good t _ _ (fs_cache s :: hist) evs inp s k Hu); [apply cinv_tail|done|].
Qed.
End cover.

(** ** Examples *)

Import Reference.

#[export] Instance fetch_params : FetchParams := { Params := unit; noParams := tt }.

(** ** Replaying a run *)
Definition group_max_okb (g : CacheGroup) : bool :=
  (0 <=? maxCachedObject g) && (maxCachedObject g <=? object kLocationMax) &&
  bool_decide (map_Forall (fun o e => negb (ce_complete e) || (o <=? maxCachedObject g) = true) (objects g)).
Definition groups_okb (c : MoqxCache) (tr : CacheTrack) : bool :=
  bool_decide (map_Forall (fun _ r => match theGroups c !! r with Some g => group_max_okb g | None => false end = true)
    (groups tr)).
Definition track_okb (c : MoqxCache) (tr : CacheTrack) : bool :=
  groups_okb c tr &&
  (negb (endOfTrack tr) || bool_decide (is_Some (largestGroupAndObject tr))) &&
  match largestGroupAndObject tr with Some lg => loc_okb lg | None => true end.
Definition freshb (tr : CacheTrack) (i : FetchRangeIterator) : bool :=
  (it_cachedGroupId i =? group kLocationMax) || bool_decide (it_cachedGroupPtr i = groups tr !! it_cachedGroupId i).
Definition holds_objectb (c : MoqxCache) (tr : CacheTrack) (l : AbsoluteLocation) (r : gref) : bool :=
  bool_decide (groups tr !! group l = Some r) &&
  match theGroups c !! r with
  | Some g => match objects g !! object l with Some e => ce_complete e | None => false end
  | None => false
  end.
Definition undisturbedb (k : FetchTask) (s : FetchSys) : bool :=
  match theTracks (fs_cache s) !! ft_track k with
  | Some tr => track_okb (fs_cache s) tr && freshb tr (ft_it k) &&
      match held k with Some (l, r) => holds_objectb (fs_cache s) tr l r | None => true end
  | None => false
  end.

Lemma group_max_okb_sound g : group_max_okb g = true -> group_max_ok g.
Proof.
  unfold group_max_okb. intros [[H1 H2]%andb_true_iff H3%bool_decide_eq_true]%andb_true_iff.
  split; [simpl in *; lia|]. intros o e Ho Hc. specialize (H3 o e Ho). cbn in H3. rewrite Hc in H3. cbn in H3. lia.
Qed.
Lemma groups_okb_sound c tr : groups_okb c tr = true ->
  forall gid r, groups tr !! gid = Some r -> exists g, theGroups c !! r = Some g /\ group_max_ok g.
Proof.
  unfold groups_okb. intros Hm%bool_decide_eq_true gid r Hr. specialize (Hm gid r Hr). cbn in Hm.
  destruct (theGroups c !! r) as [g|]; [|done]. exists g. split; [done|by apply group_max_okb_sound].
Qed.
Lemma track_okb_sound c tr : track_okb c tr = true -> track_ok c tr.
Proof.
  unfold track_okb. intros [[H1 H2]%andb_true_iff H3]%andb_true_iff. constructor.
  - by apply groups_okb_sound.
  - intros He. rewrite He in H2. by apply bool_decide_eq_true in H2.
  - intros lg Hl. rewrite Hl in H3. by apply loc_okb_spec.
Qed.
Lemma undisturbedb_sound k s : undisturbedb k s = true -> undisturbed k s.
Proof.
  unfold undisturbedb. destruct (theTracks (fs_cache s) !! ft_track k) as [tr|] eqn:Et; [|done].
  intros [[Hok Hfr]%andb_true_iff Hh]%andb_true_iff. exists tr. split; [done|].
  pose proof (track_okb_sound _ _ Hok) as Hok'. split_and!; [done|constructor; [apply Hok'|]|].
  - unfold freshb in Hfr. apply orb_true_iff in Hfr as [Hx|Hx]; [lia|]. by apply bool_decide_eq_true in Hx.
  - intros l r Hl. rewrite Hl in Hh. unfold holds_objectb in Hh.
    apply andb_true_iff in Hh as [Hr%bool_decide_eq_true Hg]. split; [done|].
    destruct (theGroups (fs_cache s) !! r) as [g|]; [|done]. destruct (objects g !! object l) as [e|] eqn:Ee; [|done].
    by exists g, e.
Qed.

(** A step of the task, or something else that changes the store. *)
Inductive Move := Task (inp : Inputs) | Others (m : M FetchSys unit).
Abbreviation RunState := (FetchTask * FetchSys * list MoqxCache * list FetchEvent)%type.

Fixpoint replay (moves : list Move) (st : RunState) : option RunState :=
  let '(k, s, hist, evs) := st in
  match moves with
  | [] => Some st
  | Task inp :: rest =>
    if undisturbedb k s && negb (in_cancelled inp) then
      match fetchImpl inp k s with
      | Some ((k', evs'), s') => replay rest (k', s', fs_cache s' :: fs_cache s :: hist, evs ++ evs')
      | None => None
      end
    else None
  | Others m :: rest =>
    match m s with Some (_, s') => replay rest (k, s', hist, evs) | None => None end
  end.

Lemma replay_run h f t moves : forall k s hist evs k' s' hist' evs',
  fetch_run h f t k s hist evs -> replay moves (k, s, hist, evs) = Some (k', s', hist', evs') ->
  fetch_run h f t k' s' hist' evs'.
Proof.
  induction moves as [|[inp|m] moves IH]; intros k s hist evs k' s' hist' evs' Hr; cbn [replay].
  - by intros [= <- <- <- <-].
  - destruct (undisturbedb k s) eqn:Eu; [|done]. destruct (in_cancelled inp) eqn:Ec; [done|]. cbn [negb andb].
    destruct (fetchImpl inp k s) as [[[k1 e1] s1]|] eqn:Ef; [|done]. apply IH.
    eapply run_step; [done|by apply undisturbedb_sound|done|done].
  - destruct (m s) as [[[] s1]|]; [|done]. apply IH. by eapply run_others.
Qed.

(** A run from the start of [fetchImpl]. *)
Definition replayFetch (h : option FetchHandle) (f : Fetch) (t : tref) (now : Z) (moves : list Move) (s : FetchSys)
  : option RunState :=
  match theTracks (fs_cache s) !! t with
  | Some tr =>
    if track_okb (fs_cache s) tr then
      match fetchImpl_start h f t now s with
      | Some (k, s') => replay moves (k, s', [fs_cache s], [])
      | None => None
      end
    else None
  | None => None
  end.
Lemma replayFetch_run h f t now moves s k' s' hist evs :
  replayFetch h f t now moves s = Some (k', s', hist, evs) -> fetch_run h f t k' s' hist evs.
Proof.
  unfold replayFetch. destruct (theTracks (fs_cache s) !! t) as [tr|] eqn:Et; [|done].
  destruct (track_okb (fs_cache s) tr) eqn:Eo; [|done].
  destruct (fetchImpl_start h f t now s) as [[k0 s0]|] eqn:Ek; [|done]. apply replay_run.
  eapply run_start; [done|by apply track_okb_sound|done].
Qed.

(** ** Runs *)
Definition okInput (now : Z) : Inputs :=
  mkInputs now false (Ok tt) (Ok tt) (Err (FETCH_INTERNAL_ERROR, ""%string)).
(** Upstream accepts the request; its FETCH_OK has the given end. *)
Definition upstreamOk (now : Z) (e : AbsoluteLocation) : Inputs :=
  mkInputs now false (Ok tt) (Ok tt) (Ok (7, mkFetchOk 0 OldestFirst false e [] tt)).
Definition onWriteback {A} (w : wref) (h : FetchWriteback -> M MoqxCache (A * FetchWriteback)) : M FetchSys unit :=
  x ← getWriteback w; '(_, x) ← onCache (h x); putWriteback w x.

(** The cache holds objects 0 and 1 of group 5, from a subscription that is over. *)
Definition prepare : M FetchSys unit :=
  b ← onCache (getSubscribeWriteback video);
  onCache (sb_objectStream b (mkHeader 5 0 0 NORMAL []) (Some [x01]) 1);;
  onCache (sb_objectStream b (mkHeader 5 0 1 NORMAL []) (Some [x02]) 2);;
  onCache (closeSubscribeWriteback b).
Definition emptySys (maxGroups : Z) : FetchSys := mkSys (newCache 10 maxGroups 1000 10) ∅ 0.
Definition stateAfter {A} (m : M FetchSys A) (s : FetchSys) : FetchSys :=
  match m s with Some (_, s') => s' | None => s end.
Definition stored (maxGroups : Z) : FetchSys := stateAfter prepare (emptySys maxGroups).
Definition storedTrack (maxGroups : Z) : CacheTrack :=
  default newTrack (theTracks (fs_cache (stored maxGroups)) !! 0).

Lemma lookup_default {A} (d : A) (o : option A) :
  (match o with Some _ => true | None => false end) = true -> o = Some (default d o).
Proof. by destruct o. Qed.

Lemma storedTrack_lookup n :
  (match theTracks (fs_cache (stored n)) !! 0 with Some _ => true | None => false end) = true ->
  theTracks (fs_cache (stored n)) !! 0 = Some (storedTrack n).
Proof. apply lookup_default. Qed.

(** ** From the cache *)
Definition cachedRequest : Fetch := mkFetch 1 video (Loc 5 0) (Loc 5 2) 0 OldestFirst.

Lemma cachedRequest_known l : loc_ok l -> in_range (Loc 5 0) (servedEnd (storedTrack 3) cachedRequest) l ->
  known (stored 3) (storedTrack 3) 3 l.
Proof.
  replace (servedEnd (storedTrack 3) cachedRequest) with (Loc 5 2) by (vm_compute; reflexivity).
  intros _ [H1 H2].
  assert (l = Loc 5 0 \/ l = Loc 5 1) as [-> | ->].
  { destruct l as [g o]. loc_unfold. assert (g = 5) as -> by lia.
    assert (o = 0 \/ o = 1) as [-> | ->] by lia; auto. }
  all: split; [vm_compute; reflexivity|right]; eexists; split;
    [eexists _, _; split_and!; vm_compute; reflexivity|]; split; [reflexivity|];
    intros [Hx _]; vm_compute in Hx; discriminate.
Qed.

Lemma fetch_from_cache_witness :
  exists h k fuel k' l,
    fetch cachedRequest 3 (stored 3) = Some ((Serving h k, []), stored 3) /\
    run_fetch fuel (okInput 3) k (stored 3) = Some ((k', map ToConsumer (publish_all l)), stored 3) /\
    serves (fs_cache (stored 3)) (storedTrack 3) 3 (Loc 5 0) (servedEnd (storedTrack 3) cachedRequest) l /\
    h = (if answersAtOnce (storedTrack 3) cachedRequest
         then Some (newHandle (rangeOk (storedTrack 3) (wholeRange cachedRequest) (extensions (storedTrack 3)))) else None) /\
    ft_await k' = Finished (Ok (match h with
                                | Some _ => None
                                | None => Some (newHandle (rangeOk (storedTrack 3) (wholeRange cachedRequest) noExtensions))
                                end)).
Proof.
  apply (fetch_from_cache (stored 3) cachedRequest 0 (storedTrack 3) 3 (okInput 3)).
  - vm_compute. reflexivity.
  - apply storedTrack_lookup. vm_compute. reflexivity.
  - apply track_okb_sound. vm_compute. reflexivity.
  - reflexivity.
  - conc.
  - conc.
  - apply loc_ltb_spec. vm_compute. reflexivity.
  - reflexivity.
  - reflexivity.
  - exact cachedRequest_known.
Defined.

(** ** With upstream *)
(** The range {3,0}-{6,0}: groups 3 and 4 are not cached. *)
Definition longRequest : Fetch := mkFetch 1 video (Loc 3 0) (Loc 6 0) 0 OldestFirst.
Definition idleTask : FetchTask :=
  mkTask None longRequest 0 (mkIter (Loc 0 0) (Loc 0 0) OldestFirst 0 (Loc 0 0) (Loc 0 0) false 0 None 0 None) None false
    false 0 LoopHead.
(** Upstream sends an object of group 3 and one of group 4, and is done. *)
Definition upstreamSends : list Move :=
  [ Others (onWriteback 0 (fun w => fw_object w 3 0 0 (Some [x03]) [] false false 5));
    Others (onWriteback 0 (fun w => fw_object w 4 0 0 (Some [x04]) [] true false 5)) ].
(** Up to the wait for the upstream fetch of groups 3 and 4. *)
Definition toUpstream : list Move := [Task (okInput 3); Task (okInput 3); Task (upstreamOk 4 (Loc 5 0))].

Definition coverMoves : list Move :=
  toUpstream ++ upstreamSends ++
  [Task (okInput 6); Task (okInput 6); Task (okInput 6); Task (okInput 6); Task (upstreamOk 7 (Loc 6 0))].
Definition coverState : RunState :=
  default (idleTask, stored 3, [], []) (replayFetch None longRequest 0 3 coverMoves (stored 3)).
Lemma coverState_run : replayFetch None longRequest 0 3 coverMoves (stored 3) = Some coverState.
Proof. apply lookup_default. vm_compute. reflexivity. Qed.

Definition finishedOk (st : RunState) : bool :=
  let '(k, _, _, _) := st in match ft_await k with Finished (Ok _) => true | _ => false end.
Lemma coverState_finished : finishedOk coverState = true.
Proof. vm_compute. reflexivity. Qed.

Lemma fetch_covers_witness :
  let '(k, s, hist, evs) := coverState in
  ordered (Loc 3 0) evs (Loc 6 0) /\
  (forall l, loc_ok l -> in_range (Loc 3 0) (Loc 6 0) l -> accounted 0 hist evs l) /\
  (forall call l, ToConsumer call ∈ evs -> call_at call = Some l -> Exists (holds 0 l call) hist).
Proof.
  destruct coverState as [[[k s] hist] evs] eqn:E.
  assert (Hk : exists res, ft_await k = Finished (Ok res)).
  { pose proof coverState_finished as Hx. rewrite E in Hx. unfold finishedOk in Hx. clear E.
    destruct (ft_await k) as [| | | | |[res|]]; [discriminate Hx..|exists res; reflexivity|discriminate Hx]. }
  destruct Hk as [res Hres].
  apply (fetch_covers None longRequest 0 k s hist evs res); [|reflexivity|conc|conc|conc|exact Hres].
  apply (replayFetch_run _ _ _ 3 coverMoves (stored 3)). rewrite <- E. exact coverState_run.
Defined.

Example coverState_served :
  (fun st : RunState => map (fun ev => match ev with ToConsumer c => call_at c | _ => None end) st.2) coverState =
  [None; Some (Loc 5 0); Some (Loc 5 1); None].
Proof. vm_compute. reflexivity. Qed.

(** ** Changes under a waiting fetch *)
(** A run without the conditions of [undisturbed]: the events and where the task
    is at the end; [None] is a crash. *)
Fixpoint perform (moves : list Move) (k : FetchTask) (s : FetchSys) (evs : list FetchEvent)
  : option (list FetchEvent * Await) :=
  match moves with
  | [] => Some (evs, ft_await k)
  | Task inp :: rest =>
    match fetchImpl inp k s with Some ((k', evs'), s') => perform rest k' s' (evs ++ evs') | None => None end
  | Others m :: rest =>
    match m s with Some (_, s') => perform rest k s' evs | None => None end
  end.
Definition performFetch (f : Fetch) (moves : list Move) (s : FetchSys) : option (list FetchEvent * Await) :=
  match fetchImpl_start None f 0 3 s with Some (k, s') => perform moves k s' [] | None => None end.

Definition missRequest : FetchEvent := UpstreamFetch 0 (mkFetch 0 video (Loc 3 0) (Loc 4 0) 0 OldestFirst).

(** A fetch can lose objects that are cached.  The cache keeps one group per
    track and holds objects 0 and 1 of group 5; a fetch of groups 3 to 5 first
    requests groups 3 and 4 upstream, and storing them evicts group 5.  The fetch
    still serves object {5,0}, which it holds, but the iterator no longer finds
    group 5 and leaves it: the fetch ends, announcing the whole range up to
    {6,0}, with object {5,1} neither served nor requested. *)
Theorem fetch_loses_evicted_group :
  fst <$> hasCachedObject video (Loc 5 1) 3 (fs_cache (stored 1)) = Some true /\
  performFetch longRequest (toUpstream ++ upstreamSends ++ [Task (okInput 6); Task (okInput 6)]) (stored 1) =
    Some ([missRequest; ToConsumer (FObject 5 0 0 (Some [x01]) [] true false)],
          Finished (Ok (Some (newHandle (mkFetchOk 1 OldestFirst false (Loc 6 0) [] tt))))).
Proof. vm_compute. split; reflexivity. Qed.

Definition shortLived : Move := Others (onCache (setMaxCacheDuration video 1)).
(** Another client asks for object {5,0} two milliseconds later. *)
Definition laterLookup : Move := Others (onCache (hasCachedObject video (Loc 5 0) 2000000;; mret tt)).

(** A fetch can use an object that has been freed.  The objects of the track
    expire after one millisecond; a fetch finds object {5,0} fresh and, before
    it serves it, waits for the upstream fetch of groups 3 and 4; meanwhile
    another lookup finds the object expired and frees it.  The fetch then
    dereferences it (without the other lookup it serves it). *)
Theorem fetch_uses_freed_object :
  performFetch longRequest (shortLived :: toUpstream ++ upstreamSends ++ [Task (okInput 6)]) (stored 3) =
    Some ([missRequest; ToConsumer (FObject 5 0 0 (Some [x01]) [] false false)], LoopHead) /\
  performFetch longRequest (shortLived :: toUpstream ++ upstreamSends ++ [laterLookup; Task (okInput 6)]) (stored 3) =
    None.
Proof. vm_compute. split; reflexivity. Qed.
