(* ===== verification/NamespaceTree.v ===== *)
(** The tree of namespaces the relay knows (NamespaceTree.h, NamespaceTree.cpp):
    announcements received for a namespace (routes), tracks published under it,
    and the sessions subscribed to it.

    A node is named by the path from the root to it, innermost element first, so
    the parent of [k :: p] is [p] and the children of [p] are the nodes
    [k :: p]; the tree is the finite map from paths to nodes.  Sessions,
    callbacks, publish handles and rankings are objects of other components:
    they are references. *)

From S2P Require Import Prelude.

Abbreviation Session := Z (only parsing).
Abbreviation Callback := Z (only parsing).
Abbreviation RankingRef := Z (only parsing).
Abbreviation path := (list string).

Definition kMoQClusterAnonHopId : Z := 0.

Record Route := mkRoute {
  r_session : Session;
  r_callback : option Callback;
  r_peerID : string;
  r_requestID : Z;
  r_path : list Z;
  r_cost : Z;
  r_seq : Z;
  r_fromCluster : bool;
}.

Record TrackFilter := mkTrackFilter { tf_propertyType : Z; tf_maxSelected : Z }.

(** What a namespace subscriber asks for: tracks, namespaces, or both. *)
Inductive SubscribeNamespaceOptions := PUBLISH | NAMESPACE | BOTH.
#[global] Instance SubscribeNamespaceOptions_eq_dec : EqDecision SubscribeNamespaceOptions.
Proof. solve_decision. Defined.

Record NamespaceSubscriberInfo := mkSubscriberInfo {
  si_forward : bool;
  si_options : SubscribeNamespaceOptions;
  si_namespacePublishHandle : option Z;
  si_trackNamespacePrefix : list string;
  si_trackFilter : option TrackFilter;
  si_peerID : string;
}.

Record Advertisement := mkAdvertisement { ad_routeSeq : Z; ad_path : list Z; ad_cost : Z }.

Record NamespaceNode := mkNode {
  trackNamespace_ : list string;
  activeChildCount_ : Z;
  routes_ : list Route;
  advertisements_ : gmap (Z * Z) Advertisement;
  publishes_ : gmap string Session;
  subscribers_ : gmap Session NamespaceSubscriberInfo;
  rankings_ : gmap Z (option RankingRef);
}.

Record NamespaceTree := mkTree { nodes : gmap path NamespaceNode; nextRouteSeq_ : Z }.

Definition newNode (ns : list string) : NamespaceNode := mkNode ns 0 [] ∅ ∅ ∅ ∅.
Definition newTree : NamespaceTree := mkTree (<[[]:=newNode []]> ∅) 0.

Definition set_trackNamespace (v : list string) (n : NamespaceNode) : NamespaceNode :=
  mkNode v (activeChildCount_ n) (routes_ n) (advertisements_ n) (publishes_ n) (subscribers_ n) (rankings_ n).
Definition set_activeChildCount (v : Z) (n : NamespaceNode) : NamespaceNode :=
  mkNode (trackNamespace_ n) v (routes_ n) (advertisements_ n) (publishes_ n) (subscribers_ n) (rankings_ n).
Definition set_routes (v : list Route) (n : NamespaceNode) : NamespaceNode :=
  mkNode (trackNamespace_ n) (activeChildCount_ n) v (advertisements_ n) (publishes_ n) (subscribers_ n) (rankings_ n).
Definition set_advertisements (v : gmap (Z * Z) Advertisement) (n : NamespaceNode) : NamespaceNode :=
  mkNode (trackNamespace_ n) (activeChildCount_ n) (routes_ n) v (publishes_ n) (subscribers_ n) (rankings_ n).
Definition set_publishes (v : gmap string Session) (n : NamespaceNode) : NamespaceNode :=
  mkNode (trackNamespace_ n) (activeChildCount_ n) (routes_ n) (advertisements_ n) v (subscribers_ n) (rankings_ n).
Definition set_subscribers (v : gmap Session NamespaceSubscriberInfo) (n : NamespaceNode) : NamespaceNode :=
  mkNode (trackNamespace_ n) (activeChildCount_ n) (routes_ n) (advertisements_ n) (publishes_ n) v (rankings_ n).
Definition set_rankings (v : gmap Z (option RankingRef)) (n : NamespaceNode) : NamespaceNode :=
  mkNode (trackNamespace_ n) (activeChildCount_ n) (routes_ n) (advertisements_ n) (publishes_ n) (subscribers_ n) v.
Definition putNode (p : path) (n : NamespaceNode) (t : NamespaceTree) : NamespaceTree :=
  mkTree (<[p:=n]> (nodes t)) (nextRouteSeq_ t).

Definition hasContent (n : NamespaceNode) : bool :=
  negb (bool_decide (publishes_ n = ∅)) || negb (bool_decide (subscribers_ n = ∅)) ||
  negb (bool_decide (routes_ n = [])).

Definition shouldKeep (n : NamespaceNode) : bool := hasContent n || (0 <? activeChildCount_ n).

(** ** Counting and pruning

    [None] is a failed [XCHECK] or the dereference of a node that is not there. *)
Fixpoint incrementActiveChildren (p : path) (t : NamespaceTree) : option NamespaceTree :=
  n ← nodes t !! p;
  let n' := set_activeChildCount (activeChildCount_ n + 1) n in
  let t' := putNode p n' t in
  match p with
  | _ :: q => if (activeChildCount_ n' =? 1) && negb (hasContent n') then incrementActiveChildren q t' else Some t'
  | [] => Some t'
  end.

(** The loop of [tryPruneChild]: up from [p], the parent of the empty node
    [toRemove]; the result is the node to remove. *)
Fixpoint pruneWalk (p toRemove : path) (t : NamespaceTree) : option (path * NamespaceTree) :=
  n ← nodes t !! p;
  if negb (0 <? activeChildCount_ n) then None
  else
    let n' := set_activeChildCount (activeChildCount_ n - 1) n in
    let t' := putNode p n' t in
    if hasContent n' || (0 <? activeChildCount_ n') then Some (toRemove, t')
    else match p with
         | [] => Some (toRemove, t')
         | _ :: q => pruneWalk q p t'
         end.

(** [children_.erase(key)] drops the node and everything below it. *)
Definition eraseSubtree (p : path) (t : NamespaceTree) : NamespaceTree :=
  mkTree (filter (fun kv => ~ (p `suffix_of` kv.1)) (nodes t)) (nextRouteSeq_ t).

Definition tryPruneChild (parent : path) (childKey : string) (t : NamespaceTree) : option NamespaceTree :=
  match nodes t !! (childKey :: parent) with
  | None => Some t
  | Some child =>
    if shouldKeep child then Some t
    else '(toRemove, t') ← pruneWalk parent (childKey :: parent) t; Some (eraseSubtree toRemove t')
  end.

Definition notifyParentIfFirstContent (p : path) (wasEmpty : bool) (t : NamespaceTree) : option NamespaceTree :=
  n ← nodes t !! p;
  match p with
  | _ :: q => if wasEmpty && hasContent n then incrementActiveChildren q t else Some t
  | [] => Some t
  end.

Definition tryPruneSelf (p : path) (hadContent : bool) (t : NamespaceTree) : option NamespaceTree :=
  n ← nodes t !! p;
  match p with
  | k :: q => if hadContent && negb (shouldKeep n) then tryPruneChild q k t else Some t
  | [] => Some t
  end.

(** A change of the content of node [p] under a [NodeMutationGuard]: the state
    of the node is noted before, the parents are updated after. *)
Definition guarded (p : path) (f : NamespaceNode -> NamespaceNode) (t : NamespaceTree) : option NamespaceTree :=
  n ← nodes t !! p;
  let had := hasContent n in
  let t1 := putNode p (f n) t in
  t2 ← notifyParentIfFirstContent p (negb had) t1;
  tryPruneSelf p had t2.

(** ** Lookups *)
Definition SessionSubscriberList := list (Session * NamespaceSubscriberInfo).

(** The subscribers of the nodes passed on the way, in the order of the walk;
    the order of one node's subscribers is that of the hash map. *)
Definition subscribersOf (n : NamespaceNode) : SessionSubscriberList := map_to_list (subscribers_ n).

(** [findNode]: [at_] is the path of the node reached so far, [rest] what is left
    of the namespace.  The node found is named by its path. *)
Fixpoint findNode_from (at_ : path) (rest : list string) (create : bool) (subs : SessionSubscriberList)
    (t : NamespaceTree) : option path * SessionSubscriberList * NamespaceTree :=
  match rest with
  | [] => (Some at_, subs, t)
  | name :: rest =>
    let subs := subs ++ match nodes t !! at_ with Some n => subscribersOf n | None => [] end in
    let child := name :: at_ in
    match nodes t !! child with
    | Some _ => findNode_from child rest create subs t
    | None =>
      if create then findNode_from child rest create subs (putNode child (newNode (rev child)) t)
      else (None, subs, t)
    end
  end.

Definition findNode (ns : list string) (create : bool) (t : NamespaceTree)
  : option path * SessionSubscriberList * NamespaceTree := findNode_from [] ns create [] t.

Definition hasAnon (r : Route) : bool := existsb (fun h => h =? kMoQClusterAnonHopId) (r_path r).

(** [std::tuple] comparison: anonymous hop, cost, path length, newer first. *)
Definition betterRoute (a b : Route) : bool :=
  let aa := Z.b2z (hasAnon a) in let ab := Z.b2z (hasAnon b) in
  let la := Z.of_nat (length (r_path a)) in let lb := Z.of_nat (length (r_path b)) in
  (aa <? ab) || ((aa =? ab) && ((r_cost a <? r_cost b) || ((r_cost a =? r_cost b) &&
    ((la <? lb) || ((la =? lb) && (r_seq b <? r_seq a)))))).

Definition selectRoute (eligible : Route -> bool) (n : NamespaceNode) : option Route :=
  fold_left (fun best r =>
    if eligible r && match best with None => true | Some b => betterRoute r b end then Some r else best)
    (routes_ n) None.

(** [findRouteNode]: the deepest node on the way that has routes. *)
Fixpoint findRouteNode_from (at_ : path) (rest : list string) (deepest : option path) (t : NamespaceTree)
  : option path :=
  match rest with
  | [] => deepest
  | name :: rest =>
    match nodes t !! (name :: at_) with
    | None => deepest
    | Some n => findRouteNode_from (name :: at_) rest
                  (if negb (bool_decide (routes_ n = [])) then Some (name :: at_) else deepest) t
    end
  end.

Definition findRouteNode (ns : list string) (t : NamespaceTree) : option path :=
  let atRoot := match nodes t !! [] with
                | Some n => if bool_decide (routes_ n = []) then None else Some []
                | None => None
                end in
  findRouteNode_from [] ns atRoot t.

Definition clusterPathContains (p : list Z) (hop : Z) : bool :=
  negb (hop =? kMoQClusterAnonHopId) && existsb (fun h => h =? hop) p.

Definition setSubscriberAdvertisement (key : Z * Z) (a : Advertisement) (n : NamespaceNode) : NamespaceNode :=
  set_advertisements (<[key:=a]> (advertisements_ n)) n.
Definition eraseSubscriberAdvertisement (key : Z * Z) (n : NamespaceNode) : NamespaceNode :=
  set_advertisements (delete key (advertisements_ n)) n.

Record RouteExclusion := mkExclusion { ex_session : option Z; ex_hop : Z }.

(** ** Operations *)
Section operations.
(** [session->sessionId()]. *)
Context (sessionId : Session -> Z).

Definition findPublisherSession (ns : list string) (ex : RouteExclusion) (t : NamespaceTree) : option Session :=
  p ← findRouteNode ns t;
  n ← nodes t !! p;
  r_session <$> selectRoute (fun r =>
    match ex_session ex with None => true | Some s => negb (sessionId (r_session r) =? s) end &&
    negb (clusterPathContains (r_path r) (ex_hop ex))) n.

Definition findRoute (sid : Z) (n : NamespaceNode) : option Route :=
  List.find (fun r => sessionId (r_session r) =? sid) (routes_ n).

Fixpoint hasRouteAlongPath_from (at_ : path) (rest : list string) (sid : Z) (pred : Route -> bool) (t : NamespaceTree)
  : bool :=
  match nodes t !! at_ with
  | None => false
  | Some n =>
    match findRoute sid n with Some r => pred r | None => false end ||
    match rest with
    | [] => false
    | name :: rest => hasRouteAlongPath_from (name :: at_) rest sid pred t
    end
  end.
Definition hasRouteAlongPath (ns : list string) (sid : Z) (pred : Route -> bool) (t : NamespaceTree) : bool :=
  hasRouteAlongPath_from [] ns sid pred t.

Definition sameOrigin (a b : list Z) : bool :=
  match a, b with x :: _, y :: _ => x =? y | _, _ => false end.

Record SetPublisherResult := mkSetResult {
  sp_node : path;
  sp_subscribers : SessionSubscriberList;
  sp_replacedSession : option Session;
  sp_cancelled : option Callback;   (* [publishNamespaceCancel] sent to this callback *)
}.

(** The revised route, the new sequence counter and the replaced session. *)
Definition reviseRoute (route : Route) (path : list Z) (cost seq : Z) : Route * Z * option Session :=
  let '(s, seq', replaced) :=
    if negb (sameOrigin (r_path route) path) then (seq + 1, seq + 1, Some (r_session route))
    else (r_seq route, seq, None) in
  (mkRoute (r_session route) (r_callback route) (r_peerID route) (r_requestID route) path cost s
     (r_fromCluster route), seq', replaced).

Definition setPublisher (ns : list string) (session : Session) (callback : option Callback) (peerID : string)
    (requestID : Z) (relayHopPath : list Z) (routeCost : Z) (fromCluster : bool) (t : NamespaceTree)
  : option (SetPublisherResult * NamespaceTree) :=
  let '(found, subs, t) := findNode ns true t in
  p ← found;
  n ← nodes t !! p;
  let subs := subs ++ subscribersOf n in
  let existing := list_find (fun r => (r_session r =? session) || (negb fromCluster && negb (r_fromCluster r)) = true)
                    (routes_ n) in
  let replace :=
    let seq := nextRouteSeq_ t + 1 in
    let route := mkRoute session callback peerID requestID relayHopPath routeCost seq fromCluster in
    let rest := match existing with Some (i, _) => delete i (routes_ n) | None => routes_ n end in
    t' ← guarded p (fun n => set_trackNamespace ns (set_routes (rest ++ [route]) n)) (mkTree (nodes t) seq);
    Some (mkSetResult p subs (match existing with Some (_, e) => Some (r_session e) | None => None end)
            (match existing with Some (_, e) => r_callback e | None => None end), t') in
  match existing with
  | Some (i, e) =>
    if (r_session e =? session) && fromCluster && bool_decide (r_callback e = None) && bool_decide (callback = None)
    then
      let e1 := mkRoute (r_session e) (r_callback e) peerID (r_requestID e) (r_path e) (r_cost e) (r_seq e)
                  (r_fromCluster e) in
      let '(e2, seq, replaced) := reviseRoute e1 relayHopPath routeCost (nextRouteSeq_ t) in
      Some (mkSetResult p subs replaced None,
            mkTree (<[p:=set_routes (<[i:=e2]> (routes_ n)) n]> (nodes t)) seq)
    else replace
  | None => replace
  end.

Inductive Error := NodeNotFound | NotOwner | NotSubscribed.

(** The outer [option] is an abort; the inner result is the code's [Expected]. *)
Definition updateRoute (ns : list string) (sid requestID : Z) (path : list Z) (cost : Z) (t : NamespaceTree)
  : option (result Error (SetPublisherResult * NamespaceTree)) :=
  match findNode ns false t with
  | (None, _, _) => Some (Err NodeNotFound)
  | (Some p, subs, _) =>
    n ← nodes t !! p;
    match list_find (fun r => (sessionId (r_session r) =? sid) && (r_requestID r =? requestID) = true) (routes_ n) with
    | None => Some (Err NotOwner)
    | Some (i, e) =>
      let '(e', seq, replaced) := reviseRoute e path cost (nextRouteSeq_ t) in
      Some (Ok (mkSetResult p (subs ++ subscribersOf n) replaced None,
                mkTree (<[p:=set_routes (<[i:=e']> (routes_ n)) n]> (nodes t)) seq))
    end
  end.

(** The removed route is returned without its callback. *)
Definition unpublishNamespace (ns : list string) (sid : Z) (requestID : option Z) (t : NamespaceTree)
  : option (result Error (path * SessionSubscriberList * Route * NamespaceTree)) :=
  match findNode ns false t with
  | (None, _, _) => Some (Err NodeNotFound)
  | (Some p, subs, _) =>
    n ← nodes t !! p;
    match list_find (fun r => (sessionId (r_session r) =? sid) &&
            match requestID with None => true | Some q => r_requestID r =? q end = true) (routes_ n) with
    | None => Some (Err NotOwner)
    | Some (i, e) =>
      t' ← guarded p (fun n => set_routes (delete i (routes_ n)) n) t;
      let removed := mkRoute (r_session e) None (r_peerID e) (r_requestID e) (r_path e) (r_cost e) (r_seq e)
                       (r_fromCluster e) in
      Some (Ok (p, subs ++ subscribersOf n, removed, t'))
    end
  end.

Definition unpublishTrack (ns : list string) (trackName : string) (t : NamespaceTree)
  : option (result Error NamespaceTree) :=
  match findNode ns false t with
  | (None, _, _) => Some (Err NodeNotFound)
  | (Some p, _, _) => t' ← guarded p (fun n => set_publishes (delete trackName (publishes_ n)) n) t; Some (Ok t')
  end.

(** The rankings of a node and its ancestors, which [onRanking] is called for. *)
Fixpoint rankingsAbove (p : path) (t : NamespaceTree) : list (Z * RankingRef) :=
  let here := match nodes t !! p with
              | Some n => omap (fun kv => (fun r => (kv.1, r)) <$> kv.2) (map_to_list (rankings_ n))
              | None => []
              end in
  here ++ match p with [] => [] | _ :: q => rankingsAbove q t end.

Definition addPublish (ns : list string) (trackName : string) (session : Session) (t : NamespaceTree)
  : option (path * SessionSubscriberList * list (Z * RankingRef) * NamespaceTree) :=
  let '(found, subs, t) := findNode ns true t in
  p ← found;
  n ← nodes t !! p;
  t' ← guarded p (fun n => set_publishes (<[trackName:=session]> (publishes_ n)) n) t;
  Some (p, subs ++ subscribersOf n, rankingsAbove p t', t').

(** [node.rankings_[propertyType]] with the default inserted. *)
Definition getOrInsertRanking (p : path) (propertyType : Z) (t : NamespaceTree)
  : option (option RankingRef * NamespaceTree) :=
  n ← nodes t !! p;
  match rankings_ n !! propertyType with
  | Some r => Some (r, t)
  | None => Some (None, putNode p (set_rankings (<[propertyType:=None]> (rankings_ n)) n) t)
  end.

(** [emplace] leaves an existing subscription alone. *)
Definition addNamespaceSubscriber (ns : list string) (session : Session) (info : NamespaceSubscriberInfo)
    (t : NamespaceTree) : option (path * NamespaceTree) :=
  let '(found, _, t) := findNode ns true t in
  p ← found;
  t' ← guarded p (fun n => match subscribers_ n !! session with
                           | Some _ => n
                           | None => set_subscribers (<[session:=info]> (subscribers_ n)) n
                           end) t;
  Some (p, t').

(** Forgets one advertisement in the whole subtree of [p]. *)
Definition eraseAdvertisements (p : path) (key : Z * Z) (t : NamespaceTree) : NamespaceTree :=
  mkTree (map_imap (fun q n => Some (if decide (p `suffix_of` q)
                                     then eraseSubscriberAdvertisement key n else n)) (nodes t))
    (nextRouteSeq_ t).

(** The result carries the call [removeSessionFromTopNGroup] made, if any. *)
Definition removeNamespaceSubscriber (ns : list string) (session : Session) (t : NamespaceTree)
  : option (result Error (option (RankingRef * Z) * NamespaceTree)) :=
  match findNode ns false t with
  | (None, _, _) => Some (Err NodeNotFound)
  | (Some p, _, _) =>
    n ← nodes t !! p;
    match subscribers_ n !! session with
    | None => Some (Err NotSubscribed)
    | Some info =>
      topN ← match si_trackFilter info with
             | None => Some None
             | Some f => match rankings_ n !! tf_propertyType f with
                         | None => Some None
                         | Some slot => r ← slot; Some (Some (r, tf_maxSelected f))
                         end
             end;
      let t := eraseAdvertisements p (sessionId session, Z.of_nat (length ns)) t in
      t' ← guarded p (fun n => set_subscribers (delete session (subscribers_ n)) n) t;
      Some (Ok (topN, t'))
    end
  end.

Definition hasTracksSubscriptionInSubtree (p : path) (session : Session) (t : NamespaceTree) : bool :=
  existsb (fun kv => bool_decide (p `suffix_of` kv.1) && bool_decide (is_Some (subscribers_ kv.2 !! session)))
    (map_to_list (nodes t)).

Fixpoint hasOverlapping_from (at_ : path) (rest : list string) (session : Session) (t : NamespaceTree) : bool :=
  match rest with
  | [] => hasTracksSubscriptionInSubtree at_ session t
  | name :: rest =>
    match nodes t !! at_ with
    | None => false
    | Some n =>
      if bool_decide (is_Some (subscribers_ n !! session)) then true
      else match nodes t !! (name :: at_) with
           | None => false
           | Some _ => hasOverlapping_from (name :: at_) rest session t
           end
    end
  end.
Definition hasOverlappingTracksSubscription (prefix : list string) (session : Session) (t : NamespaceTree) : bool :=
  hasOverlapping_from [] prefix session t.
End operations.

(** The ranking of all routes of a node: [std::sort] by [betterRoute], modelled
    as insertion (routes have distinct sequence numbers, so the order is total). *)
Fixpoint insertRoute (r : Route) (l : list Route) : list Route :=
  match l with
  | [] => [r]
  | x :: l' => if betterRoute r x then r :: l else x :: insertRoute r l'
  end.
Definition rankedRoutes (n : NamespaceNode) : list Route := foldr insertRoute [] (routes_ n).
