(* ===== verification/NamespaceInv.v ===== *)
(** Pruning of the namespace tree: the child counts never run out, and no node
    that holds a route, a published track or a subscriber is ever dropped. *)

From S2P Require Import Prelude NamespaceTree.

(** The children of [p] that must be kept. *)
Definition kept_child (p : path) (kv : path * NamespaceNode) : bool :=
  match kv.1 with _ :: q => bool_decide (q = p) && shouldKeep kv.2 | [] => false end.
Definition kept_children (m : gmap path NamespaceNode) (p : path) : Z :=
  Z.of_nat (size (filter (fun kv => kept_child p kv = true) m)).

(** What a child contributes to the count of its parent [p]. *)
Definition kept1 (p q : path) (n : NamespaceNode) : Z := if kept_child p (q, n) then 1 else 0.

Lemma kept_children_insert m p q n n' :
  m !! q = Some n -> kept_children (<[q:=n']> m) p = kept_children m p - kept1 p q n + kept1 p q n'.
Proof.
  intros Hq. unfold kept_children, kept1.
  assert (Hdel : Z.of_nat (size (filter (fun kv => kept_child p kv = true) (delete q m))) =
    Z.of_nat (size (filter (fun kv => kept_child p kv = true) m)) - (if kept_child p (q, n) then 1 else 0)).
  { rewrite map_filter_delete. destruct (kept_child p (q, n)) eqn:E.
    - rewrite map_size_delete_Some by (exists n; by apply map_lookup_filter_Some_2).
      assert (size (filter (fun kv => kept_child p kv = true) m) <> 0%nat).
      { apply map_size_non_empty_iff. intros He.
        assert (Hl : filter (fun kv => kept_child p kv = true) m !! q = Some n) by (by apply map_lookup_filter_Some_2).
        by rewrite He, lookup_empty in Hl. }
      lia.
    - rewrite delete_id; [lia|]. apply map_lookup_filter_None_2. right. intros x Hx. rewrite Hq in Hx.
      injection Hx as <-. by rewrite E. }
  rewrite <- (insert_delete_eq m q n'), map_filter_insert.
  destruct (decide (kept_child p (q, n') = true)) as [E|E].
  - rewrite E, map_size_insert_None, Nat2Z.inj_succ, Hdel; [lia|].
    apply map_lookup_filter_None_2. left. apply lookup_delete_eq.
  - apply not_true_iff_false in E. rewrite E, delete_delete_eq, Hdel. lia.
Qed.

Lemma kept_children_new m p q n' :
  m !! q = None -> kept_children (<[q:=n']> m) p = kept_children m p + kept1 p q n'.
Proof.
  intros Hq. unfold kept_children, kept1. rewrite map_filter_insert.
  destruct (decide (kept_child p (q, n') = true)) as [E|E].
  - rewrite E, map_size_insert_None, Nat2Z.inj_succ; [lia|]. apply map_lookup_filter_None_2. by left.
  - apply not_true_iff_false in E. rewrite E, delete_id by done. lia.
Qed.

Lemma kept1_eq p k n : kept1 p (k :: p) n = if shouldKeep n then 1 else 0.
Proof. unfold kept1, kept_child. simpl. by rewrite bool_decide_true. Qed.
Lemma kept1_ne p q k n : q <> p -> kept1 p (k :: q) n = 0.
Proof. intros H. unfold kept1, kept_child. simpl. by rewrite bool_decide_false. Qed.
Lemma kept1_root p n : kept1 p [] n = 0.
Proof. done. Qed.

Lemma kept_children_nonneg m p : 0 <= kept_children m p.
Proof. unfold kept_children. lia. Qed.

(** A kept child is counted. *)
Lemma kept_children_pos m p k n : m !! (k :: p) = Some n -> shouldKeep n = true -> 0 < kept_children m p.
Proof.
  intros Hn Hk. pose proof (kept_children_insert m p (k :: p) n (newNode []) Hn) as H.
  rewrite !kept1_eq, Hk in H. change (shouldKeep (newNode [])) with false in H. cbv iota in H. pose proof (kept_children_nonneg (<[k :: p:=newNode []]> m) p). lia.
Qed.

(** [slack p0 d]: the counts cover the kept children; at [p0] with a margin of [d]. *)
Record counts_ok (m : gmap path NamespaceNode) (p0 : path) (d : Z) : Prop := {
  co_root : is_Some (m !! []);
  co_closed k p : is_Some (m !! (k :: p)) -> is_Some (m !! p);
  co_counts p n : m !! p = Some n -> kept_children m p + (if decide (p = p0) then d else 0) <= activeChildCount_ n;
}.
Definition tree_ok (t : NamespaceTree) : Prop := counts_ok (nodes t) [] 0.

Lemma counts_ok_zero m p q : counts_ok m p 0 -> counts_ok m q 0.
Proof.
  intros [H1 H2 H3]. constructor; [done|done|]. intros p' n Hn. specialize (H3 p' n Hn).
  destruct (decide (p' = p)), (decide (p' = q)); lia.
Qed.

Lemma is_Some_insert {V} (m : gmap path V) p v q : is_Some (m !! p) -> is_Some (<[p:=v]> m !! q) <-> is_Some (m !! q).
Proof.
  intros Hp. destruct (decide (p = q)) as [<-|Hne]; [rewrite lookup_insert_eq; split; eauto|by rewrite lookup_insert_ne].
Qed.

(** Replacing node [p] and paying its margin [d] from its count moves the margin
    to the parent: what the parent gains or loses when [p] changes keptness. *)
Lemma counts_ok_step m p n n' d :
  counts_ok m p d -> m !! p = Some n -> activeChildCount_ n' = activeChildCount_ n - d ->
  match p with
  | [] => counts_ok (<[p:=n']> m) [] 0
  | k :: q => counts_ok (<[p:=n']> m) q (Z.b2z (shouldKeep n) - Z.b2z (shouldKeep n'))
  end.
Proof.
  intros [H1 H2 H3] Hp Hcnt. assert (Hs : is_Some (m !! p)) by eauto.
  assert (Hroot : is_Some (<[p:=n']> m !! [])) by (by apply is_Some_insert).
  assert (Hcl : forall k q, is_Some (<[p:=n']> m !! (k :: q)) -> is_Some (<[p:=n']> m !! q)).
  { intros k q. rewrite !is_Some_insert by done. apply H2. }
  assert (Hself : forall x, kept1 p p x = 0).
  { intros x. unfold kept1, kept_child. simpl. destruct p as [|k p]; [done|].
    rewrite bool_decide_false; [done|]. intros E. apply (f_equal length) in E. simpl in E. lia. }
  pose proof (H3 p n Hp) as Hpn. rewrite decide_True in Hpn by done.
  destruct p as [|k q]; constructor; try done; intros p' x; rewrite lookup_insert_Some;
    rewrite (kept_children_insert m p' _ n n' Hp).
  - intros [[<- <-]|[Hne Hx]]; [rewrite !Hself, decide_True by done; lia|].
    specialize (H3 p' x Hx). rewrite !kept1_root. rewrite decide_False in H3 |- * by done. lia.
  - intros [[<- <-]|[Hne Hx]].
    + rewrite !Hself, decide_False; [lia|]. intros E. apply (f_equal length) in E. simpl in E. lia.
    + specialize (H3 p' x Hx). rewrite decide_False in H3 by done. destruct (decide (p' = q)) as [->|Hq].
      * rewrite !kept1_eq. destruct (shouldKeep n), (shouldKeep n'); simpl; lia.
      * rewrite !kept1_ne by done. lia.
Qed.

(** Equal up to the counts. *)
Definition same_but_counts (m m' : gmap path NamespaceNode) : Prop :=
  forall q, set_activeChildCount 0 <$> m' !! q = set_activeChildCount 0 <$> m !! q.
Lemma same_but_counts_put m p n c : m !! p = Some n -> same_but_counts m (<[p:=set_activeChildCount c n]> m).
Proof.
  intros Hn q. destruct (decide (p = q)) as [<-|Hne]; [by rewrite lookup_insert_eq, Hn|by rewrite lookup_insert_ne].
Qed.
Lemma same_but_counts_trans m1 m2 m3 : same_but_counts m1 m2 -> same_but_counts m2 m3 -> same_but_counts m1 m3.
Proof. intros H1 H2 q. by rewrite H2, H1. Qed.

(** ** Counting up *)
Lemma incrementActiveChildren_ok p : forall t,
  counts_ok (nodes t) p (-1) -> is_Some (nodes t !! p) ->
  exists t', incrementActiveChildren p t = Some t' /\ tree_ok t' /\ nextRouteSeq_ t' = nextRouteSeq_ t /\
    same_but_counts (nodes t) (nodes t').
Proof.
  induction p as [|k q IH]; intros t Hok [n Hn]; simpl; rewrite Hn; simpl.
  - eexists. split; [done|]. split_and!; [|done|].
    + eapply (counts_ok_step _ [] n _ (-1)); [done|done|simpl; lia].
    + by apply same_but_counts_put.
  - set (n' := set_activeChildCount (activeChildCount_ n + 1) n). set (t1 := putNode (k :: q) n' t).
    assert (Hstep : counts_ok (nodes t1) q (Z.b2z (shouldKeep n) - Z.b2z (shouldKeep n'))).
    { apply (counts_ok_step (nodes t) (k :: q) n n' (-1)); [done|done|simpl; lia]. }
    assert (Hfr : same_but_counts (nodes t) (nodes t1)) by (by apply same_but_counts_put).
    pose proof (co_counts _ _ _ Hok _ _ Hn) as Hc. rewrite decide_True in Hc by done.
    pose proof (kept_children_nonneg (nodes t) (k :: q)).
    destruct ((activeChildCount_ n + 1 =? 1) && negb (hasContent n')) eqn:E.
    + destruct (IH t1) as (t' & H1 & H2 & H3 & H4).
      * assert (shouldKeep n = false /\ shouldKeep n' = true) as [E1 E2].
        { unfold shouldKeep in *. change (hasContent n') with (hasContent n) in *.
          apply andb_true_iff in E as [E Ec%negb_true_iff]. rewrite Ec. simpl. split; lia. }
        by rewrite E1, E2 in Hstep.
      * unfold t1. simpl. rewrite lookup_insert_ne.
        -- apply (co_closed _ _ _ Hok k). eauto.
        -- intros Eq. apply (f_equal length) in Eq. simpl in Eq. lia.
      * exists t'. split_and!; try done. by eapply same_but_counts_trans.
    + exists t1. split_and!; try done.
      assert (Z.b2z (shouldKeep n) - Z.b2z (shouldKeep n') = 0) as Ez.
      { unfold shouldKeep in *. change (hasContent n') with (hasContent n) in *. simpl.
        destruct (hasContent n); [done|]. simpl in *.
        destruct (0 <? activeChildCount_ n) eqn:E1, (0 <? activeChildCount_ n + 1) eqn:E2; simpl; lia. }
      rewrite Ez in Hstep. by eapply counts_ok_zero.
Qed.

(** ** Pruning *)
Lemma not_kept m p0 d p n : counts_ok m p0 d -> 0 <= d -> m !! p = Some n -> shouldKeep n = false ->
  kept_children m p = 0.
Proof.
  intros Hok Hd Hn Hk. pose proof (co_counts _ _ _ Hok _ _ Hn) as Hc. pose proof (kept_children_nonneg m p).
  unfold shouldKeep in Hk. apply orb_false_iff in Hk as [_ Hk].
  destruct (decide (p = p0)); lia.
Qed.

(** The walk up from the parent of an emptied node never finds a count at zero,
    and stops at a node that need not be kept. *)
Lemma pruneWalk_ok p : forall k t c,
  counts_ok (nodes t) p 1 -> nodes t !! (k :: p) = Some c -> shouldKeep c = false -> is_Some (nodes t !! p) ->
  exists r t' c', pruneWalk p (k :: p) t = Some (r, t') /\ tree_ok t' /\ nextRouteSeq_ t' = nextRouteSeq_ t /\
    same_but_counts (nodes t) (nodes t') /\ r <> [] /\ nodes t' !! r = Some c' /\ shouldKeep c' = false.
Proof.
  induction p as [|k1 q IH]; intros k t c Hok Hc Hck [n Hn]; simpl; rewrite Hn; simpl;
    pose proof (co_counts _ _ _ Hok _ _ Hn) as Hcnt; rewrite decide_True in Hcnt by done;
    pose proof (kept_children_nonneg (nodes t)) as Hnn; match type of Hcnt with kept_children _ ?p + _ <= _ => specialize (Hnn p) end;
    (replace (0 <? activeChildCount_ n) with true by lia); simpl;
    set (n' := set_activeChildCount (activeChildCount_ n - 1) n).
  - assert (Hres : tree_ok (putNode [] n' t)).
    { apply (counts_ok_step _ [] n n' 1); [done|done|simpl; lia]. }
    assert (Hfr : same_but_counts (nodes t) (nodes (putNode [] n' t))) by (by apply same_but_counts_put).
    destruct (_ || _); exists [k], (putNode [] n' t), c; split_and!; try done; simpl; by rewrite lookup_insert_ne.
  - set (t1 := putNode (k1 :: q) n' t).
    assert (Hstep : counts_ok (nodes t1) q (Z.b2z (shouldKeep n) - Z.b2z (shouldKeep n'))).
    { apply (counts_ok_step (nodes t) (k1 :: q) n n' 1); [done|done|simpl; lia]. }
    assert (Hkn : shouldKeep n = true) by (unfold shouldKeep; apply orb_true_iff; right; lia).
    assert (Hfr : same_but_counts (nodes t) (nodes t1)) by (by apply same_but_counts_put).
    assert (Hn' : nodes t1 !! (k1 :: q) = Some n') by (apply lookup_insert_eq).
    change (hasContent n' || (0 <? activeChildCount_ n - 1)) with (shouldKeep n').
    destruct (shouldKeep n') eqn:E.
    + exists (k :: k1 :: q), t1, c. rewrite Hkn in Hstep. split_and!; try done.
      * by eapply counts_ok_zero.
      * unfold t1. simpl. rewrite lookup_insert_ne; [done|]. intros Eq. apply (f_equal length) in Eq. simpl in Eq. lia.
    + rewrite Hkn in Hstep.
      destruct (IH k1 t1 n' Hstep Hn' E) as (r & t' & c' & H1 & H2 & H3 & H4 & H5 & H6 & H7).
      * apply (co_closed _ _ _ Hstep k1). eauto.
      * exists r, t', c'. split_and!; try done. by eapply same_but_counts_trans.
Qed.

(** Below a node that need not be kept there is nothing to keep. *)
Lemma below_not_kept t r c : tree_ok t -> nodes t !! r = Some c -> shouldKeep c = false ->
  forall q n, r `suffix_of` q -> nodes t !! q = Some n -> shouldKeep n = false.
Proof.
  intros Hok Hr Hc. induction q as [|k q IH]; intros n Hs Hq.
  - apply suffix_nil_inv in Hs as ->. congruence.
  - destruct (decide (r = k :: q)) as [->|Hne]; [congruence|].
    assert (Hs' : r `suffix_of` q).
    { destruct r as [|x r]; [apply suffix_nil|]. apply suffix_cons_inv in Hs as [?|?]; [congruence|done]. }
    destruct (co_closed _ _ _ Hok k q) as [m Hm]; [eauto|].
    pose proof (not_kept _ _ _ _ _ Hok ltac:(lia) Hm (IH m Hs' Hm)) as H0.
    destruct (shouldKeep n) eqn:E; [|done]. pose proof (kept_children_pos _ _ _ _ Hq E). lia.
Qed.

Lemma eraseSubtree_ok t r : tree_ok t -> r <> [] -> tree_ok (eraseSubtree r t).
Proof.
  intros [H1 H2 H3] Hr. constructor.
  - destruct H1 as [n Hn]. exists n. apply map_lookup_filter_Some_2; [done|]. simpl. intros H. by apply suffix_nil_inv in H.
  - intros k p [n Hn]. apply map_lookup_filter_Some in Hn as [Hn Hs]. simpl in Hs.
    destruct (H2 k p) as [m Hm]; [eauto|]. exists m. apply map_lookup_filter_Some_2; [done|]. simpl.
    intros H. apply Hs. by apply suffix_cons_r.
  - intros p n Hn. apply map_lookup_filter_Some in Hn as [Hn _]. specialize (H3 p n Hn).
    assert (kept_children (nodes (eraseSubtree r t)) p <= kept_children (nodes t) p); [|lia].
    unfold kept_children. apply inj_le, map_subseteq_size. simpl.
    apply map_subseteq_spec. intros q x [[Hx _]%map_lookup_filter_Some Hk]%map_lookup_filter_Some.
    by apply map_lookup_filter_Some_2.
Qed.

(** ** The content of the tree

    What a namespace holds, whether or not the tree has a node for it: this is
    the state the callers of the tree see. *)
Definition NsContent : Type := list Route * gmap string Session * gmap Session NamespaceSubscriberInfo.
Definition content (n : NamespaceNode) : NsContent := (routes_ n, publishes_ n, subscribers_ n).
Definition view (t : NamespaceTree) (p : path) : NsContent :=
  match nodes t !! p with Some n => content n | None => ([], ∅, ∅) end.

Lemma hasContent_false n : hasContent n = false <-> content n = ([], ∅, ∅).
Proof.
  unfold hasContent, content. rewrite !orb_false_iff, !negb_false_iff, !bool_decide_eq_true.
  split; [by intros [[-> ->] ->]|intros H; by simplify_eq].
Qed.

Lemma view_same t t' : same_but_counts (nodes t) (nodes t') -> forall q, view t' q = view t q.
Proof.
  intros H q. specialize (H q). unfold view.
  destruct (nodes t !! q) as [n|], (nodes t' !! q) as [n'|]; simpl in H; try done.
  apply (inj Some) in H. by apply (f_equal content) in H.
Qed.

Lemma view_erase t r c : tree_ok t -> nodes t !! r = Some c -> shouldKeep c = false ->
  forall q, view (eraseSubtree r t) q = view t q.
Proof.
  intros Hok Hr Hc q. unfold view, eraseSubtree. simpl.
  destruct (nodes t !! q) as [n|] eqn:Hq.
  - destruct (decide (r `suffix_of` q)) as [Hs|Hs].
    + rewrite (map_lookup_filter_None_2 _ (nodes t) q).
      * pose proof (below_not_kept _ _ _ Hok Hr Hc q n Hs Hq) as Hk. unfold shouldKeep in Hk.
        apply orb_false_iff in Hk as [Hk _]. symmetry. by apply hasContent_false.
      * right. intros x Hx Hn. by apply Hn.
    + by rewrite (map_lookup_filter_Some_2 _ (nodes t) q n Hq Hs).
  - rewrite (map_lookup_filter_None_2 _ (nodes t) q); [done|by left].
Qed.

(** The nodes of [t'] were nodes of [t] with the same rankings. *)
Definition nodes_from (t t' : NamespaceTree) : Prop :=
  forall q n', nodes t' !! q = Some n' -> exists n, nodes t !! q = Some n /\ rankings_ n' = rankings_ n /\
    advertisements_ n' = advertisements_ n /\ trackNamespace_ n' = trackNamespace_ n.
Lemma nodes_from_same t t' : same_but_counts (nodes t) (nodes t') -> nodes_from t t'.
Proof.
  intros H q n' Hn'. specialize (H q). rewrite Hn' in H. simpl in H. destruct (nodes t !! q) as [n|]; [|done].
  exists n. split; [done|]. simpl in H. apply (inj Some) in H.
  by pose proof (f_equal rankings_ H); pose proof (f_equal advertisements_ H); pose proof (f_equal trackNamespace_ H).
Qed.
Lemma nodes_from_erase t r : nodes_from t (eraseSubtree r t).
Proof. intros q n [Hn _]%map_lookup_filter_Some. eauto. Qed.
Lemma nodes_from_trans t1 t2 t3 : nodes_from t1 t2 -> nodes_from t2 t3 -> nodes_from t1 t3.
Proof.
  intros H1 H2 q n Hn. destruct (H2 q n Hn) as (n2 & Hn2 & ? & ? & ?). destruct (H1 q n2 Hn2) as (n1 & Hn1 & ? & ? & ?).
  exists n1. split_and!; [done|congruence..].
Qed.

(** Removing an emptied node: the check on the counts holds and nothing that is
    held anywhere is lost. *)
Lemma tryPruneChild_ok q k t c : counts_ok (nodes t) q 1 -> nodes t !! (k :: q) = Some c -> shouldKeep c = false ->
  exists t', tryPruneChild q k t = Some t' /\ tree_ok t' /\ nextRouteSeq_ t' = nextRouteSeq_ t /\
    nodes_from t t' /\ forall x, view t' x = view t x.
Proof.
  intros Hok Hc Hk. unfold tryPruneChild. rewrite Hc, Hk.
  destruct (pruneWalk_ok q k t c Hok Hc Hk) as (r & t1 & c1 & H1 & H2 & H3 & H4 & H5 & H6 & H7).
  { apply (co_closed _ _ _ Hok k). eauto. }
  rewrite H1. simpl. eexists. split; [done|]. split; [by apply eraseSubtree_ok|]. split; [done|].
  split; [eapply nodes_from_trans; [by apply nodes_from_same|apply nodes_from_erase]|].
  intros x. rewrite (view_erase _ _ _ H2 H6 H7). by apply view_same.
Qed.

Lemma counts_ok_weaken m p d d' : counts_ok m p d -> d' <= d -> counts_ok m p d'.
Proof.
  intros [H1 H2 H3] Hd. constructor; [done|done|]. intros q n Hn. specialize (H3 q n Hn).
  destruct (decide (q = p)); lia.
Qed.

(** A change of the content of one node under its guard: no check fails, the
    counts stay right, the node gets its new content, and no other namespace
    changes, whatever is pruned. *)
Lemma guarded_ok p f t n : tree_ok t -> nodes t !! p = Some n -> activeChildCount_ (f n) = activeChildCount_ n ->
  exists t', guarded p f t = Some t' /\ tree_ok t' /\ nextRouteSeq_ t' = nextRouteSeq_ t /\
    nodes_from (putNode p (f n) t) t' /\
    view t' p = content (f n) /\ (forall q, q <> p -> view t' q = view t q).
Proof.
  intros Hok Hn Hf. unfold guarded. rewrite Hn. simpl.
  set (t1 := putNode p (f n) t).
  assert (Hn1 : nodes t1 !! p = Some (f n)) by apply lookup_insert_eq.
  assert (Hv : forall t', (forall q, view t' q = view t1 q) ->
    view t' p = content (f n) /\ (forall q, q <> p -> view t' q = view t q)).
  { intros t' H. split; [rewrite H; unfold view; by rewrite Hn1|].
    intros q Hq. rewrite H. unfold view, t1. simpl. by rewrite lookup_insert_ne. }
  assert (Hstep := counts_ok_step (nodes t) p n (f n) 0 (counts_ok_zero _ _ p Hok) Hn ltac:(lia)).
  change (<[p:=f n]> (nodes t)) with (nodes t1) in Hstep.
  assert (Hseq : nextRouteSeq_ t1 = nextRouteSeq_ t) by done.
  assert (Hself : nodes_from t1 t1) by (by apply nodes_from_same). clearbody t1.
  unfold notifyParentIfFirstContent, tryPruneSelf. rewrite Hn1. simpl.
  destruct p as [|k q].
  { simpl. rewrite Hn1. simpl. exists t1. split_and!; try done; by apply Hv. }
  assert (Hq : is_Some (nodes t1 !! q)) by (apply (co_closed _ _ _ Hstep k); eauto).
  destruct (negb (hasContent n) && hasContent (f n)) eqn:E1.
  - apply andb_true_iff in E1 as [E1%negb_true_iff E2].
    destruct (incrementActiveChildren_ok q t1) as (t' & H1 & H2 & H3 & H4).
    + eapply counts_ok_weaken; [done|]. unfold shouldKeep at 2. rewrite E2. simpl. destruct (shouldKeep n); simpl; lia.
    + done.
    + rewrite H1. simpl.
      assert (is_Some (nodes t' !! (k :: q))) as [x Hx].
      { specialize (H4 (k :: q)). rewrite Hn1 in H4. destruct (nodes t' !! (k :: q)); [eauto|done]. }
      rewrite Hx. simpl. rewrite E1. simpl. exists t'. split_and!; [done|done|congruence|by apply nodes_from_same|apply Hv; by apply view_same..].
  - simpl. rewrite Hn1. simpl. destruct (hasContent n && negb (shouldKeep (f n))) eqn:E2.
    + apply andb_true_iff in E2 as [E2 E3%negb_true_iff].
      destruct (tryPruneChild_ok q k t1 (f n)) as (t' & H1 & H2 & H3 & H4 & H5); [|done|done|].
      * rewrite E3 in Hstep. unfold shouldKeep in Hstep. by rewrite E2 in Hstep.
      * exists t'. split_and!; [done|done|congruence|done|by apply Hv..].
    + exists t1. split_and!; try done; [|by apply Hv|by apply Hv].
      apply (counts_ok_zero _ q). eapply counts_ok_weaken; [done|].
      unfold shouldKeep in *. rewrite Hf in *.
      destruct (hasContent n), (hasContent (f n)), (0 <? activeChildCount_ n); simpl in *; try done; lia.
Qed.

(** ** Looking nodes up *)
Lemma findNode_from_create at_ rest subs t : tree_ok t -> is_Some (nodes t !! at_) ->
  exists subs' t', findNode_from at_ rest true subs t = (Some (rev rest ++ at_), subs', t') /\ tree_ok t' /\
    is_Some (nodes t' !! (rev rest ++ at_)) /\ nextRouteSeq_ t' = nextRouteSeq_ t /\ (forall q, view t' q = view t q) /\
    forall q n, nodes t' !! q = Some n -> nodes t !! q = Some n \/ rankings_ n = ∅.
Proof.
  revert at_ subs t. induction rest as [|name rest IH]; intros at_ subs t Hok Hat; simpl; [eauto 10|].
  rewrite <- app_assoc. simpl. destruct (nodes t !! (name :: at_)) as [x|] eqn:E; [apply IH; eauto|].
  set (t1 := putNode _ _ t). destruct (IH (name :: at_) (subs ++ match nodes t !! at_ with
    | Some n => subscribersOf n | None => [] end) t1) as (subs' & t' & H1 & H2 & H3 & H4 & H5 & H6).
  - destruct Hok as [H1 H2 H3]. constructor.
    + unfold t1. simpl. by rewrite lookup_insert_ne.
    + intros k p. unfold t1. simpl. intros Hs. destruct (decide (name :: at_ = p)) as [<-|Hne];
        [rewrite lookup_insert_eq; eauto|rewrite lookup_insert_ne by done].
      destruct (decide (name :: at_ = k :: p)) as [Heq|Hne']; [by simplify_eq|].
      rewrite lookup_insert_ne in Hs by done. eauto.
    + assert (Hk : forall p, kept_children (nodes t1) p = kept_children (nodes t) p).
      { intros p. unfold t1. simpl. rewrite kept_children_new by done.
        destruct (decide (at_ = p)) as [<-|]; [rewrite kept1_eq|rewrite kept1_ne by done; lia].
        change (shouldKeep (newNode (rev at_ ++ [name]))) with false. cbv iota. lia. }
      intros p n. rewrite Hk. unfold t1. simpl. rewrite lookup_insert_Some. intros [[<- <-]|[_ Hn]]; [|eauto].
      simpl. destruct (decide (kept_children (nodes t) (name :: at_) = 0)) as [->|Hnz]; [done|].
      exfalso. apply Hnz. unfold kept_children. apply (Nat2Z.inj_iff _ 0), map_size_empty_iff, map_empty.
      intros q. apply map_lookup_filter_None_2. right. intros y Hy Hkc. unfold kept_child in Hkc. simpl in Hkc. destruct q as [|z q]; [done|].
      apply andb_true_iff in Hkc as [->%bool_decide_eq_true _]. destruct (H2 z (name :: at_)); [eauto|congruence].
  - unfold t1. simpl. rewrite lookup_insert_eq. eauto.
  - exists subs', t'. split_and!; [done|done|done|done|..].
    + intros q. rewrite H5. unfold view, t1. simpl.
      destruct (decide (name :: at_ = q)) as [<-|Hne]; [by rewrite lookup_insert_eq, E|by rewrite lookup_insert_ne].
    + intros q n Hn. destruct (H6 q n Hn) as [Hn1|?]; [|by right]. unfold t1 in Hn1. simpl in Hn1.
      apply lookup_insert_Some in Hn1 as [[<- <-]|[_ Hn1]]; [by right|by left].
Qed.
