(* ===== verification/NamespaceSpec.v ===== *)
(** What the callers of the namespace tree rely on: each operation is an update
    of what one namespace holds, no check of the tree fails, and pruning is
    invisible. *)

From S2P Require Import Prelude NamespaceTree NamespaceInv.

(** ** Lists with at most one match *)
Definition atMostOne {A} (P : A -> bool) (l : list A) : Prop := (length (List.filter P l) <= 1)%nat.

Lemma filter_none {A} (P : A -> bool) l : length (List.filter P l) = 0%nat -> List.filter (fun x => negb (P x)) l = l.
Proof.
  induction l as [|x l IH]; intros H; [done|]. simpl in *. destruct (P x); simpl in *; [lia|]. by rewrite IH.
Qed.
Lemma map_none {A} (P : A -> bool) (f : A -> A) l : length (List.filter P l) = 0%nat ->
  map (fun x => if P x then f x else x) l = l.
Proof.
  induction l as [|x l IH]; intros H; [done|]. simpl in *. destruct (P x); simpl in *; [lia|]. by rewrite IH.
Qed.
Lemma list_find_none {A} (P : A -> bool) l : list_find (fun x => P x = true) l = None -> length (List.filter P l) = 0%nat.
Proof.
  intros H. apply list_find_None in H. induction H as [|x l Hx Hl IH]; [done|]. simpl.
  apply not_true_iff_false in Hx. by rewrite Hx.
Qed.

(** Removing, or updating, the first match is removing, or updating, every match. *)
Lemma list_find_unique {A} (P : A -> bool) (f : A -> A) l i x :
  atMostOne P l -> list_find (fun x => P x = true) l = Some (i, x) ->
  delete i l = List.filter (fun x => negb (P x)) l /\ <[i:=f x]> l = map (fun x => if P x then f x else x) l.
Proof.
  unfold atMostOne. revert i. induction l as [|y l IH]; intros i Hone Hf; simpl in *; [done|].
  destruct (decide (P y = true)) as [Hy|Hy].
  - injection Hf as <- ->. rewrite Hy in Hone |- *. simpl in *.
    rewrite filter_none, map_none by lia. done.
  - apply not_true_iff_false in Hy. rewrite Hy in Hone |- *.
    destruct (list_find _ l) as [[j z]|] eqn:E; simpl in Hf; [|done]. injection Hf as <- ->.
    destruct (IH j Hone eq_refl) as [H1 H2]. simpl. by rewrite H1, H2.
Qed.

Lemma atMostOne_mono {A} (P Q : A -> bool) l : (forall x, In x l -> P x = true -> Q x = true) ->
  atMostOne Q l -> atMostOne P l.
Proof.
  unfold atMostOne. intros H. assert (length (List.filter P l) <= length (List.filter Q l))%nat; [|lia].
  induction l as [|x l IH]; simpl; [done|].
  assert (IH' := IH ltac:(intros y Hy; apply H; by right)). specialize (H x (or_introl eq_refl)).
  destruct (P x); [rewrite H by done; simpl; lia|]. destruct (Q x); simpl; lia.
Qed.

Lemma atMostOne_key {A} (key : A -> Z) (k : Z) l : NoDup (map key l) -> atMostOne (fun x => key x =? k) l.
Proof.
  unfold atMostOne. induction l as [|x l IH]; simpl; [lia|]. intros [Hx Hl]%NoDup_cons.
  destruct (Z.eqb_spec (key x) k) as [<-|]; [|by apply IH]. simpl.
  assert (length (List.filter (fun y => key y =? key x) l) = 0%nat); [|lia].
  clear -Hx. induction l as [|y l IH]; [done|]. simpl in *. apply not_elem_of_cons in Hx as [H1 H2].
  destruct (Z.eqb_spec (key y) (key x)); [congruence|]. by apply IH.
Qed.

(** ** The abstract tree *)
Record AbsTree := mkAbs { a_content : path -> NsContent; a_seq : Z }.

Inductive NsOp :=
| OpSetPublisher (ns : list string) (session : Session) (callback : option Callback) (peerID : string)
    (requestID : Z) (relayHopPath : list Z) (cost : Z) (fromCluster : bool)
| OpUpdateRoute (ns : list string) (sid requestID : Z) (hops : list Z) (cost : Z)
| OpUnpublishNamespace (ns : list string) (sid : Z) (requestID : option Z)
| OpAddPublish (ns : list string) (trackName : string) (session : Session)
| OpUnpublishTrack (ns : list string) (trackName : string)
| OpAddSubscriber (ns : list string) (session : Session) (info : NamespaceSubscriberInfo)
| OpRemoveSubscriber (ns : list string) (session : Session)
| OpRanking (ns : list string) (propertyType : Z) (fresh : RankingRef).

Definition op_ns (op : NsOp) : list string :=
  match op with
  | OpSetPublisher ns _ _ _ _ _ _ _ | OpUpdateRoute ns _ _ _ _ | OpUnpublishNamespace ns _ _ | OpAddPublish ns _ _
  | OpUnpublishTrack ns _ | OpAddSubscriber ns _ _ | OpRemoveSubscriber ns _ | OpRanking ns _ _ => ns
  end.

Section spec.
Context (sessionId : Session -> Z).

(** The route as its advertisement is repeated: a new origin is a new generation. *)
Definition revised (hops : list Z) (cost seq : Z) (r : Route) : Route := (reviseRoute r hops cost seq).1.1.
Definition set_peerID (peerID : string) (r : Route) : Route :=
  mkRoute (r_session r) (r_callback r) peerID (r_requestID r) (r_path r) (r_cost r) (r_seq r) (r_fromCluster r).

(** An announcement: a session that repeats its cluster advertisement revises
    it; any other announcement replaces what it clashes with. *)
Definition announce (session : Session) (callback : option Callback) (peerID : string) (requestID : Z)
    (hops : list Z) (cost : Z) (fromCluster : bool) (rs : list Route) (seq : Z) : list Route * Z :=
  let mine r := r_session r =? session in
  let clash r := mine r || (negb fromCluster && negb (r_fromCluster r)) in
  if fromCluster && bool_decide (callback = None) &&
     existsb (fun r => mine r && bool_decide (r_callback r = None)) rs
  then (map (fun r => if mine r then revised hops cost seq (set_peerID peerID r) else r) rs,
        if existsb (fun r => mine r && negb (sameOrigin (r_path r) hops)) rs then seq + 1 else seq)
  else (List.filter (fun r => negb (clash r)) rs ++
          [mkRoute session callback peerID requestID hops cost (seq + 1) fromCluster], seq + 1).

Definition abs_content (op : NsOp) (c : NsContent) (seq : Z) : NsContent * Z :=
  let '(rs, ps, ss) := c in
  match op with
  | OpSetPublisher _ session callback peerID requestID hops cost fromCluster =>
      let '(rs', seq') := announce session callback peerID requestID hops cost fromCluster rs seq in (rs', ps, ss, seq')
  | OpUpdateRoute _ sid requestID hops cost =>
      let named r := (sessionId (r_session r) =? sid) && (r_requestID r =? requestID) in
      (map (fun r => if named r then revised hops cost seq r else r) rs, ps, ss,
       if existsb (fun r => named r && negb (sameOrigin (r_path r) hops)) rs then seq + 1 else seq)
  | OpUnpublishNamespace _ sid requestID =>
      let named r := (sessionId (r_session r) =? sid) &&
                     match requestID with None => true | Some q => r_requestID r =? q end in
      (List.filter (fun r => negb (named r)) rs, ps, ss, seq)
  | OpAddPublish _ trackName session => (rs, <[trackName:=session]> ps, ss, seq)
  | OpUnpublishTrack _ trackName => (rs, delete trackName ps, ss, seq)
  | OpAddSubscriber _ session info =>
      (rs, ps, match ss !! session with Some _ => ss | None => <[session:=info]> ss end, seq)
  | OpRemoveSubscriber _ session => (rs, ps, delete session ss, seq)
  | OpRanking _ _ _ => (c, seq)
  end.

Definition absStep (op : NsOp) (a : AbsTree) : AbsTree :=
  let p := rev (op_ns op) in
  let '(c, seq) := abs_content op (a_content a p) (a_seq a) in
  mkAbs (fun q => if decide (q = p) then c else a_content a q) seq.

(** ** The tree as the relay drives it

    A refused operation leaves the tree as it is.  A ranking is made by
    [MoqxRelay::getOrCreateRanking]: the slot is filled when it is empty. *)
Definition refusedOr {A} (t : NamespaceTree) (pick : A -> NamespaceTree) (r : result Error A) : NamespaceTree :=
  match r with Ok x => pick x | Err _ => t end.

Definition getOrCreateRanking (p : path) (propertyType : Z) (fresh : RankingRef) (t : NamespaceTree)
  : option NamespaceTree :=
  '(slot, t1) ← getOrInsertRanking p propertyType t;
  match slot with
  | Some _ => Some t1
  | None => n ← nodes t1 !! p; Some (putNode p (set_rankings (<[propertyType:=Some fresh]> (rankings_ n)) n) t1)
  end.

Definition execNs (op : NsOp) (t : NamespaceTree) : option NamespaceTree :=
  match op with
  | OpSetPublisher ns session callback peerID requestID hops cost fromCluster =>
      snd <$> setPublisher ns session callback peerID requestID hops cost fromCluster t
  | OpUpdateRoute ns sid requestID hops cost => refusedOr t snd <$> updateRoute sessionId ns sid requestID hops cost t
  | OpUnpublishNamespace ns sid requestID => refusedOr t snd <$> unpublishNamespace sessionId ns sid requestID t
  | OpAddPublish ns trackName session => snd <$> addPublish ns trackName session t
  | OpUnpublishTrack ns trackName => refusedOr t id <$> unpublishTrack ns trackName t
  | OpAddSubscriber ns session info => snd <$> addNamespaceSubscriber ns session info t
  | OpRemoveSubscriber ns session => refusedOr t snd <$> removeNamespaceSubscriber sessionId ns session t
  | OpRanking ns propertyType fresh =>
      match findNode ns false t with
      | (Some p, _, _) => getOrCreateRanking p propertyType fresh t
      | (None, _, _) => Some t
      end
  end.

Fixpoint runNs (ops : list NsOp) (t : NamespaceTree) : option NamespaceTree :=
  match ops with [] => Some t | op :: ops => t' ← execNs op t; runNs ops t' end.
End spec.

(** ** Each operation refines its update of the abstract tree *)
(** Every ranking slot is filled. *)
Definition rankings_ok (t : NamespaceTree) : Prop :=
  forall p n ty, nodes t !! p = Some n -> rankings_ n !! ty <> Some None.
Definition tree_inv (t : NamespaceTree) : Prop := tree_ok t /\ rankings_ok t.

Lemma findNode_from_find at_ rest subs t : tree_ok t -> is_Some (nodes t !! at_) ->
  exists subs', findNode_from at_ rest false subs t =
    (match nodes t !! (rev rest ++ at_) with Some _ => Some (rev rest ++ at_) | None => None end, subs', t).
Proof.
  intros Hok. revert at_ subs. induction rest as [|name rest IH]; intros at_ subs [x Hx]; simpl; [rewrite Hx; eauto|].
  rewrite <- app_assoc. simpl. destruct (nodes t !! (name :: at_)) as [y|] eqn:E; [apply IH; eauto|].
  assert (Hup : forall l, nodes t !! (l ++ name :: at_) = None).
  { induction l as [|z l IHl]; [done|]. apply eq_None_not_Some. intros Hs.
    apply (co_closed _ _ _ Hok z (l ++ name :: at_)) in Hs. rewrite IHl in Hs. by destruct Hs. }
  rewrite Hup. eauto.
Qed.

Lemma findNode_find ns t : tree_ok t -> exists subs,
  findNode ns false t = (match nodes t !! rev ns with Some _ => Some (rev ns) | None => None end, subs, t).
Proof.
  intros Hok. destruct (findNode_from_find [] ns [] t Hok (co_root _ _ _ Hok)) as [subs H].
  exists subs. by rewrite app_nil_r in H.
Qed.

Lemma findNode_create ns t : tree_inv t -> exists subs t' n,
  findNode ns true t = (Some (rev ns), subs, t') /\ tree_inv t' /\ nodes t' !! rev ns = Some n /\
  nextRouteSeq_ t' = nextRouteSeq_ t /\ (forall q, view t' q = view t q).
Proof.
  intros [Hok Hr].
  destruct (findNode_from_create [] ns [] t Hok (co_root _ _ _ Hok)) as (subs & t' & H1 & H2 & [n H3] & H4 & H5 & H6).
  rewrite app_nil_r in H1, H3. exists subs, t', n. split_and!; try done. split; [done|].
  intros p x ty Hx. destruct (H6 p x Hx) as [Hx'|He]; [by eapply Hr|]. by rewrite He, lookup_empty.
Qed.

Lemma guarded_step p f t n : tree_inv t -> nodes t !! p = Some n -> activeChildCount_ (f n) = activeChildCount_ n ->
  rankings_ (f n) = rankings_ n ->
  exists t', guarded p f t = Some t' /\ tree_inv t' /\ nextRouteSeq_ t' = nextRouteSeq_ t /\
    forall q, view t' q = if decide (q = p) then content (f n) else view t q.
Proof.
  intros [Hok Hr] Hn Hc Hrk. destruct (guarded_ok p f t n Hok Hn Hc) as (t' & H1 & H2 & H3 & H4 & H5 & H6).
  exists t'. split_and!; [done|split; [done|]|done|].
  - intros q x ty Hx. destruct (H4 q x Hx) as (y & Hy & -> & _). simpl in Hy.
    apply lookup_insert_Some in Hy as [[<- <-]|[_ Hy]]; [rewrite Hrk|]; by eapply Hr.
  - intros q. destruct (decide (q = p)) as [->|Hne]; [done|by apply H6].
Qed.

Lemma kept_children_ext m m' p : (forall q, shouldKeep <$> m' !! q = shouldKeep <$> m !! q) ->
  kept_children m' p = kept_children m p.
Proof.
  intros H. unfold kept_children. f_equal. rewrite <- !size_dom. f_equal. apply leibniz_equiv. intros q.
  rewrite !elem_of_dom. unfold is_Some. setoid_rewrite map_lookup_filter_Some. specialize (H q).
  unfold kept_child. simpl. split; intros [x [Hx Hk]]; rewrite Hx in H; simpl in H.
  - destruct (m !! q) as [y|]; [|done]. exists y. split; [done|]. simpl in H. apply (inj Some) in H.
    destruct q; [done|]. by rewrite <- H.
  - destruct (m' !! q) as [y|]; [|done]. exists y. split; [done|]. simpl in H. apply (inj Some) in H.
    destruct q; [done|]. by rewrite H.
Qed.

(** A change that keeps every node, its count and whether it has content. *)
Lemma tree_ok_ext t t' :
  (forall q, (fun n => (activeChildCount_ n, hasContent n)) <$> nodes t' !! q =
             (fun n => (activeChildCount_ n, hasContent n)) <$> nodes t !! q) -> tree_ok t -> tree_ok t'.
Proof.
  intros H [H1 H2 H3].
  assert (Hd : forall q, is_Some (nodes t' !! q) <-> is_Some (nodes t !! q)).
  { intros q. specialize (H q). destruct (nodes t' !! q), (nodes t !! q); try done; split; eauto; intros [? ?]; done. }
  constructor.
  - by apply Hd.
  - intros k p. rewrite !Hd. apply H2.
  - intros p n Hn. rewrite (kept_children_ext (nodes t)).
    + pose proof (H p) as Hp. rewrite Hn in Hp. destruct (nodes t !! p) as [m|] eqn:E; [|done]. simpl in Hp.
      injection Hp as -> _. by apply H3.
    + intros q. specialize (H q). destruct (nodes t' !! q) as [x|], (nodes t !! q) as [y|]; simpl in *; try done.
      injection H as Ha Hb. unfold shouldKeep. by rewrite Ha, Hb.
Qed.

Lemma put_step p n n' seq t : tree_inv t -> nodes t !! p = Some n -> activeChildCount_ n' = activeChildCount_ n ->
  hasContent n' = hasContent n -> (forall ty, rankings_ n' !! ty <> Some None) ->
  let t' := mkTree (<[p:=n']> (nodes t)) seq in
  tree_inv t' /\ forall q, view t' q = if decide (q = p) then content n' else view t q.
Proof.
  intros [Hok Hr] Hn Ha Hc Hrk t'. split; [split|].
  - apply (tree_ok_ext t); [|done]. intros q. unfold t'. simpl.
    destruct (decide (p = q)) as [<-|Hne]; [|by rewrite lookup_insert_ne].
    rewrite lookup_insert_eq, Hn. simpl. by rewrite Ha, Hc.
  - intros q x ty. unfold t'. simpl. rewrite lookup_insert_Some. intros [[<- <-]|[_ Hx]]; [done|by eapply Hr].
  - intros q. unfold t', view. simpl. destruct (decide (q = p)) as [->|Hne];
      [by rewrite lookup_insert_eq|by rewrite lookup_insert_ne].
Qed.

Lemma eraseAdvertisements_step p key t : tree_inv t ->
  tree_inv (eraseAdvertisements p key t) /\ (forall q, view (eraseAdvertisements p key t) q = view t q) /\
  nextRouteSeq_ (eraseAdvertisements p key t) = nextRouteSeq_ t /\
  forall q n, nodes t !! q = Some n -> exists n', nodes (eraseAdvertisements p key t) !! q = Some n' /\ content n' = content n.
Proof.
  intros [Hok Hr].
  assert (Hl : forall q, nodes (eraseAdvertisements p key t) !! q =
    (fun n => if decide (p `suffix_of` q) then eraseSubscriberAdvertisement key n else n) <$> nodes t !! q).
  { intros q. unfold eraseAdvertisements. simpl. rewrite map_lookup_imap. by destruct (nodes t !! q). }
  split_and!; [split|..].
  - apply (tree_ok_ext t); [|done]. intros q. rewrite Hl. destruct (nodes t !! q); [|done]. simpl. by destruct (decide _).
  - intros q n ty. rewrite Hl. destruct (nodes t !! q) as [x|] eqn:E; [|done]. simpl. intros [= <-].
    assert (rankings_ (if decide (p `suffix_of` q) then eraseSubscriberAdvertisement key x else x) = rankings_ x) as ->
      by (by destruct (decide _)). by eapply Hr.
  - intros q. unfold view. rewrite Hl. destruct (nodes t !! q); [|done]. simpl. by destruct (decide _).
  - done.
  - intros q n Hn. rewrite Hl, Hn. simpl. eexists. split; [done|]. by destruct (decide _).
Qed.
