(* ===== verification/NamespaceRoutes.v ===== *)
(** The routes of a namespace: one per session, one outside the cluster, each of
    its own generation; and the abstract updates keep that. *)

From S2P Require Import Prelude NamespaceTree NamespaceInv NamespaceSpec.

Section routes.
Context (sessionId : Session -> Z) (isCluster : Session -> bool).

Record routes_ok (seq : Z) (rs : list Route) : Prop := {
  ro_sessions : NoDup (map r_session rs);
  ro_seqs : NoDup (map r_seq rs);
  ro_local : atMostOne (fun r => negb (r_fromCluster r)) rs;
  ro_each r : In r rs -> r_fromCluster r = isCluster (r_session r) /\ r_seq r <= seq;
}.

Lemma NoDup_map_filter {A} (f : A -> Z) P (l : list A) : NoDup (map f l) -> NoDup (map f (List.filter P l)).
Proof.
  induction l as [|x l IH]; simpl; [done|]. intros [Hx Hl]%NoDup_cons. destruct (P x); [|by apply IH].
  simpl. apply NoDup_cons. split; [|by apply IH]. intros Hin. apply Hx.
  apply list_elem_of_In, in_map_iff in Hin as (y & Hy & Hin). apply list_elem_of_In, in_map_iff.
  exists y. split; [done|]. by apply filter_In in Hin as [? _].
Qed.

Lemma routes_ok_filter seq P rs : routes_ok seq rs -> routes_ok seq (List.filter P rs).
Proof.
  intros [H1 H2 H3 H4]. constructor.
  - by apply NoDup_map_filter.
  - by apply NoDup_map_filter.
  - unfold atMostOne in *. clear -H3. induction rs as [|x rs IH]; [done|]. simpl in *.
    destruct (P x), (negb (r_fromCluster x)) eqn:E; simpl in *; rewrite ?E; simpl; try apply IH; try lia.
    assert (length (List.filter (fun r => negb (r_fromCluster r)) (List.filter P rs)) <=
      length (List.filter (fun r => negb (r_fromCluster r)) rs))%nat; [|lia].
    clear. induction rs as [|x rs IH]; [done|]. simpl.
    destruct (P x) eqn:EP; simpl; destruct (negb (r_fromCluster x)); simpl; lia.
  - intros r [Hr _]%filter_In. by apply H4.
Qed.

Lemma routes_ok_mono seq seq' rs : routes_ok seq rs -> seq <= seq' -> routes_ok seq' rs.
Proof. intros [H1 H2 H3 H4] H. constructor; try done. intros r Hr. destruct (H4 r Hr). split; [done|lia]. Qed.

Lemma NoDup_bump (f : Route -> Z) (P : Route -> bool) seq l :
  NoDup (map f l) -> (forall x, In x l -> f x <= seq) -> atMostOne P l ->
  NoDup (map (fun x => if P x then seq + 1 else f x) l).
Proof.
  unfold atMostOne. induction l as [|x l IH]; simpl; [done|]. intros [Hx Hl]%NoDup_cons Hle Hone.
  assert (Hn : length (List.filter P l) = 0%nat -> map (fun x => if P x then seq + 1 else f x) l = map f l).
  { clear. induction l as [|y l IH]; [done|]. simpl. destruct (P y); simpl; [lia|]. intros H. by rewrite IH. }
  apply NoDup_cons. split.
  - destruct (P x) eqn:E; simpl in Hone.
    + rewrite Hn by lia. intros Hin. apply list_elem_of_In, in_map_iff in Hin as (y & Hy & Hin).
      specialize (Hle y (or_intror Hin)). lia.
    + intros Hin. apply list_elem_of_In, in_map_iff in Hin as (y & Hy & Hin).
      destruct (P y).
      * specialize (Hle x (or_introl eq_refl)). lia.
      * apply Hx, list_elem_of_In, in_map_iff. by exists y.
  - apply IH; [done|intros y Hy; apply Hle; by right|destruct (P x); simpl in Hone; lia].
Qed.

(** Revising the one route [P] names. *)
Lemma routes_ok_revise seq (P : Route -> bool) (g : Route -> Route) hops rs :
  routes_ok seq rs -> atMostOne P rs -> (forall r, r_session (g r) = r_session r) ->
  (forall r, r_fromCluster (g r) = r_fromCluster r) ->
  (forall r, r_seq (g r) = if negb (sameOrigin (r_path r) hops) then seq + 1 else r_seq r) ->
  routes_ok (if existsb (fun r => P r && negb (sameOrigin (r_path r) hops)) rs then seq + 1 else seq)
    (map (fun r => if P r then g r else r) rs).
Proof.
  intros [H1 H2 H3 H4] Hone Hs Hf Hq.
  assert (E1 : forall r, r_session (if P r then g r else r) = r_session r) by (intros r; destruct (P r); auto).
  assert (E2 : forall r, r_fromCluster (if P r then g r else r) = r_fromCluster r) by (intros r; destruct (P r); auto).
  assert (E3 : forall r, r_seq (if P r then g r else r) =
    if P r && negb (sameOrigin (r_path r) hops) then seq + 1 else r_seq r).
  { intros r. destruct (P r); [by rewrite Hq|done]. }
  constructor.
  - rewrite map_map. erewrite map_ext; [exact H1|done].
  - rewrite map_map. erewrite map_ext; [|exact E3]. apply NoDup_bump; [done|intros r Hr; by apply H4|].
    eapply atMostOne_mono; [|exact Hone]. intros x _ Hx. by apply andb_true_iff in Hx as [? _].
  - unfold atMostOne in *. assert (E : forall l, length (List.filter (fun r => negb (r_fromCluster r))
      (map (fun r => if P r then g r else r) l)) = length (List.filter (fun r => negb (r_fromCluster r)) l)).
    { induction l as [|x l IH]; [done|]. simpl. rewrite E2. destruct (negb _); simpl; by rewrite ?IH. }
    by rewrite E.
  - intros r (x & <- & Hx)%in_map_iff. rewrite E1, E2, E3. destruct (H4 x Hx) as [Ha Hb]. split; [done|].
    destruct (P x && _) eqn:E.
    + rewrite (proj2 (existsb_exists _ rs)) by eauto. lia.
    + destruct (existsb _ rs); lia.
Qed.

Lemma revised_seq hops cost seq r :
  r_seq (revised hops cost seq r) = if negb (sameOrigin (r_path r) hops) then seq + 1 else r_seq r.
Proof. unfold revised, reviseRoute. by destruct (negb _). Qed.
Lemma revised_session hops cost seq r : r_session (revised hops cost seq r) = r_session r.
Proof. unfold revised, reviseRoute. by destruct (negb _). Qed.
Lemma revised_fromCluster hops cost seq r : r_fromCluster (revised hops cost seq r) = r_fromCluster r.
Proof. unfold revised, reviseRoute. by destruct (negb _). Qed.

(** What an announcement clashes with is at most one route. *)
Lemma clash_one seq rs session fromCluster : routes_ok seq rs -> fromCluster = isCluster session ->
  atMostOne (fun r => (r_session r =? session) || (negb fromCluster && negb (r_fromCluster r))) rs.
Proof.
  intros [H1 H2 H3 H4] Hc. destruct fromCluster; simpl.
  - eapply atMostOne_mono; [|by apply (atMostOne_key r_session session)]. intros x _ Hx. by rewrite orb_false_r in Hx.
  - eapply atMostOne_mono; [|exact H3]. intros x Hx [Hs|Hs]%orb_true_iff; [|done].
    destruct (H4 x Hx) as [-> _]. apply Z.eqb_eq in Hs as ->. by rewrite <- Hc.
Qed.

Lemma named_one seq rs sid Q : Inj (=) (=) sessionId -> routes_ok seq rs ->
  atMostOne (fun r => (sessionId (r_session r) =? sid) && Q r) rs.
Proof.
  intros Hinj [H1 _ _ _]. apply (atMostOne_mono _ (fun r => sessionId (r_session r) =? sid)).
  - intros x _ Hx. by apply andb_true_iff in Hx as [? _].
  - apply (atMostOne_key (fun r => sessionId (r_session r)) sid). rewrite <- (map_map r_session sessionId).
    by apply NoDup_fmap.
Qed.

Lemma announce_ok session callback peerID requestID hops cost fromCluster rs seq :
  routes_ok seq rs -> fromCluster = isCluster session ->
  let '(rs', seq') := announce session callback peerID requestID hops cost fromCluster rs seq in routes_ok seq' rs'.
Proof.
  intros Hok Hc. unfold announce. destruct (fromCluster && _ && _).
  - apply (routes_ok_revise seq (fun r => r_session r =? session)
      (fun r => revised hops cost seq (set_peerID peerID r)) hops); [done| |..].
    + apply atMostOne_key, Hok.
    + intros r. by rewrite revised_session.
    + intros r. by rewrite revised_fromCluster.
    + intros r. by rewrite revised_seq.
  - set (P := fun r : Route => (r_session r =? session) || (negb fromCluster && negb (r_fromCluster r))). pose proof (routes_ok_filter seq (fun r => negb (P r)) rs Hok) as [H1 H2 H3 H4].
    constructor.
    + rewrite map_app. apply NoDup_app. split_and!; [done| |apply NoDup_singleton].
      intros x Hx ->%list_elem_of_singleton. simpl in Hx. apply list_elem_of_In, in_map_iff in Hx as (r & Hr & Hin).
      apply filter_In in Hin as [_ Hp]. unfold P in Hp. rewrite Hr, Z.eqb_refl in Hp. done.
    + rewrite map_app. apply NoDup_app. split_and!; [done| |apply NoDup_singleton].
      intros x Hx ->%list_elem_of_singleton. simpl in Hx. apply list_elem_of_In, in_map_iff in Hx as (r & Hr & Hin).
      destruct (H4 r Hin). lia.
    + unfold atMostOne in *. rewrite List.filter_app, length_app.
      change (List.filter _ rs) with (List.filter (fun r => negb (P r)) rs).
      destruct fromCluster eqn:Ef; cbn [List.filter negb r_fromCluster length]; [lia|].
      assert (length (List.filter (fun r => negb (r_fromCluster r)) (List.filter (fun r => negb (P r)) rs)) = 0%nat); [|lia].
      clear. induction rs as [|x rs IH]; [done|]. simpl. destruct (negb (P x)) eqn:Ex; [|done]. simpl.
      unfold P in Ex. simpl in Ex. rewrite negb_orb, negb_involutive in Ex.
      apply andb_true_iff in Ex as [_ Ex]. by rewrite Ex.
    + intros r [Hr|[<-|[]]]%in_app_iff; [destruct (H4 r Hr); split; [done|lia]|simpl; split; [done|lia]].
Qed.

(** The invariant of the abstract tree. *)
Definition abs_inv (a : AbsTree) : Prop := forall p, routes_ok (a_seq a) (a_content a p).1.1.
Definition op_ok (op : NsOp) : Prop :=
  match op with OpSetPublisher _ session _ _ _ _ _ fromCluster => fromCluster = isCluster session | _ => True end.

Lemma abs_content_ok op c seq : Inj (=) (=) sessionId -> op_ok op -> routes_ok seq c.1.1 ->
  let '(c', seq') := abs_content sessionId op c seq in routes_ok seq' c'.1.1 /\ seq <= seq'.
Proof.
  intros Hinj Hop Hok. destruct c as [[rs ps] ss]. simpl in Hok. unfold abs_content. destruct op; simpl in *; try (split; [done|lia]).
  - pose proof (announce_ok session callback peerID requestID relayHopPath cost fromCluster rs seq Hok Hop) as H.
    unfold announce in *. destruct (fromCluster && _ && _); simpl; (split; [done|]); [destruct (existsb _ rs)|]; lia.
  - split; [|destruct (existsb _ rs); lia].
    apply routes_ok_revise; [done|by eapply named_one|apply revised_session|apply revised_fromCluster|apply revised_seq].
  - split; [by apply routes_ok_filter|lia].
Qed.

Lemma abs_inv_step op a : Inj (=) (=) sessionId -> op_ok op -> abs_inv a -> abs_inv (absStep sessionId op a).
Proof.
  intros Hinj Hop Ha p. unfold absStep.
  pose proof (abs_content_ok op (a_content a (rev (op_ns op))) (a_seq a) Hinj Hop (Ha _)) as H.
  destruct (abs_content _ _ _ _) as [c seq]. destruct H as [H1 H2]. simpl.
  destruct (decide _); [done|]. by eapply routes_ok_mono.
Qed.
End routes.
