(* ===== verification/NamespaceTheorems.v ===== *)
(** The guarantees of the namespace tree: the refinement of the abstract tree by
    every operation, and what the lookups return. *)

From S2P Require Import Prelude NamespaceTree NamespaceInv NamespaceSpec NamespaceRoutes.

Section refinement.
Context (sessionId : Session -> Z) (isCluster : Session -> bool).
Context (sessionId_inj : Inj (=) (=) sessionId).

(** The tree holds what the abstract tree holds. *)
Definition refines (t : NamespaceTree) (a : AbsTree) : Prop :=
  (forall q, view t q = a_content a q) /\ nextRouteSeq_ t = a_seq a.

(** The result of an operation on namespace [p] whose content becomes [c]. *)
Definition stepped (p : path) (c : NsContent) (seq : Z) (t t' : NamespaceTree) : Prop :=
  tree_inv t' /\ nextRouteSeq_ t' = seq /\ forall q, view t' q = if decide (q = p) then c else view t q.

Lemma stepped_refl p t : tree_inv t -> stepped p (view t p) (nextRouteSeq_ t) t t.
Proof. intros H. split_and!; [done|done|]. intros q. by destruct (decide (q = p)) as [->|]. Qed.

Lemma view_node t p n : nodes t !! p = Some n -> view t p = content n.
Proof. intros H. unfold view. by rewrite H. Qed.
Lemma view_none t p : nodes t !! p = None -> view t p = ([], ∅, ∅).
Proof. intros H. unfold view. by rewrite H. Qed.

Lemma stepped_from p c seq t t1 t' : stepped p c seq t1 t' -> (forall q, view t1 q = view t q) -> stepped p c seq t t'.
Proof. intros (H1 & H2 & H3) Hv. split_and!; [done|done|]. intros q. by rewrite H3, Hv. Qed.

Lemma guarded_stepped p f t n c : tree_inv t -> nodes t !! p = Some n ->
  activeChildCount_ (f n) = activeChildCount_ n -> rankings_ (f n) = rankings_ n -> content (f n) = c ->
  exists t', guarded p f t = Some t' /\ stepped p c (nextRouteSeq_ t) t t'.
Proof.
  intros Hi Hn Ha Hr <-. destruct (guarded_step p f t n Hi Hn Ha Hr) as (t' & H1 & H2 & H3 & H4).
  exists t'. by split.
Qed.

(** Revising a route in place. *)
Lemma put_routes_stepped p n rs seq t : tree_inv t -> nodes t !! p = Some n -> routes_ n <> [] -> rs <> [] ->
  stepped p (rs, publishes_ n, subscribers_ n) seq t (mkTree (<[p:=set_routes rs n]> (nodes t)) seq).
Proof.
  intros Hi Hn Hne Hne'. destruct (put_step p n (set_routes rs n) seq t Hi Hn) as [H1 H2].
  - done.
  - unfold hasContent. simpl. rewrite !(bool_decide_false (_ = [])) by done. by rewrite !orb_true_r.
  - intros ty. by apply (proj2 Hi p n).
  - split_and!; [done|done|exact H2].
Qed.

Lemma existsb_unique {A} (P Q : A -> bool) l i x : atMostOne P l -> list_find (fun x => P x = true) l = Some (i, x) ->
  existsb (fun x => P x && Q x) l = Q x.
Proof.
  intros Hone Hf. destruct (Q x) eqn:E.
  - apply existsb_exists. exists x. apply list_find_Some in Hf as (Hi & Hp & _). split; [|by rewrite Hp, E].
    apply list_elem_of_In. by eapply list_elem_of_lookup_2.
  - apply not_true_iff_false. intros (y & Hy & Hpq)%existsb_exists. apply andb_true_iff in Hpq as [Hp Hq].
    assert (y = x) as ->; [|congruence]. clear E.
    revert i Hf Hone. unfold atMostOne. induction l as [|z l IH]; intros i Hf Hone; [done|]. simpl in *.
    assert (Hno : forall w, In w l -> P w = true -> length (List.filter P l) <> 0%nat).
    { intros w Hw Hpw E. apply length_zero_iff_nil in E. assert (Hin : In w (List.filter P l)) by (by apply filter_In).
      by rewrite E in Hin. }
    destruct (decide (P z = true)) as [Hz|Hz].
    + injection Hf as <- <-. rewrite Hz in Hone. simpl in Hone. destruct Hy as [->|Hy]; [done|].
      specialize (Hno y Hy Hp). lia.
    + apply not_true_iff_false in Hz. rewrite Hz in Hone. destruct Hy as [->|Hy]; [congruence|].
      destruct (list_find _ l) as [[j w]|] eqn:E; simpl in Hf; [|done]. injection Hf as <- ->. by eapply IH.
Qed.

Lemma existsb_ext {A} (P Q : A -> bool) l : (forall x, P x = Q x) -> existsb P l = existsb Q l.
Proof. intros H. induction l as [|x l IH]; simpl; [done|]. by rewrite H, IH. Qed.

(** A route found and revised. *)
Lemma revise_found (P : Route -> bool) g hops rs i e seq :
  atMostOne P rs -> list_find (fun r => P r = true) rs = Some (i, e) ->
  <[i:=g e]> rs = map (fun r => if P r then g r else r) rs /\ rs <> [] /\ <[i:=g e]> rs <> [] /\
  (if existsb (fun r => P r && negb (sameOrigin (r_path r) hops)) rs then seq + 1 else seq) =
  (if negb (sameOrigin (r_path e) hops) then seq + 1 else seq).
Proof.
  intros Hone Hf. destruct (list_find_unique P g rs i e Hone Hf) as [_ H].
  assert (rs <> []) by (intros ->; done). split_and!; [done|done|by destruct rs, i|].
  by rewrite (existsb_unique P (fun r => negb (sameOrigin (r_path r) hops)) rs i e Hone Hf).
Qed.

Lemma reviseRoute_eq r hops cost seq : reviseRoute r hops cost seq =
  (revised hops cost seq r, if negb (sameOrigin (r_path r) hops) then seq + 1 else seq,
   if negb (sameOrigin (r_path r) hops) then Some (r_session r) else None).
Proof. unfold revised, reviseRoute. by destruct (negb _). Qed.

Lemma setPublisher_step ns session callback peerID requestID hops cost fromCluster t c seq' :
  tree_inv t -> routes_ok isCluster (nextRouteSeq_ t) (view t (rev ns)).1.1 -> fromCluster = isCluster session ->
  abs_content sessionId (OpSetPublisher ns session callback peerID requestID hops cost fromCluster)
    (view t (rev ns)) (nextRouteSeq_ t) = (c, seq') ->
  exists r t', setPublisher ns session callback peerID requestID hops cost fromCluster t = Some (r, t') /\
    stepped (rev ns) c seq' t t'.
Proof.
  intros Hinv Hro Hcl. unfold setPublisher.
  destruct (findNode_create ns t Hinv) as (subs & t1 & n & -> & Hinv1 & Hn & Hseq & Hv). simpl. rewrite Hn. simpl.
  rewrite <- Hv, (view_node _ _ _ Hn) in Hro |- *. rewrite <- Hseq in Hro |- *. simpl in Hro.
  unfold content. intros Habs. unfold abs_content, announce in Habs. cbv beta iota zeta in Habs.
  pose proof (clash_one isCluster _ _ session fromCluster Hro Hcl) as Hone.
  set (P := fun r : Route => (r_session r =? session) || (negb fromCluster && negb (r_fromCluster r))) in *.
  set (new := mkRoute session callback peerID requestID hops cost (nextRouteSeq_ t1 + 1) fromCluster).
  change (list_find _ (routes_ n)) with (list_find (fun r => P r = true) (routes_ n)).
  set (mine := fun r : Route => r_session r =? session).
  assert (Hrep : forall rest, rest = List.filter (fun r => negb (P r)) (routes_ n) ->
    exists t', guarded (rev ns) (fun n => set_trackNamespace ns (set_routes (rest ++ [new]) n))
      (mkTree (nodes t1) (nextRouteSeq_ t1 + 1)) = Some t' /\
      stepped (rev ns) (List.filter (fun r => negb (P r)) (routes_ n) ++ [new], publishes_ n, subscribers_ n)
        (nextRouteSeq_ t1 + 1) t t').
  { intros rest ->.
    destruct (guarded_stepped (rev ns) (fun m => set_trackNamespace ns (set_routes
      (List.filter (fun r => negb (P r)) (routes_ n) ++ [new]) m)) (mkTree (nodes t1) (nextRouteSeq_ t1 + 1)) n
      _ Hinv1 Hn eq_refl eq_refl eq_refl) as (t' & H1 & H2).
    exists t'. split; [done|]. by eapply stepped_from. }
  destruct (list_find (fun r => P r = true) (routes_ n)) as [[i e]|] eqn:Hf.
  - destruct (list_find_unique P id (routes_ n) i e Hone Hf) as [Hdel _].
    apply list_find_Some in Hf as Hf'. destruct Hf' as (Hi & Hpe & _).
    assert (Hin : In e (routes_ n)) by (apply list_elem_of_In; by eapply list_elem_of_lookup_2).
    destruct ((r_session e =? session) && fromCluster && bool_decide (r_callback e = None) && bool_decide (callback = None)) eqn:Eb.
    + apply andb_true_iff in Eb as [[[Es Ef]%andb_true_iff Ec]%andb_true_iff Ed].
      assert (Hpm : forall r, P r = mine r) by (intros r; unfold P, mine; rewrite Ef; by rewrite orb_false_r).
      rewrite Ef, Ed, (proj2 (existsb_exists _ (routes_ n))) in Habs by (exists e; split; [done|]; by rewrite Es, Ec).
      cbv beta iota delta [andb] in Habs. injection Habs as <- <-.
      destruct (revise_found P (fun r => revised hops cost (nextRouteSeq_ t1) (set_peerID peerID r)) hops
        (routes_ n) i e (nextRouteSeq_ t1) Hone Hf) as (H1 & H2 & H3 & H4).
      pose proof (put_routes_stepped (rev ns) n _ (if negb (sameOrigin (r_path e) hops) then nextRouteSeq_ t1 + 1
        else nextRouteSeq_ t1) t1 Hinv1 Hn H2 H3) as Hst.
      rewrite reviseRoute_eq. eexists _, _. split; [done|]. eapply stepped_from; [|exact Hv].
      rewrite (map_ext _ (fun r => if P r then revised hops cost (nextRouteSeq_ t1) (set_peerID peerID r) else r))
        by (intros r; by rewrite Hpm). rewrite <- H1.
      rewrite (existsb_ext _ (fun r => P r && negb (sameOrigin (r_path r) hops))) by (intros r; by rewrite Hpm).
      rewrite H4. exact Hst.
    + destruct (Hrep _ Hdel) as (t' & H1 & H2). cbv zeta. rewrite H1. simpl. eexists _, _. split; [done|].
      assert (Hcond : fromCluster && bool_decide (callback = None) &&
        existsb (fun r => (r_session r =? session) && bool_decide (r_callback r = None)) (routes_ n) = false).
      { apply not_true_iff_false. intros [[Hf1 Hf2]%andb_true_iff Hex]%andb_true_iff.
        assert (Hpm : forall r, P r = (r_session r =? session)) by (intros r; unfold P; rewrite Hf1; by rewrite orb_false_r).
        rewrite <- (existsb_ext (fun r => P r && bool_decide (r_callback r = None))) in Hex by (intros r; by rewrite Hpm).
        rewrite (existsb_unique P (fun r => bool_decide (r_callback r = None)) _ i e Hone Hf) in Hex.
        rewrite Hpm in Hpe. by rewrite Hpe, Hf1, Hex, Hf2 in Eb. }
      rewrite Hcond in Habs. by injection Habs as <- <-.
  - pose proof (list_find_none P (routes_ n) Hf) as Hnone.
    destruct (Hrep (routes_ n)) as (t' & H1 & H2); [by rewrite filter_none|].
    cbv zeta. rewrite H1. simpl. eexists _, _. split; [done|].
    assert (Hcond : fromCluster && bool_decide (callback = None) &&
      existsb (fun r => (r_session r =? session) && bool_decide (r_callback r = None)) (routes_ n) = false).
    { apply andb_false_iff. right. apply not_true_iff_false. intros (r & Hr & [Hs _]%andb_true_iff)%existsb_exists.
      assert (Hin : In r (List.filter P (routes_ n))) by (apply filter_In; split; [done|]; unfold P; by rewrite Hs).
      apply length_zero_iff_nil in Hnone. by rewrite Hnone in Hin. }
    rewrite Hcond in Habs. by injection Habs as <- <-.
Qed.

Lemma updateRoute_step ns sid requestID hops cost t c seq' :
  tree_inv t -> routes_ok isCluster (nextRouteSeq_ t) (view t (rev ns)).1.1 ->
  abs_content sessionId (OpUpdateRoute ns sid requestID hops cost) (view t (rev ns)) (nextRouteSeq_ t) = (c, seq') ->
  exists r, updateRoute sessionId ns sid requestID hops cost t = Some r /\ stepped (rev ns) c seq' t (refusedOr t snd r).
Proof.
  intros Hinv Hro Habs. unfold updateRoute. destruct (findNode_find ns t (proj1 Hinv)) as [subs ->].
  destruct (nodes t !! rev ns) as [n|] eqn:Hn.
  - rewrite (view_node _ _ _ Hn) in Hro, Habs. unfold content, abs_content in Habs. cbv beta iota zeta in Habs. simpl in Hro.
    simpl. rewrite Hn. simpl. pose proof (named_one sessionId isCluster _ _ sid (fun r => r_requestID r =? requestID)
      sessionId_inj Hro) as Hone.
    set (P := fun r : Route => (sessionId (r_session r) =? sid) && (r_requestID r =? requestID)) in *.
    change (list_find _ (routes_ n)) with (list_find (fun r => P r = true) (routes_ n)).
    destruct (list_find (fun r => P r = true) (routes_ n)) as [[i e]|] eqn:Hf.
    + destruct (revise_found P (revised hops cost (nextRouteSeq_ t)) hops _ i e (nextRouteSeq_ t) Hone Hf) as (H1 & H2 & H3 & H4).
      rewrite reviseRoute_eq. eexists. split; [done|]. simpl. injection Habs as <- <-.
      pose proof (put_routes_stepped (rev ns) n _ (if negb (sameOrigin (r_path e) hops) then nextRouteSeq_ t + 1
        else nextRouteSeq_ t) t Hinv Hn H2 H3) as Hst.
      rewrite <- H4, H1 in Hst |- *. exact Hst.
    + pose proof (list_find_none P _ Hf) as Hnone. eexists. split; [done|]. simpl. injection Habs as <- <-.
      rewrite map_none by done. replace (existsb _ _) with false.
      * rewrite <- (view_node _ _ _ Hn : _ = (routes_ n, publishes_ n, subscribers_ n)). by apply stepped_refl.
      * symmetry. apply not_true_iff_false. intros (r & Hr & [Hp _]%andb_true_iff)%existsb_exists.
        assert (Hin : In r (List.filter P (routes_ n))) by (by apply filter_In).
        apply length_zero_iff_nil in Hnone. by rewrite Hnone in Hin.
  - rewrite (view_none _ _ Hn) in Habs. eexists. split; [done|]. simpl. injection Habs as <- <-.
    rewrite <- (view_none _ _ Hn). by apply stepped_refl.
Qed.

Lemma unpublishNamespace_step ns sid requestID t :
  tree_inv t -> routes_ok isCluster (nextRouteSeq_ t) (view t (rev ns)).1.1 ->
  let c := abs_content sessionId (OpUnpublishNamespace ns sid requestID) (view t (rev ns)) (nextRouteSeq_ t) in
  exists r, unpublishNamespace sessionId ns sid requestID t = Some r /\ stepped (rev ns) c.1 c.2 t (refusedOr t snd r).
Proof.
  intros Hinv Hro. unfold unpublishNamespace. destruct (findNode_find ns t (proj1 Hinv)) as [subs ->].
  destruct (nodes t !! rev ns) as [n|] eqn:Hn.
  - rewrite (view_node _ _ _ Hn) in Hro |- *. simpl in *. rewrite Hn. simpl.
    pose proof (named_one sessionId isCluster _ _ sid
      (fun r => match requestID with None => true | Some q => r_requestID r =? q end) sessionId_inj Hro) as Hone.
    set (P := fun r : Route => (sessionId (r_session r) =? sid) && _) in *.
    change (list_find _ (routes_ n)) with (list_find (fun r => P r = true) (routes_ n)).
    destruct (list_find (fun r => P r = true) (routes_ n)) as [[i e]|] eqn:Hf.
    + destruct (list_find_unique P id _ i e Hone Hf) as [Hdel _].
      destruct (guarded_stepped (rev ns) (fun m => set_routes (delete i (routes_ m)) m) t n
        (List.filter (fun r => negb (P r)) (routes_ n), publishes_ n, subscribers_ n)) as (t' & H1 & H2); [done..| |].
      { unfold content. simpl. by rewrite Hdel. }
      rewrite H1. simpl. eexists. by split.
    + eexists. split; [done|]. simpl. rewrite filter_none by (by apply list_find_none).
      rewrite <- (view_node _ _ _ Hn : _ = (routes_ n, publishes_ n, subscribers_ n)). by apply stepped_refl.
  - rewrite (view_none _ _ Hn). eexists. split; [done|]. simpl. rewrite <- (view_none _ _ Hn). by apply stepped_refl.
Qed.

Lemma addPublish_step ns trackName session t : tree_inv t ->
  let '(rs, ps, ss) := view t (rev ns) in
  exists r t', addPublish ns trackName session t = Some (r, t') /\
    stepped (rev ns) (rs, <[trackName:=session]> ps, ss) (nextRouteSeq_ t) t t'.
Proof.
  intros Hinv. unfold addPublish.
  destruct (findNode_create ns t Hinv) as (subs & t1 & n & -> & Hinv1 & Hn & Hseq & Hv). simpl. rewrite Hn. simpl.
  rewrite <- Hv, (view_node _ _ _ Hn). simpl.
  destruct (guarded_stepped (rev ns) (fun m => set_publishes (<[trackName:=session]> (publishes_ m)) m) t1 n
    _ Hinv1 Hn eq_refl eq_refl eq_refl) as (t' & H1 & H2).
  rewrite H1. simpl. eexists _, _. split; [done|]. rewrite <- Hseq. by eapply stepped_from.
Qed.

Lemma unpublishTrack_step ns trackName t : tree_inv t ->
  let '(rs, ps, ss) := view t (rev ns) in
  exists r, unpublishTrack ns trackName t = Some r /\
    stepped (rev ns) (rs, delete trackName ps, ss) (nextRouteSeq_ t) t (refusedOr t id r).
Proof.
  intros Hinv. unfold unpublishTrack. destruct (findNode_find ns t (proj1 Hinv)) as [subs ->].
  destruct (nodes t !! rev ns) as [n|] eqn:Hn.
  - rewrite (view_node _ _ _ Hn). simpl.
    destruct (guarded_stepped (rev ns) (fun m => set_publishes (delete trackName (publishes_ m)) m) t n
      _ Hinv Hn eq_refl eq_refl eq_refl) as (t' & H1 & H2).
    rewrite H1. simpl. eexists. by split.
  - rewrite (view_none _ _ Hn). eexists. split; [done|]. simpl. rewrite delete_empty, <- (view_none _ _ Hn).
    by apply stepped_refl.
Qed.

Lemma addNamespaceSubscriber_step ns session info t : tree_inv t ->
  let '(rs, ps, ss) := view t (rev ns) in
  exists r t', addNamespaceSubscriber ns session info t = Some (r, t') /\
    stepped (rev ns) (rs, ps, match ss !! session with Some _ => ss | None => <[session:=info]> ss end)
      (nextRouteSeq_ t) t t'.
Proof.
  intros Hinv. unfold addNamespaceSubscriber.
  destruct (findNode_create ns t Hinv) as (subs & t1 & n & -> & Hinv1 & Hn & Hseq & Hv). simpl.
  rewrite <- Hv, (view_node _ _ _ Hn). simpl.
  destruct (guarded_stepped (rev ns) (fun m => match subscribers_ m !! session with
    | Some _ => m | None => set_subscribers (<[session:=info]> (subscribers_ m)) m end) t1 n
    (routes_ n, publishes_ n, match subscribers_ n !! session with
      | Some _ => subscribers_ n | None => <[session:=info]> (subscribers_ n) end) Hinv1 Hn) as (t' & H1 & H2);
    [by destruct (subscribers_ n !! session)..|].
  rewrite H1. simpl. eexists _, _. split; [done|]. rewrite <- Hseq. by eapply stepped_from.
Qed.

Lemma removeNamespaceSubscriber_step ns session t : tree_inv t ->
  let '(rs, ps, ss) := view t (rev ns) in
  exists r, removeNamespaceSubscriber sessionId ns session t = Some r /\
    stepped (rev ns) (rs, ps, delete session ss) (nextRouteSeq_ t) t (refusedOr t snd r).
Proof.
  intros Hinv. unfold removeNamespaceSubscriber. destruct (findNode_find ns t (proj1 Hinv)) as [subs ->].
  destruct (nodes t !! rev ns) as [n|] eqn:Hn.
  2:{ rewrite (view_none _ _ Hn). eexists. split; [done|]. simpl. rewrite delete_empty, <- (view_none _ _ Hn).
      by apply stepped_refl. }
  rewrite (view_node _ _ _ Hn). simpl. rewrite Hn. simpl.
  destruct (subscribers_ n !! session) as [info|] eqn:Es.
  - destruct (eraseAdvertisements_step (rev ns) (sessionId session, Z.of_nat (length ns)) t Hinv) as (H1 & H2 & H3 & H4).
    destruct (H4 _ _ Hn) as (n1 & Hn1 & Hc1).
    set (t1 := eraseAdvertisements _ _ t) in *. clearbody t1.
    destruct (guarded_stepped (rev ns) (fun m => set_subscribers (delete session (subscribers_ m)) m) t1 n1
      _ H1 Hn1 eq_refl eq_refl eq_refl) as (t' & H5 & H6).
    assert (Hst : stepped (rev ns) (routes_ n, publishes_ n, delete session (subscribers_ n)) (nextRouteSeq_ t) t t').
    { rewrite <- H3. eapply stepped_from; [|exact H2]. unfold content in H6, Hc1. simpl in H6.
      injection Hc1 as E1 E2 E3. by rewrite E1, E2, E3 in H6. }
    assert (Htop : exists topN, match si_trackFilter info with
      | Some f => match rankings_ n !! tf_propertyType f with
                  | Some slot => r ← slot; Some (Some (r, tf_maxSelected f)) | None => Some None end
      | None => Some None end = Some topN).
    { destruct (si_trackFilter info) as [f|]; [|eauto].
      destruct (rankings_ n !! tf_propertyType f) as [[r|]|] eqn:Er; [simpl; eauto| |eauto].
      destruct (proj2 Hinv _ _ _ Hn Er). }
    destruct Htop as [topN ->]. simpl. rewrite H5. simpl. eexists. by split.
  - eexists. split; [done|]. simpl. rewrite delete_id by done.
    rewrite <- (view_node _ _ _ Hn : _ = (routes_ n, publishes_ n, subscribers_ n)). by apply stepped_refl.
Qed.

Lemma ranking_step ns propertyType fresh t : tree_inv t ->
  exists t', execNs sessionId (OpRanking ns propertyType fresh) t = Some t' /\
    stepped (rev ns) (view t (rev ns)) (nextRouteSeq_ t) t t'.
Proof.
  intros Hinv. unfold execNs. destruct (findNode_find ns t (proj1 Hinv)) as [subs ->].
  destruct (nodes t !! rev ns) as [n|] eqn:Hn; [|eexists; split; [done|by apply stepped_refl]].
  unfold getOrCreateRanking, getOrInsertRanking. rewrite Hn. simpl.
  destruct (rankings_ n !! propertyType) as [[r|]|] eqn:Er; simpl.
  - eexists. split; [done|by apply stepped_refl].
  - destruct (proj2 Hinv _ _ _ Hn Er).
  - rewrite lookup_insert_eq. simpl. rewrite insert_insert_eq. eexists. split; [done|].
    unfold putNode. simpl. rewrite insert_insert_eq, (view_node _ _ _ Hn).
    destruct (put_step (rev ns) n (set_rankings (<[propertyType:=Some fresh]> (rankings_ n)) n) (nextRouteSeq_ t) t Hinv Hn)
      as [H1 H2]; [done|done| |by split].
    intros ty. simpl. rewrite lookup_insert_Some. intros [[_ ?]|[_ ?]]; [done|by eapply (proj2 Hinv)].
Qed.

(** Every operation refines its update of the abstract tree. *)
Lemma execNs_refines op t a : tree_inv t -> refines t a -> abs_inv isCluster a -> op_ok isCluster op ->
  exists t', execNs sessionId op t = Some t' /\ tree_inv t' /\ refines t' (absStep sessionId op a).
Proof.
  intros Hinv [Hv Hs] Ha Hop.
  assert (Hro : routes_ok isCluster (nextRouteSeq_ t) (view t (rev (op_ns op))).1.1) by (rewrite Hv, Hs; apply Ha).
  assert (Hfin : forall t', stepped (rev (op_ns op)) (abs_content sessionId op (view t (rev (op_ns op))) (nextRouteSeq_ t)).1
    (abs_content sessionId op (view t (rev (op_ns op))) (nextRouteSeq_ t)).2 t t' ->
    tree_inv t' /\ refines t' (absStep sessionId op a)).
  { intros t' (H1 & H2 & H3). split; [done|]. unfold absStep. rewrite <- Hv, <- Hs. clear Hro.
    destruct (abs_content _ _ _ _) as [c seq]. split; simpl in *; [|done].
    intros q. rewrite H3. by destruct (decide _). }
  destruct (abs_content sessionId op (view t (rev (op_ns op))) (nextRouteSeq_ t)) as [c seq] eqn:Habs.
  cbn [fst snd] in Hfin.
  destruct op; simpl op_ns in *; unfold execNs.
  - destruct (setPublisher_step _ _ _ _ _ _ _ _ _ _ _ Hinv Hro Hop Habs) as (r & t' & H1 & H2).
    rewrite H1. exists t'. split; [done|]. by apply Hfin.
  - destruct (updateRoute_step _ _ _ _ _ _ _ _ Hinv Hro Habs) as (r & H1 & H2).
    rewrite H1. eexists. split; [done|]. by apply Hfin.
  - pose proof (unpublishNamespace_step ns sid requestID t Hinv Hro) as (r & H1 & H2).
    rewrite Habs in H2. rewrite H1. eexists. split; [done|]. by apply Hfin.
  - pose proof (addPublish_step ns trackName session t Hinv) as H. unfold abs_content in Habs.
    destruct (view t (rev ns)) as [[rs ps] ss]. destruct H as (r & t' & H1 & H2). injection Habs as <- <-.
    rewrite H1. eexists. split; [done|]. by apply Hfin.
  - pose proof (unpublishTrack_step ns trackName t Hinv) as H. unfold abs_content in Habs.
    destruct (view t (rev ns)) as [[rs ps] ss]. destruct H as (r & H1 & H2). injection Habs as <- <-.
    rewrite H1. eexists. split; [done|]. by apply Hfin.
  - pose proof (addNamespaceSubscriber_step ns session info t Hinv) as H. unfold abs_content in Habs.
    destruct (view t (rev ns)) as [[rs ps] ss]. destruct H as (r & t' & H1 & H2). injection Habs as <- <-.
    rewrite H1. eexists. split; [done|]. by apply Hfin.
  - pose proof (removeNamespaceSubscriber_step ns session t Hinv) as H. unfold abs_content in Habs.
    destruct (view t (rev ns)) as [[rs ps] ss]. destruct H as (r & H1 & H2). injection Habs as <- <-.
    rewrite H1. eexists. split; [done|]. by apply Hfin.
  - destruct (ranking_step ns propertyType fresh t Hinv) as (t' & H1 & H2). exists t'. split; [exact H1|].
    apply Hfin. unfold abs_content in Habs. destruct (view t (rev ns)) as [[rs ps] ss]. by injection Habs as <- <-.
Qed.
End refinement.

Definition emptyAbs : AbsTree := mkAbs (fun _ => ([], ∅, ∅)) 0.

Lemma newTree_ok : tree_inv newTree.
Proof.
  split; [constructor|].
  - unfold newTree. simpl. rewrite lookup_insert_eq. eauto.
  - intros k p. unfold newTree. simpl. rewrite lookup_insert_ne, lookup_empty by done. by intros [? ?].
  - intros p n. unfold newTree. simpl. intros [[<- <-]|[_ Hn]]%lookup_insert_Some; [|by rewrite lookup_empty in Hn].
    by vm_compute.
  - intros p n ty. unfold newTree. simpl. intros [[<- <-]|[_ Hn]]%lookup_insert_Some; [|by rewrite lookup_empty in Hn].
    simpl. by rewrite lookup_empty.
Qed.
Lemma newTree_refines : refines newTree emptyAbs.
Proof.
  split; [|done]. intros q. unfold view, newTree. simpl.
  destruct (decide ([] = q)) as [<-|Hne]; [by rewrite lookup_insert_eq|by rewrite lookup_insert_ne, lookup_empty].
Qed.

(** (C10) Whatever sequence of announcements, updates, withdrawals, track
    publications, subscriptions and rankings the relay drives the namespace tree
    through: no check on the child counts and no dereference fails, and at the end every
    namespace holds exactly the routes, tracks and subscribers of the abstract
    tree, in which each operation updates the one namespace it names.  Pruning
    is therefore invisible.  Every namespace has at most one route per session,
    at most one from outside the cluster, and no two routes of one generation. *)
Theorem runNs_refines (sessionId : Session -> Z) (isCluster : Session -> bool) (ops : list NsOp) :
  Inj (=) (=) sessionId -> Forall (op_ok isCluster) ops ->
  exists t, runNs sessionId ops newTree = Some t /\
    refines t (foldl (fun a op => absStep sessionId op a) emptyAbs ops) /\
    forall p, routes_ok isCluster (nextRouteSeq_ t) (view t p).1.1.
Proof.
  intros Hinj Hops.
  assert (H : forall t a, tree_inv t -> refines t a -> abs_inv isCluster a ->
    exists t', runNs sessionId ops t = Some t' /\ refines t' (foldl (fun a op => absStep sessionId op a) a ops) /\
      abs_inv isCluster (foldl (fun a op => absStep sessionId op a) a ops)).
  { induction Hops as [|op ops Hop Hops IH]; intros t a Ht Hr Ha; simpl; [eauto|].
    destruct (execNs_refines sessionId isCluster Hinj op t a Ht Hr Ha Hop) as (t' & -> & H1 & H2). simpl.
    apply IH; [done|done|]. by apply abs_inv_step. }
  destruct (H newTree emptyAbs newTree_ok newTree_refines) as (t & H1 & H2 & H3).
  - intros p. constructor; [constructor|constructor|unfold atMostOne; simpl; lia|by intros r []].
  - exists t. split_and!; [done|done|]. intros p. destruct H2 as [Hv ->]. rewrite Hv. apply H3.
Qed.
