(* ===== verification/NamespaceLookup.v ===== *)
(** What the lookups of the namespace tree return: the route chosen for a
    namespace, the ranking of routes, overlapping subscriptions. *)


From Stdlib Require Import Sorting.Sorted Sorting.Permutation.
From S2P Require Import Prelude NamespaceTree NamespaceInv NamespaceSpec NamespaceTheorems.
From S2P Require Import NamespaceRoutes.

(** ** The order on routes *)
Lemma betterRoute_trans a b c : betterRoute a b = true -> betterRoute b c = true -> betterRoute a c = true.
Proof. unfold betterRoute. destruct (hasAnon a), (hasAnon b), (hasAnon c); simpl; lia. Qed.
Lemma betterRoute_irrefl a : betterRoute a a = false.
Proof. unfold betterRoute. destruct (hasAnon a); simpl; lia. Qed.
Lemma betterRoute_total a b : r_seq a <> r_seq b -> betterRoute a b = true \/ betterRoute b a = true.
Proof. intros H. unfold betterRoute. destruct (hasAnon a), (hasAnon b); simpl; lia. Qed.

(** [r] is the choice among the eligible routes [rs]. *)
Definition best_of (eligible : Route -> bool) (rs : list Route) (r : Route) : Prop :=
  In r rs /\ eligible r = true /\ forall r', In r' rs -> eligible r' = true -> betterRoute r' r = false.

Lemma selectRoute_fold eligible rs : forall done_ best,
  match best with Some b => best_of eligible done_ b | None => forall r, In r done_ -> eligible r = false end ->
  match fold_left (fun best r => if eligible r && match best with None => true | Some b => betterRoute r b end
                                 then Some r else best) rs best with
  | Some b => best_of eligible (done_ ++ rs) b
  | None => forall r, In r (done_ ++ rs) -> eligible r = false
  end.
Proof.
  induction rs as [|r rs IH]; intros done_ best H; simpl; [by rewrite app_nil_r|].
  replace (done_ ++ r :: rs) with ((done_ ++ [r]) ++ rs) by (by rewrite <- app_assoc). apply IH. clear IH.
  destruct (eligible r) eqn:Er; simpl; destruct best as [b|].
  - destruct H as (H1 & H2 & H3). destruct (betterRoute r b) eqn:Eb; (split_and!; [apply in_app_iff; simpl; auto|done|]);
      intros r' [Hr|[<-|[]]]%in_app_iff He.
    + apply not_true_iff_false. intros Hb. pose proof (betterRoute_trans _ _ _ Hb Eb). by rewrite (H3 r' Hr He) in H.
    + apply betterRoute_irrefl.
    + by apply H3.
    + done.
  - split_and!; [apply in_app_iff; simpl; auto|done|]. intros r' [Hr|[<-|[]]]%in_app_iff He; [|apply betterRoute_irrefl].
    by rewrite (H r' Hr) in He.
  - destruct H as (H1 & H2 & H3). split_and!; [apply in_app_iff; auto|done|].
    intros r' [Hr|[<-|[]]]%in_app_iff He; [by apply H3|congruence].
  - intros r' [Hr|[<-|[]]]%in_app_iff; [by apply H|done].
Qed.

Lemma selectRoute_spec eligible n :
  match selectRoute eligible n with
  | Some r => best_of eligible (routes_ n) r
  | None => forall r, In r (routes_ n) -> eligible r = false
  end.
Proof. exact (selectRoute_fold eligible (routes_ n) [] None (fun r H => False_ind _ H)). Qed.

(** ** The node with the routes *)
Definition routesAt (t : NamespaceTree) (p : path) : list Route := (view t p).1.1.

Lemma routesAt_node t p n : nodes t !! p = Some n -> routesAt t p = routes_ n.
Proof. intros H. unfold routesAt. by rewrite (view_node _ _ _ H). Qed.

Lemma missing_below t p q : tree_ok t -> nodes t !! p = None -> p `suffix_of` q -> nodes t !! q = None.
Proof.
  intros Hok Hp [l ->]. induction l as [|z l IH]; [done|]. apply eq_None_not_Some. intros Hs.
  apply (co_closed _ _ _ Hok z (l ++ p)) in Hs. rewrite IH in Hs. by destruct Hs.
Qed.

Lemma suffix_longer {A} (p q l : list A) : p `suffix_of` l -> q `suffix_of` l -> (length p <= length q)%nat -> p `suffix_of` q.
Proof.
  intros Hp Hq Hl. destruct (suffix_weak_total p q l Hp Hq) as [H|[r ->]]; [done|].
  rewrite length_app in Hl. destruct r; [exists []; done|simpl in Hl; lia].
Qed.

(** [p] is the longest prefix of the namespace with routes. *)
Definition deepest_with_routes (t : NamespaceTree) (full p : path) : Prop :=
  p `suffix_of` full /\ routesAt t p <> [] /\
  forall q, q `suffix_of` full -> (length p < length q)%nat -> routesAt t q = [].

Lemma findRouteNode_from_spec t : tree_ok t -> forall rest at_ d,
  let full := rev rest ++ at_ in
  (findRouteNode_from at_ rest d t = d /\
     forall q, q `suffix_of` full -> (length at_ < length q)%nat -> routesAt t q = []) \/
  (exists p, findRouteNode_from at_ rest d t = Some p /\ deepest_with_routes t full p /\ (length at_ < length p)%nat).
Proof.
  intros Hok. induction rest as [|name rest IH]; intros at_ d full.
  - left. split; [done|]. intros q Hq Hl. apply suffix_length in Hq. unfold full in Hq. simpl in Hq. lia.
  - simpl. assert (Hfull : full = rev rest ++ name :: at_) by (unfold full; simpl; by rewrite <- app_assoc).
    rewrite Hfull. assert (Hsub : (name :: at_) `suffix_of` (rev rest ++ name :: at_)) by (by exists (rev rest)).
    destruct (nodes t !! (name :: at_)) as [n|] eqn:E.
    + set (d' := if negb _ then _ else d). destruct (IH (name :: at_) d') as [[H1 H2]|(p & H1 & H2 & H3)].
      * destruct (decide (routes_ n = [])) as [He|He].
        -- left. rewrite H1. unfold d'. rewrite bool_decide_true by done. split; [done|]. intros q Hq Hl.
           destruct (decide (length q = length (name :: at_))) as [Heq|Hne].
           ++ assert (q = name :: at_) as ->; [|by rewrite (routesAt_node _ _ _ E)].
              destruct (suffix_longer _ _ _ Hq Hsub) as [l Hl']; [lia|]. rewrite Hl' in Heq.
              rewrite length_app in Heq. destruct l; [done|simpl in Heq; lia].
           ++ apply H2; [done|]. simpl in *. lia.
        -- right. exists (name :: at_). rewrite H1. unfold d'. rewrite bool_decide_false by done.
           split_and!; [done| |simpl; lia]. split_and!; [done|by rewrite (routesAt_node _ _ _ E)|done].
      * right. exists p. split_and!; [done|done|simpl in *; lia].
    + left. split; [done|]. intros q Hq Hl. unfold routesAt. rewrite view_none; [done|].
      eapply missing_below; [done|exact E|]. eapply suffix_longer; [exact Hsub|done|simpl; lia].
Qed.

Lemma findRouteNode_spec ns t : tree_ok t ->
  match findRouteNode ns t with
  | Some p => deepest_with_routes t (rev ns) p
  | None => forall q, q `suffix_of` rev ns -> routesAt t q = []
  end.
Proof.
  intros Hok. unfold findRouteNode. destruct (co_root _ _ _ Hok) as [n Hn]. rewrite Hn.
  set (d := if bool_decide _ then _ else _).
  pose proof (findRouteNode_from_spec t Hok ns [] d) as H. simpl in H. rewrite app_nil_r in H.
  assert (Hlen : forall q : path, length q = 0%nat -> q = []) by (intros []; simpl; [done|lia]).
  destruct H as [[-> H]|(p & -> & H & _)]; [|done]. unfold d. case_bool_decide as He.
  - intros q Hq. destruct (decide (length q = 0%nat)) as [Hz|Hz]; [|apply H; [done|lia]].
    rewrite (Hlen q Hz). by rewrite (routesAt_node _ _ _ Hn).
  - split_and!; [apply suffix_nil|by rewrite (routesAt_node _ _ _ Hn)|done].
Qed.

(** The routes [findPublisherSession] may choose. *)
Definition admissible (sessionId : Session -> Z) (ex : RouteExclusion) (r : Route) : bool :=
  match ex_session ex with None => true | Some s => negb (sessionId (r_session r) =? s) end &&
  negb (clusterPathContains (r_path r) (ex_hop ex)).

(** The session that serves a namespace is taken from the longest prefix of
    it that has any route, and is the best of the routes there that the
    exclusion admits (no admitted route there is better); when none is admitted
    there is no session, shorter prefixes are not tried. *)
Theorem findPublisherSession_longest (sessionId : Session -> Z) (ns : list string) (ex : RouteExclusion) (t : NamespaceTree) :
  tree_ok t ->
  match findPublisherSession sessionId ns ex t with
  | Some s => exists p r, deepest_with_routes t (rev ns) p /\ r_session r = s /\
                best_of (admissible sessionId ex) (routesAt t p) r
  | None => (forall q, q `suffix_of` rev ns -> routesAt t q = []) \/
            exists p, deepest_with_routes t (rev ns) p /\ forall r, In r (routesAt t p) -> admissible sessionId ex r = false
  end.
Proof.
  intros Hok. unfold findPublisherSession. pose proof (findRouteNode_spec ns t Hok) as H.
  destruct (findRouteNode ns t) as [p|]; simpl; [|by left].
  destruct (nodes t !! p) as [n|] eqn:Hn; simpl.
  - pose proof (selectRoute_spec (admissible sessionId ex) n) as Hs.
    change (fun r => _ && _) with (admissible sessionId ex). rewrite <- (routesAt_node _ _ _ Hn) in Hs.
    destruct (selectRoute _ n) as [r|]; simpl; [by exists p, r|right; by exists p].
  - destruct H as (_ & Hne & _). destruct Hne. unfold routesAt. by rewrite view_none.
Qed.

(** ** Ranking all routes *)
Definition notWorse (a b : Route) : Prop := betterRoute b a = false.

Lemma betterRoute_neg_trans a b c : betterRoute b a = false -> betterRoute c b = false -> betterRoute c a = false.
Proof. unfold betterRoute. destruct (hasAnon a), (hasAnon b), (hasAnon c); simpl; lia. Qed.

Lemma insertRoute_perm r l : Permutation (insertRoute r l) (r :: l).
Proof.
  induction l as [|x l IH]; simpl; [done|]. destruct (betterRoute r x); [done|].
  rewrite IH. apply perm_swap.
Qed.
Lemma insertRoute_sorted r l : StronglySorted notWorse l -> StronglySorted notWorse (insertRoute r l).
Proof.
  induction 1 as [|x l Hl IH Hx]; simpl; [repeat constructor|]. destruct (betterRoute r x) eqn:E.
  - constructor; [by constructor|]. unfold notWorse in *.
    assert (Hrx : betterRoute x r = false).
    { apply not_true_iff_false. intros H. pose proof (betterRoute_trans _ _ _ E H) as Hc. by rewrite betterRoute_irrefl in Hc. }
    constructor; [done|]. eapply Forall_impl; [exact Hx|]. intros y Hy. by eapply betterRoute_neg_trans.
  - constructor; [done|]. eapply Permutation_Forall; [symmetry; apply insertRoute_perm|]. by constructor.
Qed.

(** The ranking of a namespace's routes lists each of them once, best
    first, and starts with the route chosen when nothing is excluded. *)
Theorem rankedRoutes_sorted (n : NamespaceNode) :
  Permutation (rankedRoutes n) (routes_ n) /\ StronglySorted notWorse (rankedRoutes n) /\
  (NoDup (map r_seq (routes_ n)) -> head (rankedRoutes n) = selectRoute (fun _ => true) n).
Proof.
  assert (Hp : Permutation (rankedRoutes n) (routes_ n)).
  { unfold rankedRoutes. induction (routes_ n) as [|r l IH]; simpl; [done|]. by rewrite insertRoute_perm, IH. }
  assert (Hs : StronglySorted notWorse (rankedRoutes n)).
  { unfold rankedRoutes. clear. induction (routes_ n) as [|r l IH]; simpl; [constructor|]. by apply insertRoute_sorted. }
  split_and!; [done|done|]. intros Hnd. pose proof (selectRoute_spec (fun _ => true) n) as Hsel.
  destruct (rankedRoutes n) as [|r l] eqn:E.
  - apply Permutation_nil in Hp. rewrite Hp in Hsel. destruct (selectRoute _ n) as [x|]; [by destruct Hsel as [[] _]|done].
  - assert (Hr : In r (routes_ n)) by (eapply Permutation_in; [exact Hp|by left]).
    destruct (selectRoute _ n) as [x|]; [|by specialize (Hsel r Hr)].
    destruct Hsel as (Hx & _ & Hbest). simpl. f_equal.
    destruct (decide (r_seq r = r_seq x)) as [Heq|Hne].
    + apply list_elem_of_In, list_elem_of_lookup_1 in Hr as [i Hi]. apply list_elem_of_In, list_elem_of_lookup_1 in Hx as [j Hj].
      assert (i = j) as ->; [|congruence]. eapply (NoDup_lookup (map r_seq (routes_ n))); [done|..];
        rewrite list_lookup_fmap; [by rewrite Hi|rewrite Hj; simpl; congruence].
    + destruct (betterRoute_total r x Hne) as [H|H]; [by rewrite (Hbest r Hr eq_refl) in H|].
      apply (Permutation_in (l' := r :: l)) in Hx; [|by symmetry]. destruct Hx as [->|Hx]; [done|].
      apply StronglySorted_inv in Hs as [_ Hs]. rewrite List.Forall_forall in Hs. specialize (Hs x Hx). unfold notWorse in Hs. congruence.
Qed.

(** ** Overlapping subscriptions *)
Definition subscribedAt (t : NamespaceTree) (session : Session) (p : path) : Prop := is_Some ((view t p).2 !! session).

Lemma subscribedAt_node t s p n : nodes t !! p = Some n -> subscribedAt t s p <-> is_Some (subscribers_ n !! s).
Proof. intros H. unfold subscribedAt. by rewrite (view_node _ _ _ H). Qed.
Lemma subscribedAt_none t s p : nodes t !! p = None -> ~ subscribedAt t s p.
Proof. intros H. unfold subscribedAt. rewrite (view_none _ _ H). simpl. rewrite lookup_empty. by intros [? ?]. Qed.

Lemma inSubtree_spec p s t : hasTracksSubscriptionInSubtree p s t = true <->
  exists q, p `suffix_of` q /\ subscribedAt t s q.
Proof.
  unfold hasTracksSubscriptionInSubtree. rewrite existsb_exists. split.
  - intros ([q n] & Hin & H). apply list_elem_of_In, elem_of_map_to_list in Hin. simpl in H.
    apply andb_true_iff in H as [H1%bool_decide_eq_true H2%bool_decide_eq_true].
    exists q. split; [done|]. by apply (subscribedAt_node _ _ _ _ Hin).
  - intros (q & Hq & Hs). destruct (nodes t !! q) as [n|] eqn:E; [|by destruct (subscribedAt_none _ _ _ E Hs)].
    exists (q, n). split; [by apply list_elem_of_In, elem_of_map_to_list|]. simpl.
    apply (subscribedAt_node _ _ _ _ E) in Hs. by rewrite !bool_decide_true.
Qed.

Lemma hasOverlapping_from_spec s t : tree_ok t -> forall rest at_, is_Some (nodes t !! at_) ->
  hasOverlapping_from at_ rest s t = true <->
  exists q, at_ `suffix_of` q /\ (q `suffix_of` rev rest ++ at_ \/ rev rest ++ at_ `suffix_of` q) /\ subscribedAt t s q.
Proof.
  intros Hok. induction rest as [|name rest IH]; intros at_ [n Hn]; simpl.
  - rewrite inSubtree_spec. split; intros (q & H); exists q; tauto.
  - rewrite Hn, <- app_assoc. simpl. case_bool_decide as Hs.
    + split; [|done]. intros _. exists at_. split_and!; [done| |by apply (subscribedAt_node _ _ _ _ Hn)].
      left. apply suffix_app_r, suffix_cons_r. done.
    + assert (Hstep : forall q, at_ `suffix_of` q -> subscribedAt t s q ->
        (q `suffix_of` rev rest ++ name :: at_ \/ rev rest ++ name :: at_ `suffix_of` q) -> name :: at_ `suffix_of` q).
      { intros q Hat Hq [Hl|Hl].
        - eapply suffix_longer; [by exists (rev rest)|exact Hl|]. simpl.
          destruct Hat as [[|z l] ->]; [|simpl; rewrite length_app; lia].
          destruct Hs. by apply (subscribedAt_node _ _ _ _ Hn).
        - etrans; [|exact Hl]. by exists (rev rest). }
      destruct (nodes t !! (name :: at_)) as [m|] eqn:Em.
      * rewrite IH by eauto. split; intros (q & H1 & H2 & H3); exists q; split_and!; try done; [|by apply Hstep].
        etrans; [|exact H1]. by apply suffix_cons_r.
      * split; [done|]. intros (q & H1 & H2 & H3). destruct (subscribedAt_none t s q); [|done].
        eapply missing_below; [done|exact Em|by apply Hstep].
Qed.

(** A session has an overlapping subscription exactly when it is subscribed
    to a namespace that is a prefix of the given one or extends it. *)
Theorem hasOverlappingTracksSubscription_exact (prefix : list string) (session : Session) (t : NamespaceTree) :
  tree_ok t ->
  hasOverlappingTracksSubscription prefix session t = true <->
  exists ns, (ns `prefix_of` prefix \/ prefix `prefix_of` ns) /\ subscribedAt t session (rev ns).
Proof.
  intros Hok. unfold hasOverlappingTracksSubscription.
  rewrite (hasOverlapping_from_spec session t Hok prefix [] (co_root _ _ _ Hok)), app_nil_r.
  assert (Hrev : forall a b : list string, rev a `suffix_of` rev b <-> a `prefix_of` b).
  { intros a b. rewrite !rev_alt. symmetry. exact (prefix_suffix_reverse a b). }
  split.
  - intros (q & _ & H & Hs). exists (rev q). rewrite rev_involutive. split; [|done].
    rewrite <- !Hrev, rev_involutive. tauto.
  - intros (ns & H & Hs). exists (rev ns). rewrite !Hrev. split_and!; [apply suffix_nil|tauto|done].
Qed.

(** ** Examples *)
(** Two sessions announce a namespace, one of them in the cluster; a track is
    published below, a third session subscribes. *)
Definition nsOps : list NsOp :=
  [OpSetPublisher ["live"%string] 1 (Some 10) "p" 0 [] 3 false;
   OpSetPublisher ["live"%string] 2 None "q" 0 [7] 1 true;
   OpAddPublish ["live"%string; "cam"%string] "video" 1;
   OpAddSubscriber ["live"%string] 3 (mkSubscriberInfo true PUBLISH None ["live"%string] None "")].
Definition nsCluster (s : Session) : bool := s =? 2.

Lemma nsOps_ok : Forall (op_ok nsCluster) nsOps.
Proof. repeat (constructor; [done|]). constructor. Qed.

Lemma runNs_refines_witness : exists t, runNs id nsOps newTree = Some t /\
  refines t (foldl (fun a op => absStep id op a) emptyAbs nsOps) /\
  forall p, routes_ok nsCluster (nextRouteSeq_ t) (view t p).1.1.
Proof. exact (runNs_refines id nsCluster nsOps _ nsOps_ok). Defined.

Definition nsTree : NamespaceTree := default newTree (runNs id nsOps newTree).

Lemma nsTree_ok : tree_ok nsTree.
Proof.
  unfold nsTree. assert (H : forall ops t a, Forall (op_ok nsCluster) ops -> tree_inv t -> refines t a ->
    abs_inv nsCluster a -> exists t', runNs id ops t = Some t' /\ tree_inv t').
  { induction ops as [|op ops IH]; intros t a Ho Ht Hr Ha; simpl; [eauto|]. apply Forall_cons in Ho as [H1 H2].
    destruct (execNs_refines id nsCluster _ op t a Ht Hr Ha H1) as (t' & -> & Ht' & Hr'). simpl.
    eapply IH; [done|done|exact Hr'|]. by apply abs_inv_step; [typeclasses eauto|..]. }
  destruct (H nsOps newTree emptyAbs nsOps_ok newTree_ok newTree_refines) as (t' & -> & [Hok _]); [|done].
  intros p. constructor; [constructor|constructor|unfold atMostOne; simpl; lia|by intros r []].
Qed.

(** The cluster route of session 2 is the cheaper one; with it excluded, the
    announcement of session 1 serves the namespace. *)
Lemma findPublisherSession_longest_witness :
  findPublisherSession id ["live"; "cam"]%string (mkExclusion None 9) nsTree = Some 2 /\
  findPublisherSession id ["live"; "cam"]%string (mkExclusion (Some 2) 9) nsTree = Some 1 /\
  match findPublisherSession id ["live"; "cam"]%string (mkExclusion None 7) nsTree with
  | Some s => exists p r, deepest_with_routes nsTree (rev ["live"; "cam"]%string) p /\ r_session r = s /\
                best_of (admissible id (mkExclusion None 7)) (routesAt nsTree p) r
  | None => (forall q, q `suffix_of` rev ["live"; "cam"]%string -> routesAt nsTree q = []) \/
            exists p, deepest_with_routes nsTree (rev ["live"; "cam"]%string) p /\
              forall r, In r (routesAt nsTree p) -> admissible id (mkExclusion None 7) r = false
  end.
Proof.
  split; [vm_compute; reflexivity|split; [vm_compute; reflexivity|]].
  exact (findPublisherSession_longest id ["live"; "cam"]%string (mkExclusion None 7) nsTree nsTree_ok).
Defined.

Lemma hasOverlappingTracksSubscription_exact_witness :
  hasOverlappingTracksSubscription ["live"; "cam"]%string 3 nsTree = true /\
  (hasOverlappingTracksSubscription ["live"; "cam"]%string 3 nsTree = true <->
   exists ns, (ns `prefix_of` ["live"; "cam"]%string \/ ["live"; "cam"]%string `prefix_of` ns) /\
     subscribedAt nsTree 3 (rev ns)).
Proof.
  split; [vm_compute; reflexivity|].
  exact (hasOverlappingTracksSubscription_exact ["live"; "cam"]%string 3 nsTree nsTree_ok).
Defined.

(** ** A node that is never pruned *)
Definition leakOps : list NsOp :=
  [OpAddPublish ["x"; "a"; "b"]%string "t" 1; OpAddPublish ["x"; "a"]%string "t" 1;
   OpUnpublishTrack ["x"; "a"; "b"]%string "t"; OpUnpublishTrack ["x"; "a"]%string "t"].

(** A track is published below a namespace and then on it, and both are
    unpublished: no namespace holds anything, yet the tree keeps a node for the
    common prefix.  The first content of a node that is already counted through
    a child is counted again by its parent. *)
Theorem prune_leaves_empty_node :
  exists t, runNs id leakOps newTree = Some t /\
    forallb (fun kv => negb (hasContent kv.2)) (map_to_list (nodes t)) = true /\
    (exists n, nodes t !! ["x"%string] = Some n /\ activeChildCount_ n = 1) /\
    map fst (map_to_list (nodes t)) ≡ₚ [[]; ["x"%string]].
Proof.
  destruct (runNs id leakOps newTree) as [t|] eqn:E; [|vm_compute in E; done]. exists t.
  vm_compute in E. injection E as <-. split; [done|]. split; [reflexivity|]. split.
  - eexists. split; vm_compute; reflexivity.
  - vm_compute. first [reflexivity|apply perm_swap].
Qed.
