(* ===== verification/RelayNamespaces.v ===== *)
(** The relay's handlers on the namespace tree (MoqxRelay.cpp: [doPublishNamespace],
    [updatePublishNamespace], [doPublishNamespaceDone], [reconcileAdvertisement],
    [subscribeNamespaceImpl], [unsubscribeNamespace], [subscribeTracks],
    [unsubscribeTracks], the fan-out of [publishWithSession]).

    A handler returns the calls it makes on other objects (messages to the
    subscribers' handles, tracks published to sessions, calls on the registry,
    the rankings and the parked subscriptions) as a list of actions, with the new
    state; [None] is a failed check.  Sessions, handles, forwarders are
    references.  What the code asks of moxygen's sessions, and its coding of hop
    paths, are the classes [SessionApi] and [HopCodec]. *)

From S2P Require Import Prelude Location NamespaceTree NamespaceSpec.

Definition kMaxNamespaceMatches : Z := 1000.

Definition clusterAddCost (cost link : Z) : Z :=
  let max := u64_modulus - 1 in
  if max - link <? cost then max else u64 (cost + link).

(** ** What moxygen provides *)
Class SessionApi := {
  sessionId : Session -> Z;
  negotiatedRelayHops : Session -> bool;   (** [negotiatedSetupExtension(RelayHops)] *)
  getPeerHopID : Session -> Z;
  getRelayLinkCost : Session -> Z;
  getNegotiatedVersion : Session -> option Z;
  getDraftMajorVersion : Z -> Z;
}.

Class HopCodec (E : Type) := {
  encodeRelayHopPath : list Z -> Z -> option E;
  decodeRelayHopPath : E -> Z -> option (list Z);
}.

(** ** Requests

    The parameters of a request are what [getFirstParam] finds for the two keys
    the relay reads; [sn_relayID] is [getPeerRelayID] of the request. *)
Record RouteParams (E : Type) := mkParams { HOP_PATH : option E; ROUTE_COST : option Z }.
Arguments mkParams {E} HOP_PATH ROUTE_COST.
Arguments HOP_PATH {E} _.
Arguments ROUTE_COST {E} _.

Record PublishNamespace (E : Type) := mkPublishNamespace {
  pn_requestID : Z;
  pn_trackNamespace : list string;
  pn_params : RouteParams E;
}.
Arguments mkPublishNamespace {E} pn_requestID pn_trackNamespace pn_params.
Arguments pn_requestID {E} _.
Arguments pn_trackNamespace {E} _.
Arguments pn_params {E} _.

Record SubscribeNamespace := mkSubscribeNamespace {
  sn_requestID : Z;
  sn_trackNamespacePrefix : list string;
  sn_forward : bool;
  sn_options : SubscribeNamespaceOptions;
  sn_trackFilter : option TrackFilter;
  sn_relayID : option string;
}.

Record SubscribeTracks := mkSubscribeTracks {
  st_requestID : Z;
  st_trackNamespacePrefix : list string;
  st_forward : bool;
  st_relayID : option string;
}.

(** ** Calls on other objects *)
Inductive RelayAct (E : Type) :=
| NamespaceMsg (handle : Z) (suffix : list string) (params : RouteParams E)
| NamespaceDoneMsg (handle : Z) (suffix : list string)
| PublishNamespaceCancel (callback : Callback)
| DropSubscriptionsFrom (ns : list string) (sid : Z)
| WakeUnderNamespace (ns : list string)
| WakeForTrack (f : FullTrackName)
| ReciprocateSubNs (session : Session) (peerID : string)
| AddSessionToTopN (node : path) (propertyType maxSelected : Z) (session : Session) (forward : bool)
| RemoveSessionFromTopN (ranking : RankingRef) (maxSelected : Z) (session : Session)
| RegisterTrack (ranking : RankingRef) (propertyType : Z) (f : FullTrackName) (session : Session)
| AddSubscriberAndPublish (session : Session) (forwarder : Z) (forward : bool).
Arguments NamespaceMsg {E} handle suffix params.
Arguments NamespaceDoneMsg {E} handle suffix.
Arguments PublishNamespaceCancel {E} callback.
Arguments DropSubscriptionsFrom {E} ns sid.
Arguments WakeUnderNamespace {E} ns.
Arguments WakeForTrack {E} f.
Arguments ReciprocateSubNs {E} session peerID.
Arguments AddSessionToTopN {E} node propertyType maxSelected session forward.
Arguments RemoveSessionFromTopN {E} ranking maxSelected session.
Arguments RegisterTrack {E} ranking propertyType f session.
Arguments AddSubscriberAndPublish {E} session forwarder forward.

Inductive RequestErrorCode :=
  | INTERNAL_ERROR | UNINTERESTED | NOT_SUPPORTED | PREFIX_OVERLAP | NAMESPACE_TOO_LARGE.
#[global] Instance RequestErrorCode_eq_dec : EqDecision RequestErrorCode.
Proof. solve_decision. Defined.

(** [peerSubNsHandles_] keeps the relay ID of each peer session. *)
Record RelayNs := mkRelayNs {
  namespaceTree_ : NamespaceTree;
  tracksTree_ : NamespaceTree;
  peerSubNsHandles_ : gmap Z string;
}.
Definition newRelayNs : RelayNs := mkRelayNs newTree newTree ∅.
Definition set_namespaceTree (t : NamespaceTree) (s : RelayNs) : RelayNs :=
  mkRelayNs t (tracksTree_ s) (peerSubNsHandles_ s).
Definition set_tracksTree (t : NamespaceTree) (s : RelayNs) : RelayNs :=
  mkRelayNs (namespaceTree_ s) t (peerSubNsHandles_ s).
Definition set_peers (m : gmap Z string) (s : RelayNs) : RelayNs :=
  mkRelayNs (namespaceTree_ s) (tracksTree_ s) m.

Definition makeNamespaceSuffix (src : list string) (prefixLen : nat) : list string := drop prefixLen src.

(** [node.children_] as paths. *)
Definition childrenOf (p : path) (t : NamespaceTree) : list path :=
  List.filter (fun q => match q with _ :: q' => bool_decide (q' = p) | [] => false end)
    (map_to_list (nodes t)).*1.

(** The breadth-first walk of [forEachNodeInSubtree]: the nodes in the order in
    which [fn] is called.  Each round takes a node of the tree from the queue,
    so the number of nodes is enough rounds. *)
Fixpoint bfs (fuel : nat) (queue : list path) (t : NamespaceTree) : list path :=
  match fuel, queue with
  | S fuel, p :: queue => p :: bfs fuel (queue ++ childrenOf p t) t
  | _, _ => []
  end.
Definition forEachNodeInSubtree (p : path) (t : NamespaceTree) : list path := bfs (size (nodes t)) [p] t.

Section relay.
Context `{SA : SessionApi} {E : Type} `{HC : HopCodec E}.
Context (relayID_ : string) (relayHopID_ : Z) (allowedNamespacePrefix_ : list string).

Abbreviation Act := (RelayAct E).

(** ** Cluster routes *)
Record ClusterParams := mkClusterParams { cp_path : list Z; cp_cost : option Z }.
Record IngestedRoute := mkIngested { ir_path : list Z; ir_cost : Z; ir_fromCluster : bool }.

(** The parameters as they are sent: those of the two keys are erased first. *)
Definition setOutgoingHopPath (session : Session) (incomingPath : list Z) (routeCost : Z) : option (RouteParams E) :=
  if negb (negotiatedRelayHops session) then Some (mkParams None None)
  else
    version ← getNegotiatedVersion session;
    encodedPath ← encodeRelayHopPath (incomingPath ++ [relayHopID_]) version;
    Some (mkParams (Some encodedPath) (Some routeCost)).

Definition shouldForwardNamespace (publisherSession subscriberSession : Session)
    (options : SubscribeNamespaceOptions) (incomingPath : list Z) : bool :=
  let peerHop := getPeerHopID subscriberSession in
  negb (subscriberSession =? publisherSession) &&
  (bool_decide (options = NAMESPACE) || bool_decide (options = BOTH)) &&
  negb (clusterPathContains incomingPath peerHop) &&
  ((peerHop =? kMoQClusterAnonHopId) || negb (peerHop =? relayHopID_)).

Definition exclusionFor (requester : option Session) : option RouteExclusion :=
  match requester with
  | None => None
  | Some s => if negotiatedRelayHops s then Some (mkExclusion (Some (sessionId s)) (getPeerHopID s)) else None
  end.

Definition excludesSource (exclusion : option RouteExclusion) (ns : list string) (sourceId : option Z)
    (t : NamespaceTree) : bool :=
  match exclusion, sourceId with
  | Some ex, Some sid =>
    bool_decide (ex_session ex = Some sid) ||
    hasRouteAlongPath sessionId ns sid (fun route => clusterPathContains (r_path route) (ex_hop ex)) t
  | _, _ => false
  end.

(** The inner [None] is a path that loops through this relay. *)
Definition readClusterParams (params : RouteParams E) (version linkCost : Z) : option (option ClusterParams) :=
  let cost := (fun c => clusterAddCost c linkCost) <$> ROUTE_COST params in
  match HOP_PATH params with
  | Some hopPath =>
    decoded ← decodeRelayHopPath hopPath version;
    if clusterPathContains decoded relayHopID_ then Some None else Some (Some (mkClusterParams decoded cost))
  | None => Some (Some (mkClusterParams [] cost))
  end.

Definition ingestRoute (pubNs : PublishNamespace E) (session : Session) : option (option IngestedRoute) :=
  if negb (negotiatedRelayHops session)
  then Some (Some (mkIngested [kMoQClusterAnonHopId] (getRelayLinkCost session) false))
  else
    version ← getNegotiatedVersion session;
    params ← readClusterParams (pn_params pubNs) version (getRelayLinkCost session);
    match params with
    | None => Some None
    | Some params =>
      if bool_decide (cp_path params = []) then None
      else Some (Some (mkIngested (cp_path params) (default (getRelayLinkCost session) (cp_cost params)) true))
    end.

(** ** What a subscriber is told *)
Definition advertisableRoute (n : NamespaceNode) (subscriber : Session) (info : NamespaceSubscriberInfo)
  : option Route :=
  selectRoute (fun r =>
    (bool_decide (si_peerID info = EmptyString) || negb (bool_decide (r_peerID r = si_peerID info))) &&
    shouldForwardNamespace (r_session r) subscriber (si_options info) (r_path r)) n.

Definition samePublisher (sent : Advertisement) (route : Route) : bool :=
  (ad_routeSeq sent =? r_seq route) ||
  match ad_path sent, r_path route with
  | x :: _, y :: _ => negb (x =? kMoQClusterAnonHopId) && (x =? y)
  | _, _ => false
  end.

Definition advertisementKey (subscriber : Session) (info : NamespaceSubscriberInfo) : Z * Z :=
  (sessionId subscriber, Z.of_nat (length (si_trackNamespacePrefix info))).

(** The advertisement that is left, and its withdrawal. *)
Definition withdrawStale (h : Z) (suffix : list string) (key : Z * Z) (route : option Route) (n : NamespaceNode)
  : list Act * NamespaceNode :=
  match advertisements_ n !! key with
  | Some sent =>
    if match route with None => true | Some r => negb (samePublisher sent r) end
    then ([NamespaceDoneMsg h suffix], eraseSubscriberAdvertisement key n)
    else ([], n)
  | None => ([], n)
  end.

Definition reconcileAdvertisement (n : NamespaceNode) (subscriber : Session) (info : NamespaceSubscriberInfo)
  : option (list Act * NamespaceNode) :=
  match si_namespacePublishHandle info with
  | None => Some ([], n)
  | Some h =>
    let key := advertisementKey subscriber info in
    let route := advertisableRoute n subscriber info in
    let suffix := makeNamespaceSuffix (trackNamespace_ n) (length (si_trackNamespacePrefix info)) in
    let '(withdrawn, n) := withdrawStale h suffix key route n in
    match route with
    | None => Some (withdrawn, n)
    | Some r =>
      if match advertisements_ n !! key with
         | Some sent => negb (negotiatedRelayHops subscriber) ||
                        (bool_decide (ad_path sent = r_path r) && (ad_cost sent =? r_cost r))
         | None => false
         end
      then Some (withdrawn, n)
      else
        params ← setOutgoingHopPath subscriber (r_path r) (r_cost r);
        Some (withdrawn ++ [NamespaceMsg h suffix params],
              setSubscriberAdvertisement key (mkAdvertisement (r_seq r) (r_path r) (r_cost r)) n)
    end
  end.

(** The loop over the subscribers of a node. *)
Fixpoint reconcileAll (subs : SessionSubscriberList) (n : NamespaceNode) : option (list Act * NamespaceNode) :=
  match subs with
  | [] => Some ([], n)
  | (outSession, info) :: subs =>
    '(acts, n) ← reconcileAdvertisement n outSession info;
    '(acts', n) ← reconcileAll subs n;
    Some (acts ++ acts', n)
  end.

(** ** Announcements *)
(** The node a handler holds after it has removed a route: it is still in the
    tree, or it was pruned, when nothing was left of it. *)
Definition doPublishNamespaceDone (ns : list string) (sid : Z) (requestID : option Z) (s : RelayNs)
  : option (list Act * RelayNs) :=
  let t := namespaceTree_ s in
  result ← unpublishNamespace sessionId ns sid requestID t;
  match result with
  | Err _ => Some ([], s)
  | Ok (p, subs, _, t') =>
    match nodes t' !! p with
    | Some n =>
      '(acts, n) ← reconcileAll subs n;
      Some (acts, set_namespaceTree (putNode p n t') s)
    | None =>
      before ← nodes t !! p;
      '(acts, _) ← reconcileAll subs (set_routes [] before);
      Some (acts, set_namespaceTree t' s)
    end
  end.

(** The rest of [doPublishNamespace] and [updatePublishNamespace] once the tree
    has the route. *)
Definition routeChanged (ns : list string) (result : SetPublisherResult) (t : NamespaceTree) (s : RelayNs)
  : option (list Act * RelayNs) :=
  let dropped := match sp_replacedSession result with
                 | Some r => [DropSubscriptionsFrom ns (sessionId r)]
                 | None => []
                 end in
  n ← nodes t !! sp_node result;
  '(acts, n) ← reconcileAll (sp_subscribers result) n;
  Some (dropped ++ acts, set_namespaceTree (putNode (sp_node result) n t) s).

(** The handle that is returned names the route: namespace, session and request. *)
Definition doPublishNamespace (pubNs : PublishNamespace E) (session : Session) (callback : option Callback)
    (peerID : string) (s : RelayNs) : option (option (list string * Z * Z) * list Act * RelayNs) :=
  let ns := pn_trackNamespace pubNs in
  ingested ← ingestRoute pubNs session;
  match ingested with
  | None =>
    match callback with
    | None => '(acts, s) ← doPublishNamespaceDone ns (sessionId session) None s; Some (None, acts, s)
    | Some _ => Some (None, [], s)
    end
  | Some route =>
    if negb (bool_decide (allowedNamespacePrefix_ `prefix_of` ns)) then Some (None, [], s)
    else
      '(result, t) ← setPublisher ns session callback peerID (pn_requestID pubNs) (ir_path route)
        (ir_cost route) (ir_fromCluster route) (namespaceTree_ s);
      '(acts, s) ← routeChanged ns result t s;
      let cancelled := match sp_cancelled result with Some c => [PublishNamespaceCancel c] | None => [] end in
      Some (Some (ns, sessionId session, pn_requestID pubNs), cancelled ++ acts ++ [WakeUnderNamespace ns], s)
  end.

Definition publishNamespaceImpl (pubNs : PublishNamespace E) (session : Session) (callback : option Callback)
    (s : RelayNs) : option (result RequestErrorCode (list string * Z * Z) * list Act * RelayNs) :=
  '(handle, acts, s) ← doPublishNamespace pubNs session callback EmptyString s;
  Some (match handle with Some h => Ok h | None => Err UNINTERESTED end, acts, s).

Definition updatePublishNamespace (ns : list string) (sid requestID : Z) (update : RouteParams E) (s : RelayNs)
  : option (result RequestErrorCode unit * list Act * RelayNs) :=
  let t := namespaceTree_ s in
  let route := p ← (findNode ns false t).1.1; n ← nodes t !! p; findRoute sessionId sid n in
  match route with
  | None => Some (Err INTERNAL_ERROR, [], s)
  | Some r =>
    if negb (r_requestID r =? requestID) then Some (Err INTERNAL_ERROR, [], s)
    else
      version ← getNegotiatedVersion (r_session r);
      params ← readClusterParams update version (getRelayLinkCost (r_session r));
      match params with
      | None => '(acts, s) ← doPublishNamespaceDone ns sid (Some requestID) s; Some (Err UNINTERESTED, acts, s)
      | Some params =>
        if negb (r_fromCluster r || (bool_decide (cp_path params = []) && bool_decide (cp_cost params = None)))
        then None
        else
          let path := if bool_decide (cp_path params = []) then r_path r else cp_path params in
          let cost := default (r_cost r) (cp_cost params) in
          updated ← updateRoute sessionId ns sid requestID path cost t;
          match updated with
          | Err _ => None
          | Ok (result, t) => '(acts, s) ← routeChanged ns result t s; Some (Ok tt, acts, s)
          end
      end
  end.

(** ** Subscribing to a namespace *)
Definition isPeerSession (session : Session) (peerID : string) (s : RelayNs) : bool :=
  bool_decide (peerSubNsHandles_ s !! sessionId session = Some peerID).

(** The matches collected by the walk. *)
Record Matches := mkMatches {
  namespaceMatches : list path;
  trackMatches : list (FullTrackName * Z);
  trackCount : Z;
}.
Definition noMatches : Matches := mkMatches [] [] 0.
Definition countMatches (m : Matches) : Z :=
  Z.of_nat (length (namespaceMatches m)) + Z.of_nat (length (trackMatches m)) + trackCount m.

Section walk.
(** [enforceLimit]; whether tracks are collected or only counted; whether the
    publisher of a track is left out; [registry_.getForwarderRef]. *)
Context (enforceLimit collectTracks countTracks : bool) (leftOut : Session -> bool)
  (getForwarderRef : FullTrackName -> option Z).

Definition overLimit (m : Matches) : bool := enforceLimit && (kMaxNamespaceMatches <? countMatches m).

Definition collectPublish (ns : list string) (m : Matches) (publish : string * Session) : Matches :=
  if overLimit m then m
  else if leftOut publish.2 then m
  else if countTracks then mkMatches (namespaceMatches m) (trackMatches m) (trackCount m + 1)
  else
    let ftn := FTN ns publish.1 in
    match getForwarderRef ftn with
    | None => m
    | Some f => mkMatches (namespaceMatches m) (trackMatches m ++ [(ftn, f)]) (trackCount m)
    end.

Definition collectNode (advertisable : NamespaceNode -> bool) (t : NamespaceTree) (m : Matches) (p : path) : Matches :=
  match nodes t !! p with
  | None => m
  | Some n =>
    if overLimit m then m
    else
      let m := if advertisable n then mkMatches (namespaceMatches m ++ [p]) (trackMatches m) (trackCount m) else m in
      if negb collectTracks && negb countTracks then m
      else fold_left (collectPublish (rev p)) (map_to_list (publishes_ n)) m
  end.

Definition collectMatches (advertisable : NamespaceNode -> bool) (prefix : list string) (t : NamespaceTree) : Matches :=
  match (findNode prefix false t).1.1 with
  | None => noMatches
  | Some anchor => fold_left (collectNode advertisable t) (forEachNodeInSubtree anchor t) noMatches
  end.
End walk.

(** The act phase: the collected nodes are brought up to date. *)
Fixpoint reconcileNodes (matches : list path) (session : Session) (info : NamespaceSubscriberInfo) (t : NamespaceTree)
  : option (list Act * NamespaceTree) :=
  match matches with
  | [] => Some ([], t)
  | p :: matches =>
    n ← nodes t !! p;
    '(acts, n) ← reconcileAdvertisement n session info;
    '(acts', t) ← reconcileNodes matches session info (putNode p n t);
    Some (acts ++ acts', t)
  end.

(** The relay a request comes from, when this relay takes part in peering. *)
Definition peerOf (relayID : option string) : option string :=
  if bool_decide (relayID_ = EmptyString) then None else relayID.

Definition subscriberInfo (req : SubscribeNamespace) (handle : option Z) : NamespaceSubscriberInfo :=
  mkSubscriberInfo (sn_forward req) (sn_options req) handle (sn_trackNamespacePrefix req) (sn_trackFilter req)
    (default EmptyString (peerOf (sn_relayID req))).

(** A peer relay subscribes to everything and is exempt; so are older drafts. *)
Definition limitApplies (req : SubscribeNamespace) (version : Z) : bool :=
  bool_decide (default EmptyString (peerOf (sn_relayID req)) = EmptyString) && (18 <=? getDraftMajorVersion version).

(** What the walk collects, stopping at the limit or not. *)
Definition subscribeMatches (stopAtLimit enforceLimit : bool) (req : SubscribeNamespace) (session : Session)
    (handle : option Z) (getForwarderRef : FullTrackName -> option Z) (s : RelayNs) : Matches :=
  let incomingPeerID := default EmptyString (peerOf (sn_relayID req)) in
  let trackFilterExempt := match sn_trackFilter req with Some f => tf_maxSelected f <? kMaxNamespaceMatches | None => false end in
  let wantPublishes := bool_decide (sn_options req = BOTH) || bool_decide (sn_options req = PUBLISH) in
  let filtered := bool_decide (is_Some (sn_trackFilter req)) in
  let collectTracks := wantPublishes && negb filtered in
  let countTracks := wantPublishes && filtered && enforceLimit && negb trackFilterExempt in
  let leftOut publishSession :=
    (publishSession =? session) ||
    (negb (bool_decide (incomingPeerID = EmptyString)) && isPeerSession publishSession incomingPeerID s) in
  collectMatches stopAtLimit collectTracks countTracks leftOut getForwarderRef
    (fun n => bool_decide (is_Some (advertisableRoute n session (subscriberInfo req handle))))
    (sn_trackNamespacePrefix req) (namespaceTree_ s).

(** [peerSubNsHandles_.emplace], once the peer has accepted our own subscription. *)
Definition recordPeer (req : SubscribeNamespace) (session : Session) (reciprocated : bool) (s : RelayNs) : RelayNs :=
  match peerOf (sn_relayID req) with
  | Some peerID =>
    if reciprocated && bool_decide (peerSubNsHandles_ s !! sessionId session = None)
    then set_peers (<[sessionId session:=peerID]> (peerSubNsHandles_ s)) s else s
  | None => s
  end.

(** The handler from its last suspension on: a peer relay has been answered with
    a subscription of our own, [reciprocated] when it succeeded; nothing is
    changed before.  [fresh] is the ranking made if there is none. *)
Definition subscribeNamespaceImpl (req : SubscribeNamespace) (session : Session) (handle : option Z)
    (reciprocated : bool) (getForwarderRef : FullTrackName -> option Z) (fresh : RankingRef) (s : RelayNs)
  : option (result RequestErrorCode unit * list Act * RelayNs) :=
  let prefix := sn_trackNamespacePrefix req in
  let s := recordPeer req session reciprocated s in
  let recip := match peerOf (sn_relayID req) with Some peerID => [ReciprocateSubNs session peerID] | None => [] end in
  version ← getNegotiatedVersion session;
  let info := subscriberInfo req handle in
  let enforceLimit := limitApplies req version in
  let matches := subscribeMatches enforceLimit enforceLimit req session handle getForwarderRef s in
  if overLimit enforceLimit matches then Some (Err NAMESPACE_TOO_LARGE, recip, s)
  else
    '(nodePtr, t) ← addNamespaceSubscriber prefix session info (namespaceTree_ s);
    '(topN, t) ← match sn_trackFilter req with
                 | None => Some ([], t)
                 | Some f =>
                   t ← getOrCreateRanking nodePtr (tf_propertyType f) fresh t;
                   Some ([AddSessionToTopN nodePtr (tf_propertyType f) (tf_maxSelected f) session (sn_forward req)], t)
                 end;
    '(acts, t) ← reconcileNodes (namespaceMatches matches) session info t;
    Some (Ok tt,
          recip ++ topN ++ acts ++
            map (fun m => AddSubscriberAndPublish session m.2 (sn_forward req)) (trackMatches matches),
          set_namespaceTree t s).

Definition unsubscribeNamespace (prefix : list string) (session : Session) (s : RelayNs)
  : option (list Act * RelayNs) :=
  let s := set_peers (delete (sessionId session) (peerSubNsHandles_ s)) s in
  result ← removeNamespaceSubscriber sessionId prefix session (namespaceTree_ s);
  match result with
  | Err _ => Some ([], s)
  | Ok (topN, t) =>
    Some (match topN with Some (r, maxSelected) => [RemoveSessionFromTopN r maxSelected session] | None => [] end,
          set_namespaceTree t s)
  end.

(** ** Subscribing to tracks *)
Definition subscribeTracks (req : SubscribeTracks) (session : Session) (getForwarderRef : FullTrackName -> option Z)
    (s : RelayNs) : option (result RequestErrorCode unit * list Act * RelayNs) :=
  let prefix := st_trackNamespacePrefix req in
  version ← getNegotiatedVersion session;
  if getDraftMajorVersion version <? 18 then Some (Err NOT_SUPPORTED, [], s)
  else if hasOverlappingTracksSubscription prefix session (tracksTree_ s) then Some (Err PREFIX_OVERLAP, [], s)
  else
    let peerID := peerOf (st_relayID req) in
    let enforceLimit := bool_decide (peerID = None) in
    let leftOut publishSession :=
      (publishSession =? session) ||
      match peerID with Some peer => isPeerSession publishSession peer s | None => false end in
    let matches := collectMatches enforceLimit true false leftOut getForwarderRef (fun _ => false) prefix
      (namespaceTree_ s) in
    if overLimit enforceLimit matches then Some (Err NAMESPACE_TOO_LARGE, [], s)
    else
      '(_, t) ← addNamespaceSubscriber prefix session
        (mkSubscriberInfo (st_forward req) PUBLISH None prefix None EmptyString) (tracksTree_ s);
      Some (Ok tt,
            map (fun m => AddSubscriberAndPublish session m.2 (st_forward req)) (trackMatches matches),
            set_tracksTree t s).

Definition unsubscribeTracks (prefix : list string) (session : Session) (s : RelayNs) : option RelayNs :=
  result ← removeNamespaceSubscriber sessionId prefix session (tracksTree_ s);
  match result with
  | Err _ => Some s
  | Ok (_, t) => Some (set_tracksTree t s)
  end.

(** ** A published track

    The part of [publishWithSession] on the trees: the track is recorded, the
    rankings above it are told, and the track is published to the subscribers of
    the namespaces and of the tracks above it.  The result is [shouldForward]. *)
Definition publishToNamespaces (session : Session) (forwarder : Z) (subs : SessionSubscriberList) : list Act :=
  omap (fun '(outSession, info) =>
    if bool_decide (is_Some (si_trackFilter info)) then None
    else if negb (outSession =? session) &&
            (bool_decide (si_options info = PUBLISH) || bool_decide (si_options info = BOTH))
    then Some (AddSubscriberAndPublish outSession forwarder (si_forward info))
    else None) subs.

Definition publishToTracks (session : Session) (forwarder : Z) (subs : SessionSubscriberList) : list Act :=
  omap (fun '(outSession, info) =>
    if negb (outSession =? session) then Some (AddSubscriberAndPublish outSession forwarder (si_forward info))
    else None) subs.

Definition forwards (a : Act) : bool := match a with AddSubscriberAndPublish _ _ forward => forward | _ => false end.

Definition publishFanout (f : FullTrackName) (session : Session) (forwarder : Z) (s : RelayNs)
  : option (bool * list Act * RelayNs) :=
  '(_, subs, rankings, t) ← addPublish (trackNamespace f) (trackName f) session (namespaceTree_ s);
  let registered := map (fun kr => RegisterTrack kr.2 kr.1 f session) rankings in
  let published := publishToNamespaces session forwarder subs in
  let '(found, tracksSubs, _) := findNode (trackNamespace f) false (tracksTree_ s) in
  let tracksSubs := tracksSubs ++ match found with
                                  | Some p => match nodes (tracksTree_ s) !! p with
                                              | Some n => subscribersOf n
                                              | None => []
                                              end
                                  | None => []
                                  end in
  let tracksPublished := publishToTracks session forwarder tracksSubs in
  let hasTrackFilterSub := existsb (fun si => bool_decide (is_Some (si_trackFilter si.2))) subs in
  let shouldForward := existsb forwards (published ++ tracksPublished) || hasTrackFilterSub in
  Some (shouldForward, registered ++ published ++ tracksPublished ++ [WakeForTrack f], set_namespaceTree t s).

(** [onPublishDone], on the tree. *)
Definition trackEnded (f : FullTrackName) (s : RelayNs) : option RelayNs :=
  result ← unpublishTrack (trackNamespace f) (trackName f) (namespaceTree_ s);
  match result with Err _ => Some s | Ok t => Some (set_namespaceTree t s) end.
End relay.
