(* ===== verification/RelayTree.v ===== *)
(** What the relay needs to know of the namespace tree besides the contents of a
    namespace: the advertisements a node remembers, the subscribers above a
    node, and the walk over a subtree. *)

From S2P Require Import Prelude NamespaceTree NamespaceInv NamespaceSpec NamespaceRoutes NamespaceTheorems.
From S2P Require Import Location RelayNamespaces.

(** ** Advertisements *)
Definition advAt (t : NamespaceTree) (p : path) : gmap (Z * Z) Advertisement :=
  match nodes t !! p with Some n => advertisements_ n | None => ∅ end.
(** Every node carries the name of its place. *)
Definition named (t : NamespaceTree) : Prop := forall q n, nodes t !! q = Some n -> trackNamespace_ n = rev q.
(** The nodes of [t'] remember what they did in [t], or are new. *)
Definition kept (t t' : NamespaceTree) : Prop :=
  (named t -> named t') /\ forall q n, nodes t' !! q = Some n -> advertisements_ n = advAt t q.

Lemma advAt_node t p n : nodes t !! p = Some n -> advAt t p = advertisements_ n.
Proof. unfold advAt. by intros ->. Qed.

Lemma kept_refl t : kept t t.
Proof. split; [done|]. intros q n Hn. by rewrite (advAt_node _ _ _ Hn). Qed.

Lemma kept_from t t1 t2 : (named t -> named t1) -> (forall q, advAt t1 q = advAt t q) -> kept t1 t2 -> kept t t2.
Proof. intros Hn Ha [H1 H2]. split; [auto|]. intros q n Hq. by rewrite (H2 _ _ Hq). Qed.

Lemma kept_adv t t' p : kept t t' -> advAt t' p = advAt t p \/ nodes t' !! p = None.
Proof. intros [_ H]. destruct (nodes t' !! p) as [n|] eqn:E; [left|by right]. by rewrite (advAt_node _ _ _ E), (H _ _ E). Qed.

Lemma kept_put p n n' seq t : nodes t !! p = Some n -> advertisements_ n' = advertisements_ n ->
  trackNamespace_ n' = trackNamespace_ n -> kept t (mkTree (<[p:=n']> (nodes t)) seq).
Proof.
  intros Hn Ha Ht. split.
  - intros Hnm q m. simpl. rewrite lookup_insert_Some. intros [[<- <-]|[_ Hq]]; [rewrite Ht; by apply Hnm|by apply Hnm].
  - intros q m. simpl. rewrite lookup_insert_Some. intros [[<- <-]|[_ Hq]]; by rewrite ?(advAt_node _ _ _ Hn), ?(advAt_node _ _ _ Hq).
Qed.

(** A change under a guard that leaves the advertisements of its node. *)
Lemma kept_guarded p f t t' : tree_inv t -> guarded p f t = Some t' ->
  (forall n, activeChildCount_ (f n) = activeChildCount_ n) -> (forall n, advertisements_ (f n) = advertisements_ n) ->
  (forall n, trackNamespace_ n = rev p -> trackNamespace_ (f n) = rev p) -> kept t t'.
Proof.
  intros [Hok _] Hg Hc Ha Ht.
  destruct (nodes t !! p) as [n|] eqn:Hn; [|unfold guarded in Hg; by rewrite Hn in Hg].
  destruct (guarded_ok p f t n Hok Hn (Hc n)) as (t1 & H1 & _ & _ & H4 & _). assert (t1 = t') as -> by congruence.
  split.
  - intros Hnm q m Hm. destruct (H4 q m Hm) as (m0 & Hm0 & _ & _ & ->). simpl in Hm0.
    apply lookup_insert_Some in Hm0 as [[<- <-]|[_ Hm0]]; [apply Ht|]; by apply Hnm.
  - intros q m Hm. destruct (H4 q m Hm) as (m0 & Hm0 & _ & -> & _). simpl in Hm0.
    apply lookup_insert_Some in Hm0 as [[<- <-]|[_ Hm0]]; [by rewrite Ha, (advAt_node _ _ _ Hn)|by rewrite (advAt_node _ _ _ Hm0)].
Qed.

(** ** Subscribers above a node *)
Definition subsAt (t : NamespaceTree) (q : path) : gmap Session NamespaceSubscriberInfo := (view t q).2.
Definition subAbove (t : NamespaceTree) (p : path) (e : Session * NamespaceSubscriberInfo) : Prop :=
  exists q, q `suffix_of` p /\ subsAt t q !! e.1 = Some e.2.

Lemma subsAt_node t q n : nodes t !! q = Some n -> subsAt t q = subscribers_ n.
Proof. intros H. unfold subsAt. by rewrite (view_node _ _ _ H). Qed.

Lemma subscribersOf_spec n s i : (s, i) ∈ subscribersOf n <-> subscribers_ n !! s = Some i.
Proof. unfold subscribersOf. apply elem_of_map_to_list. Qed.

(** Above [k :: p] are those of [k :: p] and those above [p]. *)
Lemma suffix_of_cons_iff {A} (q p : list A) k : q `suffix_of` k :: p <-> q = k :: p \/ q `suffix_of` p.
Proof.
  split.
  - intros [l Hl]. destruct l as [|x l]; simpl in Hl; [by left|]. right. injection Hl as _ ->. by exists l.
  - intros [->|H]; [done|by apply suffix_cons_r].
Qed.

Lemma subAbove_cons t k p e : subAbove t (k :: p) e <-> subsAt t (k :: p) !! e.1 = Some e.2 \/ subAbove t p e.
Proof.
  unfold subAbove. setoid_rewrite suffix_of_cons_iff. split.
  - intros (q & [->|Hq] & H); [by left|right; eauto].
  - intros [H|(q & Hq & H)]; eauto.
Qed.

Lemma subAbove_nil t e : subAbove t [] e <-> subsAt t [] !! e.1 = Some e.2.
Proof.
  split.
  - intros (q & Hq & H). by apply suffix_nil_inv in Hq as ->.
  - intros H. by exists [].
Qed.

(** Creating the nodes on the way: nothing else changes, and the subscribers
    passed are those above the node, its own apart. *)
Lemma findNode_from_subs create at_ rest : forall subs t p subs' t',
  findNode_from at_ rest create subs t = (Some p, subs', t') -> is_Some (nodes t !! at_) ->
  p = rev rest ++ at_ /\ (named t -> named t') /\ (forall q, advAt t' q = advAt t q) /\ is_Some (nodes t' !! p) /\
  (forall q, subsAt t' q = subsAt t q) /\
  forall e, (e ∈ subs' \/ subsAt t p !! e.1 = Some e.2) <->
            (e ∈ subs \/ exists q, at_ `suffix_of` q /\ q `suffix_of` p /\ subsAt t q !! e.1 = Some e.2).
Proof.
  revert at_. induction rest as [|name rest IH]; intros at_ subs t p subs' t'; simpl.
  - intros [= <- <- <-] Hat. split_and!; [done..|]. intros e. split.
    + intros [?|?]; [by left|right; by exists at_].
    + intros [?|(q & H1 & H2 & H3)]; [by left|right]. by rewrite (anti_symm suffix at_ q H1 H2).
  - intros Hf [m Hm].
    assert (Hpre : forall t1, findNode_from (name :: at_) rest create (subs ++ subscribersOf m) t1 = (Some p, subs', t') ->
      is_Some (nodes t1 !! (name :: at_)) -> (named t -> named t1) -> (forall q, advAt t1 q = advAt t q) ->
      (forall q, subsAt t1 q = subsAt t q) ->
      p = rev (name :: rest) ++ at_ /\ (named t -> named t') /\ (forall q, advAt t' q = advAt t q) /\ is_Some (nodes t' !! p) /\
      (forall q, subsAt t' q = subsAt t q) /\
      forall e, (e ∈ subs' \/ subsAt t p !! e.1 = Some e.2) <->
        (e ∈ subs \/ exists q, at_ `suffix_of` q /\ q `suffix_of` p /\ subsAt t q !! e.1 = Some e.2)).
    { intros t1 H1 H2 Hnm Ha Hs. destruct (IH _ _ _ _ _ _ H1 H2) as (-> & H4 & H5 & H6 & H7 & H8).
      split_and!; [by simpl; rewrite <- app_assoc|auto|intros q; by rewrite H5|done|intros q; by rewrite H7|].
      intros [s i]. specialize (H8 (s, i)). rewrite Hs in H8. rewrite H8, elem_of_app, subscribersOf_spec.
      rewrite <- (subsAt_node _ _ _ Hm). clear H8. setoid_rewrite Hs. split.
      - intros [[?|?]|(q & Hq1 & Hq2 & Hq3)]; [by left|right|right].
        + exists at_. split_and!; [done| |done]. exists (rev rest ++ [name]). by rewrite <- app_assoc.
        + exists q. split_and!; [|done|done]. etrans; [|exact Hq1]. by apply suffix_cons_r.
      - intros [?|(q & Hq1 & Hq2 & Hq3)]; [by left; left|].
        destruct (decide (q = at_)) as [->|Hne]; [left; by right|right]. exists q. split_and!; [|done|done].
        destruct Hq1 as [l ->]. destruct Hq2 as [l' Hq2]. destruct l as [|x l _] using rev_ind; [done|].
        rewrite <- app_assoc in Hq2 |- *. simpl in Hq2 |- *. exists l. f_equal.
        assert (Hlast : (rev rest ++ [name]) ++ at_ = (l' ++ l ++ [x]) ++ at_).
        { rewrite <- !app_assoc. simpl. rewrite Hq2. done. }
        apply app_inv_tail in Hlast. rewrite app_assoc in Hlast. apply app_inj_tail in Hlast as [_ ->]. done. }
    rewrite Hm in Hf. simpl in Hf. destruct (nodes t !! (name :: at_)) as [x|] eqn:E.
    + apply (Hpre t); eauto.
    + destruct create; [|done]. refine (Hpre _ Hf _ _ _ _).
      * simpl. rewrite lookup_insert_eq. eauto.
      * intros Hnm q n. simpl. rewrite lookup_insert_Some. intros [[<- <-]|[_ Hq]]; [done|by apply Hnm].
      * intros q. unfold advAt. simpl. destruct (decide (name :: at_ = q)) as [<-|Hne];
          [by rewrite lookup_insert_eq, E|by rewrite lookup_insert_ne].
      * intros q. unfold subsAt, view. simpl. destruct (decide (name :: at_ = q)) as [<-|Hne];
          [by rewrite lookup_insert_eq, E|by rewrite lookup_insert_ne].
Qed.

Lemma findNode_subs create ns t p subs t' : tree_ok t -> findNode ns create t = (Some p, subs, t') ->
  p = rev ns /\ (named t -> named t') /\ (forall q, advAt t' q = advAt t q) /\ is_Some (nodes t' !! p) /\
  (forall q, subsAt t' q = subsAt t q) /\
  forall e, (e ∈ subs \/ subsAt t p !! e.1 = Some e.2) <-> subAbove t p e.
Proof.
  intros Hok Hf. destruct (findNode_from_subs create [] ns [] t p subs t' Hf (co_root _ _ _ Hok)) as (H1 & H2 & H3 & H4 & H5 & H6).
  rewrite app_nil_r in H1. split_and!; [done..|]. intros e. rewrite H6. split.
  - intros [[]%not_elem_of_nil|(q & _ & ? & ?)]. by exists q.
  - intros (q & ? & ?). right. exists q. split_and!; [|done|done]. apply suffix_nil.
Qed.

(** ** The operations *)
(** The result of a change at namespace [ns]: the node, the subscribers above it,
    and that nothing is forgotten. *)
Record changed (ns : list string) (t : NamespaceTree) (p : path) (subs : SessionSubscriberList) (t' : NamespaceTree) : Prop := {
  ch_path : p = rev ns;
  ch_subs e : e ∈ subs <-> subAbove t p e;
  ch_kept : kept t t';
}.

Lemma subs_of_found create ns t p subs t1 n : tree_ok t -> findNode ns create t = (Some p, subs, t1) ->
  nodes t1 !! p = Some n -> forall e, e ∈ subs ++ subscribersOf n <-> subAbove t p e.
Proof.
  intros Hok Hf Hn [s i]. destruct (findNode_subs _ _ _ _ _ _ Hok Hf) as (_ & _ & _ & _ & H5 & H6).
  rewrite elem_of_app, subscribersOf_spec, <- H6. cbn [fst snd]. by rewrite <- (subsAt_node _ _ _ Hn), H5.
Qed.

Lemma findNode_inv create ns t p subs t1 : tree_inv t -> findNode ns create t = (Some p, subs, t1) -> tree_inv t1.
Proof.
  intros Hi Hf. destruct create.
  - destruct (findNode_create ns t Hi) as (subs' & t' & n & Heq & H & _). congruence.
  - destruct (findNode_find ns t (proj1 Hi)) as [subs' Heq]. congruence.
Qed.

(** A guarded change at a node that was looked up. *)
Lemma kept_found create ns t p subs t1 f seq t' : tree_inv t -> findNode ns create t = (Some p, subs, t1) ->
  guarded p f (mkTree (nodes t1) seq) = Some t' ->
  (forall n, activeChildCount_ (f n) = activeChildCount_ n) -> (forall n, advertisements_ (f n) = advertisements_ n) ->
  (forall n, trackNamespace_ n = rev p -> trackNamespace_ (f n) = rev p) -> kept t t'.
Proof.
  intros Hi Hf Hg H1 H2 H3. destruct (findNode_subs _ _ _ _ _ _ (proj1 Hi) Hf) as (_ & Hnm & Ha & _ & _ & _).
  eapply (kept_from t (mkTree (nodes t1) seq)); [exact Hnm|exact Ha|].
  eapply kept_guarded; [|exact Hg|done..]. exact (findNode_inv _ _ _ _ _ _ Hi Hf).
Qed.

Ltac inv_bind H :=
  match type of H with
  | (_ ← ?o; _) = Some _ => let E := fresh "E" in destruct o as [?|] eqn:E; [cbn [mbind option_bind] in H|discriminate H]
  end.

Section ops.
Context (sessionId : Session -> Z).

Lemma tree_eta t : t = mkTree (nodes t) (nextRouteSeq_ t).
Proof. by destruct t. Qed.

Lemma setPublisher_changed ns session callback peerID requestID hops cost fromCluster t r t' : tree_inv t ->
  setPublisher ns session callback peerID requestID hops cost fromCluster t = Some (r, t') ->
  changed ns t (sp_node r) (sp_subscribers r) t'.
Proof.
  intros Hi. unfold setPublisher. destruct (findNode ns true t) as [[[p|] subs] t1] eqn:Hf; [|done].
  cbn [mbind option_bind]. intros H. inv_bind H. rename n into m, E into Hn.
  pose proof (findNode_subs _ _ _ _ _ _ (proj1 Hi) Hf) as (-> & Hnm & Ha & _ & _ & _).
  assert (Hsub := subs_of_found _ _ _ _ _ _ _ (proj1 Hi) Hf Hn).
  assert (Hrep : forall rest new seq res, (t2 ← guarded (rev ns) (fun n => set_trackNamespace ns (set_routes (rest ++ [new]) n))
      (mkTree (nodes t1) seq); Some (res, t2)) = Some (r, t') -> sp_node res = rev ns ->
      sp_subscribers res = subs ++ subscribersOf m -> changed ns t (sp_node r) (sp_subscribers r) t').
  { intros rest new seq res Hg H1 H2. inv_bind Hg. injection Hg as <- <-. rewrite H1, H2. split; [done|done|].
    eapply kept_found; [done|exact Hf|exact E|done|done|]. intros n0 _. simpl. by rewrite rev_involutive. }
  destruct (list_find _ (routes_ m)) as [[i e]|]; [|by eapply Hrep].
  destruct (_ && _); [|by eapply Hrep].
  destruct (reviseRoute _ _ _ _) as [[e2 seq] rep]. injection H as <- <-. split; [done|done|].
  eapply kept_from; [exact Hnm|exact Ha|]. by eapply kept_put.
Qed.

Lemma updateRoute_changed ns sid requestID hops cost t r t' : tree_inv t ->
  updateRoute sessionId ns sid requestID hops cost t = Some (Ok (r, t')) ->
  changed ns t (sp_node r) (sp_subscribers r) t'.
Proof.
  intros Hi. unfold updateRoute. destruct (findNode ns false t) as [[[p|] subs] t1] eqn:Hf; [|done].
  cbn [mbind option_bind]. intros H. inv_bind H. rename n into m, E into Hn.
  pose proof (findNode_subs _ _ _ _ _ _ (proj1 Hi) Hf) as (-> & Hnm & Ha & _ & _ & _).
  assert (t1 = t) as -> by (destruct (findNode_find ns t (proj1 Hi)); congruence).
  destruct (list_find _ _) as [[i e]|]; [|done].
  destruct (reviseRoute _ _ _ _) as [[e2 seq] rep]. injection H as <- <-.
  split; [done|by eapply subs_of_found; [apply Hi|exact Hf|]|]. by eapply kept_put.
Qed.

Lemma unpublishNamespace_changed ns sid requestID t p subs removed t' : tree_inv t ->
  unpublishNamespace sessionId ns sid requestID t = Some (Ok (p, subs, removed, t')) ->
  changed ns t p subs t' /\ is_Some (nodes t !! p).
Proof.
  intros Hi. unfold unpublishNamespace. destruct (findNode ns false t) as [[[q|] subs1] t1] eqn:Hf; [|done].
  cbn [mbind option_bind]. intros H. inv_bind H. rename n into m, E into Hn.
  assert (t1 = t) as -> by (destruct (findNode_find ns t (proj1 Hi)); congruence).
  destruct (list_find _ _) as [[i e]|]; [|done]. inv_bind H. injection H as <- <- <- <-.
  split; [|eauto]. split.
  - by destruct (findNode_subs _ _ _ _ _ _ (proj1 Hi) Hf) as (-> & _).
  - by eapply subs_of_found; [apply Hi|exact Hf|].
  - rewrite (tree_eta t) in E. by eapply kept_found; [|exact Hf|exact E|..].
Qed.

Lemma addPublish_changed ns trackName session t p subs rankings t' : tree_inv t ->
  addPublish ns trackName session t = Some (p, subs, rankings, t') -> changed ns t p subs t'.
Proof.
  intros Hi. unfold addPublish. destruct (findNode ns true t) as [[[q|] subs1] t1] eqn:Hf; [|done].
  cbn [mbind option_bind]. intros H. inv_bind H. rename n into m, E into Hn. inv_bind H. injection H as <- <- <- <-. split.
  - by destruct (findNode_subs _ _ _ _ _ _ (proj1 Hi) Hf) as (-> & _).
  - by eapply subs_of_found; [apply Hi|exact Hf|].
  - rewrite (tree_eta t1) in E. by eapply kept_found; [|exact Hf|exact E|..].
Qed.

Lemma unpublishTrack_kept ns trackName t t' : tree_inv t -> unpublishTrack ns trackName t = Some (Ok t') -> kept t t'.
Proof.
  intros Hi. unfold unpublishTrack. destruct (findNode ns false t) as [[[q|] subs1] t1] eqn:Hf; [|done].
  cbn [mbind option_bind]. intros H. inv_bind H. injection H as <-.
  assert (t1 = t) as -> by (destruct (findNode_find ns t (proj1 Hi)); congruence).
  rewrite (tree_eta t) in E. by eapply kept_found; [|exact Hf|exact E|..].
Qed.

Lemma addNamespaceSubscriber_kept ns session info t p t' : tree_inv t ->
  addNamespaceSubscriber ns session info t = Some (p, t') -> p = rev ns /\ kept t t'.
Proof.
  intros Hi. unfold addNamespaceSubscriber. destruct (findNode ns true t) as [[[q|] subs1] t1] eqn:Hf; [|done].
  cbn [mbind option_bind]. intros H. inv_bind H. injection H as <- <-. split.
  - by destruct (findNode_subs _ _ _ _ _ _ (proj1 Hi) Hf) as (-> & _).
  - rewrite (tree_eta t1) in E. eapply kept_found; [done|exact Hf|exact E|..]; intros x; cbv beta; by destruct (subscribers_ x !! session).
Qed.

Lemma getOrCreateRanking_kept p ty fresh t t' : getOrCreateRanking p ty fresh t = Some t' -> kept t t'.
Proof.
  unfold getOrCreateRanking, getOrInsertRanking. destruct (nodes t !! p) as [n|] eqn:Hn; [|done].
  cbn [mbind option_bind]. destruct (rankings_ n !! ty) as [[r|]|]; cbn [mbind option_bind].
  - intros [= <-]. apply kept_refl.
  - rewrite Hn. cbn [mbind option_bind]. intros [= <-]. by apply (kept_put _ n).
  - unfold putNode. cbn [nodes nextRouteSeq_]. rewrite lookup_insert_eq. cbn [mbind option_bind]. intros [= <-].
    rewrite insert_insert_eq. by apply (kept_put _ n).
Qed.

(** Removing a subscriber forgets what it was told below its prefix, only. *)
Lemma removeNamespaceSubscriber_kept ns session t topN t' : tree_inv t ->
  removeNamespaceSubscriber sessionId ns session t = Some (Ok (topN, t')) ->
  (named t -> named t') /\ forall q n, nodes t' !! q = Some n -> advertisements_ n =
    if decide (rev ns `suffix_of` q) then delete (sessionId session, Z.of_nat (length ns)) (advAt t q) else advAt t q.
Proof.
  intros Hi. unfold removeNamespaceSubscriber. destruct (findNode ns false t) as [[[q|] subs1] t1] eqn:Hf; [|done].
  cbn [mbind option_bind]. intros H. inv_bind H. rename n into m, E into Hn.
  pose proof (findNode_subs _ _ _ _ _ _ (proj1 Hi) Hf) as (-> & _ & _ & _ & _ & _).
  destruct (subscribers_ m !! session) as [info|]; [|done]. inv_bind H. inv_bind H. injection H as <- <-.
  set (t2 := eraseAdvertisements _ _ _) in *.
  assert (Hi2 : tree_inv t2) by (by apply eraseAdvertisements_step).
  destruct (kept_guarded _ _ _ _ Hi2 E0) as [K1 K2]; [done..|].
  assert (Hl : forall q, nodes t2 !! q = (fun n => if decide (rev ns `suffix_of` q)
     then eraseSubscriberAdvertisement (sessionId session, Z.of_nat (length ns)) n else n) <$> nodes t !! q).
  { intros q. unfold t2, eraseAdvertisements. cbn [nodes]. rewrite map_lookup_imap. by destruct (nodes t !! q). }
  split.
  - intros Hnm. apply K1. intros q x. rewrite Hl. destruct (nodes t !! q) as [n0|] eqn:En; [|done].
    intros [= <-]. destruct (decide _); exact (Hnm _ _ En).
  - intros q x Hq. rewrite (K2 _ _ Hq). unfold advAt. rewrite Hl. destruct (nodes t !! q) as [n0|]; simpl;
      [by destruct (decide _)|]. destruct (decide _); [by rewrite delete_empty|done].
Qed.
End ops.

(** ** The walk over a subtree *)
Lemma closed_suffix t x q : tree_ok t -> is_Some (nodes t !! x) -> q `suffix_of` x -> is_Some (nodes t !! q).
Proof.
  intros Hok Hx [l ->]. induction l as [|k l IH]; [done|]. apply IH. by apply (co_closed _ _ _ Hok k).
Qed.

Lemma childrenOf_spec p t q : q ∈ childrenOf p t <-> exists k, q = k :: p /\ is_Some (nodes t !! q).
Proof.
  unfold childrenOf. rewrite list_elem_of_In, filter_In, <- list_elem_of_In, list_elem_of_fmap. split.
  - intros [([q' n] & -> & Hn%elem_of_map_to_list) Hq]. simpl in *. destruct q' as [|k q']; [done|].
    apply bool_decide_eq_true in Hq as ->. eauto.
  - intros (k & -> & n & Hn). split; [|by apply bool_decide_eq_true]. exists (k :: p, n). split; [done|].
    by apply elem_of_map_to_list.
Qed.

Lemma NoDup_childrenOf p t : NoDup (childrenOf p t).
Proof.
  unfold childrenOf. pose proof (NoDup_fst_map_to_list (nodes t)) as H. revert H.
  generalize ((map_to_list (nodes t)).*1). intros l H. induction H as [|x l Hx Hl IH]; [constructor|]. simpl.
  destruct (match x with _ :: _ => _ | [] => _ end); [|done]. constructor; [|done].
  rewrite list_elem_of_In, filter_In, <- list_elem_of_In. by intros [? _].
Qed.

(** The nodes below the queue. *)
Definition belowQueue (t : NamespaceTree) (queue : list path) : gset path :=
  filter (fun x => Exists (fun p => p `suffix_of` x) queue) (dom (nodes t)).

Lemma belowQueue_spec t queue x : x ∈ belowQueue t queue <->
  (exists p, p ∈ queue /\ p `suffix_of` x) /\ is_Some (nodes t !! x).
Proof. unfold belowQueue. by rewrite elem_of_filter, elem_of_dom, Exists_exists. Qed.

(** No node of the queue is below another one. *)
Definition antichain (queue : list path) : Prop :=
  NoDup queue /\ forall p q, p ∈ queue -> q ∈ queue -> p `suffix_of` q -> p = q.

Lemma suffix_cons_self {A} (k : A) p : ~ (k :: p) `suffix_of` p.
Proof. intros H%suffix_length. simpl in H. lia. Qed.

Lemma antichain_step t p queue : antichain (p :: queue) -> antichain (queue ++ childrenOf p t).
Proof.
  intros [[Hp Hnd]%NoDup_cons Ha].
  assert (Hq : forall q k, q ∈ queue -> ~ q `suffix_of` k :: p /\ ~ k :: p `suffix_of` q).
  { intros q k Hin. assert (q <> p) by congruence. split.
    - intros [->|Hs]%suffix_of_cons_iff.
      + assert (p = k :: p); [|by apply (f_equal length) in H0; simpl in H0; lia].
        apply Ha; [by left|by right|by apply suffix_cons_r].
      + by apply H, Ha; [right|left|].
    - intros Hs. apply H. symmetry. apply Ha; [by left|by right|]. etrans; [|exact Hs]. by apply suffix_cons_r. }
  split.
  - apply NoDup_app. split_and!; [done| |by apply NoDup_childrenOf].
    intros q Hin (k & -> & _)%childrenOf_spec. by destruct (Hq _ k Hin) as [H _].
  - intros q1 q2 [H1|(k1 & -> & _)%childrenOf_spec]%elem_of_app [H2|(k2 & -> & _)%childrenOf_spec]%elem_of_app Hs.
    + apply Ha; [by right|by right|done].
    + by destruct (Hq _ k2 H1).
    + by destruct (Hq _ k1 H2).
    + apply suffix_of_cons_iff in Hs as [?|Hs]; [done|by apply suffix_cons_self in Hs].
Qed.

Lemma belowQueue_step t p queue : tree_ok t -> antichain (p :: queue) -> is_Some (nodes t !! p) ->
  belowQueue t (p :: queue) ≡ {[p]} ∪ belowQueue t (queue ++ childrenOf p t) /\
  p ∉ belowQueue t (queue ++ childrenOf p t).
Proof.
  intros Hok Hanti Hp. split.
  - intros x. rewrite elem_of_union, elem_of_singleton, !belowQueue_spec. split.
    + intros [(q & [->|Hq]%elem_of_cons & Hs) Hx].
      * destruct (decide (x = p)) as [->|Hne]; [by left|right]. split; [|done].
        destruct Hs as [l ->]. destruct l as [|k l _] using rev_ind; [done|].
        rewrite <- app_assoc in Hx |- *. simpl in Hx |- *. exists (k :: p). split; [|by exists l].
        apply elem_of_app. right. apply childrenOf_spec. exists k. split; [done|].
        apply (closed_suffix t (l ++ k :: p)); [done|done|by exists l].
      * right. split; [|done]. exists q. rewrite elem_of_app. by split; [left|].
    + intros [->|[(q & [Hq|(k & -> & _)%childrenOf_spec]%elem_of_app & Hs) Hx]].
      * split; [|done]. exists p. by split; [left|].
      * split; [|done]. exists q. by split; [right|].
      * split; [|done]. exists p. split; [by left|]. etrans; [|exact Hs]. by apply suffix_cons_r.
  - rewrite belowQueue_spec. intros [(q & [Hq|(k & -> & _)%childrenOf_spec]%elem_of_app & Hs) _].
    + destruct Hanti as [[Hn _]%NoDup_cons Ha]. apply Hn. rewrite <- (Ha q p); [done|by right|by left|done].
    + by apply suffix_cons_self in Hs.
Qed.

Lemma bfs_spec t : tree_ok t -> forall fuel queue, antichain queue -> (forall p, p ∈ queue -> is_Some (nodes t !! p)) ->
  (size (belowQueue t queue) <= fuel)%nat ->
  NoDup (bfs fuel queue t) /\ forall x, x ∈ bfs fuel queue t <-> x ∈ belowQueue t queue.
Proof.
  intros Hok. induction fuel as [|fuel IH]; intros [|p queue] Ha Hin Hsize; simpl.
  1,3: split; [constructor|]; intros x; rewrite belowQueue_spec; split;
    [by intros []%not_elem_of_nil|by intros [(? & []%not_elem_of_nil & _) _]].
  - assert (Hp : p ∈ belowQueue t (p :: queue)).
    { apply belowQueue_spec. split; [exists p; by split; [left|]|]. apply Hin. by left. }
    apply Nat.le_0_r, size_empty_inv in Hsize. set_solver.
  - destruct (belowQueue_step t p queue Hok Ha) as [Hb Hnot]; [apply Hin; by left|].
    rewrite Hb, size_union, size_singleton in Hsize by set_solver.
    destruct (IH (queue ++ childrenOf p t)) as [IH1 IH2]; [by apply antichain_step| |lia|].
    { intros q [Hq|(k & -> & ?)%childrenOf_spec]%elem_of_app; [apply Hin; by right|done]. }
    split; [constructor; [by rewrite IH2|done]|]. intros x. rewrite elem_of_cons, IH2, Hb. set_solver.
Qed.

(** The walk calls its function on each node of the subtree, once. *)
Lemma forEachNodeInSubtree_exact t p : tree_ok t -> is_Some (nodes t !! p) ->
  NoDup (forEachNodeInSubtree p t) /\
  forall x, x ∈ forEachNodeInSubtree p t <-> p `suffix_of` x /\ is_Some (nodes t !! x).
Proof.
  intros Hok Hp. destruct (bfs_spec t Hok (size (nodes t)) [p]) as [H1 H2].
  - split; [apply NoDup_singleton|]. by intros a b ->%list_elem_of_singleton ->%list_elem_of_singleton.
  - by intros q ->%list_elem_of_singleton.
  - rewrite <- size_dom. apply subseteq_size. intros x. unfold belowQueue. by rewrite elem_of_filter; intros [_ ?].
  - split; [done|]. intros x. unfold forEachNodeInSubtree. rewrite H2, belowQueue_spec. split.
    + by intros [(q & ->%list_elem_of_singleton & ?) ?].
    + intros [? ?]. split; [|done]. exists p. by rewrite list_elem_of_singleton.
Qed.
