(* ===== verification/RelayTold.v ===== *)
(** The relay's namespace handlers as a system: any sequence of announcements,
    updates, withdrawals, subscriptions and published tracks, with what the
    namespace subscribers have been told; its invariant, and that bringing one
    node up to date makes its subscribers' view of it right. *)

From S2P Require Import Prelude NamespaceTree NamespaceInv NamespaceSpec NamespaceRoutes NamespaceTheorems.
From S2P Require Import NamespaceLookup Location RelayNamespaces RelayTree.

(** ** What is relied on of moxygen

    Sessions have an identity of their own and a negotiated version (requests are
    handled after the setup); a path of valid hops can be encoded, what is
    decoded is made of valid hops, and decoding reverses encoding. *)
Class SessionLaws `(SessionApi) := {
  sessionId_inj :: Inj (=) (=) sessionId;
  version_negotiated s : is_Some (getNegotiatedVersion s);
  linkCost_u64 s : u64_ok (getRelayLinkCost s);
}.

Class HopCodecLaws {E} `(HopCodec E) (hop_ok : Z -> Prop) := {
  anon_hop_ok : hop_ok kMoQClusterAnonHopId;
  encode_total path v : Forall hop_ok path -> is_Some (encodeRelayHopPath path v);
  decode_hops e v path : decodeRelayHopPath e v = Some path -> Forall hop_ok path;
  decode_encode path v e : encodeRelayHopPath path v = Some e -> decodeRelayHopPath e v = Some path;
}.

Section told.
Context {SA : SessionApi} {SL : SessionLaws SA} {E : Type} {HC : HopCodec E} {hop_ok : Z -> Prop} {HL : HopCodecLaws HC hop_ok}.
Context (relayHopID_ : Z) (Hhop : hop_ok relayHopID_).

Abbreviation Act := (RelayAct E).
Abbreviation Subscriber := (Session * NamespaceSubscriberInfo)%type.

(** ** What the subscribers have been told

    The last message about a namespace to a handle: its parameters, or that it
    is gone. *)
Abbreviation Told := (gmap (Z * list string) (RouteParams E)).
Definition tellOne (told : Told) (a : Act) : Told :=
  match a with
  | NamespaceMsg h suffix params => <[(h, suffix):=params]> told
  | NamespaceDoneMsg h suffix => delete (h, suffix) told
  | _ => told
  end.
Definition tell (acts : list Act) (told : Told) : Told := fold_left tellOne acts told.

Lemma tell_app a b told : tell (a ++ b) told = tell b (tell a told).
Proof. apply fold_left_app. Qed.

Abbreviation outgoing := (setOutgoingHopPath relayHopID_).

Definition suffixOf (p : path) (i : NamespaceSubscriberInfo) : list string :=
  makeNamespaceSuffix (rev p) (length (si_trackNamespacePrefix i)).
Definition routeFor (rs : list Route) (e : Subscriber) : option Route :=
  advertisableRoute relayHopID_ (set_routes rs (newNode [])) e.1 e.2.

(** Told what is recorded as advertised; and what is advertised is the route. *)
Definition told_recorded (told : Told) (advs : gmap (Z * Z) Advertisement) (p : path) (e : Subscriber) : Prop :=
  forall h, si_namespacePublishHandle e.2 = Some h ->
    told !! (h, suffixOf p e.2) = (a ← advs !! advertisementKey e.1 e.2; outgoing e.1 (ad_path a) (ad_cost a)).
Definition recorded_current (advs : gmap (Z * Z) Advertisement) (rs : list Route) (e : Subscriber) : Prop :=
  is_Some (si_namespacePublishHandle e.2) ->
  match advs !! advertisementKey e.1 e.2, routeFor rs e with
  | None, None => True
  | Some a, Some r => negotiatedRelayHops e.1 = true -> ad_path a = r_path r /\ ad_cost a = r_cost r
  | _, _ => False
  end.

(** ** Good routes: valid hops, not through this relay, a 64-bit cost *)
Definition goodPath (hops : list Z) : Prop := Forall hop_ok hops /\ clusterPathContains hops relayHopID_ = false.
Definition goodRoute (r : Route) : Prop := goodPath (r_path r) /\ u64_ok (r_cost r).

Lemma outgoing_total s path cost : Forall hop_ok path -> is_Some (outgoing s path cost).
Proof.
  intros Hp. unfold setOutgoingHopPath. destruct (negb _); [eauto|]. destruct (version_negotiated s) as [v ->].
  cbn [mbind option_bind]. destruct (encode_total (path ++ [relayHopID_]) v) as [x ->]; [|cbn [mbind option_bind]; eauto].
  by apply Forall_app_2; [|apply Forall_singleton].
Qed.

Lemma routeFor_In rs e r : routeFor rs e = Some r -> In r rs.
Proof.
  intros Hr. unfold routeFor, advertisableRoute in Hr.
  match type of Hr with selectRoute ?f ?n = _ => pose proof (selectRoute_spec f n) as H; rewrite Hr in H end.
  by destruct H as [H _].
Qed.

Lemma routeFor_nil e : routeFor [] e = None.
Proof. done. Qed.

(** ** Bringing one subscriber of a node up to date *)
Record reconciled (n : NamespaceNode) (p : path) (subs : list Subscriber) (acts : list Act) (n' : NamespaceNode) : Prop := {
  rc_node : n' = set_advertisements (advertisements_ n') n;
  rc_advs k : (forall e, e ∈ subs -> is_Some (si_namespacePublishHandle e.2) -> advertisementKey e.1 e.2 <> k) ->
    advertisements_ n' !! k = advertisements_ n !! k;
  rc_told told h x : (forall e, e ∈ subs -> si_namespacePublishHandle e.2 = Some h -> suffixOf p e.2 <> x) ->
    tell acts told !! (h, x) = told !! (h, x);
}.

Lemma reconcileAdvertisement_spec n p e : trackNamespace_ n = rev p -> Forall goodRoute (routes_ n) ->
  exists acts n', reconcileAdvertisement relayHopID_ n e.1 e.2 = Some (acts, n') /\ reconciled n p [e] acts n' /\
    forall told, told_recorded told (advertisements_ n) p e ->
      told_recorded (tell acts told) (advertisements_ n') p e /\ recorded_current (advertisements_ n') (routes_ n) e.
Proof.
  destruct e as [s i]. intros Hname Hgood. cbn [fst snd].
  unfold reconcileAdvertisement. destruct (si_namespacePublishHandle i) as [h|] eqn:Hh.
  2:{ exists [], n. split; [done|]. split; [|intros told Ht; split; [done|intros [? Hx]; cbn [snd] in Hx; congruence]].
      split; [by destruct n|done|done]. }
  rewrite Hname. change (makeNamespaceSuffix (rev p) (length (si_trackNamespacePrefix i))) with (suffixOf p i).
  change (advertisableRoute relayHopID_ n s i) with (routeFor (routes_ n) (s, i)).
  set (key := advertisementKey s i). set (x := suffixOf p i).
  (* one entry is changed at most *)
  assert (Hone : forall acts advs' rec, (forall k, k <> key -> advs' !! k = advertisements_ n !! k) -> advs' !! key = rec ->
    (forall told h' x', (h', x') <> (h, x) -> tell acts told !! (h', x') = told !! (h', x')) ->
    (forall told, told_recorded told (advertisements_ n) p (s, i) ->
       tell acts told !! (h, x) = (a ← rec; outgoing s (ad_path a) (ad_cost a))) ->
    match rec, routeFor (routes_ n) (s, i) with
    | None, None => True
    | Some a, Some r => negotiatedRelayHops s = true -> ad_path a = r_path r /\ ad_cost a = r_cost r
    | _, _ => False
    end -> forall n', n' = set_advertisements advs' n ->
    exists acts' n'', Some (acts, n') = Some (acts', n'') /\ reconciled n p [(s, i)] acts' n'' /\
      forall told, told_recorded told (advertisements_ n) p (s, i) ->
      told_recorded (tell acts' told) (advertisements_ n'') p (s, i) /\ recorded_current (advertisements_ n'') (routes_ n) (s, i)).
  { intros acts advs' rec H1 <- H3 H4 H5 n' ->. exists acts, (set_advertisements advs' n). split; [done|]. split.
    - split; [done| |].
      + intros k Hk. apply H1. intros ->. by apply (Hk (s, i)); [by left|cbn [snd]; eauto|].
      + intros told h' x' Hx. apply H3. intros [= -> ->]. by apply (Hx (s, i)); [left|..].
    - intros told Ht. split; [|intros _; exact H5]. intros h' Hh'. cbn [snd] in Hh'. assert (h' = h) as -> by congruence.
      by apply H4. }
  assert (Ht0 : forall told, told_recorded told (advertisements_ n) p (s, i) ->
     told !! (h, x) = (a ← advertisements_ n !! key; outgoing s (ad_path a) (ad_cost a))) by (intros told Ht; by apply Ht).
  assert (Hn : n = set_advertisements (advertisements_ n) n) by (by destruct n).
  unfold withdrawStale. destruct (routeFor (routes_ n) (s, i)) as [r|] eqn:Hr.
  - assert (Hout : is_Some (outgoing s (r_path r) (r_cost r))).
    { apply outgoing_total. apply routeFor_In in Hr. rewrite Forall_forall in Hgood.
      by destruct (Hgood r) as [[? _] _]; [by apply list_elem_of_In|]. }
    destruct Hout as [params Hparams].
    assert (Hsend : forall withdrawn n1, (forall told h' x', (h', x') <> (h, x) -> tell withdrawn told !! (h', x') = told !! (h', x')) ->
      n1 = set_advertisements (advertisements_ n1) n -> (forall k, k <> key -> advertisements_ n1 !! k = advertisements_ n !! k) ->
      exists acts' n'', (params ← outgoing s (r_path r) (r_cost r);
        Some (withdrawn ++ [NamespaceMsg h x params], setSubscriberAdvertisement key
          (mkAdvertisement (r_seq r) (r_path r) (r_cost r)) n1)) = Some (acts', n'') /\ reconciled n p [(s, i)] acts' n'' /\
        forall told, told_recorded told (advertisements_ n) p (s, i) ->
        told_recorded (tell acts' told) (advertisements_ n'') p (s, i) /\ recorded_current (advertisements_ n'') (routes_ n) (s, i)).
    { intros withdrawn n1 H1 H2 H3. rewrite Hparams. cbn [mbind option_bind].
      eapply (Hone _ (<[key:=mkAdvertisement (r_seq r) (r_path r) (r_cost r)]> (advertisements_ n1))).
      - intros k Hk. rewrite lookup_insert_ne by done. by apply H3.
      - apply lookup_insert_eq.
      - intros told h' x' Hx. rewrite tell_app. cbn [tell fold_left tellOne].
        rewrite lookup_insert_ne by congruence. by apply H1.
      - intros told _. rewrite tell_app. cbn [tell fold_left tellOne]. by rewrite lookup_insert_eq.
      - done.
      - rewrite H2. done. }
    destruct (advertisements_ n !! key) as [a|] eqn:Ea.
    + destruct (negb (samePublisher a r)).
      * cbn [eraseSubscriberAdvertisement set_advertisements advertisements_]. rewrite lookup_delete_eq.
        apply Hsend; [|done|intros k Hk; cbn; by rewrite lookup_delete_ne].
        intros told h' x' Hx. cbn [tell fold_left tellOne]. by rewrite lookup_delete_ne by congruence.
      * rewrite Ea. destruct (_ || _) eqn:Eb; [|by apply Hsend].
        apply (Hone [] (advertisements_ n) (Some a)); [done|exact Ea|done| | |exact Hn].
        -- intros told Ht. cbn [tell fold_left]. by rewrite (Ht0 _ Ht).
        -- intros Hneg. rewrite Hneg in Eb. cbn [negb orb] in Eb.
           apply andb_true_iff in Eb as [?%bool_decide_eq_true ?%Z.eqb_eq]. done.
    + rewrite Ea. by apply Hsend.
  - destruct (advertisements_ n !! key) as [a|] eqn:Ea.
    + apply (Hone _ (delete key (advertisements_ n)) None); [|apply lookup_delete_eq| | |done|done].
      * intros k Hk. by rewrite lookup_delete_ne.
      * intros told h' x' Hx. cbn [tell fold_left tellOne]. by rewrite lookup_delete_ne by congruence.
      * intros told _. cbn [tell fold_left tellOne]. by rewrite lookup_delete_eq.
    + apply (Hone [] (advertisements_ n) None); [done|exact Ea|done| |done|exact Hn].
      intros told Ht. cbn [tell fold_left]. by rewrite (Ht0 _ Ht).
Qed.

(** ** Bringing all subscribers of a node up to date *)
#[local] Instance TrackFilter_eq_dec : EqDecision TrackFilter.
Proof. solve_decision. Defined.
#[local] Instance SubscriberInfo_eq_dec : EqDecision NamespaceSubscriberInfo.
Proof. solve_decision. Defined.

(** Two subscribers have their own records and their own handles. *)
Definition separate (e1 e2 : Subscriber) : Prop :=
  advertisementKey e1.1 e1.2 <> advertisementKey e2.1 e2.2 /\
  forall h, si_namespacePublishHandle e1.2 = Some h -> si_namespacePublishHandle e2.2 <> Some h.

(** What happens to the subscribers [subs] of a node leaves another one's view. *)
Lemma reconciled_other n p subs acts n' told e : reconciled n p subs acts n' -> (forall e', e' ∈ subs -> separate e e') ->
  (told_recorded told (advertisements_ n) p e -> told_recorded (tell acts told) (advertisements_ n') p e) /\
  (recorded_current (advertisements_ n) (routes_ n) e -> recorded_current (advertisements_ n') (routes_ n) e).
Proof.
  intros [_ H2 H3] Hsep.
  assert (Hk : advertisements_ n' !! advertisementKey e.1 e.2 = advertisements_ n !! advertisementKey e.1 e.2).
  { apply H2. intros e' He' _ Hk. by destruct (Hsep e' He') as [Hne _]. }
  split.
  - intros Ht h Hh. rewrite Hk, H3; [by apply Ht|]. intros e' He' Hh'. by destruct (Hsep e' He') as [_ Hne]; destruct (Hne h).
  - intros Hc Hh. rewrite Hk. by apply Hc.
Qed.

Lemma reconciled_trans n p e subs acts1 n1 acts2 n2 : reconciled n p [e] acts1 n1 -> reconciled n1 p subs acts2 n2 ->
  reconciled n p (e :: subs) (acts1 ++ acts2) n2.
Proof.
  intros [A1 A2 A3] [B1 B2 B3]. split.
  - rewrite B1, A1. done.
  - intros k Hk. rewrite B2, A2; [done| |]; intros e' He'; apply Hk; [|by right].
    apply list_elem_of_singleton in He' as ->. by left.
  - intros told h x Hx. rewrite tell_app, B3, A3; [done| |]; intros e' He'; apply Hx; [|by right].
    apply list_elem_of_singleton in He' as ->. by left.
Qed.

Lemma reconcileAll_spec p : forall subs n told, trackNamespace_ n = rev p -> Forall goodRoute (routes_ n) ->
  (forall e1 e2, e1 ∈ subs -> e2 ∈ subs -> e1 <> e2 -> separate e1 e2) ->
  (forall e, e ∈ subs -> told_recorded told (advertisements_ n) p e) ->
  exists acts n', reconcileAll relayHopID_ subs n = Some (acts, n') /\ reconciled n p subs acts n' /\
    forall e, e ∈ subs -> told_recorded (tell acts told) (advertisements_ n') p e /\
      recorded_current (advertisements_ n') (routes_ n) e.
Proof.
  induction subs as [|e subs IH]; intros n told Hname Hgood Hsep Hrec.
  { exists [], n. split; [done|]. split; [by split; [destruct n|..]|]. by intros e []%not_elem_of_nil. }
  destruct (reconcileAdvertisement_spec n p e Hname Hgood) as (acts1 & n1 & E1 & R1 & F1).
  assert (Hr1 : routes_ n1 = routes_ n) by (by rewrite (rc_node _ _ _ _ _ R1)).
  destruct (F1 told) as [Fe Fc]; [apply Hrec; by left|].
  destruct (IH n1 (tell acts1 told)) as (acts2 & n2 & E2 & R2 & F2).
  - by rewrite (rc_node _ _ _ _ _ R1).
  - by rewrite Hr1.
  - intros e1 e2 H1 H2. apply Hsep; by right.
  - intros e' He'. destruct (decide (e' = e)) as [->|Hne]; [done|].
    apply (reconciled_other _ _ _ _ _ _ e' R1); [|apply Hrec; by right].
    intros e'' ->%list_elem_of_singleton. apply Hsep; [by right|by left|done].
  - exists (acts1 ++ acts2), n2. destruct e as [s i]. cbn [reconcileAll]. cbn [fst snd] in E1. rewrite E1. cbn [mbind option_bind].
    rewrite E2. split; [done|]. split; [by eapply reconciled_trans|]. rewrite Hr1 in F2.
    intros e' [->|He']%elem_of_cons; rewrite tell_app; [|by apply F2].
    destruct (decide ((s, i) ∈ subs)) as [Hin|Hnin]; [by apply F2|].
    destruct (reconciled_other _ _ _ _ _ (tell acts1 told) (s, i) R2) as [G1 G2].
    + intros e' He'. apply Hsep; [by left|by right|congruence].
    + split; [by apply G1|]. rewrite Hr1 in G2. by apply G2.
Qed.
End told.
