(* ===== verification/RelayInv.v ===== *)
(** The invariant of the relay's namespace state, and that announcements,
    updates and withdrawals keep it. *)

From S2P Require Import Prelude NamespaceTree NamespaceInv NamespaceSpec NamespaceRoutes NamespaceTheorems.
From S2P Require Import NamespaceLookup Location RelayNamespaces RelayTree RelayTold.

Section inv.
Context {SA : SessionApi} {SL : SessionLaws SA} {E : Type} {HC : HopCodec E} {hop_ok : Z -> Prop} {HL : HopCodecLaws HC hop_ok}.
Context (relayHopID_ : Z) (Hhop : hop_ok relayHopID_).

Abbreviation Told := (gmap (Z * list string) (RouteParams E)).
Abbreviation Subscriber := (Session * NamespaceSubscriberInfo)%type.
Abbreviation goodRoute := (goodRoute relayHopID_ (hop_ok := hop_ok)).
Abbreviation goodPath := (goodPath relayHopID_ (hop_ok := hop_ok)).
Abbreviation told_recorded := (told_recorded relayHopID_).
Abbreviation recorded_current := (recorded_current relayHopID_).

Definition routesAt (t : NamespaceTree) (p : path) : list Route := (view t p).1.1.

(** [next] is the next handle: those of the subscribers are older. *)
Record ns_inv (t : NamespaceTree) (next : Z) (told : Told) : Prop := {
  ni_tree : tree_inv t;
  ni_named : named t;
  ni_routes p : routes_ok negotiatedRelayHops (nextRouteSeq_ t) (routesAt t p);
  ni_good p : Forall goodRoute (routesAt t p);
  ni_prefix q s i : subsAt t q !! s = Some i -> si_trackNamespacePrefix i = rev q;
  ni_handles q s i h : subsAt t q !! s = Some i -> si_namespacePublishHandle i = Some h -> h < next;
  ni_unique q s i q' s' i' h : subsAt t q !! s = Some i -> subsAt t q' !! s' = Some i' ->
    si_namespacePublishHandle i = Some h -> si_namespacePublishHandle i' = Some h -> q = q' /\ s = s';
  ni_told h x : is_Some (told !! (h, x)) -> h < next;
  ni_recorded p e : subAbove t p e -> told_recorded told (advAt t p) p e;
  ni_current p e : subAbove t p e -> recorded_current (advAt t p) (routesAt t p) e;
  ni_known p k : is_Some (advAt t p !! k) ->
    exists e, subAbove t p e /\ is_Some (si_namespacePublishHandle e.2) /\ advertisementKey e.1 e.2 = k;
}.

(** ** Subscribers are told apart *)
Lemma suffix_same_length {A} (q q' p : list A) : q `suffix_of` p -> q' `suffix_of` p -> length q = length q' -> q = q'.
Proof.
  intros [l ->] [l' H] Hlen. assert (Hl : length l = length l') by (apply (f_equal length) in H; rewrite !length_app in H; lia).
  by apply app_inj_1 in H as [_ ->].
Qed.

Lemma subs_separate t next told p e1 e2 : ns_inv t next told -> subAbove t p e1 -> subAbove t p e2 -> e1 <> e2 -> separate e1 e2.
Proof.
  intros I (q1 & Hq1 & H1) (q2 & Hq2 & H2) Hne. destruct e1 as [s1 i1], e2 as [s2 i2]. cbn [fst snd] in *.
  assert (Hsame : q1 = q2 -> s1 = s2 -> False) by (intros -> ->; apply Hne; congruence).
  split; cbn [fst snd].
  - unfold advertisementKey. rewrite (ni_prefix _ _ _ I _ _ _ H1), (ni_prefix _ _ _ I _ _ _ H2), !length_rev.
    intros [= Hs%(inj sessionId) Hlen]. apply Hsame; [|done]. apply (suffix_same_length _ _ p); [done..|lia].
  - intros h Hh1 Hh2. destruct (ni_unique _ _ _ I _ _ _ _ _ _ _ H1 H2 Hh1 Hh2). by apply Hsame.
Qed.

Lemma suffixOf_inj q p p' i : q `suffix_of` p -> q `suffix_of` p' -> si_trackNamespacePrefix i = rev q ->
  suffixOf p i = suffixOf p' i -> p = p'.
Proof.
  intros [l ->] [l' ->] Hi. unfold suffixOf, makeNamespaceSuffix. rewrite Hi, !rev_app_distr, !drop_app_length.
  intros Hr%(f_equal (@rev _)). rewrite !rev_involutive in Hr. by subst.
Qed.

(** The same handle and namespace: the same subscriber and node. *)
Lemma told_apart t next told p p' e e' h : ns_inv t next told -> subAbove t p e -> subAbove t p' e' ->
  si_namespacePublishHandle e.2 = Some h -> si_namespacePublishHandle e'.2 = Some h ->
  suffixOf p e.2 = suffixOf p' e'.2 -> p = p'.
Proof.
  intros I (q & Hq & H) (q' & Hq' & H') Hh Hh' Hx. destruct e as [s i], e' as [s' i']. cbn [fst snd] in *.
  destruct (ni_unique _ _ _ I _ _ _ _ _ _ _ H H' Hh Hh') as [-> ->]. assert (i = i') as -> by congruence.
  by eapply suffixOf_inj; [| |exact (ni_prefix _ _ _ I _ _ _ H)|].
Qed.

Lemma subAbove_ext t t' p e : (forall q, subsAt t' q = subsAt t q) -> subAbove t' p e <-> subAbove t p e.
Proof. intros H. unfold subAbove. by setoid_rewrite H. Qed.

Lemma routesAt_none t p : nodes t !! p = None -> routesAt t p = [].
Proof. intros H. unfold routesAt. by rewrite (view_none _ _ H). Qed.

(** A node without routes advertises nothing. *)
Lemma no_routes_no_adv t next told p : ns_inv t next told -> routesAt t p = [] -> advAt t p = ∅.
Proof.
  intros I Hr. apply map_eq. intros k. rewrite lookup_empty. destruct (advAt t p !! k) as [a|] eqn:Ha; [exfalso|done].
  destruct (ni_known _ _ _ I p k) as (e & He & Hh & Hk); [by rewrite Ha|].
  pose proof (ni_current _ _ _ I p e He Hh) as Hc. by rewrite Hk, Ha, Hr in Hc.
Qed.

(** ** The routes of one namespace change *)
Lemma ns_inv_change t next told p tf told' : ns_inv t next told -> tree_inv tf -> named tf ->
  (forall q, routes_ok negotiatedRelayHops (nextRouteSeq_ tf) (routesAt tf q)) -> Forall goodRoute (routesAt tf p) ->
  (forall q, subsAt tf q = subsAt t q) -> (forall q, q <> p -> routesAt tf q = routesAt t q) ->
  (forall q n, q <> p -> nodes tf !! q = Some n -> advertisements_ n = advAt t q) ->
  (forall e, subAbove t p e -> told_recorded told' (advAt tf p) p e /\ recorded_current (advAt tf p) (routesAt tf p) e) ->
  (forall k, is_Some (advAt tf p !! k) -> is_Some (advAt t p !! k) \/
     exists e, subAbove t p e /\ is_Some (si_namespacePublishHandle e.2) /\ advertisementKey e.1 e.2 = k) ->
  (forall h x, told' !! (h, x) = told !! (h, x) \/
     exists e, subAbove t p e /\ si_namespacePublishHandle e.2 = Some h /\ suffixOf p e.2 = x) ->
  ns_inv tf next told'.
Proof.
  intros I Ht Hnm Hro Hgd Hs Hr Ha Hp Hkn Htold.
  assert (Hadv : forall q, q <> p -> advAt tf q = advAt t q).
  { intros q Hq. destruct (nodes tf !! q) as [n|] eqn:En; [by rewrite (advAt_node _ _ _ En), (Ha _ _ Hq En)|].
    unfold advAt at 1. rewrite En. symmetry. apply (no_routes_no_adv _ _ _ _ I).
    rewrite <- (Hr q Hq). by apply routesAt_none. }
  split.
  - done.
  - done.
  - done.
  - intros q. destruct (decide (q = p)) as [->|Hq]; [done|]. rewrite Hr by done. apply (ni_good _ _ _ I).
  - intros q s i. rewrite Hs. apply (ni_prefix _ _ _ I).
  - intros q s i h. rewrite Hs. apply (ni_handles _ _ _ I).
  - intros q s i q' s' i' h. rewrite !Hs. apply (ni_unique _ _ _ I).
  - intros h x Hx. destruct (Htold h x) as [Heq|([s i] & (q & _ & He) & Hh & _)]; [|by eapply (ni_handles _ _ _ I)].
    rewrite Heq in Hx. by eapply (ni_told _ _ _ I).
  - intros q e He. rewrite subAbove_ext in He by done. destruct (decide (q = p)) as [->|Hq]; [by apply Hp|].
    intros h Hh. rewrite (Hadv q Hq). destruct (Htold h (suffixOf q e.2)) as [->|(e' & He' & Hh' & Hx)].
    + by apply (ni_recorded _ _ _ I).
    + destruct Hq. symmetry. by eapply (told_apart _ _ _ _ _ e' e).
  - intros q e He. rewrite subAbove_ext in He by done. destruct (decide (q = p)) as [->|Hq]; [by apply Hp|].
    rewrite (Hadv q Hq), (Hr q Hq). by apply (ni_current _ _ _ I).
  - intros q k Hk. setoid_rewrite subAbove_ext; [|done..]. destruct (decide (q = p)) as [->|Hq].
    + destruct (Hkn k Hk) as [Hold|?]; [by apply (ni_known _ _ _ I)|done].
    + rewrite (Hadv q Hq) in Hk. by apply (ni_known _ _ _ I).
Qed.

(** Nothing changes for namespaces and their subscribers. *)
Lemma ns_inv_same t next told tf : ns_inv t next told -> tree_inv tf -> kept t tf -> nextRouteSeq_ tf = nextRouteSeq_ t ->
  (forall q, routesAt tf q = routesAt t q) -> (forall q, subsAt tf q = subsAt t q) -> ns_inv tf next told.
Proof.
  intros I Ht K Hseq Hr Hs.
  assert (Hroot : advAt tf [] = advAt t []).
  { destruct (kept_adv _ _ [] K) as [?|Hno]; [done|]. destruct (co_root _ _ _ (proj1 Ht)). congruence. }
  eapply (ns_inv_change t next told []); try done.
  - apply K, I.
  - intros q. rewrite Hr, Hseq. apply I.
  - rewrite Hr. apply I.
  - intros q n _ Hn. by apply K.
  - intros e He. rewrite Hroot, Hr. split; [by apply I|by apply I].
  - intros k. rewrite Hroot. by left.
  - intros h x. by left.
Qed.

(** After [reconcileAll] over the subscribers of [p] on its node, in place or
    detached. *)
Section reconciling.
Context (t : NamespaceTree) (next : Z) (told : Told) (I : ns_inv t next told) (p : path).
Context (t' : NamespaceTree) (Ht' : tree_inv t') (K : kept t t')
  (Hro : forall q, routes_ok negotiatedRelayHops (nextRouteSeq_ t') (routesAt t' q)) (Hgd : Forall goodRoute (routesAt t' p))
  (Hs : forall q, subsAt t' q = subsAt t q) (Hr : forall q, q <> p -> routesAt t' q = routesAt t q).
Context (subs : SessionSubscriberList) (Hsubs : forall e, e ∈ subs <-> subAbove t p e).

Lemma reconcile_at n : trackNamespace_ n = rev p -> advertisements_ n = advAt t p -> routes_ n = routesAt t' p ->
  exists acts n', reconcileAll relayHopID_ subs n = Some (acts, n') /\ reconciled n p subs acts n' /\
    (forall e, subAbove t p e -> told_recorded (tell acts told) (advertisements_ n') p e /\
      recorded_current (advertisements_ n') (routesAt t' p) e) /\
    forall h x, tell acts told !! (h, x) = told !! (h, x) \/
      exists e, subAbove t p e /\ si_namespacePublishHandle e.2 = Some h /\ suffixOf p e.2 = x.
Proof using I Hgd Hsubs Hhop HL SL.
  intros Hname Hadv Hrn.
  destruct (reconcileAll_spec relayHopID_ Hhop p subs n told Hname) as (acts & n' & E1 & R & F).
  - by rewrite Hrn.
  - intros e1 e2 H1%Hsubs H2%Hsubs. by eapply subs_separate.
  - intros e He%Hsubs. rewrite Hadv. by apply I.
  - exists acts, n'. split; [done|]. split; [done|]. split.
    + intros e He%Hsubs. rewrite <- Hrn. by apply F.
    + intros h x. destruct (decide (Exists (fun e : Subscriber => si_namespacePublishHandle e.2 = Some h /\ suffixOf p e.2 = x) subs))
        as [(e & He%Hsubs & ? & ?)%Exists_exists|Hno].
      * right. by exists e.
      * left. apply (rc_told _ _ _ _ _ R). intros e He Hh Hx. apply Hno, Exists_exists. by exists e.
Qed.

(** The node is in the tree. *)
Lemma reconcile_present n : nodes t' !! p = Some n ->
  exists acts n', reconcileAll relayHopID_ subs n = Some (acts, n') /\ ns_inv (putNode p n' t') next (tell acts told).
Proof.
  intros Hn.
  assert (Hname : trackNamespace_ n = rev p) by (by apply K, Hn; apply I).
  assert (Hadv : advertisements_ n = advAt t p) by (by apply K).
  assert (Hrn : routes_ n = routesAt t' p) by (unfold routesAt; by rewrite (view_node _ _ _ Hn)).
  destruct (reconcile_at n Hname Hadv Hrn) as (acts & n' & E1 & R & F & T). exists acts, n'. split; [done|].
  pose proof (rc_node _ _ _ _ _ R) as Hn'.
  destruct (put_step p n n' (nextRouteSeq_ t') t' Ht' Hn) as [P1 P2].
  { by rewrite Hn'. } { by rewrite Hn'. } { rewrite Hn'. cbn. intros ty. by eapply (proj2 Ht'). }
  change (mkTree (<[p:=n']> (nodes t')) (nextRouteSeq_ t')) with (putNode p n' t') in P1, P2.
  assert (Hv : forall q, view (putNode p n' t') q = view t' q).
  { intros q. rewrite P2. destruct (decide (q = p)) as [->|]; [|done]. rewrite (view_node _ _ _ Hn), Hn'. done. }
  assert (Hl : advAt (putNode p n' t') p = advertisements_ n') by (apply advAt_node, lookup_insert_eq).
  eapply (ns_inv_change t next told p).
  - exact I.
  - done.
  - intros q m. cbn. rewrite lookup_insert_Some. intros [[<- <-]|[_ Hm]]; [by rewrite Hn'|]. by apply K, Hm; apply I.
  - intros q. unfold routesAt. rewrite Hv. apply Hro.
  - unfold routesAt. by rewrite Hv.
  - intros q. unfold subsAt. rewrite Hv. apply Hs.
  - intros q Hq. unfold routesAt. rewrite Hv. by apply Hr.
  - intros q m Hq. cbn. rewrite lookup_insert_ne by done. by apply K.
  - intros e He. rewrite Hl. unfold routesAt. rewrite Hv. by apply F.
  - intros k Hk. rewrite Hl in Hk. rewrite <- Hadv.
    destruct (decide (Exists (fun e : Subscriber => is_Some (si_namespacePublishHandle e.2) /\ advertisementKey e.1 e.2 = k) subs))
      as [(e & He%Hsubs & ? & ?)%Exists_exists|Hno].
    + right. by exists e.
    + left. rewrite <- (rc_advs _ _ _ _ _ R k); [done|]. intros e He Hh Hx. apply Hno, Exists_exists. by exists e.
  - exact T.
Qed.

(** The node was pruned: nothing is left of it. *)
Lemma reconcile_pruned before : nodes t !! p = Some before -> nodes t' !! p = None ->
  exists acts n', reconcileAll relayHopID_ subs (set_routes [] before) = Some (acts, n') /\ ns_inv t' next (tell acts told).
Proof.
  intros Hb Hno. pose proof (routesAt_none _ _ Hno) as Hrn.
  destruct (reconcile_at (set_routes [] before)) as (acts & n' & E1 & R & F & T).
  - cbn. by apply I.
  - cbn. by rewrite (advAt_node _ _ _ Hb).
  - by rewrite Hrn.
  - exists acts, n'. split; [done|]. assert (Hl : advAt t' p = ∅) by (unfold advAt; by rewrite Hno).
    eapply (ns_inv_change t next told p); try done.
    + apply K, I.
    + intros q n _. by apply K.
    + intros e He. rewrite Hl. destruct (F e He) as [F1 F2]. rewrite Hrn in F2 |- *.
      assert (Hnone : is_Some (si_namespacePublishHandle e.2) -> advertisements_ n' !! advertisementKey e.1 e.2 = None).
      { intros Hh. specialize (F2 Hh). rewrite routeFor_nil in F2. by destruct (advertisements_ n' !! _). }
      split; [|intros Hh; by rewrite lookup_empty]. intros h Hh. rewrite lookup_empty. rewrite (F1 h Hh). by rewrite Hnone by eauto.
    + intros k. rewrite Hl, lookup_empty. by intros [? ?].
Qed.
End reconciling.
End inv.
