(* ===== verification/RelayRoutes.v ===== *)
(** Announcements, their updates and withdrawals, on the relay's namespace state:
    no check fails, the invariant is kept, and the subscribers are told. *)

From S2P Require Import Prelude NamespaceTree NamespaceInv NamespaceSpec NamespaceRoutes NamespaceTheorems.
From S2P Require Import Location RelayNamespaces RelayTree RelayTold RelayInv.

Lemma clusterAddCost_u64 cost link : u64_ok cost -> u64_ok link -> u64_ok (clusterAddCost cost link).
Proof.
  unfold u64_ok, clusterAddCost, u64. intros H1 H2. destruct (Z.ltb_spec (u64_modulus - 1 - link) cost); [lia|].
  apply Z.mod_pos_bound. done.
Qed.
(** The sum saturates. *)
Lemma clusterAddCost_exact cost link : u64_ok cost -> u64_ok link ->
  clusterAddCost cost link = Z.min (cost + link) (u64_modulus - 1).
Proof.
  unfold u64_ok, clusterAddCost, u64. intros H1 H2. destruct (Z.ltb_spec (u64_modulus - 1 - link) cost); [lia|].
  rewrite Z.mod_small; lia.
Qed.

Section routes.
Context {SA : SessionApi} {SL : SessionLaws SA} {E : Type} {HC : HopCodec E} {hop_ok : Z -> Prop} {HL : HopCodecLaws HC hop_ok}.
Context (relayHopID_ : Z) (Hhop : hop_ok relayHopID_).

Abbreviation Told := (gmap (Z * list string) (RouteParams E)).
Abbreviation goodRoute := (goodRoute relayHopID_ (hop_ok := hop_ok)).
Abbreviation goodPath := (goodPath relayHopID_ (hop_ok := hop_ok)).
Abbreviation ns_inv := (ns_inv relayHopID_ (hop_ok := hop_ok)).

(** ** The inputs moxygen lets through

    A malformed HOP_PATH is rejected before the relay sees it; a cluster session
    announces with one, of at least one hop; other sessions send no cluster
    parameters; costs are 64-bit. *)
Definition params_ok (session : Session) (params : RouteParams E) : Prop :=
  (forall v e, getNegotiatedVersion session = Some v -> HOP_PATH params = Some e -> is_Some (decodeRelayHopPath e v)) /\
  (forall c, ROUTE_COST params = Some c -> u64_ok c).
Definition announcement_ok (session : Session) (params : RouteParams E) : Prop :=
  params_ok session params /\
  (negotiatedRelayHops session = true -> forall v, getNegotiatedVersion session = Some v ->
     exists e hops, HOP_PATH params = Some e /\ decodeRelayHopPath e v = Some hops /\ hops <> []).
Definition update_ok (sid : Z) (params : RouteParams E) : Prop :=
  forall s, sessionId s = sid -> params_ok s params /\
    (negotiatedRelayHops s = false -> HOP_PATH params = None /\ ROUTE_COST params = None).

Lemma anon_path_good : goodPath [kMoQClusterAnonHopId].
Proof.
  split; [apply Forall_singleton, (anon_hop_ok (HopCodecLaws := HL))|]. unfold clusterPathContains, kMoQClusterAnonHopId. cbn [existsb].
  rewrite orb_false_r, (Z.eqb_sym 0). by destruct (relayHopID_ =? 0).
Qed.

Lemma readClusterParams_ok session params v : params_ok session params -> getNegotiatedVersion session = Some v ->
  exists r, readClusterParams relayHopID_ params v (getRelayLinkCost session) = Some r /\
    match r with
    | None => True
    | Some p => goodPath (cp_path p) /\ (forall c, cp_cost p = Some c -> u64_ok c) /\
                (HOP_PATH params = None -> cp_path p = []) /\ (ROUTE_COST params = None -> cp_cost p = None) /\
                (forall e hops, HOP_PATH params = Some e -> decodeRelayHopPath e v = Some hops -> cp_path p = hops)
    end.
Proof.
  intros [H1 H2] Hv. unfold readClusterParams.
  assert (Hc : forall c, (fun c => clusterAddCost c (getRelayLinkCost session)) <$> ROUTE_COST params = Some c -> u64_ok c).
  { intros c. destruct (ROUTE_COST params) as [c0|] eqn:Ec; [|done]. intros [= <-].
    apply clusterAddCost_u64; [by apply H2|apply linkCost_u64]. }
  destruct (HOP_PATH params) as [e|] eqn:Ep.
  - destruct (H1 v e Hv eq_refl) as [hops Hd]. rewrite Hd. cbn [mbind option_bind].
    destruct (clusterPathContains hops relayHopID_) eqn:Eh; eexists; (split; [done|]); [done|]. cbn.
    split_and!; [split; [by eapply decode_hops|done]|done|done|by intros ->|intros e0 h0 [= <-] Hd0; congruence].
  - eexists. split; [done|]. cbn. split_and!; [|done|done|by intros ->|done]. split; [done|].
    unfold clusterPathContains. simpl. by rewrite andb_false_r.
Qed.

Lemma ingestRoute_ok pubNs session : announcement_ok session (pn_params pubNs) ->
  exists r, ingestRoute relayHopID_ pubNs session = Some r /\
    match r with
    | None => True
    | Some i => goodPath (ir_path i) /\ u64_ok (ir_cost i) /\ ir_fromCluster i = negotiatedRelayHops session
    end.
Proof.
  intros [Hp Hcl]. unfold ingestRoute. destruct (negotiatedRelayHops session) eqn:En; cbn [negb].
  - destruct (version_negotiated session) as [v Hv]. rewrite Hv. cbn [mbind option_bind].
    destruct (readClusterParams_ok session (pn_params pubNs) v Hp Hv) as (r & -> & Hr). cbn [mbind option_bind].
    destruct r as [r|]; [|by eexists]. destruct Hr as (H1 & H2 & _ & _ & H5).
    destruct (Hcl eq_refl v Hv) as (e & hops & Ee & Ed & Hne).
    rewrite bool_decide_eq_false_2 by (by rewrite (H5 e hops Ee Ed)). eexists. split; [done|]. cbn. split_and!; [done| |done].
    destruct (cp_cost r) as [c|]; cbn; [by apply H2|apply linkCost_u64].
  - eexists. split; [done|]. cbn. split_and!; [apply anon_path_good|apply linkCost_u64|done].
Qed.

(** ** Routes stay good *)
Definition route_op (op : NsOp) : Prop :=
  match op with
  | OpSetPublisher _ session _ _ _ hops cost fromCluster =>
      goodPath hops /\ u64_ok cost /\ fromCluster = negotiatedRelayHops session
  | OpUpdateRoute _ _ _ hops cost => goodPath hops /\ u64_ok cost
  | OpUnpublishNamespace _ _ _ => True
  | _ => False
  end.

Lemma Forall_List_filter {A} (P : A -> Prop) f l : Forall P l -> Forall P (List.filter f l).
Proof. induction 1; simpl; [done|]. destruct (f _); [by constructor|done]. Qed.
Lemma Forall_revise (P : Route -> Prop) (c : Route -> bool) g l : Forall P l -> (forall r, P (g r)) ->
  Forall P (map (fun r => if c r then g r else r) l).
Proof. intros Hl Hg. induction Hl; simpl; [done|]. constructor; [|done]. by destruct (c _). Qed.
Lemma revised_good hops cost seq r : goodPath hops -> u64_ok cost -> goodRoute (revised hops cost seq r).
Proof. intros H1 H2. unfold revised, reviseRoute. by destruct (negb _). Qed.

Lemma abs_content_good op c seq : route_op op -> Forall goodRoute c.1.1 ->
  Forall goodRoute (abs_content sessionId op c seq).1.1.1 /\ (abs_content sessionId op c seq).1.2 = c.2.
Proof.
  destruct c as [[rs ps] ss]. cbn [fst snd]. intros Hop Hg. destruct op; cbn in Hop; try done; unfold abs_content.
  - destruct Hop as (H1 & H2 & _). unfold announce. destruct (fromCluster && _ && _); cbn; (split; [|done]).
    + apply Forall_revise; [done|]. intros r. by apply revised_good.
    + apply Forall_app_2; [by apply Forall_List_filter|]. by apply Forall_singleton.
  - destruct Hop as [H1 H2]. cbn. split; [|done]. apply Forall_revise; [done|]. intros r. by apply revised_good.
  - cbn. split; [|done]. by apply Forall_List_filter.
Qed.

(** What the reconciliation of a changed namespace starts from. *)
Lemma stepped_routes op t next told t' : ns_inv t next told -> route_op op ->
  let c := abs_content sessionId op (view t (rev (op_ns op))) (nextRouteSeq_ t) in
  stepped (rev (op_ns op)) c.1 c.2 t t' ->
  (forall q, routes_ok negotiatedRelayHops (nextRouteSeq_ t') (routesAt t' q)) /\
  Forall goodRoute (routesAt t' (rev (op_ns op))) /\ (forall q, subsAt t' q = subsAt t q) /\
  (forall q, q <> rev (op_ns op) -> routesAt t' q = routesAt t q).
Proof.
  intros I Hop c (_ & Hseq & Hv). set (p := rev (op_ns op)) in *.
  destruct (abs_content_good op (view t p) (nextRouteSeq_ t) Hop (ni_good _ _ _ _ I p)) as [Hg Hs].
  pose proof (abs_content_ok sessionId negotiatedRelayHops op (view t p) (nextRouteSeq_ t) sessionId_inj) as Hro.
  destruct (abs_content sessionId op (view t p) (nextRouteSeq_ t)) as [c1 c2]. subst c. cbn [fst snd] in *.
  destruct Hro as [Hro Hle]; [by destruct op; cbn in Hop |- *; try apply Hop|apply (ni_routes _ _ _ _ I)|].
  unfold routesAt, subsAt. split_and!.
  - intros q. rewrite Hv, Hseq. destruct (decide _) as [->|]; [done|]. eapply routes_ok_mono; [apply (ni_routes _ _ _ _ I)|done].
  - rewrite Hv. by rewrite decide_True.
  - intros q. rewrite Hv. destruct (decide _) as [->|]; [done|done].
  - intros q Hq. rewrite Hv. by rewrite decide_False.
Qed.

(** ** The handlers *)
(** The rest of the relay's state is untouched. *)
Definition same_rest (s s' : RelayNs) : Prop := tracksTree_ s' = tracksTree_ s /\ peerSubNsHandles_ s' = peerSubNsHandles_ s.

Lemma doPublishNamespaceDone_ok ns sid requestID s next told : ns_inv (namespaceTree_ s) next told ->
  exists acts s', doPublishNamespaceDone relayHopID_ ns sid requestID s = Some (acts, s') /\
    ns_inv (namespaceTree_ s') next (tell acts told) /\ same_rest s s'.
Proof.
  intros I. unfold doPublishNamespaceDone. set (t := namespaceTree_ s) in *.
  destruct (unpublishNamespace_step sessionId negotiatedRelayHops sessionId_inj ns sid requestID t (ni_tree _ _ _ _ I)
    (ni_routes _ _ _ _ I _)) as (r & Hr & Hst). rewrite Hr. cbn [mbind option_bind].
  destruct r as [[[[p subs] removed] t']|]; [|by exists [], s].
  destruct (unpublishNamespace_changed sessionId _ _ _ _ _ _ _ _ (ni_tree _ _ _ _ I) Hr) as [[-> Hsubs K] [before Hb]].
  pose proof (stepped_routes (OpUnpublishNamespace ns sid requestID) t next told t' I Logic.I Hst) as (Hro & Hgd & Hs & Hrt).
  assert (Ht' : tree_inv t') by apply Hst. cbn [op_ns] in *.
  destruct (nodes t' !! rev ns) as [n|] eqn:Hn.
  - destruct (reconcile_present relayHopID_ Hhop t next told I (rev ns) t' Ht' K Hro Hgd Hs Hrt subs Hsubs n Hn)
      as (acts & n' & -> & I'). cbn [mbind option_bind]. by eexists _, _.
  - rewrite Hb. cbn [mbind option_bind].
    destruct (reconcile_pruned relayHopID_ Hhop t next told I (rev ns) t' Ht' K Hro Hgd Hs Hrt subs Hsubs before Hb Hn)
      as (acts & n' & -> & I'). cbn [mbind option_bind]. by eexists _, _.
Qed.

Lemma tell_other told (acts : list (RelayAct E)) :
  Forall (fun a => match a with NamespaceMsg _ _ _ | NamespaceDoneMsg _ _ => False | _ => True end) acts -> tell acts told = told.
Proof. induction 1 as [|a acts Ha _ IH]; [done|]. destruct a; done. Qed.

(** A route announced or updated at a namespace that then has routes. *)
Lemma routeChanged_ok op r t' s next told : ns_inv (namespaceTree_ s) next told -> route_op op ->
  changed (op_ns op) (namespaceTree_ s) (sp_node r) (sp_subscribers r) t' ->
  (let c := abs_content sessionId op (view (namespaceTree_ s) (rev (op_ns op))) (nextRouteSeq_ (namespaceTree_ s)) in
   stepped (rev (op_ns op)) c.1 c.2 (namespaceTree_ s) t') -> routesAt t' (rev (op_ns op)) <> [] ->
  exists acts s', routeChanged relayHopID_ (op_ns op) r t' s = Some (acts, s') /\
    ns_inv (namespaceTree_ s') next (tell acts told) /\ same_rest s s'.
Proof.
  intros I Hop [Hp Hsubs K] Hst Hne. unfold routeChanged. rewrite Hp.
  pose proof (stepped_routes op _ next told t' I Hop Hst) as (Hro & Hgd & Hs & Hrt).
  assert (Ht' : tree_inv t') by apply Hst.
  destruct (nodes t' !! rev (op_ns op)) as [n|] eqn:Hn; [|by apply routesAt_none in Hn].
  cbn [mbind option_bind]. rewrite Hp in Hsubs.
  destruct (reconcile_present relayHopID_ Hhop _ next told I _ t' Ht' K Hro Hgd Hs Hrt _ Hsubs n Hn)
    as (acts & n' & -> & I'). cbn [mbind option_bind]. eexists _, _. split; [done|]. split; [|done].
  rewrite tell_app, (tell_other told); [done|]. by destruct (sp_replacedSession r); repeat constructor.
Qed.

Lemma announce_nonempty session callback peerID requestID hops cost fromCluster rs seq :
  (announce session callback peerID requestID hops cost fromCluster rs seq).1 <> [].
Proof.
  unfold announce. destruct (fromCluster && _ && _) eqn:E1; cbn [fst].
  - intros H%map_eq_nil. subst rs. cbn in E1. by rewrite andb_false_r in E1.
  - intros [_ [=]]%app_eq_nil.
Qed.

Lemma doPublishNamespace_ok allowed pubNs session callback peerID s next told : ns_inv (namespaceTree_ s) next told ->
  announcement_ok session (pn_params pubNs) ->
  exists r acts s', doPublishNamespace relayHopID_ allowed pubNs session callback peerID s = Some (r, acts, s') /\
    ns_inv (namespaceTree_ s') next (tell acts told) /\ same_rest s s'.
Proof.
  intros I Hok. unfold doPublishNamespace. destruct (ingestRoute_ok pubNs session Hok) as (r & -> & Hr). cbn [mbind option_bind].
  destruct r as [route|].
  2:{ destruct callback; [by eexists _, [], s|].
      destruct (doPublishNamespaceDone_ok (pn_trackNamespace pubNs) (sessionId session) None s next told I) as (acts & s' & -> & H).
      cbn [mbind option_bind]. by eexists _, _, _. }
  destruct (negb _); [by eexists _, [], s|]. destruct Hr as (H1 & H2 & H3).
  set (op := OpSetPublisher (pn_trackNamespace pubNs) session callback peerID (pn_requestID pubNs) (ir_path route)
    (ir_cost route) (ir_fromCluster route)).
  destruct (abs_content sessionId op (view (namespaceTree_ s) (rev (op_ns op))) (nextRouteSeq_ (namespaceTree_ s))) as [c seq'] eqn:Ec.
  destruct (setPublisher_step sessionId negotiatedRelayHops _ _ _ _ _ _ _ _ _ c seq' (ni_tree _ _ _ _ I) (ni_routes _ _ _ _ I _) H3 Ec)
    as (res & t' & Hset & Hst). rewrite Hset. cbn [mbind option_bind].
  destruct (routeChanged_ok op res t' s next told I) as (acts & s' & Hrc & I' & Hrest).
  - done.
  - exact (setPublisher_changed _ _ _ _ _ _ _ _ _ _ _ (ni_tree _ _ _ _ I) Hset).
  - cbv zeta. by rewrite Ec.
  - destruct Hst as (_ & _ & Hv). unfold routesAt. rewrite Hv, decide_True by done. unfold abs_content, op in Ec.
    destruct (view _ _) as [[rs ps] ss]. destruct (announce _ _ _ _ _ _ _ _ _) as [rs' s1] eqn:Ea.
    injection Ec as <- _. cbn [fst]. pose proof (announce_nonempty session callback peerID (pn_requestID pubNs) (ir_path route)
      (ir_cost route) (ir_fromCluster route) rs (nextRouteSeq_ (namespaceTree_ s))) as Hne. by rewrite Ea in Hne.
  - change (op_ns op) with (pn_trackNamespace pubNs) in Hrc. rewrite Hrc. cbn [mbind option_bind]. eexists _, _, _. split; [done|]. split; [|done].
    rewrite !tell_app. rewrite (tell_other told) by (by destruct (sp_cancelled res); repeat constructor). done.
Qed.

(** The route that was found is the one that is updated. *)
Lemma updateRoute_found ns sid requestID hops cost t r res : tree_ok t ->
  (p ← (findNode ns false t).1.1; n ← nodes t !! p; findRoute sessionId sid n) = Some r -> r_requestID r = requestID ->
  updateRoute sessionId ns sid requestID hops cost t = Some res ->
  sessionId (r_session r) = sid /\ In r (routesAt t (rev ns)) /\ exists x, res = Ok x.
Proof.
  intros Hok. unfold updateRoute. destruct (findNode ns false t) as [[[p|] subs] t1] eqn:Hf; [|done]. cbn [fst mbind option_bind].
  pose proof (findNode_subs _ _ _ _ _ _ Hok Hf) as (-> & _).
  destruct (nodes t !! rev ns) as [n|] eqn:Hn; [|done]. cbn [mbind option_bind].
  intros Hfind Hreq. unfold findRoute in Hfind. apply List.find_some in Hfind as [Hin Hsid].
  intros Hu. split; [lia|]. split; [unfold routesAt; by rewrite (view_node _ _ _ Hn)|].
  destruct (list_find _ (routes_ n)) as [[i e]|] eqn:El.
  - destruct (reviseRoute _ _ _ _) as [[? ?] ?]. injection Hu as <-. eauto.
  - apply list_find_None in El. rewrite Forall_forall in El. destruct (El r); [by apply list_elem_of_In|].
    rewrite Hsid, Hreq, Z.eqb_refl. done.
Qed.

Lemma updatePublishNamespace_ok ns sid requestID update s next told : ns_inv (namespaceTree_ s) next told ->
  update_ok sid update ->
  exists r acts s', updatePublishNamespace relayHopID_ ns sid requestID update s = Some (r, acts, s') /\
    ns_inv (namespaceTree_ s') next (tell acts told) /\ same_rest s s'.
Proof.
  intros I Hup. unfold updatePublishNamespace. set (t := namespaceTree_ s) in *.
  destruct (p ← (findNode ns false t).1.1; n ← nodes t !! p; findRoute sessionId sid n) as [r|] eqn:Hfind; [|by eexists _, [], s].
  destruct (Z.eqb_spec (r_requestID r) requestID) as [Hreq|]; cbn [negb]; [|by eexists _, [], s].
  assert (Hfound : forall hops cost, exists res t', updateRoute sessionId ns sid requestID hops cost t = Some (Ok (res, t')) /\
    sessionId (r_session r) = sid /\ In r (routesAt t (rev ns)) /\
    let c := abs_content sessionId (OpUpdateRoute ns sid requestID hops cost) (view t (rev ns)) (nextRouteSeq_ t) in
    stepped (rev ns) c.1 c.2 t t').
  { intros hops cost.
    destruct (updateRoute_step sessionId negotiatedRelayHops sessionId_inj ns sid requestID hops cost t _ _
      (ni_tree _ _ _ _ I) (ni_routes _ _ _ _ I _) (surjective_pairing _)) as (res & Hu & Hst).
    destruct (updateRoute_found _ _ _ _ _ _ _ _ (proj1 (ni_tree _ _ _ _ I)) Hfind Hreq Hu) as (Hsid & Hin & [x ->]).
    destruct x as [res t']. exists res, t'. done. }
  destruct (Hfound [] 0) as (_ & _ & _ & Hsid & Hin & _). destruct (Hup (r_session r) Hsid) as [Hpar Hnone].
  destruct (ro_each _ _ _ (ni_routes _ _ _ _ I (rev ns)) r Hin) as [Hcl _].
  pose proof (ni_good _ _ _ _ I (rev ns)) as Hall. rewrite Forall_forall in Hall.
  destruct (Hall r) as [Hgp Hgc]; [by apply list_elem_of_In|].
  destruct (version_negotiated (r_session r)) as [v Hv]. rewrite Hv. cbn [mbind option_bind].
  destruct (readClusterParams_ok (r_session r) update v Hpar Hv) as (params & -> & Hps). cbn [mbind option_bind].
  destruct params as [params|].
  2:{ destruct (doPublishNamespaceDone_ok ns sid (Some requestID) s next told I) as (acts & s' & -> & H).
      cbn [mbind option_bind]. by eexists _, _, _. }
  destruct Hps as (G1 & G2 & G3 & G4 & _).
  assert (Hchk : r_fromCluster r || (bool_decide (cp_path params = []) && bool_decide (cp_cost params = None)) = true).
  { rewrite Hcl. destruct (negotiatedRelayHops (r_session r)) eqn:En; [done|]. destruct (Hnone eq_refl) as [E1 E2].
    rewrite (G3 E1), (G4 E2). done. }
  rewrite Hchk. cbn [negb].
  set (hops := if bool_decide _ then _ else _). set (cost := default _ _).
  destruct (Hfound hops cost) as (res & t' & Hu & _ & _ & Hst). rewrite Hu. cbn [mbind option_bind].
  destruct (routeChanged_ok (OpUpdateRoute ns sid requestID hops cost) res t' s next told I) as (acts & s' & Hrc & H).
  - cbn. split; [unfold hops; by destruct (bool_decide _)|]. unfold cost. destruct (cp_cost params); [by apply G2|done].
  - exact (updateRoute_changed _ _ _ _ _ _ _ _ _ (ni_tree _ _ _ _ I) Hu).
  - exact Hst.
  - destruct Hst as (_ & _ & Hv'). unfold routesAt in Hin |- *. cbn [op_ns]. rewrite Hv', decide_True by done.
    unfold abs_content. destruct (view t (rev ns)) as [[rs ps] ss]. cbn in Hin |- *. intros Hm%map_eq_nil. by subst rs.
  - cbn [op_ns] in Hrc. rewrite Hrc. cbn [mbind option_bind]. by eexists _, _, _.
Qed.
End routes.
