(* ===== verification/RelaySubscribe.v ===== *)
(** SUBSCRIBE_NAMESPACE and its end on the relay's namespace state: the matches
    that are collected, the limit on their number, and that the new subscriber is
    told of every namespace it may use. *)

From S2P Require Import Prelude NamespaceTree NamespaceInv NamespaceSpec NamespaceRoutes NamespaceTheorems.
From S2P Require Import Location RelayNamespaces RelayTree RelayTold RelayInv RelayRoutes.

(** ** Folds that stop at a limit

    [g'] is [g] until the limit is passed, and does nothing from there on. *)
Section limited_fold.
Context {S X : Type} (over : S -> bool).

Definition limits (g' g : S -> X -> S) : Prop := forall m x,
  (over m = true -> g' m x = m /\ over (g m x) = true) /\
  (over m = false -> over (g' m x) = over (g m x) /\ (over (g' m x) = false -> g' m x = g m x)).

Lemma limits_fold g' g l : limits g' g -> forall m,
  (over m = true -> fold_left g' l m = m /\ over (fold_left g l m) = true) /\
  (over m = false -> over (fold_left g' l m) = over (fold_left g l m) /\
     (over (fold_left g' l m) = false -> fold_left g' l m = fold_left g l m)).
Proof.
  intros H. induction l as [|x l IH]; intros m; cbn [fold_left]; [split; [done|done]|].
  destruct (H m x) as [H1 H2]. split.
  - intros Hm. destruct (H1 Hm) as [-> H1']. split; [by apply IH|by apply IH].
  - intros Hm. destruct (H2 Hm) as [H3 H4]. destruct (over (g' m x)) eqn:E1.
    + destruct (IH (g' m x)) as [IH1 _], (IH (g m x)) as [IH2 _]. destruct (IH1 E1) as [-> _].
      destruct (IH2 (eq_sym H3)) as [_ ->]. by rewrite E1.
    + rewrite (H4 eq_refl). apply IH. by rewrite <- H3.
Qed.
End limited_fold.

Section limit.
Context (collectTracks countTracks : bool) (leftOut : Session -> bool) (getForwarderRef : FullTrackName -> option Z).
Abbreviation over := (overLimit true).

Lemma collectPublish_limits ns :
  limits over (collectPublish true countTracks leftOut getForwarderRef ns)
    (collectPublish false countTracks leftOut getForwarderRef ns).
Proof.
  intros m publish. unfold collectPublish. cbn [overLimit andb]. split; intros Hm; rewrite Hm; [|done].
  split; [done|]. unfold overLimit in Hm |- *. cbn [andb] in Hm |- *. destruct (leftOut _); [done|].
  apply Z.ltb_lt in Hm. apply Z.ltb_lt.
  unfold countMatches, kMaxNamespaceMatches in *. destruct countTracks; cbn [namespaceMatches trackMatches trackCount]; [lia|].
  destruct (getForwarderRef _); cbn [namespaceMatches trackMatches trackCount]; rewrite ?length_app, ?Nat2Z.inj_add; cbn [length]; lia.
Qed.

Lemma collectNode_limits advertisable t :
  limits over (collectNode true collectTracks countTracks leftOut getForwarderRef advertisable t)
    (collectNode false collectTracks countTracks leftOut getForwarderRef advertisable t).
Proof.
  intros m p. unfold collectNode. destruct (nodes t !! p) as [n|]; [|done].
  change (overLimit false m) with false. cbv iota.
  set (m1 := if advertisable n then _ else _).
  assert (Hge : countMatches m <= countMatches m1).
  { subst m1. destruct (advertisable n); unfold countMatches; cbn [namespaceMatches trackMatches trackCount];
      rewrite ?length_app, ?Nat2Z.inj_add; cbn [length]; lia. }
  pose proof (limits_fold over _ _ (map_to_list (publishes_ n)) (collectPublish_limits (rev p)) m1) as [L1 L2].
  split; intros Hm; rewrite Hm.
  - split; [done|]. assert (Hm1 : over m1 = true).
    { unfold overLimit in Hm |- *. cbn [andb] in Hm |- *. apply Z.ltb_lt in Hm. apply Z.ltb_lt. lia. }
    destruct (_ && _); [done|by apply L1].
  - destruct (_ && _); [done|].
    destruct (over m1) eqn:E1; [|by apply L2]. destruct (L1 eq_refl) as [-> ->]. by rewrite E1.
Qed.

(** Stopping at the limit does not change the answer: the prefix is refused if
    all its matches are too many, and otherwise all of them are collected. *)
Lemma collectMatches_limit advertisable prefix t :
  let limited := collectMatches true collectTracks countTracks leftOut getForwarderRef advertisable prefix t in
  let all := collectMatches false collectTracks countTracks leftOut getForwarderRef advertisable prefix t in
  overLimit true limited = (kMaxNamespaceMatches <? countMatches all) /\
  (overLimit true limited = false -> limited = all).
Proof.
  unfold collectMatches. destruct (findNode prefix false t) as [[[anchor|] ?] ?]; cbn [fst]; [|done].
  destruct (limits_fold over _ _ (forEachNodeInSubtree anchor t) (collectNode_limits advertisable t) noMatches) as [_ H].
  by apply H.
Qed.

(** The nodes collected. *)
Lemma collectPublish_nodes en ns m publish :
  namespaceMatches (collectPublish en countTracks leftOut getForwarderRef ns m publish) = namespaceMatches m.
Proof.
  unfold collectPublish. destruct (overLimit _ _); [done|]. destruct (leftOut _); [done|].
  destruct countTracks; [done|]. by destruct (getForwarderRef _).
Qed.

Lemma collectNode_nodes advertisable t m p :
  namespaceMatches (collectNode false collectTracks countTracks leftOut getForwarderRef advertisable t m p) =
  namespaceMatches m ++ match nodes t !! p with Some n => if advertisable n then [p] else [] | None => [] end.
Proof.
  unfold collectNode. destruct (nodes t !! p) as [n|]; [|by rewrite app_nil_r]. cbn [overLimit andb].
  assert (Hf : forall l m, namespaceMatches (fold_left (collectPublish false countTracks leftOut getForwarderRef (rev p)) l m) = namespaceMatches m).
  { induction l as [|x l IH]; intros m'; cbn [fold_left]; [done|]. by rewrite IH, collectPublish_nodes. }
  destruct (negb _ && _); [|rewrite Hf]; destruct (advertisable n); by rewrite ?app_nil_r.
Qed.

Lemma collectMatches_nodes en advertisable prefix t p : tree_ok t ->
  let m := collectMatches en collectTracks countTracks leftOut getForwarderRef advertisable prefix t in
  overLimit en m = false ->
  NoDup (namespaceMatches m) /\
  (p ∈ namespaceMatches m <-> rev prefix `suffix_of` p /\ exists n, nodes t !! p = Some n /\ advertisable n = true).
Proof.
  intros Hok m Hov.
  assert (Hm : m = collectMatches false collectTracks countTracks leftOut getForwarderRef advertisable prefix t).
  { subst m. destruct en; [|done]. by apply collectMatches_limit. }
  rewrite Hm. unfold collectMatches. destruct (findNode_find prefix t Hok) as [subs ->].
  destruct (nodes t !! rev prefix) as [n0|] eqn:Hn; cbn [fst].
  2:{ split; [constructor|]. split; [by intros []%not_elem_of_nil|]. intros (Hs & n & Hp & _).
      destruct (closed_suffix t p (rev prefix) Hok) as [? ?]; [eauto|done|congruence]. }
  destruct (forEachNodeInSubtree_exact t (rev prefix) Hok) as [Hnd Hel]; [eauto|].
  assert (Hf : forall l m, namespaceMatches (fold_left (collectNode false collectTracks countTracks leftOut getForwarderRef advertisable t) l m) =
    namespaceMatches m ++ List.filter (fun p => match nodes t !! p with Some n => advertisable n | None => false end) l).
  { induction l as [|x l IH]; intros m'; cbn [fold_left List.filter]; [by rewrite app_nil_r|].
    rewrite IH, collectNode_nodes, <- app_assoc. f_equal. destruct (nodes t !! x) as [y|]; [|done]. by destruct (advertisable y). }
  rewrite Hf. cbn [namespaceMatches noMatches app]. split.
  - revert Hnd. generalize (forEachNodeInSubtree (rev prefix) t). intros l. induction 1 as [|x l Hx Hl IH]; cbn [List.filter]; [constructor|].
    destruct (match nodes t !! x with Some _ => _ | None => _ end); [|done]. constructor; [|done].
    rewrite list_elem_of_In, filter_In, <- list_elem_of_In. by intros [? _].
  - rewrite list_elem_of_In, filter_In, <- list_elem_of_In, Hel. split.
    + intros [[Hs _] Ha]. split; [done|]. destruct (nodes t !! p) as [n|]; [by exists n|done].
    + intros (Hs & n & -> & Ha). split; [split; [done|eauto]|done].
Qed.
End limit.

Section subscribe.
Context {SA : SessionApi} {SL : SessionLaws SA} {E : Type} {HC : HopCodec E} {hop_ok : Z -> Prop} {HL : HopCodecLaws HC hop_ok}.
Context (relayHopID_ : Z) (Hhop : hop_ok relayHopID_).

Abbreviation Told := (gmap (Z * list string) (RouteParams E)).
Abbreviation Subscriber := (Session * NamespaceSubscriberInfo)%type.
Abbreviation goodRoute := (goodRoute relayHopID_ (hop_ok := hop_ok)).
Abbreviation ns_inv := (ns_inv relayHopID_ (hop_ok := hop_ok)).
Abbreviation told_recorded := (told_recorded relayHopID_).
Abbreviation recorded_current := (recorded_current relayHopID_).

(** ** The act phase *)
Record nodes_reconciled (t : NamespaceTree) (told : Told) (e : Subscriber) (L : list path) (t' : NamespaceTree) (told' : Told) : Prop := {
  nr_tree : tree_inv t';
  nr_named : named t';
  nr_seq : nextRouteSeq_ t' = nextRouteSeq_ t;
  nr_view q : view t' q = view t q;
  nr_key q k : (is_Some (si_namespacePublishHandle e.2) -> k <> advertisementKey e.1 e.2) -> advAt t' q !! k = advAt t q !! k;
  nr_out q : q ∉ L -> advAt t' q = advAt t q;
  nr_told h x : si_namespacePublishHandle e.2 <> Some h -> told' !! (h, x) = told !! (h, x);
  nr_sfx h x : (forall q, q ∈ L -> suffixOf q e.2 <> x) -> told' !! (h, x) = told !! (h, x);
  nr_in q : q ∈ L -> told_recorded told' (advAt t' q) q e /\ recorded_current (advAt t' q) (routesAt t q) e;
}.

Lemma reconcileNodes_spec (e : Subscriber) q0 : si_trackNamespacePrefix e.2 = rev q0 ->
  forall L t told, tree_inv t -> named t -> (forall q, Forall goodRoute (routesAt t q)) -> NoDup L ->
  (forall q, q ∈ L -> q0 `suffix_of` q /\ is_Some (nodes t !! q) /\ told_recorded told (advAt t q) q e) ->
  exists acts t', reconcileNodes relayHopID_ L e.1 e.2 t = Some (acts, t') /\ nodes_reconciled t told e L t' (tell acts told).
Proof.
  intros Hpre. induction L as [|p L IH]; intros t told Ht Hnm Hgd Hnd HL'.
  { exists [], t. split; [done|]. by split; [..|intros q []%not_elem_of_nil]. }
  apply NoDup_cons in Hnd as [HpL Hnd]. destruct (HL' p) as (Hq0 & [n Hn] & Hrec); [by left|].
  rewrite (advAt_node _ _ _ Hn) in Hrec.
  assert (Hrt : routes_ n = routesAt t p) by (unfold routesAt; by rewrite (view_node _ _ _ Hn)).
  destruct (reconcileAdvertisement_spec relayHopID_ Hhop n p e (Hnm _ _ Hn)) as (acts1 & n1 & E1 & R & F); [by rewrite Hrt|].
  destruct (F told Hrec) as [F1 F2]. pose proof (rc_node _ _ _ _ _ R) as Hn1.
  destruct (put_step p n n1 (nextRouteSeq_ t) t Ht Hn) as [P1 P2].
  { by rewrite Hn1. } { by rewrite Hn1. } { rewrite Hn1. cbn. intros ty. by eapply (proj2 Ht). }
  change (mkTree (<[p:=n1]> (nodes t)) (nextRouteSeq_ t)) with (putNode p n1 t) in P1, P2.
  set (t1 := putNode p n1 t) in *.
  assert (Hv : forall q, view t1 q = view t q).
  { intros q. rewrite P2. destruct (decide (q = p)) as [->|]; [|done]. rewrite (view_node _ _ _ Hn), Hn1. done. }
  assert (Ha : advAt t1 p = advertisements_ n1) by (apply advAt_node, lookup_insert_eq).
  assert (Ha' : forall q, q <> p -> advAt t1 q = advAt t q) by (intros q Hq; unfold advAt, t1; cbn; by rewrite lookup_insert_ne).
  assert (Htold1 : forall h x, suffixOf p e.2 <> x -> tell acts1 told !! (h, x) = told !! (h, x)).
  { intros h x Hx. apply (rc_told _ _ _ _ _ R). by intros e' ->%list_elem_of_singleton _. }
  assert (Hne : forall q, q ∈ L -> suffixOf p e.2 <> suffixOf q e.2).
  { intros q Hq Heq. apply HpL. replace p with q; [done|]. symmetry. eapply (suffixOf_inj q0); [done| |done|done]. apply HL'. by right. }
  destruct (IH t1 (tell acts1 told) P1) as (acts2 & t2 & E2 & N).
  - intros q m. cbn. rewrite lookup_insert_Some. intros [[<- <-]|[_ Hm]]; [rewrite Hn1; exact (Hnm _ _ Hn)|by apply Hnm].
  - intros q. unfold routesAt. rewrite Hv. apply Hgd.
  - done.
  - intros q Hq. assert (q <> p) by congruence. destruct (HL' q) as (A1 & A2 & A3); [by right|]. split_and!; [done| |].
    + unfold t1. cbn. by rewrite lookup_insert_ne.
    + rewrite Ha' by done. intros h Hh. rewrite Htold1 by (by apply Hne). by apply A3.
  - exists (acts1 ++ acts2), t2. cbn [reconcileNodes]. rewrite Hn. cbn [mbind option_bind]. rewrite E1. cbn [mbind option_bind].
    fold t1. rewrite E2. split; [done|]. rewrite tell_app. destruct N as [N1 N2 N3 N4 N5 N6 N7 N8 N9].
    split; [done|done|by rewrite N3|intros q; by rewrite N4| | | | |].
    + intros q k Hk. rewrite N5 by done. destruct (decide (q = p)) as [->|Hq]; [|by rewrite Ha'].
      rewrite Ha, (advAt_node _ _ _ Hn). apply (rc_advs _ _ _ _ _ R). intros e' ->%list_elem_of_singleton Hhd <-. by apply Hk.
    + intros q [? ?]%not_elem_of_cons. rewrite N6 by done. by apply Ha'.
    + intros h x Hh. rewrite N7 by done. apply (rc_told _ _ _ _ _ R). by intros e' ->%list_elem_of_singleton ?.
    + intros h x Hx. rewrite N8, Htold1; [done| |]; [apply Hx; by left|]. intros q Hq. apply Hx. by right.
    + intros q [->|Hq]%elem_of_cons; [|specialize (N9 q Hq); unfold routesAt in N9 |- *; by rewrite Hv in N9].
      rewrite N6, Ha, <- Hrt by done. split; [|done]. intros h Hh. rewrite N8; [by apply F1|]. intros q Hq Heq. by eapply Hne.
Qed.

(** What is pruned had nothing recorded. *)
Lemma kept_same_adv t next told t1 q : ns_inv t next told -> kept t t1 -> routesAt t1 q = routesAt t q -> advAt t1 q = advAt t q.
Proof.
  intros I K Hr. destruct (kept_adv _ _ q K) as [?|Hno]; [done|]. unfold advAt at 1. rewrite Hno. symmetry.
  apply (no_routes_no_adv _ _ _ _ _ I). rewrite <- Hr. by apply routesAt_none.
Qed.

(** ** A new subscriber *)
Section added.
Context (t : NamespaceTree) (next : Z) (told : Told) (I : ns_inv t next told).
Context (q0 : path) (s : Session) (i : NamespaceSubscriberInfo) (Hnew : subsAt t q0 !! s = None)
  (Hpre : si_trackNamespacePrefix i = rev q0) (Hh : forall h, si_namespacePublishHandle i = Some h -> h = next).

(** No record of it is left from before. *)
Lemma new_key_fresh q e : q0 `suffix_of` q -> subAbove t q e -> advertisementKey e.1 e.2 <> advertisementKey s i.
Proof.
  intros Hq (q' & Hq' & He) Hk. unfold advertisementKey in Hk.
  rewrite (ni_prefix _ _ _ _ I _ _ _ He), Hpre, !length_rev in Hk. injection Hk as Hs%(inj sessionId) Hlen.
  assert (q' = q0) as -> by (apply (suffix_same_length _ _ q); [done|done|lia]). congruence.
Qed.

Lemma new_not_recorded q : q0 `suffix_of` q -> advAt t q !! advertisementKey s i = None.
Proof.
  intros Hq. destruct (advAt t q !! _) as [a|] eqn:Ea; [|done].
  destruct (ni_known _ _ _ _ I q (advertisementKey s i)) as (e & He & _ & Hk); [by rewrite Ea|].
  by destruct (new_key_fresh q e Hq He).
Qed.

Lemma new_not_told h x : si_namespacePublishHandle i = Some h -> told !! (h, x) = None.
Proof.
  intros ->%Hh. destruct (told !! (next, x)) eqn:Et; [|done].
  pose proof (ni_told _ _ _ _ I next x ltac:(by rewrite Et)). lia.
Qed.

(** The tree with the subscriber, before it is told anything. *)
Context (t1 : NamespaceTree) (Ht1 : tree_inv t1) (K : kept t t1) (Hseq : nextRouteSeq_ t1 = nextRouteSeq_ t)
  (Hr : forall q, routesAt t1 q = routesAt t q)
  (Hs : forall q, subsAt t1 q = if decide (q = q0) then <[s:=i]> (subsAt t q0) else subsAt t q).

Lemma added_adv q : advAt t1 q = advAt t q.
Proof. by eapply kept_same_adv. Qed.

Lemma added_subs q s' i' : subsAt t1 q !! s' = Some i' ->
  (q = q0 /\ s' = s /\ i' = i) \/ (subsAt t q !! s' = Some i' /\ (q, s') <> (q0, s)).
Proof.
  rewrite Hs. destruct (decide (q = q0)) as [->|Hq]; [|intros ?; right; split; [done|congruence]].
  intros [[<- <-]|[Hne ?]]%lookup_insert_Some; [by left|right; split; [done|congruence]].
Qed.

Lemma added_above p e : subAbove t1 p e -> (e = (s, i) /\ q0 `suffix_of` p) \/ subAbove t p e.
Proof.
  intros (q & Hq & He). destruct e as [s' i']. cbn [fst snd] in He.
  apply added_subs in He as [(-> & -> & ->)|[He _]]; [by left|right]. by exists q.
Qed.

Lemma above_added p e : subAbove t p e -> subAbove t1 p e.
Proof.
  intros (q & Hq & He). exists q. split; [done|]. rewrite Hs. destruct (decide (q = q0)) as [->|]; [|done].
  rewrite lookup_insert_ne; [done|]. intros Heq. rewrite <- Heq in He. congruence.
Qed.

Context (L : list path) (HL' : forall p, p ∈ L <-> q0 `suffix_of` p /\ exists n, nodes t !! p = Some n /\
  is_Some (advertisableRoute relayHopID_ n s i)) (HLnd : NoDup L).

(** A namespace that is not collected has no route for the subscriber. *)
Lemma uncollected p : q0 `suffix_of` p -> p ∉ L -> routeFor relayHopID_ (routesAt t p) (s, i) = None.
Proof.
  intros Hq Hp. destruct (routeFor _ _ _) as [r|] eqn:Hroute; [destruct Hp|done]. apply HL'. split; [done|].
  destruct (nodes t !! p) as [n|] eqn:Hn; [|by rewrite (routesAt_none _ _ Hn) in Hroute].
  exists n. split; [done|]. unfold routesAt in Hroute. rewrite (view_node _ _ _ Hn) in Hroute.
  change ((content n).1.1) with (routes_ n) in Hroute.
  change (advertisableRoute relayHopID_ n s i) with (routeFor relayHopID_ (routes_ n) (s, i)). by rewrite Hroute.
Qed.

Lemma subscribed_ok : exists acts t2, reconcileNodes relayHopID_ L s i t1 = Some (acts, t2) /\ ns_inv t2 (next + 1) (tell acts told).
Proof.
  destruct (reconcileNodes_spec (s, i) q0 Hpre L t1 told Ht1 (proj1 K (ni_named _ _ _ _ I))) as (acts & t2 & E2 & N).
  - intros q. rewrite Hr. apply I.
  - done.
  - intros q [Hq (n & Hn & Har)]%HL'. split_and!; [done| |].
    + destruct (nodes t1 !! q) eqn:En; [done|]. apply routesAt_none in En. rewrite Hr in En. unfold routesAt in En.
      rewrite (view_node _ _ _ Hn) in En. cbn in En. destruct Har as [r Har].
      change (routeFor relayHopID_ (routes_ n) (s, i) = Some r) in Har. by rewrite En in Har.
    + intros h Hhd. cbn [fst snd] in *. rewrite added_adv, new_not_recorded by done. by apply new_not_told.
  - exists acts, t2. split; [done|]. destruct N as [N1 N2 N3 N4 N5 N6 N7 N8 N9]. cbn [fst snd] in *.
    assert (Hsub2 : forall q, subsAt t2 q = subsAt t1 q) by (intros q; unfold subsAt; by rewrite N4).
    assert (Hrt2 : forall q, routesAt t2 q = routesAt t q) by (intros q; rewrite <- Hr; unfold routesAt; by rewrite N4).
    assert (Hold : forall q e, subAbove t q e -> advAt t2 q !! advertisementKey e.1 e.2 = advAt t q !! advertisementKey e.1 e.2).
    { intros q e He. rewrite <- added_adv. destruct (decide (q ∈ L)) as [[Hq _]%HL'|Hq]; [|by rewrite N6].
      apply N5. intros _. by apply (new_key_fresh q). }
    assert (Hout : forall p, q0 `suffix_of` p -> p ∉ L -> advAt t2 p !! advertisementKey s i = None).
    { intros p Hq Hp. rewrite N6, added_adv by done. by apply new_not_recorded. }
    split.
    + done.
    + done.
    + intros q. rewrite N3, Hseq, Hrt2. apply I.
    + intros q. rewrite Hrt2. apply I.
    + intros q s' i'. rewrite Hsub2. intros [(-> & -> & ->)|[He _]]%added_subs; [done|by eapply (ni_prefix _ _ _ _ I)].
    + intros q s' i' h. rewrite Hsub2. intros [(-> & -> & ->)|[He _]]%added_subs Hhd; [rewrite (Hh _ Hhd); lia|].
      pose proof (ni_handles _ _ _ _ I _ _ _ _ He Hhd). lia.
    + intros q s1 i1 q' s' i' h. rewrite !Hsub2.
      intros [(-> & -> & ->)|[H1 _]]%added_subs [(-> & -> & ->)|[H2 _]]%added_subs Hh1 Hh2; [done| | |].
      * pose proof (ni_handles _ _ _ _ I _ _ _ _ H2 Hh2). apply Hh in Hh1. lia.
      * pose proof (ni_handles _ _ _ _ I _ _ _ _ H1 Hh1). apply Hh in Hh2. lia.
      * by eapply (ni_unique _ _ _ _ I).
    + intros h x Hx. destruct (decide (si_namespacePublishHandle i = Some h)) as [->%Hh|Hne]; [lia|].
      rewrite N7 in Hx by done. apply (ni_told _ _ _ _ I) in Hx. lia.
    + intros p e. rewrite (subAbove_ext t1) by done. intros [[-> Hq]|He]%added_above h Hhd.
      * destruct (decide (p ∈ L)) as [Hp|Hp]; [by apply N9|]. cbn [fst snd] in *. rewrite Hout, N8; [by apply new_not_told| |done|done].
        intros q HqL Heq. apply HL' in HqL as HqL'. destruct HqL' as [Hq' _]. apply Hp. by rewrite <- (suffixOf_inj q0 q p i).
      * rewrite Hold by done. rewrite N7; [by apply (ni_recorded _ _ _ _ I)|]. intros Hn%Hh. destruct He as (q & _ & He).
        pose proof (ni_handles _ _ _ _ I _ _ _ _ He Hhd). lia.
    + intros p e. rewrite (subAbove_ext t1) by done. rewrite Hrt2. intros [[-> Hq]|He]%added_above Hhd.
      * destruct (decide (p ∈ L)) as [Hp|Hp]; [rewrite <- Hr; by apply N9|]. cbn [fst snd]. rewrite Hout by done. by rewrite uncollected.
      * rewrite Hold by done. by apply (ni_current _ _ _ _ I).
    + intros p k Hk. setoid_rewrite (subAbove_ext t1); [|done..].
      destruct (decide (p ∈ L /\ k = advertisementKey s i /\ is_Some (si_namespacePublishHandle i))) as [([Hq _]%HL' & -> & Hhd)|Hno].
      * exists (s, i). split_and!; [|done|done]. exists q0. split; [done|]. cbn [fst snd]. rewrite Hs, decide_True by done. apply lookup_insert_eq.
      * assert (Heq : advAt t2 p !! k = advAt t p !! k).
        { rewrite <- added_adv. destruct (decide (p ∈ L)) as [Hp|Hp]; [|by rewrite N6]. apply N5. intros Hhd ->. by apply Hno. }
        rewrite Heq in Hk. destruct (ni_known _ _ _ _ I p k Hk) as (e & He & Hrest). exists e. split; [|done]. by apply above_added.
Qed.
End added.

Lemma getOrCreateRanking_ok ns ty fresh t : tree_inv t -> is_Some (nodes t !! rev ns) ->
  exists t', getOrCreateRanking (rev ns) ty fresh t = Some t' /\ tree_inv t' /\ kept t t' /\
    nextRouteSeq_ t' = nextRouteSeq_ t /\ forall q, view t' q = view t q.
Proof.
  intros Ht [n Hn]. destruct (ranking_step sessionId ns ty fresh t Ht) as (t' & H1 & H2 & H3 & H4).
  unfold execNs in H1. destruct (findNode_find ns t (proj1 Ht)) as [subs Hf]. rewrite Hf, Hn in H1.
  exists t'. split_and!; [done|done|by eapply getOrCreateRanking_kept|done|].
  intros q. rewrite H4. by destruct (decide _) as [->|].
Qed.

(** ** The handlers *)
(** The session has no subscription of that prefix. *)
Definition not_subscribed (t : NamespaceTree) (prefix : list string) (session : Session) : Prop :=
  subsAt t (rev prefix) !! session = None.

Lemma recordPeer_trees relayID req session reciprocated s :
  namespaceTree_ (recordPeer relayID req session reciprocated s) = namespaceTree_ s /\
  tracksTree_ (recordPeer relayID req session reciprocated s) = tracksTree_ s.
Proof. unfold recordPeer. destruct (peerOf _ _); [|done]. by destruct (_ && _). Qed.

Lemma ns_inv_next t next told : ns_inv t next told -> ns_inv t (next + 1) told.
Proof.
  intros I. destruct I. split; try done; intros.
  - apply Z.lt_trans with next; [by eauto|lia].
  - apply Z.lt_trans with next; [by eauto|lia].
Qed.

Lemma subscribeNamespaceImpl_ok relayID req session handle reciprocated getForwarderRef fresh s next told :
  ns_inv (namespaceTree_ s) next told -> not_subscribed (namespaceTree_ s) (sn_trackNamespacePrefix req) session ->
  (forall h, handle = Some h -> h = next) ->
  exists r acts s', subscribeNamespaceImpl relayID relayHopID_ req session handle reciprocated getForwarderRef fresh s =
      Some (r, acts, s') /\
    ns_inv (namespaceTree_ s') (next + 1) (tell acts told) /\ tracksTree_ s' = tracksTree_ s.
Proof.
  intros I Hnot Hh. unfold subscribeNamespaceImpl. cbv zeta. set (prefix := sn_trackNamespacePrefix req) in *.
  destruct (recordPeer_trees relayID req session reciprocated s) as [Hs1 Hs2]. set (s1 := recordPeer _ _ _ _ _) in *.
  destruct (version_negotiated session) as [v ->]. cbn [mbind option_bind].
  set (info := subscriberInfo _ _ _). set (en := limitApplies _ _ _).
  set (m := subscribeMatches _ _ _ _ _ _ _ _ _). set (recip := match peerOf _ _ with Some _ => _ | None => [] end).
  assert (Hrecip : forall told, tell recip told = told) by (intros told'; subst recip; by destruct (peerOf _ _)).
  destruct (overLimit en m) eqn:Hov.
  { eexists _, _, _. split; [done|]. rewrite Hs1, Hrecip. split; [by apply ns_inv_next|done]. }
  rewrite Hs1. set (t := namespaceTree_ s) in *.
  assert (Hm : forall p, NoDup (namespaceMatches m) /\ (p ∈ namespaceMatches m <-> rev prefix `suffix_of` p /\
    exists n, nodes t !! p = Some n /\ is_Some (advertisableRoute relayHopID_ n session info))).
  { intros p. unfold m, subscribeMatches in Hov |- *. rewrite Hs1 in Hov |- *.
    pose proof (collectMatches_nodes _ _ _ _ _ _ _ t p (proj1 (ni_tree _ _ _ _ I)) Hov) as Hiff.
    setoid_rewrite bool_decide_eq_true in Hiff. exact Hiff. }
  pose proof (addNamespaceSubscriber_step prefix session info t (ni_tree _ _ _ _ I)) as Hadd.
  destruct (view t (rev prefix)) as [[rs ps] ss] eqn:Hv. destruct Hadd as (p0 & t1 & Hadd & Ht1 & Hseq1 & Hv1).
  rewrite Hadd. cbn [mbind option_bind].
  destruct (addNamespaceSubscriber_kept _ _ _ _ _ _ (ni_tree _ _ _ _ I) Hadd) as [-> K1].
  unfold not_subscribed, subsAt in Hnot. rewrite Hv in Hnot. cbn [snd] in Hnot. rewrite Hnot in Hv1.
  assert (Hr1 : forall q, routesAt t1 q = routesAt t q).
  { intros q. unfold routesAt. rewrite Hv1. destruct (decide _) as [->|]; [by rewrite Hv|done]. }
  assert (Hs3 : forall q, subsAt t1 q = if decide (q = rev prefix) then <[session:=info]> (subsAt t (rev prefix)) else subsAt t q).
  { intros q. unfold subsAt. rewrite Hv1. destruct (decide _) as [->|]; [by rewrite Hv|done]. }
  assert (Hn1 : is_Some (nodes t1 !! rev prefix)).
  { destruct (nodes t1 !! rev prefix) eqn:En; [eauto|]. apply view_none in En. rewrite Hv1, decide_True in En by done.
    injection En as _ _ Hss. by apply insert_non_empty in Hss. }
  assert (Hrank : exists topN t2, match sn_trackFilter req with
    | Some f => t2 ← getOrCreateRanking (rev prefix) (tf_propertyType f) fresh t1;
        Some ([AddSessionToTopN (rev prefix) (tf_propertyType f) (tf_maxSelected f) session (sn_forward req)], t2)
    | None => Some ([], t1) end = Some (topN, t2) /\ (forall told : Told, tell topN told = told) /\ tree_inv t2 /\ kept t t2 /\
      nextRouteSeq_ t2 = nextRouteSeq_ t /\ forall q, view t2 q = view t1 q).
  { destruct (sn_trackFilter req) as [f|]; [|by eexists _, _].
    destruct (getOrCreateRanking_ok prefix (tf_propertyType f) fresh t1 Ht1 Hn1) as (t2 & -> & H1 & H2 & H3 & H4).
    cbn [mbind option_bind]. eexists _, _. split_and!; [done|done|done| |congruence|done].
    eapply kept_from; [exact (proj1 K1)| |done]. intros q. by eapply kept_same_adv. }
  destruct Hrank as (topN & t2 & -> & HtopN & Ht2 & K2 & Hseq2 & Hv2). cbn [mbind option_bind].
  destruct (subscribed_ok t next told I (rev prefix) session info) with (t1 := t2) (L := namespaceMatches m)
    as (acts & t3 & E3 & I3).
  - unfold subsAt. by rewrite Hv.
  - by rewrite rev_involutive.
  - done.
  - done.
  - done.
  - done.
  - intros q. rewrite <- Hr1. unfold routesAt. by rewrite Hv2.
  - intros q. rewrite <- Hs3. unfold subsAt. by rewrite Hv2.
  - intros p. by apply Hm.
  - by apply (Hm []).
  - rewrite E3. cbn [mbind option_bind]. eexists _, _, _. split; [done|]. split; [|done]. cbn [namespaceTree_ set_namespaceTree].
    rewrite !tell_app, Hrecip, HtopN. rewrite (tell_other (tell acts told)); [done|]. apply Forall_forall.
    intros a (x & <- & _)%list_elem_of_In%in_map_iff. done.
Qed.

Lemma unsubscribeNamespace_ok prefix session s next told : ns_inv (namespaceTree_ s) next told ->
  exists acts s', unsubscribeNamespace (E := E) prefix session s = Some (acts, s') /\
    ns_inv (namespaceTree_ s') next (tell acts told) /\ tracksTree_ s' = tracksTree_ s.
Proof.
  intros I. unfold unsubscribeNamespace. cbn [namespaceTree_ set_peers]. set (t := namespaceTree_ s) in *.
  pose proof (removeNamespaceSubscriber_step sessionId prefix session t (ni_tree _ _ _ _ I)) as Hst.
  destruct (view t (rev prefix)) as [[rs ps] ss] eqn:Hv. destruct Hst as (r & Hrm & Hst). rewrite Hrm. cbn [mbind option_bind].
  destruct r as [[topN t']|]; [|by eexists _, _].
  destruct (removeNamespaceSubscriber_kept _ _ _ _ _ _ (ni_tree _ _ _ _ I) Hrm) as [Hnm Hadv].
  cbn [refusedOr snd] in Hst. destruct Hst as (Ht' & Hseq & Hv'). eexists _, _. split; [done|]. cbn [namespaceTree_ tracksTree_ set_namespaceTree set_peers].
  split; [|done]. rewrite tell_other by (destruct topN as [[? ?]|]; repeat constructor).
  assert (Hr : forall q, routesAt t' q = routesAt t q).
  { intros q. unfold routesAt. rewrite Hv'. destruct (decide _) as [->|]; [by rewrite Hv|done]. }
  assert (Hs : forall q, subsAt t' q = if decide (q = rev prefix) then delete session (subsAt t q) else subsAt t q).
  { intros q. unfold subsAt. rewrite Hv'. destruct (decide _) as [->|]; [by rewrite Hv|done]. }
  assert (Hsub : forall q s' i, subsAt t' q !! s' = Some i -> subsAt t q !! s' = Some i /\ (q, s') <> (rev prefix, session)).
  { intros q s' i. rewrite Hs. destruct (decide (q = rev prefix)) as [->|Hq]; [|intros ?; split; [done|congruence]].
    intros [Hne ?]%lookup_delete_Some. split; [done|congruence]. }
  assert (Habove : forall q e, subAbove t' q e -> subAbove t q e /\ (rev prefix `suffix_of` q ->
    advertisementKey e.1 e.2 <> (sessionId session, Z.of_nat (length prefix)))).
  { intros q e (q' & Hq' & He). apply Hsub in He as [He Hne]. assert (Hab : subAbove t q e) by (by exists q').
    split; [done|]. intros Hpre. unfold advertisementKey. rewrite (ni_prefix _ _ _ _ I _ _ _ He), length_rev.
    intros [= Hsid%(inj sessionId) Hlen]. apply Hne. f_equal; [|done].
    apply (suffix_same_length _ _ q); [done|done|rewrite length_rev; lia]. }
  assert (Hadv' : forall q, advAt t' q = if decide (rev prefix `suffix_of` q)
    then delete (sessionId session, Z.of_nat (length prefix)) (advAt t q) else advAt t q).
  { intros q. destruct (nodes t' !! q) as [n|] eqn:En; [by rewrite (advAt_node _ _ _ En), (Hadv _ _ En)|].
    unfold advAt at 1. rewrite En. rewrite (no_routes_no_adv _ _ _ _ q I) by (rewrite <- Hr; by apply routesAt_none).
    destruct (decide _); [by rewrite delete_empty|done]. }
  assert (Hkey : forall q e, subAbove t' q e -> advAt t' q !! advertisementKey e.1 e.2 = advAt t q !! advertisementKey e.1 e.2).
  { intros q e [_ He]%Habove. rewrite Hadv'. destruct (decide _) as [Hd|]; [|done]. rewrite lookup_delete_ne; [done|]. apply not_eq_sym, He, Hd. }
  split.
  - done.
  - apply Hnm, I.
  - intros q. rewrite Hseq, Hr. apply I.
  - intros q. rewrite Hr. apply I.
  - intros q s' i [? _]%Hsub. by eapply (ni_prefix _ _ _ _ I).
  - intros q s' i h [? _]%Hsub. by eapply (ni_handles _ _ _ _ I).
  - intros q s1 i1 q' s' i' h [? _]%Hsub [? _]%Hsub. by eapply (ni_unique _ _ _ _ I).
  - apply (ni_told _ _ _ _ I).
  - intros q e He h Hh. rewrite Hkey by done. apply Habove in He as [He _]. by apply (ni_recorded _ _ _ _ I).
  - intros q e He Hh. rewrite Hkey by done. rewrite Hr. apply Habove in He as [He _]. by apply (ni_current _ _ _ _ I).
  - intros q k Hk.
    assert (Hk' : is_Some (advAt t q !! k) /\ (rev prefix `suffix_of` q -> k <> (sessionId session, Z.of_nat (length prefix)))).
    { rewrite Hadv' in Hk. destruct (decide _); [|done]. destruct Hk as [a [Hne Ha]%lookup_delete_Some]. split; [eauto|]. by intros _ ->. }
    destruct Hk' as [Hk' Hne]. destruct (ni_known _ _ _ _ I q k Hk') as ([s' i] & (q' & Hq' & He) & Hh & Hkk).
    exists (s', i). split; [|done]. exists q'. split; [done|]. cbn [fst snd] in *. rewrite Hs.
    destruct (decide (q' = rev prefix)) as [->|]; [|done]. rewrite lookup_delete_ne; [done|]. intros <-.
    apply (Hne Hq'). rewrite <- Hkk. unfold advertisementKey. by rewrite (ni_prefix _ _ _ _ I _ _ _ He), rev_involutive.
Qed.
End subscribe.
