(* ===== verification/RelaySystem.v ===== *)
(** Runs of the relay's namespace handlers, and what holds of every run: the
    subscribers' view of the namespaces, loop-free paths, subscriptions to tracks
    that do not overlap, the limit on matches, and who a track is published to. *)

From S2P Require Import Prelude NamespaceTree NamespaceInv NamespaceSpec NamespaceRoutes NamespaceTheorems.
From S2P Require Import NamespaceLookup Location RelayNamespaces RelayTree RelayTold RelayInv RelayRoutes RelaySubscribe.

(** ** Runs *)
Inductive NsRelayOp (E : Type) :=
| RPublishNamespace (pubNs : PublishNamespace E) (session : Session) (callback : option Callback) (peerID : string)
| RNamespaceDone (ns : list string) (sid : Z) (requestID : option Z)
| RUpdateNamespace (ns : list string) (sid requestID : Z) (update : RouteParams E)
| RSubscribeNamespace (req : SubscribeNamespace) (session : Session) (withHandle reciprocated : bool)
    (getForwarderRef : FullTrackName -> option Z) (fresh : RankingRef)
| RUnsubscribeNamespace (nsp : list string) (session : Session)
| RSubscribeTracks (req : SubscribeTracks) (session : Session) (getForwarderRef : FullTrackName -> option Z)
| RUnsubscribeTracks (nsp : list string) (session : Session)
| RPublish (f : FullTrackName) (session : Session) (forwarder : Z)
| RPublishDone (f : FullTrackName).
Arguments RPublishNamespace {E} pubNs session callback peerID.
Arguments RNamespaceDone {E} ns sid requestID.
Arguments RUpdateNamespace {E} ns sid requestID update.
Arguments RSubscribeNamespace {E} req session withHandle reciprocated getForwarderRef fresh.
Arguments RUnsubscribeNamespace {E} nsp session.
Arguments RSubscribeTracks {E} req session getForwarderRef.
Arguments RUnsubscribeTracks {E} nsp session.
Arguments RPublish {E} f session forwarder.
Arguments RPublishDone {E} f.

(** Each subscription comes with a handle of its own: [rs_next] is the next. *)
Record RelaySys := mkRelaySys { rs_relay : RelayNs; rs_next : Z }.
Definition newRelaySys : RelaySys := mkRelaySys newRelayNs 0.

Section system.
Context {SA : SessionApi} {E : Type} {HC : HopCodec E}.
Context (relayID_ : string) (relayHopID_ : Z) (allowed : list string).
Abbreviation Act := (RelayAct E).

Definition relay_step (op : NsRelayOp E) (s : RelaySys) : option (list Act * RelaySys) :=
  let r := rs_relay s in
  let keep (o : option (list Act * RelayNs)) := '(acts, r) ← o; Some (acts, mkRelaySys r (rs_next s)) in
  match op with
  | RPublishNamespace pubNs session callback peerID =>
    keep ('(_, acts, r) ← doPublishNamespace relayHopID_ allowed pubNs session callback peerID r; Some (acts, r))
  | RNamespaceDone ns sid requestID => keep (doPublishNamespaceDone relayHopID_ ns sid requestID r)
  | RUpdateNamespace ns sid requestID update =>
    keep ('(_, acts, r) ← updatePublishNamespace relayHopID_ ns sid requestID update r; Some (acts, r))
  | RSubscribeNamespace req session withHandle reciprocated getForwarderRef fresh =>
    '(_, acts, r) ← subscribeNamespaceImpl relayID_ relayHopID_ req session
      (if withHandle : bool then Some (rs_next s) else None) reciprocated getForwarderRef fresh r;
    Some (acts, mkRelaySys r (rs_next s + 1))
  | RUnsubscribeNamespace prefix session => keep (unsubscribeNamespace prefix session r)
  | RSubscribeTracks req session getForwarderRef =>
    keep ('(_, acts, r) ← subscribeTracks relayID_ req session getForwarderRef r; Some (acts, r))
  | RUnsubscribeTracks prefix session => keep (r ← unsubscribeTracks prefix session r; Some ([], r))
  | RPublish f session forwarder =>
    keep ('(_, acts, r) ← publishFanout f session forwarder r; Some (acts, r))
  | RPublishDone f => keep (r ← trackEnded f r; Some ([], r))
  end.

Fixpoint relay_run (ops : list (NsRelayOp E)) (s : RelaySys) : option (list Act * RelaySys) :=
  match ops with
  | [] => Some ([], s)
  | op :: ops =>
    '(acts, s) ← relay_step op s;
    '(acts', s) ← relay_run ops s;
    Some (acts ++ acts', s)
  end.

(** Requests as moxygen hands them over; a session subscribes to a prefix once
    at a time. *)
Definition relay_op_ok (op : NsRelayOp E) (s : RelaySys) : Prop :=
  match op with
  | RPublishNamespace pubNs session _ _ => announcement_ok session (pn_params pubNs)
  | RUpdateNamespace _ sid _ update => update_ok sid update
  | RSubscribeNamespace req session _ _ _ _ =>
    not_subscribed (namespaceTree_ (rs_relay s)) (sn_trackNamespacePrefix req) session
  | _ => True
  end.
Fixpoint relay_ops_ok (ops : list (NsRelayOp E)) (s : RelaySys) : Prop :=
  match ops with
  | [] => True
  | op :: ops => relay_op_ok op s /\ forall acts s', relay_step op s = Some (acts, s') -> relay_ops_ok ops s'
  end.
End system.

Section theorems.
Context {SA : SessionApi} {SL : SessionLaws SA} {E : Type} {HC : HopCodec E} {hop_ok : Z -> Prop} {HL : HopCodecLaws HC hop_ok}.
Context (relayID_ : string) (relayHopID_ : Z) (allowed : list string) (Hhop : hop_ok relayHopID_).

Abbreviation Told := (gmap (Z * list string) (RouteParams E)).
Abbreviation ns_inv := (ns_inv relayHopID_ (hop_ok := hop_ok)).

(** ** The tree of track subscriptions *)
(** A session's subscriptions to tracks do not overlap. *)
Record tracks_inv (t : NamespaceTree) : Prop := {
  tk_tree : tree_inv t;
  tk_apart s p q : subscribedAt t s p -> subscribedAt t s q -> p `suffix_of` q -> p = q;
}.

Record sys_ok (s : RelaySys) (told : Told) : Prop := {
  so_ns : ns_inv (namespaceTree_ (rs_relay s)) (rs_next s) told;
  so_tracks : tracks_inv (tracksTree_ (rs_relay s));
}.

Lemma subscribeTracks_ok req session getForwarderRef s told next : ns_inv (namespaceTree_ s) next told ->
  tracks_inv (tracksTree_ s) ->
  exists r acts s', subscribeTracks (E := E) relayID_ req session getForwarderRef s = Some (r, acts, s') /\
    tell acts told = told /\ namespaceTree_ s' = namespaceTree_ s /\ tracks_inv (tracksTree_ s').
Proof.
  intros I T. unfold subscribeTracks. cbv zeta. destruct (version_negotiated session) as [v ->]. cbn [mbind option_bind].
  destruct (_ <? 18); [by eexists _, _, _|]. set (prefix := st_trackNamespacePrefix req). set (t := tracksTree_ s) in *.
  destruct (hasOverlappingTracksSubscription prefix session t) eqn:Hov; [by eexists _, _, _|].
  destruct (overLimit _ _); [by eexists _, _, _|].
  set (info := mkSubscriberInfo _ _ _ _ _ _). pose proof (addNamespaceSubscriber_step prefix session info t (tk_tree _ T)) as Hadd.
  destruct (view t (rev prefix)) as [[rs ps] ss] eqn:Hv. destruct Hadd as (p0 & t1 & Hadd & Ht1 & _ & Hv1).
  rewrite Hadd. cbn [mbind option_bind]. eexists _, _, _. split; [done|]. split.
  { apply tell_other, Forall_forall. by intros a (x & <- & _)%list_elem_of_In%in_map_iff. }
  split; [done|]. cbn [tracksTree_ set_tracksTree].
  assert (Hno : forall q, subscribedAt t session q -> ~ (q `suffix_of` rev prefix \/ rev prefix `suffix_of` q)).
  { intros q Hq Hs. apply not_true_iff_false in Hov. apply Hov. unfold hasOverlappingTracksSubscription.
    apply (hasOverlapping_from_spec session t (proj1 (tk_tree _ T)) prefix [] (co_root _ _ _ (proj1 (tk_tree _ T)))).
    rewrite app_nil_r. exists q. split_and!; [apply suffix_nil|done|done]. }
  assert (Hsub : forall s' q, subscribedAt t1 s' q -> (q = rev prefix /\ s' = session) \/ subscribedAt t s' q).
  { intros s' q. unfold subscribedAt. rewrite Hv1. destruct (decide (q = rev prefix)) as [->|]; [|by right]. rewrite Hv. cbn [snd].
    destruct (ss !! session); [by right|]. intros [i [[<- _]|[_ ?]]%lookup_insert_Some]; [by left|right; eauto]. }
  split; [done|]. intros s' p q [[-> ->]|Hp]%Hsub [[-> E2]|Hq]%Hsub Hs; [done| | |by eapply (tk_apart _ T)].
  - destruct (Hno q Hq). by right.
  - subst s'. destruct (Hno p Hp). by left.
Qed.

Lemma unsubscribeTracks_ok prefix session s : tracks_inv (tracksTree_ s) ->
  exists s', unsubscribeTracks prefix session s = Some s' /\ namespaceTree_ s' = namespaceTree_ s /\ tracks_inv (tracksTree_ s').
Proof.
  intros T. unfold unsubscribeTracks. set (t := tracksTree_ s) in *.
  pose proof (removeNamespaceSubscriber_step sessionId prefix session t (tk_tree _ T)) as Hst.
  destruct (view t (rev prefix)) as [[rs ps] ss] eqn:Hv. destruct Hst as (r & -> & Hst). cbn [mbind option_bind].
  destruct r as [[topN t']|]; [|by eexists]. cbn [refusedOr snd] in Hst. destruct Hst as (Ht' & _ & Hv').
  eexists. split; [done|]. split; [done|]. cbn [tracksTree_ set_tracksTree]. split; [done|].
  assert (Hsub : forall s' q, subscribedAt t' s' q -> subscribedAt t s' q).
  { intros s' q. unfold subscribedAt. rewrite Hv'. destruct (decide (q = rev prefix)) as [->|]; [|done]. rewrite Hv. cbn [snd].
    intros [i [_ ?]%lookup_delete_Some]. eauto. }
  intros s' p q Hp%Hsub Hq%Hsub. by eapply (tk_apart _ T).
Qed.

(** ** Published tracks *)
Lemma tell_published told session forwarder subs : tell (publishToNamespaces (E := E) session forwarder subs) told = told /\
  tell (publishToTracks (E := E) session forwarder subs) told = told.
Proof.
  split; apply tell_other, Forall_forall; intros a ([s i] & _ & Ha)%list_elem_of_omap.
  - destruct (bool_decide _); [done|]. destruct (_ && _); by simplify_eq.
  - destruct (negb _); by simplify_eq.
Qed.

Lemma publishFanout_ok f session forwarder s next told : ns_inv (namespaceTree_ s) next told ->
  exists fwd acts s', publishFanout (E := E) f session forwarder s = Some (fwd, acts, s') /\ tell acts told = told /\
    ns_inv (namespaceTree_ s') next told /\ tracksTree_ s' = tracksTree_ s.
Proof.
  intros I. unfold publishFanout. set (t := namespaceTree_ s) in *.
  pose proof (addPublish_step (trackNamespace f) (trackName f) session t (ni_tree _ _ _ _ I)) as Hst.
  destruct (view t (rev (trackNamespace f))) as [[rs ps] ss] eqn:Hv. destruct Hst as ([[p subs] rankings] & t' & Hadd & Ht' & Hseq & Hv').
  rewrite Hadd. cbn [mbind option_bind]. destruct (findNode _ _ _) as [[found tracksSubs] x]. eexists _, _, _. split; [done|].
  split; [|split; [|done]].
  - rewrite !tell_app. rewrite (tell_other told) by (apply Forall_forall; by intros a (y & <- & _)%list_elem_of_In%in_map_iff).
    by rewrite (proj1 (tell_published _ _ _ _)), (proj2 (tell_published _ _ _ _)).
  - cbn [namespaceTree_ set_namespaceTree]. destruct (addPublish_changed _ _ _ _ _ _ _ _ (ni_tree _ _ _ _ I) Hadd) as [_ _ K].
    apply (ns_inv_same _ t); [done|done|done|done|..]; intros q; unfold routesAt, subsAt; rewrite Hv';
      (destruct (decide _) as [->|]; [by rewrite Hv|done]).
Qed.

Lemma publishDone_ok f s next told : ns_inv (namespaceTree_ s) next told ->
  exists s', trackEnded f s = Some s' /\ ns_inv (namespaceTree_ s') next told /\ tracksTree_ s' = tracksTree_ s.
Proof.
  intros I. unfold trackEnded. set (t := namespaceTree_ s) in *.
  pose proof (unpublishTrack_step (trackNamespace f) (trackName f) t (ni_tree _ _ _ _ I)) as Hst.
  destruct (view t (rev (trackNamespace f))) as [[rs ps] ss] eqn:Hv. destruct Hst as (r & Hu & Hst). rewrite Hu. cbn [mbind option_bind].
  destruct r as [t'|]; [|by eexists]. cbn [refusedOr id] in Hst. destruct Hst as (Ht' & Hseq & Hv'). eexists. split; [done|]. split; [|done].
  apply (ns_inv_same _ t); [done|done|by eapply unpublishTrack_kept; [apply (ni_tree _ _ _ _ I)|]|done|..];
    intros q; unfold routesAt, subsAt; rewrite Hv'; (destruct (decide _) as [->|]; [by rewrite Hv|done]).
Qed.

(** ** Every step keeps the invariant *)
Lemma relay_step_ok op s told : sys_ok s told -> relay_op_ok op s ->
  exists acts s', relay_step relayID_ relayHopID_ allowed op s = Some (acts, s') /\ sys_ok s' (tell acts told).
Proof.
  intros [I T] Hop. destruct op; unfold relay_step; cbn [relay_op_ok] in Hop.
  - destruct (doPublishNamespace_ok relayHopID_ Hhop allowed pubNs session callback peerID _ _ _ I Hop) as (r & acts & s' & -> & I' & Hr & _).
    eexists _, _. split; [done|]. split; [done|]. cbn. by rewrite Hr.
  - destruct (doPublishNamespaceDone_ok relayHopID_ Hhop ns sid requestID _ _ _ I) as (acts & s' & -> & I' & Hr & _).
    eexists _, _. split; [done|]. split; [done|]. cbn. by rewrite Hr.
  - destruct (updatePublishNamespace_ok relayHopID_ Hhop ns sid requestID update _ _ _ I Hop) as (r & acts & s' & -> & I' & Hr & _).
    eexists _, _. split; [done|]. split; [done|]. cbn. by rewrite Hr.
  - destruct (subscribeNamespaceImpl_ok relayHopID_ Hhop relayID_ req session (if withHandle then Some (rs_next s) else None)
      reciprocated getForwarderRef fresh _ _ _ I Hop) as (r & acts & s' & -> & I' & Hr).
    { destruct withHandle; [by intros h [= <-]|done]. }
    eexists _, _. split; [done|]. split; [done|]. cbn. by rewrite Hr.
  - destruct (unsubscribeNamespace_ok relayHopID_ nsp session _ _ _ I) as (acts & s' & -> & I' & Hr).
    eexists _, _. split; [done|]. split; [done|]. cbn. by rewrite Hr.
  - destruct (subscribeTracks_ok req session getForwarderRef _ _ _ I T) as (r & acts & s' & -> & Ht & Hn & T').
    eexists _, _. split; [done|]. rewrite Ht. split; cbn; [by rewrite Hn|done].
  - destruct (unsubscribeTracks_ok nsp session _ T) as (s' & -> & Hn & T').
    eexists _, _. split; [done|]. split; cbn; [by rewrite Hn|done].
  - destruct (publishFanout_ok f session forwarder _ _ _ I) as (fwd & acts & s' & -> & Ht & I' & Hr).
    eexists _, _. split; [done|]. rewrite Ht. split; cbn; [done|by rewrite Hr].
  - destruct (publishDone_ok f _ _ _ I) as (s' & -> & I' & Hr).
    eexists _, _. split; [done|]. split; cbn; [done|by rewrite Hr].
Qed.

Lemma relay_run_ok ops : forall s told, sys_ok s told -> relay_ops_ok relayID_ relayHopID_ allowed ops s ->
  exists acts s', relay_run relayID_ relayHopID_ allowed ops s = Some (acts, s') /\ sys_ok s' (tell acts told).
Proof.
  induction ops as [|op ops IH]; intros s told Hs Hops; cbn [relay_run]; [by exists [], s|].
  destruct Hops as [Hop Hops]. destruct (relay_step_ok op s told Hs Hop) as (acts & s1 & Hst & Hs1). rewrite Hst. cbn [mbind option_bind].
  destruct (IH s1 _ Hs1 (Hops _ _ Hst)) as (acts' & s2 & -> & Hs2). cbn [mbind option_bind].
  exists (acts ++ acts'), s2. by rewrite tell_app.
Qed.

Lemma newTree_empty q : view newTree q = ([], ∅, ∅).
Proof. unfold view, newTree. cbn. destruct (decide ([] = q)) as [<-|]; [by rewrite lookup_insert_eq|by rewrite lookup_insert_ne]. Qed.

Lemma newRelaySys_ok : sys_ok newRelaySys ∅.
Proof.
  assert (Hadv : forall q, advAt newTree q = ∅).
  { intros q. unfold advAt, newTree. cbn. destruct (decide ([] = q)) as [<-|]; [by rewrite lookup_insert_eq|by rewrite lookup_insert_ne]. }
  split; cbn; split; unfold routesAt, subsAt; try (setoid_rewrite newTree_empty); try done; try apply newTree_ok.
  - intros q n. unfold newTree. cbn. intros [[<- <-]|[_ Hn]]%lookup_insert_Some; [done|by rewrite lookup_empty in Hn].
  - intros p. split; [constructor|constructor|unfold atMostOne; cbn; lia|done].
  - intros h x [? Hx]. by rewrite lookup_empty in Hx.
  - intros p e (q & _ & He). unfold subsAt in He. rewrite newTree_empty in He. cbn in He. by rewrite lookup_empty in He.
  - intros p e (q & _ & He). unfold subsAt in He. rewrite newTree_empty in He. cbn in He. by rewrite lookup_empty in He.
  - intros p k. rewrite Hadv, lookup_empty. by intros [? ?].
  - intros s p q. unfold subscribedAt. rewrite newTree_empty. cbn. rewrite lookup_empty. by intros [? ?].
Qed.
End theorems.
