(* ===== verification/RelayNsTheorems.v ===== *)
(** What every run of the relay's namespace handlers guarantees. *)

From S2P Require Import Prelude NamespaceTree NamespaceInv NamespaceSpec NamespaceRoutes NamespaceTheorems.
From S2P Require Import NamespaceLookup Location RelayNamespaces RelayTree RelayTold RelayInv RelayRoutes RelaySubscribe RelaySystem.

(** ** Looking up a namespace that may have no node *)
Lemma findNode_missing_from at_ rest t : forall subs subs' t', tree_ok t -> is_Some (nodes t !! at_) ->
  findNode_from at_ rest false subs t = (None, subs', t') ->
  forall e, e ∈ subs' <-> (e ∈ subs \/ exists q, at_ `suffix_of` q /\ q `suffix_of` rev rest ++ at_ /\ subsAt t q !! e.1 = Some e.2).
Proof.
  revert at_. induction rest as [|name rest IH]; intros at_ subs subs' t' Hok [n Hn]; cbn [findNode_from]; [done|].
  rewrite Hn. assert (Hsplit : forall q, at_ `suffix_of` q /\ q `suffix_of` rev (name :: rest) ++ at_ <->
    q = at_ \/ (name :: at_ `suffix_of` q /\ q `suffix_of` rev (name :: rest) ++ at_)).
  { intros q. cbn [rev]. rewrite <- app_assoc. cbn [app]. split.
    - intros [[l ->] Hs]. destruct l as [|x l _] using rev_ind; [by left|right]. split; [|done].
      rewrite <- app_assoc in Hs |- *. cbn [app] in *. destruct Hs as [l' Hs].
      change (rev rest ++ name :: at_) with (rev rest ++ [name] ++ at_) in Hs.
      change (l ++ x :: at_) with (l ++ [x] ++ at_) in Hs. rewrite !app_assoc in Hs. apply app_inv_tail in Hs.
      apply app_inj_tail in Hs as [_ ->]. by exists l.
    - intros [->|[Hs ?]]; (split; [|done||idtac]); [done| |].
      + exists (rev rest ++ [name]). by rewrite <- app_assoc.
      + etrans; [|exact Hs]. by apply suffix_cons_r. }
  intros Hf [s i]. cbn [fst snd].
  destruct (nodes t !! (name :: at_)) as [x|] eqn:E.
  - rewrite (IH _ _ _ _ Hok ltac:(eauto) Hf (s, i)). cbn [fst snd]. rewrite elem_of_app, subscribersOf_spec, <- (subsAt_node _ _ _ Hn).
    split.
    + intros [[?|?]|(q & H1 & H2 & H3)]; [by left| |]; right.
      * exists at_. destruct (proj2 (Hsplit at_)) as [? ?]; [by left|done].
      * exists q. cbn [rev]. rewrite <- app_assoc. cbn [app]. split_and!; [|done|done]. etrans; [|exact H1]. by apply suffix_cons_r.
    + intros [?|(q & H1 & H2 & H3)]; [by left; left|]. destruct (proj1 (Hsplit q) (conj H1 H2)) as [->|[H4 H5]]; [left; by right|right].
      exists q. cbn [rev] in H5. rewrite <- app_assoc in H5. done.
  - injection Hf as <- <-. rewrite elem_of_app, subscribersOf_spec, <- (subsAt_node _ _ _ Hn). split.
    + intros [?|?]; [by left|right]. exists at_. destruct (proj2 (Hsplit at_)) as [? ?]; [by left|done].
    + intros [?|(q & H1 & H2 & H3)]; [by left|]. destruct (proj1 (Hsplit q) (conj H1 H2)) as [->|[H4 H5]]; [by right|].
      destruct (nodes t !! q) as [m|] eqn:Eq; [|unfold subsAt in H3; by rewrite (view_none _ _ Eq) in H3].
      destruct (closed_suffix t q (name :: at_) Hok) as [? ?]; [eauto|done|congruence].
Qed.

(** The subscribers above a namespace, whether it has a node or not. *)
Lemma findNode_above ns t : tree_ok t ->
  let '(found, subs, _) := findNode ns false t in
  forall e, e ∈ subs ++ match found with
                        | Some p => match nodes t !! p with Some n => subscribersOf n | None => [] end
                        | None => []
                        end <-> subAbove t (rev ns) e.
Proof.
  intros Hok. destruct (findNode ns false t) as [[[p|] subs] t'] eqn:Hf.
  - pose proof (findNode_subs _ _ _ _ _ _ Hok Hf) as (-> & _ & _ & [n Hn] & _).
    assert (t' = t) as -> by (destruct (findNode_find ns t Hok); congruence). rewrite Hn.
    intros e. by eapply subs_of_found.
  - intros e. rewrite app_nil_r. pose proof (findNode_missing_from [] ns t [] subs t' Hok (co_root _ _ _ Hok) Hf e) as H.
    rewrite H, app_nil_r. split.
    + intros [[]%not_elem_of_nil|(q & _ & ? & ?)]. by exists q.
    + intros (q & ? & ?). right. exists q. split_and!; [apply suffix_nil|done|done].
Qed.

Section theorems.
Context {SA : SessionApi} {SL : SessionLaws SA} {E : Type} {HC : HopCodec E} {hop_ok : Z -> Prop} {HL : HopCodecLaws HC hop_ok}.
Context (relayID_ : string) (relayHopID_ : Z) (allowed : list string) (Hhop : hop_ok relayHopID_).

Lemma suffixOf_below q suffix info : si_trackNamespacePrefix info = rev q -> suffixOf (rev suffix ++ q) info = suffix.
Proof. intros Hi. unfold suffixOf, makeNamespaceSuffix. by rewrite Hi, rev_app_distr, rev_involutive, drop_app_length. Qed.

(** What a subscriber has been told, in a state that satisfies the invariant. *)
Lemma told_of_inv t next told q session info h suffix : ns_inv relayHopID_ (hop_ok := hop_ok) t next told ->
  subsAt t q !! session = Some info -> si_namespacePublishHandle info = Some h ->
  told !! (h, suffix) =
    (r ← routeFor relayHopID_ (routesAt t (rev suffix ++ q)) (session, info);
     setOutgoingHopPath relayHopID_ session (r_path r) (r_cost r)).
Proof.
  intros I Hsub Hh. set (p := rev suffix ++ q).
  assert (Hab : subAbove t p (session, info)) by (exists q; split; [by exists (rev suffix)|done]).
  pose proof (ni_recorded _ _ _ _ I p _ Hab h Hh) as Hrec. pose proof (ni_current _ _ _ _ I p _ Hab ltac:(by eexists)) as Hcur.
  cbn [fst snd] in *. unfold p in Hrec at 1. rewrite (suffixOf_below q suffix info (ni_prefix _ _ _ _ I _ _ _ Hsub)) in Hrec.
  rewrite Hrec. destruct (advAt t p !! _) as [a|], (routeFor _ _ _) as [r|]; cbn [mbind option_bind] in *; try done.
  unfold setOutgoingHopPath. destruct (negotiatedRelayHops session) eqn:En; [|done]. by destruct (Hcur eq_refl) as [-> ->].
Qed.

(** (C4) After any sequence of announcements, updates and withdrawals of routes,
    subscriptions and their ends, and published tracks, no check of the relay
    fails, and every namespace subscriber has been told exactly of the namespaces
    below its prefix for which there is a route it may use (not its own, not
    through its own relay, and not through this one twice), with the hop path and
    cost of the best such route when it takes part in the cluster; every other
    namespace below its prefix it was never told of, or told is gone. *)
Theorem namespace_view_exact (ops : list (NsRelayOp E)) :
  relay_ops_ok relayID_ relayHopID_ allowed ops newRelaySys ->
  exists acts s, relay_run relayID_ relayHopID_ allowed ops newRelaySys = Some (acts, s) /\
    forall q session info h suffix,
      subsAt (namespaceTree_ (rs_relay s)) q !! session = Some info -> si_namespacePublishHandle info = Some h ->
      tell acts ∅ !! (h, suffix) =
        (r ← routeFor relayHopID_ (routesAt (namespaceTree_ (rs_relay s)) (rev suffix ++ q)) (session, info);
         setOutgoingHopPath relayHopID_ session (r_path r) (r_cost r)).
Proof using SL HL Hhop.
  intros Hok. destruct (relay_run_ok relayID_ relayHopID_ allowed Hhop ops newRelaySys ∅ (newRelaySys_ok relayHopID_) Hok)
    as (acts & s & Hrun & [I _]).
  exists acts, s. split; [done|]. intros. by eapply told_of_inv.
Qed.

Lemma shouldForward_hops pub s options hops : shouldForwardNamespace relayHopID_ pub s options hops = true ->
  s <> pub /\ clusterPathContains (hops ++ [relayHopID_]) (getPeerHopID s) = false.
Proof.
  unfold shouldForwardNamespace, clusterPathContains, kMoQClusterAnonHopId. rewrite existsb_app. cbn [existsb].
  set (peer := getPeerHopID s). rewrite orb_false_r, (Z.eqb_sym relayHopID_ peer).
  destruct (Z.eqb_spec s pub); [by rewrite ?andb_false_l|]. intros H. split; [done|]. revert H. cbn [negb andb].
  destruct (_ || _); cbn [andb]; [|done].
  destruct (peer =? 0), (peer =? relayHopID_), (existsb _ hops); done.
Qed.

(** (C18) In any run no route that the tree keeps, advertised or not, runs through
    this relay already, and its cost fits in 64 bits; and what a cluster peer (a
    session that negotiated relay hops) has been told carries the path of a route
    that is kept followed by this relay's hop, and its cost, and the path does not
    pass the peer: an announcement never returns to a relay it has been through.
    (The anonymous hop, 0, counts as no relay.) *)
Theorem cluster_paths_loop_free (ops : list (NsRelayOp E)) :
  relay_ops_ok relayID_ relayHopID_ allowed ops newRelaySys ->
  exists acts s, relay_run relayID_ relayHopID_ allowed ops newRelaySys = Some (acts, s) /\
    (forall p r, In r (routesAt (namespaceTree_ (rs_relay s)) p) ->
      clusterPathContains (r_path r) relayHopID_ = false /\ u64_ok (r_cost r)) /\
    forall q session info h suffix params,
      subsAt (namespaceTree_ (rs_relay s)) q !! session = Some info -> si_namespacePublishHandle info = Some h ->
      negotiatedRelayHops session = true -> tell acts ∅ !! (h, suffix) = Some params ->
      exists r e v, In r (routesAt (namespaceTree_ (rs_relay s)) (rev suffix ++ q)) /\ r_session r <> session /\
        params = mkParams (Some e) (Some (r_cost r)) /\ u64_ok (r_cost r) /\
        getNegotiatedVersion session = Some v /\ decodeRelayHopPath e v = Some (r_path r ++ [relayHopID_]) /\
        clusterPathContains (r_path r) relayHopID_ = false /\
        clusterPathContains (r_path r ++ [relayHopID_]) (getPeerHopID session) = false.
Proof using SL HL Hhop.
  intros Hok. destruct (relay_run_ok relayID_ relayHopID_ allowed Hhop ops newRelaySys ∅ (newRelaySys_ok relayHopID_) Hok)
    as (acts & s & Hrun & [I _]).
  assert (Hkept : forall p r, In r (routesAt (namespaceTree_ (rs_relay s)) p) ->
    clusterPathContains (r_path r) relayHopID_ = false /\ u64_ok (r_cost r)).
  { intros p r Hin. pose proof (ni_good _ _ _ _ I p) as Hg. rewrite Forall_forall in Hg.
    destruct (Hg r) as [[_ ?] ?]; [by apply list_elem_of_In|done]. }
  exists acts, s. split_and!; [done|done|]. intros q session info h suffix params Hsub Hh Hneg Htold.
  rewrite (told_of_inv _ _ _ _ _ _ _ suffix I Hsub Hh) in Htold. set (p := rev suffix ++ q) in *.
  destruct (routeFor _ _ _) as [r|] eqn:Hr; [|done]. cbn [mbind option_bind] in Htold.
  pose proof (routeFor_In _ _ _ _ Hr) as Hin. destruct (Hkept p r Hin) as [Hpath Hcost].
  unfold routeFor, advertisableRoute in Hr.
  match type of Hr with selectRoute ?f ?n = _ => pose proof (selectRoute_spec f n) as Hsel; rewrite Hr in Hsel end.
  destruct Hsel as (_ & Hel & _). apply andb_true_iff in Hel as [_ Hfwd]. cbn [fst snd] in Hfwd.
  apply shouldForward_hops in Hfwd as [Hne Hpeer].
  unfold setOutgoingHopPath in Htold. rewrite Hneg in Htold. cbn [negb] in Htold.
  destruct (getNegotiatedVersion session) as [v|] eqn:Ev; [|done]. cbn [mbind option_bind] in Htold.
  destruct (encodeRelayHopPath _ v) as [e|] eqn:Ee; [|done]. cbn [mbind option_bind] in Htold. injection Htold as <-.
  exists r, e, v. split_and!; [done|congruence|done|done|done|by eapply decode_encode|done|done].
Qed.

(** In any run a session's subscriptions to tracks never overlap: none of its
    prefixes is a prefix of another, so a track is never matched by two of them. *)
Theorem tracks_subscriptions_disjoint (ops : list (NsRelayOp E)) :
  relay_ops_ok relayID_ relayHopID_ allowed ops newRelaySys ->
  exists acts s, relay_run relayID_ relayHopID_ allowed ops newRelaySys = Some (acts, s) /\
    forall session p q, subscribedAt (tracksTree_ (rs_relay s)) session p -> subscribedAt (tracksTree_ (rs_relay s)) session q ->
      p `suffix_of` q -> p = q.
Proof using SL HL Hhop.
  intros Hok. destruct (relay_run_ok relayID_ relayHopID_ allowed Hhop ops newRelaySys ∅ (newRelaySys_ok relayHopID_) Hok)
    as (acts & s & Hrun & [_ T]).
  exists acts, s. split; [done|]. apply T.
Qed.
End theorems.

(** ** The limit on matches *)
Section bound.
Context (collectTracks countTracks : bool) (leftOut : Session -> bool) (getForwarderRef : FullTrackName -> option Z).

Lemma collectPublish_bounded ns m publish : countMatches m <= kMaxNamespaceMatches + 1 ->
  countMatches (collectPublish true countTracks leftOut getForwarderRef ns m publish) <= kMaxNamespaceMatches + 1.
Proof.
  intros Hm. unfold collectPublish, overLimit. cbn [andb]. destruct (Z.ltb_spec kMaxNamespaceMatches (countMatches m)); [done|].
  destruct (leftOut _); [done|]. unfold countMatches in *.
  destruct countTracks; cbn [namespaceMatches trackMatches trackCount]; [lia|].
  destruct (getForwarderRef _); cbn [namespaceMatches trackMatches trackCount]; rewrite ?length_app, ?Nat2Z.inj_add; cbn [length]; lia.
Qed.

Lemma collectNode_bounded advertisable t m p : countMatches m <= kMaxNamespaceMatches + 1 ->
  countMatches (collectNode true collectTracks countTracks leftOut getForwarderRef advertisable t m p) <= kMaxNamespaceMatches + 1.
Proof.
  intros Hm. unfold collectNode. destruct (nodes t !! p) as [n|]; [|done]. unfold overLimit. cbn [andb].
  destruct (Z.ltb_spec kMaxNamespaceMatches (countMatches m)); [done|]. set (m1 := if advertisable n then _ else _).
  assert (Hm1 : countMatches m1 <= kMaxNamespaceMatches + 1).
  { subst m1. unfold countMatches in *. destruct (advertisable n); [|lia]. cbn [namespaceMatches trackMatches trackCount].
    rewrite length_app, Nat2Z.inj_add. cbn [length]. lia. }
  destruct (_ && _); [done|]. revert Hm1. generalize m1. induction (map_to_list (publishes_ n)) as [|x l IH]; intros m2 Hm2; [done|].
  cbn [fold_left]. apply IH. by apply collectPublish_bounded.
Qed.
End bound.

(** Whatever the tree holds, a walk that is subject to the limit collects at
    most one match more than the limit. *)
Theorem matches_bounded (collectTracks countTracks : bool) (leftOut : Session -> bool)
    (getForwarderRef : FullTrackName -> option Z) (advertisable : NamespaceNode -> bool) (nsp : list string) (t : NamespaceTree) :
  countMatches (collectMatches true collectTracks countTracks leftOut getForwarderRef advertisable nsp t)
    <= kMaxNamespaceMatches + 1.
Proof.
  unfold collectMatches. destruct (findNode nsp false t) as [[[anchor|] ?] ?]; cbn [fst]; [|by vm_compute].
  assert (H0 : countMatches noMatches <= kMaxNamespaceMatches + 1) by (by vm_compute). revert H0.
  generalize noMatches. induction (forEachNodeInSubtree anchor t) as [|x l IH]; intros m Hm; [done|].
  cbn [fold_left]. apply IH. by apply collectNode_bounded.
Qed.

Section limit.
Context {SA : SessionApi} {SL : SessionLaws SA} {E : Type} {HC : HopCodec E} {hop_ok : Z -> Prop} {HL : HopCodecLaws HC hop_ok}.
Context (relayID_ : string) (relayHopID_ : Z) (allowed : list string) (Hhop : hop_ok relayHopID_).

Lemma limitApplies_exact req v :
  limitApplies relayID_ req v =
  (bool_decide (relayID_ = EmptyString) || bool_decide (default EmptyString (sn_relayID req) = EmptyString)) &&
  (18 <=? getDraftMajorVersion v).
Proof. unfold limitApplies, peerOf. f_equal. destruct (bool_decide (relayID_ = EmptyString)); [by rewrite bool_decide_true|done]. Qed.

(** (C31) In any reachable state a SUBSCRIBE_NAMESPACE of a prefix the session does
    not have yet is answered; it is refused as too large exactly when the limit
    applies to it (no peer relay, draft 18 or later) and all its matches together
    are more than the limit, although the walk stops at the limit; when it is
    refused no one is told anything and the trees stay as they are. *)
Theorem subscribe_namespace_limit (ops : list (NsRelayOp E)) acts0 s0 req session handle reciprocated getForwarderRef fresh v :
  relay_ops_ok relayID_ relayHopID_ allowed ops newRelaySys ->
  relay_run relayID_ relayHopID_ allowed ops newRelaySys = Some (acts0, s0) ->
  not_subscribed (namespaceTree_ (rs_relay s0)) (sn_trackNamespacePrefix req) session ->
  getNegotiatedVersion session = Some v -> (handle = None \/ handle = Some (rs_next s0)) ->
  let s := recordPeer relayID_ req session reciprocated (rs_relay s0) in
  let en := (bool_decide (relayID_ = EmptyString) || bool_decide (default EmptyString (sn_relayID req) = EmptyString)) &&
    (18 <=? getDraftMajorVersion v) in
  let all := subscribeMatches relayID_ relayHopID_ false en req session handle getForwarderRef s in
  exists r acts s', subscribeNamespaceImpl (E := E) relayID_ relayHopID_ req session handle reciprocated getForwarderRef fresh
      (rs_relay s0) = Some (r, acts, s') /\
    r = (if en && (kMaxNamespaceMatches <? countMatches all) then Err NAMESPACE_TOO_LARGE else Ok tt) /\
    (r <> Ok tt -> s' = s /\ forall told, tell acts told = told).
Proof using SL HL Hhop.
  intros Hok Hrun Hnot Hv Hh s en. rewrite <- (limitApplies_exact req v : _ = en). clear en.
  set (en := limitApplies relayID_ req v). intros all.
  destruct (relay_run_ok relayID_ relayHopID_ allowed Hhop ops newRelaySys ∅ (newRelaySys_ok relayHopID_) Hok)
    as (acts1 & s1 & Hrun1 & [I _]). assert (s1 = s0) as -> by congruence.
  destruct (subscribeNamespaceImpl_ok relayHopID_ Hhop relayID_ req session handle reciprocated getForwarderRef fresh _ _ _ I Hnot)
    as (r & acts & s' & Hsub & _ & _).
  { destruct Hh as [->| ->]; [done|by intros h [= <-]]. }
  exists r, acts, s'. split; [done|]. unfold subscribeNamespaceImpl in Hsub. cbv zeta in Hsub. rewrite Hv in Hsub.
  cbn [mbind option_bind] in Hsub. fold s in Hsub. fold en in Hsub.
  assert (Hov : overLimit en (subscribeMatches relayID_ relayHopID_ en en req session handle getForwarderRef s) =
    en && (kMaxNamespaceMatches <? countMatches all)).
  { unfold all. destruct en; [|done]. cbn [andb]. unfold subscribeMatches. apply collectMatches_limit. }
  rewrite Hov in Hsub. destruct (en && _).
  - injection Hsub as <- <- <-. split; [done|]. intros _. split; [done|]. intros told. by destruct (peerOf _ _).
  - destruct (addNamespaceSubscriber _ _ _ _) as [[? ?]|]; [|done]. cbn [mbind option_bind] in Hsub.
    destruct (match sn_trackFilter req with Some _ => _ | None => _ end) as [[? ?]|]; [|done]. cbn [mbind option_bind] in Hsub.
    destruct (reconcileNodes _ _ _ _ _) as [[? ?]|]; [|done]. cbn [mbind option_bind] in Hsub. injection Hsub as <- _ _. done.
Qed.

(** ** Who a track is published to *)
(** The subscribers a published track goes to directly. *)
Definition wantsTrack (s : RelayNs) (p : path) (out : Session) (info : NamespaceSubscriberInfo) : Prop :=
  (subAbove (namespaceTree_ s) p (out, info) /\ si_trackFilter info = None /\ si_options info <> NAMESPACE) \/
  subAbove (tracksTree_ s) p (out, info).

Lemma publishToNamespaces_spec session forwarder subs out forward :
  AddSubscriberAndPublish out forwarder forward ∈ publishToNamespaces (E := E) session forwarder subs <->
  exists info, (out, info) ∈ subs /\ out <> session /\ si_trackFilter info = None /\ si_options info <> NAMESPACE /\
    forward = si_forward info.
Proof.
  unfold publishToNamespaces. rewrite list_elem_of_omap. split.
  - intros ([s i] & Hin & Ha). destruct (si_trackFilter i) eqn:Ef; cbn in Ha; [done|].
    destruct (_ && _) eqn:Eb in Ha; [|done]. injection Ha as <- <-. apply andb_true_iff in Eb as [Eb1%negb_true_iff%Z.eqb_neq Eb2].
    exists i. split_and!; [done|done|done| |done].
    by apply orb_true_iff in Eb2 as [->%bool_decide_eq_true| ->%bool_decide_eq_true].
  - intros (info & Hin & Hne & Hf & Ho & ->). exists (out, info). split; [done|]. rewrite Hf. cbn.
    destruct (Z.eqb_spec out session); [done|]. by destruct (si_options info).
Qed.

Lemma publishToTracks_spec session forwarder subs out forward :
  AddSubscriberAndPublish out forwarder forward ∈ publishToTracks (E := E) session forwarder subs <->
  exists info, (out, info) ∈ subs /\ out <> session /\ forward = si_forward info.
Proof.
  unfold publishToTracks. rewrite list_elem_of_omap. split.
  - intros ([s i] & Hin & Ha). exists i. destruct (Z.eqb_spec s session); cbn in Ha; simplify_eq. by split_and!.
  - intros (info & Hin & Hne & ->). exists (out, info). split; [done|]. by destruct (Z.eqb_spec out session).
Qed.

(** (C25) In any reachable state, a published track is recorded under its
    namespace, it is published to exactly the subscribers of the namespaces above
    it that asked for tracks without a filter and to the track subscribers above
    it, the publisher's own session apart, each with the forwarding it asked for;
    and the publisher is asked to forward exactly when one of them wants objects
    or a filter has to rank them. *)
Theorem publish_reaches_subscribers (ops : list (NsRelayOp E)) acts0 s0 f session forwarder :
  relay_ops_ok relayID_ relayHopID_ allowed ops newRelaySys ->
  relay_run relayID_ relayHopID_ allowed ops newRelaySys = Some (acts0, s0) ->
  let p := rev (trackNamespace f) in
  exists shouldForward acts s', publishFanout (E := E) f session forwarder (rs_relay s0) = Some (shouldForward, acts, s') /\
    (view (namespaceTree_ s') p).1.2 !! trackName f = Some session /\
    (forall out forward, AddSubscriberAndPublish out forwarder forward ∈ acts <->
       out <> session /\ exists info, wantsTrack (rs_relay s0) p out info /\ forward = si_forward info) /\
    (shouldForward = true <->
       (exists out info, out <> session /\ wantsTrack (rs_relay s0) p out info /\ si_forward info = true) \/
       (exists e, subAbove (namespaceTree_ (rs_relay s0)) p e /\ is_Some (si_trackFilter e.2))).
Proof using SL HL Hhop.
  intros Hok Hrun p. set (s := rs_relay s0).
  destruct (relay_run_ok relayID_ relayHopID_ allowed Hhop ops newRelaySys ∅ (newRelaySys_ok relayHopID_) Hok)
    as (acts1 & s1 & Hrun1 & [I T]). assert (s1 = s0) as -> by congruence. fold s in I, T.
  unfold publishFanout.
  pose proof (addPublish_step (trackNamespace f) (trackName f) session (namespaceTree_ s) (ni_tree _ _ _ _ I)) as Hst.
  destruct (view (namespaceTree_ s) (rev (trackNamespace f))) as [[rs ps] ss] eqn:Hv.
  destruct Hst as ([[p' subs] rankings] & t' & Hadd & _ & _ & Hv'). rewrite Hadd. cbn [mbind option_bind].
  destruct (addPublish_changed _ _ _ _ _ _ _ _ (ni_tree _ _ _ _ I) Hadd) as [-> Hsubs _].
  pose proof (findNode_above (trackNamespace f) (tracksTree_ s) (proj1 (tk_tree _ T))) as Htr.
  destruct (findNode (trackNamespace f) false (tracksTree_ s)) as [[found tracksSubs] x].
  set (tsubs := tracksSubs ++ _) in *. fold p in Htr, Hsubs, Hv'.
  set (published := publishToNamespaces session forwarder subs). set (tracksPublished := publishToTracks session forwarder tsubs).
  assert (Hpub : forall out forward, AddSubscriberAndPublish out forwarder forward ∈ published ++ tracksPublished <->
    out <> session /\ exists info, wantsTrack s p out info /\ forward = si_forward info).
  { intros out forward. rewrite elem_of_app. unfold published, tracksPublished.
    rewrite publishToNamespaces_spec, publishToTracks_spec. unfold wantsTrack. setoid_rewrite Htr. setoid_rewrite Hsubs. split.
    - intros [(i & H1 & H2 & H3 & H4 & H5)|(i & H1 & H2 & H3)]; (split; [done|exists i; tauto]).
    - intros [H1 (i & [(H2 & H3 & H4)|H2] & H5)]; [left|right]; exists i; tauto. }
  assert (Hform : forall a, a ∈ published ++ tracksPublished -> exists out forward, a = AddSubscriberAndPublish out forwarder forward).
  { intros a [Ha|Ha]%elem_of_app; apply list_elem_of_omap in Ha as ([s' i] & _ & Ha).
    - destruct (bool_decide _); [done|]. destruct (_ && _); [|done]. injection Ha as <-. eauto.
    - destruct (negb _); [|done]. injection Ha as <-. eauto. }
  eexists _, _, _. split; [done|]. cbn [namespaceTree_ set_namespaceTree]. split; [|split].
  - rewrite Hv', decide_True by done. cbn. apply lookup_insert_eq.
  - intros out forward. rewrite <- Hpub. rewrite !elem_of_app, list_elem_of_singleton. split; [|tauto].
    intros [Ha|[?|[?|?]]]; [|tauto|tauto|done]. by apply list_elem_of_In, in_map_iff in Ha as (y & ? & _).
  - rewrite orb_true_iff, !existsb_exists. split.
    + intros [(a & Ha & Hf)|([s' i] & Hin & Hf%bool_decide_eq_true)].
      * left. apply list_elem_of_In in Ha. destruct (Hform a Ha) as (out & forward & ->). cbn in Hf. subst forward.
        apply Hpub in Ha as [Hne (i & Hw & Hfw)]. by exists out, i.
      * right. exists (s', i). split; [|done]. by apply Hsubs, list_elem_of_In.
    + intros [(out & i & Hne & Hw & Hf)|(e & He & Hf)].
      * left. exists (AddSubscriberAndPublish out forwarder true). split; [|done]. apply list_elem_of_In, Hpub. split; [done|]. by exists i.
      * right. exists e. split; [by apply list_elem_of_In, Hsubs|]. by apply bool_decide_eq_true.
Qed.
End limit.

(** ** Examples *)

(** Sessions 10 and above take part in the cluster, with their number as hop. *)
#[local] Instance exampleSessions : SessionApi := {|
  sessionId := fun s => s;
  negotiatedRelayHops := fun s => 10 <=? s;
  getPeerHopID := fun s => if 10 <=? s then s else 0;
  getRelayLinkCost := fun _ => 1;
  getNegotiatedVersion := fun _ => Some 18;
  getDraftMajorVersion := fun v => v;
|}.
#[local] Instance exampleCodec : HopCodec (list Z) := {|
  encodeRelayHopPath := fun hops _ => Some hops;
  decodeRelayHopPath := fun e _ => Some e;
|}.
#[local] Instance exampleSessions_laws : SessionLaws exampleSessions.
Proof. split; [by intros ? ?|by eexists|]. intros s. cbn. unfold u64_ok, u64_modulus. lia. Qed.
#[local] Instance exampleCodec_laws : HopCodecLaws exampleCodec (fun _ => True).
Proof. split; cbn; [done|by eexists| |congruence]. intros e v path _. by apply Forall_true. Qed.

Lemma relay_ops_ok_cons relayID hop allowed (op : NsRelayOp (list Z)) ops s acts s' :
  relay_op_ok op s -> relay_step relayID hop allowed op s = Some (acts, s') -> relay_ops_ok relayID hop allowed ops s' ->
  relay_ops_ok relayID hop allowed (op :: ops) s.
Proof. intros H1 H2 H3. split; [done|]. intros acts1 s1. rewrite H2. by intros [= <- <-]. Qed.

Definition noForwarder (f : FullTrackName) : option Z := None.
Definition subscribeReq (nsp : list string) (options : SubscribeNamespaceOptions) (relayID : option string) : SubscribeNamespace :=
  mkSubscribeNamespace 1 nsp true options None relayID.
Definition announce_ (ns : list string) (session : Session) (params : RouteParams (list Z)) : NsRelayOp (list Z) :=
  RPublishNamespace (mkPublishNamespace 5 ns params) session None EmptyString.

(** A plain subscriber (3) of [live] and a cluster peer (12); the namespace is
    announced by two peers, the better path passes the peer 12; one of them is
    updated, then a plain publisher (4) announces too, tracks are subscribed to
    and published, and the first peer's route ends. *)
Definition nsExample : list (NsRelayOp (list Z)) :=
  [RSubscribeNamespace (subscribeReq ["live"] NAMESPACE None) 3 true false noForwarder 0;
   RSubscribeNamespace (subscribeReq [] BOTH (Some "B")) 12 true true noForwarder 0;
   announce_ ["live"; "cam"] 11 (mkParams (Some [12; 11]) (Some 1));
   announce_ ["live"; "cam"] 13 (mkParams (Some [13]) (Some 7));
   RUpdateNamespace ["live"; "cam"] 13 5 (mkParams None (Some 3));
   announce_ ["live"; "mic"] 4 (mkParams None None);
   RSubscribeTracks (mkSubscribeTracks 2 ["live"] true None) 3 noForwarder;
   RPublish (FTN ["live"; "cam"] "video") 4 100;
   RNamespaceDone ["live"; "mic"] 4 None]%string.

Lemma nsExample_ok : relay_ops_ok "A" 1 [] nsExample newRelaySys.
Proof.
  assert (Hann : forall s (params : RouteParams (list Z)), (10 <=? s) = false \/ (exists e, HOP_PATH params = Some e /\ e <> []) ->
    (forall c, ROUTE_COST params = Some c -> u64_ok c) -> announcement_ok s params).
  { intros s params Hs Hc. split; [split; [by eexists|done]|]. cbn. intros Hn v _.
    destruct Hs as [Hs|(e & He & Hne)]; [congruence|]. by exists e, e. }
  unfold nsExample.
  eapply relay_ops_ok_cons; [by vm_compute|vm_compute; reflexivity|].
  eapply relay_ops_ok_cons; [by vm_compute|vm_compute; reflexivity|].
  eapply relay_ops_ok_cons; [|vm_compute; reflexivity|].
  { apply Hann; [right; by eexists|]. intros c [= <-]. unfold u64_ok, u64_modulus. lia. }
  eapply relay_ops_ok_cons; [|vm_compute; reflexivity|].
  { apply Hann; [right; by eexists|]. intros c [= <-]. unfold u64_ok, u64_modulus. lia. }
  eapply relay_ops_ok_cons; [|vm_compute; reflexivity|].
  { intros s Hs. cbn in Hs. subst s. split; [split; [by eexists|]|done]. intros c [= <-]. unfold u64_ok, u64_modulus. lia. }
  eapply relay_ops_ok_cons; [|vm_compute; reflexivity|].
  { apply Hann; [by left|done]. }
  eapply relay_ops_ok_cons; [done|vm_compute; reflexivity|].
  eapply relay_ops_ok_cons; [done|vm_compute; reflexivity|].
  eapply relay_ops_ok_cons; [done|vm_compute; reflexivity|]. done.
Qed.

Definition nsExampleRun : list (RelayAct (list Z)) * RelaySys :=
  default ([], newRelaySys) (relay_run "A" 1 [] nsExample newRelaySys).

Lemma namespace_view_exact_witness :
  tell nsExampleRun.1 ∅ !! (0, ["cam"]%string) = Some (mkParams None None) /\
  tell nsExampleRun.1 ∅ !! (1, ["live"; "cam"]%string) = Some (mkParams (Some [13; 1]) (Some 4)) /\
  tell nsExampleRun.1 ∅ !! (0, ["mic"]%string) = None.
Proof.
  destruct (namespace_view_exact "A" 1 [] Logic.I nsExample nsExample_ok) as (acts & s & Hrun & Htold).
  assert (Hr : nsExampleRun = (acts, s)) by (unfold nsExampleRun; by rewrite Hrun). rewrite Hr. cbn [fst].
  assert (Hs : s = nsExampleRun.2) by (by rewrite Hr). clear Hrun Hr. subst s.
  split_and!.
  - rewrite (Htold ["live"%string] 3 (mkSubscriberInfo true NAMESPACE (Some 0) ["live"%string] None "") 0); vm_compute; reflexivity.
  - rewrite (Htold [] 12 (mkSubscriberInfo true BOTH (Some 1) [] None "B") 1); vm_compute; reflexivity.
  - rewrite (Htold ["live"%string] 3 (mkSubscriberInfo true NAMESPACE (Some 0) ["live"%string] None "") 0); vm_compute; reflexivity.
Defined.

Lemma cluster_paths_loop_free_witness : exists r : Route,
  In r (routesAt (namespaceTree_ (rs_relay nsExampleRun.2)) ["cam"; "live"]%string) /\
  clusterPathContains (r_path r ++ [1]) 12 = false /\ clusterPathContains (r_path r) 1 = false /\ u64_ok (r_cost r).
Proof.
  destruct (cluster_paths_loop_free "A" 1 [] Logic.I nsExample nsExample_ok) as (acts & s & Hrun & Hkept & Htold).
  assert (Hr : nsExampleRun = (acts, s)) by (unfold nsExampleRun; by rewrite Hrun).
  assert (Hs : s = nsExampleRun.2) by (by rewrite Hr). assert (Ha : acts = nsExampleRun.1) by (by rewrite Hr). clear Hrun Hr. subst s acts.
  destruct (Htold [] 12 (mkSubscriberInfo true BOTH (Some 1) [] None "B") 1 ["live"; "cam"]%string (mkParams (Some [13; 1]) (Some 4)))
    as (r & e & v & Hin & _ & _ & _ & _ & _ & _ & H3); [vm_compute; reflexivity..|].
  destruct (Hkept _ r Hin) as [H1 H2]. exists r. split; [exact Hin|]. split; [exact H3|]. split; [exact H1|exact H2].
Defined.

Lemma tracks_subscriptions_disjoint_witness : exists s : RelaySys,
  subscribedAt (tracksTree_ (rs_relay s)) 3 ["live"%string] /\
  forall q, subscribedAt (tracksTree_ (rs_relay s)) 3 q -> ["live"%string] `suffix_of` q -> ["live"%string] = q.
Proof.
  destruct (tracks_subscriptions_disjoint "A" 1 [] Logic.I nsExample nsExample_ok) as (acts & s & Hrun & H).
  assert (Hr : nsExampleRun = (acts, s)) by (unfold nsExampleRun; by rewrite Hrun).
  assert (Hs : s = nsExampleRun.2) by (by rewrite Hr). clear Hrun Hr. subst s.
  exists nsExampleRun.2. assert (Hsub : subscribedAt (tracksTree_ (rs_relay nsExampleRun.2)) 3 ["live"%string]) by (vm_compute; by eexists).
  split; [done|]. intros q Hq. by apply H with (session := 3).
Defined.

Lemma nsExample_run : relay_run "A" 1 [] nsExample newRelaySys = Some nsExampleRun.
Proof. by vm_compute. Qed.

Lemma subscribe_namespace_limit_witness : exists acts s',
  subscribeNamespaceImpl (E := list Z) "A" 1 (subscribeReq ["live"%string] BOTH None) 6 (Some 2) false noForwarder 0
    (rs_relay nsExampleRun.2) = Some (Ok tt, acts, s').
Proof.
  destruct (subscribe_namespace_limit "A" 1 [] Logic.I nsExample nsExampleRun.1 nsExampleRun.2
    (subscribeReq ["live"%string] BOTH None) 6 (Some 2) false noForwarder 0 18 nsExample_ok)
    as (r & acts & s' & Hsub & Hr & _); [by rewrite nsExample_run; destruct nsExampleRun|by vm_compute|done|right; by vm_compute|].
  exists acts, s'. rewrite Hsub, Hr. vm_compute. reflexivity.
Defined.

Lemma publish_reaches_subscribers_witness : exists acts s',
  publishFanout (E := list Z) (FTN ["live"; "cam"]%string "audio") 4 101 (rs_relay nsExampleRun.2) = Some (true, acts, s') /\
  AddSubscriberAndPublish 3 101 true ∈ acts /\ ~ AddSubscriberAndPublish 4 101 true ∈ acts.
Proof.
  destruct (publish_reaches_subscribers "A" 1 [] Logic.I nsExample nsExampleRun.1 nsExampleRun.2 (FTN ["live"; "cam"]%string "audio") 4 101
    nsExample_ok) as (fwd & acts & s' & Hpub & _ & Hreach & Hfwd); [by rewrite nsExample_run; destruct nsExampleRun|].
  assert (Hw : wantsTrack (rs_relay nsExampleRun.2) (rev ["live"; "cam"]%string) 3
    (mkSubscriberInfo true PUBLISH None ["live"%string] None "")).
  { right. exists ["live"%string]. split; [by exists ["cam"%string]|]. by vm_compute. }
  set (info := mkSubscriberInfo _ _ _ _ _ _) in Hw.
  assert (fwd = true) as -> by (apply Hfwd; left; exists 3, info; split; [discriminate|split; [exact Hw|reflexivity]]).
  exists acts, s'. split; [exact Hpub|]. split.
  - apply Hreach. split; [discriminate|]. exists info. split; [exact Hw|reflexivity].
  - intros Hin. apply Hreach in Hin as [Hne _]. by apply Hne.
Defined.

(** ** A second subscription of the same prefix *)
Definition resubscribe : list (NsRelayOp (list Z)) :=
  [announce_ ["live"; "cam"] 4 (mkParams None None);
   RSubscribeNamespace (subscribeReq ["live"] NAMESPACE None) 3 true false noForwarder 0;
   RSubscribeNamespace (subscribeReq ["live"] NAMESPACE None) 3 true false noForwarder 0;
   announce_ ["live"; "mic"] 4 (mkParams None None);
   RUnsubscribeNamespace ["live"] 3;
   announce_ ["live"; "aux"] 4 (mkParams None None)]%string.

(** A session that subscribes again to a prefix it is subscribed to is
    answered with success, but its second subscription is never told of any
    namespace, neither those that exist nor later ones; and the end of either
    subscription ends the other. *)
Theorem resubscribe_unheard :
  exists acts s, relay_run "A" 1 [] resubscribe newRelaySys = Some (acts, s) /\
    (forall suffix params, ~ NamespaceMsg 1 suffix params ∈ acts) /\
    NamespaceMsg 0 ["mic"%string] (mkParams None None) ∈ acts /\
    (forall params, ~ NamespaceMsg 0 ["aux"%string] params ∈ acts).
Proof.
  eexists _, _. split; [vm_compute; reflexivity|].
  split_and!; [intros suffix params|do 3 (first [by left|right])|intros params]; rewrite ?list_elem_of_In; cbn; intuition congruence.
Qed.

(** ** Tracks of a peer relay *)
Definition peerTracks (publishFirst : bool) : list (NsRelayOp (list Z)) :=
  let subscribe1 := RSubscribeNamespace (subscribeReq [] BOTH (Some "B"%string)) 21 true true (fun _ => Some 100) 0 in
  let subscribe2 := RSubscribeNamespace (subscribeReq [] BOTH (Some "B"%string)) 22 true true (fun _ => Some 100) 0 in
  let publish := RPublish (FTN ["live"%string] "video") 22 100 in
  if publishFirst then [subscribe2; publish; subscribe1] else [subscribe2; subscribe1; publish].

(** A track that a peer relay publishes on one of its sessions is not sent
    back to that relay when another session of it subscribes later, but it is sent
    back when that session had subscribed before. *)
Theorem peer_track_echoed :
  (exists acts s, relay_run "A" 1 [] (peerTracks true) newRelaySys = Some (acts, s) /\
     forall forward, ~ AddSubscriberAndPublish 21 100 forward ∈ acts) /\
  (exists acts s, relay_run "A" 1 [] (peerTracks false) newRelaySys = Some (acts, s) /\
     AddSubscriberAndPublish 21 100 true ∈ acts).
Proof.
  split; eexists _, _; (split; [vm_compute; reflexivity|]).
  - intros forward. rewrite list_elem_of_In. cbn. intuition congruence.
  - rewrite list_elem_of_In. cbn. tauto.
Qed.
