(* ===== verification/CborReader.v ===== *)
(** The CBOR decoder of the authorization tokens (auth/CborReader.h).

    A reader is the data and the position in it; an operation that returns
    [false] in the code is [None] here (every caller gives up then). *)

From Stdlib Require Import Strings.Byte.
From S2P Require Import Prelude.

Abbreviation bytes := (list byte).

Module cbor.
Definition kMajorShift : Z := 5.
Definition kAddlInfoMask : Z := 31.
Definition kMajorUnsigned : Z := 0.
Definition kMajorNegative : Z := 1.
Definition kMajorByteString : Z := 2.
Definition kMajorTextString : Z := 3.
Definition kMajorArray : Z := 4.
Definition kMajorMap : Z := 5.
Definition kAddlInfoDirectMax : Z := 24.
Definition kAddlInfo1Byte : Z := 24.
Definition kAddlInfo2Byte : Z := 25.
Definition kAddlInfo4Byte : Z := 26.
Definition kAddlInfo8Byte : Z := 27.
End cbor.

Definition int64_max : Z := 2 ^ 63 - 1.
Definition byteZ (b : byte) : Z := Z.of_N (Byte.to_N b).

Record CborReader := mkReader { data_ : bytes; pos_ : nat }.
Definition newReader (data : bytes) : CborReader := mkReader data 0.

Definition advance (n : nat) (r : CborReader) : CborReader := mkReader (data_ r) (pos_ r + n).
Definition remaining (r : CborReader) : Z := Z.of_nat (length (data_ r) - pos_ r).

Definition eof (r : CborReader) : bool := (pos_ r =? length (data_ r))%nat.

(** How many bytes of the value follow the first byte. *)
Definition valueBytes (addl : Z) : option nat :=
  if addl =? cbor.kAddlInfo1Byte then Some 1%nat
  else if addl =? cbor.kAddlInfo2Byte then Some 2%nat
  else if addl =? cbor.kAddlInfo4Byte then Some 4%nat
  else if addl =? cbor.kAddlInfo8Byte then Some 8%nat
  else None.

(** [value = (value << 8) | byte], on 64 bits. *)
Definition shiftIn (value : Z) (b : byte) : Z := Z.lor (u64 (Z.shiftl value 8)) (byteZ b).

Definition readType (r : CborReader) : option (Z * Z * CborReader) :=
  match data_ r !! pos_ r with
  | None => None
  | Some first =>
    let r := advance 1 r in
    let major := Z.shiftr (byteZ first) cbor.kMajorShift in
    let addl := Z.land (byteZ first) cbor.kAddlInfoMask in
    if addl <? cbor.kAddlInfoDirectMax then Some (major, addl, r)
    else
      n ← valueBytes addl;
      if remaining r <? Z.of_nat n then None
      else Some (major, fold_left shiftIn (take n (drop (pos_ r) (data_ r))) 0, advance n r)
  end.

Definition readUInt (r : CborReader) : option (Z * CborReader) :=
  '(major, value, r) ← readType r;
  if major =? cbor.kMajorUnsigned then Some (value, r) else None.

Definition readInt (r : CborReader) : option (Z * CborReader) :=
  '(major, value, r) ← readType r;
  if major =? cbor.kMajorUnsigned then
    if int64_max <? value then None else Some (value, r)
  else if major =? cbor.kMajorNegative then
    if int64_max <? value then None else Some (-1 - value, r)
  else None.

Definition readBytes (r : CborReader) : option (bytes * CborReader) :=
  '(major, len, r) ← readType r;
  if ((major =? cbor.kMajorByteString) || (major =? cbor.kMajorTextString)) && negb (remaining r <? len)
  then Some (take (Z.to_nat len) (drop (pos_ r) (data_ r)), advance (Z.to_nat len) r)
  else None.

Definition readArrayLen (r : CborReader) : option (Z * CborReader) :=
  '(major, len, r) ← readType r;
  if major =? cbor.kMajorArray then Some (len, r) else None.

Definition readMapLen (r : CborReader) : option (Z * CborReader) :=
  '(major, len, r) ← readType r;
  if major =? cbor.kMajorMap then Some (len, r) else None.

(** [skip] and its loops over the elements; every element takes at least one
    byte, so fuel linear in what is left is enough ([skip_stable]).  The number
    of elements of a map is [value * 2] on 64 bits. *)
Fixpoint skip_fuel (fuel : nat) (r : CborReader) {struct fuel} : option CborReader :=
  match fuel with
  | O => None
  | S fuel =>
    '(major, value, r) ← readType r;
    if (major =? cbor.kMajorUnsigned) || (major =? cbor.kMajorNegative) then Some r
    else if (major =? cbor.kMajorByteString) || (major =? cbor.kMajorTextString) then
      if remaining r <? value then None else Some (advance (Z.to_nat value) r)
    else if major =? cbor.kMajorArray then skipItems fuel value r
    else if major =? cbor.kMajorMap then skipItems fuel (u64 (value * 2)) r
    else None
  end
with skipItems (fuel : nat) (n : Z) (r : CborReader) {struct fuel} : option CborReader :=
  if n <=? 0 then Some r
  else match fuel with
       | O => None
       | S fuel => r' ← skip_fuel fuel r; skipItems fuel (n - 1) r'
       end.

Definition skipFuel (r : CborReader) : nat := 2 * (length (data_ r) - pos_ r) + 1.
Definition skip (r : CborReader) : option CborReader := skip_fuel (skipFuel r) r.
Definition skipN (n : Z) (r : CborReader) : option CborReader := skipItems (S (skipFuel r)) n r.

(** ** What is left to read *)
Definition rest (r : CborReader) : bytes := drop (pos_ r) (data_ r).

Lemma rest_advance n r : rest (advance n r) = drop n (rest r).
Proof. unfold rest, advance. simpl. by rewrite drop_drop. Qed.
Lemma remaining_rest r : remaining r = Z.of_nat (length (rest r)).
Proof. unfold remaining, rest. by rewrite length_drop. Qed.
Lemma advance_advance m n r : advance n (advance m r) = advance (m + n) r.
Proof. unfold advance. simpl. f_equal. lia. Qed.
Lemma advance_0 r : advance 0 r = r.
Proof. destruct r. unfold advance. simpl. f_equal. lia. Qed.

(** ** The format (RFC 8949): heads and items *)
Definition bigEndian (bs : bytes) : Z := fold_left (fun v b => v * 256 + byteZ b) bs 0.

Lemma byteZ_range b : 0 <= byteZ b < 256.
Proof. unfold byteZ. pose proof (Byte.to_N_bounded b). lia. Qed.

Lemma bigEndian_app a b : bigEndian (a ++ [b]) = bigEndian a * 256 + byteZ b.
Proof. unfold bigEndian. by rewrite fold_left_app. Qed.
Lemma bigEndian_range bs : 0 <= bigEndian bs < 256 ^ Z.of_nat (length bs).
Proof.
  induction bs as [|b bs IH] using rev_ind; [done|]. rewrite bigEndian_app, length_app, Nat2Z.inj_add, Z.pow_add_r by lia.
  simpl (256 ^ Z.of_nat (length [b])). pose proof (byteZ_range b). nia.
Qed.

(** Shifting up to eight bytes in is reading them big-endian. *)
Lemma shiftIn_bigEndian bs : (length bs <= 8)%nat -> fold_left shiftIn bs 0 = bigEndian bs.
Proof.
  induction bs as [|b bs IH] using rev_ind; [done|]. intros Hl. rewrite length_app in Hl. simpl in Hl.
  rewrite fold_left_app, bigEndian_app, IH by lia. simpl. unfold shiftIn.
  pose proof (bigEndian_range bs) as Hr. pose proof (byteZ_range b) as Hb.
  assert (Hp : 256 ^ Z.of_nat (length bs) <= 256 ^ 7) by (apply Z.pow_le_mono_r; lia).
  change (256 ^ 7) with (2 ^ 56) in Hp.
  rewrite Z.shiftl_mul_pow2 by lia. rewrite u64_small by (unfold u64_ok, u64_modulus; lia).
  pose proof (Z.add_lor_land (bigEndian bs * 2 ^ 8) (byteZ b)) as Hadd.
  assert (Hz : Z.land (bigEndian bs * 2 ^ 8) (byteZ b) = 0); [|lia].
  apply Z.bits_inj_iff. intros i. rewrite Z.land_spec, Z.bits_0.
  destruct (Z_lt_ge_dec i 8) as [Hi|Hi].
  - rewrite Z.mul_pow2_bits_low by lia. done.
  - rewrite (Z.bits_above_log2 (byteZ b) i); [by rewrite andb_false_r|lia|].
    destruct (Z.eq_dec (byteZ b) 0) as [->|Hne]; [simpl; lia|].
    apply Z.log2_lt_pow2; [lia|]. assert (2 ^ 8 <= 2 ^ i) by (apply Z.pow_le_mono_r; lia). simpl in *. lia.
Qed.

(** [head major value h]: the bytes [h] are a head of that major type and value. *)
Inductive head (major value : Z) : bytes -> Prop :=
| head_direct b : 0 <= major < 8 -> 0 <= value < 24 -> byteZ b = major * 32 + value -> head major value [b]
| head_bytes b n bs : 0 <= major < 8 -> In n [0; 1; 2; 3] -> byteZ b = major * 32 + 24 + n ->
    Z.of_nat (length bs) = 2 ^ n -> bigEndian bs = value -> head major value (b :: bs).

(** [item pairs b]: the bytes [b] are one data item of the majors 0 to 5, with
    definite lengths; a map that announces [v] pairs has [pairs v] items. *)
Inductive item (pairs : Z -> Z) : bytes -> Prop :=
| item_int m v h : head m v h -> m = 0 \/ m = 1 -> item pairs h
| item_string m v h s : head m v h -> m = 2 \/ m = 3 -> Z.of_nat (length s) = v -> item pairs (h ++ s)
| item_array v h l : head 4 v h -> items pairs v l -> item pairs (h ++ l)
| item_map v h l : head 5 v h -> items pairs (pairs v) l -> item pairs (h ++ l)
with items (pairs : Z -> Z) : Z -> bytes -> Prop :=
| items_nil n : n <= 0 -> items pairs n []
| items_cons n a b : 0 < n -> item pairs a -> items pairs (n - 1) b -> items pairs n (a ++ b).

Scheme item_ind2 := Induction for item Sort Prop with items_ind2 := Induction for items Sort Prop.
Combined Scheme item_items_ind from item_ind2, items_ind2.

(** ** Heads *)
Lemma first_split b : Z.shiftr (byteZ b) cbor.kMajorShift = byteZ b `div` 32 /\
  Z.land (byteZ b) cbor.kAddlInfoMask = byteZ b `mod` 32.
Proof. split; [by rewrite Z.shiftr_div_pow2|]. change cbor.kAddlInfoMask with (Z.ones 5). by rewrite Z.land_ones. Qed.

Lemma rest_cons r b tl : rest r = b :: tl <-> data_ r !! pos_ r = Some b /\ rest (advance 1 r) = tl.
Proof.
  unfold rest, advance. simpl. replace (pos_ r + 1)%nat with (S (pos_ r)) by lia. split.
  - intros H. assert (Hl : data_ r !! pos_ r = Some b).
    { rewrite <- (Nat.add_0_r (pos_ r)), <- lookup_drop. by rewrite H. }
    split; [done|]. rewrite (drop_S _ _ _ Hl) in H. by injection H.
  - intros [Hl <-]. by apply drop_S.
Qed.

Lemma rest_prefix r h tl : rest r = h ++ tl -> rest (advance (length h) r) = tl /\ remaining r = Z.of_nat (length h + length tl).
Proof. intros H. rewrite rest_advance, remaining_rest, H, drop_app_length, length_app. done. Qed.

Lemma readType_complete m v h r tl : head m v h -> rest r = h ++ tl -> readType r = Some (m, v, advance (length h) r).
Proof.
  intros [b Hm Hv Hb|b n bs Hm Hn Hb Hl <-] Hr; simpl in Hr; apply rest_cons in Hr as [Hd Ht]; unfold readType; rewrite Hd;
    destruct (first_split b) as [-> ->]; rewrite Hb.
  - replace ((m * 32 + v) `div` 32) with m by (apply Z.div_unique with v; lia).
    replace ((m * 32 + v) `mod` 32) with v by (apply Z.mod_unique with m; lia).
    unfold cbor.kAddlInfoDirectMax. by replace (v <? 24) with true by lia.
  - assert (0 <= n <= 3) by (simpl in Hn; lia).
    replace ((m * 32 + 24 + n) `div` 32) with m by (apply Z.div_unique with (24 + n); lia).
    replace ((m * 32 + 24 + n) `mod` 32) with (24 + n) by (apply Z.mod_unique with m; lia).
    unfold cbor.kAddlInfoDirectMax. replace (24 + n <? 24) with false by lia.
    assert (Hvb : valueBytes (24 + n) = Some (length bs) /\ (length bs <= 8)%nat).
    { assert (length bs = Z.to_nat (2 ^ n)) as -> by lia. destruct Hn as [<-|[<-|[<-|[<-|[]]]]]; (split; [done|vm_compute; lia]). }
    destruct Hvb as [-> Hle]. simpl.
    destruct (rest_prefix _ _ _ Ht) as [_ Hrem]. rewrite Hrem.
    destruct (Z.ltb_spec (Z.of_nat (length bs + length tl)) (Z.of_nat (length bs))); [lia|].
    change (drop (pos_ r + 1) (data_ r)) with (rest (advance 1 r)).
    by rewrite Ht, take_app_length, shiftIn_bigEndian, advance_advance by done.
Qed.

Lemma readType_sound r m v r' : readType r = Some (m, v, r') ->
  exists h, head m v h /\ rest r = h ++ rest r' /\ r' = advance (length h) r.
Proof.
  unfold readType. destruct (data_ r !! pos_ r) as [b|] eqn:Hd; [|done].
  destruct (first_split b) as [-> ->]. pose proof (byteZ_range b) as Hb.
  assert (Hm : 0 <= byteZ b `div` 32 < 8) by (split; [apply Z.div_pos; lia|apply Z.div_lt_upper_bound; lia]).
  pose proof (Z.div_mod (byteZ b) 32 ltac:(lia)) as Hdm. pose proof (Z.mod_pos_bound (byteZ b) 32 ltac:(lia)) as Hmod.
  assert (Hrest : rest r = b :: rest (advance 1 r)) by (by apply rest_cons).
  unfold cbor.kAddlInfoDirectMax. destruct (byteZ b `mod` 32 <? 24) eqn:E.
  - intros [= <- <- <-]. exists [b]. split_and!; [|done|done]. constructor; lia.
  - destruct (valueBytes (byteZ b `mod` 32)) as [n|] eqn:Ev; [|done]. simpl.
    destruct (_ <? Z.of_nat n) eqn:El; [done|]. intros [= <- <- <-].
    rewrite remaining_rest in El. set (r1 := advance 1 r) in *.
    change (drop (pos_ r + 1) (data_ r)) with (rest r1).
    assert (Hlen : length (take n (rest r1)) = n) by (rewrite length_take; lia).
    exists (b :: take n (rest r1)). split_and!.
    + unfold valueBytes, cbor.kAddlInfo1Byte, cbor.kAddlInfo2Byte, cbor.kAddlInfo4Byte, cbor.kAddlInfo8Byte in Ev.
      assert (Hn : exists k, In k [0; 1; 2; 3] /\ byteZ b `mod` 32 = 24 + k /\ Z.of_nat n = 2 ^ k /\ (n <= 8)%nat).
      { destruct (_ =? 24) eqn:E1; [exists 0; injection Ev as <-; simpl; lia|].
        destruct (_ =? 25) eqn:E2; [exists 1; injection Ev as <-; simpl; lia|].
        destruct (_ =? 26) eqn:E3; [exists 2; injection Ev as <-; simpl; lia|].
        destruct (_ =? 27) eqn:E4; [exists 3; injection Ev as <-; simpl; lia|done]. }
      destruct Hn as (k & Hk & Hkm & Hnk & Hn8). apply (head_bytes _ _ b k); [lia|done|lia|lia|].
      rewrite shiftIn_bigEndian; [done|lia].
    + rewrite Hrest, rest_advance. simpl. by rewrite take_drop.
    + simpl. rewrite Hlen. unfold r1. rewrite advance_advance. done.
Qed.

Lemma head_nonempty m v h : head m v h -> (1 <= length h)%nat.
Proof. destruct 1; simpl; lia. Qed.
Lemma head_range m v h : head m v h -> 0 <= v < u64_modulus.
Proof.
  destruct 1 as [b Hm Hv Hb|b n bs Hm Hn Hb Hl <-]; [unfold u64_modulus; lia|].
  pose proof (bigEndian_range bs) as Hr. assert (256 ^ Z.of_nat (length bs) <= 256 ^ 8); [|unfold u64_modulus; simpl in *; lia].
  apply Z.pow_le_mono_r; [lia|]. rewrite Hl. destruct Hn as [<-|[<-|[<-|[<-|[]]]]]; vm_compute; done.
Qed.

(** Reading a head shortens what is left. *)
Lemma readType_shrinks r m v r' : readType r = Some (m, v, r') -> (length (rest r') < length (rest r))%nat.
Proof.
  intros H. apply readType_sound in H as (h & Hh & Hr & _). rewrite Hr, length_app.
  apply head_nonempty in Hh. lia.
Qed.

(** ** Skipping *)
Abbreviation left r := (length (rest r)).

Lemma skipFuel_left r : skipFuel r = (2 * left r + 1)%nat.
Proof. unfold skipFuel, rest. by rewrite length_drop. Qed.

Lemma advance_left n r : (left (advance n r) <= left r)%nat.
Proof. rewrite rest_advance, length_drop. lia. Qed.

Lemma skip_shrinks_both fuel :
  (forall r r', skip_fuel fuel r = Some r' -> (left r' < left r)%nat) /\
  (forall n r r', skipItems fuel n r = Some r' -> (left r' <= left r)%nat).
Proof.
  induction fuel as [|fuel [IH1 IH2]]; split.
  - done.
  - intros n r r'. simpl. destruct (n <=? 0); [by intros [= <-]|done].
  - intros r r' H. simpl in H. destruct (readType r) as [[[m v] r1]|] eqn:E; [|done]. simpl in H.
    apply readType_shrinks in E.
    destruct (_ || _); [by injection H as <-|]. destruct (_ || _).
    { destruct (_ <? v); [done|]. injection H as <-. pose proof (advance_left (Z.to_nat v) r1). lia. }
    destruct (_ =? cbor.kMajorArray); [apply IH2 in H; lia|]. destruct (_ =? cbor.kMajorMap); [apply IH2 in H; lia|done].
  - intros n r r' H. simpl in H. destruct (n <=? 0); [by injection H as <-|].
    destruct (skip_fuel fuel r) as [r1|] eqn:E; [|done]. simpl in H. apply IH1 in E. apply IH2 in H. lia.
Qed.

(** More fuel than the bytes left need changes nothing. *)
Lemma skip_stable_both fuel :
  (forall fuel' r, (2 * left r + 1 <= fuel)%nat -> (2 * left r + 1 <= fuel')%nat -> skip_fuel fuel r = skip_fuel fuel' r) /\
  (forall fuel' n r, (2 * left r + 2 <= fuel)%nat -> (2 * left r + 2 <= fuel')%nat ->
     skipItems fuel n r = skipItems fuel' n r).
Proof.
  induction fuel as [|fuel [IH1 IH2]]; split; intros fuel'; [lia|lia| |].
  - intros r H H'. destruct fuel' as [|fuel']; [lia|]. simpl.
    destruct (readType r) as [[[m v] r1]|] eqn:E; [|done]. simpl. apply readType_shrinks in E.
    destruct (_ || _); [done|]. destruct (_ || _); [done|].
    destruct (_ =? cbor.kMajorArray); [apply IH2; lia|]. destruct (_ =? cbor.kMajorMap); [apply IH2; lia|done].
  - intros n r H H'. destruct fuel' as [|fuel']; [lia|]. simpl. destruct (n <=? 0); [done|].
    rewrite (IH1 fuel' r) by lia. destruct (skip_fuel fuel' r) as [r1|] eqn:E; [|done]. simpl.
    apply (proj1 (skip_shrinks_both fuel')) in E. apply IH2; lia.
Qed.

(** [skip] and its loop satisfy the equations of the code: the fuel is enough. *)
Lemma skip_eq r : skip r =
  '(major, value, r) ← readType r;
  if (major =? cbor.kMajorUnsigned) || (major =? cbor.kMajorNegative) then Some r
  else if (major =? cbor.kMajorByteString) || (major =? cbor.kMajorTextString) then
    if remaining r <? value then None else Some (advance (Z.to_nat value) r)
  else if major =? cbor.kMajorArray then skipN value r
  else if major =? cbor.kMajorMap then skipN (u64 (value * 2)) r
  else None.
Proof.
  unfold skip, skipN. rewrite skipFuel_left. replace (2 * left r + 1)%nat with (S (2 * left r)) by lia. cbn [skip_fuel].
  destruct (readType r) as [[[m v] r1]|] eqn:E; [|done]. simpl. apply readType_shrinks in E.
  destruct (_ || _); [done|]. destruct (_ || _); [done|].
  pose proof (fun n => proj2 (skip_stable_both (2 * left r)) (S (skipFuel r1)) n r1) as Hs. rewrite skipFuel_left in *.
  destruct (_ =? cbor.kMajorArray); [apply Hs; lia|]. destruct (_ =? cbor.kMajorMap); [apply Hs; lia|done].
Qed.
Lemma skipN_eq n r : skipN n r = if n <=? 0 then Some r else r' ← skip r; skipN (n - 1) r'.
Proof.
  unfold skipN, skip. rewrite skipFuel_left. cbn [skipItems]. destruct (n <=? 0); [done|].
  destruct (skip_fuel _ r) as [r'|] eqn:E; [|done]. cbn [mbind option_bind]. apply (proj1 (skip_shrinks_both _)) in E.
  transitivity (skipItems (S (skipFuel r')) (n - 1) r'); [|done].
  apply (proj2 (skip_stable_both _)); rewrite ?skipFuel_left; lia.
Qed.

#[global] Arguments skip : simpl never.
#[global] Arguments skipN : simpl never.

Abbreviation pairs64 := (fun v => u64 (v * 2)).

Lemma major_cases m : 0 <= m < 8 ->
  (m = 0 \/ m = 1) \/ (m = 2 \/ m = 3) \/ m = 4 \/ m = 5 \/ (6 <= m < 8).
Proof. lia. Qed.
Lemma head_major m v h : head m v h -> 0 <= m < 8.
Proof. by destruct 1. Qed.

(** What [skip] passes over is an item, and it passes over every item. *)
Lemma skip_item_complete :
  (forall b, item pairs64 b -> forall r tl, rest r = b ++ tl -> skip r = Some (advance (length b) r)) /\
  (forall n b, items pairs64 n b -> forall r tl, rest r = b ++ tl -> skipN n r = Some (advance (length b) r)).
Proof.
  apply item_items_ind.
  - intros m v h Hh Hm r tl Hr. rewrite skip_eq, (readType_complete m v h r tl Hh Hr). simpl. by destruct Hm as [-> | ->].
  - intros m v h s Hh Hm Hs r tl Hr. rewrite <- app_assoc in Hr.
    rewrite skip_eq, (readType_complete m v h r _ Hh Hr). simpl. destruct (rest_prefix _ _ _ Hr) as [Hr1 _].
    rewrite remaining_rest, Hr1, length_app, <- Hs. rewrite Nat2Z.id, advance_advance, length_app.
    destruct (Z.ltb_spec (Z.of_nat (length s + length tl)) (Z.of_nat (length s))); [lia|]. by destruct Hm as [-> | ->].
  - intros v h l Hh _ IH r tl Hr. rewrite <- app_assoc in Hr.
    rewrite skip_eq, (readType_complete _ v h r _ Hh Hr). simpl. destruct (rest_prefix _ _ _ Hr) as [Hr1 _].
    by rewrite (IH _ tl Hr1), advance_advance, length_app.
  - intros v h l Hh _ IH r tl Hr. rewrite <- app_assoc in Hr.
    rewrite skip_eq, (readType_complete _ v h r _ Hh Hr). simpl. destruct (rest_prefix _ _ _ Hr) as [Hr1 _].
    by rewrite (IH _ tl Hr1), advance_advance, length_app.
  - intros n Hn r tl Hr. rewrite skipN_eq. replace (n <=? 0) with true by lia. by rewrite advance_0.
  - intros n a b Hn _ IH1 _ IH2 r tl Hr. rewrite <- app_assoc in Hr. rewrite skipN_eq.
    replace (n <=? 0) with false by lia. rewrite (IH1 r _ Hr). simpl. destruct (rest_prefix _ _ _ Hr) as [Hr1 _].
    by rewrite (IH2 _ tl Hr1), advance_advance, length_app.
Qed.

Lemma skip_item_sound fuel :
  (forall r r', skip_fuel fuel r = Some r' -> exists b, item pairs64 b /\ rest r = b ++ rest r' /\ r' = advance (length b) r) /\
  (forall n r r', skipItems fuel n r = Some r' ->
     exists b, items pairs64 n b /\ rest r = b ++ rest r' /\ r' = advance (length b) r).
Proof.
  induction fuel as [|fuel [IH1 IH2]]; split.
  - done.
  - intros n r r'. simpl. destruct (Z.leb_spec n 0); [|done]. intros [= <-]. exists [].
    split_and!; [by constructor|done|by rewrite advance_0].
  - intros r r' H. simpl in H. destruct (readType r) as [[[m v] r1]|] eqn:E; [|done]. simpl in H.
    apply readType_sound in E as (h & Hh & Hr & Hr1). pose proof (head_major _ _ _ Hh) as Hm.
    unfold cbor.kMajorUnsigned, cbor.kMajorNegative, cbor.kMajorByteString, cbor.kMajorTextString, cbor.kMajorArray,
      cbor.kMajorMap in H.
    destruct (major_cases m Hm) as [Hc|[Hc|[->|[->|Hc]]]].
    + replace ((m =? 0) || (m =? 1)) with true in H by lia. injection H as <-. exists h. by split; [econstructor|].
    + replace ((m =? 0) || (m =? 1)) with false in H by lia. replace ((m =? 2) || (m =? 3)) with true in H by lia.
      destruct (remaining r1 <? v) eqn:El; [done|]. injection H as <-. rewrite remaining_rest in El.
      pose proof (head_range _ _ _ Hh). exists (h ++ take (Z.to_nat v) (rest r1)).
      assert (Hl : length (take (Z.to_nat v) (rest r1)) = Z.to_nat v) by (rewrite length_take; lia).
      split_and!; [eapply item_string; [exact Hh|done|lia]| |].
      * by rewrite Hr, <- app_assoc, rest_advance, take_drop.
      * by rewrite length_app, Hl, Hr1, advance_advance.
    + simpl in H. apply IH2 in H as (l & Hl & Hrl & ->). exists (h ++ l). split_and!; [by eapply item_array| |].
      * by rewrite Hr, <- app_assoc, <- Hrl.
      * by rewrite length_app, Hr1, advance_advance.
    + simpl in H. apply IH2 in H as (l & Hl & Hrl & ->). exists (h ++ l). split_and!; [by eapply item_map| |].
      * by rewrite Hr, <- app_assoc, <- Hrl.
      * by rewrite length_app, Hr1, advance_advance.
    + exfalso. replace ((m =? 0) || (m =? 1)) with false in H by lia.
      replace ((m =? 2) || (m =? 3)) with false in H by lia.
      replace (m =? 4) with false in H by lia. replace (m =? 5) with false in H by lia. done.
  - intros n r r' H. simpl in H. destruct (Z.leb_spec n 0).
    { injection H as <-. exists []. split_and!; [by constructor|done|by rewrite advance_0]. }
    destruct (skip_fuel fuel r) as [r1|] eqn:E; [|done]. simpl in H.
    apply IH1 in E as (a & Ha & Hra & ->). apply IH2 in H as (b & Hb & Hrb & ->).
    exists (a ++ b). split_and!; [by constructor| |].
    + by rewrite Hra, <- app_assoc, <- Hrb.
    + by rewrite length_app, advance_advance.
Qed.

(** An item of the format whose length fits in memory is an item of the code:
    only a map that announces at least 2^63 pairs is read differently. *)
Lemma item_pairs :
  (forall b, item (fun v => v * 2) b -> (1 <= length b)%nat /\ (Z.of_nat (length b) < u64_modulus -> item pairs64 b)) /\
  (forall n b, items (fun v => v * 2) n b -> n <= Z.of_nat (length b) /\
     (Z.of_nat (length b) < u64_modulus -> items pairs64 n b)).
Proof.
  apply item_items_ind.
  - intros m v h Hh Hm. pose proof (head_nonempty _ _ _ Hh). split; [done|]. intros _. by eapply item_int.
  - intros m v h s Hh Hm Hs. pose proof (head_nonempty _ _ _ Hh). rewrite length_app. split; [lia|]. intros _.
    by eapply item_string.
  - intros v h l Hh _ [_ IH]. pose proof (head_nonempty _ _ _ Hh). rewrite length_app. split; [lia|]. intros Hl.
    eapply item_array; [done|]. apply IH. lia.
  - intros v h l Hh _ [Hn IH]. pose proof (head_nonempty _ _ _ Hh). rewrite length_app. split; [lia|]. intros Hl.
    eapply item_map; [done|]. pose proof (head_range _ _ _ Hh). rewrite u64_small by (unfold u64_ok; lia). apply IH. lia.
  - intros n Hn. simpl. split; [lia|]. intros _. by constructor.
  - intros n a b Hn _ [Ha IHa] _ [Hb IHb]. rewrite length_app. split; [lia|]. intros Hl.
    constructor; [done|apply IHa; lia|apply IHb; lia].
Qed.

(** [skip] terminates, and on data that fits in memory it passes over
    exactly the well-formed items of CBOR (unsigned and negative integers, byte and text strings,
    arrays and maps of definite length): it accepts when an item comes next and
    stops right after it; and what it accepts is an item, read with the number of
    items of a map taken modulo 2^64. *)
Theorem skip_exact (r : CborReader) :
  (forall b tl, rest r = b ++ tl -> item (fun v => v * 2) b -> Z.of_nat (length b) < u64_modulus ->
     skip r = Some (advance (length b) r) /\ rest (advance (length b) r) = tl) /\
  (forall r', skip r = Some r' ->
     exists b, item (fun v => u64 (v * 2)) b /\ rest r = b ++ rest r' /\ r' = advance (length b) r).
Proof.
  split.
  - intros b tl Hr Hi Hl. split; [|by apply rest_prefix]. eapply (proj1 skip_item_complete); [|exact Hr].
    by apply (proj1 item_pairs).
  - intros r' H. by apply (proj1 (skip_item_sound _)) in H.
Qed.

(** A map head that announces 2^63 pairs is accepted as a whole item with
    nothing after it: the number of its elements wraps to zero. *)
Theorem skip_map_overflow :
  skip (newReader [xbb; x80; x00; x00; x00; x00; x00; x00; x00]) =
    Some (mkReader [xbb; x80; x00; x00; x00; x00; x00; x00; x00] 9) /\
  ~ item (fun v => v * 2) [xbb; x80; x00; x00; x00; x00; x00; x00; x00].
Proof.
  split; [vm_compute; reflexivity|]. set (b := [xbb; x80; x00; x00; x00; x00; x00; x00; x00]). intros H.
  assert (Hhead : forall m v h l, head m v h -> h ++ l = b -> m = 5 /\ v = 2 ^ 63 /\ l = []).
  { intros m v h l Hh Hb. pose proof (readType_complete m v h (newReader b) l Hh) as Hc.
    specialize (Hc (eq_sym Hb)).
    assert (Hv : readType (newReader b) = Some (5, 2 ^ 63, advance 9 (newReader b))) by (vm_compute; reflexivity).
    rewrite Hv in Hc. injection Hc as <- <- Hlen. split_and!; [done|done|].
    apply (f_equal length) in Hb. rewrite length_app in Hb. destruct l; [done|]. simpl in Hb, Hlen. lia. }
  inversion H as [m v h Hh Hm Hb|m v h l Hh Hm Hl Hb|v h l Hh Hl Hb|v h l Hh Hl Hb].
  - subst h. destruct (Hhead m v b [] Hh (app_nil_r b)) as (-> & _). lia.
  - destruct (Hhead m v h l Hh Hb) as (-> & _). lia.
  - destruct (Hhead 4 v h l Hh Hb) as (? & _). lia.
  - destruct (Hhead 5 v h l Hh Hb) as (_ & -> & ->). apply (proj2 item_pairs) in Hl as [Hl _]. simpl in Hl. lia.
Qed.
