(* ===== verification/Auth.v ===== *)
(** Authorization (auth/Action.h, auth/Auth.h, auth/Auth.cpp): grants, their
    matching against requests, the verification of tokens, and the decision on
    setup and on requests.

    Tokens are parsed and their signature checked by the catapult library: the
    operations the source calls on it are the class [CatapultApi].  Times are
    nanoseconds since the epoch ([system_clock::time_point]). *)

From Stdlib Require Import Strings.Byte.
From S2P Require Import Prelude CborReader.

#[global] Instance byte_eq_dec : EqDecision byte := Byte.byte_eq_dec.

(** ** Actions and rules *)
Inductive Action :=
| ClientSetup | ServerSetup | PublishNamespace | SubscribeNamespace | Subscribe | RequestUpdate | Publish | Fetch
| TrackStatus
| UnknownAction (code : Z).   (* a value of the enumeration's type outside its list *)
#[global] Instance Action_eq_dec : EqDecision Action.
Proof. solve_decision. Defined.

(** [static_cast<Action>(code)] and back. *)
Definition actionOfCode (code : Z) : Action :=
  match code with
  | 0 => ClientSetup | 1 => ServerSetup | 2 => PublishNamespace | 3 => SubscribeNamespace | 4 => Subscribe
  | 5 => RequestUpdate | 6 => Publish | 7 => Fetch | 8 => TrackStatus | _ => UnknownAction code
  end.
Definition actionCode (a : Action) : Z :=
  match a with
  | ClientSetup => 0 | ServerSetup => 1 | PublishNamespace => 2 | SubscribeNamespace => 3 | Subscribe => 4
  | RequestUpdate => 5 | Publish => 6 | Fetch => 7 | TrackStatus => 8 | UnknownAction code => code
  end.

Inductive MatchRuleType := Exact | Prefix | Suffix | Contains.

Record MatchRule := mkRule { mr_type : MatchRuleType; mr_value : bytes }.
Record Scope := mkScope { s_actions : list Action; s_namespaceMatches : list MatchRule; s_trackMatches : list MatchRule }.

Definition time_point_max : Z := 2 ^ 63 - 1.
Record Grants := mkGrants { expiresAt : Z; scopes : list Scope }.
Definition noGrants : Grants := mkGrants time_point_max [].

Inductive AuthError := Missing | WrongTokenType | Malformed | BadSignature | Expired | Forbidden | TooManyTokens.
#[global] Instance AuthError_eq_dec : EqDecision AuthError.
Proof. solve_decision. Defined.

Abbreviation TrackNamespace := (list bytes).

Definition toByte (z : Z) : byte := default x00 (Byte.of_N (Z.to_N (z `mod` 256))).
(** [folly::Endian::big] of a 32-bit length, as bytes in memory. *)
Definition be32 (n : Z) : bytes :=
  [toByte (Z.shiftr n 24); toByte (Z.shiftr n 16); toByte (Z.shiftr n 8); toByte n].
#[global] Arguments be32 : simpl never.

Definition canonicalNamespace (ns : TrackNamespace) : bytes :=
  fold_left (fun out field => out ++ be32 (Z.of_nat (length field) `mod` 2 ^ 32) ++ field) ns [].

(** [std::string_view::find] from the start. *)
Fixpoint contains (actual expected : bytes) : bool :=
  bool_decide (take (length expected) actual = expected) ||
  match actual with [] => false | _ :: actual => contains actual expected end.

Definition ruleMatches (actual : bytes) (rule : MatchRule) : bool :=
  let expected := mr_value rule in
  match mr_type rule with
  | Exact => bool_decide (actual = expected)
  | Prefix => bool_decide (take (length expected) actual = expected)
  | Suffix => (length expected <=? length actual)%nat &&
              bool_decide (drop (length actual - length expected) actual = expected)
  | Contains => contains actual expected
  end.
Definition rulesMatch (actual : bytes) (rules : list MatchRule) : bool := forallb (ruleMatches actual) rules.

Definition allowsImpl (grants : Grants) (action : Action) (ns : TrackNamespace) (trackName : option bytes) (now : Z) : bool :=
  if expiresAt grants <=? now then false
  else
    let nsBytes := canonicalNamespace ns in
    let trackBytes := default [] trackName in
    existsb (fun scope =>
      bool_decide (action ∈ s_actions scope) &&
      (rulesMatch nsBytes (s_namespaceMatches scope) && rulesMatch trackBytes (s_trackMatches scope))) (scopes grants).

(** The two overloads: a namespace, or a full track name. *)
Definition allows_ns (grants : Grants) (action : Action) (ns : TrackNamespace) (now : Z) : bool :=
  allowsImpl grants action ns None now.
Definition allows_track (grants : Grants) (action : Action) (ns : TrackNamespace) (trackName : bytes) (now : Z) : bool :=
  allowsImpl grants action ns (Some trackName) now.
Definition allowsAny_ns (gs : list Grants) (action : Action) (ns : TrackNamespace) (now : Z) : bool :=
  existsb (fun g => allows_ns g action ns now) gs.
Definition allowsAny_track (gs : list Grants) (action : Action) (ns : TrackNamespace) (trackName : bytes) (now : Z) : bool :=
  existsb (fun g => allows_track g action ns trackName now) gs.

(** ** Configuration and requests *)
Record AnonymousScope := mkAnonymousScope {
  an_actions : list Action;
  an_namespaceSegments : option (list bytes);
  an_namespaceMatchMode : MatchRuleType;
  an_trackName : option bytes;
  an_trackMatchMode : MatchRuleType;
}.
Record HmacKey := mkHmacKey { hk_id : bytes; hk_secret : bytes }.
Record AuthConfig := mkAuthConfig {
  enabled : bool;
  tokenType : Z;
  hmacKeys : list HmacKey;
  requireSetupToken : bool;
  allowRequestTokenOverride : bool;
  strictClaims : bool;
  anonymousClaim : list AnonymousScope;
  maxTokensPerMessage : Z;
}.
Record AuthToken := mkAuthToken { at_tokenType : Z; at_tokenValue : bytes }.
Record Parameter_ := mkParameter { p_key : Z; p_asAuthToken : AuthToken }.
Abbreviation Parameters_ := (list Parameter_).

Definition buildAnonymousGrants (configScopes : list AnonymousScope) : Grants :=
  mkGrants time_point_max (map (fun c =>
    mkScope (an_actions c)
      (match an_namespaceSegments c with
       | Some segments => [mkRule (an_namespaceMatchMode c) (canonicalNamespace segments)]
       | None => []
       end)
      (match an_trackName c with Some name => [mkRule (an_trackMatchMode c) name] | None => [] end)) configScopes).

(** ** The catapult library, moxygen's parameter key and the key derivation *)
Inductive CatFailure := CryptoError | CatError.
Class CatapultApi := {
  CatToken : Type;
  CatScope : Type;
  CompoundMatch : Type;
  token_exp : CatToken -> option Z;
  token_scopes : CatToken -> option (list CatScope);
  scope_actions : CatScope -> list Z;
  scope_namespace_match : CatScope -> CompoundMatch;
  scope_track_match : CatScope -> CompoundMatch;
  match_is_empty : CompoundMatch -> bool;
  match_conditions : CompoundMatch -> list (MatchRuleType * bytes);
  decodeHeader : bytes -> option (option bytes);            (* the kid; [None]: throws *)
  validateCwt : bytes -> bytes -> result CatFailure CatToken; (* of the token, with the key *)
  CLAIM_EXP : Z;
  CLAIM_MOQT : Z;
  AUTHORIZATION_TOKEN : Z;
  deriveHmacKey : bytes -> bytes;
}.

Section verifier.
Context `{CA : CatapultApi}.

Definition fromCatapultMatch (m : CompoundMatch) : list MatchRule :=
  if match_is_empty m then [] else map (fun c => mkRule c.1 c.2) (match_conditions m).

(** [time_point(seconds(exp))]: the seconds become nanoseconds on 64 bits. *)
Definition grantsFromToken (token : CatToken) : Grants :=
  mkGrants
    (match token_exp token with Some e => s64 (e * 1000000000) | None => time_point_max end)
    (match token_scopes token with
     | None => []
     | Some l => map (fun cs =>
         mkScope (map actionOfCode (List.filter (fun a => negb (a <? 0)) (scope_actions cs)))
           (fromCatapultMatch (scope_namespace_match cs)) (fromCatapultMatch (scope_track_match cs))) l
     end).

(** The loop over the claims of a token; a claim is seen once at most, so three
    rounds decide it ([claimsLoop_rounds]). *)
Fixpoint claimsLoop (rounds : nat) (n : Z) (seenExp seenMoqt : bool) (r : CborReader) : option CborReader :=
  if n <=? 0 then Some r
  else match rounds with
       | O => None
       | S rounds =>
         '(key, r) ← readInt r;
         if key =? CLAIM_EXP then
           if seenExp then None
           else '(exp, r) ← readUInt r;
                if int64_max <? exp then None else claimsLoop rounds (n - 1) true seenMoqt r
         else if key =? CLAIM_MOQT then
           if seenMoqt then None else r ← skip r; claimsLoop rounds (n - 1) seenExp true r
         else None
       end.

Definition hasOnlyEnforcedClaims (cwtBytes : bytes) : bool :=
  match ('(coseLen, cose) ← readArrayLen (newReader cwtBytes);
         if negb (coseLen =? 4) then None
         else cose ← skip cose; cose ← skip cose; '(payload, _) ← readBytes cose;
              '(numClaims, claims) ← readMapLen (newReader payload);
              claimsLoop 3 numClaims false false claims) with
  | Some claims => eof claims
  | None => false
  end.

Record DerivedKey := mkDerivedKey { dk_id : bytes; dk_key : bytes }.
Record AuthTokenVerifier := mkVerifier {
  config_ : AuthConfig;
  derivedKeys_ : list DerivedKey;
  keyIdIndex_ : list (bytes * nat);   (* [emplace]: the first entry of an id counts *)
  anonymousGrants_ : Grants;
}.

Definition newAuthTokenVerifier (config : AuthConfig) : AuthTokenVerifier :=
  let '(keys, index) := fold_left (fun acc key =>
    let '(keys, index) := acc in
    let idx := length keys in
    (keys ++ [mkDerivedKey (hk_id key) (deriveHmacKey (hk_secret key))],
     if bool_decide (hk_id key = []) then index
     else if existsb (fun e => bool_decide (e.1 = hk_id key)) index then index else index ++ [(hk_id key, idx)]))
    (hmacKeys config) ([], []) in
  mkVerifier config keys index (buildAnonymousGrants (anonymousClaim config)).

Definition tryVerify (v : AuthTokenVerifier) (token : AuthToken) (now : Z) (derived : DerivedKey) : result AuthError Grants :=
  match validateCwt (dk_key derived) (at_tokenValue token) with
  | Err CryptoError => Err BadSignature
  | Err CatError => Err Malformed
  | Ok cwt =>
    let grants := grantsFromToken cwt in
    if expiresAt grants <=? now then Err Expired
    else if strictClaims (config_ v) && negb (hasOnlyEnforcedClaims (at_tokenValue token)) then Err Malformed
    else Ok grants
  end.

(** Trial verification: the first key that does not fail the signature decides. *)
Fixpoint tryKeys (v : AuthTokenVerifier) (token : AuthToken) (now : Z) (keys : list DerivedKey) : result AuthError Grants :=
  match keys with
  | [] => Err BadSignature
  | k :: keys => match tryVerify v token now k with
                 | Err BadSignature => tryKeys v token now keys
                 | r => r
                 end
  end.

Definition verify (v : AuthTokenVerifier) (token : AuthToken) (now : Z) : result AuthError Grants :=
  if negb (enabled (config_ v)) then Ok noGrants
  else if negb (at_tokenType token =? tokenType (config_ v)) then Err WrongTokenType
  else if bool_decide (at_tokenValue token = []) then Err Malformed
  else match decodeHeader (at_tokenValue token) with
       | None => Err Malformed
       | Some (Some kid) =>
         match List.find (fun e => bool_decide (e.1 = kid)) (keyIdIndex_ v) with
         | None => Err BadSignature
         | Some (_, idx) => match derivedKeys_ v !! idx with
                            | Some derived => tryVerify v token now derived
                            | None => Err BadSignature   (* an index is a position of the list *)
                            end
         end
       | Some None => tryKeys v token now (derivedKeys_ v)
       end.

Definition findAuthTokens (params : Parameters_) (tokenType : Z) : list AuthToken :=
  map p_asAuthToken (List.filter (fun p => (p_key p =? AUTHORIZATION_TOKEN) && (at_tokenType (p_asAuthToken p) =? tokenType)) params).

(** The grants of the tokens that verify, and the first error of the others. *)
Definition verifyTokens (v : AuthTokenVerifier) (tokens : list AuthToken) (now : Z) : list Grants * option AuthError :=
  fold_left (fun acc token =>
    match verify v token now with
    | Err e => (acc.1, match acc.2 with None => Some e | Some e0 => Some e0 end)
    | Ok g => (acc.1 ++ [g], acc.2)
    end) tokens ([], None).

Definition denialError (verifiedGrants : list Grants) (firstError : option AuthError) : AuthError :=
  match verifiedGrants with [] => default Forbidden firstError | _ => Forbidden end.

(** [None] is the null pointer of a service without authorization. *)
Definition authenticateSetup (v : AuthTokenVerifier) (setupParams : Parameters_) (now : Z)
  : result AuthError (option (list Grants)) :=
  if negb (enabled (config_ v)) then Ok None
  else
    let tokens := findAuthTokens setupParams (tokenType (config_ v)) in
    if maxTokensPerMessage (config_ v) <? Z.of_nat (length tokens) then Err TooManyTokens
    else
      let '(verified, firstError) := verifyTokens v tokens now in
      if requireSetupToken (config_ v) then
        match tokens with
        | [] => Err Missing
        | _ => if negb (allowsAny_ns verified ClientSetup [] now) then Err (denialError verified firstError)
               else Ok (Some verified)
        end
      else Ok (Some verified).

Definition authorize (v : AuthTokenVerifier) (action : Action) (params : Parameters_) (ns : TrackNamespace)
    (sessionGrants : list Grants) (trackName : option bytes) (now : Z) : result AuthError unit :=
  if negb (enabled (config_ v)) then Ok tt
  else
    let tokens := findAuthTokens params (tokenType (config_ v)) in
    if maxTokensPerMessage (config_ v) <? Z.of_nat (length tokens) then Err TooManyTokens
    else
      let '(requestGrants, firstError) :=
        if allowRequestTokenOverride (config_ v) then verifyTokens v tokens now else ([], None) in
      let permitted :=
        match trackName with
        | Some name => allowsAny_track requestGrants action ns name now || allowsAny_track sessionGrants action ns name now ||
                       allows_track (anonymousGrants_ v) action ns name now
        | None => allowsAny_ns requestGrants action ns now || allowsAny_ns sessionGrants action ns now ||
                  allows_ns (anonymousGrants_ v) action ns now
        end in
      if permitted then Ok tt else Err (denialError requestGrants firstError).
End verifier.
