(* ===== verification/AuthTheorems.v ===== *)
(** What authorization guarantees. *)

From Stdlib Require Import Strings.Byte.
From S2P Require Import Prelude CborReader Auth.

(** ** The canonical form of a namespace *)
Lemma byteZ_toByte z : byteZ (toByte z) = z `mod` 256.
Proof.
  unfold byteZ, toByte. pose proof (Z.mod_pos_bound z 256 ltac:(lia)) as Hz.
  destruct (Byte.of_N (Z.to_N (z `mod` 256))) as [b|] eqn:E.
  - simpl. apply Byte.to_of_N in E. rewrite E. lia.
  - apply Byte.of_N_None_iff in E. lia.
Qed.

(** A 32-bit number is its four bytes. *)
Lemma be32_inj m n : 0 <= m < 2 ^ 32 -> 0 <= n < 2 ^ 32 -> be32 m = be32 n -> m = n.
Proof.
  intros Hm Hn H. unfold be32 in H. injection H as H3 H2 H1 H0.
  apply (f_equal byteZ) in H0, H1, H2, H3. rewrite !byteZ_toByte in *. rewrite !Z.shiftr_div_pow2 in * by lia.
  change (2 ^ 8) with 256 in *. change (2 ^ 16) with (256 * 256) in *. change (2 ^ 24) with (256 * 256 * 256) in *.
  rewrite <- !Z.div_div in * by lia.
  pose proof (Z.div_mod m 256 ltac:(lia)). pose proof (Z.div_mod n 256 ltac:(lia)).
  pose proof (Z.div_mod (m `div` 256) 256 ltac:(lia)). pose proof (Z.div_mod (n `div` 256) 256 ltac:(lia)).
  pose proof (Z.div_mod (m `div` 256 `div` 256) 256 ltac:(lia)).
  pose proof (Z.div_mod (n `div` 256 `div` 256) 256 ltac:(lia)).
  assert (forall x, 0 <= x < 2 ^ 32 -> (x `div` 256 `div` 256 `div` 256) `mod` 256 = x `div` 256 `div` 256 `div` 256) as Hsm.
  { intros x Hx. apply Z.mod_small. rewrite !Z.div_div by lia. split; [apply Z.div_pos; lia|apply Z.div_lt_upper_bound; lia]. }
  rewrite !Hsm in H3 by done. lia.
Qed.

(** Every segment is shorter than 2^32 bytes. *)
Definition segments_ok (ns : TrackNamespace) : Prop := Forall (fun f => Z.of_nat (length f) < 2 ^ 32) ns.

Lemma canonicalNamespace_fold ns out :
  fold_left (fun out field => out ++ be32 (Z.of_nat (length field) `mod` 2 ^ 32) ++ field) ns out =
  out ++ canonicalNamespace ns.
Proof.
  unfold canonicalNamespace. revert out. induction ns as [|f ns IH]; intros out; [by rewrite app_nil_r|].
  cbn [fold_left]. rewrite IH, (IH ([] ++ _)), <- !app_assoc. done.
Qed.
Lemma canonicalNamespace_cons f ns :
  canonicalNamespace (f :: ns) = be32 (Z.of_nat (length f) `mod` 2 ^ 32) ++ f ++ canonicalNamespace ns.
Proof. unfold canonicalNamespace at 1. cbn [fold_left]. by rewrite canonicalNamespace_fold, <- !app_assoc. Qed.

Lemma prefix_app_same {A} (a b x y : list A) : length a = length b -> a ++ x `prefix_of` b ++ y <-> a = b /\ x `prefix_of` y.
Proof.
  intros Hl. split.
  - intros [k Hk]. rewrite <- app_assoc in Hk. apply app_inj_1 in Hk as [-> ->]; [|done]. split; [done|by exists k].
  - intros [-> H]. by apply prefix_app.
Qed.

Lemma canonicalNamespace_prefix a b : segments_ok a -> segments_ok b ->
  canonicalNamespace a `prefix_of` canonicalNamespace b <-> a `prefix_of` b.
Proof.
  intros Ha. revert b. induction Ha as [|x a Hx Ha IH]; intros b Hb; [split; intros; apply prefix_nil|].
  destruct Hb as [|y b Hy Hb].
  - split; [|intros H; by apply prefix_nil_inv in H]. rewrite canonicalNamespace_cons. intros H. by apply prefix_nil_inv in H.
  - rewrite !canonicalNamespace_cons. rewrite prefix_app_same by done. rewrite !Z.mod_small by lia. split.
    + intros [H1 H2]. apply be32_inj in H1; [|lia|lia]. apply Nat2Z.inj in H1.
      apply (prefix_app_same x y) in H2 as [-> H2]; [|done]. apply prefix_cons. by apply IH.
    + intros H. pose proof (prefix_cons_inv_1 _ _ _ _ H) as ->. split; [done|]. apply prefix_app, IH; [done|].
      by eapply prefix_cons_inv_2.
Qed.

Lemma canonicalNamespace_inj a b : segments_ok a -> segments_ok b -> canonicalNamespace a = canonicalNamespace b <-> a = b.
Proof.
  intros Ha Hb. split; [|by intros ->]. intros H.
  assert (H1 : a `prefix_of` b) by (apply canonicalNamespace_prefix; [done|done|by rewrite H]).
  assert (H2 : b `prefix_of` a) by (apply canonicalNamespace_prefix; [done|done|by rewrite H]).
  destruct H1 as [k ->]. apply prefix_length in H2. rewrite length_app in H2. destruct k; [by rewrite app_nil_r|simpl in H2; lia].
Qed.

Lemma take_prefix {A} `{EqDecision A} (p l : list A) : take (length p) l = p <-> p `prefix_of` l.
Proof.
  split; [intros <-; apply prefix_take|]. intros [k ->]. apply take_app_length.
Qed.

(** (C35) A rule on the bytes of a namespace is a rule on its segments: the exact
    rule matches that namespace only, and the prefix rule exactly the namespaces
    that start with those segments (no segment can be cut or faked by the bytes
    of another). *)
Theorem namespace_rules_by_segment (ns rule : TrackNamespace) :
  segments_ok ns -> segments_ok rule ->
  (ruleMatches (canonicalNamespace ns) (mkRule Exact (canonicalNamespace rule)) = true <-> ns = rule) /\
  (ruleMatches (canonicalNamespace ns) (mkRule Prefix (canonicalNamespace rule)) = true <-> rule `prefix_of` ns).
Proof.
  intros Hn Hr. unfold ruleMatches. simpl. rewrite !bool_decide_eq_true. split.
  - by apply canonicalNamespace_inj.
  - rewrite take_prefix. by apply canonicalNamespace_prefix.
Qed.

(** The suffix rule is not a rule on segments: the namespace of the single
    segment 00 00 00 01 'x' matches the suffix rule for the segment 'x'. *)
Theorem suffix_rule_cuts_segment :
  let ns := [[x00; x00; x00; x01; x78]] in let rule := [[x78]] in
  ruleMatches (canonicalNamespace ns) (mkRule Suffix (canonicalNamespace rule)) = true /\ ~ rule `suffix_of` ns.
Proof.
  simpl. split; [vm_compute; reflexivity|]. intros [k Hk]. destruct k as [|a [|b k]]; simplify_eq.
Qed.

(** ** Tokens *)
Section decisions.
Context `{CA : CatapultApi}.

Lemma derivedKeys_of config :
  derivedKeys_ (newAuthTokenVerifier config) = map (fun k => mkDerivedKey (hk_id k) (deriveHmacKey (hk_secret k))) (hmacKeys config) /\
  config_ (newAuthTokenVerifier config) = config /\
  anonymousGrants_ (newAuthTokenVerifier config) = buildAnonymousGrants (anonymousClaim config).
Proof.
  unfold newAuthTokenVerifier. set (f := fun (acc : list DerivedKey * list (bytes * nat)) key => _).
  assert (H : forall l acc, (fold_left f l acc).1 = acc.1 ++ map (fun k => mkDerivedKey (hk_id k) (deriveHmacKey (hk_secret k))) l).
  { induction l as [|k l IH]; intros acc; simpl; [by rewrite app_nil_r|]. rewrite IH. destruct acc as [keys index].
    simpl. by rewrite <- app_assoc. }
  specialize (H (hmacKeys config) ([], [])). destruct (fold_left f (hmacKeys config) ([], [])) as [keys index].
  simpl in *. by subst keys.
Qed.

(** The grants [g] come from the token, signed with a configured key, unexpired. *)
Definition tokenGrants (config : AuthConfig) (token : AuthToken) (now : Z) (g : Grants) : Prop :=
  at_tokenType token = tokenType config /\
  exists key cwt, In key (hmacKeys config) /\ validateCwt (deriveHmacKey (hk_secret key)) (at_tokenValue token) = Ok cwt /\
    g = grantsFromToken cwt /\ now < expiresAt g /\
    (strictClaims config = true -> hasOnlyEnforcedClaims (at_tokenValue token) = true).

Lemma tryVerify_ok config token now key g :
  In key (hmacKeys config) -> at_tokenType token = tokenType config ->
  tryVerify (newAuthTokenVerifier config) token now (mkDerivedKey (hk_id key) (deriveHmacKey (hk_secret key))) = Ok g ->
  tokenGrants config token now g.
Proof.
  intros Hin Ht. unfold tryVerify. cbn [dk_key]. destruct (derivedKeys_of config) as (_ & -> & _).
  destruct (validateCwt _ _) as [cwt|[]] eqn:E; [|done|done].
  destruct (Z.leb_spec (expiresAt (grantsFromToken cwt)) now); [done|].
  destruct (strictClaims config && negb (hasOnlyEnforcedClaims (at_tokenValue token))) eqn:Es; [done|].
  intros [= <-]. split; [done|]. exists key, cwt. split_and!; try done.
  intros Hs. rewrite Hs in Es. by apply negb_false_iff in Es.
Qed.

(** What verifies was signed with a configured key. *)
Lemma verify_sound config token now g : enabled config = true ->
  verify (newAuthTokenVerifier config) token now = Ok g -> tokenGrants config token now g.
Proof.
  intros He. unfold verify. destruct (derivedKeys_of config) as (Hk & Hc & _). rewrite Hc, He. simpl.
  destruct (Z.eqb_spec (at_tokenType token) (tokenType config)) as [Ht|]; [|done]. simpl.
  case_bool_decide; [done|]. destruct (decodeHeader _) as [[kid|]|]; [| |done].
  - destruct (List.find _ _) as [[id idx]|]; [|done]. rewrite Hk.
    destruct (_ !! idx) as [d|] eqn:E; [|done]. rewrite list_lookup_fmap in E.
    destruct (hmacKeys config !! idx) as [key|] eqn:Ek; [|done]. simpl in E. injection E as <-.
    apply tryVerify_ok; [|done]. apply list_elem_of_In. by eapply list_elem_of_lookup_2.
  - rewrite Hk. assert (Hsub : forall k, In k (hmacKeys config) -> In k (hmacKeys config)) by done.
    revert Hsub. generalize (hmacKeys config) at 1 3. induction l as [|key l IH]; intros Hsub; simpl; [done|].
    destruct (tryVerify _ token now _) as [g'|e] eqn:E.
    + intros [= <-]. eapply tryVerify_ok; [|done|exact E]. apply Hsub. by left.
    + destruct e; try done. apply IH. intros k Hin. apply Hsub. by right.
Qed.

Lemma verifyTokens_grants v tokens now g :
  In g (verifyTokens v tokens now).1 <-> exists token, In token tokens /\ verify v token now = Ok g.
Proof.
  unfold verifyTokens. set (f := fun (acc : list Grants * option AuthError) token => _).
  assert (H : forall l acc, In g (fold_left f l acc).1 <-> In g acc.1 \/ exists token, In token l /\ verify v token now = Ok g).
  { induction l as [|tk l IH]; intros acc; simpl; [split; [auto|intros [?|(? & [] & _)]; done]|].
    rewrite IH. unfold f at 1. destruct (verify v tk now) as [g'|e] eqn:E; simpl.
    - rewrite in_app_iff. simpl. split.
      + intros [[H|[->|[]]]|(t & Ht & Hv)]; [by left|right; exists tk; auto|right; exists t; auto].
      + intros [H|(t & [->|Ht] & Hv)]; [by left; left|left; right; left; congruence|right; exists t; auto].
    - split.
      + intros [H|(t & Ht & Hv)]; [by left|right; exists t; auto].
      + intros [H|(t & [->|Ht] & Hv)]; [by left|congruence|right; exists t; auto]. }
  rewrite H. simpl. tauto.
Qed.

(** The grants a request can draw on. *)
Definition source (config : AuthConfig) (params : Parameters_) (sessionGrants : list Grants) (now : Z) (g : Grants) : Prop :=
  In g sessionGrants \/ g = buildAnonymousGrants (anonymousClaim config) \/
  (allowRequestTokenOverride config = true /\
   exists token, In token (findAuthTokens params (tokenType config)) /\
     verify (newAuthTokenVerifier config) token now = Ok g).

Lemma allowsAny_iff gs action ns trackName now :
  match trackName with Some name => allowsAny_track gs action ns name now | None => allowsAny_ns gs action ns now end = true <->
  exists g, In g gs /\ allowsImpl g action ns trackName now = true.
Proof. destruct trackName; unfold allowsAny_track, allowsAny_ns; apply existsb_exists. Qed.

Lemma authorize_spec config action params ns sessionGrants trackName now :
  authorize (newAuthTokenVerifier config) action params ns sessionGrants trackName now = Ok tt <->
  enabled config = false \/
  (Z.of_nat (length (findAuthTokens params (tokenType config))) <= maxTokensPerMessage config /\
   exists g, source config params sessionGrants now g /\ allowsImpl g action ns trackName now = true).
Proof.
  unfold authorize.
  destruct (derivedKeys_of config) as (_ & -> & Ha). destruct (enabled config); simpl; [|tauto].
  destruct (Z.ltb_spec (maxTokensPerMessage config) (Z.of_nat (length (findAuthTokens params (tokenType config))))) as [Hmax|Hmax];
    [split; [done|intros [?|[? _]]; [done|lia]]|].
  set (rg := if allowRequestTokenOverride config then _ else ([], None)).
  assert (Hrg : forall g, In g rg.1 <-> allowRequestTokenOverride config = true /\ exists token,
    In token (findAuthTokens params (tokenType config)) /\ verify (newAuthTokenVerifier config) token now = Ok g).
  { intros g. unfold rg. destruct (allowRequestTokenOverride config); [|simpl; split; [done|by intros []]].
    rewrite verifyTokens_grants. tauto. }
  destruct rg as [requestGrants firstError]. simpl in Hrg. rewrite Ha.
  set (permitted := match trackName with Some _ => _ | None => _ end).
  assert (Hp : permitted = true <-> exists g, source config params sessionGrants now g /\ allowsImpl g action ns trackName now = true).
  { assert (Hp1 : permitted = true <-> (exists g, In g requestGrants /\ allowsImpl g action ns trackName now = true) \/
      (exists g, In g sessionGrants /\ allowsImpl g action ns trackName now = true) \/
      allowsImpl (buildAnonymousGrants (anonymousClaim config)) action ns trackName now = true).
    { rewrite <- !allowsAny_iff. unfold permitted, allows_track, allows_ns. destruct trackName; rewrite !orb_true_iff; tauto. }
    rewrite Hp1. unfold source. split.
    - intros [(g & Hg & H)|[(g & Hg & H)|H]]; [exists g; rewrite <- Hrg; tauto|exists g; tauto|].
      exists (buildAnonymousGrants (anonymousClaim config)). tauto.
    - intros (g & [Hg|[->|Hg]] & H); [right; left; eauto|right; right; done|left; exists g; rewrite Hrg; tauto]. }
  destruct permitted; split; try done.
  - intros _. right. split; [lia|]. by apply Hp.
  - intros [?|[_ H]]; [done|]. apply Hp in H. done.
Qed.

(** (C20) A request is let through exactly when authorization is off, or it
    carries no more tokens than allowed and one grant covers it: a grant of the
    session, the configured anonymous claim, or, when requests may carry tokens,
    the grant of a token of the request that verifies; and a token that verifies
    is signed with a configured key and not expired. *)
Theorem authorize_exact (config : AuthConfig) (action : Action) (params : Parameters_) (ns : TrackNamespace)
    (sessionGrants : list Grants) (trackName : option bytes) (now : Z) :
  (authorize (newAuthTokenVerifier config) action params ns sessionGrants trackName now = Ok tt <->
   enabled config = false \/
   (Z.of_nat (length (findAuthTokens params (tokenType config))) <= maxTokensPerMessage config /\
    exists g, source config params sessionGrants now g /\ allowsImpl g action ns trackName now = true)) /\
  (enabled config = true -> forall token g, verify (newAuthTokenVerifier config) token now = Ok g ->
     tokenGrants config token now g).
Proof. split; [apply authorize_spec|]. intros He token g. by apply verify_sound. Qed.

(** Where a setup token is required, a session is accepted only with a token
    of the setup message that verifies and grants the setup itself, within the
    limit on tokens; the anonymous claim does not help; and the session gets
    exactly the grants of the tokens that verify. *)
Theorem authenticateSetup_requires_token (config : AuthConfig) (setupParams : Parameters_) (now : Z) (gs : option (list Grants)) :
  enabled config = true ->
  authenticateSetup (newAuthTokenVerifier config) setupParams now = Ok gs ->
  exists l, gs = Some l /\
    Z.of_nat (length (findAuthTokens setupParams (tokenType config))) <= maxTokensPerMessage config /\
    (forall g, In g l <-> exists token, In token (findAuthTokens setupParams (tokenType config)) /\
       verify (newAuthTokenVerifier config) token now = Ok g) /\
    (requireSetupToken config = true -> exists token g, In token (findAuthTokens setupParams (tokenType config)) /\
       tokenGrants config token now g /\ allows_ns g ClientSetup [] now = true).
Proof.
  intros He. unfold authenticateSetup. destruct (derivedKeys_of config) as (_ & -> & _). rewrite He. simpl.
  destruct (Z.ltb_spec (maxTokensPerMessage config) (Z.of_nat (length (findAuthTokens setupParams (tokenType config))))) as [|Hmax]; [done|].
  set (tokens := findAuthTokens setupParams (tokenType config)) in *.
  pose proof (verifyTokens_grants (newAuthTokenVerifier config) tokens now) as Hg.
  destruct (verifyTokens _ tokens now) as [verified firstError]. simpl in Hg.
  assert (Hfin : forall r, Ok (Some verified) = (Ok gs : result AuthError (option (list Grants))) ->
    (requireSetupToken config = true -> r = true) -> (r = true -> allowsAny_ns verified ClientSetup [] now = true) ->
    exists l, gs = Some l /\ Z.of_nat (length tokens) <= maxTokensPerMessage config /\
      (forall g, In g l <-> exists token, In token tokens /\ verify (newAuthTokenVerifier config) token now = Ok g) /\
      (requireSetupToken config = true -> exists token g, In token tokens /\ tokenGrants config token now g /\
         allows_ns g ClientSetup [] now = true)).
  { intros r [= <-] Hr Hall. exists verified. split_and!; [done|done|done|]. intros Hreq.
    apply Hr, Hall, existsb_exists in Hreq as (g & Hin & Ha). apply Hg in Hin as (token & Ht & Hv).
    exists token, g. split_and!; [done|by apply verify_sound|done]. }
  destruct (requireSetupToken config) eqn:Er.
  - destruct tokens as [|t0 tokens']; [done|]. destruct (allowsAny_ns verified ClientSetup [] now) eqn:Ea; simpl; [|done].
    intros H. by apply (Hfin true).
  - intros H. apply (Hfin false); [done|done|done].
Qed.
End decisions.

(** ** Which tokens pass the strict check on claims *)
Abbreviation wf_item := (item (fun v => u64 (v * 2))).

(** The bytes [h] are the integer [k], in the range of [int64_t]. *)
Definition intHead (k : Z) (h : bytes) : Prop :=
  (0 <= k <= int64_max /\ head 0 k h) \/ (0 <= -1 - k <= int64_max /\ head 1 (-1 - k) h).

Section reads.
Context (r : CborReader).

Lemma readInt_complete k h tl : intHead k h -> rest r = h ++ tl -> readInt r = Some (k, advance (length h) r).
Proof.
  intros [[Hk Hh]|[Hk Hh]] Hr; unfold readInt; rewrite (readType_complete _ _ _ _ _ Hh Hr); simpl.
  - destruct (Z.ltb_spec int64_max k); [lia|done].
  - destruct (Z.ltb_spec int64_max (-1 - k)); [lia|]. do 2 f_equal. lia.
Qed.
Lemma readInt_sound k r' : readInt r = Some (k, r') ->
  exists h, intHead k h /\ rest r = h ++ rest r' /\ r' = advance (length h) r.
Proof.
  unfold readInt. destruct (readType r) as [[[m v] r1]|] eqn:E; [|done]. simpl.
  apply readType_sound in E as (h & Hh & Hr & Hr1). pose proof (head_range _ _ _ Hh) as Hv. unfold cbor.kMajorUnsigned, cbor.kMajorNegative.
  destruct (Z.eqb_spec m 0) as [->|].
  - destruct (Z.ltb_spec int64_max v); [done|]. intros [= <- <-]. exists h. split_and!; [left; split; [lia|done]|done|done].
  - destruct (Z.eqb_spec m 1) as [->|]; [|done].
    destruct (Z.ltb_spec int64_max v); [done|]. intros [= <- <-]. exists h.
    split_and!; [right; replace (-1 - (-1 - v)) with v by lia; split; [lia|done]|done|done].
Qed.

Lemma readUInt_complete v h tl : head 0 v h -> rest r = h ++ tl -> readUInt r = Some (v, advance (length h) r).
Proof. intros Hh Hr. unfold readUInt. by rewrite (readType_complete _ _ _ _ _ Hh Hr). Qed.
Lemma readUInt_sound v r' : readUInt r = Some (v, r') -> exists h, head 0 v h /\ rest r = h ++ rest r' /\ r' = advance (length h) r.
Proof.
  unfold readUInt. destruct (readType r) as [[[m x] r1]|] eqn:E; [|done]. simpl.
  apply readType_sound in E as (h & Hh & Hr). unfold cbor.kMajorUnsigned. destruct (Z.eqb_spec m 0) as [->|]; [|done].
  intros [= <- <-]. by exists h.
Qed.

Lemma readArrayLen_iff v r' : readArrayLen r = Some (v, r') <-> exists h, head 4 v h /\ rest r = h ++ rest r' /\ r' = advance (length h) r.
Proof.
  unfold readArrayLen. split.
  - destruct (readType r) as [[[m x] r1]|] eqn:E; [|done]. simpl. apply readType_sound in E as (h & Hh & Hr).
    unfold cbor.kMajorArray. destruct (Z.eqb_spec m 4) as [->|]; [|done]. intros [= <- <-]. by exists h.
  - intros (h & Hh & Hr & Hr'). rewrite (readType_complete _ _ _ _ _ Hh Hr). simpl. by rewrite Hr'.
Qed.
Lemma readMapLen_iff v r' : readMapLen r = Some (v, r') <-> exists h, head 5 v h /\ rest r = h ++ rest r' /\ r' = advance (length h) r.
Proof.
  unfold readMapLen. split.
  - destruct (readType r) as [[[m x] r1]|] eqn:E; [|done]. simpl. apply readType_sound in E as (h & Hh & Hr).
    unfold cbor.kMajorMap. destruct (Z.eqb_spec m 5) as [->|]; [|done]. intros [= <- <-]. by exists h.
  - intros (h & Hh & Hr & Hr'). rewrite (readType_complete _ _ _ _ _ Hh Hr). simpl. by rewrite Hr'.
Qed.

Lemma readBytes_iff s r' : readBytes r = Some (s, r') <->
  exists m h, (m = 2 \/ m = 3) /\ head m (Z.of_nat (length s)) h /\ rest r = h ++ s ++ rest r' /\ r' = advance (length h + length s) r.
Proof.
  unfold readBytes. split.
  - destruct (readType r) as [[[m x] r1]|] eqn:E; [|done]. simpl. apply readType_sound in E as (h & Hh & Hr & Hr1).
    pose proof (head_range _ _ _ Hh) as Hx. unfold cbor.kMajorByteString, cbor.kMajorTextString.
    destruct (((m =? 2) || (m =? 3)) && negb (remaining r1 <? x)) eqn:Ec; [|done]. intros [= <- <-].
    change (drop (pos_ r1) (data_ r1)) with (rest r1). rewrite remaining_rest in Ec.
    assert (Hl : length (take (Z.to_nat x) (rest r1)) = Z.to_nat x) by (rewrite length_take; lia).
    exists m, h. rewrite Hl, Z2Nat.id by lia. split_and!; [lia|done| |].
    + by rewrite Hr, rest_advance, take_drop.
    + by rewrite Hr1, advance_advance.
  - intros (m & h & Hm & Hh & Hr & ->). rewrite (readType_complete _ _ _ _ _ Hh Hr). simpl.
    destruct (rest_prefix _ _ _ Hr) as [Hr1 _]. rewrite remaining_rest, Hr1.
    change (drop (pos_ r + length h) (data_ r)) with (rest (advance (length h) r)). rewrite Hr1, Nat2Z.id, take_app_length, advance_advance.
    rewrite length_app. destruct (Z.ltb_spec (Z.of_nat (length s + length (rest (advance (length h + length s) r)))) (Z.of_nat (length s))); [lia|].
    by destruct Hm as [-> | ->].
Qed.

Lemma skip_iff r' : skip r = Some r' <-> exists b, wf_item b /\ rest r = b ++ rest r' /\ r' = advance (length b) r.
Proof.
  split; [apply (proj1 (skip_item_sound _))|]. intros (b & Hb & Hr & ->). by eapply (proj1 skip_item_complete).
Qed.
End reads.

Section claims.
Context `{CA : CatapultApi}.

(** The claims of a token that the relay enforces, each at most once. *)
Inductive claims : bool -> bool -> Z -> bytes -> Prop :=
| claims_nil e m n : n <= 0 -> claims e m n []
| claims_exp m n k h v b : 0 < n -> intHead CLAIM_EXP k -> head 0 v h -> v <= int64_max ->
    claims true m (n - 1) b -> claims false m n (k ++ h ++ b)
| claims_moqt e n k i b : 0 < n -> CLAIM_MOQT <> CLAIM_EXP -> intHead CLAIM_MOQT k -> wf_item i ->
    claims e true (n - 1) b -> claims e false n (k ++ i ++ b).

Definition unseen (e m : bool) : nat := (if e then 0 else 1) + (if m then 0 else 1).

Lemma claimsLoop_sound rounds : forall n e m r r', claimsLoop rounds n e m r = Some r' ->
  exists b, claims e m n b /\ rest r = b ++ rest r' /\ r' = advance (length b) r.
Proof.
  induction rounds as [|rounds IH]; intros n e m r r' H; simpl in H;
    (destruct (Z.leb_spec n 0); [injection H as <-; exists []; split_and!; [by constructor|done|by rewrite advance_0]|]); [done|].
  destruct (readInt r) as [[key r1]|] eqn:Ek; [|done]. simpl in H.
  apply readInt_sound in Ek as (k & Hk & Hr & Hr1). destruct (Z.eqb_spec key CLAIM_EXP) as [->|Hne].
  - destruct e; [done|]. destruct (readUInt r1) as [[x r2]|] eqn:Eu; [|done]. simpl in H.
    apply readUInt_sound in Eu as (h & Hh & Hr' & Hr2). destruct (Z.ltb_spec int64_max x); [done|].
    apply IH in H as (b & Hb & Hrb & ->). exists (k ++ h ++ b). split_and!; [by eapply claims_exp| |].
    + by rewrite Hr, Hr', Hrb, !app_assoc.
    + by rewrite !length_app, Hr2, Hr1, !advance_advance, Nat.add_assoc.
  - destruct (Z.eqb_spec key CLAIM_MOQT) as [->|]; [|done]. destruct m; [done|].
    destruct (skip r1) as [r2|] eqn:Es; [|done]. simpl in H. apply skip_iff in Es as (i & Hi & Hr' & Hr2).
    apply IH in H as (b & Hb & Hrb & ->). exists (k ++ i ++ b). split_and!; [by apply claims_moqt| |].
    + by rewrite Hr, Hr', Hrb, !app_assoc.
    + by rewrite !length_app, Hr2, Hr1, !advance_advance, Nat.add_assoc.
Qed.

(** As many rounds as there are claims to see are enough. *)
Lemma claimsLoop_complete e m n b : claims e m n b -> forall rounds r tl, (unseen e m <= rounds)%nat -> rest r = b ++ tl ->
  claimsLoop rounds n e m r = Some (advance (length b) r).
Proof.
  induction 1 as [e m n Hn|m n k h v b Hn Hk Hh Hv Hb IH|e n k i b Hn Hne Hk Hi Hb IH]; intros rounds r tl Hrd Hr.
  - assert (E : n <=? 0 = true) by lia. rewrite advance_0. destruct rounds; simpl; by rewrite E.
  - assert (E : n <=? 0 = false) by lia. destruct rounds as [|rounds]; [unfold unseen in Hrd; simpl in Hrd; lia|].
    rewrite <- !app_assoc in Hr. simpl. rewrite E, (readInt_complete r _ _ _ Hk Hr). simpl. rewrite Z.eqb_refl.
    destruct (rest_prefix _ _ _ Hr) as [Hr1 _]. rewrite (readUInt_complete _ _ _ _ Hh Hr1). simpl.
    destruct (rest_prefix _ _ _ Hr1) as [Hr2 _]. destruct (Z.ltb_spec int64_max v); [lia|].
    rewrite (IH rounds _ tl); [|unfold unseen in *; destruct m; simpl in *; lia|done].
    by rewrite !length_app, !advance_advance, Nat.add_assoc.
  - assert (E : n <=? 0 = false) by lia. destruct rounds as [|rounds]; [unfold unseen in Hrd; destruct e; simpl in Hrd; lia|].
    rewrite <- !app_assoc in Hr. simpl. rewrite E, (readInt_complete r _ _ _ Hk Hr). simpl.
    destruct (Z.eqb_spec CLAIM_MOQT CLAIM_EXP); [done|]. rewrite Z.eqb_refl.
    destruct (rest_prefix _ _ _ Hr) as [Hr1 _]. destruct (rest_prefix _ _ _ Hr1) as [Hr2 _].
    rewrite (proj2 (skip_iff _ (advance (length i) (advance (length k) r)))) by (exists i; rewrite Hr2; done). simpl.
    rewrite (IH rounds _ tl); [|unfold unseen in *; destruct e; simpl in *; lia|done].
    by rewrite !length_app, !advance_advance, Nat.add_assoc.
Qed.

(** A further round changes nothing: the three rounds decide. *)
Lemma claimsLoop_rounds rounds n e m r : (unseen e m <= rounds)%nat ->
  claimsLoop (S rounds) n e m r = claimsLoop rounds n e m r.
Proof.
  intros Hrd. destruct (claimsLoop (S rounds) n e m r) as [r'|] eqn:E1.
  - apply claimsLoop_sound in E1 as (b & Hb & Hr & ->). symmetry. by eapply claimsLoop_complete.
  - destruct (claimsLoop rounds n e m r) as [r'|] eqn:E2; [|done].
    apply claimsLoop_sound in E2 as (b & Hb & Hr & ->). rewrite <- E1. eapply claimsLoop_complete; [done|lia|done].
Qed.

#[local] Arguments claimsLoop : simpl never.

(** Under strict claims a token passes exactly when it is a COSE array of
    four whose first two elements are well formed and whose third is a byte or
    text string holding, with nothing after it, a map of claims that are the
    expiry (an unsigned integer that fits in 64 signed bits) and the MoQT scopes,
    each at most once. *)
Theorem hasOnlyEnforcedClaims_exact (cwtBytes : bytes) :
  hasOnlyEnforcedClaims cwtBytes = true <->
  exists ah p u m sh payload tl mh n body,
    cwtBytes = ah ++ p ++ u ++ sh ++ payload ++ tl /\ head 4 4 ah /\ wf_item p /\ wf_item u /\
    (m = 2 \/ m = 3) /\ head m (Z.of_nat (length payload)) sh /\
    payload = mh ++ body /\ head 5 n mh /\ claims false false n body.
Proof.
  unfold hasOnlyEnforcedClaims. split.
  - destruct (readArrayLen (newReader cwtBytes)) as [[l r1]|] eqn:E1; [|done]. simpl.
    apply readArrayLen_iff in E1 as (ah & Hah & Hr1 & _). destruct (Z.eqb_spec l 4) as [->|]; [|done]. simpl.
    destruct (skip r1) as [r2|] eqn:E2; [|done]. simpl. apply skip_iff in E2 as (p & Hp & Hr2 & _).
    destruct (skip r2) as [r3|] eqn:E3; [|done]. simpl. apply skip_iff in E3 as (u & Hu & Hr3 & _).
    destruct (readBytes r3) as [[payload r4]|] eqn:E4; [|done]. simpl. apply readBytes_iff in E4 as (m & sh & Hm & Hsh & Hr4 & _).
    destruct (readMapLen (newReader payload)) as [[n c1]|] eqn:E5; [|done]. simpl. apply readMapLen_iff in E5 as (mh & Hmh & Hc1 & ->).
    destruct (claimsLoop 3 n false false (advance (length mh) (newReader payload))) as [c2|] eqn:E6; [|done]. apply claimsLoop_sound in E6 as (body & Hb & Hc2 & ->).
    intros He. unfold eof in He. apply Nat.eqb_eq in He. cbn [data_ pos_ advance newReader] in He.
    assert (Hend : rest (advance (length body) (advance (length mh) (newReader payload))) = []).
    { unfold rest, advance. simpl. simpl in He. by rewrite He, drop_all. }
    rewrite Hend, app_nil_r in Hc2. rewrite Hc2 in Hc1.
    exists ah, p, u, m, sh, payload, (rest r4), mh, n, body. split_and!; try done.
    change cwtBytes with (rest (newReader cwtBytes)). by rewrite Hr1, Hr2, Hr3, Hr4.
  - intros (ah & p & u & m & sh & payload & tl & mh & n & body & Hc & Hah & Hp & Hu & Hm & Hsh & Hpl & Hmh & Hb).
    set (r0 := newReader cwtBytes). assert (H0 : rest r0 = ah ++ p ++ u ++ sh ++ payload ++ tl) by done.
    set (r1 := advance (length ah) r0). destruct (rest_prefix _ _ _ H0) as [H1 _]. fold r1 in H1.
    set (r2 := advance (length p) r1). destruct (rest_prefix _ _ _ H1) as [H2 _]. fold r2 in H2.
    set (r3 := advance (length u) r2). destruct (rest_prefix _ _ _ H2) as [H3 _]. fold r3 in H3.
    destruct (rest_prefix _ _ _ H3) as [H4 _]. destruct (rest_prefix _ _ _ H4) as [H5 _]. rewrite advance_advance in H5.
    assert (E1 : readArrayLen r0 = Some (4, r1)) by (apply readArrayLen_iff; exists ah; by rewrite H1).
    assert (E2 : skip r1 = Some r2) by (apply skip_iff; exists p; by rewrite H2).
    assert (E3 : skip r2 = Some r3) by (apply skip_iff; exists u; by rewrite H3).
    assert (E4 : readBytes r3 = Some (payload, advance (length sh + length payload) r3))
      by (apply readBytes_iff; exists m, sh; by rewrite H5).
    set (c0 := newReader payload). assert (Hm0 : rest c0 = mh ++ body) by done.
    destruct (rest_prefix _ _ _ Hm0) as [Hm1 _].
    assert (E5 : readMapLen c0 = Some (n, advance (length mh) c0)) by (apply readMapLen_iff; exists mh; by rewrite Hm1).
    rewrite E1. simpl. rewrite E2. simpl. rewrite E3. simpl. rewrite E4. simpl. fold c0. rewrite E5. simpl.
    rewrite (claimsLoop_complete _ _ _ _ Hb 3 _ []); [|vm_compute; lia|by rewrite app_nil_r].
    unfold eof. apply Nat.eqb_eq. simpl. by rewrite Hpl, length_app.
Qed.
End claims.
