(* ===== verification/AuthIssuer.v ===== *)
(** Issuing tokens (auth/AuthTokenIssuer.cpp): which grants a token carries, and
    that the relay configured with the same key accepts it for them. *)

From Stdlib Require Import Strings.Byte.
From S2P Require Import Prelude CborReader Auth AuthTheorems.

(** What the source calls of catapult to build and sign a token. *)
Class CatapultIssueApi `{CA : CatapultApi} := {
  match_any : CompoundMatch;
  match_all : list (MatchRuleType * bytes) -> CompoundMatch;
  makeToken : option Z -> list (list Z * CompoundMatch * CompoundMatch) -> CatToken;
  validateTokenStructure : CatToken -> bool;   (* [false]: throws *)
  createCwt : bytes -> bytes -> CatToken -> bytes;   (* key, kid, token *)
}.

(** The documented behaviour the round trip relies on: a token keeps its claims,
    and a signed token names its key and validates under it. *)
Class CatapultIssueLaws `{CI : CatapultIssueApi} : Prop := {
  law_exp e l : token_exp (makeToken e l) = e;
  law_scopes e l : exists ss, token_scopes (makeToken e l) = Some ss /\
    map (fun s => (scope_actions s, scope_namespace_match s, scope_track_match s)) ss = l;
  law_any : match_is_empty match_any = true;
  law_all c : c <> [] -> match_is_empty (match_all c) = false /\ match_conditions (match_all c) = c;
  law_kid key kid t : kid <> [] -> decodeHeader (createCwt key kid t) = Some (Some kid);
  law_valid key kid t : validateTokenStructure t = true -> validateCwt key (createCwt key kid t) = Ok t;
  law_nonempty key kid t : createCwt key kid t <> [];
}.

Record IssueTokenOptions := mkIssueOptions {
  io_keyID : bytes;
  io_secret : bytes;
  io_actions : list Action;
  io_trackNamespace : TrackNamespace;
  io_trackName : option bytes;
  io_ttl : Z;    (* seconds *)
  io_now : Z;    (* nanoseconds *)
}.

Definition containsAction (actions : list Action) (action : Action) : bool := bool_decide (action ∈ actions).

Definition isNamespaceAction (action : Action) : bool :=
  match action with ServerSetup | PublishNamespace | SubscribeNamespace => true | _ => false end.

(** The grants [issueToken] builds; the checks that throw come first. *)
Definition issueGrants (o : IssueTokenOptions) : result string Grants :=
  if bool_decide (io_keyID o = []) then Err "CAT4MOQ key id must be non-empty"%string
  else if bool_decide (io_secret o = []) then Err "CAT4MOQ secret must be non-empty"%string
  else if bool_decide (io_actions o = []) then Err "at least one CAT4MOQ action is required"%string
  else if io_ttl o <=? 0 then Err "CAT4MOQ ttl must be greater than zero"%string
  else
    let expires := s64 (io_now o + s64 (io_ttl o * 1000000000)) in
    let setup := if containsAction (io_actions o) ClientSetup then [mkScope [ClientSetup] [] []] else [] in
    let namespaceMatches :=
      if bool_decide (io_trackNamespace o = []) then [] else [mkRule Exact (canonicalNamespace (io_trackNamespace o))] in
    let others := List.filter (fun a => negb (bool_decide (a = ClientSetup))) (io_actions o) in
    let namespaceActions := List.filter isNamespaceAction others in
    let trackActions := List.filter (fun a => negb (isNamespaceAction a)) others in
    let nsScope := match namespaceActions with [] => [] | _ => [mkScope namespaceActions namespaceMatches []] end in
    let trackScope :=
      match trackActions with
      | [] => []
      | _ => [mkScope trackActions namespaceMatches
                (match io_trackName o with Some name => [mkRule Exact name] | None => [] end)]
      end in
    Ok (mkGrants expires (setup ++ nsScope ++ trackScope)).

Definition selectHmacKey (auth : AuthConfig) (keyID : bytes) : result string HmacKey :=
  if negb (enabled auth) then Err "service auth is not enabled"%string
  else match hmacKeys auth with
       | [] => Err "service auth has no HMAC keys"%string
       | first :: _ =>
         if bool_decide (keyID = []) then Ok first
         else match List.find (fun k => bool_decide (hk_id k = keyID)) (hmacKeys auth) with
              | Some key => Ok key
              | None => Err "service auth has no HMAC key with this id"%string
              end
       end.

Section issuing.
Context `{CI : CatapultIssueApi}.

Definition toCatapultMatch (rules : list MatchRule) : CompoundMatch :=
  match rules with [] => match_any | _ => match_all (map (fun r => (mr_type r, mr_value r)) rules) end.

(** The expiry is cut to whole seconds. *)
Definition tokenFromGrants (grants : Grants) : option CatToken :=
  let exp := if expiresAt grants =? time_point_max then None else Some (expiresAt grants `quot` 1000000000) in
  let token := makeToken exp (map (fun s =>
    (map actionCode (s_actions s), toCatapultMatch (s_namespaceMatches s), toCatapultMatch (s_trackMatches s))) (scopes grants)) in
  if validateTokenStructure token then Some token else None.

Definition signGrants (keyID secret : bytes) (grants : Grants) : option bytes :=
  createCwt (deriveHmacKey secret) keyID <$> tokenFromGrants grants.

Definition issueToken (o : IssueTokenOptions) : result string bytes :=
  match issueGrants o with
  | Err e => Err e
  | Ok grants => match signGrants (io_keyID o) (io_secret o) grants with
                 | Some bytes => Ok bytes
                 | None => Err "the token structure is invalid"%string
                 end
  end.
End issuing.

(** ** What the grants allow *)
Lemma rulesMatch_exact_ns (ns rule : TrackNamespace) : segments_ok ns -> segments_ok rule ->
  rulesMatch (canonicalNamespace ns) (if bool_decide (rule = []) then [] else [mkRule Exact (canonicalNamespace rule)]) = true <->
  rule = [] \/ ns = rule.
Proof.
  intros Hn Hr. case_bool_decide as E; [simpl; tauto|]. unfold rulesMatch. simpl. rewrite andb_true_r.
  unfold ruleMatches. simpl. rewrite bool_decide_eq_true, canonicalNamespace_inj by done. tauto.
Qed.
Lemma rulesMatch_exact_track (name : bytes) (rule : option bytes) :
  rulesMatch name (match rule with Some r => [mkRule Exact r] | None => [] end) = true <-> rule = None \/ rule = Some name.
Proof.
  destruct rule as [r|]; simpl; [|tauto]. unfold rulesMatch. simpl. rewrite andb_true_r. unfold ruleMatches. simpl.
  rewrite bool_decide_eq_true. split; [intros ->; auto|intros [?|[= <-]]; done].
Qed.

Lemma existsb_scope {A} (f : Scope -> bool) (l : list A) (s : Scope) :
  existsb f (match l with [] => [] | _ => [s] end) = true <-> l <> [] /\ f s = true.
Proof. destruct l; simpl; [split; [done|by intros [? _]]|]. rewrite orb_false_r. split; [intros; split; done|by intros [_ ?]]. Qed.

Lemma issueGrants_spec (o : IssueTokenOptions) (g : Grants) (action : Action) (ns : TrackNamespace)
    (trackName : option bytes) (now : Z) :
  issueGrants o = Ok g -> segments_ok ns -> segments_ok (io_trackNamespace o) ->
  allowsImpl g action ns trackName now = true <->
  now < s64 (io_now o + s64 (io_ttl o * 1000000000)) /\ action ∈ io_actions o /\
  (action = ClientSetup \/
   ((io_trackNamespace o = [] \/ ns = io_trackNamespace o) /\
    (isNamespaceAction action = true \/ io_trackName o = None \/ io_trackName o = Some (default [] trackName)))).
Proof.
  intros Hi Hn Ho. unfold issueGrants in Hi. do 3 (case_bool_decide; [done|]). destruct (io_ttl o <=? 0); [done|].
  injection Hi as <-. unfold allowsImpl. cbn [expiresAt scopes]. set (ex := s64 (io_now o + _)).
  destruct (Z.leb_spec ex now) as [Hex|Hex]; [split; [done|intros [? _]; lia]|].
  set (others := List.filter (fun a => negb (bool_decide (a = ClientSetup))) (io_actions o)).
  set (test := fun scope => _).
  assert (Hin : forall P l, action ∈ List.filter P l <-> action ∈ l /\ P action = true)
    by (intros P l; rewrite !list_elem_of_In; apply filter_In).
  assert (Hoth : action ∈ others <-> action ∈ io_actions o /\ action <> ClientSetup).
  { unfold others. rewrite Hin, negb_true_iff, bool_decide_eq_false. done. }
  assert (Hscope : forall acts nm tm, test (mkScope acts nm tm) = true <->
    action ∈ acts /\ rulesMatch (canonicalNamespace ns) nm = true /\ rulesMatch (default [] trackName) tm = true).
  { intros acts nm tm. unfold test. simpl. by rewrite !andb_true_iff, bool_decide_eq_true. }
  rewrite !existsb_app, !orb_true_iff, !existsb_scope, !Hscope, !Hin, rulesMatch_exact_ns, rulesMatch_exact_track, Hoth by done.
  assert (Hne : forall P, action ∈ List.filter P others -> List.filter P others <> []).
  { intros P Ha E. rewrite E in Ha. by apply not_elem_of_nil in Ha. }
  pose proof (Hne isNamespaceAction) as Hne1. pose proof (Hne (fun a => negb (isNamespaceAction a))) as Hne2.
  rewrite Hin, Hoth in Hne1, Hne2.
  assert (Hsetup : existsb test (if containsAction (io_actions o) ClientSetup then [mkScope [ClientSetup] [] []] else []) = true <->
    action ∈ io_actions o /\ action = ClientSetup).
  { unfold containsAction. case_bool_decide as Hc; [|split; [done|by intros [? ->]]]. cbn [existsb]. rewrite orb_false_r, Hscope.
    rewrite list_elem_of_singleton. unfold rulesMatch. simpl. split; [intros [-> _]; done|intros [_ ->]; done]. }
  rewrite Hsetup. rewrite negb_true_iff in Hne2 |- *.
  assert (Hnil : rulesMatch (default [] trackName) [] = true) by done.
  assert (Hb : isNamespaceAction action = false <-> ~ isNamespaceAction action = true) by (destruct (isNamespaceAction action); naive_solver).
  assert (Hc : action = ClientSetup \/ action <> ClientSetup) by (destruct (decide (action = ClientSetup)); auto).
  assert (Hd : isNamespaceAction action = true \/ ~ isNamespaceAction action = true) by (destruct (isNamespaceAction action); naive_solver).
  rewrite Hb in Hne2 |- *. clear Hscope Hin Hoth Hne Hsetup Hb.
  tauto.
Qed.

(** The grants of an issued token allow, until they expire, exactly the
    actions asked for: the setup of a session for any namespace, namespace
    actions on the given namespace (any, when none is given), and track actions
    on the given namespace and track (any track, when none is given). *)
Theorem issueGrants_allows (o : IssueTokenOptions) (g : Grants) (action : Action) (ns : TrackNamespace)
    (trackName : option bytes) (now : Z) :
  issueGrants o = Ok g -> segments_ok ns -> segments_ok (io_trackNamespace o) ->
  allowsImpl g action ns trackName now = true <->
  now < s64 (io_now o + s64 (io_ttl o * 1000000000)) /\ action ∈ io_actions o /\
  (action = ClientSetup \/
   ((io_trackNamespace o = [] \/ ns = io_trackNamespace o) /\
    (isNamespaceAction action = true \/ io_trackName o = None \/ io_trackName o = Some (default [] trackName)))).
Proof. apply issueGrants_spec. Qed.

(** ** The round trip *)
Section roundtrip.
Context `{CL : CatapultIssueLaws}.

Lemma fromTo_match rules : fromCatapultMatch (toCatapultMatch rules) = rules.
Proof.
  unfold fromCatapultMatch, toCatapultMatch. destruct rules as [|r rules]; [by rewrite law_any|].
  destruct (law_all (map (fun r => (mr_type r, mr_value r)) (r :: rules))) as [-> ->]; [done|].
  rewrite map_map. rewrite <- (map_id (r :: rules)) at 2. apply map_ext. by intros [].
Qed.

(** Actions that [static_cast] recovers. *)
Definition action_ok (a : Action) : Prop := match a with UnknownAction _ => False | _ => True end.
Lemma actionOfCode_code a : action_ok a -> actionOfCode (actionCode a) = a /\ (actionCode a <? 0) = false.
Proof. by destruct a. Qed.

Lemma actions_roundtrip l : Forall action_ok l ->
  map actionOfCode (List.filter (fun a => negb (a <? 0)) (map actionCode l)) = l.
Proof.
  induction 1 as [|a l Ha Hl IH]; [done|]. destruct (actionOfCode_code a Ha) as [H1 H2]. cbn [map List.filter].
  rewrite H2. cbn [negb map]. by rewrite H1, IH.
Qed.

Lemma scopes_of_token (ss : list CatScope) (l : list Scope) :
  Forall (fun s => Forall action_ok (s_actions s)) l ->
  map (fun s => (scope_actions s, scope_namespace_match s, scope_track_match s)) ss =
    map (fun s => (map actionCode (s_actions s), toCatapultMatch (s_namespaceMatches s), toCatapultMatch (s_trackMatches s))) l ->
  map (fun cs => mkScope (map actionOfCode (List.filter (fun a => negb (a <? 0)) (scope_actions cs)))
    (fromCatapultMatch (scope_namespace_match cs)) (fromCatapultMatch (scope_track_match cs))) ss = l.
Proof.
  intros Hl. revert ss. induction Hl as [|s l Hs Hl IH]; intros [|c ss] H; try done. cbn [map] in *.
  injection H as Ha Hn Ht Hrest. rewrite Ha, Hn, Ht, !fromTo_match, actions_roundtrip, (IH ss Hrest) by done. by destruct s.
Qed.

(** The relay reads back the scopes, and the expiry cut to whole seconds. *)
Lemma grantsFromTo g token : Forall (fun s => Forall action_ok (s_actions s)) (scopes g) ->
  tokenFromGrants g = Some token ->
  grantsFromToken token = mkGrants (if expiresAt g =? time_point_max then time_point_max
                                    else s64 (expiresAt g `quot` 1000000000 * 1000000000)) (scopes g).
Proof.
  intros Hact. unfold tokenFromGrants. destruct (validateTokenStructure _); [|done]. intros [= <-].
  unfold grantsFromToken. rewrite law_exp. destruct (law_scopes (if expiresAt g =? time_point_max then None
    else Some (expiresAt g `quot` 1000000000)) (map (fun s => (map actionCode (s_actions s),
      toCatapultMatch (s_namespaceMatches s), toCatapultMatch (s_trackMatches s))) (scopes g))) as (ss & -> & Hss).
  rewrite (scopes_of_token ss (scopes g) Hact Hss). by destruct (expiresAt g =? time_point_max).
Qed.

Lemma find_snoc {A} (P : A -> bool) l x :
  List.find P (l ++ [x]) = match List.find P l with Some y => Some y | None => if P x then Some x else None end.
Proof. induction l as [|y l IH]; simpl; [done|]. by destruct (P y). Qed.

(** The index of the verifier finds the first key of an id. *)
Lemma keyIndex_of config kid : kid <> [] ->
  match List.find (fun e => bool_decide (e.1 = kid)) (keyIdIndex_ (newAuthTokenVerifier config)) with
  | Some (_, i) => exists key, hmacKeys config !! i = Some key /\ List.find (fun k => bool_decide (hk_id k = kid)) (hmacKeys config) = Some key
  | None => List.find (fun k => bool_decide (hk_id k = kid)) (hmacKeys config) = None
  end.
Proof.
  intros Hkid. unfold newAuthTokenVerifier. set (f := fun (acc : list DerivedKey * list (bytes * nat)) key => _).
  assert (H : forall l, length (fold_left f l ([], [])).1 = length l /\
    match List.find (fun e => bool_decide (e.1 = kid)) (fold_left f l ([], [])).2 with
    | Some (_, i) => exists key, l !! i = Some key /\ List.find (fun k => bool_decide (hk_id k = kid)) l = Some key
    | None => List.find (fun k => bool_decide (hk_id k = kid)) l = None
    end).
  { induction l as [|key l [Hlen IH]] using rev_ind; [done|]. rewrite fold_left_app. simpl.
    destruct (fold_left f l ([], [])) as [keys index]. simpl in *.
    split; [rewrite !length_app; simpl; lia|]. rewrite find_snoc.
    assert (Hold : forall i k, l !! i = Some k -> (l ++ [key]) !! i = Some k) by (intros; by apply lookup_app_l_Some).
    assert (Hfind : forall idx, List.find (fun e : bytes * nat => bool_decide (e.1 = kid)) idx = None ->
      existsb (fun e : bytes * nat => bool_decide (e.1 = kid)) idx = false).
    { intros idx Hf. apply not_true_iff_false. intros (e & He & Hb)%existsb_exists. by rewrite (List.find_none _ _ Hf e He) in Hb. }
    case_bool_decide as Hempty.
    - destruct (List.find _ index) as [[id i]|]; [destruct IH as (k & H1 & ->); eauto|]. rewrite IH.
      rewrite bool_decide_false; [done|congruence].
    - destruct (existsb _ index) eqn:Eex.
      + destruct (List.find (fun e => bool_decide (e.1 = kid)) index) as [[id i]|] eqn:Ef; [destruct IH as (k & H1 & ->); eauto|].
        rewrite IH. case_bool_decide as Hid; [|done]. subst kid. by rewrite (Hfind _ Ef) in Eex.
      + rewrite find_snoc. destruct (List.find _ index) as [[id i]|]; [destruct IH as (k & H1 & ->); eauto|]. rewrite IH. simpl.
        case_bool_decide as Hid; [|done]. exists key. split; [|done]. rewrite Hlen. by apply list_lookup_middle. }
  specialize (H (hmacKeys config)). destruct (fold_left f (hmacKeys config) ([], [])) as [keys index]. by destruct H.
Qed.

Lemma allowsImpl_later g e action ns trackName now now' :
  allowsImpl g action ns trackName now = true -> now' < e -> allowsImpl (mkGrants e (scopes g)) action ns trackName now' = true.
Proof.
  unfold allowsImpl. destruct (expiresAt g <=? now); [done|]. simpl. intros H He. destruct (Z.leb_spec e now'); [lia|done].
Qed.

Lemma issueGrants_fields o g : issueGrants o = Ok g -> Forall action_ok (io_actions o) ->
  io_keyID o <> [] /\ expiresAt g = s64 (io_now o + s64 (io_ttl o * 1000000000)) /\
  Forall (fun s => Forall action_ok (s_actions s)) (scopes g).
Proof.
  intros Hi Hact. unfold issueGrants in Hi. do 3 (case_bool_decide; [done|]). destruct (io_ttl o <=? 0); [done|].
  injection Hi as <-. split_and!; [done|done|]. cbn [scopes].
  assert (Hf : forall P Q, Forall action_ok (List.filter P (List.filter Q (io_actions o)))).
  { intros P Q. apply List.Forall_forall. intros a [[Ha _]%filter_In _]%filter_In.
    rewrite List.Forall_forall in Hact. by apply Hact. }
  apply Forall_app. split; [destruct (containsAction _ _); repeat constructor|].
  apply Forall_app. split; (destruct (List.filter _ (List.filter _ _)) eqn:E; [constructor|]; rewrite <- E; constructor;
    [apply Hf|constructor]).
Qed.

(** The relay that holds the issuer's key verifies the token. *)
Lemma issued_verifies o config key g token now :
  io_keyID o <> [] -> selectHmacKey config (io_keyID o) = Ok key -> io_secret o = hk_secret key ->
  Forall (fun s => Forall action_ok (s_actions s)) (scopes g) ->
  signGrants (io_keyID o) (io_secret o) g = Some token ->
  (strictClaims config = true -> hasOnlyEnforcedClaims token = true) ->
  expiresAt g <> time_point_max -> now < s64 (expiresAt g `quot` 1000000000 * 1000000000) ->
  verify (newAuthTokenVerifier config) (mkAuthToken (tokenType config) token) now =
    Ok (mkGrants (s64 (expiresAt g `quot` 1000000000 * 1000000000)) (scopes g)).
Proof.
  intros Hid Hsel Hsec Hact Hsign Hstrict Hmax Hnow. unfold signGrants in Hsign.
  destruct (tokenFromGrants g) as [t|] eqn:Et; [|done]. injection Hsign as Htok.
  assert (Hvalid : validateTokenStructure t = true).
  { unfold tokenFromGrants in Et. destruct (validateTokenStructure (makeToken _ _)) eqn:Ev; [by injection Et as <-|done]. }
  unfold selectHmacKey in Hsel. destruct (enabled config) eqn:Een; [|done]. simpl in Hsel.
  destruct (hmacKeys config) as [|k0 ks] eqn:Ekeys; [done|]. rewrite bool_decide_false in Hsel by done.
  destruct (derivedKeys_of config) as (Hdk & Hcfg & _).
  unfold verify. rewrite Hcfg, Een. cbn [negb at_tokenType at_tokenValue]. rewrite Z.eqb_refl. cbn [negb].
  rewrite bool_decide_false by (rewrite <- Htok; apply law_nonempty). rewrite <- Htok at 1. rewrite law_kid by done.
  pose proof (keyIndex_of config (io_keyID o) Hid) as Hidx. rewrite Ekeys in Hidx.
  destruct (List.find _ (k0 :: ks)) as [k|] eqn:Ef; [|done]. injection Hsel as ->.
  destruct (List.find _ (keyIdIndex_ _)) as [[kid i]|]; [|done]. destruct Hidx as (k' & Hk' & [= <-]).
  rewrite Hdk, Ekeys, list_lookup_fmap, Hk'. cbn [fmap option_fmap option_map].
  unfold tryVerify. cbn [dk_key at_tokenValue]. rewrite <- Hsec, <- Htok at 1. rewrite law_valid by done.
  rewrite (grantsFromTo g t Hact Et). cbn [expiresAt]. destruct (Z.eqb_spec (expiresAt g) time_point_max); [done|].
  destruct (Z.leb_spec (s64 (expiresAt g `quot` 1000000000 * 1000000000)) now); [lia|]. rewrite Hcfg.
  destruct (strictClaims config); [|done]. by rewrite Hstrict.
Qed.

(** (C24) A token issued with the key of a service is accepted by the relay of
    that service: a request that carries it is let through for every action it
    was issued for, on the namespace and track it was issued for, until the
    whole second before it expires. *)
Theorem issued_token_authorizes (o : IssueTokenOptions) (config : AuthConfig) (key : HmacKey) (token : bytes)
    (action : Action) (now : Z) :
  selectHmacKey config (io_keyID o) = Ok key -> io_secret o = hk_secret key -> issueToken o = Ok token ->
  Forall action_ok (io_actions o) -> segments_ok (io_trackNamespace o) -> action ∈ io_actions o ->
  allowRequestTokenOverride config = true -> 1 <= maxTokensPerMessage config ->
  (strictClaims config = true -> hasOnlyEnforcedClaims token = true) ->
  let expires := s64 (io_now o + s64 (io_ttl o * 1000000000)) in
  expires <> time_point_max -> now < s64 (expires `quot` 1000000000 * 1000000000) ->
  forall sessionGrants,
  authorize (newAuthTokenVerifier config) action [mkParameter AUTHORIZATION_TOKEN (mkAuthToken (tokenType config) token)]
    (io_trackNamespace o) sessionGrants (io_trackName o) now = Ok tt.
Proof.
  intros Hsel Hsec Hissue Hact Hseg Hin Hover Hmax Hstrict expires Hne Hnow session.
  unfold issueToken in Hissue. destruct (issueGrants o) as [g|] eqn:Eg; [|done].
  destruct (signGrants _ _ g) as [b|] eqn:Es; [|done]. injection Hissue as ->.
  destruct (issueGrants_fields o g Eg Hact) as (Hid & Hexp & Hacts). fold expires in Hexp.
  apply authorize_spec. right.
  assert (Htok : findAuthTokens [mkParameter AUTHORIZATION_TOKEN (mkAuthToken (tokenType config) token)] (tokenType config) =
    [mkAuthToken (tokenType config) token]) by (unfold findAuthTokens; simpl; by rewrite !Z.eqb_refl).
  rewrite Htok. split; [simpl; lia|].
  exists (mkGrants (s64 (expires `quot` 1000000000 * 1000000000)) (scopes g)). split.
  - right. right. split; [done|]. exists (mkAuthToken (tokenType config) token). rewrite Htok. split; [by left|].
    rewrite <- Hexp in Hne, Hnow |- *. by eapply issued_verifies.
  - apply (allowsImpl_later g _ _ _ _ (expires - 1)); [|done].
    apply (issueGrants_spec o g action (io_trackNamespace o) (io_trackName o) (expires - 1) Eg Hseg Hseg).
    fold expires. split; [lia|]. split; [done|]. right. split; [by right|]. right.
    destruct (io_trackName o) as [n|]; [right|left]; done.
Qed.
End roundtrip.
