(* ===== verification/AuthParse.v ===== *)
(** The arguments of the token issuer: names of actions (auth/Action.h) and the
    lists of actions and namespace segments given on the command line
    (auth/AuthTokenIssuer.cpp).  An exception is [None]. *)

From Stdlib Require Import String Ascii.
From S2P Require Import Prelude Auth.

(** ** Characters, as in the C locale *)
Definition isspace (c : ascii) : bool :=
  let n := Z.of_N (N_of_ascii c) in (n =? 32) || ((9 <=? n) && (n <=? 13)).
Definition tolower (c : ascii) : ascii :=
  let n := Z.of_N (N_of_ascii c) in
  if (65 <=? n) && (n <=? 90) then ascii_of_N (Z.to_N (n + 32)) else c.

Fixpoint mapChars (f : ascii -> ascii) (s : string) : string :=
  match s with EmptyString => EmptyString | String c r => String (f c) (mapChars f r) end.

(** ** [trim]: the first loop, then the second on what is left. *)
Fixpoint trimFront (s : string) : string :=
  match s with
  | EmptyString => EmptyString
  | String c r => if isspace c then trimFront r else s
  end.
Fixpoint trimBack (s : string) : string :=
  match s with
  | EmptyString => EmptyString
  | String c r =>
      match trimBack r with
      | EmptyString => if isspace c then EmptyString else String c EmptyString
      | r' => String c r'
      end
  end.
Definition trim (s : string) : string := trimBack (trimFront s).

(** The pieces between the separators: the loop with [find] and [substr]. *)
Fixpoint pieces (sep : ascii) (s : string) : list string :=
  match s with
  | EmptyString => [EmptyString]
  | String c r =>
      if Ascii.eqb c sep then EmptyString :: pieces sep r
      else match pieces sep r with
           | [] => [String c EmptyString]
           | p :: ps => String c p :: ps
           end
  end.

Definition actionName (a : Action) : string :=
  match a with
  | ClientSetup => "client_setup"
  | ServerSetup => "server_setup"
  | PublishNamespace => "publish_namespace"
  | SubscribeNamespace => "subscribe_namespace"
  | Subscribe => "subscribe"
  | RequestUpdate => "request_update"
  | Publish => "publish"
  | Fetch => "fetch"
  | TrackStatus => "track_status"
  | UnknownAction _ => "unknown"
  end.

Section parse.
(** folly. *)
Context (trimWhitespace : string -> string).

Definition canonicalAction (name : string) : option Action :=
  let normalized :=
    mapChars (fun c => tolower (if Ascii.eqb c "-"%char then "_"%char else c)) (trimWhitespace name) in
  let eqs (s : string) := String.eqb normalized s in
  if eqs "client_setup" || eqs "setup" || eqs "0" then Some ClientSetup
  else if eqs "server_setup" || eqs "1" then Some ServerSetup
  else if eqs "publish_namespace" || eqs "announce" || eqs "2" then Some PublishNamespace
  else if eqs "subscribe_namespace" || eqs "3" then Some SubscribeNamespace
  else if eqs "subscribe" || eqs "4" then Some Subscribe
  else if eqs "request_update" || eqs "subscribe_update" || eqs "5" then Some RequestUpdate
  else if eqs "publish" || eqs "6" then Some Publish
  else if eqs "fetch" || eqs "7" then Some Fetch
  else if eqs "track_status" || eqs "8" then Some TrackStatus
  else None.

Fixpoint parseActions_loop (l : list string) : option (list Action) :=
  match l with
  | [] => Some []
  | p :: r =>
      match trim p with
      | EmptyString => parseActions_loop r
      | token => a ← canonicalAction token; rest ← parseActions_loop r; Some (a :: rest)
      end
  end.
Definition parseActions (value : string) : option (list Action) :=
  actions ← parseActions_loop (pieces ","%char value);
  match actions with [] => None | _ => Some actions end.
End parse.

Definition parseTrackNamespace (value : string) : list string :=
  match filter (fun p => p <> EmptyString) (pieces "/"%char value) with
  | [] => [value]
  | l => l
  end.

(** ** Round trips *)
Fixpoint hasChar (c : ascii) (s : string) : bool :=
  match s with EmptyString => false | String d r => Ascii.eqb d c || hasChar c r end.
(** The strings joined with a separator. *)
Fixpoint join (sep : ascii) (l : list string) : string :=
  match l with
  | [] => EmptyString
  | [s] => s
  | s :: r => (s ++ String sep (join sep r))%string
  end.

Lemma pieces_plain sep s : hasChar sep s = false -> pieces sep s = [s].
Proof.
  induction s as [|c s IH]; [done|]. cbn. intros [Hc Hs]%orb_false_iff. rewrite Hc, IH by done. done.
Qed.
Lemma pieces_app sep s r :
  hasChar sep s = false -> pieces sep (s ++ String sep r)%string = s :: pieces sep r.
Proof.
  induction s as [|c s IH].
  - intros _. change (EmptyString ++ String sep r)%string with (String sep r).
    cbn [pieces]. by rewrite Ascii.eqb_refl.
  - cbn [hasChar]. intros [Hc Hs]%orb_false_iff.
    change (String c s ++ String sep r)%string with (String c (s ++ String sep r)).
    cbn [pieces]. by rewrite Hc, IH.
Qed.
Lemma pieces_join sep l :
  l <> [] -> Forall (fun s => hasChar sep s = false) l -> pieces sep (join sep l) = l.
Proof.
  intros Hl H. induction H as [|s l Hs H IH]; [done|]. destruct l as [|s' l].
  - by apply pieces_plain.
  - cbn [join]. rewrite pieces_app by done. f_equal. by apply IH.
Qed.

(** Strings without whitespace at either end; folly leaves them alone. *)
Definition trimmed (s : string) : Prop := trim s = s.
Class trims_whitespace (trimWhitespace : string -> string) : Prop :=
  trimWhitespace_trimmed s : trimmed s -> trimWhitespace s = s.

Definition known (a : Action) : bool := match a with UnknownAction _ => false | _ => true end.

Lemma canonicalAction_name tw `{!trims_whitespace tw} a :
  known a = true -> canonicalAction tw (actionName a) = Some a.
Proof.
  intros H. unfold canonicalAction. rewrite (trimWhitespace_trimmed (trimWhitespace := tw)); [|by destruct a].
  destruct a; done.
Qed.

(** What the issuer's command line is written from is what it reads: a
    comma-separated list of action names gives back the actions, and a
    slash-separated namespace gives back its segments when none is empty or has a
    slash. *)
Theorem issuer_arguments_roundtrip (tw : string -> string) `{TW : !trims_whitespace tw}
    (actions : list Action) (segments : list string) :
  actions <> [] -> forallb known actions = true ->
  segments <> [] -> Forall (fun s => s <> EmptyString /\ hasChar "/"%char s = false) segments ->
  parseActions tw (join ","%char (map actionName actions)) = Some actions /\
  parseTrackNamespace (join "/"%char segments) = segments.
Proof.
  intros Ha Hk Hs Hseg. split.
  - unfold parseActions. rewrite pieces_join.
    + assert (E : parseActions_loop tw (map actionName actions) = Some actions).
      { clear Ha. induction actions as [|a l IH]; [done|]. cbn in Hk. apply andb_true_iff in Hk as [H1 H2].
        cbn [map parseActions_loop].
        assert (Et : trim (actionName a) = actionName a) by by destruct a.
        assert (En : exists c r, actionName a = String c r) by (destruct a; by eexists _, _).
        destruct En as (c & r & En). rewrite Et, En, <-En, canonicalAction_name by done. cbn.
        by rewrite IH. }
      rewrite E. cbn. by destruct actions.
    + by destruct actions.
    + apply Forall_forall. intros s Hin. apply list_elem_of_In, in_map_iff in Hin as (a & <- & _). by destruct a.
  - unfold parseTrackNamespace. rewrite pieces_join; [|done|by eapply Forall_impl; [exact Hseg|intros ? []]].
    assert (E : filter (fun p => p <> EmptyString) segments = segments).
    { clear Hs. induction Hseg as [|s l [H1 _] _ IH]; [done|]. rewrite filter_cons_True by done. by f_equal. }
    rewrite E. by destruct segments.
Qed.

#[global] Instance trim_trims : trims_whitespace trim.
Proof. by intros s. Qed.

Lemma issuer_arguments_roundtrip_witness :
  parseActions trim "subscribe,fetch" = Some [Subscribe; Fetch] /\
  parseTrackNamespace "live/cam" = ["live"; "cam"]%string.
Proof.
  apply (issuer_arguments_roundtrip trim [Subscribe; Fetch] ["live"; "cam"]%string).
  - discriminate.
  - reflexivity.
  - discriminate.
  - repeat constructor; discriminate.
Defined.
