(* ===== verification/AuthWitness.v ===== *)
(** The authorization theorems at concrete tokens, over an instance of the
    catapult interface in which a signed token is the encoding of its key, its
    key id and its claims. *)

From Stdlib Require Import Strings.Byte.
From stdpp Require Import countable.
From S2P Require Import Prelude CborReader Auth AuthTheorems AuthIssuer.

#[local] Instance byte_countable : Countable byte := inj_countable Byte.to_N Byte.of_N Byte.of_to_N.
#[local] Instance MatchRuleType_eq_dec : EqDecision MatchRuleType.
Proof. solve_decision. Defined.
Definition matchCode (m : MatchRuleType) : nat := match m with Exact => 0 | Prefix => 1 | Suffix => 2 | Contains => 3 end.
Definition matchOfCode (n : nat) : option MatchRuleType :=
  match n with 0 => Some Exact | 1 => Some Prefix | 2 => Some Suffix | 3 => Some Contains | _ => None end%nat.
#[local] Instance MatchRuleType_countable : Countable MatchRuleType.
Proof. apply (inj_countable matchCode matchOfCode). by intros []. Defined.

Definition RefMatch : Type := list (MatchRuleType * bytes).
Definition RefScope : Type := list Z * RefMatch * RefMatch.
Definition RefToken : Type := option Z * list RefScope.

(** Positive numbers as bytes, one per bit. *)
Fixpoint bitsOf (p : positive) : bytes :=
  match p with xH => [x00] | xO p => x01 :: bitsOf p | xI p => x02 :: bitsOf p end.
Fixpoint ofBits (b : bytes) : option positive :=
  match b with
  | [x00] => Some xH
  | x01 :: b => xO <$> ofBits b
  | x02 :: b => xI <$> ofBits b
  | _ => None
  end.
Lemma ofBits_bitsOf p : ofBits (bitsOf p) = Some p.
Proof. induction p as [p IH|p IH|]; simpl; [by rewrite IH|by rewrite IH|done]. Qed.

Definition signed (key kid : bytes) (t : RefToken) : bytes := bitsOf (encode (key, kid, t)).
Definition unsigned (b : bytes) : option (bytes * bytes * RefToken) := p ← ofBits b; decode p.
Lemma unsigned_signed key kid t : unsigned (signed key kid t) = Some (key, kid, t).
Proof. unfold unsigned, signed. rewrite ofBits_bitsOf. simpl. apply decode_encode. Qed.

#[local] Instance ref_catapult : CatapultApi := {
  CatToken := RefToken;
  CatScope := RefScope;
  CompoundMatch := RefMatch;
  token_exp := fst;
  token_scopes := fun t => Some t.2;
  scope_actions := fun s => s.1.1;
  scope_namespace_match := fun s => s.1.2;
  scope_track_match := fun s => s.2;
  match_is_empty := fun m => bool_decide (m = []);
  match_conditions := fun m => m;
  decodeHeader := fun b => match unsigned b with Some (_, kid, _) => Some (Some kid) | None => None end;
  validateCwt := fun key b => match unsigned b with
                              | Some (k, _, t) => if bool_decide (k = key) then Ok t else Err CryptoError
                              | None => Err CatError
                              end;
  CLAIM_EXP := 4;
  CLAIM_MOQT := 327;
  AUTHORIZATION_TOKEN := 3;
  deriveHmacKey := fun secret => secret;
}.
#[local] Instance ref_issue : CatapultIssueApi := {
  match_any := [];
  match_all := fun c => c;
  makeToken := fun e l => (e, l);
  validateTokenStructure := fun _ => true;
  createCwt := signed;
}.
#[local] Instance ref_laws : CatapultIssueLaws.
Proof.
  constructor.
  - done.
  - intros e l. exists l. split; [done|]. rewrite <- (map_id l) at 2. apply map_ext. by intros [[a b] c].
  - done.
  - intros c Hc. split; [by apply bool_decide_eq_false|done].
  - intros key kid t _. simpl. by rewrite unsigned_signed.
  - intros key kid t _. simpl. by rewrite unsigned_signed, bool_decide_true.
  - intros key kid t. simpl. unfold signed. by destruct (encode _).
Qed.

(** Namespace live/cam, track v; the service has one key of id k. *)
Definition live : TrackNamespace := [[x6c; x69; x76; x65]; [x63; x61; x6d]].
Definition theKey : HmacKey := mkHmacKey [x6b] [x73].
Definition theConfig : AuthConfig := mkAuthConfig true 0 [theKey] true true false [] 4.
Definition theOptions : IssueTokenOptions :=
  mkIssueOptions [x6b] [x73] [ClientSetup; Subscribe; PublishNamespace] live (Some [x76]) 3600 1000000000000.
Definition theToken : bytes := match issueToken theOptions with Ok b => b | Err _ => [] end.
Definition theParams : Parameters_ := [mkParameter AUTHORIZATION_TOKEN (mkAuthToken 0 theToken)].

Lemma live_ok : segments_ok live.
Proof. repeat constructor. Qed.

Lemma namespace_rules_by_segment_witness :
  (ruleMatches (canonicalNamespace live) (mkRule Exact (canonicalNamespace [[x6c; x69; x76; x65]])) = true <->
   live = [[x6c; x69; x76; x65]]) /\
  (ruleMatches (canonicalNamespace live) (mkRule Prefix (canonicalNamespace [[x6c; x69; x76; x65]])) = true <->
   [[x6c; x69; x76; x65]] `prefix_of` live).
Proof. apply (namespace_rules_by_segment live [[x6c; x69; x76; x65]] live_ok). repeat constructor. Defined.

Lemma issued_token_authorizes_witness :
  authorize (newAuthTokenVerifier theConfig) Subscribe theParams live [] (Some [x76]) 2000000000000 = Ok tt.
Proof.
  apply (issued_token_authorizes theOptions theConfig theKey theToken Subscribe 2000000000000).
  - reflexivity.
  - reflexivity.
  - reflexivity.
  - repeat constructor.
  - exact live_ok.
  - right. left.
  - reflexivity.
  - simpl. lia.
  - discriminate.
  - vm_compute. discriminate.
  - vm_compute. reflexivity.
Defined.

Definition theGrants : Grants := match issueGrants theOptions with Ok g => g | Err _ => noGrants end.
Lemma issueGrants_allows_witness :
  allowsImpl theGrants Subscribe live (Some [x76]) 2000000000000 = true <->
  2000000000000 < s64 (io_now theOptions + s64 (io_ttl theOptions * 1000000000)) /\ Subscribe ∈ io_actions theOptions /\
  (Subscribe = ClientSetup \/
   ((io_trackNamespace theOptions = [] \/ live = io_trackNamespace theOptions) /\
    (isNamespaceAction Subscribe = true \/ io_trackName theOptions = None \/
     io_trackName theOptions = Some (default [] (Some [x76]))))).
Proof.
  apply (issueGrants_allows theOptions theGrants Subscribe live (Some [x76]) 2000000000000); [reflexivity|exact live_ok|exact live_ok].
Defined.

Lemma theSetup_ok : exists gs, authenticateSetup (newAuthTokenVerifier theConfig) theParams 2000000000000 = Ok gs.
Proof.
  destruct (authenticateSetup (newAuthTokenVerifier theConfig) theParams 2000000000000) as [gs|e] eqn:E; [by exists gs|].
  vm_compute in E. discriminate.
Qed.

Lemma authenticateSetup_requires_token_witness :
  exists gs l, authenticateSetup (newAuthTokenVerifier theConfig) theParams 2000000000000 = Ok gs /\ gs = Some l /\
    (requireSetupToken theConfig = true -> exists token g, In token (findAuthTokens theParams (tokenType theConfig)) /\
       tokenGrants theConfig token 2000000000000 g /\ allows_ns g ClientSetup [] 2000000000000 = true).
Proof.
  destruct theSetup_ok as [gs H]. exists gs.
  destruct (authenticateSetup_requires_token theConfig theParams 2000000000000 gs eq_refl H) as (l & H1 & _ & _ & H4).
  exists l. split; [exact H|]. split; [exact H1|exact H4].
Defined.
