(* ===== verification/SafeTrackName.v ===== *)
(** The printable form of namespaces and track names (SafeTrackName.cpp), used
    as metric labels and file names. *)

From Stdlib Require Import Strings.Byte.
From S2P Require Import Prelude CborReader Auth.

Definition dash : byte := x2d.
Definition dot : byte := x2e.

Definition passesThrough (b : byte) : bool :=
  let c := byteZ b in
  ((97 <=? c) && (c <=? 122)) || ((65 <=? c) && (c <=? 90)) || ((48 <=? c) && (c <=? 57)) || (c =? 95).

(** [kHexDigits[n]] *)
Definition kHexDigits (n : Z) : byte := if n <? 10 then toByte (48 + n) else toByte (87 + n).

(** The value of one hexadecimal digit, in either case, as [from_chars] reads it. *)
Definition hexValue (b : byte) : option Z :=
  let c := byteZ b in
  if (48 <=? c) && (c <=? 57) then Some (c - 48)
  else if (97 <=? c) && (c <=? 102) then Some (c - 87)
  else if (65 <=? c) && (c <=? 70) then Some (c - 55)
  else None.
Definition decodeHexPair (h l : byte) : option byte :=
  hv ← hexValue h; lv ← hexValue l; Some (toByte (hv * 16 + lv)).

Definition safeByte (ch : byte) : bytes :=
  if passesThrough ch then [ch]
  else [dot; kHexDigits (Z.shiftr (byteZ ch) 4); kHexDigits (Z.land (byteZ ch) 15)].
Definition appendSafe (out b : bytes) : bytes := fold_left (fun out ch => out ++ safeByte ch) b out.
Definition safeName (b : bytes) : bytes := appendSafe [] b.

Definition appendSafe_ns (out : bytes) (ns : TrackNamespace) : bytes :=
  (fold_left (fun (acc : bytes * bool) (tuple : bytes) =>
     let '(out, first) := acc in
     (appendSafe (if first then out else out ++ [dash]) tuple, false)) ns (out, true)).1.
Definition safeName_ns (ns : TrackNamespace) : bytes := appendSafe_ns [] ns.
Definition safeName_ftn (ns : TrackNamespace) (trackName : bytes) : bytes :=
  appendSafe (appendSafe_ns [] ns ++ [dash; dash]) trackName.

Fixpoint parseSafeBytes (text : bytes) : option bytes :=
  match text with
  | [] => Some []
  | c :: text =>
    if passesThrough c then cons c <$> parseSafeBytes text
    else if negb (Byte.eqb c dot) then None
    else match text with
         | h :: l :: text => b ← decodeHexPair h l; cons b <$> parseSafeBytes text
         | _ => None
         end
  end.

(** The pieces between dashes, in order: the loop with [find('-', start)]. *)
Fixpoint splitDash (text : bytes) : list bytes :=
  match text with
  | [] => [[]]
  | c :: text =>
    if Byte.eqb c dash then [] :: splitDash text
    else match splitDash text with p :: ps => (c :: p) :: ps | [] => [[c]] end
  end.

Fixpoint parsePieces (pieces : list bytes) : option TrackNamespace :=
  match pieces with
  | [] => Some []
  | p :: ps => b ← parseSafeBytes p; cons b <$> parsePieces ps
  end.
Definition parseSafeNamespace (text : bytes) : option TrackNamespace :=
  match text with [] => Some [] | _ => parsePieces (splitDash text) end.

(** [text.rfind("--")] *)
Fixpoint rfindDashes (text : bytes) : option nat :=
  match text with
  | a :: rest =>
    match rfindDashes rest with
    | Some i => Some (S i)
    | None => match rest with b :: _ => if Byte.eqb a dash && Byte.eqb b dash then Some 0%nat else None | [] => None end
    end
  | [] => None
  end.

Definition parseSafeFullTrackName (text : bytes) : option (TrackNamespace * bytes) :=
  split ← rfindDashes text;
  match parseSafeNamespace (take split text), parseSafeBytes (drop (split + 2) text) with
  | Some ns, Some track => Some (ns, track)
  | _, _ => None
  end.

(** ** Bytes *)
Definition allBytes : list byte := map (fun n => toByte (Z.of_nat n)) (seq 0 256).

Lemma toByte_byteZ b : toByte (byteZ b) = b.
Proof.
  unfold toByte. pose proof (byteZ_range b). rewrite Z.mod_small by lia. unfold byteZ. rewrite N2Z.id.
  by rewrite Byte.of_to_N.
Qed.

(** A property of bytes is checked on all of them. *)
Lemma forall_bytes (P : byte -> bool) : forallb P allBytes = true -> forall b, P b = true.
Proof.
  intros H b. rewrite forallb_forall in H. apply H. unfold allBytes. apply in_map_iff.
  exists (Z.to_nat (byteZ b)). pose proof (byteZ_range b). split; [rewrite Z2Nat.id by lia; apply toByte_byteZ|].
  apply in_seq. lia.
Qed.

Lemma hexPair_roundtrip ch :
  decodeHexPair (kHexDigits (Z.shiftr (byteZ ch) 4)) (kHexDigits (Z.land (byteZ ch) 15)) = Some ch.
Proof.
  assert (H : match decodeHexPair (kHexDigits (Z.shiftr (byteZ ch) 4)) (kHexDigits (Z.land (byteZ ch) 15)) with
              | Some b => Byte.eqb b ch | None => false end = true).
  { apply (forall_bytes (fun ch => match decodeHexPair (kHexDigits (Z.shiftr (byteZ ch) 4))
      (kHexDigits (Z.land (byteZ ch) 15)) with Some b => Byte.eqb b ch | None => false end)). vm_compute. reflexivity. }
  destruct (decodeHexPair _ _) as [b|]; [|done]. by apply Byte.byte_dec_bl in H as ->.
Qed.

(** An encoded byte is read back, and holds no dash. *)
Lemma safeByte_parse ch tl : parseSafeBytes (safeByte ch ++ tl) = cons ch <$> parseSafeBytes tl.
Proof.
  unfold safeByte. destruct (passesThrough ch) eqn:E; simpl; [by rewrite E|]. by rewrite hexPair_roundtrip.
Qed.
Lemma safeByte_nodash ch : existsb (fun b => Byte.eqb b dash) (safeByte ch) = false.
Proof.
  apply negb_true_iff. apply (forall_bytes (fun ch => negb (existsb (fun b => Byte.eqb b dash) (safeByte ch)))).
  vm_compute. reflexivity.
Qed.
Lemma safeByte_nonempty ch : safeByte ch <> [].
Proof. unfold safeByte. by destruct (passesThrough ch). Qed.

(** ** Names *)
Lemma appendSafe_eq out b : appendSafe out b = out ++ safeName b.
Proof.
  unfold safeName, appendSafe. revert out. induction b as [|ch b IH]; intros out; simpl; [by rewrite app_nil_r|].
  rewrite IH, (IH (safeByte ch)). by rewrite app_assoc.
Qed.
Lemma safeName_cons ch b : safeName (ch :: b) = safeByte ch ++ safeName b.
Proof. unfold safeName, appendSafe at 1. simpl. apply appendSafe_eq. Qed.
Lemma safeName_nodash b : existsb (fun x => Byte.eqb x dash) (safeName b) = false.
Proof. induction b as [|ch b IH]; [done|]. by rewrite safeName_cons, existsb_app, safeByte_nodash, IH. Qed.
Lemma safeName_nil b : safeName b = [] -> b = [].
Proof.
  destruct b as [|ch b]; [done|]. rewrite safeName_cons. intros H. apply app_eq_nil in H as [H _].
  by destruct (safeByte_nonempty ch).
Qed.

Lemma parse_safeName b : parseSafeBytes (safeName b) = Some b.
Proof. induction b as [|ch b IH]; [done|]. by rewrite safeName_cons, safeByte_parse, IH. Qed.

(** The encoded tuples with dashes between them. *)
Definition joined (ns : TrackNamespace) : bytes :=
  match ns with [] => [] | t :: ts => safeName t ++ concat (map (fun t => dash :: safeName t) ts) end.

Lemma appendSafe_ns_eq out ns : appendSafe_ns out ns = out ++ joined ns.
Proof.
  unfold appendSafe_ns. destruct ns as [|t ts]; simpl; [by rewrite app_nil_r|]. rewrite appendSafe_eq, app_assoc.
  generalize (out ++ safeName t). induction ts as [|x ts IH]; intros acc; simpl; [by rewrite app_nil_r|].
  rewrite appendSafe_eq, IH, <- !app_assoc. done.
Qed.

Lemma split_piece p tl : existsb (fun x => Byte.eqb x dash) p = false ->
  splitDash (p ++ dash :: tl) = p :: splitDash tl /\ splitDash p = [p].
Proof.
  induction p as [|c p IH]; simpl; intros H; [done|]. apply orb_false_iff in H as [-> H].
  destruct (IH H) as [-> ->]. done.
Qed.

Lemma split_joined t ts : splitDash (joined (t :: ts)) = map safeName (t :: ts).
Proof.
  simpl. revert t. induction ts as [|x ts IH]; intros t; simpl.
  - rewrite app_nil_r. by destruct (split_piece (safeName t) [] (safeName_nodash t)).
  - destruct (split_piece (safeName t) (safeName x ++ concat (map (fun t => dash :: safeName t) ts)) (safeName_nodash t)) as [-> _].
    by rewrite IH.
Qed.

Lemma parsePieces_safe ns : parsePieces (map safeName ns) = Some ns.
Proof. induction ns as [|t ns IH]; [done|]. simpl. by rewrite parse_safeName, IH. Qed.

Lemma joined_nil ns : joined ns = [] -> ns = [] \/ ns = [[]].
Proof.
  destruct ns as [|t [|x ts]]; simpl; [by left| |].
  - rewrite app_nil_r. intros ->%safeName_nil. by right.
  - intros H. apply app_eq_nil in H as [_ H]. done.
Qed.

Lemma parse_joined ns : ns <> [[]] -> parseSafeNamespace (joined ns) = Some ns.
Proof.
  intros Hne. unfold parseSafeNamespace. destruct (joined ns) as [|c text] eqn:E.
  - apply joined_nil in E as [-> | ?]; done.
  - rewrite <- E. destruct ns as [|t ts]; [done|]. by rewrite split_joined, parsePieces_safe.
Qed.

Lemma rfind_none t : existsb (fun x => Byte.eqb x dash) t = false -> rfindDashes (dash :: t) = None /\ rfindDashes t = None.
Proof.
  induction t as [|c t IH]; intros H; [done|]. simpl in H. apply orb_false_iff in H as [Hc Ht].
  destruct (IH Ht) as [_ IH2].
  assert (Hct : rfindDashes (c :: t) = None) by (simpl; rewrite IH2; destruct t; [done|by rewrite Hc]).
  split; [|exact Hct]. change (rfindDashes (dash :: c :: t)) with
    (match rfindDashes (c :: t) with Some i => Some (S i)
     | None => if Byte.eqb dash dash && Byte.eqb c dash then Some 0%nat else None end). by rewrite Hct, Hc.
Qed.
Lemma rfind_last s t : existsb (fun x => Byte.eqb x dash) t = false -> rfindDashes (s ++ dash :: dash :: t) = Some (length s).
Proof.
  intros Ht. induction s as [|c s IH].
  - simpl app. cbn [rfindDashes]. destruct (rfind_none t Ht) as [H1 H2]. cbn [rfindDashes] in H1. rewrite H2 in H1 |- *.
    by rewrite H1.
  - simpl. by rewrite IH.
Qed.

(** What is read back of a namespace: itself, but the namespace of one empty tuple
    is read back as the empty one. *)
Definition readBack (ns : TrackNamespace) : TrackNamespace := match ns with [[]] => [] | _ => ns end.
Lemma parse_ns ns : parseSafeNamespace (joined ns) = Some (readBack ns).
Proof. destruct ns as [|[|c t] [|x ts]]; try done; by rewrite parse_joined. Qed.
Lemma joined_readBack ns : joined (readBack ns) = joined ns.
Proof. by destruct ns as [|[|c t] [|x ts]]. Qed.
Lemma parse_ftn ns trackName : parseSafeFullTrackName (safeName_ftn ns trackName) = Some (readBack ns, trackName).
Proof.
  unfold parseSafeFullTrackName, safeName_ftn. rewrite appendSafe_eq, appendSafe_ns_eq, <- app_assoc. simpl app.
  rewrite rfind_last by apply safeName_nodash. simpl. rewrite take_app_length, parse_ns.
  replace (drop (length (joined ns) + 2) (joined ns ++ dash :: dash :: safeName trackName)) with (safeName trackName).
  - by rewrite parse_safeName.
  - rewrite <- drop_drop, drop_app_length. done.
Qed.

(** (C37) Printing and parsing names are inverse: bytes, namespaces and full
    track names are read back from their printed form, but the namespace whose
    only tuple is empty is read back as the empty namespace.  So the printed form
    is injective on bytes, and on namespaces and full track names up to exactly
    that one collision. *)
Theorem safeName_roundtrip (b b' : bytes) (ns ns' : TrackNamespace) (trackName trackName' : bytes) :
  parseSafeBytes (safeName b) = Some b /\ parseSafeNamespace (safeName_ns ns) = Some (readBack ns) /\
  parseSafeFullTrackName (safeName_ftn ns trackName) = Some (readBack ns, trackName) /\
  (safeName b = safeName b' <-> b = b') /\
  (safeName_ns ns = safeName_ns ns' <-> readBack ns = readBack ns') /\
  (safeName_ftn ns trackName = safeName_ftn ns' trackName' <-> readBack ns = readBack ns' /\ trackName = trackName').
Proof.
  assert (Hns : forall ns, safeName_ns ns = joined ns) by (intros x; apply (appendSafe_ns_eq [] x)).
  split_and!; rewrite ?Hns; try apply parse_safeName; try apply parse_ns; try apply parse_ftn.
  - split; [|by intros ->]. intros H%(f_equal parseSafeBytes). rewrite !parse_safeName in H. congruence.
  - rewrite <- (joined_readBack ns), <- (joined_readBack ns'). split; [|by intros ->].
    intros H%(f_equal parseSafeNamespace). rewrite !joined_readBack, !parse_ns in H. congruence.
  - split.
    + intros H%(f_equal parseSafeFullTrackName). rewrite !parse_ftn in H. split; congruence.
    + intros [H ->]. unfold safeName_ftn. rewrite !appendSafe_ns_eq, <- (joined_readBack ns), H. by rewrite joined_readBack.
Qed.

(** The printed form is not injective on namespaces: the empty namespace and
    the namespace of one empty tuple print alike, and so do their tracks. *)
Theorem safeName_collision (trackName : bytes) :
  safeName_ns [] = safeName_ns [[]] /\ safeName_ftn [] trackName = safeName_ftn [[]] trackName.
Proof. done. Qed.
