(* ===== verification/Ranking.v ===== *)
(** The ranking of tracks by a property value and the top-N selection built on
    it (relay/PropertyRanking.h, relay/PropertyRanking.cpp).

    The ordered map [rankedTracks_] is the list of its bindings in the order of
    the map; an iterator into it is the key it points at.  The hash maps the code
    iterates over ([topNGroups_], [sessions]) are association lists, whose order
    stands for the unspecified iteration order; the other hash maps and sets are
    finite maps and sets.  A session is an integer (its pointer).  The callbacks
    of the relay are values: every operation returns the list of calls it makes,
    in order.  Ranks, counts and thresholds are 64-bit unsigned integers. *)

From S2P Require Import Prelude Assoc Location.

Definition UINT64_MAX : Z := u64_modulus - 1.

Abbreviation Session := Z.

(** ** Keys and entries *)
Record RankKey := RK { value : Z; arrivalSeq : Z }.

#[global] Instance RankKey_eq_dec : EqDecision RankKey.
Proof. solve_decision. Defined.

Definition rk_eqb (a b : RankKey) : bool :=
  (value a =? value b) && (arrivalSeq a =? arrivalSeq b).
(** [operator>]: the higher value first, then the earlier arrival. *)
Definition rk_gtb (a b : RankKey) : bool :=
  if negb (value a =? value b) then value b <? value a else arrivalSeq a <? arrivalSeq b.
Definition rk_geb (a b : RankKey) : bool := rk_gtb a b || rk_eqb a b.

Record RankedEntry := RE { ftn : FullTrackName; publisherRaw : Session }.
Record RankIndex := RI { rankIter : RankKey; cachedRank : Z }.

Inductive TrackState := Selected | Deselected.
#[global] Instance TrackState_eq_dec : EqDecision TrackState.
Proof. solve_decision. Defined.

Record SessionInfo := SI {
  forward : bool;
  waterlineKey : option RankKey;
  selectedTracks : gset FullTrackName;
}.

Record TopNGroup := TG {
  maxSelected : Z;
  sessions : list (Session * SessionInfo);
  trackStates : gmap FullTrackName TrackState;
  deselectedQueue : list FullTrackName;
}.

(** The callbacks of the relay. *)
Inductive Event :=
  | OnSelected (f : FullTrackName) (s : Session) (fwd : bool)
  | OnBatchSelected (f : FullTrackName) (batch : list (Session * bool))
  | OnEvicted (f : FullTrackName) (s : Session).

(** The arguments of the constructor: the limits, and which callbacks are set. *)
Record RankingConfig := RC {
  maxDeselected : Z;
  idleTimeout : Z;
  sweepThrottle : Z;
  getLastActivitySet : bool;
  onBatchSelectedSet : bool;
  onSelectedSet : bool;
  onEvictedSet : bool;
}.

Abbreviation Ranked := (list (RankKey * RankedEntry)).

Record PropertyRanking := PR {
  rankedTracks : Ranked;
  trackIndexByName : gmap FullTrackName RankIndex;
  topNGroups : list (Z * TopNGroup);
  publisherTrackCount : gmap Session Z;
  nextSeq : Z;
  selectionThreshold : Z;
  publisherExtendedThreshold : Z;
  sortedThresholds : list Z;
  rankCacheValid : bool;
  lastSweepTime : option Z;
}.

Definition emptyRanking : PropertyRanking :=
  PR [] ∅ [] ∅ 0 0 0 [] false None.

(** ** Field updates *)
Definition set_sessions (l : list (Session * SessionInfo)) (g : TopNGroup) : TopNGroup :=
  TG (maxSelected g) l (trackStates g) (deselectedQueue g).
Definition set_trackStates (m : gmap FullTrackName TrackState) (g : TopNGroup) : TopNGroup :=
  TG (maxSelected g) (sessions g) m (deselectedQueue g).
Definition set_deselectedQueue (q : list FullTrackName) (g : TopNGroup) : TopNGroup :=
  TG (maxSelected g) (sessions g) (trackStates g) q.

Definition set_topNGroups (l : list (Z * TopNGroup)) (r : PropertyRanking) : PropertyRanking :=
  PR (rankedTracks r) (trackIndexByName r) l (publisherTrackCount r) (nextSeq r)
     (selectionThreshold r) (publisherExtendedThreshold r) (sortedThresholds r)
     (rankCacheValid r) (lastSweepTime r).
(** [rankedTracks_] and [trackIndexByName_] change together and invalidate the
    cached ranks. *)
Definition set_tracks (l : Ranked) (ix : gmap FullTrackName RankIndex) (r : PropertyRanking)
  : PropertyRanking :=
  PR l ix (topNGroups r) (publisherTrackCount r) (nextSeq r)
     (selectionThreshold r) (publisherExtendedThreshold r) (sortedThresholds r)
     false (lastSweepTime r).
Definition set_cache (ix : gmap FullTrackName RankIndex) (r : PropertyRanking) : PropertyRanking :=
  PR (rankedTracks r) ix (topNGroups r) (publisherTrackCount r) (nextSeq r)
     (selectionThreshold r) (publisherExtendedThreshold r) (sortedThresholds r)
     true (lastSweepTime r).
Definition set_counts (m : gmap Session Z) (seq : Z) (r : PropertyRanking) : PropertyRanking :=
  PR (rankedTracks r) (trackIndexByName r) (topNGroups r) m seq
     (selectionThreshold r) (publisherExtendedThreshold r) (sortedThresholds r)
     (rankCacheValid r) (lastSweepTime r).
Definition set_extended (t : Z) (r : PropertyRanking) : PropertyRanking :=
  PR (rankedTracks r) (trackIndexByName r) (topNGroups r) (publisherTrackCount r) (nextSeq r)
     (selectionThreshold r) t (sortedThresholds r) (rankCacheValid r) (lastSweepTime r).
Definition set_thresholds (t : Z) (l : list Z) (r : PropertyRanking) : PropertyRanking :=
  PR (rankedTracks r) (trackIndexByName r) (topNGroups r) (publisherTrackCount r) (nextSeq r)
     t (publisherExtendedThreshold r) l (rankCacheValid r) (lastSweepTime r).
Definition set_lastSweep (t : Z) (r : PropertyRanking) : PropertyRanking :=
  PR (rankedTracks r) (trackIndexByName r) (topNGroups r) (publisherTrackCount r) (nextSeq r)
     (selectionThreshold r) (publisherExtendedThreshold r) (sortedThresholds r)
     (rankCacheValid r) (Some t).

(** ** The ordered map *)
Fixpoint ranked_emplace (k : RankKey) (e : RankedEntry) (l : Ranked) : Ranked :=
  match l with
  | [] => [(k, e)]
  | (k', e') :: r =>
      if rk_eqb k k' then l
      else if rk_gtb k k' then (k, e) :: l
      else (k', e') :: ranked_emplace k e r
  end.
Fixpoint ranked_erase (k : RankKey) (l : Ranked) : Ranked :=
  match l with
  | [] => []
  | (k', e') :: r => if rk_eqb k k' then r else (k', e') :: ranked_erase k r
  end.
Fixpoint ranked_find (k : RankKey) (l : Ranked) : option RankedEntry :=
  match l with
  | [] => None
  | (k', e') :: r => if rk_eqb k k' then Some e' else ranked_find k r
  end.

(** A loop over the bindings of a hash map that updates each value in place and
    makes calls. *)
Fixpoint for_each {K A} (f : K -> A -> A * list Event) (l : list (K * A))
  : list (K * A) * list Event :=
  match l with
  | [] => ([], [])
  | (k, a) :: r =>
      let '(a', ev) := f k a in
      let '(r', ev') := for_each f r in
      ((k, a') :: r', ev ++ ev')
  end.

(** ** Publisher-subscribers: sessions that own a ranked track *)
Section group_ops.
Context (cfg : RankingConfig).

(** The parts of the state the group operations only read. *)
Context (ranked : Ranked) (counts : gmap Session Z).

Definition isPublisher (s : Session) : bool := bool_decide (is_Some (counts !! s)).

Fixpoint waterline_scan (l : Ranked) (s : Session) (n nonSelfCount : Z) : option RankKey :=
  match l with
  | [] => None
  | (key, entry) :: r =>
      if negb (publisherRaw entry =? s) then
        let nonSelfCount := nonSelfCount + 1 in
        if nonSelfCount =? n then Some key else waterline_scan r s n nonSelfCount
      else waterline_scan r s n nonSelfCount
  end.
Definition computeWaterlineKey (s : Session) (n : Z) : option RankKey :=
  waterline_scan ranked s n 0.

(** The names [reconcilePublisherSelection] collects in [nowSelected], in the
    order of the ranking. *)
Definition nowSelected (wl : option RankKey) (s : Session) : list FullTrackName :=
  map (fun p => ftn p.2)
    (filter (fun p => negb (publisherRaw p.2 =? s) &&
                      match wl with None => true | Some w => rk_geb p.1 w end) ranked).

Definition reconcilePublisherSelection (info : SessionInfo) (n : Z) (s : Session)
  : SessionInfo * list Event :=
  let wl := computeWaterlineKey s n in
  let now := nowSelected wl s in
  let evicted := filter (fun f => f ∉ now) (elements (selectedTracks info)) in
  let added := filter (fun f => f ∉ selectedTracks info) now in
  (SI (forward info) wl (list_to_set now),
   (if onEvictedSet cfg then map (fun f => OnEvicted f s) evicted else []) ++
   (if onSelectedSet cfg then map (fun f => OnSelected f s (forward info)) added else [])).

(** ** Selection of the viewers of a group *)
Definition viewers (l : list (Session * SessionInfo)) : list (Session * bool) :=
  map (fun p => (p.1, forward p.2)) (filter (fun p => isPublisher p.1 = false) l).

Definition batchSelected (f : FullTrackName) (batch : list (Session * bool)) : list Event :=
  match batch with
  | [] => []
  | _ => if onBatchSelectedSet cfg then [OnBatchSelected f batch] else []
  end.

Definition notifyTrackSelected (f : FullTrackName) (g : TopNGroup) : TopNGroup * list Event :=
  let '(ss, ev) :=
    for_each (fun s info =>
      if isPublisher s then reconcilePublisherSelection info (maxSelected g) s else (info, []))
      (sessions g) in
  (set_sessions ss g, ev ++ batchSelected f (viewers (sessions g))).

Definition removeFromDeselectedQueue (f : FullTrackName) (g : TopNGroup) : TopNGroup :=
  set_deselectedQueue (filter (fun x => x <> f) (deselectedQueue g)) g.

(** The loop of [trimDeselectedQueue], on the queue that remains. *)
Fixpoint trim_loop (q : list FullTrackName) (st : gmap FullTrackName TrackState)
    (ss : list (Session * SessionInfo))
  : list FullTrackName * gmap FullTrackName TrackState * list Event :=
  match q with
  | [] => ([], st, [])
  | evicted :: q' =>
      if maxDeselected cfg <? Z.of_nat (length q) then
        let '(q'', st', ev) := trim_loop q' (delete evicted st) ss in
        (q'', st',
         (if onEvictedSet cfg then map (fun p => OnEvicted evicted p.1) ss else []) ++ ev)
      else (q, st, [])
  end.
Definition trimDeselectedQueue (g : TopNGroup) : TopNGroup * list Event :=
  let '(q, st, ev) := trim_loop (deselectedQueue g) (trackStates g) (sessions g) in
  (TG (maxSelected g) (sessions g) st q, ev).

Definition demoteTrack (f : FullTrackName) (g : TopNGroup) : TopNGroup * list Event :=
  trimDeselectedQueue
    (TG (maxSelected g) (sessions g) (<[f := Deselected]> (trackStates g))
        (deselectedQueue g ++ [f])).

(** The entry a counting loop over the ranking stops at. *)
Fixpoint at_rank (l : Ranked) (n count : Z) : option FullTrackName :=
  match l with
  | [] => None
  | (_, e) :: r => if count =? n then Some (ftn e) else at_rank r n (count + 1)
  end.

Definition isSelected (g : TopNGroup) (f : FullTrackName) : bool :=
  bool_decide (trackStates g !! f = Some Selected).

Definition demoteTrackAtRank (n : Z) (g : TopNGroup) : TopNGroup * list Event :=
  match at_rank ranked n 0 with
  | Some f => if isSelected g f then demoteTrack f g else (g, [])
  | None => (g, [])
  end.

Definition selectTrack (f : FullTrackName) (g : TopNGroup) : TopNGroup :=
  removeFromDeselectedQueue f (set_trackStates (<[f := Selected]> (trackStates g)) g).

Fixpoint promote_scan (l : Ranked) (excludeFtn : FullTrackName) (g : TopNGroup)
  : TopNGroup * list Event :=
  match l with
  | [] => (g, [])
  | (_, e) :: r =>
      if bool_decide (ftn e = excludeFtn) then promote_scan r excludeFtn g
      else if isSelected g (ftn e) then promote_scan r excludeFtn g
      else notifyTrackSelected (ftn e) (selectTrack (ftn e) g)
  end.
Definition promoteNextAvailableTrack (excludeFtn : FullTrackName) (g : TopNGroup)
  : TopNGroup * list Event :=
  promote_scan ranked excludeFtn g.

(** The promotion at the end of [recomputeTopNGroups]: the track at rank N-1. *)
Definition promoteTrackAtRank (n : Z) (g : TopNGroup) : TopNGroup * list Event :=
  match at_rank ranked n 0 with
  | Some f => if isSelected g f then (g, []) else notifyTrackSelected f (selectTrack f g)
  | None => (g, [])
  end.

(** ** The bodies of the loops over the groups *)
Definition register_group (f : FullTrackName) (rank n : Z) (g : TopNGroup)
  : TopNGroup * list Event :=
  if rank <? n then
    let '(g1, ev1) :=
      notifyTrackSelected f (set_trackStates (<[f := Selected]> (trackStates g)) g) in
    let '(g2, ev2) := demoteTrackAtRank n g1 in
    (g2, ev1 ++ ev2)
  else
    let '(ss, ev) :=
      for_each (fun s info =>
        if isPublisher s then reconcilePublisherSelection info n s else (info, []))
        (sessions g) in
    (set_sessions ss g, ev).

Definition recompute_group (f : FullTrackName) (publisher : option Session)
    (oldRank newRank n : Z) (g : TopNGroup) : TopNGroup * list Event :=
  let wasInTopN := oldRank <? n in
  let nowInTopN := newRank <? n in
  let '(g1, ev1) :=
    if negb (eqb wasInTopN nowInTopN) then
      if nowInTopN then (selectTrack f g, []) else demoteTrack f g
    else (g, []) in
  let '(ss, ev2) :=
    for_each (fun s info =>
      if isPublisher s then
        if bool_decide (Some s <> publisher) then reconcilePublisherSelection info n s
        else (info, [])
      else (info, [])) (sessions g1) in
  let batch := if negb wasInTopN && nowInTopN then viewers (sessions g1) else [] in
  let g2 := set_sessions ss g1 in
  let ev3 := batchSelected f batch in
  let '(g3, ev4) :=
    if negb wasInTopN && nowInTopN then demoteTrackAtRank n g2 else (g2, []) in
  let '(g4, ev5) :=
    if wasInTopN && negb nowInTopN then promoteTrackAtRank (n - 1) g3 else (g3, []) in
  (g4, ev1 ++ ev2 ++ ev3 ++ ev4 ++ ev5).

Definition remove_group (f : FullTrackName) (n : Z) (g : TopNGroup) : TopNGroup * list Event :=
  match trackStates g !! f with
  | None => (g, [])
  | Some st =>
      let g1 := removeFromDeselectedQueue f (set_trackStates (delete f (trackStates g)) g) in
      match st with
      | Deselected => (g1, [])
      | Selected =>
          match deselectedQueue g1 with
          | promoted :: q =>
              notifyTrackSelected promoted
                (TG (maxSelected g1) (sessions g1) (<[promoted := Selected]> (trackStates g1)) q)
          | [] => promoteNextAvailableTrack f g1
          end
      end
  end.

(** The names of the first N entries of the ranking, by a counting loop. *)
Fixpoint top_scan (l : Ranked) (n rank : Z) : list FullTrackName :=
  match l with
  | [] => []
  | (_, e) :: r => if n <=? rank then [] else ftn e :: top_scan r n (rank + 1)
  end.

Definition reconcile_session_group (session : Session) (n : Z) (g : TopNGroup)
  : TopNGroup * list Event :=
  match assoc session (sessions g) with
  | None => (g, [])
  | Some info =>
      let wasPublisher := negb (bool_decide (selectedTracks info = ∅)) ||
                          bool_decide (is_Some (waterlineKey info)) in
      let info1 := if wasPublisher then info
                   else SI (forward info) (waterlineKey info)
                           (selectedTracks info ∪ list_to_set (top_scan ranked n 0)) in
      let '(info2, ev) := reconcilePublisherSelection info1 n session in
      (set_sessions (assoc_set session info2 (sessions g)) g, ev)
  end.

(** Clock readings are in nanoseconds, configured durations in milliseconds. *)
Definition ns_per_ms : Z := 1000000.

(** One pass of [sweepIdle] over the tracks selected when it started. *)
Definition isIdle (now lastActivity : Z) : bool :=
  (lastActivity =? 0) || negb (now - lastActivity <=? idleTimeout cfg * ns_per_ms).
Fixpoint sweep_tracks (lastActivity : FullTrackName -> Z) (now : Z)
    (selected : list FullTrackName) (g : TopNGroup) : TopNGroup * list Event :=
  match selected with
  | [] => (g, [])
  | f :: r =>
      if isIdle now (lastActivity f) then
        let '(g1, ev1) := demoteTrack f g in
        let '(g2, ev2) := promoteNextAvailableTrack f g1 in
        let '(g3, ev3) := sweep_tracks lastActivity now r g2 in
        (g3, ev1 ++ ev2 ++ ev3)
      else sweep_tracks lastActivity now r g
  end.
Definition sweep_group (lastActivity : FullTrackName -> Z) (now : Z) (g : TopNGroup)
  : TopNGroup * list Event :=
  sweep_tracks lastActivity now
    (map fst (filter (fun p => p.2 = Selected) (map_to_list (trackStates g)))) g.
End group_ops.

Arguments isPublisher : clear implicits.

(** ** The thresholds *)
Section thresholds.
Context (cfg : RankingConfig).

Definition updateSelectionThreshold (r : PropertyRanking) : PropertyRanking :=
  let ns := map fst (topNGroups r) in
  set_thresholds (u64 (foldl Z.max 0 ns + maxDeselected cfg)) (merge_sort Z.le ns) r.

(** The largest N plus self-track count over the publisher-subscribers, from
    [start]. *)
Definition extended_session (counts : gmap Session Z) (n : Z) (acc : Z) (s : Session) : Z :=
  match counts !! s with Some c => Z.max acc (u64 (n + c)) | None => acc end.
Definition maxExtended (counts : gmap Session Z) (groups : list (Z * TopNGroup)) (start : Z) : Z :=
  foldl (fun acc p => foldl (extended_session counts p.1) acc (map fst (sessions p.2)))
        start groups.

Definition updatePublisherExtendedThreshold (r : PropertyRanking) : PropertyRanking :=
  set_extended
    (u64 (maxExtended (publisherTrackCount r) (topNGroups r) 0 + maxDeselected cfg)) r.

(** [std::upper_bound] on a sorted vector: the first element above [x]. *)
Definition upper_bound (l : list Z) (x : Z) : option Z := List.find (fun t => x <? t) l.

Definition crossesThreshold (r : PropertyRanking) (oldRank newRank : Z) : bool :=
  match topNGroups r with
  | [] => false
  | _ =>
      let effectiveThreshold := Z.max (selectionThreshold r) (publisherExtendedThreshold r) in
      if (effectiveThreshold <=? oldRank) && (effectiveThreshold <=? newRank) then false
      else
        let minRank := Z.min oldRank newRank in
        let maxRank := Z.max oldRank newRank in
        let oldInAnyTopN := oldRank <? selectionThreshold r in
        let newInAnyTopN := newRank <? selectionThreshold r in
        if negb (eqb oldInAnyTopN newInAnyTopN) then true
        else if match upper_bound (sortedThresholds r) minRank with
                | Some t => t <=? maxRank
                | None => false
                end then true
        else if negb (bool_decide (publisherTrackCount r = ∅)) then
          let maxN := foldl Z.max 0 (map fst (topNGroups r)) in
          let ext := maxExtended (publisherTrackCount r) (topNGroups r) maxN in
          (minRank <? ext) || (maxRank <? ext)
        else false
  end.
End thresholds.

(** ** Cached ranks *)
Fixpoint rebuild_loop (l : Ranked) (rank : Z) (ix : gmap FullTrackName RankIndex)
  : gmap FullTrackName RankIndex :=
  match l with
  | [] => ix
  | (_, e) :: r =>
      rebuild_loop r (rank + 1)
        match ix !! ftn e with
        | Some i => <[ftn e := RI (rankIter i) rank]> ix
        | None => ix
        end
  end.
Definition rebuildRankCacheIfNeeded (r : PropertyRanking) : PropertyRanking :=
  if rankCacheValid r then r
  else set_cache (rebuild_loop (rankedTracks r) 0 (trackIndexByName r)) r.

Definition getCachedRank (f : FullTrackName) (r : PropertyRanking) : Z * PropertyRanking :=
  let r1 := rebuildRankCacheIfNeeded r in
  (match trackIndexByName r1 !! f with Some i => cachedRank i | None => UINT64_MAX end, r1).

Definition getRank (key : RankKey) (r : PropertyRanking) : Z * PropertyRanking :=
  match ranked_find key (rankedTracks r) with
  | None => (UINT64_MAX, r)
  | Some e =>
      let r1 := rebuildRankCacheIfNeeded r in
      (match trackIndexByName r1 !! ftn e with Some i => cachedRank i | None => UINT64_MAX end, r1)
  end.

(** ** The operations *)
Section operations.
Context (cfg : RankingConfig).

Definition registerTrack (f : FullTrackName) (initial : option Z) (publisher : Session)
    (r : PropertyRanking) : PropertyRanking * list Event :=
  match trackIndexByName r !! f with
  | Some _ => (r, [])
  | None =>
      let key := RK (default 0 initial) (nextSeq r) in
      let counts := publisherTrackCount r in
      let r1 := set_counts (<[publisher := u64 (default 0 (counts !! publisher) + 1)]> counts)
                  (u64 (nextSeq r + 1)) r in
      let r2 := updatePublisherExtendedThreshold cfg r1 in
      let r3 := set_tracks (ranked_emplace key (RE f publisher) (rankedTracks r2))
                  (<[f := RI key UINT64_MAX]> (trackIndexByName r2)) r2 in
      let '(rank, r4) := getCachedRank f r3 in
      let ranked := rankedTracks r4 in
      let counts := publisherTrackCount r4 in
      let '(gs1, ev1) := for_each (reconcile_session_group cfg ranked publisher) (topNGroups r4) in
      let '(gs2, ev2) := for_each (register_group cfg ranked counts f rank) gs1 in
      (set_topNGroups gs2 r4, ev1 ++ ev2)
  end.

Definition sweepIdle (now : Z) (lastActivity : FullTrackName -> Z) (r : PropertyRanking)
  : PropertyRanking * list Event :=
  if (idleTimeout cfg =? 0) || negb (getLastActivitySet cfg) then (r, [])
  else if (0 <? sweepThrottle cfg) &&
          match lastSweepTime r with
          | Some t => now - t <? sweepThrottle cfg * ns_per_ms
          | None => false
          end then (r, [])
  else
    let r1 := set_lastSweep now r in
    let '(gs, ev) :=
      for_each (fun _ g => sweep_group cfg (rankedTracks r1) (publisherTrackCount r1)
                             lastActivity now g) (topNGroups r1) in
    (set_topNGroups gs r1, ev).

Definition recomputeTopNGroups (f : FullTrackName) (oldRank newRank : Z) (r : PropertyRanking)
  : PropertyRanking * list Event :=
  let publisher :=
    i ← trackIndexByName r !! f;
    e ← ranked_find (rankIter i) (rankedTracks r);
    Some (publisherRaw e) in
  let '(gs, ev) :=
    for_each (recompute_group cfg (rankedTracks r) (publisherTrackCount r) f publisher
                oldRank newRank) (topNGroups r) in
  (set_topNGroups gs r, ev).

(** A dangling iterator does not occur ([ranking_ok] in RankingInv.v); the model
    leaves the state unchanged there. *)
Definition updateSortValue (f : FullTrackName) (v : Z) (now : Z)
    (lastActivity : FullTrackName -> Z) (r : PropertyRanking) : PropertyRanking * list Event :=
  match trackIndexByName r !! f with
  | None => (r, [])
  | Some entry =>
      let oldKey := rankIter entry in
      if value oldKey =? v then (r, [])
      else
        let newKey := RK v (arrivalSeq oldKey) in
        let '(oldRank, r1) := getCachedRank f r in
        match ranked_find oldKey (rankedTracks r1) with
        | None => (r1, [])
        | Some rankedEntry =>
            let cached := match trackIndexByName r1 !! f with
                          | Some i => cachedRank i
                          | None => UINT64_MAX
                          end in
            let r2 := set_tracks
                        (ranked_emplace newKey rankedEntry
                           (ranked_erase oldKey (rankedTracks r1)))
                        (<[f := RI newKey cached]> (trackIndexByName r1)) r1 in
            let '(newRank, r3) := getCachedRank f r2 in
            if negb (crossesThreshold r3 oldRank newRank) then (r3, [])
            else
              let '(r4, ev) := recomputeTopNGroups f oldRank newRank r3 in
              let '(r5, ev') := sweepIdle now lastActivity r4 in
              (r5, ev ++ ev')
        end
  end.

Definition removeTrack (f : FullTrackName) (r : PropertyRanking) : PropertyRanking * list Event :=
  match trackIndexByName r !! f with
  | None => (r, [])
  | Some entry =>
      let '(_, r1) := getCachedRank f r in
      let r2 :=
        match ranked_find (rankIter entry) (rankedTracks r1) with
        | None => r1
        | Some e =>
            match publisherTrackCount r1 !! publisherRaw e with
            | None => r1
            | Some c =>
                let counts := publisherTrackCount r1 in
                let c' := u64 (c - 1) in
                updatePublisherExtendedThreshold cfg
                  (set_counts (if c' =? 0 then delete (publisherRaw e) counts
                               else <[publisherRaw e := c']> counts) (nextSeq r1) r1)
            end
        end in
      let r3 := set_tracks (ranked_erase (rankIter entry) (rankedTracks r2))
                  (delete f (trackIndexByName r2)) r2 in
      let '(gs, ev) :=
        for_each (remove_group cfg (rankedTracks r3) (publisherTrackCount r3) f)
                 (topNGroups r3) in
      (set_topNGroups gs r3, ev)
  end.

Definition getOrCreateTopNGroup (n : Z) (r : PropertyRanking) : TopNGroup * PropertyRanking :=
  match assoc n (topNGroups r) with
  | Some g => (g, r)
  | None =>
      let states := foldl (fun st f => <[f := Selected]> st) ∅ (top_scan (rankedTracks r) n 0) in
      let g := TG n [] states [] in
      (g, updateSelectionThreshold cfg (set_topNGroups (assoc_set n g (topNGroups r)) r))
  end.

Definition addSessionToTopNGroup (n : Z) (session : Session) (fwd : bool) (r : PropertyRanking)
  : PropertyRanking * list Event :=
  let '(g, r1) := getOrCreateTopNGroup n r in
  let info := SI fwd None ∅ in
  let g1 := set_sessions (assoc_set session info (sessions g)) g in
  let r2 := set_topNGroups (assoc_set n g1 (topNGroups r1)) r1 in
  if isPublisher (publisherTrackCount r2) session then
    let r3 := updatePublisherExtendedThreshold cfg r2 in
    let '(info', ev) := reconcilePublisherSelection cfg (rankedTracks r3) info n session in
    (set_topNGroups
       (assoc_set n (set_sessions (assoc_set session info' (sessions g1)) g1) (topNGroups r3)) r3,
     ev)
  else
    (r2, if onSelectedSet cfg
         then map (fun f => OnSelected f session fwd) (top_scan (rankedTracks r2) n 0) else []).

Definition removeTopNGroup (n : Z) (r : PropertyRanking) : PropertyRanking :=
  updateSelectionThreshold cfg (set_topNGroups (assoc_erase n (topNGroups r)) r).

Definition removeSessionFromTopNGroup (n : Z) (session : Session) (r : PropertyRanking)
  : PropertyRanking :=
  match assoc n (topNGroups r) with
  | None => r
  | Some g =>
      let wasPublisher := isPublisher (publisherTrackCount r) session in
      let g1 := set_sessions (assoc_erase session (sessions g)) g in
      let r1 := set_topNGroups (assoc_set n g1 (topNGroups r)) r in
      let r2 := match sessions g1 with [] => removeTopNGroup n r1 | _ => r1 end in
      if wasPublisher then updatePublisherExtendedThreshold cfg r2 else r2
  end.

Definition updateSessionForward (n : Z) (session : Session) (fwd : bool) (r : PropertyRanking)
  : PropertyRanking :=
  match assoc n (topNGroups r) with
  | None => r
  | Some g =>
      match assoc session (sessions g) with
      | None => r
      | Some info =>
          set_topNGroups
            (assoc_set n
               (set_sessions
                  (assoc_set session (SI fwd (waterlineKey info) (selectedTracks info))
                             (sessions g)) g)
               (topNGroups r)) r
      end
  end.
End operations.
