(* ===== verification/RankingInv.v ===== *)
(** The ranking as an ordered list of names: where an insertion puts an entry,
    what the counting loops return, and when the cached ranks are the positions
    of the ordered map (relay/PropertyRanking.cpp). *)

From Stdlib Require Import Sorting.Sorted.
From S2P Require Import Prelude Assoc Location Ranking.

(** ** A list with one element inserted *)
Section insert_at.
Context {A : Type}.
Implicit Types (B : list A) (x : A).

Definition ins (i : nat) x B : list A := take i B ++ x :: drop i B.

Lemma ins_S i x y B : ins (S i) x (y :: B) = y :: ins i x B.
Proof. done. Qed.

Lemma ins_perm i x B : ins i x B ≡ₚ x :: B.
Proof. unfold ins. rewrite <-Permutation_middle. by rewrite take_drop. Qed.

Lemma ins_length i x B : length (ins i x B) = S (length B).
Proof. by rewrite (ins_perm i x B). Qed.

Lemma take_ins_le n i x B : (n <= i)%nat -> (i <= length B)%nat -> take n (ins i x B) = take n B.
Proof.
  intros H H'. unfold ins. rewrite take_app_le by (rewrite length_take; lia).
  by rewrite take_take, Nat.min_l by lia.
Qed.

Lemma take_ins_gt n i x B :
  (i < n)%nat -> (i <= length B)%nat -> take n (ins i x B) ≡ₚ x :: take (n - 1) B.
Proof.
  intros H H'. unfold ins. rewrite take_app_ge by (rewrite length_take; lia).
  rewrite length_take, Nat.min_l by lia. destruct (n - i)%nat as [|m] eqn:E; [lia|].
  cbn [take]. rewrite <-Permutation_middle. apply Permutation_skip.
  rewrite <-(take_drop i (take (n - 1) B)), take_take, Nat.min_l by lia.
  apply Permutation_app_head. rewrite skipn_firstn_comm.
  by replace (n - 1 - i)%nat with m by lia.
Qed.

Lemma ins_lookup i x B : (i <= length B)%nat -> ins i x B !! i = Some x.
Proof. intros H. unfold ins. apply list_lookup_middle. rewrite length_take. lia. Qed.

Lemma ins_lookup_gt n i x B :
  (i < n)%nat -> (i <= length B)%nat -> ins i x B !! n = B !! (n - 1)%nat.
Proof.
  intros H H'. unfold ins. rewrite lookup_app_r by (rewrite length_take; lia).
  rewrite length_take, Nat.min_l by lia. destruct (n - i)%nat as [|m] eqn:E; [lia|].
  trans (drop i B !! m); [done|]. rewrite lookup_drop. f_equal. lia.
Qed.

Lemma ins_lookup_lt n i x B :
  (n < i)%nat -> (i <= length B)%nat -> ins i x B !! n = B !! n.
Proof.
  intros H H'. unfold ins. rewrite lookup_app_l by (rewrite length_take; lia).
  by rewrite lookup_take_lt by lia.
Qed.



Lemma elem_of_take_S n B y :
  y ∈ take n B <-> y ∈ take (n - 1) B \/ ((0 < n)%nat /\ B !! (n - 1)%nat = Some y).
Proof.
  destruct n as [|m]; [cbn; rewrite elem_of_nil; naive_solver lia|].
  replace (S m - 1)%nat with m by lia.
  destruct (B !! m) as [z|] eqn:E.
  - rewrite (take_S_r _ _ _ E), elem_of_app, list_elem_of_singleton. naive_solver lia.
  - apply lookup_ge_None in E. rewrite !take_ge by lia. naive_solver.
Qed.

Lemma elem_of_take_in n B y : y ∈ take n B -> y ∈ B.
Proof. intros H. rewrite <-(take_drop n B). apply elem_of_app. by left. Qed.

Lemma NoDup_lookup_take n m B y : NoDup B -> (n <= m)%nat -> B !! m = Some y -> y ∉ take n B.
Proof.
  intros Hn Hle Hl Hin. apply list_elem_of_lookup in Hin as [k Hk].
  apply lookup_take_Some in Hk as [Hk Hlt].
  pose proof (NoDup_lookup _ _ _ _ Hn Hl Hk). lia.
Qed.
End insert_at.

Lemma map_ins {A C} (f : A -> C) i x (B : list A) : map f (ins i x B) = ins i (f x) (map f B).
Proof. unfold ins. by rewrite firstn_map, skipn_map, map_app. Qed.

(** ** The order of the keys *)
Lemma rk_eqb_spec a b : rk_eqb a b = true <-> a = b.
Proof.
  destruct a as [v s], b as [v' s']. unfold rk_eqb. cbn. split.
  - intros [H1 H2]%andb_true_iff. f_equal; lia.
  - intros [= -> ->]. by rewrite !Z.eqb_refl.
Qed.
Lemma rk_eqb_refl a : rk_eqb a a = true.
Proof. by apply rk_eqb_spec. Qed.
Lemma rk_eqb_ne a b : a <> b -> rk_eqb a b = false.
Proof. intros H. destruct (rk_eqb a b) eqn:E; [|done]. by apply rk_eqb_spec in E. Qed.

Definition rk_gt (a b : RankKey) : Prop :=
  value b < value a \/ (value a = value b /\ arrivalSeq a < arrivalSeq b).
Lemma rk_gtb_spec a b : rk_gtb a b = true <-> rk_gt a b.
Proof.
  unfold rk_gtb, rk_gt. destruct (Z.eqb_spec (value a) (value b)) as [-> | H]; cbn; lia.
Qed.
Lemma rk_gt_trans a b c : rk_gt a b -> rk_gt b c -> rk_gt a c.
Proof. unfold rk_gt. lia. Qed.
Lemma rk_gt_irrefl a : ~ rk_gt a a.
Proof. unfold rk_gt. lia. Qed.
Lemma rk_gt_total a b : a <> b -> ~ rk_gt a b -> rk_gt b a.
Proof.
  destruct a as [v s], b as [v' s']. unfold rk_gt. cbn. intros H H'.
  destruct (decide (v = v')) as [-> | Hv]; [|lia].
  destruct (decide (s = s')) as [-> | Hs]; [done|lia].
Qed.
Lemma rk_geb_spec a b : rk_geb a b = true <-> rk_gt a b \/ a = b.
Proof. unfold rk_geb. rewrite orb_true_iff, rk_gtb_spec, rk_eqb_spec. done. Qed.

(** ** The ordered map as a list *)
Definition names (l : Ranked) : list FullTrackName := map (fun p => ftn p.2) l.
Definition keys (l : Ranked) : list RankKey := map fst l.

(** The order of the map: every key is before the ones that follow it. *)
Definition ranked_sorted (l : Ranked) : Prop := StronglySorted rk_gt (keys l).

Lemma StronglySorted_NoDup l : StronglySorted rk_gt l -> NoDup l.
Proof.
  induction 1 as [|k l Hs IH Hf]; constructor; [|done].
  intros Hin. rewrite Forall_forall in Hf. by apply (rk_gt_irrefl k), Hf.
Qed.
Lemma ranked_sorted_NoDup l : ranked_sorted l -> NoDup (keys l).
Proof. apply StronglySorted_NoDup. Qed.

Lemma emplace_ins k e l :
  k ∉ keys l -> exists i, (i <= length l)%nat /\ ranked_emplace k e l = ins i (k, e) l.
Proof.
  induction l as [|[k' e'] l IH]; intros Hk; cbn.
  - by exists 0%nat.
  - apply not_elem_of_cons in Hk as [Hne Hk]. rewrite rk_eqb_ne by done.
    destruct (rk_gtb k k'); [exists 0%nat; cbn; split; [lia|done]|].
    destruct (IH Hk) as (i & Hi & ->). exists (S i). split; [lia|done].
Qed.

Lemma emplace_keys k e l : k ∉ keys l -> keys (ranked_emplace k e l) ≡ₚ k :: keys l.
Proof.
  intros H. destruct (emplace_ins k e l H) as (i & Hi & ->).
  unfold keys. by rewrite map_ins, ins_perm.
Qed.

Lemma emplace_sorted k e l :
  ranked_sorted l -> k ∉ keys l -> ranked_sorted (ranked_emplace k e l).
Proof.
  unfold ranked_sorted. induction l as [|[k' e'] l IH]; intros Hs Hk; cbn.
  - repeat constructor.
  - cbn in Hs. apply StronglySorted_inv in Hs as [Hs Hf].
    apply not_elem_of_cons in Hk as [Hne Hk]. rewrite rk_eqb_ne by done.
    destruct (rk_gtb k k') eqn:E.
    + apply rk_gtb_spec in E. cbn. constructor; [by constructor|]. constructor; [done|].
      eapply Forall_impl; [exact Hf|]. intros x Hx. by eapply rk_gt_trans.
    + cbn. constructor; [by apply IH|]. rewrite emplace_keys by done. constructor; [|done].
      apply rk_gt_total; [done|]. by rewrite <-rk_gtb_spec, E.
Qed.

Lemma erase_split k l :
  k ∈ keys l -> exists i e, (i <= length (ranked_erase k l))%nat /\
    l = ins i (k, e) (ranked_erase k l).
Proof.
  induction l as [|[k' e'] l IH]; intros Hk; [by apply elem_of_nil in Hk|]. cbn.
  destruct (rk_eqb k k') eqn:E.
  - apply rk_eqb_spec in E as ->. exists 0%nat, e'. split; [lia|done].
  - apply elem_of_cons in Hk as [-> | Hk]; [by rewrite rk_eqb_refl in E|].
    destruct (IH Hk) as (i & e & Hi & Heq). exists (S i), e. split; [cbn; lia|].
    by rewrite ins_S, <-Heq.
Qed.

Lemma erase_sorted k l : ranked_sorted l -> ranked_sorted (ranked_erase k l).
Proof.
  unfold ranked_sorted. induction l as [|[k' e'] l IH]; cbn; [done|].
  intros [Hs Hf]%StronglySorted_inv. destruct (rk_eqb k k'); [done|]. cbn.
  constructor; [by apply IH|]. rewrite Forall_forall in *. intros x Hx. apply Hf.
  clear -Hx. induction l as [|[k2 e2] l IH]; cbn in *; [done|].
  destruct (rk_eqb k k2); [by apply list_elem_of_further|].
  apply elem_of_cons in Hx as [-> | Hx]; [apply list_elem_of_here|].
  by apply list_elem_of_further, IH.
Qed.

Lemma ranked_find_elem k e l : NoDup (keys l) -> (k, e) ∈ l -> ranked_find k l = Some e.
Proof.
  induction l as [|[k' e'] l IH]; intros Hn Hin; [by apply elem_of_nil in Hin|].
  apply NoDup_cons in Hn as [Hk Hn]. cbn. apply elem_of_cons in Hin as [[= -> ->] | Hin].
  - by rewrite rk_eqb_refl.
  - rewrite rk_eqb_ne; [by apply IH|]. intros ->. apply Hk.
    apply list_elem_of_In, in_map_iff. exists (k', e). split; [done|]. by apply list_elem_of_In.
Qed.

(** ** The counting loops *)
Lemma top_scan_take l n rank :
  0 <= rank <= n -> top_scan l n rank = take (Z.to_nat (n - rank)) (names l).
Proof.
  revert rank. induction l as [|[k e] l IH]; intros rank Hr; cbn; [by rewrite take_nil|].
  destruct (Z.leb_spec n rank) as [H|H].
  - by replace (Z.to_nat (n - rank)) with 0%nat by lia.
  - rewrite IH by lia.
    by replace (Z.to_nat (n - rank)) with (S (Z.to_nat (n - (rank + 1)))) by lia.
Qed.

Lemma at_rank_lookup l n c : 0 <= c <= n -> at_rank l n c = names l !! Z.to_nat (n - c).
Proof.
  revert c. induction l as [|[k e] l IH]; intros c Hc; cbn; [done|].
  destruct (Z.eqb_spec c n) as [-> | H]; [by rewrite Z.sub_diag|].
  rewrite IH by lia. by replace (Z.to_nat (n - c)) with (S (Z.to_nat (n - (c + 1)))) by lia.
Qed.

Lemma rebuild_loop_other l rank ix f : f ∉ names l -> rebuild_loop l rank ix !! f = ix !! f.
Proof.
  revert rank ix. induction l as [|[k e] l IH]; intros rank ix Hf; cbn; [done|].
  apply not_elem_of_cons in Hf as [Hne Hf]. rewrite IH by done.
  destruct (ix !! ftn e); [by rewrite lookup_insert_ne|done].
Qed.

Lemma rebuild_loop_iter l rank ix f :
  rankIter <$> rebuild_loop l rank ix !! f = rankIter <$> ix !! f.
Proof.
  revert rank ix. induction l as [|[k e] l IH]; intros rank ix; cbn; [done|].
  rewrite IH. destruct (ix !! ftn e) eqn:E; [|done].
  destruct (decide (ftn e = f)) as [<- | Hne].
  - by rewrite lookup_insert_eq, E.
  - by rewrite lookup_insert_ne.
Qed.

(** The cache after a rebuild holds the position of every name. *)
Lemma rebuild_loop_rank l rank ix f j i :
  NoDup (names l) -> names l !! j = Some f -> ix !! f = Some i ->
  rebuild_loop l rank ix !! f = Some (RI (rankIter i) (rank + Z.of_nat j)).
Proof.
  revert rank ix j i. induction l as [|[k e] l IH]; intros rank ix j i Hn Hj Hi; [done|].
  cbn in Hn. apply NoDup_cons in Hn as [Hk Hn]. cbn [rebuild_loop].
  destruct j as [|j]; cbn in Hj.
  - injection Hj as <-. rewrite Hi, rebuild_loop_other by done.
    rewrite lookup_insert_eq. do 2 f_equal. lia.
  - assert (ftn e <> f) by (intros <-; apply Hk; by eapply list_elem_of_lookup_2).
    rewrite (IH (rank + 1) _ j i Hn Hj); [do 2 f_equal; lia|].
    destruct (ix !! ftn e); [by rewrite lookup_insert_ne|done].
Qed.
