(* ===== verification/RankingSpec.v ===== *)
(** What the ranking stands for: a map from the registered tracks to their key
    (last value, order of arrival) and publisher.  [tracks_ok] relates the ordered
    map, the index by name and the cached ranks of the code to it; the lemmas say
    at which rank each operation finds and puts a track
    (relay/PropertyRanking.cpp). *)

From Stdlib Require Import Sorting.Sorted.
From S2P Require Import Prelude Assoc Location Ranking RankingInv.

Abbreviation Tracks := (gmap FullTrackName (RankKey * Session)).

(** ** The abstract operations *)
Definition spec_register (f : FullTrackName) (initial : option Z) (p : Session) (seq : Z)
    (m : Tracks) : Tracks :=
  match m !! f with Some _ => m | None => <[f := (RK (default 0 initial) seq, p)]> m end.
Definition spec_update (f : FullTrackName) (v : Z) (m : Tracks) : Tracks :=
  match m !! f with Some (k, p) => <[f := (RK v (arrivalSeq k), p)]> m | None => m end.

(** [f] is one of the [n] best of the tracks [m]: fewer than [n] have a better
    key. *)
Definition better (k : RankKey) (m : Tracks) : Tracks :=
  filter (fun p => rk_gtb p.2.1 k = true) m.
Definition in_top (n : Z) (m : Tracks) (f : FullTrackName) : Prop :=
  exists k p, m !! f = Some (k, p) /\ Z.of_nat (size (better k m)) < n.

(** ** The ordered map, the index and the cache *)
Record tracks_ok (m : Tracks) (seq : Z) (r : PropertyRanking) : Prop := {
  tk_sorted : ranked_sorted (rankedTracks r);
  tk_names : NoDup (names (rankedTracks r));
  tk_elem k e : (k, e) ∈ rankedTracks r <-> m !! ftn e = Some (k, publisherRaw e);
  tk_index f : rankIter <$> trackIndexByName r !! f = fst <$> m !! f;
  tk_seqs f f' k k' p p' :
    m !! f = Some (k, p) -> m !! f' = Some (k', p') -> arrivalSeq k = arrivalSeq k' -> f = f';
  tk_bound f k p : m !! f = Some (k, p) -> 0 <= arrivalSeq k < seq;
  tk_seq : nextSeq r = seq;
  tk_cache f i : rankCacheValid r = true -> trackIndexByName r !! f = Some i ->
    exists j, cachedRank i = Z.of_nat j /\ names (rankedTracks r) !! j = Some f;
}.

Lemma tracks_ok_empty : tracks_ok ∅ 0 emptyRanking.
Proof.
  split; cbn; try done.
  - constructor.
  - constructor.
  - intros k e. rewrite lookup_empty. split; [by intros ?%elem_of_nil|done].
Qed.

(** The invariant reads four fields. *)
Lemma tracks_ok_ext m seq r r' :
  rankedTracks r' = rankedTracks r -> trackIndexByName r' = trackIndexByName r ->
  nextSeq r' = nextSeq r -> rankCacheValid r' = rankCacheValid r ->
  tracks_ok m seq r -> tracks_ok m seq r'.
Proof. intros E1 E2 E3 E4 []. by split; rewrite ?E1, ?E2, ?E3, ?E4. Qed.

(** A rebuild only replaces the index. *)
Definition rebuiltIndex (r : PropertyRanking) : gmap FullTrackName RankIndex :=
  if rankCacheValid r then trackIndexByName r
  else rebuild_loop (rankedTracks r) 0 (trackIndexByName r).
Lemma rebuild_set_cache r : rebuildRankCacheIfNeeded r = set_cache (rebuiltIndex r) r.
Proof. destruct r as [l ix gs c sq st et so [] ls]; done. Qed.

Section lookups.
Context {m : Tracks} {seq : Z} {r : PropertyRanking} (OK : tracks_ok m seq r).

Lemma tk_name_elem f : f ∈ names (rankedTracks r) <-> is_Some (m !! f).
Proof using OK.
  unfold names. rewrite list_elem_of_In, in_map_iff. split.
  - intros ([k e] & <- & Hin). apply list_elem_of_In, (tk_elem _ _ _ OK) in Hin. by exists (k, publisherRaw e).
  - intros [[k p] Hf]. exists (k, RE f p). split; [done|].
    apply list_elem_of_In, (tk_elem _ _ _ OK). done.
Qed.

Lemma tk_position f : is_Some (m !! f) -> exists j, names (rankedTracks r) !! j = Some f.
Proof using OK. intros H. by apply list_elem_of_lookup, tk_name_elem. Qed.

Lemma tk_index_Some f i : trackIndexByName r !! f = Some i -> exists p, m !! f = Some (rankIter i, p).
Proof using OK.
  intros H. pose proof (tk_index _ _ _ OK f) as E. rewrite H in E. cbn in E.
  destruct (m !! f) as [[k p]|]; [|done]. injection E as ->. by exists p.
Qed.
Lemma tk_index_None f : trackIndexByName r !! f = None <-> m !! f = None.
Proof using OK.
  pose proof (tk_index _ _ _ OK f) as E.
  destruct (trackIndexByName r !! f), (m !! f); done.
Qed.

Lemma tk_find f k p : m !! f = Some (k, p) -> ranked_find k (rankedTracks r) = Some (RE f p).
Proof using OK.
  intros H. apply ranked_find_elem; [apply ranked_sorted_NoDup, OK|]. by apply (tk_elem _ _ _ OK).
Qed.

Lemma tk_key_fresh k :
  (forall f k' p, m !! f = Some (k', p) -> arrivalSeq k' <> arrivalSeq k) ->
  k ∉ keys (rankedTracks r).
Proof using OK.
  intros H. unfold keys. rewrite list_elem_of_In, in_map_iff. intros ([k' e] & <- & Hin).
  apply list_elem_of_In, (tk_elem _ _ _ OK) in Hin. by apply H in Hin.
Qed.

(** The rank read through the cache is the position in the ordered map. *)
Lemma getCachedRank_spec f :
  exists ix, (getCachedRank f r).2 = set_cache ix r /\ tracks_ok m seq (set_cache ix r) /\
    (forall j, names (rankedTracks r) !! j = Some f -> (getCachedRank f r).1 = Z.of_nat j) /\
    (m !! f = None -> (getCachedRank f r).1 = UINT64_MAX).
Proof using OK.
  pose proof (rebuild_set_cache r) as E. set (ix := rebuiltIndex r) in *.
  assert (Hix : forall f, rankIter <$> ix !! f = rankIter <$> trackIndexByName r !! f).
  { intros f'. unfold ix, rebuiltIndex. destruct (rankCacheValid r); [done|]. apply rebuild_loop_iter. }
  assert (Hrank : forall f i j, ix !! f = Some i -> names (rankedTracks r) !! j = Some f ->
            cachedRank i = Z.of_nat j).
  { intros f' i j Hi Hj. unfold ix, rebuiltIndex in Hi. destruct (rankCacheValid r) eqn:Ev.
    - destruct (tk_cache _ _ _ OK f' i Ev Hi) as (j' & -> & Hj').
      f_equal. by eapply NoDup_lookup; [apply OK| |].
    - specialize (Hix f'). unfold ix, rebuiltIndex in Hix. rewrite Ev, Hi in Hix. cbn in Hix.
      destruct (trackIndexByName r !! f') as [i'|] eqn:Ei'; [|done].
      rewrite (rebuild_loop_rank _ _ _ _ j i' (tk_names _ _ _ OK) Hj Ei') in Hi.
      injection Hi as <-. done. }
  exists ix. unfold getCachedRank. rewrite E. split; [done|]. split; [|split].
  - destruct OK. split; try done.
    + intros f'. cbn. by rewrite Hix.
    + intros f' i _ Hi. cbn in Hi |- *.
      assert (Hs : is_Some (m !! f')).
      { specialize (Hix f'). rewrite Hi in Hix. cbn in Hix. specialize (tk_index0 f').
        rewrite <-Hix in tk_index0. destruct (m !! f'); [done|]. done. }
      destruct (tk_position f' Hs) as [j Hj]. exists j. split; [|done]. by eapply Hrank.
  - intros j Hj. cbn. assert (Hs : is_Some (m !! f)).
    { apply tk_name_elem, list_elem_of_lookup. by exists j. }
    pose proof (tk_index _ _ _ OK f) as Ei. rewrite <-Hix in Ei.
    destruct (ix !! f) as [i|] eqn:Ef; [|by destruct Hs as [x Hx]; rewrite Hx in Ei].
    by eapply Hrank.
  - intros Hn. cbn. pose proof (tk_index _ _ _ OK f) as Ei. rewrite <-Hix, Hn in Ei.
    by destruct (ix !! f).
Qed.
End lookups.

(** ** Moving a track *)
Definition list_ok (m : Tracks) (l : Ranked) : Prop :=
  ranked_sorted l /\ NoDup (names l) /\
  forall k e, (k, e) ∈ l <-> m !! ftn e = Some (k, publisherRaw e).

Lemma tracks_list_ok m seq r : tracks_ok m seq r -> list_ok m (rankedTracks r).
Proof. intros []. done. Qed.

Lemma list_ok_name m l f : list_ok m l -> f ∈ names l <-> is_Some (m !! f).
Proof.
  intros (_ & _ & He). unfold names. rewrite list_elem_of_In, in_map_iff. split.
  - intros ([k e] & <- & Hin). apply list_elem_of_In, He in Hin. by exists (k, publisherRaw e).
  - intros [[k p] Hf]. exists (k, RE f p). split; [done|]. by apply list_elem_of_In, He.
Qed.

Lemma list_ok_emplace m l f k p :
  list_ok m l -> m !! f = None -> k ∉ keys l ->
  list_ok (<[f := (k, p)]> m) (ranked_emplace k (RE f p) l) /\
  exists i, (i <= length l)%nat /\ ranked_emplace k (RE f p) l = ins i (k, RE f p) l.
Proof.
  intros Hok Hf Hk. pose proof (list_ok_name m l f Hok) as Hname. destruct Hok as (Hs & Hn & He).
  destruct (emplace_ins k (RE f p) l Hk) as (i & Hi & E). split; [|by exists i].
  split; [by apply emplace_sorted|]. split.
  - rewrite E. unfold names. rewrite map_ins, ins_perm. constructor; [|done].
    change (map (fun q : RankKey * RankedEntry => ftn q.2) l) with (names l).
    cbn. rewrite Hname, Hf. by intros [].
  - intros k' [f' p']. rewrite E, (ins_perm i). rewrite elem_of_cons. cbn.
    destruct (decide (f = f')) as [<- | Hne].
    + rewrite lookup_insert_eq. split; [|intros [= <- <-]; by left].
      intros [[= -> ->] | Hin]; [done|]. apply He in Hin. cbn in Hin. congruence.
    + rewrite lookup_insert_ne, (He k' (RE f' p')) by done. cbn. naive_solver.
Qed.

Lemma list_ok_erase m l f k p :
  list_ok m l -> m !! f = Some (k, p) ->
  list_ok (delete f m) (ranked_erase k l) /\
  exists i, (i <= length (ranked_erase k l))%nat /\ l = ins i (k, RE f p) (ranked_erase k l).
Proof.
  intros (Hs & Hn & He) Hf. assert (Hin : (k, RE f p) ∈ l) by by apply He.
  assert (Hk : k ∈ keys l).
  { apply list_elem_of_In, in_map_iff. exists (k, RE f p). split; [done|]. by apply list_elem_of_In. }
  destruct (erase_split k l Hk) as (i & e & Hi & E).
  assert (e = RE f p) as ->.
  { pose proof (ranked_sorted_NoDup _ Hs) as Hnk.
    assert (Hin' : (k, e) ∈ l) by (rewrite E at 1; rewrite (ins_perm i); apply list_elem_of_here).
    pose proof (ranked_find_elem k _ l Hnk Hin). pose proof (ranked_find_elem k _ l Hnk Hin'). congruence. }
  split; [|by exists i]. split; [by apply erase_sorted|].
  assert (Hn' : NoDup (f :: names (ranked_erase k l))).
  { rewrite E in Hn. unfold names in Hn. rewrite map_ins, ins_perm in Hn. done. }
  apply NoDup_cons in Hn' as [Hfresh Hn']. split; [done|].
  intros k' [f' p']. cbn. destruct (decide (f = f')) as [<- | Hne].
  - rewrite lookup_delete_eq. split; [|done]. intros Hin'. exfalso. apply Hfresh.
    apply list_elem_of_In, in_map_iff. exists (k', RE f p'). split; [done|]. by apply list_elem_of_In.
  - rewrite lookup_delete_ne, <-(He k' (RE f' p')) by done. rewrite E at 2.
    rewrite (ins_perm i), elem_of_cons. naive_solver.
Qed.

Section moves.
Context (m : Tracks) (seq : Z) (r : PropertyRanking) (OK : tracks_ok m seq r).

Lemma register_tracks f initial p r' :
  m !! f = None -> 0 <= seq ->
  let key := RK (default 0 initial) (nextSeq r) in
  rankedTracks r' = ranked_emplace key (RE f p) (rankedTracks r) ->
  trackIndexByName r' = <[f := RI key UINT64_MAX]> (trackIndexByName r) ->
  nextSeq r' = seq + 1 -> rankCacheValid r' = false ->
  tracks_ok (spec_register f initial p seq m) (seq + 1) r' /\
  exists i, (i <= length (rankedTracks r))%nat /\
    rankedTracks r' = ins i (key, RE f p) (rankedTracks r).
Proof using OK.
  intros Hf Hseq key E1 E2 E3 E4. unfold spec_register. rewrite Hf.
  assert (Hkey : key = RK (default 0 initial) seq) by (unfold key; by rewrite (tk_seq _ _ _ OK)).
  assert (Hk : key ∉ keys (rankedTracks r)).
  { apply (tk_key_fresh OK). intros f' k' p' Hf'. rewrite Hkey. cbn.
    pose proof (tk_bound _ _ _ OK _ _ _ Hf'). lia. }
  destruct (list_ok_emplace m _ f key p (tracks_list_ok _ _ _ OK) Hf Hk) as [(Hs & Hn & He) Hi].
  rewrite <-Hkey, E1. split; [|done].
  split; rewrite ?E1, ?E2, ?E3; try done.
  - intros f'. destruct (decide (f = f')) as [<- | Hne].
    + by rewrite !lookup_insert_eq.
    + rewrite !lookup_insert_ne by done. apply OK.
  - intros f1 f2 k1 k2 p1 p2. rewrite !lookup_insert_Some.
    intros [[<- [= <- <-]]|[Hn1 H1]] [[<- [= <- <-]]|[Hn2 H2]] Heq; try done.
    + pose proof (tk_bound _ _ _ OK _ _ _ H2). rewrite <-Heq, Hkey in *. cbn in *. lia.
    + pose proof (tk_bound _ _ _ OK _ _ _ H1). rewrite Heq, Hkey in *. cbn in *. lia.
    + by eapply (tk_seqs _ _ _ OK).
  - intros f1 k1 p1. rewrite lookup_insert_Some. intros [[<- [= <- <-]]|[Hn1 H1]].
    + rewrite Hkey. cbn. lia.
    + pose proof (tk_bound _ _ _ OK _ _ _ H1). lia.
  - intros f' i. by rewrite E4.
Qed.

Lemma update_tracks f v k p c r' :
  m !! f = Some (k, p) ->
  let key := RK v (arrivalSeq k) in
  rankedTracks r' = ranked_emplace key (RE f p) (ranked_erase k (rankedTracks r)) ->
  trackIndexByName r' = <[f := RI key c]> (trackIndexByName r) ->
  nextSeq r' = nextSeq r -> rankCacheValid r' = false ->
  tracks_ok (spec_update f v m) seq r' /\
  exists i j B, (i <= length B)%nat /\ (j <= length B)%nat /\
    rankedTracks r = ins i (k, RE f p) B /\ rankedTracks r' = ins j (key, RE f p) B.
Proof using OK.
  intros Hf key E1 E2 E3 E4. unfold spec_update. rewrite Hf.
  destruct (list_ok_erase m _ f k p (tracks_list_ok _ _ _ OK) Hf) as [Hok (i & Hi & Ei)].
  set (B := ranked_erase k (rankedTracks r)) in *.
  assert (Hk : key ∉ keys B).
  { unfold keys. rewrite list_elem_of_In, in_map_iff. intros ([k' e] & Hk' & Hin).
    apply list_elem_of_In, Hok in Hin. cbn in Hk'. subst k'.
    apply lookup_delete_Some in Hin as [Hne Hin].
    by destruct (Hne (tk_seqs _ _ _ OK _ _ _ _ _ _ Hf Hin eq_refl)). }
  destruct (list_ok_emplace _ B f key p Hok (lookup_delete_eq m f) Hk) as [Hok' (j & Hj & Ej)].
  rewrite insert_delete_eq in Hok'. destruct Hok' as (Hs & Hn & He).
  split; [|exists i, j, B; by rewrite E1].
  split; rewrite ?E1, ?E2, ?E3; try done.
  - intros f'. destruct (decide (f = f')) as [<- | Hne].
    + by rewrite !lookup_insert_eq.
    + rewrite !lookup_insert_ne by done. apply OK.
  - intros f1 f2 k1 k2 p1 p2. rewrite !lookup_insert_Some.
    intros [[<- [= <- <-]]|[Hn1 H1]] [[<- [= <- <-]]|[Hn2 H2]] Heq; try done.
    + by eapply (tk_seqs _ _ _ OK).
    + by eapply (tk_seqs _ _ _ OK).
    + by eapply (tk_seqs _ _ _ OK).
  - intros f1 k1 p1. rewrite lookup_insert_Some. intros [[<- [= <- <-]]|[Hn1 H1]].
    + by apply (tk_bound _ _ _ OK f k p).
    + by apply (tk_bound _ _ _ OK f1 k1 p1).
  - apply OK.
  - intros f' i'. by rewrite E4.
Qed.

Lemma remove_tracks f k p r' :
  m !! f = Some (k, p) ->
  rankedTracks r' = ranked_erase k (rankedTracks r) ->
  trackIndexByName r' = delete f (trackIndexByName r) ->
  nextSeq r' = nextSeq r -> rankCacheValid r' = false ->
  tracks_ok (delete f m) seq r' /\
  exists i, (i <= length (rankedTracks r'))%nat /\
    rankedTracks r = ins i (k, RE f p) (rankedTracks r').
Proof using OK.
  intros Hf E1 E2 E3 E4.
  destruct (list_ok_erase m _ f k p (tracks_list_ok _ _ _ OK) Hf) as [(Hs & Hn & He) (i & Hi & Ei)].
  rewrite E1. split; [|by exists i].
  split; rewrite ?E1, ?E2, ?E3; try done.
  - intros f'. destruct (decide (f = f')) as [<- | Hne].
    + by rewrite !lookup_delete_eq.
    + rewrite !lookup_delete_ne by done. apply OK.
  - intros f1 f2 k1 k2 p1 p2 [_ H1]%lookup_delete_Some [_ H2]%lookup_delete_Some.
    by eapply (tk_seqs _ _ _ OK).
  - intros f1 k1 p1 [_ H1]%lookup_delete_Some. by eapply (tk_bound _ _ _ OK).
  - apply OK.
  - intros f' i'. by rewrite E4.
Qed.
End moves.

(** ** The best tracks are the first ones of the ordered map *)
Definition binding (q : RankKey * RankedEntry) : FullTrackName * (RankKey * Session) :=
  (ftn q.2, (q.1, publisherRaw q.2)).

Lemma StronglySorted_before (l : list RankKey) i j k k' :
  StronglySorted rk_gt l -> l !! i = Some k -> l !! j = Some k' -> (i < j)%nat -> rk_gt k k'.
Proof.
  intros Hs. revert i j. induction Hs as [|x l Hs IH Hf]; intros i j Hi Hj Hlt; [done|].
  destruct j as [|j]; [lia|]. cbn in Hj. destruct i as [|i]; cbn in Hi.
  - injection Hi as ->. rewrite Forall_forall in Hf. apply Hf. by eapply list_elem_of_lookup_2.
  - eapply IH; [done..|lia].
Qed.

Lemma keys_lookup l i k e : l !! i = Some (k, e) -> keys l !! i = Some k.
Proof. intros H. unfold keys. by rewrite list_lookup_fmap, H. Qed.
Lemma names_lookup l i k e : l !! i = Some (k, e) -> names l !! i = Some (ftn e).
Proof. intros H. unfold names. by rewrite list_lookup_fmap, H. Qed.

Lemma better_count m l i k e :
  list_ok m l -> l !! i = Some (k, e) -> size (better k m) = i.
Proof.
  intros (Hs & Hn & He) Hi.
  assert (Hnd : NoDup ((map binding (take i l)).*1)).
  { apply (sublist_NoDup _ (names l)); [done|]. unfold names. rewrite map_map.
    change (take i l) with (firstn i l). rewrite <-firstn_map. apply sublist_take. }
  assert (E : better k m = list_to_map (map binding (take i l))).
  { apply map_eq. intros f. apply option_eq. intros [k' p].
    rewrite <-elem_of_list_to_map by done. unfold better. rewrite map_lookup_filter_Some. cbn.
    rewrite rk_gtb_spec, list_elem_of_In, in_map_iff. split.
    - intros [Hm Hgt]. exists (k', RE f p). split; [done|]. apply list_elem_of_In.
      assert (Hin : (k', RE f p) ∈ l) by by apply He.
      apply list_elem_of_lookup in Hin as [j Hj]. apply list_elem_of_lookup. exists j.
      apply lookup_take_Some. split; [done|].
      destruct (decide (j < i)%nat) as [|Hge]; [done|]. exfalso. apply (rk_gt_irrefl k).
      destruct (decide (i = j)) as [<- | Hne]; [rewrite Hi in Hj; injection Hj as <- _; done|].
      eapply rk_gt_trans; [|exact Hgt].
      eapply (StronglySorted_before _ i j); [exact Hs|by eapply keys_lookup..|lia].
    - intros ([k1 [f1 p1]] & [= -> -> ->] & Hin%list_elem_of_In).
      apply list_elem_of_lookup in Hin as [j Hj]. apply lookup_take_Some in Hj as [Hj Hlt].
      split; [by apply (He k' (RE f p)), (list_elem_of_lookup_2 _ j)|].
      eapply (StronglySorted_before _ j i); [exact Hs|by eapply keys_lookup..|done]. }
  rewrite E, map_size_list_to_map by done. rewrite length_map, length_take.
  apply lookup_lt_Some in Hi. lia.
Qed.

Lemma in_top_take m l n f :
  list_ok m l -> 0 <= n -> in_top n m f <-> f ∈ take (Z.to_nat n) (names l).
Proof.
  intros Hok Hn0. split.
  - intros (k & p & Hm & Hlt). pose proof Hok as (_ & _ & He).
    assert (Hin : (k, RE f p) ∈ l) by by apply He.
    apply list_elem_of_lookup in Hin as [i Hi]. rewrite (better_count m l i k _ Hok Hi) in Hlt.
    apply list_elem_of_lookup. exists i. apply lookup_take_Some.
    split; [by apply names_lookup in Hi|lia].
  - intros (i & Hi)%list_elem_of_lookup. apply lookup_take_Some in Hi as [Hi Hlt].
    unfold names in Hi. rewrite list_lookup_fmap in Hi.
    destruct (l !! i) as [[k [f' p]]|] eqn:El; [|done]. injection Hi as ->.
    exists k, p. pose proof Hok as (_ & _ & He). split.
    + by apply (He k (RE f p)), (list_elem_of_lookup_2 _ i).
    + rewrite (better_count m l i k _ Hok El). lia.
Qed.
