(* ===== verification/RankingViewers.v ===== *)
(** Viewers: subscribers of a top-N group that publish no ranked track.  The
    group operations of relay/PropertyRanking.cpp keep the selected tracks of a
    group equal to the first N names of the ranking, and the callbacks they make
    bring what a viewer is delivered from the old first N to the new ones.  This
    is for a ranking without deselected queue and idle sweep. *)

From Stdlib Require Import Sorting.Sorted.
From S2P Require Import Prelude Assoc Location Ranking RankingInv RankingSpec.

(** ** What the callbacks deliver to a session *)
Definition deliver_event (s : Session) (D : gset FullTrackName) (ev : Event) : gset FullTrackName :=
  match ev with
  | OnSelected f s' _ => if s =? s' then {[f]} ∪ D else D
  | OnBatchSelected f batch => if bool_decide (s ∈ map fst batch) then {[f]} ∪ D else D
  | OnEvicted f s' => if s =? s' then D ∖ {[f]} else D
  end.
Definition deliver (s : Session) (D : gset FullTrackName) (evs : list Event) : gset FullTrackName :=
  foldl (deliver_event s) D evs.

Definition quiet (s : Session) (evs : list Event) : Prop :=
  forall D, deliver s D evs = D.

Lemma deliver_app s D e1 e2 : deliver s D (e1 ++ e2) = deliver s (deliver s D e1) e2.
Proof. apply foldl_app. Qed.

Lemma deliver_cons s D e es : deliver s D (e :: es) = deliver s (deliver_event s D e) es.
Proof. done. Qed.

Lemma quiet_nil s : quiet s [].
Proof. done. Qed.
Lemma quiet_app s e1 e2 : quiet s e1 -> quiet s e2 -> quiet s (e1 ++ e2).
Proof. intros H1 H2 D. by rewrite deliver_app, H1, H2. Qed.
Lemma quiet_map {A} s (f : A -> Event) l :
  (forall a D, deliver_event s D (f a) = D) -> quiet s (map f l).
Proof. intros H. induction l as [|a l IH]; [done|]. intros D. cbn. rewrite H. apply IH. Qed.

Create HintDb ranking discriminated.
#[export] Hint Resolve quiet_nil quiet_app : ranking.

(** ** Loops *)
Lemma for_each_keys {K A} (f : K -> A -> A * list Event) l : map fst (for_each f l).1 = map fst l.
Proof.
  induction l as [|[k a] l IH]; [done|]. cbn. destruct (f k a) as [a' ev].
  destruct (for_each f l) as [l' ev']. cbn in *. by f_equal.
Qed.
Lemma for_each_cons {K A} (f : K -> A -> A * list Event) k a l :
  for_each f ((k, a) :: l) =
  ((k, (f k a).1) :: (for_each f l).1, (f k a).2 ++ (for_each f l).2).
Proof. cbn. by destruct (f k a), (for_each f l). Qed.
Lemma for_each_quiet {K A} (f : K -> A -> A * list Event) l s :
  (forall k a, quiet s (f k a).2) -> quiet s (for_each f l).2.
Proof.
  intros H. induction l as [|[k a] l IH]; [done|]. rewrite for_each_cons.
  by apply quiet_app.
Qed.

Definition member (s : Session) (g : TopNGroup) : Prop := s ∈ map fst (sessions g).
#[global] Instance member_dec s g : Decision (member s g).
Proof. unfold member. apply _. Defined.

(** The first [n] names. *)
Definition top (n : Z) (L : list FullTrackName) : list FullTrackName := take (Z.to_nat n) L.
Definition matches (D : gset FullTrackName) (n : Z) (L : list FullTrackName) : Prop :=
  forall f, f ∈ D <-> f ∈ top n L.

(** The tracks a group has selected are the names in [S], and none waits in the
    deselected queue. *)
Record group_has (S : FullTrackName -> Prop) (n : Z) (g : TopNGroup) : Prop := {
  gh_max : maxSelected g = n;
  gh_queue : deselectedQueue g = [];
  gh_sel f : trackStates g !! f = Some Selected <-> S f;
  gh_none f : trackStates g !! f <> Some Deselected;
  gh_nodup : NoDup (map fst (sessions g));
}.
Definition group_ok (L : list FullTrackName) (n : Z) (g : TopNGroup) : Prop :=
  group_has (fun f => f ∈ top n L) n g.

Lemma group_has_iff S S' n g : (forall f, S f <-> S' f) -> group_has S n g -> group_has S' n g.
Proof. intros H []. split; try done. intros f. by rewrite gh_sel0, H. Qed.

Lemma group_has_isSelected S n g f : group_has S n g -> isSelected g f = true <-> S f.
Proof. intros []. unfold isSelected. by rewrite bool_decide_eq_true, gh_sel0. Qed.

(** *** The first names after an insertion *)
Section tops.
Context (f : FullTrackName) (B : list FullTrackName) (Hf : f ∉ B) (HB : NoDup B).

Lemma top_enter (k i : nat) x :
  (i < k)%nat -> (i <= length B)%nat ->
  (x ∈ take k B \/ x = f) /\ ins i f B !! k <> Some x <-> x ∈ take k (ins i f B).
Proof using Hf HB.
  intros Hk Hi. rewrite (take_ins_gt k i), ins_lookup_gt by done.
  rewrite elem_of_cons, elem_of_take_S. split.
  - intros [[[H|[_ H]]|H] Hne]; [by right|done|by left].
  - intros [-> | H].
    + split; [by right|]. intros H. apply Hf. by eapply list_elem_of_lookup_2.
    + split; [by left; left|]. intros H'. by apply (NoDup_lookup_take (k - 1) (k - 1) B x HB).
Qed.

Lemma top_leave (k i j : nat) x :
  (i < k)%nat -> (k <= j)%nat -> (i <= length B)%nat -> (j <= length B)%nat ->
  (x ∈ take k (ins i f B) /\ x <> f) \/ ins j f B !! (k - 1)%nat = Some x <->
  x ∈ take k (ins j f B).
Proof using Hf.
  intros H1 H2 Hi Hj. rewrite (take_ins_gt k i), (take_ins_le k j) by done.
  rewrite ins_lookup_lt by lia. rewrite elem_of_cons, (elem_of_take_S k). split.
  - intros [[[-> | H] Hne]|H]; [done|by left|right; split; [lia|done]].
  - intros [H|[_ H]]; [|by right]. left. split; [by right|]. intros ->. apply Hf.
    by eapply elem_of_take_in.
Qed.

Lemma top_stay (k i j : nat) x :
  (i < k <-> j < k)%nat -> (i <= length B)%nat -> (j <= length B)%nat ->
  x ∈ take k (ins i f B) <-> x ∈ take k (ins j f B).
Proof using Type.
  intros H Hi Hj. destruct (decide (i < k)%nat) as [Hk|Hk].
  - rewrite (take_ins_gt k i), (take_ins_gt k j) by (done || by apply H). done.
  - rewrite (take_ins_le k i), (take_ins_le k j) by (done || lia). done.
Qed.
End tops.

Section viewer.
Context (cfg : RankingConfig) (Hmax : maxDeselected cfg = 0).
Context (Hbatch : onBatchSelectedSet cfg = true) (Hev : onEvictedSet cfg = true)
        (Hsel : onSelectedSet cfg = true).
Context (ranked : Ranked) (counts : gmap Session Z).
Context (s : Session) (Hs : counts !! s = None).

Lemma reconcile_quiet info n s' : s' <> s ->
  quiet s (reconcilePublisherSelection cfg ranked info n s').2.
Proof using Type.
  clear Hev Hsel. intros Hne. unfold reconcilePublisherSelection. cbn [snd]. apply quiet_app.
  - destruct (onEvictedSet cfg); [|done]. apply quiet_map. intros f D. cbn.
    destruct (Z.eqb_spec s s'); [done|done].
  - destruct (onSelectedSet cfg); [|done]. apply quiet_map. intros f D. cbn.
    destruct (Z.eqb_spec s s'); done.
Qed.

Lemma publisher_not_viewer s' : isPublisher counts s' = true -> s' <> s.
Proof using Hs.
  unfold isPublisher. rewrite bool_decide_eq_true. intros [? H] ->. congruence.
Qed.
Lemma viewer_not_publisher : isPublisher counts s = false.
Proof using Hs. unfold isPublisher. rewrite bool_decide_eq_false, Hs. by intros []. Qed.

Lemma reconcile_if_quiet (c : Session -> bool) n info s' : (c s' = true -> isPublisher counts s' = true) ->
  quiet s (if c s' then reconcilePublisherSelection cfg ranked info n s' else (info, [])).2.
Proof using Hs.
  intros H. destruct (c s') eqn:E; [|done]. apply reconcile_quiet, publisher_not_viewer, H, eq_refl.
Qed.

Lemma viewers_elem ss : s ∈ map fst (viewers counts ss) <-> s ∈ map fst ss.
Proof using Hs.
  unfold viewers. rewrite !list_elem_of_In, !in_map_iff. split.
  - intros (p & <- & Hp). apply in_map_iff in Hp as (q & <- & Hq%list_elem_of_In).
    apply list_elem_of_filter in Hq as [_ Hq]. exists q. by rewrite <-list_elem_of_In.
  - intros (q & Hq & Hin). exists (s, forward q.2). split; [done|]. apply in_map_iff.
    exists q. rewrite Hq. split; [done|]. apply list_elem_of_In, list_elem_of_filter.
    rewrite Hq. split; [apply viewer_not_publisher|]. by apply list_elem_of_In.
Qed.

Lemma deliver_batch D f ss :
  deliver s D (batchSelected cfg f (viewers counts ss)) =
  if bool_decide (s ∈ map fst ss) then {[f]} ∪ D else D.
Proof using Hs Hbatch.
  rewrite <-(bool_decide_ext _ _ (viewers_elem ss)). unfold batchSelected. rewrite Hbatch.
  destruct (viewers counts ss) as [|p l] eqn:E; [done|]. cbn [deliver foldl].
  unfold deliver. cbn [foldl deliver_event]. done.
Qed.

(** *** [notifyTrackSelected] *)
Lemma notify_spec f g :
  exists ss, (notifyTrackSelected cfg ranked counts f g).1 = set_sessions ss g /\
    map fst ss = map fst (sessions g) /\
    forall D, deliver s D (notifyTrackSelected cfg ranked counts f g).2 =
      if bool_decide (member s g) then {[f]} ∪ D else D.
Proof using Hs Hbatch.
  unfold notifyTrackSelected.
  set (F := fun s0 info => if isPublisher counts s0
     then reconcilePublisherSelection cfg ranked info (maxSelected g) s0 else (info, [])).
  pose proof (for_each_keys F (sessions g)) as Hk.
  pose proof (for_each_quiet F (sessions g) s) as Hq.
  destruct (for_each F (sessions g)) as [ss ev]. exists ss. split; [done|]. split; [done|].
  intros D. cbn [snd]. rewrite deliver_app, Hq.
  - apply deliver_batch.
  - intros k a. unfold F. by apply reconcile_if_quiet.
Qed.

Lemma group_has_sessions S n g ss :
  map fst ss = map fst (sessions g) -> group_has S n g -> group_has S n (set_sessions ss g).
Proof using Type. intros E []. split; try done. cbn. by rewrite E. Qed.

Lemma member_sessions g ss :
  map fst ss = map fst (sessions g) -> member s (set_sessions ss g) <-> member s g.
Proof using Type. intros E. unfold member. cbn. by rewrite E. Qed.

(** *** Demotion without a deselected queue *)
Lemma demoteTrack_spec S n g f :
  group_has S n g ->
  let g' := (demoteTrack cfg f g).1 in
  group_has (fun x => S x /\ x <> f) n g' /\ sessions g' = sessions g /\
  forall D, deliver s D (demoteTrack cfg f g).2 = if bool_decide (member s g) then D ∖ {[f]} else D.
Proof using Hmax Hev.
  intros [Hm Hq Hst Hd Hn].
  assert (E : demoteTrack cfg f g =
    (TG (maxSelected g) (sessions g) (delete f (<[f := Deselected]> (trackStates g))) [],
     map (fun p : Session * SessionInfo => OnEvicted f p.1) (sessions g))).
  { unfold demoteTrack, trimDeselectedQueue. cbn [deselectedQueue]. rewrite Hq.
    cbn [app trim_loop length]. replace (maxDeselected cfg <? Z.of_nat 1) with true by (rewrite Hmax; done).
    rewrite Hev. cbn. by rewrite app_nil_r. }
  rewrite E. cbn [fst snd]. split; [|split; [done|]].
  - split; cbn; try done.
    + intros x. rewrite lookup_delete_Some. split.
      * intros [Hne H]. rewrite lookup_insert_ne in H by done. by rewrite <-Hst.
      * intros [H Hne]. by rewrite lookup_insert_ne, Hst by done.
    + intros x [Hne H]%lookup_delete_Some. rewrite lookup_insert_ne in H by done. by apply (Hd x).
  - intros D. destruct (bool_decide_reflect (member s g)) as [H|H]; unfold member in H;
      revert H; generalize (sessions g); clear; intros ss H.
    + assert (Hdup : forall ss D, f ∉ D -> deliver s D (map (fun p : Session * SessionInfo => OnEvicted f p.1) ss) = D).
      { clear. induction ss as [|p ss IH]; intros D HD; [done|]. cbn [map].
        rewrite deliver_cons. cbn [deliver_event]. destruct (s =? p.1).
        - rewrite IH by set_solver. set_solver.
        - by apply IH. }
      induction ss as [|p ss IH]; [by apply elem_of_nil in H|]. cbn [map].
      rewrite deliver_cons. cbn [deliver_event].
      destruct (Z.eqb_spec s p.1) as [E|E].
      * apply Hdup. set_solver.
      * apply IH. by apply elem_of_cons in H as [|].
    + induction ss as [|p ss IH]; [done|]. cbn in H. apply not_elem_of_cons in H as [Hne H].
      cbn [map]. rewrite deliver_cons. cbn [deliver_event].
      destruct (Z.eqb_spec s p.1) as [E|E]; [done|]. by apply IH.
Qed.

(** *** A group operation, and what it delivers to a viewer

    [moves S g S' res]: the operation took [g] and gave [res]; the group now has
    the tracks [S'] selected, and a viewer of it that was delivered [S] is
    delivered [S'].  A session outside the group hears nothing. *)
Definition moves (n : Z) (S : FullTrackName -> Prop) (g : TopNGroup) (S' : FullTrackName -> Prop)
    (res : TopNGroup * list Event) : Prop :=
  group_has S' n res.1 /\ map fst (sessions res.1) = map fst (sessions g) /\
  forall D, (~ member s g -> deliver s D res.2 = D) /\
    (member s g -> (forall x, x ∈ D <-> S x) -> forall x, x ∈ deliver s D res.2 <-> S' x).

Lemma moves_id n S g : group_has S n g -> moves n S g S (g, []).
Proof using Type. intros H. done. Qed.

Lemma moves_iff n S S1 S2 g res :
  (forall x, S1 x <-> S2 x) -> moves n S g S1 res -> moves n S g S2 res.
Proof using Type.
  intros E (H1 & H2 & H3). split; [by eapply group_has_iff|]. split; [done|].
  intros D. destruct (H3 D) as [Ha Hb]. split; [done|]. intros Hm HD x. by rewrite Hb, E.
Qed.

Lemma moves_seq n S S1 S2 g g1 e1 g2 e2 :
  moves n S g S1 (g1, e1) -> moves n S1 g1 S2 (g2, e2) -> moves n S g S2 (g2, e1 ++ e2).
Proof using Type.
  intros (_ & K1 & D1) (G2 & K2 & D2). cbn [fst snd] in *. split; [done|].
  cbn [fst snd]. split; [by rewrite K2|].
  assert (Hm : member s g1 <-> member s g) by (unfold member; by rewrite K1).
  intros D. rewrite deliver_app. destruct (D1 D) as [Da Db].
  destruct (D2 (deliver s D e1)) as [Dc Dd]. split.
  - intros H. rewrite Dc, Da by by rewrite ?Hm. done.
  - intros H HD. apply Dd; [by rewrite Hm|]. by apply Db.
Qed.

Lemma moves_demote n S g f :
  group_has S n g -> moves n S g (fun x => S x /\ x <> f) (demoteTrack cfg f g).
Proof using Hmax Hev.
  intros H. destruct (demoteTrack_spec S n g f H) as (G & E & HD). split; [done|].
  split; [by rewrite E|]. intros D. rewrite HD.
  destruct (bool_decide_reflect (member s g)) as [Hm|Hm]; [|done]. split; [done|].
  intros _ HS x. rewrite elem_of_difference, elem_of_singleton, HS. done.
Qed.

(** Marking a track selected and telling the sessions. *)
Lemma group_has_select n S g f :
  group_has S n g ->
  group_has (fun x => S x \/ x = f) n (set_trackStates (<[f := Selected]> (trackStates g)) g) /\
  group_has (fun x => S x \/ x = f) n (selectTrack f g).
Proof using Type.
  intros [Hm Hq Hst Hd Hn].
  assert (H : group_has (fun x => S x \/ x = f) n
                (set_trackStates (<[f := Selected]> (trackStates g)) g)).
  { split; cbn; try done.
    - intros x. rewrite lookup_insert_Some, Hst. destruct (decide (f = x)); naive_solver.
    - intros x. rewrite lookup_insert_Some. intros [[? ?]|[_ H]]; [done|]. by apply (Hd x). }
  split; [done|]. destruct H. split; cbn; try done. by rewrite Hq.
Qed.

Lemma moves_notify n S g g0 f :
  group_has S n g -> sessions g0 = sessions g ->
  group_has (fun x => S x \/ x = f) n g0 ->
  moves n S g (fun x => S x \/ x = f) (notifyTrackSelected cfg ranked counts f g0).
Proof using Hs Hbatch.
  intros H Es H0. destruct (notify_spec f g0) as (ss & E & K & HD).
  assert (Hm : member s g0 <-> member s g) by (unfold member; by rewrite Es).
  split; [rewrite E; by apply group_has_sessions|]. split; [rewrite E; cbn; by rewrite K, Es|].
  intros D. rewrite HD. destruct (bool_decide_reflect (member s g0)) as [Hg|Hg].
  - split; [by intros []; apply Hm|]. intros _ HS x. rewrite elem_of_union, elem_of_singleton, HS. naive_solver.
  - split; [done|]. intros Hx. by apply Hm in Hx.
Qed.

Lemma moves_demoteAtRank n S g :
  0 <= n -> group_has S n g ->
  moves n S g (fun x => S x /\ names ranked !! Z.to_nat n <> Some x)
    (demoteTrackAtRank cfg ranked n g).
Proof using Hmax Hev.
  intros Hn H. unfold demoteTrackAtRank. rewrite at_rank_lookup, Z.sub_0_r by lia.
  destruct (names ranked !! Z.to_nat n) as [f|] eqn:E.
  - pose proof (group_has_isSelected S n g f H) as Hsel'.
    destruct (isSelected g f).
    + eapply moves_iff; [|by apply moves_demote]. intros x. cbn. naive_solver.
    + eapply moves_iff; [|by apply moves_id]. intros x. split; [|naive_solver].
      intros Hx. split; [done|]. intros [= ->]. naive_solver.
  - eapply moves_iff; [|by apply moves_id]. naive_solver.
Qed.

Lemma moves_promoteAtRank n k S g :
  0 <= k -> group_has S n g ->
  moves n S g (fun x => S x \/ names ranked !! Z.to_nat k = Some x)
    (promoteTrackAtRank cfg ranked counts k g).
Proof using Hs Hbatch.
  intros Hn H. unfold promoteTrackAtRank. rewrite at_rank_lookup, Z.sub_0_r by lia.
  destruct (names ranked !! Z.to_nat k) as [f|] eqn:E.
  - pose proof (group_has_isSelected S n g f H) as Hsel'.
    destruct (isSelected g f).
    + eapply moves_iff; [|by apply moves_id]. intros x. naive_solver.
    + eapply moves_iff; [|apply moves_notify; [done|done|by apply group_has_select]].
      intros x. cbn. naive_solver.
  - eapply moves_iff; [|by apply moves_id]. naive_solver.
Qed.

(** A loop that only reconciles publishers. *)
Lemma moves_reconcile n S g (F : Session -> SessionInfo -> SessionInfo * list Event) :
  (forall k a, quiet s (F k a).2) -> group_has S n g ->
  moves n S g S (set_sessions (for_each F (sessions g)).1 g, (for_each F (sessions g)).2).
Proof using Type.
  intros HF H. pose proof (for_each_keys F (sessions g)) as Hk. split; [by apply group_has_sessions|].
  split; [done|]. intros D. cbn [snd].
  rewrite !(for_each_quiet F (sessions g) s HF D). split; [done|]. by intros _ HS.
Qed.

Lemma register_group_spec L f i n g :
  names ranked = ins i f L -> NoDup L -> f ∉ L -> (i <= length L)%nat -> 0 <= n ->
  group_ok L n g ->
  moves n (fun x => x ∈ top n L) g (fun x => x ∈ top n (ins i f L))
    (register_group cfg ranked counts f (Z.of_nat i) n g).
Proof using Hmax Hbatch Hev Hs.
  intros Hr Hnd Hf Hi Hn Hg. unfold register_group. destruct (Z.ltb_spec (Z.of_nat i) n) as [Hlt|Hge].
  - pose proof (moves_notify n _ g (set_trackStates (<[f := Selected]> (trackStates g)) g) f
      Hg eq_refl (proj1 (group_has_select n _ g f Hg))) as M1.
    destruct (notifyTrackSelected cfg ranked counts f _) as [g1 ev1].
    pose proof (moves_demoteAtRank n _ g1 Hn (proj1 M1)) as M2.
    destruct (demoteTrackAtRank cfg ranked n g1) as [g2 ev2].
    eapply moves_iff; [|by eapply moves_seq]. intros x. cbn beta. rewrite Hr.
    apply top_enter; [done|done|lia|done].
  - rewrite (surjective_pairing (for_each _ (sessions g))).
    eapply moves_iff; [|apply moves_reconcile; [|exact Hg]].
    + intros x. unfold top. by rewrite take_ins_le by lia.
    + intros k a. by apply reconcile_if_quiet.
Qed.

Lemma promote_scan_spec n k g l1 l2 f :
  ranked = l1 ++ l2 -> NoDup (names ranked) -> f ∉ names ranked ->
  (length l1 <= k)%nat -> group_has (fun x => x ∈ take k (names ranked)) n g ->
  moves n (fun x => x ∈ take k (names ranked)) g (fun x => x ∈ take (S k) (names ranked))
    (promote_scan cfg ranked counts l2 f g).
Proof using Hs Hbatch.
  intros Hr Hnd Hf. revert l1 Hr. induction l2 as [|[key e] l2 IH]; intros l1 Hr Hlen H; cbn.
  - eapply moves_iff; [|by apply moves_id]. intros x. rewrite app_nil_r in Hr. subst l1.
    rewrite !take_ge; [done|unfold names; rewrite length_map; lia..].
  - assert (Hl : names ranked !! length l1 = Some (ftn e)).
    { rewrite Hr. unfold names. rewrite map_app, lookup_app_r by by rewrite length_map.
      by rewrite length_map, Nat.sub_diag. }
    rewrite bool_decide_false by (intros E; apply Hf; rewrite <-E; by eapply list_elem_of_lookup_2).
    pose proof (group_has_isSelected _ n g (ftn e) H) as Hsel'.
    destruct (decide (length l1 = k)) as [<- | Hne].
    + assert (isSelected g (ftn e) = false) as ->.
      { apply not_true_iff_false. rewrite Hsel'. by apply (NoDup_lookup_take _ (length l1)). }
      eapply moves_iff; [|apply moves_notify; [done|done|by apply group_has_select]].
      intros x. cbn beta. rewrite (elem_of_take_S (S (length l1))).
      replace (S (length l1) - 1)%nat with (length l1) by lia. rewrite Hl. naive_solver lia.
    + assert (isSelected g (ftn e) = true) as ->.
      { apply Hsel', list_elem_of_lookup. exists (length l1). apply lookup_take_Some. split; [done|lia]. }
      apply (IH (l1 ++ [(key, e)])); [by rewrite <-app_assoc|rewrite length_app; cbn; lia|done].
Qed.

Lemma remove_group_spec f i n g :
  NoDup (names ranked) -> f ∉ names ranked -> (i <= length (names ranked))%nat -> 0 <= n ->
  group_ok (ins i f (names ranked)) n g ->
  moves n (fun x => x ∈ top n (ins i f (names ranked)) /\ x <> f) g (fun x => x ∈ top n (names ranked))
    (remove_group cfg ranked counts f n g).
Proof using Hs Hbatch.
  intros Hnd Hf Hi Hn Hg. pose proof Hg as [Hm Hq Hst Hd Hkeys]. unfold remove_group, top in *.
  destruct (decide (i < Z.to_nat n)%nat) as [Hlt|Hge].
  - assert (E : trackStates g !! f = Some Selected).
    { apply Hst. rewrite take_ins_gt by done. apply list_elem_of_here. }
    rewrite E. cbn [deselectedQueue removeFromDeselectedQueue set_deselectedQueue set_trackStates].
    rewrite Hq. cbn [filter list_filter]. unfold promoteNextAvailableTrack.
    assert (Hset : forall x, x ∈ take (Z.to_nat n) (ins i f (names ranked)) /\ x <> f <->
                             x ∈ take (Z.to_nat n - 1) (names ranked)).
    { intros x. rewrite take_ins_gt by done. rewrite elem_of_cons. split; [naive_solver|].
      intros Hx. split; [by right|]. intros ->. by apply Hf, (elem_of_take_in _ _ _ Hx). }
    pose proof (promote_scan_spec n (Z.to_nat n - 1)
      (removeFromDeselectedQueue f (set_trackStates (delete f (trackStates g)) g)) [] ranked f
      eq_refl Hnd Hf (Nat.le_0_l _)) as M.
    destruct M as (G & K & HD).
    { split; cbn; try done; [by rewrite Hq| |].
      - intros x. rewrite lookup_delete_Some, Hst, <-Hset. naive_solver.
      - intros x [_ Hx]%lookup_delete_Some. by apply (Hd x). }
    replace (S (Z.to_nat n - 1)) with (Z.to_nat n) in * by lia.
    split; [done|]. split; [done|]. intros D. destruct (HD D) as [Ha Hb]. split; [done|].
    intros Hmem HS. apply Hb; [done|]. intros x. by rewrite HS, Hset.
  - assert (E : trackStates g !! f = None).
    { destruct (trackStates g !! f) as [[]|] eqn:E; [|by apply Hd in E|done].
      apply Hst in E. rewrite take_ins_le in E by lia. by apply elem_of_take_in in E. }
    assert (Hset : forall x, x ∈ take (Z.to_nat n) (ins i f (names ranked)) /\ x <> f <->
                             x ∈ take (Z.to_nat n) (names ranked)).
    { intros x. rewrite take_ins_le by lia. split; [naive_solver|]. intros Hx. split; [done|].
      intros ->. by apply elem_of_take_in in Hx. }
    rewrite E. split; [|split; [done|]].
    + eapply group_has_iff; [|exact Hg]. intros x. cbn beta. unfold top.
      by rewrite take_ins_le by lia.
    + intros D. split; [done|]. intros _ HS x. by rewrite <-Hset, <-HS.
Qed.

Lemma recompute_group_spec p f B i j n g :
  names ranked = ins j f B -> NoDup B -> f ∉ B ->
  (i <= length B)%nat -> (j <= length B)%nat -> 0 <= n ->
  group_ok (ins i f B) n g ->
  moves n (fun x => x ∈ top n (ins i f B)) g (fun x => x ∈ top n (ins j f B))
    (recompute_group cfg ranked counts f p (Z.of_nat i) (Z.of_nat j) n g).
Proof using Hmax Hbatch Hev Hs.
  intros Hr Hnd Hf Hi Hj Hn Hg. unfold recompute_group, top in *.
  set (F := fun s0 info => if isPublisher counts s0
     then if bool_decide (Some s0 <> p) then reconcilePublisherSelection cfg ranked info n s0
          else (info, []) else (info, [])).
  assert (HF : forall k a, quiet s (F k a).2).
  { intros k a. unfold F. destruct (isPublisher counts k) eqn:E; [|done].
    destruct (bool_decide _); [|done]. by apply reconcile_quiet, publisher_not_viewer. }
  destruct (Z.ltb_spec (Z.of_nat i) n) as [Hwas|Hwas], (Z.ltb_spec (Z.of_nat j) n) as [Hnow|Hnow];
    cbn [eqb negb andb].
  - rewrite (surjective_pairing (for_each F _)), !app_nil_r. cbn [app batchSelected].
    eapply moves_iff; [|apply moves_reconcile; [exact HF|exact Hg]].
    intros x. apply top_stay; [lia|done..].
  - pose proof (moves_demote n _ g f Hg) as M1. destruct (demoteTrack cfg f g) as [g1 ev1].
    pose proof (moves_reconcile n _ g1 F HF (proj1 M1)) as M2.
    rewrite (surjective_pairing (for_each F _)). cbn [app batchSelected].
    set (g2 := set_sessions (for_each F (sessions g1)).1 g1) in *.
    assert (Hn1 : 0 <= n - 1) by lia.
    pose proof (moves_promoteAtRank n (n - 1) _ g2 Hn1 (proj1 M2)) as M3.
    destruct (promoteTrackAtRank cfg ranked counts (n - 1) g2) as [g3 ev3].
    eapply moves_iff; [|eapply moves_seq; [exact M1|eapply moves_seq; [exact M2|exact M3]]].
    intros x. cbn beta. rewrite Hr. replace (Z.to_nat (n - 1)) with (Z.to_nat n - 1)%nat by lia.
    apply (top_leave f B Hf); lia.
  - rewrite (surjective_pairing (for_each F _)). cbn [app].
    pose proof (group_has_select n _ g f Hg) as [_ G1].
    assert (M1 : moves n (fun x => x ∈ take (Z.to_nat n) (ins i f B)) g
              (fun x => x ∈ take (Z.to_nat n) (ins i f B) \/ x = f)
              (set_sessions (for_each F (sessions g)).1 (selectTrack f g),
               (for_each F (sessions g)).2 ++ batchSelected cfg f (viewers counts (sessions g)))).
    { pose proof (for_each_keys F (sessions g)) as Hk.
      split; [by apply group_has_sessions|]. split; [done|]. intros D. cbn [snd].
      rewrite !deliver_app, !(for_each_quiet F (sessions g) s HF D), !deliver_batch. unfold member.
      case_bool_decide as Hm; [|split; [done|intros Hm'; by destruct (Hm Hm')]].
      split; [done|]. intros _ HS x. rewrite elem_of_union, elem_of_singleton, HS. tauto. }
    change (sessions (selectTrack f g)) with (sessions g).
    set (g2 := set_sessions (for_each F (sessions g)).1 (selectTrack f g)) in *.
    pose proof (moves_demoteAtRank n _ g2 Hn (proj1 M1)) as M2.
    destruct (demoteTrackAtRank cfg ranked n g2) as [g3 ev3]. rewrite app_nil_r, app_assoc.
    eapply moves_iff; [|eapply moves_seq; [exact M1|exact M2]].
    intros x. cbn beta. rewrite Hr, (take_ins_le (Z.to_nat n) i) by lia.
    apply top_enter; [done|done|lia|done].
  - rewrite (surjective_pairing (for_each F _)), !app_nil_r. cbn [app batchSelected].
    eapply moves_iff; [|apply moves_reconcile; [exact HF|exact Hg]].
    intros x. apply top_stay; [lia|done..].
Qed.
End viewer.
