(* ===== verification/RankingRun.v ===== *)
(** Runs of the ranking: the operations of relay/PropertyRanking.cpp keep the
    invariant of the groups and what every viewer is delivered. *)

From Stdlib Require Import Sorting.Sorted.
From S2P Require Import Prelude Assoc Location Ranking RankingInv RankingSpec RankingViewers.

(** ** All groups *)
Section all_groups.
Context (s : Session) (n0 : Z) (P Q : Z -> FullTrackName -> Prop).
Context (F : Z -> TopNGroup -> TopNGroup * list Event).

Lemma for_each_moves gs :
  NoDup (map fst gs) ->
  (forall n g, (n, g) ∈ gs -> moves s n (P n) g (Q n) (F n g)) ->
  (forall n g, (n, g) ∈ gs -> member s g -> n = n0) ->
  (forall n g', (n, g') ∈ (for_each F gs).1 -> group_has (Q n) n g' /\
     exists g, (n, g) ∈ gs /\ map fst (sessions g') = map fst (sessions g)) /\
  forall D,
    ((forall n g, (n, g) ∈ gs -> ~ member s g) -> deliver s D (for_each F gs).2 = D) /\
    ((exists n g, (n, g) ∈ gs /\ member s g) -> (forall x, x ∈ D <-> P n0 x) ->
     forall x, x ∈ deliver s D (for_each F gs).2 <-> Q n0 x).
Proof.
  induction gs as [|[n g] gs IH]; intros Hnd HF Hm.
  - split; [by intros n g ?%elem_of_nil|]. intros D. split; [done|].
    by intros (n & g & H%elem_of_nil & _).
  - cbn in Hnd. apply NoDup_cons in Hnd as [Hk Hnd]. rewrite for_each_cons. cbn [fst snd].
    destruct (HF n g (list_elem_of_here _ _)) as (G & K & HD).
    destruct (IH Hnd) as [IHg IHd].
    { intros n' g' H. apply HF. by right. }
    { intros n' g' H. apply Hm. by right. }
    split.
    + intros n' g' [[= -> ->]|H]%elem_of_cons.
      * split; [done|]. exists g. split; [by left|done].
      * destruct (IHg n' g' H) as (Hg' & g0 & Hin & Ek). split; [done|]. exists g0. by split; [right|].
    + intros D. rewrite deliver_app. destruct (HD D) as [HDa HDb].
      destruct (IHd (deliver s D (F n g).2)) as [IHa IHb]. split.
      * intros Hno. rewrite IHa, HDa; [done|apply (Hno n g); by left|].
        intros n' g' H. apply (Hno n' g'). by right.
      * intros Hex HP x. destruct (decide (member s g)) as [Hg|Hg].
        -- assert (n = n0) as -> by (apply (Hm n g); [by left|done]).
           rewrite IHa; [by apply HDb|]. intros n' g' H Hm'. apply Hk.
           rewrite <-(Hm n' g'); [by eapply elem_of_keys|by right|done].
        -- assert (E : deliver s D (F n g).2 = D) by by apply HDa. rewrite E in *.
           apply IHb; [|done]. destruct Hex as (n' & g' & [[= -> ->]|H]%elem_of_cons & Hm'); [done|].
           by exists n', g'.
Qed.
End all_groups.

(** ** The thresholds *)
Definition thresholds_ok (r : PropertyRanking) : Prop :=
  sortedThresholds r = merge_sort Z.le (map fst (topNGroups r)) /\
  forall n, n ∈ map fst (topNGroups r) -> n <= selectionThreshold r.

Lemma foldl_max_ge l a : a <= foldl Z.max a l /\ forall n, n ∈ l -> n <= foldl Z.max a l.
Proof.
  revert a. induction l as [|x l IH]; intros a; cbn.
  - split; [lia|]. by intros n ?%elem_of_nil.
  - destruct (IH (Z.max a x)) as [H1 H2]. split; [lia|].
    intros n [-> | H]%elem_of_cons; [lia|by apply H2].
Qed.
Lemma foldl_max_le l a b : a <= b -> (forall n, n ∈ l -> n <= b) -> foldl Z.max a l <= b.
Proof.
  revert a. induction l as [|x l IH]; intros a Ha H; cbn; [done|]. apply IH.
  - apply Z.max_lub; [done|]. apply H. by left.
  - intros n Hn. apply H. by right.
Qed.

Lemma updateSelectionThreshold_ok cfg r :
  maxDeselected cfg = 0 -> (forall n, n ∈ map fst (topNGroups r) -> u64_ok n) ->
  thresholds_ok (updateSelectionThreshold cfg r).
Proof.
  intros Hmax Hn. split; [done|]. intros n Hin. cbn in *. rewrite Hmax, Z.add_0_r.
  destruct (foldl_max_ge (map fst (topNGroups r)) 0) as [H0 Hge].
  rewrite u64_small; [by apply Hge|]. split; [done|].
  assert (foldl Z.max 0 (map fst (topNGroups r)) <= u64_modulus - 1); [|lia].
  apply foldl_max_le; [done|]. intros x Hx. destruct (Hn x Hx). lia.
Qed.

Lemma find_sorted (l : list Z) x n :
  StronglySorted Z.le l -> n ∈ l -> x < n ->
  exists t, List.find (fun t => x <? t) l = Some t /\ t <= n.
Proof.
  induction 1 as [|y l Hs IH Hf]; intros Hin Hlt; [by apply elem_of_nil in Hin|]. cbn.
  destruct (Z.ltb_spec x y) as [H|H].
  - exists y. split; [done|]. apply elem_of_cons in Hin as [-> | Hin]; [lia|].
    rewrite Forall_forall in Hf. by apply Hf.
  - apply elem_of_cons in Hin as [-> | Hin]; [lia|]. by apply IH.
Qed.

(** The fast path is taken only when no group's boundary lies between the two
    ranks. *)
Lemma crossesThreshold_false r i j n :
  thresholds_ok r -> n ∈ map fst (topNGroups r) -> crossesThreshold r i j = false ->
  (i <? n) = (j <? n).
Proof.
  intros [Hsort Hsel] Hn. unfold crossesThreshold.
  destruct (topNGroups r) as [|p gs] eqn:Eg; [by apply elem_of_nil in Hn|].
  rewrite <-Eg in *. pose proof (Hsel n Hn) as Hle.
  destruct (_ && _) eqn:E1; [lia|]. destruct (negb _) eqn:E2; [done|].
  destruct (decide (Z.min i j < n)) as [Hmin|Hmin]; [|lia].
  destruct (find_sorted (sortedThresholds r) (Z.min i j) n) as (t & Ht & Htn).
  - rewrite Hsort. apply (StronglySorted_merge_sort Z.le).
  - rewrite Hsort. by rewrite merge_sort_Permutation.
  - done.
  - unfold upper_bound. rewrite Ht. destruct (Z.leb_spec t (Z.max i j)); [done|]. lia.
Qed.

(** ** The invariant of a run, seen by one viewer *)
Record view_ok (s : Session) (n0 : Z) (m : Tracks) (seq : Z) (r : PropertyRanking)
    (D : gset FullTrackName) : Prop := {
  vo_tracks : tracks_ok m seq r;
  vo_nodup : NoDup (map fst (topNGroups r));
  vo_groups n g : (n, g) ∈ topNGroups r -> u64_ok n /\ group_ok (names (rankedTracks r)) n g;
  vo_thresholds : thresholds_ok r;
  vo_viewer : publisherTrackCount r !! s = None;
  vo_view n g : (n, g) ∈ topNGroups r -> member s g ->
    n = n0 /\ matches D n (names (rankedTracks r));
}.

Lemma view_ok_empty s n0 : view_ok s n0 ∅ 0 emptyRanking ∅.
Proof.
  split; cbn.
  - apply tracks_ok_empty.
  - apply NoDup_nil_2.
  - by intros n g ?%elem_of_nil.
  - split; [done|]. by intros n ?%elem_of_nil.
  - apply lookup_empty.
  - by intros n g ?%elem_of_nil.
Qed.

Lemma NoDup_ins_fresh {A} i (x : A) B : NoDup (ins i x B) -> x ∉ B /\ NoDup B.
Proof. rewrite ins_perm. by intros ?%NoDup_cons. Qed.

Lemma reconcile_session_moves cfg ranked p s n S g :
  p <> s -> group_has S n g -> moves s n S g S (reconcile_session_group cfg ranked p n g).
Proof.
  intros Hp H. unfold reconcile_session_group. destruct (assoc p (sessions g)) as [info|] eqn:E.
  - match goal with |- context [reconcilePublisherSelection cfg ranked ?i n p] =>
      pose proof (reconcile_quiet cfg ranked s i n p Hp) as Hq;
      destruct (reconcilePublisherSelection cfg ranked i n p) as [info2 ev]
    end.
    cbn [snd] in Hq.
    assert (Hk : map fst (assoc_set p info2 (sessions g)) = map fst (sessions g)).
    { rewrite assoc_set_keys, bool_decide_true; [done|]. apply dec_stable. intros Hno.
      apply assoc_None in Hno. congruence. }
    split; [by apply group_has_sessions|]. split; [done|]. intros D. cbn [snd].
    rewrite !(Hq D). split; [done|]. by intros _ HS.
  - by apply moves_id.
Qed.

(** At [now] no track of [m] has been silent for longer than the idle timeout (or
    there is no timeout): a sweep finds nothing to demote. *)
Definition activeAt (cfg : RankingConfig) (now : Z) (lastActivity : FullTrackName -> Z) (m : Tracks) : bool :=
  (idleTimeout cfg =? 0) || forallb (fun q => negb (isIdle cfg now (lastActivity q.1))) (map_to_list m).
Lemma activeAt_spec cfg now la m :
  activeAt cfg now la m = true <-> idleTimeout cfg = 0 \/ forall f, is_Some (m !! f) -> isIdle cfg now (la f) = false.
Proof.
  unfold activeAt. rewrite orb_true_iff, Z.eqb_eq, forallb_forall. split; (intros [?|H]; [by left|right]).
  - intros f [x Hx]. apply negb_true_iff, (H (f, x)). by apply list_elem_of_In, elem_of_map_to_list.
  - intros [f x] Hin%list_elem_of_In%elem_of_map_to_list. apply negb_true_iff, H. eauto.
Qed.
Lemma activeAt_update cfg now la f v m : activeAt cfg now la (spec_update f v m) = activeAt cfg now la m.
Proof.
  apply eq_true_iff_eq. rewrite !activeAt_spec.
  assert (Hk : forall f', is_Some (spec_update f v m !! f') <-> is_Some (m !! f')).
  { intros f'. unfold spec_update. destruct (m !! f) as [[k p]|] eqn:E; [|done].
    rewrite lookup_insert_is_Some. destruct (decide (f = f')) as [->|]; [rewrite E; split; eauto|naive_solver]. }
  by setoid_rewrite Hk.
Qed.

Lemma for_each_id (F : Z -> TopNGroup -> TopNGroup * list Event) gs :
  (forall n g, (n, g) ∈ gs -> F n g = (g, [])) -> for_each F gs = (gs, []).
Proof.
  induction gs as [|[n g] gs IH]; intros H; [done|]. cbn. rewrite (H n g) by (by left). rewrite IH; [done|].
  intros n' g' Hin. apply H. by right.
Qed.
Lemma sweep_tracks_none cfg ranked counts la now l g :
  (forall f, f ∈ l -> isIdle cfg now (la f) = false) -> sweep_tracks cfg ranked counts la now l g = (g, []).
Proof.
  induction l as [|f l IH]; intros H; [done|]. cbn. rewrite (H f) by (by left). apply IH. intros f' Hf'. apply H. by right.
Qed.

Section steps.
Context (cfg : RankingConfig) (Hmax : maxDeselected cfg = 0).
Context (Hbatch : onBatchSelectedSet cfg = true) (Hev : onEvictedSet cfg = true)
        (Hsel : onSelectedSet cfg = true).
Context (s : Session) (n0 : Z).

(** The groups have the tracks [P] selected and the viewer is delivered [V]. *)
Definition groups_view (P V : Z -> FullTrackName -> Prop) (gs : list (Z * TopNGroup))
    (D : gset FullTrackName) : Prop :=
  NoDup (map fst gs) /\
  (forall n g, (n, g) ∈ gs -> u64_ok n /\ group_has (P n) n g) /\
  (forall n g, (n, g) ∈ gs -> member s g -> n = n0 /\ forall x, x ∈ D <-> V n x).

Lemma groups_view_pass P V Q gs D F :
  groups_view P V gs D ->
  (forall n g, u64_ok n -> group_has (P n) n g -> moves s n (V n) g (Q n) (F n g)) ->
  groups_view Q Q (for_each F gs).1 (deliver s D (for_each F gs).2).
Proof using Type.
  intros (N & G & W) HF.
  destruct (for_each_moves s n0 V Q F gs N) as [Hg Hd].
  { intros n g Hin. destruct (G n g Hin). by apply HF. }
  { intros n g Hin Hm. by apply (W n g). }
  split; [by rewrite for_each_keys|]. split.
  - intros n g' H. destruct (Hg n g' H) as (Hg' & g & Hin & _). by destruct (G n g Hin).
  - intros n g' H Hm. destruct (Hg n g' H) as (_ & g & Hin & Ek).
    assert (Hm' : member s g) by (unfold member in *; by rewrite <-Ek).
    destruct (W n g Hin Hm') as [-> HV]. split; [done|].
    destruct (Hd D) as [_ Hb]. apply Hb; [by exists n0, g|done].
Qed.

Abbreviation tops L := (fun n x => x ∈ top n L).

Lemma view_ok_groups m seq r D :
  view_ok s n0 m seq r D ->
  groups_view (tops (names (rankedTracks r))) (tops (names (rankedTracks r))) (topNGroups r) D.
Proof using Type. intros []. done. Qed.

Lemma view_ok_build m m' seq seq' r r' D D' :
  view_ok s n0 m seq r D -> tracks_ok m' seq' r' ->
  groups_view (tops (names (rankedTracks r'))) (tops (names (rankedTracks r'))) (topNGroups r') D' ->
  map fst (topNGroups r') = map fst (topNGroups r) ->
  sortedThresholds r' = sortedThresholds r -> selectionThreshold r' = selectionThreshold r ->
  publisherTrackCount r' !! s = None ->
  view_ok s n0 m' seq' r' D'.
Proof using Type.
  intros [T N G [TS TL] V W] T' (N' & G' & W') Ek Es Et Hc. split; try done.
  split; rewrite Ek; [by rewrite Es|by rewrite Et].
Qed.

(** *** Registration *)
Lemma register_step f initial p m seq r D :
  p <> s -> 0 <= seq < u64_modulus - 1 -> view_ok s n0 m seq r D ->
  view_ok s n0 (spec_register f initial p seq m) (seq + if decide (m !! f = None) then 1 else 0)
    (registerTrack cfg f initial p r).1 (deliver s D (registerTrack cfg f initial p r).2).
Proof using Hmax Hbatch Hev.
  intros Hp Hseq V. pose proof (vo_tracks _ _ _ _ _ _ V) as T. unfold registerTrack.
  destruct (trackIndexByName r !! f) as [i|] eqn:Ei.
  { assert (Hf : m !! f <> None).
    { destruct (tk_index_Some T f i Ei) as [q Hq]. by rewrite Hq. }
    rewrite decide_False by done. cbn. rewrite Z.add_0_r. unfold spec_register.
    destruct (m !! f); done. }
  apply (tk_index_None T) in Ei. rewrite decide_True by done.
  set (key := RK (default 0 initial) (nextSeq r)).
  set (r3 := set_tracks _ _ _).
  destruct (register_tracks m seq r T f initial p r3 Ei (proj1 Hseq)) as [T3 (i & Hi & Er3)];
    [done|done|cbn; rewrite (tk_seq _ _ _ T); apply u64_small; split; lia|done|].
  destruct (getCachedRank_spec T3 f) as (ix & Eg & T4 & Hrank & _).
  rewrite (surjective_pairing (getCachedRank f r3)), Eg.
  assert (En : names (rankedTracks r3) = ins i f (names (rankedTracks r))).
  { rewrite Er3. unfold names. by rewrite map_ins. }
  rewrite (Hrank i) by (rewrite En; apply ins_lookup; unfold names; by rewrite length_map).
  set (r4 := set_cache ix r3) in *. change (topNGroups r4) with (topNGroups r).
  change (rankedTracks r4) with (rankedTracks r3).
  assert (Hs4 : publisherTrackCount r4 !! s = None).
  { cbn. rewrite lookup_insert_ne by done. apply V. }
  destruct (NoDup_ins_fresh i f (names (rankedTracks r))) as [Hfresh Hnd].
  { rewrite <-En. apply T3. }
  assert (P1 := groups_view_pass _ _ (tops (names (rankedTracks r))) _ _
    (reconcile_session_group cfg (rankedTracks r3) p) (view_ok_groups _ _ _ _ V)).
  rewrite (surjective_pairing (for_each (reconcile_session_group _ _ _) _)).
  rewrite (surjective_pairing (for_each (register_group _ _ _ _ _) _)). cbn [fst snd].
  rewrite deliver_app. eapply view_ok_build; [exact V| | |..].
  - eapply tracks_ok_ext; [..|exact T4]; done.
  - cbn [rankedTracks set_topNGroups topNGroups]. change (rankedTracks r4) with (rankedTracks r3).
    rewrite En. eapply groups_view_pass.
    + apply P1. intros n g _ Hg. by apply reconcile_session_moves.
    + intros n g Hn Hg. apply register_group_spec; try done; [unfold names; by rewrite length_map|].
      apply Hn.
  - cbn. by rewrite !for_each_keys.
  - done.
  - done.
  - done.
Qed.

(** *** A sweep that finds no idle track *)
Lemma sweep_step now la m seq r D :
  view_ok s n0 m seq r D -> activeAt cfg now la m = true ->
  view_ok s n0 m seq (sweepIdle cfg now la r).1 D /\ (sweepIdle cfg now la r).2 = [].
Proof using Type.
  intros V [Hi|Ha]%activeAt_spec; unfold sweepIdle; [by rewrite Hi|].
  destruct (_ || _); [done|]. destruct (_ && _); [done|]. cbn [topNGroups set_lastSweep].
  rewrite for_each_id.
  - cbn [fst snd]. split; [|done]. eapply view_ok_build; [exact V| | |done..|apply V].
    + eapply tracks_ok_ext; [..|apply V]; done.
    + exact (view_ok_groups _ _ _ _ V).
  - intros n g Hin. unfold sweep_group. apply sweep_tracks_none. intros f Hf.
    apply list_elem_of_In, in_map_iff in Hf as ([f' st] & <- & Hf%list_elem_of_In).
    apply list_elem_of_filter in Hf as [Hst Hf]. cbn in Hst. subst st. apply elem_of_map_to_list in Hf.
    apply Ha. destruct (vo_groups _ _ _ _ _ _ V n g Hin) as [_ Hg].
    apply (gh_sel _ _ _ Hg) in Hf. apply (tk_name_elem (vo_tracks _ _ _ _ _ _ V)). by eapply elem_of_take_in.
Qed.

(** *** A new value *)
Lemma update_step f v now la m seq r D :
  view_ok s n0 m seq r D -> activeAt cfg now la m = true ->
  view_ok s n0 (spec_update f v m) seq (updateSortValue cfg f v now la r).1
    (deliver s D (updateSortValue cfg f v now la r).2).
Proof using Hmax Hbatch Hev.
  intros V Ha. pose proof (vo_tracks _ _ _ _ _ _ V) as T. unfold updateSortValue.
  destruct (trackIndexByName r !! f) as [entry|] eqn:Ei.
  2: { apply (tk_index_None T) in Ei. unfold spec_update. by rewrite Ei. }
  destruct (tk_index_Some T f entry Ei) as [p Hf]. set (k := rankIter entry) in *.
  destruct (Z.eqb_spec (value k) v) as [Hv|Hv].
  { unfold spec_update. rewrite Hf. destruct k as [kv ks]. cbn in Hv. subst kv. cbn.
    by rewrite insert_id. }
  destruct (getCachedRank_spec T f) as (ix1 & E1 & T1 & Hrank1 & _).
  rewrite (surjective_pairing (getCachedRank f r)), E1.
  change (rankedTracks (set_cache ix1 r)) with (rankedTracks r).
  rewrite (tk_find T f k p Hf). set (r2 := set_tracks _ _ _).
  destruct (update_tracks m seq _ T1 f v k p _ r2 Hf eq_refl eq_refl eq_refl eq_refl)
    as [T2 (i & j & B & Hi & Hj & EB & EB')].
  change (rankedTracks (set_cache ix1 r)) with (rankedTracks r) in EB.
  destruct (getCachedRank_spec T2 f) as (ix2 & E2 & T3 & Hrank2 & _).
  rewrite (surjective_pairing (getCachedRank f r2)), E2.
  assert (En : names (rankedTracks r) = ins i f (names B)) by (rewrite EB; unfold names; by rewrite map_ins).
  assert (En' : names (rankedTracks r2) = ins j f (names B)) by (rewrite EB'; unfold names; by rewrite map_ins).
  assert (Hlen : length (names B) = length B) by (unfold names; by rewrite length_map).
  rewrite (Hrank1 i) by (rewrite En; apply ins_lookup; by rewrite Hlen).
  rewrite (Hrank2 j) by (rewrite En'; apply ins_lookup; by rewrite Hlen).
  set (r3 := set_cache ix2 r2) in *.
  destruct (NoDup_ins_fresh i f (names B)) as [Hfresh Hnd]; [rewrite <-En; apply T|].
  destruct (crossesThreshold r3 (Z.of_nat i) (Z.of_nat j)) eqn:Ec; cbn [negb].
  - unfold recomputeTopNGroups. change (topNGroups r3) with (topNGroups r).
    rewrite (surjective_pairing (for_each _ _)). set (r4 := set_topNGroups _ _). set (ev := (for_each _ _).2).
    enough (V4 : view_ok s n0 (spec_update f v m) seq r4 (deliver s D ev)).
    { destruct (sweep_step now la _ seq r4 _ V4) as [V5 Hev5]; [by rewrite activeAt_update|].
      destruct (sweepIdle cfg now la r4) as [r5 ev5]. cbn [fst snd] in *. by rewrite Hev5, app_nil_r. }
    eapply view_ok_build; [exact V| | |..].
    + eapply tracks_ok_ext; [..|exact T3]; done.
    + unfold r4, ev. cbn [rankedTracks set_topNGroups topNGroups]. change (rankedTracks r3) with (rankedTracks r2).
      rewrite En'. eapply groups_view_pass; [exact (view_ok_groups _ _ _ _ V)|].
      intros n g Hn Hg. rewrite En in *. apply recompute_group_spec; rewrite ?Hlen; try done; [apply V|apply Hn].
    + unfold r4. cbn. by rewrite for_each_keys.
    + done.
    + done.
    + apply V.
  - cbn [fst snd]. change (deliver s D []) with D.
    eapply view_ok_build; [exact V|exact T3| |done..|apply V].
    change (topNGroups r3) with (topNGroups r). change (rankedTracks r3) with (rankedTracks r2).
    destruct (view_ok_groups _ _ _ _ V) as (N & G & W). rewrite En'.
    assert (Hsame : forall n x, n ∈ map fst (topNGroups r) -> u64_ok n ->
              x ∈ top n (names (rankedTracks r)) <-> x ∈ top n (ins j f (names B))).
    { intros n x Hin [Hn0 _]. rewrite En. unfold top. apply top_stay; rewrite ?Hlen; [|done..].
      assert (Ht : thresholds_ok r3) by apply (vo_thresholds _ _ _ _ _ _ V).
      pose proof (crossesThreshold_false r3 _ _ n Ht Hin Ec). lia. }
    split; [done|]. split.
    + intros n g Hin. destruct (G n g Hin) as [Hn Hg]. split; [done|].
      eapply group_has_iff; [|exact Hg]. intros x. apply Hsame; [by eapply elem_of_keys|done].
    + intros n g Hin Hm. destruct (W n g Hin Hm) as [-> HV]. split; [done|]. intros x.
      rewrite HV. destruct (G n0 g Hin). apply Hsame; [by eapply elem_of_keys|done].
Qed.

(** *** The end of a track *)
Lemma remove_step f m seq r D :
  view_ok s n0 m seq r D ->
  view_ok s n0 (delete f m) seq (removeTrack cfg f r).1
    (deliver s (D ∖ {[f]}) (removeTrack cfg f r).2).
Proof using Hmax Hbatch.
  intros V. pose proof (vo_tracks _ _ _ _ _ _ V) as T. unfold removeTrack.
  destruct (trackIndexByName r !! f) as [entry|] eqn:Ei.
  2: { apply (tk_index_None T) in Ei. rewrite delete_id by done. cbn [fst snd].
    change (deliver s (D ∖ {[f]}) []) with (D ∖ {[f]}).
    eapply view_ok_build; [exact V|exact T| |done..|apply V].
    destruct (view_ok_groups _ _ _ _ V) as (N & G & W). split; [done|]. split; [done|].
    intros n g Hin Hm. destruct (W n g Hin Hm) as [-> HV]. split; [done|]. intros x.
    rewrite elem_of_difference, elem_of_singleton, HV. split; [tauto|]. intros Hx. split; [done|].
    intros ->. apply elem_of_take_in, (tk_name_elem T) in Hx. rewrite Ei in Hx. by destruct Hx. }
  destruct (tk_index_Some T f entry Ei) as [p Hf]. set (k := rankIter entry) in *.
  destruct (getCachedRank_spec T f) as (ix1 & E1 & T1 & _ & _).
  rewrite (surjective_pairing (getCachedRank f r)), E1.
  change (rankedTracks (set_cache ix1 r)) with (rankedTracks r).
  rewrite (tk_find T f k p Hf). cbn [publisherRaw].
  set (r2 := match publisherTrackCount (set_cache ix1 r) !! p with Some c => _ | None => _ end).
  assert (H2 : rankedTracks r2 = rankedTracks r /\ trackIndexByName r2 = ix1 /\
               topNGroups r2 = topNGroups r /\ nextSeq r2 = nextSeq r /\
               sortedThresholds r2 = sortedThresholds r /\
               selectionThreshold r2 = selectionThreshold r /\
               publisherTrackCount r2 !! s = None).
  { unfold r2. cbn [publisherTrackCount set_cache].
    pose proof (vo_viewer _ _ _ _ _ _ V) as Hv.
    destruct (publisherTrackCount r !! p) as [c|] eqn:Ep; [|done].
    assert (p <> s) by (intros ->; congruence). cbn.
    destruct (u64 (c - 1) =? 0); [by rewrite lookup_delete_ne|by rewrite lookup_insert_ne]. }
  clearbody r2. destruct H2 as (Hr2 & Hix2 & Hg2 & Hn2 & Hs2 & Ht2 & Hc2).
  set (r3 := set_tracks _ _ _).
  destruct (remove_tracks m seq _ T1 f k p r3 Hf) as [T3 (i & Hi & Er)];
    [cbn; by rewrite Hr2|cbn; by rewrite Hix2|done|done|].
  change (rankedTracks (set_cache ix1 r)) with (rankedTracks r) in Er.
  assert (En : names (rankedTracks r) = ins i f (names (rankedTracks r3)))
    by (rewrite Er at 1; unfold names; by rewrite map_ins).
  rewrite (surjective_pairing (for_each _ _)). cbn [fst snd].
  change (topNGroups r3) with (topNGroups r2). rewrite Hg2.
  destruct (NoDup_ins_fresh i f (names (rankedTracks r3))) as [Hfresh Hnd]; [rewrite <-En; apply T|].
  destruct (view_ok_groups _ _ _ _ V) as (N & G & W).
  eapply view_ok_build; [exact V| | |..].
  - eapply tracks_ok_ext; [..|exact T3]; done.
  - cbn [rankedTracks set_topNGroups topNGroups].
    apply (groups_view_pass (tops (names (rankedTracks r)))
             (fun n x => x ∈ top n (names (rankedTracks r)) /\ x <> f)).
    + split; [done|]. split; [done|]. intros n g Hin Hm. destruct (W n g Hin Hm) as [-> HV].
      split; [done|]. intros x. by rewrite elem_of_difference, elem_of_singleton, HV.
    + intros n g Hn Hg. rewrite En in *.
      apply remove_group_spec; try done; [unfold names; by rewrite length_map|apply Hn].
  - cbn. by rewrite for_each_keys.
  - done.
  - done.
  - done.
Qed.

(** *** Sessions *)
Lemma view_ok_set_group m seq r D D' n g g' :
  view_ok s n0 m seq r D -> (n, g) ∈ topNGroups r ->
  group_ok (names (rankedTracks r)) n g' ->
  (member s g' -> n = n0 /\ matches D' n (names (rankedTracks r))) ->
  (forall n' g'', n' <> n -> (n', g'') ∈ topNGroups r -> member s g'' -> D' = D) ->
  view_ok s n0 m seq (set_topNGroups (assoc_set n g' (topNGroups r)) r) D'.
Proof using Type.
  intros V Hin Hg Hm Hoth. destruct (view_ok_groups _ _ _ _ V) as (N & G & W).
  eapply view_ok_build; [exact V| | | |done|done|apply V].
  - eapply tracks_ok_ext; [..|apply V]; done.
  - split; [by apply assoc_set_nodup|]. split.
    + intros n' g'' [[-> ->]|[Hne H]]%assoc_set_elem; [|by apply G|done].
      split; [by apply (G n g)|done].
    + intros n' g'' [[-> ->]|[Hne H]]%assoc_set_elem Hmem; [by apply Hm| |done].
      destruct (W n' g'' H Hmem) as [-> HV]. split; [done|].
      by rewrite (Hoth n0 g'' Hne H Hmem).
  - cbn. rewrite assoc_set_keys, bool_decide_true; [done|]. by eapply elem_of_keys.
Qed.

Lemma fold_states_lookup (l : list FullTrackName) st x :
  foldl (fun st f => <[f := Selected]> st) st l !! x =
  if bool_decide (x ∈ l) then Some Selected else (st : gmap FullTrackName TrackState) !! x.
Proof using Type.
  revert st. induction l as [|f l IH]; intros st; cbn.
  - by rewrite bool_decide_false by by intros ?%elem_of_nil.
  - rewrite IH. destruct (decide (x ∈ l)) as [H|H].
    + rewrite !bool_decide_true; [done|by right|done].
    + rewrite bool_decide_false by done. destruct (decide (f = x)) as [<- | Hne].
      * rewrite bool_decide_true by by left. apply lookup_insert_eq.
      * rewrite bool_decide_false by (rewrite elem_of_cons; naive_solver). by apply lookup_insert_ne.
Qed.

Lemma getOrCreate_step n m seq r D :
  u64_ok n -> view_ok s n0 m seq r D ->
  let res := getOrCreateTopNGroup cfg n r in
  view_ok s n0 m seq res.2 D /\ (n, res.1) ∈ topNGroups res.2 /\
  rankedTracks res.2 = rankedTracks r /\ publisherTrackCount res.2 = publisherTrackCount r.
Proof using Hmax.
  intros Hn V. destruct (view_ok_groups _ _ _ _ V) as (N & G & W). unfold getOrCreateTopNGroup.
  destruct (assoc n (topNGroups r)) as [g|] eqn:E; cbn [fst snd].
  - split; [done|]. split; [by apply assoc_elem|done].
  - apply assoc_None in E. set (g := TG n [] _ []).
    assert (Hg : group_ok (names (rankedTracks r)) n g).
    { split; try done; [| |apply NoDup_nil_2]; intros x; cbn [trackStates g];
        rewrite fold_states_lookup, top_scan_take, Z.sub_0_r by (destruct Hn; lia).
      - case_bool_decide; rewrite ?lookup_empty; naive_solver.
      - by case_bool_decide; rewrite ?lookup_empty. }
    set (r1 := set_topNGroups _ r).
    assert (Hkeys : map fst (topNGroups r1) = map fst (topNGroups r) ++ [n]).
    { cbn. by rewrite assoc_set_keys, bool_decide_false by done. }
    assert (Hthr : thresholds_ok (updateSelectionThreshold cfg r1)).
    { apply updateSelectionThreshold_ok; [done|]. rewrite Hkeys. intros n'.
      rewrite elem_of_app, list_elem_of_singleton. intros [H | ->]; [|done].
      apply list_elem_of_In, in_map_iff in H as ([n1 g1] & <- & H%list_elem_of_In). by apply (G n1 g1). }
    split; [|split; [by apply assoc_set_elem; [done|left]|done]].
    split.
    + eapply tracks_ok_ext; [..|apply V]; done.
    + by apply assoc_set_nodup.
    + intros n' g' [[-> ->]|[Hne H]]%assoc_set_elem; [done|by apply G|done].
    + done.
    + apply V.
    + intros n' g' [[-> ->]|[Hne H]]%assoc_set_elem Hm; [|by apply (W n' g')|done].
      by apply elem_of_nil in Hm.
Qed.

Lemma deliver_selected D fwd l :
  forall x, x ∈ deliver s D (map (fun f => OnSelected f s fwd) l) <-> x ∈ l \/ x ∈ D.
Proof using Type.
  revert D. induction l as [|f l IH]; intros D x; cbn [map].
  - change (deliver s D []) with D. rewrite elem_of_nil. tauto.
  - rewrite deliver_cons. cbn [deliver_event]. rewrite Z.eqb_refl, IH, elem_of_union, elem_of_singleton, elem_of_cons.
    tauto.
Qed.

Lemma add_step n s' fwd m seq r D :
  u64_ok n -> (s' = s -> n = n0) -> view_ok s n0 m seq r D ->
  view_ok s n0 m seq (addSessionToTopNGroup cfg n s' fwd r).1
    (deliver s (if decide (s = s') then ∅ else D) (addSessionToTopNGroup cfg n s' fwd r).2).
Proof using Hmax Hsel Hbatch Hev.
  intros Hn Hs V. destruct (getOrCreate_step n m seq r D Hn V) as (V1 & Hin & Er & Ec).
  unfold addSessionToTopNGroup. destruct (getOrCreateTopNGroup cfg n r) as [g r1]. cbn [fst snd] in *.
  destruct (view_ok_groups _ _ _ _ V1) as (N & G & W). destruct (G n g Hin) as [_ Hg].
  set (info := SI fwd None ∅).
  assert (Hset : forall i l, NoDup (map fst l) -> map fst l = map fst (sessions g) \/
             map fst l = map fst (assoc_set s' info (sessions g)) ->
             group_ok (names (rankedTracks r1)) n (set_sessions (assoc_set s' i l) g)).
  { intros i l Hnd _. destruct Hg. split; try done. by apply assoc_set_nodup. }
  assert (Hgn : NoDup (map fst (sessions g))) by apply Hg.
  destruct (decide (s = s')) as [<- | Hne].
  - specialize (Hs eq_refl) as ->. cbn [publisherTrackCount set_topNGroups].
    assert (isPublisher (publisherTrackCount r1) s = false) as ->.
    { unfold isPublisher. apply bool_decide_eq_false. rewrite (vo_viewer _ _ _ _ _ _ V1). by intros []. }
    rewrite Hsel. cbn [fst snd rankedTracks set_topNGroups].
    rewrite top_scan_take, Z.sub_0_r by (destruct Hn; lia).
    eapply view_ok_set_group; [exact V1|exact Hin|by apply Hset; [|left]| |].
    + intros _. split; [done|]. intros x. rewrite deliver_selected. unfold top. set_solver.
    + intros n' g'' Hne Hin' Hm. by destruct (W n' g'' Hin' Hm).
  - set (g1 := set_sessions (assoc_set s' info (sessions g)) g).
    set (r2 := set_topNGroups (assoc_set n g1 (topNGroups r1)) r1).
    assert (Hmem : forall i l, member s (set_sessions (assoc_set s' i l) g) -> s ∈ map fst l).
    { intros i l. unfold member. cbn. rewrite assoc_set_in_keys. naive_solver. }
    assert (V2 : view_ok s n0 m seq r2 D).
    { eapply view_ok_set_group; [exact V1|exact Hin|by apply Hset; [|left]| |done].
      intros Hm. apply (W n g Hin). by apply Hmem in Hm. }
    assert (Hin2 : (n, g1) ∈ topNGroups r2) by (apply assoc_set_elem; [done|by left]).
    destruct (isPublisher (publisherTrackCount r2) s').
    + pose proof (reconcile_quiet cfg (rankedTracks (updatePublisherExtendedThreshold cfg r2)) s info n s') as Hq.
      destruct (reconcilePublisherSelection _ _ _ _ _) as [info' ev]. cbn [fst snd] in *.
      rewrite Hq by done.
      assert (V3 : view_ok s n0 m seq (updatePublisherExtendedThreshold cfg r2) D).
      { eapply view_ok_build; [exact V2| |exact (view_ok_groups _ _ _ _ V2)|done..|apply V2].
        eapply tracks_ok_ext; [..|apply V2]; done. }
      eapply (view_ok_set_group _ _ (updatePublisherExtendedThreshold cfg r2) D D n g1); [exact V3|exact Hin2| | |done].
      * destruct Hg. split; try done. by do 2 apply assoc_set_nodup.
      * intros Hm. apply (W n g Hin). unfold member, g1 in Hm. cbn in Hm.
        rewrite !assoc_set_in_keys in Hm. unfold member. naive_solver.
    + cbn [fst snd]. rewrite Hsel. rewrite quiet_map; [done|].
      intros f D'. cbn. by destruct (Z.eqb_spec s s').
Qed.

Lemma view_ok_extended m seq r D :
  view_ok s n0 m seq r D -> view_ok s n0 m seq (updatePublisherExtendedThreshold cfg r) D.
Proof using Type.
  intros V. eapply view_ok_build; [exact V| |exact (view_ok_groups _ _ _ _ V)|done..|apply V].
  eapply tracks_ok_ext; [..|apply V]; done.
Qed.

Lemma removeSession_step n s' m seq r D :
  (s' = s -> n = n0) -> view_ok s n0 m seq r D ->
  view_ok s n0 m seq (removeSessionFromTopNGroup cfg n s' r) (if decide (s = s') then ∅ else D).
Proof using Hmax.
  intros Hs V. destruct (view_ok_groups _ _ _ _ V) as (N & G & W). unfold removeSessionFromTopNGroup.
  destruct (assoc n (topNGroups r)) as [g|] eqn:E.
  2: { destruct (decide (s = s')) as [<- | Hne]; [|done]. specialize (Hs eq_refl) as ->.
    apply assoc_None in E. destruct V. split; try done. intros n g Hin Hm.
    destruct (vo_view0 n g Hin Hm) as [-> _]. destruct E. by eapply elem_of_keys. }
  apply assoc_elem in E; [|done]. destruct (G n g E) as [Hn Hg].
  set (g1 := set_sessions (assoc_erase s' (sessions g)) g). set (D' := if decide (s = s') then ∅ else D).
  assert (V1 : view_ok s n0 m seq (set_topNGroups (assoc_set n g1 (topNGroups r)) r) D').
  { eapply view_ok_set_group; [exact V|exact E| | |].
    - destruct Hg. split; try done. by apply assoc_erase_nodup.
    - unfold member. cbn [sessions g1 set_sessions]. rewrite assoc_erase_keys. intros [Hne Hm]. unfold D'.
      rewrite decide_False by done. by apply (W n g).
    - intros n' g'' Hne Hin Hm. unfold D'. destruct (decide (s = s')) as [<- | _]; [|done].
      destruct (W n' g'' Hin Hm) as [-> _]. by specialize (Hs eq_refl). }
  set (r1 := set_topNGroups _ r) in *.
  set (r2 := match sessions g1 with [] => removeTopNGroup cfg n r1 | _ => r1 end).
  assert (V2 : view_ok s n0 m seq r2 D').
  { unfold r2. destruct (sessions g1); [|done]. destruct (view_ok_groups _ _ _ _ V1) as (N1 & G1 & W1).
    unfold removeTopNGroup. split.
    - eapply tracks_ok_ext; [..|apply V]; done.
    - by apply assoc_erase_nodup.
    - intros n' g' [_ H]%assoc_erase_elem. by apply G1.
    - apply updateSelectionThreshold_ok; [done|]. intros n'.
      cbn [set_topNGroups topNGroups]. rewrite assoc_erase_keys.
      intros [_ H]. apply list_elem_of_In, in_map_iff in H as ([n2 g2] & <- & H%list_elem_of_In). by apply (G1 n2 g2).
    - apply V1.
    - intros n' g' [_ H]%assoc_erase_elem. by apply W1. }
  destruct (isPublisher _ _); [by apply view_ok_extended|done].
Qed.

Lemma updateForward_step n s' fwd m seq r D :
  view_ok s n0 m seq r D -> view_ok s n0 m seq (updateSessionForward n s' fwd r) D.
Proof using Type.
  intros V. destruct (view_ok_groups _ _ _ _ V) as (N & G & W). unfold updateSessionForward.
  destruct (assoc n (topNGroups r)) as [g|] eqn:E; [|done].
  destruct (assoc s' (sessions g)) as [info|] eqn:E'; [|done].
  apply assoc_elem in E; [|done]. destruct (G n g E) as [Hn Hg].
  assert (Hk : forall i, map fst (assoc_set s' i (sessions g)) = map fst (sessions g)).
  { intros i. rewrite assoc_set_keys, bool_decide_true; [done|].
    apply assoc_elem, elem_of_keys in E'; [done|apply Hg]. }
  eapply view_ok_set_group; [exact V|exact E| | |done].
  - destruct Hg. split; try done. by apply assoc_set_nodup.
  - unfold member. cbn. rewrite Hk. by apply (W n g).
Qed.
End steps.
