(* ===== verification/RankingPublishers.v ===== *)
(** Publisher-subscribers: sessions that own a ranked track and subscribe to a
    top-N group.  Their selection excludes their own tracks and is kept per
    session ([SessionInfo.selectedTracks]).  As long as no track ends, every
    operation of relay/PropertyRanking.cpp leaves it equal to the first N tracks
    of the others, for any deselected queue and idle setting. *)

From Stdlib Require Import Sorting.Sorted.
From S2P Require Import Prelude Assoc Location Ranking RankingInv RankingSpec RankingViewers RankingRun RankingTheorems.

Section filters.
Context {A : Type} (P : A -> Prop) `{forall x, Decision (P x)}.
Lemma list_filter_none (l : list A) : (forall x, x ∈ l -> ~ P x) -> filter P l = [].
Proof.
  intros Hl. induction l as [|x l IH]; [done|]. rewrite filter_cons_False by (apply Hl; by left).
  apply IH. intros y Hy. apply Hl. by right.
Qed.
Lemma list_filter_all (l : list A) : (forall x, x ∈ l -> P x) -> filter P l = l.
Proof.
  intros Hl. induction l as [|x l IH]; [done|]. rewrite filter_cons_True by (apply Hl; by left).
  f_equal. apply IH. intros y Hy. apply Hl. by right.
Qed.
End filters.

(** ** The personal selection *)
Definition nonself (s : Session) (l : Ranked) : Ranked :=
  filter (fun p => publisherRaw p.2 <> s) l.
Definition selfCount (s : Session) (l : Ranked) : Z :=
  Z.of_nat (length (filter (fun p => publisherRaw p.2 = s) l)).
(** The first [n] tracks that [s] does not publish. *)
Definition personal (n : Z) (s : Session) (l : Ranked) : list FullTrackName :=
  take (Z.to_nat n) (names (nonself s l)).

Lemma nonself_app s l1 l2 : nonself s (l1 ++ l2) = nonself s l1 ++ nonself s l2.
Proof. apply filter_app. Qed.
Lemma selfCount_app s l1 l2 : selfCount s (l1 ++ l2) = selfCount s l1 + selfCount s l2.
Proof. unfold selfCount. rewrite filter_app, length_app. lia. Qed.
Lemma nonself_length s l : Z.of_nat (length (nonself s l)) = Z.of_nat (length l) - selfCount s l.
Proof.
  unfold nonself, selfCount. induction l as [|p l IH]; [done|]. rewrite !filter_cons.
  destruct (decide (publisherRaw p.2 = s)).
  - rewrite decide_False by tauto. rewrite ?decide_True by done. cbn [length]. lia.
  - rewrite decide_True by done. cbn [length]. lia.
Qed.
Lemma selfCount_nonneg s l : 0 <= selfCount s l.
Proof. unfold selfCount. lia. Qed.

(** An entry beyond the first [n] plus own-track count positions does not
    matter to the personal selection, and neither does an own track. *)
Lemma personal_ins_beyond n s i q B :
  0 <= n -> (i <= length B)%nat -> n + selfCount s (ins i q B) <= Z.of_nat i ->
  personal n s (ins i q B) = personal n s B.
Proof.
  intros Hn Hi Hle. unfold personal, ins in *.
  rewrite <-(take_drop i B) at 3. rewrite !nonself_app. unfold names. rewrite !map_app.
  assert (Hlen : (Z.to_nat n <= length (map (fun p : RankKey * RankedEntry => ftn p.2) (nonself s (take i B))))%nat).
  { rewrite length_map. pose proof (nonself_length s (take i B)) as H.
    rewrite length_take, Nat.min_l in H by done. rewrite selfCount_app in Hle.
    pose proof (selfCount_nonneg s (q :: drop i B)). lia. }
  by rewrite !take_app_le by exact Hlen.
Qed.
Lemma nonself_ins_self s i k f B : nonself s (ins i (k, RE f s) B) = nonself s B.
Proof.
  unfold ins. rewrite <-(take_drop i B) at 3. rewrite !nonself_app. f_equal.
  unfold nonself at 1. rewrite filter_cons, decide_False; [done|]. cbn. tauto.
Qed.
Lemma selfCount_ins s i q B :
  selfCount s (ins i q B) = (if decide (publisherRaw q.2 = s) then 1 else 0) + selfCount s B.
Proof.
  unfold selfCount. rewrite (ins_perm i), filter_cons. case_decide; cbn [length]; lia.
Qed.

(** ** The waterline selects the personal top *)
Lemma nonself_cons s p l :
  nonself s (p :: l) = if publisherRaw p.2 =? s then nonself s l else p :: nonself s l.
Proof.
  unfold nonself. rewrite filter_cons. destruct (Z.eqb_spec (publisherRaw p.2) s).
  - by rewrite decide_False by tauto.
  - by rewrite decide_True.
Qed.

Lemma waterline_scan_spec l s n c :
  0 <= c < n -> waterline_scan l s n c = keys (nonself s l) !! Z.to_nat (n - c - 1).
Proof.
  revert c. induction l as [|[k e] l IH]; intros c Hc; [done|].
  cbn [waterline_scan]. rewrite nonself_cons. cbn [snd].
  destruct (publisherRaw e =? s); cbn [negb]; [by apply IH|].
  destruct (Z.eqb_spec (c + 1) n) as [H|H].
  - by replace (Z.to_nat (n - c - 1)) with 0%nat by lia.
  - rewrite IH by lia. by replace (Z.to_nat (n - c - 1)) with (S (Z.to_nat (n - (c + 1) - 1))) by lia.
Qed.

Lemma nonself_sorted s l : ranked_sorted l -> ranked_sorted (nonself s l).
Proof.
  unfold ranked_sorted. induction l as [|[k e] l IH]; [done|]. cbn [keys map].
  intros [Hs Hf]%StronglySorted_inv. rewrite nonself_cons. cbn [snd].
  destruct (publisherRaw e =? s); [by apply IH|]. cbn [keys map]. constructor; [by apply IH|].
  rewrite Forall_forall in *. intros x Hx. apply Hf.
  apply list_elem_of_In, in_map_iff in Hx as (p & <- & Hp%list_elem_of_In).
  apply list_elem_of_filter in Hp as [_ Hp]. apply list_elem_of_In, in_map_iff. exists p.
  by rewrite <-list_elem_of_In.
Qed.

Lemma filter_above_take l i w :
  ranked_sorted l -> keys l !! i = Some w ->
  filter (fun p => rk_geb p.1 w) l = take (S i) l.
Proof.
  unfold ranked_sorted. revert i. induction l as [|[k e] l IH]; intros i Hs Hi; [done|].
  cbn [keys map] in *. apply StronglySorted_inv in Hs as [Hs Hf]. rewrite Forall_forall in Hf.
  rewrite filter_cons. destruct i as [|i]; cbn in Hi.
  - injection Hi as ->. rewrite decide_True by (cbn; apply Is_true_true, rk_geb_spec; by right).
    cbn [take]. f_equal. apply list_filter_none. intros [k' e'] Hin Hge%Is_true_true%rk_geb_spec.
    assert (Hgt : rk_gt w k') by by apply Hf; apply (elem_of_keys k' e').
    cbn in Hge. destruct Hge as [Hge | ->]; [|by apply rk_gt_irrefl in Hgt].
    by apply (rk_gt_irrefl w), (rk_gt_trans w k' w).
  - rewrite decide_True; [cbn [take]; f_equal; by apply IH|]. cbn. apply Is_true_true, rk_geb_spec.
    left. apply Hf. by eapply list_elem_of_lookup_2.
Qed.

Definition above (wl : option RankKey) (k : RankKey) : bool :=
  match wl with None => true | Some w => rk_geb k w end.

Lemma nowSelected_personal ranked s n :
  ranked_sorted ranked -> 1 <= n ->
  nowSelected ranked (computeWaterlineKey ranked s n) s = personal n s ranked.
Proof.
  intros Hs Hn. unfold computeWaterlineKey, nowSelected, personal.
  rewrite waterline_scan_spec by lia.
  assert (E : forall wl, filter (fun p : RankKey * RankedEntry => negb (publisherRaw p.2 =? s) &&
      match wl with None => true | Some w => rk_geb p.1 w end) ranked =
    filter (fun p : RankKey * RankedEntry => above wl p.1) (nonself s ranked)).
  { intros wl. unfold nonself. rewrite list_filter_filter. apply list_filter_iff. intros p.
    rewrite andb_True. unfold above. destruct (Z.eqb_spec (publisherRaw p.2) s); cbn; tauto. }
  rewrite E. clear E. replace (n - 0 - 1) with (n - 1) by lia.
  destruct (keys (nonself s ranked) !! Z.to_nat (n - 1)) as [w|] eqn:Ew.
  - cbn [above]. rewrite (filter_above_take _ _ w (nonself_sorted s _ Hs) Ew). unfold names.
    rewrite firstn_map. by replace (S (Z.to_nat (n - 1))) with (Z.to_nat n) by lia.
  - rewrite list_filter_all by done. apply lookup_ge_None in Ew. unfold keys in Ew.
    rewrite length_map in Ew. rewrite take_ge; [done|]. unfold names. rewrite length_map. lia.
Qed.

(** ** The groups *)
Section groups.
Context (cfg : RankingConfig) (ranked : Ranked) (counts : gmap Session Z).
Context (Hsorted : ranked_sorted ranked).

(** [info] holds the personal selection of [s]. *)
Definition info_ok (n : Z) (s : Session) (info : SessionInfo) : Prop :=
  selectedTracks info = list_to_set (personal n s ranked).
Definition sess_ok (n : Z) (ss : list (Session * SessionInfo)) : Prop :=
  forall s info, (s, info) ∈ ss -> is_Some (counts !! s) -> info_ok n s info.
(** Same N, same sessions. *)
Definition same_shape (g g' : TopNGroup) : Prop :=
  maxSelected g' = maxSelected g /\ map fst (sessions g') = map fst (sessions g).
Definition pub_ok (n : Z) (g : TopNGroup) : Prop := maxSelected g = n /\ sess_ok n (sessions g).
(** [res] is the group [g] after an operation that keeps the selections right. *)
Definition keeps (n : Z) (g : TopNGroup) (res : TopNGroup * list Event) : Prop :=
  pub_ok n res.1 /\ same_shape g res.1.

Lemma same_shape_trans g1 g2 g3 : same_shape g1 g2 -> same_shape g2 g3 -> same_shape g1 g3.
Proof using Type. intros [A B] [C D]. split; congruence. Qed.

Lemma reconcile_info_ok n s info :
  1 <= n -> info_ok n s (reconcilePublisherSelection cfg ranked info n s).1.
Proof using Hsorted. intros Hn. unfold info_ok. cbn. by rewrite nowSelected_personal. Qed.

Lemma for_each_elem {K A} (F : K -> A -> A * list Event) l k a' :
  (k, a') ∈ (for_each F l).1 -> exists a, (k, a) ∈ l /\ a' = (F k a).1.
Proof using Type.
  induction l as [|[k0 a0] l IH]; [by intros ?%elem_of_nil|]. rewrite for_each_cons. cbn [fst].
  intros [[= -> ->]|H]%elem_of_cons.
  - exists a0. by split; [left|].
  - destruct (IH H) as (a & Hin & ->). exists a. by split; [right|].
Qed.

Lemma isPublisher_spec s : isPublisher counts s = true <-> is_Some (counts !! s).
Proof using Type. unfold isPublisher. apply bool_decide_eq_true. Qed.

(** A loop over the sessions that reconciles, or finds right, every publisher. *)
Lemma reconcile_loop_ok n g (F : Session -> SessionInfo -> SessionInfo * list Event) :
  maxSelected g = n ->
  (forall s info, (s, info) ∈ sessions g -> is_Some (counts !! s) -> info_ok n s (F s info).1) ->
  keeps n g (set_sessions (for_each F (sessions g)).1 g, (for_each F (sessions g)).2).
Proof using Type.
  intros Hg HF. split; [split; [done|]|split; [done|apply for_each_keys]].
  intros s info' Hin Hp. cbn in Hin. apply for_each_elem in Hin as (info & Hin & ->). by apply HF.
Qed.

Lemma notify_keeps n f g g0 :
  1 <= n -> maxSelected g = n -> same_shape g0 g ->
  keeps n g0 (notifyTrackSelected cfg ranked counts f g).
Proof using Hsorted.
  intros Hn Hg Hsh. unfold notifyTrackSelected.
  rewrite (surjective_pairing (for_each _ _)).
  match goal with |- context [for_each ?F _] => pose proof (reconcile_loop_ok n g F Hg) as [H1 H2] end.
  { intros s info Hin Hp%isPublisher_spec. rewrite Hp, Hg. by apply reconcile_info_ok. }
  split; [exact H1|]. by eapply same_shape_trans.
Qed.

Lemma demote_sessions f g : sessions (demoteTrack cfg f g).1 = sessions g /\
  maxSelected (demoteTrack cfg f g).1 = maxSelected g.
Proof using Type.
  unfold demoteTrack, trimDeselectedQueue. cbn [deselectedQueue].
  destruct (trim_loop _ _ _ _) as [[q st] ev]. done.
Qed.

Lemma demote_keeps n f g : pub_ok n g -> keeps n g (demoteTrack cfg f g).
Proof using Type.
  intros [H1 H2]. destruct (demote_sessions f g) as [E1 E2].
  split; [split; [by rewrite E2|by rewrite E1]|by split; [|rewrite E1]].
Qed.
Lemma id_keeps n g : pub_ok n g -> keeps n g (g, []).
Proof using Type. done. Qed.
Lemma demoteAtRank_keeps n k g : pub_ok n g -> keeps n g (demoteTrackAtRank cfg ranked k g).
Proof using Type.
  intros H. unfold demoteTrackAtRank. destruct (at_rank _ _ _); [|done].
  destruct (isSelected _ _); [by apply demote_keeps|done].
Qed.
Lemma promoteAtRank_keeps n k g :
  1 <= n -> pub_ok n g -> keeps n g (promoteTrackAtRank cfg ranked counts k g).
Proof using Hsorted.
  intros Hn H. unfold promoteTrackAtRank. destruct (at_rank _ _ _); [|done].
  destruct (isSelected _ _); [done|]. apply notify_keeps; [done|apply H|done].
Qed.
Lemma promote_scan_keeps n f l g :
  1 <= n -> pub_ok n g -> keeps n g (promote_scan cfg ranked counts l f g).
Proof using Hsorted.
  intros Hn H. induction l as [|[k e] l IH]; cbn; [done|]. repeat case_match; try done.
  apply notify_keeps; [done|apply H|done].
Qed.

Lemma keeps_seq n g g1 e1 g2 e2 e3 :
  keeps n g (g1, e1) -> keeps n g1 (g2, e2) -> keeps n g (g2, e3).
Proof using Type. intros [_ S1] [P2 S2]. split; [done|]. by eapply same_shape_trans. Qed.

Lemma sweep_keeps n la now sel g :
  1 <= n -> pub_ok n g -> keeps n g (sweep_tracks cfg ranked counts la now sel g).
Proof using Hsorted.
  intros Hn. revert g. induction sel as [|f sel IH]; intros g H; cbn; [done|].
  destruct (isIdle _ _ _); [|by apply IH].
  pose proof (demote_keeps n f g H) as K1. destruct (demoteTrack cfg f g) as [g1 e1].
  pose proof (promote_scan_keeps n f ranked g1 Hn (proj1 K1)) as K2. unfold promoteNextAvailableTrack.
  destruct (promote_scan _ _ _ _ _ _) as [g2 e2].
  pose proof (IH g2 (proj1 K2)) as K3. destruct (sweep_tracks _ _ _ _ _ _ _) as [g3 e3].
  eapply keeps_seq; [exact K1|]. by eapply keeps_seq.
  Unshelve. done.
Qed.

(** A registration reconciles every publisher-subscriber of the group. *)
Lemma register_group_keeps n f rank g :
  1 <= n -> maxSelected g = n -> keeps n g (register_group cfg ranked counts f rank n g).
Proof using Hsorted.
  intros Hn Hg. unfold register_group. destruct (rank <? n).
  - pose proof (notify_keeps n f (set_trackStates (<[f := Selected]> (trackStates g)) g) g Hn Hg) as K1.
    destruct (notifyTrackSelected _ _ _ _ _) as [g1 e1]. specialize (K1 (conj eq_refl eq_refl)).
    pose proof (demoteAtRank_keeps n n g1 (proj1 K1)) as K2.
    destruct (demoteTrackAtRank _ _ _ _) as [g2 e2]. by eapply keeps_seq.
  - rewrite (surjective_pairing (for_each _ _)). apply reconcile_loop_ok; [done|].
    intros s info Hin Hp%isPublisher_spec. rewrite Hp. by apply reconcile_info_ok.
Qed.

Lemma recompute_group_keeps n f p i j g :
  1 <= n -> maxSelected g = n ->
  (forall s info, Some s = p -> (s, info) ∈ sessions g -> is_Some (counts !! s) -> info_ok n s info) ->
  keeps n g (recompute_group cfg ranked counts f p i j n g).
Proof using Hsorted.
  intros Hn Hg Hp. unfold recompute_group.
  match goal with |- context [let '(_, _) := ?X in _] => set (c := X) end.
  assert (Hc : same_shape g c.1 /\ sessions c.1 = sessions g).
  { unfold c. destruct (negb _); [|done]. destruct (j <? n); [done|].
    destruct (demote_sessions f g) as [E1 E2]. by split; [split; [|rewrite E1]|]. }
  clearbody c. destruct c as [g1 e1]. cbn [fst] in Hc. destruct Hc as [S1 Es].
  rewrite (surjective_pairing (for_each _ _)).
  match goal with |- context [for_each ?F _] => pose proof (reconcile_loop_ok n g1 F) as K1 end.
  destruct K1 as [P2 S2]; [by rewrite (proj1 S1)| |].
  { intros s info Hin Hpub. pose proof Hpub as Hb%isPublisher_spec. rewrite Hb.
    case_bool_decide as E; [by apply reconcile_info_ok|]. apply Hp; [exact E|by rewrite <-Es|done]. }
  cbn [fst] in P2, S2. match goal with |- context [set_sessions ?l g1] => set (g2 := set_sessions l g1) in * end.
  clearbody g2. pose proof (same_shape_trans _ _ _ S1 S2) as S12.
  match goal with |- context [let '(_, _) := ?X in _] => set (c := X) end.
  assert (K3 : keeps n g2 c).
  { unfold c. destruct (negb _ && _); [by apply demoteAtRank_keeps|done]. }
  clearbody c. destruct c as [g3 e3]. destruct K3 as [P3 S3]. cbn [fst] in P3, S3.
  match goal with |- context [let '(_, _) := ?X in _] => set (c := X) end.
  assert (K4 : keeps n g3 c).
  { unfold c. destruct (_ && negb _); [by apply promoteAtRank_keeps|done]. }
  clearbody c. destruct c as [g4 e4]. destruct K4 as [P4 S4]. split; [done|].
  cbn [fst] in *. eapply same_shape_trans; [|exact S4]. by eapply same_shape_trans.
Qed.

Lemma reconcile_session_shape p n g : same_shape g (reconcile_session_group cfg ranked p n g).1.
Proof using Type.
  unfold reconcile_session_group. destruct (assoc p (sessions g)) as [info|] eqn:E; [|done].
  destruct (reconcilePublisherSelection _ _ _ _ _) as [info2 ev]. split; [done|]. cbn.
  rewrite assoc_set_keys, bool_decide_true; [done|]. apply dec_stable. intros H%assoc_None. congruence.
Qed.
End groups.

(** ** The window of the fast path *)
Definition small (z : Z) : Prop := 0 <= z < 2 ^ 62.

Definition extends (counts : gmap Session Z) (gs : list (Z * TopNGroup)) (t : Z) : Prop :=
  forall n g s c, (n, g) ∈ gs -> s ∈ map fst (sessions g) -> counts !! s = Some c -> n + c <= t.

Lemma extended_fold_ge counts n l a :
  a <= foldl (extended_session counts n) a l /\
  forall s c, s ∈ l -> counts !! s = Some c -> u64 (n + c) <= foldl (extended_session counts n) a l.
Proof.
  revert a. induction l as [|x l IH]; intros a; cbn.
  - split; [lia|]. by intros s c ?%elem_of_nil.
  - destruct (IH (extended_session counts n a x)) as [H1 H2].
    assert (Ha : a <= extended_session counts n a x) by (unfold extended_session; case_match; lia).
    split; [lia|]. intros s c [-> | H]%elem_of_cons Hc; [|by eapply H2].
    unfold extended_session in H1 at 1. rewrite Hc in H1. lia.
Qed.
Lemma maxExtended_ge counts gs a :
  a <= maxExtended counts gs a /\
  forall n g s c, (n, g) ∈ gs -> s ∈ map fst (sessions g) -> counts !! s = Some c ->
    u64 (n + c) <= maxExtended counts gs a.
Proof.
  unfold maxExtended. revert a. induction gs as [|[n g] gs IH]; intros a; cbn.
  - split; [lia|]. by intros n g s c ?%elem_of_nil.
  - destruct (extended_fold_ge counts n (map fst (sessions g)) a) as [Ha Hs].
    destruct (IH (foldl (extended_session counts n) a (map fst (sessions g)))) as [H1 H2].
    split; [lia|]. intros n' g' s c [[= -> ->]|H]%elem_of_cons Hin Hc; [|by eapply H2].
    specialize (Hs s c Hin Hc). lia.
Qed.

Section bounds.
Context (counts : gmap Session Z) (Hcounts : forall s c, counts !! s = Some c -> small c).

Lemma extended_fold_le n l a b :
  a <= b -> small n -> 2 ^ 63 <= b -> foldl (extended_session counts n) a l <= b.
Proof using Hcounts.
  intros Ha Hn Hb. revert a Ha. induction l as [|x l IH]; intros a Ha; cbn; [done|]. apply IH.
  unfold extended_session. destruct (counts !! x) as [c|] eqn:E; [|done].
  pose proof (Hcounts x c E). unfold small in *. rewrite u64_small; [lia|].
  unfold u64_ok, u64_modulus. lia.
Qed.
Lemma maxExtended_le gs a b :
  a <= b -> 2 ^ 63 <= b -> (forall n g, (n, g) ∈ gs -> small n) -> maxExtended counts gs a <= b.
Proof using Hcounts.
  unfold maxExtended. revert a. induction gs as [|[n g] gs IH]; intros a Ha Hb Hn; cbn; [done|].
  apply IH; [|done|].
  - apply extended_fold_le; [done| |done]. apply (Hn n g). by left.
  - intros n' g' H. apply (Hn n' g'). by right.
Qed.

Lemma updateExtended_extends cfg r :
  publisherTrackCount r = counts -> small (maxDeselected cfg) ->
  (forall n g, (n, g) ∈ topNGroups r -> small n) ->
  extends counts (topNGroups r) (publisherExtendedThreshold (updatePublisherExtendedThreshold cfg r)).
Proof using Hcounts.
  intros Ec Hd Hn n g s c Hin Hs Hc. cbn. rewrite Ec.
  destruct (maxExtended_ge counts (topNGroups r) 0) as [H0 Hge].
  pose proof (maxExtended_le (topNGroups r) 0 (2 ^ 63) ltac:(lia) ltac:(lia) Hn).
  specialize (Hge n g s c Hin Hs Hc). pose proof (Hcounts s c Hc). pose proof (Hn n g Hin).
  unfold small in *. rewrite !u64_small in *; unfold u64_ok, u64_modulus; lia.
Qed.

(** When the fast path is taken, both ranks are beyond the window of every
    publisher-subscriber. *)
Lemma crossesThreshold_beyond r i j n g s c :
  publisherTrackCount r = counts -> extends counts (topNGroups r) (publisherExtendedThreshold r) ->
  small n -> (n, g) ∈ topNGroups r -> s ∈ map fst (sessions g) -> counts !! s = Some c ->
  crossesThreshold r i j = false -> n + c <= i /\ n + c <= j.
Proof using Hcounts.
  intros Ec He Hn Hin Hs Hc. pose proof (He n g s c Hin Hs Hc) as Hle. unfold crossesThreshold.
  destruct (topNGroups r) as [|p0 gs] eqn:Eg; [by apply elem_of_nil in Hin|].
  rewrite <-Eg in *. rewrite Ec. destruct (_ && _) eqn:E1; [lia|].
  destruct (negb _); [done|]. destruct (match upper_bound _ _ with Some t => _ | None => _ end); [done|].
  rewrite bool_decide_false by (intros H; rewrite H, lookup_empty in Hc; done). cbn [negb].
  destruct (maxExtended_ge counts (topNGroups r) (foldl Z.max 0 (map fst (topNGroups r)))) as [_ Hge].
  specialize (Hge n g s c Hin Hs Hc). pose proof (Hcounts s c Hc).
  unfold small in *. rewrite u64_small in Hge by (unfold u64_ok, u64_modulus; lia). lia.
Qed.
End bounds.

(** ** Runs without ended tracks *)
Record pinv (m : Tracks) (seq : Z) (r : PropertyRanking) : Prop := {
  pi_tracks : tracks_ok m seq r;
  pi_nodup : NoDup (map fst (topNGroups r));
  pi_groups n g : (n, g) ∈ topNGroups r ->
    1 <= n < 2 ^ 62 /\ pub_ok (rankedTracks r) (publisherTrackCount r) n g /\
    NoDup (map fst (sessions g));
  pi_counts s : default 0 (publisherTrackCount r !! s) = selfCount s (rankedTracks r);
  pi_positive s c : publisherTrackCount r !! s = Some c -> 1 <= c;
  pi_length : Z.of_nat (length (rankedTracks r)) <= seq;
  pi_extends : extends (publisherTrackCount r) (topNGroups r) (publisherExtendedThreshold r);
}.

Lemma selfCount_le s l : selfCount s l <= Z.of_nat (length l).
Proof. unfold selfCount. pose proof (length_filter (fun p : RankKey * RankedEntry => publisherRaw p.2 = s) l). lia. Qed.

Lemma pi_small m seq r s c :
  pinv m seq r -> seq < 2 ^ 62 -> publisherTrackCount r !! s = Some c -> small c.
Proof.
  intros P Hseq Hc. pose proof (pi_counts _ _ _ P s) as H. rewrite Hc in H. cbn in H.
  pose proof (selfCount_le s (rankedTracks r)). pose proof (pi_length _ _ _ P).
  pose proof (pi_positive _ _ _ P s c Hc). unfold small. lia.
Qed.

Section steps.
Context (cfg : RankingConfig) (Hdes : small (maxDeselected cfg)).

(** The state after a pass over the groups. *)
Lemma pinv_pass m m' seq seq' r r1 F gs :
  pinv m seq r -> tracks_ok m' seq' r1 -> map fst gs = map fst (topNGroups r) ->
  (forall n g, (n, g) ∈ gs -> exists g0, (n, g0) ∈ topNGroups r /\ same_shape g0 g) ->
  (forall n g0 g, (n, g0) ∈ topNGroups r -> same_shape g0 g -> (n, g) ∈ gs ->
     keeps (rankedTracks r1) (publisherTrackCount r1) n g (F n g)) ->
  (forall s, default 0 (publisherTrackCount r1 !! s) = selfCount s (rankedTracks r1)) ->
  (forall s c, publisherTrackCount r1 !! s = Some c -> 1 <= c) ->
  Z.of_nat (length (rankedTracks r1)) <= seq' ->
  extends (publisherTrackCount r1) (topNGroups r) (publisherExtendedThreshold r1) ->
  pinv m' seq' (set_topNGroups (for_each F gs).1 r1).
Proof using Type.
  intros P T Hk Hgs HF Hc Hp Hl He. split; try done.
  - eapply tracks_ok_ext; [..|exact T]; done.
  - cbn. rewrite for_each_keys, Hk. apply P.
  - cbn. intros n g' Hin. apply for_each_elem in Hin as (g & Hin & ->).
    destruct (Hgs n g Hin) as (g0 & Hin0 & Hsh). destruct (pi_groups _ _ _ P n g0 Hin0) as (Hn & [_ _] & Hnd).
    destruct (HF n g0 g Hin0 Hsh Hin) as [H1 [_ H2]]. split; [done|]. split; [done|].
    rewrite H2. by rewrite (proj2 Hsh).
  - cbn. intros n g' s c Hin Hs Hsc. apply for_each_elem in Hin as (g & Hin & ->).
    destruct (Hgs n g Hin) as (g0 & Hin0 & Hsh).
    destruct (HF n g0 g Hin0 Hsh Hin) as [_ [_ H2]]. apply (He n g0 s c Hin0); [|done].
    by rewrite <-(proj2 Hsh), <-H2.
Qed.

Lemma pinv_register f initial p m seq r :
  seq < 2 ^ 62 - 1 -> 0 <= seq -> pinv m seq r ->
  pinv (spec_register f initial p seq m) (seq + if decide (m !! f = None) then 1 else 0)
    (registerTrack cfg f initial p r).1.
Proof using Hdes.
  intros Hseq H0 P. pose proof (pi_tracks _ _ _ P) as T. unfold registerTrack.
  destruct (trackIndexByName r !! f) as [i|] eqn:Ei.
  { assert (Hf : m !! f <> None).
    { destruct (tk_index_Some T f i Ei) as [q Hq]. by rewrite Hq. }
    rewrite decide_False, Z.add_0_r by done. unfold spec_register. destruct (m !! f); done. }
  apply (tk_index_None T) in Ei. rewrite decide_True by done.
  set (key := RK (default 0 initial) (nextSeq r)).
  set (counts' := <[p := u64 (default 0 (publisherTrackCount r !! p) + 1)]> (publisherTrackCount r)).
  set (r3 := set_tracks _ _ _).
  destruct (register_tracks m seq r T f initial p r3 Ei H0) as [T3 (i & Hi & Er3)];
    [done|done|cbn; rewrite (tk_seq _ _ _ T); apply u64_small; unfold u64_ok, u64_modulus; lia|done|].
  destruct (getCachedRank_spec T3 f) as (ix & Eg & T4 & _ & _).
  rewrite (surjective_pairing (getCachedRank f r3)), Eg.
  set (r4 := set_cache ix r3) in *.
  assert (Hlen : Z.of_nat (length (rankedTracks r4)) <= seq + 1).
  { change (rankedTracks r4) with (rankedTracks r3). rewrite Er3, ins_length.
    pose proof (pi_length _ _ _ P). lia. }
  assert (Hold : 0 <= default 0 (publisherTrackCount r !! p) <= seq).
  { rewrite (pi_counts _ _ _ P p). pose proof (selfCount_le p (rankedTracks r)).
    pose proof (selfCount_nonneg p (rankedTracks r)). pose proof (pi_length _ _ _ P). lia. }
  assert (Hu : u64 (default 0 (publisherTrackCount r !! p) + 1) = default 0 (publisherTrackCount r !! p) + 1).
  { apply u64_small. unfold u64_ok, u64_modulus. lia. }
  assert (Hcnt : forall s, default 0 (counts' !! s) = selfCount s (rankedTracks r4)).
  { intros s. change (rankedTracks r4) with (rankedTracks r3). rewrite Er3, selfCount_ins.
    unfold counts'. rewrite Hu. cbn [snd publisherRaw].
    destruct (decide (p = s)) as [<- | Hne].
    - rewrite lookup_insert_eq. cbn [default from_option id]. rewrite (pi_counts _ _ _ P p). lia.
    - rewrite lookup_insert_ne by done. apply P. }
  assert (Hpos : forall s c, counts' !! s = Some c -> 1 <= c).
  { intros s c. unfold counts'. rewrite Hu. intros [[<- <-]|[_ H]]%lookup_insert_Some; [lia|].
    by apply (pi_positive _ _ _ P s). }
  assert (Hsm : forall s c, counts' !! s = Some c -> small c).
  { intros s c Hc. pose proof (Hpos s c Hc). specialize (Hcnt s). rewrite Hc in Hcnt.
    cbn [default from_option id] in Hcnt. pose proof (selfCount_le s (rankedTracks r4)). unfold small. lia. }
  rewrite (surjective_pairing (for_each (reconcile_session_group _ _ _) _)).
  rewrite (surjective_pairing (for_each (register_group _ _ _ _ _) _)). cbn [fst snd].
  eapply pinv_pass; [exact P|exact T4| | | |exact Hcnt|exact Hpos|done|].
  - by rewrite for_each_keys.
  - intros n g Hin. apply for_each_elem in Hin as (g0 & Hin & ->). exists g0.
    split; [done|apply reconcile_session_shape].
  - intros n g0 g Hin0 Hsh _. destruct (pi_groups _ _ _ P n g0 Hin0) as (Hn & [Hm _] & _).
    apply register_group_keeps; [apply T4|lia|by rewrite (proj1 Hsh)].
  - change (topNGroups r) with (topNGroups (set_counts counts' (u64 (nextSeq r + 1)) r)).
    apply (updateExtended_extends counts' Hsm cfg); [done|done|].
    intros n g Hin. destruct (pi_groups _ _ _ P n g Hin) as (Hn & _). unfold small. lia.
Qed.

Lemma pinv_sweep now la m seq r : pinv m seq r -> pinv m seq (sweepIdle cfg now la r).1.
Proof using Type.
  intros P. unfold sweepIdle. destruct (_ || _); [done|]. destruct (_ && _); [done|].
  rewrite (surjective_pairing (for_each _ _)). cbn [fst].
  eapply (pinv_pass m m seq seq r (set_lastSweep now r)); [exact P| |done| |..]; try apply P.
  - eapply tracks_ok_ext; [..|apply P]; done.
  - intros n g Hin. by exists g.
  - intros n g0 g Hin0 _ Hin. destruct (pi_groups _ _ _ P n g Hin) as (Hn & Hg & _).
    apply sweep_keeps; [apply P|lia|done].
Qed.

(** Moving an own track, or one beyond the window, changes no personal
    selection. *)
Lemma personal_move n s i j k k' f p B :
  1 <= n -> (i <= length B)%nat -> (j <= length B)%nat ->
  p = s \/ (n + selfCount s (ins i (k, RE f p) B) <= Z.of_nat i /\
           n + selfCount s (ins i (k, RE f p) B) <= Z.of_nat j) ->
  personal n s (ins j (k', RE f p) B) = personal n s (ins i (k, RE f p) B).
Proof using Type.
  intros Hn Hi Hj [-> | [H1 H2]].
  - unfold personal. by rewrite !nonself_ins_self.
  - rewrite !personal_ins_beyond; [done|lia|done|done|lia|done|].
    by rewrite selfCount_ins in *; cbn [snd publisherRaw] in *.
Qed.

Lemma pinv_update f v now la m seq r :
  seq < 2 ^ 62 -> pinv m seq r ->
  pinv (spec_update f v m) seq (updateSortValue cfg f v now la r).1.
Proof using Type.
  intros Hseq P. pose proof (pi_tracks _ _ _ P) as T. unfold updateSortValue.
  destruct (trackIndexByName r !! f) as [entry|] eqn:Ei.
  2: { apply (tk_index_None T) in Ei. unfold spec_update. by rewrite Ei. }
  destruct (tk_index_Some T f entry Ei) as [p Hf]. set (k := rankIter entry) in *.
  destruct (Z.eqb_spec (value k) v) as [Hv|Hv].
  { unfold spec_update. rewrite Hf. destruct k as [kv ks]. cbn in Hv. subst kv. cbn.
    by rewrite insert_id. }
  destruct (getCachedRank_spec T f) as (ix1 & E1 & T1 & Hrank1 & _).
  rewrite (surjective_pairing (getCachedRank f r)), E1.
  change (rankedTracks (set_cache ix1 r)) with (rankedTracks r).
  rewrite (tk_find T f k p Hf). set (r2 := set_tracks _ _ _).
  destruct (update_tracks m seq _ T1 f v k p _ r2 Hf eq_refl eq_refl eq_refl eq_refl)
    as [T2 (i & j & B & Hi & Hj & EB & EB')].
  change (rankedTracks (set_cache ix1 r)) with (rankedTracks r) in EB.
  destruct (getCachedRank_spec T2 f) as (ix2 & E2 & T3 & Hrank2 & _).
  rewrite (surjective_pairing (getCachedRank f r2)), E2.
  assert (Hlen : length (names B) = length B) by (unfold names; by rewrite length_map).
  rewrite (Hrank1 i) by (rewrite EB; unfold names; rewrite map_ins; apply ins_lookup; unfold names in Hlen; by rewrite Hlen).
  rewrite (Hrank2 j) by (rewrite EB'; unfold names; rewrite map_ins; apply ins_lookup; unfold names in Hlen; by rewrite Hlen).
  set (r3 := set_cache ix2 r2) in *.
  assert (Hself : forall s, selfCount s (rankedTracks r3) = selfCount s (rankedTracks r)).
  { intros s. change (rankedTracks r3) with (rankedTracks r2). rewrite EB, EB', !selfCount_ins. done. }
  assert (Hcnt : forall s, default 0 (publisherTrackCount r !! s) = selfCount s (rankedTracks r3)).
  { intros s. rewrite Hself. apply P. }
  assert (Hl : Z.of_nat (length (rankedTracks r3)) <= seq).
  { change (rankedTracks r3) with (rankedTracks r2). rewrite EB', ins_length.
    pose proof (pi_length _ _ _ P) as H. rewrite EB, ins_length in H. done. }
  destruct (crossesThreshold r3 (Z.of_nat i) (Z.of_nat j)) eqn:Ec; cbn [negb].
  - unfold recomputeTopNGroups. change (topNGroups r3) with (topNGroups r).
    rewrite (surjective_pairing (for_each _ _)).
    rewrite (surjective_pairing (sweepIdle _ _ _ _)). cbn [fst snd]. apply pinv_sweep.
    eapply pinv_pass; [exact P|exact T3|done| | |exact Hcnt|apply P|done|apply P].
    { intros n g Hin. by exists g. }
    intros n g0 g Hin0 _ Hin. destruct (pi_groups _ _ _ P n g Hin) as (Hn & [Hm Hs] & _).
    apply recompute_group_keeps; [apply T3|lia|done|].
    intros s info Hp Hsin Hpub. unfold info_ok. rewrite (Hs s info Hsin Hpub).
    assert (s = p) as ->.
    { assert (Hix : trackIndexByName r2 !! f = Some (RI (RK v (arrivalSeq k))
         match trackIndexByName (set_cache ix1 r) !! f with Some i => cachedRank i | None => UINT64_MAX end))
        by apply lookup_insert_eq.
      assert (Hm2 : spec_update f v m !! f = Some (RK v (arrivalSeq k), p))
        by (unfold spec_update; rewrite Hf; apply lookup_insert_eq).
      pose proof (tk_index _ _ _ T3 f) as Hk. rewrite Hm2 in Hk. cbn [fmap option_fmap option_map fst] in Hk.
      destruct (trackIndexByName r3 !! f) as [i3|] eqn:E3; [|done]. injection Hk as Hk.
      cbn [mbind option_bind] in Hp. rewrite Hk, (tk_find T3 f _ p Hm2) in Hp. by injection Hp. }
    f_equal. change (rankedTracks r3) with (rankedTracks r2). rewrite EB, EB'. symmetry.
    apply personal_move; [lia|done|done|by left].
  - cbn [fst]. split; try done; try apply P.
    change (rankedTracks r3) with (rankedTracks r2) in *.
    intros n g Hin. destruct (pi_groups _ _ _ P n g Hin) as (Hn & [Hm Hs] & Hnd).
    split; [done|]. split; [|done]. split; [done|]. intros s info Hsin Hpub. unfold info_ok.
    rewrite (Hs s info Hsin Hpub). destruct Hpub as [c Hc]. f_equal. change (rankedTracks r3) with (rankedTracks r2).
    rewrite EB, EB'. symmetry. apply personal_move; [lia|done|done|]. right.
    rewrite <-EB, <-(pi_counts _ _ _ P s). change (publisherTrackCount r3) with (publisherTrackCount r) in Hc.
    rewrite Hc. cbn [default from_option id].
    apply (crossesThreshold_beyond (publisherTrackCount r)
             (fun s c => pi_small m seq r s c P Hseq) r3 (Z.of_nat i) (Z.of_nat j) n g s c);
      try done; [apply P|unfold small; lia|by eapply elem_of_keys].
Qed.

(** Replacing one group. *)
Lemma pinv_set_group m seq r r' n g g' :
  pinv m seq r -> (n, g) ∈ topNGroups r ->
  r' = set_topNGroups (assoc_set n g' (topNGroups r)) r ->
  pub_ok (rankedTracks r) (publisherTrackCount r) n g' -> NoDup (map fst (sessions g')) ->
  (forall s c, s ∈ map fst (sessions g') -> publisherTrackCount r !! s = Some c ->
     n + c <= publisherExtendedThreshold r) ->
  pinv m seq r'.
Proof using Type.
  intros P Hin -> Hg Hnd He. split; try apply P.
  - eapply tracks_ok_ext; [..|apply P]; done.
  - apply assoc_set_nodup, P.
  - intros n' g'' [[-> ->]|[Hne H]]%assoc_set_elem; [|by apply P|apply P].
    split; [by apply (pi_groups _ _ _ P n g)|done].
  - intros n' g'' s c [[-> ->]|[Hne H]]%assoc_set_elem Hs Hc; [by eapply He| |apply P].
    by eapply (pi_extends _ _ _ P).
Qed.

Lemma pinv_getOrCreate n m seq r :
  1 <= n < 2 ^ 62 -> pinv m seq r ->
  let res := getOrCreateTopNGroup cfg n r in
  pinv m seq res.2 /\ (n, res.1) ∈ topNGroups res.2 /\
  rankedTracks res.2 = rankedTracks r /\ publisherTrackCount res.2 = publisherTrackCount r.
Proof using Type.
  intros Hn P. unfold getOrCreateTopNGroup.
  destruct (assoc n (topNGroups r)) as [g|] eqn:E; cbn [fst snd].
  - split; [done|]. split; [by apply assoc_elem; [apply P|]|done].
  - apply assoc_None in E. set (g := TG n [] _ []).
    split; [|split; [by apply assoc_set_elem; [apply P|left]|done]].
    split; try apply P.
    + eapply tracks_ok_ext; [..|apply P]; done.
    + apply assoc_set_nodup, P.
    + intros n' g' [[-> ->]|[Hne H]]%assoc_set_elem; [|by apply P|apply P].
      split; [done|]. split; [|apply NoDup_nil_2]. split; [done|]. by intros s info ?%elem_of_nil.
    + intros n' g' s c [[-> ->]|[Hne H]]%assoc_set_elem Hs Hc; [by apply elem_of_nil in Hs| |apply P].
      by eapply (pi_extends _ _ _ P).
Qed.

Lemma pinv_extended m seq r :
  seq < 2 ^ 62 ->
  pinv m seq r -> pinv m seq (updatePublisherExtendedThreshold cfg r).
Proof using Hdes.
  intros Hseq P. split; try apply P.
  - eapply tracks_ok_ext; [..|apply P]; done.
  - apply (updateExtended_extends (publisherTrackCount r) (fun s c => pi_small m seq r s c P Hseq) cfg r).
    + done.
    + done.
    + intros n g Hin. destruct (pi_groups _ _ _ P n g Hin) as (Hn & _). unfold small. lia.
Qed.

Lemma sess_ok_set ranked counts n s info l :
  NoDup (map fst l) -> sess_ok ranked counts n l -> (is_Some (counts !! s) -> info_ok ranked n s info) ->
  sess_ok ranked counts n (assoc_set s info l).
Proof using Type.
  intros Hnd Hl Hi s' info' [[-> ->]|[Hne H]]%assoc_set_elem Hp; [by apply Hi|by apply Hl|done].
Qed.

Lemma pinv_add n s fwd m seq r :
  1 <= n < 2 ^ 62 -> seq < 2 ^ 62 -> pinv m seq r ->
  pinv m seq (addSessionToTopNGroup cfg n s fwd r).1.
Proof using Hdes.
  intros Hn Hseq P. destruct (pinv_getOrCreate n m seq r Hn P) as (P1 & Hin & Er & Ec).
  unfold addSessionToTopNGroup. destruct (getOrCreateTopNGroup cfg n r) as [g r1]. cbn [fst snd] in *.
  destruct (pi_groups _ _ _ P1 n g Hin) as (_ & [Hm Hs] & Hnd). set (info := SI fwd None ∅).
  destruct (isPublisher (publisherTrackCount (set_topNGroups _ r1)) s) eqn:Ep.
  - pose proof (reconcile_info_ok cfg (rankedTracks r1) (tk_sorted _ _ _ (pi_tracks _ _ _ P1)) n s info ltac:(lia)) as Hi.
    change (rankedTracks (updatePublisherExtendedThreshold cfg _)) with (rankedTracks r1).
    destruct (reconcilePublisherSelection cfg (rankedTracks r1) info n s) as [info' ev]. cbn [fst] in *.
    set (g2 := set_sessions (assoc_set s info' _) _).
    assert (Hnd2 : NoDup (map fst (sessions g2))) by by do 2 apply assoc_set_nodup.
    assert (Hg2 : pub_ok (rankedTracks r1) (publisherTrackCount r1) n g2).
    { split; [done|]. intros s' info2 H Hp. cbn in H. apply assoc_set_elem in H; [|by apply assoc_set_nodup].
      destruct H as [[-> ->]|[Hne H]]; [done|]. apply assoc_set_elem in H as [[-> _]|[_ H]]; [done| |done].
      by apply Hs. }
    apply isPublisher_spec in Ep. cbn [publisherTrackCount set_topNGroups] in Ep.
    assert (Hsm : forall s c, publisherTrackCount r1 !! s = Some c -> small c)
      by (intros s' c'; by apply (pi_small m seq)).
    match goal with |- pinv _ _ (set_topNGroups (assoc_set n g2 (topNGroups ?x)) ?y) => set (r3 := x) end.
    assert (Hgs : forall n' g', (n', g') ∈ topNGroups r3 -> small n').
    { intros n' g' [[-> _]|[_ H]]%assoc_set_elem; [unfold small; lia| |apply P1].
      destruct (pi_groups _ _ _ P1 n' g' H) as (Hn' & _). unfold small. lia. }
    pose proof (updateExtended_extends (publisherTrackCount r1) Hsm cfg
      (set_topNGroups (assoc_set n (set_sessions (assoc_set s info (sessions g)) g) (topNGroups r1)) r1)
      eq_refl Hdes Hgs) as He.
    split; try apply P1.
    + eapply tracks_ok_ext; [..|apply P1]; done.
    + by do 2 apply assoc_set_nodup; apply P1.
    + intros n' g' H. cbn in H. apply assoc_set_elem in H; [|by apply assoc_set_nodup, P1].
      destruct H as [[-> ->]|[Hne H]]; [done|]. apply assoc_set_elem in H as [[-> _]|[_ H]]; [done| |apply P1].
      by apply P1.
    + intros n' g' s' c H Hs' Hc. cbn in H. apply assoc_set_elem in H; [|by apply assoc_set_nodup, P1].
      destruct H as [[-> ->]|[Hne H]]; [|by eapply (He n' g')].
      eapply (He n (set_sessions (assoc_set s info (sessions g)) g)); [by apply assoc_set_elem; [apply P1|left]| |done].
      cbn in Hs' |- *. rewrite !assoc_set_in_keys in *. naive_solver.
  - eapply pinv_set_group; [exact P1|exact Hin|done| | |].
    + split; [done|]. apply sess_ok_set; [done|done|].
      intros Hp%isPublisher_spec. cbn [publisherTrackCount set_topNGroups] in Ep. congruence.
    + by apply assoc_set_nodup.
    + intros s' c Hs' Hc. cbn in Hs'. apply assoc_set_in_keys in Hs' as [-> | Hs'].
      * cbn [publisherTrackCount set_topNGroups] in Ep. unfold isPublisher in Ep.
        apply bool_decide_eq_false in Ep. destruct Ep. by exists c.
      * by eapply (pi_extends _ _ _ P1).
Qed.

Lemma pinv_removeSession n s m seq r :
  seq < 2 ^ 62 -> pinv m seq r -> pinv m seq (removeSessionFromTopNGroup cfg n s r).
Proof using Hdes.
  intros Hseq P. unfold removeSessionFromTopNGroup.
  destruct (assoc n (topNGroups r)) as [g|] eqn:E; [|done]. apply assoc_elem in E; [|apply P].
  destruct (pi_groups _ _ _ P n g E) as (_ & [Hm Hs] & Hnd).
  set (g1 := set_sessions (assoc_erase s (sessions g)) g).
  assert (P1 : pinv m seq (set_topNGroups (assoc_set n g1 (topNGroups r)) r)).
  { eapply pinv_set_group; [exact P|exact E|done| |by apply assoc_erase_nodup|].
    - split; [done|]. intros s' info [_ H]%assoc_erase_elem. by apply Hs.
    - intros s' c [_ H]%assoc_erase_keys Hc. by eapply (pi_extends _ _ _ P). }
  set (r1 := set_topNGroups _ r) in *.
  assert (P2 : pinv m seq (match sessions g1 with [] => removeTopNGroup cfg n r1 | _ => r1 end)).
  { destruct (sessions g1); [|done]. split; try apply P1.
    - eapply tracks_ok_ext; [..|apply P1]; done.
    - apply assoc_erase_nodup, P1.
    - intros n' g' [_ H]%assoc_erase_elem. by apply P1.
    - intros n' g' s' c [_ H]%assoc_erase_elem. by apply P1. }
  destruct (isPublisher _ _); [by apply pinv_extended|done].
Qed.

Lemma pinv_forward n s fwd m seq r : pinv m seq r -> pinv m seq (updateSessionForward n s fwd r).
Proof using Type.
  intros P. unfold updateSessionForward.
  destruct (assoc n (topNGroups r)) as [g|] eqn:E; [|done].
  destruct (assoc s (sessions g)) as [info|] eqn:E'; [|done].
  apply assoc_elem in E; [|apply P]. destruct (pi_groups _ _ _ P n g E) as (_ & [Hm Hs] & Hnd).
  apply assoc_elem in E'; [|done].
  eapply pinv_set_group; [exact P|exact E|done| |by apply assoc_set_nodup|].
  - split; [done|]. apply sess_ok_set; [done|done|]. intros Hp. by apply (Hs s info).
  - intros s' c Hs' Hc. cbn in Hs'. apply assoc_set_in_keys in Hs' as [-> | Hs'].
    + apply (pi_extends _ _ _ P n g s c E); [by eapply elem_of_keys|done].
    + by eapply (pi_extends _ _ _ P).
Qed.
End steps.

Definition run_ranking (cfg : RankingConfig) (ops : list RankOp) (r : PropertyRanking)
  : PropertyRanking :=
  foldl (fun r op => (rank_step cfg op r).1) r ops.

(** No track ends, and every N is positive and below 2^62. *)
Definition publisher_op (op : RankOp) : bool :=
  match op with
  | RemoveTrack _ => false
  | AddSession n _ _ => (1 <=? n) && (n <? 2 ^ 62)
  | _ => true
  end.

Lemma pinv_empty : pinv ∅ 0 emptyRanking.
Proof.
  split; cbn; try done; try by intros ?? ?%elem_of_nil.
  - apply tracks_ok_empty.
  - apply NoDup_nil_2.
Qed.

Lemma run_pinv cfg ops m seq r :
  small (maxDeselected cfg) -> forallb publisher_op ops = true ->
  0 <= seq -> seq + Z.of_nat (length ops) < 2 ^ 62 - 1 -> pinv m seq r ->
  exists seq', pinv (spec_tracks ops m seq) seq' (run_ranking cfg ops r).
Proof.
  intros Hd. unfold run_ranking. revert m seq r. induction ops as [|op ops IH]; intros m seq r Hops H0 Hlen P; [by exists seq|].
  cbn [forallb length foldl] in *. apply andb_true_iff in Hops as [Hop Hops].
  destruct op as [f i p|f v now la|f|n s' fwd|n s' fwd|n s'|now la]; cbn [rank_step fst spec_tracks]; cbn in Hop.
  - apply IH; [done|case_decide; lia..|]. apply pinv_register; [done|lia|lia|done].
  - apply IH; [done|lia..|]. apply pinv_update; [lia|done].
  - done.
  - apply IH; [done|lia..|]. apply pinv_add; [done|lia|lia|done].
  - apply IH; [done|lia..|]. by apply pinv_forward.
  - apply IH; [done|lia..|]. apply pinv_removeSession; [done|lia|done].
  - apply IH; [done|lia..|]. by apply pinv_sweep.
Qed.

(** The tracks the session does not publish itself. *)
Definition others (s : Session) (m : Tracks) : Tracks := filter (fun q => q.2.2 <> s) m.

Lemma list_ok_nonself s m l : list_ok m l -> list_ok (others s m) (nonself s l).
Proof.
  intros (Hs & Hn & He). split; [by apply nonself_sorted|]. split.
  - unfold names, nonself in *. clear -Hn. induction l as [|p l IH]; [done|]. cbn [map] in Hn.
    apply NoDup_cons in Hn as [Hp Hn]. rewrite filter_cons. case_decide; [|by apply IH].
    cbn [map]. constructor; [|by apply IH]. intros H'. apply Hp.
    apply list_elem_of_In, in_map_iff in H' as (q & Hq & Hin%list_elem_of_In).
    apply list_elem_of_filter in Hin as [_ Hin]. apply list_elem_of_In, in_map_iff. exists q.
    by rewrite <-list_elem_of_In.
  - intros k e. unfold nonself, others. rewrite list_elem_of_filter, He, map_lookup_filter_Some. cbn. tauto.
Qed.

(** (C32) Self-exclusion.  In every run in which no track ends and every N is at
    least 1, with any deselected queue and any idle sweeps, the selection kept for a
    session that publishes a ranked track and subscribes with N is exactly the N best of the
    tracks it does not publish, although the code recomputes it only for the
    groups, sessions and rank changes its fast paths let through. *)
Theorem publisher_selection_personal (cfg : RankingConfig) (s : Session) (n : Z) (ops : list RankOp)
    (g : TopNGroup) (info : SessionInfo) :
  small (maxDeselected cfg) -> forallb publisher_op ops = true ->
  Z.of_nat (length ops) < 2 ^ 62 - 1 ->
  assoc n (topNGroups (run_ranking cfg ops emptyRanking)) = Some g ->
  assoc s (sessions g) = Some info ->
  (exists f k, spec_tracks ops ∅ 0 !! f = Some (k, s)) ->
  forall f, f ∈ selectedTracks info <-> in_top n (others s (spec_tracks ops ∅ 0)) f.
Proof.
  intros Hd Hops Hlen Hg Hi Hpub f.
  destruct (run_pinv cfg ops ∅ 0 emptyRanking Hd Hops) as [seq' P]; [lia|lia|apply pinv_empty|].
  set (r := run_ranking cfg ops emptyRanking) in *. set (m := spec_tracks ops ∅ 0) in *.
  apply assoc_elem in Hg; [|apply P]. destruct (pi_groups _ _ _ P n g Hg) as (Hn & [_ Hs] & Hnd).
  apply assoc_elem in Hi; [|done].
  pose proof (tracks_list_ok _ _ _ (pi_tracks _ _ _ P)) as Hl.
  assert (Hp : is_Some (publisherTrackCount r !! s)).
  { destruct Hpub as (f' & k & Hf'). destruct (publisherTrackCount r !! s) as [c|] eqn:E; [done|].
    pose proof (pi_counts _ _ _ P s) as H. rewrite E in H. cbn [default from_option id] in H.
    assert (Hin : (k, RE f' s) ∈ filter (fun p : RankKey * RankedEntry => publisherRaw p.2 = s) (rankedTracks r)).
    { apply list_elem_of_filter. split; [done|]. by apply Hl. }
    unfold selfCount in H. destruct (filter _ _); [by apply elem_of_nil in Hin|]. cbn in H. lia. }
  rewrite (Hs s info Hi Hp). rewrite elem_of_list_to_set. unfold personal. symmetry.
  apply in_top_take; [by apply list_ok_nonself|lia].
Qed.

(** ** Examples *)

(** Decide a closed statement by evaluation. *)
Ltac run_example := refine (bool_decide_unpack _ _); vm_compute; exact I.

Definition track (x : string) : FullTrackName := FTN ["conf"%string] x.

(** The relay's settings are no deselected queue and 10 seconds of idleness
    (MoqxRelay.h); [quietConfig] turns the idle sweep off. *)
Definition quietConfig : RankingConfig := RC 0 0 0 true true true true.
Definition relayConfig : RankingConfig := RC 0 10000 0 true true true true.

(** A viewer joins with N = 2; tracks come, overtake each other and end. *)
Definition viewerRun : list RankOp :=
  [ RegisterTrack (track "a") (Some 50) 1; RegisterTrack (track "b") (Some 40) 1;
    AddSession 2 9 true; RegisterTrack (track "c") (Some 60) 2;
    UpdateSortValue (track "b") 70 0 (fun _ => 0); RegisterTrack (track "d") None 2;
    RemoveTrack (track "c"); UpdateSortValue (track "d") 45 0 (fun _ => 0);
    RemoveTrack (track "a") ].

Lemma viewer_delivered_top_n_witness :
  track "d" ∈ (run_view quietConfig 9 viewerRun emptyRanking ∅).2 <->
  in_top 2 (spec_tracks viewerRun ∅ 0) (track "d").
Proof. apply (viewer_delivered_top_n quietConfig 9 2 viewerRun); vm_compute; reflexivity. Defined.

(** The two tracks left are the ones delivered. *)
Example viewerRun_delivers :
  (run_view quietConfig 9 viewerRun emptyRanking ∅).2 = {[track "b"; track "d"]}.
Proof. run_example. Qed.

(** A publisher of the best track subscribes with N = 2. *)
Definition publisherRun : list RankOp :=
  [ RegisterTrack (track "a") (Some 50) 1; RegisterTrack (track "b") (Some 30) 2;
    RegisterTrack (track "c") (Some 20) 2; AddSession 2 1 true;
    RegisterTrack (track "d") (Some 90) 2 ].

Definition groupOf (n : Z) (r : PropertyRanking) : TopNGroup :=
  default (TG n [] ∅ []) (assoc n (topNGroups r)).
Definition infoOf (n : Z) (s : Session) (r : PropertyRanking) : SessionInfo :=
  default (SI false None ∅) (assoc s (sessions (groupOf n r))).

Lemma publisher_selection_personal_witness :
  track "b" ∈ selectedTracks (infoOf 2 1 (run_ranking quietConfig publisherRun emptyRanking)) <->
  in_top 2 (others 1 (spec_tracks publisherRun ∅ 0)) (track "b").
Proof.
  apply (publisher_selection_personal quietConfig 1 2 publisherRun
           (groupOf 2 (run_ranking quietConfig publisherRun emptyRanking)));
    [vm_compute; split; discriminate || reflexivity|vm_compute; reflexivity..|].
  exists (track "a"), (RK 50 0). vm_compute. reflexivity.
Defined.

(** ** Departures *)

(** Trimming the deselected queue of a group tells every session of it that
    the track is evicted, also a publisher-subscriber whose personal top-N still
    holds the track: in this run the session is delivered only [d], while its
    selection is [d] and [b], and no later callback repairs [b]. *)
Theorem publisher_evicted_from_selected :
  selectedTracks (infoOf 2 1 (run_ranking quietConfig publisherRun emptyRanking)) =
    {[track "b"; track "d"]} /\
  (run_view quietConfig 1 publisherRun emptyRanking ∅).2 = {[track "d"]}.
Proof. run_example. Qed.

(** The publisher of [a] subscribes with N = 1 and is delivered [b]; [b] ends and
    is published again. *)
Definition republishRun : list RankOp :=
  [ RegisterTrack (track "a") (Some 50) 1; RegisterTrack (track "b") (Some 30) 2;
    RegisterTrack (track "c") (Some 20) 2; AddSession 1 1 true;
    RemoveTrack (track "b"); RegisterTrack (track "b") (Some 30) 2 ].

(** The end of a track outside the shared top-N reconciles no
    publisher-subscriber: the ended track stays in its selection and the next
    one is not selected; when the track is published again, no callback is made
    for it, so the session is delivered nothing although two tracks of others are
    ranked. *)
Theorem publisher_starved_after_end :
  selectedTracks (infoOf 1 1 (run_ranking quietConfig republishRun emptyRanking)) =
    {[track "b"]} /\
  (run_view quietConfig 1 republishRun emptyRanking ∅).2 = ∅ /\
  size (others 1 (spec_tracks republishRun ∅ 0)) = 2%nat.
Proof. run_example. Qed.

(** Four tracks, a viewer with N = 2; [b] falls idle and is replaced by [c], then
    [d] rises to the top. *)
Definition idleClock (f : FullTrackName) : Z :=
  if bool_decide (f = track "b") then 1 else 100000000000.
Definition idleRun : list RankOp :=
  [ RegisterTrack (track "a") (Some 50) 1; RegisterTrack (track "b") (Some 40) 1;
    RegisterTrack (track "c") (Some 30) 1; RegisterTrack (track "d") (Some 20) 1;
    AddSession 2 9 true; SweepIdle 100000000000 idleClock;
    UpdateSortValue (track "d") 90 100000000001 idleClock ].

(** With the relay's own settings an idle sweep breaks the bound N: the
    promotion of a risen track demotes the track at rank N only if that one is
    selected, and after a sweep another track holds the place.  The viewer is
    delivered three tracks with N = 2. *)
Theorem idle_sweep_exceeds_n :
  (run_view relayConfig 9 idleRun emptyRanking ∅).2 = {[track "a"; track "c"; track "d"]} /\
  subscribed 9 2 (run_view relayConfig 9 idleRun emptyRanking ∅).1 = true.
Proof. run_example. Qed.

(** A publisher-subscriber with N = 0 is selected every track of the others:
    the waterline scan never counts up to zero and reads as "fewer than N". *)
Theorem publisher_zero_n_selects_all :
  (run_view quietConfig 1
     [ RegisterTrack (track "a") (Some 50) 1; RegisterTrack (track "b") (Some 40) 2;
       RegisterTrack (track "c") (Some 30) 2; AddSession 0 1 true ] emptyRanking ∅).2 =
  {[track "b"; track "c"]}.
Proof. run_example. Qed.
