(* ===== verification/ServiceMatcher.v ===== *)
(** The choice of a service for a session by its authority and path
    (ServiceMatcher.h, ServiceMatcher.cpp), the match entries of the
    configuration (config/Config.h) and their validation
    (config/ConfigResolver.cpp).

    [std::sort] is not stable: which of two rules with the same prefix comes first
    is not fixed.  It is a parameter of the model, with what the standard says of
    it as hypotheses ([sorts_by_length]); a theorem holds for every such sort. *)

From Stdlib Require Import Sorting.Sorted String Ascii.
From S2P Require Import Prelude.

(** ** Strings *)
(** [s.find('.')] and [s.substr(dot)] in one: the part of [s] from its first
    dot on. *)
Fixpoint fromFirstDot (s : string) : option string :=
  match s with
  | EmptyString => None
  | String c r => if Ascii.eqb c "."%char then Some s else fromFirstDot r
  end.
(** [s.substr(1)]; it throws on the empty string. *)
Definition substr1 (s : string) : option string :=
  match s with EmptyString => None | String _ r => Some r end.

(** ** Match entries *)
Inductive AuthorityMatcher :=
  | ExactAuthority (v : string)
  | WildcardAuthority (pattern : string)
  | AnyAuthority.
Inductive PathMatcher :=
  | ExactPath (v : string)
  | PrefixPath (v : string).
Record MatchEntry := ME { authority : AuthorityMatcher; path : PathMatcher }.

(** The services with their [match] entries, in the order the hash map yields
    them. *)
Abbreviation Services := (list (string * list MatchEntry)).

Record PrefixRule := PXR { prefix : string; serviceName : string }.

Record PathRuleSet := PRS { exactPaths : gmap string string; prefixPaths : list PrefixRule }.
Definition emptyRuleSet : PathRuleSet := PRS ∅ [].

Record ServiceMatcher := SM {
  exactAuthorityRules : gmap string PathRuleSet;
  wildcardAuthorityRules : gmap string PathRuleSet;
  anyAuthorityRules : PathRuleSet;
}.

(** [PathRuleSet::addRule]; [try_emplace] keeps the first service of a path. *)
Definition addRule (p : PathMatcher) (name : string) (rs : PathRuleSet) : PathRuleSet :=
  match p with
  | ExactPath v =>
      PRS (match exactPaths rs !! v with
           | Some _ => exactPaths rs
           | None => <[v := name]> (exactPaths rs)
           end) (prefixPaths rs)
  | PrefixPath v => PRS (exactPaths rs) (prefixPaths rs ++ [PXR v name])
  end.

(** The linear scan of [PathRuleSet::match]. *)
Fixpoint scanPrefixes (l : list PrefixRule) (p : string) : option string :=
  match l with
  | [] => None
  | rule :: r => if String.prefix (prefix rule) p then Some (serviceName rule) else scanPrefixes r p
  end.
Definition matchPath (rs : PathRuleSet) (p : string) : option string :=
  match exactPaths rs !! p with
  | Some name => Some name
  | None => scanPrefixes (prefixPaths rs) p
  end.

Section matcher.
Context (std_sort : list PrefixRule -> list PrefixRule).

Definition finalize (rs : PathRuleSet) : PathRuleSet :=
  PRS (exactPaths rs) (std_sort (prefixPaths rs)).

(** The [std::visit] of the constructor: one entry. *)
Definition addEntry (name : string) (e : MatchEntry) (m : ServiceMatcher) : option ServiceMatcher :=
  let add k (t : gmap string PathRuleSet) :=
    <[k := addRule (path e) name (default emptyRuleSet (t !! k))]> t in
  match authority e with
  | ExactAuthority v =>
      Some (SM (add v (exactAuthorityRules m)) (wildcardAuthorityRules m) (anyAuthorityRules m))
  | WildcardAuthority pattern =>
      suffix ← substr1 pattern;
      Some (SM (exactAuthorityRules m) (add suffix (wildcardAuthorityRules m)) (anyAuthorityRules m))
  | AnyAuthority =>
      Some (SM (exactAuthorityRules m) (wildcardAuthorityRules m)
               (addRule (path e) name (anyAuthorityRules m)))
  end.

Fixpoint addEntries (l : list (string * MatchEntry)) (m : ServiceMatcher) : option ServiceMatcher :=
  match l with
  | [] => Some m
  | (name, e) :: r => m' ← addEntry name e m; addEntries r m'
  end.

(** The two nested loops of the constructor visit these. *)
Definition entriesOf (services : Services) : list (string * MatchEntry) :=
  services ≫= fun '(name, entries) => map (pair name) entries.

(** The constructor; [None] when it throws. *)
Definition newServiceMatcher (services : Services) : option ServiceMatcher :=
  m ← addEntries (entriesOf services) (SM ∅ ∅ emptyRuleSet);
  Some (SM (finalize <$> exactAuthorityRules m) (finalize <$> wildcardAuthorityRules m)
           (finalize (anyAuthorityRules m))).
End matcher.

Definition effectivePath (p : string) : string := match p with EmptyString => "/"%string | _ => p end.

(** [std::optional::has_value] fallbacks: the first that matches. *)
Definition orElse {A} (o : option A) (k : option A) : option A :=
  match o with Some _ => o | None => k end.

Definition match_ (m : ServiceMatcher) (auth p : string) : option string :=
  let p' := effectivePath p in
  orElse (rs ← exactAuthorityRules m !! auth; matchPath rs p')
    (orElse (suffix ← fromFirstDot auth; rs ← wildcardAuthorityRules m !! suffix; matchPath rs p')
            (matchPath (anyAuthorityRules m) p')).

(** [allExactPaths]: the exact paths of all rule sets, each once. *)
Definition collect (rs : PathRuleSet) (acc : list string) : list string :=
  foldl (fun acc p => if bool_decide (p ∈ acc) then acc else acc ++ [p]) acc
        (map fst (map_to_list (exactPaths rs))).
Definition allExactPaths (m : ServiceMatcher) : list string :=
  let acc := foldl (fun acc q => collect q.2 acc) [] (map_to_list (exactAuthorityRules m)) in
  let acc := foldl (fun acc q => collect q.2 acc) acc (map_to_list (wildcardAuthorityRules m)) in
  collect (anyAuthorityRules m) acc.

(** ** Validation and resolution of the entries (ConfigResolver.cpp) *)
(** The parsed form of the configuration file has the same alternatives, plus
    the flag of [any]. *)
Inductive ParsedAuthority :=
  | ParsedExactAuthority (exact : string)
  | ParsedWildcardAuthority (wildcard : string)
  | ParsedAnyAuthority (any : bool).

Fixpoint hasStar (s : string) : bool :=
  match s with EmptyString => false | String c r => Ascii.eqb c "*"%char || hasStar r end.

(** [validateAuthority]: whether it reports no error. *)
Definition authorityValid (a : ParsedAuthority) : bool :=
  match a with
  | ParsedExactAuthority v => negb (bool_decide (v = EmptyString))
  | ParsedWildcardAuthority pat =>
      match pat with
      | String c1 (String c2 (String c3 r)) =>
          Ascii.eqb c1 "*"%char && Ascii.eqb c2 "."%char && negb (hasStar (String c3 r))
      | _ => false
      end
  | ParsedAnyAuthority b => b
  end.
(** [validatePath]: whether it reports no error. *)
Definition pathValid (p : PathMatcher) : bool :=
  match (match p with ExactPath v | PrefixPath v => v end) with
  | EmptyString => false
  | String c _ => Ascii.eqb c "/"%char
  end.
Definition resolveAuthority (a : ParsedAuthority) : AuthorityMatcher :=
  match a with
  | ParsedExactAuthority v => ExactAuthority v
  | ParsedWildcardAuthority v => WildcardAuthority v
  | ParsedAnyAuthority _ => AnyAuthority
  end.
Definition resolveMatchEntry (a : ParsedAuthority) (p : PathMatcher) : MatchEntry :=
  ME (resolveAuthority a) p.
