(* ===== verification/ServiceTheorems.v ===== *)
(** Service matching picks the most specific entry (ServiceMatcher.cpp). *)

From Stdlib Require Import Sorting.Sorted String Ascii.
From S2P Require Import Prelude ServiceMatcher.

(** ** How specific an entry is for an authority and a path *)
Definition pathScore (pm : PathMatcher) (p : string) : option nat :=
  match pm with
  | ExactPath v => if bool_decide (v = p) then Some (S (String.length p)) else None
  | PrefixPath v => if String.prefix v p then Some (String.length v) else None
  end.
Definition authorityScore (am : AuthorityMatcher) (auth : string) : option nat :=
  match am with
  | ExactAuthority v => if bool_decide (v = auth) then Some 3%nat else None
  | WildcardAuthority pat =>
      suffix ← substr1 pat;
      if bool_decide (fromFirstDot auth = Some suffix) then Some 2%nat else None
  | AnyAuthority => Some 1%nat
  end.
(** [None]: the entry does not match.  The authority counts first. *)
Definition score (e : MatchEntry) (auth p : string) : option (nat * nat) :=
  a ← authorityScore (authority e) auth;
  b ← pathScore (path e) (effectivePath p);
  Some (a, b).
Definition score_le (x y : nat * nat) : Prop := (x.1 < y.1 \/ (x.1 = y.1 /\ x.2 <= y.2))%nat.

(** What the standard says of [std::sort] with this comparison. *)
Class sorts_by_length (std_sort : list PrefixRule -> list PrefixRule) : Prop := {
  sort_perm l : std_sort l ≡ₚ l;
  sort_sorted l : StronglySorted
    (fun a b => String.length (prefix b) <= String.length (prefix a))%nat (std_sort l);
}.

(** ** Rule sets *)
Abbreviation Rule := (PathMatcher * string)%type.
Definition build (rules : list Rule) (rs : PathRuleSet) : PathRuleSet :=
  foldl (fun rs r => addRule r.1 r.2 rs) rs rules.

Fixpoint firstExact (p : string) (rules : list Rule) : option string :=
  match rules with
  | [] => None
  | (ExactPath v, name) :: r => if bool_decide (v = p) then Some name else firstExact p r
  | (PrefixPath _, _) :: r => firstExact p r
  end.
Definition prefixRule (r : Rule) : option PrefixRule :=
  match r.1 with PrefixPath v => Some (PXR v r.2) | ExactPath _ => None end.

Lemma build_spec rules rs :
  (forall p, exactPaths (build rules rs) !! p = orElse (exactPaths rs !! p) (firstExact p rules)) /\
  prefixPaths (build rules rs) = prefixPaths rs ++ omap prefixRule rules.
Proof.
  revert rs. induction rules as [|[[v|v] name] rules IH]; intros rs; cbn.
  - split; [|by rewrite app_nil_r]. intros p. by destruct (exactPaths rs !! p).
  - destruct (IH (addRule (ExactPath v) name rs)) as [IH1 IH2]. split; [|exact IH2].
    intros p. unfold build in IH1. cbn in IH1. rewrite IH1. clear IH1 IH2.
    destruct (decide (v = p)) as [-> | Hne].
    + rewrite bool_decide_true by done. destruct (exactPaths rs !! p) eqn:E; [by rewrite E|].
      by rewrite lookup_insert_eq.
    + rewrite (bool_decide_false (v = p)) by done.
      destruct (exactPaths rs !! v); [done|]. by rewrite lookup_insert_ne.
  - destruct (IH (addRule (PrefixPath v) name rs)) as [IH1 IH2]. split; [exact IH1|].
    unfold build in IH2. cbn in IH2. rewrite IH2. by rewrite <-app_assoc.
Qed.

(** The scan of a sorted vector stops at the longest prefix. *)
Lemma scan_best l p :
  StronglySorted (fun a b => String.length (prefix b) <= String.length (prefix a))%nat l ->
  match scanPrefixes l p with
  | Some name => exists v, PXR v name ∈ l /\ String.prefix v p = true /\
      forall v' n', PXR v' n' ∈ l -> String.prefix v' p = true -> (String.length v' <= String.length v)%nat
  | None => forall v' n', PXR v' n' ∈ l -> String.prefix v' p = false
  end.
Proof.
  induction 1 as [|[v name] l Hs IH Hf]; cbn; [by intros v' n' ?%elem_of_nil|].
  destruct (String.prefix v p) eqn:E.
  - exists v. split; [by left|]. split; [done|]. intros v' n' [[= -> _]|H]%elem_of_cons _; [done|].
    rewrite Forall_forall in Hf. by apply (Hf (PXR v' n')).
  - destruct (scanPrefixes l p) as [n|].
    + destruct IH as (v0 & Hin & Hp & Hmax). exists v0. split; [by right|]. split; [done|].
      intros v' n' [[= -> _]|H]%elem_of_cons Hp'; [congruence|by eapply Hmax].
    + intros v' n' [[= -> _]|H]%elem_of_cons; [done|by eapply IH].
Qed.

Lemma firstExact_spec p rules :
  match firstExact p rules with
  | Some name => (ExactPath p, name) ∈ rules
  | None => forall name, (ExactPath p, name) ∉ rules
  end.
Proof.
  induction rules as [|[[v|v] name] rules IH]; cbn; [by intros name ?%elem_of_nil| |].
  - case_bool_decide as E; [subst; by left|]. destruct (firstExact p rules); [by right|].
    intros n [[= -> ->]|H]%elem_of_cons; [done|by eapply IH].
  - destruct (firstExact p rules); [by right|]. intros n [[=]|H]%elem_of_cons. by eapply IH.
Qed.

Lemma elem_of_prefixRules v name (rules : list Rule) :
  PXR v name ∈ omap prefixRule rules <-> (PrefixPath v, name) ∈ rules.
Proof.
  rewrite list_elem_of_omap. split.
  - intros ([[v'|v'] n'] & Hin & H); cbn in H; [done|]. by injection H as -> ->.
  - intros H. exists (PrefixPath v, name). done.
Qed.

Lemma prefix_length v p : String.prefix v p = true -> (String.length v <= String.length p)%nat.
Proof.
  revert p. induction v as [|c v IH]; intros [|d p]; cbn; try (lia || done).
  destruct (ascii_dec c d); [|done]. intros H%IH. lia.
Qed.

Section theorems.
Context (std_sort : list PrefixRule -> list PrefixRule) `{SO : !sorts_by_length std_sort}.

(** A finalized rule set matches its best rule. *)
Lemma matchPath_best rules p :
  match matchPath (finalize std_sort (build rules emptyRuleSet)) p with
  | Some name => exists pm b, (pm, name) ∈ rules /\ pathScore pm p = Some b /\
      forall pm' n' b', (pm', n') ∈ rules -> pathScore pm' p = Some b' -> (b' <= b)%nat
  | None => forall pm' n', (pm', n') ∈ rules -> pathScore pm' p = None
  end.
Proof using SO.
  destruct (build_spec rules emptyRuleSet) as [E1 E2]. unfold matchPath. cbn [exactPaths finalize prefixPaths].
  rewrite E1, E2. cbn [exactPaths emptyRuleSet prefixPaths app]. rewrite lookup_empty. cbn [orElse].
  pose proof (firstExact_spec p rules) as HE. destruct (firstExact p rules) as [name|].
  - exists (ExactPath p), (S (String.length p)). cbn. rewrite bool_decide_true by done.
    split; [done|]. split; [done|]. intros [v|v] n' b' _; cbn.
    + case_bool_decide; [|done]. intros [= <-]. lia.
    + destruct (String.prefix v p) eqn:Ep; [|done]. intros [= <-]. apply prefix_length in Ep. lia.
  - pose proof (scan_best (std_sort (omap prefixRule rules)) p (sort_sorted _)) as HS.
    destruct (scanPrefixes _ p) as [name|].
    + destruct HS as (v & Hin & Hp & Hmax). rewrite sort_perm in Hin. apply elem_of_prefixRules in Hin.
      exists (PrefixPath v), (String.length v). cbn. rewrite Hp. split; [done|]. split; [done|].
      intros [v'|v'] n' b' Hin'; cbn.
      * case_bool_decide as E; [subst|done]. by apply HE in Hin'.
      * destruct (String.prefix v' p) eqn:Ep; [|done]. intros [= <-]. apply (Hmax v' n'); [|done].
        by rewrite sort_perm, elem_of_prefixRules.
    + intros [v'|v'] n' Hin'; cbn.
      * case_bool_decide as E; [subst|done]. by apply HE in Hin'.
      * rewrite (HS v' n'); [done|]. by rewrite sort_perm, elem_of_prefixRules.
Qed.

(** ** The tables of the matcher *)
Definition tierRules (t : nat) (auth : string) (ents : list (string * MatchEntry)) : list Rule :=
  omap (fun '(name, e) =>
    if bool_decide (authorityScore (authority e) auth = Some t) then Some (path e, name) else None) ents.

Lemma elem_of_tierRules t auth ents pm name :
  (pm, name) ∈ tierRules t auth ents <->
  exists e, (name, e) ∈ ents /\ path e = pm /\ authorityScore (authority e) auth = Some t.
Proof using Type.
  unfold tierRules. rewrite list_elem_of_omap. split.
  - intros ([n e] & Hin & H). case_bool_decide; [|done]. injection H as <- <-. by exists e.
  - intros (e & Hin & <- & H). exists (name, e). by rewrite bool_decide_true.
Qed.

Definition tier2 (m : ServiceMatcher) (auth : string) : PathRuleSet :=
  match fromFirstDot auth with
  | Some suffix => default emptyRuleSet (wildcardAuthorityRules m !! suffix)
  | None => emptyRuleSet
  end.

Lemma tierRules_cons t auth name e ents :
  tierRules t auth ((name, e) :: ents) =
  if bool_decide (authorityScore (authority e) auth = Some t)
  then (path e, name) :: tierRules t auth ents else tierRules t auth ents.
Proof using Type. unfold tierRules. cbn. by case_bool_decide. Qed.

Lemma addEntries_tables ents m m' auth :
  addEntries ents m = Some m' ->
  default emptyRuleSet (exactAuthorityRules m' !! auth) =
    build (tierRules 3 auth ents) (default emptyRuleSet (exactAuthorityRules m !! auth)) /\
  tier2 m' auth = build (tierRules 2 auth ents) (tier2 m auth) /\
  anyAuthorityRules m' = build (tierRules 1 auth ents) (anyAuthorityRules m).
Proof using Type.
  revert m. induction ents as [|[name e] ents IH]; intros m H; cbn in H.
  - injection H as <-. done.
  - destruct (addEntry name e m) as [m1|] eqn:E1; [|done]. cbn in H.
    destruct (IH m1 H) as (-> & -> & ->). clear IH H. rewrite !tierRules_cons.
    unfold addEntry in E1. destruct e as [[v|pat|] pm]; cbn [authority path] in *.
    + injection E1 as <-. cbn [authorityScore]. destruct (decide (v = auth)) as [-> | Hne].
      * rewrite (bool_decide_true (auth = auth)) by done.
        rewrite (bool_decide_true (Some 3%nat = Some 3%nat)) by done.
        rewrite !(bool_decide_false (Some 3%nat = Some _)) by done. cbn. by rewrite lookup_insert_eq.
      * rewrite (bool_decide_false (v = auth)) by done. rewrite !bool_decide_false by done. cbn.
        by rewrite lookup_insert_ne.
    + destruct (substr1 pat) as [suffix|] eqn:Es; [|done]. injection E1 as <-.
      cbn [authorityScore]. rewrite Es. cbn [mbind option_bind]. unfold tier2. cbn [wildcardAuthorityRules exactAuthorityRules anyAuthorityRules].
      destruct (decide (fromFirstDot auth = Some suffix)) as [Ed|Hne].
      * rewrite (bool_decide_true (fromFirstDot auth = _)) by done. rewrite Ed.
        rewrite (bool_decide_true (Some 2%nat = Some 2%nat)) by done.
        rewrite !(bool_decide_false (Some 2%nat = Some _)) by done. by rewrite lookup_insert_eq.
      * rewrite (bool_decide_false (fromFirstDot auth = _)) by done. rewrite !bool_decide_false by done.
        destruct (fromFirstDot auth) as [d|]; [|done]. rewrite lookup_insert_ne by congruence. done.
    + injection E1 as <-. cbn [authorityScore]. rewrite !(bool_decide_false (Some 1%nat = Some _)) by done.
      rewrite (bool_decide_true (Some 1%nat = Some 1%nat)) by done. done.
Qed.

Lemma matchPath_table (t : gmap string PathRuleSet) k p :
  (rs ← (finalize std_sort <$> t) !! k; matchPath rs p) =
  matchPath (finalize std_sort (default emptyRuleSet (t !! k))) p.
Proof using SO.
  rewrite lookup_fmap. destruct (t !! k) as [rs|]; [done|]. cbn.
  unfold matchPath. cbn. rewrite lookup_empty.
  pose proof (sort_perm (std_sort := std_sort) []) as H%Permutation_nil_r. by rewrite H.
Qed.

(** The three lookups of [match], on the rules of each tier. *)
Lemma match_tiers services m auth p :
  newServiceMatcher std_sort services = Some m ->
  let best t := matchPath (finalize std_sort (build (tierRules t auth (entriesOf services)) emptyRuleSet))
                          (effectivePath p) in
  match_ m auth p = orElse (best 3%nat) (orElse (best 2%nat) (best 1%nat)).
Proof using SO.
  unfold newServiceMatcher. destruct (addEntries _ _) as [m0|] eqn:E; [|done]. cbn. intros [= <-].
  destruct (addEntries_tables _ _ _ auth E) as (E3 & E2 & E1). unfold match_.
  cbn [exactAuthorityRules wildcardAuthorityRules anyAuthorityRules].
  rewrite matchPath_table, E3, E1. cbn [exactAuthorityRules]. rewrite lookup_empty. f_equal. f_equal.
  unfold tier2 in E2. cbn [wildcardAuthorityRules] in E2.
  destruct (fromFirstDot auth) as [d|]; cbn [mbind option_bind].
  - rewrite matchPath_table, E2, lookup_empty. done.
  - rewrite <-E2. unfold matchPath. cbn. rewrite lookup_empty.
    pose proof (sort_perm (std_sort := std_sort) []) as H%Permutation_nil_r. by rewrite H.
Qed.

Lemma score_split e auth p sc :
  score e auth p = Some sc <->
  authorityScore (authority e) auth = Some sc.1 /\ pathScore (path e) (effectivePath p) = Some sc.2.
Proof using Type.
  unfold score. destruct (authorityScore _ _); cbn; [|naive_solver].
  destruct (pathScore _ _); cbn; [|naive_solver]. destruct sc. naive_solver.
Qed.

Lemma authorityScore_range am auth t : authorityScore am auth = Some t -> t = 1%nat \/ t = 2%nat \/ t = 3%nat.
Proof using Type.
  destruct am as [v|pat|]; cbn; [case_bool_decide; [|done]; naive_solver| |naive_solver].
  destruct (substr1 pat); cbn; [case_bool_decide; [|done]|done]; naive_solver.
Qed.

(** The best rule of a tier, when no higher tier has one. *)
Lemma tier_best services auth p t name :
  matchPath (finalize std_sort (build (tierRules t auth (entriesOf services)) emptyRuleSet))
            (effectivePath p) = Some name ->
  exists e b, (name, e) ∈ entriesOf services /\ score e auth p = Some (t, b) /\
    forall n' e' b', (n', e') ∈ entriesOf services -> score e' auth p = Some (t, b') -> (b' <= b)%nat.
Proof using SO.
  intros H. pose proof (matchPath_best (tierRules t auth (entriesOf services)) (effectivePath p)) as HB.
  rewrite H in HB. destruct HB as (pm & b & Hin & Hs & Hmax).
  apply elem_of_tierRules in Hin as (e & Hin & <- & Ha). exists e, b. split; [done|].
  split; [by apply score_split|]. intros n' e' b' Hin' [Ha' Hp']%score_split. cbn in *.
  apply (Hmax (path e') n' b'); [|done]. apply elem_of_tierRules. by exists e'.
Qed.
Lemma tier_none services auth p t :
  matchPath (finalize std_sort (build (tierRules t auth (entriesOf services)) emptyRuleSet))
            (effectivePath p) = None ->
  forall n' e' b', (n', e') ∈ entriesOf services -> score e' auth p <> Some (t, b').
Proof using SO.
  intros H n' e' b' Hin [Ha Hp]%score_split. cbn in *.
  pose proof (matchPath_best (tierRules t auth (entriesOf services)) (effectivePath p)) as HB.
  rewrite H in HB. rewrite (HB (path e') n') in Hp; [done|]. apply elem_of_tierRules. by exists e'.
Qed.
End theorems.

Lemma match_best (std_sort : list PrefixRule -> list PrefixRule)
    `{SO : !sorts_by_length std_sort} (services : Services) (m : ServiceMatcher) (auth p : string) :
  newServiceMatcher std_sort services = Some m ->
  match match_ m auth p with
  | Some name => exists e sc, (name, e) ∈ entriesOf services /\ score e auth p = Some sc /\
      forall n' e' sc', (n', e') ∈ entriesOf services -> score e' auth p = Some sc' -> score_le sc' sc
  | None => forall n' e', (n', e') ∈ entriesOf services -> score e' auth p = None
  end.
Proof.
  intros Hm. rewrite (match_tiers std_sort services m auth p Hm). cbn zeta.
  pose proof (tier_none std_sort services auth p) as HN.
  assert (Hfin : forall t name,
    matchPath (finalize std_sort (build (tierRules t auth (entriesOf services)) emptyRuleSet))
      (effectivePath p) = Some name ->
    (forall t' n' e' b', (t < t')%nat -> (n', e') ∈ entriesOf services -> score e' auth p <> Some (t', b')) ->
    exists e sc, (name, e) ∈ entriesOf services /\ score e auth p = Some sc /\
      forall n' e' sc', (n', e') ∈ entriesOf services -> score e' auth p = Some sc' -> score_le sc' sc).
  { intros t name H Hhi. destruct (tier_best std_sort services auth p t name H) as (e & b & Hin & Hs & Hmax).
    exists e, (t, b). split; [done|]. split; [done|]. intros n' e' [t' b'] Hin' Hs'. unfold score_le. cbn.
    destruct (decide (t < t')%nat) as [Hlt|Hge]; [by apply (Hhi t' n' e' b') in Hs'|].
    destruct (decide (t' = t)) as [-> | Hne]; [right; split; [done|by eapply Hmax]|lia]. }
  assert (Hr : forall e' t' b', score e' auth p = Some (t', b') -> t' = 1%nat \/ t' = 2%nat \/ t' = 3%nat).
  { intros e' t' b' [H _]%score_split. by apply authorityScore_range in H. }
  destruct (matchPath (finalize std_sort (build (tierRules 3 auth _) _)) _) as [n3|] eqn:E3; cbn [orElse].
  { apply (Hfin 3%nat _ E3). intros t' n' e' b' Hlt _ H. apply Hr in H. lia. }
  destruct (matchPath (finalize std_sort (build (tierRules 2 auth _) _)) _) as [n2|] eqn:E2; cbn [orElse].
  { apply (Hfin 2%nat _ E2). intros t' n' e' b' Hlt Hin H. assert (t' = 3%nat) as -> by (apply Hr in H; lia).
    by apply (HN 3%nat E3 n' e' b' Hin). }
  destruct (matchPath (finalize std_sort (build (tierRules 1 auth _) _)) _) as [n1|] eqn:E1; cbn [orElse].
  { apply (Hfin 1%nat _ E1). intros t' n' e' b' Hlt Hin H.
    assert (Ht : t' = 2%nat \/ t' = 3%nat) by (apply Hr in H; lia).
    destruct Ht as [-> | ->]; [by apply (HN 2%nat E2 n' e' b' Hin)|by apply (HN 3%nat E3 n' e' b' Hin)]. }
  intros n' e' Hin. destruct (score e' auth p) as [[t b]|] eqn:E; [|done]. exfalso.
  destruct (Hr e' t b E) as [-> | [-> | ->]].
  - by apply (HN 1%nat E1 n' e' b Hin).
  - by apply (HN 2%nat E2 n' e' b Hin).
  - by apply (HN 3%nat E3 n' e' b Hin).
Qed.

(** (C34) The service chosen for a session is that of a most specific entry of the
    configuration: an exact authority before a wildcard before any, and within
    that an exact path before the longest prefix; an empty path counts as "/".
    No service is chosen exactly when no entry matches.  This holds for every
    order of the services and every order the sort leaves equal prefixes in. *)
Theorem match_most_specific (std_sort : list PrefixRule -> list PrefixRule)
    `{SO : !sorts_by_length std_sort} (services : Services) (m : ServiceMatcher) (auth p : string) :
  newServiceMatcher std_sort services = Some m ->
  match match_ m auth p with
  | Some name => exists e sc, (name, e) ∈ entriesOf services /\ score e auth p = Some sc /\
      forall n' e' sc', (n', e') ∈ entriesOf services -> score e' auth p = Some sc' -> score_le sc' sc
  | None => forall n' e', (n', e') ∈ entriesOf services -> score e' auth p = None
  end.
Proof. intros Hm. exact (match_best std_sort services m auth p Hm). Qed.

(** ** Wildcards and validated configurations *)
(** The constructor throws on an empty pattern only. *)
Definition named (a : AuthorityMatcher) : Prop :=
  match a with WildcardAuthority pat => pat <> EmptyString | _ => True end.
Lemma addEntries_total ents m : Forall (fun q => named (authority q.2)) ents -> is_Some (addEntries ents m).
Proof.
  intros He. revert m. induction He as [|[name [a pm]] ents Ha He IH]; intros m; [by exists m|]. cbn.
  destruct a as [v|pat|]; cbn; [apply IH| |apply IH]. cbn in Ha. destruct pat; [done|]. cbn. apply IH.
Qed.

(** Two prefixes of a string with the same length are the same. *)
Lemma prefix_unique v v' p :
  String.prefix v p = true -> String.prefix v' p = true -> String.length v = String.length v' -> v = v'.
Proof.
  revert v' p. induction v as [|c v IH]; intros [|c' v'] p; try done. destruct p as [|d p]; cbn; [done|].
  destruct (ascii_dec c d) as [->|]; [|done]. destruct (ascii_dec c' d) as [->|]; [|done].
  intros H1 H2 [= H]. f_equal. by eapply IH.
Qed.
Lemma pathScore_unique pm pm' p b : pathScore pm p = Some b -> pathScore pm' p = Some b -> pm = pm'.
Proof.
  destruct pm as [v|v], pm' as [v'|v']; cbn.
  - case_bool_decide; [subst|done]. intros _. case_bool_decide; [by subst|done].
  - case_bool_decide; [|done]. intros [= <-]. destruct (String.prefix v' p) eqn:E; [|done].
    intros [= Hl]. apply prefix_length in E. lia.
  - destruct (String.prefix v p) eqn:E; [|done]. intros [= <-]. case_bool_decide; [|done].
    intros [= Hl]. apply prefix_length in E. lia.
  - destruct (String.prefix v p) eqn:E; [|done]. intros [= <-]. destruct (String.prefix v' p) eqn:E'; [|done].
    intros [= Hl]. f_equal. by eapply prefix_unique.
Qed.
Fixpoint hasDot (s : string) : bool :=
  match s with EmptyString => false | String c r => Ascii.eqb c "."%char || hasDot r end.

Lemma fromFirstDot_spec auth x :
  fromFirstDot auth = Some (String "."%char x) <->
  exists label, hasDot label = false /\ auth = (label ++ String "."%char x)%string.
Proof.
  induction auth as [|c auth IH]; cbn.
  - split; [done|]. intros ([|d l] & _ & H); done.
  - destruct (Ascii.eqb_spec c "."%char) as [-> | Hne].
    + split; [intros [= ->]; by exists EmptyString|]. intros ([|d l] & Hd & H); cbn in H; [by injection H as ->|].
      injection H as <- _. done.
    + rewrite IH. split.
      * intros (l & Hl & ->). exists (String c l). cbn. split; [|done].
        destruct (Ascii.eqb_spec c "."%char); done.
      * intros ([|d l] & Hl & H); cbn in H; [by injection H as ? _|].
        injection H as <- ->. cbn in Hl.
        apply orb_false_iff in Hl as [_ Hl]. by exists l.
Qed.

(** A configuration whose match entries pass validation always gives a
    matcher, and its wildcard "*.x" matches exactly the authorities that are one
    label without a dot followed by ".x". *)
Theorem validated_entries (std_sort : list PrefixRule -> list PrefixRule)
    (services : list (string * list (ParsedAuthority * PathMatcher))) :
  Forall (fun svc => Forall (fun e => authorityValid e.1 = true) svc.2) services ->
  is_Some (newServiceMatcher std_sort
    (map (fun svc => (svc.1, map (fun e => resolveMatchEntry e.1 e.2) svc.2)) services)) /\
  forall pat auth, authorityValid (ParsedWildcardAuthority pat) = true ->
    authorityScore (resolveAuthority (ParsedWildcardAuthority pat)) auth = Some 2%nat <->
    exists label x, hasDot label = false /\ pat = ("*." ++ x)%string /\ auth = (label ++ "." ++ x)%string.
Proof.
  intros Hv. split.
  - unfold newServiceMatcher. set (ents := entriesOf _).
    assert (He : Forall (fun q => named (authority q.2)) ents).
    { apply Forall_forall. intros [name e] Hin. unfold ents, entriesOf in Hin.
      apply list_elem_of_bind in Hin as ([n l] & Hin & Hsvc).
      apply list_elem_of_In, in_map_iff in Hsvc as ([n0 l0] & [= <- <-] & Hsvc%list_elem_of_In).
      rewrite Forall_forall in Hv. specialize (Hv _ Hsvc). cbn in Hv. rewrite Forall_forall in Hv.
      apply list_elem_of_In, in_map_iff in Hin as (e0 & [= -> <-] & Hin).
      apply in_map_iff in Hin as ([a pm] & <- & Hin%list_elem_of_In). specialize (Hv _ Hin). cbn in *.
      destruct a as [v|pat|b]; cbn; [done| |done]. by destruct pat. }
    by destruct (addEntries_total ents (SM ∅ ∅ emptyRuleSet) He) as [m ->].
  - intros pat auth Hp. destruct pat as [|c1 [|c2 [|c3 r]]]; try done. cbn in Hp.
    apply andb_true_iff in Hp as [[H1 H2]%andb_true_iff _].
    apply Ascii.eqb_eq in H1 as ->. apply Ascii.eqb_eq in H2 as ->. cbn.
    assert (E : bool_decide (fromFirstDot auth = Some (String "."%char (String c3 r))) = true <->
      exists label x, hasDot label = false /\
        String "*"%char (String "."%char (String c3 r)) = String "*"%char (String "."%char x) /\
        auth = (label ++ String "."%char x)%string).
    { rewrite bool_decide_eq_true, fromFirstDot_spec. split.
      - intros (l & Hl & ->). by exists l, (String c3 r).
      - intros (l & x & Hl & [= <-] & ->). by exists l. }
    rewrite <-E. case_bool_decide; done.
Qed.

(** ** A sort, and a configuration *)
Definition longer (a b : PrefixRule) : Prop :=
  (String.length (prefix b) <= String.length (prefix a))%nat.
#[global] Instance longer_dec : RelDecision longer.
Proof. intros a b. unfold longer. apply _. Defined.
Definition stable_sort : list PrefixRule -> list PrefixRule := merge_sort longer.
#[global] Instance stable_sort_sorts : sorts_by_length stable_sort.
Proof.
  assert (Ht : Transitive longer) by (intros a b c; unfold longer; lia).
  assert (Hl : Total longer) by (intros a b; unfold longer; destruct (le_ge_dec (String.length (prefix b)) (String.length (prefix a))); [left|right]; lia).
  split; intros l; [apply merge_sort_Permutation|apply (StronglySorted_merge_sort longer)].
Qed.

Definition exampleServices : Services :=
  [ ("live", [ME (WildcardAuthority "*.example.com") (PrefixPath "/");
              ME (ExactAuthority "a.example.com") (PrefixPath "/live")])%string;
    ("vod", [ME (ExactAuthority "a.example.com") (ExactPath "/live/x"); ME AnyAuthority (PrefixPath "/")])%string;
    ("live2", [ME (ExactAuthority "a.example.com") (PrefixPath "/live/y")])%string ].
Definition exampleMatcher : ServiceMatcher :=
  default (SM ∅ ∅ emptyRuleSet) (newServiceMatcher stable_sort exampleServices).

Lemma match_most_specific_witness :
  exists e sc, ("live2"%string, e) ∈ entriesOf exampleServices /\
    score e "a.example.com" "/live/yz" = Some sc /\
    forall n' e' sc', (n', e') ∈ entriesOf exampleServices ->
      score e' "a.example.com" "/live/yz" = Some sc' -> score_le sc' sc.
Proof.
  exact (match_most_specific stable_sort exampleServices exampleMatcher "a.example.com" "/live/yz" eq_refl).
Defined.

Lemma validated_entries_witness :
  is_Some (newServiceMatcher stable_sort
    [("live"%string, [resolveMatchEntry (ParsedWildcardAuthority "*.x") (PrefixPath "/")])]) /\
  authorityScore (WildcardAuthority "*.x") "a.x" = Some 2%nat.
Proof.
  destruct (validated_entries stable_sort
    [("live"%string, [(ParsedWildcardAuthority "*.x", PrefixPath "/")])]) as [H1 H2].
  - repeat constructor.
  - split; [exact H1|]. apply (H2 "*.x"%string "a.x"%string); [reflexivity|].
    exists "a"%string, "x"%string. repeat split; reflexivity.
Defined.
