(* ===== verification/ConfigTypes.v ===== *)
(** The configuration: its form in the file (config/loader/ParsedConfig.h), and
    its resolved form that the rest of the program reads (config/Config.h).

    An absent field is [None].  Durations are in milliseconds.  The TLS fields
    that listeners and the admin server have in common, which the template
    functions of the resolver read, are one record.  A floating-point number is a
    rational, an infinity or a NaN; the two zeros are not told apart. *)

From Stdlib Require Import QArith Strings.Byte String.
From S2P Require Import Prelude CborReader Auth ServiceMatcher.

#[global] Instance AuthorityMatcher_eq_dec : EqDecision AuthorityMatcher.
Proof. solve_decision. Defined.
#[global] Instance PathMatcher_eq_dec : EqDecision PathMatcher.
Proof. solve_decision. Defined.
#[global] Instance MatchEntry_eq_dec : EqDecision MatchEntry.
Proof. solve_decision. Defined.

(** ** Floating-point numbers *)
Inductive Float := FNaN | FInfinity (negative : bool) | FFinite (q : Q).

(** [a < b]; false when one is a NaN. *)
Definition flt (a b : Float) : bool :=
  match a, b with
  | FNaN, _ | _, FNaN => false
  | FInfinity s, FInfinity t => s && negb t
  | FInfinity s, FFinite _ => s
  | FFinite _, FInfinity t => negb t
  | FFinite x, FFinite y => negb (Qle_bool y x)
  end.
(** [a <= b]; false when one is a NaN. *)
Definition fle (a b : Float) : bool :=
  match a, b with
  | FNaN, _ | _, FNaN => false
  | _, _ => negb (flt b a)
  end.
Definition fzero : Float := FFinite 0.
Definition fone : Float := FFinite 1.

(** ** The parsed form *)
Record ParsedSocketConfig := mkParsedSocket { socket_address : string; socket_port : Z }.

Record ParsedTlsFiles := mkParsedTlsFiles {
  cert_file : option string;
  key_file : option string;
  pkcs12_file : option string;
  pkcs12_password : option string;
  pkcs12_password_file : option string;
  pkcs12_password_env : option string;
}.
Record ParsedListenerTlsConfig := mkParsedListenerTls { listener_tls_files : ParsedTlsFiles; insecure : bool }.
Record ParsedAdminTlsConfig := mkParsedAdminTls { admin_tls_files : ParsedTlsFiles; alpn : option (list string) }.

Record ParsedQuicConfig := mkParsedQuic {
  max_data : option Z;
  max_stream_data : option Z;
  max_uni_streams : option Z;
  max_bidi_streams : option Z;
  idle_timeout_ms : option Z;
  max_ack_delay_us : option Z;
  min_ack_delay_us : option Z;
  default_stream_priority : option Z;
  default_datagram_priority : option Z;
  cc_algo : option string;
}.

Record ParsedBBR := mkParsedBBR {
  conservative_recovery : option bool;
  large_probe_rtt_cwnd : option bool;
  enable_ack_aggregation_in_startup : option bool;
  probe_rtt_disabled_if_app_limited : option bool;
  drain_to_target : option bool;
}.
Record ParsedBBR2 := mkParsedBBR2 {
  ignore_inflight_long_term : option bool;
  ignore_short_term : option bool;
  exit_startup_on_loss : option bool;
  enable_recovery_in_startup : option bool;
  enable_recovery_in_probe_states : option bool;
  enable_reno_coexistence : option bool;
  pace_init_cwnd : option bool;
  override_cruise_pacing_gain : option Float;
  override_cruise_cwnd_gain : option Float;
  override_startup_pacing_gain : option Float;
  override_bw_short_beta : option Float;
}.
Record ParsedCubic := mkParsedCubic {
  additive_increase_after_hystart : option bool;
  only_grow_cwnd_when_limited : option bool;
  leave_headroom_for_cwnd_limited : option bool;
}.
(** [ParsedCopa] and [ParsedL4S] have one field each. *)
Record ParsedMvfstConfig := mkParsedMvfst {
  max_cwnd_in_mss : option Z;
  pacing_enabled : option bool;
  enable_gso : option bool;
  max_conn_packets_sent_per_loop : option Z;
  use_recvmmsg : option bool;
  max_server_recv_packets_per_loop : option Z;
  num_gro_buffers : option Z;
  ignore_path_mtu : option bool;
  parsed_bbr : option ParsedBBR;
  parsed_bbr2 : option ParsedBBR2;
  parsed_cubic : option ParsedCubic;
  copa_delta_param : option (option Float);
  l4s_ce_target : option (option Float);
  udp_socket_buffer_bytes : option Z;
  h3_txn_timeout_ms : option Z;
}.

Inductive ParsedQuicStack := Stack_mvfst | Stack_picoquic | Stack_proxygen_qmux.

Record ParsedListenerConfig := mkParsedListener {
  listener_name : string;
  udp_socket : ParsedSocketConfig;
  listener_tls : ParsedListenerTlsConfig;
  listener_endpoint : string;
  moqt_versions : option (list Z);
  quic_stack : option ParsedQuicStack;
  listener_quic : option ParsedQuicConfig;
  listener_mvfst : option ParsedMvfstConfig;
}.

Record ParsedCacheConfig := mkParsedCache {
  cache_enabled : option bool;
  max_tracks : option Z;
  max_groups_per_track : option Z;
  max_cached_mb : option Z;
  min_eviction_kb : option Z;
  max_cache_duration_s : option Z;
  default_max_cache_duration_s : option Z;
}.

Record ParsedAdminConfig := mkParsedAdmin {
  admin_port : Z;
  admin_address : string;
  admin_plaintext : bool;
  admin_tls : option ParsedAdminTlsConfig;
  track_metrics_enabled : option bool;
  track_metrics_endpoint_default_limit : option Z;
  track_metrics_endpoint_max_limit : option Z;
}.

Record ParsedUpstreamConfig := mkParsedUpstream {
  upstream_url : string;
  upstream_insecure : bool;
  ca_cert : option string;
  connect_timeout_ms : option Z;
  upstream_idle_timeout_ms : option Z;
  relay_cost : option Z;
}.

Record ParsedClusterConfig := mkParsedCluster { cluster_enabled : option bool; hop_id : option Z }.

(** [NamespaceMatch] and [TrackMatch]: the alternative and its value. *)
Record ParsedAnonymousScope := mkParsedScope {
  scope_actions : list string;
  namespace_match : option (MatchRuleType * list string);
  track_match : option (MatchRuleType * string);
}.
Record ParsedHmacKey := mkParsedKey { key_id : string; key_secret : string }.
Record ParsedAuthConfig := mkParsedAuth {
  auth_enabled : bool;
  token_type : option Z;
  hmac_keys : option (list ParsedHmacKey);
  require_setup_token : option bool;
  allow_request_token_override : option bool;
  strict_claims : option bool;
  anonymous_claim : option (list ParsedAnonymousScope);
  max_tokens_per_message : option Z;
}.

Record ParsedServiceConfig := mkParsedService {
  service_match : list (ParsedAuthority * PathMatcher);
  service_cache : option ParsedCacheConfig;
  service_upstream : option ParsedUpstreamConfig;
  service_upstreams : option (list ParsedUpstreamConfig);
  service_auth : option ParsedAuthConfig;
  max_subscription_buffer_kb : option Z;
}.

Record ParsedListenerDefaultsConfig := mkParsedListenerDefaults {
  defaults_quic : option ParsedQuicConfig;
  defaults_mvfst : option ParsedMvfstConfig;
}.
(** [AuthDefaults] has one field. *)
Record ParsedServiceDefaultsConfig := mkParsedServiceDefaults {
  defaults_cache : option ParsedCacheConfig;
  defaults_max_tokens_per_message : option (option Z);
  defaults_max_subscription_buffer_kb : option Z;
}.

(** [ParsedMLogConfig] and [ParsedQLogConfig]. *)
Record ParsedLogConfig := mkParsedLog { log_dir : string; sample_rate : option Float }.
Record ParsedLoggingConfig := mkParsedLogging { parsed_mlog : option ParsedLogConfig; parsed_qlog : option ParsedLogConfig }.

(** [services] is a [std::map]: in the order of the names, which are distinct. *)
Record ParsedConfig := mkParsedConfig {
  parsed_listeners : list ParsedListenerConfig;
  listForm : bool;
  service_defaults : option ParsedServiceDefaultsConfig;
  parsed_services : list (string * ParsedServiceConfig);
  parsed_admin : option ParsedAdminConfig;
  relay_id : option string;
  listener_defaults : option ParsedListenerDefaultsConfig;
  threads : option Z;
  use_relay_thread : option bool;
  use_local_forwarders : option bool;
  mvfst_bpf_steering : option bool;
  parsed_logging : option ParsedLoggingConfig;
  parsed_cluster : option ParsedClusterConfig;
}.

(** ** The resolved form *)
Record TlsMaterial := mkTlsMaterial { certChainPem : string; keyPem : string }.
Record TlsConfig := mkTlsConfig {
  certFile : string;
  keyFile : string;
  tls_alpn : list string;
  material : option TlsMaterial;
}.
Inductive TlsMode := Insecure | Tls (tls : TlsConfig).

Record CacheConfig := mkCacheConfig {
  maxCachedTracks : Z;
  maxCachedGroupsPerTrack : Z;
  maxCachedMb : Z;
  minEvictionKb : Z;
  maxCacheDuration : Z;
  defaultMaxCacheDuration : option Z;
}.

Inductive QuicStack := Mvfst | Picoquic | ProxygenQmux.
#[global] Instance QuicStack_eq_dec : EqDecision QuicStack.
Proof. solve_decision. Defined.

Record QuicConfig := mkQuicConfig {
  maxData : Z;
  maxStreamData : Z;
  maxUniStreams : Z;
  maxBidiStreams : Z;
  idleTimeoutMs : Z;
  maxAckDelayUs : Z;
  minAckDelayUs : Z;
  defaultStreamPriority : Z;
  defaultDatagramPriority : Z;
  ccAlgo : string;
}.
Definition defaultQuic : QuicConfig := mkQuicConfig 67108864 16777216 8192 16 30000 25000 1000 2 1 "bbr".

Record BBR := mkBBR {
  conservativeRecovery : bool;
  largeProbeRttCwnd : bool;
  enableAckAggregationInStartup : bool;
  probeRttDisabledIfAppLimited : bool;
  drainToTarget : bool;
}.
Record BBR2 := mkBBR2 {
  ignoreInflightLongTerm : bool;
  ignoreShortTerm : bool;
  exitStartupOnLoss : bool;
  enableRecoveryInStartup : bool;
  enableRecoveryInProbeStates : bool;
  enableRenoCoexistence : bool;
  paceInitCwnd : bool;
  overrideCruisePacingGain : Float;
  overrideCruiseCwndGain : Float;
  overrideStartupPacingGain : Float;
  overrideBwShortBeta : Float;
}.
Record Cubic := mkCubic {
  additiveIncreaseAfterHystart : bool;
  onlyGrowCwndWhenLimited : bool;
  leaveHeadroomForCwndLimited : bool;
}.
(** [Copa] and [L4S] have one field each. *)
Record MvfstConfig := mkMvfstConfig {
  maxCwndInMss : Z;
  pacingEnabled : bool;
  enableGSO : bool;
  maxConnPacketsSentPerLoop : Z;
  useRecvmmsg : bool;
  maxServerRecvPacketsPerLoop : Z;
  numGROBuffers : Z;
  canIgnorePathMTU : bool;
  udpSocketBufferBytes : Z;
  h3TxnTimeoutMs : Z;
  bbr : BBR;
  bbr2 : BBR2;
  cubic : Cubic;
  copa_deltaParam : Float;
  l4s_ceTarget : Float;
}.
Definition kMaxH3TxnTimeoutMs : Z := 365 * 24 * 60 * 60 * 1000.
Definition defaultMvfst : MvfstConfig :=
  mkMvfstConfig 860000 true true 48 true 64 1 false 0 0
    (mkBBR false false false false false)
    (mkBBR2 false false true true true false false (FFinite (-1)) (FFinite (-1)) (FFinite (-1)) fzero)
    (mkCubic false false false) (FFinite (5 # 100)) fzero.

Record UpstreamConfig := mkUpstreamConfig {
  url : string;
  us_insecure : bool;
  caCertFile : option string;
  connectTimeout : Z;
  idleTimeout : Z;
  relayCost : Z;
}.

Record ServiceConfig := mkServiceConfig {
  sc_match : list MatchEntry;
  sc_cache : CacheConfig;
  sc_upstream : option UpstreamConfig;
  sc_auth : AuthConfig;
  sc_upstreams : list UpstreamConfig;
  sc_maxSubscriptionBufferKb : Z;
}.

Record LogConfig := mkLogConfig { lg_dir : string; lg_sampleRate : Float }.
Record LoggingConfig := mkLoggingConfig { mlog : option LogConfig; qlog : option LogConfig }.

(** folly: a socket address made from a host and a port (the constructor throws
    on a host that does not resolve), and how it is printed. *)
Class SocketApi := {
  SocketAddress : Type;
  newSocketAddress : string -> Z -> option SocketAddress;
  describe : SocketAddress -> string;
}.

Section resolved.
Context {SA : SocketApi}.

Record ListenerConfig := mkListenerConfig {
  l_name : string;
  l_address : SocketAddress;
  tlsMode : TlsMode;
  endpoint : string;
  moqtVersions : string;
  quicStack : QuicStack;
  quic : QuicConfig;
  mvfst : MvfstConfig;
}.
Record AdminConfig := mkAdminConfig {
  ad_address : SocketAddress;
  ad_tls : option TlsConfig;
  trackMetricsEnabled : bool;
  trackMetricsLimit : Z;
  trackMetricsMaxLimit : Z;
}.
(** [services] in the order the hash map yields them; [cluster] is the hop. *)
Record Config := mkConfig {
  listeners : list ListenerConfig;
  services : list (string * ServiceConfig);
  admin : option AdminConfig;
  relayID : string;
  cfg_threads : Z;
  useRelayThread : bool;
  useLocalForwarders : bool;
  mvfstBpfSteering : bool;
  logging : option LoggingConfig;
  cluster_hopID : option Z;
}.
End resolved.
