(* ===== verification/SessionSetup.v ===== *)
(** The admission of a session and the gate on its requests: the choice of the
    service and the check of the setup token (MoqxRelayContext.cpp,
    [validateAuthority]), and the filters every request of the session passes
    (relay/AuthFilters.h, relay/AuthFilters.cpp).

    A filter either refuses a request with the error of [authorize] or calls the
    relay; only that choice is modelled, as [Err] or [Ok]. *)


From Stdlib Require Import Strings.Byte String.
From S2P Require Import Prelude Assoc CborReader Auth AuthTheorems ServiceMatcher ServiceTheorems ConfigTypes.
From S2P Require Import AuthWitness.

Inductive SessionCloseErrorCode :=
  INVALID_AUTHORITY | EXPIRED_AUTH_TOKEN | MALFORMED_AUTH_TOKEN | UNAUTHORIZED.

(** The requests of a session, with what the filters read of them. *)
Inductive Request :=
  | SubscribeReq (params : Parameters_) (ns : TrackNamespace) (name : bytes)
  | FetchReq (params : Parameters_) (ns : TrackNamespace) (name : bytes)
  | SubscribeNamespaceReq (params : Parameters_) (nsPrefix : TrackNamespace)
  | SubscribeTracksReq (params : Parameters_) (nsPrefix : TrackNamespace)
  | TrackStatusReq (params : Parameters_) (ns : TrackNamespace) (name : bytes)
  | PublishReq (params : Parameters_) (ns : TrackNamespace) (name : bytes)
  | PublishNamespaceReq (params : Parameters_) (ns : TrackNamespace)
  | GoawayReq.

Definition kRelayAuthTokenType : Z := 0x1B2C3D4E5F6A7B8C.

Section session.
Context `{CA : CatapultApi} (std_sort : list PrefixRule -> list PrefixRule).

(** ** The filters *)
(** [getPeerRelayID]: the value of the first relay token. *)
Definition getPeerRelayID (params : Parameters_) : option bytes :=
  p ← List.find (fun p => (p_key p =? AUTHORIZATION_TOKEN) &&
                          (at_tokenType (p_asAuthToken p) =? kRelayAuthTokenType)) params;
  Some (at_tokenValue (p_asAuthToken p)).

(** The fields of the two filters of a session. *)
Record Filters := FL {
  fl_verifier : AuthTokenVerifier;
  fl_grants : list Grants;
  fl_peeringEnabled : bool;
}.

Section filters.
Context (fl : Filters) (now : Z).
Definition AuthPublisherFilter_subscribe params ns name : result AuthError unit :=
  authorize (fl_verifier fl) Subscribe params ns (fl_grants fl) (Some name) now.
Definition AuthPublisherFilter_fetch params ns name : result AuthError unit :=
  authorize (fl_verifier fl) Fetch params ns (fl_grants fl) (Some name) now.
Definition AuthPublisherFilter_subscribeNamespace params nsPrefix : result AuthError unit :=
  let isPeer := fl_peeringEnabled fl && bool_decide (is_Some (getPeerRelayID params)) in
  if negb isPeer then authorize (fl_verifier fl) SubscribeNamespace params nsPrefix (fl_grants fl) None now
  else Ok tt.
Definition AuthPublisherFilter_subscribeTracks params nsPrefix : result AuthError unit :=
  if fl_peeringEnabled fl && bool_decide (is_Some (getPeerRelayID params)) then Ok tt
  else authorize (fl_verifier fl) SubscribeNamespace params nsPrefix (fl_grants fl) None now.
Definition AuthPublisherFilter_trackStatus params ns name : result AuthError unit :=
  authorize (fl_verifier fl) TrackStatus params ns (fl_grants fl) (Some name) now.
Definition AuthSubscriberFilter_publish params ns name : result AuthError unit :=
  authorize (fl_verifier fl) Publish params ns (fl_grants fl) (Some name) now.
Definition AuthSubscriberFilter_publishNamespace params ns : result AuthError unit :=
  authorize (fl_verifier fl) PublishNamespace params ns (fl_grants fl) None now.

Definition filterRequest (req : Request) : result AuthError unit :=
  match req with
  | SubscribeReq params ns name => AuthPublisherFilter_subscribe params ns name
  | FetchReq params ns name => AuthPublisherFilter_fetch params ns name
  | SubscribeNamespaceReq params nsPrefix => AuthPublisherFilter_subscribeNamespace params nsPrefix
  | SubscribeTracksReq params nsPrefix => AuthPublisherFilter_subscribeTracks params nsPrefix
  | TrackStatusReq params ns name => AuthPublisherFilter_trackStatus params ns name
  | PublishReq params ns name => AuthSubscriberFilter_publish params ns name
  | PublishNamespaceReq params ns => AuthSubscriberFilter_publishNamespace params ns
  | GoawayReq => Ok tt
  end.
End filters.

(** ** The admission *)
Record RelayContext := RCX {
  serviceMatcher_ : ServiceMatcher;
  services_ : list (string * (ServiceConfig * AuthTokenVerifier));
  relayID_ : string;
}.

(** The constructor of the context: the matcher and one verifier per service;
    [None] when the matcher's constructor throws. *)
Definition newRelayContext (services : list (string * ServiceConfig)) (relayID : string)
  : option RelayContext :=
  m ← newServiceMatcher std_sort (map (fun s => (s.1, sc_match s.2)) services);
  Some (RCX m (map (fun s => (s.1, (s.2, newAuthTokenVerifier (sc_auth s.2)))) services) relayID).

Definition subscriptionBufferBytes (svc : ServiceConfig) : Z := u64 (sc_maxSubscriptionBufferKb svc * 1024).

(** What is installed on an admitted session: the service, the filters (none
    when the service has no authorization: the relay's handlers are installed
    directly) and the buffer limit. *)
Record Handlers := HND {
  hd_service : string;
  hd_filters : option Filters;
  hd_perSubscription : Z;
}.

Definition closeCode (e : AuthError) : SessionCloseErrorCode :=
  match e with
  | Expired => EXPIRED_AUTH_TOKEN
  | Malformed => MALFORMED_AUTH_TOKEN
  | BadSignature | Forbidden | Missing | WrongTokenType | TooManyTokens => UNAUTHORIZED
  end.

(** [validateAuthority]; [None] is the failure of its CHECK. *)
Definition validateAuthority (ctx : RelayContext) (authority path : string)
    (setupParams : Parameters_) (now : Z) : option (result SessionCloseErrorCode Handlers) :=
  match match_ (serviceMatcher_ ctx) authority path with
  | None => Some (Err INVALID_AUTHORITY)
  | Some name =>
      match assoc name (services_ ctx) with
      | None => None
      | Some (config, verifier) =>
          match authenticateSetup verifier setupParams now with
          | Err e => Some (Err (closeCode e))
          | Ok grants =>
              Some (Ok (HND name
                (match grants with
                 | Some g => Some (FL verifier g (negb (bool_decide (relayID_ ctx = EmptyString))))
                 | None => None
                 end) (subscriptionBufferBytes config)))
          end
      end
  end.

(** A request on an admitted session. *)
Definition handleRequest (h : Handlers) (req : Request) (now : Z) : result AuthError unit :=
  match hd_filters h with
  | None => Ok tt
  | Some fl => filterRequest fl now req
  end.

(** ** What a request asks for *)
Definition asksFor (req : Request) : option (Action * Parameters_ * TrackNamespace * option bytes) :=
  match req with
  | SubscribeReq params ns name => Some (Subscribe, params, ns, Some name)
  | FetchReq params ns name => Some (Fetch, params, ns, Some name)
  | SubscribeNamespaceReq params nsPrefix | SubscribeTracksReq params nsPrefix =>
      Some (SubscribeNamespace, params, nsPrefix, None)
  | TrackStatusReq params ns name => Some (TrackStatus, params, ns, Some name)
  | PublishReq params ns name => Some (Publish, params, ns, Some name)
  | PublishNamespaceReq params ns => Some (PublishNamespace, params, ns, None)
  | GoawayReq => None
  end.

(** Requests that skip the grants: GOAWAY, and namespace subscriptions that carry
    a relay token where the relay has an ID. *)
Definition exempt (relayID : string) (req : Request) : Prop :=
  match req with
  | GoawayReq => True
  | SubscribeNamespaceReq params _ | SubscribeTracksReq params _ =>
      relayID <> EmptyString /\ is_Some (getPeerRelayID params)
  | _ => False
  end.

Lemma assoc_map {A B} (f : A -> B) (l : list (string * A)) k :
  assoc k (map (fun s => (s.1, f s.2)) l) = f <$> assoc k l.
Proof using Type.
  induction l as [|[k' a] l IH]; [done|]. cbn. by destruct (bool_decide (k = k')).
Qed.

Lemma entriesOf_name services name e :
  (name, e) ∈ entriesOf services -> name ∈ map fst services.
Proof using Type.
  unfold entriesOf. intros ([n l] & Hin & Hs)%list_elem_of_bind.
  apply list_elem_of_In, in_map_iff in Hin as (e' & [= <- <-] & _). by eapply elem_of_keys.
Qed.

Lemma authenticateSetup_disabled config params now :
  enabled config = false -> authenticateSetup (newAuthTokenVerifier config) params now = Ok None.
Proof using Type. intros H. unfold authenticateSetup. destruct (derivedKeys_of config) as (_ & -> & _). by rewrite H. Qed.

Lemma authenticateSetup_session config params now gs :
  authenticateSetup (newAuthTokenVerifier config) params now = Ok (Some gs) ->
  enabled config = true /\
  forall g, In g gs <-> exists token, In token (findAuthTokens params (tokenType config)) /\
    verify (newAuthTokenVerifier config) token now = Ok g.
Proof using Type.
  unfold authenticateSetup. destruct (derivedKeys_of config) as (_ & -> & _).
  destruct (enabled config); cbn [negb]; [|done].
  destruct (_ <? _); [done|].
  pose proof (verifyTokens_grants (newAuthTokenVerifier config)
                (findAuthTokens params (tokenType config)) now) as Hg.
  destruct (verifyTokens _ _ _) as [verified firstError]. cbn [fst] in Hg.
  destruct (requireSetupToken config).
  - destruct (findAuthTokens params (tokenType config)) as [|t l] eqn:E; [done|]. rewrite <-E in *.
    destruct (allowsAny_ns _ _ _ _); cbn; [|done]. by intros [= <-].
  - by intros [= <-].
Qed.
Lemma authenticateSetup_off config params now :
  authenticateSetup (newAuthTokenVerifier config) params now = Ok None -> enabled config = false.
Proof using Type.
  unfold authenticateSetup. destruct (derivedKeys_of config) as (_ & -> & _).
  destruct (enabled config); cbn [negb]; [|done].
  destruct (_ <? _); [done|]. destruct (verifyTokens _ _ _) as [verified firstError].
  destruct (requireSetupToken config); [|done]. destruct (findAuthTokens _ _); [done|].
  by destruct (allowsAny_ns _ _ _ _).
Qed.

(** The filters of a session decide as [authorize] does, but for the exempt
    requests. *)
Lemma filterRequest_spec config gs relayID req now :
  filterRequest (FL (newAuthTokenVerifier config) gs (negb (bool_decide (relayID = EmptyString)))) now req = Ok tt <->
  exempt relayID req \/
  exists action params ns name, asksFor req = Some (action, params, ns, name) /\
    authorize (newAuthTokenVerifier config) action params ns gs name now = Ok tt.
Proof using Type.
  assert (Hpeer : forall params, negb (bool_decide (relayID = EmptyString)) && bool_decide (is_Some (getPeerRelayID params)) = true
                  <-> relayID <> EmptyString /\ is_Some (getPeerRelayID params)).
  { intros params. rewrite andb_true_iff, negb_true_iff, bool_decide_eq_true, bool_decide_eq_false. done. }
  destruct req as [params ns name|params ns name|params ns|params ns|params ns name|params ns name|params ns|];
    cbn [filterRequest exempt asksFor];
    try (split; [intros H; right; by eexists _, _, _, _|intros [[]|(a & p & n & t & [= <- <- <- <-] & H)]; exact H]).
  - unfold AuthPublisherFilter_subscribeNamespace. cbn [fl_peeringEnabled fl_verifier fl_grants].
    specialize (Hpeer params). destruct (_ && _); cbn [negb].
    + split; [intros _; left; by apply Hpeer|done].
    + split; [intros H; right; by eexists _, _, _, _|].
      intros [H|(a & p & n & t & [= <- <- <- <-] & H)]; [by apply Hpeer in H|exact H].
  - unfold AuthPublisherFilter_subscribeTracks. cbn [fl_peeringEnabled fl_verifier fl_grants].
    specialize (Hpeer params). destruct (_ && _).
    + split; [intros _; left; by apply Hpeer|done].
    + split; [intros H; right; by eexists _, _, _, _|].
      intros [H|(a & p & n & t & [= <- <- <- <-] & H)]; [by apply Hpeer in H|exact H].
  - split; [by left|done].
Qed.
End session.

(** ** Admission and requests together *)
Section theorems.
Context `{CA : CatapultApi} (std_sort : list PrefixRule -> list PrefixRule) `{SO : !sorts_by_length std_sort}.

Lemma service_entries services name e :
  (name, e) ∈ entriesOf (map (fun s => (s.1, sc_match s.2)) services) <->
  exists svc, (name, svc) ∈ services /\ e ∈ sc_match svc.
Proof using Type.
  unfold entriesOf. rewrite list_elem_of_bind. split.
  - intros ([n l] & Hin & Hs). apply list_elem_of_In, in_map_iff in Hs as ([n' svc] & [= <- <-] & Hs).
    apply list_elem_of_In, in_map_iff in Hin as (e' & [= -> ->] & Hin). exists svc.
    by rewrite !list_elem_of_In.
  - intros (svc & Hs & He). exists (name, sc_match svc). split.
    + apply list_elem_of_In, in_map_iff. exists e. by rewrite <-list_elem_of_In.
    + apply list_elem_of_In, in_map_iff. exists (name, svc). by rewrite <-list_elem_of_In.
Qed.

(** The service found by the matcher is one of the context. *)
Lemma matched_service services relayID ctx authority path name :
  NoDup (map fst services) -> newRelayContext std_sort services relayID = Some ctx ->
  match_ (serviceMatcher_ ctx) authority path = Some name ->
  exists svc, (name, svc) ∈ services /\
    assoc name (services_ ctx) = Some (svc, newAuthTokenVerifier (sc_auth svc)) /\
    relayID_ ctx = relayID /\
    exists e sc, e ∈ sc_match svc /\ score e authority path = Some sc /\
      forall n' svc' e' sc', (n', svc') ∈ services -> e' ∈ sc_match svc' ->
        score e' authority path = Some sc' -> score_le sc' sc.
Proof using SO.
  intros Hnd Hctx Hm. unfold newRelayContext in Hctx.
  destruct (newServiceMatcher std_sort _) as [m|] eqn:E; [|done]. injection Hctx as <-. cbn in *.
  pose proof (match_best std_sort _ m authority path E) as HB. rewrite Hm in HB.
  destruct HB as (e & sc & Hin & Hs & Hmax). apply service_entries in Hin as (svc & Hin & He).
  exists svc. split; [done|]. split; [|split; [done|]].
  - rewrite (assoc_map (fun c => (c, newAuthTokenVerifier (sc_auth c)))).
    assert (Ha : assoc name services = Some svc) by by apply assoc_elem. by rewrite Ha.
  - exists e, sc. split; [done|]. split; [done|]. intros n' svc' e' sc' H1 H2.
    apply (Hmax n'). apply service_entries. by exists svc'.
Qed.

(** The grants a request of an admitted session can draw on: those of the tokens
    of the setup message that verified when the session was set up, the anonymous
    claim, and where the service allows it those of the request's own tokens. *)
Definition sessionSource (config : AuthConfig) (setupParams : Parameters_) (t0 : Z)
    (params : Parameters_) (now : Z) (g : Grants) : Prop :=
  (exists token, In token (findAuthTokens setupParams (tokenType config)) /\
     verify (newAuthTokenVerifier config) token t0 = Ok g) \/
  g = buildAnonymousGrants (anonymousClaim config) \/
  (allowRequestTokenOverride config = true /\
   exists token, In token (findAuthTokens params (tokenType config)) /\
     verify (newAuthTokenVerifier config) token now = Ok g).
End theorems.

(** (C17) A session end to end.  Admission never aborts; an admitted session
    belongs to a service with a most specific match entry; and every request on it
    reaches the relay exactly when the service has no authorization, or the
    request is exempt (GOAWAY, or a namespace subscription carrying a relay token
    where the relay has an ID), or it stays within the limit on tokens and a grant
    covers it that comes from a setup token verified at admission, the anonymous
    claim, or, where allowed, a verified token of the request. *)
Theorem admitted_session_gated `{CA : CatapultApi} (std_sort : list PrefixRule -> list PrefixRule)
    `{SO : !sorts_by_length std_sort} (services : list (string * ServiceConfig)) (relayID : string)
    (ctx : RelayContext) (authority path : string) (setupParams : Parameters_) (t0 : Z) :
  NoDup (map fst services) -> newRelayContext std_sort services relayID = Some ctx ->
  validateAuthority ctx authority path setupParams t0 <> None /\
  forall h, validateAuthority ctx authority path setupParams t0 = Some (Ok h) ->
  exists svc, (hd_service h, svc) ∈ services /\
    (exists e sc, e ∈ sc_match svc /\ score e authority path = Some sc /\
      forall n' svc' e' sc', (n', svc') ∈ services -> e' ∈ sc_match svc' ->
        score e' authority path = Some sc' -> score_le sc' sc) /\
    forall req now, handleRequest h req now = Ok tt <->
      enabled (sc_auth svc) = false \/ exempt relayID req \/
      exists action params ns name, asksFor req = Some (action, params, ns, name) /\
        Z.of_nat (length (findAuthTokens params (tokenType (sc_auth svc)))) <= maxTokensPerMessage (sc_auth svc) /\
        exists g, sessionSource (sc_auth svc) setupParams t0 params now g /\
          allowsImpl g action ns name now = true.
Proof.
  intros Hnd Hctx. unfold validateAuthority.
  destruct (match_ (serviceMatcher_ ctx) authority path) as [name|] eqn:Em; [|done].
  destruct (matched_service std_sort services relayID ctx authority path name Hnd Hctx Em)
    as (svc & Hin & Ha & Hid & Hbest).
  rewrite Ha. split; [by destruct (authenticateSetup _ _ _)|]. intros h.
  destruct (authenticateSetup _ setupParams t0) as [[gs|]|err] eqn:Es; [| |done];
    intros [= <-]; exists svc; (split; [done|]); (split; [done|]); intros req now; cbn [handleRequest hd_filters].
  - destruct (authenticateSetup_session _ _ _ _ Es) as [He Hg]. rewrite Hid, filterRequest_spec.
    split.
    + intros [H|(action & params & ns & nm & Hask & H)]; [by right; left|].
      apply authorize_spec in H as [H|(Hmax & g & Hsrc & Hal)]; [congruence|].
      right; right. exists action, params, ns, nm. split; [done|]. split; [done|]. exists g. split; [|done].
      unfold sessionSource. destruct Hsrc as [H|[H|H]]; [left; by apply Hg|by right; left|by right; right].
    + intros [H|[H|(action & params & ns & nm & Hask & Hmax & g & Hsrc & Hal)]]; [congruence|by left|].
      right. exists action, params, ns, nm. split; [done|]. apply authorize_spec. right. split; [done|].
      exists g. split; [|done]. unfold source. destruct Hsrc as [H|[H|H]]; [left; by apply Hg|by right; left|by right; right].
  - apply authenticateSetup_off in Es. unfold handleRequest. cbn. naive_solver.
Qed.

(** A relay token of any value opens namespace subscriptions: on a relay with
    an ID, SUBSCRIBE_NAMESPACE and SUBSCRIBE_TRACKS of any prefix that carry such
    a token are forwarded whatever the grants of the session, and no part of the
    gate looks at the token's value. *)
Theorem relay_token_skips_grants `{CA : CatapultApi} (fl : Filters) (value : bytes) (nsPrefix : TrackNamespace)
    (now : Z) :
  fl_peeringEnabled fl = true ->
  let params := [mkParameter AUTHORIZATION_TOKEN (mkAuthToken kRelayAuthTokenType value)] in
  filterRequest fl now (SubscribeNamespaceReq params nsPrefix) = Ok tt /\
  filterRequest fl now (SubscribeTracksReq params nsPrefix) = Ok tt.
Proof.
  intros Hp. cbn zeta. set (params := [mkParameter _ _]).
  assert (Hid : bool_decide (is_Some (getPeerRelayID params)) = true).
  { apply bool_decide_eq_true. unfold getPeerRelayID, params. cbn [List.find p_key p_asAuthToken at_tokenType].
    rewrite !Z.eqb_refl. by eexists. }
  cbn [filterRequest]. unfold AuthPublisherFilter_subscribeNamespace, AuthPublisherFilter_subscribeTracks.
  by rewrite Hp, Hid.
Qed.

(** ** A session *)
#[local] Existing Instance ref_catapult.

Definition liveService : ServiceConfig := 
  mkServiceConfig [ME AnyAuthority (PrefixPath "/")] (mkCacheConfig 100 10 16 64 86400000 None) None theConfig [] 64.
Definition liveServices : list (string * ServiceConfig) := [("live"%string, liveService)].
Definition liveContext : RelayContext :=
  default (RCX (SM ∅ ∅ emptyRuleSet) [] "") (newRelayContext stable_sort liveServices "relay-1").

Definition setupTime : Z := 2000000000000.

(** The session presents an issued token at setup. *)
Lemma liveSession_admitted :
  exists h, validateAuthority liveContext "a.example.com" "/x" theParams setupTime = Some (Ok h).
Proof.
  destruct (validateAuthority liveContext "a.example.com" "/x" theParams setupTime) as [[h|e]|] eqn:E; [by exists h| |];
    vm_compute in E; discriminate.
Qed.

Lemma admitted_session_gated_witness :
  exists h svc, validateAuthority liveContext "a.example.com" "/x" theParams setupTime = Some (Ok h) /\
    (hd_service h, svc) ∈ liveServices /\
    forall req now, handleRequest h req now = Ok tt <->
      enabled (sc_auth svc) = false \/ exempt "relay-1" req \/
      exists action params ns name, asksFor req = Some (action, params, ns, name) /\
        Z.of_nat (length (findAuthTokens params (tokenType (sc_auth svc)))) <= maxTokensPerMessage (sc_auth svc) /\
        exists g, sessionSource (sc_auth svc) theParams setupTime params now g /\
          allowsImpl g action ns name now = true.
Proof.
  destruct liveSession_admitted as [h H].
  assert (Hnd : NoDup (map fst liveServices)) by (apply NoDup_singleton).
  assert (Hctx : newRelayContext stable_sort liveServices "relay-1" = Some liveContext) by reflexivity.
  destruct (admitted_session_gated stable_sort liveServices "relay-1" liveContext "a.example.com" "/x" theParams
              setupTime Hnd Hctx) as [_ HT].
  destruct (HT h H) as (svc & Hin & _ & Hreq). exists h, svc.
  split; [exact H|]. split; [exact Hin|exact Hreq].
Defined.

(** A subscription without a token is let through by the grant of the setup. *)
Example liveSession_subscribes :
  match validateAuthority liveContext "a.example.com" "/x" theParams setupTime with
  | Some (Ok h) => handleRequest h (SubscribeReq [] live [x76]) setupTime = Ok tt
  | _ => False
  end.
Proof. vm_compute. reflexivity. Qed.

Lemma relay_token_skips_grants_witness :
  filterRequest (FL (newAuthTokenVerifier theConfig) [] true) setupTime
    (SubscribeNamespaceReq [mkParameter AUTHORIZATION_TOKEN (mkAuthToken kRelayAuthTokenType [x00])] []) = Ok tt.
Proof.
  apply (relay_token_skips_grants (FL (newAuthTokenVerifier theConfig) [] true) [x00] [] setupTime). reflexivity.
Defined.
