(* ===== verification/ConfigResolve.v ===== *)
(** The validation and resolution of a configuration
    (config/ConfigResolver.cpp).

    A message of the resolver is a constructor with the values it names; the
    errors and the warnings of a step are a [Report], in the order in which the
    code pushes them.  An exception or an access to an absent value is [None].
    What the resolver asks of the system (files, environment variables, host
    names, the PKCS#12 reader over OpenSSL, random numbers) is the class
    [System_]; within one run an answer does not change. *)

From Stdlib Require Import QArith Strings.Byte String Ascii.
From stdpp Require Import pretty.
From S2P Require Import Prelude CborReader Auth AuthParse ServiceMatcher ConfigTypes.
Local Open Scope Z_scope.

(** ** Messages *)
Inductive Where := InListener (name : string) | InAdmin | InAdminTls.
Inductive ConfigError :=
  | SetOnlyOnePassword (w : Where)
  | Pkcs12Exclusive (w : Where)
  | CertAndKeyRequired (w : Where)
  | PasswordFileUnreadable (w : Where) (file : string)
  | PasswordEnvUnset (w : Where) (name : string)
  | Pkcs12Unusable (w : Where) (reason : string)
  | PortZero (w : Where)
  | AddressEmpty (w : Where)
  | BindAddressInvalid (w : Where) (address : string)
  | PicoquicInsecure (listener : string)
  | PicoquicPkcs12 (listener : string)
  | UnsupportedVersion (listener : string) (v : Z)
  | DuplicateListenerAddress (addr : string)
  | MaxDataBelowStreamData (listener : string) (data streamData : Z)
  | AckDelaysReversed (listener : string) (max min : Z)
  | CcAlgoInvalid (listener algo : string)
  | MaxCwndZero (listener : string)
  | PacketsPerLoopZero (listener : string)
  | GROBuffersZero (listener : string)
  | H3TimeoutTooLong (listener : string)
  | DeltaParamRange (listener : string) (v : Float)
  | CeTargetRange (listener : string) (v : Float)
  | PacingRequired (listener cc : string)
  | AdminPlaintextAndTls
  | AdminPlaintextOrTls
  | AuthorityExactEmpty (service : string) (j : nat)
  | WildcardStart (service : string) (j : nat) (pat : string)
  | WildcardOneStar (service : string) (j : nat) (pat : string)
  | AnyFalse (service : string) (j : nat)
  | PathEmpty (service : string) (j : nat)
  | PathSlash (service : string) (j : nat) (p : string)
  | DuplicateMatch (service key : string)
  | CacheEnabledRequired (service : string)
  | MaxTracksRequired (service : string)
  | MaxGroupsRequired (service : string)
  | MaxGroupsZero (service : string)
  | CacheDurationZero (service : string)
  | CachedMbZero (service : string)
  | BufferRequired (service : string)
  | UpstreamUrlEmpty
  | UpstreamTlsExclusive
  | UpstreamsExclusive (service : string)
  | HmacKeysRequired (service : string)
  | KeyIdEmpty (service : string) (i : nat)
  | KeyIdDuplicate (service : string) (i : nat)
  | KeySecretEmpty (service : string) (i : nat)
  | TokenTypeTooLarge (service : string)
  | MaxTokensRequired (service : string)
  | MaxTokensZero (service : string)
  | ActionsEmpty (service : string) (i : nat)
  | ActionUnknown (service : string) (i : nat) (name : string)
  | ActionSetup (service : string) (i : nat) (name : string)
  | ServiceRequired
  | ThreadsZero
  | RelayThreadRequired
  | LocalForwardersNeedRelayThread
  | MlogSampleRateRange (rate : Float).
Inductive ConfigWarning :=
  | ListFormDeprecated
  | TlsFilesIgnored (w : Where)
  | InlinePassword (w : Where)
  | FewUniStreams (listener : string) (n : Z)
  | FewBidiStreams (listener : string) (n : Z)
  | ShortIdleTimeout (listener : string) (ms : Z)
  | ManyGROBuffers (listener : string) (n : Z)
  | PicoPrefixPath (listeners : list string) (service : string) (j : nat) (p : string)
  | PicoNoExactPath (listeners : list string)
  | AnonymousClaimUnused (service : string).
(** The errors the resolver returns. *)
Inductive ResolveError :=
  | NoListener
  | ValidationFailed (errors : list ConfigError)
  | MetricsMaxLimitZero (limit : Z)
  | MetricsLimitExceedsMax (limit maxLimit : Z)
  | MlogDirInaccessible (dir : string)
  | MlogDirNotDirectory (dir : string)
  | QlogSampleRateRange (rate : Float).

Record Report := mkReport { errors : list ConfigError; warnings : list ConfigWarning }.
Definition ok : Report := mkReport [] [].
Definition report (a b : Report) : Report := mkReport (errors a ++ errors b) (warnings a ++ warnings b).
Infix "+++" := report (at level 60, right associativity).
Definition errorIf (b : bool) (e : ConfigError) : Report := mkReport (if b then [e] else []) [].
Definition warnIf (b : bool) (w : ConfigWarning) : Report := mkReport [] (if b then [w] else []).
Definition reports (l : list Report) : Report := foldr report ok l.

(** ** The system *)
Inductive FileType := FT_none | FT_not_found | FT_directory | FT_other.
#[global] Instance FileType_eq_dec : EqDecision FileType.
Proof. solve_decision. Defined.
Class System_ := {
  trimWhitespace : string -> string;
  readFile : string -> option string;
  getenv : string -> option string;
  loadPkcs12File : string -> string -> result string TlsMaterial;
  fsStatus : string -> bool * FileType;   (* whether an error is set, and the type *)
  rdRelayID : Z * Z;                      (* draws of 32 bits *)
  rdHopID : list (Z * Z);
}.

(** [std::to_string] of an unsigned number. *)
Definition to_string (n : Z) : string := pretty (Z.to_N n).
(** [o.has_value() && !o->empty()]. *)
Definition given (o : option string) : bool :=
  match o with Some s => negb (bool_decide (s = EmptyString)) | None => false end.
(** [emplace] keeps a key that is there. *)
Definition emplace {A} (k : string) (v : A) (m : gmap string A) : gmap string A :=
  match m !! k with Some _ => m | None => <[k := v]> m end.

(** ** Listeners *)
Definition parseQuicStack (stack : option ParsedQuicStack) : QuicStack :=
  match stack with
  | None => Mvfst
  | Some Stack_mvfst => Mvfst
  | Some Stack_picoquic => Picoquic
  | Some Stack_proxygen_qmux => ProxygenQmux
  end.

Definition kSupportedMoqtVersions : list Z := [16; 18].
Definition moqtVersionsToString (listener : ParsedListenerConfig) : string :=
  match moqt_versions listener with
  | None | Some [] => "16"
  | Some vs => join ","%char (map to_string vs)
  end.

Definition validatePkcs12PasswordExclusivity (tls : ParsedTlsFiles) (w : Where) : Report :=
  let sources := (if bool_decide (is_Some (pkcs12_password tls)) then 1 else 0) +
                 (if given (pkcs12_password_file tls) then 1 else 0) +
                 (if given (pkcs12_password_env tls) then 1 else 0) in
  errorIf (1 <? sources) (SetOnlyOnePassword w).

Definition validateListenerTlsConfig (tls : ParsedListenerTlsConfig) (w : Where) : Report :=
  let f := listener_tls_files tls in
  let hasCert := given (cert_file f) in
  let hasKey := given (key_file f) in
  let hasPkcs12 := given (pkcs12_file f) in
  if insecure tls then warnIf (hasCert || hasKey || hasPkcs12) (TlsFilesIgnored w)
  else if hasPkcs12 then
    errorIf (hasCert || hasKey) (Pkcs12Exclusive w) +++ validatePkcs12PasswordExclusivity f w
  else errorIf (negb hasCert || negb hasKey) (CertAndKeyRequired w).

Definition validateAdminTlsConfig (tls : ParsedAdminTlsConfig) : Report :=
  let f := admin_tls_files tls in
  let hasCert := given (cert_file f) in
  let hasKey := given (key_file f) in
  if given (pkcs12_file f) then
    errorIf (hasCert || hasKey) (Pkcs12Exclusive InAdminTls) +++ validatePkcs12PasswordExclusivity f InAdminTls
  else errorIf (negb hasCert || negb hasKey) (CertAndKeyRequired InAdminTls).

Definition tlsFile (mat : option TlsMaterial) (file : option string) : string :=
  if bool_decide (is_Some mat) then EmptyString else default EmptyString file.
Definition resolveTlsConfig (tls : ParsedListenerTlsConfig) (mat : option TlsMaterial) : TlsConfig :=
  let f := listener_tls_files tls in
  mkTlsConfig (tlsFile mat (cert_file f)) (tlsFile mat (key_file f)) [] mat.
Definition resolveAdminTlsConfig (tls : ParsedAdminTlsConfig) (defaultAlpn : list string) (mat : option TlsMaterial)
  : TlsConfig :=
  let f := admin_tls_files tls in
  mkTlsConfig (tlsFile mat (cert_file f)) (tlsFile mat (key_file f)) (default defaultAlpn (alpn tls)) mat.

(** One trailing ["\n"], then one trailing ["\r"]. *)
Fixpoint dropTrailing (c : ascii) (s : string) : string :=
  match s with
  | EmptyString => EmptyString
  | String d EmptyString => if Ascii.eqb d c then EmptyString else s
  | String d r => String d (dropTrailing c r)
  end.
Definition newline : ascii := ascii_of_nat 10.
Definition carriageReturn : ascii := ascii_of_nat 13.

(** Fields in the order of precedence: the overlay, then the base. *)
Definition over {A} (overlay base : option A) : option A :=
  match overlay with Some _ => overlay | None => base end.

Definition applyQuicOverride (base : QuicConfig) (o : ParsedQuicConfig) : QuicConfig :=
  mkQuicConfig
    (default (maxData base) (max_data o)) (default (maxStreamData base) (max_stream_data o))
    (default (maxUniStreams base) (max_uni_streams o)) (default (maxBidiStreams base) (max_bidi_streams o))
    (default (idleTimeoutMs base) (idle_timeout_ms o)) (default (maxAckDelayUs base) (max_ack_delay_us o))
    (default (minAckDelayUs base) (min_ack_delay_us o))
    (default (defaultStreamPriority base) (default_stream_priority o))
    (default (defaultDatagramPriority base) (default_datagram_priority o))
    (default (ccAlgo base) (cc_algo o)).
Definition applyIf {A B} (f : A -> B -> A) (base : A) (o : option B) : A :=
  match o with Some v => f base v | None => base end.
Definition mergeQuicConfig (defaults perListener : option ParsedQuicConfig) : QuicConfig :=
  applyIf applyQuicOverride (applyIf applyQuicOverride defaultQuic defaults) perListener.

Definition applyBBR (b : BBR) (o : ParsedBBR) : BBR :=
  mkBBR (default (conservativeRecovery b) (conservative_recovery o))
    (default (largeProbeRttCwnd b) (large_probe_rtt_cwnd o))
    (default (enableAckAggregationInStartup b) (enable_ack_aggregation_in_startup o))
    (default (probeRttDisabledIfAppLimited b) (probe_rtt_disabled_if_app_limited o))
    (default (drainToTarget b) (drain_to_target o)).
Definition applyBBR2 (b : BBR2) (o : ParsedBBR2) : BBR2 :=
  mkBBR2 (default (ignoreInflightLongTerm b) (ignore_inflight_long_term o))
    (default (ignoreShortTerm b) (ignore_short_term o))
    (default (exitStartupOnLoss b) (exit_startup_on_loss o))
    (default (enableRecoveryInStartup b) (enable_recovery_in_startup o))
    (default (enableRecoveryInProbeStates b) (enable_recovery_in_probe_states o))
    (default (enableRenoCoexistence b) (enable_reno_coexistence o))
    (default (paceInitCwnd b) (pace_init_cwnd o))
    (default (overrideCruisePacingGain b) (override_cruise_pacing_gain o))
    (default (overrideCruiseCwndGain b) (override_cruise_cwnd_gain o))
    (default (overrideStartupPacingGain b) (override_startup_pacing_gain o))
    (default (overrideBwShortBeta b) (override_bw_short_beta o)).
Definition applyCubic (b : Cubic) (o : ParsedCubic) : Cubic :=
  mkCubic (default (additiveIncreaseAfterHystart b) (additive_increase_after_hystart o))
    (default (onlyGrowCwndWhenLimited b) (only_grow_cwnd_when_limited o))
    (default (leaveHeadroomForCwndLimited b) (leave_headroom_for_cwnd_limited o)).
Definition applyMvfstOverride (base : MvfstConfig) (o : ParsedMvfstConfig) : MvfstConfig :=
  mkMvfstConfig
    (default (maxCwndInMss base) (max_cwnd_in_mss o)) (default (pacingEnabled base) (pacing_enabled o))
    (default (enableGSO base) (enable_gso o))
    (default (maxConnPacketsSentPerLoop base) (max_conn_packets_sent_per_loop o))
    (default (useRecvmmsg base) (use_recvmmsg o))
    (default (maxServerRecvPacketsPerLoop base) (max_server_recv_packets_per_loop o))
    (default (numGROBuffers base) (num_gro_buffers o)) (default (canIgnorePathMTU base) (ignore_path_mtu o))
    (default (udpSocketBufferBytes base) (udp_socket_buffer_bytes o))
    (default (h3TxnTimeoutMs base) (h3_txn_timeout_ms o))
    (applyIf applyBBR (bbr base) (parsed_bbr o)) (applyIf applyBBR2 (bbr2 base) (parsed_bbr2 o))
    (applyIf applyCubic (cubic base) (parsed_cubic o))
    (default (copa_deltaParam base) (mjoin (copa_delta_param o)))
    (default (l4s_ceTarget base) (mjoin (l4s_ce_target o))).
Definition mergeMvfstConfig (defaults perListener : option ParsedMvfstConfig) : MvfstConfig :=
  applyIf applyMvfstOverride (applyIf applyMvfstOverride defaultMvfst defaults) perListener.

Definition kPicoCcAlgos : list string :=
  ["bbr"; "bbr1"; "c4"; "cubic"; "dcubic"; "fast"; "newreno"; "prague"; "reno"]%string.
Definition kMvfstCcAlgos : list string :=
  ["bbr"; "bbr2"; "bbr2modular"; "copa"; "cubic"; "newreno"; "none"]%string.

Definition validateQuicConfig (q : QuicConfig) (stack : QuicStack) (name : string) : Report :=
  errorIf (maxData q <? maxStreamData q) (MaxDataBelowStreamData name (maxData q) (maxStreamData q)) +++
  warnIf (maxUniStreams q <? 100) (FewUniStreams name (maxUniStreams q)) +++
  warnIf (maxBidiStreams q <? 16) (FewBidiStreams name (maxBidiStreams q)) +++
  warnIf (idleTimeoutMs q <? 5000) (ShortIdleTimeout name (idleTimeoutMs q)) +++
  errorIf (maxAckDelayUs q <? minAckDelayUs q) (AckDelaysReversed name (maxAckDelayUs q) (minAckDelayUs q)) +++
  match stack with
  | ProxygenQmux => ok
  | _ => errorIf (negb (bool_decide (ccAlgo q ∈ match stack with Picoquic => kPicoCcAlgos | _ => kMvfstCcAlgos end)))
           (CcAlgoInvalid name (ccAlgo q))
  end.

Definition validateMvfstConfig (m : MvfstConfig) (name : string) : Report :=
  errorIf (maxCwndInMss m =? 0) (MaxCwndZero name) +++
  errorIf (maxConnPacketsSentPerLoop m =? 0) (PacketsPerLoopZero name) +++
  errorIf (numGROBuffers m =? 0) (GROBuffersZero name) +++
  warnIf (64 <? numGROBuffers m) (ManyGROBuffers name (numGROBuffers m)) +++
  errorIf (kMaxH3TxnTimeoutMs <? h3TxnTimeoutMs m) (H3TimeoutTooLong name) +++
  errorIf (fle (copa_deltaParam m) fzero || fle fone (copa_deltaParam m)) (DeltaParamRange name (copa_deltaParam m)) +++
  errorIf (flt (l4s_ceTarget m) fzero || fle fone (l4s_ceTarget m)) (CeTargetRange name (l4s_ceTarget m)).

(** ** Match entries, upstreams, caches *)
Definition validateMatchAuthority (a : ParsedAuthority) (service : string) (j : nat)
  : option (string * string) * Report :=
  match a with
  | ParsedExactAuthority v =>
    if bool_decide (v = EmptyString) then (None, errorIf true (AuthorityExactEmpty service j))
    else (Some ("exact"%string, v), ok)
  | ParsedWildcardAuthority pat =>
    match pat with
    | String c1 (String c2 (String c3 r)) =>
      if negb (Ascii.eqb c1 "*"%char) || negb (Ascii.eqb c2 "."%char)
      then (None, errorIf true (WildcardStart service j pat))
      else if hasStar (String c3 r) then (None, errorIf true (WildcardOneStar service j pat))
      else (Some ("wildcard"%string, pat), ok)
    | _ => (None, errorIf true (WildcardStart service j pat))
    end
  | ParsedAnyAuthority any =>
    if any then (Some ("any"%string, EmptyString), ok) else (None, errorIf true (AnyFalse service j))
  end.

Definition validatePath (p : PathMatcher) (service : string) (j : nat) : bool * Report :=
  match (match p with ExactPath v | PrefixPath v => v end) with
  | EmptyString => (false, errorIf true (PathEmpty service j))
  | String c r => if Ascii.eqb c "/"%char then (true, ok) else (false, errorIf true (PathSlash service j (String c r)))
  end.

Definition makeCompositeKey (authorityType authorityValue : string) (p : PathMatcher) : string :=
  (authorityType ++ ":" ++ authorityValue ++ "|" ++
   match p with ExactPath v => "exact:" ++ v | PrefixPath v => "prefix:" ++ v end)%string.

(** The loop over the entries of a service, with the keys seen so far. *)
Fixpoint validateEntries (entries : list (ParsedAuthority * PathMatcher)) (service : string) (j : nat)
    (compositeKeys : gset string) : gset string * Report :=
  match entries with
  | [] => (compositeKeys, ok)
  | (a, p) :: entries =>
    let '(authInfo, r) := validateMatchAuthority a service j in
    let '(keys, r) :=
      match authInfo with
      | None => (compositeKeys, r)
      | Some (type, value) =>
        let '(valid, r') := validatePath p service j in
        if negb valid then (compositeKeys, r +++ r')
        else
          let key := makeCompositeKey type value p in
          ({[key]} ∪ compositeKeys, r +++ r' +++ errorIf (bool_decide (key ∈ compositeKeys)) (DuplicateMatch service key))
      end in
    let '(keys, r') := validateEntries entries service (S j) keys in
    (keys, r +++ r')
  end.

Definition mergeCacheConfigs (base overlay : ParsedCacheConfig) : ParsedCacheConfig :=
  mkParsedCache (over (cache_enabled overlay) (cache_enabled base)) (over (max_tracks overlay) (max_tracks base))
    (over (max_groups_per_track overlay) (max_groups_per_track base))
    (over (max_cached_mb overlay) (max_cached_mb base)) (over (min_eviction_kb overlay) (min_eviction_kb base))
    (over (max_cache_duration_s overlay) (max_cache_duration_s base))
    (over (default_max_cache_duration_s overlay) (default_max_cache_duration_s base)).
Definition noCache : ParsedCacheConfig := mkParsedCache None None None None None None None.
Definition mergedCache (svc : ParsedServiceConfig) (defaults : option ParsedCacheConfig) : ParsedCacheConfig :=
  match service_cache svc, defaults with
  | Some c, Some d => mergeCacheConfigs d c
  | Some c, None => c
  | None, Some d => d
  | None, None => noCache
  end.
Definition isZero (o : option Z) : bool := match o with Some n => n =? 0 | None => false end.
Definition validateCache (service : string) (c : ParsedCacheConfig) : Report :=
  errorIf (bool_decide (cache_enabled c = None)) (CacheEnabledRequired service) +++
  errorIf (bool_decide (max_tracks c = None)) (MaxTracksRequired service) +++
  errorIf (bool_decide (max_groups_per_track c = None)) (MaxGroupsRequired service) +++
  errorIf (default false (cache_enabled c) && match max_groups_per_track c with Some n => n <? 1 | None => false end)
    (MaxGroupsZero service) +++
  errorIf (isZero (max_cache_duration_s c)) (CacheDurationZero service) +++
  errorIf (isZero (max_cached_mb c)) (CachedMbZero service).

(** [None] when a required field is absent. *)
Definition resolveCacheConfig (c : ParsedCacheConfig) : option CacheConfig :=
  let duration := default 86400 (max_cache_duration_s c) * 1000 in
  let defaultDuration := match default_max_cache_duration_s c with Some s => s * 1000 | None => duration end in
  tracks ← match cache_enabled c with None => None | Some true => max_tracks c | Some false => Some 0 end;
  groups ← max_groups_per_track c;
  Some (mkCacheConfig tracks groups (default 16 (max_cached_mb c)) (default 64 (min_eviction_kb c)) duration
          (Some defaultDuration)).

Definition validateUpstream (u : ParsedUpstreamConfig) : Report :=
  errorIf (bool_decide (upstream_url u = EmptyString)) UpstreamUrlEmpty +++
  errorIf (upstream_insecure u && bool_decide (is_Some (ca_cert u))) UpstreamTlsExclusive.
Definition resolveUpstream (u : ParsedUpstreamConfig) : UpstreamConfig :=
  mkUpstreamConfig (upstream_url u) (upstream_insecure u) (ca_cert u) (default 5000 (connect_timeout_ms u))
    (default 5000 (upstream_idle_timeout_ms u)) (default 1 (relay_cost u)).

Definition mergedSubscriptionBufferKb (svc : ParsedServiceConfig) (config : ParsedConfig) : option Z :=
  match max_subscription_buffer_kb svc with
  | Some kb => Some kb
  | None => d ← service_defaults config; defaults_max_subscription_buffer_kb d
  end.

(** ** Authorization *)
Definition kQuicVarintExclusiveUpperBound : Z := Z.shiftl 1 62.

Fixpoint validateKeys (keys : list ParsedHmacKey) (service : string) (i : nat) (keyIDs : gset string) : Report :=
  match keys with
  | [] => ok
  | key :: keys =>
    let id := key_id key in
    (if bool_decide (id = EmptyString) then errorIf true (KeyIdEmpty service i)
     else errorIf (bool_decide (id ∈ keyIDs)) (KeyIdDuplicate service i)) +++
    errorIf (bool_decide (key_secret key = EmptyString)) (KeySecretEmpty service i) +++
    validateKeys keys service (S i) (if bool_decide (id = EmptyString) then keyIDs else {[id]} ∪ keyIDs)
  end.

Section system.
Context {SA : SocketApi} {SY : System_}.

Definition validateAction (service : string) (i : nat) (name : string) : Report :=
  match canonicalAction trimWhitespace name with
  | None => errorIf true (ActionUnknown service i name)
  | Some ClientSetup | Some ServerSetup => errorIf true (ActionSetup service i name)
  | Some _ => ok
  end.
Definition validateScope (service : string) (i : nat) (scope : ParsedAnonymousScope) : Report :=
  match scope_actions scope with
  | [] => errorIf true (ActionsEmpty service i)
  | actions => reports (map (validateAction service i) actions)
  end.

Definition validateAuth (service : string) (auth : ParsedAuthConfig) : Report :=
  (if auth_enabled auth then
     match hmac_keys auth with
     | None | Some [] => errorIf true (HmacKeysRequired service)
     | Some keys => validateKeys keys service 0 ∅
     end +++
     errorIf (kQuicVarintExclusiveUpperBound <=? default 0 (token_type auth)) (TokenTypeTooLarge service) +++
     match max_tokens_per_message auth with
     | None => errorIf true (MaxTokensRequired service)
     | Some n => errorIf (n =? 0) (MaxTokensZero service)
     end
   else ok) +++
  match anonymous_claim auth with
  | None => ok
  | Some claim =>
    warnIf (negb (auth_enabled auth) && negb (bool_decide (length claim = 0%nat))) (AnonymousClaimUnused service) +++
    reports (imap (validateScope service) claim)
  end.

(** [*canonicalAction(name)] of every name. *)
Fixpoint resolveActions (names : list string) : option (list Action) :=
  match names with
  | [] => Some []
  | name :: names =>
    a ← canonicalAction trimWhitespace name;
    actions ← resolveActions names;
    Some (a :: actions)
  end.
Definition resolveAnonymousScope (scope : ParsedAnonymousScope) : option AnonymousScope :=
  actions ← resolveActions (scope_actions scope);
  Some (mkAnonymousScope actions
    ((fun m => map list_byte_of_string m.2) <$> namespace_match scope)
    (match namespace_match scope with Some m => m.1 | None => Exact end)
    ((fun m => list_byte_of_string m.2) <$> track_match scope)
    (match track_match scope with Some m => m.1 | None => Exact end)).
Fixpoint resolveScopes (l : list ParsedAnonymousScope) : option (list AnonymousScope) :=
  match l with
  | [] => Some []
  | scope :: l => s ← resolveAnonymousScope scope; r ← resolveScopes l; Some (s :: r)
  end.

Definition noAuth : AuthConfig := mkAuthConfig false 0 [] true true false [] 0.
Definition resolveAuth (parsed : option ParsedAuthConfig) : option AuthConfig :=
  match parsed with
  | None => Some noAuth
  | Some p =>
    claim ← resolveScopes (default [] (anonymous_claim p));
    Some (mkAuthConfig (auth_enabled p) (default 0 (token_type p))
      (map (fun k => mkHmacKey (list_byte_of_string (key_id k)) (list_byte_of_string (key_secret k)))
         (default [] (hmac_keys p)))
      (default true (require_setup_token p)) (default true (allow_request_token_override p))
      (default false (strict_claims p)) claim (default 0 (max_tokens_per_message p)))
  end.

Definition mergedAuth (auth : ParsedAuthConfig) (config : ParsedConfig) : ParsedAuthConfig :=
  match max_tokens_per_message auth, (d ← service_defaults config; defaults_max_tokens_per_message d) with
  | None, Some n =>
    mkParsedAuth (auth_enabled auth) (token_type auth) (hmac_keys auth) (require_setup_token auth)
      (allow_request_token_override auth) (strict_claims auth) (anonymous_claim auth) n
  | _, _ => auth
  end.

(** ** Services *)
Record ServiceState := mkServiceState {
  compositeKeys : gset string;
  mergedCaches : gmap string ParsedCacheConfig;
  mergedAuths : gmap string ParsedAuthConfig;
}.

Definition validateServiceAuth (name : string) (svc : ParsedServiceConfig) (config : ParsedConfig)
    (auths : gmap string ParsedAuthConfig) : gmap string ParsedAuthConfig * Report :=
  match service_auth svc with
  | None => (auths, ok)
  | Some auth =>
    let merged := mergedAuth auth config in
    (emplace name merged auths, validateAuth name merged)
  end.

Definition validateService (name : string) (svc : ParsedServiceConfig) (config : ParsedConfig) (st : ServiceState)
  : ServiceState * Report :=
  let '(keys, r1) := validateEntries (service_match svc) name 0 (compositeKeys st) in
  let merged := mergedCache svc (d ← service_defaults config; defaults_cache d) in
  let '(auths, r2) := validateServiceAuth name svc config (mergedAuths st) in
  (mkServiceState keys (emplace name merged (mergedCaches st)) auths,
   r1 +++ validateCache name merged +++
   errorIf (bool_decide (mergedSubscriptionBufferKb svc config = None)) (BufferRequired name) +++
   match service_upstream svc with Some u => validateUpstream u | None => ok end +++
   match service_upstreams svc with
   | Some us => errorIf (bool_decide (is_Some (service_upstream svc))) (UpstreamsExclusive name) +++
                reports (map validateUpstream us)
   | None => ok
   end +++ r2).

Fixpoint validateServices (svcs : list (string * ParsedServiceConfig)) (config : ParsedConfig) (st : ServiceState)
  : ServiceState * Report :=
  match svcs with
  | [] => (st, ok)
  | (name, svc) :: svcs =>
    let '(st, r) := validateService name svc config st in
    let '(st, r') := validateServices svcs config st in
    (st, r +++ r')
  end.

Definition resolveService (svc : ParsedServiceConfig) (cache : ParsedCacheConfig) (auth : option ParsedAuthConfig)
    (maxSubscriptionBufferKb : Z) : option ServiceConfig :=
  cache ← resolveCacheConfig cache;
  auth ← resolveAuth auth;
  Some (mkServiceConfig (map (fun e => resolveMatchEntry e.1 e.2) (service_match svc)) cache
    (resolveUpstream <$> service_upstream svc) auth (map resolveUpstream (default [] (service_upstreams svc)))
    maxSubscriptionBufferKb).

(** The loop of the resolution; [mergedCaches.at] throws on an absent name. *)
Fixpoint resolveServices (svcs : list (string * ParsedServiceConfig)) (config : ParsedConfig) (st : ServiceState)
  : option (list (string * ServiceConfig)) :=
  match svcs with
  | [] => Some []
  | (name, svc) :: svcs =>
    cache ← mergedCaches st !! name;
    kb ← mergedSubscriptionBufferKb svc config;
    s ← resolveService svc cache (mergedAuths st !! name) kb;
    r ← resolveServices svcs config st;
    Some ((name, s) :: r)
  end.

(** ** Listeners and the admin server, against the system *)
Definition resolvePkcs12Password (w : Where) (f : ParsedTlsFiles) : result ConfigError string :=
  match pkcs12_password_file f, pkcs12_password_env f, pkcs12_password f with
  | pwFile, pwEnv, inlinePw =>
    if given pwFile then
      match readFile (default EmptyString pwFile) with
      | None => Err (PasswordFileUnreadable w (default EmptyString pwFile))
      | Some pw => Ok (dropTrailing carriageReturn (dropTrailing newline pw))
      end
    else if given pwEnv then
      match getenv (default EmptyString pwEnv) with
      | None => Err (PasswordEnvUnset w (default EmptyString pwEnv))
      | Some val => Ok val
      end
    else Ok (default EmptyString inlinePw)
  end.

Definition resolvePkcs12Material (f : ParsedTlsFiles) (w : Where) : option TlsMaterial * Report :=
  if negb (given (pkcs12_file f)) || (given (cert_file f) || given (key_file f)) then (None, ok)
  else
    let warned := warnIf (bool_decide (is_Some (pkcs12_password f))) (InlinePassword w) in
    match resolvePkcs12Password w f with
    | Err e => (None, warned +++ errorIf true e)
    | Ok pw =>
      match loadPkcs12File (default EmptyString (pkcs12_file f)) pw with
      | Err reason => (None, warned +++ errorIf true (Pkcs12Unusable w reason))
      | Ok m => (Some m, warned)
      end
    end.

Definition validateBindAddress (address : string) (port : Z) (w : Where) : Report :=
  if bool_decide (address = EmptyString) then errorIf true (AddressEmpty w)
  else errorIf (match newSocketAddress address port with Some _ => false | None => true end) (BindAddressInvalid w address).

Definition validateListener (l : ParsedListenerConfig) : Report :=
  let w := InListener (listener_name l) in
  let picoquic := bool_decide (parseQuicStack (quic_stack l) = Picoquic) in
  errorIf (socket_port (udp_socket l) =? 0) (PortZero w) +++
  validateBindAddress (socket_address (udp_socket l)) (socket_port (udp_socket l)) w +++
  validateListenerTlsConfig (listener_tls l) w +++
  errorIf (picoquic && insecure (listener_tls l)) (PicoquicInsecure (listener_name l)) +++
  errorIf (picoquic && given (pkcs12_file (listener_tls_files (listener_tls l)))) (PicoquicPkcs12 (listener_name l)) +++
  reports (map (fun v => errorIf (negb (bool_decide (v ∈ kSupportedMoqtVersions)))
                           (UnsupportedVersion (listener_name l) v)) (default [] (moqt_versions l))).

Definition validateAdmin (config : ParsedConfig) : Report :=
  match parsed_admin config with
  | None => ok
  | Some a =>
    let hasTls := bool_decide (is_Some (admin_tls a)) in
    errorIf (admin_port a =? 0) (PortZero InAdmin) +++
    validateBindAddress (admin_address a) (admin_port a) InAdmin +++
    (if hasTls && admin_plaintext a then errorIf true AdminPlaintextAndTls
     else errorIf (negb hasTls && negb (admin_plaintext a)) AdminPlaintextOrTls) +++
    match admin_tls a with Some tls => validateAdminTlsConfig tls | None => ok end
  end.

(** What the loop over the listeners keeps of each. *)
Record MergedListener := mkMerged { ml_quic : QuicConfig; ml_mvfst : MvfstConfig; ml_material : option TlsMaterial }.

Definition mergeListener (config : ParsedConfig) (l : ParsedListenerConfig) : MergedListener * Report :=
  let '(mat, r) := if insecure (listener_tls l) then (None, ok)
                   else resolvePkcs12Material (listener_tls_files (listener_tls l)) (InListener (listener_name l)) in
  (mkMerged (mergeQuicConfig (d ← listener_defaults config; defaults_quic d) (listener_quic l))
            (mergeMvfstConfig (d ← listener_defaults config; defaults_mvfst d) (listener_mvfst l)) mat, r).

Definition needsPacing (cc : string) : bool := bool_decide (cc ∈ ["bbr"; "bbr2"; "bbr2modular"]%string).
Definition validateTransport (l : ParsedListenerConfig) (m : MergedListener) : Report :=
  let stack := parseQuicStack (quic_stack l) in
  let name := listener_name l in
  validateQuicConfig (ml_quic m) stack name +++
  match stack with
  | Mvfst =>
    validateMvfstConfig (ml_mvfst m) name +++
    errorIf (negb (pacingEnabled (ml_mvfst m)) && needsPacing (ccAlgo (ml_quic m))) (PacingRequired name (ccAlgo (ml_quic m)))
  | _ => ok
  end.

Definition listenerAddr (l : ParsedListenerConfig) : string :=
  (socket_address (udp_socket l) ++ ":" ++ to_string (socket_port (udp_socket l)))%string.

Fixpoint validateListeners (ls : list ParsedListenerConfig) (config : ParsedConfig) (listenerAddrs : gset string)
  : list MergedListener * Report :=
  match ls with
  | [] => ([], ok)
  | l :: ls =>
    let '(m, r) := mergeListener config l in
    let '(ms, r') := validateListeners ls config ({[listenerAddr l]} ∪ listenerAddrs) in
    (m :: ms,
     validateListener l +++ r +++
     errorIf (bool_decide (listenerAddr l ∈ listenerAddrs)) (DuplicateListenerAddress (listenerAddr l)) +++
     validateTransport l m +++ r')
  end.

Definition validatePicoServicePaths (svcs : list (string * ParsedServiceConfig)) (picoListenerNames : list string)
  : Report :=
  let paths := svcs ≫= fun s => imap (fun j e => (s.1, j, e.2)) (service_match s.2) in
  reports (map (fun '(svcName, j, p) =>
    match p with
    | PrefixPath v => warnIf true (PicoPrefixPath picoListenerNames svcName j v)
    | ExactPath _ => ok
    end) paths) +++
  warnIf (negb (existsb (fun '(_, _, p) => match p with ExactPath _ => true | PrefixPath _ => false end) paths))
    (PicoNoExactPath picoListenerNames).
Definition validatePico (config : ParsedConfig) : Report :=
  match omap (fun l => if bool_decide (parseQuicStack (quic_stack l) = Picoquic) then Some (listener_name l) else None)
          (parsed_listeners config) with
  | [] => ok
  | names => validatePicoServicePaths (parsed_services config) names
  end.

Definition resolveListener (l : ParsedListenerConfig) (m : MergedListener) : option ListenerConfig :=
  let tls := listener_tls l in
  address ← newSocketAddress (socket_address (udp_socket l)) (socket_port (udp_socket l));
  Some (mkListenerConfig (listener_name l) address
    (if insecure tls then Insecure else Tls (resolveTlsConfig tls (ml_material m)))
    (listener_endpoint l) (moqtVersionsToString l) (parseQuicStack (quic_stack l)) (ml_quic m) (ml_mvfst m)).
Fixpoint resolveListeners (ls : list ParsedListenerConfig) (ms : list MergedListener) : option (list ListenerConfig) :=
  match ls, ms with
  | [], _ => Some []
  | l :: ls, m :: ms => c ← resolveListener l m; r ← resolveListeners ls ms; Some (c :: r)
  | _ :: _, [] => None
  end.

Definition adminMaterialOf (config : ParsedConfig) : option TlsMaterial * Report :=
  match a ← parsed_admin config; admin_tls a with
  | Some tls => resolvePkcs12Material (admin_tls_files tls) InAdminTls
  | None => (None, ok)
  end.

Definition kDefaultAdminAlpn : list string := ["h2"; "http/1.1"]%string.
(** The outer [None]: the constructor of the address throws. *)
Definition resolveAdmin (config : ParsedConfig) (adminMaterial : option TlsMaterial)
  : option (result ResolveError (option AdminConfig)) :=
  match parsed_admin config with
  | None => Some (Ok None)
  | Some a =>
    address ← newSocketAddress (admin_address a) (admin_port a);
    let tls := (fun tls => resolveAdminTlsConfig tls kDefaultAdminAlpn adminMaterial) <$> admin_tls a in
    let limit := default 10 (track_metrics_endpoint_default_limit a) in
    let maxLimit := default 1000 (track_metrics_endpoint_max_limit a) in
    if match track_metrics_endpoint_max_limit a with Some n => n <=? 0 | None => false end
    then Some (Err (MetricsMaxLimitZero maxLimit))
    else if maxLimit <? limit then Some (Err (MetricsLimitExceedsMax limit maxLimit))
    else Some (Ok (Some (mkAdminConfig address tls (default false (track_metrics_enabled a)) limit maxLimit)))
  end.

(** Sixteen hexadecimal digits. *)
Definition hexDigit (n : Z) : ascii := ascii_of_N (Z.to_N (if n <? 10 then 48 + n else 87 + n)).
Fixpoint hexDigits (k : nat) (n : Z) (acc : string) : string :=
  match k with
  | O => acc
  | S k => hexDigits k (Z.shiftr n 4) (String (hexDigit (Z.land n 15)) acc)
  end.
Definition draw64 (d : Z * Z) : Z := Z.lor (Z.shiftl d.1 32) d.2.
Definition generateRelayID : string := hexDigits 16 (draw64 rdRelayID) EmptyString.
(** Draws until one is not 0; [None] if the draws run out. *)
Fixpoint generateHopID (draws : list (Z * Z)) : option Z :=
  match draws with
  | [] => None
  | d :: draws => if draw64 d =? 0 then generateHopID draws else Some (draw64 d)
  end.
(** [value_or(generateHopID())] draws also when there is a value. *)
Definition resolveCluster (config : ParsedConfig) : option (option Z) :=
  match parsed_cluster config with
  | None => hop ← generateHopID rdHopID; Some (Some hop)
  | Some c =>
    if default true (cluster_enabled c)
    then hop ← generateHopID rdHopID; Some (Some (default hop (hop_id c)))
    else Some None
  end.

Definition outsideUnit (rate : Float) : bool := flt rate fzero || flt fone rate.
Definition validateProcess (config : ParsedConfig) : Report :=
  let n := default 1 (threads config) in
  let useRelayThread := default true (use_relay_thread config) in
  errorIf (n =? 0) ThreadsZero +++
  errorIf ((1 <? n) && negb useRelayThread) RelayThreadRequired +++
  errorIf (default false (use_local_forwarders config) && negb useRelayThread) LocalForwardersNeedRelayThread +++
  match logging ← parsed_logging config; mlog ← parsed_mlog logging; sample_rate mlog with
  | Some rate => errorIf (outsideUnit rate) (MlogSampleRateRange rate)
  | None => ok
  end.

Definition resolveMlog (m : option ParsedLogConfig) : result ResolveError (option LogConfig) :=
  match m with
  | None => Ok None
  | Some m =>
    let c := mkLogConfig (log_dir m) (default fzero (sample_rate m)) in
    if bool_decide (log_dir m = EmptyString) then Ok (Some c)
    else
      let '(ec, type) := fsStatus (log_dir m) in
      if ec && negb (bool_decide (type = FT_not_found)) then Err (MlogDirInaccessible (log_dir m))
      else if negb (bool_decide (type = FT_none)) && negb (bool_decide (type = FT_not_found)) &&
              negb (bool_decide (type = FT_directory)) then Err (MlogDirNotDirectory (log_dir m))
      else Ok (Some c)
  end.
Definition resolveQlog (m : option ParsedLogConfig) : result ResolveError (option LogConfig) :=
  match m with
  | None => Ok None
  | Some m =>
    let rate := default fzero (sample_rate m) in
    if outsideUnit rate then Err (QlogSampleRateRange rate) else Ok (Some (mkLogConfig (log_dir m) rate))
  end.
Definition resolveLogging (config : ParsedConfig) : result ResolveError (option LoggingConfig) :=
  match parsed_logging config with
  | None => Ok None
  | Some l =>
    match resolveMlog (parsed_mlog l) with
    | Err e => Err e
    | Ok m => match resolveQlog (parsed_qlog l) with
              | Err e => Err e
              | Ok q => Ok (Some (mkLoggingConfig m q))
              end
    end
  end.

(** ** The whole *)
Definition emptyServiceState : ServiceState := mkServiceState ∅ ∅ ∅.

(** The validation of a configuration with a listener: the report, and what the
    resolution uses. *)
Definition validateConfig (config : ParsedConfig) : list MergedListener * option TlsMaterial * ServiceState * Report :=
  let '(merged, r1) := validateListeners (parsed_listeners config) config ∅ in
  let '(adminMaterial, r2) := adminMaterialOf config in
  let '(st, r3) := validateServices (parsed_services config) config emptyServiceState in
  (merged, adminMaterial, st,
   warnIf (listForm config) ListFormDeprecated +++ r1 +++ validatePico config +++ validateAdmin config +++ r2 +++
   errorIf (bool_decide (length (parsed_services config) = 0%nat)) ServiceRequired +++ r3 +++ validateProcess config).

Definition resolveConfig (config : ParsedConfig) : option (result ResolveError (Config * list ConfigWarning)) :=
  if bool_decide (length (parsed_listeners config) = 0%nat) then Some (Err NoListener)
  else
    let '(merged, adminMaterial, st, r) := validateConfig config in
    match errors r with
    | _ :: _ => Some (Err (ValidationFailed (errors r)))
    | [] =>
      resolvedServices ← resolveServices (parsed_services config) config st;
      adminResult ← resolveAdmin config adminMaterial;
      match adminResult with
      | Err e => Some (Err e)
      | Ok adminConfig =>
        let relay := default generateRelayID (relay_id config) in
        hop ← resolveCluster config;
        match resolveLogging config with
        | Err e => Some (Err e)
        | Ok loggingConfig =>
          ls ← resolveListeners (parsed_listeners config) merged;
          Some (Ok (mkConfig ls resolvedServices adminConfig relay (default 1 (threads config))
            (default true (use_relay_thread config)) (default false (use_local_forwarders config))
            (default true (mvfst_bpf_steering config)) loggingConfig hop, warnings r))
        end
      end
    end.
End system.
