(* ===== verification/ConfigValid.v ===== *)
(** What a resolved configuration promises to the parts of the program that read
    it, and that the resolver keeps the promise. *)

From Stdlib Require Import QArith Strings.Byte String Ascii.
From stdpp Require Import pretty.
From S2P Require Import Prelude CborReader Auth AuthParse ServiceMatcher ConfigTypes ConfigResolve.
Local Open Scope Z_scope.

(** ** The promise *)
(** A number between the bounds, or a NaN: the checks compare, and every
    comparison with a NaN is false. *)
Definition between (lo hi : Q -> Prop) (f : Float) : Prop := f = FNaN \/ exists q, f = FFinite q /\ lo q /\ hi q.

Definition quic_ok (stack : QuicStack) (q : QuicConfig) : Prop :=
  maxStreamData q <= maxData q /\ minAckDelayUs q <= maxAckDelayUs q /\
  match stack with
  | Mvfst => ccAlgo q ∈ kMvfstCcAlgos
  | Picoquic => ccAlgo q ∈ kPicoCcAlgos
  | ProxygenQmux => True
  end.
Definition mvfst_ok (q : QuicConfig) (m : MvfstConfig) : Prop :=
  maxCwndInMss m <> 0 /\ maxConnPacketsSentPerLoop m <> 0 /\ numGROBuffers m <> 0 /\
  h3TxnTimeoutMs m <= kMaxH3TxnTimeoutMs /\
  between (fun x => 0 < x)%Q (fun x => x < 1)%Q (copa_deltaParam m) /\
  between (fun x => 0 <= x)%Q (fun x => x < 1)%Q (l4s_ceTarget m) /\
  (ccAlgo q ∈ ["bbr"; "bbr2"; "bbr2modular"]%string -> pacingEnabled m = true).

Definition cache_ok (c : CacheConfig) : Prop :=
  (maxCachedTracks c <> 0 -> 1 <= maxCachedGroupsPerTrack c) /\ maxCachedMb c <> 0 /\ maxCacheDuration c <> 0 /\
  is_Some (defaultMaxCacheDuration c).

Definition scope_ok (s : AnonymousScope) : Prop :=
  an_actions s <> [] /\ Forall (fun a => known a = true /\ a <> ClientSetup /\ a <> ServerSetup) (an_actions s).
Definition auth_ok (a : AuthConfig) : Prop :=
  (enabled a = true ->
   hmacKeys a <> [] /\ NoDup (map hk_id (hmacKeys a)) /\
   Forall (fun k => hk_id k <> [] /\ hk_secret k <> []) (hmacKeys a) /\
   tokenType a < 2 ^ 62 /\ maxTokensPerMessage a <> 0) /\
  Forall scope_ok (anonymousClaim a).

Definition upstream_ok (u : UpstreamConfig) : Prop :=
  url u <> EmptyString /\ (us_insecure u = true -> caCertFile u = None).
Definition entry_ok (e : MatchEntry) : Prop :=
  pathValid (path e) = true /\ exists a, authorityValid a = true /\ authority e = resolveAuthority a.
Definition service_ok (s : ServiceConfig) : Prop :=
  Forall entry_ok (sc_match s) /\ cache_ok (sc_cache s) /\ auth_ok (sc_auth s) /\
  Forall upstream_ok (option_list (sc_upstream s)) /\ Forall upstream_ok (sc_upstreams s) /\
  (sc_upstream s = None \/ sc_upstreams s = []).

Definition logs_ok (l : LogConfig) : Prop := between (fun x => 0 <= x)%Q (fun x => x <= 1)%Q (lg_sampleRate l).

Section promise.
Context {SA : SocketApi} {SY : System_}.

(** Certificate and key are in files, or come from a bundle. *)
Definition tls_ok (t : TlsConfig) : Prop :=
  match material t with
  | Some m => certFile t = EmptyString /\ keyFile t = EmptyString /\ exists file password, loadPkcs12File file password = Ok m
  | None => certFile t <> EmptyString /\ keyFile t <> EmptyString
  end.
Definition tls_mode_ok (stack : QuicStack) (mode : TlsMode) : Prop :=
  match mode with
  | Insecure => stack <> Picoquic
  | Tls t => tls_ok t /\ tls_alpn t = [] /\ (stack = Picoquic -> material t = None)
  end.
Definition versions_ok (s : string) : Prop :=
  exists vs, vs <> [] /\ Forall (fun v => v = 16 \/ v = 18) vs /\ s = join ","%char (map to_string vs).
Definition listener_ok (l : ListenerConfig) : Prop :=
  tls_mode_ok (quicStack l) (tlsMode l) /\ versions_ok (moqtVersions l) /\ quic_ok (quicStack l) (quic l) /\
  (quicStack l = Mvfst -> mvfst_ok (quic l) (mvfst l)).
Definition admin_ok (a : AdminConfig) : Prop :=
  match ad_tls a with Some t => tls_ok t | None => True end /\
  trackMetricsMaxLimit a <> 0 /\ trackMetricsLimit a <= trackMetricsMaxLimit a.

Record config_ok (c : Config) : Prop := mkConfigOk {
  co_listeners : listeners c <> [] /\ Forall listener_ok (listeners c);
  co_binds : exists binds : list (string * Z), NoDup binds /\
    Forall2 (fun b l => b.1 <> EmptyString /\ b.2 <> 0 /\ newSocketAddress b.1 b.2 = Some (l_address l)) binds (listeners c);
  co_services : services c <> [] /\ NoDup (map fst (services c)) /\ Forall (fun s => service_ok s.2) (services c);
  co_entries : NoDup (services c ≫= fun s => sc_match s.2);
  co_admin : match admin c with Some a => admin_ok a | None => True end;
  co_threads : cfg_threads c <> 0 /\ (1 < cfg_threads c -> useRelayThread c = true) /\
    (useLocalForwarders c = true -> useRelayThread c = true);
  co_logging : forall l, logging c = Some l -> Forall logs_ok (option_list (mlog l) ++ option_list (qlog l));
}.
End promise.

(** ** Reports without an error *)
Definition clean (r : Report) : Prop := errors r = [].

Lemma clean_report a b : clean (a +++ b) <-> clean a /\ clean b.
Proof. unfold clean. cbn. apply app_nil. Qed.
Lemma clean_errorIf b e : clean (errorIf b e) <-> b = false.
Proof. unfold clean, errorIf. by destruct b. Qed.
Lemma clean_warnIf b w : clean (warnIf b w) <-> True.
Proof. done. Qed.
Lemma clean_reports l : clean (reports l) <-> Forall clean l.
Proof.
  induction l as [|r l IH]; cbn; [by rewrite Forall_nil|]. by rewrite clean_report, IH, Forall_cons.
Qed.

(** The hypothesis that a report has no error, taken apart. *)
Ltac clean_inv :=
  repeat match goal with
  | H : clean (_ +++ _) |- _ => apply clean_report in H as [? ?]
  | H : clean (errorIf _ _) |- _ => apply clean_errorIf in H
  | H : clean (warnIf _ _) |- _ => clear H
  | H : clean ok |- _ => clear H
  | H : clean (reports _) |- _ => apply clean_reports in H
  | H : (_ || _) = false |- _ => apply orb_false_iff in H as [? ?]
  | H : negb _ = false |- _ => apply negb_false_iff in H
  | H : bool_decide _ = false |- _ => apply bool_decide_eq_false in H
  | H : bool_decide _ = true |- _ => apply bool_decide_eq_true in H
  | H : (_ =? _) = false |- _ => apply Z.eqb_neq in H
  | H : (_ <? _) = false |- _ => apply Z.ltb_ge in H
  | H : (_ <=? _) = false |- _ => apply Z.leb_gt in H
  end.

(** ** Floating-point bounds *)
Lemma Qle_bool_false x y : Qle_bool x y = false <-> (y < x)%Q.
Proof.
  rewrite <- not_true_iff_false, Qle_bool_iff. split; [apply Qnot_le_lt|]. intros H. by apply Qlt_not_le.
Qed.
Lemma between_open f : fle f fzero || fle fone f = false -> between (fun x => 0 < x)%Q (fun x => x < 1)%Q f.
Proof.
  intros [H1 H2]%orb_false_iff. destruct f as [|[]|q]; [by left|done|done|]. right. exists q.
  cbn in H1, H2. rewrite negb_involutive in H1, H2. rewrite !Qle_bool_false in *. done.
Qed.
Lemma between_half f : flt f fzero || fle fone f = false -> between (fun x => 0 <= x)%Q (fun x => x < 1)%Q f.
Proof.
  intros [H1 H2]%orb_false_iff. destruct f as [|[]|q]; [by left|done|done|]. right. exists q.
  cbn in H1, H2. rewrite negb_involutive in H2. rewrite negb_false_iff, Qle_bool_iff in H1.
  by rewrite Qle_bool_false in H2.
Qed.
Lemma between_closed f : outsideUnit f = false -> between (fun x => 0 <= x)%Q (fun x => x <= 1)%Q f.
Proof.
  intros [H1 H2]%orb_false_iff. destruct f as [|[]|q]; [by left|done|done|]. right. exists q.
  cbn in H1, H2. rewrite negb_false_iff, Qle_bool_iff in H1, H2. done.
Qed.

(** ** Transport settings *)
Lemma validateQuicConfig_ok q stack name : clean (validateQuicConfig q stack name) -> quic_ok stack q.
Proof. unfold validateQuicConfig. intros H. clean_inv. split; [done|]. split; [done|]. destruct stack; clean_inv; done. Qed.

Lemma validateMvfstConfig_ok q m name :
  clean (validateMvfstConfig m name) -> negb (pacingEnabled m) && needsPacing (ccAlgo q) = false -> mvfst_ok q m.
Proof.
  unfold validateMvfstConfig. intros H Hp.
  assert (Hd : fle (copa_deltaParam m) fzero || fle fone (copa_deltaParam m) = false /\
               flt (l4s_ceTarget m) fzero || fle fone (l4s_ceTarget m) = false).
  { clean_inv. split; by apply orb_false_iff. }
  destruct Hd as [Hd%between_open Hc%between_half]. clean_inv. split_and!; try done.
  intros Hcc. unfold needsPacing in Hp. rewrite bool_decide_true, andb_true_r in Hp by done. by apply negb_false_iff in Hp.
Qed.

(** ** Match entries *)
Lemma validateMatchAuthority_ok a service j info :
  validateMatchAuthority a service j = (info, ok) \/ clean (validateMatchAuthority a service j).2 ->
  exists t v, validateMatchAuthority a service j = (Some (t, v), ok) /\ authorityValid a = true /\
    (t, v) = match a with
             | ParsedExactAuthority v => ("exact", v) | ParsedWildcardAuthority v => ("wildcard", v)
             | ParsedAnyAuthority _ => ("any", EmptyString)
             end%string.
Proof.
  intros H. assert (Hc : clean (validateMatchAuthority a service j).2) by (destruct H as [->|]; done). clear H.
  destruct a as [v|pat|b]; cbn [validateMatchAuthority authorityValid] in *.
  - case_bool_decide; [done|]. by eexists _, _.
  - destruct pat as [|c1 [|c2 [|c3 r]]]; try done.
    destruct (Ascii.eqb c1 "*"%char), (Ascii.eqb c2 "."%char); try done. cbn [negb orb andb] in *.
    destruct (hasStar (String c3 r)); [done|]. by eexists _, _.
  - destruct b; [|done]. by eexists _, _.
Qed.
Lemma validatePath_ok p service j :
  clean (validatePath p service j).2 -> validatePath p service j = (true, ok) /\ pathValid p = true.
Proof.
  unfold validatePath, pathValid. destruct (match p with ExactPath v | PrefixPath v => v end) as [|c r]; [done|].
  by destruct (Ascii.eqb c "/"%char).
Qed.

(** The key of an entry is determined by the resolved entry. *)
Definition entryKey (e : MatchEntry) : string :=
  match authority e with
  | ExactAuthority v => makeCompositeKey "exact" v (path e)
  | WildcardAuthority v => makeCompositeKey "wildcard" v (path e)
  | AnyAuthority => makeCompositeKey "any" EmptyString (path e)
  end.
Abbreviation resolvedEntries := (map (fun e => resolveMatchEntry e.1 e.2)).

Lemma validateEntries_ok entries service j keys keys' r :
  validateEntries entries service j keys = (keys', r) -> clean r ->
  Forall entry_ok (resolvedEntries entries) /\
  NoDup (map entryKey (resolvedEntries entries)) /\
  (forall k, k ∈ map entryKey (resolvedEntries entries) -> k ∉ keys) /\
  (forall k, k ∈ keys' <-> k ∈ keys \/ k ∈ map entryKey (resolvedEntries entries)).
Proof.
  revert j keys keys' r. induction entries as [|[a p] entries IH]; intros j keys keys' r; cbn.
  { intros [= <- <-] _. split_and!; [constructor|constructor|by intros k ?%elem_of_nil|].
    intros k. rewrite elem_of_nil. naive_solver. }
  destruct (validateMatchAuthority a service j) as [info r1] eqn:Ea.
  assert (Hstep : forall keys1 r2,
    (match info with
     | Some (t, v) => let '(valid, r') := validatePath p service j in
         if negb valid then (keys, r1 +++ r')
         else ({[makeCompositeKey t v p]} ∪ keys,
               r1 +++ r' +++ errorIf (bool_decide (makeCompositeKey t v p ∈ keys)) (DuplicateMatch service (makeCompositeKey t v p)))
     | None => (keys, r1) end) = (keys1, r2) -> clean r2 ->
    entry_ok (resolveMatchEntry a p) /\ keys1 = {[entryKey (resolveMatchEntry a p)]} ∪ keys /\
    entryKey (resolveMatchEntry a p) ∉ keys).
  { intros keys1 r2 H Hc.
    assert (Hr1 : clean r1).
    { destruct info as [[t v]|]; [|by injection H as _ <-]. destruct (validatePath p service j) as [[] r'];
        injection H as _ <-; clean_inv; done. }
    destruct (validateMatchAuthority_ok a service j None) as (t & v & Ea' & Hva & Htv); [by rewrite Ea; right|].
    rewrite Ea in Ea'. injection Ea' as -> ->. destruct (validatePath p service j) as [valid r'] eqn:Ep.
    assert (Hr' : clean r') by (destruct valid; injection H as _ <-; clean_inv; done).
    destruct (validatePath_ok p service j) as [Ep' Hpv]; [by rewrite Ep|]. rewrite Ep in Ep'. injection Ep' as -> ->.
    injection H as <- <-. clean_inv.
    assert (Hk : entryKey (resolveMatchEntry a p) = makeCompositeKey t v p) by (destruct a; by injection Htv as -> ->).
    rewrite Hk. split; [|done]. split; [done|]. by exists a. }
  destruct (match info with Some _ => _ | None => _ end) as [keys1 r2] eqn:E2.
  destruct (validateEntries entries service (S j) keys1) as [keys2 r3] eqn:E3. intros [= <- <-] [Hc2 Hc3]%clean_report.
  destruct (Hstep keys1 r2 eq_refl Hc2) as (He & Hkeys & Hfresh).
  destruct (IH _ _ _ _ E3 Hc3) as (IH1 & IH2 & IH3 & IH4). subst keys1. split_and!.
  - by constructor.
  - constructor; [|done]. intros Hin%IH3. set_solver.
  - intros k [->|Hin]%elem_of_cons; [done|]. apply IH3 in Hin. set_solver.
  - intros k. rewrite IH4, elem_of_cons. set_solver.
Qed.
