(* ===== verification/ConfigSound.v ===== *)
(** The resolver keeps the promise: services. *)

From Stdlib Require Import QArith Strings.Byte String Ascii.
From stdpp Require Import pretty.
From S2P Require Import Prelude CborReader Auth AuthParse ServiceMatcher ConfigTypes ConfigResolve ConfigValid.
Local Open Scope Z_scope.

(** ** Keys *)
#[global] Instance list_byte_of_string_inj : Inj (=) (=) list_byte_of_string.
Proof. intros a b H. rewrite <-(string_of_list_byte_of_string a), <-(string_of_list_byte_of_string b). by rewrite H. Qed.
Lemma list_byte_of_string_nonempty s : s <> EmptyString -> list_byte_of_string s <> [].
Proof. by destruct s. Qed.

Lemma validateKeys_ok keys service i seen :
  clean (validateKeys keys service i seen) ->
  Forall (fun k => key_id k <> EmptyString /\ key_secret k <> EmptyString) keys /\
  NoDup (map key_id keys) /\ forall k, k ∈ map key_id keys -> k ∉ seen.
Proof.
  revert i seen. induction keys as [|key keys IH]; intros i seen; cbn.
  { intros _. split_and!; [constructor|constructor|by intros k ?%elem_of_nil]. }
  intros H. clean_inv. rename H into Hid. case_bool_decide as Hne; [done|]. clean_inv.
  destruct (IH _ _ ltac:(eassumption)) as (IH1 & IH2 & IH3). split_and!.
  - by constructor.
  - constructor; [|done]. intros Hin%IH3. set_solver.
  - intros k [->|Hin%IH3]%elem_of_cons; [done|]. set_solver.
Qed.

Section system.
Context {SA : SocketApi} {SY : System_}.

(** ** Anonymous scopes *)
Lemma canonicalAction_known tw name a : canonicalAction tw name = Some a -> known a = true.
Proof. unfold canonicalAction. repeat (case_match; [by intros [= <-]|]). done. Qed.

Lemma resolveActions_ok service i names :
  Forall clean (map (validateAction service i) names) ->
  exists actions, resolveActions names = Some actions /\ length actions = length names /\
    Forall (fun a => known a = true /\ a <> ClientSetup /\ a <> ServerSetup) actions.
Proof.
  induction names as [|name names IH]; cbn; intros H; [by exists []|].
  apply Forall_cons in H as [H1 H2]. destruct (IH H2) as (actions & -> & Hl & Hf).
  unfold validateAction in H1. destruct (canonicalAction trimWhitespace name) as [a|] eqn:E; [|done].
  apply canonicalAction_known in E. exists (a :: actions). split; [done|]. split; [cbn; by rewrite Hl|].
  constructor; [|done]. split; [done|]. by destruct a.
Qed.

Lemma resolveAnonymousScope_ok service i scope :
  clean (validateScope service i scope) -> exists s, resolveAnonymousScope scope = Some s /\ scope_ok s.
Proof.
  unfold validateScope, resolveAnonymousScope. intros H.
  destruct (scope_actions scope) as [|n names] eqn:E; [done|]. apply clean_reports in H.
  destruct (resolveActions_ok service i (n :: names) H) as (actions & -> & Hl & Hf). cbn [mbind option_bind].
  eexists. split; [done|]. split; [|done]. cbn. by destruct actions.
Qed.

Lemma resolveScopes_ok service i claim :
  Forall clean (imap (fun j => validateScope service (i + j)) claim) ->
  exists l, resolveScopes claim = Some l /\ Forall scope_ok l.
Proof.
  revert i. induction claim as [|scope claim IH]; intros i; cbn; [by exists []|].
  intros [H1 H2]%Forall_cons. destruct (resolveAnonymousScope_ok _ _ _ H1) as (s & -> & Hs).
  destruct (IH (S i)) as (l & -> & Hl).
  { erewrite imap_ext; [exact H2|]. intros j x _. cbn. by rewrite Nat.add_succ_r. }
  exists (s :: l). by split; [|constructor].
Qed.

(** ** Authorization *)
Lemma resolveAuth_ok service auth :
  clean (validateAuth service auth) -> exists a, resolveAuth (Some auth) = Some a /\ auth_ok a.
Proof.
  unfold validateAuth. intros [He Ha]%clean_report. cbn [resolveAuth].
  assert (Hclaim : exists l, resolveScopes (default [] (anonymous_claim auth)) = Some l /\ Forall scope_ok l).
  { destruct (anonymous_claim auth) as [claim|]; [|by exists []]. clean_inv. by apply (resolveScopes_ok service 0). }
  destruct Hclaim as (l & -> & Hl). cbn [mbind option_bind]. eexists. split; [done|]. split; [|done].
  cbn [enabled hmacKeys tokenType maxTokensPerMessage]. intros Hen. rewrite Hen in He.
  destruct (hmac_keys auth) as [[|k keys]|]; clean_inv; [done| |done].
  destruct (max_tokens_per_message auth) as [n|]; clean_inv; [|done].
  match goal with H : clean (validateKeys _ _ _ _) |- _ => apply validateKeys_ok in H as (Hk & Hnd & _) end.
  cbn [default from_option id]. split; [done|]. split; [|split; [|split; [assumption|assumption]]].
  - rewrite map_map. cbn [hk_id]. rewrite <-(map_map key_id list_byte_of_string).
    apply (NoDup_fmap_2 list_byte_of_string). exact Hnd.
  - apply Forall_fmap. eapply Forall_impl; [exact Hk|]. intros x [? ?]. cbn.
    split; by apply list_byte_of_string_nonempty.
Qed.

(** ** Caches and upstreams *)
Lemma resolveCacheConfig_ok service c :
  clean (validateCache service c) -> exists cc, resolveCacheConfig c = Some cc /\ cache_ok cc.
Proof.
  unfold validateCache, resolveCacheConfig. intros H. clean_inv.
  destruct (cache_enabled c) as [on|]; [|done]. destruct (max_tracks c) as [tracks|]; [|done].
  destruct (max_groups_per_track c) as [groups|]; [|done].
  exists (mkCacheConfig (if on then tracks else 0) groups (default 16 (max_cached_mb c)) (default 64 (min_eviction_kb c))
    (default 86400 (max_cache_duration_s c) * 1000)
    (Some match default_max_cache_duration_s c with Some s => s * 1000 | None => default 86400 (max_cache_duration_s c) * 1000 end)).
  split; [by destruct on|]. split; [|split; [|split; [|done]]]; cbn.
  - destruct on; [|done]. intros _. cbn in *. clean_inv. lia.
  - destruct (max_cached_mb c); cbn in *; clean_inv; [done|lia].
  - destruct (max_cache_duration_s c); cbn in *; clean_inv; lia.
Qed.

Lemma resolveUpstream_ok u : clean (validateUpstream u) -> upstream_ok (resolveUpstream u).
Proof.
  unfold validateUpstream. intros H. clean_inv. split; [done|]. cbn. intros Hi. rewrite Hi in *. cbn in *. clean_inv.
  by apply eq_None_not_Some.
Qed.

(** ** One service *)
Definition cacheDefaults (config : ParsedConfig) : option ParsedCacheConfig := d ← service_defaults config; defaults_cache d.

Lemma resolveService_ok name svc config st st' r :
  validateService name svc config st = (st', r) -> clean r ->
  exists kb s, mergedSubscriptionBufferKb svc config = Some kb /\
    resolveService svc (mergedCache svc (cacheDefaults config)) ((fun a => mergedAuth a config) <$> service_auth svc) kb = Some s /\
    service_ok s /\ sc_match s = resolvedEntries (service_match svc).
Proof.
  unfold validateService, validateServiceAuth. fold (cacheDefaults config).
  destruct (validateEntries _ _ _ _) as [keys r1] eqn:Ee.
  assert (Ha : forall a auths ra,
    match service_auth svc with
    | Some auth => (emplace name (mergedAuth auth config) (mergedAuths st), validateAuth name (mergedAuth auth config))
    | None => (mergedAuths st, ok) end = (auths, ra) -> clean ra -> a = (fun a => mergedAuth a config) <$> service_auth svc ->
    exists c, resolveAuth a = Some c /\ auth_ok c).
  { intros a auths ra H Hc ->. destruct (service_auth svc) as [auth|]; cbn.
    - injection H as _ <-. by apply resolveAuth_ok in Hc.
    - exists noAuth. split; [done|]. by split; [|constructor]. }
  destruct (match service_auth svc with Some _ => _ | None => _ end) as [auths r2] eqn:Ea.
  intros [= <- <-] Hc. clean_inv.
  destruct (Ha _ _ _ eq_refl ltac:(eassumption) eq_refl) as (ac & Hac & Hauth). clear Ha.
  match goal with H : clean (validateCache _ _) |- _ => apply resolveCacheConfig_ok in H as (cc & Hcc & Hcache) end.
  destruct (mergedSubscriptionBufferKb svc config) as [kb|]; [|done].
  destruct (validateEntries_ok _ _ _ _ _ _ Ee ltac:(eassumption)) as (Hent & _).
  eexists kb, _. split; [done|]. unfold resolveService. rewrite Hcc. cbn [mbind option_bind]. rewrite Hac. cbn [mbind option_bind].
  split; [done|]. split; [|done]. split_and!; cbn; try done.
  - destruct (service_upstream svc); [|constructor]. constructor; [|constructor]. by apply resolveUpstream_ok.
  - destruct (service_upstreams svc) as [us|]; [|constructor]. clean_inv. cbn. apply Forall_fmap.
    apply Forall_forall. intros u Hu. apply resolveUpstream_ok.
    match goal with H : Forall clean (map validateUpstream us) |- _ => rewrite Forall_forall in H; apply H end.
    by apply (list_elem_of_fmap_2 validateUpstream).
  - destruct (service_upstreams svc) as [us|]; [|by right]. clean_inv. destruct (service_upstream svc); [|by left].
    match goal with H : ~ is_Some (Some _) |- _ => by destruct H end.
Qed.

(** ** All services *)
Lemma validateService_state name svc config st st' r :
  validateService name svc config st = (st', r) ->
  mergedCaches st' = emplace name (mergedCache svc (cacheDefaults config)) (mergedCaches st) /\
  mergedAuths st' = match service_auth svc with
                    | Some a => emplace name (mergedAuth a config) (mergedAuths st)
                    | None => mergedAuths st
                    end /\
  exists r1, validateEntries (service_match svc) name 0 (compositeKeys st) = (compositeKeys st', r1) /\
    (clean r -> clean r1).
Proof.
  unfold validateService, validateServiceAuth. destruct (validateEntries _ _ _ _) as [keys r1] eqn:Ee.
  destruct (service_auth svc) as [a|]; intros [= <- <-]; (split; [done|]; split; [done|]; exists r1; split; [done|]);
    intros H; by clean_inv.
Qed.

Lemma emplace_ne {A} k k' (v : A) m : k <> k' -> emplace k v m !! k' = m !! k'.
Proof. intros H. unfold emplace. destruct (m !! k); [done|]. by rewrite lookup_insert_ne. Qed.
Lemma emplace_fresh {A} k (v : A) m : m !! k = None -> emplace k v m !! k = Some v.
Proof. intros H. unfold emplace. rewrite H. by rewrite lookup_insert_eq. Qed.

(** What the loop has recorded of a service. *)
Definition recorded (config : ParsedConfig) (st : ServiceState) (s : string * ParsedServiceConfig) : Prop :=
  mergedCaches st !! s.1 = Some (mergedCache s.2 (cacheDefaults config)) /\
  mergedAuths st !! s.1 = (fun a => mergedAuth a config) <$> service_auth s.2.

Lemma validateServices_recorded svcs config st st' r :
  validateServices svcs config st = (st', r) -> NoDup (map fst svcs) ->
  (forall k, k ∈ map fst svcs -> mergedCaches st !! k = None /\ mergedAuths st !! k = None) ->
  (forall k, k ∉ map fst svcs -> mergedCaches st' !! k = mergedCaches st !! k /\ mergedAuths st' !! k = mergedAuths st !! k) /\
  Forall (recorded config st') svcs.
Proof.
  revert st st' r. induction svcs as [|[name svc] svcs IH]; intros st st' r; cbn.
  { intros [= <- <-] _ _. by split; [|constructor]. }
  destruct (validateService name svc config st) as [st1 r1] eqn:E1.
  destruct (validateServices svcs config st1) as [st2 r2] eqn:E2. intros [= <- <-] [Hn Hnd]%NoDup_cons Hfresh.
  destruct (validateService_state _ _ _ _ _ _ E1) as (Hc & Ha & _).
  assert (Hne : forall k, k <> name ->
    mergedCaches st1 !! k = mergedCaches st !! k /\ mergedAuths st1 !! k = mergedAuths st !! k).
  { intros k Hk. rewrite Hc, Ha. split; [by rewrite emplace_ne|].
    destruct (service_auth svc); [by rewrite emplace_ne|done]. }
  destruct (IH _ _ _ E2 Hnd) as [IH1 IH2].
  { intros k Hk. destruct (Hne k) as [-> ->]; [by intros ->|]. apply Hfresh. by right. }
  split.
  - intros k Hk. rewrite not_elem_of_cons in Hk. destruct Hk as [Hk1 Hk2].
    destruct (IH1 k Hk2) as [-> ->]. by apply Hne.
  - constructor; [|done]. unfold recorded. cbn. destruct (IH1 name Hn) as [-> ->].
    destruct (Hfresh name) as [F1 F2]; [by left|]. rewrite Hc, Ha. split; [by apply emplace_fresh|].
    destruct (service_auth svc); cbn; [by apply emplace_fresh|done].
Qed.

Abbreviation allEntries := (fun svcs : list (string * ParsedServiceConfig) => svcs ≫= fun s => resolvedEntries (service_match s.2)).

Lemma validateServices_keys svcs config st st' r :
  validateServices svcs config st = (st', r) -> clean r ->
  NoDup (map entryKey (allEntries svcs)) /\ forall k, k ∈ map entryKey (allEntries svcs) -> k ∉ compositeKeys st.
Proof.
  revert st st' r. induction svcs as [|[name svc] svcs IH]; intros st st' r; cbn.
  { intros _ _. split; [constructor|]. by intros k ?%elem_of_nil. }
  destruct (validateService name svc config st) as [st1 r1] eqn:E1.
  destruct (validateServices svcs config st1) as [st2 r2] eqn:E2. intros [= <- <-] [Hc1 Hc2]%clean_report.
  destruct (validateService_state _ _ _ _ _ _ E1) as (_ & _ & re & Ee & Hre).
  destruct (validateEntries_ok _ _ _ _ _ _ Ee (Hre Hc1)) as (_ & Hnd & Hfresh & Hkeys).
  destruct (IH _ _ _ E2 Hc2) as [IH1 IH2]. rewrite map_app. split.
  - apply NoDup_app. split; [done|]. split; [|done]. intros k Hk Hk2. apply IH2 in Hk2. apply Hk2, Hkeys. by right.
  - intros k [Hk|Hk]%elem_of_app; [by apply Hfresh|]. apply IH2 in Hk. rewrite Hkeys in Hk. naive_solver.
Qed.

Lemma resolveServices_ok svcs config st st' r stf :
  validateServices svcs config st = (st', r) -> clean r -> Forall (recorded config stf) svcs ->
  exists l, resolveServices svcs config stf = Some l /\ map fst l = map fst svcs /\
    Forall (fun s => service_ok s.2) l /\ l ≫= (fun s => sc_match s.2) = allEntries svcs.
Proof.
  revert st st' r. induction svcs as [|[name svc] svcs IH]; intros st st' r; cbn.
  { intros _ _ _. exists []. by split_and!. }
  destruct (validateService name svc config st) as [st1 r1] eqn:E1.
  destruct (validateServices svcs config st1) as [st2 r2] eqn:E2.
  intros [= <- <-] [Hc1 Hc2]%clean_report [[Hr1 Hr2] Hrs]%Forall_cons. cbn in Hr1, Hr2.
  destruct (resolveService_ok _ _ _ _ _ _ E1 Hc1) as (kb & s & Hkb & Hs & Hok & Hm).
  destruct (IH _ _ _ E2 Hc2 Hrs) as (l & Hl & Hn & Hf & Hent).
  exists ((name, s) :: l). rewrite Hr1, Hkb. cbn [mbind option_bind]. rewrite Hr2, Hs. cbn [mbind option_bind]. rewrite Hl.
  split; [done|]. split; [cbn; by rewrite Hn|]. split; [by constructor|]. cbn. by rewrite Hm, <-Hent.
Qed.
End system.
