(* ===== verification/ConfigTheorems.v ===== *)
(** The resolver keeps the promise: listeners and the whole configuration; the
    routing table of a resolved configuration does not depend on the order of its
    services. *)

From Stdlib Require Import QArith Strings.Byte String Ascii.
From stdpp Require Import pretty.
From S2P Require Import Prelude CborReader Auth AuthParse ServiceMatcher ServiceTheorems ConfigTypes ConfigResolve ConfigValid.
From S2P Require Import ConfigSound.
Local Open Scope Z_scope.

Section system.
Context {SA : SocketApi} {SY : System_}.

(** ** TLS *)
Definition tlsFilesReport (f : ParsedTlsFiles) (w : Where) : Report :=
  if given (pkcs12_file f) then
    errorIf (given (cert_file f) || given (key_file f)) (Pkcs12Exclusive w) +++ validatePkcs12PasswordExclusivity f w
  else errorIf (negb (given (cert_file f)) || negb (given (key_file f))) (CertAndKeyRequired w).

Lemma given_default o : given o = true -> default EmptyString o <> EmptyString.
Proof. destruct o as [s|]; [|done]. cbn. intros H%negb_true_iff%bool_decide_eq_false. done. Qed.

Lemma tlsFiles_ok f w mat r al :
  clean (tlsFilesReport f w) -> resolvePkcs12Material f w = (mat, r) -> clean r ->
  tls_ok (mkTlsConfig (tlsFile mat (cert_file f)) (tlsFile mat (key_file f)) al mat) /\
  (given (pkcs12_file f) = false -> mat = None).
Proof.
  unfold tlsFilesReport, resolvePkcs12Material. intros H Hm Hr. destruct (given (pkcs12_file f)) eqn:Ep.
  - apply clean_report in H as [[H1 H2]%clean_errorIf%orb_false_iff _]. rewrite H1, H2 in Hm. cbn in Hm. split; [|done].
    destruct (resolvePkcs12Password w f) as [pw|e].
    + destruct (loadPkcs12File (default EmptyString (pkcs12_file f)) pw) as [m|reason] eqn:El; injection Hm as <- <-;
        [|by clean_inv]. unfold tls_ok. cbn. split; [done|]. split; [done|]. by eexists _, _.
    + injection Hm as <- <-. by clean_inv.
  - cbn in Hm. injection Hm as <- <-. clean_inv. split; [|done]. unfold tls_ok. cbn.
    split; by apply given_default.
Qed.

(** ** One listener *)
Lemma versions_resolved l :
  Forall (fun v => v ∈ kSupportedMoqtVersions) (default [] (moqt_versions l)) -> versions_ok (moqtVersionsToString l).
Proof.
  unfold moqtVersionsToString. destruct (moqt_versions l) as [[|v vs]|]; cbn [default]; intros H.
  - exists [16]. split; [done|]. split; [|done]. by constructor; [left|].
  - exists (v :: vs). split; [done|]. split; [|done]. eapply Forall_impl; [exact H|].
    intros x Hx. unfold kSupportedMoqtVersions in Hx. set_solver.
  - exists [16]. split; [done|]. split; [|done]. by constructor; [left|].
Qed.

Lemma validateBindAddress_ok address port w :
  clean (validateBindAddress address port w) -> address <> EmptyString /\ is_Some (newSocketAddress address port).
Proof.
  unfold validateBindAddress. case_bool_decide; intros Hc; clean_inv; [done|]. split; [done|].
  by destruct (newSocketAddress address port).
Qed.

Definition bindOf (l : ParsedListenerConfig) : string * Z := (socket_address (udp_socket l), socket_port (udp_socket l)).
Definition boundTo (b : string * Z) (c : ListenerConfig) : Prop :=
  b.1 <> EmptyString /\ b.2 <> 0 /\ newSocketAddress b.1 b.2 = Some (l_address c).

Lemma resolveListener_ok config l m r :
  mergeListener config l = (m, r) -> clean (validateListener l) -> clean r -> clean (validateTransport l m) ->
  exists c, resolveListener l m = Some c /\ listener_ok c /\ boundTo (bindOf l) c.
Proof.
  unfold mergeListener. destruct (if insecure (listener_tls l) then _ else _) as [mat r0] eqn:Em. intros [= <- <-] Hv Hr Ht.
  unfold validateListener in Hv. set (pico := bool_decide (parseQuicStack (quic_stack l) = Picoquic)) in *.
  repeat rewrite clean_report in Hv. destruct Hv as (Hport & Hbind & Htls & Hins & Hp12 & Hver).
  apply clean_errorIf in Hport, Hins, Hp12. apply Z.eqb_neq in Hport.
  apply validateBindAddress_ok in Hbind as [Hne [addr Haddr]].
  unfold resolveListener. rewrite Haddr. cbn [mbind option_bind]. eexists. split; [done|].
  split; [|by split_and!]. unfold listener_ok. cbn [quicStack tlsMode moqtVersions quic mvfst]. split_and!.
  - assert (Hpico : parseQuicStack (quic_stack l) = Picoquic -> pico = true) by (intros H; by apply bool_decide_eq_true).
    unfold validateListenerTlsConfig in Htls. destruct (insecure (listener_tls l)).
    + cbn. intros Hp%Hpico. rewrite Hp in Hins. done.
    + cbn in Htls |- *. destruct (tlsFiles_ok (listener_tls_files (listener_tls l)) _ _ _ [] Htls Em Hr) as [H1 H2].
      split; [done|]. split; [done|]. intros Hp%Hpico. rewrite Hp in Hp12. by apply H2.
  - apply versions_resolved. apply clean_reports in Hver. apply Forall_forall. intros v Hv. rewrite Forall_forall in Hver.
    apply (list_elem_of_fmap_2 (fun v => errorIf (negb (bool_decide (v ∈ kSupportedMoqtVersions)))
                           (UnsupportedVersion (listener_name l) v))) in Hv. apply Hver in Hv. by clean_inv.
  - unfold validateTransport in Ht. apply clean_report in Ht as [Hq _]. by apply validateQuicConfig_ok in Hq.
  - intros Hs. unfold validateTransport in Ht. rewrite Hs in Ht. repeat rewrite clean_report in Ht.
    destruct Ht as (_ & Hm & Hp). apply clean_errorIf in Hp. by eapply validateMvfstConfig_ok.
Qed.

(** ** All listeners *)
Lemma validateListeners_ok ls config seen ms r :
  validateListeners ls config seen = (ms, r) -> clean r ->
  exists cs, resolveListeners ls ms = Some cs /\ length cs = length ls /\ Forall listener_ok cs /\
    Forall2 boundTo (map bindOf ls) cs /\ NoDup (map bindOf ls) /\
    forall l, l ∈ ls -> listenerAddr l ∉ seen.
Proof.
  revert seen ms r. induction ls as [|l ls IH]; intros seen ms r; cbn [validateListeners].
  { intros [= <- <-] _. exists []. split_and!; try done; [constructor|]. by intros l ?%elem_of_nil. }
  destruct (mergeListener config l) as [m rm] eqn:Em.
  destruct (validateListeners ls config _) as [ms' r'] eqn:El. intros [= <- <-] Hc.
  repeat rewrite clean_report in Hc. destruct Hc as (Hv & Hm & Hdup & Ht & Hr). clean_inv.
  destruct (resolveListener_ok _ _ _ _ Em Hv Hm Ht) as (c & Hres & Hok & Hb).
  destruct (IH _ _ _ El Hr) as (cs & Hcs & Hlen & Hoks & Hbs & Hnd & Hseen).
  exists (c :: cs). cbn. rewrite Hres. cbn. rewrite Hcs. split_and!; try done; [by rewrite Hlen|by constructor|by constructor| |].
  - constructor; [|done]. intros (l' & Heq & Hin)%list_elem_of_fmap. apply Hseen in Hin.
    assert (E : listenerAddr l = listenerAddr l') by (unfold listenerAddr, bindOf in *; by injection Heq as -> ->).
    rewrite <-E in Hin. set_solver.
  - intros l' [->|Hin%Hseen]%elem_of_cons; [done|]. set_solver.
Qed.

(** ** The admin server, the logs, the cluster *)
Lemma resolveAdmin_ok config mat r :
  adminMaterialOf config = (mat, r) -> clean (validateAdmin config) -> clean r ->
  exists res, resolveAdmin config mat = Some res /\
    match res with
    | Ok (Some a) => admin_ok a
    | Ok None => True
    | Err e => forall es, e <> ValidationFailed es
    end.
Proof.
  unfold adminMaterialOf, validateAdmin, resolveAdmin. intros Hm Hv Hr.
  destruct (parsed_admin config) as [a|]; [|by eexists].
  repeat rewrite clean_report in Hv. destruct Hv as (Hport & Hbind & Hex & Htls).
  apply validateBindAddress_ok in Hbind as [_ [addr ->]]. cbn [mbind option_bind] in *.
  destruct (match track_metrics_endpoint_max_limit a with Some n => n <=? 0 | None => false end) eqn:E1; [by eexists|].
  destruct (_ <? _) eqn:E2; [by eexists|]. eexists. split; [done|]. unfold admin_ok. cbn.
  apply Z.ltb_ge in E2. split; [|split; [|done]].
  - destruct (admin_tls a) as [tls|]; [|done]. cbn in *. by destruct (tlsFiles_ok _ _ _ _ (default kDefaultAdminAlpn (alpn tls)) Htls Hm Hr).
  - destruct (track_metrics_endpoint_max_limit a); cbn; [apply Z.leb_gt in E1; lia|lia].
Qed.

Lemma resolveLogging_ok config l :
  clean (validateProcess config) -> resolveLogging config = Ok (Some l) ->
  Forall logs_ok (option_list (mlog l) ++ option_list (qlog l)).
Proof.
  unfold validateProcess, resolveLogging. repeat rewrite clean_report. intros (_ & _ & _ & Hrate) H.
  destruct (parsed_logging config) as [pl|]; [|done]. cbn [mbind option_bind] in Hrate.
  destruct (resolveMlog (parsed_mlog pl)) as [m|e] eqn:Em; [|done].
  destruct (resolveQlog (parsed_qlog pl)) as [q|e] eqn:Eq; [|done]. injection H as <-. cbn.
  apply Forall_app. split.
  - unfold resolveMlog in Em. destruct (parsed_mlog pl) as [pm|]; [|injection Em as <-; constructor].
    assert (Hm : m = Some (mkLogConfig (log_dir pm) (default fzero (sample_rate pm)))).
    { case_bool_decide; [by injection Em as <-|]. destruct (fsStatus _) as [ec ty].
      repeat (case_match; [done|]). by injection Em as <-. }
    subst m. constructor; [|constructor]. cbn [mbind option_bind] in Hrate. unfold logs_ok. cbn.
    destruct (sample_rate pm) as [rate|]; cbn; [apply clean_errorIf in Hrate; by apply between_closed|].
    right. by exists 0%Q.
  - unfold resolveQlog in Eq. destruct (parsed_qlog pl) as [pq|]; [|injection Eq as <-; constructor].
    destruct (outsideUnit _) eqn:Eo; [done|]. injection Eq as <-. constructor; [|constructor]. by apply between_closed.
Qed.

Lemma resolveLogging_err config e : resolveLogging config = Err e -> forall es, e <> ValidationFailed es.
Proof.
  unfold resolveLogging, resolveMlog, resolveQlog. intros H es ->. repeat case_match; simplify_eq.
Qed.

Lemma generateHopID_some draws : Exists (fun d => draw64 d <> 0) draws -> exists h, generateHopID draws = Some h /\ h <> 0.
Proof.
  induction 1 as [d draws Hd|d draws Hd IH]; cbn.
  - apply Z.eqb_neq in Hd as E. rewrite E. by eexists.
  - destruct (draw64 d =? 0) eqn:E; [done|]. eexists. split; [done|]. by apply Z.eqb_neq in E.
Qed.
Lemma resolveCluster_some config : Exists (fun d => draw64 d <> 0) rdHopID -> is_Some (resolveCluster config).
Proof.
  intros (h & Hh & _)%generateHopID_some. unfold resolveCluster. rewrite Hh.
  destruct (parsed_cluster config) as [c|]; [|done]. by destruct (default true (cluster_enabled c)).
Qed.

(** ** The whole *)
(** The resolver throws at most when the random numbers run out. *)
Lemma resolveConfig_cases config :
  NoDup (map fst (parsed_services config)) ->
  match resolveConfig config with
  | Some (Ok (c, _)) => config_ok c
  | Some (Err (ValidationFailed es)) => es <> []
  | Some (Err _) => True
  | None => resolveCluster config = None
  end.
Proof.
  intros Hnd. unfold resolveConfig. case_bool_decide as Hl; [done|].
  destruct (validateConfig config) as [[[merged mat] st] r] eqn:Ev. destruct (errors r) as [|e es] eqn:Er; [|done].
  unfold validateConfig in Ev. destruct (validateListeners _ _ _) as [ms r1] eqn:El.
  destruct (adminMaterialOf config) as [am r2] eqn:Ea. destruct (validateServices _ _ _) as [st' r3] eqn:Es.
  injection Ev as <- <- <- <-. change (clean (warnIf (listForm config) ListFormDeprecated +++ r1 +++ validatePico config +++
    validateAdmin config +++ r2 +++ errorIf (bool_decide (length (parsed_services config) = 0%nat)) ServiceRequired +++ r3 +++
    validateProcess config)) in Er. repeat rewrite clean_report in Er.
  destruct Er as (_ & Hc1 & _ & Hca & Hc2 & Hne & Hc3 & Hcp). apply clean_errorIf, bool_decide_eq_false in Hne.
  destruct (validateListeners_ok _ _ _ _ _ El Hc1) as (cs & Hcs & Hlen & Hoks & Hbs & Hbnd & _).
  destruct (validateServices_recorded _ _ _ _ _ Es Hnd) as [_ Hrec]; [done|].
  destruct (validateServices_keys _ _ _ _ _ Es Hc3) as [Hkeys _].
  destruct (resolveServices_ok _ _ _ _ _ _ Es Hc3 Hrec) as (l & -> & Hnames & Hsok & Hent).
  destruct (resolveAdmin_ok _ _ _ Ea Hca Hc2) as (ares & -> & Haok). cbn [mbind option_bind].
  destruct ares as [a|e]; [|by destruct e; try destruct (Haok _ eq_refl)]. destruct (resolveCluster config) as [hop|]; [|done]. cbn [mbind option_bind].
  destruct (resolveLogging config) as [lg|e] eqn:Elog.
  2: { pose proof (resolveLogging_err _ _ Elog) as He. by destruct e; try destruct (He _ eq_refl). }
  rewrite Hcs. cbn [mbind option_bind]. constructor; cbn.
  - split; [|done]. by destruct cs, (parsed_listeners config).
  - by exists (map bindOf (parsed_listeners config)).
  - split; [|by rewrite Hnames]. intros ->. by destruct (parsed_services config).
  - rewrite Hent. by eapply NoDup_fmap_1.
  - by destruct a.
  - unfold validateProcess in Hcp. repeat rewrite clean_report in Hcp. destruct Hcp as (Ht & Hrt & Hlf & _).
    apply clean_errorIf in Ht, Hrt, Hlf. apply Z.eqb_neq in Ht. split; [done|].
    destruct (default true (use_relay_thread config)); [done|]. rewrite andb_true_r in Hrt, Hlf. cbn in Hrt, Hlf.
    split; [|by rewrite Hlf]. intros Hlt. by apply Z.ltb_lt in Hlt; rewrite Hlt in Hrt.
  - intros lc ->. by eapply resolveLogging_ok.
Qed.
Lemma resolveConfig_ok config c ws :
  NoDup (map fst (parsed_services config)) -> resolveConfig config = Some (Ok (c, ws)) -> config_ok c.
Proof. intros Hnd H. pose proof (resolveConfig_cases config Hnd) as Hc. by rewrite H in Hc. Qed.
End system.

(** (C5) The resolver answers on every configuration whose services have distinct
    names (they are the keys of a map), if one of the random draws is not 0: it
    never throws.  Either it gives errors, at least one, or a configuration that
    keeps the promise [config_ok] the rest of the program relies on: bind
    addresses that resolve and are distinct, usable TLS credentials, supported
    versions, consistent transport settings, well-formed match entries that are
    all different, cache, authorization and upstream settings in their ranges,
    and thread settings that fit each other. *)
Theorem resolve_config_safe {SA : SocketApi} {SY : System_} (config : ParsedConfig) :
  NoDup (map fst (parsed_services config)) -> Exists (fun d => draw64 d <> 0) rdHopID ->
  match resolveConfig config with
  | Some (Ok (c, _)) => config_ok c
  | Some (Err (ValidationFailed es)) => es <> []
  | Some (Err _) => True
  | None => False
  end.
Proof.
  intros Hnd Hd. pose proof (resolveConfig_cases config Hnd) as H. destruct (resolveConfig config) as [res|]; [done|].
  destruct (resolveCluster_some config Hd) as [h Hh]. congruence.
Qed.

(** ** Routing *)
Lemma authorityScore_unique a a' auth t :
  authorityValid a = true -> authorityValid a' = true ->
  authorityScore (resolveAuthority a) auth = Some t -> authorityScore (resolveAuthority a') auth = Some t ->
  resolveAuthority a = resolveAuthority a'.
Proof.
  assert (Hw : forall pat, authorityValid (ParsedWildcardAuthority pat) = true -> exists r, pat = String "*"%char r).
  { intros [|c1 [|c2 [|c3 r]]] H; try done. cbn in H. apply andb_true_iff in H as [[H1 _]%andb_true_iff _].
    apply Ascii.eqb_eq in H1 as ->. by eexists. }
  destruct a as [v|pat|b], a' as [v'|pat'|b']; cbn [resolveAuthority]; intros Ha Ha';
    try apply Hw in Ha as [r ->]; try apply Hw in Ha' as [r' ->]; cbn; repeat case_bool_decide; try congruence.
Qed.
Lemma score_unique e e' auth p sc :
  entry_ok e -> entry_ok e' -> score e auth p = Some sc -> score e' auth p = Some sc -> e = e'.
Proof.
  intros (_ & a & Ha & Ea) (_ & a' & Ha' & Ea') [H1 H2]%score_split [H1' H2']%score_split. destruct e as [x pm], e' as [x' pm'].
  cbn in *. subst x x'. f_equal; [by eapply authorityScore_unique|by eapply pathScore_unique].
Qed.

Definition matchesOf (svcs : list (string * ServiceConfig)) : Services := map (fun s => (s.1, sc_match s.2)) svcs.
Lemma elem_of_matchesOf svcs name e :
  (name, e) ∈ entriesOf (matchesOf svcs) <-> exists s, (name, s) ∈ svcs /\ e ∈ sc_match s.
Proof.
  unfold entriesOf, matchesOf. rewrite list_elem_of_bind. split.
  - intros ([n l] & Hin & ([n' s] & [= -> ->] & Hs)%list_elem_of_fmap).
    apply (list_elem_of_fmap (pair n')) in Hin as (e' & [= -> ->] & He). by exists s.
  - intros (s & Hs & He). exists (name, sc_match s). split; [by apply (list_elem_of_fmap_2 (pair name))|].
    apply list_elem_of_fmap. by exists (name, s).
Qed.

(** An entry belongs to one service. *)
Lemma entry_owner (svcs : list (string * ServiceConfig)) n n' s s' e :
  NoDup (svcs ≫= fun s => sc_match s.2) -> (n, s) ∈ svcs -> (n', s') ∈ svcs -> e ∈ sc_match s -> e ∈ sc_match s' -> n = n'.
Proof.
  induction svcs as [|[n0 s0] svcs IH]; [by intros _ ?%elem_of_nil|]. cbn. intros (H1 & H2 & H3)%NoDup_app.
  assert (Hin : forall n s, (n, s) ∈ svcs -> e ∈ sc_match s -> e ∈ svcs ≫= fun s => sc_match s.2).
  { intros m t Hm Ht. apply list_elem_of_bind. by exists (m, t). }
  intros [[= -> ->]|Hn]%elem_of_cons [[= -> ->]|Hn']%elem_of_cons He He'; [done| | |by apply IH].
  - destruct (H2 e He). by eapply Hin.
  - destruct (H2 e He'). by eapply Hin.
Qed.

Lemma matchesOf_matcher std_sort (svcs : list (string * ServiceConfig)) :
  Forall (fun s => service_ok s.2) svcs -> is_Some (newServiceMatcher std_sort (matchesOf svcs)).
Proof.
  intros Hok. unfold newServiceMatcher.
  destruct (addEntries_total (entriesOf (matchesOf svcs)) (SM ∅ ∅ emptyRuleSet)) as [m ->]; [|done].
  apply Forall_forall. intros [name e] (s & Hs & He)%elem_of_matchesOf. rewrite Forall_forall in Hok.
  destruct (Hok _ Hs) as (Hent & _). rewrite Forall_forall in Hent. destruct (Hent e He) as (_ & a & Ha & Ea). cbn.
  rewrite Ea. destruct a as [v|[|c r]|b]; done.
Qed.

(** Routing does not depend on the order in which the hash map yields the
    services of a resolved configuration, nor on the order in which the sort
    leaves equal prefixes: two matchers built from the same resolved services, in
    any order and with any sort, exist and choose the same service for every
    authority and path.  This is what the check for duplicate match entries is
    for. *)
Theorem routing_order_irrelevant {SA : SocketApi} {SY : System_} (config : ParsedConfig) (c : Config) ws
    (svcs1 svcs2 : list (string * ServiceConfig)) (sort1 sort2 : list PrefixRule -> list PrefixRule)
    `{!sorts_by_length sort1} `{!sorts_by_length sort2} :
  NoDup (map fst (parsed_services config)) -> resolveConfig config = Some (Ok (c, ws)) ->
  svcs1 ≡ₚ services c -> svcs2 ≡ₚ services c ->
  exists m1 m2, newServiceMatcher sort1 (matchesOf svcs1) = Some m1 /\ newServiceMatcher sort2 (matchesOf svcs2) = Some m2 /\
    forall auth p, match_ m1 auth p = match_ m2 auth p.
Proof.
  intros Hnd Hres P1 P2. destruct (resolveConfig_ok config c ws Hnd Hres) as [_ _ (_ & _ & Hok) Hent _ _ _].
  assert (Hok1 : Forall (fun s => service_ok s.2) svcs1) by by rewrite P1.
  assert (Hok2 : Forall (fun s => service_ok s.2) svcs2) by by rewrite P2.
  destruct (matchesOf_matcher sort1 svcs1 Hok1) as [m1 Hm1]. destruct (matchesOf_matcher sort2 svcs2 Hok2) as [m2 Hm2].
  exists m1, m2. split; [done|]. split; [done|]. intros auth p.
  pose proof (match_best sort1 _ m1 auth p Hm1) as B1. pose proof (match_best sort2 _ m2 auth p Hm2) as B2.
  assert (Hin : forall n e, (n, e) ∈ entriesOf (matchesOf svcs1) <-> (n, e) ∈ entriesOf (matchesOf svcs2)).
  { intros n e. rewrite !elem_of_matchesOf. by setoid_rewrite P1; setoid_rewrite P2. }
  destruct (match_ m1 auth p) as [n1|], (match_ m2 auth p) as [n2|]; [| | |done].
  - destruct B1 as (e1 & sc1 & I1 & S1 & M1), B2 as (e2 & sc2 & I2 & S2 & M2).
    apply Hin in I1 as I1'. apply Hin in I2 as I2'. pose proof (M1 _ _ _ I2' S2) as L1. pose proof (M2 _ _ _ I1' S1) as L2.
    assert (sc1 = sc2) as -> by (destruct sc1, sc2; unfold score_le in *; cbn in *; f_equal; lia).
    apply elem_of_matchesOf in I1' as (s1 & Hs1 & He1). apply elem_of_matchesOf in I2 as (s2 & Hs2 & He2).
    rewrite P2 in Hs1, Hs2. rewrite Forall_forall in Hok. destruct (Hok _ Hs1) as (F1 & _), (Hok _ Hs2) as (F2 & _).
    rewrite Forall_forall in F1, F2. assert (e1 = e2) as <- by (eapply score_unique; eauto).
    f_equal. by eapply entry_owner.
  - destruct B1 as (e1 & sc1 & I1 & S1 & _). rewrite (B2 n1 e1) in S1; [done|by apply Hin].
  - destruct B2 as (e2 & sc2 & I2 & S2 & _). rewrite (B1 n2 e2) in S2; [done|by apply Hin].
Qed.
