(* ===== verification/ConfigSerializer.v ===== *)
(** The dump of a resolved configuration (config/ConfigSerializer.h), as the list
    of the calls it makes on its sink, and what the dump shows: everything but
    the secrets. *)

From Stdlib Require Import QArith Strings.Byte String.
From S2P Require Import Prelude CborReader Auth AuthParse ServiceMatcher ConfigTypes.
Local Open Scope Z_scope.

(** [ConfigSink]; an empty key marks an element of an array. *)
Inductive SinkCall :=
  | beginObject (key : string)
  | endObject
  | beginArray (key : string)
  | endArray
  | stringField (key value : string)
  | boolField (key : string) (value : bool)
  | intField (key : string) (value : Z)
  | uintField (key : string) (value : Z)
  | doubleField (key : string) (value : Float)
  | nullField (key : string).
Abbreviation Calls := (list SinkCall).

Definition quicStackName (s : QuicStack) : string :=
  match s with Mvfst => "mvfst" | Picoquic => "picoquic" | ProxygenQmux => "proxygen_qmux" end%string.
Definition matchRuleTypeName (m : MatchRuleType) : string :=
  match m with Exact => "exact" | Prefix => "prefix" | Suffix => "suffix" | Contains => "contains" end%string.

Definition serializeTls (tls : TlsConfig) : Calls :=
  [boolField "insecure" false; stringField "cert_file" (certFile tls); stringField "key_file" (keyFile tls);
   boolField "pkcs12_in_memory" (bool_decide (is_Some (material tls))); beginArray "alpn"] ++
  map (stringField "") (tls_alpn tls) ++ [endArray].

Definition serializeListenerTls (mode : TlsMode) : Calls :=
  beginObject "tls" ::
  match mode with
  | Tls tls => serializeTls tls
  | Insecure => [boolField "insecure" true]
  end ++ [endObject].

Definition serializeQuic (q : QuicConfig) : Calls :=
  [beginObject "quic"; uintField "max_data" (maxData q); uintField "max_stream_data" (maxStreamData q);
   uintField "max_uni_streams" (maxUniStreams q); uintField "max_bidi_streams" (maxBidiStreams q);
   uintField "idle_timeout_ms" (idleTimeoutMs q); uintField "max_ack_delay_us" (maxAckDelayUs q);
   uintField "min_ack_delay_us" (minAckDelayUs q); uintField "default_stream_priority" (defaultStreamPriority q);
   uintField "default_datagram_priority" (defaultDatagramPriority q); stringField "cc_algo" (ccAlgo q); endObject].

Definition serializeMvfst (m : MvfstConfig) : Calls :=
  let b := bbr m in let b2 := bbr2 m in let c := cubic m in
  [beginObject "mvfst"; uintField "max_cwnd_in_mss" (maxCwndInMss m); boolField "pacing_enabled" (pacingEnabled m);
   boolField "enable_gso" (enableGSO m); uintField "max_conn_packets_sent_per_loop" (maxConnPacketsSentPerLoop m);
   boolField "use_recvmmsg" (useRecvmmsg m);
   uintField "max_server_recv_packets_per_loop" (maxServerRecvPacketsPerLoop m);
   uintField "num_gro_buffers" (numGROBuffers m); boolField "can_ignore_path_mtu" (canIgnorePathMTU m);
   uintField "udp_socket_buffer_bytes" (udpSocketBufferBytes m); uintField "h3_txn_timeout_ms" (h3TxnTimeoutMs m);
   beginObject "bbr"; boolField "conservative_recovery" (conservativeRecovery b);
   boolField "large_probe_rtt_cwnd" (largeProbeRttCwnd b);
   boolField "enable_ack_aggregation_in_startup" (enableAckAggregationInStartup b);
   boolField "probe_rtt_disabled_if_app_limited" (probeRttDisabledIfAppLimited b);
   boolField "drain_to_target" (drainToTarget b); endObject;
   beginObject "bbr2"; boolField "ignore_inflight_long_term" (ignoreInflightLongTerm b2);
   boolField "ignore_short_term" (ignoreShortTerm b2); boolField "exit_startup_on_loss" (exitStartupOnLoss b2);
   boolField "enable_recovery_in_startup" (enableRecoveryInStartup b2);
   boolField "enable_recovery_in_probe_states" (enableRecoveryInProbeStates b2);
   boolField "enable_reno_coexistence" (enableRenoCoexistence b2); boolField "pace_init_cwnd" (paceInitCwnd b2);
   doubleField "override_cruise_pacing_gain" (overrideCruisePacingGain b2);
   doubleField "override_cruise_cwnd_gain" (overrideCruiseCwndGain b2);
   doubleField "override_startup_pacing_gain" (overrideStartupPacingGain b2);
   doubleField "override_bw_short_beta" (overrideBwShortBeta b2); endObject;
   beginObject "cubic"; boolField "additive_increase_after_hystart" (additiveIncreaseAfterHystart c);
   boolField "only_grow_cwnd_when_limited" (onlyGrowCwndWhenLimited c);
   boolField "leave_headroom_for_cwnd_limited" (leaveHeadroomForCwndLimited c); endObject;
   beginObject "copa"; doubleField "delta_param" (copa_deltaParam m); endObject;
   beginObject "l4s"; doubleField "ce_target" (l4s_ceTarget m); endObject; endObject].

Definition serializeMatch (m : MatchEntry) : Calls :=
  [beginObject ""; beginObject "authority";
   match authority m with
   | ExactAuthority v => stringField "exact" v
   | WildcardAuthority p => stringField "wildcard" p
   | AnyAuthority => boolField "any" true
   end; endObject; beginObject "path";
   match path m with ExactPath v => stringField "exact" v | PrefixPath v => stringField "prefix" v end;
   endObject; endObject].

Definition serializeCache (c : CacheConfig) : Calls :=
  [beginObject "cache"; boolField "enabled" (negb (maxCachedTracks c =? 0));
   uintField "max_cached_tracks" (maxCachedTracks c);
   uintField "max_cached_groups_per_track" (maxCachedGroupsPerTrack c); uintField "max_cached_mb" (maxCachedMb c);
   uintField "min_eviction_kb" (minEvictionKb c); intField "max_cache_duration_ms" (maxCacheDuration c);
   match defaultMaxCacheDuration c with
   | Some d => intField "default_max_cache_duration_ms" d
   | None => nullField "default_max_cache_duration_ms"
   end; endObject].

Definition serializeKey (k : HmacKey) : Calls :=
  [beginObject ""; stringField "id" (string_of_list_byte (hk_id k)); stringField "secret" "<redacted>"; endObject].
Definition serializeScope (s : AnonymousScope) : Calls :=
  beginObject "" :: beginArray "actions" :: map (fun a => stringField "" (actionName a)) (an_actions s) ++ endArray ::
  match an_namespaceSegments s with
  | Some segs => beginArray "namespace_segments" :: map (fun seg => stringField "" (string_of_list_byte seg)) segs ++ [endArray]
  | None => [nullField "namespace_segments"]
  end ++
  [stringField "namespace_match_mode" (matchRuleTypeName (an_namespaceMatchMode s));
   match an_trackName s with
   | Some t => stringField "track_name" (string_of_list_byte t)
   | None => nullField "track_name"
   end; stringField "track_match_mode" (matchRuleTypeName (an_trackMatchMode s)); endObject].
Definition serializeAuth (a : AuthConfig) : Calls :=
  [beginObject "auth"; boolField "enabled" (enabled a); uintField "token_type" (tokenType a);
   boolField "require_setup_token" (requireSetupToken a);
   boolField "allow_request_token_override" (allowRequestTokenOverride a); boolField "strict_claims" (strictClaims a);
   uintField "max_tokens_per_message" (maxTokensPerMessage a); beginArray "hmac_keys"] ++
  (hmacKeys a ≫= serializeKey) ++ endArray :: beginArray "anonymous_claim" ::
  (anonymousClaim a ≫= serializeScope) ++ [endArray; endObject].

Definition serializeLog (key : string) (l : option LogConfig) : Calls :=
  match l with
  | Some l => [beginObject key; stringField "dir" (lg_dir l); doubleField "sample_rate" (lg_sampleRate l); endObject]
  | None => [nullField key]
  end.
Definition serializeLogging (l : LoggingConfig) : Calls :=
  beginObject "logging" :: serializeLog "mlog" (mlog l) ++ serializeLog "qlog" (qlog l) ++ [endObject].

Definition serializeUpstream (key : string) (u : UpstreamConfig) : Calls :=
  [beginObject key; stringField "url" (url u); beginObject "tls"; boolField "insecure" (us_insecure u);
   match caCertFile u with Some f => stringField "ca_cert_file" f | None => nullField "ca_cert_file" end; endObject;
   intField "connect_timeout_ms" (connectTimeout u); intField "idle_timeout_ms" (idleTimeout u);
   uintField "relay_cost" (relayCost u); endObject].

Definition serializeService (s : string * ServiceConfig) : Calls :=
  let svc := s.2 in
  beginObject s.1 :: beginArray "match" :: (sc_match svc ≫= serializeMatch) ++ endArray ::
  serializeCache (sc_cache svc) ++ serializeAuth (sc_auth svc) ++
  uintField "max_subscription_buffer_kb" (sc_maxSubscriptionBufferKb svc) ::
  match sc_upstream svc with Some u => serializeUpstream "upstream" u | None => [] end ++
  beginArray "upstreams" :: (sc_upstreams svc ≫= serializeUpstream "") ++ [endArray; endObject].

Section dump.
Context {SA : SocketApi}.

Definition serializeAdmin (a : option AdminConfig) : Calls :=
  match a with
  | Some a =>
    beginObject "admin" :: stringField "address" (describe (ad_address a)) ::
    match ad_tls a with
    | Some tls => beginObject "tls" :: serializeTls tls ++ [endObject]
    | None => [nullField "tls"]
    end ++
    [boolField "track_metrics_enabled" (trackMetricsEnabled a);
     uintField "track_metrics_endpoint_default_limit" (trackMetricsLimit a);
     uintField "track_metrics_endpoint_max_limit" (trackMetricsMaxLimit a); endObject]
  | None => [nullField "admin"]
  end.

Definition serializeListener (l : ListenerConfig) : Calls :=
  [beginObject ""; stringField "name" (l_name l); stringField "address" (describe (l_address l));
   stringField "endpoint" (endpoint l); stringField "moqt_versions" (moqtVersions l);
   stringField "quic_stack" (quicStackName (quicStack l))] ++
  serializeListenerTls (tlsMode l) ++ serializeQuic (quic l) ++ serializeMvfst (mvfst l) ++ [endObject].

Definition serializeConfig (cfg : Config) : Calls :=
  [beginObject ""; stringField "relay_id" (relayID cfg); uintField "threads" (cfg_threads cfg);
   boolField "use_relay_thread" (useRelayThread cfg); boolField "use_local_forwarders" (useLocalForwarders cfg);
   boolField "mvfst_bpf_steering" (mvfstBpfSteering cfg); beginObject "cluster";
   boolField "enabled" (bool_decide (is_Some (cluster_hopID cfg)))] ++
  match cluster_hopID cfg with Some hop => [uintField "hop_id" hop] | None => [] end ++
  endObject :: serializeAdmin (admin cfg) ++
  beginArray "listeners" :: (listeners cfg ≫= serializeListener) ++
  endArray :: beginObject "services" :: (services cfg ≫= serializeService) ++
  endObject :: match logging cfg with Some l => serializeLogging l | None => [nullField "logging"] end ++ [endObject].
End dump.
