(* ===== verification/ConfigDump.v ===== *)
(** What the dump of a configuration shows: two configurations have the same dump
    exactly if they are the same but for their secrets; and configurations on
    which the theorems on the resolver apply. *)

From Stdlib Require Import QArith Strings.Byte String Ascii.
From stdpp Require Import pretty.
From S2P Require Import Prelude CborReader Auth AuthParse ServiceMatcher ServiceTheorems ConfigTypes ConfigResolve ConfigValid ConfigSound ConfigTheorems ConfigSerializer.
Local Open Scope Z_scope.

(** ** Without the secrets *)
(** Addresses are what is printed of them. *)
Definition Printed : SocketApi := {| SocketAddress := string; newSocketAddress := fun _ _ => None; describe := id |}.

Definition redactTls (t : TlsConfig) : TlsConfig :=
  mkTlsConfig (certFile t) (keyFile t) (tls_alpn t) ((fun _ => mkTlsMaterial EmptyString EmptyString) <$> material t).
Definition redactMode (m : TlsMode) : TlsMode := match m with Insecure => Insecure | Tls t => Tls (redactTls t) end.
Definition redactKey (k : HmacKey) : HmacKey := mkHmacKey (hk_id k) [].
(** An action outside the enumeration is printed without its number. *)
Definition redactAction (a : Action) : Action := match a with UnknownAction _ => UnknownAction 0 | a => a end.
Definition redactScope (s : AnonymousScope) : AnonymousScope :=
  mkAnonymousScope (map redactAction (an_actions s)) (an_namespaceSegments s) (an_namespaceMatchMode s)
    (an_trackName s) (an_trackMatchMode s).
Definition redactAuth (a : AuthConfig) : AuthConfig :=
  mkAuthConfig (enabled a) (tokenType a) (map redactKey (hmacKeys a)) (requireSetupToken a)
    (allowRequestTokenOverride a) (strictClaims a) (map redactScope (anonymousClaim a)) (maxTokensPerMessage a).
Definition redactService (s : string * ServiceConfig) : string * ServiceConfig :=
  (s.1, mkServiceConfig (sc_match s.2) (sc_cache s.2) (sc_upstream s.2) (redactAuth (sc_auth s.2)) (sc_upstreams s.2)
          (sc_maxSubscriptionBufferKb s.2)).
Definition redactListener {SA : SocketApi} (l : @ListenerConfig SA) : @ListenerConfig Printed :=
  @mkListenerConfig Printed (l_name l) (describe (l_address l)) (redactMode (tlsMode l)) (endpoint l) (moqtVersions l)
    (quicStack l) (quic l) (mvfst l).
Definition redactAdmin {SA : SocketApi} (a : @AdminConfig SA) : @AdminConfig Printed :=
  @mkAdminConfig Printed (describe (ad_address a)) (redactTls <$> ad_tls a) (trackMetricsEnabled a) (trackMetricsLimit a)
    (trackMetricsMaxLimit a).
Definition redact {SA : SocketApi} (c : @Config SA) : @Config Printed :=
  @mkConfig Printed (map redactListener (listeners c)) (map redactService (services c)) (redactAdmin <$> admin c)
    (relayID c) (cfg_threads c) (useRelayThread c) (useLocalForwarders c) (mvfstBpfSteering c) (logging c) (cluster_hopID c).

(** ** Reading a dump from its front *)
(** A serializer is [readable] up to [g] if what follows it and, up to [g], what
    it was given can be read off. *)
Definition readable {A B} (f : A -> Calls) (g : A -> B) : Prop :=
  forall x y r r', f x ++ r = f y ++ r' -> g x = g y /\ r = r'.
(** No element of the list is mistaken for its end. *)
Definition starts_other {A} (f : A -> Calls) (stop : SinkCall) : Prop := forall x r r', f x ++ r <> stop :: r'.

Lemma readable_list {A B} (f : A -> Calls) (g : A -> B) stop l l' r r' :
  readable f g -> starts_other f stop ->
  (l ≫= f) ++ stop :: r = (l' ≫= f) ++ stop :: r' -> map g l = map g l' /\ r = r'.
Proof.
  intros Hf Hs. revert l'. induction l as [|x l IH]; intros [|y l'] H; cbn in H.
  - by injection H.
  - rewrite <-app_assoc in H. by destruct (Hs y ((l' ≫= f) ++ stop :: r') r).
  - rewrite <-app_assoc in H. by destruct (Hs x ((l ≫= f) ++ stop :: r) r').
  - rewrite <-!app_assoc in H. apply Hf in H as [Hx H]. apply IH in H as [Hl ->]. cbn. by rewrite Hx, Hl.
Qed.
Lemma readable_map {A B} (f : A -> SinkCall) (g : A -> B) stop l l' r r' :
  (forall x y, f x = f y -> g x = g y) -> (forall x, f x <> stop) ->
  map f l ++ stop :: r = map f l' ++ stop :: r' -> map g l = map g l' /\ r = r'.
Proof.
  intros Hf Hs. revert l'. induction l as [|x l IH]; intros [|y l'] H; cbn in H.
  - by injection H.
  - injection H as H _. by destruct (Hs y).
  - injection H as H _. by destruct (Hs x).
  - injection H as Hx H. apply IH in H as [Hl ->]. cbn. by rewrite (Hf _ _ Hx), Hl.
Qed.

#[local] Instance string_of_list_byte_inj : Inj (=) (=) string_of_list_byte.
Proof.
  intros a b H. rewrite <-(list_byte_of_string_of_list_byte a), <-(list_byte_of_string_of_list_byte b). by rewrite H.
Qed.

Lemma cons_eq {A} (a b : A) l l' : a :: l = b :: l' -> a = b /\ l = l'.
Proof. by intros [= -> ->]. Qed.
(** The equal calls in front are taken off, their values kept. *)
Ltac peel H :=
  repeat (let E := fresh "E" in apply cons_eq in H as [E H]; first [discriminate E | injection E as E | clear E]).

(** Appended calls in a row. *)
Ltac flat H := repeat (rewrite <-app_comm_cons in H || rewrite <-app_assoc in H).

(** Flat records: the calls give the fields. *)
Ltac read_fields := intros x y r r' H; destruct x, y; cbn in H; simplify_eq; try done.

Lemma quic_readable : readable serializeQuic id.
Proof. read_fields. Qed.
Lemma mvfst_readable : readable serializeMvfst id.
Proof.
  intros x y r r' H. destruct x as [? ? ? ? ? ? ? ? ? ? [] [] [] ? ?], y as [? ? ? ? ? ? ? ? ? ? [] [] [] ? ?].
  cbn in H. injection H. intros. subst. done.
Qed.
Lemma match_readable : readable serializeMatch id.
Proof.
  intros x y r r' H. destruct x as [a p], y as [a' p']. cbn in H. injection H as Ha Hp Hr. split; [|done]. unfold id. f_equal.
  - by destruct a, a'; simplify_eq.
  - by destruct p, p'; simplify_eq.
Qed.
Lemma cache_readable : readable serializeCache id.
Proof.
  intros x y r r' H. destruct x as [? ? ? ? ? d], y as [? ? ? ? ? d']. cbn in H. injection H. intros. subst.
  destruct d, d'; by simplify_eq.
Qed.
Lemma key_readable : readable serializeKey redactKey.
Proof. intros x y r r' H. cbn in H. injection H as Hi%string_of_list_byte_inj Hr. unfold redactKey. by rewrite Hi. Qed.
Lemma upstream_readable key : readable (serializeUpstream key) id.
Proof.
  intros x y r r' H. destruct x as [? ? ca ? ? ?], y as [? ? ca' ? ? ?]. cbn in H. injection H. intros. subst.
  destruct ca, ca'; by simplify_eq.
Qed.
Lemma log_readable key : readable (serializeLog key) id.
Proof. intros [[]|] [[]|] r r' H; cbn in H; by simplify_eq. Qed.

Lemma tls_readable : readable serializeTls redactTls.
Proof.
  intros x y r r' H. unfold serializeTls in H. cbn [app] in H. rewrite <-!app_assoc in H. injection H as H1 H2 H3 H.
  apply (readable_map _ id) in H as [H4 ->]; [|by intros ? ? [=]|done]. rewrite !map_id in H4. split; [|done].
  unfold redactTls. rewrite H1, H2, H4. f_equal. by destruct (material x), (material y).
Qed.
Lemma mode_readable : readable serializeListenerTls redactMode.
Proof.
  intros [|t] [|t'] r r' H; unfold serializeListenerTls in H; rewrite <-!app_comm_cons in H;
    apply cons_eq in H as [_ H]; try discriminate H; [by injection H as ->|].
  rewrite <-!app_assoc in H. apply tls_readable in H as [Ht H]. peel H. cbn. by rewrite Ht.
Qed.

Lemma actionName_redact a b : actionName a = actionName b -> redactAction a = redactAction b.
Proof. by destruct a, b. Qed.
Lemma matchRuleTypeName_inj a b : matchRuleTypeName a = matchRuleTypeName b -> a = b.
Proof. by destruct a, b. Qed.
Definition serializeSegments (o : option (list bytes)) : Calls :=
  match o with
  | Some segs => beginArray "namespace_segments" :: map (fun seg => stringField "" (string_of_list_byte seg)) segs ++ [endArray]
  | None => [nullField "namespace_segments"]
  end.
Lemma segments_readable : readable serializeSegments id.
Proof.
  intros [s|] [s'|] r r' H; cbn [serializeSegments] in H; rewrite <-?app_comm_cons, <-?app_assoc in H; peel H; try done.
  apply (readable_map _ id) in H as [Hs ->]; [|intros ? ? [= E]; by apply string_of_list_byte_inj|done].
  by rewrite !map_id in Hs; subst.
Qed.

Lemma scope_readable : readable serializeScope redactScope.
Proof.
  intros x y r r' H. unfold serializeScope in H. fold (serializeSegments (an_namespaceSegments x)) in H.
  fold (serializeSegments (an_namespaceSegments y)) in H. rewrite <-!app_comm_cons, <-!app_assoc in H. peel H.
  rewrite <-!app_comm_cons in H.
  apply (readable_map _ redactAction) in H as [Ha H]; [|intros ? ? [= E]; by apply actionName_redact|done].
  rewrite <-!app_assoc in H. apply segments_readable in H as [Hs H]. rewrite <-!app_comm_cons in H.
  apply cons_eq in H as [[= En%matchRuleTypeName_inj] H]. apply cons_eq in H as [Et H].
  apply cons_eq in H as [[= Em%matchRuleTypeName_inj] H]. peel H. split; [|done].
  assert (Ht : an_trackName x = an_trackName y).
  { destruct (an_trackName x), (an_trackName y); try done. by injection Et as ->%string_of_list_byte_inj. }
  unfold redactScope. unfold id in Hs. by rewrite Ha, Hs, En, Em, Ht.
Qed.

Ltac other := let x := fresh in intros x ? ?; destruct x; by (cbn; intros [=]).

Lemma auth_readable : readable serializeAuth redactAuth.
Proof.
  intros x y r r' H. unfold serializeAuth in H. rewrite <-!app_assoc in H. rewrite <-!app_comm_cons in H. cbn [app] in H.
  peel H. rewrite <-!app_assoc, <-?app_comm_cons in H.
  apply (readable_list _ redactKey) in H as [Hk H]; [|apply key_readable|by intros ? ? ?].
  peel H. apply (readable_list _ redactScope) in H as [Hs H]; [|apply scope_readable|by intros ? ? ?].
  cbn [app] in H. peel H. split; [|done]. unfold redactAuth. by rewrite Hk, Hs; congruence.
Qed.

Lemma logging_readable : readable serializeLogging id.
Proof.
  intros [m q] [m' q'] r r' H. unfold serializeLogging in H. rewrite <-!app_comm_cons, <-!app_assoc in H.
  apply cons_eq in H as [_ H]. apply log_readable in H as [Hm H]. apply log_readable in H as [Hq H]. peel H.
  cbn in Hm, Hq. unfold id in *. by subst.
Qed.

Lemma service_readable : readable serializeService redactService.
Proof.
  intros [n x] [n' y] r r' H. unfold serializeService in H. cbn [fst snd] in H. rewrite <-?app_comm_cons, <-?app_assoc in H.
  peel H. rewrite <-!app_comm_cons in H.
  apply (readable_list _ id) in H as [Hm H]; [|apply match_readable|by intros ? ? ?]. rewrite !map_id in Hm.
  rewrite <-?app_assoc in H. apply cache_readable in H as [Hc H]. apply auth_readable in H as [Ha H].
  rewrite <-!app_comm_cons in H. apply cons_eq in H as [[= Hb] H].
  assert (Hu : sc_upstream x = sc_upstream y /\
    exists s s', (sc_upstreams x ≫= serializeUpstream "") ++ endArray :: endObject :: s =
                 (sc_upstreams y ≫= serializeUpstream "") ++ endArray :: endObject :: s' /\ s = r /\ s' = r').
  { destruct (sc_upstream x) as [u|], (sc_upstream y) as [u'|]; cbn [app] in H; rewrite <-?app_assoc in H.
    - apply upstream_readable in H as [Hu H]. flat H. apply cons_eq in H as [_ H]. split; [by unfold id in Hu; subst|].
      by exists r, r'.
    - discriminate H.
    - discriminate H.
    - flat H. apply cons_eq in H as [_ H]. split; [done|]. by exists r, r'. }
  destruct Hu as (Hu & s & s' & Hus & -> & ->).
  apply (readable_list _ id) in Hus as [Hus Hr]; [|apply upstream_readable|by intros ? ? ?]. rewrite !map_id in Hus.
  peel Hr. split; [|done]. unfold redactService. cbn. unfold id in Hc. by rewrite Hm, Hc, Ha, Hb, Hu, Hus; congruence.
Qed.

Section dump.
Context {SA : SocketApi}.

Lemma admin_readable : readable serializeAdmin (fmap redactAdmin : option AdminConfig -> _).
Proof.
  intros [x|] [y|] r r' H; unfold serializeAdmin in H; flat H; try discriminate H; [|by injection H as ->].
  apply cons_eq in H as [_ H]. apply cons_eq in H as [[= Ha] H].
  assert (Ht : redactTls <$> ad_tls x = redactTls <$> ad_tls y /\
    uintField "track_metrics_endpoint_default_limit" (trackMetricsLimit x) =
    uintField "track_metrics_endpoint_default_limit" (trackMetricsLimit y) /\
    trackMetricsEnabled x = trackMetricsEnabled y /\ trackMetricsMaxLimit x = trackMetricsMaxLimit y /\ r = r').
  { destruct (ad_tls x) as [t|], (ad_tls y) as [t'|]; flat H; try discriminate H; apply cons_eq in H as [_ H].
    - apply tls_readable in H as [Ht H]. cbn. rewrite Ht. by injection H as -> -> -> ->.
    - by injection H as -> -> -> ->. }
  destruct Ht as (Ht & [= Hl] & He & Hm & ->). split; [|done]. cbn. unfold redactAdmin. by rewrite Ha, Ht, Hl, He, Hm.
Qed.

Lemma quicStackName_inj a b : quicStackName a = quicStackName b -> a = b.
Proof. by destruct a, b. Qed.
Lemma listener_readable : readable serializeListener (redactListener : ListenerConfig -> _).
Proof.
  intros x y r r' H. unfold serializeListener in H. flat H. apply cons_eq in H as [_ H].
  apply cons_eq in H as [[= Hn] H]. apply cons_eq in H as [[= Ha] H]. apply cons_eq in H as [[= He] H].
  apply cons_eq in H as [[= Hv] H]. apply cons_eq in H as [[= Hs%quicStackName_inj] H].
  change (serializeListenerTls (tlsMode x) ++ serializeQuic (quic x) ++ serializeMvfst (mvfst x) ++ endObject :: r =
    serializeListenerTls (tlsMode y) ++ serializeQuic (quic y) ++ serializeMvfst (mvfst y) ++ endObject :: r') in H.
  apply mode_readable in H as [Ht H]. apply quic_readable in H as [Hq H]. apply mvfst_readable in H as [Hm H]. injection H as ->.
  split; [|done]. unfold redactListener. unfold id in *. by rewrite Hn, Ha, He, Hv, Hs, Ht, Hq, Hm.
Qed.
Definition serializeHop (hop : option Z) : Calls :=
  boolField "enabled" (bool_decide (is_Some hop)) :: match hop with Some h => [uintField "hop_id" h] | None => [] end ++ [endObject].
Lemma hop_readable : readable serializeHop id.
Proof. intros [h|] [h'|] r r' H; cbn in H; by simplify_eq. Qed.
Definition serializeLogs (l : option LoggingConfig) : Calls :=
  match l with Some l => serializeLogging l | None => [nullField "logging"] end.
Lemma logs_readable : readable serializeLogs id.
Proof.
  intros [l|] [l'|] r r' H; cbn [serializeLogs] in H; try discriminate H; [|by injection H as ->].
  apply logging_readable in H as [Hl ->]. unfold id in *. by subst.
Qed.

Lemma config_readable (c c' : Config) : serializeConfig c = serializeConfig c' -> redact c = redact c'.
Proof.
  intros H. unfold serializeConfig in H. flat H.
  apply cons_eq in H as [_ H]. apply cons_eq in H as [[= Hid] H]. apply cons_eq in H as [[= Hth] H].
  apply cons_eq in H as [[= Hrt] H]. apply cons_eq in H as [[= Hlf] H]. apply cons_eq in H as [[= Hb] H].
  apply cons_eq in H as [_ H].
  assert (Hall : forall d : Config, boolField "enabled" (bool_decide (is_Some (cluster_hopID d))) ::
    [] ++ match cluster_hopID d with Some hop => [uintField "hop_id" hop] | None => [] end ++ endObject ::
    serializeAdmin (admin d) ++ beginArray "listeners" :: (listeners d ≫= serializeListener) ++ endArray ::
    beginObject "services" :: (services d ≫= serializeService) ++ endObject ::
    match logging d with Some l => serializeLogging l | None => [nullField "logging"] end ++ [endObject] =
    serializeHop (cluster_hopID d) ++ serializeAdmin (admin d) ++ beginArray "listeners" ::
    (listeners d ≫= serializeListener) ++ endArray :: beginObject "services" :: (services d ≫= serializeService) ++
    endObject :: serializeLogs (logging d) ++ [endObject]).
  { intros d. unfold serializeHop, serializeLogs. cbn [app]. f_equal. by rewrite <-app_assoc. }
  rewrite !Hall in H. clear Hall. apply hop_readable in H as [Hh H]. apply admin_readable in H as [Ha H].
  apply cons_eq in H as [_ H]. apply (readable_list _ redactListener) in H as [Hl H]; [|apply listener_readable|by intros ? ? ?].
  apply cons_eq in H as [_ H]. apply (readable_list _ redactService) in H as [Hs H]; [|apply service_readable|by intros ? ? ?].
  apply logs_readable in H as [Hg _]. unfold redact. unfold id in *. by rewrite Hid, Hth, Hrt, Hlf, Hb, Hh, Ha, Hl, Hs, Hg.
Qed.
End dump.

(** ** The dump is made from what is not secret *)
Lemma bind_redact {A B} (f : A -> Calls) (f' : B -> Calls) (g : A -> B) l :
  (forall x, f' (g x) = f x) -> map g l ≫= f' = l ≫= f.
Proof. intros H. induction l as [|x l IH]; [done|]. cbn. by rewrite H, IH. Qed.

Lemma serializeTls_redact t : serializeTls (redactTls t) = serializeTls t.
Proof. unfold serializeTls. cbn. by destruct (material t). Qed.
Lemma serializeListenerTls_redact m : serializeListenerTls (redactMode m) = serializeListenerTls m.
Proof. destruct m as [|t]; [done|]. unfold serializeListenerTls, redactMode. by rewrite serializeTls_redact. Qed.
Lemma serializeAuth_redact a : serializeAuth (redactAuth a) = serializeAuth a.
Proof.
  unfold serializeAuth. cbn [redactAuth enabled tokenType requireSetupToken allowRequestTokenOverride strictClaims
    maxTokensPerMessage hmacKeys anonymousClaim].
  rewrite (bind_redact serializeKey), (bind_redact serializeScope); [done| |done].
  intros s. unfold serializeScope. cbn. rewrite map_map. do 3 f_equal. apply map_ext. by intros [].
Qed.

(** (C33) The dump of a configuration shows exactly what is not secret: two
    configurations give the same dump if and only if they are equal but for the
    signing secrets, the in-memory certificate and key, and the difference between
    addresses that are printed alike and between action codes without a name.  So no secret can be told from the dump, and
    every other setting can be read from it. *)
Theorem config_dump_exact {SA : SocketApi} (c c' : @Config SA) :
  serializeConfig c = serializeConfig c' <-> redact c = redact c'.
Proof.
  assert (Hr : forall d : Config, @serializeConfig Printed (redact d) = serializeConfig d).
  { intros d. unfold serializeConfig. cbn [redact relayID cfg_threads useRelayThread useLocalForwarders mvfstBpfSteering
      cluster_hopID admin listeners services logging].
    rewrite (bind_redact serializeListener), (bind_redact serializeService).
    - assert (Ha : @serializeAdmin Printed (redactAdmin <$> admin d) = serializeAdmin (admin d)).
      { destruct (admin d) as [a|]; [|done]. cbn [fmap option_fmap option_map serializeAdmin redactAdmin ad_tls ad_address
          trackMetricsEnabled trackMetricsLimit trackMetricsMaxLimit].
        destruct (ad_tls a) as [t|]; [|done]. cbn [fmap option_fmap option_map]. by rewrite serializeTls_redact. }
      by rewrite Ha.
    - intros [n s]. unfold serializeService. cbn [redactService fst snd sc_match sc_cache sc_auth sc_upstream sc_upstreams
        sc_maxSubscriptionBufferKb]. by rewrite serializeAuth_redact.
    - intros l. unfold serializeListener. cbn [redactListener l_name l_address endpoint moqtVersions quicStack tlsMode quic mvfst].
      by rewrite serializeListenerTls_redact. }
  split; [apply config_readable|]. intros H. rewrite <-(Hr c), <-(Hr c'). by rewrite H.
Qed.

(** ** Configurations

    A system and configurations for it: the hypotheses of the theorems on the
    resolver hold on them, and two settings that it lets pass. *)

(** Every host but the empty one resolves; one password opens every bundle. *)
#[local] Instance anyHost : SocketApi := {|
  SocketAddress := string * Z;
  newSocketAddress := fun host port => if bool_decide (host = EmptyString) then None else Some (host, port);
  describe := fun a => (a.1 ++ ":" ++ to_string a.2)%string;
|}.
#[local] Instance smallSystem : System_ := {|
  trimWhitespace := trim;
  readFile := fun file => if bool_decide (file = "pw.txt"%string) then Some ("open" ++ String newline EmptyString)%string else None;
  getenv := fun _ => None;
  loadPkcs12File := fun file pw =>
    if bool_decide (pw = "open"%string) then Ok (mkTlsMaterial ("chain of " ++ file) ("key of " ++ file)) else Err "bad password"%string;
  fsStatus := fun _ => (true, FT_not_found);
  rdRelayID := (1, 2);
  rdHopID := [(0, 0); (0, 7)];
|}.

Definition noFiles : ParsedTlsFiles := mkParsedTlsFiles None None None None None None.
Definition bundle : ParsedTlsFiles := mkParsedTlsFiles None None (Some "relay.p12") None (Some "pw.txt") None.
Definition pemFiles : ParsedTlsFiles := mkParsedTlsFiles (Some "c.pem") (Some "k.pem") None None None None.
Definition theListeners : list ParsedListenerConfig :=
  [mkParsedListener "main" (mkParsedSocket "::" 4433) (mkParsedListenerTls bundle false) "/moq" (Some [16; 18]) None
     (Some (mkParsedQuic None None None (Some 8) None None None None None (Some "copa"))) None;
   mkParsedListener "pico" (mkParsedSocket "::" 4434) (mkParsedListenerTls pemFiles false) "/moq" None (Some Stack_picoquic) None None].
Definition theAuth (secret : string) : ParsedAuthConfig :=
  mkParsedAuth true None (Some [mkParsedKey "k1" secret]) None None None
    (Some [mkParsedScope ["subscribe"; " Fetch"] (Some (Prefix, ["public"]%string)) None]) None.
Definition theServices (secret : string) : list (string * ParsedServiceConfig) :=
  [("live", mkParsedService [(ParsedWildcardAuthority "*.example.com", PrefixPath "/live"); (ParsedAnyAuthority true, ExactPath "/moq")]
      None None (Some [mkParsedUpstream "moqt://up:4433" false None None None None]) (Some (theAuth secret)) None);
   ("vod", mkParsedService [(ParsedWildcardAuthority "*.example.com", PrefixPath "/vod"); (ParsedAnyAuthority true, PrefixPath "/")]
      (Some (mkParsedCache None (Some 5) None None None None None)) None None None (Some 128))]%string.
Definition theConfig (secret : string) (mlogRate : option Float) : ParsedConfig :=
  mkParsedConfig theListeners false
    (Some (mkParsedServiceDefaults (Some (mkParsedCache (Some true) (Some 100) (Some 10) None None None None))
       (Some (Some 4)) (Some 64)))
    (theServices secret)
    (Some (mkParsedAdmin 9000 "localhost" true None (Some true) None (Some 50))) None None (Some 2) None (Some true) None
    (Some (mkParsedLogging (Some (mkParsedLog "/var/log/moq" mlogRate)) None)) None.

Definition noConfig : Config := mkConfig [] [] None EmptyString 0 false false false None None.
Definition resolvedOf (config : ParsedConfig) : Config * list ConfigWarning :=
  match resolveConfig config with Some (Ok r) => r | _ => (noConfig, []) end.
Abbreviation goodConfig := (theConfig "correct horse battery" None).

Lemma goodConfig_resolves : resolveConfig goodConfig = Some (Ok (resolvedOf goodConfig)).
Proof. vm_compute. reflexivity. Qed.
Lemma goodConfig_names : NoDup (map fst (parsed_services goodConfig)).
Proof. vm_compute. apply (bool_decide_unpack _). vm_compute. done. Qed.

Lemma resolve_config_safe_witness : config_ok (resolvedOf goodConfig).1.
Proof.
  pose proof (resolve_config_safe goodConfig goodConfig_names) as H.
  assert (Hd : Exists (fun d => draw64 d <> 0) rdHopID) by (right; left; by vm_compute).
  specialize (H Hd). rewrite goodConfig_resolves in H. destruct (resolvedOf goodConfig). exact H.
Defined.

Lemma routing_order_irrelevant_witness :
  exists m1 m2, newServiceMatcher stable_sort (matchesOf (services (resolvedOf goodConfig).1)) = Some m1 /\
    newServiceMatcher stable_sort (matchesOf (rev (services (resolvedOf goodConfig).1))) = Some m2 /\
    match_ m1 "a.example.com" "/live/x" = match_ m2 "a.example.com" "/live/x".
Proof.
  destruct (routing_order_irrelevant goodConfig (resolvedOf goodConfig).1 (resolvedOf goodConfig).2
    (services (resolvedOf goodConfig).1) (rev (services (resolvedOf goodConfig).1)) stable_sort stable_sort goodConfig_names)
    as (m1 & m2 & H1 & H2 & H).
  - rewrite goodConfig_resolves. by destruct (resolvedOf goodConfig).
  - done.
  - symmetry. apply Permutation_rev.
  - exists m1, m2. split; [exact H1|]. split; [exact H2|]. apply H.
Defined.

(** A signing secret of one byte is accepted with authorization enabled, with
    no error and no warning about it. *)
Theorem short_secret_accepted :
  exists c ws svc key, resolveConfig (theConfig "x" None) = Some (Ok (c, ws)) /\
    ws = (resolvedOf goodConfig).2 /\ ("live"%string, svc) ∈ services c /\
    enabled (sc_auth svc) = true /\ key ∈ hmacKeys (sc_auth svc) /\ length (hk_secret key) = 1%nat.
Proof.
  destruct (resolveConfig (theConfig "x" None)) as [[[c ws]|]|] eqn:E; [|vm_compute in E; done|vm_compute in E; done].
  vm_compute in E. injection E as <- <-. eexists _, _, _, _. split; [done|].
  split; [by vm_compute|]. split; [left|]. split; [done|]. split; [left|]. done.
Qed.

(** A sampling rate that is not a number is accepted, although the range is
    said to be from 0 to 1. *)
Theorem nan_rate_accepted :
  exists c ws l m, resolveConfig (theConfig "correct horse battery" (Some FNaN)) = Some (Ok (c, ws)) /\
    logging c = Some l /\ mlog l = Some m /\ lg_sampleRate m = FNaN /\ fle (lg_sampleRate m) fone = false.
Proof.
  destruct (resolveConfig (theConfig "correct horse battery" (Some FNaN))) as [[[c ws]|]|] eqn:E; [|vm_compute in E; done|vm_compute in E; done].
  vm_compute in E. injection E as <- <-. eexists _, _, _, _. done.
Qed.
