(* ===== verification/Rendezvous.v ===== *)
(** Subscriptions parked on a track that is not published yet
    (PendingRendezvousTree.h, PendingRendezvousTree.cpp).

    A node of the tree has its children and its waiters by track name; both hash
    maps are association lists.  A waiter is the identity of its baton.  The
    waking operations return the waiters they signal, in the order of the
    signals, which happen after the tree has been changed.

    The theorems: the tree keeps exactly the parked waiters, it refines a plain
    list of (track, waiter) pairs in the order of parking. *)

From S2P Require Import Prelude Assoc Location.

Inductive Node := NodeC {
  children : list (string * Node);
  waitersByTrack : list (string * list Z);
}.
Definition emptyNode : Node := NodeC [] [].

Definition node_empty (n : Node) : bool :=
  match children n, waitersByTrack n with [], [] => true | _, _ => false end.

(** [findOrCreateNode] with the update of the node it returns. *)
Fixpoint findOrCreateNode (ns : list string) (onNode : Node -> Node) (node : Node) : Node :=
  match ns with
  | [] => onNode node
  | part :: rest =>
      let child := default emptyNode (assoc part (children node)) in
      NodeC (assoc_set part (findOrCreateNode rest onNode child) (children node))
            (waitersByTrack node)
  end.

Definition addWaiter (f : FullTrackName) (waiter : Z) (root : Node) : Node :=
  findOrCreateNode (trackNamespace f)
    (fun node =>
       NodeC (children node)
         (assoc_set (trackName f)
            (default [] (assoc (trackName f) (waitersByTrack node)) ++ [waiter])
            (waitersByTrack node))) root.

(** The walk down, the call at the node, and the pruning of empty nodes on the
    way back: a node that is empty is erased from its parent; the first one that
    is not ends the loop, since its parents have a child. *)
Fixpoint applyAtNamespaceNode (ns : list string) (onNode : Node -> Node * list Z) (node : Node)
  : Node * list Z :=
  match ns with
  | [] => onNode node
  | part :: rest =>
      match assoc part (children node) with
      | None => (node, [])
      | Some child =>
          let '(child', out) := applyAtNamespaceNode rest onNode child in
          (NodeC (if node_empty child' then assoc_erase part (children node)
                  else assoc_set part child' (children node)) (waitersByTrack node), out)
      end
  end.

Definition eraseWaiter (f : FullTrackName) (waiter : Z) (root : Node) : Node :=
  (applyAtNamespaceNode (trackNamespace f)
    (fun node =>
       match assoc (trackName f) (waitersByTrack node) with
       | None => (node, [])
       | Some waiters =>
           let waiters' := filter (fun w => w <> waiter) waiters in
           (NodeC (children node)
              (match waiters' with
               | [] => assoc_erase (trackName f) (waitersByTrack node)
               | _ => assoc_set (trackName f) waiters' (waitersByTrack node)
               end), [])
       end) root).1.

(** [collectSubtree]: the waiters it appends to [out]; the node is left empty. *)
Fixpoint subtreeWaiters (node : Node) : list Z :=
  let fix ofChildren (l : list (string * Node)) : list Z :=
    match l with
    | [] => []
    | (_, child) :: r => subtreeWaiters child ++ ofChildren r
    end in
  concat (map snd (waitersByTrack node)) ++ ofChildren (children node).
Definition collectSubtree (node : Node) : Node * list Z := (emptyNode, subtreeWaiters node).

Definition wakeForTrack (f : FullTrackName) (root : Node) : Node * list Z :=
  applyAtNamespaceNode (trackNamespace f)
    (fun node =>
       match assoc (trackName f) (waitersByTrack node) with
       | None => (node, [])
       | Some waiters =>
           (NodeC (children node) (assoc_erase (trackName f) (waitersByTrack node)), waiters)
       end) root.

Definition wakeUnderNamespace (ns : list string) (root : Node) : Node * list Z :=
  applyAtNamespaceNode ns collectSubtree root.

(** ** The timeout of a request *)
Definition kMaxRendezvousTimeout : Z := 30000.

Section timeout.
(** moxygen: the parameters of a request and the version of a session. *)
Context {Params : Type} (getFirstIntParam : Params -> Z -> option Z)
        (eraseAllParamsOfType : Params -> Z -> Params)
        (getDraftMajorVersion : Z -> Z) (RENDEZVOUS_TIMEOUT : Z).

(** [version] is the negotiated version, absent without a session. *)
Definition takeRendezvousTimeout (params : Params) (version : option Z) : option Z * Params :=
  match version with
  | None => (None, params)
  | Some v =>
      if getDraftMajorVersion v <? 18 then (None, params)
      else
        let ms := getFirstIntParam params RENDEZVOUS_TIMEOUT in
        let params' := eraseAllParamsOfType params RENDEZVOUS_TIMEOUT in
        match ms with
        | None => (None, params')
        | Some x => if x =? 0 then (None, params') else (Some (Z.min x kMaxRendezvousTimeout), params')
        end
  end.
End timeout.

(** ** Looking a track up *)
Fixpoint waitersAt (ns : list string) (tr : string) (node : Node) : list Z :=
  match ns with
  | [] => default [] (assoc tr (waitersByTrack node))
  | part :: rest =>
      match assoc part (children node) with
      | None => []
      | Some child => waitersAt rest tr child
      end
  end.
Fixpoint nodeAt (ns : list string) (node : Node) : Node :=
  match ns with
  | [] => node
  | part :: rest =>
      match assoc part (children node) with None => emptyNode | Some child => nodeAt rest child end
  end.

(** No binding twice, no empty waiter list, and no empty node but the root. *)
Inductive wf : Node -> Prop :=
  | wf_intro ch ws :
      NoDup (map fst ch) -> NoDup (map fst ws) ->
      (forall tr l, (tr, l) ∈ ws -> l <> []) ->
      (forall part c, (part, c) ∈ ch -> wf c /\ node_empty c = false) ->
      wf (NodeC ch ws).

Lemma Node_ind' (P : Node -> Prop)
    (H : forall ch ws, Forall (fun p => P p.2) ch -> P (NodeC ch ws)) : forall n, P n.
Proof.
  fix IH 1. intros [ch ws]. apply H. induction ch as [|[k c] ch IHch]; constructor; [apply IH|apply IHch].
Qed.

Lemma node_empty_spec n : node_empty n = true <-> n = emptyNode.
Proof. destruct n as [[|p ch] [|q ws]]; done. Qed.
Lemma wf_empty : wf emptyNode.
Proof. constructor; try apply NoDup_nil_2; by intros ?? ?%elem_of_nil. Qed.
Lemma waitersAt_empty ns tr : waitersAt ns tr emptyNode = [].
Proof. by destruct ns. Qed.
Lemma nodeAt_empty ns : nodeAt ns emptyNode = emptyNode.
Proof. by destruct ns. Qed.

Lemma waitersAt_app ns rest tr node :
  waitersAt (ns ++ rest) tr node = waitersAt rest tr (nodeAt ns node).
Proof.
  revert node. induction ns as [|part ns IH]; intros node; [done|]. cbn.
  destruct (assoc part (children node)); [apply IH|by rewrite waitersAt_empty].
Qed.
Lemma wf_nodeAt ns node : wf node -> wf (nodeAt ns node).
Proof.
  revert node. induction ns as [|part ns IH]; intros node H; [done|]. cbn.
  destruct (assoc part (children node)) as [c|] eqn:E; [|apply wf_empty].
  destruct H as [ch ws Hc _ _ Hch]. cbn in E. apply assoc_elem in E; [|done]. apply IH. by apply (Hch part).
Qed.

Lemma assoc_set_lookup {K A} `{EqDecision K} (k k' : K) (a : A) l :
  assoc k' (assoc_set k a l) = if bool_decide (k' = k) then Some a else assoc k' l.
Proof.
  induction l as [|[k1 a1] l IH]; cbn.
  - by case_bool_decide.
  - destruct (decide (k = k1)) as [<- | Hne].
    + rewrite bool_decide_true by done. cbn. by case_bool_decide.
    + rewrite (bool_decide_false (k = k1)) by done. cbn. rewrite IH.
      destruct (decide (k' = k1)) as [-> | Hne']; [by rewrite (bool_decide_true (k1 = k1)), (bool_decide_false (k1 = k)) by done|].
      by rewrite (bool_decide_false (k' = k1)).
Qed.
Lemma assoc_erase_lookup {K A} `{EqDecision K} (k k' : K) (l : list (K * A)) :
  assoc k' (assoc_erase k l) = if bool_decide (k' = k) then None else assoc k' l.
Proof.
  unfold assoc_erase. induction l as [|[k1 a1] l IH]; [by case_bool_decide|].
  rewrite filter_cons. cbn [fst]. destruct (decide (k1 = k)) as [-> | Hne].
  - rewrite decide_False by tauto. rewrite IH. cbn. by case_bool_decide.
  - rewrite decide_True by done. cbn. rewrite IH.
    destruct (decide (k' = k1)) as [-> | Hne']; [by rewrite (bool_decide_true (k1 = k1)), (bool_decide_false (k1 = k)) by done|].
    by rewrite (bool_decide_false (k' = k1)).
Qed.

(** ** The two walks *)
(** What a walk does at [ns] it does to the lookups below [ns], and to no
    other. *)
Definition lookups_moved (ns : list string) (node node' below : Node) : Prop :=
  (forall rest tr, waitersAt (ns ++ rest) tr node' = waitersAt rest tr below) /\
  (forall ns' tr, ~ ns `prefix_of` ns' -> waitersAt ns' tr node' = waitersAt ns' tr node).

Lemma lookups_moved_cons part ns ch ws ws' child' below ch' :
  lookups_moved ns (default emptyNode (assoc part ch)) child' below ->
  (forall k, assoc k ch' = if bool_decide (k = part) then
      (if node_empty child' then None else Some child') else assoc k ch) \/
  (forall k, assoc k ch' = if bool_decide (k = part) then Some child' else assoc k ch) ->
  ws' = ws ->
  lookups_moved (part :: ns) (NodeC ch ws) (NodeC ch' ws') below.
Proof.
  intros [H1 H2] Hch ->.
  assert (Hc : forall rest tr, match assoc part ch' with None => [] | Some c => waitersAt rest tr c end =
                          waitersAt rest tr child').
  { intros rest tr. destruct Hch as [Hch|Hch]; rewrite Hch, bool_decide_true by done; [|done].
    destruct (node_empty child') eqn:E; [|done]. apply node_empty_spec in E as ->. by rewrite waitersAt_empty. }
  assert (Ho : forall k, k <> part -> assoc k ch' = assoc k ch).
  { intros k Hne. destruct Hch as [Hch|Hch]; by rewrite Hch, bool_decide_false. }
  split.
  - intros rest tr. cbn. rewrite Hc. apply H1.
  - intros [|part' ns'] tr Hp; [done|]. cbn. destruct (decide (part' = part)) as [-> | Hne].
    + rewrite Hc, H2 by (intros H; apply Hp; by apply prefix_cons).
      destruct (assoc part ch); [done|]. by rewrite waitersAt_empty.
    + by rewrite Ho.
Qed.

Lemma findOrCreate_spec ns onNode node :
  (forall n, wf n -> wf (onNode n) /\ node_empty (onNode n) = false) -> wf node ->
  wf (findOrCreateNode ns onNode node) /\ node_empty (findOrCreateNode ns onNode node) = false /\
  lookups_moved ns node (findOrCreateNode ns onNode node) (onNode (nodeAt ns node)).
Proof.
  intros HF. revert node. induction ns as [|part ns IH]; intros node Hwf.
  - destruct (HF node Hwf) as [H1 H2]. cbn. split; [done|]. split; [done|]. split; [done|].
    intros ns' tr Hp. destruct Hp. apply prefix_nil.
  - destruct Hwf as [ch ws Hc Hw Hl Hch]. cbn [findOrCreateNode nodeAt children waitersByTrack].
    set (child := default emptyNode (assoc part ch)).
    assert (Hcw : wf child).
    { unfold child. destruct (assoc part ch) as [c|] eqn:E; cbn; [|apply wf_empty].
      apply assoc_elem in E; [|done]. by apply (Hch part). }
    destruct (IH child Hcw) as (W & E & L). split; [|split].
    + constructor; [by apply assoc_set_nodup|done..|].
      intros p c [[-> ->]|[_ H]]%assoc_set_elem; [done|by eapply Hch|done].
    + unfold node_empty. cbn. by destruct ch as [|[k c] ch]; cbn; [|destruct (bool_decide (part = k))].
    + assert (Hn : match assoc part ch with Some c => nodeAt ns c | None => emptyNode end = nodeAt ns child).
      { unfold child. destruct (assoc part ch); [done|]. by rewrite nodeAt_empty. }
      rewrite Hn. eapply lookups_moved_cons; [exact L| |done].
      right. intros k. apply assoc_set_lookup.
Qed.

Lemma applyAt_spec ns onNode node :
  (forall n, wf n -> wf (onNode n).1) -> onNode emptyNode = (emptyNode, []) -> wf node ->
  wf (applyAtNamespaceNode ns onNode node).1 /\
  (applyAtNamespaceNode ns onNode node).2 = (onNode (nodeAt ns node)).2 /\
  lookups_moved ns node (applyAtNamespaceNode ns onNode node).1 (onNode (nodeAt ns node)).1.
Proof.
  intros HF HE. revert node. induction ns as [|part ns IH]; intros node Hwf.
  - cbn. split; [by apply HF|]. split; [done|]. split; [done|].
    intros ns' tr Hp. destruct Hp. apply prefix_nil.
  - destruct Hwf as [ch ws Hc Hw Hl Hch]. cbn [applyAtNamespaceNode nodeAt children waitersByTrack].
    destruct (assoc part ch) as [child|] eqn:Ea.
    + assert (Hin : (part, child) ∈ ch) by by apply assoc_elem.
      destruct (Hch part child Hin) as [Hcw _].
      destruct (IH child Hcw) as (W & E & L). destruct (applyAtNamespaceNode ns onNode child) as [child' out].
      cbn [fst snd] in *. split; [|split; [done|]].
      * destruct (node_empty child') eqn:Ee.
        -- constructor; [by apply assoc_erase_nodup|done..|].
           intros p c [_ H]%assoc_erase_elem. by eapply Hch.
        -- constructor; [by apply assoc_set_nodup|done..|].
           intros p c [[-> ->]|[_ H]]%assoc_set_elem; [done|by eapply Hch|done].
      * eapply (lookups_moved_cons part ns ch ws ws child'); [by rewrite Ea| |done].
        destruct (node_empty child') eqn:Ee; [left|right]; intros k;
          [apply assoc_erase_lookup|apply assoc_set_lookup].
    + rewrite HE. cbn [fst snd]. split; [by constructor|]. split; [done|]. split; [|done].
      intros rest tr. cbn. by rewrite Ea, waitersAt_empty.
Qed.

(** ** The waiters of a subtree *)
(** Every parked waiter with its namespace below the node and its track. *)
Fixpoint parked (node : Node) : list ((list string * string) * Z) :=
  let fix ofChildren (l : list (string * Node)) : list ((list string * string) * Z) :=
    match l with
    | [] => []
    | (part, child) :: r =>
        map (fun q => ((part :: q.1.1, q.1.2), q.2)) (parked child) ++ ofChildren r
    end in
  concat (map (fun q => map (pair ([], q.1)) q.2) (waitersByTrack node)) ++ ofChildren (children node).

Lemma parked_waiters node : map snd (parked node) = subtreeWaiters node.
Proof.
  induction node as [ch ws IH] using Node_ind'. cbn. rewrite map_app. f_equal.
  - induction ws as [|[tr l] ws IHw]; [done|]. cbn. rewrite map_app, map_map. cbn.
    rewrite map_id. by f_equal.
  - induction IH as [|[part c] ch Hc _ IHc]; [done|]. cbn. rewrite map_app, map_map. cbn in *.
    by f_equal.
Qed.

Lemma filter_map_out {A B} (P : B -> Prop) `{forall x, Decision (P x)} (f : A -> B) l :
  (forall a, a ∈ l -> ~ P (f a)) -> filter P (map f l) = [].
Proof.
  intros H'. induction l as [|a l IH]; [done|]. cbn [map]. rewrite filter_cons_False by (apply H'; by left).
  apply IH. intros b Hb. apply H'. by right.
Qed.
Lemma filter_map_in {A B} (P : B -> Prop) `{forall x, Decision (P x)} (f : A -> B) l :
  (forall a, a ∈ l -> P (f a)) -> filter P (map f l) = map f l.
Proof.
  intros H'. induction l as [|a l IH]; [done|]. cbn [map]. rewrite filter_cons_True by (apply H'; by left).
  f_equal. apply IH. intros b Hb. apply H'. by right.
Qed.
Lemma filter_map_comp {A B} (P : B -> Prop) `{forall x, Decision (P x)} (Q : A -> Prop)
    `{forall x, Decision (Q x)} (f : A -> B) l :
  (forall a, P (f a) <-> Q a) -> filter P (map f l) = map f (filter Q l).
Proof.
  intros E. induction l as [|a l IH]; [done|]. cbn [map]. rewrite !filter_cons.
  destruct (decide (Q a)) as [Hq|Hq].
  - rewrite decide_True by by apply E. cbn [map]. by f_equal.
  - rewrite decide_False by by rewrite E. done.
Qed.

Lemma parked_lookup node ns tr :
  wf node -> filter (fun q => q.1 = (ns, tr)) (parked node) = map (pair (ns, tr)) (waitersAt ns tr node).
Proof.
  revert ns. induction node as [ch ws IH] using Node_ind'. intros ns Hwf.
  inversion Hwf as [ch' ws' Hc Hw Hl Hch]; subst. cbn [parked waitersByTrack children].
  rewrite filter_app. destruct ns as [|part ns]; cbn [waitersAt waitersByTrack children].
  - match goal with |- filter ?P (?a) ++ filter ?P ?b = _ => assert (E : filter P b = []) end.
    { clear. induction ch as [|[p c] ch IHc]; [done|]. rewrite filter_app, IHc, app_nil_r.
      apply filter_map_out. by intros a _. }
    rewrite E, app_nil_r. clear -Hw. induction ws as [|[tr' l] ws IHw]; [done|].
    cbn in Hw. apply NoDup_cons in Hw as [Hk Hw]. cbn. rewrite filter_app.
    case_bool_decide as Et.
    + subst tr'. rewrite filter_map_in by done. cbn. rewrite IHw by done.
      assert (Hn : assoc tr ws = None) by by apply assoc_None. rewrite Hn. by rewrite app_nil_r.
    + rewrite filter_map_out by (intros a _; cbn; congruence). by apply IHw.
  - match goal with |- filter ?P ?a ++ filter ?P ?b = _ => assert (E : filter P a = []) end.
    { clear. induction ws as [|[tr' l] ws IHw]; [done|]. cbn. rewrite filter_app, IHw, app_nil_r.
      by apply filter_map_out. }
    rewrite E. cbn [app]. clear E Hwf Hw Hl. induction ch as [|[p c] ch IHc]; [done|].
    apply Forall_cons in IH as [IH1 IH2]. cbn in Hc. apply NoDup_cons in Hc as [Hk Hc].
    rewrite filter_app. cbn [assoc]. destruct (Hch p c ltac:(by left)) as [Hcw _].
    assert (Hch' : forall part c0, (part, c0) ∈ ch -> wf c0 /\ node_empty c0 = false)
      by (intros p0 c0 H0; apply (Hch p0 c0); by right).
    specialize (IHc IH2 Hc Hch'). case_bool_decide as Ep.
    + subst p. rewrite (filter_map_comp _ (fun q => q.1 = (ns, tr))) by (intros [[x y] z]; cbn; naive_solver).
      rewrite IH1 by done. rewrite IHc.
      assert (Hn : assoc part ch = None) by by apply assoc_None. rewrite Hn. cbn [map]. rewrite app_nil_r.
      by rewrite map_map.
    + rewrite filter_map_out by (intros a _; cbn; congruence). exact IHc.
Qed.

(** Lists with the same part for every key are permutations of each other. *)
Lemma same_parts_perm {K A} `{EqDecision K} (l1 l2 : list (K * A)) :
  (forall k, filter (fun q => q.1 = k) l1 = filter (fun q => q.1 = k) l2) -> l1 ≡ₚ l2.
Proof.
  revert l2. induction l1 as [|x l1 IH]; intros l2 H.
  - destruct l2 as [|y l2]; [done|]. specialize (H y.1). by rewrite filter_cons_True in H.
  - pose proof (H x.1) as Hx. rewrite filter_cons_True in Hx by done.
    assert (Hin : x ∈ l2).
    { assert (Hf : x ∈ filter (fun q => q.1 = x.1) l2) by (rewrite <-Hx; by left).
      by apply list_elem_of_filter in Hf as [_ Hf]. }
    assert (Hsplit : exists a b, l2 = a ++ x :: b /\ filter (fun q => q.1 = x.1) a = []).
    { clear -Hx. revert Hx. induction l2 as [|y l2 IH2]; [done|]. rewrite (filter_cons _ y).
      case_decide as Hy.
      - intros [= <- _]. by exists [], l2.
      - intros Hx. destruct (IH2 Hx) as (a & b & -> & Ha). exists (y :: a), b. split; [done|].
        by rewrite filter_cons_False. }
    destruct Hsplit as (a & b & -> & Ha). rewrite <-Permutation_middle. apply Permutation_skip, IH.
    intros k. specialize (H k). rewrite filter_app in *. rewrite !filter_cons in H.
    case_decide as Hk; [|done]. subst k. rewrite Ha in *. cbn in *. by injection H.
Qed.

(** ** Refinement *)
Inductive RvOp :=
  | Park (f : FullTrackName) (w : Z)
  | Unpark (f : FullTrackName) (w : Z)
  | WakeTrack (f : FullTrackName)
  | WakeNamespace (ns : list string).

Definition rv_step (op : RvOp) (t : Node) : Node * list Z :=
  match op with
  | Park f w => (addWaiter f w t, [])
  | Unpark f w => (eraseWaiter f w t, [])
  | WakeTrack f => wakeForTrack f t
  | WakeNamespace ns => wakeUnderNamespace ns t
  end.

(** The specification: the parked subscriptions in the order of parking. *)
Abbreviation Parked := (list (FullTrackName * Z)).
Definition covers (ns : list string) (f : FullTrackName) : Prop := ns `prefix_of` trackNamespace f.
#[global] Instance covers_dec ns f : Decision (covers ns f).
Proof. unfold covers. apply _. Defined.
Definition spec_step (op : RvOp) (l : Parked) : Parked * list Z :=
  match op with
  | Park f w => (l ++ [(f, w)], [])
  | Unpark f w => (filter (fun q => q <> (f, w)) l, [])
  | WakeTrack f =>
      (filter (fun q => q.1 <> f) l, map snd (filter (fun q => q.1 = f) l))
  | WakeNamespace ns =>
      (filter (fun q => ~ covers ns q.1) l, map snd (filter (fun q => covers ns q.1) l))
  end.

(** The waiters signalled by each operation of a run. *)
Fixpoint rv_run (ops : list RvOp) (t : Node) : Node * list (RvOp * list Z) :=
  match ops with
  | [] => (t, [])
  | op :: r => let '(t1, o) := rv_step op t in let '(t2, os) := rv_run r t1 in (t2, (op, o) :: os)
  end.
Fixpoint spec_run (ops : list RvOp) (l : Parked) : Parked * list (RvOp * list Z) :=
  match ops with
  | [] => (l, [])
  | op :: r => let '(l1, o) := spec_step op l in let '(l2, os) := spec_run r l1 in (l2, (op, o) :: os)
  end.

(** Waiters of one track are woken in the order they parked; a whole namespace
    is woken in the order of the hash maps. *)
Definition same_wakes (x y : RvOp * list Z) : Prop :=
  x.1 = y.1 /\ match x.1 with WakeNamespace _ => x.2 ≡ₚ y.2 | _ => x.2 = y.2 end.

Definition at_track (f : FullTrackName) (l : Parked) : list Z := map snd (filter (fun q => q.1 = f) l).
Definition sim (t : Node) (l : Parked) : Prop :=
  wf t /\ forall ns tr, waitersAt ns tr t = at_track (FTN ns tr) l.

Lemma wf_at_track t l : sim t l -> node_empty t = true <-> l = [].
Proof.
  intros [Hwf Hs]. split.
  - intros ->%node_empty_spec. destruct l as [|[[ns tr] w] l]; [done|].
    specialize (Hs ns tr). rewrite waitersAt_empty in Hs. unfold at_track in Hs.
    by rewrite filter_cons_True in Hs.
  - intros ->. destruct (node_empty t) eqn:E; [done|]. exfalso.
    assert (H : exists ns tr, waitersAt ns tr t <> []).
    { clear Hs. revert E Hwf. induction t as [ch ws IH] using Node_ind'. intros E Hwf.
      inversion Hwf as [? ? Hc Hw Hl Hch]; subst. destruct ws as [|[tr l] ws].
      - destruct ch as [|[part c] ch]; [done|]. apply Forall_cons in IH as [IH _].
        destruct (Hch part c ltac:(by left)) as [Hcw Hce]. destruct (IH Hce Hcw) as (ns & tr & H).
        exists (part :: ns), tr. cbn. by rewrite bool_decide_true.
      - exists [], tr. cbn. rewrite bool_decide_true by done. apply (Hl tr l). by left. }
    destruct H as (ns & tr & H). by rewrite Hs in H.
Qed.

Lemma at_track_filter f (P : FullTrackName * Z -> Prop) `{forall x, Decision (P x)} l :
  at_track f (filter P l) = map snd (filter (fun q => P q /\ q.1 = f) l).
Proof. unfold at_track. rewrite list_filter_filter. f_equal. apply list_filter_iff. intros q. tauto. Qed.

(** The waiters of one track, with one of them or all of them removed. *)
Lemma at_track_without f' (P : FullTrackName * Z -> Prop) `{forall x, Decision (P x)} l :
  (forall q, q.1 = f' -> P q) -> at_track f' (filter P l) = at_track f' l.
Proof.
  intros HP. rewrite at_track_filter. unfold at_track. f_equal. apply list_filter_iff.
  intros q. split; [tauto|]. intros Hq. split; [by apply HP|done].
Qed.
Lemma at_track_none f (P : FullTrackName * Z -> Prop) `{forall x, Decision (P x)} l :
  (forall q, q.1 = f -> ~ P q) -> at_track f (filter P l) = [].
Proof.
  intros HP. rewrite at_track_filter. induction l as [|q l IH]; [done|].
  rewrite filter_cons_False; [apply IH|]. intros [H1 H2]. by apply (HP q).
Qed.

Lemma lookups_track ns tr t t' below :
  lookups_moved ns t t' below ->
  (forall part rest tr', waitersAt (part :: rest) tr' below = waitersAt (part :: rest) tr' (nodeAt ns t)) ->
  (forall tr', tr' <> tr -> waitersAt [] tr' below = waitersAt [] tr' (nodeAt ns t)) ->
  forall ns' tr', (ns', tr') <> (ns, tr) -> waitersAt ns' tr' t' = waitersAt ns' tr' t.
Proof.
  intros [H1 H2] Hdeep Htr ns' tr' Hne. destruct (decide (ns `prefix_of` ns')) as [[rest ->]|Hp]; [|by apply H2].
  rewrite H1, waitersAt_app. destruct rest as [|part rest]; [|apply Hdeep].
  apply Htr. intros ->. rewrite app_nil_r in Hne. done.
Qed.

(** One step of the tree and of the list, kept related, with the same wakes. *)
Definition steps_agree (op : RvOp) (t : Node) (l : Parked) : Prop :=
  sim (rv_step op t).1 (spec_step op l).1 /\
  same_wakes (op, (rv_step op t).2) (op, (spec_step op l).2).

Lemma step_park ns tr w t l : sim t l -> steps_agree (Park (FTN ns tr) w) t l.
Proof.
  intros [Hwf Hs]. unfold steps_agree. cbn [rv_step spec_step fst snd].
  unfold addWaiter. cbn [trackNamespace trackName].
  match goal with |- context [findOrCreateNode ns ?F t] => set (onNode := F) end.
  destruct (findOrCreate_spec ns onNode t) as (W & _ & L); [|done|].
  { intros n [ch ws Hc Hw Hl Hch]. unfold onNode. cbn [children waitersByTrack]. split.
    - constructor; [done|by apply assoc_set_nodup| |done].
      intros tr' l' [[-> ->]|[_ H]]%assoc_set_elem; [by destruct (default [] (assoc tr ws))|by eapply Hl|done].
    - unfold node_empty. cbn. destruct ch; [|done].
      by destruct ws as [|[k c] ws]; cbn; [|destruct (bool_decide (tr = k))]. }
  split; [|done]. split; [done|]. intros ns' tr'.
  destruct (decide ((ns', tr') = (ns, tr))) as [[= -> ->]|Hne].
  - destruct L as [L _]. specialize (L [] tr). rewrite app_nil_r in L. rewrite L. unfold onNode. cbn.
    rewrite assoc_set_lookup, bool_decide_true by done. cbn.
    specialize (Hs ns tr). rewrite <-(app_nil_r ns), waitersAt_app, app_nil_r in Hs. cbn in Hs. rewrite Hs.
    unfold at_track. rewrite filter_app, map_app. by rewrite (filter_cons_True _ (FTN ns tr, w)) by done.
  - rewrite (lookups_track ns tr t _ _ L); [|done| |done].
    + rewrite Hs. unfold at_track. rewrite filter_app, (filter_cons_False _ (FTN ns tr, w)), filter_nil, app_nil_r; [done|].
      cbn. congruence.
    + intros tr'' Hn. unfold onNode. cbn. by rewrite assoc_set_lookup, bool_decide_false.
Qed.

Lemma step_unpark ns tr w t l : sim t l -> steps_agree (Unpark (FTN ns tr) w) t l.
Proof.
  intros [Hwf Hs]. unfold steps_agree. cbn [rv_step spec_step fst snd].
  unfold eraseWaiter. cbn [trackNamespace trackName].
  match goal with |- context [applyAtNamespaceNode ns ?F t] => set (onNode := F) end.
  assert (Htr : forall n tr', tr' <> tr -> waitersAt [] tr' (onNode n).1 = waitersAt [] tr' n).
  { intros n tr' Hn. unfold onNode. destruct (assoc tr (waitersByTrack n)); [|done]. cbn.
    destruct (filter _ _); [by rewrite assoc_erase_lookup, bool_decide_false|by rewrite assoc_set_lookup, bool_decide_false]. }
  destruct (applyAt_spec ns onNode t) as (W & _ & L); [|done|done|].
  { intros n [ch ws Hc Hw Hl Hch]. unfold onNode. cbn [waitersByTrack children].
    destruct (assoc tr ws) as [wl|]; [|by constructor]. cbn [fst].
    destruct (filter _ wl) as [|x r] eqn:Ef.
    - constructor; [done|by apply assoc_erase_nodup| |done]. intros tr' l' [_ H]%assoc_erase_elem. by eapply Hl.
    - constructor; [done|by apply assoc_set_nodup| |done].
      intros tr' l' [[-> ->]|[_ H]]%assoc_set_elem; [done|by eapply Hl|done]. }
  split; [|done]. split; [done|]. intros ns' tr'.
  destruct (decide ((ns', tr') = (ns, tr))) as [[= -> ->]|Hne].
  - destruct L as [L _]. specialize (L [] tr). rewrite app_nil_r in L. rewrite L.
    specialize (Hs ns tr). rewrite <-(app_nil_r ns), waitersAt_app, app_nil_r in Hs. cbn in Hs.
    assert (E : waitersAt [] tr (onNode (nodeAt ns t)).1 =
                filter (fun x => x <> w) (default [] (assoc tr (waitersByTrack (nodeAt ns t))))).
    { unfold onNode. destruct (assoc tr (waitersByTrack (nodeAt ns t))) as [wl|] eqn:Ea; cbn; [|by rewrite Ea].
      destruct (filter _ wl) as [|x r]; [by rewrite assoc_erase_lookup, bool_decide_true|by rewrite assoc_set_lookup, bool_decide_true]. }
    rewrite E, Hs, at_track_filter. unfold at_track. clear. induction l as [|[f' w'] l IH]; [done|].
    rewrite !filter_cons. cbn [fst]. destruct (decide (f' = FTN ns tr)) as [-> | Hf].
    + cbn [map snd]. rewrite filter_cons. destruct (decide (w' = w)) as [-> | Hw].
      * rewrite !decide_False by naive_solver. exact IH.
      * rewrite !decide_True by naive_solver. cbn [map snd]. by f_equal.
    + rewrite !decide_False by naive_solver. exact IH.
  - rewrite (lookups_track ns tr t _ _ L); [| |by apply Htr|done].
    + rewrite Hs. symmetry. apply at_track_without. intros [f' w'] Hq [= -> ->]. cbn in Hq. congruence.
    + intros part rest tr''. unfold onNode. by destruct (assoc tr (waitersByTrack (nodeAt ns t))).
Qed.

Lemma step_wakeTrack ns tr t l : sim t l -> steps_agree (WakeTrack (FTN ns tr)) t l.
Proof.
  intros [Hwf Hs]. unfold steps_agree. cbn [rv_step spec_step fst snd].
  unfold wakeForTrack. cbn [trackNamespace trackName].
  match goal with |- context [applyAtNamespaceNode ns ?F t] => set (onNode := F) end.
  destruct (applyAt_spec ns onNode t) as (W & O & L); [|done|done|].
  { intros n [ch ws Hc Hw Hl Hch]. unfold onNode. cbn [waitersByTrack children].
    destruct (assoc tr ws) as [wl|]; [|by constructor]. cbn [fst].
    constructor; [done|by apply assoc_erase_nodup| |done]. intros tr' l' [_ H]%assoc_erase_elem. by eapply Hl. }
  assert (Htr : forall tr', waitersAt [] tr' (onNode (nodeAt ns t)).1 =
            if bool_decide (tr' = tr) then [] else waitersAt [] tr' (nodeAt ns t)).
  { intros tr'. unfold onNode. destruct (assoc tr (waitersByTrack (nodeAt ns t))) eqn:Ea; cbn.
    - rewrite assoc_erase_lookup. by case_bool_decide.
    - case_bool_decide; [subst; by rewrite Ea|done]. }
  pose proof (Hs ns tr) as Hst. rewrite <-(app_nil_r ns), waitersAt_app, app_nil_r in Hst. cbn in Hst.
  split.
  - split; [done|]. intros ns' tr'. destruct (decide ((ns', tr') = (ns, tr))) as [[= -> ->]|Hne].
    + destruct L as [L _]. specialize (L [] tr). rewrite app_nil_r in L. rewrite L, Htr, bool_decide_true by done.
      symmetry. apply at_track_none. intros q ->. tauto.
    + rewrite (lookups_track ns tr t _ _ L); [| | |done].
      * rewrite Hs. symmetry. apply at_track_without. intros q -> [= -> ->]. done.
      * intros part rest tr''. unfold onNode. by destruct (assoc tr (waitersByTrack (nodeAt ns t))).
      * intros tr'' Hn. by rewrite Htr, bool_decide_false.
  - split; [done|]. cbn [snd fst]. rewrite O. unfold at_track in Hst. rewrite <-Hst. unfold onNode.
    by destruct (assoc tr (waitersByTrack (nodeAt ns t))).
Qed.

Lemma step_wakeNamespace ns t l : sim t l -> steps_agree (WakeNamespace ns) t l.
Proof.
  intros [Hwf Hs]. unfold steps_agree. cbn [rv_step spec_step fst snd].
  unfold wakeUnderNamespace. destruct (applyAt_spec ns collectSubtree t) as (W & O & L); [|done|done|].
  { intros n _. apply wf_empty. }
  split.
  - split; [done|]. intros ns' tr'. destruct L as [L1 L2].
    destruct (decide (ns `prefix_of` ns')) as [[rest ->]|Hp].
    + rewrite L1. cbn [collectSubtree fst]. rewrite waitersAt_empty. symmetry. apply at_track_none.
      intros q -> Hn. apply Hn. unfold covers. cbn. by exists rest.
    + rewrite L2, Hs by done. symmetry. apply at_track_without. intros q ->. done.
  - split; [done|]. cbn [fst snd]. rewrite O. cbn [collectSubtree snd]. rewrite <-parked_waiters.
    set (keyed := map (fun q : (list string * string) * Z => (FTN (ns ++ q.1.1) q.1.2, q.2)) (parked (nodeAt ns t))).
    assert (E : map snd (parked (nodeAt ns t)) = map snd keyed) by (unfold keyed; by rewrite map_map).
    rewrite E. apply Permutation_map, same_parts_perm. intros [ns' tr'].
    destruct (decide (ns `prefix_of` ns')) as [[rest ->]|Hp].
    + unfold keyed. rewrite (filter_map_comp _ (fun q => q.1 = (rest, tr'))).
      2: { intros [[x y] z]. cbn. split; [intros [= H1 ->]; apply app_inv_head in H1; by subst|by intros [= -> ->]]. }
      rewrite parked_lookup by by apply wf_nodeAt. rewrite map_map. cbn [fst snd].
      rewrite <-waitersAt_app, Hs. unfold at_track. rewrite list_filter_filter.
      clear. induction l as [|[f' w'] l IH]; [done|]. rewrite !filter_cons. cbn [fst].
      destruct (decide (f' = FTN (ns ++ rest) tr')) as [-> | Hf].
      * rewrite decide_True; [cbn [map snd]; f_equal; exact IH|]. split; [done|]. unfold covers. cbn. by exists rest.
      * rewrite decide_False by naive_solver. exact IH.
    + unfold keyed. rewrite filter_map_out.
      2: { intros a _. cbn. intros [= H1 H2]. apply Hp. rewrite <-H1. by exists a.1.1. }
      rewrite list_filter_filter. symmetry. clear -Hp. induction l as [|[f' w'] l IH]; [done|].
      rewrite filter_cons_False; [exact IH|]. cbn. intros [-> H]. done.
Qed.

Lemma step_sim op t l : sim t l -> steps_agree op t l.
Proof.
  destruct op as [[ns tr] w|[ns tr] w|[ns tr]|ns];
    [apply step_park|apply step_unpark|apply step_wakeTrack|apply step_wakeNamespace].
Qed.

Lemma run_sim ops t l :
  sim t l -> sim (rv_run ops t).1 (spec_run ops l).1 /\
  Forall2 same_wakes (rv_run ops t).2 (spec_run ops l).2.
Proof.
  revert t l. induction ops as [|op ops IH]; intros t l H; [done|]. cbn.
  destruct (step_sim op t l H) as [H1 H2]. destruct (rv_step op t) as [t1 o], (spec_step op l) as [l1 o'].
  cbn [fst snd] in *. specialize (IH t1 l1 H1).
  destruct (rv_run ops t1) as [t2 os], (spec_run ops l1) as [l2 os']. cbn [fst snd] in *.
  destruct IH as [IH1 IH2]. by split; [|constructor].
Qed.

(** (C23) The tree refines the list of parked subscriptions.  In every run of
    parking, unparking, published tracks and published namespaces, each wake
    signals exactly the waiters parked for the track (in the order they parked)
    or under the namespace, nobody else and nobody twice, the waiters left are
    found at their track, and the tree is empty exactly when nobody is parked: no
    empty node or list stays behind. *)
Theorem rendezvous_refines (ops : list RvOp) :
  let '(t, wakes) := rv_run ops emptyNode in
  let '(l, wakes') := spec_run ops [] in
  Forall2 same_wakes wakes wakes' /\
  (forall f, waitersAt (trackNamespace f) (trackName f) t = at_track f l) /\
  (node_empty t = true <-> l = []).
Proof.
  assert (H0 : sim emptyNode []) by (split; [apply wf_empty|intros ns tr; by rewrite waitersAt_empty]).
  destruct (run_sim ops emptyNode [] H0) as [H1 H2].
  destruct (rv_run ops emptyNode) as [t wakes], (spec_run ops []) as [l wakes']. cbn [fst snd] in *.
  split; [done|]. split; [|by apply wf_at_track]. intros [ns tr]. apply H1.
Qed.

(** A rendezvous timeout is taken only from requests of draft 18 on that ask
    for one above zero, is at most thirty seconds, and the parameter never
    reaches the upstream request. *)
Theorem rendezvous_timeout_bounds {Params : Type} (getFirstIntParam : Params -> Z -> option Z)
    (erase : Params -> Z -> Params) (major : Z -> Z) (key : Z) (params : Params) (version : option Z) :
  let '(t, params') := takeRendezvousTimeout getFirstIntParam erase major key params version in
  (forall x, t = Some x -> exists v ms, version = Some v /\ 18 <= major v /\
     getFirstIntParam params key = Some ms /\ ms <> 0 /\ x = Z.min ms kMaxRendezvousTimeout) /\
  (forall v, version = Some v -> 18 <= major v -> params' = erase params key).
Proof.
  unfold takeRendezvousTimeout. destruct version as [v|]; [|by split].
  destruct (Z.ltb_spec (major v) 18) as [H|H].
  { split; [done|]. intros v' [= <-]. lia. }
  destruct (getFirstIntParam params key) as [ms|] eqn:E; [|split; [done|by intros v' [= <-]]].
  destruct (Z.eqb_spec ms 0) as [H0|H0]; (split; [|by intros v' [= <-]]); [done|].
  intros x [= <-]. by exists v, ms.
Qed.
