(* ===== verification/Promise.v ===== *)
(** Shared promises (folly::coro::SharedPromise, folly::SharedPromise), as the
    registries of the relay use them: a promise is created unfulfilled, fulfilled
    once with a value or an exception, and broken when it is destroyed before
    that.  A future is a reference to its promise. *)

From S2P Require Import Prelude.

Abbreviation pref := Z.

Inductive PromiseState := Unfulfilled | Value | Exception (what : string) | Broken.
#[global] Instance PromiseState_eq_dec : EqDecision PromiseState.
Proof. solve_decision. Defined.

Record Promises := mkPromises { heap : gmap pref PromiseState; nextPromise : pref }.
Definition noPromises : Promises := mkPromises ∅ 0.

Definition newPromise (ps : Promises) : pref * Promises :=
  (nextPromise ps, mkPromises (<[nextPromise ps := Unfulfilled]> (heap ps)) (nextPromise ps + 1)).

(** [setValue], [setException]; a second call throws PromiseAlreadySatisfied. *)
Definition fulfil (p : pref) (st : PromiseState) (ps : Promises) : option Promises :=
  match heap ps !! p with
  | Some Unfulfilled => Some (mkPromises (<[p := st]> (heap ps)) (nextPromise ps))
  | _ => None
  end.

(** The destructor. *)
Definition dropPromise (p : pref) (ps : Promises) : Promises :=
  match heap ps !! p with
  | Some Unfulfilled => mkPromises (<[p := Broken]> (heap ps)) (nextPromise ps)
  | _ => ps
  end.

Definition isFulfilled (p : pref) (ps : Promises) : bool :=
  match heap ps !! p with Some Unfulfilled | None => false | _ => true end.

(** Promises are only added, and a settled one keeps its state. *)
Definition promises_extend (ps ps' : Promises) : Prop :=
  forall p st, heap ps !! p = Some st -> st <> Unfulfilled -> heap ps' !! p = Some st.
(** References below [nextPromise] are the allocated ones. *)
Definition promises_ok (ps : Promises) : Prop := forall p, is_Some (heap ps !! p) -> p < nextPromise ps.

#[global] Instance promises_extend_preorder : PreOrder promises_extend.
Proof. split; [by intros ps p st|]. intros a b c Hab Hbc p st Hp Hst. apply Hbc; [by apply Hab|done]. Qed.

Lemma promises_ok_fresh ps : promises_ok ps -> heap ps !! nextPromise ps = None.
Proof. intros H. apply eq_None_not_Some. intros Hs%H. lia. Qed.

Lemma newPromise_extend ps : promises_ok ps -> promises_extend ps (newPromise ps).2.
Proof.
  intros Hok p st Hp _. cbn. rewrite lookup_insert_ne; [done|].
  intros <-. by rewrite promises_ok_fresh in Hp.
Qed.
Lemma newPromise_ok ps : promises_ok ps -> promises_ok (newPromise ps).2.
Proof.
  intros Hok p. cbn. destruct (decide (p = nextPromise ps)) as [->|Hne]; [lia|].
  rewrite lookup_insert_ne by done. intros Hs%Hok. lia.
Qed.
Lemma fulfil_some p st ps :
  heap ps !! p = Some Unfulfilled -> fulfil p st ps = Some (mkPromises (<[p := st]> (heap ps)) (nextPromise ps)).
Proof. unfold fulfil. by intros ->. Qed.
Lemma update_ok p st ps : promises_ok ps -> is_Some (heap ps !! p) ->
  promises_ok (mkPromises (<[p := st]> (heap ps)) (nextPromise ps)).
Proof.
  intros Hok Hp q. cbn. destruct (decide (q = p)) as [->|Hne]; [intros _; by apply Hok|].
  rewrite lookup_insert_ne by done. apply Hok.
Qed.
Lemma update_extend p st ps : heap ps !! p = Some Unfulfilled ->
  promises_extend ps (mkPromises (<[p := st]> (heap ps)) (nextPromise ps)).
Proof.
  intros Hp q st' Hq Hst. cbn. rewrite lookup_insert_ne; [done|]. intros <-. congruence.
Qed.
Lemma dropPromise_ok p ps : promises_ok ps -> promises_ok (dropPromise p ps).
Proof.
  intros Hok. unfold dropPromise. destruct (heap ps !! p) as [[]|] eqn:E; try done.
  apply update_ok; [done|by rewrite E].
Qed.
Lemma dropPromise_extend p ps : promises_extend ps (dropPromise p ps).
Proof.
  unfold dropPromise. destruct (heap ps !! p) as [[]|] eqn:E; try done. by apply update_extend.
Qed.
Lemma dropPromise_lookup p q ps :
  heap (dropPromise p ps) !! q =
    if decide (p = q) then (match heap ps !! q with Some Unfulfilled => Some Broken | o => o end) else heap ps !! q.
Proof.
  unfold dropPromise. destruct (decide (p = q)) as [<-|Hne].
  - destruct (heap ps !! p) as [[]|] eqn:E; cbn; rewrite ?E; try done. by rewrite lookup_insert_eq.
  - destruct (heap ps !! p) as [[]|] eqn:E; cbn; try done. by rewrite lookup_insert_ne.
Qed.
Lemma dropPromise_next p ps : nextPromise (dropPromise p ps) = nextPromise ps.
Proof. unfold dropPromise. by destruct (heap ps !! p) as [[]|]. Qed.
Lemma dropPromise_unfulfilled p q ps :
  heap (dropPromise p ps) !! q = Some Unfulfilled <-> p <> q /\ heap ps !! q = Some Unfulfilled.
Proof.
  rewrite dropPromise_lookup. destruct (decide (p = q)) as [<-|Hne]; [|tauto].
  destruct (heap ps !! p) as [[]|]; naive_solver.
Qed.
#[export] Hint Resolve newPromise_ok newPromise_extend dropPromise_ok dropPromise_extend : moqx.
