(* ===== verification/TopN.v ===== *)
(** The filter that watches property values on a track (relay/TopNFilter.h,
    relay/TopNFilter.cpp).

    The callbacks of an observer are references; calling one is an action of the
    filter, in the list of actions an operation returns, as are the write of the
    activity time through [activityTarget_] and the call passed on downstream.
    The hash map of observers is an association list in its iteration order. *)

From S2P Require Import Prelude Assoc Location CacheState.

Section topn.
Context `{EA : ExtensionsApi}.

(** The callbacks that are set. *)
Record PropertyObserver := mkObserver {
  onValueChanged : option Z;
  onTrackEnded : option Z;
  onActivity : option Z;
}.
Record ObserverEntry := mkEntry { lastSeenValue : option Z; observer : PropertyObserver }.

(** [activityTarget_] points into an entry of the subscription registry, which
    is named by its epoch.  The clock counts nanoseconds, the threshold
    milliseconds. *)
Record TopNFilter := mkFilter {
  tf_ftn : FullTrackName;
  observers_ : list (Z * ObserverEntry);
  ended_ : bool;
  activityTarget_ : option Z;
  activityThreshold_ : Z;
  lastActivityNotify_ : option Z;
}.
Definition newTopNFilter (f : FullTrackName) : TopNFilter := mkFilter f [] false None 0 None.

Definition set_observers (l : list (Z * ObserverEntry)) (t : TopNFilter) : TopNFilter :=
  mkFilter (tf_ftn t) l (ended_ t) (activityTarget_ t) (activityThreshold_ t) (lastActivityNotify_ t).
Definition set_ended (b : bool) (t : TopNFilter) : TopNFilter :=
  mkFilter (tf_ftn t) (observers_ t) b (activityTarget_ t) (activityThreshold_ t) (lastActivityNotify_ t).
Definition set_lastActivityNotify (n : option Z) (t : TopNFilter) : TopNFilter :=
  mkFilter (tf_ftn t) (observers_ t) (ended_ t) (activityTarget_ t) (activityThreshold_ t) n.

Definition registerObserver (propertyType : Z) (o : PropertyObserver) (t : TopNFilter) : TopNFilter :=
  set_observers (assoc_set propertyType (mkEntry None o) (observers_ t)) t.
Definition removeObserver (propertyType : Z) (t : TopNFilter) : TopNFilter :=
  set_observers (assoc_erase propertyType (observers_ t)) t.
Definition setActivityTarget (target : option Z) (t : TopNFilter) : TopNFilter :=
  mkFilter (tf_ftn t) (observers_ t) (ended_ t) target (activityThreshold_ t) (lastActivityNotify_ t).
Definition setActivityThreshold (threshold : Z) (t : TopNFilter) : TopNFilter :=
  mkFilter (tf_ftn t) (observers_ t) (ended_ t) (activityTarget_ t) threshold (lastActivityNotify_ t).

(** ** What the filter receives and does *)
Inductive TrackCall :=
  | BeginSubgroup (groupID subgroupID : Z)
  | ObjectStream (ext : Extensions)
  | Datagram (ext : Extensions)
  | SubgroupObject (ext : Extensions)        (** [TopNSubgroupConsumer::object] *)
  | SubgroupBeginObject (ext : Extensions)   (** [TopNSubgroupConsumer::beginObject] *)
  | PublishDone.

Inductive FilterAct :=
  | Touch (target now : Z)                   (** [*activityTarget_ = now] *)
  | ValueChanged (propertyType callback v : Z)
  | TrackEnded (propertyType callback : Z)
  | Activity (propertyType callback : Z)
  | Forward (call : TrackCall).

(** One observer: its entry afterwards, what is done, and whether [onActivity]
    was called. *)
Definition checkObserver (ext : Extensions) (now : Z) (target : option Z) (throttleAllows : bool)
    (p : Z) (e : ObserverEntry) : ObserverEntry * list FilterAct * bool :=
  match getIntExtension ext p with
  | None => (e, [], false)
  | Some v =>
    let touch := match target with Some t => [Touch t now] | None => [] end in
    let changed := negb (bool_decide (lastSeenValue e = Some v)) in
    let e' := if changed then mkEntry (Some v) (observer e) else e in
    let told := match onValueChanged (observer e) with
                | Some cb => if changed then [ValueChanged p cb v] else []
                | None => []
                end in
    match onActivity (observer e) with
    | Some cb => if throttleAllows then (e', touch ++ told ++ [Activity p cb], true) else (e', touch ++ told, false)
    | None => (e', touch ++ told, false)
    end
  end.

Fixpoint checkObservers (ext : Extensions) (now : Z) (target : option Z) (throttleAllows : bool)
    (l : list (Z * ObserverEntry)) : list (Z * ObserverEntry) * list FilterAct * bool :=
  match l with
  | [] => ([], [], false)
  | (p, e) :: r =>
    let '(e', acts, fired) := checkObserver ext now target throttleAllows p e in
    let '(r', acts', fired') := checkObservers ext now target throttleAllows r in
    ((p, e') :: r', acts ++ acts', fired || fired')
  end.

Definition throttleAllows (now : Z) (t : TopNFilter) : bool :=
  (0 <? activityThreshold_ t) &&
  match lastActivityNotify_ t with
  | Some last => activityThreshold_ t * 1000000 <=? now - last
  | None => true
  end.

Definition checkProperties (ext : Extensions) (now : Z) (t : TopNFilter) : TopNFilter * list FilterAct :=
  match observers_ t with
  | [] => (t, [])
  | _ =>
    let '(l, acts, fired) := checkObservers ext now (activityTarget_ t) (throttleAllows now t) (observers_ t) in
    let t := set_observers l t in
    (if fired then set_lastActivityNotify (Some now) t else t, acts)
  end.

Definition notifyTrackEnded (t : TopNFilter) : list FilterAct :=
  omap (fun q => TrackEnded q.1 <$> onTrackEnded (observer q.2)) (observers_ t).

(** The calls of [TrackConsumer] and of the subgroups the filter wraps. *)
Definition checkThenForward (ext : Extensions) (call : TrackCall) (now : Z) (t : TopNFilter)
  : TopNFilter * list FilterAct :=
  let '(t, acts) := checkProperties ext now t in (t, acts ++ [Forward call]).

Definition publishDone (t : TopNFilter) : TopNFilter * list FilterAct :=
  let t := set_ended true t in (t, notifyTrackEnded t ++ [Forward PublishDone]).

Definition onCall (call : TrackCall) (now : Z) (t : TopNFilter) : TopNFilter * list FilterAct :=
  match call with
  | BeginSubgroup _ _ => (t, [Forward call])
  | ObjectStream ext | Datagram ext | SubgroupObject ext | SubgroupBeginObject ext =>
    checkThenForward ext call now t
  | PublishDone => publishDone t
  end.

(** A sequence of calls, each with its time. *)
Fixpoint onCalls (calls : list (Z * TrackCall)) (t : TopNFilter) : TopNFilter * list FilterAct :=
  match calls with
  | [] => (t, [])
  | (now, c) :: r =>
    let '(t, acts) := onCall c now t in
    let '(t, acts') := onCalls r t in (t, acts ++ acts')
  end.

(** ** What an observer is told *)
(** The property values carried by the calls, in order. *)
Definition extensionsOf (c : TrackCall) : option Extensions :=
  match c with
  | ObjectStream ext | Datagram ext | SubgroupObject ext | SubgroupBeginObject ext => Some ext
  | BeginSubgroup _ _ | PublishDone => None
  end.
Definition valueIn (p : Z) (c : TrackCall) : option Z := ext ← extensionsOf c; getIntExtension ext p.

(** The sequence without the values equal to the one before them. *)
Fixpoint changes (last : option Z) (l : list Z) : list Z :=
  match l with
  | [] => []
  | v :: r => if bool_decide (last = Some v) then changes last r else v :: changes (Some v) r
  end.

Definition told (p : Z) (acts : list FilterAct) : list Z :=
  omap (fun a => match a with ValueChanged q _ v => if q =? p then Some v else None | _ => None end) acts.

Arguments told : simpl never.
Lemma told_app p a b : told p (a ++ b) = told p a ++ told p b.
Proof. apply omap_app. Qed.
Lemma changes_app l a b : changes l (a ++ b) = changes l a ++ changes (foldl (fun _ v => Some v) l a) b.
Proof.
  revert l. induction a as [|v a IH]; intros l; [done|]. cbn. case_bool_decide as E; cbn; rewrite IH; [|done].
  by rewrite E.
Qed.

(** The entry of one observer after a sequence of values. *)
Definition seen (l : option Z) (vs : list Z) : option Z := foldl (fun _ v => Some v) l vs.

Lemma checkObserver_told ext now target allow p e :
  told p (checkObserver ext now target allow p e).1.2 =
    (if onValueChanged (observer e) then changes (lastSeenValue e) (option_list (getIntExtension ext p)) else []) /\
  lastSeenValue (checkObserver ext now target allow p e).1.1 =
    seen (lastSeenValue e) (option_list (getIntExtension ext p)) /\
  observer (checkObserver ext now target allow p e).1.1 = observer e.
Proof.
  unfold told, checkObserver. destruct (getIntExtension ext p) as [v|]; cbn; [|by destruct (onValueChanged (observer e))].
  destruct (onValueChanged (observer e)) as [cb|], (onActivity (observer e)) as [cb'|], allow, target;
    case_bool_decide as Eb; cbn; rewrite ?Z.eqb_refl; try done.
Qed.

Lemma checkObserver_other ext now target allow p q e :
  p <> q -> told p (checkObserver ext now target allow q e).1.2 = [].
Proof.
  intros Hne. unfold told, checkObserver. destruct (getIntExtension ext q) as [v|]; [|done].
  assert (Hq : (q =? p) = false) by lia.
  destruct (onValueChanged (observer e)) as [cb|], (onActivity (observer e)) as [cb'|], allow, target;
    case_bool_decide; cbn; rewrite ?Hq; done.
Qed.

Lemma checkObservers_keys ext now target allow l :
  map fst (checkObservers ext now target allow l).1.1 = map fst l.
Proof.
  induction l as [|[p e] l IH]; [done|]. cbn. destruct (checkObserver _ _ _ _ _ _) as [[e' a] f].
  destruct (checkObservers ext now target allow l) as [[l' a'] f']. cbn in *. by rewrite IH.
Qed.

Lemma checkObservers_told ext now target allow p l :
  NoDup (map fst l) ->
  told p (checkObservers ext now target allow l).1.2 =
    match assoc p l with
    | Some e => told p (checkObserver ext now target allow p e).1.2
    | None => []
    end /\
  assoc p (checkObservers ext now target allow l).1.1 =
    (fun e => (checkObserver ext now target allow p e).1.1) <$> assoc p l.
Proof.
  induction l as [|[q e] l IH]; [done|]. cbn. intros [Hq Hn]%NoDup_cons. specialize (IH Hn).
  destruct (checkObserver ext now target allow q e) as [[e' a] f] eqn:Ee.
  destruct (checkObservers ext now target allow l) as [[l' a'] f'] eqn:El.
  cbn in *. rewrite told_app. case_bool_decide as Eb.
  - subst q. rewrite Ee. cbn. rewrite (proj1 IH).
    apply assoc_None in Hq. rewrite Hq, app_nil_r, Ee. done.
  - pose proof (checkObserver_other ext now target allow p q e Eb) as Ho. rewrite Ee in Ho. cbn in Ho.
    rewrite Ho. exact IH.
Qed.

(** The observers of a filter have distinct property types. *)
Definition filter_ok (t : TopNFilter) : Prop := NoDup (map fst (observers_ t)).

Lemma checkProperties_observers ext now t :
  observers_ (checkProperties ext now t).1 =
    (checkObservers ext now (activityTarget_ t) (throttleAllows now t) (observers_ t)).1.1 /\
  (checkProperties ext now t).2 =
    (checkObservers ext now (activityTarget_ t) (throttleAllows now t) (observers_ t)).1.2.
Proof.
  unfold checkProperties. destruct (observers_ t) as [|x l] eqn:Eo; [done|].
  destruct (checkObservers _ _ _ _ _) as [[l' a] f]. by destruct f.
Qed.

Lemma onCall_observed p c now t e :
  filter_ok t -> assoc p (observers_ t) = Some e ->
  let vs := option_list (valueIn p c) in
  filter_ok (onCall c now t).1 /\
  told p (onCall c now t).2 = (if onValueChanged (observer e) then changes (lastSeenValue e) vs else []) /\
  exists e', assoc p (observers_ (onCall c now t).1) = Some e' /\ observer e' = observer e /\
    lastSeenValue e' = seen (lastSeenValue e) vs.
Proof.
  intros Hok He vs.
  assert (Hcheck : forall ext call,
    filter_ok (checkThenForward ext call now t).1 /\
    told p (checkThenForward ext call now t).2 =
      (if onValueChanged (observer e) then changes (lastSeenValue e) (option_list (getIntExtension ext p)) else []) /\
    exists e', assoc p (observers_ (checkThenForward ext call now t).1) = Some e' /\ observer e' = observer e /\
      lastSeenValue e' = seen (lastSeenValue e) (option_list (getIntExtension ext p))).
  { intros ext call. unfold checkThenForward.
    destruct (checkProperties_observers ext now t) as [Ho Ha].
    destruct (checkProperties ext now t) as [t' acts]. cbn in *.
    set (allow := throttleAllows now t) in *.
    destruct (checkObservers_told ext now (activityTarget_ t) allow p _ Hok) as [Ht Hs].
    rewrite He in Ht, Hs. cbn in Hs.
    destruct (checkObserver_told ext now (activityTarget_ t) allow p e) as (H1 & H2 & H3).
    split_and!.
    - unfold filter_ok. rewrite Ho, checkObservers_keys. exact Hok.
    - rewrite told_app, Ha, Ht, H1. unfold told. cbn. by rewrite app_nil_r.
    - rewrite Ho, Hs. eauto. }
  destruct c; cbn; try apply Hcheck.
  - subst vs. cbn. split_and!; [done|by destruct (onValueChanged (observer e))|]. exists e. done.
  - subst vs. cbn. split_and!; [done| |exists e; done].
    assert (Hnone : forall l : list (Z * ObserverEntry),
      told p (omap (fun q => TrackEnded q.1 <$> onTrackEnded (observer q.2)) l ++ [Forward PublishDone]) = []).
    { unfold told. induction l as [|[q e0] l IH]; [done|]. cbn. by destruct (onTrackEnded (observer e0)). }
    unfold notifyTrackEnded. rewrite Hnone. by destruct (onValueChanged (observer e)).
Qed.

Lemma onCalls_observed p calls : forall t e,
  filter_ok t -> assoc p (observers_ t) = Some e -> is_Some (onValueChanged (observer e)) ->
  told p (onCalls calls t).2 = changes (lastSeenValue e) (omap (fun nc => valueIn p nc.2) calls).
Proof.
  induction calls as [|[now c] calls IH]; intros t e Hok He Hcb; [done|]. cbn.
  destruct (onCall_observed p c now t e Hok He) as (Hok' & Ht & e' & He' & Hobs & Hseen).
  destruct (onCall c now t) as [t' acts] eqn:Ec. destruct (onCalls calls t') as [t'' acts'] eqn:Ecs.
  cbn in *. rewrite told_app, Ht. destruct Hcb as [cb Hcb]. rewrite Hcb.
  pose proof (IH t' e' Hok' He') as Hr. rewrite Hobs, Hcb, Ecs, Hseen in Hr. cbn in Hr. rewrite Hr by done.
  destruct (valueIn p c) as [v|]; cbn; [|done]. case_bool_decide as Eb; cbn; [by rewrite Eb|done].
Qed.

(** An observer registered for a property is told exactly the changes of
    its value: the values the objects of the track carry, in order of arrival,
    without those equal to the one before. *)
Theorem observer_told_changes p (o : PropertyObserver) (t : TopNFilter) (calls : list (Z * TrackCall)) :
  filter_ok t -> is_Some (onValueChanged o) ->
  told p (onCalls calls (registerObserver p o t)).2 = changes None (omap (fun nc => valueIn p nc.2) calls).
Proof.
  intros Hok Hcb. apply (onCalls_observed p calls _ (mkEntry None o)); [by apply assoc_set_nodup| |done].
  cbn. apply assoc_elem; [by apply assoc_set_nodup|]. apply assoc_set_elem; [done|]. by left.
Qed.

(** ** What a call writes through [activityTarget_] *)
Lemma checkObservers_touch ext now target allow l ep at_ :
  Touch ep at_ ∈ (checkObservers ext now target allow l).1.2 -> target = Some ep.
Proof.
  induction l as [|[p e] l IH]; cbn; [by intros ?%elem_of_nil|].
  assert (He : Touch ep at_ ∈ (checkObserver ext now target allow p e).1.2 -> target = Some ep).
  { unfold checkObserver. destruct (getIntExtension ext p) as [v|]; [|by intros ?%elem_of_nil].
    destruct (onValueChanged (observer e)), (onActivity (observer e)), allow, target; case_bool_decide; cbn;
      rewrite ?elem_of_cons, ?elem_of_nil; intros Hin; repeat (destruct Hin as [Hin|Hin]; [congruence|]); done. }
  destruct (checkObserver ext now target allow p e) as [[e' a] f], (checkObservers ext now target allow l) as [[l' a'] f'].
  cbn in *. intros [?|?]%elem_of_app; auto.
Qed.

Lemma onCall_target c now t :
  activityTarget_ (onCall c now t).1 = activityTarget_ t /\ tf_ftn (onCall c now t).1 = tf_ftn t /\
  forall ep at_, Touch ep at_ ∈ (onCall c now t).2 -> activityTarget_ t = Some ep.
Proof.
  assert (Hcheck : forall ext call,
    activityTarget_ (checkThenForward ext call now t).1 = activityTarget_ t /\
    tf_ftn (checkThenForward ext call now t).1 = tf_ftn t /\
    forall ep at_, Touch ep at_ ∈ (checkThenForward ext call now t).2 -> activityTarget_ t = Some ep).
  { intros ext call. unfold checkThenForward. destruct (checkProperties_observers ext now t) as [_ Ha].
    assert (Ht : activityTarget_ (checkProperties ext now t).1 = activityTarget_ t /\
                 tf_ftn (checkProperties ext now t).1 = tf_ftn t).
    { unfold checkProperties. destruct (observers_ t); [done|]. by destruct (checkObservers _ _ _ _ _) as [[? ?] []]. }
    destruct (checkProperties ext now t) as [t' acts]. cbn in *. split_and!; [apply Ht..|].
    intros ep at_ [H|H]%elem_of_app; [|by apply list_elem_of_singleton in H]. subst acts.
    by eapply checkObservers_touch. }
  destruct c; cbn; try apply Hcheck.
  - split_and!; [done..|]. by intros ep at_ H%list_elem_of_singleton.
  - split_and!; [done..|]. intros ep at_ [H|H]%elem_of_app; [|by apply list_elem_of_singleton in H].
    unfold notifyTrackEnded in H. apply list_elem_of_omap in H as ([q e] & _ & Hq). cbn in Hq.
    by destruct (onTrackEnded (observer e)).
Qed.

(** ** The throttle of [onActivity] *)
Definition notified (acts : list FilterAct) : bool :=
  existsb (fun a => match a with Activity _ _ => true | _ => false end) acts.

(** The times of the calls that reached an [onActivity]. *)
Fixpoint activityTimes (calls : list (Z * TrackCall)) (t : TopNFilter) : list Z :=
  match calls with
  | [] => []
  | (now, c) :: r =>
    let '(t', acts) := onCall c now t in
    (if notified acts then [now] else []) ++ activityTimes r t'
  end.

(** Every element follows the previous one by at least [d]. *)
Fixpoint spaced (d : Z) (last : option Z) (l : list Z) : Prop :=
  match l with
  | [] => True
  | n :: r => (match last with Some m => d <= n - m | None => True end) /\ spaced d (Some n) r
  end.

Arguments notified : simpl never.
Lemma notified_app a b : notified (a ++ b) = notified a || notified b.
Proof. apply List.existsb_app. Qed.

Lemma checkObservers_fired ext now target allow l :
  (checkObservers ext now target allow l).2 = notified (checkObservers ext now target allow l).1.2 /\
  ((checkObservers ext now target allow l).2 = true -> allow = true).
Proof.
  induction l as [|[p e] l [IH1 IH2]]; [done|]. cbn.
  destruct (checkObservers ext now target allow l) as [[l' a'] f']. cbn in *.
  assert (He : (checkObserver ext now target allow p e).2 = notified (checkObserver ext now target allow p e).1.2 /\
               ((checkObserver ext now target allow p e).2 = true -> allow = true)).
  { unfold checkObserver. destruct (getIntExtension ext p) as [v|]; [|done].
    unfold notified. destruct (onValueChanged (observer e)), (onActivity (observer e)), allow, target; case_bool_decide; done. }
  destruct (checkObserver ext now target allow p e) as [[e' a] f]. cbn in *. destruct He as [He1 He2].
  rewrite notified_app, <-He1, <-IH1. split; [done|]. intros [?|?]%orb_true_iff; auto.
Qed.

Lemma onCall_activity c now t :
  activityThreshold_ (onCall c now t).1 = activityThreshold_ t /\
  (if notified (onCall c now t).2
   then throttleAllows now t = true /\ lastActivityNotify_ (onCall c now t).1 = Some now
   else lastActivityNotify_ (onCall c now t).1 = lastActivityNotify_ t).
Proof.
  assert (Hcheck : forall ext call,
    activityThreshold_ (checkThenForward ext call now t).1 = activityThreshold_ t /\
    (if notified (checkThenForward ext call now t).2
     then throttleAllows now t = true /\ lastActivityNotify_ (checkThenForward ext call now t).1 = Some now
     else lastActivityNotify_ (checkThenForward ext call now t).1 = lastActivityNotify_ t)).
  { intros ext call. unfold checkThenForward, checkProperties.
    destruct (observers_ t) as [|x l] eqn:Eo; [done|].
    destruct (checkObservers_fired ext now (activityTarget_ t) (throttleAllows now t) (x :: l)) as [H1 H2].
    destruct (checkObservers ext now (activityTarget_ t) (throttleAllows now t) (x :: l)) as [[l' a] f].
    cbn in *. rewrite notified_app, <-H1. unfold notified at 1. cbn. rewrite orb_false_r. by destruct f; cbn; auto. }
  destruct c; cbn; try apply Hcheck; [done|]. split; [done|].
  assert (Hnone : forall l : list (Z * ObserverEntry),
    notified (omap (fun q => TrackEnded q.1 <$> onTrackEnded (observer q.2)) l ++ [Forward PublishDone]) = false).
  { unfold notified. induction l as [|[q e0] l IH]; [done|]. cbn. by destruct (onTrackEnded (observer e0)). }
  unfold notifyTrackEnded. by rewrite Hnone.
Qed.

Lemma activityTimes_spaced calls : forall t,
  spaced (activityThreshold_ t * 1000000) (lastActivityNotify_ t) (activityTimes calls t) /\
  (activityThreshold_ t <= 0 -> activityTimes calls t = []).
Proof.
  induction calls as [|[now c] calls IH]; intros t; [done|]. cbn.
  destruct (onCall_activity c now t) as [Hth Hn]. destruct (onCall c now t) as [t' acts]. cbn in *.
  destruct (IH t') as [IH1 IH2]. rewrite Hth in IH1, IH2. destruct (notified acts); cbn.
  - destruct Hn as [Ha Hl]. unfold throttleAllows in Ha. apply andb_true_iff in Ha as [Ha Hb].
    split; [|lia]. rewrite Hl in IH1. split; [|done]. destruct (lastActivityNotify_ t); [lia|done].
  - rewrite Hn in IH1. done.
Qed.

(** The calls of [onActivity], which trigger idle sweeps, are at least the
    activity threshold apart on a track, and never happen for a threshold of
    zero, whatever the objects and the clock. *)
Theorem activity_throttled f threshold (calls : list (Z * TrackCall)) observers :
  let t := setActivityThreshold threshold (set_observers observers (newTopNFilter f)) in
  spaced (threshold * 1000000) None (activityTimes calls t) /\
  (threshold <= 0 -> activityTimes calls t = []).
Proof. exact (activityTimes_spaced calls _). Qed.
End topn.
