(* ===== verification/Registry.v ===== *)
(** The table of the tracks the relay serves (SubscriptionRegistry.h,
    SubscriptionRegistry.cpp; ForwarderRef.h).

    Forwarders, handles, publishers and consumers are references.  The promises
    and the [TopNFilter]s the entries refer to are in heaps beside the table:
    destroying an entry breaks its promise and clears the pointer its filter has
    into it; an entry is named by its epoch, which is never used twice.
    [None] is an exception the code does not expect (a promise fulfilled twice)
    or the use of a null or dangling pointer. *)

From S2P Require Import Prelude Location CacheState NamespaceTree Promise TopN.

Abbreviation fref := Z.
Abbreviation nref := Z.
Abbreviation Executor := Z.

(** ** References to forwarders *)
Inductive ForwarderRef :=
  | EmptyRef
  | OwnedRef (f : fref)
  | RemoteRef (f : fref) (owner : Executor).
Definition ref_bool (r : ForwarderRef) : bool := match r with EmptyRef => false | _ => true end.
Definition getIfOwned (r : ForwarderRef) : option fref :=
  match r with OwnedRef f => Some f | _ => None end.
Definition ownerExec (r : ForwarderRef) : option Executor :=
  match r with RemoteRef _ e => Some e | _ => None end.
Definition forwarderOf (r : ForwarderRef) : option fref :=
  match r with EmptyRef => None | OwnedRef f | RemoteRef f _ => Some f end.

(** ** Entries *)
(** A publisher writes to its forwarder, or to the head of the filter chain,
    which is named by the filter. *)
Inductive ConsumerRef := ForwarderConsumer (f : fref) | ChainHead (n : nref).

Record RelaySubscription := mkSub {
  rs_forwarder : ForwarderRef;
  rs_epoch : Z;
  rs_upstream : option Session;
  rs_publisher : option Z;
  rs_requestID : Z;
  rs_handle : option Z;
  rs_promise : pref;
  rs_isPublish : bool;
  rs_topNFilter : option nref;
  rs_chainHead : option ConsumerRef;
  rs_lastObjectTime : Z;
  rs_ingest : option Z;
}.

Record FilterChainResult := mkChain {
  fc_consumer : option ConsumerRef;
  fc_topNFilter : option nref;
  fc_chainHead : option ConsumerRef;
  fc_ingest : option Z;
}.

Section registry.
Context `{EA : ExtensionsApi}.

Record SubscriptionRegistry := mkReg {
  subscriptions_ : gmap FullTrackName RelaySubscription;
  epochCounter_ : Z;
  promises : Promises;
  filters : gmap nref TopNFilter;
  nextFilter : nref;
  nextForwarder : fref;
}.
Definition emptyRegistry : SubscriptionRegistry := mkReg ∅ 0 noPromises ∅ 0 0.

Definition set_subscriptions m (r : SubscriptionRegistry) : SubscriptionRegistry :=
  mkReg m (epochCounter_ r) (promises r) (filters r) (nextFilter r) (nextForwarder r).
Definition set_promises ps (r : SubscriptionRegistry) : SubscriptionRegistry :=
  mkReg (subscriptions_ r) (epochCounter_ r) ps (filters r) (nextFilter r) (nextForwarder r).
Definition set_filters fs (r : SubscriptionRegistry) : SubscriptionRegistry :=
  mkReg (subscriptions_ r) (epochCounter_ r) (promises r) fs (nextFilter r) (nextForwarder r).

Abbreviation R := (M SubscriptionRegistry).

(** ** Allocation *)
Definition nextEpoch : R Z := fun r =>
  let e := u64 (epochCounter_ r + 1) in
  Some (e, mkReg (subscriptions_ r) e (promises r) (filters r) (nextFilter r) (nextForwarder r)).
Definition makeForwarder : R fref := fun r =>
  Some (nextForwarder r,
    mkReg (subscriptions_ r) (epochCounter_ r) (promises r) (filters r) (nextFilter r) (nextForwarder r + 1)).
Definition makePromise : R pref := fun r =>
  let '(p, ps) := newPromise (promises r) in Some (p, set_promises ps r).
Definition makeFilter (t : TopNFilter) : R nref := fun r =>
  Some (nextFilter r,
    mkReg (subscriptions_ r) (epochCounter_ r) (promises r) (<[nextFilter r := t]> (filters r))
      (nextFilter r + 1) (nextForwarder r)).
Definition fulfilPromise (p : pref) (st : PromiseState) : R unit := fun r =>
  match fulfil p st (promises r) with Some ps => Some (tt, set_promises ps r) | None => None end.
Definition setFilterTarget (n : nref) (target : option Z) : R unit :=
  modify (fun r => set_filters (alter (setActivityTarget target) n (filters r)) r).

(** [~RelaySubscription] and the destruction of its members. *)
Definition destroyEntry (e : RelaySubscription) : R unit :=
  (match rs_topNFilter e with Some n => setFilterTarget n None | None => mret tt end);;
  modify (fun r => set_promises (dropPromise (rs_promise e) (promises r)) r).

Definition eraseEntry (f : FullTrackName) : R unit :=
  r ← get;
  match subscriptions_ r !! f with
  | None => mret tt
  | Some e => modify (fun r => set_subscriptions (delete f (subscriptions_ r)) r);; destroyEntry e
  end.

(** [subscriptions_.emplace(ftn, ...)]: an existing entry is kept, and the new
    one destroyed. *)
Definition emplaceEntry (f : FullTrackName) (e : RelaySubscription) : R unit :=
  r ← get;
  match subscriptions_ r !! f with
  | Some _ => destroyEntry e
  | None => modify (fun r => set_subscriptions (<[f := e]> (subscriptions_ r)) r)
  end.

Definition modEntry (f : FullTrackName) (upd : RelaySubscription -> RelaySubscription) : R unit :=
  r ← get;
  e ← deref (subscriptions_ r !! f);
  modify (fun r => set_subscriptions (<[f := upd e]> (subscriptions_ r)) r).

(** ** The subscribe path *)
Record UpstreamSubscribePending := mkPending { up_ftn : FullTrackName; up_epoch : Z; up_active : bool }.

Inductive SubscribeOutcome :=
  | FirstSubscriber (forwarder : fref) (consumer : option ConsumerRef) (pending : UpstreamSubscribePending)
  | SubsequentSubscriber (f : FullTrackName) (future : pref)   (** the task [awaitSubsequent] *)
  | NoPublisher.

Definition withChain (c : FilterChainResult) (e : RelaySubscription) : RelaySubscription :=
  mkSub (rs_forwarder e) (rs_epoch e) (rs_upstream e) (rs_publisher e) (rs_requestID e) (rs_handle e)
    (rs_promise e) (rs_isPublish e) (fc_topNFilter c) (fc_chainHead c) (rs_lastObjectTime e) (fc_ingest c).

Definition getOrCreateFromSubscribe (f : FullTrackName) (chainBuilder : fref -> R FilterChainResult)
    (refMaker : fref -> option ForwarderRef) (now : Z) : R SubscribeOutcome :=
  r ← get;
  match subscriptions_ r !! f with
  | Some e => mret (SubsequentSubscriber f (rs_promise e))
  | None =>
    forwarder ← makeForwarder;
    match refMaker forwarder with
    | None => mret NoPublisher
    | Some ref =>
      epoch ← nextEpoch;
      chain ← chainBuilder forwarder;
      p ← makePromise;
      emplaceEntry f (mkSub ref epoch None None 0 None p false None None now None);;
      modEntry f (withChain chain);;
      mret (FirstSubscriber forwarder (fc_consumer chain) (mkPending f epoch true))
    end
  end.

Inductive AwaitResult := StillWaiting | Threw | Joined (forwarder : ForwarderRef).

(** [awaitSubsequent] when it is resumed. *)
Definition awaitSubsequent (f : FullTrackName) (future : pref) (r : SubscriptionRegistry) : AwaitResult :=
  match heap (promises r) !! future with
  | Some Value =>
    match subscriptions_ r !! f with Some e => Joined (rs_forwarder e) | None => Threw end
  | Some (Exception _) | Some Broken => Threw
  | Some Unfulfilled | None => StillWaiting
  end.

Definition completed (handle : option Z) (requestID : Z) (upstream : option Session) (publisher : option Z)
    (e : RelaySubscription) : RelaySubscription :=
  mkSub (rs_forwarder e) (rs_epoch e) upstream publisher requestID handle (rs_promise e) (rs_isPublish e)
    (rs_topNFilter e) (rs_chainHead e) (rs_lastObjectTime e) (rs_ingest e).

Definition completeSubscription (f : FullTrackName) (epoch : Z) (handle : option Z) (requestID : Z)
    (upstream : option Session) (publisher : option Z) : R bool :=
  r ← get;
  match subscriptions_ r !! f with
  | None => mret false
  | Some e =>
    if negb (rs_epoch e =? epoch) then mret false
    else
      modEntry f (completed handle requestID upstream publisher);;
      fulfilPromise (rs_promise e) Value;;
      mret true
  end.

Definition failAndRemove (f : FullTrackName) (epoch : Z) : R unit :=
  r ← get;
  match subscriptions_ r !! f with
  | None => mret tt
  | Some e =>
    if rs_epoch e =? epoch then
      fulfilPromise (rs_promise e) (Exception "upstream subscribe failed");;
      eraseEntry f
    else mret tt
  end.

(** [UpstreamSubscribePending::complete] and its destructor. *)
Definition complete (t : UpstreamSubscribePending) (handle : option Z) (requestID : Z)
    (upstream : option Session) (publisher : option Z) : R (bool * UpstreamSubscribePending) :=
  ok ← completeSubscription (up_ftn t) (up_epoch t) handle requestID upstream publisher;
  mret (ok, mkPending (up_ftn t) (up_epoch t) false).
Definition destroyPending (t : UpstreamSubscribePending) : R unit :=
  if up_active t then failAndRemove (up_ftn t) (up_epoch t) else mret tt.

(** ** The publish path *)
Context (getExecutor : Session -> Executor).

Record Evicted := mkEvicted {
  ev_forwarder : ForwarderRef;
  ev_handle : option Z;
  ev_publisherExec : option Executor;
}.

Definition published (publisher : option Z) (requestID : Z) (handle : option Z)
    (e : RelaySubscription) : RelaySubscription :=
  mkSub (rs_forwarder e) (rs_epoch e) (rs_upstream e) publisher requestID handle (rs_promise e) true
    (rs_topNFilter e) (rs_chainHead e) (rs_lastObjectTime e) (rs_ingest e).

Definition createFromPublish (f : FullTrackName) (forwarder : ForwarderRef) (session : option Session)
    (publisher : option Z) (requestID : Z) (handle : option Z) (chainBuilder : R FilterChainResult)
    (now : Z) : R (option ConsumerRef * option Evicted) :=
  r ← get;
  evicted ← (match subscriptions_ r !! f with
             | None => mret None
             | Some old =>
               eraseEntry f;;
               mret (Some (mkEvicted (rs_forwarder old) (rs_handle old) (getExecutor <$> rs_upstream old)))
             end);
  epoch ← nextEpoch;
  p ← makePromise;
  emplaceEntry f (mkSub forwarder epoch session None 0 None p false None None now None);;
  fulfilPromise p Value;;
  modEntry f (published publisher requestID handle);;
  chain ← chainBuilder;
  modEntry f (withChain chain);;
  n ← deref (fc_topNFilter chain);
  setFilterTarget n (Some epoch);;
  mret (fc_consumer chain, evicted).

(** ** Lookups *)
Definition registry_exists (f : FullTrackName) (r : SubscriptionRegistry) : bool :=
  bool_decide (is_Some (subscriptions_ r !! f)).
Definition getForwarderRef (f : FullTrackName) (r : SubscriptionRegistry) : ForwarderRef :=
  match subscriptions_ r !! f with Some e => rs_forwarder e | None => EmptyRef end.

Record TopNView := mkTopNView {
  tv_forwarder : ForwarderRef;
  tv_topNFilter : option nref;
  tv_chainHead : option ConsumerRef;
  tv_lastObjectTime : Z;
}.
Definition getTopNView (f : FullTrackName) (r : SubscriptionRegistry) : option TopNView :=
  e ← subscriptions_ r !! f;
  Some (mkTopNView (rs_forwarder e) (rs_topNFilter e) (rs_chainHead e) (rs_lastObjectTime e)).

Record UpstreamView := mkUpstreamView {
  uv_forwarder : ForwarderRef;
  uv_publisher : option Z;
  uv_handle : option Z;
  uv_requestID : Z;
  uv_publisherExec : option Executor;
  uv_isPublish : bool;
  uv_isReady : bool;
}.
Definition getUpstreamView (f : FullTrackName) (r : SubscriptionRegistry) : option UpstreamView :=
  e ← subscriptions_ r !! f;
  Some (mkUpstreamView (rs_forwarder e) (rs_publisher e) (rs_handle e) (rs_requestID e)
          (getExecutor <$> rs_upstream e) (rs_isPublish e) (isFulfilled (rs_promise e) (promises r))).

Context (sessionId : Session -> Z).
Definition upstreamSessionId (f : FullTrackName) (r : SubscriptionRegistry) : option Z :=
  e ← subscriptions_ r !! f; s ← rs_upstream e; Some (sessionId s).

Record FetchView := mkFetchView {
  fv_forwarder : ForwarderRef;
  fv_publisher : option Z;
  fv_requestID : Z;
  fv_isReady : bool;
}.
Definition getFetchView (f : FullTrackName) (r : SubscriptionRegistry) : option FetchView :=
  e ← subscriptions_ r !! f;
  Some (mkFetchView (rs_forwarder e) (rs_publisher e) (rs_requestID e)
          (isFulfilled (rs_promise e) (promises r))).

(** ** Lifecycle *)
Definition terminated (e : RelaySubscription) : RelaySubscription :=
  mkSub (rs_forwarder e) (rs_epoch e) None None (rs_requestID e) None (rs_promise e) (rs_isPublish e)
    (rs_topNFilter e) (rs_chainHead e) (rs_lastObjectTime e) (rs_ingest e).

(** [empty]: the forwarders without subscribers. *)
Definition onPublisherTerminated (empty : fref -> bool) (f : FullTrackName) : R ForwarderRef :=
  r ← get;
  match subscriptions_ r !! f with
  | None => mret EmptyRef
  | Some e =>
    modEntry f terminated;;
    forwarder ← deref (getIfOwned (rs_forwarder e));
    if empty forwarder then eraseEntry f;; mret EmptyRef else mret (rs_forwarder e)
  end.

Definition remove (f : FullTrackName) : R unit := eraseEntry f.

Record EntryView := mkEntryView {
  vw_ftn : FullTrackName;
  vw_forwarder : ForwarderRef;
  vw_upstream : option Session;
  vw_isPublish : bool;
  vw_lastObjectTime : Z;
  vw_ingest : option Z;
}.
Definition viewOf (f : FullTrackName) (e : RelaySubscription) : EntryView :=
  mkEntryView f (rs_forwarder e) (rs_upstream e) (rs_isPublish e) (rs_lastObjectTime e) (rs_ingest e).

Fixpoint removeWhere (predicate : EntryView -> bool) (l : list (FullTrackName * RelaySubscription)) : R unit :=
  match l with
  | [] => mret tt
  | (f, e) :: rest =>
    (if predicate (viewOf f e) then eraseEntry f else mret tt);; removeWhere predicate rest
  end.
Definition removeIf (predicate : EntryView -> bool) : R unit :=
  r ← get; removeWhere predicate (map_to_list (subscriptions_ r)).

Definition forEachName (r : SubscriptionRegistry) : list FullTrackName := (map_to_list (subscriptions_ r)).*1.
Definition forEach (r : SubscriptionRegistry) : list EntryView :=
  (fun q => viewOf q.1 q.2) <$> map_to_list (subscriptions_ r).

(** ** The filters of the chains *)
(** The write through [activityTarget_]: the entry with that epoch is alive. *)
Definition touchEntry (epoch now : Z) : R unit :=
  r ← get;
  '(f, e) ← deref (List.find (fun q => rs_epoch q.2 =? epoch) (map_to_list (subscriptions_ r)));
  modify (fun r => set_subscriptions
    (<[f := mkSub (rs_forwarder e) (rs_epoch e) (rs_upstream e) (rs_publisher e) (rs_requestID e) (rs_handle e)
              (rs_promise e) (rs_isPublish e) (rs_topNFilter e) (rs_chainHead e) now (rs_ingest e)]>
     (subscriptions_ r)) r).

Fixpoint touchAll (acts : list FilterAct) : R unit :=
  match acts with
  | [] => mret tt
  | Touch target now :: rest => touchEntry target now;; touchAll rest
  | _ :: rest => touchAll rest
  end.

(** A call on the chain of filter [n]; the other actions are returned. *)
Definition filterCall (n : nref) (call : TrackCall) (now : Z) : R (list FilterAct) :=
  r ← get;
  t ← deref (filters r !! n);
  let '(t', acts) := onCall call now t in
  modify (fun r => set_filters (<[n := t']> (filters r)) r);;
  touchAll acts;; mret acts.

(** The part of [MoqxRelay::buildFilterChain] that the registry sees: a filter,
    with the counters of its chain; the publisher writes to the forwarder itself
    in LocalForwarder mode.  What the chain ends in (the forwarder, the writeback
    of the cache) is not part of the registry. *)
Definition buildFilterChain (localForwarder : bool) (activityThreshold : Z) (f : FullTrackName)
    (forwarder : fref) : R FilterChainResult :=
  n ← makeFilter (setActivityThreshold activityThreshold (newTopNFilter f));
  mret (mkChain (Some (if localForwarder then ForwarderConsumer forwarder else ChainHead n)) (Some n)
          (Some (ChainHead n)) (Some n)).
End registry.
