(* ===== verification/RegistryRelay.v ===== *)
(** The relay's use of the subscription registry (MoqxRelay.cpp: [subscribeImpl],
    [completeUpstreamSubscription], [publish], [publishWithSession],
    [onPublishDone], [onEmptyImpl], [forwardChangedImpl], [newGroupRequestedImpl],
    [dropSubscriptionsFrom], and the filter chain of a track).

    What the handlers ask of sessions, forwarders and the namespace tree is the
    list of events they return.  [RegSys] adds to the registry the tickets of the
    subscribes that are in flight upstream. *)

From S2P Require Import Prelude Location CacheState NamespaceTree Promise TopN Registry.

Inductive Mode := SingleThread | RelayExec | LocalForwarder.
Definition isLocalForwarder (m : Mode) : bool := match m with LocalForwarder => true | _ => false end.
Definition makeForwarderRef (m : Mode) (f : fref) (publisherExec : Executor) : ForwarderRef :=
  if isLocalForwarder m then RemoteRef f publisherExec else OwnedRef f.

Section relay.
Context `{EA : ExtensionsApi} (mode : Mode) (activityThreshold : Z) (hasCache : bool).
Context (getExecutor sessionId : Session -> Z).

Abbreviation R := (M SubscriptionRegistry).

Inductive RelayEvent :=
  | SubscribeUpdate (exec : Executor) (handle : Z) (forward : bool)
  | NewGroupRequest (exec : Executor) (handle group : Z)
  | Unsubscribe (exec : option Executor) (handle : Z)
  | ForwarderDone (f : ForwarderRef)           (** [publishDone] on a forwarder *)
  | UnpublishTrack (f : FullTrackName)         (** [namespaceTree_.unpublishTrack] *)
  | CacheTrackState (f : FullTrackName)        (** [cache_->setTrackState] *)
  | FilterActs (n : nref) (acts : list FilterAct)
  | Attached (outcome : SubscribeOutcome)
  | Completed (ok : bool).

(** ** Handlers *)
Definition onPublishDone (empty : fref -> bool) (f : FullTrackName) : R (list RelayEvent) :=
  r ← get;
  let evs := match getUpstreamView getExecutor f r with
             | Some v => if uv_isPublish v then [UnpublishTrack f] else []
             | None => []
             end in
  (if isLocalForwarder mode then remove f else (onPublisherTerminated empty f;; mret tt));;
  mret evs.

Definition onEmptyImpl (f : FullTrackName) : R (list RelayEvent) :=
  r ← get;
  match getUpstreamView getExecutor f r with
  | None => mret []
  | Some v =>
    match uv_handle v with
    | None => remove f;; mret []
    | Some h =>
      exec ← deref (uv_publisherExec v);
      if uv_isPublish v then mret [SubscribeUpdate exec h false]
      else remove f;; mret [Unsubscribe (Some exec) h]
    end
  end.

Definition forwardChangedImpl (f : FullTrackName) (forward : bool) : R (list RelayEvent) :=
  r ← get;
  match getUpstreamView getExecutor f r with
  | None => mret []
  | Some v =>
    if negb (uv_isReady v) then mret []
    else match uv_handle v with
         | None => mret []
         | Some h => exec ← deref (uv_publisherExec v); mret [SubscribeUpdate exec h forward]
         end
  end.

Definition newGroupRequestedImpl (f : FullTrackName) (group : Z) : R (list RelayEvent) :=
  r ← get;
  match getUpstreamView getExecutor f r with
  | None => mret []
  | Some v =>
    match uv_handle v with
    | None => mret []
    | Some h => exec ← deref (uv_publisherExec v); mret [NewGroupRequest exec h group]
    end
  end.

Definition dropSubscriptionsFrom (ns : list string) (sid : Z) : R unit :=
  removeIf (fun e => bool_decide (ns `prefix_of` trackNamespace (vw_ftn e)) &&
    match vw_upstream e with Some s => sessionId s =? sid | None => false end).

(** A SUBSCRIBE on [f]; [upstream] is what [findPublisherSession] finds. *)
Definition subscribe (f : FullTrackName) (upstream : option Session) (now : Z) : R SubscribeOutcome :=
  getOrCreateFromSubscribe f
    (fun fwd => buildFilterChain (isLocalForwarder mode) activityThreshold f fwd)
    (fun fwd => s ← upstream; Some (makeForwarderRef mode fwd (getExecutor s))) now.

(** Upstream has accepted a subscribe. *)
Definition completeUpstreamSubscription (t : UpstreamSubscribePending) (handle : option Z) (requestID : Z)
    (upstream : option Session) (publisher : option Z) : R (list RelayEvent) :=
  '(ok, _) ← complete t handle requestID upstream publisher;
  mret (Completed ok :: if ok && hasCache then [CacheTrackState (up_ftn t)] else []).

(** A PUBLISH: the forwarder, the entry, and the publisher it replaces. *)
Definition publishTrack (f : FullTrackName) (session : Session) (publisher : option Z) (requestID handle : Z)
    (now : Z) : R (list RelayEvent) :=
  forwarder ← makeForwarder;
  let ref := makeForwarderRef mode forwarder (getExecutor session) in
  '(consumer, evicted) ← createFromPublish getExecutor f ref (Some session) publisher requestID (Some handle)
    (buildFilterChain (isLocalForwarder mode) activityThreshold f forwarder) now;
  r ← get;
  view ← deref (getTopNView f r);
  topNFilter ← deref (tv_topNFilter view);
  mret ((if hasCache then [CacheTrackState f] else []) ++
        match evicted with
        | Some ev =>
          match ev_handle ev with
          | Some h => [Unsubscribe (ev_publisherExec ev) h; ForwarderDone (ev_forwarder ev)]
          | None => []
          end
        | None => []
        end).

(** A call on a chain: the filter, and [onPublishDone] when the track ends. *)
Definition chainCall (empty : fref -> bool) (n : nref) (call : TrackCall) (now : Z) : R (list RelayEvent) :=
  r ← get;
  t ← deref (filters r !! n);
  acts ← filterCall n call now;
  evs ← (match call with PublishDone => onPublishDone empty (tf_ftn t) | _ => mret [] end);
  mret (FilterActs n acts :: evs).

(** ** Runs *)
(** A subscribe in flight: its ticket and the session it went to. *)
Record InFlight := mkInFlight { if_ftn : FullTrackName; if_epoch : Z; if_upstream : Session }.
#[global] Instance InFlight_eq_dec : EqDecision InFlight.
Proof. solve_decision. Defined.
Definition ticketOf (t : InFlight) : UpstreamSubscribePending := mkPending (if_ftn t) (if_epoch t) true.

Record RegSys := mkRegSys { rg_registry : SubscriptionRegistry; rg_inflight : list InFlight }.

Inductive RegOp :=
  | OpSubscribe (f : FullTrackName) (upstream : option Session) (now : Z)
  | OpComplete (t : InFlight) (handle requestID : Z) (publisher : option Z)
  | OpAbandon (t : InFlight)                 (** the ticket is destroyed *)
  | OpPublish (f : FullTrackName) (session : Session) (publisher : option Z) (requestID handle now : Z)
  | OpChainCall (empty : fref -> bool) (n : nref) (call : TrackCall) (now : Z)
  | OpEmpty (f : FullTrackName)
  | OpForwardChanged (f : FullTrackName) (forward : bool)
  | OpNewGroup (f : FullTrackName) (group : Z)
  | OpDropFrom (ns : list string) (sid : Z).

Definition onRegistry (m : R (list RelayEvent)) (s : RegSys) : option (RegSys * list RelayEvent) :=
  match m (rg_registry s) with
  | Some (evs, r) => Some (mkRegSys r (rg_inflight s), evs)
  | None => None
  end.

(** The tickets and filters an operation names exist; it does nothing otherwise. *)
Definition reg_step (op : RegOp) (s : RegSys) : option (RegSys * list RelayEvent) :=
  match op with
  | OpSubscribe f upstream now =>
    match subscribe f upstream now (rg_registry s) with
    | None => None
    | Some (out, r) =>
      Some (mkRegSys r (match out, upstream with
                        | FirstSubscriber _ _ t, Some u => mkInFlight (up_ftn t) (up_epoch t) u :: rg_inflight s
                        | _, _ => rg_inflight s
                        end), [Attached out])
    end
  | OpComplete t handle requestID publisher =>
    if decide (t ∈ rg_inflight s) then
      match completeUpstreamSubscription (ticketOf t) (Some handle) requestID (Some (if_upstream t)) publisher
              (rg_registry s) with
      | None => None
      | Some (evs, r) => Some (mkRegSys r (filter (fun t' => t' <> t) (rg_inflight s)), evs)
      end
    else Some (s, [])
  | OpAbandon t =>
    if decide (t ∈ rg_inflight s) then
      match destroyPending (ticketOf t) (rg_registry s) with
      | None => None
      | Some (_, r) => Some (mkRegSys r (filter (fun t' => t' <> t) (rg_inflight s)), [])
      end
    else Some (s, [])
  | OpPublish f session publisher requestID handle now =>
    onRegistry (publishTrack f session publisher requestID handle now) s
  | OpChainCall empty n call now =>
    match filters (rg_registry s) !! n with
    | Some _ => onRegistry (chainCall empty n call now) s
    | None => Some (s, [])
    end
  | OpEmpty f => onRegistry (onEmptyImpl f) s
  | OpForwardChanged f forward => onRegistry (forwardChangedImpl f forward) s
  | OpNewGroup f group => onRegistry (newGroupRequestedImpl f group) s
  | OpDropFrom ns sid => onRegistry (dropSubscriptionsFrom ns sid;; mret []) s
  end.

Fixpoint reg_run (ops : list RegOp) (s : RegSys) : option (RegSys * list RelayEvent) :=
  match ops with
  | [] => Some (s, [])
  | op :: rest =>
    match reg_step op s with
    | None => None
    | Some (s', evs) =>
      match reg_run rest s' with Some (s'', evs') => Some (s'', evs ++ evs') | None => None end
    end
  end.
End relay.
