(* ===== verification/RegistryInv.v ===== *)
(** The invariant of the subscription registry and its preservation by the
    operations of the registry (SubscriptionRegistry.cpp). *)

From S2P Require Import Prelude Location CacheState NamespaceTree Promise TopN Registry.

Section inv.
Context `{EA : ExtensionsApi}.
Implicit Types (r : SubscriptionRegistry) (f : FullTrackName) (e : RelaySubscription).

(** [tk] are the tickets in flight; [owned]: the relay owns every forwarder. *)
Record reg_ok (owned : bool) (tk : list (FullTrackName * Z)) r : Prop := {
  ro_counter : 0 <= epochCounter_ r < u64_modulus;
  ro_epoch f e : subscriptions_ r !! f = Some e -> 1 <= rs_epoch e <= epochCounter_ r;
  ro_epoch_inj f f' e e' : subscriptions_ r !! f = Some e -> subscriptions_ r !! f' = Some e' ->
    rs_epoch e = rs_epoch e' -> f = f';
  ro_ticket f ep : (f, ep) ∈ tk -> ep <= epochCounter_ r;
  ro_ticket_nodup : NoDup tk;
  ro_promise f e : subscriptions_ r !! f = Some e ->
    heap (promises r) !! rs_promise e = Some (if decide ((f, rs_epoch e) ∈ tk) then Unfulfilled else Value);
  ro_promise_inj f f' e e' : subscriptions_ r !! f = Some e -> subscriptions_ r !! f' = Some e' ->
    rs_promise e = rs_promise e' -> f = f';
  ro_pending p : heap (promises r) !! p = Some Unfulfilled ->
    exists f e, subscriptions_ r !! f = Some e /\ rs_promise e = p;
  ro_promises : promises_ok (promises r);
  ro_handle f e : subscriptions_ r !! f = Some e -> is_Some (rs_handle e) -> is_Some (rs_upstream e);
  ro_filters n : is_Some (filters r !! n) -> n < nextFilter r;
  ro_target n t ep : filters r !! n = Some t -> activityTarget_ t = Some ep ->
    exists f e, subscriptions_ r !! f = Some e /\ rs_epoch e = ep /\ rs_topNFilter e = Some n;
  ro_owned f e : owned = true -> subscriptions_ r !! f = Some e -> is_Some (getIfOwned (rs_forwarder e));
}.

Lemma reg_ok_empty owned : reg_ok owned [] emptyRegistry.
Proof.
  split; cbn; try done.
  - intros f ep Hin. by apply elem_of_nil in Hin.
  - constructor.
  - intros p. cbn. intros Hs. apply is_Some_None in Hs as [].
  - intros n Hs. apply is_Some_None in Hs as [].
Qed.

(** What one operation may do to the promises and the counter. *)
Record advances r r' : Prop := {
  av_promises : promises_extend (promises r) (promises r');
  av_counter : epochCounter_ r <= epochCounter_ r';
  av_next : nextPromise (promises r) <= nextPromise (promises r');
  (** entries keep their epoch and promise, and new ones have new ones *)
  av_entries f e' : subscriptions_ r' !! f = Some e' ->
    (exists e, subscriptions_ r !! f = Some e /\ rs_epoch e' = rs_epoch e /\ rs_promise e' = rs_promise e) \/
    (epochCounter_ r < rs_epoch e' /\ nextPromise (promises r) <= rs_promise e');
}.
(** Of the operations that leave the table as it is. *)
Lemma advances_same r r' :
  subscriptions_ r' = subscriptions_ r -> promises_extend (promises r) (promises r') ->
  epochCounter_ r' = epochCounter_ r -> nextPromise (promises r') = nextPromise (promises r) -> advances r r'.
Proof. intros Hs Hp Hc Hn. split; [done|lia|lia|]. rewrite Hs. eauto. Qed.
#[global] Instance advances_preorder : PreOrder advances.
Proof.
  split; [intros r; by apply advances_same|]. intros a b c [] []. split; [by etrans|lia|lia|].
  intros f e' [(e & H & He & Hp)|[He Hp]]%av_entries1; [|right; lia].
  destruct (av_entries0 f e H) as [(e0 & H0 & He0 & Hp0)|[He0 Hp0]]; [left|right; lia].
  exists e0. split_and!; congruence.
Qed.

(** ** Erasing *)
Definition cleared (e : RelaySubscription) r : SubscriptionRegistry :=
  set_promises (dropPromise (rs_promise e) (promises r))
    (set_filters (match rs_topNFilter e with
                  | Some n => alter (setActivityTarget None) n (filters r)
                  | None => filters r
                  end) r).

Lemma destroyEntry_run e r : destroyEntry e r = Some (tt, cleared e r).
Proof. unfold destroyEntry, cleared. by destruct (rs_topNFilter e). Qed.
Lemma eraseEntry_run f r :
  eraseEntry f r = Some (tt, match subscriptions_ r !! f with
                             | Some e => cleared e (set_subscriptions (delete f (subscriptions_ r)) r)
                             | None => r
                             end).
Proof.
  unfold eraseEntry, mbind, M_bind. cbn. destruct (subscriptions_ r !! f) as [e|]; [|done].
  cbn. by rewrite destroyEntry_run.
Qed.

Lemma cleared_filters e r n t :
  filters (cleared e r) !! n = Some t ->
  exists t', filters r !! n = Some t' /\
    (if decide (rs_topNFilter e = Some n) then activityTarget_ t = None else t = t').
Proof.
  unfold cleared. cbn. destruct (rs_topNFilter e) as [m|]; [|by intros Ht; exists t; rewrite decide_False].
  destruct (decide (m = n)) as [->|Hne].
  - rewrite lookup_alter_eq. intros (t' & Ht & ->)%fmap_Some. exists t'. by rewrite decide_True.
  - rewrite lookup_alter_ne by done. intros Ht. exists t. rewrite decide_False by congruence. done.
Qed.
Lemma cleared_filters_some e r n : is_Some (filters (cleared e r) !! n) <-> is_Some (filters r !! n).
Proof.
  unfold cleared. cbn. destruct (rs_topNFilter e) as [m|]; [|done].
  destruct (decide (m = n)) as [->|Hne]; [rewrite lookup_alter_eq, fmap_is_Some|rewrite lookup_alter_ne by done]; done.
Qed.

Definition erased f r : SubscriptionRegistry :=
  match subscriptions_ r !! f with
  | Some e => cleared e (set_subscriptions (delete f (subscriptions_ r)) r)
  | None => r
  end.
Lemma erased_subscriptions f r : subscriptions_ (erased f r) = delete f (subscriptions_ r).
Proof.
  unfold erased. destruct (subscriptions_ r !! f) as [e|] eqn:E; [done|]. by rewrite delete_id.
Qed.
Lemma erased_counter f r : epochCounter_ (erased f r) = epochCounter_ r.
Proof. unfold erased. by destruct (subscriptions_ r !! f). Qed.
Lemma erased_advances f r : advances r (erased f r).
Proof.
  unfold erased. destruct (subscriptions_ r !! f) as [e|]; [|done].
  split; cbn; [apply dropPromise_extend|lia|rewrite dropPromise_next; lia|].
  intros f' e' [_ H]%lookup_delete_Some. eauto.
Qed.

Lemma erased_ok owned tk f r : reg_ok owned tk r -> reg_ok owned tk (erased f r).
Proof.
  intros Hok. pose proof (erased_subscriptions f r) as Hs. pose proof (erased_counter f r) as Hc.
  unfold erased in *. destruct (subscriptions_ r !! f) as [e|] eqn:E; [|done]. destruct Hok.
  split; rewrite ?Hs, ?Hc; try done.
  - intros f' e' [_ H]%lookup_delete_Some. eauto.
  - intros f1 f2 e1 e2 [_ H1]%lookup_delete_Some [_ H2]%lookup_delete_Some. eauto.
  - intros f' e' [Hne H]%lookup_delete_Some. cbn. rewrite dropPromise_lookup.
    rewrite decide_False; [by apply ro_promise0|]. intros Hp. apply Hne. eauto.
  - intros f1 f2 e1 e2 [_ H1]%lookup_delete_Some [_ H2]%lookup_delete_Some. eauto.
  - intros p. cbn. rewrite dropPromise_unfulfilled. intros [Hne (f' & e' & H & Hp)%ro_pending0].
    exists f', e'. split; [|done]. apply lookup_delete_Some. split; [|done]. intros <-. congruence.
  - by apply dropPromise_ok.
  - intros f' e' [_ H]%lookup_delete_Some. eauto.
  - intros n. rewrite cleared_filters_some. apply ro_filters0.
  - intros n t ep (t' & Ht' & Hd)%cleared_filters Hep. destruct (decide _) as [Hn|Hn]; [congruence|]. subst t'.
    destruct (ro_target0 n t ep Ht' Hep) as (f' & e' & H & He & Hn').
    exists f', e'. split; [|done]. apply lookup_delete_Some. split; [|done]. intros <-. congruence.
  - intros f' e' Ho [_ H]%lookup_delete_Some. eauto.
Qed.

(** ** A new entry *)
Definition added f e (st : PromiseState) (t : TopNFilter) (nf : fref) r : SubscriptionRegistry :=
  mkReg (<[f := e]> (subscriptions_ r)) (epochCounter_ r + 1)
    (mkPromises (<[nextPromise (promises r) := st]> (heap (promises r))) (nextPromise (promises r) + 1))
    (<[nextFilter r := t]> (filters r)) (nextFilter r + 1) nf.

(** [e] is a new entry of [r]. *)
Record fresh_entry (owned : bool) e (t : TopNFilter) r : Prop := {
  fe_epoch : rs_epoch e = epochCounter_ r + 1;
  fe_promise : rs_promise e = nextPromise (promises r);
  fe_filter : rs_topNFilter e = Some (nextFilter r);
  fe_handle : is_Some (rs_handle e) -> is_Some (rs_upstream e);
  fe_owned : owned = true -> is_Some (getIfOwned (rs_forwarder e));
  fe_target ep : activityTarget_ t = Some ep -> ep = rs_epoch e;
}.

Lemma added_advances owned f e st t nf r :
  promises_ok (promises r) -> fresh_entry owned e t r -> advances r (added f e st t nf r).
Proof.
  intros Hp []. split; cbn; [|lia..|].
  - intros q st' Hq _. cbn. rewrite lookup_insert_ne; [done|]. intros <-. by rewrite promises_ok_fresh in Hq.
  - intros f' e' [[<- <-]|[_ H]]%lookup_insert_Some; [right; lia|]. eauto.
Qed.

Lemma added_ok owned tk tk' f e st t nf r :
  reg_ok owned tk r -> subscriptions_ r !! f = None -> epochCounter_ r + 1 < u64_modulus ->
  fresh_entry owned e t r ->
  (st = Unfulfilled /\ tk' = (f, rs_epoch e) :: tk) \/ (st = Value /\ tk' = tk) ->
  reg_ok owned tk' (added f e st t nf r).
Proof.
  intros [] Hf Hc [] Hst. pose proof (promises_ok_fresh _ ro_promises0) as Hfresh.
  assert (Hnotk : (f, rs_epoch e) ∉ tk) by (intros Hin%ro_ticket0; lia).
  assert (Hsub : forall x, x ∈ tk' -> x = (f, rs_epoch e) /\ st = Unfulfilled \/ x ∈ tk).
  { intros x Hx. destruct Hst as [[-> ->]|[_ ->]]; [|by right]. apply elem_of_cons in Hx as [->|Hx]; auto. }
  assert (Hsup : forall x, x ∈ tk -> x ∈ tk').
  { intros x Hx. destruct Hst as [[_ ->]|[_ ->]]; [by right|done]. }
  assert (Hheap : forall q, nextPromise (promises r) <> q ->
    <[nextPromise (promises r) := st]> (heap (promises r)) !! q = heap (promises r) !! q)
    by (intros; by rewrite lookup_insert_ne).
  assert (Hold : forall f' e', subscriptions_ r !! f' = Some e' -> nextPromise (promises r) <> rs_promise e').
  { intros f' e' H Heq. pose proof (ro_promise0 f' e' H) as Hp. rewrite <-Heq, Hfresh in Hp. done. }
  split; cbn.
  - lia.
  - intros f' e' [[<- <-]|[Hne H]]%lookup_insert_Some; cbn; [lia|]. specialize (ro_epoch0 f' e' H). lia.
  - intros f1 f2 e1 e2 [[<- <-]|[Hn1 H1]]%lookup_insert_Some [[<- <-]|[Hn2 H2]]%lookup_insert_Some Heq; try done.
    + specialize (ro_epoch0 f2 e2 H2). lia.
    + specialize (ro_epoch0 f1 e1 H1). lia.
    + eauto.
  - cbn. intros f' ep [[[= -> ->] _]|H%ro_ticket0]%Hsub; lia.
  - destruct Hst as [[_ ->]|[_ ->]]; [by apply NoDup_cons|done].
  - intros f' e' [[<- <-]|[Hne H]]%lookup_insert_Some.
    + rewrite fe_promise0. cbn. rewrite lookup_insert_eq. f_equal.
      destruct (decide _) as [Hin|Hnin]; destruct Hst as [[-> ->]|[-> ->]]; try done. destruct Hnin. by left.
    + rewrite Hheap by eauto. rewrite (ro_promise0 f' e' H). f_equal.
      destruct (decide ((f', rs_epoch e') ∈ tk)) as [Hin|Hnin], (decide ((f', rs_epoch e') ∈ tk')) as [Hin'|Hnin']; try done.
      * destruct Hnin'. by apply Hsup.
      * apply Hsub in Hin' as [[[= -> _] _]|]; done.
  - intros f1 f2 e1 e2 [[<- <-]|[Hn1 H1]]%lookup_insert_Some [[<- <-]|[Hn2 H2]]%lookup_insert_Some Heq; try done.
    + destruct (Hold f2 e2 H2). congruence.
    + destruct (Hold f1 e1 H1). congruence.
    + eauto.
  - intros q Hq. destruct (decide (nextPromise (promises r) = q)) as [<-|Hne].
    + exists f, e. split; [apply lookup_insert_eq|done].
    + rewrite Hheap in Hq by done. destruct (ro_pending0 q Hq) as (f' & e' & H & Hp).
      exists f', e'. split; [|done]. rewrite lookup_insert_ne; [done|]. congruence.
  - intros q. cbn. destruct (decide (nextPromise (promises r) = q)) as [<-|Hne]; [lia|].
    rewrite lookup_insert_ne by done. intros Hs%ro_promises0. lia.
  - intros f' e' [[<- <-]|[Hne H]]%lookup_insert_Some; eauto.
  - intros n [<-|[_ H]]%lookup_insert_is_Some; [cbn; lia|]. specialize (ro_filters0 n H). cbn. lia.
  - intros n t' ep [[<- <-]|[Hne H]]%lookup_insert_Some Hep.
    + exists f, e. split; [apply lookup_insert_eq|]. split; [symmetry; eauto|done].
    + destruct (ro_target0 n t' ep H Hep) as (f' & e' & H' & He & Hn). exists f', e'.
      split; [|done]. rewrite lookup_insert_ne; [done|]. congruence.
  - intros f' e' Ho [[<- <-]|[Hne H]]%lookup_insert_Some; eauto.
Qed.

(** ** An entry changed in place *)
(** The fields the invariant reads. *)
Record same_entry e e' : Prop := {
  sm_forwarder : rs_forwarder e' = rs_forwarder e;
  sm_epoch : rs_epoch e' = rs_epoch e;
  sm_promise : rs_promise e' = rs_promise e;
  sm_filter : rs_topNFilter e' = rs_topNFilter e;
  sm_handle : is_Some (rs_handle e') -> is_Some (rs_upstream e');
}.

Lemma updated_lookup f e e' r f' x :
  subscriptions_ r !! f = Some e -> same_entry e e' ->
  <[f := e']> (subscriptions_ r) !! f' = Some x ->
  exists x0, subscriptions_ r !! f' = Some x0 /\ rs_forwarder x = rs_forwarder x0 /\ rs_epoch x = rs_epoch x0 /\
    rs_promise x = rs_promise x0 /\ rs_topNFilter x = rs_topNFilter x0 /\
    (x = x0 \/ (is_Some (rs_handle x) -> is_Some (rs_upstream x))).
Proof.
  intros Hf [] [[<- <-]|[Hne H]]%lookup_insert_Some; [exists e|exists x]; split_and!; auto.
Qed.

Lemma updated_ok owned tk f e e' r :
  reg_ok owned tk r -> subscriptions_ r !! f = Some e -> same_entry e e' ->
  reg_ok owned tk (set_subscriptions (<[f := e']> (subscriptions_ r)) r).
Proof.
  intros [] Hf Hsame.
  assert (Hback : forall f' x, <[f := e']> (subscriptions_ r) !! f' = Some x -> _) by (intros f' x; exact (updated_lookup f e e' r f' x Hf Hsame)).
  assert (Hfwd : forall f' x, subscriptions_ r !! f' = Some x -> exists x', <[f := e']> (subscriptions_ r) !! f' = Some x' /\
    rs_epoch x' = rs_epoch x /\ rs_promise x' = rs_promise x /\ rs_topNFilter x' = rs_topNFilter x).
  { intros f' x H. destruct (decide (f = f')) as [<-|Hne].
    - exists e'. rewrite lookup_insert_eq. destruct Hsame. replace x with e by congruence. done.
    - exists x. by rewrite lookup_insert_ne. }
  split; cbn; try done.
  - intros f' x (x0 & H & _ & -> & _)%Hback. eauto.
  - intros f1 f2 x y (x0 & H & _ & -> & _)%Hback (y0 & H' & _ & -> & _)%Hback. eauto.
  - intros f' x (x0 & H & _ & -> & -> & _)%Hback. eauto.
  - intros f1 f2 x y (x0 & H & _ & _ & -> & _)%Hback (y0 & H' & _ & _ & -> & _)%Hback. eauto.
  - intros p (f' & x & H & <-)%ro_pending0. destruct (Hfwd f' x H) as (x' & H' & _ & Hp & _). eauto.
  - intros f' x (x0 & H & _ & _ & _ & _ & [-> | Hx])%Hback; [|done]. eauto.
  - intros n t ep Ht (f' & x & H & <- & Hn)%(ro_target0 n t ep Ht).
    destruct (Hfwd f' x H) as (x' & H' & He & _ & Hn'). exists f', x'. rewrite Hn'. done.
  - intros f' x Ho (x0 & H & -> & _)%Hback. eauto.
Qed.

Lemma updated_advances f e e' r :
  subscriptions_ r !! f = Some e -> same_entry e e' ->
  advances r (set_subscriptions (<[f := e']> (subscriptions_ r)) r).
Proof.
  intros Hf Hsame. split; cbn; [done|lia|lia|].
  intros f' x (x0 & H & _ & He & Hp & _)%(updated_lookup f e e' r f' x Hf Hsame). left. eauto.
Qed.

(** ** Tickets *)
Definition without (f : FullTrackName) (ep : Z) (tk : list (FullTrackName * Z)) : list (FullTrackName * Z) :=
  filter (fun x => x <> (f, ep)) tk.
Lemma elem_of_without f ep tk x : x ∈ without f ep tk <-> x <> (f, ep) /\ x ∈ tk.
Proof. unfold without. by rewrite list_elem_of_filter. Qed.

Lemma without_ok owned tk f ep r :
  reg_ok owned tk r -> (forall e, subscriptions_ r !! f = Some e -> rs_epoch e <> ep) ->
  reg_ok owned (without f ep tk) r.
Proof.
  intros [] Hno. split; try done.
  - intros f' ep' [_ H]%elem_of_without. eauto.
  - by apply NoDup_filter.
  - intros f' e' H. rewrite (ro_promise0 f' e' H). f_equal.
    assert (Hiff : (f', rs_epoch e') ∈ without f ep tk <-> (f', rs_epoch e') ∈ tk).
    { rewrite elem_of_without. split; [tauto|]. intros Hin. split; [|done]. intros [= -> <-]. by apply (Hno e'). }
    destruct (decide ((f', rs_epoch e') ∈ tk)), (decide ((f', rs_epoch e') ∈ without f ep tk)); tauto.
Qed.

Lemma settled_ok owned tk f e r :
  reg_ok owned tk r -> subscriptions_ r !! f = Some e -> (f, rs_epoch e) ∈ tk ->
  reg_ok owned (without f (rs_epoch e) tk)
    (set_promises (mkPromises (<[rs_promise e := Value]> (heap (promises r))) (nextPromise (promises r))) r).
Proof.
  intros [] Hf Htk.
  assert (Hp : heap (promises r) !! rs_promise e = Some Unfulfilled) by (rewrite (ro_promise0 f e Hf), decide_True; done).
  split; cbn; try done.
  - intros f' ep' [_ H]%elem_of_without. eauto.
  - by apply NoDup_filter.
  - intros f' e' H. destruct (decide (f = f')) as [<-|Hne].
    + replace e' with e by congruence. rewrite lookup_insert_eq, decide_False; [done|]. rewrite elem_of_without. tauto.
    + rewrite lookup_insert_ne by (intros Heq; apply Hne; eauto). rewrite (ro_promise0 f' e' H). f_equal.
      assert (Hiff : (f', rs_epoch e') ∈ without f (rs_epoch e) tk <-> (f', rs_epoch e') ∈ tk)
        by (rewrite elem_of_without; naive_solver).
      destruct (decide ((f', rs_epoch e') ∈ tk)), (decide ((f', rs_epoch e') ∈ without f (rs_epoch e) tk)); tauto.
  - intros q [[_ Hq]|[_ Hq]]%lookup_insert_Some; [done|]. eauto.
  - apply update_ok; [done|by rewrite Hp].
Qed.

(** A broken promise that is given its exception. *)
Lemma exception_ok owned tk p what r :
  reg_ok owned tk r -> heap (promises r) !! p = Some Broken ->
  reg_ok owned tk (set_promises (mkPromises (<[p := Exception what]> (heap (promises r))) (nextPromise (promises r))) r).
Proof.
  intros [] Hp. split; cbn; try done.
  - intros f e H. pose proof (ro_promise0 f e H) as He. rewrite lookup_insert_ne; [done|].
    intros ->. rewrite Hp in He. by destruct (decide _).
  - intros q [[_ Hq]|[_ Hq]]%lookup_insert_Some; [done|]. eauto.
  - apply update_ok; [done|by rewrite Hp].
Qed.

(** ** Filters *)
Lemma filter_set_ok owned tk n t t' r :
  reg_ok owned tk r -> filters r !! n = Some t -> activityTarget_ t' = activityTarget_ t ->
  reg_ok owned tk (set_filters (<[n := t']> (filters r)) r).
Proof.
  intros [] Hn Ht. split; cbn; try done.
  - intros m [<-|[_ H]]%lookup_insert_is_Some; [|eauto]. apply ro_filters0. by rewrite Hn.
  - intros m t'' ep [[<- <-]|[_ H]]%lookup_insert_Some Hep; eauto. rewrite Ht in Hep. eauto.
Qed.

Lemma touchEntry_ok owned tk ep now r :
  reg_ok owned tk r -> (exists f e, subscriptions_ r !! f = Some e /\ rs_epoch e = ep) ->
  exists r', touchEntry ep now r = Some (tt, r') /\ reg_ok owned tk r' /\ advances r r' /\
    filters r' = filters r /\ epochCounter_ r' = epochCounter_ r /\
    (forall f e, subscriptions_ r !! f = Some e -> exists e', subscriptions_ r' !! f = Some e' /\ rs_epoch e' = rs_epoch e).
Proof.
  intros Hok (f & e & Hf & He). unfold touchEntry, mbind, M_bind. cbn.
  destruct (List.find _ _) as [[f0 e0]|] eqn:Efind.
  - apply List.find_some in Efind as [Hin Hep].
    apply list_elem_of_In, elem_of_map_to_list in Hin. cbn. eexists. split; [done|].
    assert (Hsame : same_entry e0 (mkSub (rs_forwarder e0) (rs_epoch e0) (rs_upstream e0) (rs_publisher e0) (rs_requestID e0)
      (rs_handle e0) (rs_promise e0) (rs_isPublish e0) (rs_topNFilter e0) (rs_chainHead e0) now (rs_ingest e0)))
      by (split; try done; intros Hh; exact (ro_handle _ _ _ Hok f0 e0 Hin Hh)).
    split_and!; [by eapply updated_ok|by eapply updated_advances|done|done|].
    intros f' e' H. cbn. destruct (decide (f0 = f')) as [<-|Hne].
    + eexists. rewrite lookup_insert_eq. split; [done|]. cbn. congruence.
    + exists e'. by rewrite lookup_insert_ne.
  - apply List.find_none with (x := (f, e)) in Efind; [cbn in Efind; lia|].
    by apply list_elem_of_In, elem_of_map_to_list.
Qed.

(** Whether an entry with this epoch is in the table. *)
Definition alive (ep : Z) r : Prop := exists f e, subscriptions_ r !! f = Some e /\ rs_epoch e = ep.

Lemma touchAll_ok owned tk acts : forall r,
  reg_ok owned tk r -> (forall ep now, Touch ep now ∈ acts -> alive ep r) ->
  exists r', touchAll acts r = Some (tt, r') /\ reg_ok owned tk r' /\ advances r r' /\
    epochCounter_ r' = epochCounter_ r.
Proof.
  induction acts as [|a acts IH]; intros r Hok Hal; [exists r; by split_and!|].
  assert (Hrest : forall ep now, Touch ep now ∈ acts -> alive ep r) by (intros ep now Hin; apply (Hal ep now); by right).
  destruct a as [ep now| | | |]; cbn; try (apply IH; done).
  destruct (touchEntry_ok owned tk ep now r Hok) as (r1 & E & Hok1 & Hav & Hfl & Hc & Hkeep);
    [apply (Hal ep now); by left|].
  unfold mbind, M_bind. rewrite E.
  destruct (IH r1 Hok1) as (r2 & E2 & Hok2 & Hav2 & Hc2).
  { intros ep' now' Hin. destruct (Hrest ep' now' Hin) as (f & e & Hf & <-).
    destruct (Hkeep f e Hf) as (e' & Hf' & He'). by exists f, e'. }
  exists r2. split_and!; [done|done|by etrans|congruence].
Qed.
End inv.
