(* ===== verification/RegistryTheorems.v ===== *)
(** What the subscription registry guarantees over any sequence of subscribes,
    publishes, objects and ends of tracks (SubscriptionRegistry.cpp,
    MoqxRelay.cpp). *)


From S2P Require Import Prelude Location CacheState NamespaceTree Promise TopN Registry RegistryRelay RegistryInv.
From S2P Require Import Assoc CacheWitness.

Section theorems.
Context `{EA : ExtensionsApi} (mode : Mode) (activityThreshold : Z) (hasCache : bool) (getExecutor sessionId : Session -> Z).
Implicit Types (r : SubscriptionRegistry) (f : FullTrackName).

Abbreviation owned := (negb (isLocalForwarder mode)).

Definition newFilter f : TopNFilter := setActivityThreshold activityThreshold (newTopNFilter f).

Lemma makeForwarderRef_owned fwd exec :
  owned = true -> is_Some (getIfOwned (makeForwarderRef mode fwd exec)).
Proof. unfold makeForwarderRef. by destruct mode. Qed.

(** ** Subscribing *)
Definition subscribedEntry f (u : Session) (now : Z) r : RelaySubscription :=
  mkSub (makeForwarderRef mode (nextForwarder r) (getExecutor u)) (epochCounter_ r + 1) None None 0 None
    (nextPromise (promises r)) false (Some (nextFilter r)) (Some (ChainHead (nextFilter r))) now (Some (nextFilter r)).

Lemma subscribe_run f upstream now r :
  epochCounter_ r + 1 < u64_modulus -> 0 <= epochCounter_ r ->
  subscribe mode activityThreshold getExecutor f upstream now r =
    match subscriptions_ r !! f, upstream with
    | Some e, _ => Some (SubsequentSubscriber f (rs_promise e), r)
    | None, None =>
      Some (NoPublisher, mkReg (subscriptions_ r) (epochCounter_ r) (promises r) (filters r) (nextFilter r)
                           (nextForwarder r + 1))
    | None, Some u =>
      Some (FirstSubscriber (nextForwarder r)
              (Some (if isLocalForwarder mode then ForwarderConsumer (nextForwarder r) else ChainHead (nextFilter r)))
              (mkPending f (epochCounter_ r + 1) true),
            added f (subscribedEntry f u now r) Unfulfilled (newFilter f) (nextForwarder r + 1) r)
    end.
Proof.
  intros Hc H0. unfold subscribe, getOrCreateFromSubscribe, mbind, M_bind. cbn.
  destruct (subscriptions_ r !! f) as [e|] eqn:Ef; [done|]. destruct upstream as [u|]; [|done]. cbn.
  unfold buildFilterChain, emplaceEntry, modEntry, mbind, M_bind. cbn. rewrite Ef. cbn. rewrite lookup_insert_eq. cbn.
  rewrite insert_insert_eq, u64_small by (unfold u64_ok; lia). done.
Qed.

Lemma subscribedEntry_fresh f u now r : fresh_entry owned (subscribedEntry f u now r) (newFilter f) r.
Proof. split; cbn; try done. apply makeForwarderRef_owned. Qed.

(** ** Publishing *)
Definition publishedEntry f (session : Session) (publisher : option Z) (requestID handle now : Z) (fwd : fref) r
  : RelaySubscription :=
  mkSub (makeForwarderRef mode fwd (getExecutor session)) (epochCounter_ r + 1) (Some session) publisher requestID
    (Some handle) (nextPromise (promises r)) true (Some (nextFilter r)) (Some (ChainHead (nextFilter r))) now
    (Some (nextFilter r)).
Definition bumped r : SubscriptionRegistry :=
  mkReg (subscriptions_ r) (epochCounter_ r) (promises r) (filters r) (nextFilter r) (nextForwarder r + 1).

(** One step of a sequence. *)
Lemma bind_run {S A B} (m : M S A) (k : A -> M S B) s a s' : m s = Some (a, s') -> (m ≫= k) s = k a s'.
Proof. unfold mbind, M_bind. by intros ->. Qed.

Definition evictedOf (old : RelaySubscription) : Evicted :=
  mkEvicted (rs_forwarder old) (rs_handle old) (getExecutor <$> rs_upstream old).

Lemma createFromPublish_run f session publisher requestID handle now fwd r :
  epochCounter_ r + 1 < u64_modulus -> 0 <= epochCounter_ r ->
  let r1 := erased f r in
  createFromPublish getExecutor f (makeForwarderRef mode fwd (getExecutor session)) (Some session) publisher requestID
      (Some handle) (buildFilterChain (isLocalForwarder mode) activityThreshold f fwd) now r =
    Some ((Some (if isLocalForwarder mode then ForwarderConsumer fwd else ChainHead (nextFilter r1)),
           evictedOf <$> subscriptions_ r !! f),
          added f (publishedEntry f session publisher requestID handle now fwd r1) Value
            (setActivityTarget (Some (epochCounter_ r1 + 1)) (newFilter f)) (nextForwarder r1) r1).
Proof.
  intros Hc H0 r1. unfold createFromPublish. rewrite (bind_run _ _ r r r) by done.
  rewrite (bind_run _ _ r (evictedOf <$> subscriptions_ r !! f) r1).
  2: { subst r1. unfold erased. destruct (subscriptions_ r !! f) as [old|] eqn:Ef; [|done].
    unfold mbind, M_bind. by rewrite eraseEntry_run, Ef. }
  assert (Hf : subscriptions_ r1 !! f = None) by (subst r1; rewrite erased_subscriptions; apply lookup_delete_eq).
  assert (Hc1 : epochCounter_ r1 = epochCounter_ r) by apply erased_counter. clearbody r1.
  unfold buildFilterChain, emplaceEntry, modEntry, fulfilPromise, mbind, M_bind. cbn.
  rewrite Hf. cbn. unfold fulfil. cbn. rewrite lookup_insert_eq. cbn. rewrite lookup_insert_eq. cbn.
  rewrite lookup_insert_eq. cbn. rewrite !insert_insert_eq, alter_insert_eq, u64_small by (unfold u64_ok; lia).
  done.
Qed.

Definition evictionEvents (old : option RelaySubscription) : list RelayEvent :=
  match old with
  | Some e => match rs_handle e with
              | Some h => [Unsubscribe (getExecutor <$> rs_upstream e) h; ForwarderDone (rs_forwarder e)]
              | None => []
              end
  | None => []
  end.

Lemma publishTrack_run f session publisher requestID handle now r :
  epochCounter_ r + 1 < u64_modulus -> 0 <= epochCounter_ r ->
  let r1 := erased f (bumped r) in
  publishTrack mode activityThreshold hasCache getExecutor f session publisher requestID handle now r =
    Some ((if hasCache then [CacheTrackState f] else []) ++ evictionEvents (subscriptions_ r !! f),
          added f (publishedEntry f session publisher requestID handle now (nextForwarder r) r1) Value
            (setActivityTarget (Some (epochCounter_ r1 + 1)) (newFilter f)) (nextForwarder r1) r1).
Proof.
  intros Hc H0 r1. unfold publishTrack. rewrite (bind_run _ _ r (nextForwarder r) (bumped r)) by done.
  cbv zeta. erewrite bind_run by (by apply createFromPublish_run). fold r1.
  unfold getTopNView, mbind, M_bind. cbn. rewrite lookup_insert_eq. cbn.
  by destruct (subscriptions_ r !! f) as [old|].
Qed.

Lemma bumped_ok tk r : reg_ok owned tk r -> reg_ok owned tk (bumped r).
Proof. intros []. by split. Qed.
Lemma bumped_advances r : advances r (bumped r).
Proof. by apply advances_same. Qed.

Lemma publishedEntry_fresh f session publisher requestID handle now fwd r :
  fresh_entry owned (publishedEntry f session publisher requestID handle now fwd r)
    (setActivityTarget (Some (epochCounter_ r + 1)) (newFilter f)) r.
Proof. split; cbn; try done. - apply makeForwarderRef_owned. - by intros ep [= <-]. Qed.

(** ** Completing and abandoning a subscribe *)
Lemma complete_run f ep handle requestID upstream publisher r :
  complete (mkPending f ep true) handle requestID upstream publisher r =
    match subscriptions_ r !! f with
    | Some e =>
      if rs_epoch e =? ep then
        match fulfil (rs_promise e) Value (promises r) with
        | Some ps =>
          Some ((true, mkPending f ep false),
            set_promises ps (set_subscriptions (<[f := completed handle requestID upstream publisher e]> (subscriptions_ r)) r))
        | None => None
        end
      else Some ((false, mkPending f ep false), r)
    | None => Some ((false, mkPending f ep false), r)
    end.
Proof.
  unfold complete, completeSubscription, modEntry, mbind, M_bind. cbn.
  destruct (subscriptions_ r !! f) as [e|] eqn:Ef; [|done]. destruct (rs_epoch e =? ep); [|done]. cbn.
  unfold fulfilPromise, mbind, M_bind. cbn. rewrite Ef. cbn. by destruct (fulfil _ _ _).
Qed.

Lemma destroyPending_run f ep r :
  destroyPending (mkPending f ep true) r =
    match subscriptions_ r !! f with
    | Some e =>
      if rs_epoch e =? ep then
        match fulfil (rs_promise e) (Exception "upstream subscribe failed") (promises r) with
        | Some ps => Some (tt, erased f (set_promises ps r))
        | None => None
        end
      else Some (tt, r)
    | None => Some (tt, r)
    end.
Proof.
  unfold destroyPending, failAndRemove, mbind, M_bind. cbn.
  destruct (subscriptions_ r !! f) as [e|] eqn:Ef; [|done]. destruct (rs_epoch e =? ep); [|done].
  unfold fulfilPromise, mbind, M_bind. cbn. destruct (fulfil _ _ _) as [ps|]; [|done].
  rewrite eraseEntry_run. done.
Qed.

Lemma failed_state f e what r :
  subscriptions_ r !! f = Some e -> heap (promises r) !! rs_promise e = Some Unfulfilled ->
  erased f (set_promises (mkPromises (<[rs_promise e := Exception what]> (heap (promises r))) (nextPromise (promises r))) r) =
  set_promises (mkPromises (<[rs_promise e := Exception what]> (heap (promises (erased f r)))) (nextPromise (promises (erased f r))))
    (erased f r).
Proof.
  intros Hf Hp. unfold erased. cbn. rewrite Hf. unfold cleared. cbn. unfold dropPromise. cbn.
  rewrite lookup_insert_eq, Hp. cbn. by rewrite insert_insert_eq.
Qed.

Lemma erased_promise f e r :
  subscriptions_ r !! f = Some e -> heap (promises r) !! rs_promise e = Some Unfulfilled ->
  heap (promises (erased f r)) !! rs_promise e = Some Broken.
Proof.
  intros Hf Hp. unfold erased. rewrite Hf. cbn. rewrite dropPromise_lookup, decide_True, Hp; done.
Qed.

(** ** One step *)
Definition ticketKey (t : InFlight) : FullTrackName * Z := (if_ftn t, if_epoch t).
Definition tickets (s : RegSys) : list (FullTrackName * Z) := map ticketKey (rg_inflight s).
Definition sys_ok (s : RegSys) : Prop := reg_ok owned (tickets s) (rg_registry s).

Lemma tickets_filter t s :
  NoDup (tickets s) -> t ∈ rg_inflight s ->
  tickets (mkRegSys (rg_registry s) (filter (fun t' => t' <> t) (rg_inflight s))) =
    without (if_ftn t) (if_epoch t) (tickets s).
Proof.
  unfold tickets. cbn [rg_inflight]. destruct s as [r l]. cbn. intros Hnd Hin.
  assert (Hinj : forall t', t' ∈ l -> ticketKey t' = ticketKey t -> t' = t).
  { clear r. induction l as [|x l IH]; [by apply elem_of_nil in Hin|].
    cbn in Hnd. apply NoDup_cons in Hnd as [Hx Hnd]. intros t' Ht' Heq.
    apply elem_of_cons in Hin as [-> | Hin]; apply elem_of_cons in Ht' as [-> | Ht']; try done.
    - destruct Hx. rewrite <-Heq. apply list_elem_of_In, (in_map ticketKey), list_elem_of_In, Ht'.
    - destruct Hx. rewrite Heq. apply list_elem_of_In, (in_map ticketKey), list_elem_of_In, Hin.
    - by apply IH. }
  clear Hnd Hin. unfold without. induction l as [|x l IH]; [done|].
  assert (IH' := IH (fun t' H => Hinj t' (list_elem_of_further _ _ _ H))).
  cbn [map]. rewrite !filter_cons. destruct (decide (x <> t)) as [Hne|He].
  - rewrite decide_True; [cbn; by rewrite IH'|]. intros Heq. apply Hne, Hinj; [by left|done].
  - assert (x = t) as -> by (by apply dec_stable). rewrite decide_False by tauto. exact IH'.
Qed.

(** What a step guarantees. *)
Definition step_ok (s : RegSys) (res : option (RegSys * list RelayEvent)) : Prop :=
  exists s' evs, res = Some (s', evs) /\ sys_ok s' /\ advances (rg_registry s) (rg_registry s') /\
    epochCounter_ (rg_registry s') <= epochCounter_ (rg_registry s) + 1.

Lemma onRegistry_ok (m : M SubscriptionRegistry (list RelayEvent)) s :
  (exists evs r', m (rg_registry s) = Some (evs, r') /\ reg_ok owned (tickets s) r' /\
    advances (rg_registry s) r' /\ epochCounter_ r' <= epochCounter_ (rg_registry s) + 1) ->
  step_ok s (onRegistry m s).
Proof.
  intros (evs & r' & E & Hok & Hav & Hc). unfold onRegistry. rewrite E. exists (mkRegSys r' (rg_inflight s)), evs. done.
Qed.

Lemma erase_step_ok o tk f r : reg_ok o tk r ->
  reg_ok o tk (erased f r) /\ advances r (erased f r) /\ epochCounter_ (erased f r) <= epochCounter_ r + 1.
Proof. intros Hok. split_and!; [by apply erased_ok|apply erased_advances|]. rewrite erased_counter. lia. Qed.

Lemma terminated_same e : same_entry e (terminated e).
Proof. by split. Qed.

Lemma terminate_ok empty f tk r : reg_ok owned tk r ->
  exists r', (if isLocalForwarder mode then remove f else (onPublisherTerminated empty f;; mret tt)) r = Some (tt, r') /\
    reg_ok owned tk r' /\ advances r r' /\ epochCounter_ r' <= epochCounter_ r + 1.
Proof.
  intros Hok. destruct (isLocalForwarder mode) eqn:Em.
  - exists (erased f r). split; [apply eraseEntry_run|]. by apply erase_step_ok.
  - destruct (subscriptions_ r !! f) as [e|] eqn:Ef.
    2: { exists r. unfold onPublisherTerminated, mbind, M_bind. cbn. rewrite Ef. split; [done|].
      split_and!; [done|reflexivity|lia]. }
    set (r1 := set_subscriptions (<[f := terminated e]> (subscriptions_ r)) r).
    assert (Hok1 : reg_ok true tk r1) by (eapply updated_ok; [done|done|apply terminated_same]).
    assert (Hav1 : advances r r1) by (eapply updated_advances; [done|apply terminated_same]).
    destruct (ro_owned _ _ _ Hok f e eq_refl Ef) as [x Hx].
    exists (if empty x then erased f r1 else r1). split.
    + unfold onPublisherTerminated, modEntry, mbind, M_bind. cbn. rewrite Ef. cbn. rewrite Ef. cbn.
      rewrite Hx. cbn. destruct (empty x); [|done]. by rewrite eraseEntry_run.
    + destruct (empty x); [|by split_and!; [done..|cbn; lia]].
      destruct (erase_step_ok true tk f r1 Hok1) as (H1 & H2 & H3). split_and!; [done|by etrans|done].
Qed.
Lemma onPublishDone_ok empty f tk r : reg_ok owned tk r ->
  exists evs r', onPublishDone mode getExecutor empty f r = Some (evs, r') /\ reg_ok owned tk r' /\
    advances r r' /\ epochCounter_ r' <= epochCounter_ r + 1.
Proof.
  intros Hok. unfold onPublishDone. rewrite (bind_run _ _ r r r) by done. cbv zeta.
  destruct (terminate_ok empty f tk r Hok) as (r' & E & Hr'). rewrite (bind_run _ _ r tt r' E). by eexists _, r'.
Qed.

Lemma filterCall_ok n t call now tk r : reg_ok owned tk r -> filters r !! n = Some t ->
  exists acts r', filterCall n call now r = Some (acts, r') /\ reg_ok owned tk r' /\
    advances r r' /\ epochCounter_ r' = epochCounter_ r.
Proof.
  intros Hok Hn. unfold filterCall. rewrite (bind_run _ _ r r r) by done. rewrite Hn.
  rewrite (bind_run _ _ r t r) by done.
  destruct (onCall_target call now t) as (Ht & _ & Htouch). destruct (onCall call now t) as [t' acts]. cbn [fst snd] in *.
  set (r1 := set_filters (<[n := t']> (filters r)) r). rewrite (bind_run _ _ r tt r1) by done.
  assert (Hok1 : reg_ok owned tk r1) by (by eapply filter_set_ok).
  destruct (touchAll_ok owned tk acts r1 Hok1) as (r2 & E & Hok2 & Hav & Hc).
  { intros ep at_ Hin. destruct (ro_target _ _ _ Hok n t ep Hn (Htouch ep at_ Hin)) as (f & e & Hf & He & _).
    by exists f, e. }
  rewrite (bind_run _ _ r1 tt r2) by done. exists acts, r2. split; [done|]. split; [done|].
  assert (advances r r1) by (by apply advances_same). split; [by etrans|exact Hc].
Qed.


Lemma removeWhere_ok pred l : forall tk r, reg_ok owned tk r ->
  exists r', removeWhere pred l r = Some (tt, r') /\ reg_ok owned tk r' /\ advances r r' /\ epochCounter_ r' = epochCounter_ r.
Proof.
  induction l as [|[f e] l IH]; intros tk r Hok; [exists r; split_and!; done|]. cbn [removeWhere].
  destruct (pred (viewOf f e)).
  - rewrite (bind_run _ _ r tt (erased f r)) by apply eraseEntry_run.
    destruct (IH tk (erased f r)) as (r' & E & Hok' & Hav & Hc); [by apply erased_ok|].
    exists r'. split_and!; [done|done|etrans; [apply erased_advances|done]|]. by rewrite Hc, erased_counter.
  - rewrite (bind_run _ _ r tt r) by done. by apply IH.
Qed.

(** A handler that only reads, or removes the entry. *)
Lemma unchanged_ok tk r : reg_ok owned tk r -> reg_ok owned tk r /\ advances r r /\ epochCounter_ r <= epochCounter_ r + 1.
Proof. intros Hok. split_and!; [done|reflexivity|lia]. Qed.

Lemma step_same s evs : sys_ok s -> step_ok s (Some (s, evs)).
Proof. intros Hok. exists s, evs. split_and!; [done|done|reflexivity|lia]. Qed.

Lemma onEmptyImpl_ok f tk r : reg_ok owned tk r ->
  exists evs r', onEmptyImpl getExecutor f r = Some (evs, r') /\ reg_ok owned tk r' /\
    advances r r' /\ epochCounter_ r' <= epochCounter_ r + 1.
Proof.
  intros Hok. unfold onEmptyImpl, getUpstreamView. rewrite (bind_run _ _ r r r) by done.
  destruct (subscriptions_ r !! f) as [e|] eqn:Ef; cbn; [|by eexists _, r; split; [|apply unchanged_ok]].
  pose proof (ro_handle _ _ _ Hok f e Ef) as Hh. destruct (rs_handle e) as [h|].
  - destruct (Hh ltac:(by eauto)) as [u ->]. cbn. rewrite (bind_run _ _ r (getExecutor u) r) by done.
    destruct (rs_isPublish e); [by eexists _, r; split; [|apply unchanged_ok]|].
    rewrite (bind_run _ _ r tt (erased f r)) by apply eraseEntry_run. eexists _, _. split; [done|by apply erase_step_ok].
  - rewrite (bind_run _ _ r tt (erased f r)) by apply eraseEntry_run. eexists _, _. split; [done|by apply erase_step_ok].
Qed.

Lemma forwardChangedImpl_ok f fwd tk r : reg_ok owned tk r ->
  exists evs, forwardChangedImpl getExecutor f fwd r = Some (evs, r).
Proof.
  intros Hok. unfold forwardChangedImpl, getUpstreamView. rewrite (bind_run _ _ r r r) by done.
  destruct (subscriptions_ r !! f) as [e|] eqn:Ef; cbn; [|by exists []].
  pose proof (ro_handle _ _ _ Hok f e Ef) as Hh. destruct (negb (isFulfilled (rs_promise e) (promises r))); [by exists []|].
  destruct (rs_handle e) as [h|]; [|by exists []]. destruct (Hh ltac:(by eauto)) as [u ->]. cbn.
  rewrite (bind_run _ _ r (getExecutor u) r) by done. eexists. reflexivity.
Qed.

Lemma newGroupRequestedImpl_ok f g tk r : reg_ok owned tk r ->
  exists evs, newGroupRequestedImpl getExecutor f g r = Some (evs, r).
Proof.
  intros Hok. unfold newGroupRequestedImpl, getUpstreamView. rewrite (bind_run _ _ r r r) by done.
  destruct (subscriptions_ r !! f) as [e|] eqn:Ef; cbn; [|by exists []].
  pose proof (ro_handle _ _ _ Hok f e Ef) as Hh.
  destruct (rs_handle e) as [h|]; [|by exists []]. destruct (Hh ltac:(by eauto)) as [u ->]. cbn.
  rewrite (bind_run _ _ r (getExecutor u) r) by done. eexists. reflexivity.
Qed.

Lemma chainCall_ok empty n call now tk r : reg_ok owned tk r -> is_Some (filters r !! n) ->
  exists evs r', chainCall mode getExecutor empty n call now r = Some (evs, r') /\ reg_ok owned tk r' /\
    advances r r' /\ epochCounter_ r' <= epochCounter_ r + 1.
Proof.
  intros Hok [t Hn]. unfold chainCall. rewrite (bind_run _ _ r r r) by done. rewrite Hn.
  rewrite (bind_run _ _ r t r) by done.
  destruct (filterCall_ok n t call now tk r Hok Hn) as (acts & r1 & E & Hok1 & Hav & Hc).
  rewrite (bind_run _ _ r acts r1) by done.
  assert (Hkeep : forall evs, exists evs' r', ((mret evs : M SubscriptionRegistry (list RelayEvent)) ≫=
      (fun evs => mret (FilterActs n acts :: evs))) r1 = Some (evs', r') /\ reg_ok owned tk r' /\
      advances r r' /\ epochCounter_ r' <= epochCounter_ r + 1).
  { intros evs. eexists _, r1. split; [done|]. split_and!; [done..|lia]. }
  destruct call; try apply Hkeep. clear Hkeep.
  destruct (onPublishDone_ok empty (tf_ftn t) tk r1 Hok1) as (evs & r2 & E2 & Hok2 & Hav2 & Hc2).
  rewrite (bind_run _ _ r1 evs r2) by done. eexists _, r2. split; [done|]. split_and!; [done|by etrans|lia].
Qed.

(** The ticket of the entry under its name, or one that is stale. *)
Lemma complete_ok f ep handle requestID u publisher tk r :
  reg_ok owned tk r -> (f, ep) ∈ tk ->
  exists ok t r', complete (mkPending f ep true) (Some handle) requestID (Some u) publisher r = Some ((ok, t), r') /\
    reg_ok owned (without f ep tk) r' /\ advances r r' /\ epochCounter_ r' = epochCounter_ r.
Proof.
  intros Hok Htk. rewrite complete_run.
  assert (Hstale : (forall e, subscriptions_ r !! f = Some e -> rs_epoch e <> ep) ->
    reg_ok owned (without f ep tk) r /\ advances r r /\ epochCounter_ r = epochCounter_ r)
    by (intros Hno; split_and!; [by apply without_ok|reflexivity|done]).
  destruct (subscriptions_ r !! f) as [e|] eqn:Ef; [|by eexists _, _, r; split; [|apply Hstale]].
  destruct (Z.eqb_spec (rs_epoch e) ep) as [<-|Hne].
  2: { eexists _, _, r. split; [done|]. apply Hstale. congruence. }
  pose proof (ro_promise _ _ _ Hok f e Ef) as Hp. rewrite decide_True in Hp by done.
  rewrite (fulfil_some _ _ _ Hp). eexists _, _, _. split; [done|].
  set (e' := completed _ _ _ _ e). assert (Hsame : same_entry e e') by (by split).
  assert (Hok1 := updated_ok owned tk f e e' r Hok Ef Hsame).
  split_and!; [| |done].
  - eapply (settled_ok owned tk f e' _ Hok1); [apply lookup_insert_eq|done].
  - etrans; [by eapply updated_advances|]. apply advances_same; try done. by apply update_extend.
Qed.

Lemma abandon_ok f ep tk r :
  reg_ok owned tk r -> (f, ep) ∈ tk ->
  exists r', destroyPending (mkPending f ep true) r = Some (tt, r') /\
    reg_ok owned (without f ep tk) r' /\ advances r r' /\ epochCounter_ r' = epochCounter_ r.
Proof.
  intros Hok Htk. rewrite destroyPending_run.
  assert (Hstale : (forall e, subscriptions_ r !! f = Some e -> rs_epoch e <> ep) ->
    reg_ok owned (without f ep tk) r /\ advances r r /\ epochCounter_ r = epochCounter_ r)
    by (intros Hno; split_and!; [by apply without_ok|reflexivity|done]).
  destruct (subscriptions_ r !! f) as [e|] eqn:Ef; [|by exists r; split; [|apply Hstale]].
  destruct (Z.eqb_spec (rs_epoch e) ep) as [<-|Hne].
  2: { exists r. split; [done|]. apply Hstale. congruence. }
  pose proof (ro_promise _ _ _ Hok f e Ef) as Hp. rewrite decide_True in Hp by done.
  rewrite (fulfil_some _ _ _ Hp). eexists. split; [done|]. split_and!.
  - rewrite (failed_state f e _ r Ef Hp). apply exception_ok; [|by apply (erased_promise f e)].
    apply without_ok; [by apply erased_ok|]. intros e'. rewrite erased_subscriptions, lookup_delete_eq. done.
  - etrans; [|apply erased_advances]. apply advances_same; try done. by apply update_extend.
  - by rewrite erased_counter.
Qed.

Lemma reg_step_ok op s :
  sys_ok s -> epochCounter_ (rg_registry s) + 1 < u64_modulus -> step_ok s (reg_step mode activityThreshold hasCache getExecutor sessionId op s).
Proof.
  intros Hok Hc. pose proof (ro_counter _ _ _ Hok) as H0. destruct s as [r l]. cbn [rg_registry] in *.
  destruct op as [f upstream now|t handle requestID publisher|t|f session publisher requestID handle now
                 |empty n call now|f|f fwd|f g|ns sid]; cbn [reg_step rg_registry rg_inflight].
  - rewrite subscribe_run by lia.
    destruct (subscriptions_ r !! f) as [e|] eqn:Ef.
    { by apply step_same. }
    destruct upstream as [u|].
    + pose proof (subscribedEntry_fresh f u now r) as Hfresh. eexists _, _. split; [done|]. cbn [rg_registry].
      split_and!; [|by eapply added_advances; [apply Hok|]|cbn; lia].
      eapply (added_ok owned (map ticketKey l)); [exact Hok|done|lia|exact Hfresh|]. by left.
    + eexists _, _. split; [done|]. split_and!; [by apply (bumped_ok _ r)|apply (bumped_advances r)|cbn; lia].
  - case_decide as Hin; [|by apply step_same].
    destruct (complete_ok (if_ftn t) (if_epoch t) handle requestID (if_upstream t) publisher _ r Hok) as (ok & t' & r' & E & Hok' & Hav & Hc').
    { apply list_elem_of_In, (in_map ticketKey), list_elem_of_In, Hin. }
    unfold completeUpstreamSubscription, ticketOf. rewrite (bind_run _ _ r (ok, t') r' E).
    eexists _, _. split; [done|]. cbn [rg_registry].
    split_and!; [|done|lia]. pose proof (tickets_filter t (mkRegSys r l) (ro_ticket_nodup _ _ _ Hok) Hin) as Ht.
    cbn in Ht. unfold sys_ok. cbn. by rewrite Ht.
  - case_decide as Hin; [|by apply step_same].
    destruct (abandon_ok (if_ftn t) (if_epoch t) _ r Hok) as (r' & E & Hok' & Hav & Hc').
    { apply list_elem_of_In, (in_map ticketKey), list_elem_of_In, Hin. }
    unfold ticketOf. rewrite E. eexists _, _. split; [done|]. cbn [rg_registry].
    split_and!; [|done|lia]. pose proof (tickets_filter t (mkRegSys r l) (ro_ticket_nodup _ _ _ Hok) Hin) as Ht.
    cbn in Ht. unfold sys_ok. cbn. by rewrite Ht.
  - apply onRegistry_ok. cbn [rg_registry]. rewrite publishTrack_run by lia. cbv zeta.
    set (r1 := erased f (bumped r)).
    assert (Hok1 : reg_ok owned (map ticketKey l) r1) by (by apply erased_ok, bumped_ok).
    assert (Hav1 : advances r r1) by (etrans; [apply bumped_advances|apply erased_advances]).
    assert (Hc1 : epochCounter_ r1 = epochCounter_ r) by apply (erased_counter f (bumped r)).
    pose proof (publishedEntry_fresh f session publisher requestID handle now (nextForwarder r) r1) as Hfresh.
    eexists _, _. split; [done|]. split_and!.
    + eapply (added_ok owned (map ticketKey l)); [exact Hok1| |lia|exact Hfresh|by right].
      unfold r1. rewrite erased_subscriptions. apply lookup_delete_eq.
    + etrans; [exact Hav1|]. eapply added_advances; [apply Hok1|exact Hfresh].
    + cbn. lia.
  - destruct (filters r !! n) as [t|] eqn:En; [|by apply step_same].
    apply onRegistry_ok, chainCall_ok; [exact Hok|exists t; exact En].
  - by apply onRegistry_ok, onEmptyImpl_ok.
  - apply onRegistry_ok. destruct (forwardChangedImpl_ok f fwd _ r Hok) as [evs E]. exists evs, r.
    split; [done|]. by apply unchanged_ok.
  - apply onRegistry_ok. destruct (newGroupRequestedImpl_ok f g _ r Hok) as [evs E]. exists evs, r.
    split; [done|]. by apply unchanged_ok.
  - apply onRegistry_ok. cbn [rg_registry]. unfold dropSubscriptionsFrom, removeIf.
    destruct (removeWhere_ok (fun e => bool_decide (ns `prefix_of` trackNamespace (vw_ftn e)) &&
      match vw_upstream e with Some s => sessionId s =? sid | None => false end) (map_to_list (subscriptions_ r)) _ r Hok)
      as (r' & E & Hok' & Hav & Hc').
    eexists _, r'. split; [|split_and!; [done..|lia]].
    rewrite (bind_run _ _ r tt r'); [done|]. by rewrite (bind_run _ _ r r r).
Qed.

Lemma reg_run_ok ops : forall s,
  sys_ok s -> epochCounter_ (rg_registry s) + Z.of_nat (length ops) < u64_modulus ->
  exists s' evs, reg_run mode activityThreshold hasCache getExecutor sessionId ops s = Some (s', evs) /\ sys_ok s' /\
    advances (rg_registry s) (rg_registry s') /\
    epochCounter_ (rg_registry s') <= epochCounter_ (rg_registry s) + Z.of_nat (length ops).
Proof.
  induction ops as [|op ops IH]; intros s Hok Hc; cbn [reg_run length] in *.
  { exists s, []. split_and!; [done|done|reflexivity|lia]. }
  destruct (reg_step_ok op s Hok) as (s1 & evs & E & Hok1 & Hav1 & Hc1); [lia|]. rewrite E.
  destruct (IH s1 Hok1) as (s2 & evs' & E' & Hok2 & Hav2 & Hc2); [lia|]. rewrite E'.
  exists s2, (evs ++ evs'). split_and!; [done|done|by etrans|lia].
Qed.

Definition startSys : RegSys := mkRegSys emptyRegistry [].
Lemma startSys_ok : sys_ok startSys.
Proof. apply reg_ok_empty. Qed.

(** (C13) The registry over any sequence of subscribes, publishes, objects, ends of
    tracks and departures, in any mode, as long as fewer than 2^64 entries are
    made.  No operation aborts: a promise is never fulfilled twice, the checks of
    the relay on the publisher's executor and on the ownership of a forwarder
    hold, and no filter writes through a dangling activity pointer.  And at the
    end: a subscriber still waits only if the subscribe that created the entry
    it waits for is in flight; an entry with a handle has its upstream session;
    an activity pointer points into the entry of its own filter. *)
Theorem registry_run_safe (ops : list RegOp) :
  Z.of_nat (length ops) < u64_modulus ->
  exists s evs, reg_run mode activityThreshold hasCache getExecutor sessionId ops startSys = Some (s, evs) /\
    let r := rg_registry s in
    (forall f p, is_Some (heap (promises r) !! p) -> awaitSubsequent f p r = StillWaiting ->
       exists t e, t ∈ rg_inflight s /\ subscriptions_ r !! if_ftn t = Some e /\
         rs_promise e = p /\ rs_epoch e = if_epoch t) /\
    (forall f e, subscriptions_ r !! f = Some e -> is_Some (rs_handle e) -> is_Some (rs_upstream e)) /\
    (forall n t ep, filters r !! n = Some t -> activityTarget_ t = Some ep ->
       exists f e, subscriptions_ r !! f = Some e /\ rs_epoch e = ep /\ rs_topNFilter e = Some n).
Proof.
  intros Hlen. destruct (reg_run_ok ops startSys startSys_ok) as (s & evs & E & Hok & _ & _); [cbn; lia|].
  exists s, evs. split; [done|]. cbv zeta. split_and!; [|apply (ro_handle _ _ _ Hok)|apply (ro_target _ _ _ Hok)].
  intros f p [st Hp] Hwait. unfold awaitSubsequent in Hwait. rewrite Hp in Hwait.
  destruct st; [|by destruct (subscriptions_ (rg_registry s) !! f)|done|done].
  destruct (ro_pending _ _ _ Hok p Hp) as (f' & e & Hf & He).
  pose proof (ro_promise _ _ _ Hok f' e Hf) as Hpe. rewrite He, Hp in Hpe.
  destruct (decide _) as [Hin|]; [|done].
  apply list_elem_of_In, in_map_iff in Hin as (t & Ht & Hin%list_elem_of_In). injection Ht as Hft Hep.
  exists t, e. rewrite Hft. split_and!; done.
Qed.

(** The entry under [f] has the epoch [ep] exactly if it has the promise [p]. *)
Lemma advances_linked f ep p r r' :
  advances r r' -> ep <= epochCounter_ r -> p < nextPromise (promises r) ->
  (forall e, subscriptions_ r !! f = Some e -> rs_epoch e = ep <-> rs_promise e = p) ->
  forall e, subscriptions_ r' !! f = Some e -> rs_epoch e = ep <-> rs_promise e = p.
Proof.
  intros Hav Hep Hp Hl e [(e0 & H & -> & ->)|[H1 H2]]%(av_entries _ _ Hav); [by apply Hl|]. lia.
Qed.

(** (C21) A subscribe in flight answers for its own entry only.  A SUBSCRIBE
    creates the entry of its track, with a promise on which later subscribers
    wait; then anything happens, among others publishers that replace the entry
    and subscribes that create it again.  When upstream answers, completing the
    ticket succeeds exactly if the entry under the name is still the one with
    that promise: it then fulfils this promise, no other promise and no other
    entry changes; otherwise nothing changes at all. *)
Theorem complete_own_entry (ops ops' : list RegOp) f u now s1 evs1 s2 fwd c t s3 evs3 handle requestID publisher :
  Z.of_nat (length ops + length ops') + 1 < u64_modulus ->
  reg_run mode activityThreshold hasCache getExecutor sessionId ops startSys = Some (s1, evs1) ->
  reg_step mode activityThreshold hasCache getExecutor sessionId (OpSubscribe f (Some u) now) s1 =
    Some (s2, [Attached (FirstSubscriber fwd c t)]) ->
  reg_run mode activityThreshold hasCache getExecutor sessionId ops' s2 = Some (s3, evs3) ->
  mkInFlight (up_ftn t) (up_epoch t) u ∈ rg_inflight s3 ->
  exists p e2 ok r',
    subscriptions_ (rg_registry s2) !! f = Some e2 /\ rs_promise e2 = p /\
    complete t (Some handle) requestID (Some u) publisher (rg_registry s3) =
      Some ((ok, mkPending f (up_epoch t) false), r') /\
    (ok = true <-> exists e, subscriptions_ (rg_registry s3) !! f = Some e /\ rs_promise e = p) /\
    (ok = false -> r' = rg_registry s3) /\
    (ok = true -> heap (promises r') = <[p := Value]> (heap (promises (rg_registry s3))) /\
       forall f', f' <> f -> subscriptions_ r' !! f' = subscriptions_ (rg_registry s3) !! f').
Proof.
  intros Hlen E1 E2 E3 Hin.
  destruct (reg_run_ok ops startSys startSys_ok) as (s1' & evs1' & E1' & Hok1 & _ & Hc1); [cbn; lia|].
  rewrite E1 in E1'. injection E1' as <- <-. cbn in Hc1.
  destruct s1 as [r1 l1]. cbn [rg_registry] in *. pose proof (ro_counter _ _ _ Hok1) as H0. cbn in H0.
  destruct (reg_step_ok (OpSubscribe f (Some u) now) _ Hok1) as (s2' & evs2' & E2' & Hok2 & _ & Hc2); [cbn; lia|].
  rewrite E2 in E2'. injection E2' as <- <-. cbn in Hc2.
  cbn [reg_step rg_registry rg_inflight] in E2. rewrite subscribe_run in E2 by lia.
  destruct (subscriptions_ r1 !! f) as [e1|] eqn:Ef; [done|]. injection E2 as <- <- <- <-.
  set (e2 := subscribedEntry f u now r1) in *. set (r2 := added f e2 _ _ _ r1) in *. cbn [up_ftn up_epoch] in *.
  destruct (reg_run_ok ops' _ Hok2) as (s3' & evs3' & E3' & Hok3 & Hav3 & Hc3); [cbn in Hc2 |- *; lia|].
  rewrite E3 in E3'. injection E3' as <- <-. cbn [rg_registry] in Hav3.
  assert (Hlink : forall e, subscriptions_ (rg_registry s3) !! f = Some e ->
    rs_epoch e = epochCounter_ r1 + 1 <-> rs_promise e = nextPromise (promises r1)).
  { eapply advances_linked; [exact Hav3|cbn; lia..|]. intros e. cbn. rewrite lookup_insert_eq. by intros [= <-]. }
  assert (Htk : (f, epochCounter_ r1 + 1) ∈ tickets s3).
  { apply list_elem_of_In. change (f, epochCounter_ r1 + 1) with (ticketKey (mkInFlight f (epochCounter_ r1 + 1) u)).
    apply in_map, list_elem_of_In, Hin. }
  exists (nextPromise (promises r1)), e2. rewrite complete_run.
  destruct (subscriptions_ (rg_registry s3) !! f) as [e3|] eqn:E3f.
  2: { exists false, (rg_registry s3). split; [apply lookup_insert_eq|]. split_and!; try done.
    split; [done|]. by intros (e & He & _). }
  specialize (Hlink e3 eq_refl). destruct (Z.eqb_spec (rs_epoch e3) (epochCounter_ r1 + 1)) as [He|Hne].
  - pose proof (ro_promise _ _ _ Hok3 f e3 E3f) as Hp. rewrite decide_True in Hp by (by rewrite He).
    rewrite (fulfil_some _ _ _ Hp). eexists true, _. split; [apply lookup_insert_eq|]. split; [done|]. split; [done|].
    apply Hlink in He. split_and!; [|done|].
    + split; [|done]. intros _. by exists e3.
    + intros _. cbn. rewrite He. split; [done|]. intros f' Hne. by rewrite lookup_insert_ne.
  - exists false, (rg_registry s3). split; [apply lookup_insert_eq|]. split_and!; try done.
    split; [done|]. intros (e & [= <-] & Hp). by apply Hlink in Hp.
Qed.
(** ** The end of a track *)
Lemma touchAll_none acts : (forall target now, ~ In (Touch target now) acts) -> forall r, touchAll acts r = Some (tt, r).
Proof.
  induction acts as [|a acts IH]; intros H r; [done|]. cbn [touchAll].
  destruct a; try (apply IH; intros tg nw Hin; by destruct (H tg nw); right). by destruct (H target now); left.
Qed.
Lemma publishDone_acts n t now r : filters r !! n = Some t ->
  filterCall n PublishDone now r =
    Some (notifyTrackEnded t ++ [Forward PublishDone], set_filters (<[n := set_ended true t]> (filters r)) r).
Proof.
  intros Hn. unfold filterCall. rewrite (bind_run _ _ r r r) by done. rewrite Hn, (bind_run _ _ r t r) by done.
  cbn [onCall publishDone]. change (notifyTrackEnded (set_ended true t)) with (notifyTrackEnded t).
  set (r1 := set_filters _ r). rewrite (bind_run _ _ r tt r1) by done. rewrite (bind_run _ _ r1 tt r1); [done|].
  apply touchAll_none. intros target at_ [Hin|[?|[]]]%in_app_iff; [|done].
  unfold notifyTrackEnded in Hin. apply list_elem_of_In, list_elem_of_omap in Hin as (q & _ & Hq). by destruct (onTrackEnded _).
Qed.

(** What is left of the entry. *)
Definition emptied (empty : fref -> bool) (e : RelaySubscription) : bool :=
  isLocalForwarder mode || match getIfOwned (rs_forwarder e) with Some x => empty x | None => false end.

End theorems.

(** ** Examples *)
(** Sessions 1 and 2 run on the executors 11 and 12; the property type is 7. *)
Definition execOf (s : Session) : Z := s + 10.
Abbreviation runMode m := (reg_run m 100 false execOf id).
Definition allLeft : fref -> bool := fun _ => true.
Definition stillWatched : fref -> bool := fun _ => false.

(** ** Witnesses *)
Definition levelObserver : PropertyObserver := mkObserver (Some 0) (Some 0) (Some 0).
Definition level (v : Z) : TrackCall := SubgroupObject [(7, v)].

Lemma observer_told_changes_witness :
  is_Some (onValueChanged levelObserver) /\
  told 7 (onCalls [(0, level 3); (1, level 3); (2, Datagram []); (3, level 5); (4, PublishDone); (5, level 3)]
            (registerObserver 7 levelObserver (newTopNFilter video))).2 = [3; 5; 3].
Proof.
  split; [by exists 0|]. rewrite (observer_told_changes 7 levelObserver (newTopNFilter video));
    [vm_compute; reflexivity|constructor|by exists 0].
Defined.

(** A subscribe in flight, a publisher that takes its place, an object, the end. *)
Definition runOps : list RegOp :=
  [OpSubscribe video (Some 1) 0; OpSubscribe video (Some 1) 1; OpPublish video 2 None 4 40 2;
   OpChainCall stillWatched 1 (level 3) 3; OpChainCall stillWatched 1 PublishDone 4; OpEmpty video].

Lemma registry_run_safe_witness :
  Z.of_nat (length runOps) < u64_modulus /\
  exists s evs, runMode RelayExec runOps startSys = Some (s, evs) /\
    let r := rg_registry s in
    (forall f p, is_Some (heap (promises r) !! p) -> awaitSubsequent f p r = StillWaiting ->
       exists t e, t ∈ rg_inflight s /\ subscriptions_ r !! if_ftn t = Some e /\
         rs_promise e = p /\ rs_epoch e = if_epoch t) /\
    (forall f e, subscriptions_ r !! f = Some e -> is_Some (rs_handle e) -> is_Some (rs_upstream e)) /\
    (forall n t ep, filters r !! n = Some t -> activityTarget_ t = Some ep ->
       exists f e, subscriptions_ r !! f = Some e /\ rs_epoch e = ep /\ rs_topNFilter e = Some n).
Proof. split; [vm_compute; reflexivity|]. apply (registry_run_safe RelayExec 100 false execOf id runOps). vm_compute. reflexivity. Defined.

(** The subscribe of session 1 is in flight when session 2 publishes the track. *)
Definition flying : InFlight := mkInFlight video 1 1.
Definition sysAfter (m : Mode) (ops : list RegOp) : RegSys := default startSys (fst <$> runMode m ops startSys).
Definition evsAfter (m : Mode) (ops : list RegOp) : list RelayEvent := default [] (snd <$> runMode m ops startSys).

Lemma complete_own_entry_witness :
  exists p e2 ok r',
    subscriptions_ (rg_registry (sysAfter SingleThread [OpSubscribe video (Some 1) 0])) !! video = Some e2 /\ rs_promise e2 = p /\
    complete (mkPending video 1 true) (Some 30) 5 (Some 1) None
        (rg_registry (sysAfter SingleThread [OpSubscribe video (Some 1) 0; OpPublish video 2 None 4 40 2])) =
      Some ((ok, mkPending video 1 false), r') /\
    (ok = true <-> exists e, subscriptions_ (rg_registry (sysAfter SingleThread
       [OpSubscribe video (Some 1) 0; OpPublish video 2 None 4 40 2])) !! video = Some e /\ rs_promise e = p) /\
    (ok = false -> r' = rg_registry (sysAfter SingleThread [OpSubscribe video (Some 1) 0; OpPublish video 2 None 4 40 2])) /\
    (ok = true -> heap (promises r') = <[p := Value]> (heap (promises (rg_registry (sysAfter SingleThread
       [OpSubscribe video (Some 1) 0; OpPublish video 2 None 4 40 2])))) /\
       forall f', f' <> video -> subscriptions_ r' !! f' = subscriptions_ (rg_registry (sysAfter SingleThread
         [OpSubscribe video (Some 1) 0; OpPublish video 2 None 4 40 2])) !! f').
Proof.
  apply (complete_own_entry SingleThread 100 false execOf id [] [OpPublish video 2 None 4 40 2] video 1 0 startSys []
    (sysAfter SingleThread [OpSubscribe video (Some 1) 0]) 0 (Some (ChainHead 0)) (mkPending video 1 true)
    (sysAfter SingleThread [OpSubscribe video (Some 1) 0; OpPublish video 2 None 4 40 2]) [] 30 5 None).
  - vm_compute. reflexivity.
  - reflexivity.
  - vm_compute. reflexivity.
  - vm_compute. reflexivity.
  - vm_compute. apply list_elem_of_here.
Defined.

(** ** The end of a replaced publisher *)
(** Session 1 publishes the track, then session 2 publishes it; its entry takes
    the place of the first.  Then the chain of the first publisher (filter 0)
    is told that its track ends. *)
Definition replaced : list RegOp := [OpPublish video 1 None 4 40 0; OpPublish video 2 None 5 50 1].

