(* ===== verification/RelayRequests.v ===== *)
(** The relay's request coroutines on top of its registry, its namespace trees and
    its parked subscriptions (MoqxRelay.cpp: [subscribeImpl],
    [rendezvousWithPublisherOrTimeout], [waitForUpstreams], [fetchImpl],
    [trackStatusImpl], [publish] and [publishWithSession], with the calls that the
    namespace handlers and the registry's handlers make on each other).

    The whole relay is one state: the namespace handlers ([RelaySystem]), the
    registry with its tickets ([RegistryRelay]), the tree of parked subscriptions
    ([Rendezvous]) and the coroutines that are suspended, each with a frame that
    holds its locals.  Everything runs on one executor, so a step is a run from
    one suspension point to the next.  What forwarders and upstream sessions
    answer, and the clock, are inputs of a step.  A publisher reference is named
    by its session ([maybeWrapPublisher]). *)

From S2P Require Import Prelude Location CacheState NamespaceTree NamespaceSpec Rendezvous.
From S2P Require Import RelayNamespaces RelaySystem Promise TopN Registry RegistryRelay.
Local Open Scope Z_scope.

Definition kDefaultUpstreamPriority : Z := 128.

(** ** What moxygen provides *)
Class RequestApi := {
  Params : Type;
  LocationFilter : Type;
  Fill : Type;
  getFirstIntParam : Params -> Z -> option Z;
  eraseAllParamsOfType : Params -> Z -> Params;
  RENDEZVOUS_TIMEOUT : Z;
  nextObject : LocationFilter;
  legacyEndGroup : LocationFilter -> option Z;
  useFillFetch : Z -> bool;
}.

(** ** Requests and answers *)
Section data.
Context {RA : RequestApi}.

Record SubscribeRequest := mkSubscribe {
  sq_requestID : Z;
  sq_fullTrackName : FullTrackName;
  sq_params : Params;
  sq_priority : Z;
  sq_groupOrder : option Z;
  sq_filter : LocationFilter;
  sq_fill : option Fill;
  sq_forward : bool;
}.
Definition set_params (p : Params) (q : SubscribeRequest) : SubscribeRequest :=
  mkSubscribe (sq_requestID q) (sq_fullTrackName q) p (sq_priority q) (sq_groupOrder q) (sq_filter q)
    (sq_fill q) (sq_forward q).

Record JoiningFetch := mkJoining { jf_joiningRequestID : option Z; jf_joiningStart : Z; jf_relative : bool }.
Inductive FetchArgs :=
  | StandaloneFetch (start end_ : AbsoluteLocation)
  | Joining (j : JoiningFetch).
Record Fetch := mkFetch {
  ft_requestID : Z;
  ft_fullTrackName : FullTrackName;
  ft_priority : Z;
  ft_args : FetchArgs;
}.
Definition set_args (a : FetchArgs) (q : Fetch) : Fetch :=
  mkFetch (ft_requestID q) (ft_fullTrackName q) (ft_priority q) a.
Definition set_priority (p : Z) (q : Fetch) : Fetch :=
  mkFetch (ft_requestID q) (ft_fullTrackName q) p (ft_args q).
Definition fetchType (q : Fetch) : option JoiningFetch :=
  match ft_args q with StandaloneFetch _ _ => None | Joining j => Some j end.

Record TrackStatus := mkStatus { ts_requestID : Z; ts_fullTrackName : FullTrackName }.

(** The error codes of the source; [UpstreamCode] is one that is passed on. *)
Inductive ErrorCode :=
  | DOES_NOT_EXIST | TIMEOUT | INTERNAL | INVALID_RANGE | NOT_INTERESTED | UpstreamCode (code : Z).
Record RequestError := mkError { er_requestID : Z; er_code : ErrorCode; er_reason : string }.

Record TrackStatusOk := mkStatusOk { so_requestID : Z; so_groupOrder : Z; so_largest : option AbsoluteLocation }.

(** What a forwarder answers when it is asked in a step: the number of forwarding
    subscribers after [addSubscriber] ([None] when that returns null), the number
    now, its largest location, its group order, and its answer to a joining fetch
    of a session. *)
Record Forwarder := mkForwarder {
  fw_addSubscriber : option Z;
  fw_numForwardingSubscribers : Z;
  fw_largest : option AbsoluteLocation;
  fw_groupOrder : Z;
  fw_resolveJoiningFetch : Z -> JoiningFetch -> result RequestError (AbsoluteLocation * AbsoluteLocation);
}.
Record Env := mkEnv { en_now : Z; en_forwarder : fref -> Forwarder }.

Record UpstreamOk := mkUpstreamOk { uo_handle : Z; uo_requestID : Z; uo_largest : option AbsoluteLocation }.
End data.

(** ** The state *)
Section relay.
Context {SA : SessionApi} {E : Type} {HC : HopCodec E} {RA : RequestApi} {EA : ExtensionsApi}.
Context (relayID_ : string) (relayHopID_ : Z) (allowedNamespacePrefix_ : list string).
Context (mode : Mode) (activityThreshold : Z) (hasCache : bool) (getExecutor : Session -> Z).
(** [upstreams_], each by a name. *)
Context (upstreams_ : list Z).

(** A suspended coroutine. *)
Inductive Frame :=
  | Parked (q : SubscribeRequest) (session : Session)
      (** in [rendezvousWithPublisherOrTimeout] *)
  | SubscribeWaits (q : SubscribeRequest) (session : Session) (links : list Z)
      (** in [waitForUpstreams]; the links whose wait has not ended *)
  | AwaitsUpstream (q : SubscribeRequest) (session : Session) (t : InFlight) (forwarder : fref)
      (** the first subscriber, for the answer of the upstream session *)
  | AwaitsFirst (q : SubscribeRequest) (session : Session) (future : pref)
      (** a later subscriber, for the first one *)
  | FetchWaits (q : Fetch) (session : Session) (links : list Z)
  | StatusReads (q : TrackStatus) (session : Session) (view : UpstreamView)
      (** on the executor of the publisher *)
  | StatusWaits (q : TrackStatus) (session : Session) (links : list Z).

(** [batons]: the waiters that have been signalled. *)
Record Relay := mkRelay {
  rl_ns : RelaySys;
  rl_reg : RegSys;
  pendingRendezvous_ : Node;
  batons : gset Z;
  frames : gmap Z Frame;
  nextRequest : Z;
}.
Definition newRelay : Relay := mkRelay newRelaySys (mkRegSys emptyRegistry []) emptyNode ∅ ∅ 0.

Definition set_ns n (s : Relay) : Relay := mkRelay n (rl_reg s) (pendingRendezvous_ s) (batons s) (frames s) (nextRequest s).
Definition set_reg r (s : Relay) : Relay := mkRelay (rl_ns s) r (pendingRendezvous_ s) (batons s) (frames s) (nextRequest s).
Definition set_pending t b (s : Relay) : Relay := mkRelay (rl_ns s) (rl_reg s) t b (frames s) (nextRequest s).
Definition set_frames m (s : Relay) : Relay :=
  mkRelay (rl_ns s) (rl_reg s) (pendingRendezvous_ s) (batons s) m (nextRequest s).

Definition theTree (s : Relay) : NamespaceTree := namespaceTree_ (rs_relay (rl_ns s)).
Definition theRegistry (s : Relay) : SubscriptionRegistry := rg_registry (rl_reg s).

(** The answer to a request: [PassedOn] is whatever the publisher answers that the
    request was handed to, [Raised] an exception (also a cancellation). *)
Inductive Reply :=
  | Refused (e : RequestError)
  | Attached_ (f : FullTrackName) (forwarder : fref)
  | Status (ok : TrackStatusOk)
  | PassedOn
  | Raised.

(** What a step does to the outside. *)
Inductive Event :=
  | Replied (rid : Z) (session : Session) (r : Reply)
  | WaitsFor (rid timeout : Z)
  | Signalled (waiter : Z)
  | CancelsWaits (rid : Z)
  | SendsSubscribe (rid : Z) (session upstream : Session) (q : SubscribeRequest) (consumer : option ConsumerRef)
  | SendsFetch (rid : Z) (session publisher : Session) (throughCache : bool) (q : Fetch)
  | SendsTrackStatus (rid : Z) (session publisher : Session) (q : TrackStatus)
  | AppliesOk (forwarder : fref) (largest : option AbsoluteLocation)
  | AppliesOkToSubscriber (rid : Z) (largest : option AbsoluteLocation)
  | TriesNewGroup (forwarder : fref) (fire : bool)
  | RequestsFill (forwarder : fref) (requestID : Z) (fill : Fill)
  | PublishRefused (e : RequestError)
  | OfNamespaces (a : RelayAct E)
  | OfRegistry (e : RelayEvent).

Abbreviation R := (M Relay).

(** ** Calls between the parts *)
Definition regStep (op : RegOp) : R (list RelayEvent) := fun s =>
  match reg_step mode activityThreshold hasCache getExecutor sessionId op (rl_reg s) with
  | Some (r, evs) => Some (evs, set_reg r s)
  | None => None
  end.

(** The waiters are signalled once the tree has been changed. *)
Definition wake (woken : Node * list Z) : R (list Event) :=
  modify (fun s => set_pending woken.1 (list_to_set woken.2 ∪ batons s) s);;
  mret (map Signalled woken.2).

(** What a namespace handler asks of the rest of the relay. *)
Definition performAct (a : RelayAct E) : R (list Event) :=
  match a with
  | DropSubscriptionsFrom ns sid =>
    regStep (OpDropFrom ns sid);; mret [OfNamespaces a]
  | WakeUnderNamespace ns => s ← get; wake (wakeUnderNamespace ns (pendingRendezvous_ s))
  | WakeForTrack f => s ← get; wake (wakeForTrack f (pendingRendezvous_ s))
  | _ => mret [OfNamespaces a]
  end.
Fixpoint performActs (acts : list (RelayAct E)) : R (list Event) :=
  match acts with
  | [] => mret []
  | a :: acts => evs ← performAct a; evs' ← performActs acts; mret (evs ++ evs')
  end.

Definition nsStep (op : NsRelayOp E) : R (list Event) :=
  s ← get;
  '(acts, ns) ← deref (relay_step relayID_ relayHopID_ allowedNamespacePrefix_ op (rl_ns s));
  modify (set_ns ns);;
  performActs acts.

(** What a handler of the registry asks of the namespace tree. *)
Definition performEvent (e : RelayEvent) : R (list Event) :=
  match e with
  | UnpublishTrack f => evs ← nsStep (RPublishDone f); mret (OfRegistry e :: evs)
  | _ => mret [OfRegistry e]
  end.
Fixpoint performEvents (evs : list RelayEvent) : R (list Event) :=
  match evs with
  | [] => mret []
  | e :: evs => es ← performEvent e; es' ← performEvents evs; mret (es ++ es')
  end.
Definition handle (op : RegOp) : R (list Event) := evs ← regStep op; performEvents evs.

Definition forwarderFor (s : Relay) (f : FullTrackName) : option Z :=
  forwarderOf (getForwarderRef f (theRegistry s)).

(** ** Routes *)
Definition noExclusion : RouteExclusion := mkExclusion None kMoQClusterAnonHopId.

Definition findUpstreamPublisher (ns : list string) (exclusion : option RouteExclusion) (s : Relay) : option Session :=
  findPublisherSession sessionId ns (default noExclusion exclusion) (theTree s).

Definition excludedFromSubscription (exclusion : option RouteExclusion) (f : FullTrackName) (s : Relay) : bool :=
  excludesSource exclusion (trackNamespace f) (upstreamSessionId sessionId f (theRegistry s)) (theTree s).

Definition emptyNamespaceAllowed {S} (session : Session) : M S bool :=
  version ← deref (getNegotiatedVersion session);
  mret (18 <=? getDraftMajorVersion version).

(** [ns.empty() && !emptyNamespaceAllowed(session)]. *)
Definition namespaceMissing {S} (f : FullTrackName) (session : Session) : M S bool :=
  if bool_decide (trackNamespace f = []) then allowed ← emptyNamespaceAllowed session; mret (negb allowed)
  else mret false.

(** ** Suspending and answering *)
Definition suspend (rid : Z) (fr : Frame) : R (list Event) :=
  modify (fun s => set_frames (<[rid := fr]> (frames s)) s);; mret [].
Definition reply (rid : Z) (session : Session) (r : Reply) : R (list Event) :=
  modify (fun s => set_frames (delete rid (frames s)) s);; mret [Replied rid session r].
Definition refuse (rid : Z) (session : Session) (requestID : Z) (code : ErrorCode) (reason : string) : R (list Event) :=
  reply rid session (Refused (mkError requestID code reason)).

(** ** SUBSCRIBE *)
Definition isV18Plus (session : Session) : bool :=
  match getNegotiatedVersion session with Some v => 18 <=? getDraftMajorVersion v | None => false end.

Definition makeUpstreamSubReq (base : SubscribeRequest) (forward : bool) (upstreamSession : Session) : SubscribeRequest :=
  mkSubscribe 0 (sq_fullTrackName base)
    (if isV18Plus upstreamSession then eraseAllParamsOfType (sq_params base) RENDEZVOUS_TIMEOUT else sq_params base)
    kDefaultUpstreamPriority None nextObject None forward.

Definition checkRangeNotInPast (fwd : Forwarder) (q : SubscribeRequest) (session : Session) : option RequestError :=
  if useFillFetch (default 0 (getNegotiatedVersion session)) then None
  else match fw_largest fwd, legacyEndGroup (sq_filter q) with
       | Some largest, Some endGroup =>
         if endGroup <? group largest
         then Some (mkError (sq_requestID q) INVALID_RANGE "Range in the past, use FETCH") else None
       | _, _ => None
       end.

Definition requestFill (forwarder : fref) (q : SubscribeRequest) : list Event :=
  match sq_fill q with Some fill => [RequestsFill forwarder (sq_requestID q) fill] | None => [] end.

Definition attachSubscriber (rid : Z) (q : SubscribeRequest) (session : Session) (forwarder : fref) (en : Env) : R (list Event) :=
  match fw_addSubscriber (en_forwarder en forwarder) with
  | None => refuse rid session (sq_requestID q) INTERNAL "failed to add subscriber"
  | Some _ =>
    evs ← reply rid session (Attached_ (sq_fullTrackName q) forwarder);
    mret (TriesNewGroup forwarder true :: requestFill forwarder q ++ evs)
  end.

(** A later subscriber, when it is resumed (or does not have to wait). *)
Definition resumeSubsequent (rid : Z) (q : SubscribeRequest) (session : Session) (future : pref) (en : Env) : R (list Event) :=
  s ← get;
  let f := sq_fullTrackName q in
  match awaitSubsequent f future (theRegistry s) with
  | StillWaiting => suspend rid (AwaitsFirst q session future)
  | Threw => reply rid session Raised
  | Joined ref =>
    if excludedFromSubscription (exclusionFor (Some session)) f s
    then refuse rid session (sq_requestID q) DOES_NOT_EXIST "track is served through the requester"
    else
      forwarder ← deref (getIfOwned ref);
      match checkRangeNotInPast (en_forwarder en forwarder) q session with
      | Some e => reply rid session (Refused e)
      | None => attachSubscriber rid q session forwarder en
      end
  end.

(** The ticket of the first subscriber is destroyed with its coroutine. *)
Definition firstSubscriber (rid : Z) (q : SubscribeRequest) (session upstream : Session) (forwarder : fref)
    (consumer : option ConsumerRef) (pending : UpstreamSubscribePending) (en : Env) : R (list Event) :=
  let t := mkInFlight (up_ftn pending) (up_epoch pending) upstream in
  match fw_addSubscriber (en_forwarder en forwarder) with
  | None =>
    regStep (OpAbandon t);;
    refuse rid session (sq_requestID q) INTERNAL "failed to add subscriber"
  | Some numForwarding =>
    evs ← suspend rid (AwaitsUpstream q session t forwarder);
    mret (SendsSubscribe rid session upstream (makeUpstreamSubReq q (0 <? numForwarding) upstream) consumer :: evs)
  end.

(** From the lookup in the registry on. *)
Definition joinOrSubscribe (rid : Z) (q : SubscribeRequest) (session : Session) (en : Env) : R (list Event) :=
  s ← get;
  let f := sq_fullTrackName q in
  let upstream := findUpstreamPublisher (trackNamespace f) (exclusionFor (Some session)) s in
  evs ← regStep (OpSubscribe f upstream (en_now en));
  match evs with
  | [Attached (FirstSubscriber forwarder consumer pending)] =>
    u ← deref upstream; firstSubscriber rid q session u forwarder consumer pending en
  | [Attached (SubsequentSubscriber _ future)] => resumeSubsequent rid q session future en
  | _ => refuse rid session (sq_requestID q) DOES_NOT_EXIST "no such namespace or track"
  end.

(** Once the rendezvous is over, or there was none. *)
Definition subscribeResolved (rid : Z) (q : SubscribeRequest) (session : Session) (en : Env) : R (list Event) :=
  s ← get;
  let f := sq_fullTrackName q in
  if negb (registry_exists f (theRegistry s)) && negb (bool_decide (upstreams_ = [])) &&
     negb (bool_decide (is_Some (findUpstreamPublisher (trackNamespace f) (exclusionFor (Some session)) s)))
  then suspend rid (SubscribeWaits q session upstreams_)
  else joinOrSubscribe rid q session en.

Definition rendezvousWithPublisherOrTimeout (rid : Z) (q : SubscribeRequest) (session : Session) (timeout : Z)
    (en : Env) : R (list Event) :=
  s ← get;
  let f := sq_fullTrackName q in
  if registry_exists f (theRegistry s) || bool_decide (is_Some (findUpstreamPublisher (trackNamespace f) None s))
  then subscribeResolved rid q session en
  else
    modify (fun s => set_pending (addWaiter f rid (pendingRendezvous_ s)) (batons s) s);;
    evs ← suspend rid (Parked q session);
    mret (WaitsFor rid timeout :: evs).

Definition subscribeImpl (rid : Z) (q : SubscribeRequest) (session : Session) (en : Env) : R (list Event) :=
  missing ← namespaceMissing (sq_fullTrackName q) session;
  if (missing : bool) then refuse rid session (sq_requestID q) DOES_NOT_EXIST "namespace required"
  else
    let '(timeout, params) := takeRendezvousTimeout getFirstIntParam eraseAllParamsOfType getDraftMajorVersion
      RENDEZVOUS_TIMEOUT (sq_params q) (getNegotiatedVersion session) in
    let q := set_params params q in
    match timeout with
    | Some timeout => rendezvousWithPublisherOrTimeout rid q session timeout en
    | None => subscribeResolved rid q session en
    end.

(** How the wait of a parked subscriber ends; the guard erases the waiter. *)
Inductive WaitEnd := Woken | TimedOut | Cancelled | Failed (what : string).

Definition eraseParked (rid : Z) (f : FullTrackName) : R unit :=
  modify (fun s => set_pending (eraseWaiter f rid (pendingRendezvous_ s)) (batons s ∖ {[rid]}) s).

Definition rendezvousEnds (rid : Z) (q : SubscribeRequest) (session : Session) (how : WaitEnd) (en : Env) : R (list Event) :=
  s ← get;
  match how with
  | Woken =>
    if decide (rid ∈ batons s) then eraseParked rid (sq_fullTrackName q);; subscribeResolved rid q session en
    else mret []
  | TimedOut =>
    eraseParked rid (sq_fullTrackName q);;
    refuse rid session (sq_requestID q) TIMEOUT "rendezvous timeout expired"
  | Cancelled => eraseParked rid (sq_fullTrackName q);; reply rid session Raised
  | Failed what =>
    eraseParked rid (sq_fullTrackName q);;
    refuse rid session (sq_requestID q) INTERNAL ("rendezvous wait failed: " ++ what)
  end.

(** The answer to the SUBSCRIBE that went upstream, applied to the forwarder. *)
Definition subscribeUpstreamAndApplyOk (answer : result (Z * string) UpstreamOk) (forwarder : fref) (clientRequestID : Z)
  : result RequestError (UpstreamOk * list Event) :=
  match answer with
  | Err (code, reason) => Err (mkError clientRequestID (UpstreamCode code) ("upstream subscribe failed: " ++ reason))
  | Ok ok => Ok (ok, [AppliesOk forwarder (uo_largest ok); TriesNewGroup forwarder false])
  end.

(** The rest of the first subscriber. *)
Definition upstreamAnswers (rid : Z) (q : SubscribeRequest) (session : Session) (t : InFlight) (forwarder : fref)
    (answer : result (Z * string) UpstreamOk) : R (list Event) :=
  match subscribeUpstreamAndApplyOk answer forwarder (sq_requestID q) with
  | Err e => regStep (OpAbandon t);; reply rid session (Refused e)
  | Ok (ok, applied) =>
    let applied := applied ++ [AppliesOkToSubscriber rid (uo_largest ok)] in
    evs ← regStep (OpComplete t (uo_handle ok) (uo_requestID ok) (Some (if_upstream t)));
    match evs with
    | Completed true :: _ =>
      es ← reply rid session (Attached_ (sq_fullTrackName q) forwarder);
      mret (applied ++ map OfRegistry evs ++ requestFill forwarder q ++ es)
    | _ =>
      es ← refuse rid session (sq_requestID q) INTERNAL "publisher reconnected during subscribe";
      mret (applied ++ es)
    end
  end.

(** ** FETCH *)
(** Once the publisher is known. *)
Definition sendFetch (rid : Z) (q : Fetch) (session : Session) (publisher : option Session) : R (list Event) :=
  match publisher with
  | None => refuse rid session (ft_requestID q) DOES_NOT_EXIST "no upstream for fetch"
  | Some p =>
    evs ← reply rid session PassedOn;
    mret (SendsFetch rid session p (hasCache && bool_decide (fetchType q = None))
            (set_priority kDefaultUpstreamPriority q) :: evs)
  end.

(** The joining fetch of a session, outside LocalForwarder mode. *)
Definition resolveJoining (q : Fetch) (session : Session) (en : Env) : R (result RequestError Fetch) :=
  match fetchType q with
  | None => mret (Ok q)
  | Some j =>
    if isLocalForwarder mode then mret (Ok q)
    else
      s ← get;
      match getFetchView (ft_fullTrackName q) (theRegistry s) with
      | None => mret (Err (mkError (ft_requestID q) DOES_NOT_EXIST "No subscription for joining fetch"))
      | Some v =>
        if fv_isReady v then
          forwarder ← deref (getIfOwned (fv_forwarder v));
          mret (match fw_resolveJoiningFetch (en_forwarder en forwarder) (sessionId session) j with
                | Err e => Err e
                | Ok (start, end_) => Ok (set_args (StandaloneFetch start end_) q)
                end)
        else mret (Ok (set_args (Joining (mkJoining None (jf_joiningStart j) (jf_relative j))) q))
      end
  end.

Definition fetchImpl (rid : Z) (q : Fetch) (session : Session) (en : Env) : R (list Event) :=
  missing ← namespaceMissing (ft_fullTrackName q) session;
  if (missing : bool) then refuse rid session (ft_requestID q) DOES_NOT_EXIST "namespace required"
  else
    xcheck (bool_decide (fetchType q = None) || negb (useFillFetch (default 0 (getNegotiatedVersion session))));;
    resolved ← resolveJoining q session en;
    match resolved with
    | Err e => reply rid session (Refused e)
    | Ok q =>
      s ← get;
      let f := ft_fullTrackName q in
      let exclusion := exclusionFor (Some session) in
      match getFetchView f (theRegistry s), excludedFromSubscription exclusion f s with
      | Some v, false => sendFetch rid q session (fv_publisher v)
      | _, _ =>
        match findUpstreamPublisher (trackNamespace f) exclusion s with
        | Some u => sendFetch rid q session (Some u)
        | None =>
          if bool_decide (upstreams_ = []) then sendFetch rid q session None
          else suspend rid (FetchWaits q session upstreams_)
        end
      end
    end.

(** ** TRACK_STATUS *)
Definition buildTrackStatusOk (fwd : Forwarder) (q : TrackStatus) : TrackStatusOk :=
  mkStatusOk (ts_requestID q) (fw_groupOrder fwd) (fw_largest fwd).

Definition sendTrackStatus (rid : Z) (q : TrackStatus) (session : Session) (publisher : option Session) : R (list Event) :=
  match publisher with
  | None => refuse rid session (ts_requestID q) DOES_NOT_EXIST "no such namespace or track"
  | Some p => evs ← reply rid session PassedOn; mret (SendsTrackStatus rid session p q :: evs)
  end.

(** The path to upstream, with the view from before any suspension. *)
Definition statusUpstream (rid : Z) (q : TrackStatus) (session : Session) (view : option UpstreamView) : R (list Event) :=
  s ← get;
  let f := ts_fullTrackName q in
  let exclusion := exclusionFor (Some session) in
  match view, excludedFromSubscription exclusion f s with
  | Some v, false => sendTrackStatus rid q session (uv_publisher v)
  | _, _ =>
    match findUpstreamPublisher (trackNamespace f) exclusion s with
    | Some u => sendTrackStatus rid q session (Some u)
    | None =>
      if bool_decide (upstreams_ = []) then sendTrackStatus rid q session None
      else suspend rid (StatusWaits q session upstreams_)
    end
  end.

Definition trackStatusImpl (rid : Z) (q : TrackStatus) (session : Session) (en : Env) : R (list Event) :=
  missing ← namespaceMissing (ts_fullTrackName q) session;
  if (missing : bool) then refuse rid session (ts_requestID q) DOES_NOT_EXIST "namespace required"
  else
    s ← get;
    let view := getUpstreamView getExecutor (ts_fullTrackName q) (theRegistry s) in
    match view with
    | None => statusUpstream rid q session view
    | Some v =>
      if isLocalForwarder mode then
        match uv_publisherExec v with
        | Some _ => suspend rid (StatusReads q session v)
        | None => statusUpstream rid q session view
        end
      else
        match getIfOwned (uv_forwarder v) with
        | Some forwarder =>
          if 0 <? fw_numForwardingSubscribers (en_forwarder en forwarder)
          then reply rid session (Status (buildTrackStatusOk (en_forwarder en forwarder) q))
          else statusUpstream rid q session view
        | None => statusUpstream rid q session view
        end
    end.

(** [readPublisherForwarderStatus] has answered: [ready] is the forwarder of the
    publisher's thread. *)
Definition statusRead (rid : Z) (q : TrackStatus) (session : Session) (view : UpstreamView) (ready : option Forwarder)
  : R (list Event) :=
  match ready with
  | Some fwd =>
    if fw_numForwardingSubscribers fwd =? 0 then statusUpstream rid q session (Some view)
    else reply rid session (Status (buildTrackStatusOk fwd q))
  | None => statusUpstream rid q session (Some view)
  end.

(** ** The wait for the upstream links

    Each wait ends by itself and then asks whether there is a route, which
    cancels the others (their waits then end as well); the coroutine goes on when
    all have ended, with the route that was found last. *)
Definition cancels (rid : Z) (found : option Session) : list Event :=
  if bool_decide (is_Some found) then [CancelsWaits rid] else [].

Definition upstreamWaitEnds (rid link : Z) (fr : Frame) (en : Env) : R (list Event) :=
  s ← get;
  match fr with
  | SubscribeWaits q session links =>
    if decide (link ∈ links) then
      let links := filter (fun x => x <> link) links in
      let found := findUpstreamPublisher (trackNamespace (sq_fullTrackName q)) (exclusionFor (Some session)) s in
      evs ← (if bool_decide (links = []) then joinOrSubscribe rid q session en
             else suspend rid (SubscribeWaits q session links));
      mret (cancels rid found ++ evs)
    else mret []
  | FetchWaits q session links =>
    if decide (link ∈ links) then
      let links := filter (fun x => x <> link) links in
      let found := findUpstreamPublisher (trackNamespace (ft_fullTrackName q)) (exclusionFor (Some session)) s in
      evs ← (if bool_decide (links = []) then sendFetch rid q session found
             else suspend rid (FetchWaits q session links));
      mret (cancels rid found ++ evs)
    else mret []
  | StatusWaits q session links =>
    if decide (link ∈ links) then
      let links := filter (fun x => x <> link) links in
      let found := findUpstreamPublisher (trackNamespace (ts_fullTrackName q)) (exclusionFor (Some session)) s in
      evs ← (if bool_decide (links = []) then sendTrackStatus rid q session found
             else suspend rid (StatusWaits q session links));
      mret (cancels rid found ++ evs)
    else mret []
  | _ => mret []
  end.

(** ** PUBLISH, outside LocalForwarder mode *)
Definition validatePublishNamespace (f : FullTrackName) (requestID : Z) (allowEmpty : bool) : option RequestError :=
  if negb (bool_decide (allowedNamespacePrefix_ `prefix_of` trackNamespace f))
  then Some (mkError requestID NOT_INTERESTED "bad namespace")
  else if bool_decide (trackNamespace f = []) && negb allowEmpty
  then Some (mkError requestID INTERNAL "namespace required")
  else None.

(** The forwarder is the next one the registry numbers. *)
Definition publish (f : FullTrackName) (session : Session) (requestID handle_ now : Z) : R (list Event) :=
  allowEmpty ← emptyNamespaceAllowed session;
  match validatePublishNamespace f requestID allowEmpty with
  | Some e => mret [PublishRefused e]
  | None =>
    xcheck (negb (isLocalForwarder mode));;
    s ← get;
    let forwarder := nextForwarder (theRegistry s) in
    evs ← handle (OpPublish f session (Some session) requestID handle_ now);
    acts ← nsStep (RPublish f session forwarder);
    mret (evs ++ acts)
  end.

(** ** Steps *)
Inductive Op :=
  | Announce (pubNs : PublishNamespace E) (session : Session) (callback : option Callback) (peerID : string)
  | Withdraw (ns : list string) (sid : Z) (requestID : option Z)
  | UpdateAnnounced (ns : list string) (sid requestID : Z) (update : RouteParams E)
  | SubscribeNs (q : SubscribeNamespace) (session : Session) (withHandle reciprocated : bool) (fresh : RankingRef)
  | UnsubscribeNs (nsp : list string) (session : Session)
  | SubscribeTr (q : SubscribeTracks) (session : Session)
  | UnsubscribeTr (nsp : list string) (session : Session)
  | Publish (f : FullTrackName) (session : Session) (requestID handle_ now : Z)
  | CallChain (empty : fref -> bool) (n : nref) (call : TrackCall) (now : Z)
  | Emptied (f : FullTrackName)
  | ForwardChanged (f : FullTrackName) (forward : bool)
  | NewGroupRequested (f : FullTrackName) (group : Z)
  | Subscribe (q : SubscribeRequest) (session : Session) (en : Env)
  | RequestFetch (q : Fetch) (session : Session) (en : Env)
  | RequestStatus (q : TrackStatus) (session : Session) (en : Env)
  | RendezvousEnds (rid : Z) (how : WaitEnd) (en : Env)
  | UpstreamWaitEnds (rid link : Z) (en : Env)
  | UpstreamAnswers (rid : Z) (answer : result (Z * string) UpstreamOk)
  | FirstAnswers (rid : Z) (en : Env)            (** the future is ready *)
  | StatusRead (rid : Z) (ready : option Forwarder)
  | Stops (rid : Z).                             (** cancelled while it awaits another subscribe *)

(** A new request has its number; the operations on a number do nothing when
    its coroutine is not at that suspension point. *)
Definition newRequest (k : Z -> R (list Event)) : R (list Event) := fun s =>
  k (nextRequest s) (mkRelay (rl_ns s) (rl_reg s) (pendingRendezvous_ s) (batons s) (frames s) (nextRequest s + 1)).

Definition relayStep (op : Op) : R (list Event) :=
  match op with
  | Announce pubNs session callback peerID => nsStep (RPublishNamespace pubNs session callback peerID)
  | Withdraw ns sid requestID => nsStep (RNamespaceDone ns sid requestID)
  | UpdateAnnounced ns sid requestID update => nsStep (RUpdateNamespace ns sid requestID update)
  | SubscribeNs q session withHandle reciprocated fresh =>
    s ← get; nsStep (RSubscribeNamespace q session withHandle reciprocated (forwarderFor s) fresh)
  | UnsubscribeNs nsp session => nsStep (RUnsubscribeNamespace nsp session)
  | SubscribeTr q session => s ← get; nsStep (RSubscribeTracks q session (forwarderFor s))
  | UnsubscribeTr nsp session => nsStep (RUnsubscribeTracks nsp session)
  | Publish f session requestID handle_ now => publish f session requestID handle_ now
  | CallChain empty n call now => handle (OpChainCall empty n call now)
  | Emptied f => handle (OpEmpty f)
  | ForwardChanged f forward => handle (OpForwardChanged f forward)
  | NewGroupRequested f group => handle (OpNewGroup f group)
  | Subscribe q session en => newRequest (fun rid => subscribeImpl rid q session en)
  | RequestFetch q session en => newRequest (fun rid => fetchImpl rid q session en)
  | RequestStatus q session en => newRequest (fun rid => trackStatusImpl rid q session en)
  | RendezvousEnds rid how en =>
    s ← get;
    match frames s !! rid with Some (Parked q session) => rendezvousEnds rid q session how en | _ => mret [] end
  | UpstreamWaitEnds rid link en =>
    s ← get;
    match frames s !! rid with Some fr => upstreamWaitEnds rid link fr en | None => mret [] end
  | UpstreamAnswers rid answer =>
    s ← get;
    match frames s !! rid with
    | Some (AwaitsUpstream q session t forwarder) => upstreamAnswers rid q session t forwarder answer
    | _ => mret []
    end
  | FirstAnswers rid en =>
    s ← get;
    match frames s !! rid with
    | Some (AwaitsFirst q session future) => resumeSubsequent rid q session future en
    | _ => mret []
    end
  | StatusRead rid ready =>
    s ← get;
    match frames s !! rid with
    | Some (StatusReads q session view) => statusRead rid q session view ready
    | _ => mret []
    end
  | Stops rid =>
    s ← get;
    match frames s !! rid with
    | Some (AwaitsUpstream q session t _) => regStep (OpAbandon t);; reply rid session Raised
    | Some (AwaitsFirst q session _) => reply rid session Raised
    | _ => mret []
    end
  end.

Fixpoint relayRun (ops : list Op) : R (list Event) :=
  match ops with
  | [] => mret []
  | op :: ops => evs ← relayStep op; evs' ← relayRun ops; mret (evs ++ evs')
  end.
End relay.
