(* ===== verification/RelayRequestsInv.v ===== *)
(** The invariant of the whole relay, with its suspended requests: the invariants
    of the namespace state and of the registry, the parked subscriptions, and the
    tickets of the subscribes in flight; and how the handlers of the parts keep
    it. *)

From S2P Require Import Prelude Location CacheState NamespaceTree NamespaceInv NamespaceSpec NamespaceRoutes NamespaceTheorems NamespaceLookup.
From S2P Require Import Assoc Rendezvous RelayNamespaces RelayTree RelayTold RelayInv RelayRoutes RelaySubscribe RelaySystem.
From S2P Require Import Promise TopN Registry RegistryRelay RegistryInv RegistryTheorems RelayRequests.
Local Open Scope Z_scope.

(** ** What the registry's operations do to its entries *)
Section entries.
Context {EA : ExtensionsApi}.
Implicit Types (r : SubscriptionRegistry) (f : FullTrackName) (e : RelaySubscription).

(** No entry is made, and the source of one is kept or cleared. *)
Record keeps r r' : Prop := {
  kp_entries f e' : subscriptions_ r' !! f = Some e' -> exists e, subscriptions_ r !! f = Some e /\
    rs_epoch e' = rs_epoch e /\
    (rs_upstream e' = rs_upstream e /\ rs_publisher e' = rs_publisher e \/ rs_upstream e' = None /\ rs_publisher e' = None);
  kp_counter : epochCounter_ r' = epochCounter_ r;
  kp_heap p : is_Some (heap (promises r) !! p) -> is_Some (heap (promises r') !! p);
}.
#[global] Instance keeps_preorder : PreOrder keeps.
Proof.
  split.
  - intros r. split; [|done|done]. intros f e H. exists e. auto.
  - intros a b c [H1 H2 H3] [G1 G2 G3]. split; [|congruence|auto]. intros f e (e1 & He1 & Hep & Hs)%G1.
    destruct (H1 f e1 He1) as (e0 & He0 & Hep0 & Hs0). exists e0. split; [done|]. split; [congruence|].
    destruct Hs as [[-> ->]|Hs]; [exact Hs0|by right].
Qed.

Definition pres {A} (m : M SubscriptionRegistry A) : Prop := forall r a r', m r = Some (a, r') -> keeps r r'.
Lemma pres_ret {A} (a : A) : pres (mret a).
Proof. by intros r x r' [= <- <-]. Qed.
Lemma pres_get : pres get.
Proof. by intros r x r' [= <- <-]. Qed.
Lemma pres_deref {A} (o : option A) : pres (deref o).
Proof. destruct o; [apply pres_ret|by intros r a r']. Qed.
Lemma pres_bind {A B} (m : M SubscriptionRegistry A) (k : A -> M SubscriptionRegistry B) :
  pres m -> (forall a, pres (k a)) -> pres (m ≫= k).
Proof.
  intros Hm Hk r b r'. unfold mbind, M_bind. destruct (m r) as [[a r1]|] eqn:E; [|done]. intros E'.
  etrans; [by eapply Hm|by eapply Hk].
Qed.
Lemma pres_if {A} (b : bool) (m m' : M SubscriptionRegistry A) : pres m -> pres m' -> pres (if b then m else m').
Proof. by destruct b. Qed.

Lemma drop_heap p p' ps : is_Some (heap ps !! p) -> is_Some (heap (dropPromise p' ps) !! p).
Proof.
  intros H. unfold dropPromise. destruct (heap ps !! p') as [[]|]; try done. cbn.
  destruct (decide (p' = p)) as [->|]; [by rewrite lookup_insert_eq|by rewrite lookup_insert_ne].
Qed.
Lemma erased_keeps f r : keeps r (erased f r).
Proof.
  split.
  - intros f' e. rewrite erased_subscriptions. intros [_ H]%lookup_delete_Some. exists e. auto.
  - apply erased_counter.
  - intros p. unfold erased. destruct (subscriptions_ r !! f); [|done]. cbn. apply drop_heap.
Qed.
Lemma pres_erase f : pres (eraseEntry f).
Proof. intros r a r'. rewrite eraseEntry_run. intros [= <- <-]. apply (erased_keeps f). Qed.

Lemma updated_keeps f e e' r : subscriptions_ r !! f = Some e -> rs_epoch e' = rs_epoch e ->
  (rs_upstream e' = rs_upstream e /\ rs_publisher e' = rs_publisher e \/ rs_upstream e' = None /\ rs_publisher e' = None) ->
  keeps r (set_subscriptions (<[f := e']> (subscriptions_ r)) r).
Proof.
  intros Hf Hep Hs. split; [|done|done]. cbn. intros f' x [[<- <-]|[_ H]]%lookup_insert_Some; [by exists e|exists x; auto].
Qed.

Lemma pres_terminated f : pres (modEntry f terminated).
Proof.
  intros r a r'. unfold modEntry, mbind, M_bind. cbn. destruct (subscriptions_ r !! f) as [e|] eqn:Ef; [|done]. cbn.
  intros [= <- <-]. by eapply updated_keeps; [done| |right].
Qed.
Lemma pres_touch ep now : pres (touchEntry ep now).
Proof.
  intros r a r'. unfold touchEntry, mbind, M_bind. cbn. destruct (List.find _ _) as [[f e]|] eqn:Efind; [|done]. cbn.
  intros [= <- <-]. apply List.find_some in Efind as [Hin _]. apply list_elem_of_In, elem_of_map_to_list in Hin.
  by eapply updated_keeps; [done| |left].
Qed.
Lemma pres_touchAll acts : pres (touchAll acts).
Proof.
  induction acts as [|[] acts IH]; cbn [touchAll]; try apply pres_ret; try done.
  apply pres_bind; [apply pres_touch|done].
Qed.
Lemma pres_setFilters fs : pres (modify (fun r => set_filters (fs r) r)).
Proof. intros r a r' [= <- <-]. split; [|done|done]. intros f e H. exists e. auto. Qed.
Lemma pres_filterCall n call now : pres (filterCall n call now).
Proof.
  apply pres_bind; [apply pres_get|]. intros r0. apply pres_bind; [apply pres_deref|]. intros t.
  destruct (onCall call now t) as [t' acts]. apply pres_bind; [apply (pres_setFilters (fun r => <[n := t']> (filters r)))|]. intros _.
  apply pres_bind; [apply pres_touchAll|]. intros _. apply pres_ret.
Qed.
Lemma pres_removeWhere pred l : pres (removeWhere pred l).
Proof.
  induction l as [|[f e] l IH]; [apply pres_ret|]. cbn [removeWhere]. apply pres_bind; [|done].
  apply pres_if; [apply pres_erase|apply pres_ret].
Qed.

Context (mode : Mode) (activityThreshold : Z) (hasCache : bool) (getExecutor sessionId : Session -> Z).
Abbreviation reg_step := (reg_step mode activityThreshold hasCache getExecutor sessionId).

Lemma pres_onPublishDone empty f : pres (onPublishDone mode getExecutor empty f).
Proof.
  apply pres_bind; [apply pres_get|]. intros r0. apply pres_bind; [|intros; apply pres_ret]. apply pres_if; [apply pres_erase|].
  apply pres_bind; [|intros; apply pres_ret]. apply pres_bind; [apply pres_get|]. intros r1.
  destruct (subscriptions_ r1 !! f); [|apply pres_ret]. apply pres_bind; [apply pres_terminated|]. intros _.
  apply pres_bind; [apply pres_deref|]. intros fw. apply pres_if; [|apply pres_ret].
  apply pres_bind; [apply pres_erase|]. intros; apply pres_ret.
Qed.
Lemma pres_onEmpty f : pres (onEmptyImpl getExecutor f).
Proof.
  apply pres_bind; [apply pres_get|]. intros r0. destruct (getUpstreamView getExecutor f r0) as [v|]; [|apply pres_ret].
  destruct (uv_handle v); [|apply pres_bind; [apply pres_erase|intros; apply pres_ret]].
  apply pres_bind; [apply pres_deref|]. intros ex. apply pres_if; [apply pres_ret|].
  apply pres_bind; [apply pres_erase|intros; apply pres_ret].
Qed.
Lemma pres_forwardChanged f fwd : pres (forwardChangedImpl getExecutor f fwd).
Proof.
  apply pres_bind; [apply pres_get|]. intros r0. destruct (getUpstreamView getExecutor f r0) as [v|]; [|apply pres_ret].
  apply pres_if; [apply pres_ret|]. destruct (uv_handle v); [|apply pres_ret]. apply pres_bind; [apply pres_deref|intros; apply pres_ret].
Qed.
Lemma pres_newGroup f g : pres (newGroupRequestedImpl getExecutor f g).
Proof.
  apply pres_bind; [apply pres_get|]. intros r0. destruct (getUpstreamView getExecutor f r0) as [v|]; [|apply pres_ret].
  destruct (uv_handle v); [|apply pres_ret]. apply pres_bind; [apply pres_deref|intros; apply pres_ret].
Qed.
Lemma pres_chainCall empty n call now : pres (chainCall mode getExecutor empty n call now).
Proof.
  apply pres_bind; [apply pres_get|]. intros r0. apply pres_bind; [apply pres_deref|]. intros t.
  apply pres_bind; [apply pres_filterCall|]. intros acts. apply pres_bind; [|intros; apply pres_ret].
  destruct call; try apply pres_ret. apply pres_onPublishDone.
Qed.
Lemma pres_drop ns sid : pres (dropSubscriptionsFrom sessionId ns sid).
Proof. apply pres_bind; [apply pres_get|]. intros r0. apply pres_removeWhere. Qed.

(** The operations that neither make an entry nor settle a ticket. *)
Definition quiet (op : RegOp) : Prop :=
  match op with OpSubscribe _ _ _ | OpComplete _ _ _ _ | OpAbandon _ | OpPublish _ _ _ _ _ _ => False | _ => True end.

Lemma onRegistry_keeps (m : M SubscriptionRegistry (list RelayEvent)) s s' evs : pres m ->
  onRegistry m s = Some (s', evs) -> keeps (rg_registry s) (rg_registry s') /\ rg_inflight s' = rg_inflight s.
Proof.
  intros Hm. unfold onRegistry. destruct (m (rg_registry s)) as [[x r]|] eqn:E; [|done]. intros [= <- <-].
  split; [by eapply Hm|done].
Qed.
Lemma quiet_step op s s' evs : quiet op -> reg_step op s = Some (s', evs) ->
  keeps (rg_registry s) (rg_registry s') /\ rg_inflight s' = rg_inflight s.
Proof.
  destruct op as [f upstream now|t handle requestID publisher|t|f session publisher requestID handle now
                 |empty n call now|f|f fwd|f g|ns sid]; intros Hq; try done; cbn [RegistryRelay.reg_step].
  - destruct (filters (rg_registry s) !! n); [|by intros [= <- <-]]. apply onRegistry_keeps, pres_chainCall.
  - apply onRegistry_keeps, pres_onEmpty.
  - apply onRegistry_keeps, pres_forwardChanged.
  - apply onRegistry_keeps, pres_newGroup.
  - apply onRegistry_keeps, pres_bind; [apply pres_drop|intros; apply pres_ret].
Qed.
End entries.

(** ** The sources of the entries *)
Section sources.
Context {EA : ExtensionsApi}.
Context (mode : Mode) (activityThreshold : Z) (hasCache : bool) (getExecutor sessionId : Session -> Z).
Implicit Types (r : SubscriptionRegistry) (f : FullTrackName) (e : RelaySubscription) (s : RegSys).
Abbreviation reg_step := (reg_step mode activityThreshold hasCache getExecutor sessionId).
Abbreviation sys_ok := (RegistryTheorems.sys_ok mode).

(** The publisher of an entry is that of its session; an entry whose subscribe is
    in flight has neither. *)
Definition source_ok (tk : list (FullTrackName * Z)) r : Prop := forall f e, subscriptions_ r !! f = Some e ->
  rs_publisher e = rs_upstream e /\ ((f, rs_epoch e) ∈ tk -> rs_upstream e = None).
Definition sources_ok s : Prop := source_ok (tickets s) (rg_registry s).

Lemma source_keeps tk tk' r r' : (forall x, x ∈ tk' -> x ∈ tk) -> keeps r r' -> source_ok tk r -> source_ok tk' r'.
Proof.
  intros Htk K H f e' (e & He & Hep & Hs)%(kp_entries _ _ K). destruct (H f e He) as [H1 H2].
  destruct Hs as [[-> ->]|[-> ->]]; [|done]. split; [done|]. intros Hin%Htk. apply H2. by rewrite <-Hep.
Qed.

(** A new entry and its ticket. *)
Lemma source_added tk f e st t nf r : (forall f', (f', rs_epoch e) ∉ tk) -> rs_publisher e = rs_upstream e ->
  (st = Unfulfilled -> rs_upstream e = None) -> source_ok tk r ->
  source_ok (if decide (st = Unfulfilled) then (f, rs_epoch e) :: tk else tk) (added f e st t nf r).
Proof.
  intros Hfr Hp Hst H f' e'. cbn. intros [[<- <-]|[Hne H']]%lookup_insert_Some.
  - split; [done|]. case_decide; [auto|]. intros Hin. by destruct (Hfr f).
  - destruct (H f' e' H') as [H1 H2]. split; [done|]. case_decide; [|done]. intros [[= -> _]|]%elem_of_cons; [done|auto].
Qed.

Lemma fresh_ticket s f : sys_ok s -> (f, epochCounter_ (rg_registry s) + 1) ∉ tickets s.
Proof. intros Hok Hin%(ro_ticket _ _ _ Hok). lia. Qed.

Lemma added_heap f e st t nf r p : is_Some (heap (promises r) !! p) -> is_Some (heap (promises (added f e st t nf r)) !! p).
Proof. intros H. cbn. apply lookup_insert_is_Some'. tauto. Qed.

(** ** SUBSCRIBE *)
Lemma subscribe_step f up now s : sys_ok s -> epochCounter_ (rg_registry s) + 1 < u64_modulus ->
  reg_step (OpSubscribe f up now) s =
    let r := rg_registry s in
    match subscriptions_ r !! f, up with
    | Some e, _ => Some (s, [Attached (SubsequentSubscriber f (rs_promise e))])
    | None, None => Some (mkRegSys (bumped r) (rg_inflight s), [Attached NoPublisher])
    | None, Some u =>
      Some (mkRegSys (added f (subscribedEntry mode getExecutor f u now r) Unfulfilled (newFilter activityThreshold f)
                        (nextForwarder r + 1) r) (mkInFlight f (epochCounter_ r + 1) u :: rg_inflight s),
            [Attached (FirstSubscriber (nextForwarder r)
              (Some (if isLocalForwarder mode then ForwarderConsumer (nextForwarder r) else ChainHead (nextFilter r)))
              (mkPending f (epochCounter_ r + 1) true))])
    end.
Proof.
  intros Hok Hc. pose proof (ro_counter _ _ _ Hok). cbn [RegistryRelay.reg_step]. rewrite subscribe_run by lia. cbv zeta.
  destruct s as [r l]. cbn [rg_registry rg_inflight] in *. destruct (subscriptions_ r !! f); [done|]. by destruct up.
Qed.

Lemma subscribe_sources f u now s : sys_ok s -> sources_ok s ->
  let r := rg_registry s in
  sources_ok (mkRegSys (added f (subscribedEntry mode getExecutor f u now r) Unfulfilled (newFilter activityThreshold f)
    (nextForwarder r + 1) r) (mkInFlight f (epochCounter_ r + 1) u :: rg_inflight s)).
Proof.
  intros Hok Hs r. unfold sources_ok. cbn. apply (source_added (tickets s) f (subscribedEntry mode getExecutor f u now r) Unfulfilled);
    [|done|done|done]. intros f'. by apply fresh_ticket.
Qed.

(** ** The end of a subscribe in flight *)
Lemma in_tickets t s : t ∈ rg_inflight s -> (if_ftn t, if_epoch t) ∈ tickets s.
Proof. intros H. apply list_elem_of_In, (in_map ticketKey), list_elem_of_In, H. Qed.

Lemma settled_tickets t s r' x : t ∈ rg_inflight s -> NoDup (tickets s) ->
  x ∈ tickets (mkRegSys r' (filter (fun t' => t' <> t) (rg_inflight s))) -> x <> ticketKey t /\ x ∈ tickets s.
Proof.
  intros Hin Hnd Hx. pose proof (tickets_filter activityThreshold getExecutor sessionId t s Hnd Hin) as Ht. unfold tickets in Ht, Hx. cbn [rg_inflight] in Ht, Hx.
  rewrite Ht in Hx. by apply elem_of_without in Hx.
Qed.

Lemma abandon_step t s : sys_ok s -> sources_ok s -> t ∈ rg_inflight s -> epochCounter_ (rg_registry s) + 1 < u64_modulus ->
  exists r', let s' := mkRegSys r' (filter (fun t' => t' <> t) (rg_inflight s)) in
    reg_step (OpAbandon t) s = Some (s', []) /\ sys_ok s' /\ sources_ok s' /\ keeps (rg_registry s) r'.
Proof.
  intros Hok Hs Hin Hc.
  destruct (reg_step_ok mode activityThreshold hasCache getExecutor sessionId (OpAbandon t) s Hok Hc) as (s' & evs & E & Hok' & _).
  cbn [RegistryRelay.reg_step] in E |- *. rewrite decide_True in E |- * by done.
  unfold ticketOf in *. rewrite destroyPending_run in *.
  assert (K : forall r', (match subscriptions_ (rg_registry s) !! if_ftn t with
    | Some e => if rs_epoch e =? if_epoch t
                then match fulfil (rs_promise e) (Exception "upstream subscribe failed") (promises (rg_registry s)) with
                     | Some ps => Some (tt, erased (if_ftn t) (set_promises ps (rg_registry s)))
                     | None => None
                     end
                else Some (tt, rg_registry s)
    | None => Some (tt, rg_registry s) end) = Some (tt, r') -> keeps (rg_registry s) r').
  { intros r'. destruct (subscriptions_ _ !! _) as [e|]; [|by intros [= <-]]. destruct (_ =? _); [|by intros [= <-]].
    unfold fulfil. destruct (heap _ !! _) as [[]|]; try done. intros [= <-].
    etrans; [|apply erased_keeps]. split; [|done|]; cbn; [intros f e' H; exists e'; auto|].
    intros p Hp. apply lookup_insert_is_Some'. tauto. }
  destruct (match subscriptions_ (rg_registry s) !! if_ftn t with Some _ => _ | None => _ end) as [[[] r']|]; [|done].
  injection E as <- <-. exists r'. split; [done|]. split; [done|]. specialize (K r' eq_refl). split; [|done].
  apply (source_keeps (tickets s) _ (rg_registry s)); [|done|done]. intros x Hx.
  by eapply settled_tickets in Hx as [_ Hx]; [|done|apply (ro_ticket_nodup _ _ _ Hok)].
Qed.

Lemma complete_step t handle requestID s : sys_ok s -> sources_ok s -> t ∈ rg_inflight s ->
  epochCounter_ (rg_registry s) + 1 < u64_modulus ->
  exists r' ok evs, let s' := mkRegSys r' (filter (fun t' => t' <> t) (rg_inflight s)) in
    reg_step (OpComplete t handle requestID (Some (if_upstream t))) s = Some (s', Completed ok :: evs) /\
    sys_ok s' /\ sources_ok s' /\ epochCounter_ r' = epochCounter_ (rg_registry s) /\
    (forall p, is_Some (heap (promises (rg_registry s)) !! p) -> is_Some (heap (promises r') !! p)) /\
    (forall f, is_Some (subscriptions_ r' !! f) -> is_Some (subscriptions_ (rg_registry s) !! f)).
Proof.
  intros Hok Hs Hin Hc.
  destruct (reg_step_ok mode activityThreshold hasCache getExecutor sessionId
    (OpComplete t handle requestID (Some (if_upstream t))) s Hok Hc) as (s' & evs & E & Hok' & _).
  cbn [RegistryRelay.reg_step] in E |- *. rewrite decide_True in E |- * by done.
  unfold completeUpstreamSubscription, ticketOf, mbind, M_bind in *. cbn [up_ftn] in *. rewrite complete_run in *.
  pose proof (settled_tickets t s) as Hset. specialize (fun x => Hset (rg_registry s) x Hin (ro_ticket_nodup _ _ _ Hok)).
  assert (Hkeep : sources_ok (mkRegSys (rg_registry s) (filter (fun t' => t' <> t) (rg_inflight s)))).
  { apply (source_keeps (tickets s) _ (rg_registry s)); [|done|done]. by intros x [_ Hx]%Hset. }
  destruct (subscriptions_ (rg_registry s) !! if_ftn t) as [e|] eqn:Ef.
  2:{ injection E as <- <-. eexists _, false, _. by split_and!. }
  destruct (Z.eqb_spec (rs_epoch e) (if_epoch t)) as [Hep|].
  2:{ injection E as <- <-. eexists _, false, _. by split_and!. }
  destruct (fulfil _ _ _) as [ps|] eqn:Eful; [|done]. injection E as <- <-. eexists _, true, _. split; [done|].
  split; [done|]. unfold fulfil in Eful. destruct (heap _ !! _) as [[]|]; try done. injection Eful as <-. split_and!.
  - intros f' e'. cbn. intros [[<- <-]|[Hne H]]%lookup_insert_Some.
    + split; [done|]. intros [Hx _]%Hset. destruct Hx. cbn. unfold ticketKey. by rewrite Hep.
    + destruct (Hs f' e' H) as [H1 H2]. split; [done|]. intros [_ Hx]%Hset. auto.
  - done.
  - intros p Hp. cbn. apply lookup_insert_is_Some'. tauto.
  - cbn. intros f [<-|[_ ?]]%lookup_insert_is_Some; [by rewrite Ef|done].
Qed.

(** ** PUBLISH *)
Lemma publish_step f session requestID handle now s : sys_ok s -> sources_ok s ->
  epochCounter_ (rg_registry s) + 1 < u64_modulus ->
  exists r' evs, let s' := mkRegSys r' (rg_inflight s) in
    reg_step (OpPublish f session (Some session) requestID handle now) s = Some (s', evs) /\
    sys_ok s' /\ sources_ok s' /\ epochCounter_ r' = epochCounter_ (rg_registry s) + 1 /\
    (forall p, is_Some (heap (promises (rg_registry s)) !! p) -> is_Some (heap (promises r') !! p)) /\
    (forall f', is_Some (subscriptions_ r' !! f') -> f' = f \/ is_Some (subscriptions_ (rg_registry s) !! f')) /\
    Forall (fun ev => forall f', ev <> UnpublishTrack f') evs.
Proof.
  intros Hok Hs Hc. pose proof (ro_counter _ _ _ Hok) as H0.
  destruct (reg_step_ok mode activityThreshold hasCache getExecutor sessionId
    (OpPublish f session (Some session) requestID handle now) s Hok Hc) as (s' & evs & E & Hok' & _).
  cbn [RegistryRelay.reg_step] in E |- *. unfold onRegistry in *. rewrite publishTrack_run in * by lia. cbv zeta in *.
  injection E as <- <-. set (r := rg_registry s) in *. set (r1 := erased f (bumped r)) in *.
  assert (K : keeps r r1) by (etrans; [|apply erased_keeps]; split; [intros f' e' H; exists e'; auto|done|done]).
  eexists _, _. split; [done|]. split; [done|]. split_and!.
  - set (e := publishedEntry _ _ _ _ _ _ _ _ _ _). apply (source_added (tickets s) f e Value); [|done|done|by eapply source_keeps].
    intros f'. unfold e. cbn. rewrite (kp_counter _ _ K). by apply fresh_ticket.
  - cbn. by rewrite (kp_counter _ _ K).
  - intros p Hp. apply added_heap. by apply (kp_heap _ _ K).
  - cbn. intros f' [<-|[_ [e' He]]]%lookup_insert_is_Some; [by left|right].
    destruct (kp_entries _ _ K f' e' He) as (e0 & He0 & _). eauto.
  - apply Forall_app. split; [by destruct hasCache; repeat constructor|]. unfold evictionEvents.
    destruct (subscriptions_ r !! f) as [old|]; [|constructor]. by destruct (rs_handle old); repeat constructor.
Qed.
End sources.

(** ** Where routes appear *)
Section routes.
Context {SA : SessionApi} {SL : SessionLaws SA} {E : Type} {HC : HopCodec E} {hop_ok : Z -> Prop} {HL : HopCodecLaws HC hop_ok}.
Context (relayID_ : string) (relayHopID_ : Z) (allowed : list string) (Hhop : hop_ok relayHopID_).
Abbreviation routesAt := NamespaceLookup.routesAt.
Abbreviation ns_ok := (RelaySystem.sys_ok relayHopID_ (hop_ok := hop_ok)).

(** Every namespace with a route in [t'] had one in [t]. *)
Definition no_new_routes (t t' : NamespaceTree) : Prop := forall q, routesAt t' q <> [] -> routesAt t q <> [].

Lemma no_new_refl t : no_new_routes t t.
Proof. by intros q. Qed.

Lemma same_routes t t' : (forall q, (view t' q).1.1 = (view t q).1.1) -> no_new_routes t t'.
Proof. intros H q. unfold routesAt. by rewrite H. Qed.

Lemma putNode_routes p n n' t : nodes t !! p = Some n -> routes_ n' = routes_ n ->
  forall q, routesAt (putNode p n' t) q = routesAt t q.
Proof.
  intros Hn Hr q. unfold routesAt, view, putNode. cbn. destruct (decide (p = q)) as [<-|Hne].
  - rewrite lookup_insert_eq, Hn. done.
  - by rewrite lookup_insert_ne.
Qed.

Lemma reconcileOne_routes n s i acts n' : reconcileAdvertisement (E := E) relayHopID_ n s i = Some (acts, n') -> routes_ n' = routes_ n.
Proof.
  unfold reconcileAdvertisement. destruct (si_namespacePublishHandle i); [|by intros [= _ <-]]. cbv zeta.
  set (route := advertisableRoute _ n s i).
  destruct (withdrawStale _ _ _ _ _) as [w n1] eqn:Ew.
  assert (H1 : routes_ n1 = routes_ n).
  { unfold withdrawStale in Ew. destruct (advertisements_ n !! _); [|by injection Ew as _ <-].
    destruct (match route with Some _ => _ | None => _ end); by injection Ew as _ <-. }
  destruct route as [r|]; [|by intros [= _ <-]]. destruct (match advertisements_ n1 !! _ with Some _ => _ | None => _ end).
  - by intros [= _ <-].
  - destruct (setOutgoingHopPath _ _ _ _); [|done]. cbn. by intros [= _ <-].
Qed.
Lemma reconcileAll_routes subs : forall n acts n', reconcileAll (E := E) relayHopID_ subs n = Some (acts, n') -> routes_ n' = routes_ n.
Proof.
  induction subs as [|[s i] subs IH]; intros n acts n'; cbn [reconcileAll]; [by intros [= _ <-]|].
  destruct (reconcileAdvertisement _ n s i) as [[a n1]|] eqn:E1; [|done]. cbn [mbind option_bind].
  destruct (reconcileAll _ subs n1) as [[a' n2]|] eqn:E2; [|done]. cbn [mbind option_bind]. intros [= _ <-].
  rewrite (IH _ _ _ E2). by eapply reconcileOne_routes.
Qed.
Lemma reconcileNodes_routes ps s i : forall t acts t', reconcileNodes (E := E) relayHopID_ ps s i t = Some (acts, t') ->
  forall q, routesAt t' q = routesAt t q.
Proof.
  induction ps as [|p ps IH]; intros t acts t'; cbn [reconcileNodes]; [by intros [= _ <-]|].
  destruct (nodes t !! p) as [n|] eqn:Hn; [|done]. cbn [mbind option_bind].
  destruct (reconcileAdvertisement _ n s i) as [[a n1]|] eqn:E1; [|done]. cbn [mbind option_bind].
  destruct (reconcileNodes _ _ _ _ _) as [[a' t2]|] eqn:E2; [|done]. cbn [mbind option_bind]. intros [= _ <-] q.
  rewrite (IH _ _ _ E2). apply (putNode_routes p n); [done|by eapply reconcileOne_routes].
Qed.

(** A step on the contents of one namespace that does not announce. *)
Lemma stepped_no_new op t t' : (forall a b c d e f g h, op <> OpSetPublisher a b c d e f g h) ->
  (let c := abs_content sessionId op (view t (rev (op_ns op))) (nextRouteSeq_ t) in
   stepped (rev (op_ns op)) c.1 c.2 t t') -> no_new_routes t t'.
Proof.
  intros Hop (_ & _ & Hv) q. unfold routesAt. rewrite Hv. destruct (decide _) as [->|]; [|done].
  destruct (view t (rev (op_ns op))) as [[rs ps] ss]. unfold abs_content. destruct op; cbn; try done.
  - by destruct (Hop ns session callback peerID requestID relayHopPath cost fromCluster).
  - intros H ->. by apply H.
  - intros H ->. by apply H.
Qed.

(** A route that is announced or updated, and what is told of it. *)
Lemma routeChanged_routes ns r t' s acts s' : routeChanged (E := E) relayHopID_ ns r t' s = Some (acts, s') ->
  forall q, routesAt (namespaceTree_ s') q = routesAt t' q.
Proof.
  unfold routeChanged. destruct (nodes t' !! sp_node r) as [n|] eqn:Hn; [|done]. cbn [mbind option_bind].
  destruct (reconcileAll _ _ n) as [[a n']|] eqn:E1; [|done]. cbn [mbind option_bind]. intros [= _ <-]. cbn.
  apply (putNode_routes _ n); [done|by eapply reconcileAll_routes].
Qed.

Lemma done_no_new ns sid requestID s next told acts s' : ns_inv relayHopID_ (hop_ok := hop_ok) (namespaceTree_ s) next told ->
  doPublishNamespaceDone (E := E) relayHopID_ ns sid requestID s = Some (acts, s') ->
  no_new_routes (namespaceTree_ s) (namespaceTree_ s').
Proof.
  intros I. unfold doPublishNamespaceDone. set (t := namespaceTree_ s) in *.
  destruct (unpublishNamespace_step sessionId negotiatedRelayHops sessionId_inj ns sid requestID t (ni_tree _ _ _ _ I)
    (ni_routes _ _ _ _ I _)) as (r & -> & Hst). cbn [mbind option_bind].
  destruct r as [[[[p subs] removed] t']|]; [|intros [= _ <-]; apply no_new_refl].
  assert (Hnn : no_new_routes t t') by (by apply (stepped_no_new (OpUnpublishNamespace ns sid requestID))).
  destruct (nodes t' !! p) as [n|] eqn:Hn.
  - destruct (reconcileAll _ subs n) as [[a n']|] eqn:E1; [|done]. cbn [mbind option_bind]. intros [= _ <-] q. cbn.
    rewrite (putNode_routes _ n); [apply Hnn|done|by eapply reconcileAll_routes].
  - destruct (nodes t !! p); [|done]. cbn [mbind option_bind]. destruct (reconcileAll _ subs _) as [[a n']|]; [|done].
    cbn [mbind option_bind]. by intros [= _ <-].
Qed.

(** What a step announces is woken. *)
Definition new_routes_wake (t : NamespaceTree) (acts : list (RelayAct E)) (t' : NamespaceTree) : Prop :=
  forall q, routesAt t' q <> [] -> routesAt t q <> [] \/ exists ns, WakeUnderNamespace ns ∈ acts /\ q = rev ns.
Lemma no_new_wake t acts t' : no_new_routes t t' -> new_routes_wake t acts t'.
Proof. intros H q Hq. left. by apply H. Qed.

Lemma announce_wakes pubNs session callback peerID s next told x acts s' :
  ns_inv relayHopID_ (hop_ok := hop_ok) (namespaceTree_ s) next told -> announcement_ok session (pn_params pubNs) ->
  doPublishNamespace relayHopID_ allowed pubNs session callback peerID s = Some (x, acts, s') ->
  new_routes_wake (namespaceTree_ s) acts (namespaceTree_ s').
Proof.
  intros I Hok. unfold doPublishNamespace. destruct (ingestRoute_ok relayHopID_ pubNs session Hok) as (r & -> & Hr).
  cbn [mbind option_bind]. destruct r as [route|].
  2:{ destruct callback; [by intros [= _ _ <-]; apply no_new_wake, no_new_refl|].
      destruct (doPublishNamespaceDone _ _ _ _ _) as [[a s1]|] eqn:Ed; [|done]. cbn [mbind option_bind]. intros [= _ _ <-].
      apply no_new_wake. by eapply done_no_new. }
  destruct (negb _); [by intros [= _ _ <-]; apply no_new_wake, no_new_refl|]. destruct Hr as (H1 & H2 & H3).
  set (op := OpSetPublisher (pn_trackNamespace pubNs) session callback peerID (pn_requestID pubNs) (ir_path route)
    (ir_cost route) (ir_fromCluster route)).
  destruct (abs_content sessionId op (view (namespaceTree_ s) (rev (op_ns op))) (nextRouteSeq_ (namespaceTree_ s))) as [c seq'] eqn:Ec.
  destruct (setPublisher_step sessionId negotiatedRelayHops _ _ _ _ _ _ _ _ _ c seq' (ni_tree _ _ _ _ I) (ni_routes _ _ _ _ I _) H3 Ec)
    as (res & t' & -> & (_ & _ & Hv)). cbn [mbind option_bind].
  destruct (routeChanged _ _ _ _ _) as [[a s1]|] eqn:Erc; [|done]. cbn [mbind option_bind]. intros [= _ <- <-] q.
  rewrite (routeChanged_routes _ _ _ _ _ _ Erc). unfold routesAt. rewrite Hv.
  destruct (decide (q = rev (pn_trackNamespace pubNs))) as [->|]; [|by left]. intros _. right.
  exists (pn_trackNamespace pubNs). split; [|done]. rewrite !elem_of_app. right; right. by left.
Qed.

Lemma update_no_new ns sid requestID update s next told x acts s' :
  ns_inv relayHopID_ (hop_ok := hop_ok) (namespaceTree_ s) next told ->
  updatePublishNamespace (E := E) relayHopID_ ns sid requestID update s = Some (x, acts, s') ->
  no_new_routes (namespaceTree_ s) (namespaceTree_ s').
Proof.
  intros I. unfold updatePublishNamespace. cbv zeta. set (t := namespaceTree_ s) in *.
  destruct (p ← (findNode ns false t).1.1; _) as [r|]; [|intros [= _ _ <-]; apply no_new_refl].
  destruct (negb _); [intros [= _ _ <-]; apply no_new_refl|]. destruct (getNegotiatedVersion _); [|done]. cbn [mbind option_bind].
  destruct (readClusterParams _ _ _ _) as [[params|]|]; [|..|done]; cbn [mbind option_bind].
  2:{ destruct (doPublishNamespaceDone _ _ _ _ _) as [[a s1]|] eqn:Ed; [|done]. cbn [mbind option_bind]. intros [= _ _ <-].
      by eapply done_no_new. }
  destruct (negb _); [done|]. set (hops := if bool_decide _ then _ else _). set (cost := default _ _).
  destruct (updateRoute_step sessionId negotiatedRelayHops sessionId_inj ns sid requestID hops cost t _ _
    (ni_tree _ _ _ _ I) (ni_routes _ _ _ _ I _) (surjective_pairing _)) as (res & -> & Hst). cbn [mbind option_bind].
  destruct res as [[res t']|]; [|done]. destruct (routeChanged _ _ _ _ _) as [[a s1]|] eqn:Erc; [|done]. cbn [mbind option_bind].
  intros [= _ _ <-] q. rewrite (routeChanged_routes _ _ _ _ _ _ Erc).
  by apply (stepped_no_new (OpUpdateRoute ns sid requestID hops cost)).
Qed.

Lemma subscribeNs_no_new req session handle reciprocated getForwarderRef fresh s next told x acts s' :
  ns_inv relayHopID_ (hop_ok := hop_ok) (namespaceTree_ s) next told ->
  subscribeNamespaceImpl (E := E) relayID_ relayHopID_ req session handle reciprocated getForwarderRef fresh s = Some (x, acts, s') ->
  no_new_routes (namespaceTree_ s) (namespaceTree_ s').
Proof.
  intros I. unfold subscribeNamespaceImpl. cbv zeta. set (prefix := sn_trackNamespacePrefix req).
  destruct (recordPeer_trees relayID_ req session reciprocated s) as [Hs1 _]. set (s1 := recordPeer _ _ _ _ _) in *.
  destruct (getNegotiatedVersion session); [|done]. cbn [mbind option_bind].
  destruct (overLimit _ _); [intros [= _ _ <-]; rewrite Hs1; apply no_new_refl|].
  rewrite Hs1. set (t := namespaceTree_ s) in *. set (info := subscriberInfo _ _ _).
  pose proof (addNamespaceSubscriber_step prefix session info t (ni_tree _ _ _ _ I)) as Hadd.
  destruct (view t (rev prefix)) as [[rs ps] ss] eqn:Hv. destruct Hadd as (p0 & t1 & Hadd & Ht1 & _ & Hv1).
  rewrite Hadd. cbn [mbind option_bind].
  destruct (addNamespaceSubscriber_kept _ _ _ _ _ _ (ni_tree _ _ _ _ I) Hadd) as [-> _].
  assert (Hr1 : forall q, routesAt t1 q = routesAt t q).
  { intros q. unfold routesAt. rewrite Hv1. destruct (decide _) as [->|]; [by rewrite Hv|done]. }
  assert (Hn1 : is_Some (nodes t1 !! rev prefix)).
  { destruct (nodes t1 !! rev prefix) eqn:En; [eauto|]. apply view_none in En. rewrite Hv1, decide_True in En by done.
    injection En as _ _ Hss. destruct (ss !! session) as [i0|] eqn:Es; [by rewrite Hss, lookup_empty in Es|].
    by apply insert_non_empty in Hss. }
  destruct (match sn_trackFilter req with Some _ => _ | None => _ end) as [[topN t2]|] eqn:Erank; [|done]. cbn [mbind option_bind].
  assert (Hr2 : forall q, routesAt t2 q = routesAt t1 q).
  { destruct (sn_trackFilter req) as [f|]; [|by injection Erank as _ <-].
    destruct (getOrCreateRanking_ok prefix (tf_propertyType f) fresh t1 Ht1 Hn1) as (t3 & H1 & H2 & H3 & H4 & H5).
    rewrite H1 in Erank. cbn [mbind option_bind] in Erank. injection Erank as _ <-. intros q. unfold routesAt. by rewrite H5. }
  destruct (reconcileNodes _ _ _ _ _) as [[a t3]|] eqn:Er; [|done]. cbn [mbind option_bind]. intros [= _ _ <-] q. cbn.
  by rewrite (reconcileNodes_routes _ _ _ _ _ _ Er), Hr2, Hr1.
Qed.

(** The steps of the namespace handlers: a namespace that gets its first route is
    woken, and so is a published track. *)
Lemma relay_step_wakes op s told acts s' : ns_ok s told -> relay_op_ok op s ->
  relay_step relayID_ relayHopID_ allowed op s = Some (acts, s') ->
  new_routes_wake (namespaceTree_ (rs_relay s)) acts (namespaceTree_ (rs_relay s')) /\
  (forall f session forwarder, op = RPublish f session forwarder -> WakeForTrack f ∈ acts).
Proof.
  intros [I T] Hop. destruct op; unfold relay_step; cbn [relay_op_ok] in Hop; cbv zeta.
  - destruct (doPublishNamespace _ _ _ _ _ _ _) as [[[x a] r]|] eqn:E1; [|done]. cbn [mbind option_bind]. intros [= <- <-].
    split; [by eapply announce_wakes|done].
  - destruct (doPublishNamespaceDone _ _ _ _ _) as [[a r]|] eqn:E1; [|done]. cbn [mbind option_bind]. intros [= <- <-].
    split; [by eapply no_new_wake, done_no_new|done].
  - destruct (updatePublishNamespace _ _ _ _ _ _) as [[[x a] r]|] eqn:E1; [|done]. cbn [mbind option_bind]. intros [= <- <-].
    split; [by eapply no_new_wake, update_no_new|done].
  - destruct (subscribeNamespaceImpl _ _ _ _ _ _ _ _ _) as [[[x a] r]|] eqn:E1; [|done]. cbn [mbind option_bind]. intros [= <- <-].
    split; [by eapply no_new_wake, subscribeNs_no_new|done].
  - destruct (unsubscribeNamespace _ _ _) as [[a r]|] eqn:E1; [|done]. cbn [mbind option_bind]. intros [= <- <-].
    split; [|done]. apply no_new_wake. unfold unsubscribeNamespace in E1. cbn [namespaceTree_ set_peers] in E1.
    pose proof (removeNamespaceSubscriber_step sessionId nsp session _ (ni_tree _ _ _ _ I)) as Hst.
    destruct (view (namespaceTree_ (rs_relay s)) (rev nsp)) as [[rs ps] ss] eqn:Hv. destruct Hst as (y & Hy & Hst).
    rewrite Hy in E1. cbn [mbind option_bind] in E1. destruct y as [[topN t']|]; injection E1 as _ <-; [|apply no_new_refl].
    cbn [refusedOr snd] in Hst. destruct Hst as (_ & _ & Hv'). apply same_routes. intros q. cbn. rewrite Hv'.
    destruct (decide _) as [->|]; [by rewrite Hv|done].
  - destruct (subscribeTracks _ _ _ _ _) as [[[x a] r]|] eqn:E1; [|done]. cbn [mbind option_bind]. intros [= <- <-].
    split; [|done]. apply no_new_wake. destruct (subscribeTracks_ok relayID_ relayHopID_ req session getForwarderRef _ _ _ I T)
      as (x1 & a1 & r1 & E2 & _ & Hn & _). rewrite E1 in E2. injection E2 as <- <- <-. cbn. rewrite Hn. apply no_new_refl.
  - destruct (unsubscribeTracks _ _ _) as [r|] eqn:E1; [|done]. cbn [mbind option_bind]. intros [= <- <-].
    split; [|done]. apply no_new_wake. destruct (unsubscribeTracks_ok nsp session _ T)
      as (r1 & E2 & Hn & _). rewrite E1 in E2. injection E2 as <-. cbn. rewrite Hn. apply no_new_refl.
  - unfold publishFanout. pose proof (addPublish_step (trackNamespace f) (trackName f) session _ (ni_tree _ _ _ _ I)) as Hst.
    destruct (view (namespaceTree_ (rs_relay s)) (rev (trackNamespace f))) as [[rs ps] ss] eqn:Hv.
    destruct Hst as ([[p subs] rankings] & t' & -> & _ & _ & Hv'). cbn [mbind option_bind].
    destruct (findNode _ _ _) as [[found ts] y]. cbn [mbind option_bind]. intros [= <- <-]. split.
    + apply no_new_wake, same_routes. intros q. cbn. rewrite Hv'. destruct (decide _) as [->|]; [by rewrite Hv|done].
    + intros f' s0 fw [= -> _ _]. rewrite !elem_of_app. right; right; right. by left.
  - unfold trackEnded. pose proof (unpublishTrack_step (trackNamespace f) (trackName f) _ (ni_tree _ _ _ _ I)) as Hst.
    destruct (view (namespaceTree_ (rs_relay s)) (rev (trackNamespace f))) as [[rs ps] ss] eqn:Hv.
    destruct Hst as (y & -> & Hst). cbn [mbind option_bind]. destruct y as [t'|]; cbn [mbind option_bind]; intros [= <- <-]; (split; [|done]);
      apply no_new_wake; [|apply no_new_refl].
    cbn [refusedOr id] in Hst. destruct Hst as (_ & _ & Hv'). apply same_routes. intros q. cbn. rewrite Hv'.
    destruct (decide _) as [->|]; [by rewrite Hv|done].
Qed.
End routes.

(** ** The invariant *)
(** No prefix of the namespace has a route. *)
Definition unrouted (t : NamespaceTree) (ns : list string) : Prop :=
  forall q, q `suffix_of` rev ns -> NamespaceLookup.routesAt t q = [].

Lemma unrouted_none sid t ns ex : tree_ok t -> unrouted t ns -> findPublisherSession sid ns ex t = None.
Proof.
  intros Hok Hu. pose proof (findPublisherSession_longest sid ns ex t Hok) as H.
  destruct (findPublisherSession sid ns ex t); [|done]. destruct H as (p & r & (Hp & Hne & _) & _). by destruct (Hne (Hu p Hp)).
Qed.
Lemma none_unrouted sid t ns : tree_ok t -> findPublisherSession sid ns noExclusion t = None -> unrouted t ns.
Proof.
  intros Hok Hn. pose proof (findPublisherSession_longest sid ns noExclusion t Hok) as H. rewrite Hn in H.
  destruct H as [H|(p & (_ & Hne & _) & H)]; [exact H|]. destruct (NamespaceLookup.routesAt t p) as [|r rs]; [done|].
  specialize (H r (or_introl eq_refl)). unfold admissible, clusterPathContains in H. by cbn in H.
Qed.

Section invariant.
Context {SA : SessionApi} {E : Type} {HC : HopCodec E} {hop_ok : Z -> Prop} {RA : RequestApi} {EA : ExtensionsApi}.
Context (relayHopID_ : Z) (mode : Mode).
Implicit Types (s : Relay) (f : FullTrackName).

(** The suspended requests, without the one that is running. *)
Definition others (run : option Z) s : gmap Z Frame :=
  match run with Some rid => delete rid (frames s) | None => frames s end.

Definition parkedOn (fs : gmap Z Frame) f (rid : Z) : Prop :=
  exists q session, fs !! rid = Some (Parked q session) /\ sq_fullTrackName q = f.
Definition awaits (fs : gmap Z Frame) (rid : Z) (t : InFlight) : Prop :=
  exists q session forwarder, fs !! rid = Some (AwaitsUpstream q session t forwarder).

(** Nobody publishes the track: no entry, and no route to its namespace. *)
Definition unserved s f : Prop :=
  subscriptions_ (theRegistry s) !! f = None /\ unrouted (theTree s) (trackNamespace f).

(** The tree of waiters holds the parked requests that have not been signalled;
    their tracks have no publisher, but those in [X] that are about to be woken. *)
Record waiting_ok (X : FullTrackName -> Prop) (run : option Z) s (l : list (FullTrackName * Z)) : Prop := {
  wt_sim : sim (pendingRendezvous_ s) l;
  wt_nodup : NoDup l.*2;
  wt_parked f rid : (f, rid) ∈ l <-> parkedOn (others run s) f rid /\ rid ∉ batons s;
  wt_unserved f rid : (f, rid) ∈ l -> ~ X f -> unserved s f;
}.

(** [held]: the tickets of the request that is running. *)
Record relay_ok (X : FullTrackName -> Prop) (run : option Z) (held : list InFlight) s : Prop := {
  rk_ns : exists told, RelaySystem.sys_ok relayHopID_ (hop_ok := hop_ok) (E := E) (rl_ns s) told;
  rk_reg : RegistryTheorems.sys_ok mode (rl_reg s);
  rk_sources : sources_ok (rl_reg s);
  rk_waiting : exists l, waiting_ok X run s l;
  rk_known rid : is_Some (frames s !! rid) -> rid < nextRequest s;
  rk_batons rid : rid ∈ batons s -> rid < nextRequest s;
  rk_tickets t : t ∈ rg_inflight (rl_reg s) <-> t ∈ held \/ exists rid, awaits (others run s) rid t;
  rk_unique rid rid' t : awaits (others run s) rid t -> awaits (others run s) rid' t -> rid = rid';
  rk_held t : t ∈ held -> forall rid, ~ awaits (others run s) rid t;
  rk_futures rid q session p : others run s !! rid = Some (AwaitsFirst q session p) ->
    is_Some (heap (promises (theRegistry s)) !! p);
}.
Definition nowhere : FullTrackName -> Prop := fun _ => False.
Definition counter s : Z := epochCounter_ (theRegistry s).

Lemma relay_ok_tree X run held s : relay_ok X run held s -> tree_ok (theTree s).
Proof. intros []. destruct rk_ns0 as [told [I _]]. apply (proj1 (ni_tree _ _ _ _ I)). Qed.
End invariant.

(** ** The parts keep it *)
Section parts.
Context {SA : SessionApi} {SL : SessionLaws SA} {E : Type} {HC : HopCodec E} {hop_ok : Z -> Prop} {HL : HopCodecLaws HC hop_ok}.
Context {RA : RequestApi} {EA : ExtensionsApi}.
Context (relayID_ : string) (relayHopID_ : Z) (allowed : list string) (Hhop : hop_ok relayHopID_).
Context (mode : Mode) (activityThreshold : Z) (hasCache : bool) (getExecutor : Session -> Z).
Implicit Types (s : Relay) (f : FullTrackName).

Abbreviation relay_ok := (relay_ok relayHopID_ mode (hop_ok := hop_ok) (E := E)).
Abbreviation regStep := (regStep mode activityThreshold hasCache getExecutor).
Abbreviation nsStep := (nsStep relayID_ relayHopID_ allowed mode activityThreshold hasCache getExecutor (E := E)).
Abbreviation performAct := (performAct mode activityThreshold hasCache getExecutor (E := E)).
Abbreviation performActs := (performActs mode activityThreshold hasCache getExecutor (E := E)).
Abbreviation performEvents := (performEvents relayID_ relayHopID_ allowed mode activityThreshold hasCache getExecutor (E := E)).
Abbreviation handle := (handle relayID_ relayHopID_ allowed mode activityThreshold hasCache getExecutor (E := E)).

(** The registry has changed. *)
Lemma reg_changed X Y run held held' s r' : relay_ok X run held s -> RegistryTheorems.sys_ok mode r' -> sources_ok r' ->
  (forall t, t ∈ rg_inflight r' <-> t ∈ held' \/ exists rid, awaits (others run s) rid t) ->
  (forall t, t ∈ held' -> forall rid, ~ awaits (others run s) rid t) ->
  (forall p, is_Some (heap (promises (theRegistry s)) !! p) -> is_Some (heap (promises (rg_registry r')) !! p)) ->
  (forall f, is_Some (subscriptions_ (rg_registry r') !! f) ->
     is_Some (subscriptions_ (theRegistry s) !! f) \/ Y f \/ ~ unrouted (theTree s) (trackNamespace f)) ->
  (forall f, X f -> Y f) -> relay_ok Y run held' (set_reg r' s).
Proof.
  intros [] Hok Hs Ht Hh Hheap Hn HXY. split; try done.
  - destruct rk_waiting0 as [l []]. exists l. split; try done. intros f rid Hin HnY.
    destruct (wt_unserved0 f rid Hin) as [H1 H2]; [auto|]. split; [|done]. apply eq_None_not_Some. intros Hs'%Hn.
    rewrite H1 in Hs'. destruct Hs' as [[? [=]]|[?|?]]; auto.
  - intros rid q session p Hp. by eapply Hheap, rk_futures0.
Qed.

Lemma quiet_ok op X run held s : quiet op -> relay_ok X run held s -> counter s + 1 < u64_modulus ->
  exists evs r', regStep op s = Some (evs, set_reg r' s) /\ relay_ok X run held (set_reg r' s) /\ counter (set_reg r' s) = counter s.
Proof.
  intros Hq Hok Hc. unfold RelayRequests.regStep.
  destruct (reg_step_ok mode activityThreshold hasCache getExecutor sessionId op (rl_reg s) (rk_reg _ _ _ _ _ _ Hok) Hc)
    as (r' & evs & Hst & Hok' & _). rewrite Hst. exists evs, r'. split; [done|].
  destruct (quiet_step _ _ _ _ _ _ _ _ _ Hq Hst) as [K Hin]. split; [|apply (kp_counter _ _ K)].
  apply (reg_changed X X run held held); try done.
  - apply (source_keeps (tickets (rl_reg s)) _ (rg_registry (rl_reg s))); [|done|apply Hok]. unfold tickets. by rewrite Hin.
  - rewrite Hin. apply Hok.
  - apply Hok.
  - apply (kp_heap _ _ K).
  - intros f [e He]. left. destruct (kp_entries _ _ K f e He) as (e0 & He0 & _). by exists e0.
Qed.

(** *** Waking *)
Definition covered (op : RvOp) (f : FullTrackName) : Prop :=
  match op with WakeTrack f' => f = f' | WakeNamespace ns => ns `prefix_of` trackNamespace f | _ => False end.
Definition wakes (op : RvOp) : Prop := match op with WakeTrack _ | WakeNamespace _ => True | _ => False end.

Lemma wake_list op l : wakes op ->
  (forall f rid, (f, rid) ∈ (spec_step op l).1 <-> (f, rid) ∈ l /\ ~ covered op f) /\
  (forall rid, rid ∈ (spec_step op l).2 <-> exists f, (f, rid) ∈ l /\ covered op f) /\
  (NoDup l.*2 -> NoDup (spec_step op l).1.*2).
Proof.
  assert (Hsub : forall (P : FullTrackName * Z -> Prop) `{forall x, Decision (P x)}, NoDup l.*2 -> NoDup (filter P l).*2).
  { intros P HP. induction l as [|x l' IH]; [done|]. intros [H1 H2]%NoDup_cons. rewrite filter_cons. case_decide; [|auto].
    apply NoDup_cons. split; [|auto]. intros (y & Hy & Hin)%list_elem_of_fmap. apply H1. apply list_elem_of_fmap. exists y.
    split; [done|]. by apply list_elem_of_filter in Hin as [_ ?]. }
  destruct op as [f0 w|f0 w|f0|ns]; intros Hw; try done; cbn [spec_step covered fst snd]; (split; [|split; [|apply Hsub]]).
  - intros f rid. rewrite list_elem_of_filter. cbn. tauto.
  - intros rid. rewrite list_elem_of_In, in_map_iff. setoid_rewrite <- list_elem_of_In. setoid_rewrite list_elem_of_filter. split.
    + intros ([f r] & <- & H1 & H2). by exists f.
    + intros (f & H1 & ->). by exists (f0, rid).
  - intros f rid. rewrite list_elem_of_filter. unfold covers. cbn. tauto.
  - intros rid. rewrite list_elem_of_In, in_map_iff. setoid_rewrite <- list_elem_of_In. setoid_rewrite list_elem_of_filter. unfold covers. split.
    + intros ([f r] & <- & H1 & H2). by exists f.
    + intros (f & H1 & H2). by exists (f, rid).
Qed.

Lemma wake_ok op X held s : wakes op -> relay_ok X None held s ->
  exists evs s', wake (E := E) (rv_step op (pendingRendezvous_ s)) s = Some (evs, s') /\
    relay_ok (fun f => X f /\ ~ covered op f) None held s' /\ counter s' = counter s /\ rl_ns s' = rl_ns s.
Proof.
  intros Hw Hok. eexists _, _. split; [done|]. split; [|done]. destruct Hok. destruct rk_waiting0 as [l []].
  destruct (step_sim op _ l wt_sim0) as [Hsim [_ Hsig]]. destruct (wake_list op l Hw) as (Hl & Hsigd & Hnd).
  assert (Hws : forall rid, rid ∈ (rv_step op (pendingRendezvous_ s)).2 <-> exists f, (f, rid) ∈ l /\ covered op f).
  { intros rid. rewrite <- Hsigd. destruct op; try done; cbn in Hsig |- *; by rewrite Hsig. }
  split; try done.
  - exists (spec_step op l).1. split; [done|by apply Hnd| |].
    + intros f rid. rewrite Hl, wt_parked0. cbn [batons set_pending]. rewrite elem_of_union, elem_of_list_to_set, Hws. split.
      * intros [[H1 H2] H3]. split; [done|]. intros [(f' & H4 & H5)|]; [|done].
        apply wt_parked0 in H4 as [H4 _]. destruct H1 as (q & ss & H1 & <-), H4 as (q' & ss' & H4 & <-). congruence.
      * intros [H1 H2]. split; [split; [done|tauto]|]. intros Hc. apply H2. left. exists f. split; [|done].
        apply wt_parked0. split; [done|tauto].
    + intros f rid [H1 H2]%Hl HX. apply (wt_unserved0 f rid H1). tauto.
  - intros rid. cbn [batons set_pending]. rewrite elem_of_union, elem_of_list_to_set, Hws. intros [(f & Hf & _)|]; [|auto].
    apply wt_parked0 in Hf as [(q & ss & Hf & _) _]. apply rk_known0. by eexists.
Qed.

(** *** The calls of the namespace handlers *)
Definition wokenBy (a : RelayAct E) (f : FullTrackName) : Prop :=
  match a with
  | WakeUnderNamespace ns => covered (WakeNamespace ns) f
  | WakeForTrack f' => covered (WakeTrack f') f
  | _ => False
  end.
Definition wokenByAny (acts : list (RelayAct E)) (f : FullTrackName) : Prop := Exists (fun a => wokenBy a f) acts.

Lemma relay_ok_mono X Y run held s : (forall f, X f -> Y f) -> relay_ok X run held s -> relay_ok Y run held s.
Proof.
  intros HXY []. split; try done. destruct rk_waiting0 as [l []]. exists l. split; try done.
  intros f rid Hin HnY. apply (wt_unserved0 f rid Hin). auto.
Qed.

Lemma performAct_ok a X held s : relay_ok X None held s -> counter s + 1 < u64_modulus ->
  exists evs s', performAct a s = Some (evs, s') /\ relay_ok (fun f => X f /\ ~ wokenBy a f) None held s' /\
    counter s' = counter s /\ rl_ns s' = rl_ns s.
Proof.
  intros Hok Hc.
  assert (Hsame : exists evs s', Some ([OfNamespaces a], s) = Some (evs, s') /\
    relay_ok (fun f => X f /\ ~ False) None held s' /\ counter s' = counter s /\ rl_ns s' = rl_ns s).
  { eexists _, _. split; [done|]. split; [|done]. revert Hok. apply relay_ok_mono. tauto. }
  destruct a; cbn [wokenBy RelayRequests.performAct]; try exact Hsame.
  - destruct (quiet_ok (OpDropFrom ns sid) X None held s Logic.I Hok Hc) as (evs & r' & E1 & Hok' & Hc').
    unfold mbind, M_bind. rewrite E1. eexists _, _. split; [done|]. split; [|done]. revert Hok'. apply relay_ok_mono. tauto.
  - exact (wake_ok (WakeNamespace ns) X held s Logic.I Hok).
  - exact (wake_ok (WakeTrack f) X held s Logic.I Hok).
Qed.

Lemma performActs_ok acts : forall X held s, relay_ok (fun f => X f \/ wokenByAny acts f) None held s ->
  counter s + 1 < u64_modulus ->
  exists evs s', performActs acts s = Some (evs, s') /\ relay_ok (fun f => X f /\ ~ wokenByAny acts f) None held s' /\
    counter s' = counter s /\ rl_ns s' = rl_ns s.
Proof.
  induction acts as [|a acts IH]; intros X held s Hok Hc; cbn [RelayRequests.performActs].
  { eexists _, _. split; [done|]. split; [|done]. revert Hok. apply relay_ok_mono. intros f [?|H%Exists_nil]; [|done].
    split; [done|]. by intros H'%Exists_nil. }
  destruct (performAct_ok a _ held s Hok Hc) as (evs & s1 & E1 & Hok1 & Hc1 & Hns1). unfold mbind, M_bind. rewrite E1.
  destruct (IH (fun f => X f /\ ~ wokenBy a f) held s1) as (evs' & s2 & E2 & Hok2 & Hc2 & Hns2).
  { revert Hok1. apply relay_ok_mono. intros f [[H|[H|H]%Exists_cons] Hn]; tauto. }
  { congruence. }
  rewrite E2. eexists _, _. split; [done|]. split; [|split; congruence]. revert Hok2. apply relay_ok_mono.
  intros f [[H1 H2] H3]. split; [done|]. by intros [?|?]%Exists_cons.
Qed.

(** *** The namespace handlers *)
Lemma nsStep_ok op X held s : relay_ok X None held s -> relay_op_ok op (rl_ns s) -> counter s + 1 < u64_modulus ->
  exists evs s', nsStep op s = Some (evs, s') /\
    relay_ok (fun f => X f /\ forall session forwarder, op <> RPublish f session forwarder) None held s' /\ counter s' = counter s.
Proof.
  intros Hok Hop Hc. destruct (rk_ns _ _ _ _ _ _ Hok) as [told Hns].
  destruct (relay_step_ok relayID_ relayHopID_ allowed Hhop op (rl_ns s) told Hns Hop) as (acts & ns & Hst & Hns').
  destruct (relay_step_wakes relayID_ relayHopID_ allowed op (rl_ns s) told acts ns Hns Hop Hst) as [Hw Hp].
  unfold RelayRequests.nsStep, mbind, M_bind. cbn. rewrite Hst. cbn.
  destruct (performActs_ok acts X held (set_ns ns s)) as (evs & s' & -> & Hok' & Hc' & _); [|done|].
  - destruct Hok. split; try done; [by eexists|]. destruct rk_waiting0 as [l []]. exists l. split; try done.
    intros f rid Hin HnX. destruct (wt_unserved0 f rid Hin) as [H1 H2]; [tauto|]. split; [done|].
    intros q Hq. destruct (decide (NamespaceLookup.routesAt (namespaceTree_ (rs_relay ns)) q = [])) as [|Hne]; [done|exfalso].
    destruct (Hw q Hne) as [Hne'|(n & Hn & ->)]; [by destruct (Hne' (H2 q Hq))|]. apply HnX. right. apply Exists_exists.
    exists (WakeUnderNamespace n). split; [done|]. cbn. rewrite !rev_alt in Hq. by apply prefix_suffix_reverse.
  - eexists _, _. split; [done|]. split; [|done]. revert Hok'. apply relay_ok_mono. intros f [H1 H2]. split; [done|].
    intros session forwarder ->. apply H2, Exists_exists. exists (WakeForTrack f). split; [by eapply Hp|done].
Qed.

(** Every handler but a PUBLISH. *)
Lemma nsStep_keeps op X held s : (forall f session forwarder, op <> RPublish f session forwarder) ->
  relay_ok X None held s -> relay_op_ok op (rl_ns s) -> counter s + 1 < u64_modulus ->
  exists evs s', nsStep op s = Some (evs, s') /\ relay_ok X None held s' /\ counter s' = counter s.
Proof.
  intros Hn Hok Hop Hc. destruct (nsStep_ok op X held s Hok Hop Hc) as (evs & s' & E1 & Hok' & Hc').
  exists evs, s'. split; [done|]. split; [|done]. revert Hok'. apply relay_ok_mono. tauto.
Qed.

(** *** The handlers of the registry *)
Lemma performEvents_ok evs : forall X held s, relay_ok X None held s -> counter s + 1 < u64_modulus ->
  exists es s', performEvents evs s = Some (es, s') /\ relay_ok X None held s' /\ counter s' = counter s.
Proof.
  induction evs as [|e evs IH]; intros X held s Hok Hc; cbn [RelayRequests.performEvents]; [by eexists _, _|].
  assert (H1 : exists es s', performEvent relayID_ relayHopID_ allowed mode activityThreshold hasCache getExecutor e s = Some (es, s') /\
    relay_ok X None held s' /\ counter s' = counter s).
  { destruct e; cbn [performEvent]; try (by eexists _, _).
    destruct (nsStep_keeps (RPublishDone f) X held s) as (es & s' & E1 & H); [done|done|done|done|].
    unfold mbind, M_bind. rewrite E1. by eexists _, _. }
  destruct H1 as (es & s1 & E1 & Hok1 & Hc1). unfold mbind, M_bind. rewrite E1.
  destruct (IH X held s1 Hok1) as (es' & s2 & E2 & Hok2 & Hc2); [congruence|]. rewrite E2.
  eexists _, _. split; [done|]. split; [done|congruence].
Qed.
Lemma handle_ok op X held s : quiet op -> relay_ok X None held s -> counter s + 1 < u64_modulus ->
  exists es s', handle op s = Some (es, s') /\ relay_ok X None held s' /\ counter s' = counter s.
Proof.
  intros Hq Hok Hc. destruct (quiet_ok op X None held s Hq Hok Hc) as (evs & r' & E1 & Hok1 & Hc1).
  unfold RelayRequests.handle, mbind, M_bind. rewrite E1.
  destruct (performEvents_ok evs X held _ Hok1) as (es & s' & E2 & Hok2 & Hc2); [congruence|]. rewrite E2.
  eexists _, _. split; [done|]. split; [done|congruence].
Qed.
End parts.
