(* ===== verification/RelayRequestsTheorems.v ===== *)
(** The request coroutines of the relay over any interleaving with the rest of it
    (MoqxRelay.cpp): every step keeps the invariant, nothing aborts, no wake-up is
    lost, every ticket is held by one request, and no request is served through
    its requester. *)

From S2P Require Import Prelude Location CacheState NamespaceTree NamespaceInv NamespaceSpec NamespaceRoutes NamespaceTheorems NamespaceLookup Rendezvous.
From S2P Require Import RelayNamespaces RelayTold RelayInv RelayRoutes RelaySubscribe RelaySystem Promise TopN Registry RegistryRelay.
From S2P Require Import RegistryInv RegistryTheorems RelayRequests RelayRequestsInv CacheWitness RelayNsTheorems.
Local Open Scope Z_scope.

Section steps.
Context {SA : SessionApi} {SL : SessionLaws SA} {E : Type} {HC : HopCodec E} {hop_ok : Z -> Prop} {HL : HopCodecLaws HC hop_ok}.
Context {RA : RequestApi} {EA : ExtensionsApi}.
Context (relayID_ : string) (relayHopID_ : Z) (allowed : list string) (Hhop : hop_ok relayHopID_).
Context (mode : Mode) (activityThreshold : Z) (hasCache : bool) (getExecutor : Session -> Z) (upstreams_ : list Z).
Context (Hmode : isLocalForwarder mode = false).
Implicit Types (s : Relay) (f : FullTrackName) (rid : Z).

Abbreviation relay_ok := (relay_ok relayHopID_ mode (hop_ok := hop_ok) (E := E)).
Abbreviation regStep := (regStep mode activityThreshold hasCache getExecutor).
Abbreviation R := (M Relay (list (Event (E := E)))).

(** ** The frame of the running request *)
Definition frame_ok (fr : Frame) (held : list InFlight) s : Prop :=
  match fr with
  | Parked _ _ => False
  | AwaitsUpstream _ _ t _ => held = [t]
  | AwaitsFirst _ _ p => held = [] /\ is_Some (heap (promises (theRegistry s)) !! p)
  | _ => held = []
  end.

(** The ticket of a frame. *)
Definition heldBy (fr : Frame) : list InFlight := match fr with AwaitsUpstream _ _ t _ => [t] | _ => [] end.

Lemma others_run rid s : others (Some rid) s !! rid = None.
Proof. apply lookup_delete_eq. Qed.
Lemma others_suspended rid fr s x :
  <[rid := fr]> (frames s) !! x = if decide (x = rid) then Some fr else others (Some rid) s !! x.
Proof.
  destruct (decide (x = rid)) as [->|Hne]; [by rewrite lookup_insert_eq|].
  unfold others. by rewrite lookup_insert_ne, lookup_delete_ne.
Qed.

Lemma suspend_ok rid fr X held s : relay_ok X (Some rid) held s -> rid < nextRequest s -> frame_ok fr held s ->
  exists s', suspend (E := E) rid fr s = Some ([], s') /\ relay_ok X None [] s' /\ counter s' = counter s.
Proof.
  intros [] Hr Hfr. eexists. split; [done|]. split; [|done]. set (s' := set_frames _ s).
  assert (Hl : forall x, others None s' !! x = if decide (x = rid) then Some fr else others (Some rid) s !! x) by apply others_suspended.
  assert (Hpk : forall f x, parkedOn (others None s') f x <-> parkedOn (others (Some rid) s) f x).
  { intros f x. unfold parkedOn. setoid_rewrite Hl. destruct (decide (x = rid)) as [->|]; [|done]. rewrite others_run.
    split; [|by intros (? & ? & ? & _)]. intros (q & ss & [= ->] & _). done. }
  assert (Haw : forall x t, awaits (others None s') x t <->
    (x = rid /\ t ∈ held) \/ awaits (others (Some rid) s) x t).
  { intros x t. unfold awaits. setoid_rewrite Hl. destruct (decide (x = rid)) as [->|]; [|naive_solver]. rewrite others_run.
    split.
    - intros (q & ss & fw & [= ->]). left. split; [done|]. cbn in Hfr. rewrite Hfr. by left.
    - intros [[_ Hin]|(? & ? & ? & ?)]; [|done]. assert (Hh : held = heldBy fr) by (destruct fr; cbn in Hfr; try done; apply Hfr). rewrite Hh in Hin.
      destruct fr; try (by apply elem_of_nil in Hin). apply list_elem_of_singleton in Hin as ->. eauto. }
  split; try done.
  - destruct rk_waiting as [l []]. exists l. split; try done. intros f x. by rewrite Hpk.
  - intros x. change (frames s') with (others None s'). rewrite Hl. destruct (decide (x = rid)) as [->|]; [done|].
    cbn. intros [fr' [_ Hx]%lookup_delete_Some]. apply rk_known. eauto.
  - intros t. etrans; [apply rk_tickets|]. setoid_rewrite Haw. rewrite elem_of_nil. naive_solver.
  - intros x y t [[-> Hx]|Hx]%Haw [[-> Hy]|Hy]%Haw; [done| | |by eapply rk_unique].
    + by destruct (rk_held t Hx y).
    + by destruct (rk_held t Hy x).
  - intros t Ht. by apply elem_of_nil in Ht.
  - intros x q ss p. rewrite Hl. destruct (decide (x = rid)) as [->|]; [|apply rk_futures]. intros [= ->]. apply Hfr.
Qed.

Lemma reply_ok rid session r X s : relay_ok X (Some rid) [] s ->
  exists evs s', reply (E := E) rid session r s = Some (evs, s') /\ relay_ok X None [] s' /\ counter s' = counter s.
Proof.
  intros []. eexists _, _. split; [done|]. split; [|done]. split; try done.
  - destruct rk_waiting as [l []]. by exists l.
  - intros x. cbn. intros [fr [_ Hx]%lookup_delete_Some]. apply rk_known. eauto.
Qed.

(** A suspended request is resumed. *)
Lemma resume_ok rid fr X s : relay_ok X None [] s -> frames s !! rid = Some fr -> (forall q ss, fr <> Parked q ss) ->
  relay_ok X (Some rid) (heldBy fr) s /\ rid < nextRequest s.
Proof.
  intros [] Hf Hnp. split; [|apply rk_known; eauto].
  assert (Hl : forall x, others (Some rid) s !! x = if decide (x = rid) then None else frames s !! x).
  { intros x. unfold others. destruct (decide _) as [->|]; [by rewrite lookup_delete_eq|by rewrite lookup_delete_ne]. }
  assert (Hpk : forall f x, parkedOn (others (Some rid) s) f x <-> parkedOn (others None s) f x).
  { intros f x. unfold parkedOn. setoid_rewrite Hl. cbn. destruct (decide (x = rid)) as [->|]; [|done]. rewrite Hf.
    split; [by intros (? & ? & ? & _)|]. intros (q & ss & [= ->] & _). by destruct (Hnp q ss). }
  assert (Haw : forall x t, awaits (others None s) x t <-> (x = rid /\ t ∈ heldBy fr) \/ awaits (others (Some rid) s) x t).
  { intros x t. unfold awaits. setoid_rewrite Hl. cbn. destruct (decide (x = rid)) as [->|]; [|naive_solver]. rewrite Hf. split.
    - intros (q & ss & fw & [= ->]). left. split; [done|]. by left.
    - intros [[_ Hin]|(? & ? & ? & ?)]; [|done]. destruct fr; try (by apply elem_of_nil in Hin).
      apply list_elem_of_singleton in Hin as ->. eauto. }
  split; try done.
  - destruct rk_waiting as [l []]. exists l. split; try done. intros f x. by rewrite Hpk.
  - intros t. etrans; [apply rk_tickets|]. setoid_rewrite Haw. rewrite elem_of_nil. naive_solver.
  - intros x y t Hx Hy. apply (rk_unique x y t); apply Haw; by right.
  - intros t Ht x Hx. assert (x = rid) as -> by (apply (rk_unique x rid t); apply Haw; [by right|by left]).
    destruct Hx as (q & ss & fw & Hx). by rewrite others_run in Hx.
  - intros x q ss p. rewrite Hl. destruct (decide _); [done|]. apply rk_futures.
Qed.

(** A new request. *)
Definition bumpRequest s : Relay :=
  mkRelay (rl_ns s) (rl_reg s) (pendingRendezvous_ s) (batons s) (frames s) (nextRequest s + 1).
Lemma new_ok X s : relay_ok X None [] s ->
  relay_ok X (Some (nextRequest s)) [] (bumpRequest s) /\ nextRequest s ∉ batons (bumpRequest s).
Proof.
  intros []. assert (Hno : frames s !! nextRequest s = None).
  { apply eq_None_not_Some. intros H%rk_known. lia. }
  assert (Hl : others (Some (nextRequest s)) (bumpRequest s) = frames s) by (by apply delete_id).
  split; [|intros H%rk_batons; cbn in H; lia]. split; rewrite ?Hl; try done.
  - destruct rk_waiting as [l []]. exists l. split; try done. by rewrite Hl.
  - intros rid H%rk_known. cbn. lia.
  - intros rid H%rk_batons. cbn. lia.
Qed.

(** ** Parking *)
Lemma eraseParked_ok rid q session X s : relay_ok X None [] s -> frames s !! rid = Some (Parked q session) ->
  exists s', eraseParked rid (sq_fullTrackName q) s = Some (tt, s') /\ relay_ok X (Some rid) [] s' /\
    rid < nextRequest s' /\ counter s' = counter s.
Proof.
  intros [] Hf. eexists. split; [done|]. split; [|split; [apply (rk_known rid); eauto|done]]. set (s' := set_pending _ _ s).
  assert (Hl : forall x, others (Some rid) s' !! x = if decide (x = rid) then None else frames s !! x).
  { intros x. cbn. destruct (decide _) as [->|]; [by rewrite lookup_delete_eq|by rewrite lookup_delete_ne]. }
  assert (Haw : forall x t, awaits (others (Some rid) s') x t <-> awaits (others None s) x t).
  { intros x t. unfold awaits. setoid_rewrite Hl. cbn. destruct (decide _) as [->|]; [|done]. rewrite Hf. naive_solver. }
  split; try done.
  - destruct rk_waiting as [l []]. destruct (step_sim (Unpark (sq_fullTrackName q) rid) _ l wt_sim) as [Hsim _].
    cbn [rv_step spec_step fst] in Hsim.
    assert (Hiff : forall f x, (f, x) ∈ filter (fun y => y <> (sq_fullTrackName q, rid)) l <->
      parkedOn (others (Some rid) s') f x /\ x ∉ batons s').
    { intros f x. rewrite list_elem_of_filter, wt_parked. unfold parkedOn. setoid_rewrite Hl. cbn [batons set_pending s' others].
      destruct (decide (x = rid)) as [->|Hne].
      - split; [|naive_solver]. intros [Hn [(q' & ss & Hp & <-) _]]. rewrite Hf in Hp. by injection Hp as <- <-.
      - assert (x ∈ batons s ∖ {[rid]} <-> x ∈ batons s) as -> by set_solver. naive_solver. }
    eexists. split; [exact Hsim| |exact Hiff|].
    + clear -wt_nodup. induction l as [|x l IH]; [done|]. apply NoDup_cons in wt_nodup as [H1 H2]. rewrite filter_cons.
      case_decide; [|auto]. apply NoDup_cons. split; [|auto]. intros (y & Hy & [_ Hin]%list_elem_of_filter)%list_elem_of_fmap.
      apply H1, list_elem_of_fmap. eauto.
    + intros f x [_ Hin]%list_elem_of_filter HX. by apply (wt_unserved f x).
  - intros x. cbn. rewrite elem_of_difference. intros [H _]. auto.
  - intros t. setoid_rewrite Haw. apply rk_tickets.
  - intros x y t. rewrite !Haw. apply rk_unique.
  - intros t Ht. by apply elem_of_nil in Ht.
  - intros x q' ss p. rewrite Hl. destruct (decide _); [done|]. apply rk_futures.
Qed.

Lemma park_ok rid q session timeout s : relay_ok nowhere (Some rid) [] s -> rid < nextRequest s -> rid ∉ batons s ->
  unserved s (sq_fullTrackName q) ->
  exists evs s', (modify (fun s => set_pending (addWaiter (sq_fullTrackName q) rid (pendingRendezvous_ s)) (batons s) s);;
      evs ← suspend (E := E) rid (Parked q session); mret (WaitsFor rid timeout :: evs)) s = Some (evs, s') /\
    relay_ok nowhere None [] s' /\ counter s' = counter s.
Proof.
  intros [] Hr Hb Hun. eexists _, _. split; [done|]. split; [|done]. set (s' := set_frames _ _).
  assert (Hl : forall x, others None s' !! x = if decide (x = rid) then Some (Parked q session) else others (Some rid) s !! x)
    by exact (others_suspended rid (Parked q session) s).
  assert (Haw : forall x t, awaits (others None s') x t <-> awaits (others (Some rid) s) x t).
  { intros x t. unfold awaits. setoid_rewrite Hl. destruct (decide _) as [->|]; [|done]. rewrite others_run. naive_solver. }
  split; try done.
  - destruct rk_waiting as [l []]. destruct (step_sim (Park (sq_fullTrackName q) rid) _ l wt_sim) as [Hsim _].
    cbn [rv_step spec_step fst] in Hsim. exists (l ++ [(sq_fullTrackName q, rid)]). split; [exact Hsim| | |].
    + rewrite fmap_app. apply NoDup_app. split; [done|]. split; [|apply NoDup_singleton]. cbn.
      intros x ([f y] & Hx & Hin)%list_elem_of_fmap ->%list_elem_of_singleton. cbn in Hx. subst y.
      apply wt_parked in Hin as [(q' & ss & Hin & _) _]. cbn in Hin. by rewrite lookup_delete_eq in Hin.
    + intros f x. rewrite elem_of_app, list_elem_of_singleton, wt_parked. unfold parkedOn. setoid_rewrite Hl. cbn [batons s' set_frames set_pending].
      destruct (decide (x = rid)) as [->|Hne]; [|naive_solver]. rewrite others_run. naive_solver.
    + intros f x [Hin|[= -> ->]%list_elem_of_singleton]%elem_of_app HX; [apply (wt_unserved f x Hin HX)|exact Hun].
  - intros x. change (frames s') with (others None s'). rewrite Hl. destruct (decide (x = rid)) as [->|]; [done|].
    cbn. intros [fr' [_ Hx]%lookup_delete_Some]. apply rk_known. eauto.
  - intros t. setoid_rewrite Haw. apply rk_tickets.
  - intros x y t. rewrite !Haw. apply rk_unique.
  - intros t Ht. by apply elem_of_nil in Ht.
  - intros x q' ss p. rewrite Hl. destruct (decide _); [done|]. apply rk_futures.
Qed.

(** ** The coroutines *)
(** From [s] the code runs to the next suspension, and the invariant holds there. *)
Definition finishes (c : Z) (m : R) s : Prop :=
  exists evs s', m s = Some (evs, s') /\ relay_ok nowhere None [] s' /\ counter s' <= c.

Lemma finishes_suspend rid fr held s : relay_ok nowhere (Some rid) held s -> rid < nextRequest s -> frame_ok fr held s ->
  finishes (counter s) (suspend rid fr) s.
Proof. intros H1 H2 H3. destruct (suspend_ok rid fr nowhere held s H1 H2 H3) as (s' & ? & ? & ?). exists [], s'. split_and!; [done|done|lia]. Qed.
Lemma finishes_reply rid session r s : relay_ok nowhere (Some rid) [] s -> finishes (counter s) (reply rid session r) s.
Proof. intros H1. destruct (reply_ok rid session r nowhere s H1) as (evs & s' & ? & ? & ?). exists evs, s'. split_and!; [done|done|lia]. Qed.
(** What is done with the events does not matter. *)
Lemma finishes_map c m (g : list Event -> list Event) s : finishes c m s -> finishes c (evs ← m; mret (g evs)) s.
Proof. intros (evs & s' & E1 & H). exists (g evs), s'. unfold mbind, M_bind. by rewrite E1. Qed.
Lemma finishes_le c c' m s : c <= c' -> finishes c m s -> finishes c' m s.
Proof. intros Hc (evs & s' & E1 & H & H'). exists evs, s'. split_and!; [done|done|lia]. Qed.

Lemma attachSubscriber_ok rid q session fw en s : relay_ok nowhere (Some rid) [] s ->
  finishes (counter s) (attachSubscriber rid q session fw en) s.
Proof.
  intros H. unfold attachSubscriber. destruct (fw_addSubscriber _); [|by apply finishes_reply].
  by apply (finishes_map _ _ (fun evs => TriesNewGroup fw true :: requestFill fw q ++ evs)), finishes_reply.
Qed.

Lemma resumeSubsequent_ok rid q session p en s : relay_ok nowhere (Some rid) [] s -> rid < nextRequest s ->
  is_Some (heap (promises (theRegistry s)) !! p) -> finishes (counter s) (resumeSubsequent rid q session p en) s.
Proof.
  intros Hok Hr Hp.
  assert (Hj : forall ref, awaitSubsequent (sq_fullTrackName q) p (theRegistry s) = Joined ref -> is_Some (getIfOwned ref)).
  { intros ref. unfold awaitSubsequent. destruct (heap _ !! p) as [[]|]; try done.
    destruct (subscriptions_ (theRegistry s) !! _) as [e|] eqn:He; [|done]. intros [= <-].
    apply (ro_owned _ _ _ (rk_reg _ _ _ _ _ _ Hok) (sq_fullTrackName q) e); [by rewrite Hmode|done]. }
  unfold resumeSubsequent, finishes, mbind, M_bind. cbn [get].
  destruct (awaitSubsequent _ _ _) as [| |ref]; [by eapply finishes_suspend|by apply finishes_reply|].
  destruct (Hj ref eq_refl) as [fw Hfw]. destruct (excludedFromSubscription _ _ _); [by apply finishes_reply|].
  rewrite Hfw. cbn. destruct (checkRangeNotInPast _ _ _); [by apply finishes_reply|by apply attachSubscriber_ok].
Qed.

(** The end of the ticket of the running request. *)
Lemma filter_held t (l : list InFlight) (P : InFlight -> Prop) : (forall x, x ∈ l <-> x ∈ [t] \/ P x) -> ~ P t ->
  forall x, x ∈ filter (fun x => x <> t) l <-> x ∈ [] \/ P x.
Proof.
  intros H Hn x. rewrite list_elem_of_filter, H, list_elem_of_singleton, elem_of_nil. split; [naive_solver|].
  intros [[]|Hx]. split; [|by right]. by intros ->.
Qed.

Lemma request_abandon_ok rid t s : relay_ok nowhere (Some rid) [t] s -> counter s + 1 < u64_modulus ->
  exists s', regStep (OpAbandon t) s = Some ([], s') /\ relay_ok nowhere (Some rid) [] s' /\ counter s' = counter s /\
    nextRequest s' = nextRequest s.
Proof.
  intros Hok Hc. assert (Hin : t ∈ rg_inflight (rl_reg s)) by (apply (rk_tickets _ _ _ _ _ _ Hok); left; by left).
  destruct (abandon_step mode activityThreshold hasCache getExecutor sessionId t (rl_reg s) (rk_reg _ _ _ _ _ _ Hok)
    (rk_sources _ _ _ _ _ _ Hok) Hin Hc) as (r' & Hst & Hok' & Hs' & K).
  unfold RelayRequests.regStep. rewrite Hst. eexists. split; [done|]. split; [|split; [apply (kp_counter _ _ K)|done]].
  apply (reg_changed relayHopID_ mode nowhere nowhere (Some rid) [t] []); try done.
  - cbn [rg_inflight]. apply filter_held; [apply Hok|]. intros [x Hx]. by apply (rk_held _ _ _ _ _ _ Hok t (list_elem_of_here _ _) x).
  - intros x Hx. by apply elem_of_nil in Hx.
  - apply (kp_heap _ _ K).
  - intros f [e He]. left. destruct (kp_entries _ _ K f e He) as (e0 & He0 & _). by exists e0.
Qed.

Lemma request_complete_ok rid t h id s : relay_ok nowhere (Some rid) [t] s -> counter s + 1 < u64_modulus ->
  exists ok evs s', regStep (OpComplete t h id (Some (if_upstream t))) s = Some (Completed ok :: evs, s') /\
    relay_ok nowhere (Some rid) [] s' /\ counter s' = counter s.
Proof.
  intros Hok Hc. assert (Hin : t ∈ rg_inflight (rl_reg s)) by (apply (rk_tickets _ _ _ _ _ _ Hok); left; by left).
  destruct (complete_step mode activityThreshold hasCache getExecutor sessionId t h id (rl_reg s) (rk_reg _ _ _ _ _ _ Hok)
    (rk_sources _ _ _ _ _ _ Hok) Hin Hc) as (r' & ok & evs & Hst & Hok' & Hs' & Hcnt & Hheap & Hnames).
  unfold RelayRequests.regStep. rewrite Hst. eexists _, _, _. split; [done|]. split; [|done].
  apply (reg_changed relayHopID_ mode nowhere nowhere (Some rid) [t] []); try done.
  - cbn [rg_inflight]. apply filter_held; [apply Hok|]. intros [x Hx]. by apply (rk_held _ _ _ _ _ _ Hok t (list_elem_of_here _ _) x).
  - intros x Hx. by apply elem_of_nil in Hx.
  - intros f H. left. by apply Hnames.
Qed.

Lemma firstSubscriber_ok rid q session u fw c ep f en s : relay_ok nowhere (Some rid) [mkInFlight f ep u] s -> rid < nextRequest s ->
  counter s + 1 < u64_modulus ->
  finishes (counter s) (firstSubscriber mode activityThreshold hasCache getExecutor rid q session u fw c (mkPending f ep true) en) s.
Proof.
  intros Hok Hr Hc. unfold firstSubscriber. cbn [up_ftn up_epoch]. destruct (fw_addSubscriber _).
  - apply (finishes_map _ _ (fun evs => SendsSubscribe rid session u _ c :: evs)). by eapply finishes_suspend.
  - destruct (request_abandon_ok rid _ s Hok Hc) as (s' & E1 & Hok' & Hc' & _). unfold finishes, mbind, M_bind. rewrite E1. rewrite <- Hc'.
    by apply finishes_reply.
Qed.

Lemma joinOrSubscribe_ok rid q session en s : relay_ok nowhere (Some rid) [] s -> rid < nextRequest s ->
  counter s + 2 < u64_modulus ->
  finishes (counter s + 1) (joinOrSubscribe mode activityThreshold hasCache getExecutor rid q session en) s.
Proof.
  intros Hok Hr Hc. pose proof (relay_ok_tree _ _ _ _ _ _ Hok) as Htree.
  unfold joinOrSubscribe, RelayRequests.regStep, finishes, mbind, M_bind. cbn [get]. cbv zeta.
  set (f := sq_fullTrackName q). set (up := findUpstreamPublisher _ _ s).
  assert (Hokr := rk_reg _ _ _ _ _ _ Hok). unfold counter, theRegistry in Hc.
  rewrite subscribe_step by (done || lia). cbv zeta.
  destruct (subscriptions_ (rg_registry (rl_reg s)) !! f) as [e|] eqn:He.
  { apply (finishes_le (counter s)); [lia|]. replace (set_reg (rl_reg s) s) with s by (by destruct s). apply resumeSubsequent_ok; [done|done|].
    exists (if decide ((f, rs_epoch e) ∈ tickets (rl_reg s)) then Unfulfilled else Value). apply (ro_promise _ _ _ Hokr f e He). }
  destruct (reg_step_ok mode activityThreshold hasCache getExecutor sessionId (OpSubscribe f up (en_now en)) (rl_reg s) Hokr)
    as (r' & evs & Hst & Hok' & _); [lia|]. rewrite subscribe_step in Hst by (done || lia). cbv zeta in Hst. rewrite He in Hst.
  destruct up as [u|] eqn:Hup; injection Hst as <- <-.
  - set (r' := mkRegSys _ _) in *. cbn [deref mret M_ret].
    assert (Hok1 : relay_ok nowhere (Some rid) [mkInFlight f (epochCounter_ (rg_registry (rl_reg s)) + 1) u] (set_reg r' s)).
    { apply (reg_changed relayHopID_ mode nowhere nowhere (Some rid) []); try done.
      - by apply subscribe_sources; [|apply Hok].
      - intros t. unfold r'. cbn [rg_inflight]. rewrite elem_of_cons, (rk_tickets _ _ _ _ _ _ Hok t), list_elem_of_singleton, elem_of_nil. tauto.
      - intros t ->%list_elem_of_singleton x Hx.
        assert (Hin : mkInFlight f (epochCounter_ (rg_registry (rl_reg s)) + 1) u ∈ rg_inflight (rl_reg s))
          by (apply (rk_tickets _ _ _ _ _ _ Hok); right; by exists x).
        apply in_tickets in Hin. by apply (fresh_ticket mode (rl_reg s) f Hokr).
      - intros p Hp. unfold r'. cbn [rg_registry]. by apply added_heap.
      - intros f' Hf'. unfold r' in Hf'. cbn in Hf'. apply lookup_insert_is_Some in Hf' as [<-|[_ ?]]; [|by left].
        right; right. intros Hun. apply (unrouted_none sessionId _ _ (default noExclusion (exclusionFor (Some session))) Htree) in Hun.
        change (up = None) in Hun. congruence. }
    apply (firstSubscriber_ok rid q session u _ _ _ f en _ Hok1); [done|]. unfold counter, theRegistry. cbn. lia.
  - apply (finishes_le (counter s)); [lia|]. apply (finishes_reply rid session _ (set_reg (mkRegSys (bumped (rg_registry (rl_reg s))) (rg_inflight (rl_reg s))) s)).
    apply (reg_changed relayHopID_ mode nowhere nowhere (Some rid) [] []); try done; try apply Hok.
    intros f' Hf'. by left.
Qed.

Abbreviation subscribeResolved := (subscribeResolved mode activityThreshold hasCache getExecutor upstreams_ (E := E)).
Abbreviation relayStep := (relayStep relayID_ relayHopID_ allowed mode activityThreshold hasCache getExecutor upstreams_ (E := E)).

Lemma subscribeResolved_ok rid q session en s : relay_ok nowhere (Some rid) [] s -> rid < nextRequest s ->
  counter s + 2 < u64_modulus -> finishes (counter s + 1) (subscribeResolved rid q session en) s.
Proof.
  intros Hok Hr Hc. unfold RelayRequests.subscribeResolved, finishes, mbind, M_bind. cbn [get]. cbv zeta. case_match.
  - apply (finishes_le (counter s)); [lia|]. by eapply finishes_suspend.
  - by apply joinOrSubscribe_ok.
Qed.

Lemma rendezvous_ok rid q session timeout en s : relay_ok nowhere (Some rid) [] s -> rid < nextRequest s -> rid ∉ batons s ->
  counter s + 2 < u64_modulus ->
  finishes (counter s + 1) (rendezvousWithPublisherOrTimeout mode activityThreshold hasCache getExecutor upstreams_ rid q session timeout en) s.
Proof.
  intros Hok Hr Hb Hc. unfold rendezvousWithPublisherOrTimeout, finishes. unfold mbind at 1, M_bind at 1. cbn [get]. cbv zeta.
  destruct (registry_exists _ _ || _) eqn:Hor; [by apply subscribeResolved_ok|]. apply orb_false_iff in Hor as [H1 H2].
  apply (finishes_le (counter s)); [lia|].
  destruct (park_ok rid q session timeout s Hok Hr Hb) as (evs & s' & E1 & Hok' & Hc'); [split|].
  - unfold registry_exists in H1. apply bool_decide_eq_false in H1. by apply eq_None_not_Some.
  - apply bool_decide_eq_false, eq_None_not_Some in H2. by apply (none_unrouted sessionId); [apply (relay_ok_tree _ _ _ _ _ _ Hok)|].
  - exists evs, s'. split_and!; [exact E1|done|lia].
Qed.

(** The negotiated version is known. *)
Lemma namespaceMissing_run f session s : exists b, namespaceMissing f session s = Some (b, s).
Proof.
  unfold namespaceMissing, emptyNamespaceAllowed, mbind, M_bind. destruct (bool_decide _); [|by eexists].
  destruct (version_negotiated session) as [v ->]. by eexists.
Qed.

Lemma subscribeImpl_ok rid q session en s : relay_ok nowhere (Some rid) [] s -> rid < nextRequest s -> rid ∉ batons s ->
  counter s + 2 < u64_modulus ->
  finishes (counter s + 1) (subscribeImpl mode activityThreshold hasCache getExecutor upstreams_ rid q session en) s.
Proof.
  intros Hok Hr Hb Hc. unfold subscribeImpl, finishes. unfold mbind at 1, M_bind at 1.
  destruct (namespaceMissing_run (sq_fullTrackName q) session s) as [[] ->].
  { apply (finishes_le (counter s)); [lia|]. by apply finishes_reply. }
  destruct (takeRendezvousTimeout _ _ _ _ _ _) as [[timeout|] params]; [by apply rendezvous_ok|by apply subscribeResolved_ok].
Qed.

Lemma rendezvousEnds_ok rid q session how en s : relay_ok nowhere None [] s -> frames s !! rid = Some (Parked q session) ->
  counter s + 2 < u64_modulus ->
  finishes (counter s + 1) (rendezvousEnds mode activityThreshold hasCache getExecutor upstreams_ rid q session how en) s.
Proof.
  intros Hok Hf Hc. destruct (eraseParked_ok rid q session nowhere s Hok Hf) as (s' & E1 & Hok' & Hr & Hc').
  unfold rendezvousEnds, finishes, mbind, M_bind. cbn [get].
  assert (Hreply : forall r, finishes (counter s + 1) (reply rid session r) s').
  { intros r. apply (finishes_le (counter s')); [lia|]. by apply finishes_reply. }
  destruct how; rewrite ?E1; try apply Hreply.
  case_decide; [|exists [], s; split_and!; [done|done|lia]]. rewrite E1, <- Hc'. apply subscribeResolved_ok; [done|done|lia].
Qed.

Lemma upstreamAnswers_ok rid q session t fw answer s : relay_ok nowhere (Some rid) [t] s -> counter s + 1 < u64_modulus ->
  finishes (counter s) (upstreamAnswers mode activityThreshold hasCache getExecutor rid q session t fw answer) s.
Proof.
  intros Hok Hc. unfold upstreamAnswers, subscribeUpstreamAndApplyOk. destruct answer as [ok|[code reason]].
  - destruct (request_complete_ok rid t (uo_handle ok) (uo_requestID ok) s Hok Hc) as (b & evs & s' & E1 & Hok' & <-).
    unfold finishes. unfold mbind at 1, M_bind at 1. rewrite E1. cbv zeta. destruct b.
    + by apply (finishes_map _ _ (fun es => _ ++ _ ++ _ ++ es)), finishes_reply.
    + by apply (finishes_map _ _ (fun es => _ ++ es)), finishes_reply.
  - destruct (request_abandon_ok rid t s Hok Hc) as (s' & E1 & Hok' & <- & _). unfold finishes, mbind, M_bind. rewrite E1.
    by apply finishes_reply.
Qed.

(** *** FETCH and TRACK_STATUS *)
Lemma sendFetch_ok rid q session u s : relay_ok nowhere (Some rid) [] s -> finishes (counter s) (sendFetch hasCache rid q session u) s.
Proof.
  intros H. unfold sendFetch. destruct u; [|by apply finishes_reply].
  by apply (finishes_map _ _ (fun es => _ :: es)), finishes_reply.
Qed.
Lemma sendTrackStatus_ok rid q session u s : relay_ok nowhere (Some rid) [] s -> finishes (counter s) (sendTrackStatus rid q session u) s.
Proof.
  intros H. unfold sendTrackStatus. destruct u; [|by apply finishes_reply].
  by apply (finishes_map _ _ (fun es => _ :: es)), finishes_reply.
Qed.

(** moxygen: a FETCH of a draft without Fetch Type is standalone. *)
Definition fetch_ok (q : Fetch) (session : Session) : Prop :=
  fetchType q <> None -> useFillFetch (default 0 (getNegotiatedVersion session)) = false.

Lemma resolveJoining_run q session en X run held s : relay_ok X run held s ->
  exists r, resolveJoining mode q session en s = Some (r, s).
Proof.
  intros Hok. unfold resolveJoining. destruct (fetchType q) as [j|]; [|by eexists]. rewrite Hmode. unfold mbind, M_bind. cbn [get].
  unfold getFetchView. destruct (subscriptions_ (theRegistry s) !! ft_fullTrackName q) as [e|] eqn:He; [|by eexists]. cbn.
  destruct (isFulfilled _ _); [|by eexists].
  destruct (ro_owned _ _ _ (rk_reg _ _ _ _ _ _ Hok) _ e ltac:(by rewrite Hmode) He) as [fw ->]. by eexists.
Qed.

Lemma fetchImpl_ok rid q session en s : fetch_ok q session -> relay_ok nowhere (Some rid) [] s -> rid < nextRequest s ->
  finishes (counter s) (fetchImpl mode hasCache upstreams_ rid q session en) s.
Proof.
  intros Hq Hok Hr. unfold fetchImpl, finishes. unfold mbind at 1, M_bind at 1.
  destruct (namespaceMissing_run (ft_fullTrackName q) session s) as [[] ->]; [by apply finishes_reply|].
  assert (bool_decide (fetchType q = None) || negb (useFillFetch (default 0 (getNegotiatedVersion session))) = true) as ->.
  { case_bool_decide as Hd; [done|]. cbn. by rewrite (Hq Hd). }
  unfold mbind, M_bind. cbn [xcheck mret M_ret]. destruct (resolveJoining_run q session en _ _ _ s Hok) as [[q'|e] ->]; [|by apply finishes_reply].
  cbn [get]. cbv zeta.
  assert (Hroute : finishes (counter s) (match findUpstreamPublisher (trackNamespace (ft_fullTrackName q')) (exclusionFor (Some session)) s with
      | Some u => sendFetch hasCache rid q' session (Some u)
      | None => if bool_decide (upstreams_ = []) then sendFetch hasCache rid q' session None
                else suspend rid (FetchWaits q' session upstreams_)
      end) s).
  { destruct (findUpstreamPublisher _ _ _); [by apply sendFetch_ok|]. case_bool_decide; [by apply sendFetch_ok|by eapply finishes_suspend]. }
  destruct (getFetchView _ _); [|done]. destruct (excludedFromSubscription _ _ _); [done|by apply sendFetch_ok].
Qed.

Lemma statusUpstream_ok rid q session view s : relay_ok nowhere (Some rid) [] s -> rid < nextRequest s ->
  finishes (counter s) (statusUpstream upstreams_ rid q session view) s.
Proof.
  intros Hok Hr. unfold statusUpstream, finishes, mbind, M_bind. cbn [get]. cbv zeta.
  assert (Hroute : finishes (counter s) (match findUpstreamPublisher (trackNamespace (ts_fullTrackName q)) (exclusionFor (Some session)) s with
      | Some u => sendTrackStatus rid q session (Some u)
      | None => if bool_decide (upstreams_ = []) then sendTrackStatus rid q session None
                else suspend rid (StatusWaits q session upstreams_)
      end) s).
  { destruct (findUpstreamPublisher _ _ _); [by apply sendTrackStatus_ok|].
    case_bool_decide; [by apply sendTrackStatus_ok|by eapply finishes_suspend]. }
  destruct view; [|done]. destruct (excludedFromSubscription _ _ _); [done|by apply sendTrackStatus_ok].
Qed.

Lemma trackStatusImpl_ok rid q session en s : relay_ok nowhere (Some rid) [] s -> rid < nextRequest s ->
  finishes (counter s) (trackStatusImpl mode getExecutor upstreams_ rid q session en) s.
Proof.
  intros Hok Hr. unfold trackStatusImpl, finishes, mbind, M_bind.
  destruct (namespaceMissing_run (ts_fullTrackName q) session s) as [[] ->]; [by apply finishes_reply|]. cbn [get]. cbv zeta.
  destruct (getUpstreamView _ _ _) as [v|]; [|by apply statusUpstream_ok]. rewrite Hmode.
  destruct (getIfOwned _) as [fw|]; [|by apply statusUpstream_ok].
  destruct (0 <? _); [by apply finishes_reply|by apply statusUpstream_ok].
Qed.

Lemma statusRead_ok rid q session view ready s : relay_ok nowhere (Some rid) [] s -> rid < nextRequest s ->
  finishes (counter s) (statusRead upstreams_ rid q session view ready) s.
Proof.
  intros Hok Hr. unfold statusRead. destruct ready as [fw|]; [|by apply statusUpstream_ok].
  destruct (_ =? 0); [by apply statusUpstream_ok|by apply finishes_reply].
Qed.

Lemma upstreamWaitEnds_ok rid link fr en s : relay_ok nowhere None [] s -> frames s !! rid = Some fr ->
  counter s + 2 < u64_modulus ->
  finishes (counter s + 1) (upstreamWaitEnds mode activityThreshold hasCache getExecutor rid link fr en) s.
Proof.
  intros Hok Hf Hc. assert (Hno : finishes (counter s + 1) (mret []) s) by (exists [], s; split_and!; [done|done|lia]).
  assert (Hle : forall m, finishes (counter s) m s -> finishes (counter s + 1) m s) by (intros m; apply finishes_le; lia).
  unfold upstreamWaitEnds, finishes. unfold mbind at 1, M_bind at 1. cbn [get].
  destruct fr as [| q session links| | |q session links| |q session links]; try exact Hno;
    (case_decide; [|exact Hno]); cbv zeta;
    destruct (resume_ok rid _ nowhere s Hok Hf) as [Hok' Hr]; try done; cbn [heldBy] in Hok';
    apply (finishes_map _ _ (fun evs => cancels rid _ ++ evs)); (case_bool_decide; [|apply Hle; by eapply finishes_suspend]).
  - by apply joinOrSubscribe_ok.
  - by apply Hle, sendFetch_ok.
  - by apply Hle, sendTrackStatus_ok.
Qed.

(** *** PUBLISH *)
Lemma publish_ok f session requestID h now s : relay_ok nowhere None [] s -> counter s + 2 < u64_modulus ->
  finishes (counter s + 1) (publish relayID_ relayHopID_ allowed mode activityThreshold hasCache getExecutor f session requestID h now) s.
Proof.
  intros Hok Hc. unfold publish, emptyNamespaceAllowed, finishes, mbind, M_bind.
  destruct (version_negotiated session) as [v ->]. cbn [deref mret M_ret].
  destruct (validatePublishNamespace _ _ _ _); [exists [PublishRefused r], s; split_and!; [done|done|lia]|].
  rewrite Hmode. cbn [negb xcheck mret M_ret get]. cbv zeta. unfold handle, mbind, M_bind, RelayRequests.regStep.
  destruct (publish_step mode activityThreshold hasCache getExecutor sessionId f session requestID h now (rl_reg s)
    (rk_reg _ _ _ _ _ _ Hok) (rk_sources _ _ _ _ _ _ Hok)) as (r' & evs & -> & Hok' & Hs' & Hcnt & Hheap & Hnames & _).
  { unfold counter, theRegistry in Hc. lia. }
  assert (Hok1 : relay_ok (fun f' => f' = f) None [] (set_reg (mkRegSys r' (rg_inflight (rl_reg s))) s)).
  { apply (reg_changed relayHopID_ mode nowhere _ None [] []); try done.
    - apply Hok.
    - apply Hok.
    - intros f' [->|?]%Hnames; [right; by left|by left]. }
  assert (Hc1 : counter (set_reg (mkRegSys r' (rg_inflight (rl_reg s))) s) = counter s + 1) by done.
  destruct (performEvents_ok relayID_ relayHopID_ allowed Hhop mode activityThreshold hasCache getExecutor evs _ [] _ Hok1)
    as (es & s2 & -> & Hok2 & Hc2); [lia|].
  destruct (nsStep_ok relayID_ relayHopID_ allowed Hhop mode activityThreshold hasCache getExecutor
    (RPublish f session (nextForwarder (theRegistry s))) _ [] s2 Hok2 Logic.I) as (es' & s3 & -> & Hok3 & Hc3); [lia|].
  eexists _, s3. split; [done|]. split; [|lia]. revert Hok3. apply relay_ok_mono. intros f' [-> H]. by eapply H.
Qed.

(** ** Every step *)
Definition op_ok (op : Op (E := E)) s : Prop :=
  match op with
  | Announce pubNs session _ _ => announcement_ok session (pn_params pubNs)
  | UpdateAnnounced _ sid _ update => RelayRoutes.update_ok sid update
  | SubscribeNs q session _ _ _ => not_subscribed (theTree s) (sn_trackNamespacePrefix q) session
  | RequestFetch q session _ => fetch_ok q session
  | _ => True
  end.

Lemma relayStep_ok op s : relay_ok nowhere None [] s -> op_ok op s -> counter s + 2 < u64_modulus ->
  finishes (counter s + 1) (relayStep op) s.
Proof.
  intros Hok Hop Hc. assert (Hno : finishes (counter s + 1) (mret []) s) by (exists [], s; split_and!; [done|done|lia]).
  assert (Hns : forall o, (forall f ss fw, o <> RPublish f ss fw) -> relay_op_ok o (rl_ns s) ->
    finishes (counter s + 1) (nsStep relayID_ relayHopID_ allowed mode activityThreshold hasCache getExecutor o) s).
  { intros o Ho Hoo. destruct (nsStep_keeps relayID_ relayHopID_ allowed Hhop mode activityThreshold hasCache getExecutor o nowhere [] s Ho Hok Hoo)
      as (evs & s' & E1 & H1 & H2); [lia|]. exists evs, s'. split_and!; [done|done|lia]. }
  assert (Hreg : forall o, quiet o -> finishes (counter s + 1) (handle relayID_ relayHopID_ allowed mode activityThreshold hasCache getExecutor o) s).
  { intros o Ho. destruct (handle_ok relayID_ relayHopID_ allowed Hhop mode activityThreshold hasCache getExecutor o nowhere [] s Ho Hok)
      as (evs & s' & E1 & H1 & H2); [lia|]. exists evs, s'. split_and!; [done|done|lia]. }
  assert (Hle : forall m, finishes (counter s) m s -> finishes (counter s + 1) m s) by (intros m; apply finishes_le; lia).
  destruct (new_ok nowhere s Hok) as [Hnew Hnb]. assert (Hlt : nextRequest s < nextRequest (bumpRequest s)) by (cbn; lia).
  destruct op; cbn [RelayRequests.relayStep op_ok] in *; try (by apply Hns); try (by apply Hreg);
    try (unfold finishes, mbind, M_bind; cbn [get]; first [by apply Hns | destruct (frames s !! rid) as [fr|] eqn:Hf; [|exact Hno]]).
  - by apply publish_ok.
  - by apply (subscribeImpl_ok (nextRequest s) q session en (bumpRequest s)).
  - apply (finishes_le (counter s)); [lia|]. by apply (fetchImpl_ok (nextRequest s) q session en (bumpRequest s)).
  - apply (finishes_le (counter s)); [lia|]. by apply (trackStatusImpl_ok (nextRequest s) q session en (bumpRequest s)).
  - destruct fr; try exact Hno. by apply rendezvousEnds_ok.
  - by apply upstreamWaitEnds_ok.
  - destruct fr; try exact Hno. destruct (resume_ok rid _ nowhere s Hok Hf) as [Hok' Hr]; [done|].
    apply Hle, upstreamAnswers_ok; [done|lia].
  - destruct fr; try exact Hno. destruct (resume_ok rid _ nowhere s Hok Hf) as [Hok' Hr]; [done|].
    apply Hle, resumeSubsequent_ok; [done|done|]. by apply (rk_futures _ _ _ _ _ _ Hok rid q session).
  - destruct fr; try exact Hno. destruct (resume_ok rid _ nowhere s Hok Hf) as [Hok' Hr]; [done|].
    by apply Hle, statusRead_ok.
  - destruct fr; try exact Hno; destruct (resume_ok rid _ nowhere s Hok Hf) as [Hok' Hr]; try done; cbn [heldBy] in Hok'.
    + destruct (request_abandon_ok rid t s Hok') as (s' & E1 & Hok1 & Hc1 & _); [lia|]. rewrite E1.
      apply (finishes_le (counter s')); [lia|]. by apply finishes_reply.
    + by apply Hle, finishes_reply.
Qed.

(** ** Runs *)
Lemma newRelay_ok : relay_ok nowhere None [] newRelay.
Proof.
  split; cbn; try done.
  - exists ∅. apply newRelaySys_ok.
  - apply startSys_ok.
  - exists []. split; cbn; try done.
    + split; [apply wf_empty|]. intros ns tr. by rewrite waitersAt_empty.
    + constructor.
    + intros f rid. split; [by intros H%elem_of_nil|]. intros [(q & ss & H & _) _]. by rewrite lookup_empty in H.
    + by intros f rid H%elem_of_nil.
  - intros rid [? H]. by rewrite lookup_empty in H.
  - intros t. split; [by intros H%elem_of_nil|]. intros [H%elem_of_nil|(rid & q & ss & fw & H)]; [done|by rewrite lookup_empty in H].
  - intros rid rid' t (q & ss & fw & H). by rewrite lookup_empty in H.
  - by intros t H%elem_of_nil.
Qed.

Abbreviation relayRun := (relayRun relayID_ relayHopID_ allowed mode activityThreshold hasCache getExecutor upstreams_ (E := E)).

(** Requests as moxygen hands them over. *)
Fixpoint ops_ok (ops : list (Op (E := E))) s : Prop :=
  match ops with
  | [] => True
  | op :: ops => op_ok op s /\ forall evs s', relayStep op s = Some (evs, s') -> ops_ok ops s'
  end.

Lemma relayRun_ok ops : forall s, relay_ok nowhere None [] s -> ops_ok ops s -> counter s + Z.of_nat (length ops) + 1 < u64_modulus ->
  exists evs s', relayRun ops s = Some (evs, s') /\ relay_ok nowhere None [] s'.
Proof.
  induction ops as [|op ops IH]; intros s Hok Hops Hc; cbn [RelayRequests.relayRun length] in *; [by exists [], s|].
  destruct Hops as [Hop Hops]. destruct (relayStep_ok op s Hok Hop) as (evs & s1 & E1 & Hok1 & Hc1); [lia|].
  unfold mbind, M_bind. rewrite E1. destruct (IH s1 Hok1 (Hops _ _ E1)) as (evs' & s2 & E2 & Hok2); [lia|].
  rewrite E2. by eexists _, s2.
Qed.

Lemma newRun_ok ops : ops_ok ops newRelay -> Z.of_nat (length ops) + 1 < u64_modulus ->
  exists evs s, relayRun ops newRelay = Some (evs, s) /\ relay_ok nowhere None [] s.
Proof. intros Hops Hc. apply relayRun_ok; [apply newRelay_ok|done|]. cbn. lia. Qed.

(** (C6) The relay over any interleaving of announcements, subscriptions to
    namespaces and tracks, publishes, objects and ends of tracks with the
    coroutines of SUBSCRIBE, FETCH and TRACK_STATUS.  Nothing aborts.  At every
    point a subscribe that is in flight upstream has its ticket, and one request
    that awaits the answer and settles it; and a later subscriber that still waits
    does so for such a request, whose entry has the promise it waits for. *)
Theorem relay_requests_safe (ops : list (Op (E := E))) :
  ops_ok ops newRelay -> Z.of_nat (length ops) + 1 < u64_modulus ->
  exists evs s, relayRun ops newRelay = Some (evs, s) /\
    (forall t, t ∈ rg_inflight (rl_reg s) <-> exists rid, awaits (frames s) rid t) /\
    (forall rid rid' t, awaits (frames s) rid t -> awaits (frames s) rid' t -> rid = rid') /\
    (forall rid q session p, frames s !! rid = Some (AwaitsFirst q session p) ->
       awaitSubsequent (sq_fullTrackName q) p (theRegistry s) = StillWaiting ->
       exists rid' t e, awaits (frames s) rid' t /\ subscriptions_ (theRegistry s) !! if_ftn t = Some e /\
         rs_promise e = p /\ rs_epoch e = if_epoch t).
Proof.
  intros Hops Hc. destruct (newRun_ok ops Hops Hc) as (evs & s & E1 & Hok). exists evs, s. split; [done|].
  assert (Ht : forall t, t ∈ rg_inflight (rl_reg s) <-> exists rid, awaits (frames s) rid t).
  { intros t. rewrite (rk_tickets _ _ _ _ _ _ Hok t), elem_of_nil. cbn. naive_solver. }
  split; [exact Ht|]. split; [apply (rk_unique _ _ _ _ _ _ Hok)|]. intros rid q session p Hf Hw.
  destruct (rk_futures _ _ _ _ _ _ Hok rid q session p Hf) as [st Hp]. unfold awaitSubsequent in Hw. rewrite Hp in Hw.
  destruct st; [|by destruct (subscriptions_ _ !! _)|done|done]. pose proof (rk_reg _ _ _ _ _ _ Hok) as Hreg.
  destruct (ro_pending _ _ _ Hreg p Hp) as (f & e & Hf' & <-). pose proof (ro_promise _ _ _ Hreg f e Hf') as Hpr.
  unfold theRegistry in Hp. rewrite Hp in Hpr. destruct (decide _) as [Hin|]; [|done].
  apply list_elem_of_In, in_map_iff in Hin as (t & Hk & Hin%list_elem_of_In). apply Ht in Hin as [rid' Hr].
  injection Hk as <- He. by exists rid', t, e.
Qed.

(** (C7) No wake-up is lost.  At every point of every run, a SUBSCRIBE that is
    parked has been signalled, or it is among the waiters of its track and there
    is no publisher for it: no entry in the registry and no session for its
    namespace.  And nobody else is left in the tree: it is empty exactly when all
    parked subscribes have been signalled. *)
Theorem no_lost_wakeup (ops : list (Op (E := E))) evs s :
  ops_ok ops newRelay -> Z.of_nat (length ops) + 1 < u64_modulus -> relayRun ops newRelay = Some (evs, s) ->
  (forall rid q session, frames s !! rid = Some (Parked q session) ->
     rid ∈ batons s \/
     (let f := sq_fullTrackName q in
      rid ∈ waitersAt (trackNamespace f) (trackName f) (pendingRendezvous_ s) /\
      registry_exists f (theRegistry s) = false /\
      findUpstreamPublisher (trackNamespace f) None s = None)) /\
  (node_empty (pendingRendezvous_ s) = true <->
   forall rid q session, frames s !! rid = Some (Parked q session) -> rid ∈ batons s).
Proof.
  intros Hops Hc Hrun. destruct (newRun_ok ops Hops Hc) as (evs' & s' & E1 & Hok). rewrite Hrun in E1. injection E1 as <- <-.
  destruct (rk_waiting _ _ _ _ _ _ Hok) as [l []]. split.
  - intros rid q session Hf. destruct (decide (rid ∈ batons s)) as [|Hb]; [by left|right]. cbv zeta.
    assert (Hin : (sq_fullTrackName q, rid) ∈ l) by (apply wt_parked; split; [by exists q, session|done]).
    destruct (wt_unserved _ _ Hin) as [H1 H2]; [by intros []|]. split_and!.
    + destruct wt_sim as [_ Hat]. rewrite Hat. unfold at_track. apply list_elem_of_fmap. exists (sq_fullTrackName q, rid).
      split; [done|]. apply list_elem_of_filter. by destruct (sq_fullTrackName q).
    + unfold registry_exists. rewrite H1. done.
    + by apply unrouted_none; [apply (relay_ok_tree _ _ _ _ _ _ Hok)|].
  - rewrite (wf_at_track _ _ wt_sim). split.
    + intros -> rid q session Hf. destruct (decide (rid ∈ batons s)) as [|Hb]; [done|].
      assert (Hin : (sq_fullTrackName q, rid) ∈ ([] : list (FullTrackName * Z))) by (apply wt_parked; split; [by exists q, session|done]).
      by apply elem_of_nil in Hin.
    + intros H. destruct l as [|[f rid] l]; [done|]. destruct (proj1 (wt_parked f rid) (list_elem_of_here _ _)) as [(q & ss & Hf & _) Hb].
      by destruct (Hb (H rid q ss Hf)).
Qed.

(** ** Who serves a request *)
(** No route of the session to a prefix of the namespace satisfies the test. *)
Lemma noRouteAlongPath sid pred t : tree_ok t -> forall rest at_, hasRouteAlongPath_from sessionId at_ rest sid pred t = false ->
  forall p n r, at_ `suffix_of` p -> p `suffix_of` rev rest ++ at_ -> nodes t !! p = Some n -> findRoute sessionId sid n = Some r -> pred r = false.
Proof.
  intros Hok. induction rest as [|name rest IH]; intros at_ Hf p n r H1 H2 Hn Hr; cbn in Hf.
  - assert (p = at_) as -> by (destruct H1 as [a ->], H2 as [b Hb]; cbn in Hb;
      apply (f_equal length) in Hb; rewrite !length_app in Hb; destruct a; [done|cbn in Hb; lia]).
    rewrite Hn in Hf. rewrite orb_false_r, Hr in Hf. done.
  - destruct (nodes t !! at_) as [n0|] eqn:Hat.
    2:{ pose proof (missing_below t at_ p Hok Hat H1). congruence. }
    apply orb_false_iff in Hf as [Hf0 Hf]. destruct (decide (p = at_)) as [->|Hne]; [by simplify_eq; rewrite Hr in Hf0|].
    apply (IH (name :: at_) Hf p n r); [|cbn in H2; by rewrite <- app_assoc in H2|done|done].
    cbn in H2. rewrite <- app_assoc in H2. apply (suffix_longer _ _ (rev rest ++ [name] ++ at_)); [by exists (rev rest)|done|].
    destruct H1 as [[|z a] ->]; [done|]. cbn. rewrite length_app. cbn. lia.
Qed.

(** [u] reaches the namespace of [f] by a route that the requester is not on: the
    best admitted one of the longest prefix with routes, or that of the session
    that feeds the entry, none of whose routes passes the requester. *)
Definition avoids (t : NamespaceTree) (session : Session) f (u : Session) : Prop :=
  negotiatedRelayHops session = true ->
  u <> session /\
  ((exists p r, deepest_with_routes t (rev (trackNamespace f)) p /\ In r (NamespaceLookup.routesAt t p) /\
      r_session r = u /\ clusterPathContains (r_path r) (getPeerHopID session) = false) \/
   (forall p r, p `suffix_of` rev (trackNamespace f) -> In r (NamespaceLookup.routesAt t p) -> r_session r = u ->
      clusterPathContains (r_path r) (getPeerHopID session) = false)).

Lemma routed_avoids X run held s session f u : relay_ok X run held s ->
  findUpstreamPublisher (trackNamespace f) (exclusionFor (Some session)) s = Some u -> avoids (theTree s) session f u.
Proof.
  intros Hok Hu Hn. unfold findUpstreamPublisher, exclusionFor in Hu. rewrite Hn in Hu. cbn [default] in Hu.
  pose proof (findPublisherSession_longest sessionId (trackNamespace f) (mkExclusion (Some (sessionId session)) (getPeerHopID session))
    (theTree s) (relay_ok_tree _ _ _ _ _ _ Hok)) as H. cbn in Hu. rewrite Hu in H.
  destruct H as (p & r & Hp & <- & Hin & Had & _). unfold admissible in Had. cbn in Had. apply andb_true_iff in Had as [H1 H2].
  split; [intros Heq; by rewrite Heq, Z.eqb_refl in H1|]. left. exists p, r. split_and!; [done|done|done|].
  by apply negb_true_iff in H2.
Qed.

Lemma entry_avoids X run held s session f e u : relay_ok X run held s -> subscriptions_ (theRegistry s) !! f = Some e ->
  rs_upstream e = Some u -> excludedFromSubscription (exclusionFor (Some session)) f s = false -> avoids (theTree s) session f u.
Proof.
  intros Hok He Hu Hx Hn. unfold excludedFromSubscription, exclusionFor, upstreamSessionId in Hx. rewrite Hn, He in Hx. cbn in Hx.
  rewrite Hu in Hx. cbn in Hx. apply orb_false_iff in Hx as [H1 H2]. apply bool_decide_eq_false in H1.
  split; [by intros ->|]. right. intros p r Hp Hin Hr. destruct (rk_ns _ _ _ _ _ _ Hok) as [told [I _]].
  unfold NamespaceLookup.routesAt in Hin. pose proof (ni_routes _ _ _ _ I p : routes_ok _ _ (view (theTree s) p).1.1) as Hro.
  destruct (nodes (theTree s) !! p) as [n|] eqn:Hnode; [|by rewrite (view_none _ _ Hnode) in Hin].
  rewrite (view_node _ _ _ Hnode) in Hin, Hro. cbn in Hin, Hro.
  apply (noRouteAlongPath (sessionId u) (fun route => clusterPathContains (r_path route) (getPeerHopID session)) (theTree s)
    (relay_ok_tree _ _ _ _ _ _ Hok) (trackNamespace f) [] H2 p n r); [apply suffix_nil|by rewrite app_nil_r|done|].
  unfold findRoute. pose proof (NamespaceRoutes.ro_sessions _ _ _ Hro) as Hnd. clear -Hin Hnd Hr SL. induction (routes_ n) as [|x l IH]; [done|].
  cbn in Hnd |- *. apply NoDup_cons in Hnd as [Hx Hnd]. destruct (Z.eqb_spec (sessionId (r_session x)) (sessionId u)) as [Heq|Hne].
  - destruct Hin as [->|Hin]; [done|]. destruct Hx. apply (inj sessionId) in Heq. rewrite Heq, <- Hr.
    by apply list_elem_of_In, in_map.
  - destruct Hin as [->|Hin]; [congruence|by apply IH].
Qed.

(** What an event must satisfy, with the tree of the step and the state after it. *)
Definition event_ok (t : NamespaceTree) (s' : Relay) (ev : Event (E := E)) : Prop :=
  match ev with
  | SendsSubscribe _ session u q _ => avoids t session (sq_fullTrackName q) u
  | SendsFetch _ session u _ q => avoids t session (ft_fullTrackName q) u
  | SendsTrackStatus _ session u q => avoids t session (ts_fullTrackName q) u
  | Replied _ session (Attached_ f _) => forall e u, subscriptions_ (theRegistry s') !! f = Some e -> rs_upstream e = Some u ->
      negotiatedRelayHops session = true -> u <> session
  | _ => True
  end.
Definition kept_frame (fr : Frame) : Prop :=
  match fr with
  | AwaitsUpstream q session t _ => if_ftn t = sq_fullTrackName q /\ (negotiatedRelayHops session = true -> if_upstream t <> session)
  | StatusReads _ _ _ => False
  | _ => True
  end.
Definition frames_ok s : Prop := forall rid fr, frames s !! rid = Some fr -> kept_frame fr.

Definition post (t : NamespaceTree) (m : R) s : Prop :=
  forall evs s', m s = Some (evs, s') -> Forall (event_ok t s') evs /\ frames_ok s'.

Lemma post_suspend t rid fr s : frames_ok s -> kept_frame fr -> post t (suspend rid fr) s.
Proof. intros Hs Hfr evs s' [= <- <-]. split; [constructor|]. cbn. intros x fr'. cbn. intros [[_ <-]|[_ H]]%lookup_insert_Some; [done|by eapply Hs]. Qed.
Lemma post_reply t rid session r s : frames_ok s ->
  (forall f fw, r = Attached_ f fw -> forall e u, subscriptions_ (theRegistry s) !! f = Some e -> rs_upstream e = Some u ->
     negotiatedRelayHops session = true -> u <> session) -> post t (reply rid session r) s.
Proof.
  intros Hs Hr evs s' [= <- <-]. split; [|intros x fr; cbn; intros [_ H]%lookup_delete_Some; by eapply Hs].
  constructor; [|constructor]. cbn. destruct r; try done. by apply (Hr f forwarder).
Qed.
Lemma post_refuse t rid session id code reason s : frames_ok s -> post t (refuse rid session id code reason) s.
Proof. intros Hs. by apply post_reply. Qed.
Lemma post_map t m g s : post t m s -> (forall evs s', Forall (event_ok t s') evs -> Forall (event_ok t s') (g evs)) ->
  post t (evs ← m; mret (g evs)) s.
Proof.
  intros Hm Hg evs s'. unfold mbind, M_bind. destruct (m s) as [[evs0 s0]|] eqn:E1; [|done]. intros [= <- <-].
  destruct (Hm _ _ E1). split; [by apply Hg|done].
Qed.
Lemma post_ret t s : frames_ok s -> post t (mret []) s.
Proof. by intros Hs evs s' [= <- <-]. Qed.
Lemma requestFill_ok t s' fw q : Forall (event_ok t s') (requestFill fw q).
Proof. unfold requestFill. destruct (sq_fill q); repeat constructor. Qed.

(** The handlers of the other parts send nothing and leave the frames. *)
Definition silent {A} (ok : A -> Prop) (m : M Relay A) : Prop := forall s a s', m s = Some (a, s') -> ok a /\ frames s' = frames s.
Definition silentEvent (ev : Event (E := E)) : Prop :=
  match ev with OfNamespaces _ | OfRegistry _ | Signalled _ | PublishRefused _ => True | _ => False end.
Lemma silent_bind {A B} (P : A -> Prop) (Q : B -> Prop) (m : M Relay A) (k : A -> M Relay B) :
  silent P m -> (forall a, P a -> silent Q (k a)) -> silent Q (m ≫= k).
Proof.
  intros Hm Hk s b s'. unfold mbind, M_bind. destruct (m s) as [[a s1]|] eqn:E1; [|done]. intros E2.
  destruct (Hm _ _ _ E1) as [Ha <-]. by apply (Hk a Ha _ _ _ E2).
Qed.
Lemma silent_ret {A} (P : A -> Prop) a : P a -> silent P (mret a).
Proof. by intros H s x s' [= <- <-]. Qed.
Lemma silent_get : silent (fun _ => True) (get (S := Relay)).
Proof. by intros s x s' [= <- <-]. Qed.
Lemma silent_deref {A} (o : option A) : silent (fun _ => True) (deref (S := Relay) o).
Proof. destruct o; [by apply silent_ret|by intros s a s']. Qed.
Lemma silent_modify g : (forall s, frames (g s) = frames s) -> silent (fun _ => True) (modify g).
Proof. by intros H s x s' [= <- <-]. Qed.
Lemma silent_regStep op : silent (fun _ => True) (regStep op).
Proof. intros s x s'. unfold RelayRequests.regStep. destruct (reg_step _ _ _ _ _ _ _) as [[r evs]|]; [|done]. by intros [= <- <-]. Qed.
Lemma silent_wake w : silent (Forall silentEvent) (wake w).
Proof.
  eapply silent_bind; [by apply silent_modify|]. intros _ _. apply silent_ret. apply Forall_forall.
  by intros ev (x & <- & _)%list_elem_of_In%in_map_iff.
Qed.
Lemma silent_performActs acts : silent (Forall silentEvent) (performActs mode activityThreshold hasCache getExecutor acts).
Proof.
  induction acts as [|a acts IH]; [by apply silent_ret|]. cbn [performActs]. apply (silent_bind (Forall silentEvent)).
  - destruct a; cbn [performAct]; try (by apply silent_ret; repeat constructor).
    + eapply silent_bind; [apply silent_regStep|]. intros ? _. apply silent_ret. repeat constructor.
    + eapply silent_bind; [apply silent_get|]. intros ? _. apply silent_wake.
    + eapply silent_bind; [apply silent_get|]. intros ? _. apply silent_wake.
  - intros evs Hevs. eapply silent_bind; [exact IH|]. intros evs' Hevs'. apply silent_ret. by apply Forall_app_2.
Qed.
Lemma silent_nsStep op : silent (Forall silentEvent) (nsStep relayID_ relayHopID_ allowed mode activityThreshold hasCache getExecutor op).
Proof.
  eapply silent_bind; [apply silent_get|]. intros s0 _. eapply silent_bind; [apply silent_deref|]. intros [acts ns] _.
  eapply silent_bind; [by apply silent_modify|]. intros _ _. apply silent_performActs.
Qed.
Lemma silent_handle op : silent (Forall silentEvent) (handle relayID_ relayHopID_ allowed mode activityThreshold hasCache getExecutor op).
Proof.
  eapply silent_bind; [apply silent_regStep|]. intros evs _. induction evs as [|e evs IH]; [by apply silent_ret|].
  cbn [performEvents]. apply (silent_bind (Forall silentEvent)).
  - destruct e; cbn [performEvent]; try (by apply silent_ret; repeat constructor).
    eapply silent_bind; [apply silent_nsStep|]. intros es Hes. apply silent_ret. by constructor.
  - intros es Hes. eapply silent_bind; [exact IH|]. intros es' Hes'. apply silent_ret. by apply Forall_app_2.
Qed.
Lemma silent_publish f session requestID h now :
  silent (Forall silentEvent) (publish relayID_ relayHopID_ allowed mode activityThreshold hasCache getExecutor f session requestID h now).
Proof.
  eapply (silent_bind (fun _ => True)).
  { eapply silent_bind; [apply silent_deref|]. intros v _. by apply silent_ret. }
  intros b _. destruct (validatePublishNamespace _ _ _ _); [apply silent_ret; repeat constructor|].
  eapply (silent_bind (fun _ => True)). { unfold xcheck. destruct (negb _); [by apply silent_ret|by intros s a s']. }
  intros _ _. eapply silent_bind; [apply silent_get|]. intros s0 _. eapply silent_bind; [apply silent_handle|]. intros evs Hevs.
  eapply silent_bind; [apply silent_nsStep|]. intros acts Hacts. apply silent_ret. by apply Forall_app_2.
Qed.
Lemma silent_post t m s : silent (Forall silentEvent) m -> frames_ok s -> post t m s.
Proof.
  intros Hm Hs evs s' E1. destruct (Hm _ _ _ E1) as [H1 H2]. split.
  - eapply Forall_impl; [exact H1|]. by intros [].
  - intros rid fr. rewrite H2. apply Hs.
Qed.

(** *** The requests *)
Lemma post_resumeSubsequent run rid q session p en s : relay_ok nowhere run [] s -> frames_ok s ->
  post (theTree s) (resumeSubsequent rid q session p en) s.
Proof.
  intros Hok Hs evs s'. unfold resumeSubsequent, mbind, M_bind. cbn [get]. cbv zeta.
  destruct (awaitSubsequent _ _ _) as [| |ref]; [by apply post_suspend|by apply post_reply|].
  destruct (excludedFromSubscription _ _ _) eqn:Hx; [by apply post_refuse|]. destruct (getIfOwned ref) as [fw|]; [|done].
  cbn. destruct (checkRangeNotInPast _ _ _); [by apply post_reply|]. revert evs s'. change (post (theTree s) (attachSubscriber rid q session fw en) s).
  unfold attachSubscriber. destruct (fw_addSubscriber _); [|by apply post_refuse].
  apply (post_map _ _ (fun evs => TriesNewGroup fw true :: requestFill fw q ++ evs)).
  - apply post_reply; [done|]. intros f fw' [= <- <-] e u He Hu Hn. by apply (entry_avoids nowhere run [] s session (sq_fullTrackName q) e u).
  - intros evs s' H. constructor; [done|]. by apply Forall_app_2; [apply requestFill_ok|].
Qed.

Lemma theTree_regStep op s evs s' : regStep op s = Some (evs, s') -> theTree s' = theTree s /\ frames s' = frames s.
Proof. unfold RelayRequests.regStep. destruct (reg_step _ _ _ _ _ _ _) as [[r es]|]; [|done]. by intros [= <- <-]. Qed.

Lemma post_join run rid q session en s : relay_ok nowhere run [] s -> frames_ok s -> counter s + 1 < u64_modulus ->
  post (theTree s) (joinOrSubscribe mode activityThreshold hasCache getExecutor rid q session en) s.
Proof.
  intros Hok Hs Hc evs s'. unfold joinOrSubscribe, mbind, M_bind. cbn [get]. cbv zeta.
  set (f := sq_fullTrackName q). set (up := findUpstreamPublisher _ _ s).
  destruct (RelayRequests.regStep _ _ _ _ _ s) as [[es s1]|] eqn:E1; [|done].
  destruct (theTree_regStep _ _ _ _ E1) as [Ht Hf]. assert (Hs1 : frames_ok s1) by (intros x fr; rewrite Hf; apply Hs).
  unfold RelayRequests.regStep in E1. rewrite subscribe_step in E1 by (done || apply Hok). cbv zeta in E1.
  destruct (subscriptions_ (rg_registry (rl_reg s)) !! f) as [e|] eqn:He.
  { injection E1 as <- <-. replace (set_reg (rl_reg s) s) with s by (by destruct s). by apply (post_resumeSubsequent run). }
  destruct up as [u|] eqn:Hup; injection E1 as <- <-; [|by apply post_refuse].
  cbn [deref mret M_ret]. revert evs s'. set (s1 := set_reg _ s) in *.
  assert (Hav : avoids (theTree s) session f u) by (by apply (routed_avoids nowhere run [] s)).
  change (post (theTree s) (firstSubscriber mode activityThreshold hasCache getExecutor rid q session u (nextForwarder (rg_registry (rl_reg s)))
    (Some (if isLocalForwarder mode then ForwarderConsumer (nextForwarder (rg_registry (rl_reg s))) else ChainHead (nextFilter (rg_registry (rl_reg s)))))
    (mkPending f (epochCounter_ (rg_registry (rl_reg s)) + 1) true) en) s1).
  unfold firstSubscriber. destruct (fw_addSubscriber _).
  - apply (post_map _ _ (fun evs => SendsSubscribe _ _ _ _ _ :: evs)).
    + apply post_suspend; [done|]. cbn. split; [done|]. intros Hn. by apply Hav.
    + intros evs s' H. by constructor.
  - intros evs s'. unfold mbind, M_bind. destruct (RelayRequests.regStep _ _ _ _ (OpAbandon _) s1) as [[es s2]|] eqn:E2; [|done].
    destruct (theTree_regStep _ _ _ _ E2) as [_ Hf2]. apply post_refuse. intros x fr. rewrite Hf2. apply Hs1.
Qed.

Lemma post_resolved run rid q session en s : relay_ok nowhere run [] s -> frames_ok s -> counter s + 1 < u64_modulus ->
  post (theTree s) (subscribeResolved rid q session en) s.
Proof.
  intros Hok Hs Hc evs s'. unfold RelayRequests.subscribeResolved, mbind, M_bind. cbn [get]. cbv zeta. case_match.
  - by apply post_suspend.
  - by apply (post_join run).
Qed.

Lemma post_subscribeImpl run rid q session en s : relay_ok nowhere run [] s -> frames_ok s -> counter s + 1 < u64_modulus ->
  post (theTree s) (subscribeImpl mode activityThreshold hasCache getExecutor upstreams_ rid q session en) s.
Proof.
  intros Hok Hs Hc evs s'. unfold subscribeImpl. unfold mbind at 1, M_bind at 1.
  destruct (namespaceMissing_run (sq_fullTrackName q) session s) as [[] ->]; [by apply post_refuse|].
  destruct (takeRendezvousTimeout _ _ _ _ _ _) as [[timeout|] params]; [|by apply (post_resolved run)].
  unfold rendezvousWithPublisherOrTimeout. unfold mbind at 1, M_bind at 1. cbn [get]. cbv zeta.
  destruct (_ || _); [by apply (post_resolved run)|]. unfold mbind at 1, M_bind at 1. cbn [modify].
  revert evs s'. set (s1 := set_pending _ _ s).
  change (post (theTree s) (evs ← suspend rid (Parked (set_params params q) session); mret (WaitsFor rid timeout :: evs)) s1).
  apply (post_map _ _ (fun evs => WaitsFor rid timeout :: evs)); [by apply post_suspend|]. intros evs s' H. by constructor.
Qed.

Lemma post_rendezvousEnds rid q session how en s : relay_ok nowhere None [] s -> frames s !! rid = Some (Parked q session) ->
  frames_ok s -> counter s + 1 < u64_modulus ->
  post (theTree s) (rendezvousEnds mode activityThreshold hasCache getExecutor upstreams_ rid q session how en) s.
Proof.
  intros Hok Hf Hs Hc evs s'. destruct (eraseParked_ok rid q session nowhere s Hok Hf) as (s1 & E1 & Hok1 & _ & Hc1).
  unfold rendezvousEnds, mbind, M_bind. cbn [get].
  assert (Hs1 : frames_ok s1 /\ theTree s1 = theTree s) by (injection E1 as <-; done). destruct Hs1 as [Hs1 Ht].
  destruct how; rewrite ?E1; try (by apply post_reply).
  case_decide; [|by apply post_ret]. rewrite E1, <- Ht. apply (post_resolved (Some rid)); [done|done|lia].
Qed.

Lemma post_upstreamAnswers rid q session t fw answer s : relay_ok nowhere (Some rid) [t] s -> frames_ok s ->
  kept_frame (AwaitsUpstream q session t fw) -> counter s + 1 < u64_modulus ->
  post (theTree s) (upstreamAnswers mode activityThreshold hasCache getExecutor rid q session t fw answer) s.
Proof.
  intros Hok Hs [Hft Hav] Hc. unfold upstreamAnswers, subscribeUpstreamAndApplyOk. destruct answer as [ok|[code reason]].
  - intros evs s'. unfold mbind at 1, M_bind at 1.
    destruct (RelayRequests.regStep _ _ _ _ _ s) as [[es s1]|] eqn:E1; [|done].
    destruct (theTree_regStep _ _ _ _ E1) as [Ht Hf]. assert (Hs1 : frames_ok s1) by (intros x fr; rewrite Hf; apply Hs).
    assert (Hreg : forall l, Forall (event_ok (theTree s) l) (map OfRegistry es)).
    { intros l. apply Forall_forall. by intros ev (y & <- & _)%list_elem_of_In%in_map_iff. }
    cbv zeta. destruct es as [|[| | | | | | | |[]] es];
      try (by apply (post_map _ _ (fun es => _ ++ es)); [apply post_refuse|intros evs0 s0 H; repeat constructor]).
    apply (post_map _ _ (fun es => _ ++ _ ++ _ ++ es)); [|intros evs0 s0 H; apply Forall_app_2; [repeat constructor|]; apply Forall_app_2; [apply Hreg|];
      by apply Forall_app_2; [apply requestFill_ok|]].
    apply post_reply; [done|]. intros f fw' [= <- <-] e u He Hu Hn.
    enough (u = if_upstream t) as -> by (by apply Hav).
    unfold RelayRequests.regStep in E1. destruct (reg_step _ _ _ _ _ _ _) as [[r' es']|] eqn:E2; [|done]. injection E1 as -> <-.
    cbn [reg_step] in E2. case_decide; [|done]. unfold completeUpstreamSubscription, ticketOf, mbind, M_bind in E2. cbn [up_ftn] in E2.
    rewrite complete_run, Hft in E2. destruct (subscriptions_ (rg_registry (rl_reg s)) !! sq_fullTrackName q) as [e0|]; [|done].
    destruct (_ =? _); [|done]. destruct (fulfil _ _ _) as [ps|]; [|done]. injection E2 as <- _.
    cbn in He. rewrite lookup_insert_eq in He. injection He as <-. cbn in Hu. by injection Hu as <-.
  - intros evs s'. unfold mbind, M_bind. destruct (RelayRequests.regStep _ _ _ _ _ s) as [[es s1]|] eqn:E1; [|done].
    destruct (theTree_regStep _ _ _ _ E1) as [Ht Hf]. apply post_refuse. intros x fr. rewrite Hf. apply Hs.
Qed.

(** A publisher that may serve the request. *)
Definition publisher_ok s session f (u : option Session) : Prop := forall x, u = Some x -> avoids (theTree s) session f x.
Lemma entry_publisher_ok X run held s session f e : relay_ok X run held s -> subscriptions_ (theRegistry s) !! f = Some e ->
  excludedFromSubscription (exclusionFor (Some session)) f s = false -> publisher_ok s session f (rs_publisher e).
Proof.
  intros Hok He Hx u Hu. destruct (rk_sources _ _ _ _ _ _ Hok f e He) as [Hp _]. rewrite Hp in Hu. by apply (entry_avoids X run held s session f e u).
Qed.
Lemma found_publisher_ok X run held s session f : relay_ok X run held s ->
  publisher_ok s session f (findUpstreamPublisher (trackNamespace f) (exclusionFor (Some session)) s).
Proof. intros Hok u Hu. by apply (routed_avoids X run held s). Qed.

Lemma post_sendFetch rid q session u s : frames_ok s -> publisher_ok s session (ft_fullTrackName q) u ->
  post (theTree s) (sendFetch hasCache rid q session u) s.
Proof.
  intros Hs Hu. unfold sendFetch. destruct u as [p|]; [|by apply post_refuse].
  apply (post_map _ _ (fun evs => SendsFetch _ _ _ _ _ :: evs)); [by apply post_reply|]. intros evs s' H. constructor; [|done]. by apply Hu.
Qed.
Lemma post_sendTrackStatus rid q session u s : frames_ok s -> publisher_ok s session (ts_fullTrackName q) u ->
  post (theTree s) (sendTrackStatus rid q session u) s.
Proof.
  intros Hs Hu. unfold sendTrackStatus. destruct u as [p|]; [|by apply post_refuse].
  apply (post_map _ _ (fun evs => SendsTrackStatus _ _ _ _ :: evs)); [by apply post_reply|]. intros evs s' H. constructor; [|done]. by apply Hu.
Qed.

Lemma resolveJoining_track q session en s q' s' : resolveJoining mode q session en s = Some (Ok q', s') ->
  ft_fullTrackName q' = ft_fullTrackName q.
Proof.
  unfold resolveJoining. destruct (fetchType q) as [j|]; [|by intros [= <- _]]. rewrite Hmode. unfold mbind, M_bind. cbn [get].
  destruct (getFetchView _ _) as [v|]; [|done]. destruct (fv_isReady v); [|by intros [= <- _]]. destruct (getIfOwned _) as [fw|]; [|done].
  cbn. destruct (fw_resolveJoiningFetch _ _ _) as [[a b]|e]; [|done]. by intros [= <- _].
Qed.

Lemma post_fetchImpl run rid q session en s : relay_ok nowhere run [] s -> frames_ok s ->
  post (theTree s) (fetchImpl mode hasCache upstreams_ rid q session en) s.
Proof.
  intros Hok Hs evs s'. unfold fetchImpl, mbind, M_bind.
  destruct (namespaceMissing_run (ft_fullTrackName q) session s) as [[] ->]; [by apply post_refuse|].
  unfold xcheck. destruct (_ || _); [|done]. cbn [mret M_ret].
  destruct (resolveJoining_run q session en _ _ _ s Hok) as [[q'|e] ->]; [|by apply post_reply]. cbn [get]. cbv zeta.
  pose proof (found_publisher_ok _ _ _ s session (ft_fullTrackName q') Hok) as Hfound.
  assert (Hroute : post (theTree s) (match findUpstreamPublisher (trackNamespace (ft_fullTrackName q')) (exclusionFor (Some session)) s with
      | Some u => sendFetch hasCache rid q' session (Some u)
      | None => if bool_decide (upstreams_ = []) then sendFetch hasCache rid q' session None
                else suspend rid (FetchWaits q' session upstreams_)
      end) s).
  { destruct (findUpstreamPublisher _ _ _); [by apply post_sendFetch|]. case_bool_decide; [by apply post_sendFetch|by apply post_suspend]. }
  destruct (getFetchView _ _) as [v|] eqn:Hv; [|apply Hroute]. destruct (excludedFromSubscription _ _ _) eqn:Hx; [apply Hroute|].
  apply post_sendFetch; [done|]. unfold getFetchView in Hv. destruct (subscriptions_ _ !! _) as [e|] eqn:He; [|done]. injection Hv as <-.
  by apply (entry_publisher_ok nowhere run []).
Qed.

Lemma post_statusUpstream run rid q session view s : relay_ok nowhere run [] s -> frames_ok s ->
  (forall v, view = Some v -> getUpstreamView getExecutor (ts_fullTrackName q) (theRegistry s) = Some v) ->
  post (theTree s) (statusUpstream upstreams_ rid q session view) s.
Proof.
  intros Hok Hs Hview evs s'. unfold statusUpstream, mbind, M_bind. cbn [get]. cbv zeta.
  pose proof (found_publisher_ok _ _ _ s session (ts_fullTrackName q) Hok) as Hfound.
  assert (Hroute : post (theTree s) (match findUpstreamPublisher (trackNamespace (ts_fullTrackName q)) (exclusionFor (Some session)) s with
      | Some u => sendTrackStatus rid q session (Some u)
      | None => if bool_decide (upstreams_ = []) then sendTrackStatus rid q session None
                else suspend rid (StatusWaits q session upstreams_)
      end) s).
  { destruct (findUpstreamPublisher _ _ _); [by apply post_sendTrackStatus|].
    case_bool_decide; [by apply post_sendTrackStatus|by apply post_suspend]. }
  destruct view as [v|]; [|apply Hroute]. destruct (excludedFromSubscription _ _ _) eqn:Hx; [apply Hroute|].
  apply post_sendTrackStatus; [done|]. specialize (Hview v eq_refl). unfold getUpstreamView in Hview.
  destruct (subscriptions_ _ !! _) as [e|] eqn:He; [|done]. injection Hview as <-. by apply (entry_publisher_ok nowhere run []).
Qed.

Lemma post_trackStatusImpl run rid q session en s : relay_ok nowhere run [] s -> frames_ok s ->
  post (theTree s) (trackStatusImpl mode getExecutor upstreams_ rid q session en) s.
Proof.
  intros Hok Hs evs s'. unfold trackStatusImpl, mbind, M_bind.
  destruct (namespaceMissing_run (ts_fullTrackName q) session s) as [[] ->]; [by apply post_refuse|]. cbn [get]. cbv zeta.
  destruct (getUpstreamView _ _ _) as [v|] eqn:Hv; [|by apply (post_statusUpstream run)]. rewrite Hmode.
  assert (Hst : post (theTree s) (statusUpstream upstreams_ rid q session (Some v)) s).
  { apply (post_statusUpstream run); [done|done|]. by intros v' [= <-]. }
  destruct (getIfOwned _) as [fw|]; [|apply Hst]. destruct (0 <? _); [by apply post_reply|apply Hst].
Qed.

Lemma post_upstreamWaitEnds rid link fr en s : relay_ok nowhere None [] s -> frames_ok s -> counter s + 1 < u64_modulus ->
  post (theTree s) (upstreamWaitEnds mode activityThreshold hasCache getExecutor rid link fr en) s.
Proof.
  intros Hok Hs Hc evs s'. unfold upstreamWaitEnds. unfold mbind at 1, M_bind at 1. cbn [get].
  assert (Hcan : forall u l es, Forall (event_ok (theTree s) l) es -> Forall (event_ok (theTree s) l) (cancels rid u ++ es)).
  { intros u l es H. apply Forall_app_2; [|done]. unfold cancels. destruct (bool_decide _); repeat constructor. }
  destruct fr as [| q session links| | |q session links| |q session links]; try (by apply post_ret);
    (case_decide; [|by apply post_ret]); cbv zeta;
    apply (post_map _ _ (fun evs => cancels rid _ ++ evs)); try (intros; by apply Hcan); (case_bool_decide; [|by apply post_suspend]).
  - by apply (post_join None).
  - apply post_sendFetch; [done|]. by apply (found_publisher_ok nowhere None []).
  - apply post_sendTrackStatus; [done|]. by apply (found_publisher_ok nowhere None []).
Qed.

Lemma post_relayStep op s : relay_ok nowhere None [] s -> frames_ok s -> counter s + 1 < u64_modulus ->
  post (theTree s) (relayStep op) s.
Proof.
  intros Hok Hs Hc. destruct (new_ok nowhere s Hok) as [Hnew _].
  destruct op; cbn [RelayRequests.relayStep];
    try (by apply silent_post; [first [apply silent_nsStep | apply silent_handle | apply silent_publish]|]);
    try (by apply silent_post; [eapply silent_bind; [apply silent_get|intros ? _; apply silent_nsStep]|]).
  - by apply (post_subscribeImpl (Some (nextRequest s)) (nextRequest s) q session en (bumpRequest s)).
  - by apply (post_fetchImpl (Some (nextRequest s)) (nextRequest s) q session en (bumpRequest s)).
  - by apply (post_trackStatusImpl (Some (nextRequest s)) (nextRequest s) q session en (bumpRequest s)).
  - intros evs s'. unfold mbind, M_bind. cbn [get]. destruct (frames s !! rid) as [[]|] eqn:Hf; try (by apply post_ret).
    by apply post_rendezvousEnds.
  - intros evs s'. unfold mbind, M_bind. cbn [get]. destruct (frames s !! rid) as [fr|] eqn:Hf; [|by apply post_ret].
    by apply post_upstreamWaitEnds.
  - intros evs s'. unfold mbind, M_bind. cbn [get]. destruct (frames s !! rid) as [[]|] eqn:Hf; try (by apply post_ret).
    destruct (resume_ok rid _ nowhere s Hok Hf) as [Hok' _]; [done|].
    by apply post_upstreamAnswers; [|done|apply (Hs rid)|].
  - intros evs s'. unfold mbind, M_bind. cbn [get]. destruct (frames s !! rid) as [[]|] eqn:Hf; try (by apply post_ret).
    by apply (post_resumeSubsequent None).
  - intros evs s'. unfold mbind, M_bind. cbn [get]. destruct (frames s !! rid) as [[]|] eqn:Hf; try (by apply post_ret).
    by destruct (Hs rid _ Hf).
  - intros evs s'. unfold mbind, M_bind. cbn [get]. destruct (frames s !! rid) as [[]|] eqn:Hf; try (by apply post_ret).
    + destruct (RelayRequests.regStep _ _ _ _ _ s) as [[es s1]|] eqn:E1; [|done].
      destruct (theTree_regStep _ _ _ _ E1) as [_ Hf1]. apply post_reply; [|done]. intros x fr. rewrite Hf1. apply Hs.
    + by apply post_reply.
Qed.

Lemma run_frames ops : forall s evs s', relay_ok nowhere None [] s -> frames_ok s -> ops_ok ops s ->
  counter s + Z.of_nat (length ops) + 1 < u64_modulus -> relayRun ops s = Some (evs, s') ->
  relay_ok nowhere None [] s' /\ frames_ok s' /\ counter s' <= counter s + Z.of_nat (length ops).
Proof.
  induction ops as [|op ops IH]; intros s evs s' Hok Hs Hops Hc; cbn [RelayRequests.relayRun length] in *.
  { intros [= <- <-]. split_and!; [done|done|lia]. }
  destruct Hops as [Hop Hops]. destruct (relayStep_ok op s Hok Hop) as (es & s1 & E1 & Hok1 & Hc1); [lia|].
  destruct (post_relayStep op s Hok Hs ltac:(lia) es s1 E1) as [_ Hs1].
  unfold mbind, M_bind. rewrite E1. destruct (RelayRequests.relayRun _ _ _ _ _ _ _ _ ops s1) as [[es' s2]|] eqn:E2; [|done].
  intros [= <- <-]. destruct (IH s1 es' s2 Hok1 Hs1 (Hops _ _ E1)) as (H1 & H2 & H3); [lia|done|]. split_and!; [done|done|lia].
Qed.

(** (C14) No request of a cluster peer (a session that negotiated relay hops; the
    relay excludes nothing for another session) is served through the peer itself,
    in the modes without local forwarders.  In every step of every run, if the
    requester is such a peer: the session a SUBSCRIBE, FETCH or TRACK_STATUS is sent
    to is not the requester, and it reaches the namespace by a route whose path does
    not pass the requester's relay, or it feeds the track's subscription and none
    of its routes to the namespace passes it; and when a SUBSCRIBE is accepted, the
    session that feeds the track is not the requester. *)
Theorem never_through_requester (ops : list (Op (E := E))) op evs s evs' s' :
  ops_ok ops newRelay -> Z.of_nat (length ops) + 1 < u64_modulus -> relayRun ops newRelay = Some (evs, s) ->
  relayStep op s = Some (evs', s') -> Forall (event_ok (theTree s) s') evs'.
Proof.
  intros Hops Hc Hrun Hst. destruct (run_frames ops newRelay evs s newRelay_ok) as (H1 & H2 & H3); [|done|cbn; lia|done|].
  { intros rid fr H. cbn in H. by rewrite lookup_empty in H. }
  cbn in H3. by apply (post_relayStep op s H1 H2 ltac:(lia)).
Qed.

(** (C39) In the modes without local forwarders, a FETCH, standalone or joining, of
    a track with a non-empty namespace whose first SUBSCRIBE is still in flight
    upstream is refused at once, whatever routes the relay has for the namespace:
    the entry is there but has no publisher yet, and the routes are only tried
    without an entry. *)
Theorem fetch_refused_during_setup (ops : list (Op (E := E))) evs s rid t e q session en :
  ops_ok ops newRelay -> Z.of_nat (length ops) + 1 < u64_modulus -> relayRun ops newRelay = Some (evs, s) ->
  awaits (frames s) rid t -> subscriptions_ (theRegistry s) !! if_ftn t = Some e -> rs_epoch e = if_epoch t ->
  ft_fullTrackName q = if_ftn t -> trackNamespace (if_ftn t) <> [] -> fetch_ok q session ->
  exists s', relayStep (RequestFetch q session en) s =
    Some ([Replied (nextRequest s) session (Refused (mkError (ft_requestID q) DOES_NOT_EXIST "no upstream for fetch"))], s').
Proof.
  intros Hops Hc Hrun Haw He Hep Hq Hns Hfo. destruct (newRun_ok ops Hops Hc) as (evs' & s1 & E1 & Hok).
  rewrite Hrun in E1. injection E1 as <- <-.
  assert (Htk : (if_ftn t, rs_epoch e) ∈ tickets (rl_reg s)).
  { rewrite Hep. apply in_tickets, (rk_tickets _ _ _ _ _ _ Hok). right. by exists rid. }
  destruct (rk_sources _ _ _ _ _ _ Hok _ e He) as [Hpub Hup]. specialize (Hup Htk).
  pose proof (ro_promise _ _ _ (rk_reg _ _ _ _ _ _ Hok) _ e He) as Hpr. rewrite decide_True in Hpr by done.
  cbn [RelayRequests.relayStep]. unfold newRequest, fetchImpl, mbind, M_bind, namespaceMissing.
  rewrite Hq, bool_decide_eq_false_2 by done. cbn [mret M_ret].
  assert (bool_decide (fetchType q = None) || negb (useFillFetch (default 0 (getNegotiatedVersion session))) = true) as ->.
  { case_bool_decide as Hd; [done|]. cbn. by rewrite (Hfo Hd). }
  cbn [xcheck mret M_ret]. set (s1 := mkRelay _ _ _ _ _ _).
  assert (Hres : exists q', resolveJoining mode q session en s1 = Some (Ok q', s1) /\ ft_fullTrackName q' = if_ftn t /\
    ft_requestID q' = ft_requestID q).
  { unfold resolveJoining. destruct (fetchType q) as [j|]; [|by eexists]. rewrite Hmode. unfold mbind, M_bind. cbn [get].
    unfold getFetchView. rewrite Hq. change (theRegistry s1) with (theRegistry s). rewrite He. cbn.
    change (isFulfilled (rs_promise e) (promises (theRegistry s))) with
      (match heap (promises (rg_registry (rl_reg s))) !! rs_promise e with Some Unfulfilled | None => false | _ => true end).
    rewrite Hpr. by eexists. }
  destruct Hres as (q' & -> & Hq' & Hid). cbn [get]. rewrite Hq'.
  assert (Hx : excludedFromSubscription (exclusionFor (Some session)) (if_ftn t) s1 = false).
  { unfold excludedFromSubscription, upstreamSessionId. change (theRegistry s1) with (theRegistry s). rewrite He. cbn. rewrite Hup.
    cbn. unfold excludesSource. by destruct (negotiatedRelayHops session). }
  rewrite Hx. unfold getFetchView. change (theRegistry s1) with (theRegistry s). rewrite He. cbn [mbind option_bind fv_publisher].
  rewrite Hpub, Hup. cbn. rewrite Hid. by eexists.
Qed.

Lemma ops_ok_all ops : (forall op, op ∈ ops -> forall s, op_ok op s) -> forall s, ops_ok ops s.
Proof.
  induction ops as [|op ops IH]; intros H s; [done|]. split; [by apply H; left|]. intros evs s' _. apply IH. intros op' Hin. apply H. by right.
Qed.
End steps.

(** ** Example

    Sessions below 10 are clients of draft 18, session 2 announces; session 12 is a
    relay of the cluster, with hop 12. *)
#[local] Existing Instance exampleSessions.
#[local] Existing Instance exampleCodec.
#[local] Existing Instance exampleSessions_laws.
#[local] Existing Instance exampleCodec_laws.
#[local] Instance exampleRequests : RequestApi := {|
  Params := list (Z * Z);
  LocationFilter := option Z;
  Fill := unit;
  getFirstIntParam := fun ps k => snd <$> List.find (fun p => p.1 =? k) ps;
  eraseAllParamsOfType := fun ps k => List.filter (fun p => negb (p.1 =? k)) ps;
  RENDEZVOUS_TIMEOUT := 7;
  nextObject := None;
  legacyEndGroup := fun f => f;
  useFillFetch := fun v => 22 <=? v;
|}.

Definition aTrack : FullTrackName := FTN ["live"] "video".
Definition aSubscribe (timeout : list (Z * Z)) : SubscribeRequest := mkSubscribe 1 aTrack timeout 0 None None None true.
Definition aForwarder : Forwarder := mkForwarder (Some 1) 1 (Some (Loc 3 4)) 0 (fun _ _ => Ok (Loc 1 0, Loc 3 5)).
Definition anEnv : Env := mkEnv 0 (fun _ => aForwarder).
Definition anAnnouncement : Op (E := list Z) := Announce (mkPublishNamespace 5 ["live"] (mkParams None None)) 2 None EmptyString.

Definition run_ (ops : list (Op (E := list Z))) : option (list Event * Relay) :=
  RelayRequests.relayRun "r" 1 [] SingleThread 5 true (fun s => s + 10) [] ops newRelay.
Definition after_ (ops : list (Op (E := list Z))) : list (Event (E := list Z)) * Relay := default ([], newRelay) (run_ ops).

(** A SUBSCRIBE parks; the namespace is announced, which wakes it; it goes
    upstream, and a second one waits for it. *)
Definition parkedRun : list (Op (E := list Z)) := [Subscribe (aSubscribe [(7, 5000)]) 3 anEnv].
Definition wokenRun : list (Op (E := list Z)) := parkedRun ++ [anAnnouncement; RendezvousEnds 0 Woken anEnv; Subscribe (aSubscribe []) 4 anEnv].
(** Upstream accepts it, and the second one joins. *)
Definition servedRun : list (Op (E := list Z)) :=
  wokenRun ++ [UpstreamAnswers 0 (Ok (mkUpstreamOk 50 9 None)); FirstAnswers 1 anEnv].

Lemma exampleOps_ok ops s : ops ⊆ servedRun ->
  ops_ok "r" 1 [] SingleThread 5 true (fun s => s + 10) [] ops s.
Proof.
  intros Hsub. apply ops_ok_all. intros op Hin s'. apply Hsub in Hin. unfold servedRun, wokenRun, parkedRun in Hin.
  assert (Ha : op_ok anAnnouncement s') by (split; [split; done|done]).
  repeat (apply elem_of_cons in Hin as [->|Hin]; [first [exact Logic.I|exact Ha]|]). by apply elem_of_nil in Hin.
Qed.

Lemma relay_requests_safe_witness : exists evs s, run_ servedRun = Some (evs, s) /\
  (forall t, t ∈ rg_inflight (rl_reg s) <-> exists rid, awaits (frames s) rid t).
Proof.
  destruct (relay_requests_safe (hop_ok := fun _ => True) "r" 1 [] Logic.I SingleThread 5 true (fun s => s + 10) [] eq_refl servedRun)
    as (evs & s & H1 & H2 & _); [apply exampleOps_ok; intros x Hx; exact Hx|vm_compute; reflexivity|]. exists evs, s. exact (conj H1 H2).
Defined.

(** A relay of the cluster that announces the namespace itself subscribes. *)
Definition clusterRun : list (Op (E := list Z)) :=
  [Announce (mkPublishNamespace 6 ["live"] (mkParams (Some [12]) (Some 1))) 12 None EmptyString; anAnnouncement].
Definition step_ (op : Op (E := list Z)) (s : Relay) : option (list Event * Relay) :=
  RelayRequests.relayStep "r" 1 [] SingleThread 5 true (fun s => s + 10) [] op s.
Definition clusterStep : list (Event (E := list Z)) * Relay :=
  default ([], newRelay) (step_ (Subscribe (aSubscribe []) 12 anEnv) (after_ clusterRun).2).
(** A joining FETCH. *)
Definition aJoin : Fetch := mkFetch 3 aTrack 0 (Joining (mkJoining (Some 1) 2 true)).

Lemma no_lost_wakeup_witness :
  0 ∈ waitersAt ["live"] "video" (pendingRendezvous_ (after_ parkedRun).2) /\
  findUpstreamPublisher ["live"] None (after_ parkedRun).2 = None.
Proof.
  destruct (no_lost_wakeup (hop_ok := fun _ => True) "r" 1 [] Logic.I SingleThread 5 true (fun s => s + 10) [] eq_refl parkedRun
    (after_ parkedRun).1 (after_ parkedRun).2) as [H _].
  - apply exampleOps_ok. intros x Hx. apply elem_of_cons in Hx as [->|Hx]; [by left|by apply elem_of_nil in Hx].
  - vm_compute; reflexivity.
  - vm_compute; reflexivity.
  - destruct (H 0 (aSubscribe []) 3) as [Hb|(H1 & _ & H3)]; [vm_compute; reflexivity| |exact (conj H1 H3)].
    exfalso. assert (Hd : bool_decide (0 ∈ batons (after_ parkedRun).2) = false) by (vm_compute; reflexivity).
    by apply bool_decide_eq_false in Hd.
Defined.

Definition clusterSent : SubscribeRequest := makeUpstreamSubReq (aSubscribe []) true 2.
Lemma clusterStep_sends : clusterStep.1 = [SendsSubscribe 0 12 2 clusterSent (Some (ChainHead 0))].
Proof. vm_compute; reflexivity. Qed.
Lemma clusterRun_ok : ops_ok "r" 1 [] SingleThread 5 true (fun s => s + 10) [] clusterRun newRelay.
Proof.
  apply ops_ok_all. intros op Hin s'. apply elem_of_cons in Hin as [->|Hin]; [|apply elem_of_cons in Hin as [->|Hin]; [|by apply elem_of_nil in Hin]].
  - split; [split|]; cbn; [by eexists|intros c0 [= <-]; done|]. intros _ v _. by exists [12], [12].
  - split; [split; done|done].
Qed.

Lemma never_through_requester_witness :
  In (SendsSubscribe 0 12 2 clusterSent (Some (ChainHead 0))) clusterStep.1 /\
  avoids (theTree (after_ clusterRun).2) 12 (sq_fullTrackName clusterSent) 2.
Proof.
  assert (H : Forall (event_ok (theTree (after_ clusterRun).2) clusterStep.2) clusterStep.1).
  { apply (never_through_requester (hop_ok := fun _ => True) "r" 1 [] Logic.I SingleThread 5 true (fun s => s + 10) [] eq_refl clusterRun
      (Subscribe (aSubscribe []) 12 anEnv) (after_ clusterRun).1 (after_ clusterRun).2 clusterStep.1 clusterStep.2).
    - exact clusterRun_ok.
    - vm_compute; reflexivity.
    - vm_compute; reflexivity.
    - vm_compute; reflexivity. }
  revert H. rewrite clusterStep_sends. intros H. split; [left; reflexivity|]. inversion H as [|x l H1 H2]. exact H1.
Defined.

(** The namespace of the track has a route, and the FETCH is refused. *)
Lemma fetch_refused_during_setup_witness :
  findUpstreamPublisher ["live"] None (after_ wokenRun).2 = Some 2 /\
  exists s', step_ (RequestFetch aJoin 4 anEnv) (after_ wokenRun).2 =
    Some ([Replied 2 4 (Refused (mkError 3 DOES_NOT_EXIST "no upstream for fetch"))], s').
Proof.
  split; [vm_compute; reflexivity|].
  assert (Haw : exists e, awaits (frames (after_ wokenRun).2) 0 (mkInFlight aTrack 1 2) /\
    subscriptions_ (theRegistry (after_ wokenRun).2) !! aTrack = Some e /\ rs_epoch e = 1).
  { eexists. split; [eexists _, _, _; vm_compute; reflexivity|]. split; vm_compute; reflexivity. }
  destruct Haw as (e & H1 & H2 & H3).
  refine (fetch_refused_during_setup (hop_ok := fun _ => True) "r" 1 [] Logic.I SingleThread 5 true (fun s => s + 10) [] eq_refl wokenRun
    (after_ wokenRun).1 (after_ wokenRun).2 0 (mkInFlight aTrack 1 2) e aJoin 4 anEnv _ _ _ H1 H2 H3 eq_refl _ _).
  - apply exampleOps_ok. intros x Hx. apply elem_of_app. by left.
  - vm_compute; reflexivity.
  - vm_compute; reflexivity.
  - done.
  - by intros _.
Defined.
