(* ===== verification/TrackFilterRun.v ===== *)
(** TRACK_FILTER from end to end: the filters on the chains of the published
    tracks observe the property and drive the ranking, which selects tracks for
    the subscribers (MoqxRelay.cpp: [publishWithSession], lines 1024-1045;
    relay/TopNFilter.cpp; relay/PropertyRanking.cpp). *)


From S2P Require Import Prelude Assoc Location CacheState TopN Ranking RankingInv RankingSpec RankingViewers RankingRun RankingTheorems.
From S2P Require Import NamespaceTree Promise Registry RegistryRelay RegistryTheorems RankingPublishers CacheWitness.

Section run.
Context `{EA : ExtensionsApi} (propertyType : Z) (activityThreshold : Z).

(** The callbacks [publishWithSession] registers all lead to the one ranking. *)
Definition rankingObserver : PropertyObserver := mkObserver (Some 0) (Some 0) (Some 0).

Inductive TrackOp :=
  | TPublish (f : FullTrackName) (ext : Extensions) (publisher : Session)
  | TCall (f : FullTrackName) (call : TrackCall) (now : Z) (lastActivity : FullTrackName -> Z)
  | TAddSession (n : Z) (s : Session) (fwd : bool)
  | TUpdateForward (n : Z) (s : Session) (fwd : bool)
  | TRemoveSession (n : Z) (s : Session).

(** The filter on the chain of each publication, by track name. *)
Abbreviation Filters := (gmap FullTrackName TopNFilter).

Definition publishedFilter (f : FullTrackName) : TopNFilter :=
  registerObserver propertyType rankingObserver (setActivityThreshold activityThreshold (newTopNFilter f)).

(** The calls of the callbacks. *)
Definition observerCall (f : FullTrackName) (now : Z) (lastActivity : FullTrackName -> Z) (a : FilterAct) : option RankOp :=
  match a with
  | ValueChanged _ _ v => Some (UpdateSortValue f v now lastActivity)
  | TrackEnded _ _ => Some (RemoveTrack f)
  | Activity _ _ => Some (SweepIdle now lastActivity)
  | Touch _ _ | Forward _ => None
  end.

(** The filters after an operation, and what it calls on the ranking. *)
Definition track_step (op : TrackOp) (fs : Filters) : Filters * list RankOp :=
  match op with
  | TPublish f ext publisher =>
    (<[f := publishedFilter f]> fs, [RegisterTrack f (getIntExtension ext propertyType) publisher])
  | TCall f call now la =>
    match fs !! f with
    | None => (fs, [])
    | Some t => let '(t', acts) := onCall call now t in (<[f := t']> fs, omap (observerCall f now la) acts)
    end
  | TAddSession n s fwd => (fs, [AddSession n s fwd])
  | TUpdateForward n s fwd => (fs, [UpdateForward n s fwd])
  | TRemoveSession n s => (fs, [RemoveSession n s])
  end.
Fixpoint rankingCalls (ops : list TrackOp) (fs : Filters) : list RankOp :=
  match ops with
  | [] => []
  | op :: rest => let '(fs', calls) := track_step op fs in calls ++ rankingCalls rest fs'
  end.

(** A name is published again only after its publication has ended. *)
Fixpoint one_publication (ops : list TrackOp) (fs : Filters) : bool :=
  match ops with
  | [] => true
  | op :: rest =>
    match op with
    | TPublish f _ _ => match fs !! f with Some t => ended_ t | None => true end
    | _ => true
    end && one_publication rest (track_step op fs).1
  end.

(** ** The latest values *)
(** The tracks with the last value their objects carried, or the value of the
    PUBLISH. *)
Fixpoint latest (ops : list TrackOp) (m : Tracks) (seq : Z) : Tracks :=
  match ops with
  | [] => m
  | TPublish f ext p :: rest =>
    latest rest (spec_register f (getIntExtension ext propertyType) p seq m) (seq + if decide (m !! f = None) then 1 else 0)
  | TCall f PublishDone _ _ :: rest => latest rest (delete f m) seq
  | TCall f call _ _ :: rest =>
    latest rest (match valueIn propertyType call with Some v => spec_update f v m | None => m end) seq
  | _ :: rest => latest rest m seq
  end.

(** Whenever a call arrives on a chain, each track that is published and has not
    ended had its last object within the idle timeout. *)
Fixpoint never_idle (cfg : RankingConfig) (ops : list TrackOp) (m : Tracks) (seq : Z) : bool :=
  match ops with
  | [] => true
  | TPublish f ext p :: rest =>
    never_idle cfg rest (spec_register f (getIntExtension ext propertyType) p seq m) (seq + if decide (m !! f = None) then 1 else 0)
  | TCall f call now la :: rest =>
    activeAt cfg now la m &&
    never_idle cfg rest (match call with
                         | PublishDone => delete f m
                         | _ => match valueIn propertyType call with Some v => spec_update f v m | None => m end
                         end) seq
  | _ :: rest => never_idle cfg rest m seq
  end.

(** [s] publishes nothing and joins and leaves only the group of [n0]. *)
Definition viewer_track_op (s : Session) (n0 : Z) (op : TrackOp) : bool :=
  match op with
  | TPublish _ _ p => negb (p =? s)
  | TCall _ _ _ _ | TUpdateForward _ _ _ => true
  | TAddSession n s' _ => (0 <=? n) && (n <? u64_modulus) && (negb (s' =? s) || (n =? n0))
  | TRemoveSession n s' => negb (s' =? s) || (n =? n0)
  end.

(** ** The filter of a publication *)
Definition observes (l : option Z) (t : TopNFilter) : Prop :=
  observers_ t = [(propertyType, mkEntry l rankingObserver)].

Lemma onCall_observes l t call now f la :
  observes l t ->
  let t' := (onCall call now t).1 in
  let calls := omap (observerCall f now la) (onCall call now t).2 in
  match call with
  | PublishDone => observes l t' /\ ended_ t' = true /\ calls = [RemoveTrack f]
  | _ => ended_ t' = ended_ t /\ observes (seen l (option_list (valueIn propertyType call))) t' /\
         exists sweep, (sweep = [] \/ sweep = [SweepIdle now la]) /\
           calls = map (fun v => UpdateSortValue f v now la) (changes l (option_list (valueIn propertyType call))) ++ sweep
  end.
Proof.
  intros Hobs. cbv zeta. unfold observes in Hobs.
  destruct t as [ft obs en tg th ln]. cbn in Hobs. subst obs. set (t := mkFilter _ _ _ _ _ _).
  assert (Hcheck : forall ext c,
    ended_ (checkThenForward ext c now t).1 = ended_ t /\
    observes (seen l (option_list (getIntExtension ext propertyType))) (checkThenForward ext c now t).1 /\
    exists sweep, (sweep = [] \/ sweep = [SweepIdle now la]) /\
      omap (observerCall f now la) (checkThenForward ext c now t).2 =
        map (fun v => UpdateSortValue f v now la) (changes l (option_list (getIntExtension ext propertyType))) ++ sweep).
  { intros ext c. unfold checkThenForward, checkProperties. subst t. cbn -[throttleAllows].
    unfold checkObserver. cbn -[throttleAllows]. destruct (getIntExtension ext propertyType) as [v|]; cbn -[throttleAllows].
    - destruct (throttleAllows _ _), tg; case_bool_decide as Eb; cbn;
        (split_and!; [done|unfold observes; cbn; by rewrite ?Eb|]); (eexists; split; [|reflexivity]); auto.
    - split_and!; [done|done|]. exists []. split; [by left|done]. }
  destruct call; cbn [onCall valueIn extensionsOf mbind option_bind]; try apply Hcheck.
  - cbn. split_and!; [done|done|]. exists []. split; [by left|done].
  - done.
Qed.

Record filters_ok (fs : Filters) (m : Tracks) : Prop := {
  fo_observes f t : fs !! f = Some t -> exists l, observes l t;
  fo_live f k p : m !! f = Some (k, p) ->
    exists t l, fs !! f = Some t /\ ended_ t = false /\ observes l t /\ forall v, l = Some v -> value k = v;
}.

(** One call on the chain of [f]: the filters and tracks after it. *)
Definition after_call (call : TrackCall) (f : FullTrackName) (m : Tracks) : Tracks :=
  match call with
  | PublishDone => delete f m
  | _ => match valueIn propertyType call with Some v => spec_update f v m | None => m end
  end.
Lemma latest_call f call now la rest m seq :
  latest (TCall f call now la :: rest) m seq = latest rest (after_call call f m) seq.
Proof. by destruct call. Qed.

Lemma spec_update_same f v k p (m : Tracks) : m !! f = Some (k, p) -> value k = v -> spec_update f v m = m.
Proof. intros Hm <-. unfold spec_update. rewrite Hm. apply insert_id. rewrite Hm. by destruct k. Qed.

Lemma filters_ok_call fs m f t l t' l' m' :
  filters_ok fs m -> fs !! f = Some t -> observes l' t' -> ended_ t' = ended_ t ->
  (forall f' k p, m' !! f' = Some (k, p) -> f' <> f -> m !! f' = Some (k, p)) ->
  (forall k p, m' !! f = Some (k, p) -> (exists k0 p0, m !! f = Some (k0, p0)) /\ forall v, l' = Some v -> value k = v) ->
  observes l t -> filters_ok (<[f := t']> fs) m'.
Proof.
  intros [Hobs Hlive] Hf Ht' He Hother Hthis Ht. split.
  - intros f' t0 [[<- <-]|[_ H]]%lookup_insert_Some; eauto.
  - intros f' k p Hm. destruct (decide (f' = f)) as [->|Hne].
    + destruct (Hthis k p Hm) as [(k0 & p0 & H0) Hv]. destruct (Hlive f k0 p0 H0) as (t0 & l0 & Hf0 & He0 & _ & _).
      exists t', l'. rewrite lookup_insert_eq. split_and!; [done|congruence|done|done].
    + destruct (Hlive f' k p (Hother f' k p Hm Hne)) as (t0 & l0 & H0 & H1 & H2 & H3).
      exists t0, l0. rewrite lookup_insert_ne by done. done.
Qed.

(** An object on the chain of [f]. *)
Lemma object_call cfg fs m seq f t call now la rest :
  filters_ok fs m -> fs !! f = Some t -> call <> PublishDone ->
  let calls := omap (observerCall f now la) (onCall call now t).2 in
  (activeAt cfg now la m = true -> all_active cfg rest (after_call call f m) seq = true -> all_active cfg (calls ++ rest) m seq = true) /\
  (length calls <= 2)%nat /\ spec_tracks (calls ++ rest) m seq = spec_tracks rest (after_call call f m) seq /\
  filters_ok (<[f := (onCall call now t).1]> fs) (after_call call f m).
Proof.
  intros Hok Hf Hc. cbv zeta. destruct (fo_observes _ _ Hok f t Hf) as [l Hl].
  pose proof (onCall_observes l t call now f la Hl) as Ho. cbv zeta in Ho.
  assert (Ha : after_call call f m = match valueIn propertyType call with Some v => spec_update f v m | None => m end)
    by (by destruct call).
  rewrite Ha. clear Ha. assert (Ho' : ended_ (onCall call now t).1 = ended_ t /\
    observes (seen l (option_list (valueIn propertyType call))) (onCall call now t).1 /\
    exists sweep, (sweep = [] \/ sweep = [SweepIdle now la]) /\
      omap (observerCall f now la) (onCall call now t).2 =
        map (fun v => UpdateSortValue f v now la) (changes l (option_list (valueIn propertyType call))) ++ sweep)
    by (by destruct call). clear Ho. destruct Ho' as (He & Hobs & sweep & Hsweep & ->).
  assert (Hs : spec_tracks (sweep ++ rest) = spec_tracks rest) by (by destruct Hsweep as [-> | ->]).
  assert (Hsw : forall m', activeAt cfg now la m' = true -> all_active cfg (sweep ++ rest) m' seq = all_active cfg rest m' seq).
  { intros m' Hm'. destruct Hsweep as [-> | ->]; [done|]. cbn. by rewrite Hm'. }
  assert (Hsl : (length sweep <= 1)%nat) by (by destruct Hsweep as [-> | ->]; cbn; lia).
  destruct (valueIn propertyType call) as [v|]; cbn in *.
  2: { split_and!; [by intros Ha; rewrite Hsw|lia|by rewrite Hs|]. eapply (filters_ok_call fs m f t l); try done.
    intros k p Hm. split; [by eauto|]. destruct (fo_live _ _ Hok f k p Hm) as (t0 & l0 & H0 & _ & H2 & H3).
    replace t0 with t in * by congruence. unfold observes in *. rewrite Hl in H2. by injection H2 as <-. }
  assert (Hlive : forall k p, m !! f = Some (k, p) -> l = Some v -> value k = v).
  { intros k p Hm ->. destruct (fo_live _ _ Hok f k p Hm) as (t0 & l0 & H0 & _ & H2 & H3).
    replace t0 with t in * by congruence. unfold observes in *. rewrite Hl in H2. injection H2 as <-. by apply H3. }
  assert (Hsame : l = Some v -> spec_update f v m = m).
  { intros Eb. destruct (m !! f) as [[k p]|] eqn:Em; [by rewrite (spec_update_same f v k p) by eauto|].
    unfold spec_update. by rewrite Em. }
  split_and!.
  - intros Ha Hr. case_bool_decide as Eb; cbn [map app all_active].
    + rewrite Hsw by done. by rewrite Hsame in Hr.
    + rewrite Ha, Hsw by (by rewrite activeAt_update). done.
  - case_bool_decide; cbn; lia.
  - case_bool_decide as Eb; cbn [map app spec_tracks]; rewrite Hs; [|done]. by rewrite Hsame.
  - eapply (filters_ok_call fs m f t l); try done.
    + intros f' k p Hm Hne. unfold spec_update in Hm. destruct (m !! f) as [[k0 p0]|]; [|done].
      by rewrite lookup_insert_ne in Hm.
    + intros k p Hm. unfold spec_update in Hm. destruct (m !! f) as [[k0 p0]|] eqn:Em.
      * rewrite lookup_insert_eq in Hm. injection Hm as <- <-. split; [by eauto|]. by intros v' [= <-].
      * congruence.
Qed.

Lemma rankingCalls_ok cfg ops : forall fs m seq,
  filters_ok fs m -> one_publication ops fs = true -> never_idle cfg ops m seq = true ->
  all_active cfg (rankingCalls ops fs) m seq = true /\
  spec_tracks (rankingCalls ops fs) m seq = latest ops m seq /\ (length (rankingCalls ops fs) <= 2 * length ops)%nat.
Proof.
  induction ops as [|op ops IH]; intros fs m seq Hok Hone Hact; [done|].
  cbn [one_publication] in Hone. apply andb_true_iff in Hone as [Hop Hone].
  destruct op as [f ext p|f call now la|n s' fwd|n s' fwd|n s']; cbn [track_step fst] in Hone; cbn [never_idle] in Hact.
  - cbn [rankingCalls track_step latest app spec_tracks all_active length].
    assert (Hm : m !! f = None).
    { destruct (m !! f) as [[k q]|] eqn:Em; [|done]. destruct (fo_live _ _ Hok f k q Em) as (t & l & Ht & He & _).
      rewrite Ht in Hop. congruence. }
    destruct (IH (<[f := publishedFilter f]> fs) (spec_register f (getIntExtension ext propertyType) p seq m)
      (seq + if decide (m !! f = None) then 1 else 0)) as (H0 & H1 & H2); [|done|done|split_and!; [exact H0|exact H1|lia]].
    split.
    + intros f' t [[<- <-]|[_ H]]%lookup_insert_Some; [by exists None|]. by eapply fo_observes.
    + unfold spec_register. rewrite Hm. intros f' k q [[<- _]|[Hne H]]%lookup_insert_Some.
      * exists (publishedFilter f), None. rewrite lookup_insert_eq. done.
      * destruct (fo_live _ _ Hok f' k q H) as (t & l & Ht & Hr). exists t, l. by rewrite lookup_insert_ne.
  - apply andb_true_iff in Hact as [Ha Hact]. fold (after_call call f m) in Hact. rewrite latest_call. cbn [rankingCalls track_step] in *. destruct (fs !! f) as [t|] eqn:Ef.
    2: { assert (Hm : m !! f = None).
      { destruct (m !! f) as [[k q]|] eqn:Em; [|done]. destruct (fo_live _ _ Hok f k q Em) as (t & l & Ht & _). congruence. }
      assert (Hac : after_call call f m = m).
      { unfold after_call, spec_update. rewrite Hm. destruct call; try (by destruct (valueIn _ _)). by apply delete_id. }
      rewrite Hac in Hact |- *. cbn [app length]. destruct (IH fs m seq Hok Hone Hact) as (? & ? & ?). split_and!; [done|done|lia]. }
    assert (Hdone : call = PublishDone \/ call <> PublishDone) by (destruct call; [by right..|by left]).
    destruct Hdone as [->|Hc].
    + destruct (fo_observes _ _ Hok f t Ef) as [l Hl].
      destruct (onCall_observes l t PublishDone now f la Hl) as (Ho & He & Hcalls).
      cbn [onCall] in *. destruct (publishDone t) as [t' acts]. cbn [fst snd] in *. rewrite Hcalls. cbn [app spec_tracks all_active length].
      destruct (IH (<[f := t']> fs) (delete f m) seq) as (H0 & H1 & H2); [|done|done|split_and!; [exact H0|exact H1|lia]]. split.
      * intros f' t0 [[<- <-]|[_ H]]%lookup_insert_Some; [by exists l|]. by eapply fo_observes.
      * intros f' k q [Hne H]%lookup_delete_Some. destruct (fo_live _ _ Hok f' k q H) as (t0 & l0 & Ht & Hr).
        exists t0, l0. by rewrite lookup_insert_ne.
    + destruct (object_call cfg fs m seq f t call now la (rankingCalls ops (<[f := (onCall call now t).1]> fs)) Hok Ef Hc)
        as (Hall & Hlen & Hspec & Hok').
      destruct (onCall call now t) as [t' acts]. cbn [fst snd] in *.
      rewrite Hspec, length_app. destruct (IH _ _ seq Hok' Hone Hact) as (H0 & H1 & H2). split_and!; [by apply Hall|done|]. cbn [length]. lia.
  - cbn [rankingCalls track_step latest app spec_tracks all_active length]. destruct (IH fs m seq Hok Hone Hact) as (? & ? & ?). split_and!; [done|done|lia].
  - cbn [rankingCalls track_step latest app spec_tracks all_active length]. destruct (IH fs m seq Hok Hone Hact) as (? & ? & ?). split_and!; [done|done|lia].
  - cbn [rankingCalls track_step latest app spec_tracks all_active length]. destruct (IH fs m seq Hok Hone Hact) as (? & ? & ?). split_and!; [done|done|lia].
Qed.

Lemma rankingCalls_viewer s n0 ops : forall fs,
  forallb (viewer_track_op s n0) ops = true -> forallb (viewer_op s n0) (rankingCalls ops fs) = true.
Proof.
  induction ops as [|op ops IH]; intros fs; [done|]. cbn [forallb]. intros [Hop Hops]%andb_true_iff.
  cbn [rankingCalls]. destruct op as [f ext p|f call now la|n s' fwd|n s' fwd|n s']; cbn [track_step] in *.
  2: { destruct (fs !! f) as [t|]; [|by apply IH]. destruct (onCall call now t) as [t' acts].
    rewrite forallb_app, IH, andb_true_r by done. induction acts as [|a acts IHa]; [done|]. cbn. by destruct a. }
  all: cbn [app forallb]; rewrite IH by done; rewrite andb_true_r; done.
Qed.

(** (C11) TRACK_FILTER from end to end.  Tracks are published with filters on
    their chains, objects with or without the property arrive on them, tracks
    end, sessions join, leave and change their forward flag, in any order, under
    three conditions: the ranking keeps no deselected queue (the relay's setting);
    a name is published again only after it has ended; and at every call on a
    chain each published track had its last object within the idle timeout (10
    seconds in the relay), so that the idle sweeps demote nothing.  A session that
    publishes nothing and is subscribed with N is then delivered exactly the N
    tracks with the highest latest value: the value of the last object that carried
    the property, or of the PUBLISH before there is one (the earlier published
    track first when values are equal). *)
Theorem track_filter_top_n (cfg : RankingConfig) (s : Session) (n : Z) (ops : list TrackOp) :
  maxDeselected cfg = 0 ->
  onBatchSelectedSet cfg = true -> onEvictedSet cfg = true -> onSelectedSet cfg = true ->
  forallb (viewer_track_op s n) ops = true -> one_publication ops ∅ = true -> never_idle cfg ops ∅ 0 = true ->
  2 * Z.of_nat (length ops) < u64_modulus ->
  subscribed s n (run_view cfg s (rankingCalls ops ∅) emptyRanking ∅).1 = true ->
  forall f, f ∈ (run_view cfg s (rankingCalls ops ∅) emptyRanking ∅).2 <-> in_top n (latest ops ∅ 0) f.
Proof.
  intros Hmax Hb He Hs Hops Hone Hact Hlen.
  destruct (rankingCalls_ok cfg ops ∅ ∅ 0) as (Hall & Hspec & Hcalls); [by split|done|done|].
  destruct (run_view_ok cfg Hmax Hb He Hs s n (rankingCalls ops ∅) ∅ 0 emptyRanking ∅) as [seq' V];
    [by apply rankingCalls_viewer|done|lia|lia|apply view_ok_empty|].
  rewrite Hspec in V. destruct (run_view cfg s (rankingCalls ops ∅) emptyRanking ∅) as [r D]. cbn [fst snd] in *.
  by apply (subscribed_delivered s n _ seq').
Qed.
End run.

(** ** A run *)
(** Property 7 is the level; session 9 watches with N = 1.  Times are in
    nanoseconds; with the settings of the relay the sweeps run and find every track
    active a second ago. *)
Definition secondAgo (now : Z) : FullTrackName -> Z := fun _ => now - 1000000000.
Definition atSecond (f : FullTrackName) (call : TrackCall) (sec : Z) : TrackOp :=
  TCall f call (sec * 1000000000) (secondAgo (sec * 1000000000)).
Definition conference : list TrackOp :=
  [TPublish (track "a") [(7, 50)] 1; TAddSession 1 9 true; TPublish (track "b") [] 2;
   atSecond (track "b") (level 60) 3; atSecond (track "a") (Datagram [(3, 1)]) 4;
   atSecond (track "a") (level 70) 5; atSecond (track "a") (level 70) 6;
   atSecond (track "a") PublishDone 7].

Lemma track_filter_top_n_witness :
  track "b" ∈ (run_view relayConfig 9 (rankingCalls 7 1 conference ∅) emptyRanking ∅).2 <->
  in_top 1 (latest 7 conference ∅ 0) (track "b").
Proof. apply (track_filter_top_n 7 1 relayConfig 9 1 conference); vm_compute; reflexivity. Defined.
(** The sweeps of this run. *)
Example conference_sweeps :
  length (List.filter (fun op => match op with SweepIdle _ _ => true | _ => false end) (rankingCalls 7 1 conference ∅)) = 3%nat.
Proof. vm_compute. reflexivity. Qed.

(** Only the changes reach the ranking. *)
Example conference_calls :
  (fun op => match op with UpdateSortValue f v _ _ => Some (f, v) | _ => None end) <$> rankingCalls 7 0 conference ∅ =
    [None; None; None; Some (track "b", 60); Some (track "a", 70); None].
Proof. vm_compute. reflexivity. Qed.

(** ** A track published again *)
(** Session 1 publishes the track and session 9 watches it. *)
Definition watched : PropertyRanking * gset FullTrackName :=
  run_view quietConfig 9 [RegisterTrack video (Some 50) 1; AddSession 1 9 true] emptyRanking ∅.

(** A watched track is lost when it is published again before it has
    ended.  The relay ends the forwarder of the first publication, with the
    session that watches it; the ranking keeps the track as registered, by the
    first publisher, and does not select it again, so the session is not given
    the new publication. *)
Theorem republished_track_lost :
  watched.2 = {[video]} /\
  evsAfter RelayExec [OpPublish video 1 None 4 40 0; OpPublish video 2 None 5 50 1] =
    [Unsubscribe (Some 11) 40; ForwarderDone (OwnedRef 0)] /\
  rank_step quietConfig (RegisterTrack video (Some 50) 2) watched.1 = (watched.1, []) /\
  map (fun q => publisherRaw q.2) (rankedTracks watched.1) = [1].
Proof. split_and!; vm_compute; reflexivity. Qed.
