(* ===== verification/Ingest.v ===== *)
(** The ingest counters of a track (SubscriptionRegistry.h: [IngestCounters];
    relay/RecentGroupWindow.h; MoqxRelay.cpp: [RelayIngestFilter]). *)

From S2P Require Import Prelude Location.

(** ** The window of recent groups *)
Definition kSize : nat := 3.

(** The array and the number of its cells in use. *)
Record RecentGroupWindow := mkWindow { groups_ : list Z; count_ : nat }.
Definition newWindow : RecentGroupWindow := mkWindow (replicate kSize 0) 0.

(** [std::rotate(begin, begin + i, begin + i + 1)]: cell [i] moves to the front. *)
Definition rotateFront (i : nat) (l : list Z) : list Z :=
  match l !! i with Some x => x :: take i l ++ drop (S i) l | None => l end.

(** The index of [g] among the cells in use. *)
Fixpoint indexOf (g : Z) (l : list Z) : option nat :=
  match l with
  | [] => None
  | x :: r => if x =? g then Some 0%nat else S <$> indexOf g r
  end.

Definition admit_group (groupID : Z) (w : RecentGroupWindow) : bool * RecentGroupWindow :=
  match indexOf groupID (take (count_ w) (groups_ w)) with
  | Some i => (false, mkWindow (rotateFront i (groups_ w)) (count_ w))
  | None =>
    let rotated := rotateFront (length (groups_ w) - 1) (groups_ w) in
    (true, mkWindow (<[0%nat := groupID]> rotated) (Nat.min (count_ w + 1) kSize))
  end.

(** ** The counters *)
Record IngestCounters := mkIngest {
  ic_largest : option AbsoluteLocation;
  ic_groups : Z;
  ic_objects : Z;
  ic_recent : RecentGroupWindow;
}.
Definition newIngest : IngestCounters := mkIngest None 0 0 newWindow.

Definition record (grp obj : Z) (c : IngestCounters) : IngestCounters :=
  let '(first, w) := admit_group grp (ic_recent c) in
  let loc := Loc grp obj in
  mkIngest (match ic_largest c with
            | None => Some loc
            | Some l => if loc_ltb l loc then Some loc else Some l
            end)
    (if first then u64 (ic_groups c + 1) else ic_groups c) (u64 (ic_objects c + 1)) w.

(** The calls of the filter that deliver an object; the group of a subgroup is
    fixed when it begins. *)
Inductive IngestCall :=
  | InObjectStream (grp obj : Z) | InDatagram (grp obj : Z)
  | InObject (grp obj : Z) | InBeginObject (grp obj : Z)
  | InEndOfGroup (grp obj : Z) | InEndOfTrackAndGroup (grp obj : Z).
Definition delivered (c : IngestCall) : Z * Z :=
  match c with
  | InObjectStream g o | InDatagram g o | InObject g o | InBeginObject g o
  | InEndOfGroup g o | InEndOfTrackAndGroup g o => (g, o)
  end.
Definition ingest (calls : list IngestCall) (c : IngestCounters) : IngestCounters :=
  foldl (fun c call => record (delivered call).1 (delivered call).2 c) c calls.

(** ** Recency *)
(** The distinct groups of a sequence of arrivals, the latest first. *)
Definition touch (l : list Z) (g : Z) : list Z := g :: filter (fun x => x <> g) l.
Definition mru (arrivals : list Z) : list Z := foldl touch [] arrivals.

Lemma mru_snoc a g : mru (a ++ [g]) = touch (mru a) g.
Proof. unfold mru. by rewrite foldl_app. Qed.
Lemma mru_nodup a : NoDup (mru a).
Proof.
  induction a as [|g a IH] using rev_ind; [constructor|]. rewrite mru_snoc. apply NoDup_cons.
  split; [|by apply NoDup_filter]. rewrite list_elem_of_filter. tauto.
Qed.
Lemma mru_elem a g : g ∈ mru a <-> g ∈ a.
Proof.
  induction a as [|x a IH] using rev_ind; [done|]. rewrite mru_snoc. unfold touch.
  rewrite elem_of_cons, list_elem_of_filter, elem_of_app, list_elem_of_singleton, IH.
  destruct (decide (g = x)); tauto.
Qed.

Lemma indexOf_spec g l :
  match indexOf g l with
  | Some i => l !! i = Some g /\ g ∉ take i l
  | None => g ∉ l
  end.
Proof.
  induction l as [|x l IH]; cbn; [by intros ?%elem_of_nil|].
  destruct (Z.eqb_spec x g) as [->|Hne]; cbn.
  - split; [done|]. by intros ?%elem_of_nil.
  - destruct (indexOf g l) as [i|]; cbn.
    + destruct IH as [Hi Hn]. split; [done|]. rewrite not_elem_of_cons. split; [congruence|done].
    + rewrite not_elem_of_cons. split; [congruence|done].
Qed.

(** The latest groups without [g]. *)
Definition others (g : Z) (l : list Z) : list Z := filter (fun x => x <> g) l.

Lemma others_id g l : g ∉ l -> others g l = l.
Proof.
  unfold others. induction l as [|x l IH]; [done|]. rewrite not_elem_of_cons. intros [Hne Hn].
  rewrite filter_cons_True by congruence. by rewrite IH.
Qed.
Lemma others_split g l i : NoDup l -> l !! i = Some g -> others g l = take i l ++ drop (S i) l.
Proof.
  intros Hnd Hi. pose proof (take_drop_middle l i g Hi) as Hsplit.
  rewrite <-Hsplit at 1. rewrite <-Hsplit in Hnd. apply NoDup_app in Hnd as (_ & Hd & [Hg _]%NoDup_cons).
  unfold others. rewrite filter_app, filter_cons_False by tauto. fold (others g (take i l)) (others g (drop (S i) l)).
  rewrite !others_id; [done|done|]. intros Hin'. apply (Hd g Hin'). by left.
Qed.
Lemma others_take g n : forall l, g ∉ take n l -> take n (others g l) = take n l.
Proof.
  unfold others. induction n as [|n IH]; intros [|x l]; try done. cbn [take]. rewrite not_elem_of_cons. intros [Hne Hn].
  rewrite filter_cons_True by congruence. cbn [take]. by rewrite IH.
Qed.
Lemma others_length g l : NoDup l -> length (others g l) = (length l - if decide (g ∈ l) then 1 else 0)%nat.
Proof.
  intros Hnd. destruct (decide (g ∈ l)) as [Hin|Hn]; [|by rewrite others_id, Nat.sub_0_r].
  apply list_elem_of_lookup in Hin as [i Hi]. rewrite (others_split g l i) by done.
  apply lookup_lt_Some in Hi. rewrite length_app, length_take, length_drop. lia.
Qed.

(** [w] holds the [kSize] latest groups of the arrivals. *)
Record window_ok (a : list Z) (w : RecentGroupWindow) : Prop := {
  wk_length : length (groups_ w) = kSize;
  wk_count : count_ w = Nat.min (length (mru a)) kSize;
  wk_groups : take (count_ w) (groups_ w) = take kSize (mru a);
}.
Lemma window_ok_new : window_ok [] newWindow.
Proof. by split. Qed.

Lemma admit_ok a g w : window_ok a w ->
  (admit_group g w).1 = negb (bool_decide (g ∈ take kSize (mru a))) /\ window_ok (a ++ [g]) (admit_group g w).2.
Proof.
  intros [Hlen Hcount Hgroups]. unfold admit_group. pose proof (indexOf_spec g (take (count_ w) (groups_ w))) as Hidx.
  pose proof (mru_nodup a) as Hnd. assert (Htouch : mru (a ++ [g]) = g :: others g (mru a)) by apply mru_snoc.
  destruct (indexOf g (take (count_ w) (groups_ w))) as [i|]; cbn [fst snd].
  - destruct Hidx as [Hi _].
    assert (Hic : (i < count_ w)%nat) by (apply lookup_lt_Some in Hi; rewrite length_take in Hi; lia).
    assert (Hi' : mru a !! i = Some g) by (rewrite Hgroups in Hi; apply lookup_take_Some in Hi; tauto).
    assert (Hig : groups_ w !! i = Some g) by (apply lookup_take_Some in Hi; tauto).
    assert (Hil : (i < length (mru a))%nat) by (by apply lookup_lt_Some in Hi').
    assert (Hlm : length (mru (a ++ [g])) = length (mru a)).
    { rewrite Htouch. cbn. rewrite others_length, decide_True by (done || by eapply list_elem_of_lookup_2). lia. }
    split; [by rewrite bool_decide_true by (rewrite <-Hgroups; by eapply list_elem_of_lookup_2)|].
    unfold rotateFront. rewrite Hig. split; cbn [groups_ count_].
    + cbn. rewrite length_app, length_take, length_drop. unfold kSize in *. lia.
    + by rewrite Hlm.
    + rewrite Htouch, (others_split g _ i Hnd Hi').
      assert (Hcut : forall n (l : list Z), (i < n)%nat -> (i < length l)%nat ->
        take n (g :: take i l ++ drop (S i) l) = g :: take i (take n l) ++ drop (S i) (take n l)).
      { intros n l Hn Hl. destruct n as [|n]; [lia|]. cbn [take]. f_equal.
        rewrite take_app, (take_ge (take i l)) by (rewrite length_take; lia).
        rewrite take_take, length_take, !Nat.min_l by lia. f_equal.
        by rewrite skipn_firstn_comm. }
      rewrite !Hcut by (unfold kSize in *; lia). by rewrite Hgroups.
  - assert (Hn : g ∉ take kSize (mru a)) by (by rewrite <-Hgroups).
    split; [by rewrite bool_decide_false|].
    assert (Hlm : Nat.min (length (mru (a ++ [g]))) kSize = Nat.min (count_ w + 1) kSize).
    { rewrite Htouch. cbn. rewrite others_length by done. destruct (decide (g ∈ mru a)) as [Hin|]; [|unfold kSize in *; lia].
      apply list_elem_of_lookup in Hin as [i Hi]. assert (Hi3 : ~ (i < kSize)%nat).
      { intros Hlt. apply Hn, (list_elem_of_lookup_2 _ i). by rewrite lookup_take_lt. }
      apply lookup_lt_Some in Hi. unfold kSize in *. lia. }
    split; cbn [groups_ count_].
    + rewrite length_insert. unfold rotateFront. destruct (groups_ w !! _) eqn:E; [|done].
      cbn. rewrite length_app, length_take, length_drop, Hlen. unfold kSize. lia.
    + by rewrite Hlm.
    + rewrite Htouch. destruct w as [gs c]. cbn [groups_ count_] in *.
      destruct gs as [|x [|y [|z [|? ?]]]]; try done. cbn [rotateFront length lookup list_lookup Nat.sub insert list_insert take drop app].
      change (take kSize (g :: others g (mru a))) with (g :: take 2 (others g (mru a))).
      rewrite others_take.
      2: { intros Hin. apply Hn. apply list_elem_of_lookup in Hin as [j Hj]. apply lookup_take_Some in Hj as [Hj Hlt].
        apply (list_elem_of_lookup_2 _ j). rewrite lookup_take_lt; [exact Hj|unfold kSize; lia]. }
      assert (H2 : take 2 (mru a) = take 2 (take c [x; y; z])) by (by rewrite Hgroups, take_take).
      rewrite H2. clear -Hcount. destruct c as [|[|[|[|c]]]]; done.
Qed.

(** ** The counters over a sequence of calls *)
(** The arrivals that start a run of their group: their group is not among the
    [kSize] latest ones. *)
Fixpoint admissions (before arrivals : list Z) : Z :=
  match arrivals with
  | [] => 0
  | g :: r => (if bool_decide (g ∈ take kSize (mru before)) then 0 else 1) + admissions (before ++ [g]) r
  end.

Definition greater (l : option AbsoluteLocation) (x : Z * Z) : option AbsoluteLocation :=
  match l with Some l => if loc_ltb l (Loc x.1 x.2) then Some (Loc x.1 x.2) else Some l | None => Some (Loc x.1 x.2) end.

Lemma ingest_spec calls : forall before c,
  window_ok before (ic_recent c) -> 0 <= ic_groups c <= ic_objects c ->
  ic_objects c + Z.of_nat (length calls) < u64_modulus ->
  let arrivals := map (fun call => (delivered call).1) calls in
  ic_objects (ingest calls c) = ic_objects c + Z.of_nat (length calls) /\
  ic_groups (ingest calls c) = ic_groups c + admissions before arrivals /\
  ic_largest (ingest calls c) = foldl greater (ic_largest c) (map delivered calls).
Proof.
  induction calls as [|call calls IH]; intros before c Hw Hg Hlen; cbn [length map admissions] in *.
  { cbn. split_and!; [lia|lia|done]. }
  set (c1 := record (delivered call).1 (delivered call).2 c).
  assert (Hstep : ingest (call :: calls) c = ingest calls c1) by done. rewrite Hstep.
  destruct (admit_ok before (delivered call).1 (ic_recent c) Hw) as [Ha Hw1].
  assert (Hc1 : ic_objects c1 = ic_objects c + 1 /\
    ic_groups c1 = ic_groups c + (if bool_decide ((delivered call).1 ∈ take kSize (mru before)) then 0 else 1) /\
    ic_largest c1 = greater (ic_largest c) (delivered call) /\ window_ok (before ++ [(delivered call).1]) (ic_recent c1)).
  { unfold c1, record. destruct (admit_group (delivered call).1 (ic_recent c)) as [first w]. cbn in *. subst first.
    split_and!; [|case_bool_decide; cbn|by destruct (ic_largest c)|done]; rewrite ?u64_small; try done; unfold u64_ok; lia. }
  destruct Hc1 as (Ho & Hgr & Hl & Hw').
  destruct (IH (before ++ [(delivered call).1]) c1 Hw') as (H1 & H2 & H3); [case_bool_decide; lia|lia|].
  rewrite H1, H2, H3, Ho, Hgr, Hl. cbn [foldl]. split_and!; [lia|lia|done].
Qed.

(** At most [kSize - 1] other groups arrive between two arrivals of a group. *)
Definition shallow (arrivals : list Z) : Prop :=
  forall a g b c, arrivals = a ++ g :: b ++ g :: c -> g ∉ b -> (size (list_to_set b : gset Z) < kSize)%nat.

Lemma mru_between a g b : g ∉ b ->
  exists l r, mru (a ++ g :: b) = l ++ g :: r /\ NoDup l /\ forall x, x ∈ l <-> x ∈ b.
Proof.
  induction b as [|x b IH] using rev_ind; intros Hg.
  { exists [], (others g (mru a)). split; [apply mru_snoc|]. split; [constructor|done]. }
  apply not_elem_of_app in Hg as [Hg Hx]. rewrite list_elem_of_singleton in Hx.
  destruct (IH Hg) as (l & r & E & Hnd & Hl).
  exists (x :: others x l), (others x r). change (a ++ g :: b ++ [x]) with (a ++ (g :: b) ++ [x]).
  rewrite app_assoc, mru_snoc, E. unfold touch, others. rewrite filter_app, filter_cons_True by done. split; [done|].
  split; [apply NoDup_cons; split; [rewrite list_elem_of_filter; tauto|by apply NoDup_filter]|].
  intros y. rewrite elem_of_cons, list_elem_of_filter, elem_of_app, list_elem_of_singleton, Hl.
  destruct (decide (y = x)); tauto.
Qed.

(** The last arrival of a group. *)
Lemma last_arrival (g : Z) (l : list Z) : g ∈ l -> exists a b, l = a ++ g :: b /\ g ∉ b.
Proof.
  induction l as [|x l IH] using rev_ind; [by intros ?%elem_of_nil|].
  destruct (decide (x = g)) as [->|Hne].
  - intros _. exists l, []. split; [done|]. by intros ?%elem_of_nil.
  - rewrite elem_of_app, list_elem_of_singleton. intros [Hin|]; [|congruence].
    destruct (IH Hin) as (a & b & -> & Hn). exists a, (b ++ [x]). split; [by rewrite <-app_assoc|].
    rewrite elem_of_app, list_elem_of_singleton. intros [|]; congruence.
Qed.

Lemma admissions_shallow arrivals : forall before,
  shallow (before ++ arrivals) ->
  Z.of_nat (size (list_to_set before : gset Z)) + admissions before arrivals =
    Z.of_nat (size (list_to_set (before ++ arrivals) : gset Z)).
Proof.
  induction arrivals as [|g r IH]; intros before Hs; cbn [admissions]; [rewrite app_nil_r; lia|].
  specialize (IH (before ++ [g])). rewrite <-app_assoc in IH. cbn [app] in IH. specialize (IH Hs). rewrite <-IH.
  rewrite list_to_set_app_L. cbn [list_to_set]. rewrite union_empty_r_L.
  destruct (decide (g ∈ before)) as [Hin|Hn].
  - destruct (last_arrival g before Hin) as (a & b & -> & Hb).
    rewrite bool_decide_true.
    + replace (list_to_set (a ++ g :: b) ∪ {[g]}) with (list_to_set (a ++ g :: b) : gset Z) by set_solver. lia.
    + destruct (mru_between a g b Hb) as (l & r' & -> & Hnd & Hl).
      assert (Hlen : (length l < kSize)%nat).
      { specialize (Hs a g b r). rewrite <-app_assoc in Hs. specialize (Hs eq_refl Hb).
        rewrite <-(size_list_to_set (C := gset Z) l) by done.
        replace (list_to_set l : gset Z) with (list_to_set b : gset Z) by (apply set_eq; intros y; rewrite !elem_of_list_to_set; by rewrite Hl).
        done. }
      rewrite take_app, elem_of_app. right. destruct (kSize - length l)%nat eqn:Ek; [lia|]. cbn. by left.
  - rewrite bool_decide_false.
    + rewrite size_union by set_solver. rewrite size_singleton. lia.
    + intros Hin. apply Hn, mru_elem. rewrite <-(take_drop kSize (mru before)). apply elem_of_app. by left.
Qed.

(** The counters of a track, over any sequence of objects: the objects are
    all counted, [largest] is the greatest location, and a group is counted when
    it is not among the three groups with the latest objects.  So the distinct
    groups are counted exactly as long as no more than two other groups come
    between two objects of a group. *)
Theorem ingest_counts (calls : list IngestCall) :
  Z.of_nat (length calls) < u64_modulus ->
  let c := ingest calls newIngest in
  let arrivals := map (fun call => (delivered call).1) calls in
  ic_objects c = Z.of_nat (length calls) /\
  ic_largest c = foldl greater None (map delivered calls) /\
  ic_groups c = admissions [] arrivals /\
  (shallow arrivals -> ic_groups c = Z.of_nat (size (list_to_set arrivals : gset Z))).
Proof.
  intros Hlen. cbv zeta. destruct (ingest_spec calls [] newIngest) as (H1 & H2 & H3);
    [apply window_ok_new|cbn; lia|cbn; lia|].
  rewrite H1, H2, H3. split_and!; [done..|]. intros Hs. cbn.
  pose proof (admissions_shallow _ [] Hs) as Ha. cbn in Ha. rewrite <-Ha. rewrite size_empty. lia.
Qed.

Lemma ingest_counts_witness :
  let calls := [InObject 1 0; InObject 2 0; InObject 3 0; InObject 1 1; InObject 4 0; InDatagram 2 1] in
  ic_objects (ingest calls newIngest) = 6 /\ ic_groups (ingest calls newIngest) = 5.
Proof.
  destruct (ingest_counts [InObject 1 0; InObject 2 0; InObject 3 0; InObject 1 1; InObject 4 0; InDatagram 2 1]) as (H1 & _ & H3 & _);
    [vm_compute; reflexivity|]. split; [exact H1|]. rewrite H3. vm_compute. reflexivity.
Defined.
