(* ===== verification/LocalRegistry.v ===== *)
(** The registry of the forwarders of one thread (relay/LocalForwarderRegistry.h).

    A forwarder is a reference; a claim or ticket holds it alive, so a reference
    is not used twice.  [None] is a failed [XCHECK], or a promise fulfilled
    twice.  Setting the initial state of a forwarder is recorded in
    [initialised]. *)

From S2P Require Import Prelude Location Promise.

Abbreviation fref := Z.

(** [le_ready]: the promise of a pending entry. *)
Record LocalEntry := mkLocal { le_forwarder : fref; le_ready : option pref }.

Record LocalForwarderRegistry := mkLocalReg {
  forwarders_ : gmap FullTrackName LocalEntry;
  displaced_ : gmap FullTrackName (list fref);
  ready_ : Promises;
  initialised : gset fref;
}.
Definition emptyLocal : LocalForwarderRegistry := mkLocalReg ∅ ∅ noPromises ∅.

Definition set_forwarders m (r : LocalForwarderRegistry) : LocalForwarderRegistry :=
  mkLocalReg m (displaced_ r) (ready_ r) (initialised r).
Definition set_displaced m (r : LocalForwarderRegistry) : LocalForwarderRegistry :=
  mkLocalReg (forwarders_ r) m (ready_ r) (initialised r).
Definition set_ready ps (r : LocalForwarderRegistry) : LocalForwarderRegistry :=
  mkLocalReg (forwarders_ r) (displaced_ r) ps (initialised r).

(** ** Claims and tickets *)
(** [cl_engaged]: [registry_] is not null. *)
Record Claim := mkClaim {
  cl_engaged : bool;
  cl_ftn : FullTrackName;
  cl_forwarder : fref;
  cl_initialStateSet : bool;
}.
#[global] Instance Claim_eq_dec : EqDecision Claim.
Proof. solve_decision. Defined.
(** The key of a ticket; [None] when nothing was displaced. *)
Abbreviation ParkTicket := (option fref).

Inductive LocalState := Absent | Pending (future : pref) | Ready (f : fref).
Definition stateOf (e : LocalEntry) : LocalState :=
  match le_ready e with Some p => Pending p | None => Ready (le_forwarder e) end.

Abbreviation L := (M LocalForwarderRegistry).

Definition fulfilReady (p : pref) (st : PromiseState) : L unit := fun r =>
  match fulfil p st (ready_ r) with Some ps => Some (tt, set_ready ps r) | None => None end.

(** ** Entering *)
Definition makePending (f : FullTrackName) (forwarder : fref) (park : bool) (inherited : option pref)
  : L (Claim * ParkTicket) :=
  r ← get;
  let displaced := le_forwarder <$> forwarders_ r !! f in
  let parked := if park then displaced else None in
  (match parked with
   | Some d => modify (fun r => set_displaced (<[f := default [] (displaced_ r !! f) ++ [d]]> (displaced_ r)) r)
   | None => mret tt
   end);;
  p ← (match inherited with
       | Some p => mret p
       | None => fun r => let '(p, ps) := newPromise (ready_ r) in Some (p, set_ready ps r)
       end);
  modify (fun r => set_forwarders (<[f := mkLocal forwarder (Some p)]> (forwarders_ r)) r);;
  mret (mkClaim true f forwarder false, parked).

Inductive JoinResult := JClaim (c : Claim) | JPending (future : pref) | JReady (f : fref).

(** [forwarder]: what the factory makes. *)
Definition join (f : FullTrackName) (forwarder : fref) : L JoinResult :=
  r ← get;
  match forwarders_ r !! f with
  | Some e => mret (match le_ready e with Some p => JPending p | None => JReady (le_forwarder e) end)
  | None => '(c, _) ← makePending f forwarder false None; mret (JClaim c)
  end.

Definition replaceImpl (f : FullTrackName) (forwarder : fref) (park : bool) : L (Claim * ParkTicket) :=
  r ← get;
  match forwarders_ r !! f with
  | None => makePending f forwarder park None
  | Some e =>
    xcheck (negb (le_forwarder e =? forwarder));;
    makePending f forwarder park (le_ready e)
  end.
Definition replace (f : FullTrackName) (forwarder : fref) : L Claim :=
  '(c, _) ← replaceImpl f forwarder false; mret c.
Definition replaceAndPark (f : FullTrackName) (forwarder : fref) : L (Claim * ParkTicket) :=
  replaceImpl f forwarder true.

(** ** Looking up *)
Definition getIfReady (f : FullTrackName) (r : LocalForwarderRegistry) : option fref :=
  e ← forwarders_ r !! f; match le_ready e with Some _ => None | None => Some (le_forwarder e) end.
Definition lookupState (f : FullTrackName) (r : LocalForwarderRegistry) : LocalState :=
  match forwarders_ r !! f with Some e => stateOf e | None => Absent end.
Definition getForEviction (f : FullTrackName) (r : LocalForwarderRegistry) : option fref :=
  le_forwarder <$> forwarders_ r !! f.

(** ** Leaving *)
Fixpoint unpark (x : fref) (l : list fref) : option (list fref) :=
  match l with
  | [] => None
  | y :: r => if y =? x then Some r else cons y <$> unpark x r
  end.
Definition takeDisplaced (f : FullTrackName) (ticket : ParkTicket) : L (option fref) :=
  match ticket with
  | None => mret None
  | Some x =>
    r ← get;
    match displaced_ r !! f ≫= unpark x with
    | None => mret None
    | Some rest =>
      modify (fun r => set_displaced
        (match rest with [] => delete f (displaced_ r) | _ => <[f := rest]> (displaced_ r) end) r);;
      mret (Some x)
    end
  end.

Definition remove (f : FullTrackName) (expected : fref) : L (option fref) :=
  r ← get;
  match forwarders_ r !! f with
  | None => mret None
  | Some e =>
    if negb (le_forwarder e =? expected) then mret None
    else
      modify (fun r => set_forwarders (delete f (forwarders_ r)) r);;
      (match le_ready e with
       | Some p => fulfilReady p (Exception "local forwarder removed")
       | None => mret tt
       end);;
      mret (Some (le_forwarder e))
  end.

Definition findPendingOwnedBy (f : FullTrackName) (owner : fref) (r : LocalForwarderRegistry) : option pref :=
  e ← forwarders_ r !! f;
  p ← le_ready e;
  if le_forwarder e =? owner then Some p else None.

Definition registry_markReady (f : FullTrackName) (owner : fref) : L unit :=
  r ← get;
  match findPendingOwnedBy f owner r with
  | None => mret tt
  | Some p =>
    modify (fun r => set_forwarders (<[f := mkLocal owner None]> (forwarders_ r)) r);;
    fulfilReady p Value
  end.
Definition registry_fail (f : FullTrackName) (owner : fref) (what : string) : L unit :=
  r ← get;
  match findPendingOwnedBy f owner r with
  | None => mret tt
  | Some p =>
    modify (fun r => set_forwarders (delete f (forwarders_ r)) r);;
    fulfilReady p (Exception what)
  end.

(** ** The operations of a claim *)
Definition disengaged (c : Claim) : Claim := mkClaim false (cl_ftn c) (cl_forwarder c) (cl_initialStateSet c).

Definition setInitialState (c : Claim) : L Claim :=
  xcheck (cl_engaged c);;
  modify (fun r => mkLocalReg (forwarders_ r) (displaced_ r) (ready_ r) ({[cl_forwarder c]} ∪ initialised r));;
  mret (mkClaim (cl_engaged c) (cl_ftn c) (cl_forwarder c) true).
Definition markReady (c : Claim) : L Claim :=
  if cl_engaged c then
    xcheck (cl_initialStateSet c);;
    registry_markReady (cl_ftn c) (cl_forwarder c);;
    mret (disengaged c)
  else mret c.
Definition claim_fail (what : string) (c : Claim) : L Claim :=
  if cl_engaged c then registry_fail (cl_ftn c) (cl_forwarder c) what;; mret (disengaged c) else mret c.
(** The destructor, and what the target of a move assignment does first. *)
Definition destroyClaim (c : Claim) : L Claim := claim_fail "local forwarder claim dropped" c.

(** [~LocalForwarderRegistry]. *)
Definition destroyRegistry (r : LocalForwarderRegistry) : bool :=
  bool_decide (map_Forall (fun _ e => le_ready e = None) (forwarders_ r)) &&
  bool_decide (map_Forall (fun _ l => l = []) (displaced_ r)).

(** ** Runs *)
(** The registry with the claims and tickets that are alive; forwarders are made
    in order. *)
Record LocalSys := mkLocalSys {
  ls_registry : LocalForwarderRegistry;
  ls_claims : list Claim;
  ls_tickets : list (FullTrackName * fref);
  ls_next : fref;
}.
Definition startLocal : LocalSys := mkLocalSys emptyLocal [] [] 0.

Inductive LocalOp :=
  | LJoin (f : FullTrackName)
  | LReplace (f : FullTrackName)
  | LReplaceAndPark (f : FullTrackName)
  | LSetInitialState (c : Claim)
  | LMarkReady (c : Claim)
  | LFail (c : Claim) (what : string)
  | LDropClaim (c : Claim)
  | LRemove (f : FullTrackName) (expected : fref)
  | LTakeDisplaced (f : FullTrackName) (x : fref).

Definition withoutClaim (c : Claim) (l : list Claim) : list Claim := filter (fun c' => c' <> c) l.

(** The claims and tickets an operation names are alive, and a claim is marked
    ready after its initial state is set; it does nothing otherwise. *)
Definition local_step (op : LocalOp) (s : LocalSys) : option LocalSys :=
  let r := ls_registry s in
  match op with
  | LJoin f =>
    match join f (ls_next s) r with
    | Some (JClaim c, r') => Some (mkLocalSys r' (c :: ls_claims s) (ls_tickets s) (ls_next s + 1))
    | Some (_, r') => Some (mkLocalSys r' (ls_claims s) (ls_tickets s) (ls_next s))
    | None => None
    end
  | LReplace f =>
    match replace f (ls_next s) r with
    | Some (c, r') => Some (mkLocalSys r' (c :: ls_claims s) (ls_tickets s) (ls_next s + 1))
    | None => None
    end
  | LReplaceAndPark f =>
    match replaceAndPark f (ls_next s) r with
    | Some ((c, Some x), r') => Some (mkLocalSys r' (c :: ls_claims s) ((f, x) :: ls_tickets s) (ls_next s + 1))
    | Some ((c, None), r') => Some (mkLocalSys r' (c :: ls_claims s) (ls_tickets s) (ls_next s + 1))
    | None => None
    end
  | LSetInitialState c =>
    if decide (c ∈ ls_claims s) then
      match setInitialState c r with
      | Some (c', r') => Some (mkLocalSys r' (c' :: withoutClaim c (ls_claims s)) (ls_tickets s) (ls_next s))
      | None => None
      end
    else Some s
  | LMarkReady c =>
    if bool_decide (c ∈ ls_claims s) && cl_initialStateSet c then
      match markReady c r with
      | Some (_, r') => Some (mkLocalSys r' (withoutClaim c (ls_claims s)) (ls_tickets s) (ls_next s))
      | None => None
      end
    else Some s
  | LFail c what =>
    if decide (c ∈ ls_claims s) then
      match claim_fail what c r with
      | Some (_, r') => Some (mkLocalSys r' (withoutClaim c (ls_claims s)) (ls_tickets s) (ls_next s))
      | None => None
      end
    else Some s
  | LDropClaim c =>
    if decide (c ∈ ls_claims s) then
      match destroyClaim c r with
      | Some (_, r') => Some (mkLocalSys r' (withoutClaim c (ls_claims s)) (ls_tickets s) (ls_next s))
      | None => None
      end
    else Some s
  | LRemove f expected =>
    match remove f expected r with
    | Some (_, r') => Some (mkLocalSys r' (ls_claims s) (ls_tickets s) (ls_next s))
    | None => None
    end
  | LTakeDisplaced f x =>
    if decide ((f, x) ∈ ls_tickets s) then
      match takeDisplaced f (Some x) r with
      | Some (_, r') => Some (mkLocalSys r' (ls_claims s) (filter (fun t => t <> (f, x)) (ls_tickets s)) (ls_next s))
      | None => None
      end
    else Some s
  end.

Fixpoint local_run (ops : list LocalOp) (s : LocalSys) : option LocalSys :=
  match ops with
  | [] => Some s
  | op :: rest => match local_step op s with Some s' => local_run rest s' | None => None end
  end.
