(* ===== verification/LocalTheorems.v ===== *)
(** What the per-thread registry guarantees over any sequence of operations
    (relay/LocalForwarderRegistry.h). *)

From S2P Require Import Prelude Location Promise LocalRegistry.

Implicit Types (f : FullTrackName) (r : LocalForwarderRegistry) (c : Claim).

(** ** The table and the promises *)
(** Of the registry alone: the forwarders are below [n]. *)
Record table_ok (n : fref) r : Prop := {
  tb_next f e : forwarders_ r !! f = Some e -> le_forwarder e < n;
  tb_inj f f' e e' : forwarders_ r !! f = Some e -> forwarders_ r !! f' = Some e' ->
    le_forwarder e = le_forwarder e' -> f = f';
  tb_ready f e : forwarders_ r !! f = Some e -> le_ready e = None -> le_forwarder e ∈ initialised r;
  tb_promise f e p : forwarders_ r !! f = Some e -> le_ready e = Some p -> heap (ready_ r) !! p = Some Unfulfilled;
  tb_promise_inj f f' e e' p : forwarders_ r !! f = Some e -> forwarders_ r !! f' = Some e' ->
    le_ready e = Some p -> le_ready e' = Some p -> f = f';
  tb_pending p : heap (ready_ r) !! p = Some Unfulfilled -> exists f e, forwarders_ r !! f = Some e /\ le_ready e = Some p;
  tb_promises : promises_ok (ready_ r);
}.

(** The entries that are pending, with their forwarder. *)
Definition pendingAt f (w : fref) r : Prop :=
  exists e p, forwarders_ r !! f = Some e /\ le_forwarder e = w /\ le_ready e = Some p.

(** *** An entry becomes pending *)
Definition pended f (w : fref) (p : pref) (ps : Promises) r : LocalForwarderRegistry :=
  mkLocalReg (<[f := mkLocal w (Some p)]> (forwarders_ r)) (displaced_ r) ps (initialised r).

(** The promise of a new pending entry: the one of the entry it replaces, or a
    new one. *)
Definition pendingPromise f r : pref * Promises :=
  match forwarders_ r !! f ≫= le_ready with
  | Some p => (p, ready_ r)
  | None => newPromise (ready_ r)
  end.

Lemma pended_ok n f r :
  table_ok n r -> let q := pendingPromise f r in table_ok (n + 1) (pended f n q.1 q.2 r).
Proof.
  intros []. cbv zeta. pose proof (promises_ok_fresh _ tb_promises0) as Hfresh. unfold pendingPromise.
  assert (Hcase : exists p ps,
    (match forwarders_ r !! f ≫= le_ready with Some p => (p, ready_ r) | None => newPromise (ready_ r) end) = (p, ps) /\
    heap ps !! p = Some Unfulfilled /\ promises_ok ps /\
    (forall f' e' p', f' <> f -> forwarders_ r !! f' = Some e' -> le_ready e' = Some p' -> heap ps !! p' = Some Unfulfilled /\ p' <> p) /\
    (forall p', heap ps !! p' = Some Unfulfilled -> p' = p \/ (heap (ready_ r) !! p' = Some Unfulfilled /\
       forall e, forwarders_ r !! f = Some e -> le_ready e <> Some p'))).
  { destruct (forwarders_ r !! f) as [e|] eqn:Ef; cbn; [destruct (le_ready e) as [p|] eqn:Ep; cbn|].
    - exists p, (ready_ r). split_and!; [done|by eapply tb_promise0|done| |].
      + intros f' e' p' Hne H' Hp'. split; [by eapply tb_promise0|]. intros ->. apply Hne. eauto.
      + intros p' Hp'. destruct (decide (p' = p)); [by left|right]. split; [done|]. intros ? [= <-]. congruence.
    - eexists _, _. split; [done|]. cbn. split_and!; [apply lookup_insert_eq|by apply (newPromise_ok (ready_ r))| |].
      + intros f' e' p' Hne H' Hp'. pose proof (tb_promise0 f' e' p' H' Hp') as Hu.
        assert (p' <> nextPromise (ready_ r)) by congruence. by rewrite lookup_insert_ne.
      + intros p' [[<- _]|[_ Hp']]%lookup_insert_Some; [by left|right]. split; [done|]. intros ? [= <-]. congruence.
    - eexists _, _. split; [done|]. cbn. split_and!; [apply lookup_insert_eq|by apply (newPromise_ok (ready_ r))| |].
      + intros f' e' p' Hne H' Hp'. pose proof (tb_promise0 f' e' p' H' Hp') as Hu.
        assert (p' <> nextPromise (ready_ r)) by congruence. by rewrite lookup_insert_ne.
      + intros p' [[<- _]|[_ Hp']]%lookup_insert_Some; [by left|right]. done. }
  destruct Hcase as (p & ps & -> & Hp & Hps & Hother & Hback). cbn [fst snd]. split; cbn.
  - intros f' e' [[<- <-]|[_ H]]%lookup_insert_Some; cbn; [lia|]. specialize (tb_next0 f' e' H). lia.
  - intros f1 f2 e1 e2 [[<- <-]|[Hn1 H1]]%lookup_insert_Some [[<- <-]|[Hn2 H2]]%lookup_insert_Some Heq; cbn in Heq; try done.
    + specialize (tb_next0 f2 e2 H2). lia.
    + specialize (tb_next0 f1 e1 H1). lia.
    + eauto.
  - intros f' e' [[<- <-]|[_ H]]%lookup_insert_Some; [done|]. eauto.
  - intros f' e' p' [[<- <-]|[Hne H]]%lookup_insert_Some Hp'; cbn in Hp'; [by injection Hp' as <-|].
    by eapply Hother.
  - intros f1 f2 e1 e2 p' [[<- <-]|[Hn1 H1]]%lookup_insert_Some [[<- <-]|[Hn2 H2]]%lookup_insert_Some Hp1 Hp2; cbn in *; try done.
    + injection Hp1 as <-. by destruct (Hother f2 e2 p ltac:(done) H2 Hp2) as [_ []].
    + injection Hp2 as <-. by destruct (Hother f1 e1 p ltac:(done) H1 Hp1) as [_ []].
    + eauto.
  - intros p' [->|[Hu Hf]]%Hback.
    + eexists f, _. split; [apply lookup_insert_eq|done].
    + destruct (tb_pending0 p' Hu) as (f' & e' & H' & Hp'). exists f', e'. split; [|done].
      rewrite lookup_insert_ne; [done|]. intros <-. by apply (Hf e').
  - done.
Qed.

(** *** Who waits for a promise
    The promise exists, and as long as it is open the entry of the track has it. *)
Definition waits f (p : pref) r : Prop :=
  is_Some (heap (ready_ r) !! p) /\
  (heap (ready_ r) !! p = Some Unfulfilled -> exists e, forwarders_ r !! f = Some e /\ le_ready e = Some p).
Definition keeps_waits r r' : Prop := forall f p, waits f p r -> waits f p r'.

Lemma pended_waits n f r : table_ok n r -> let q := pendingPromise f r in keeps_waits r (pended f n q.1 q.2 r).
Proof.
  intros Ht. cbv zeta. intros f' p [Hs Hp]. unfold pendingPromise.
  destruct (forwarders_ r !! f) as [e|] eqn:Ef; cbn; [destruct (le_ready e) as [p0|] eqn:Ep; cbn|].
  1: { split; [done|]. cbn. intros Hu. destruct (Hp Hu) as (e' & He' & Hr').
       destruct (decide (f = f')) as [<-|Hne]; [|by rewrite lookup_insert_ne by done; exists e'].
       rewrite lookup_insert_eq. eexists. split; [done|]. cbn. congruence. }
  all: assert (Hn : p <> nextPromise (ready_ r)) by (pose proof (tb_promises _ _ Ht p Hs); lia).
  all: unfold waits; cbn; rewrite lookup_insert_ne by done; split; [done|]; intros Hu; destruct (Hp Hu) as (e' & He' & Hr').
  all: exists e'; rewrite lookup_insert_ne; [done|]; intros <-; congruence.
Qed.

(** *** A pending entry is settled: it becomes ready or leaves *)
Definition settledAs (p : pref) (st : PromiseState) r : LocalForwarderRegistry :=
  set_ready (mkPromises (<[p := st]> (heap (ready_ r))) (nextPromise (ready_ r))) r.

Lemma readied_ok n f e p r :
  table_ok n r -> forwarders_ r !! f = Some e -> le_ready e = Some p -> le_forwarder e ∈ initialised r ->
  table_ok n (settledAs p Value (set_forwarders (<[f := mkLocal (le_forwarder e) None]> (forwarders_ r)) r)).
Proof.
  intros [] Hf Hp Hi. pose proof (tb_promise0 f e p Hf Hp) as Hu.
  assert (Hne : forall f' e' p', f' <> f -> forwarders_ r !! f' = Some e' -> le_ready e' = Some p' -> p' <> p).
  { intros f' e' p' Hn H' Hp' ->. apply Hn. eauto. }
  split; cbn.
  - intros f' e' [[<- <-]|[_ H]]%lookup_insert_Some; cbn; eauto.
  - intros f1 f2 e1 e2 [[<- <-]|[Hn1 H1]]%lookup_insert_Some [[<- <-]|[Hn2 H2]]%lookup_insert_Some; cbn; eauto.
  - intros f' e' [[<- <-]|[_ H]]%lookup_insert_Some; cbn; eauto.
  - intros f' e' p' [[<- <-]|[Hn H]]%lookup_insert_Some Hp'; [done|]. rewrite lookup_insert_ne; [by eapply tb_promise0|].
    intros <-. by eapply Hne.
  - intros f1 f2 e1 e2 p' [[<- <-]|[Hn1 H1]]%lookup_insert_Some [[<- <-]|[Hn2 H2]]%lookup_insert_Some; cbn; try done. eauto.
  - intros p' [[_ ?]|[Hn Hp']]%lookup_insert_Some; [done|]. destruct (tb_pending0 p' Hp') as (f' & e' & H' & He').
    exists f', e'. split; [|done]. rewrite lookup_insert_ne; [done|]. intros <-. congruence.
  - apply update_ok; [done|by rewrite Hu].
Qed.

Lemma readied_waits n f e p r : table_ok n r -> forwarders_ r !! f = Some e -> le_ready e = Some p ->
  keeps_waits r (settledAs p Value (set_forwarders (<[f := mkLocal (le_forwarder e) None]> (forwarders_ r)) r)).
Proof.
  intros Ht Hf Hp f' p' [Hs Hu]. unfold waits. cbn. destruct (decide (p = p')) as [<-|Hne].
  - rewrite lookup_insert_eq. by split.
  - rewrite lookup_insert_ne by done. split; [done|]. intros H. destruct (Hu H) as (e' & He' & Hr').
    exists e'. rewrite lookup_insert_ne; [done|]. intros <-. congruence.
Qed.
Lemma left_waits n f e r what : table_ok n r -> forwarders_ r !! f = Some e ->
  keeps_waits r (match le_ready e with
                 | Some p => settledAs p (Exception what) (set_forwarders (delete f (forwarders_ r)) r)
                 | None => set_forwarders (delete f (forwarders_ r)) r
                 end).
Proof.
  intros Ht Hf f' p' [Hs Hu]. destruct (le_ready e) as [p|] eqn:Hp; unfold waits; cbn.
  - destruct (decide (p = p')) as [<-|Hne]; [rewrite lookup_insert_eq; by split|].
    rewrite lookup_insert_ne by done. split; [done|]. intros H. destruct (Hu H) as (e' & He' & Hr').
    exists e'. rewrite lookup_delete_ne; [done|]. intros <-. congruence.
  - split; [done|]. intros H. destruct (Hu H) as (e' & He' & Hr').
    exists e'. rewrite lookup_delete_ne; [done|]. intros <-. congruence.
Qed.

Lemma left_ok n f e r what :
  table_ok n r -> forwarders_ r !! f = Some e ->
  table_ok n (match le_ready e with
              | Some p => settledAs p (Exception what) (set_forwarders (delete f (forwarders_ r)) r)
              | None => set_forwarders (delete f (forwarders_ r)) r
              end).
Proof.
  intros Hok Hf. destruct (le_ready e) as [p|] eqn:Hp; destruct Hok; [pose proof (tb_promise0 f e p Hf Hp) as Hu|]; split; cbn; try done.
  - intros f' e' [_ H]%lookup_delete_Some. eauto.
  - intros f1 f2 e1 e2 [_ H1]%lookup_delete_Some [_ H2]%lookup_delete_Some. eauto.
  - intros f' e' [_ H]%lookup_delete_Some. eauto.
  - intros f' e' p' [Hn H]%lookup_delete_Some Hp'. rewrite lookup_insert_ne; [by eapply tb_promise0|]. intros <-. apply Hn. eauto.
  - intros f1 f2 e1 e2 p' [_ H1]%lookup_delete_Some [_ H2]%lookup_delete_Some. eauto.
  - intros p' [[_ ?]|[Hn Hp']]%lookup_insert_Some; [done|]. destruct (tb_pending0 p' Hp') as (f' & e' & H' & He').
    exists f', e'. split; [|done]. apply lookup_delete_Some. split; [|done]. intros <-. congruence.
  - apply update_ok; [done|by rewrite Hu].
  - intros f' e' [_ H]%lookup_delete_Some. eauto.
  - intros f1 f2 e1 e2 [_ H1]%lookup_delete_Some [_ H2]%lookup_delete_Some. eauto.
  - intros f' e' [_ H]%lookup_delete_Some. eauto.
  - intros f' e' p' [_ H]%lookup_delete_Some. eauto.
  - intros f1 f2 e1 e2 p' [_ H1]%lookup_delete_Some [_ H2]%lookup_delete_Some. eauto.
  - intros p' Hp'. destruct (tb_pending0 p' Hp') as (f' & e' & H' & He').
    exists f', e'. split; [|done]. apply lookup_delete_Some. split; [|done]. intros <-. congruence.
Qed.

(** ** The registry with its claims and tickets *)
Record local_ok (s : LocalSys) : Prop := {
  lk_table : table_ok (ls_next s) (ls_registry s);
  lk_engaged c : c ∈ ls_claims s -> cl_engaged c = true /\ cl_forwarder c < ls_next s;
  lk_unique c c' : c ∈ ls_claims s -> c' ∈ ls_claims s -> cl_forwarder c = cl_forwarder c' -> c = c';
  lk_claimed f w : pendingAt f w (ls_registry s) -> exists c, c ∈ ls_claims s /\ cl_ftn c = f /\ cl_forwarder c = w;
  lk_init c : c ∈ ls_claims s -> cl_initialStateSet c = true -> cl_forwarder c ∈ initialised (ls_registry s);
  lk_tickets f x : (f, x) ∈ ls_tickets s <-> exists l, displaced_ (ls_registry s) !! f = Some l /\ x ∈ l;
  lk_parked f l : displaced_ (ls_registry s) !! f = Some l ->
    l <> [] /\ NoDup l /\ (forall x, x ∈ l -> x < ls_next s) /\
    (forall e, forwarders_ (ls_registry s) !! f = Some e -> le_forwarder e ∉ l);
}.

Lemma startLocal_ok : local_ok startLocal.
Proof.
  split; try done.
  - split; try done. intros p. cbn. intros [? ?]. done.
  - intros c Hc. by apply elem_of_nil in Hc.
  - intros c c' Hc. by apply elem_of_nil in Hc.
  - intros f w (e & p & H & _). done.
  - intros c Hc. by apply elem_of_nil in Hc.
  - intros f x. cbn. split; [by intros ?%elem_of_nil|]. by intros (l & H & _).
Qed.

(** *** New claims *)
Definition parkedAt f (d : option fref) r : LocalForwarderRegistry :=
  match d with
  | Some d => set_displaced (<[f := default [] (displaced_ r !! f) ++ [d]]> (displaced_ r)) r
  | None => r
  end.

Lemma makePending_run f (w : fref) (park : bool) r :
  makePending f w park (forwarders_ r !! f ≫= le_ready) r =
    let q := pendingPromise f r in
    let d := if park then le_forwarder <$> forwarders_ r !! f else None in
    Some ((mkClaim true f w false, d), pended f w q.1 q.2 (parkedAt f d r)).
Proof.
  unfold makePending, pendingPromise, mbind, M_bind. cbn.
  destruct (forwarders_ r !! f) as [e|]; cbn; [destruct (le_ready e) as [p|]|]; destruct park; done.
Qed.

Lemma join_run f (w : fref) r :
  join f w r =
    match forwarders_ r !! f with
    | Some e => Some (match le_ready e with Some p => JPending p | None => JReady (le_forwarder e) end, r)
    | None => let q := pendingPromise f r in Some (JClaim (mkClaim true f w false), pended f w q.1 q.2 r)
    end.
Proof.
  pose proof (makePending_run f w false r) as E. unfold join, mbind, M_bind. cbn -[makePending].
  destruct (forwarders_ r !! f) as [e|]; [done|]. cbn in E. by rewrite E.
Qed.

Lemma replaceImpl_run f park n r : table_ok n r ->
  replaceImpl f n park r =
    let q := pendingPromise f r in
    let d := if park then le_forwarder <$> forwarders_ r !! f else None in
    Some ((mkClaim true f n false, d), pended f n q.1 q.2 (parkedAt f d r)).
Proof.
  intros Hok. pose proof (makePending_run f n park r) as E. unfold replaceImpl, mbind, M_bind. cbn -[makePending].
  destruct (forwarders_ r !! f) as [e|] eqn:Ef; [|exact E].
  pose proof (tb_next _ _ Hok f e Ef) as Hlt. destruct (Z.eqb_spec (le_forwarder e) n) as [Heq|_]; [lia|]. exact E.
Qed.

Lemma pended_pending f n p ps r f' w :
  pendingAt f' w (pended f n p ps r) -> f' = f /\ w = n \/ pendingAt f' w r.
Proof.
  intros (e & q & H & Hw & Hq). cbn in H. apply lookup_insert_Some in H as [[<- <-]|[Hne H]]; [by left|].
  right. by exists e, q.
Qed.

(** [park]: whether the displaced forwarder gets a ticket. *)
Lemma claimed_ok f (park : bool) s :
  local_ok s ->
  let r := ls_registry s in
  let q := pendingPromise f r in
  let d := if park then le_forwarder <$> forwarders_ r !! f else None in
  local_ok (mkLocalSys (pended f (ls_next s) q.1 q.2 (parkedAt f d r)) (mkClaim true f (ls_next s) false :: ls_claims s)
             (match d with Some x => (f, x) :: ls_tickets s | None => ls_tickets s end) (ls_next s + 1)).
Proof.
  intros []. cbv zeta. set (d := if park then _ else None).
  assert (Hd : forall x, d = Some x -> exists e, forwarders_ (ls_registry s) !! f = Some e /\ le_forwarder e = x).
  { unfold d. intros x. destruct park; [|done]. intros (e & H & ->)%fmap_Some. eauto. }
  assert (Htable : forall f' e', <[f := mkLocal (ls_next s) (Some (pendingPromise f (ls_registry s)).1)]> (forwarders_ (ls_registry s)) !! f' = Some e' ->
    f' = f /\ le_forwarder e' = ls_next s \/ f' <> f /\ forwarders_ (ls_registry s) !! f' = Some e').
  { intros f' e' [[<- <-]|[Hne H]]%lookup_insert_Some; [by left|right]. split; [congruence|done]. }
  split; cbn [ls_registry ls_claims ls_tickets ls_next].
  - pose proof (pended_ok (ls_next s) f (ls_registry s) lk_table0) as Hp. cbv zeta in Hp.
    unfold parkedAt. destruct d; [|exact Hp]. destruct Hp. by split.
  - intros c [->|Hc]%elem_of_cons; cbn; [split; [done|lia]|]. destruct (lk_engaged0 c Hc). split; [done|lia].
  - intros c c' [->|Hc]%elem_of_cons [->|Hc']%elem_of_cons; cbn; try done.
    + destruct (lk_engaged0 c' Hc'). lia.
    + destruct (lk_engaged0 c Hc). lia.
    + by apply lk_unique0.
  - intros f' w Hp. apply (pended_pending f (ls_next s) _ _ _ f' w) in Hp as [[-> ->]|Hp].
    + eexists. split; [apply list_elem_of_here|done].
    + destruct (lk_claimed0 f' w) as (c & Hc & H); [by destruct d|]. exists c. split; [by right|done].
  - assert (initialised (pended f (ls_next s) (pendingPromise f (ls_registry s)).1 (pendingPromise f (ls_registry s)).2
      (parkedAt f d (ls_registry s))) = initialised (ls_registry s)) as -> by (by destruct d).
    intros c [->|Hc]%elem_of_cons; [done|]. by apply lk_init0.
  - intros f' x. cbn [pended displaced_]. destruct d as [y|]; cbn [parkedAt set_displaced displaced_]; [|apply lk_tickets0].
    rewrite elem_of_cons, lk_tickets0. destruct (decide (f = f')) as [<-|Hne].
    + rewrite lookup_insert_eq. split.
      * intros [[= ->]|(l & Hl & Hx)]; eexists; (split; [done|]); rewrite ?Hl; cbn; rewrite elem_of_app, ?list_elem_of_singleton; tauto.
      * intros (l & [= <-] & Hx). apply elem_of_app in Hx as [Hx|Hx%list_elem_of_singleton]; [right|left; by subst].
        destruct (displaced_ (ls_registry s) !! f) as [l|]; [by exists l|by apply elem_of_nil in Hx].
    + rewrite lookup_insert_ne by done. split; [|by right]. intros [[= <- _]|]; [done|done].
  - intros f' l. cbn [pended displaced_ forwarders_].
    assert (Hold : displaced_ (ls_registry s) !! f' = Some l -> l <> [] /\ NoDup l /\ (forall x, x ∈ l -> x < ls_next s + 1) /\
      (forall e, <[f := mkLocal (ls_next s) (Some (pendingPromise f (ls_registry s)).1)]> (forwarders_ (ls_registry s)) !! f' = Some e -> le_forwarder e ∉ l)).
    { intros H. destruct (lk_parked0 f' l H) as (H1 & H2 & H3 & H4). split_and!; [done..| |].
      - intros x Hx%H3. lia.
      - intros e [[_ ->]|[_ He]]%Htable; [intros Hx%H3; lia|by apply H4]. }
    destruct d as [y|]; cbn [parkedAt set_displaced displaced_ forwarders_]; [|exact Hold].
    intros [[<- <-]|[Hne H]]%lookup_insert_Some; [|by apply Hold].
    destruct (Hd y eq_refl) as (e & He & <-). pose proof (tb_next _ _ lk_table0 f e He) as Hlt.
    assert (Hl0 : NoDup (default [] (displaced_ (ls_registry s) !! f)) /\
      (forall x, x ∈ default [] (displaced_ (ls_registry s) !! f) -> x < ls_next s) /\
      le_forwarder e ∉ default [] (displaced_ (ls_registry s) !! f)).
    { destruct (displaced_ (ls_registry s) !! f) as [l0|] eqn:E; cbn.
      - destruct (lk_parked0 f l0 E) as (_ & H2 & H3 & H4). split_and!; auto.
      - split_and!; [apply NoDup_nil_2|by intros x ?%elem_of_nil|by intros ?%elem_of_nil]. }
    destruct Hl0 as (H2 & H3 & H4). split_and!.
    + by destruct (default [] (displaced_ (ls_registry s) !! f)).
    + apply NoDup_app. split; [done|]. split; [|apply NoDup_singleton]. intros x Hx Hx'%list_elem_of_singleton. by subst.
    + intros x [Hx%H3|Hx%list_elem_of_singleton]%elem_of_app; lia.
    + intros e' [[_ ->]|[? _]]%Htable; [|done]. intros [Hx%H3|Hx%list_elem_of_singleton]%elem_of_app; lia.
Qed.

(** *** Entries that become ready or leave *)
(** [r'] has no entries that [r] has not. *)
Record shrinks r r' : Prop := {
  sh_entries f e' : forwarders_ r' !! f = Some e' -> exists e, forwarders_ r !! f = Some e /\ le_forwarder e = le_forwarder e';
  sh_displaced : displaced_ r' = displaced_ r;
  sh_initialised : initialised r' = initialised r;
}.

Lemma shrunk_ok s r' claims' :
  local_ok s -> table_ok (ls_next s) r' -> shrinks (ls_registry s) r' ->
  (forall c, c ∈ claims' -> c ∈ ls_claims s) ->
  (forall f w, pendingAt f w r' -> exists c, c ∈ claims' /\ cl_ftn c = f /\ cl_forwarder c = w) ->
  local_ok (mkLocalSys r' claims' (ls_tickets s) (ls_next s)).
Proof.
  intros [] Ht [] Hsub Hpend. split; cbn; eauto.
  - intros c Hc Hi. rewrite sh_initialised0. eauto.
  - intros f x. rewrite sh_displaced0. apply lk_tickets0.
  - intros f l. rewrite sh_displaced0. intros H. destruct (lk_parked0 f l H) as (H1 & H2 & H3 & H4).
    split_and!; [done..|]. intros e' (e & He & <-)%sh_entries0. by apply H4.
Qed.

Lemma elem_of_withoutClaim c c' l : c' ∈ withoutClaim c l <-> c' <> c /\ c' ∈ l.
Proof. unfold withoutClaim. by rewrite list_elem_of_filter. Qed.

(** The claim [c] is resolved: its entry, if it still has it, is not pending. *)
Lemma resolved_ok s c r' :
  local_ok s -> c ∈ ls_claims s -> table_ok (ls_next s) r' -> shrinks (ls_registry s) r' ->
  (forall f w, pendingAt f w r' -> pendingAt f w (ls_registry s) /\ (f, w) <> (cl_ftn c, cl_forwarder c)) ->
  local_ok (mkLocalSys r' (withoutClaim c (ls_claims s)) (ls_tickets s) (ls_next s)).
Proof.
  intros Hok Hc Ht Hsh Hpend. apply (shrunk_ok s r' _ Hok Ht Hsh).
  - by intros c' [_ H]%elem_of_withoutClaim.
  - intros f w [Hp Hne]%Hpend. destruct (lk_claimed _ Hok f w Hp) as (c' & Hc' & <- & <-).
    exists c'. rewrite elem_of_withoutClaim. split_and!; [|done..]. intros ->. by apply Hne.
Qed.

Lemma findPending_some f (w : fref) p r :
  findPendingOwnedBy f w r = Some p -> exists e, forwarders_ r !! f = Some e /\ le_forwarder e = w /\ le_ready e = Some p.
Proof.
  unfold findPendingOwnedBy. intros (e & He & (q & Hq & Hw)%bind_Some)%bind_Some.
  destruct (Z.eqb_spec (le_forwarder e) w); [|done]. injection Hw as <-. eauto.
Qed.
Lemma findPending_none f (w : fref) r : findPendingOwnedBy f w r = None -> ~ pendingAt f w r.
Proof.
  intros Hn (e & p & He & Hw & Hp). unfold findPendingOwnedBy in Hn. rewrite He in Hn. cbn in Hn. rewrite Hp in Hn. cbn in Hn.
  by rewrite Hw, Z.eqb_refl in Hn.
Qed.

(** Resolving when the claim has lost its entry. *)
Lemma stale_ok s c : local_ok s -> c ∈ ls_claims s -> ~ pendingAt (cl_ftn c) (cl_forwarder c) (ls_registry s) ->
  local_ok (mkLocalSys (ls_registry s) (withoutClaim c (ls_claims s)) (ls_tickets s) (ls_next s)).
Proof.
  intros Hok Hc Hn. apply resolved_ok; try done; [apply Hok|by split; eauto|].
  intros f w Hp. split; [done|]. intros [= -> ->]. done.
Qed.

Lemma left_pending f e r what f' w :
  forwarders_ r !! f = Some e ->
  pendingAt f' w (match le_ready e with
                  | Some p => settledAs p (Exception what) (set_forwarders (delete f (forwarders_ r)) r)
                  | None => set_forwarders (delete f (forwarders_ r)) r
                  end) -> pendingAt f' w r /\ f' <> f.
Proof.
  intros Hf (e' & p & H & Hw & Hp).
  assert (H' : delete f (forwarders_ r) !! f' = Some e') by (by destruct (le_ready e)).
  apply lookup_delete_Some in H' as [Hne H']. split; [by exists e', p|congruence].
Qed.
Lemma left_shrinks f e r what :
  shrinks r (match le_ready e with
             | Some p => settledAs p (Exception what) (set_forwarders (delete f (forwarders_ r)) r)
             | None => set_forwarders (delete f (forwarders_ r)) r
             end).
Proof.
  destruct (le_ready e); split; try done; cbn; intros f' e' [_ H]%lookup_delete_Some; eauto.
Qed.

Lemma fulfilReady_run p st r :
  heap (ready_ r) !! p = Some Unfulfilled -> fulfilReady p st r = Some (tt, settledAs p st r).
Proof. unfold fulfilReady. intros Hp. by rewrite (fulfil_some _ _ _ Hp). Qed.

Lemma fail_step s c what : local_ok s -> c ∈ ls_claims s ->
  exists r', claim_fail what c (ls_registry s) = Some (disengaged c, r') /\
    local_ok (mkLocalSys r' (withoutClaim c (ls_claims s)) (ls_tickets s) (ls_next s)) /\ keeps_waits (ls_registry s) r'.
Proof.
  intros Hok Hc. destruct (lk_engaged _ Hok c Hc) as [He _]. unfold claim_fail, registry_fail, mbind, M_bind.
  rewrite He. cbn. destruct (findPendingOwnedBy _ _ _) as [p|] eqn:Ef; cbn.
  - apply findPending_some in Ef as (e & Hf & Hw & Hp). pose proof (lk_table _ Hok) as Ht.
    rewrite fulfilReady_run by (cbn; by eapply tb_promise). eexists. split; [done|].
    pose proof (left_waits _ _ e _ what Ht Hf) as Hkw. rewrite Hp in Hkw. split; [|exact Hkw].
    pose proof (left_ok _ _ e _ what Ht Hf) as Ht'. pose proof (left_shrinks (cl_ftn c) e (ls_registry s) what) as Hsh.
    pose proof (left_pending (cl_ftn c) e (ls_registry s) what) as Hpend. rewrite Hp in Ht', Hsh, Hpend.
    apply resolved_ok; try done. intros f w [H1 H2]%Hpend; [|done]. split; [done|]. congruence.
  - eexists. split; [done|]. split; [|by intros f p]. apply stale_ok; [done..|]. by apply findPending_none.
Qed.

Lemma markReady_step s c : local_ok s -> c ∈ ls_claims s -> cl_initialStateSet c = true ->
  exists r', markReady c (ls_registry s) = Some (disengaged c, r') /\
    local_ok (mkLocalSys r' (withoutClaim c (ls_claims s)) (ls_tickets s) (ls_next s)) /\ keeps_waits (ls_registry s) r'.
Proof.
  intros Hok Hc Hi. destruct (lk_engaged _ Hok c Hc) as [He _]. unfold markReady, registry_markReady, mbind, M_bind.
  rewrite He, Hi. cbn. destruct (findPendingOwnedBy _ _ _) as [p|] eqn:Ef; cbn.
  - apply findPending_some in Ef as (e & Hf & Hw & Hp). pose proof (lk_table _ Hok) as Ht.
    rewrite fulfilReady_run by (cbn; by eapply tb_promise). eexists. split; [done|].
    pose proof (readied_waits _ _ e p _ Ht Hf Hp) as Hkw. rewrite Hw in Hkw. split; [|exact Hkw].
    assert (Hin : le_forwarder e ∈ initialised (ls_registry s)) by (rewrite Hw; by apply (lk_init _ Hok)).
    pose proof (readied_ok _ _ e p _ Ht Hf Hp Hin) as Ht'. rewrite Hw in Ht'. apply resolved_ok; try done.
    + split; try done. cbn. intros f e' [[<- <-]|[_ H]]%lookup_insert_Some; eauto.
    + intros f w (e' & q & H & Hw' & Hq). cbn in H. apply lookup_insert_Some in H as [[<- <-]|[Hne H]]; [done|].
      split; [by exists e', q|]. congruence.
  - eexists. split; [done|]. split; [|by intros f p]. apply stale_ok; [done..|]. by apply findPending_none.
Qed.

Lemma local_remove_step s f expected : local_ok s ->
  exists x r', remove f expected (ls_registry s) = Some (x, r') /\
    local_ok (mkLocalSys r' (ls_claims s) (ls_tickets s) (ls_next s)) /\ keeps_waits (ls_registry s) r'.
Proof.
  intros Hok. unfold remove, mbind, M_bind. cbn. destruct (forwarders_ (ls_registry s) !! f) as [e|] eqn:Ef.
  2: { eexists _, _. split; [done|]. split; [by destruct s|by intros f' p']. }
  destruct (negb _); [eexists _, _; split; [done|]; split; [by destruct s|by intros f' p']|]. cbn.
  pose proof (lk_table _ Hok) as Ht. pose proof (left_ok _ _ e _ "local forwarder removed" Ht Ef) as Ht'.
  pose proof (left_shrinks f e (ls_registry s) "local forwarder removed") as Hsh.
  pose proof (left_pending f e (ls_registry s) "local forwarder removed") as Hpend.
  pose proof (left_waits _ _ e _ "local forwarder removed" Ht Ef) as Hkw.
  destruct (le_ready e) as [p|] eqn:Hp; [rewrite fulfilReady_run by (cbn; by eapply tb_promise)|];
    (eexists _, _; split; [done|]); (split; [|exact Hkw]); apply (shrunk_ok s); try done;
    intros f' w [H _]%Hpend; try done; by apply (lk_claimed _ Hok).
Qed.

(** *** The initial state of a forwarder *)
Lemma setInitial_step s c : local_ok s -> c ∈ ls_claims s ->
  let c' := mkClaim true (cl_ftn c) (cl_forwarder c) true in
  exists r', setInitialState c (ls_registry s) = Some (c', r') /\
    local_ok (mkLocalSys r' (c' :: withoutClaim c (ls_claims s)) (ls_tickets s) (ls_next s)) /\ keeps_waits (ls_registry s) r'.
Proof.
  intros Hok Hc. destruct (lk_engaged _ Hok c Hc) as [He Hlt]. unfold setInitialState, mbind, M_bind.
  rewrite He. cbn. eexists. split; [done|]. split; [|by intros f p]. destruct Hok. split; cbn; try done.
  - destruct lk_table0. split; try done. cbn. intros f e H Hr. specialize (tb_ready0 f e H Hr). set_solver.
  - intros c0 [->|[_ H]%elem_of_withoutClaim]%elem_of_cons; [done|]. eauto.
  - intros c1 c2 [->|[Hn1 H1]%elem_of_withoutClaim]%elem_of_cons [->|[Hn2 H2]%elem_of_withoutClaim]%elem_of_cons; cbn; try done.
    + intros Heq. destruct Hn2. symmetry. eauto.
    + intros Heq. destruct Hn1. eauto.
    + eauto.
  - intros f w Hp. destruct (lk_claimed0 f w Hp) as (c0 & H0 & <- & <-). destruct (decide (c0 = c)) as [->|Hne].
    + eexists. split; [apply list_elem_of_here|done].
    + exists c0. split; [right; by apply elem_of_withoutClaim|done].
  - intros c0 [->|[_ H]%elem_of_withoutClaim]%elem_of_cons Hi; [cbn; set_solver|]. specialize (lk_init0 c0 H Hi). set_solver.
Qed.

(** *** Parked forwarders *)
Lemma unpark_spec x l : NoDup l ->
  match unpark x l with
  | Some rest => x ∈ l /\ NoDup rest /\ forall y, y ∈ rest <-> y <> x /\ y ∈ l
  | None => x ∉ l
  end.
Proof.
  induction l as [|y l IH]; cbn; [by intros _ ?%elem_of_nil|]. intros [Hy Hnd]%NoDup_cons. specialize (IH Hnd).
  destruct (Z.eqb_spec y x) as [->|Hne].
  - split_and!; [by left|done|]. intros z. rewrite elem_of_cons. split; [|tauto]. intros Hz. split; [congruence|by right].
  - destruct (unpark x l) as [rest|]; cbn.
    + destruct IH as (H1 & H2 & H3). split_and!; [by right| |].
      * apply NoDup_cons. split; [|done]. rewrite H3. tauto.
      * intros z. rewrite !elem_of_cons, H3. split; [|tauto]. intros [->|]; [split; [congruence|by left]|tauto].
    + rewrite not_elem_of_cons. split; [congruence|done].
Qed.

Lemma takeDisplaced_step s f (x : fref) : local_ok s -> (f, x) ∈ ls_tickets s ->
  exists r', takeDisplaced f (Some x) (ls_registry s) = Some (Some x, r') /\
    local_ok (mkLocalSys r' (ls_claims s) (filter (fun t => t <> (f, x)) (ls_tickets s)) (ls_next s)) /\ keeps_waits (ls_registry s) r'.
Proof.
  intros Hok Hin. destruct Hok. apply lk_tickets0 in Hin as (l & Hl & Hx).
  destruct (lk_parked0 f l Hl) as (_ & Hnd & Hlt & Hnot). pose proof (unpark_spec x l Hnd) as Hu.
  unfold takeDisplaced, mbind, M_bind. cbn. rewrite Hl. cbn.
  destruct (unpark x l) as [rest|]; [|done]. destruct Hu as (_ & Hndr & Hrest). cbn.
  set (m := match rest with [] => _ | _ => _ end). eexists. split; [done|]. split; [|by intros f' p'].
  assert (Hm : forall f' l', m !! f' = Some l' <-> (f' = f /\ l' = rest /\ rest <> []) \/ (f' <> f /\ displaced_ (ls_registry s) !! f' = Some l')).
  { intros f' l'. unfold m. destruct rest as [|y rest].
    - rewrite lookup_delete_Some. naive_solver.
    - rewrite lookup_insert_Some. naive_solver. }
  split; cbn; try done.
  - destruct lk_table0. by split.
  - intros f' y. rewrite list_elem_of_filter, lk_tickets0. setoid_rewrite Hm. split.
    + intros [Hne (l' & Hl' & Hy)]. destruct (decide (f' = f)) as [->|Hnf]; [|by exists l'; auto].
      exists rest. replace l' with l in * by congruence.
      assert (Hyr : y ∈ rest) by (apply Hrest; split; [congruence|done]).
      split; [left; split_and!; [done..|]; intros ->; by apply elem_of_nil in Hyr|done].
    + intros (l' & [(-> & -> & _)|[Hnf Hl']] & Hy).
      * apply Hrest in Hy as [Hne Hy]. split; [congruence|]. by exists l.
      * split; [congruence|]. by exists l'.
  - intros f' l' [(-> & -> & Hne)|[Hnf Hl']]%Hm; [|by apply lk_parked0]. split_and!; [done..| |].
    + intros y [_ Hy]%Hrest. by apply Hlt.
    + intros e He [_ Hy]%Hrest. by apply (Hnot e He).
Qed.

(** ** Runs *)
Lemma local_step_ok op s : local_ok s -> exists s', local_step op s = Some s' /\ local_ok s'.
Proof.
  intros Hok. destruct op as [f|f|f|c|c|c what|c|f expected|f x]; cbn [local_step].
  - rewrite join_run. pose proof (claimed_ok f false s Hok) as Hc. cbv zeta in *.
    destruct (forwarders_ (ls_registry s) !! f) as [e|]; [|eexists; split; [done|exact Hc]].
    destruct (le_ready e); (eexists; split; [done|by destruct s]).
  - unfold replace, mbind, M_bind. rewrite replaceImpl_run by apply Hok.
    eexists. split; [done|exact (claimed_ok f false s Hok)].
  - unfold replaceAndPark. rewrite replaceImpl_run by apply Hok. pose proof (claimed_ok f true s Hok) as Hc. cbv zeta in *.
    destruct (le_forwarder <$> forwarders_ (ls_registry s) !! f) as [d|]; (eexists; split; [done|exact Hc]).
  - case_decide as Hin; [|by eexists]. destruct (setInitial_step s c Hok Hin) as (r' & -> & H & _). by eexists.
  - destruct (bool_decide (c ∈ ls_claims s) && cl_initialStateSet c) eqn:E; [|by eexists].
    apply andb_true_iff in E as [Hin%bool_decide_eq_true Hi].
    destruct (markReady_step s c Hok Hin Hi) as (r' & -> & H & _). by eexists.
  - case_decide as Hin; [|by eexists]. destruct (fail_step s c what Hok Hin) as (r' & -> & H & _). by eexists.
  - case_decide as Hin; [|by eexists]. unfold destroyClaim.
    destruct (fail_step s c "local forwarder claim dropped" Hok Hin) as (r' & -> & H & _). by eexists.
  - destruct (local_remove_step s f expected Hok) as (x & r' & -> & H & _). by eexists.
  - case_decide as Hin; [|by eexists]. destruct (takeDisplaced_step s f x Hok Hin) as (r' & -> & H & _). by eexists.
Qed.

Lemma local_run_ok ops : forall s, local_ok s -> exists s', local_run ops s = Some s' /\ local_ok s'.
Proof.
  induction ops as [|op ops IH]; intros s Hok; [by exists s|]. cbn [local_run].
  destruct (local_step_ok op s Hok) as (s1 & -> & H1). by apply IH.
Qed.

(** (C22) The per-thread registry over any sequence of joins, replacements, claims
    resolved in any order or abandoned, removals and redeemed tickets.  Nothing
    aborts (no promise is fulfilled twice), and at the end: a pending entry has
    exactly one claim, which owes its resolution, and its promise is open; every
    open promise belongs to a pending entry, so a subscriber never waits for a
    forwarder nobody is setting up; a forwarder that can be joined has had its
    initial state set; a ticket still gets the forwarder that was displaced, and
    when no claim and no ticket is left the registry can be destroyed. *)
Theorem local_registry_safe (ops : list LocalOp) :
  exists s, local_run ops startLocal = Some s /\
    let r := ls_registry s in
    (forall f p, lookupState f r = Pending p ->
       heap (ready_ r) !! p = Some Unfulfilled /\
       exists c, (c ∈ ls_claims s /\ cl_ftn c = f /\ Some (cl_forwarder c) = getForEviction f r) /\
         forall c', c' ∈ ls_claims s -> Some (cl_forwarder c') = getForEviction f r -> c' = c) /\
    (forall p, heap (ready_ r) !! p = Some Unfulfilled -> exists f, lookupState f r = Pending p) /\
    (forall f w, getIfReady f r = Some w -> w ∈ initialised r) /\
    (forall f x, (f, x) ∈ ls_tickets s -> exists r', takeDisplaced f (Some x) r = Some (Some x, r')) /\
    (ls_claims s = [] -> ls_tickets s = [] -> destroyRegistry r = true).
Proof.
  destruct (local_run_ok ops startLocal startLocal_ok) as (s & E & Hok). exists s. split; [done|]. cbv zeta.
  pose proof (lk_table _ Hok) as Ht. split_and!.
  - intros f p. unfold lookupState, getForEviction. destruct (forwarders_ (ls_registry s) !! f) as [e|] eqn:Ef; [|done].
    unfold stateOf. destruct (le_ready e) as [q|] eqn:Ep; [|done]. intros [= ->].
    split; [by eapply tb_promise|]. destruct (lk_claimed _ Hok f (le_forwarder e)) as (c & Hc & Hf & Hw); [by exists e, p|].
    exists c. cbn. rewrite Hw. split; [done|]. intros c' Hc' [= Hw']. apply (lk_unique _ Hok); congruence.
  - intros p Hp. destruct (tb_pending _ _ Ht p Hp) as (f & e & Hf & He). exists f.
    unfold lookupState, stateOf. by rewrite Hf, He.
  - intros f w. unfold getIfReady. destruct (forwarders_ (ls_registry s) !! f) as [e|] eqn:Ef; [|done]. cbn.
    destruct (le_ready e) eqn:Er; [done|]. intros [= <-]. by eapply tb_ready.
  - intros f x Hin. destruct (takeDisplaced_step s f x Hok Hin) as (r' & Er & _). by exists r'.
  - intros Hc Htk. unfold destroyRegistry. apply andb_true_iff. split; apply bool_decide_eq_true.
    + intros f e Hf. destruct (le_ready e) as [p|] eqn:Ep; [|done].
      destruct (lk_claimed _ Hok f (le_forwarder e)) as (c & Hin & _); [by exists e, p|]. rewrite Hc in Hin. by apply elem_of_nil in Hin.
    + intros f l Hl. destruct (lk_parked _ Hok f l Hl) as (Hne & _). destruct l as [|x l]; [done|].
      assert (Hin : (f, x) ∈ ls_tickets s) by (apply (lk_tickets _ Hok); exists (x :: l); split; [done|by left]).
      rewrite Htk in Hin. by apply elem_of_nil in Hin.
Qed.
