(* ===== verification/LocalSetup.v ===== *)
(** The coroutines of one I/O thread when the relay runs with a forwarder per
    thread (MoqxRelay.cpp, LocalForwarder mode: [LocalSubscribeFilter],
    [subscribeFromSubscriberExec], [publishFromPublisherExec],
    [addSubscriberAndPublishViaLocalForwarder], the part of
    [attachNewLocalForwarderOnRelayExec] that runs on the publisher's executor, the
    callbacks of the forwarders; relay/LocalForwarderCallback.h).

    The thread has the registry of its forwarders ([LocalRegistry]), the callback
    installed on each, and the coroutines that are suspended, each with a frame
    that holds its locals: a claim lives in a frame.  A step runs from one
    suspension point to the next.  What other executors answer, what forwarders
    return and when they call their callback are inputs of a step.  A forwarder is
    known by the number the thread gives it. *)

From S2P Require Import Prelude Location CacheState NamespaceTree NamespaceSpec Rendezvous.
From S2P Require Import RelayNamespaces RelaySystem Promise TopN Registry RegistryRelay RelayRequests LocalRegistry.
Local Open Scope Z_scope.

(** ** The callbacks of a forwarder *)
(** What a thread tells another one: the relay, or the channel subscriber on the
    executor of the publisher. *)
Inductive Downstream := ToRelay | ToChannel (channel : Z).

Record PendingForwarderCallback := mkPendingCb {
  lastForward_ : option bool;
  maxGroup_ : option Z;
  sawOnEmpty_ : bool;
}.
Definition newPendingCb : PendingForwarderCallback := mkPendingCb None None false.

(** [drainHold_]: whether it holds the forwarder alive. *)
Record LocalForwarderCallback := mkLocalCb {
  downstream_ : Downstream;
  removeOnEmpty_ : bool;
  drainHold_ : bool;
}.

Inductive ForwarderCallback := PendingCb (cb : PendingForwarderCallback) | LocalCb (cb : LocalForwarderCallback).

Definition pending_forwardChanged (b : bool) (cb : PendingForwarderCallback) : PendingForwarderCallback :=
  mkPendingCb (Some b) (maxGroup_ cb) (sawOnEmpty_ cb).
Definition pending_newGroupRequested (g : Z) (cb : PendingForwarderCallback) : PendingForwarderCallback :=
  mkPendingCb (lastForward_ cb) (Some (Z.max (default 0 (maxGroup_ cb)) g)) (sawOnEmpty_ cb).
Definition pending_onEmpty (cb : PendingForwarderCallback) : PendingForwarderCallback :=
  mkPendingCb (lastForward_ cb) (maxGroup_ cb) true.

Section thread.
Context {SA : SessionApi} {RA : RequestApi}.
Context (allowedNamespacePrefix_ : list string).

(** ** What comes from elsewhere *)
(** In a step: [te_publish], whether a session takes a PUBLISH; [te_empties],
    whether a forwarder that is drained or loses a subscriber calls [onEmpty] at
    once; [te_attached], whether the new subscriber still has its forwarder. *)
Record ThreadEnv := mkThreadEnv {
  te_env : Env;
  te_publish : Session -> bool;
  te_empties : fref -> bool;
  te_attached : bool;
}.

(** [pa_finalCallback] is named by its channel subscriber, [pa_directPublisherSub]
    by the forwarder it is on, [pa_initial] is the largest location. *)
Record PublisherAttachment := mkAttachment {
  pa_publisherRef : bool;
  pa_ownsRelayChain : bool;
  pa_finalCallback : option Z;
  pa_initial : option AbsoluteLocation;
  pa_directPublisherSub : option fref;
  pa_error : option RequestError;
}.
Definition noAttachment : PublisherAttachment := mkAttachment false false None None None None.

(** ** The state *)
Inductive ThreadFrame :=
  | OnRendezvous (q : SubscribeRequest) (session : Session)
  | OnExclusion (q : SubscribeRequest) (session : Session)
  | AwaitsSetup (q : SubscribeRequest) (session : Session) (ready : pref)
      (** another setup of the track runs on this thread *)
  | AwaitsAttach (q : SubscribeRequest) (session : Session) (claim : Claim) (forward : bool)
      (** this setup is on the relay's executor *)
  | AwaitsUpstreamOk (q : SubscribeRequest) (claim : Claim)
      (** the publisher's side of a first subscribe, on this thread *)
  | AwaitsRegistration (f : FullTrackName) (displaced : ParkTicket)
      (** PUBLISH, registered on the relay's executor *)
  | ResolvesPublisher (f : FullTrackName) (session : Session) (forward pinned : bool)
  | WiresChannel (f : FullTrackName) (session : Session) (forwarder : fref) (forward : bool)
  | AwaitsPublishReply (session : Session) (forwarder : fref)
  | FetchAwaitsSetup (q : Fetch) (session : Session) (ready : pref).

Record Thread := mkThread {
  tlForwarders_ : LocalForwarderRegistry;
  th_nextForwarder : fref;
  th_callbacks : gmap fref (FullTrackName * ForwarderCallback);
  th_frames : gmap Z ThreadFrame;
  th_nextRequest : Z;
}.
Definition newThread : Thread := mkThread emptyLocal 0 ∅ ∅ 0.

Definition set_local r (s : Thread) : Thread :=
  mkThread r (th_nextForwarder s) (th_callbacks s) (th_frames s) (th_nextRequest s).
Definition set_callbacks m (s : Thread) : Thread :=
  mkThread (tlForwarders_ s) (th_nextForwarder s) m (th_frames s) (th_nextRequest s).
Definition set_threadFrames m (s : Thread) : Thread :=
  mkThread (tlForwarders_ s) (th_nextForwarder s) (th_callbacks s) m (th_nextRequest s).

Inductive ThreadReply :=
  | LRefused (e : RequestError)
  | LAttached (forwarder : fref)
  | LFetches (q : Fetch)          (** the fetch goes on to the relay's executor *)
  | LStopped.

(** What a step does to the outside. *)
Inductive ThreadEvent :=
  | LReplied (rid : Z) (session : Session) (r : ThreadReply)
  | AsksRendezvous (rid timeout : Z)
  | AsksExclusion (rid : Z) (exclusion : RouteExclusion)
  | AsksAttach (rid : Z) (q : SubscribeRequest) (forward : bool)
  | AsksRegistration (rid : Z) (f : FullTrackName) (forwarder : fref)
  | AsksPublisher (rid : Z) (f : FullTrackName)
  | AsksChannel (rid : Z) (f : FullTrackName) (forward : bool)
  | AddsRelayChain (forwarder : fref)
  | AddsChannel (forwarder : fref)
  | Attaches (answer : result RequestError fref)   (** of the publisher's side *)
  | UpstreamAnswered (forwarder : fref) (ok : bool)
  | Publishes (session : Session) (forwarder : fref)
  | PublishOkFrom (session : Session) (forwarder : fref)
  | Abandons (session : Session) (forwarder : fref)
  | Unsubscribes (session : Session) (forwarder : fref)
  | LTriesNewGroup (forwarder : fref)
  | LRequestsFill (forwarder : fref) (requestID : Z) (fill : Fill)
  | AppliesInitial (session : Session) (largest : option AbsoluteLocation)
  | RemovesChannel (relayChain : bool)
  | Drains (forwarder : fref) (reason : string)
  | TellsEmpty (to : Downstream)
  | TellsPublishDone (to : Downstream)
  | TellsForward (to : Downstream) (forward : bool)
  | TellsNewGroup (to : Downstream) (group : Z)
  | PublishRejected (e : RequestError).

Abbreviation T := (M Thread).

Definition onRegistry {A} (m : L A) : T A := fun s =>
  match m (tlForwarders_ s) with Some (a, r) => Some (a, set_local r s) | None => None end.
(** [make_shared<MoQForwarder>]. *)
Definition newForwarder : T fref := fun s =>
  Some (th_nextForwarder s, mkThread (tlForwarders_ s) (th_nextForwarder s + 1) (th_callbacks s) (th_frames s) (th_nextRequest s)).
Definition setCallback (f : FullTrackName) (w : fref) (cb : ForwarderCallback) : T unit :=
  modify (fun s => set_callbacks (<[w := (f, cb)]> (th_callbacks s)) s).
(** [setCallback] with what may be null. *)
Definition setFinalCallback (f : FullTrackName) (w : fref) (channel : option Z) : T unit :=
  match channel with
  | Some c => setCallback f w (LocalCb (mkLocalCb (ToChannel c) true false))
  | None => modify (fun s => set_callbacks (delete w (th_callbacks s)) s)
  end.

Definition suspendAt (rid : Z) (fr : ThreadFrame) : T unit :=
  modify (fun s => set_threadFrames (<[rid := fr]> (th_frames s)) s).
Definition finish (rid : Z) : T unit :=
  modify (fun s => set_threadFrames (delete rid (th_frames s)) s).
Definition answer (rid : Z) (session : Session) (r : ThreadReply) : T (list ThreadEvent) :=
  finish rid;; mret [LReplied rid session r].
Definition reject (rid : Z) (session : Session) (requestID : Z) (code : ErrorCode) (reason : string) : T (list ThreadEvent) :=
  answer rid session (LRefused (mkError requestID code reason)).

(** ** The calls of the callbacks *)
Definition onEmpty (w : fref) : T (list ThreadEvent) :=
  s ← get;
  match th_callbacks s !! w with
  | None => mret []
  | Some (f, PendingCb cb) =>
    onRegistry (remove f w);; setCallback f w (PendingCb (pending_onEmpty cb));; mret []
  | Some (f, LocalCb cb) =>
    setCallback f w (LocalCb (mkLocalCb (downstream_ cb) (removeOnEmpty_ cb) false));;
    (if removeOnEmpty_ cb then onRegistry (remove f w);; mret tt else mret tt);;
    mret [TellsEmpty (downstream_ cb)]
  end.

(** [PendingForwarderCallback] has no handler of its own. *)
Definition LocalForwarderCallback_onPublishDone (w : fref) (subscriberCount : Z) : T (list ThreadEvent) :=
  s ← get;
  match th_callbacks s !! w with
  | Some (f, LocalCb cb) =>
    removed ← onRegistry (remove f w);
    (if 0 <? subscriberCount
     then setCallback f w (LocalCb (mkLocalCb (downstream_ cb) (removeOnEmpty_ cb) (bool_decide (is_Some removed))))
     else mret tt);;
    mret [TellsPublishDone (downstream_ cb)]
  | _ => mret []
  end.

Definition forwardChanged (w : fref) (forward : bool) : T (list ThreadEvent) :=
  s ← get;
  match th_callbacks s !! w with
  | None => mret []
  | Some (f, PendingCb cb) => setCallback f w (PendingCb (pending_forwardChanged forward cb));; mret []
  | Some (_, LocalCb cb) => mret [TellsForward (downstream_ cb) forward]
  end.

Definition newGroupRequested (w : fref) (group : Z) : T (list ThreadEvent) :=
  s ← get;
  match th_callbacks s !! w with
  | None => mret []
  | Some (f, PendingCb cb) => setCallback f w (PendingCb (pending_newGroupRequested group cb));; mret []
  | Some (_, LocalCb cb) => mret [TellsNewGroup (downstream_ cb) group]
  end.

(** A subscriber leaves, or the forwarder is drained. *)
Definition maybeEmpty (w : fref) (en : ThreadEnv) : T (list ThreadEvent) :=
  if te_empties en w then onEmpty w else mret [].

(** ** Setting a forwarder up *)
Definition pendingCbOf (w : fref) : T PendingForwarderCallback :=
  s ← get;
  deref (match th_callbacks s !! w with Some (_, PendingCb cb) => Some cb | _ => None end).

Definition replayPendingFowarderEvents (f : FullTrackName) (w : fref) (finalCallback : option Z)
    (cb : PendingForwarderCallback) (forward : bool) : T (list ThreadEvent) :=
  setFinalCallback f w finalCallback;;
  evs ← (match lastForward_ cb with
         | Some b => if eqb b forward then mret []
                     else c ← deref finalCallback; mret [TellsForward (ToChannel c) b]
         | None => mret []
         end);
  evs' ← (match maxGroup_ cb with
          | Some g => c ← deref finalCallback; mret [TellsNewGroup (ToChannel c) g]
          | None => mret []
          end);
  mret (evs ++ evs').

Definition teardownLocalForwarderOnFailure (publisherRef relayChain : bool) (subscriberLocalFwd : option fref)
    (reason : string) (en : ThreadEnv) : T (list ThreadEvent) :=
  evs ← (match subscriberLocalFwd with
         | Some w => evs ← maybeEmpty w en; mret (Drains w reason :: evs)
         | None => mret []
         end);
  mret ((if publisherRef then [RemovesChannel relayChain] else []) ++ evs).

(** ** SUBSCRIBE *)
Definition fillEvents (w : fref) (q : SubscribeRequest) : list ThreadEvent :=
  match sq_fill q with Some fill => [LRequestsFill w (sq_requestID q) fill] | None => [] end.

Definition attachLocal (rid : Z) (q : SubscribeRequest) (session : Session) (w : fref) (en : ThreadEnv) : T (list ThreadEvent) :=
  match fw_addSubscriber (en_forwarder (te_env en) w) with
  | None => reject rid session (sq_requestID q) INTERNAL "failed to add subscriber"
  | Some _ => evs ← answer rid session (LAttached w); mret (LTriesNewGroup w :: fillEvents w q ++ evs)
  end.

(** On a forwarder that is ready. *)
Definition attachReady (rid : Z) (q : SubscribeRequest) (session : Session) (w : fref) (en : ThreadEnv) : T (list ThreadEvent) :=
  match checkRangeNotInPast (en_forwarder (te_env en) w) q session with
  | Some e => answer rid session (LRefused e)
  | None => attachLocal rid q session w en
  end.

(** This thread owns the setup. *)
Definition startSetup (rid : Z) (q : SubscribeRequest) (session : Session) (claim : Claim) (en : ThreadEnv) : T (list ThreadEvent) :=
  let localFwd := cl_forwarder claim in
  setCallback (sq_fullTrackName q) localFwd (PendingCb newPendingCb);;
  match fw_addSubscriber (en_forwarder (te_env en) localFwd) with
  | None =>
    onRegistry (destroyClaim claim);;
    reject rid session (sq_requestID q) INTERNAL "failed to add subscriber"
  | Some numForwarding =>
    let forward := 0 <? numForwarding in
    suspendAt rid (AwaitsAttach q session claim forward);;
    mret [AsksAttach rid q forward]
  end.

(** [LocalForwarderRegistry::join] with the factory. *)
Definition joinLocal (f : FullTrackName) : T JoinResult :=
  s ← get;
  match forwarders_ (tlForwarders_ s) !! f with
  | Some _ => onRegistry (join f (th_nextForwarder s))
  | None => w ← newForwarder; onRegistry (join f w)
  end.

Definition joinThread (rid : Z) (q : SubscribeRequest) (session : Session) (en : ThreadEnv) : T (list ThreadEvent) :=
  joined ← joinLocal (sq_fullTrackName q);
  match joined with
  | JPending ready => suspendAt rid (AwaitsSetup q session ready);; mret []
  | JReady w => attachReady rid q session w en
  | JClaim claim => startSetup rid q session claim en
  end.

Definition checkExclusion (rid : Z) (q : SubscribeRequest) (session : Session) (en : ThreadEnv) : T (list ThreadEvent) :=
  match exclusionFor (Some session) with
  | Some exclusion => suspendAt rid (OnExclusion q session);; mret [AsksExclusion rid exclusion]
  | None => joinThread rid q session en
  end.

Definition subscribeFromSubscriberExec (rid : Z) (q : SubscribeRequest) (session : Session) (en : ThreadEnv) : T (list ThreadEvent) :=
  s ← get;
  let '(timeout, params) := takeRendezvousTimeout getFirstIntParam eraseAllParamsOfType getDraftMajorVersion
    RENDEZVOUS_TIMEOUT (sq_params q) (getNegotiatedVersion session) in
  let q := set_params params q in
  match timeout, getIfReady (sq_fullTrackName q) (tlForwarders_ s) with
  | Some timeout, None => suspendAt rid (OnRendezvous q session);; mret [AsksRendezvous rid timeout]
  | _, _ => checkExclusion rid q session en
  end.

(** [LocalSubscribeFilter::subscribe]. *)
Definition localSubscribe (rid : Z) (q : SubscribeRequest) (session : Session) (en : ThreadEnv) : T (list ThreadEvent) :=
  missing ← namespaceMissing (sq_fullTrackName q) session;
  if (missing : bool) then reject rid session (sq_requestID q) DOES_NOT_EXIST "namespace required"
  else subscribeFromSubscriberExec rid q session en.

Definition rendezvousAnswers (rid : Z) (q : SubscribeRequest) (session : Session) (error : option RequestError)
    (en : ThreadEnv) : T (list ThreadEvent) :=
  match error with
  | Some e => answer rid session (LRefused e)
  | None => checkExclusion rid q session en
  end.

Definition exclusionAnswers (rid : Z) (q : SubscribeRequest) (session : Session) (refused : bool) (en : ThreadEnv)
  : T (list ThreadEvent) :=
  if refused then reject rid session (sq_requestID q) DOES_NOT_EXIST "track is served through the requester"
  else joinThread rid q session en.

(** The setup it waits for has ended; another one may have begun. *)
Definition setupSettled (rid : Z) (q : SubscribeRequest) (session : Session) (ready : pref) (en : ThreadEnv) : T (list ThreadEvent) :=
  s ← get;
  if bool_decide (heap (ready_ (tlForwarders_ s)) !! ready = Some Unfulfilled) then mret []
  else
    match lookupState (sq_fullTrackName q) (tlForwarders_ s) with
    | Ready w => attachReady rid q session w en
    | Pending reclaimed => suspendAt rid (AwaitsSetup q session reclaimed);; mret []
    | Absent => reject rid session (sq_requestID q) INTERNAL "local forwarder setup failed"
    end.

(** Back from the relay's executor. *)
Definition attachAnswers (rid : Z) (q : SubscribeRequest) (session : Session) (claim : Claim) (forward : bool)
    (attach : PublisherAttachment) (en : ThreadEnv) : T (list ThreadEvent) :=
  let localFwd := cl_forwarder claim in
  cb ← pendingCbOf localFwd;
  let undo := match pa_directPublisherSub attach with
              | Some w => if sawOnEmpty_ cb || bool_decide (is_Some (pa_error attach)) then [Unsubscribes session w] else []
              | None => []
              end in
  if sawOnEmpty_ cb then
    evs ← teardownLocalForwarderOnFailure (pa_publisherRef attach) (pa_ownsRelayChain attach) None "" en;
    onRegistry (destroyClaim claim);;
    evs' ← reject rid session (sq_requestID q) INTERNAL "all subscribers cancelled during setup";
    mret (undo ++ evs ++ evs')
  else match pa_error attach with
  | Some e =>
    evs ← teardownLocalForwarderOnFailure (pa_publisherRef attach) (pa_ownsRelayChain attach) (Some localFwd) (er_reason e) en;
    onRegistry (destroyClaim claim);;
    evs' ← answer rid session (LRefused e);
    mret (undo ++ evs ++ evs')
  | None =>
    claim ← onRegistry (setInitialState claim);
    evs ← (match pa_directPublisherSub attach with
           | Some _ => evs ← maybeEmpty localFwd en; mret (Unsubscribes session localFwd :: evs)
           | None => replayPendingFowarderEvents (sq_fullTrackName q) localFwd (pa_finalCallback attach) cb forward
           end);
    let subForwarder := default localFwd (pa_directPublisherSub attach) in
    claim ← onRegistry (markReady claim);
    evs' ← answer rid session (LAttached subForwarder);
    mret (evs ++ AppliesInitial session (pa_initial attach) ::
      (if te_attached en then [LTriesNewGroup subForwarder] else []) ++ fillEvents subForwarder q ++ evs')
  end.

(** ** The publisher's side of a subscribe *)
Inductive InstallKind := FromPublish | FromSubscribe.

Definition installPublisherForwarder (f : FullTrackName) (w : fref) (kind : InstallKind) : T (Claim * ParkTicket) :=
  match kind with
  | FromPublish => setCallback f w (LocalCb (mkLocalCb ToRelay false false));; onRegistry (replaceAndPark f w)
  | FromSubscribe =>
    setCallback f w (LocalCb (mkLocalCb ToRelay true false));;
    claim ← onRegistry (replace f w); mret (claim, None)
  end.

(** [direct]: the subscriber is on this thread. *)
Definition addPublisherSubscriber (q : SubscribeRequest) (w : fref) (direct : bool) (en : ThreadEnv) : option (list ThreadEvent) :=
  if direct then
    match fw_addSubscriber (en_forwarder (te_env en) w) with Some _ => Some [] | None => None end
  else Some [AddsChannel w].

Definition attachFailed (q : SubscribeRequest) (reason : string) : list ThreadEvent :=
  [Attaches (Err (mkError (sq_requestID q) INTERNAL reason))].

(** The first subscriber: the publisher's forwarder comes with the request. *)
Definition attachFirst (rid : Z) (q : SubscribeRequest) (direct : bool) (en : ThreadEnv) : T (list ThreadEvent) :=
  let f := sq_fullTrackName q in
  s ← get;
  if bool_decide (is_Some (getIfReady f (tlForwarders_ s))) then mret (attachFailed q "publisher forwarder already installed")
  else
    w ← newForwarder;
    '(claim, _) ← installPublisherForwarder f w FromSubscribe;
    match addPublisherSubscriber q w direct en with
    | None => onRegistry (destroyClaim claim);; finish rid;; mret (attachFailed q "failed to add subscriber")
    | Some evs =>
      suspendAt rid (AwaitsUpstreamOk q claim);;
      mret (evs ++ [AddsRelayChain w])
    end.

Definition upstreamSubscribed (rid : Z) (q : SubscribeRequest) (claim : Claim) (ok : bool) : T (list ThreadEvent) :=
  claim ← (if ok then claim ← onRegistry (setInitialState claim); onRegistry (markReady claim) else mret claim);
  onRegistry (destroyClaim claim);;
  finish rid;;
  mret [UpstreamAnswered (cl_forwarder claim) ok].

(** A later subscriber finds it in the registry. *)
Definition attachLater (q : SubscribeRequest) (direct : bool) (en : ThreadEnv) : T (list ThreadEvent) :=
  s ← get;
  match getIfReady (sq_fullTrackName q) (tlForwarders_ s) with
  | None => mret (attachFailed q "publisher forwarder gone")
  | Some w =>
    match addPublisherSubscriber q w direct en with
    | None => mret (attachFailed q "failed to add subscriber")
    | Some evs => mret (evs ++ [Attaches (Ok w)])
    end
  end.

(** ** PUBLISH *)
Definition publishFromPublisherExec (rid : Z) (f : FullTrackName) (session : Session) (requestID : Z) : T (list ThreadEvent) :=
  allowEmpty ← emptyNamespaceAllowed session;
  match validatePublishNamespace allowedNamespacePrefix_ f requestID allowEmpty with
  | Some e => mret [PublishRejected e]
  | None =>
    localPubFwd ← newForwarder;
    '(claim, displaced) ← installPublisherForwarder f localPubFwd FromPublish;
    claim ← onRegistry (setInitialState claim);
    onRegistry (markReady claim);;
    suspendAt rid (AwaitsRegistration f displaced);;
    mret [AddsRelayChain localPubFwd; AsksRegistration rid f localPubFwd]
  end.

Definition registrationAnswers (rid : Z) (f : FullTrackName) (displaced : ParkTicket) : T (list ThreadEvent) :=
  onRegistry (takeDisplaced f displaced);; finish rid;; mret [].

(** ** The fan-out of a published track *)
Definition startPublish (session : Session) (w : fref) (en : ThreadEnv) : T (bool * list ThreadEvent) :=
  match fw_addSubscriber (en_forwarder (te_env en) w) with
  | None => mret (false, [])
  | Some _ =>
    if te_publish en session then mret (true, [Publishes session w])
    else evs ← maybeEmpty w en; mret (false, Unsubscribes session w :: evs)
  end.

Definition fanOutTo (rid : Z) (session : Session) (w : fref) (en : ThreadEnv) : T (list ThreadEvent) :=
  '(started, evs) ← startPublish session w en;
  (if (started : bool) then suspendAt rid (AwaitsPublishReply session w) else finish rid);;
  mret evs.

Definition addSubscriberAndPublishViaLocalForwarder (rid : Z) (f : FullTrackName) (session : Session)
    (forward pinned : bool) (en : ThreadEnv) : T (list ThreadEvent) :=
  s ← get;
  match getIfReady f (tlForwarders_ s) with
  | Some localFwd => fanOutTo rid session localFwd en
  | None => suspendAt rid (ResolvesPublisher f session forward pinned);; mret [AsksPublisher rid f]
  end.

(** On the publisher's executor. *)
Definition resolvePublisherOnItsExec (f : FullTrackName) (s : Thread) : option fref := getIfReady f (tlForwarders_ s).

(** The forwarder and whether it is new; [None] when another setup is in flight. *)
Definition acquireLocalForwarder (f : FullTrackName) : T (option (fref * bool)) :=
  joined ← joinLocal f;
  match joined with
  | JClaim claim =>
    claim ← onRegistry (setInitialState claim);
    onRegistry (markReady claim);;
    mret (Some (cl_forwarder claim, true))
  | JReady w => mret (Some (w, false))
  | JPending _ => mret None
  end.

(** [found]: whether the publisher was still there. *)
Definition publisherAnswers (rid : Z) (f : FullTrackName) (session : Session) (forward pinned found : bool)
    (en : ThreadEnv) : T (list ThreadEvent) :=
  if found then
    acquired ← acquireLocalForwarder f;
    match acquired with
    | None => finish rid;; mret []
    | Some (localFwd, isNew) =>
      if (isNew : bool) then
        '(started, evs) ← startPublish session localFwd en;
        if (started : bool) then
          setCallback f localFwd (PendingCb newPendingCb);;
          let hasForwardingSub := 0 <? fw_numForwardingSubscribers (en_forwarder (te_env en) localFwd) in
          suspendAt rid (WiresChannel f session localFwd hasForwardingSub);;
          mret (evs ++ [AsksChannel rid f hasForwardingSub])
        else onRegistry (remove f localFwd);; finish rid;; mret evs
      else fanOutTo rid session localFwd en
    end
  else finish rid;; mret [].

Definition setupFailedReason (attached sawOnEmpty : bool) : string :=
  "local forwarder setup failed: attached=" ++ (if attached then "1" else "0") ++
  " sawOnEmpty=" ++ (if sawOnEmpty then "1" else "0").

Definition channelAnswers (rid : Z) (f : FullTrackName) (session : Session) (localFwd : fref) (forward : bool)
    (finalCallback : option Z) (en : ThreadEnv) : T (list ThreadEvent) :=
  cb ← pendingCbOf localFwd;
  let attached := bool_decide (is_Some finalCallback) in
  if negb attached || sawOnEmpty_ cb then
    evs ← teardownLocalForwarderOnFailure true false (Some localFwd) (setupFailedReason attached (sawOnEmpty_ cb)) en;
    finish rid;; mret evs
  else
    evs ← replayPendingFowarderEvents f localFwd finalCallback cb forward;
    suspendAt rid (AwaitsPublishReply session localFwd);; mret evs.

(** [awaitPublishReply]. *)
Definition awaitPublishReply (rid : Z) (session : Session) (w : fref) (ok : bool) (en : ThreadEnv) : T (list ThreadEvent) :=
  finish rid;;
  if ok then mret [PublishOkFrom session w]
  else evs ← maybeEmpty w en; mret (Abandons session w :: evs).

(** ** FETCH and TRACK_STATUS *)
(** [Ok (Err p)]: the setup of the track, which is not done. *)
Definition resolveJoiningFetchOnSubscriberExec (q : Fetch) (session : Session) (en : ThreadEnv)
  : T (result RequestError (result pref Fetch)) :=
  match fetchType q with
  | None => mret (Ok (Ok q))
  | Some joining =>
    xcheck (negb (useFillFetch (default 0 (getNegotiatedVersion session))));;
    s ← get;
    match lookupState (ft_fullTrackName q) (tlForwarders_ s) with
    | Pending ready => mret (Ok (Err ready))
    | Absent => mret (Err (mkError (ft_requestID q) DOES_NOT_EXIST "No subscription for joining fetch"))
    | Ready w =>
      mret (match fw_resolveJoiningFetch (en_forwarder (te_env en) w) (sessionId session) joining with
            | Err e => Err e
            | Ok (start, end_) => Ok (Ok (set_args (StandaloneFetch start end_) q))
            end)
    end
  end.

(** [LocalSubscribeFilter::fetch], and each round of [fetchAfterSetup]. *)
Definition localFetch (rid : Z) (q : Fetch) (session : Session) (en : ThreadEnv) : T (list ThreadEvent) :=
  resolved ← resolveJoiningFetchOnSubscriberExec q session en;
  match resolved with
  | Err e => answer rid session (LRefused e)
  | Ok (Err ready) => suspendAt rid (FetchAwaitsSetup q session ready);; mret []
  | Ok (Ok q) => answer rid session (LFetches q)
  end.

Definition fetchAfterSetup (rid : Z) (q : Fetch) (session : Session) (ready : pref) (en : ThreadEnv) : T (list ThreadEvent) :=
  s ← get;
  if bool_decide (heap (ready_ (tlForwarders_ s)) !! ready = Some Unfulfilled) then mret []
  else localFetch rid q session en.

Definition trackStatusOnSubscriberExec (q : TrackStatus) (en : ThreadEnv) (s : Thread) : option TrackStatusOk :=
  if bool_decide (trackNamespace (ts_fullTrackName q) = []) then None
  else
    localFwd ← getIfReady (ts_fullTrackName q) (tlForwarders_ s);
    if fw_numForwardingSubscribers (en_forwarder (te_env en) localFwd) =? 0 then None
    else Some (buildTrackStatusOk (en_forwarder (te_env en) localFwd) q).

(** ** Steps *)
Inductive ThreadOp :=
  | TSubscribe (q : SubscribeRequest) (session : Session) (en : ThreadEnv)
  | TFetch (q : Fetch) (session : Session) (en : ThreadEnv)
  | TPublish (f : FullTrackName) (session : Session) (requestID : Z)
  | TFanOut (f : FullTrackName) (session : Session) (forward pinned : bool) (en : ThreadEnv)
  | TAttachFirst (q : SubscribeRequest) (direct : bool) (en : ThreadEnv)
  | TAttachLater (q : SubscribeRequest) (direct : bool) (en : ThreadEnv)
  | TRendezvous (rid : Z) (error : option RequestError) (en : ThreadEnv)
  | TExclusion (rid : Z) (refused : bool) (en : ThreadEnv)
  | TSettled (rid : Z) (en : ThreadEnv)
  | TAttached (rid : Z) (attach : PublisherAttachment) (en : ThreadEnv)
  | TUpstreamOk (rid : Z) (ok : bool)
  | TRegistered (rid : Z)
  | TPublisher (rid : Z) (found : bool) (en : ThreadEnv)
  | TChannel (rid : Z) (finalCallback : option Z) (en : ThreadEnv)
  | TPublishReply (rid : Z) (ok : bool) (en : ThreadEnv)
  | TEmpty (w : fref)
  | TPublishDone (w : fref) (subscriberCount : Z)
  | TForward (w : fref) (forward : bool)
  | TNewGroup (w : fref) (group : Z)
  | TStops (rid : Z).              (** the coroutine is cancelled or its await throws *)

Definition newThreadRequest (k : Z -> T (list ThreadEvent)) : T (list ThreadEvent) := fun s =>
  k (th_nextRequest s) (mkThread (tlForwarders_ s) (th_nextForwarder s) (th_callbacks s) (th_frames s) (th_nextRequest s + 1)).

(** The wait for another setup and for the answer to a PUBLISH take an exception
    for an answer. *)
Definition resumeFrame (rid : Z) (op : ThreadOp) (fr : ThreadFrame) : T (list ThreadEvent) :=
  match op, fr with
  | TRendezvous _ error en, OnRendezvous q session => rendezvousAnswers rid q session error en
  | TExclusion _ refused en, OnExclusion q session => exclusionAnswers rid q session refused en
  | TSettled _ en, AwaitsSetup q session ready => setupSettled rid q session ready en
  | TSettled _ en, FetchAwaitsSetup q session ready => fetchAfterSetup rid q session ready en
  | TAttached _ attach en, AwaitsAttach q session claim forward => attachAnswers rid q session claim forward attach en
  | TUpstreamOk _ ok, AwaitsUpstreamOk q claim => upstreamSubscribed rid q claim ok
  | TRegistered _, AwaitsRegistration f displaced => registrationAnswers rid f displaced
  | TPublisher _ found en, ResolvesPublisher f session forward pinned =>
    publisherAnswers rid f session forward pinned found en
  | TChannel _ finalCallback en, WiresChannel f session w forward => channelAnswers rid f session w forward finalCallback en
  | TPublishReply _ ok en, AwaitsPublishReply session w => awaitPublishReply rid session w ok en
  | TStops _, AwaitsRegistration f displaced => registrationAnswers rid f displaced
  | TStops _, (AwaitsAttach _ _ claim _ | AwaitsUpstreamOk _ claim) =>
    onRegistry (destroyClaim claim);; finish rid;; mret []
  | TStops _, (OnRendezvous _ _ | OnExclusion _ _ | ResolvesPublisher _ _ _ _ | WiresChannel _ _ _ _) =>
    finish rid;; mret []
  | _, _ => mret []
  end.

Definition resumeOp (rid : Z) (op : ThreadOp) : T (list ThreadEvent) :=
  s ← get; match th_frames s !! rid with Some fr => resumeFrame rid op fr | None => mret [] end.

Definition threadStep (op : ThreadOp) : T (list ThreadEvent) :=
  match op with
  | TSubscribe q session en => newThreadRequest (fun rid => localSubscribe rid q session en)
  | TFetch q session en => newThreadRequest (fun rid => localFetch rid q session en)
  | TPublish f session requestID => newThreadRequest (fun rid => publishFromPublisherExec rid f session requestID)
  | TFanOut f session forward pinned en =>
    newThreadRequest (fun rid => addSubscriberAndPublishViaLocalForwarder rid f session forward pinned en)
  | TAttachFirst q direct en => newThreadRequest (fun rid => attachFirst rid q direct en)
  | TAttachLater q direct en => attachLater q direct en
  | TRendezvous rid _ _ | TExclusion rid _ _ | TSettled rid _ | TAttached rid _ _ | TUpstreamOk rid _ | TRegistered rid
  | TPublisher rid _ _ | TChannel rid _ _ | TPublishReply rid _ _ | TStops rid => resumeOp rid op
  | TEmpty w => onEmpty w
  | TPublishDone w subscriberCount => LocalForwarderCallback_onPublishDone w subscriberCount
  | TForward w forward => forwardChanged w forward
  | TNewGroup w group => newGroupRequested w group
  end.

Fixpoint threadRun (ops : list ThreadOp) : T (list ThreadEvent) :=
  match ops with
  | [] => mret []
  | op :: ops => evs ← threadStep op; evs' ← threadRun ops; mret (evs ++ evs')
  end.
End thread.

(** ** On the relay's executor
    The part of [attachNewLocalForwarderOnRelayExec] before it goes to the
    publisher's executor. *)
Section relaySide.
Context {SA : SessionApi} {E : Type} {HC : HopCodec E} {RA : RequestApi} {EA : ExtensionsApi}.
Context (activityThreshold : Z) (hasCache : bool) (getExecutor : Session -> Z).

Record FirstSubscriberSetup := mkFirstSetup {
  fs_publisherForwarder : Registry.fref;
  fs_upstreamSession : Session;
  fs_upstreamSubReq : SubscribeRequest;
  fs_upstreamConsumer : option ConsumerRef;
  fs_pending : InFlight;
  fs_clientRequestID : Z;
}.
Record StatefulSubscribeResult := mkStateful {
  sr_publisherExec : option Z;
  sr_error : option RequestError;
  sr_firstSetup : option FirstSubscriberSetup;
}.
(** [JoinWaits]: for the first subscriber. *)
Inductive JoinOrPrepare := JoinWaits (future : pref) | JoinThrew | Prepared (sr : StatefulSubscribeResult).

Definition prepareFailed (q : SubscribeRequest) (reason : string) : JoinOrPrepare :=
  Prepared (mkStateful None (Some (mkError (sq_requestID q) DOES_NOT_EXIST reason)) None).

Definition joinSubsequent (q : SubscribeRequest) (session : Session) (future : pref) : M Relay JoinOrPrepare :=
  s ← get;
  let f := sq_fullTrackName q in
  match awaitSubsequent f future (theRegistry s) with
  | StillWaiting => mret (JoinWaits future)
  | Threw => mret JoinThrew
  | Joined _ =>
    mret (if excludedFromSubscription (exclusionFor (Some session)) f s
          then prepareFailed q "track is served through the requester"
          else Prepared (mkStateful (getUpstreamView getExecutor f (theRegistry s) ≫= uv_publisherExec) None None))
  end.

(** Once the links have been waited for. *)
Definition joinOrPrepareUpstreamSubscription (q : SubscribeRequest) (session : Session) (now : Z) : M Relay JoinOrPrepare :=
  s ← get;
  let f := sq_fullTrackName q in
  let upstream := findUpstreamPublisher (trackNamespace f) (exclusionFor (Some session)) s in
  evs ← regStep LocalForwarder activityThreshold hasCache getExecutor (OpSubscribe f upstream now);
  match evs with
  | [Attached (FirstSubscriber forwarder consumer pending)] =>
    u ← deref upstream;
    mret (Prepared (mkStateful (Some (getExecutor u)) None (Some (mkFirstSetup forwarder u (makeUpstreamSubReq q false u) consumer
      (mkInFlight (up_ftn pending) (up_epoch pending) u) (sq_requestID q)))))
  | [Attached (SubsequentSubscriber _ future)] => joinSubsequent q session future
  | _ => mret (prepareFailed q "no such namespace or track")
  end.

(** The answer to the subscriber's thread, or the executor to go on with. *)
Definition attachNewLocalForwarderOnRelayExec (sr : StatefulSubscribeResult) : PublisherAttachment + Z :=
  match sr_error sr with
  | Some e => inl (mkAttachment false false None None None (Some e))
  | None => match sr_publisherExec sr with
            | None => inl noAttachment
            | Some publisherExec => inr publisherExec
            end
  end.

(** Back from the publisher's executor with a first subscriber: its ticket is
    settled, or destroyed with the setup. *)
Definition finishFirstSetup (setup : FirstSubscriberSetup) (answer : result RequestError UpstreamOk) : M Relay (option RequestError) :=
  match answer with
  | Err e => regStep LocalForwarder activityThreshold hasCache getExecutor (OpAbandon (fs_pending setup));; mret (Some e)
  | Ok ok =>
    evs ← regStep LocalForwarder activityThreshold hasCache getExecutor
            (OpComplete (fs_pending setup) (uo_handle ok) (uo_requestID ok) (Some (fs_upstreamSession setup)));
    mret (match evs with
          | Completed true :: _ => None
          | _ => Some (mkError (fs_clientRequestID setup) INTERNAL "publisher reconnected during subscribe")
          end)
  end.
End relaySide.
