(* ===== verification/LocalSetupTheorems.v ===== *)
(** The coroutines of an I/O thread over any interleaving and whatever the other
    executors answer (MoqxRelay.cpp, LocalForwarder mode): nothing aborts, nobody
    waits for a setup that nobody owes, and what happens to a forwarder during its
    setup reaches the publisher. *)

From S2P Require Import Prelude Location CacheState NamespaceTree NamespaceSpec Rendezvous.
From S2P Require Import RelayNamespaces RelaySystem Promise TopN Registry RegistryRelay RelayRequests LocalRegistry LocalTheorems LocalSetup.
From S2P Require Import CacheWitness RelayNsTheorems RelayRequestsTheorems.
Local Open Scope Z_scope.

(** ** What a frame holds *)
Section thread.
Context {SA : SessionApi} {RA : RequestApi}.
Context (allowedNamespacePrefix_ : list string).

Definition frameClaim (fr : ThreadFrame) : option Claim :=
  match fr with AwaitsAttach _ _ c _ => Some c | AwaitsUpstreamOk _ c => Some c | _ => None end.
Definition frameTicket (fr : ThreadFrame) : option (FullTrackName * fref) :=
  match fr with AwaitsRegistration f (Some x) => Some (f, x) | _ => None end.
(** The forwarder that is being set up. *)
Definition frameForwarder (fr : ThreadFrame) : option fref :=
  match fr with
  | AwaitsAttach _ _ c _ => Some (cl_forwarder c)
  | AwaitsUpstreamOk _ c => Some (cl_forwarder c)
  | WiresChannel _ _ w _ => Some w
  | _ => None
  end.
(** Its events are recorded. *)
Definition frameRecords (fr : ThreadFrame) : option (FullTrackName * fref) :=
  match fr with
  | AwaitsAttach q _ c _ => Some (sq_fullTrackName q, cl_forwarder c)
  | WiresChannel f _ w _ => Some (f, w)
  | _ => None
  end.
(** The setup a request waits for: its track and the promise. *)
Definition frameWaits (fr : ThreadFrame) : option (FullTrackName * pref) :=
  match fr with
  | AwaitsSetup q _ p => Some (sq_fullTrackName q, p)
  | FetchAwaitsSetup q _ p => Some (ft_fullTrackName q, p)
  | _ => None
  end.
(** moxygen: a FETCH of a draft without Fetch Type is standalone. *)
Definition joining_ok (q : Fetch) (session : Session) : Prop :=
  fetchType q <> None -> useFillFetch (default 0 (getNegotiatedVersion session)) = false.

Implicit Types (m : gmap Z ThreadFrame) (c : option Claim) (t : option (FullTrackName * fref)) (s : Thread).

Definition holds m c (x : Claim) : Prop := c = Some x \/ exists rid fr, m !! rid = Some fr /\ frameClaim fr = Some x.
Definition ticketed m t x : Prop := t = Some x \/ exists rid fr, m !! rid = Some fr /\ frameTicket fr = Some x.

(** ** The invariant
    [m]: the coroutines that are suspended; [c], [t]: the claim and the ticket
    that the running one has in hand. *)
Record core m c t s : Prop := {
  co_local : exists l tl, local_ok (mkLocalSys (tlForwarders_ s) l tl (th_nextForwarder s)) /\
    (forall x, x ∈ l <-> holds m c x) /\ (forall x, x ∈ tl <-> ticketed m t x);
  co_owner rid rid' fr fr' w : m !! rid = Some fr -> m !! rid' = Some fr' ->
    frameForwarder fr = Some w -> frameForwarder fr' = Some w -> rid = rid';
  co_below rid fr w : m !! rid = Some fr -> frameForwarder fr = Some w -> w < th_nextForwarder s;
  co_hand x rid fr : c = Some x -> m !! rid = Some fr -> frameForwarder fr <> Some (cl_forwarder x);
  co_tickets rid rid' fr fr' x : m !! rid = Some fr -> m !! rid' = Some fr' ->
    frameTicket fr = Some x -> frameTicket fr' = Some x -> rid = rid';
  co_ticket x rid fr : t = Some x -> m !! rid = Some fr -> frameTicket fr <> Some x;
  co_records rid fr f w : m !! rid = Some fr -> frameRecords fr = Some (f, w) ->
    exists cb, th_callbacks s !! w = Some (f, PendingCb cb);
  co_waits rid fr f p : m !! rid = Some fr -> frameWaits fr = Some (f, p) -> waits f p (tlForwarders_ s);
  co_fetch rid q session p : m !! rid = Some (FetchAwaitsSetup q session p) -> joining_ok q session;
}.

(** [own]: the coroutine that runs. *)
Record running (own : option Z) m c t s : Prop := {
  ru_core : core m c t s;
  ru_frames : match own with Some rid => delete rid (th_frames s) = m /\ rid < th_nextRequest s | None => th_frames s = m end;
  ru_next rid fr : m !! rid = Some fr -> rid < th_nextRequest s;
}.
Definition thread_ok s : Prop := exists m, running None m None None s.

Lemma newThread_ok : thread_ok newThread.
Proof.
  exists ∅. split; [|done|by intros rid fr ?]. split; try (by intros; done).
  exists [], []. split; [exact startLocal_ok|]. split; intros x; (split; [by intros ?%elem_of_nil|]).
  - by intros [?|(rid & fr & ? & _)].
  - by intros [?|(rid & fr & ? & _)].
Qed.

Lemma records_forwarder fr f w : frameRecords fr = Some (f, w) -> frameForwarder fr = Some w.
Proof. by destruct fr; intros [= ? ?]; subst. Qed.
Lemma claim_forwarder fr x : frameClaim fr = Some x -> frameForwarder fr = Some (cl_forwarder x).
Proof. by destruct fr; intros [= ?]; subst. Qed.

(** *** Changes of the registry *)
Definition with_registry r n s : Thread := mkThread r n (th_callbacks s) (th_frames s) (th_nextRequest s).

Lemma registry_core m c t c' t' s r n l tl :
  core m c t s -> local_ok (mkLocalSys r l tl n) ->
  (forall x, x ∈ l <-> holds m c' x) -> (forall x, x ∈ tl <-> ticketed m t' x) ->
  keeps_waits (tlForwarders_ s) r -> th_nextForwarder s <= n ->
  (forall x rid fr, c' = Some x -> m !! rid = Some fr -> frameForwarder fr <> Some (cl_forwarder x)) ->
  (forall x rid fr, t' = Some x -> m !! rid = Some fr -> frameTicket fr <> Some x) ->
  core m c' t' (with_registry r n s).
Proof.
  intros [] Hl Hc Ht Hw Hn Hhand Htick. split; try done.
  - by exists l, tl.
  - intros rid fr w H1 H2. specialize (co_below0 rid fr w H1 H2). cbn. lia.
  - intros rid fr f p H1 H2. apply Hw. eauto.
Qed.

Lemma running_core own m c t c' t' s s' :
  running own m c t s -> core m c' t' s' -> th_frames s' = th_frames s -> th_nextRequest s' = th_nextRequest s ->
  running own m c' t' s'.
Proof. intros [] Hc Hf Hn. split; [done| |by rewrite Hn]. by rewrite Hf, Hn. Qed.

Lemma onRegistry_run {A} (op : L A) (a : A) r s : op (tlForwarders_ s) = Some (a, r) ->
  onRegistry op s = Some (a, with_registry r (th_nextForwarder s) s).
Proof. unfold onRegistry. by intros ->. Qed.

(** *** The claim in hand *)
Lemma holds_drop m x y : (forall rid fr, m !! rid = Some fr -> frameForwarder fr <> Some (cl_forwarder x)) ->
  holds m None y <-> y <> x /\ holds m (Some x) y.
Proof.
  intros Hh. unfold holds. split.
  - intros [?|(rid & fr & H & Hc)]; [done|]. split; [|right; by eauto]. intros ->. by apply (Hh rid fr H), claim_forwarder.
  - intros [Hne [[= ->]|H]]; [done|]. by right.
Qed.

Lemma destroyClaim_spec own m x t :
  spec (running own m (Some x) t) (onRegistry (destroyClaim x)) (fun a s => a = disengaged x /\ running own m None t s).
Proof.
  intros s Hr. pose proof (ru_core _ _ _ _ _ Hr) as Hc. destruct (co_local _ _ _ _ Hc) as (l & tl & Hok & Hl & Htl).
  destruct (fail_step _ x "local forwarder claim dropped" Hok) as (r' & E & Hok' & Hw); [by apply Hl; left|]. cbn [ls_registry ls_claims ls_tickets ls_next] in *.
  eexists _, _. split; [by apply onRegistry_run|]. split; [done|]. eapply running_core; [done| |done..].
  eapply (registry_core _ _ _ _ _ _ _ _ _ _ Hc Hok'); [|done|done|lia|done|apply (co_ticket _ _ _ _ Hc)].
  intros y. rewrite elem_of_withoutClaim, Hl. symmetry. apply holds_drop. intros rid fr. by apply (co_hand _ _ _ _ Hc).
Qed.

Lemma markReady_spec own m x t : cl_initialStateSet x = true ->
  spec (running own m (Some x) t) (onRegistry (markReady x)) (fun a s => a = disengaged x /\ running own m None t s).
Proof.
  intros Hi s Hr. pose proof (ru_core _ _ _ _ _ Hr) as Hc. destruct (co_local _ _ _ _ Hc) as (l & tl & Hok & Hl & Htl).
  destruct (markReady_step _ x Hok) as (r' & E & Hok' & Hw); [by apply Hl; left|done|]. cbn [ls_registry ls_claims ls_tickets ls_next] in *.
  eexists _, _. split; [by apply onRegistry_run|]. split; [done|]. eapply running_core; [done| |done..].
  eapply (registry_core _ _ _ _ _ _ _ _ _ _ Hc Hok'); [|done|done|lia|done|apply (co_ticket _ _ _ _ Hc)].
  intros y. rewrite elem_of_withoutClaim, Hl. symmetry. apply holds_drop. intros rid fr. by apply (co_hand _ _ _ _ Hc).
Qed.

(** [setInitialState] followed by [markReady]. *)
Definition initialised_claim (x : Claim) : Claim := mkClaim true (cl_ftn x) (cl_forwarder x) true.

Lemma setInitialState_spec own m x t :
  spec (running own m (Some x) t) (onRegistry (setInitialState x))
    (fun a s => a = initialised_claim x /\ running own m (Some (initialised_claim x)) t s).
Proof.
  intros s Hr. pose proof (ru_core _ _ _ _ _ Hr) as Hc. destruct (co_local _ _ _ _ Hc) as (l & tl & Hok & Hl & Htl).
  destruct (setInitial_step _ x Hok) as (r' & E & Hok' & Hw); [by apply Hl; left|]. cbn [ls_registry ls_claims ls_tickets ls_next] in *.
  eexists _, _. split; [by apply onRegistry_run|]. split; [done|]. eapply running_core; [done| |done..].
  assert (Hh : forall rid fr, m !! rid = Some fr -> frameForwarder fr <> Some (cl_forwarder x)) by (intros rid fr; by apply (co_hand _ _ _ _ Hc)).
  eapply (registry_core _ _ _ _ _ _ _ _ _ _ Hc Hok'); [|done|done|lia|by intros ? rid fr [= <-]; apply Hh|apply (co_ticket _ _ _ _ Hc)].
  intros y. rewrite elem_of_cons, elem_of_withoutClaim, Hl, <- holds_drop by exact Hh. unfold holds, initialised_claim.
  split; [intros [->|[?|H]]|intros [[= <-]|H]]; auto; done.
Qed.

Lemma remove_spec own m c t f w :
  spec (running own m c t) (onRegistry (remove f w)) (fun _ s => running own m c t s).
Proof.
  intros s Hr. pose proof (ru_core _ _ _ _ _ Hr) as Hc. destruct (co_local _ _ _ _ Hc) as (l & tl & Hok & Hl & Htl).
  destruct (local_remove_step _ f w Hok) as (x & r' & E & Hok' & Hw). cbn [ls_registry ls_claims ls_tickets ls_next] in *.
  eexists _, _. split; [by apply onRegistry_run|]. eapply running_core; [done| |done..].
  eapply (registry_core _ _ _ _ _ _ _ _ _ _ Hc Hok'); try done; eauto using co_hand, co_ticket.
Qed.

Lemma takeDisplaced_spec own m c f (displaced : ParkTicket) :
  spec (running own m c (pair f <$> displaced)) (onRegistry (takeDisplaced f displaced)) (fun _ s => running own m c None s).
Proof.
  intros s Hr. destruct displaced as [x|]; cbn in Hr.
  2: { eexists _, _. split; [by apply onRegistry_run|]. eapply running_core; [done| |done..]. destruct s. apply Hr. }
  pose proof (ru_core _ _ _ _ _ Hr) as Hc. destruct (co_local _ _ _ _ Hc) as (l & tl & Hok & Hl & Htl).
  destruct (takeDisplaced_step _ f x Hok) as (r' & E & Hok' & Hw); [by apply Htl; left|]. cbn [ls_registry ls_claims ls_tickets ls_next] in *.
  eexists _, _. split; [by apply onRegistry_run|]. eapply running_core; [done| |done..].
  eapply (registry_core _ _ _ _ _ _ _ _ _ _ Hc Hok'); try done; [|by eauto using co_hand].
  intros y. rewrite list_elem_of_filter, Htl. unfold ticketed. split.
  - intros [Hne [Heq|H]]; [congruence|by right].
  - intros [?|(rid & fr & H & Ht)]; [done|]. split; [|right; by eauto]. intros ->. by apply (co_ticket _ _ _ _ Hc (f, x) rid fr).
Qed.

(** *** New claims *)
Lemma claimed_core m s f (park : bool) :
  core m None None s ->
  let r := tlForwarders_ s in
  let n := th_nextForwarder s in
  let q := pendingPromise f r in
  let d := if park then le_forwarder <$> forwarders_ r !! f else None in
  core m (Some (mkClaim true f n false)) (pair f <$> d)
    (with_registry (pended f n q.1 q.2 (parkedAt f d r)) (n + 1) s).
Proof.
  intros Hc. cbv zeta. destruct (co_local _ _ _ _ Hc) as (l & tl & Hok & Hl & Htl).
  pose proof (claimed_ok f park _ Hok) as Hok'. cbv zeta in Hok'. cbn [ls_registry ls_claims ls_tickets ls_next] in Hok'.
  set (d := if park then _ else None) in *.
  assert (Hkw : keeps_waits (tlForwarders_ s) (pended f (th_nextForwarder s) (pendingPromise f (tlForwarders_ s)).1
    (pendingPromise f (tlForwarders_ s)).2 (parkedAt f d (tlForwarders_ s)))).
  { pose proof (pended_waits _ f _ (lk_table _ Hok)) as Hp. cbv zeta in Hp. cbn in Hp. by destruct d. }
  eapply (registry_core _ _ _ _ _ _ _ _ _ _ Hc Hok'); [| |done|lia| |].
  - intros x. rewrite elem_of_cons, Hl. unfold holds. split; [intros [->|[?|H]]|intros [[= <-]|H]]; auto; done.
  - intros x. destruct d as [y|]; cbn; rewrite ?elem_of_cons, Htl; unfold ticketed; [|done].
    split; [intros [->|[?|H]]|intros [[= <-]|H]]; auto; done.
  - intros x rid fr [= <-] H Hw. pose proof (co_below _ _ _ _ Hc rid fr _ H Hw) as Hlt. cbn in Hlt. lia.
  - intros x rid fr Hx H Ht. destruct d as [y|] eqn:Ed; [|done]. injection Hx as <-.
    assert (Hin : (f, y) ∈ tl) by (apply Htl; right; by exists rid, fr).
    apply (lk_tickets _ Hok) in Hin as (l' & Hl' & Hy). cbn in Hl'.
    destruct (lk_parked _ Hok f l' Hl') as (_ & _ & _ & Hnot). unfold d in Ed. destruct park; [|done].
    apply fmap_Some in Ed as (e & He & ->). by apply (Hnot e He).
Qed.

(** The registry of the thread, with its forwarders. *)
Lemma core_table m c t s : core m c t s -> table_ok (th_nextForwarder s) (tlForwarders_ s).
Proof. intros Hc. destruct (co_local _ _ _ _ Hc) as (l & tl & Hok & _). apply (lk_table _ Hok). Qed.

Lemma pending_waits m c t s f e p : core m c t s -> forwarders_ (tlForwarders_ s) !! f = Some e -> le_ready e = Some p ->
  waits f p (tlForwarders_ s).
Proof.
  intros Hc He Hp. pose proof (tb_promise _ _ (core_table _ _ _ _ Hc) f e p He Hp) as Hu.
  split; [by rewrite Hu|]. intros _. by exists e.
Qed.

(** A claim on a forwarder that no suspended coroutine sets up. *)
Definition newClaim f m (x : Claim) s : Prop :=
  cl_ftn x = f /\ cl_initialStateSet x = false /\ cl_forwarder x < th_nextForwarder s /\
  forall rid fr, m !! rid = Some fr -> frameForwarder fr <> Some (cl_forwarder x).

Lemma joinLocal_spec own m f :
  spec (running own m None None) (joinLocal f) (fun j s =>
    match j with
    | JClaim x => newClaim f m x s /\ running own m (Some x) None s
    | JPending p => waits f p (tlForwarders_ s) /\ running own m None None s
    | JReady w => running own m None None s
    end).
Proof.
  intros s Hr. pose proof (ru_core _ _ _ _ _ Hr) as Hc. unfold joinLocal, mbind, M_bind. cbn -[join].
  destruct (forwarders_ (tlForwarders_ s) !! f) as [e|] eqn:Ef.
  - unfold onRegistry. rewrite join_run, Ef. eexists _, _. split; [done|].
    assert (set_local (tlForwarders_ s) s = s) as -> by (by destruct s).
    destruct (le_ready e) as [p|] eqn:Ep; [|done]. split; [by eapply pending_waits|done].
  - cbn -[join]. unfold onRegistry. cbn -[join]. rewrite join_run, Ef. eexists _, _. split; [done|].
    pose proof (claimed_core m s f false Hc) as Hc'. cbv zeta in Hc'. cbn [parkedAt fmap option_fmap option_map] in Hc'.
    split; [|by eapply running_core]. split_and!; [done|done|cbn; lia|]. intros rid fr. by apply (co_hand _ _ _ _ Hc').
Qed.

(** A new forwarder is installed. *)
Definition bumped s : Thread :=
  mkThread (tlForwarders_ s) (th_nextForwarder s + 1) (th_callbacks s) (th_frames s) (th_nextRequest s).
Definition fresh own m (w : fref) s : Prop :=
  exists s0, running own m None None s0 /\ w = th_nextForwarder s0 /\ s = bumped s0.

Lemma newForwarder_spec own m : spec (running own m None None) newForwarder (fresh own m).
Proof. intros s Hr. eexists _, _. split; [done|]. by exists s. Qed.

Lemma callbacks_core m c t s cbs :
  core m c t s ->
  (forall rid fr f w, m !! rid = Some fr -> frameRecords fr = Some (f, w) -> exists cb, cbs !! w = Some (f, PendingCb cb)) ->
  core m c t (set_callbacks cbs s).
Proof. intros [] H. by split. Qed.

Lemma install_spec own m f w kind :
  spec (fresh own m w) (installPublisherForwarder f w kind) (fun '(x, d) s =>
    newClaim f m x s /\ (kind = FromSubscribe -> d = None) /\ running own m (Some x) (pair f <$> d) s).
Proof.
  intros s (s0 & Hr & -> & ->). pose proof (ru_core _ _ _ _ _ Hr) as Hc. set (n := th_nextForwarder s0).
  assert (Hcb : forall cb, core m None None (set_callbacks (<[n := (f, cb)]> (th_callbacks s0)) s0)).
  { intros cb. apply callbacks_core; [done|]. intros rid fr f' w H Hrec. rewrite lookup_insert_ne; [by eapply co_records|].
    intros <-. pose proof (co_below _ _ _ _ Hc rid fr n H (records_forwarder _ _ _ Hrec)). unfold n in *. lia. }
  assert (Hrun : forall park, replaceImpl f n park (tlForwarders_ s0) = _) by (intros park; apply replaceImpl_run, (core_table _ _ _ _ Hc)).
  destruct kind; unfold installPublisherForwarder, setCallback, mbind, M_bind, onRegistry; cbn -[replaceAndPark replace].
  - unfold replaceAndPark. rewrite Hrun. eexists _, _. split; [done|].
    pose proof (claimed_core m _ f true (Hcb (LocalCb (mkLocalCb ToRelay false false)))) as Hc'. cbv zeta in Hc'.
    split_and!; [|done|by eapply running_core]. split_and!; [done|done|cbn; lia|]. intros rid fr. by apply (co_hand _ _ _ _ Hc').
  - unfold replace, mbind, M_bind. rewrite Hrun. eexists (_, _), _. split; [done|].
    pose proof (claimed_core m _ f false (Hcb (LocalCb (mkLocalCb ToRelay true false)))) as Hc'. cbv zeta in Hc'.
    split_and!; [|done|by eapply running_core]. split_and!; [done|done|cbn; lia|]. intros rid fr. by apply (co_hand _ _ _ _ Hc').
Qed.

(** *** Callbacks *)
(** No suspended coroutine sets [w] up. *)
Definition unowned m (w : fref) : Prop := forall rid fr, m !! rid = Some fr -> frameForwarder fr <> Some w.

Lemma setCallback_spec own m c t f w cb :
  unowned m w -> spec (running own m c t) (setCallback f w cb) (fun _ s => running own m c t s).
Proof.
  intros Hw s Hr. eexists _, _. split; [done|]. eapply running_core; [done| |done..].
  apply callbacks_core; [apply Hr|]. intros rid fr f' w' H Hrec. rewrite lookup_insert_ne.
  - eapply co_records; [apply Hr|done..].
  - intros <-. by apply (Hw rid fr H), (records_forwarder fr f' w).
Qed.

Lemma setFinalCallback_spec own m c t f w channel :
  unowned m w -> spec (running own m c t) (setFinalCallback f w channel) (fun _ s => running own m c t s).
Proof.
  intros Hw. destruct channel; [by apply setCallback_spec|]. intros s Hr. eexists _, _. split; [done|].
  eapply running_core; [done| |done..]. apply callbacks_core; [apply Hr|]. intros rid fr f' w' H Hrec. rewrite lookup_delete_ne.
  - eapply co_records; [apply Hr|done..].
  - intros <-. by apply (Hw rid fr H), (records_forwarder fr f' w).
Qed.

(** The callback that is installed changes its state. *)
Lemma updateCallback_spec own m c t f w cb :
  spec (fun s => running own m c t s /\ exists old, th_callbacks s !! w = Some (f, old) /\
      (is_Some (match old with PendingCb x => Some x | _ => None end) -> exists x, cb = PendingCb x))
    (setCallback f w cb) (fun _ s => running own m c t s).
Proof.
  intros s (Hr & old & Hold & Hcb). eexists _, _. split; [done|]. eapply running_core; [done| |done..].
  apply callbacks_core; [apply Hr|]. intros rid fr f' w' H Hrec.
  destruct (co_records _ _ _ _ (ru_core _ _ _ _ _ Hr) rid fr f' w' H Hrec) as [x Hx].
  destruct (decide (w = w')) as [<-|Hne]; [|rewrite lookup_insert_ne by done; by exists x].
  rewrite Hx in Hold. injection Hold as <- <-. destruct (Hcb ltac:(by eexists)) as [y ->]. rewrite lookup_insert_eq. by exists y.
Qed.

Lemma onEmpty_spec own m c t w : spec (running own m c t) (onEmpty w) (fun _ s => running own m c t s).
Proof.
  intros s Hr. unfold onEmpty, mbind at 1, M_bind at 1. cbn [get]. destruct (th_callbacks s !! w) as [[f [cb|cb]]|] eqn:E.
  - revert s Hr E. intros s Hr E. destruct (remove_spec own m c t f w s Hr) as (x & s1 & E1 & H1).
    assert (Hcb : th_callbacks s1 !! w = Some (f, PendingCb cb)).
    { unfold onRegistry in E1. destruct (remove f w (tlForwarders_ s)) as [[? ?]|]; [|done]. by injection E1 as <- <-. }
    destruct (updateCallback_spec own m c t f w (PendingCb (pending_onEmpty cb)) s1) as (y & s2 & E2 & H2).
    { split; [done|]. exists (PendingCb cb). split; [done|]. by eexists. }
    unfold mbind, M_bind. rewrite E1, E2. by eexists _, _.
  - destruct (updateCallback_spec own m c t f w (LocalCb (mkLocalCb (downstream_ cb) (removeOnEmpty_ cb) false)) s) as (y & s2 & E2 & H2).
    { split; [done|]. exists (LocalCb cb). split; [done|]. by intros [? ?]. }
    unfold mbind, M_bind. rewrite E2. destruct (removeOnEmpty_ cb); [|by eexists _, _].
    destruct (remove_spec own m c t f w s2 H2) as (x & s1 & E1 & H1). rewrite E1. by eexists _, _.
  - by eexists _, _.
Qed.

Lemma publishDone_spec own m c t w n : spec (running own m c t) (LocalForwarderCallback_onPublishDone w n) (fun _ s => running own m c t s).
Proof.
  intros s Hr. unfold LocalForwarderCallback_onPublishDone, mbind at 1, M_bind at 1. cbn [get].
  destruct (th_callbacks s !! w) as [[f [cb|cb]]|] eqn:E; [by eexists _, _| |by eexists _, _].
  destruct (remove_spec own m c t f w s Hr) as (x & s1 & E1 & H1).
  assert (Hcb : th_callbacks s1 !! w = Some (f, LocalCb cb)).
  { unfold onRegistry in E1. destruct (remove f w (tlForwarders_ s)) as [[? ?]|]; [|done]. by injection E1 as <- <-. }
  unfold mbind, M_bind. rewrite E1. destruct (0 <? n); [|by eexists _, _].
  destruct (updateCallback_spec own m c t f w (LocalCb (mkLocalCb (downstream_ cb) (removeOnEmpty_ cb) (bool_decide (is_Some x)))) s1)
    as (y & s2 & E2 & H2).
  { split; [done|]. exists (LocalCb cb). split; [done|]. by intros [? ?]. }
  rewrite E2. by eexists _, _.
Qed.

Lemma forwardChanged_spec own m c t w b : spec (running own m c t) (forwardChanged w b) (fun _ s => running own m c t s).
Proof.
  intros s Hr. unfold forwardChanged, mbind at 1, M_bind at 1. cbn [get].
  destruct (th_callbacks s !! w) as [[f [cb|cb]]|] eqn:E; [|by eexists _, _..].
  destruct (updateCallback_spec own m c t f w (PendingCb (pending_forwardChanged b cb)) s) as (y & s2 & E2 & H2).
  { split; [done|]. exists (PendingCb cb). split; [done|]. by eexists. }
  unfold mbind, M_bind. rewrite E2. by eexists _, _.
Qed.

Lemma newGroupRequested_spec own m c t w g : spec (running own m c t) (newGroupRequested w g) (fun _ s => running own m c t s).
Proof.
  intros s Hr. unfold newGroupRequested, mbind at 1, M_bind at 1. cbn [get].
  destruct (th_callbacks s !! w) as [[f [cb|cb]]|] eqn:E; [|by eexists _, _..].
  destruct (updateCallback_spec own m c t f w (PendingCb (pending_newGroupRequested g cb)) s) as (y & s2 & E2 & H2).
  { split; [done|]. exists (PendingCb cb). split; [done|]. by eexists. }
  unfold mbind, M_bind. rewrite E2. by eexists _, _.
Qed.

Lemma maybeEmpty_spec own m c t w en : spec (running own m c t) (maybeEmpty w en) (fun _ s => running own m c t s).
Proof. unfold maybeEmpty. destruct (te_empties en w); [apply onEmpty_spec|by apply spec_ret]. Qed.

Lemma teardown_spec own m c t ref chain w reason en :
  spec (running own m c t) (teardownLocalForwarderOnFailure ref chain w reason en) (fun _ s => running own m c t s).
Proof.
  apply (spec_bind _ (fun _ => running own m c t)); [|intros evs; by apply spec_ret]. destruct w; [|by apply spec_ret].
  eapply spec_bind; [apply maybeEmpty_spec|intros evs; by apply spec_ret].
Qed.

(** *** The end of a run *)
Lemma finish_spec rid m : spec (running (Some rid) m None None) (finish rid) (fun _ s => thread_ok s).
Proof.
  intros s [Hc [Hm Hlt] Hn]. eexists _, _. split; [done|]. exists m. split; [destruct Hc; by split|exact Hm|exact Hn].
Qed.

Lemma answer_spec rid m session r : spec (running (Some rid) m None None) (answer rid session r) (fun _ s => thread_ok s).
Proof. eapply spec_bind; [apply finish_spec|intros []; by apply spec_ret]. Qed.

(** The frame has what was in hand. *)
Record takes m c t fr s : Prop := {
  tf_claim : frameClaim fr = c;
  tf_ticket : frameTicket fr = t;
  tf_below w : frameForwarder fr = Some w -> w < th_nextForwarder s /\ unowned m w;
  tf_records f w : frameRecords fr = Some (f, w) -> exists cb, th_callbacks s !! w = Some (f, PendingCb cb);
  tf_waits f p : frameWaits fr = Some (f, p) -> waits f p (tlForwarders_ s);
  tf_fetch q session p : fr = FetchAwaitsSetup q session p -> joining_ok q session;
}.

Lemma suspendAt_ok rid m c t fr s : running (Some rid) m c t s -> takes m c t fr s ->
  thread_ok (set_threadFrames (<[rid := fr]> (th_frames s)) s).
Proof.
  intros [Hc [Hm Hlt] Hn] []. exists (<[rid := fr]> m).
  assert (Hnone : m !! rid = None) by (rewrite <- Hm; apply lookup_delete_eq).
  assert (Hmap : <[rid := fr]> (th_frames s) = <[rid := fr]> m) by (rewrite <- Hm; by rewrite insert_delete_eq).
  split; [|exact Hmap|intros rid' fr' [[<- _]|[_ H]]%lookup_insert_Some; [exact Hlt|by apply Hn in H]].
  destruct Hc. split; cbn.
  - destruct co_local0 as (l & tl & Hok & Hl & Htl). exists l, tl. split; [done|]. split; intros x.
    + rewrite Hl. unfold holds. split.
      * intros [->|(r & g & H & Hx)]; right; [exists rid, fr; by rewrite lookup_insert_eq|].
        exists r, g. rewrite lookup_insert_ne; [done|]. intros <-. congruence.
      * intros [?|(r & g & [[<- <-]|[_ H]]%lookup_insert_Some & Hx)]; [done|left; congruence|right; by exists r, g].
    + rewrite Htl. unfold ticketed. split.
      * intros [->|(r & g & H & Hx)]; right; [exists rid, fr; by rewrite lookup_insert_eq|].
        exists r, g. rewrite lookup_insert_ne; [done|]. intros <-. congruence.
      * intros [?|(r & g & [[<- <-]|[_ H]]%lookup_insert_Some & Hx)]; [done|left; congruence|right; by exists r, g].
  - intros r1 r2 f1 f2 w [[<- <-]|[_ H1]]%lookup_insert_Some [[<- <-]|[_ H2]]%lookup_insert_Some Hw1 Hw2; try done; [| |by eauto].
    + by destruct (tf_below0 w Hw1) as [_ Hu]; apply Hu in H2.
    + by destruct (tf_below0 w Hw2) as [_ Hu]; apply Hu in H1.
  - intros r f1 w [[<- <-]|[_ H1]]%lookup_insert_Some Hw; [by apply tf_below0|eauto].
  - done.
  - intros r1 r2 f1 f2 x [[<- <-]|[_ H1]]%lookup_insert_Some [[<- <-]|[_ H2]]%lookup_insert_Some Hx1 Hx2; try done; [| |by eauto].
    + rewrite tf_ticket0 in Hx1. by apply (co_ticket0 x r2 f2) in Hx1.
    + rewrite tf_ticket0 in Hx2. by apply (co_ticket0 x r1 f1) in Hx2.
  - done.
  - intros r f1 f w [[<- <-]|[_ H1]]%lookup_insert_Some Hw; [by apply tf_records0|eauto].
  - intros r f1 f p [[<- <-]|[_ H1]]%lookup_insert_Some Hw; [by apply tf_waits0|eauto].
  - intros r q session p [[<- ->]|[_ H1]]%lookup_insert_Some; [by eapply tf_fetch0|eauto].
Qed.

Lemma suspendAt_spec rid m c t fr :
  spec (fun s => takes m c t fr s /\ running (Some rid) m c t s) (suspendAt rid fr) (fun _ s => thread_ok s).
Proof. intros s [Ht Hr]. eexists _, _. split; [done|]. by eapply suspendAt_ok. Qed.

(** A frame that holds nothing. *)
Definition plain (fr : ThreadFrame) : Prop :=
  frameClaim fr = None /\ frameTicket fr = None /\ frameForwarder fr = None /\ frameRecords fr = None /\ frameWaits fr = None.
Lemma suspendPlain_spec rid m fr : plain fr ->
  spec (running (Some rid) m None None) (suspendAt rid fr) (fun _ s => thread_ok s).
Proof.
  intros (H1 & H2 & H3 & H4 & H5). eapply spec_conseq; [apply suspendAt_spec| |done].
  intros s Hr. split; [|done]. split; try done; intros; try congruence. by subst.
Qed.

Lemma spec_get {S A} (P : S -> Prop) (k : S -> M S A) (Q : A -> S -> Prop) :
  (forall (s0 : S), P s0 -> spec (fun (s : S) => s = s0 /\ P s) (k s0) Q) -> spec P (get ≫= k) Q.
Proof. intros H x Hx. by apply (H x Hx x). Qed.

(** The last effect of a step. *)
Lemma spec_last {A B} (P : Thread -> Prop) (k : M Thread A) (b : A -> B) (Q : Thread -> Prop) :
  spec P k (fun _ => Q) -> spec P (a ← k; mret (b a)) (fun _ => Q).
Proof. intros H. eapply spec_bind; [exact H|]. intros a. by apply spec_ret. Qed.

Ltac then_ret := let a := fresh in intros a; by apply spec_ret.

(** ** SUBSCRIBE *)
Lemma attachLocal_spec rid m q session w en :
  spec (running (Some rid) m None None) (attachLocal rid q session w en) (fun _ s => thread_ok s).
Proof. unfold attachLocal. destruct (fw_addSubscriber _); [eapply spec_bind; [apply answer_spec|then_ret]|apply answer_spec]. Qed.

Lemma attachReady_spec rid m q session w en :
  spec (running (Some rid) m None None) (attachReady rid q session w en) (fun _ s => thread_ok s).
Proof. unfold attachReady. destruct (checkRangeNotInPast _ _ _); [apply answer_spec|apply attachLocal_spec]. Qed.

Lemma startSetup_spec rid m q session x en :
  spec (fun s => newClaim (sq_fullTrackName q) m x s /\ running (Some rid) m (Some x) None s) (startSetup rid q session x en)
    (fun _ s => thread_ok s).
Proof.
  intros s [(Hf & Hi & Hlt & Hu) Hr]. unfold startSetup.
  destruct (setCallback_spec (Some rid) m (Some x) None (sq_fullTrackName q) (cl_forwarder x) (PendingCb newPendingCb) Hu s Hr)
    as ([] & s1 & E1 & H1).
  assert (Hcb : th_callbacks s1 !! cl_forwarder x = Some (sq_fullTrackName q, PendingCb newPendingCb)).
  { injection E1 as <-. apply lookup_insert_eq. }
  assert (Hn : th_nextForwarder s1 = th_nextForwarder s) by (by injection E1 as <-).
  unfold mbind at 1, M_bind at 1. rewrite E1. destruct (fw_addSubscriber _) as [n|].
  - destruct (suspendAt_spec rid m (Some x) None (AwaitsAttach q session x (0 <? n)) s1) as ([] & s2 & E2 & H2).
    { split; [|done]. split; try done; cbn; intros; simplify_eq; [|by eauto]. split; [lia|done]. }
    unfold mbind, M_bind. rewrite E2. by eexists _, _.
  - destruct (destroyClaim_spec (Some rid) m x None s1 H1) as (a & s2 & E2 & _ & H2). unfold mbind, M_bind. rewrite E2.
    exact (answer_spec rid m session _ s2 H2).
Qed.

Lemma joinThread_spec rid m q session en :
  spec (running (Some rid) m None None) (joinThread rid q session en) (fun _ s => thread_ok s).
Proof.
  eapply spec_bind; [apply joinLocal_spec|]. intros [x|p|w]; [apply startSetup_spec| |apply attachReady_spec].
  apply spec_last. eapply spec_conseq; [apply suspendAt_spec| |done]. intros s [Hw Hr]. split; [|exact Hr].
  split; try done; cbn; intros; by simplify_eq.
Qed.

Lemma checkExclusion_spec rid m q session en :
  spec (running (Some rid) m None None) (checkExclusion rid q session en) (fun _ s => thread_ok s).
Proof.
  unfold checkExclusion. destruct (exclusionFor _); [|apply joinThread_spec].
  eapply spec_bind; [by apply suspendPlain_spec|then_ret].
Qed.

Lemma subscribeFromSubscriberExec_spec rid m q session en :
  spec (running (Some rid) m None None) (subscribeFromSubscriberExec rid q session en) (fun _ s => thread_ok s).
Proof.
  apply spec_get. intros s0 _. apply (spec_conseq _ (running (Some rid) m None None) _ (fun _ s => thread_ok s)); [|by intros s [_ ?]|done].
  destruct (takeRendezvousTimeout _ _ _ _ _ _) as [[timeout|] params]; [|apply checkExclusion_spec].
  cbv zeta. destruct (getIfReady (sq_fullTrackName (set_params params q)) (tlForwarders_ s0)); [apply checkExclusion_spec|]. eapply spec_bind; [by apply suspendPlain_spec|then_ret].
Qed.

Lemma namespaceMissing_spec {S} (P : S -> Prop) f session : (trackNamespace f = [] -> is_Some (getNegotiatedVersion session)) ->
  spec P (namespaceMissing f session) (fun _ => P).
Proof.
  intros Hv x Hx. unfold namespaceMissing. case_bool_decide as Hf; [|by eexists _, _].
  destruct (Hv Hf) as [v E]. unfold emptyNamespaceAllowed, mbind, M_bind. rewrite E. by eexists _, _.
Qed.

Lemma localSubscribe_spec rid m q session en :
  (trackNamespace (sq_fullTrackName q) = [] -> is_Some (getNegotiatedVersion session)) ->
  spec (running (Some rid) m None None) (localSubscribe rid q session en) (fun _ s => thread_ok s).
Proof.
  intros Hv. eapply spec_bind; [by apply namespaceMissing_spec|]. intros []; [apply answer_spec|apply subscribeFromSubscriberExec_spec].
Qed.

Lemma setupSettled_spec rid m q session p en :
  spec (fun s => thread_ok s /\ running (Some rid) m None None s) (setupSettled rid q session p en) (fun _ s => thread_ok s).
Proof.
  apply spec_get. intros s0 [H0 Hr]. case_bool_decide; [by apply spec_ret; intros s (-> & _)|].
  apply (spec_conseq _ (fun s => s = s0 /\ running (Some rid) m None None s) _ (fun _ s => thread_ok s)); [|by intros s [-> _]|done].
  destruct (lookupState _ _) as [|p'|w] eqn:E.
  - eapply spec_conseq; [apply answer_spec|by intros s [_ ?]|done].
  - apply spec_last. eapply spec_conseq; [apply suspendAt_spec| |done]. intros s [-> _]. split; [|exact Hr].
    unfold lookupState, stateOf in E. destruct (forwarders_ _ !! _) as [e|] eqn:Ef; [|done]. destruct (le_ready e) eqn:Ep; [|done].
    injection E as ->. split; try done; cbn; intros; simplify_eq. eapply pending_waits; [apply Hr|done..].
  - eapply spec_conseq; [apply attachReady_spec|by intros s [_ ?]|done].
Qed.

(** What was recorded during the setup has to be told to the publisher's side. *)
Definition replays (cb : PendingForwarderCallback) (forward : bool) : bool :=
  match lastForward_ cb with Some b => negb (eqb b forward) | None => false end || bool_decide (is_Some (maxGroup_ cb)).
Lemma replay_spec own m c t f w final cb forward : unowned m w -> is_Some final \/ replays cb forward = false ->
  spec (running own m c t) (replayPendingFowarderEvents f w final cb forward) (fun _ s => running own m c t s).
Proof.
  intros Hu Hf. apply (spec_bind _ (fun _ => running own m c t)); [by apply setFinalCallback_spec|]. intros ?.
  unfold replays in Hf. apply (spec_bind _ (fun _ => running own m c t)).
  { destruct (lastForward_ cb) as [b|]; [|by apply spec_ret]. destruct (eqb b forward); [by apply spec_ret|].
    destruct Hf as [[ch ->]|Hf]; [by apply spec_ret|done]. }
  intros evs. apply (spec_bind _ (fun _ => running own m c t)); [|then_ret]. destruct (maxGroup_ cb); [|by apply spec_ret].
  destruct Hf as [[ch ->]|Hf]; [by apply spec_ret|]. by rewrite orb_true_r in Hf.
Qed.

(** The answer of the relay's executor is taken for success but has no callback to
    tell: it has neither an error, nor the publisher's own forwarder, nor a
    channel subscriber. *)
Definition unreached (attach : PublisherAttachment) : bool :=
  bool_decide (pa_error attach = None) && bool_decide (pa_directPublisherSub attach = None) &&
  bool_decide (pa_finalCallback attach = None).
Definition replaysToNobody (op : ThreadOp) (s : Thread) : bool :=
  match op with
  | TAttached rid attach _ =>
    match th_frames s !! rid with
    | Some (AwaitsAttach q session claim forward) =>
      match th_callbacks s !! cl_forwarder claim with
      | Some (_, PendingCb cb) => negb (sawOnEmpty_ cb) && unreached attach && replays cb forward
      | _ => false
      end
    | _ => false
    end
  | _ => false
  end.

Lemma attachAnswers_spec rid m q session x forward attach en cb :
  negb (sawOnEmpty_ cb) && unreached attach && replays cb forward = false -> unowned m (cl_forwarder x) ->
  spec (fun s => th_callbacks s !! cl_forwarder x = Some (sq_fullTrackName q, PendingCb cb) /\ running (Some rid) m (Some x) None s)
    (attachAnswers rid q session x forward attach en) (fun _ s => thread_ok s).
Proof.
  intros Ha Hu. unfold attachAnswers, pendingCbOf.
  apply (spec_bind _ (fun a s => a = cb /\ running (Some rid) m (Some x) None s)).
  { intros s [Hcb Hr]. unfold mbind, M_bind. cbn. rewrite Hcb. by eexists _, _. }
  intros a. apply spec_pure. intros ->. set (undo := match pa_directPublisherSub attach with Some _ => _ | None => _ end).
  assert (Hdrop : forall ref chain w reason k, (forall evs, spec (running (Some rid) m None None) (k evs) (fun _ s => thread_ok s)) ->
    spec (running (Some rid) m (Some x) None)
      (evs ← teardownLocalForwarderOnFailure ref chain w reason en;
       onRegistry (destroyClaim x);; evs' ← k evs; mret (undo ++ evs ++ evs')) (fun _ s => thread_ok s)).
  { intros ref chain w reason k Hk. eapply spec_bind; [apply teardown_spec|]. intros evs.
    apply (spec_bind _ (fun _ => running (Some rid) m None None)).
    { eapply spec_conseq; [apply destroyClaim_spec|done|by intros ? ? [_ ?]]. }
    intros _. eapply spec_bind; [apply Hk|then_ret]. }
  destruct (sawOnEmpty_ cb); [apply Hdrop; intros; apply answer_spec|]. unfold unreached in Ha.
  destruct (pa_error attach) as [e|] eqn:Ee; [apply Hdrop; intros; apply answer_spec|].
  eapply spec_bind; [apply setInitialState_spec|]. intros x'. apply spec_pure. intros ->.
  apply (spec_bind _ (fun _ => running (Some rid) m (Some (initialised_claim x)) None)).
  { destruct (pa_directPublisherSub attach) eqn:Ed.
    2: { apply replay_spec; [done|]. destruct (pa_finalCallback attach); [by left; eexists|by right]. }
    eapply spec_bind; [apply maybeEmpty_spec|then_ret]. }
  intros evs. apply (spec_bind _ (fun _ => running (Some rid) m None None)).
  { eapply spec_conseq; [by apply markReady_spec|done|by intros ? ? [_ ?]]. }
  intros _. eapply spec_bind; [apply answer_spec|then_ret].
Qed.

(** ** The publisher's side, PUBLISH *)
Lemma attachFirst_spec rid m q direct en :
  spec (fun s => thread_ok s /\ running (Some rid) m None None s) (attachFirst rid q direct en) (fun _ s => thread_ok s).
Proof.
  apply spec_get. intros s0 [H0 Hr]. case_bool_decide; [by apply spec_ret; intros s (-> & _)|].
  apply (spec_bind _ (fresh (Some rid) m)).
  { eapply spec_conseq; [apply newForwarder_spec|by intros s (-> & _)|done]. }
  intros w. eapply spec_bind; [apply install_spec|]. intros [x d].
  intros s1 ((Hf & Hi & Hlt & Hu) & Hd & H1). rewrite (Hd eq_refl) in H1. cbn in H1.
  destruct (addPublisherSubscriber q w direct en) as [evs|].
  - destruct (suspendAt_spec rid m (Some x) None (AwaitsUpstreamOk q x) s1) as ([] & s2 & E2 & H2).
    { split; [|done]. split; try done; cbn; intros; simplify_eq. split; [lia|done]. }
    unfold mbind, M_bind. rewrite E2. by eexists _, _.
  - destruct (destroyClaim_spec (Some rid) m x None s1 H1) as (a & s2 & E2 & _ & H2). unfold mbind, M_bind. rewrite E2.
    destruct (finish_spec rid m s2 H2) as ([] & s3 & E3 & H3). rewrite E3. by eexists _, _.
Qed.

Lemma upstreamSubscribed_spec rid m q x ok :
  spec (running (Some rid) m (Some x) None) (upstreamSubscribed rid q x ok) (fun _ s => thread_ok s).
Proof.
  apply (spec_bind _ (fun a s => if ok then cl_engaged a = false /\ running (Some rid) m None None s
                                 else a = x /\ running (Some rid) m (Some x) None s)).
  { destruct ok; [|by apply spec_ret]. eapply spec_bind; [apply setInitialState_spec|]. intros x'. apply spec_pure. intros ->.
    eapply spec_conseq; [by apply markReady_spec|done|by intros ? ? [-> ?]]. }
  intros a. apply (spec_bind _ (fun _ => running (Some rid) m None None)).
  - destruct ok; apply spec_pure; [intros Ha|intros ->].
    + intros s Hr. unfold onRegistry, destroyClaim, claim_fail. rewrite Ha. eexists _, _. split; [done|]. by destruct s.
    + eapply spec_conseq; [apply destroyClaim_spec|done|by intros ? ? [_ ?]].
  - intros _. eapply spec_bind; [apply finish_spec|then_ret].
Qed.

Lemma attachLater_spec own m c t q direct en :
  spec (running own m c t) (attachLater q direct en) (fun _ s => running own m c t s).
Proof.
  apply spec_get. intros s0 _. destruct (getIfReady _ _) as [w|]; [|by apply spec_ret; intros s [_ ?]].
  destruct (addPublisherSubscriber q w direct en); by apply spec_ret; intros s [_ ?].
Qed.

Lemma publishFromPublisherExec_spec rid m f session requestID : is_Some (getNegotiatedVersion session) ->
  spec (fun s => thread_ok s /\ running (Some rid) m None None s)
    (publishFromPublisherExec allowedNamespacePrefix_ rid f session requestID) (fun _ s => thread_ok s).
Proof.
  intros [v Hv]. unfold publishFromPublisherExec, emptyNamespaceAllowed. rewrite Hv.
  apply (spec_bind _ (fun _ s => thread_ok s /\ running (Some rid) m None None s)); [by intros s Hs; eexists _, _|].
  intros allow. destruct (validatePublishNamespace _ _ _ _); [by apply spec_ret; intros s [? _]|].
  apply (spec_bind _ (fresh (Some rid) m)).
  { eapply spec_conseq; [apply newForwarder_spec|by intros s [_ ?]|done]. }
  intros w. eapply spec_bind; [apply install_spec|]. intros [x d]. cbn beta iota.
  apply (spec_conseq _ (running (Some rid) m (Some x) (pair f <$> d)) _ (fun _ s => thread_ok s)); [|by intros s (_ & _ & ?)|done].
  eapply spec_bind; [apply setInitialState_spec|]. intros x'. apply spec_pure. intros ->.
  eapply spec_bind; [by apply markReady_spec|]. intros x''. apply spec_pure. intros _. apply spec_last.
  eapply spec_conseq; [apply suspendAt_spec| |done]. intros s Hr. split; [|exact Hr].
  by split.
Qed.

Lemma registrationAnswers_spec rid m f displaced :
  spec (running (Some rid) m None (pair f <$> displaced)) (registrationAnswers rid f displaced) (fun _ s => thread_ok s).
Proof.
  eapply spec_bind; [apply takeDisplaced_spec|]. intros ?. apply spec_last, finish_spec.
Qed.

(** ** The fan-out *)
Lemma startPublish_spec own m c t session w en :
  spec (running own m c t) (startPublish session w en) (fun _ s => running own m c t s).
Proof.
  unfold startPublish. destruct (fw_addSubscriber _); [|by apply spec_ret]. destruct (te_publish en session); [by apply spec_ret|].
  apply spec_last, maybeEmpty_spec.
Qed.

Lemma fanOutTo_spec rid m session w en :
  spec (running (Some rid) m None None) (fanOutTo rid session w en) (fun _ s => thread_ok s).
Proof.
  eapply spec_bind; [apply startPublish_spec|]. intros [[] evs]; cbn beta iota; apply spec_last; [by apply suspendPlain_spec|apply finish_spec].
Qed.

Lemma addSubscriberAndPublish_spec rid m f session forward pinned en :
  spec (running (Some rid) m None None) (addSubscriberAndPublishViaLocalForwarder rid f session forward pinned en)
    (fun _ s => thread_ok s).
Proof.
  apply spec_get. intros s0 _. apply (spec_conseq _ (running (Some rid) m None None) _ (fun _ s => thread_ok s)); [|by intros s [_ ?]|done].
  destruct (getIfReady f (tlForwarders_ s0)); [apply fanOutTo_spec|]. by apply spec_last, suspendPlain_spec.
Qed.

Lemma acquireLocalForwarder_spec own m f :
  spec (running own m None None) (acquireLocalForwarder f) (fun a s => running own m None None s /\
    match a with Some (w, true) => w < th_nextForwarder s /\ unowned m w | _ => True end).
Proof.
  eapply spec_bind; [apply joinLocal_spec|]. intros [x|p|w]; [|by apply spec_ret; intros s [_ ?]|by apply spec_ret].
  intros s [(_ & _ & Hlt & Hu) Hr]. destruct (setInitialState_spec _ _ _ _ s Hr) as (x' & s1 & E1 & -> & H1).
  destruct (markReady_spec own m (initialised_claim x) None eq_refl s1 H1) as (x'' & s2 & E2 & -> & H2).
  unfold mbind, M_bind. rewrite E1, E2. eexists _, _. split; [done|]. split; [done|]. split; [|exact Hu].
  assert (th_nextForwarder s2 = th_nextForwarder s) as ->; [|done].
  unfold onRegistry in E1, E2. destruct (setInitialState _ _) as [[? ?]|]; [|done]. injection E1 as _ <-.
  destruct (markReady _ _) as [[? ?]|]; [|done]. by injection E2 as _ <-.
Qed.

Lemma startPublish_started session w en evs s s' : startPublish session w en s = Some ((true, evs), s') -> s' = s.
Proof.
  unfold startPublish. destruct (fw_addSubscriber _); [|done]. destruct (te_publish en session); [by intros [= _ <-]|].
  unfold mbind, M_bind. by destruct (maybeEmpty w en s) as [[? ?]|].
Qed.

Lemma newRecords_spec rid m f session w b (evs evs' : list ThreadEvent) : unowned m w ->
  spec (fun s => w < th_nextForwarder s /\ running (Some rid) m None None s)
    (setCallback f w (PendingCb newPendingCb);; suspendAt rid (WiresChannel f session w b);; mret (evs ++ evs'))
    (fun _ s => thread_ok s).
Proof.
  intros Hu s [Hlt Hr].
  destruct (setCallback_spec (Some rid) m None None f w (PendingCb newPendingCb) Hu s Hr) as ([] & s1 & E1 & H1).
  unfold mbind, M_bind. rewrite E1. injection E1 as <-.
  destruct (suspendAt_spec rid m None None (WiresChannel f session w b)
    (set_callbacks (<[w := (f, PendingCb newPendingCb)]> (th_callbacks s)) s)) as ([] & s2 & E2 & H2).
  { split; [|exact H1]. split; try done; cbn; intros; simplify_eq; [done|]. rewrite lookup_insert_eq. by eexists. }
  rewrite E2. by eexists _, _.
Qed.

Lemma publisherAnswers_spec rid m f session forward pinned found en :
  spec (running (Some rid) m None None) (publisherAnswers rid f session forward pinned found en) (fun _ s => thread_ok s).
Proof.
  unfold publisherAnswers. destruct found; [|apply spec_last, finish_spec].
  eapply spec_bind; [apply acquireLocalForwarder_spec|]. intros [[w [|]]|].
  - intros s [Hr [Hlt Hu]]. destruct (startPublish_spec (Some rid) m None None session w en s Hr) as ([started evs] & s1 & E1 & H1).
    unfold mbind at 1, M_bind at 1. rewrite E1. cbn beta iota. destruct started.
    + apply startPublish_started in E1 as ->. exact (newRecords_spec rid m f session w _ evs _ Hu s (conj Hlt Hr)).
    + destruct (remove_spec _ _ _ _ f w s1 H1) as (x & s2 & E2 & H2).
      destruct (finish_spec rid m s2 H2) as ([] & s3 & E3 & H3). unfold mbind, M_bind. rewrite E2, E3. by eexists _, _.
  - eapply spec_conseq; [apply fanOutTo_spec|by intros s [? _]|done].
  - eapply spec_conseq; [apply spec_last, finish_spec|by intros s [? _]|done].
Qed.

Lemma channelAnswers_spec rid m f session w forward final en cb : unowned m w ->
  spec (fun s => th_callbacks s !! w = Some (f, PendingCb cb) /\ running (Some rid) m None None s)
    (channelAnswers rid f session w forward final en) (fun _ s => thread_ok s).
Proof.
  intros Hu. unfold channelAnswers, pendingCbOf.
  apply (spec_bind _ (fun a s => a = cb /\ running (Some rid) m None None s)).
  { intros s [Hcb Hr]. unfold mbind, M_bind. cbn. rewrite Hcb. by eexists _, _. }
  intros a. apply spec_pure. intros ->. destruct (negb _ || _) eqn:E.
  - eapply spec_bind; [apply teardown_spec|]. intros evs. apply spec_last, finish_spec.
  - apply orb_false_iff in E as [Hf%negb_false_iff%bool_decide_eq_true _].
    eapply spec_bind; [apply replay_spec; [done|by left]|]. intros evs. by apply spec_last, suspendPlain_spec.
Qed.

Lemma awaitPublishReply_spec rid m session w ok en :
  spec (running (Some rid) m None None) (awaitPublishReply rid session w ok en) (fun _ s => thread_ok s).
Proof.
  eapply spec_bind; [apply finish_spec|]. intros []. destruct ok; [by apply spec_ret|].
  intros s [m' Hr]. apply (spec_last _ _ (fun evs => Abandons session w :: evs) _ (maybeEmpty_spec None m' None None w en)) in Hr
    as (evs & s' & E & Hr'). eexists _, _. split; [exact E|]. by exists m'.
Qed.

(** ** FETCH *)
Lemma localFetch_spec rid m q session en : joining_ok q session ->
  spec (running (Some rid) m None None) (localFetch rid q session en) (fun _ s => thread_ok s).
Proof.
  intros Hj. apply (spec_bind _ (fun a s => running (Some rid) m None None s /\
    match a with Ok (Err p) => waits (ft_fullTrackName q) p (tlForwarders_ s) | _ => True end)).
  - intros s Hr. unfold resolveJoiningFetchOnSubscriberExec. destruct (fetchType q) as [j|] eqn:Ej; [|by eexists _, _].
    rewrite Hj by congruence. unfold mbind, M_bind. cbn. unfold lookupState, stateOf.
    destruct (forwarders_ _ !! _) as [e|] eqn:Ef; [|by eexists _, _]. destruct (le_ready e) as [p|] eqn:Ep.
    + eexists _, _. split; [done|]. split; [done|]. eapply pending_waits; [apply Hr|done..].
    + eexists _, _. split; [done|]. split; [done|]. repeat case_match; simplify_eq; done.
  - intros [[q'|p]|e].
    + eapply spec_conseq; [apply answer_spec|by intros s [? _]|done].
    + apply spec_last. eapply spec_conseq; [apply suspendAt_spec| |done]. intros s [Hr Hw]. split; [|exact Hr].
      split; try done; cbn; intros; by simplify_eq.
    + eapply spec_conseq; [apply answer_spec|by intros s [? _]|done].
Qed.

Lemma fetchAfterSetup_spec rid m q session p en : joining_ok q session ->
  spec (fun s => thread_ok s /\ running (Some rid) m None None s) (fetchAfterSetup rid q session p en) (fun _ s => thread_ok s).
Proof.
  intros Hj. apply spec_get. intros s0 _. case_bool_decide; [by apply spec_ret; intros s (_ & ? & _)|].
  eapply spec_conseq; [by apply localFetch_spec|by intros s (_ & _ & ?)|done].
Qed.

(** ** Every step *)
Definition threadOp_ok (op : ThreadOp) : Prop :=
  match op with
  | TSubscribe q session _ => trackNamespace (sq_fullTrackName q) = [] -> is_Some (getNegotiatedVersion session)
  | TFetch q session _ => joining_ok q session
  | TPublish _ session _ => is_Some (getNegotiatedVersion session)
  | _ => True
  end.

(** A coroutine is resumed: what its frame held is in hand. *)
Lemma resumed_running rid fr s : thread_ok s -> th_frames s !! rid = Some fr ->
  running (Some rid) (delete rid (th_frames s)) (frameClaim fr) (frameTicket fr) s /\
  (forall w, frameForwarder fr = Some w -> unowned (delete rid (th_frames s)) w) /\
  (forall f w, frameRecords fr = Some (f, w) -> exists cb, th_callbacks s !! w = Some (f, PendingCb cb)) /\
  (forall q session p, fr = FetchAwaitsSetup q session p -> joining_ok q session).
Proof.
  intros [m [Hc Hm Hn]] Hf. cbn in Hm. subst m.
  assert (Hsub : forall r g, delete rid (th_frames s) !! r = Some g -> r <> rid /\ th_frames s !! r = Some g).
  { intros r g [? ?]%lookup_delete_Some. split; [congruence|done]. }
  destruct Hc. split_and!.
  - split; [|split; [done|by apply (Hn rid fr)]|by intros r g [_ H]%Hsub; apply Hn in H]. split.
    + destruct co_local0 as (l & tl & Hok & Hl & Htl). exists l, tl. split; [done|]. split; intros x.
      * rewrite Hl. unfold holds. split.
        -- intros [?|(r & g & H & Hx)]; [done|]. destruct (decide (r = rid)) as [->|Hne]; [left; congruence|right].
           exists r, g. split; [by rewrite lookup_delete_ne|done].
        -- intros [Hx|(r & g & [_ H]%Hsub & Hx)]; right; [by exists rid, fr|by exists r, g].
      * rewrite Htl. unfold ticketed. split.
        -- intros [?|(r & g & H & Hx)]; [done|]. destruct (decide (r = rid)) as [->|Hne]; [left; congruence|right].
           exists r, g. split; [by rewrite lookup_delete_ne|done].
        -- intros [Hx|(r & g & [_ H]%Hsub & Hx)]; right; [by exists rid, fr|by exists r, g].
    + intros r r' g g' w [_ H1]%Hsub [_ H2]%Hsub. eauto.
    + intros r g w [_ H1]%Hsub. eauto.
    + intros x r g Hx [Hne H1]%Hsub Hw. apply Hne. eapply (co_owner0 _ _ _ _ _ H1 Hf Hw). by apply claim_forwarder.
    + intros r r' g g' x [_ H1]%Hsub [_ H2]%Hsub. eauto.
    + intros x r g Hx [Hne H1]%Hsub Hw. apply Hne. by apply (co_tickets0 _ _ _ _ _ H1 Hf Hw).
    + intros r g f w [_ H1]%Hsub. eauto.
    + intros r g f p [_ H1]%Hsub. eauto.
    + intros r q session p [_ H1]%Hsub. eauto.
  - intros w Hw r g [Hne H1]%Hsub Hg. apply Hne. eauto.
  - intros f w. eauto.
  - intros q session p ->. eauto.
Qed.

Lemma resumeFrame_ok rid op fr s : thread_ok s -> th_frames s !! rid = Some fr -> threadOp_ok op ->
  (forall attach en, op = TAttached rid attach en -> replaysToNobody op s = false) -> (forall r attach en, op = TAttached r attach en -> r = rid) ->
  exists evs s', resumeFrame rid op fr s = Some (evs, s') /\ thread_ok s'.
Proof.
  intros Hok Hf Hop Hnb Hsame. destruct (resumed_running rid fr s Hok Hf) as (Hr & Hu & Hrec & Hj).
  assert (Hidle : exists (evs : list ThreadEvent) s', (mret [] : M Thread (list ThreadEvent)) s = Some (evs, s') /\ thread_ok s') by (by eexists _, _).
  assert (Hend : frameClaim fr = None -> frameTicket fr = None ->
    exists (evs : list ThreadEvent) s', (finish rid;; mret []) s = Some (evs, s') /\ thread_ok s').
  { intros Hc Ht. rewrite Hc, Ht in Hr. exact (spec_last _ _ (fun _ => []) _ (finish_spec rid _) s Hr). }
  assert (Hstop : forall x, frameClaim fr = Some x -> frameTicket fr = None ->
    exists (evs : list ThreadEvent) s', (onRegistry (destroyClaim x);; finish rid;; mret []) s = Some (evs, s') /\ thread_ok s').
  { intros x Hc Ht. rewrite Hc, Ht in Hr. destruct (destroyClaim_spec _ _ _ _ s Hr) as (a & s1 & E1 & _ & H1).
    unfold mbind at 1, M_bind at 1. rewrite E1. exact (spec_last _ _ (fun _ => []) _ (finish_spec rid _) s1 H1). }
  destruct op, fr; cbn [resumeFrame frameClaim frameTicket] in *; try exact Hidle; try (by apply Hend); try (by apply Hstop).
  - unfold rendezvousAnswers. destruct error; [by apply (answer_spec _ _ _ _ s Hr)|by apply (checkExclusion_spec _ _ _ _ _ s Hr)].
  - unfold exclusionAnswers. destruct refused; [by apply (answer_spec _ _ _ _ s Hr)|by apply (joinThread_spec _ _ _ _ _ s Hr)].
  - by apply (setupSettled_spec _ _ _ _ _ _ s (conj Hok Hr)).
  - by apply (fetchAfterSetup_spec _ _ _ _ _ _ (Hj _ _ _ eq_refl) s (conj Hok Hr)).
  - destruct (Hrec _ _ eq_refl) as [cb Hcb]. assert (rid0 = rid) as -> by (by eapply Hsame).
    specialize (Hnb _ _ eq_refl). unfold replaysToNobody in Hnb. rewrite Hf, Hcb in Hnb.
    by apply (attachAnswers_spec _ _ _ _ _ _ _ _ cb Hnb (Hu _ eq_refl) s (conj Hcb Hr)).
  - by apply (upstreamSubscribed_spec _ _ _ _ _ s Hr).
  - exact (registrationAnswers_spec _ _ f displaced s Hr).
  - by apply (publisherAnswers_spec _ _ _ _ _ _ _ _ s Hr).
  - destruct (Hrec _ _ eq_refl) as [cb Hcb]. by apply (channelAnswers_spec _ _ _ _ _ _ _ _ cb (Hu _ eq_refl) s (conj Hcb Hr)).
  - by apply (awaitPublishReply_spec _ _ _ _ _ _ s Hr).
  - exact (registrationAnswers_spec _ _ f displaced s Hr).
Qed.

(** A new coroutine. *)
Lemma newThreadRequest_ok (k : Z -> M Thread (list ThreadEvent)) s :
  (forall rid m, spec (fun s => thread_ok s /\ running (Some rid) m None None s) (k rid) (fun _ s => thread_ok s)) ->
  thread_ok s -> exists evs s', newThreadRequest k s = Some (evs, s') /\ thread_ok s'.
Proof.
  intros Hk [m [Hc Hm Hn]]. cbn in Hm. subst m. unfold newThreadRequest. set (s1 := mkThread _ _ _ _ _).
  assert (Hc1 : core (th_frames s) None None s1) by (destruct Hc; by split).
  assert (Hn1 : forall rid fr, th_frames s !! rid = Some fr -> rid < th_nextRequest s1) by (intros rid fr H%Hn; cbn; lia).
  assert (Hdel : delete (th_nextRequest s) (th_frames s) = th_frames s).
  { apply delete_id, eq_None_not_Some. intros [fr H%Hn]. lia. }
  apply (Hk _ (th_frames s)). split; [by exists (th_frames s)|]. split; [done|split; [exact Hdel|cbn; lia]|done].
Qed.

Lemma threadStep_ok op s : thread_ok s -> threadOp_ok op -> replaysToNobody op s = false ->
  exists evs s', threadStep allowedNamespacePrefix_ op s = Some (evs, s') /\ thread_ok s'.
Proof.
  intros Hok Hop Hnb.
  assert (Hkeep : forall k : M Thread (list ThreadEvent), (forall m, spec (running None m None None) k (fun _ s => running None m None None s)) ->
    exists evs s', k s = Some (evs, s') /\ thread_ok s').
  { intros k Hk. destruct Hok as [m Hr]. destruct (Hk m s Hr) as (a & s' & E & H). eexists _, _. split; [exact E|]. by exists m. }
  assert (Hres : forall rid, (forall r attach en, op = TAttached r attach en -> r = rid) ->
    exists evs s', resumeOp rid op s = Some (evs, s') /\ thread_ok s').
  { intros rid Hsame. unfold resumeOp, mbind, M_bind. cbn. destruct (th_frames s !! rid) eqn:E; [|by eexists _, _].
    by apply resumeFrame_ok. }
  destruct op; cbn [threadStep]; try (apply Hres; by intros ? ? ? [= ->]).
  - apply newThreadRequest_ok; [|done]. intros rid m. eapply spec_conseq; [by apply localSubscribe_spec|by intros ? [_ ?]|done].
  - apply newThreadRequest_ok; [|done]. intros rid m. eapply spec_conseq; [by apply localFetch_spec|by intros ? [_ ?]|done].
  - apply newThreadRequest_ok; [|done]. intros rid m. by apply publishFromPublisherExec_spec.
  - apply newThreadRequest_ok; [|done]. intros rid m. eapply spec_conseq; [apply addSubscriberAndPublish_spec|by intros ? [_ ?]|done].
  - apply newThreadRequest_ok; [|done]. intros rid m. apply attachFirst_spec.
  - apply Hkeep. intros m. apply attachLater_spec.
  - apply Hkeep. intros m. apply onEmpty_spec.
  - apply Hkeep. intros m. apply publishDone_spec.
  - apply Hkeep. intros m. apply forwardChanged_spec.
  - apply Hkeep. intros m. apply newGroupRequested_spec.
Qed.

(** The one step that aborts. *)
Lemma replaysToNobody_aborts op s : thread_ok s -> replaysToNobody op s = true -> threadStep allowedNamespacePrefix_ op s = None.
Proof.
  intros Hok. unfold replaysToNobody. destruct op; try done. destruct (th_frames s !! rid) as [fr|] eqn:Hf; [|done]. destruct fr; try done.
  destruct (th_callbacks s !! cl_forwarder claim) as [[f [cb|]]|] eqn:Hcb; try done.
  intros [[Hsaw%negb_true_iff Hun]%andb_true_iff Hrep]%andb_true_iff. unfold unreached in Hun. rewrite !andb_true_iff in Hun.
  destruct Hun as [[Hun1%bool_decide_eq_true Hun2%bool_decide_eq_true] Hun3%bool_decide_eq_true].
  destruct (resumed_running rid _ s Hok Hf) as (Hr & _). cbn [threadStep]. unfold resumeOp, mbind, M_bind. cbn -[attachAnswers].
  rewrite Hf. cbn [resumeFrame]. unfold attachAnswers, pendingCbOf, mbind, M_bind. cbn -[onRegistry setInitialState].
  rewrite Hcb. cbn -[onRegistry setInitialState]. rewrite Hsaw, Hun1, Hun2, Hun3.
  destruct (setInitialState_spec (Some rid) _ claim None s Hr) as (x' & s1 & E1 & _). rewrite E1.
  unfold replayPendingFowarderEvents, mbind, M_bind. cbn. unfold replays in Hrep.
  destruct (lastForward_ cb) as [b|]; [destruct (eqb b forward); cbn in *|]; try done; by destruct (maxGroup_ cb).
Qed.
Lemma threadRun_thread_ok ops : forall s evs s', thread_ok s -> Forall threadOp_ok ops ->
  threadRun allowedNamespacePrefix_ ops s = Some (evs, s') -> thread_ok s'.
Proof.
  induction ops as [|op ops IH]; intros s evs s' Hok Hops; cbn [threadRun]; [by intros [= _ <-]|].
  apply Forall_cons in Hops as [Hop Hops]. unfold mbind, M_bind. destruct (replaysToNobody op s) eqn:Hnb.
  { by rewrite replaysToNobody_aborts. }
  destruct (threadStep_ok op s Hok Hop Hnb) as (evs1 & s1 & E1 & H1). rewrite E1.
  destruct (threadRun _ ops s1) as [[evs2 s2]|] eqn:E2; [|done]. intros [= _ <-]. by apply (IH s1 evs2 s2).
Qed.
Lemma threadRun_aborts ops : forall s, thread_ok s -> Forall threadOp_ok ops -> threadRun allowedNamespacePrefix_ ops s = None ->
  exists before op after evs s', ops = before ++ op :: after /\
    threadRun allowedNamespacePrefix_ before s = Some (evs, s') /\ replaysToNobody op s' = true.
Proof.
  induction ops as [|op ops IH]; intros s Hok Hops; cbn [threadRun]; [done|].
  apply Forall_cons in Hops as [Hop Hops]. unfold mbind, M_bind. destruct (replaysToNobody op s) eqn:Hnb; [by exists [], op, ops, [], s|].
  destruct (threadStep_ok op s Hok Hop Hnb) as (evs1 & s1 & E1 & H1). rewrite E1.
  destruct (threadRun _ ops s1) as [[evs2 s2]|] eqn:E2; [done|]. intros _.
  destruct (IH s1 H1 Hops E2) as (before & op' & after & evs & s' & -> & E3 & Hb).
  exists (op :: before), op', after, (evs1 ++ evs), s'. cbn [threadRun]. unfold mbind, M_bind. by rewrite E1, E3.
Qed.

Lemma threadRun_app before after s :
  threadRun allowedNamespacePrefix_ (before ++ after) s =
  match threadRun allowedNamespacePrefix_ before s with
  | Some (evs, s') => match threadRun allowedNamespacePrefix_ after s' with Some (evs', s'') => Some (evs ++ evs', s'') | None => None end
  | None => None
  end.
Proof.
  revert s. induction before as [|op before IH]; intros s; cbn [app threadRun].
  - cbn. by destruct (threadRun _ after s) as [[? ?]|].
  - unfold mbind, M_bind. destruct (threadStep _ op s) as [[e1 s1]|]; [|done]. rewrite IH.
    destruct (threadRun _ before s1) as [[e2 s2]|]; [|done]. cbn. destruct (threadRun _ after s2) as [[e3 s3]|]; [|done].
    cbn. by rewrite app_assoc.
Qed.

(** (C15) The coroutines of an I/O thread over any interleaving of SUBSCRIBEs, joining
    FETCHes, PUBLISHes, fan-outs and the publisher's side of subscribes with the
    callbacks of the forwarders, whatever the other executors answer and whenever
    a coroutine is cancelled.  The run aborts exactly if the relay's executor
    answers a setup with neither an error, nor a direct subscription, nor a channel
    subscriber, while the setup has recorded a forward change or a group request,
    which is then told to a null callback.  Otherwise, at its end a track whose
    setup is pending has a suspended coroutine that holds the claim of its
    forwarder, so it will be settled or given up; a SUBSCRIBE or FETCH that waits
    for a setup waits for the promise of its track, as long as that is open; and
    when no coroutine holds a claim or a ticket the registry can be destroyed. *)
Theorem local_setup_safe (ops : list ThreadOp) : Forall threadOp_ok ops ->
  (threadRun allowedNamespacePrefix_ ops newThread = None <->
     exists before op after evs s, ops = before ++ op :: after /\
       threadRun allowedNamespacePrefix_ before newThread = Some (evs, s) /\ replaysToNobody op s = true) /\
  forall evs s, threadRun allowedNamespacePrefix_ ops newThread = Some (evs, s) ->
    let r := tlForwarders_ s in
    (forall f p, lookupState f r = Pending p -> exists (rid : Z) fr (c : Claim), th_frames s !! rid = Some fr /\ frameClaim fr = Some c /\
       cl_ftn c = f /\ getForEviction f r = Some (cl_forwarder c)) /\
    (forall (rid : Z) fr f p, th_frames s !! rid = Some fr -> frameWaits fr = Some (f, p) ->
       heap (ready_ r) !! p = Some Unfulfilled -> lookupState f r = Pending p) /\
    ((forall (rid : Z) fr, th_frames s !! rid = Some fr -> frameClaim fr = None /\ frameTicket fr = None) ->
       destroyRegistry r = true).
Proof.
  intros Hops. split.
  { split; [by apply threadRun_aborts; [apply newThread_ok|]|]. intros (before & op & after & evs & s & -> & E & Hb).
    apply Forall_app in Hops as [Hops _]. assert (Hok := threadRun_thread_ok before newThread evs s newThread_ok Hops E).
    rewrite threadRun_app, E. cbn [threadRun]. unfold mbind, M_bind. by rewrite replaysToNobody_aborts. }
  intros evs s E. assert (Hrun := threadRun_thread_ok ops newThread evs s newThread_ok Hops E). destruct Hrun as (m & [Hc Hm _]).
  cbn in Hm. subst m. cbv zeta. destruct (co_local _ _ _ _ Hc) as (l & tl & Hok & Hl & Htl). split_and!.
  - intros f p. unfold lookupState, stateOf, getForEviction. destruct (forwarders_ _ !! f) as [e|] eqn:Ef; [|done].
    destruct (le_ready e) as [p'|] eqn:Ep; [|done]. intros _.
    destruct (lk_claimed _ Hok f (le_forwarder e)) as (c & Hin & Hcf & Hcw); [by exists e, p'|].
    apply Hl in Hin as [?|(rid & fr & Hfr & Hx)]; [done|]. exists rid, fr, c. cbn. by rewrite Hcw.
  - intros rid fr f p Hf Hw Hu. destruct (co_waits _ _ _ _ Hc rid fr f p Hf Hw) as [_ H].
    destruct (H Hu) as (e & He & Hp). unfold lookupState, stateOf. by rewrite He, Hp.
  - intros Hnone. unfold destroyRegistry. apply andb_true_iff. split; apply bool_decide_eq_true.
    + intros f e Hf. destruct (le_ready e) as [p|] eqn:Ep; [|done].
      destruct (lk_claimed _ Hok f (le_forwarder e)) as (c & Hin & _); [by exists e, p|].
      apply Hl in Hin as [?|(rid & fr & Hfr & Hx)]; [done|]. destruct (Hnone rid fr Hfr). congruence.
    + intros f l' Hl'. destruct (lk_parked _ Hok f l' Hl') as (Hne & _). destruct l' as [|x l']; [done|].
      assert (Hin : (f, x) ∈ tl) by (apply (lk_tickets _ Hok); exists (x :: l'); split; [done|by left]).
      apply Htl in Hin as [?|(rid & fr & Hfr & Hx)]; [done|]. destruct (Hnone rid fr Hfr). congruence.
Qed.

(** ** What happens during a setup *)
Inductive SetupEvent := SForward (forward : bool) | SNewGroup (group : Z).
Definition setupOp (w : fref) (e : SetupEvent) : ThreadOp :=
  match e with SForward b => TForward w b | SNewGroup g => TNewGroup w g end.
(** Whether the subscribers of the forwarder want objects, at the end. *)
Definition wanted (forward : bool) (es : list SetupEvent) : bool :=
  foldl (fun b e => match e with SForward b' => b' | SNewGroup _ => b end) forward es.
(** The greatest group that was asked for. *)
Definition askedGroup (es : list SetupEvent) : option Z :=
  foldl (fun o e => match e with SForward _ => o | SNewGroup g => Some (Z.max (default 0 o) g) end) None es.

(** What the channel subscriber has been told. *)
Definition toldForward (ch : Z) (forward : bool) (evs : list ThreadEvent) : bool :=
  foldl (fun b e => match e with TellsForward (ToChannel c) b' => if c =? ch then b' else b | _ => b end) forward evs.
Definition toldGroup (ch : Z) (evs : list ThreadEvent) : option Z :=
  foldl (fun o e => match e with TellsNewGroup (ToChannel c) g => if c =? ch then Some g else o | _ => o end) None evs.

Definition recordEvent (cb : PendingForwarderCallback) (e : SetupEvent) : PendingForwarderCallback :=
  match e with SForward b => pending_forwardChanged b cb | SNewGroup g => pending_newGroupRequested g cb end.

Lemma setupEvents_run w f es : forall s cb, th_callbacks s !! w = Some (f, PendingCb cb) ->
  exists s', threadRun allowedNamespacePrefix_ (map (setupOp w) es) s = Some ([], s') /\
    th_callbacks s' !! w = Some (f, PendingCb (foldl recordEvent cb es)) /\
    th_frames s' = th_frames s /\ tlForwarders_ s' = tlForwarders_ s.
Proof.
  induction es as [|e es IH]; intros s cb Hcb; [by exists s|]. cbn [map threadRun foldl].
  destruct (IH (set_callbacks (<[w := (f, PendingCb (recordEvent cb e))]> (th_callbacks s)) s) (recordEvent cb e))
    as (s' & E & H); [apply lookup_insert_eq|].
  exists s'. split; [|exact H]. unfold mbind, M_bind.
  assert (threadStep allowedNamespacePrefix_ (setupOp w e) s =
    Some ([], set_callbacks (<[w := (f, PendingCb (recordEvent cb e))]> (th_callbacks s)) s)) as ->; [|by rewrite E].
  destruct e; cbn [setupOp threadStep]; unfold forwardChanged, newGroupRequested, mbind, M_bind; cbn; by rewrite Hcb.
Qed.

Lemma recorded_cb es : forall cb, let cb' := foldl recordEvent cb es in
  (forall forward, default forward (lastForward_ cb') = wanted (default forward (lastForward_ cb)) es) /\
  maxGroup_ cb' = foldl (fun o e => match e with SForward _ => o | SNewGroup g => Some (Z.max (default 0 o) g) end) (maxGroup_ cb) es /\
  sawOnEmpty_ cb' = sawOnEmpty_ cb.
Proof.
  induction es as [|e es IH]; intros cb; [done|]. cbn [foldl]. destruct (IH (recordEvent cb e)) as (H1 & H2 & H3).
  split_and!; [|rewrite H2; by destruct e|rewrite H3; by destruct e]. intros forward. rewrite H1. by destruct e.
Qed.

(** The events of the answer to a setup that has reached its publisher. *)
Lemma attachAnswers_events rid q session x forward attach en ch cb s evs s' :
  pa_error attach = None -> pa_directPublisherSub attach = None -> pa_finalCallback attach = Some ch ->
  th_callbacks s !! cl_forwarder x = Some (sq_fullTrackName q, PendingCb cb) -> sawOnEmpty_ cb = false ->
  attachAnswers rid q session x forward attach en s = Some (evs, s') ->
  exists rest, evs = (match lastForward_ cb with Some b => if eqb b forward then [] else [TellsForward (ToChannel ch) b] | None => [] end) ++
      (match maxGroup_ cb with Some g => [TellsNewGroup (ToChannel ch) g] | None => [] end) ++ rest /\
    Forall (fun e => match e with TellsForward _ _ | TellsNewGroup _ _ => False | _ => True end) rest /\
    LReplied rid session (LAttached (cl_forwarder x)) ∈ rest.
Proof.
  intros He Hd Hf Hcb Hsaw. unfold attachAnswers, pendingCbOf, mbind, M_bind. cbn -[setInitialState markReady].
  rewrite Hcb. cbn -[setInitialState markReady]. rewrite Hsaw, He, Hd, Hf. cbn -[setInitialState markReady].
  destruct (onRegistry (setInitialState x) s) as [[x1 s1]|]; [|done].
  unfold replayPendingFowarderEvents, mbind, M_bind. cbn -[setInitialState markReady].
  set (e1 := match lastForward_ cb with Some b => if eqb b forward then [] else _ | None => [] end).
  set (e2 := match maxGroup_ cb with Some g => _ | None => [] end).
  intros H.
  assert (Hev : exists s2, match onRegistry (markReady x1) s2 with
    | Some (_, s3) => Some ((e1 ++ e2) ++ AppliesInitial session (pa_initial attach) ::
        (if te_attached en then [LTriesNewGroup (cl_forwarder x)] else []) ++ fillEvents (cl_forwarder x) q ++
        [LReplied rid session (LAttached (cl_forwarder x))], set_threadFrames (delete rid (th_frames s3)) s3)
    | None => None end = Some (evs, s')).
  { exists (set_callbacks (<[cl_forwarder x := (sq_fullTrackName q, LocalCb (mkLocalCb (ToChannel ch) true false))]> (th_callbacks s1)) s1).
    rewrite <- H. unfold e1, e2.
    destruct (lastForward_ cb) as [b|]; [destruct (eqb b forward)|]; destruct (maxGroup_ cb); cbn -[markReady];
      by destruct (onRegistry (markReady x1) _) as [[? ?]|]. }
  destruct Hev as [s2 Hev]. destruct (onRegistry (markReady x1) s2) as [[? s3]|]; [|done]. injection Hev as <- _.
  eexists. split; [rewrite <- app_assoc; reflexivity|]. split.
  - constructor; [done|]. apply Forall_app. split; [by destruct (te_attached en); repeat constructor|].
    apply Forall_app. split; [|by repeat constructor]. unfold fillEvents. by destruct (sq_fill q); repeat constructor.
  - right. apply elem_of_app. right. apply elem_of_app. right. by left.
Qed.

Lemma toldForward_app ch forward evs evs' : toldForward ch forward (evs ++ evs') = toldForward ch (toldForward ch forward evs) evs'.
Proof. apply foldl_app. Qed.

Lemma quiet_told ch forward rest :
  Forall (fun e => match e with TellsForward _ _ | TellsNewGroup _ _ => False | _ => True end) rest ->
  toldForward ch forward rest = forward /\ forall o, foldl (fun o e => match e with TellsNewGroup (ToChannel c) g => if c =? ch then Some g else o | _ => o end) o rest = o.
Proof. induction 1 as [|e rest He _ [IH1 IH2]]; [done|]. by destruct e; cbn. Qed.

(** (C26) Nothing that happens to a forwarder while it is set up is lost.  When the
    setup of a SUBSCRIBE has reached its publisher, after any changes of what the
    subscribers of the local forwarder want, the channel subscriber, which was
    created with the state at the start of the setup, has been told whether they
    want objects now and, if a group was asked for, the greatest one; and the
    SUBSCRIBE is accepted. *)
Theorem setup_events_replayed (ops : list ThreadOp) evs0 s (rid : Z) q session (c : Claim) forward f (es : list SetupEvent) attach en ch :
  Forall threadOp_ok ops -> threadRun allowedNamespacePrefix_ ops newThread = Some (evs0, s) ->
  th_frames s !! rid = Some (AwaitsAttach q session c forward) ->
  th_callbacks s !! cl_forwarder c = Some (f, PendingCb newPendingCb) ->
  pa_error attach = None -> pa_directPublisherSub attach = None -> pa_finalCallback attach = Some ch ->
  exists evs s', threadRun allowedNamespacePrefix_ (map (setupOp (cl_forwarder c)) es ++ [TAttached rid attach en]) s = Some (evs, s') /\
    toldForward ch forward evs = wanted forward es /\ toldGroup ch evs = askedGroup es /\
    LReplied rid session (LAttached (cl_forwarder c)) ∈ evs.
Proof.
  intros Hops Hrun Hfr Hcb He Hd Hfin. assert (Hok := threadRun_thread_ok ops newThread evs0 s newThread_ok Hops Hrun).
  assert (Hf : f = sq_fullTrackName q).
  { destruct (resumed_running rid _ s Hok Hfr) as (_ & _ & Hrec & _). destruct (Hrec _ _ eq_refl) as [cb' H]. congruence. }
  subst f. destruct (setupEvents_run (cl_forwarder c) _ es s newPendingCb Hcb) as (s1 & E1 & Hcb1 & Hfr1 & _).
  assert (Hok1 : thread_ok s1).
  { eapply threadRun_thread_ok; [exact Hok| |exact E1]. apply Forall_fmap, Forall_true. by intros []. }
  destruct (threadStep_ok (TAttached rid attach en) s1 Hok1) as (evs & s2 & E2 & _); [done| |].
  { unfold replaysToNobody. rewrite Hfr1, Hfr, Hcb1. unfold unreached. rewrite Hfin. cbn. by rewrite !andb_false_r. }
  assert (Hall : threadRun allowedNamespacePrefix_ (map (setupOp (cl_forwarder c)) es ++ [TAttached rid attach en]) s = Some (evs, s2)).
  { clear -E1 E2. revert s E1. induction es as [|e es IH]; intros s E1; cbn [map app threadRun] in *.
    - injection E1 as <-. unfold mbind, M_bind. rewrite E2. cbn. by rewrite app_nil_r.
    - unfold mbind, M_bind in *. destruct (threadStep _ (setupOp _ e) s) as [[a s3]|]; [|done].
      destruct (threadRun _ (map _ es) s3) as [[b s4]|] eqn:E3; [|done]. injection E1 as Hab <-.
      apply app_eq_nil in Hab as [-> ->]. by rewrite (IH s3 E3). }
  exists evs, s2. split; [exact Hall|]. cbn [threadStep] in E2. unfold resumeOp, mbind, M_bind in E2. cbn in E2.
  rewrite Hfr1, Hfr in E2. cbn [resumeFrame] in E2.
  destruct (recorded_cb es newPendingCb) as (Hlast & Hmax & Hsaw).
  destruct (attachAnswers_events _ _ _ _ _ _ _ ch _ _ _ _ He Hd Hfin Hcb1 Hsaw E2) as (rest & -> & Hrest & Hin).
  destruct (quiet_told ch (wanted forward es) rest Hrest) as [Hq1 Hq2]. specialize (Hlast forward). cbn in Hlast.
  split_and!; [| |rewrite !elem_of_app; by right; right].
  - rewrite !toldForward_app. rewrite <- Hq1. f_equal. rewrite <- Hlast.
    destruct (lastForward_ _) as [b|]; [|by destruct (maxGroup_ _)]. cbn.
    destruct (eqb b forward) eqn:Eb; cbn; rewrite ?Z.eqb_refl; [apply eqb_prop in Eb as ->|]; by destruct (maxGroup_ _).
  - unfold toldGroup. rewrite !foldl_app. unfold askedGroup. rewrite Hq2. rewrite Hmax. cbn [maxGroup_ newPendingCb].
    assert (Hn : foldl (fun o e => match e with TellsNewGroup (ToChannel c0) g => if c0 =? ch then Some g else o | _ => o end) None
      (match lastForward_ (foldl recordEvent newPendingCb es) with Some b => if eqb b forward then [] else [TellsForward (ToChannel ch) b] | None => [] end) = @None Z).
    { destruct (lastForward_ _) as [b|]; [|done]. by destruct (eqb b forward). }
    rewrite Hn. destruct (foldl _ None es); cbn; [by rewrite Z.eqb_refl|done].
Qed.
End thread.

(** ** A setup that finds no publisher *)
Section unreached.
Context {SA : SessionApi} {RA : RequestApi}.
Context (allowedNamespacePrefix_ : list string).

(** The tail of a setup whose entry is still pending under its claim. *)
Lemma unreached_tail rid q session c forward p en s :
  cl_engaged c = true -> cl_ftn c = sq_fullTrackName q ->
  findPendingOwnedBy (sq_fullTrackName q) (cl_forwarder c) (tlForwarders_ s) = Some p ->
  heap (ready_ (tlForwarders_ s)) !! p = Some Unfulfilled ->
  th_callbacks s !! cl_forwarder c = Some (sq_fullTrackName q, PendingCb newPendingCb) ->
  exists evs s', attachAnswers rid q session c forward noAttachment en s = Some (evs, s') /\
    LReplied rid session (LAttached (cl_forwarder c)) ∈ evs /\
    getIfReady (sq_fullTrackName q) (tlForwarders_ s') = Some (cl_forwarder c) /\ th_callbacks s' !! cl_forwarder c = None.
Proof.
  intros He Hf Hp Hu Hcb. unfold attachAnswers, pendingCbOf, mbind, M_bind. cbn -[onRegistry]. rewrite Hcb. cbn -[onRegistry].
  unfold onRegistry, setInitialState, mbind, M_bind. rewrite He. cbn. unfold markReady, registry_markReady, mbind, M_bind. cbn.
  unfold findPendingOwnedBy in *. cbn. rewrite Hf. rewrite Hp. cbn. unfold fulfilReady, fulfil. cbn. rewrite Hu.
  cbn. eexists _, _. split; [reflexivity|]. split_and!.
  - right. rewrite !elem_of_app. right. right. by left.
  - unfold getIfReady. cbn. by rewrite lookup_insert_eq.
  - cbn. apply lookup_delete_eq.
Qed.

(** (C38) A SUBSCRIBE can be accepted that nobody serves.  When a later subscriber of
    a track is resumed and the entry that is now under its name is one whose first
    SUBSCRIBE is still in flight (the one it waited for has gone), the relay's
    executor answers neither with an error nor with a publisher; the subscriber's
    thread takes that for success: the SUBSCRIBE is accepted on a local forwarder
    that is fed by nobody, has no callback and is ready, so that later SUBSCRIBEs
    of the thread join it; and when a subscriber has changed its forward state in
    the meantime the thread dereferences the missing callback. *)
Theorem setup_without_publisher (getExecutor : Session -> Z) (relay : Relay) future e
    (ops : list ThreadOp) evs0 s (rid : Z) q session (c : Claim) forward p en :
  heap (promises (theRegistry relay)) !! future = Some Value ->
  subscriptions_ (theRegistry relay) !! sq_fullTrackName q = Some e -> rs_upstream e = None ->
  Forall threadOp_ok ops -> threadRun allowedNamespacePrefix_ ops newThread = Some (evs0, s) ->
  th_frames s !! rid = Some (AwaitsAttach q session c forward) ->
  lookupState (sq_fullTrackName q) (tlForwarders_ s) = Pending p ->
  getForEviction (sq_fullTrackName q) (tlForwarders_ s) = Some (cl_forwarder c) ->
  th_callbacks s !! cl_forwarder c = Some (sq_fullTrackName q, PendingCb newPendingCb) ->
  (exists sr, joinSubsequent getExecutor q session future relay = Some (Prepared sr, relay) /\
     attachNewLocalForwarderOnRelayExec sr = inl noAttachment) /\
  (exists evs s', threadStep allowedNamespacePrefix_ (TAttached rid noAttachment en) s = Some (evs, s') /\
     LReplied rid session (LAttached (cl_forwarder c)) ∈ evs /\
     getIfReady (sq_fullTrackName q) (tlForwarders_ s') = Some (cl_forwarder c) /\ th_callbacks s' !! cl_forwarder c = None) /\
  threadRun allowedNamespacePrefix_ [TForward (cl_forwarder c) (negb forward); TAttached rid noAttachment en] s = None.
Proof.
  intros Hv He Hup Hops Hrun Hfr Hlk Hev Hcb.
  assert (Hok := threadRun_thread_ok allowedNamespacePrefix_ ops newThread evs0 s newThread_ok Hops Hrun).
  assert (Hent : exists en0, forwarders_ (tlForwarders_ s) !! sq_fullTrackName q = Some en0 /\ le_ready en0 = Some p /\ le_forwarder en0 = cl_forwarder c).
  { unfold lookupState, stateOf, getForEviction in *. destruct (forwarders_ _ !! _) as [en0|]; [|done]. exists en0.
    injection Hev as Hw. destruct (le_ready en0); [|done]. by injection Hlk as ->. }
  destruct Hent as (en0 & Hen0 & Hr0 & Hw0).
  assert (Hclaim : cl_engaged c = true /\ cl_ftn c = sq_fullTrackName q /\ heap (ready_ (tlForwarders_ s)) !! p = Some Unfulfilled).
  { destruct Hok as [m [Hc Hm _]]. cbn in Hm. subst m. destruct (co_local _ _ _ _ Hc) as (l & tl & Hl0 & Hl & _).
    assert (Hin : c ∈ l) by (apply Hl; right; by exists rid, (AwaitsAttach q session c forward)).
    destruct (lk_claimed _ Hl0 (sq_fullTrackName q) (cl_forwarder c)) as (c' & Hc' & Hf' & Hw'); [by exists en0, p|].
    assert (c' = c) as -> by (by apply (lk_unique _ Hl0)). split_and!; [apply (lk_engaged _ Hl0 c Hin)|done|].
    exact (tb_promise _ _ (lk_table _ Hl0) _ _ _ Hen0 Hr0). }
  destruct Hclaim as (Heng & Hftn & Hheap).
  assert (Hfp : findPendingOwnedBy (sq_fullTrackName q) (cl_forwarder c) (tlForwarders_ s) = Some p).
  { unfold findPendingOwnedBy. rewrite Hen0. cbn. rewrite Hr0. cbn. by rewrite Hw0, Z.eqb_refl. }
  split_and!.
  - exists (mkStateful None None None). split; [|done]. unfold joinSubsequent, mbind, M_bind. cbn. unfold awaitSubsequent. rewrite Hv, He.
    unfold excludedFromSubscription, upstreamSessionId, getUpstreamView. rewrite He. cbn. rewrite Hup. cbn. unfold excludesSource.
    by destruct (negotiatedRelayHops session).
  - cbn [threadStep]. unfold resumeOp, mbind, M_bind. cbn -[attachAnswers]. rewrite Hfr. cbn [resumeFrame].
    by eapply unreached_tail.
  - cbn [threadRun threadStep]. unfold forwardChanged, resumeOp, mbind, M_bind. cbn -[attachAnswers]. rewrite Hcb. cbn -[attachAnswers].
    rewrite Hfr. cbn [resumeFrame]. unfold attachAnswers, pendingCbOf, mbind, M_bind. cbn -[onRegistry]. rewrite lookup_insert_eq.
    cbn -[onRegistry]. unfold onRegistry, setInitialState, mbind, M_bind. rewrite Heng. cbn. by destruct forward.
Qed.
End unreached.

(** ** Example
    The track of [RelayRequestsTheorems], two SUBSCRIBEs on one thread. *)
#[local] Existing Instance exampleSessions.
#[local] Existing Instance exampleCodec.
#[local] Existing Instance exampleRequests.

Definition aThreadEnv : ThreadEnv := mkThreadEnv anEnv (fun _ => true) (fun _ => false) true.
Definition setupOps : list ThreadOp := [TSubscribe (aSubscribe []) 3 aThreadEnv; TSubscribe (aSubscribe []) 4 aThreadEnv].
Definition afterSetup : list ThreadEvent * Thread := default ([], newThread) (threadRun [] setupOps newThread).
Definition anAttachment : PublisherAttachment := mkAttachment true false (Some 8) None None None.

Lemma local_setup_safe_witness :
  (exists (rid : Z) fr c, th_frames afterSetup.2 !! rid = Some fr /\ frameClaim fr = Some c /\ cl_ftn c = aTrack) /\
  threadRun [] (setupOps ++ [TForward 0 false; TAttached 0 noAttachment aThreadEnv]) newThread = None.
Proof.
  split.
  - assert (Hok : Forall threadOp_ok setupOps) by (repeat constructor; done).
    assert (Hrun : threadRun [] setupOps newThread = Some (afterSetup.1, afterSetup.2)) by (vm_compute; reflexivity).
    assert (Hl : lookupState aTrack (tlForwarders_ afterSetup.2) = Pending 0) by (vm_compute; reflexivity).
    destruct (proj2 (local_setup_safe [] setupOps Hok) afterSetup.1 afterSetup.2 Hrun) as (Hp & _).
    destruct (Hp aTrack 0 Hl) as (rid & fr & c & H1 & H2 & H3 & _). exists rid, fr, c. exact (conj H1 (conj H2 H3)).
  - assert (Hok : Forall threadOp_ok (setupOps ++ [TForward 0 false; TAttached 0 noAttachment aThreadEnv])) by (repeat constructor; done).
    apply (proj2 (proj1 (local_setup_safe [] _ Hok))).
    set (r := default ([], newThread) (threadRun [] (setupOps ++ [TForward 0 false]) newThread)).
    exists (setupOps ++ [TForward 0 false]), (TAttached 0 noAttachment aThreadEnv), [], r.1, r.2.
    split; [reflexivity|]. split; vm_compute; reflexivity.
Defined.

Lemma setup_events_replayed_witness :
  exists evs s', threadRun [] (map (setupOp 0) [SForward false; SNewGroup 7; SForward true; SNewGroup 5; SForward false] ++
      [TAttached 0 anAttachment aThreadEnv]) afterSetup.2 = Some (evs, s') /\
    toldForward 8 true evs = false /\ toldGroup 8 evs = Some 7.
Proof.
  destruct (setup_events_replayed [] setupOps afterSetup.1 afterSetup.2 0 (aSubscribe []) 3 (mkClaim true aTrack 0 false) true aTrack
    [SForward false; SNewGroup 7; SForward true; SNewGroup 5; SForward false] anAttachment aThreadEnv 8)
    as (evs & s' & H1 & H2 & H3 & _);
    [repeat constructor; done|vm_compute; reflexivity|vm_compute; reflexivity|vm_compute; reflexivity|reflexivity..|].
  exists evs, s'. exact (conj H1 (conj H2 H3)).
Defined.

(** The relay: the second SUBSCRIBE waits for the first, which completes; the
    publisher's namespace is taken over by another session, which drops the entry,
    and a third SUBSCRIBE goes upstream. *)
Definition relayOps : list RegOp :=
  [OpSubscribe aTrack (Some 2) 0; OpSubscribe aTrack (Some 2) 0; OpComplete (mkInFlight aTrack 1 2) 50 9 (Some 2);
   OpDropFrom ["live"] 2; OpSubscribe aTrack (Some 3) 0].
Definition theRelay : Relay :=
  foldl (fun s op => match regStep LocalForwarder 5 true (fun s => s + 10) op s with Some (_, s') => s' | None => newRelay end)
    newRelay relayOps.
Definition droppedEntry : RelaySubscription :=
  mkSub (RemoteRef 1 13) 2 None None 0 None 1 false (Some 1) (Some (ChainHead 1)) 0 (Some 1).

Lemma setup_without_publisher_witness :
  (exists sr, joinSubsequent (fun s => s + 10) (aSubscribe []) 3 0 theRelay = Some (Prepared sr, theRelay) /\
     attachNewLocalForwarderOnRelayExec sr = inl noAttachment) /\
  threadRun [] [TForward 0 false; TAttached 0 noAttachment aThreadEnv] afterSetup.2 = None.
Proof.
  destruct (setup_without_publisher [] (fun s => s + 10) theRelay 0 droppedEntry setupOps afterSetup.1 afterSetup.2 0 (aSubscribe []) 3
    (mkClaim true aTrack 0 false) true 0 aThreadEnv) as (H1 & _ & H2);
    [vm_compute; reflexivity|vm_compute; reflexivity|reflexivity|repeat constructor; done|vm_compute; reflexivity..|].
  exact (conj H1 H2).
Defined.
