(* ===== verification/UpstreamProvider.v ===== *)
(** The link to an upstream relay (UpstreamProvider.h, UpstreamProvider.cpp): one
    connection that is made on demand, shared by all requests, and made again
    when it is lost.

    All state is on one executor, so a coroutine runs without interruption from
    one [co_await] to the next.  A coroutine is a [Task] that stands at such a
    point; an [LinkEvent] is what lets one go on, or a call from outside.  What the
    moxygen client does is in the events: how a setup or the handshake hook ends,
    and that a session closes.  Destroying a client closes its session, which
    calls [onMoQSessionClosed] if the callback is set (the comment in
    [resetSession]).  [None] is a crash: a null pointer, an empty optional, a
    failed check. *)

From S2P Require Import Prelude Assoc.

Inductive State := Disconnected | Connecting | Connected.
#[global] Instance State_eq_dec : EqDecision State.
Proof. solve_decision. Defined.

(** [SharedPromise]: a dropped promise gives its futures an exception. *)
Inductive SharedPromise := Unfulfilled | HasValue | HasException.
#[global] Instance SharedPromise_eq_dec : EqDecision SharedPromise.
Proof. solve_decision. Defined.

(** [reconnectLoop], or a request that came when there was no session. *)
Inductive TaskKind := Loop | Request (r : Z).
(** Where a task waits: to be run, in the sleep before a new attempt, for the
    attempt of another task, in [setupMoQSession] of a client, in the hook
    [onConnect] for a session. *)
Inductive Phase := Started | Sleeping | Waiting (p : Z) | Setup (c : Z) | Hook (s : Z).
Record Task := mkTask { t_kind : TaskKind; t_phase : Phase }.

(** What the provider does to others. *)
Inductive Output :=
  | OnConnect (s : Z)
  | OnDisconnect (s : Z)
  | Forward (r s : Z)       (* the request goes to the session *)
  | Fails (r : Z)           (* the request ends with an error *)
  | Sleeps (ms : Z).
#[global] Instance Output_eq_dec : EqDecision Output.
Proof. solve_decision. Defined.

Record Upstream := mkUpstream {
  state_ : State;
  client_ : option Z;
  session_ : option Z;
  stopped_ : bool;
  hooks_ : bool;                       (* the handlers and hooks are set *)
  connectPromise_ : option Z;
  reconnectBackoff_ : Z;
  promises : gmap Z SharedPromise;
  moqSession_ : gmap Z Z;              (* of each client *)
  closeCallbacks : gset Z;             (* the sessions that call onMoQSessionClosed *)
  tasks : gmap Z Task;
  nextId : Z;
  outputs : list Output;
}.
Definition set_state x u := mkUpstream x (client_ u) (session_ u) (stopped_ u) (hooks_ u) (connectPromise_ u)
  (reconnectBackoff_ u) (promises u) (moqSession_ u) (closeCallbacks u) (tasks u) (nextId u) (outputs u).
Definition set_client x u := mkUpstream (state_ u) x (session_ u) (stopped_ u) (hooks_ u) (connectPromise_ u)
  (reconnectBackoff_ u) (promises u) (moqSession_ u) (closeCallbacks u) (tasks u) (nextId u) (outputs u).
Definition set_session x u := mkUpstream (state_ u) (client_ u) x (stopped_ u) (hooks_ u) (connectPromise_ u)
  (reconnectBackoff_ u) (promises u) (moqSession_ u) (closeCallbacks u) (tasks u) (nextId u) (outputs u).
Definition set_stopped u := mkUpstream (state_ u) (client_ u) (session_ u) true false (connectPromise_ u)
  (reconnectBackoff_ u) (promises u) (moqSession_ u) (closeCallbacks u) (tasks u) (nextId u) (outputs u).
Definition set_connectPromise x u := mkUpstream (state_ u) (client_ u) (session_ u) (stopped_ u) (hooks_ u) x
  (reconnectBackoff_ u) (promises u) (moqSession_ u) (closeCallbacks u) (tasks u) (nextId u) (outputs u).
Definition set_backoff x u := mkUpstream (state_ u) (client_ u) (session_ u) (stopped_ u) (hooks_ u) (connectPromise_ u)
  x (promises u) (moqSession_ u) (closeCallbacks u) (tasks u) (nextId u) (outputs u).
Definition set_promise p x u := mkUpstream (state_ u) (client_ u) (session_ u) (stopped_ u) (hooks_ u) (connectPromise_ u)
  (reconnectBackoff_ u) (<[p := x]> (promises u)) (moqSession_ u) (closeCallbacks u) (tasks u) (nextId u) (outputs u).
Definition set_moqSession c s u := mkUpstream (state_ u) (client_ u) (session_ u) (stopped_ u) (hooks_ u) (connectPromise_ u)
  (reconnectBackoff_ u) (promises u) (<[c := s]> (moqSession_ u)) (closeCallbacks u) (tasks u) (nextId u) (outputs u).
Definition set_callbacks x u := mkUpstream (state_ u) (client_ u) (session_ u) (stopped_ u) (hooks_ u) (connectPromise_ u)
  (reconnectBackoff_ u) (promises u) (moqSession_ u) x (tasks u) (nextId u) (outputs u).
Definition set_tasks x u := mkUpstream (state_ u) (client_ u) (session_ u) (stopped_ u) (hooks_ u) (connectPromise_ u)
  (reconnectBackoff_ u) (promises u) (moqSession_ u) (closeCallbacks u) x (nextId u) (outputs u).
Definition bump u := mkUpstream (state_ u) (client_ u) (session_ u) (stopped_ u) (hooks_ u) (connectPromise_ u)
  (reconnectBackoff_ u) (promises u) (moqSession_ u) (closeCallbacks u) (tasks u) (nextId u + 1) (outputs u).
Definition emit o u := mkUpstream (state_ u) (client_ u) (session_ u) (stopped_ u) (hooks_ u) (connectPromise_ u)
  (reconnectBackoff_ u) (promises u) (moqSession_ u) (closeCallbacks u) (tasks u) (nextId u) (outputs u ++ [o]).
Definition put_task tid t u := set_tasks (<[tid := t]> (tasks u)) u.
Definition end_task tid u := set_tasks (delete tid (tasks u)) u.

Definition newUpstream : Upstream :=
  mkUpstream Disconnected None None false true None 0 ∅ ∅ ∅ ∅ 0 [].

(** [co_withExecutor(exec, task).start()]. *)
Definition spawn (k : TaskKind) (u : Upstream) : Upstream := bump (put_task (nextId u) (mkTask k Started) u).

(** ** The end of a session *)
Definition resetSession (u : Upstream) : Upstream :=
  let u := match session_ u with
           | Some s => let u := set_callbacks (closeCallbacks u ∖ {[s]}) u in
                       if hooks_ u then emit (OnDisconnect s) u else u
           | None => u
           end in
  set_state Disconnected (set_session None u).

(** [goaway] and [onMoQSessionClosed] do the same, but for the address. *)
Definition reconnect (u : Upstream) : Upstream :=
  let u := resetSession u in
  if stopped_ u then u else spawn Loop (set_backoff 0 u).
Definition onMoQSessionClosed (s : Z) (u : Upstream) : Upstream :=
  if bool_decide (s ∈ closeCallbacks u) then reconnect (set_callbacks (closeCallbacks u ∖ {[s]}) u) else u.
Definition goaway (u : Upstream) : Upstream := reconnect u.

(** [client_ = x]: the client that was there is destroyed, and its session closed. *)
Definition destroyClient (u : Upstream) : Upstream :=
  match client_ u with
  | Some c => let u := set_client None u in
              match moqSession_ u !! c with Some s => onMoQSessionClosed s u | None => u end
  | None => u
  end.

Definition close (u : Upstream) : Upstream := set_state Disconnected (destroyClient (set_session None u)).
Definition stopOnOwner (u : Upstream) : Upstream := if stopped_ u then u else close (set_stopped u).

(** ** Connecting *)
(** How a call of [getOrConnectSession] goes on: an exception, a result (a null
    session is possible), or a wait. *)
Inductive Outcome := Throws | Returns (s : option Z) | Suspends (ph : Phase).

(** [connectPromise_.emplace()]: the promise that was there is destroyed. *)
Definition emplacePromise (u : Upstream) : Upstream :=
  let u := match connectPromise_ u with
           | Some p => if bool_decide (promises u !! p = Some Unfulfilled) then set_promise p HasException u else u
           | None => u
           end in
  bump (set_connectPromise (Some (nextId u)) (set_promise (nextId u) Unfulfilled u)).

(** [doConnect] up to its first wait. *)
Definition startConnect (u : Upstream) : Upstream * Outcome :=
  let u := destroyClient u in
  (bump (set_client (Some (nextId u)) u), Suspends (Setup (nextId u))).

Definition getOrConnectSession (u : Upstream) : option (Upstream * Outcome) :=
  if stopped_ u then Some (u, Throws)
  else match state_ u, session_ u with
  | Connected, Some s => Some (u, Returns (Some s))
  | Connecting, _ => p ← connectPromise_ u; Some (u, Suspends (Waiting p))
  | _, _ => Some (startConnect (emplacePromise (set_state Connecting u)))
  end.

(** The handler of the exception in [getOrConnectSession].  A promise that is
    fulfilled throws when it is set, here out of the handler. *)
Definition connectFailed (u : Upstream) : option (Upstream * Outcome) :=
  let u := destroyClient (set_state Disconnected u) in
  p ← connectPromise_ u;
  if bool_decide (promises u !! p = Some Unfulfilled)
  then Some (set_connectPromise None (set_promise p HasException u), Throws)
  else Some (u, Throws).

(** The end of [doConnect] in [getOrConnectSession]. *)
Definition connectDone (u : Upstream) : option (Upstream * Outcome) :=
  if stopped_ u then connectFailed u
  else
    let u := set_state Connected u in
    p ← connectPromise_ u;
    if bool_decide (promises u !! p = Some Unfulfilled)
    then Some (set_promise p HasValue u, Returns (session_ u))
    else connectFailed u.

(** [doConnect] after [setupMoQSession] has succeeded. *)
Definition setupDone (u : Upstream) : option (Upstream * Outcome) :=
  c ← client_ u;
  s ← moqSession_ u !! c;
  let u := set_callbacks (closeCallbacks u ∪ {[s]}) (set_session (Some s) u) in
  if hooks_ u then Some (emit (OnConnect s) u, Suspends (Hook s)) else connectDone u.

(** The wait for the promise of another attempt; it goes on while the promise is
    not fulfilled. *)
Definition waitDone (p : Z) (u : Upstream) : option (Upstream * Outcome) :=
  match promises u !! p with
  | Some HasValue => Some (u, match session_ u with Some s => Returns (Some s) | None => Throws end)
  | Some HasException => Some (u, Throws)
  | _ => Some (u, Suspends (Waiting p))
  end.

(** ** Tasks *)
Definition kInitialReconnectBackoff : Z := 1000.
Definition kMaxReconnectBackoff : Z := 60000.
Definition nextBackoff (b : Z) : Z := if b =? 0 then kInitialReconnectBackoff else Z.min (b * 2) kMaxReconnectBackoff.

(** A task after [getOrConnectSession] has gone as far as [o]. *)
Definition goOn (tid : Z) (k : TaskKind) (r : Upstream * Outcome) : option Upstream :=
  let '(u, o) := r in
  match o, k with
  | Suspends ph, _ => Some (put_task tid (mkTask k ph) u)
  | Returns _, Loop => Some (end_task tid (set_backoff 0 u))
  | Returns (Some s), Request q => Some (emit (Forward q s) (end_task tid u))
  | Returns None, Request _ => None
  | Throws, Loop =>
    if stopped_ u then Some (end_task tid u)
    else let b := nextBackoff (reconnectBackoff_ u) in
         Some (emit (Sleeps b) (put_task tid (mkTask Loop Sleeping) (set_backoff b u)))
  | Throws, Request q => Some (emit (Fails q) (end_task tid u))
  end.

(** The head of the loop of [reconnectLoop]. *)
Definition loopHead (tid : Z) (u : Upstream) : option Upstream :=
  if stopped_ u then Some (end_task tid u)
  else if 0 <? reconnectBackoff_ u
  then Some (emit (Sleeps (reconnectBackoff_ u)) (put_task tid (mkTask Loop Sleeping) u))
  else r ← getOrConnectSession u; goOn tid Loop r.

(** [subscribe], [fetch], [trackStatus], [subscribeNamespace], [publishNamespace]
    and [publish], which have the same two paths. *)
Definition getSession (u : Upstream) : option Z :=
  if negb (stopped_ u) && bool_decide (state_ u = Connected) then session_ u else None.
Definition request (q : Z) (u : Upstream) : option Upstream :=
  match getSession u with
  | Some s => Some (emit (Forward q s) u)
  | None =>
    let tid := nextId u in
    let u := bump u in
    r ← getOrConnectSession u;
    goOn tid (Request q) r
  end.

Definition start (u : Upstream) : Upstream := spawn Loop u.

(** ** Events *)
Inductive LinkEvent :=
  | ERequest (q : Z)
  | ERun (tid : Z)                      (* a spawned task runs *)
  | EAwake (tid : Z) (cancelled : bool) (* the sleep ends *)
  | EWoken (tid : Z) (cancelled : bool) (* the wait for a promise ends *)
  | ESetup (tid : Z) (s : option Z)     (* the session, or an exception *)
  | EHook (tid : Z) (ok : bool)
  | EClosed (s : Z)
  | EGoaway
  | EStop.

Definition atPhase (u : Upstream) (tid : Z) : option (TaskKind * Phase) := (fun t => (t_kind t, t_phase t)) <$> tasks u !! tid.

Definition step (e : LinkEvent) (u : Upstream) : option Upstream :=
  match e with
  | ERequest q => request q u
  | ERun tid => match atPhase u tid with Some (Loop, Started) => loopHead tid u | _ => Some u end
  | EAwake tid cancelled =>
    match atPhase u tid with
    | Some (Loop, Sleeping) =>
      if cancelled || stopped_ u then Some (end_task tid u) else r ← getOrConnectSession u; goOn tid Loop r
    | _ => Some u
    end
  | EWoken tid cancelled =>
    match atPhase u tid with
    | Some (k, Waiting p) =>
      r ← (if cancelled then Some (u, Throws) else waitDone p u); goOn tid k r
    | _ => Some u
    end
  | ESetup tid s =>
    match atPhase u tid with
    | Some (k, Setup c) =>
      r ← match s with Some s => setupDone (set_moqSession c s u) | None => connectFailed u end;
      goOn tid k r
    | _ => Some u
    end
  | EHook tid ok =>
    match atPhase u tid with
    | Some (k, Hook s) => r ← (if ok then connectDone u else connectFailed u); goOn tid k r
    | _ => Some u
    end
  | EClosed s => Some (onMoQSessionClosed s u)
  | EGoaway => Some (goaway u)
  | EStop => Some (stopOnOwner u)
  end.
Fixpoint run (es : list LinkEvent) (u : Upstream) : option Upstream :=
  match es with
  | [] => Some u
  | e :: es => u ← step e u; run es u
  end.

(** [waitForConnectedOnOwner]: the promise it waits for, if it waits. *)
Definition waitForConnected (u : Upstream) : option Z :=
  if stopped_ u || (bool_decide (state_ u = Connected) && bool_decide (is_Some (session_ u))) then None
  else connectPromise_ u.
