(* ===== verification/UpstreamTheorems.v ===== *)
(** The link to an upstream relay stays whole: no crash, one attempt at a time, no
    request left waiting, no connection given up, as long as sessions do not end
    in the middle of the handshake; and what happens when one does. *)

From S2P Require Import Prelude Assoc UpstreamProvider.

(** ** The state between events *)
Definition attempting (ph : Phase) : bool := match ph with Setup _ | Hook _ => true | _ => false end.
(** The task that connects, if any, is [a]; there is no other. *)
Definition attempt_is (u : Upstream) (a : option (Z * TaskKind * Phase)) : Prop :=
  forall tid k ph, (atPhase u tid = Some (k, ph) /\ attempting ph = true) <-> a = Some (tid, k, ph).
Definition settled (u : Upstream) (p : Z) : Prop := promises u !! p = Some HasValue \/ promises u !! p = Some HasException.
Definition no_promise (u : Upstream) : Prop := forall p, connectPromise_ u = Some p -> settled u p.
Definition open_promise (u : Upstream) : Prop :=
  exists p, connectPromise_ u = Some p /\ promises u !! p = Some Unfulfilled.

Inductive mode (u : Upstream) : Prop :=
  | ModeDown :
      stopped_ u = false -> state_ u = Disconnected -> session_ u = None -> closeCallbacks u = ∅ ->
      attempt_is u None -> no_promise u -> mode u
  | ModeUp c s :
      stopped_ u = false -> state_ u = Connected -> session_ u = Some s -> closeCallbacks u = {[s]} ->
      client_ u = Some c -> moqSession_ u !! c = Some s -> attempt_is u None -> no_promise u -> mode u
  | ModeSetup tid k c :
      stopped_ u = false -> state_ u = Connecting -> session_ u = None -> closeCallbacks u = ∅ ->
      client_ u = Some c -> attempt_is u (Some (tid, k, Setup c)) -> open_promise u -> mode u
  | ModeHook tid k c s :
      stopped_ u = false -> state_ u = Connecting -> session_ u = Some s -> closeCallbacks u = {[s]} ->
      client_ u = Some c -> moqSession_ u !! c = Some s -> attempt_is u (Some (tid, k, Hook s)) -> open_promise u -> mode u
  | ModeStopped :
      stopped_ u = true -> state_ u = Disconnected -> session_ u = None -> closeCallbacks u = ∅ -> client_ u = None ->
      attempt_is u None -> no_promise u -> mode u
  | ModeStopping a :
      stopped_ u = true -> state_ u = Disconnected -> session_ u = None -> closeCallbacks u = ∅ -> client_ u = None ->
      attempt_is u (Some a) -> open_promise u -> mode u.

Definition backoff_ok (b : Z) : Prop := b = 0 \/ (kInitialReconnectBackoff <= b <= kMaxReconnectBackoff).
Definition looping (u : Upstream) : Prop := exists tid ph, atPhase u tid = Some (Loop, ph).

Record core (u : Upstream) : Prop := mkCore {
  c_tasks : forall tid, is_Some (tasks u !! tid) -> tid < nextId u;
  c_promises : forall p, is_Some (promises u !! p) -> p < nextId u;
  c_wait : forall tid k p, atPhase u tid = Some (k, Waiting p) ->
    settled u p \/ (connectPromise_ u = Some p /\ promises u !! p = Some Unfulfilled);
  c_hooks : hooks_ u = negb (stopped_ u);
  c_backoff : backoff_ok (reconnectBackoff_ u);
  c_mode : mode u;
}.
Definition live (u : Upstream) : Prop := stopped_ u = false -> is_Some (session_ u) \/ looping u.

(** ** Tasks *)
Lemma atPhase_put tid t u tid' :
  atPhase (put_task tid t u) tid' = if decide (tid' = tid) then Some (t_kind t, t_phase t) else atPhase u tid'.
Proof.
  unfold atPhase, put_task. cbn. destruct (decide (tid' = tid)) as [->|H]; [by rewrite lookup_insert_eq|].
  by rewrite lookup_insert_ne.
Qed.
Lemma atPhase_end tid u tid' : atPhase (end_task tid u) tid' = if decide (tid' = tid) then None else atPhase u tid'.
Proof.
  unfold atPhase, end_task. cbn. destruct (decide (tid' = tid)) as [->|H]; [by rewrite lookup_delete_eq|].
  by rewrite lookup_delete_ne.
Qed.

(** A task that does not connect and did not connect takes no part. *)
Lemma attempt_put u a tid k ph :
  attempt_is u a -> attempting ph = false -> (forall b, a = Some b -> b.1.1 <> tid) ->
  attempt_is (put_task tid (mkTask k ph) u) a.
Proof.
  intros H Hph Hne t k' ph'. rewrite atPhase_put. cbn. destruct (decide (t = tid)) as [->|]; [|apply H].
  split; [intros [[= <- <-] E]; congruence|]. intros E. by destruct (Hne _ E).
Qed.
Lemma attempt_end u a tid : attempt_is u a -> (forall b, a = Some b -> b.1.1 <> tid) -> attempt_is (end_task tid u) a.
Proof.
  intros H Hne t k' ph'. rewrite atPhase_end. destruct (decide (t = tid)) as [->|]; [|apply H].
  split; [by intros [[=] _]|]. intros E. by destruct (Hne _ E).
Qed.
(** The task that connects goes on connecting, or stops. *)
Lemma attempt_move u a tid k ph :
  attempt_is u a -> (forall b, a = Some b -> b.1.1 = tid) -> attempting ph = true ->
  attempt_is (put_task tid (mkTask k ph) u) (Some (tid, k, ph)).
Proof.
  intros H Hne Hph t k' ph'. rewrite atPhase_put. cbn. destruct (decide (t = tid)) as [->|Ht].
  - split; [by intros [[= <- <-] _]|]. by intros [= <- <-].
  - rewrite (H t k' ph'). split; [intros E; by apply Hne in E|]. intros [= <- _ _]. done.
Qed.
Lemma attempt_put_off u a tid k ph :
  attempt_is u a -> (forall b, a = Some b -> b.1.1 = tid) -> attempting ph = false ->
  attempt_is (put_task tid (mkTask k ph) u) None.
Proof.
  intros H Hne Hph t k' ph'. rewrite atPhase_put. cbn. destruct (decide (t = tid)) as [->|Ht].
  - split; [intros [[= <- <-] E]; congruence|done].
  - rewrite (H t k' ph'). split; [intros E; by apply Hne in E|done].
Qed.
Lemma attempt_end_off u a tid : attempt_is u a -> (forall b, a = Some b -> b.1.1 = tid) -> attempt_is (end_task tid u) None.
Proof.
  intros H Hne t k' ph'. rewrite atPhase_end. destruct (decide (t = tid)) as [->|Ht]; [by split; [intros [[=] _]|]|].
  rewrite (H t k' ph'). split; [intros E; by apply Hne in E|done].
Qed.

(** ** A running task *)
(** While task [tid] runs, the invariant is that of the other tasks. *)
Definition alive (tid : Z) (k : TaskKind) (u : Upstream) : Prop :=
  stopped_ u = false -> is_Some (session_ u) \/ k = Loop \/ looping (end_task tid u).
Definition good (tid : Z) (k : TaskKind) (r : Upstream * Outcome) : Prop :=
  alive tid k r.1 /\
  match r.2 with
  | Throws => core (end_task tid r.1)
  | Returns s => core (end_task tid r.1) /\ is_Some (session_ r.1) /\ is_Some s
  | Suspends ph => core (put_task tid (mkTask k ph) r.1)
  end /\ tid < nextId r.1.

(** The same mode, for a state with the same fields. *)
Ltac remode H :=
  destruct H; cbn in *; [eapply ModeDown|eapply ModeUp|eapply ModeSetup|eapply ModeHook|eapply ModeStopped|eapply ModeStopping]; eauto.

(** Fields that the invariant of the link does not read. *)
Lemma mode_set_backoff b u : mode u -> mode (set_backoff b u).
Proof. intros H. remode H. Qed.
Lemma core_set_backoff b u : backoff_ok b -> core u -> core (set_backoff b u).
Proof. intros Hb []. constructor; try done. by apply mode_set_backoff. Qed.
Lemma mode_emit o u : mode u -> mode (emit o u).
Proof. intros H. remode H. Qed.
Lemma core_emit o u : core u -> core (emit o u).
Proof. intros []. constructor; try done. by apply mode_emit. Qed.

(** A task in a phase that does not connect may be added or changed. *)
Lemma core_put tid k ph u :
  core (end_task tid u) -> tid < nextId u -> attempting ph = false ->
  (forall p, ph = Waiting p -> settled u p \/ (connectPromise_ u = Some p /\ promises u !! p = Some Unfulfilled)) ->
  core (put_task tid (mkTask k ph) u).
Proof.
  intros [Ht Hp Hw Hh Hb Hm] Hid Hph Hwait.
  assert (Ha : forall a, attempt_is (end_task tid u) a -> attempt_is (put_task tid (mkTask k ph) u) a).
  { intros a H t k' ph'. specialize (H t k' ph'). rewrite atPhase_end in H. rewrite atPhase_put. cbn.
    destruct (decide (t = tid)) as [->|]; [|done]. rewrite <-H. split; [intros [[= <- <-] E]; congruence|by intros [[=] _]]. }
  constructor; try done.
  - intros t [x Hx]. cbn in Hx. destruct (decide (t = tid)) as [->|]; [done|]. rewrite lookup_insert_ne in Hx by done.
    apply Ht. cbn. by rewrite lookup_delete_ne.
  - intros t k' p. rewrite atPhase_put. cbn. specialize (Hw t k' p). rewrite atPhase_end in Hw.
    destruct (decide (t = tid)) as [->|]; [intros [= <- ->]; by apply Hwait|done].
  - remode Hm.
Qed.

(** ** Getting a session *)
Lemma settled_promise u p q x : settled u p -> p <> q -> settled (set_promise q x u) p.
Proof. intros H Hne. unfold settled. cbn. by rewrite !lookup_insert_ne. Qed.

Lemma connect_good tid k u :
  core (end_task tid u) -> tid < nextId u -> alive tid k u -> stopped_ u = false -> state_ u = Disconnected ->
  good tid k (startConnect (emplacePromise (set_state Connecting u))).
Proof.
  intros [Ht Hp Hw Hh Hb Hm] Hid Hal Hst Hs.
  assert (Hmode : session_ u = None /\ closeCallbacks u = ∅ /\ attempt_is (end_task tid u) None /\ no_promise u).
  { destruct Hm; cbn in *; try congruence; done. }
  destruct Hmode as (Hsess & Hcb & Hatt & Hnp).
  set (u1 := emplacePromise (set_state Connecting u)).
  assert (E1 : u1 = mkUpstream Connecting (client_ u) None false (hooks_ u) (Some (nextId u)) (reconnectBackoff_ u)
    (<[nextId u := Unfulfilled]> (promises u)) (moqSession_ u) ∅ (tasks u) (nextId u + 1) (outputs u)).
  { unfold u1, emplacePromise. clear -Hst Hsess Hcb Hnp. destruct u as [? ? ? ? ? cp ? ps ? ? ? ? ?]. cbn in *. subst.
    destruct cp as [p|]; [|done]. rewrite bool_decide_false; [done|]. cbn. by destruct (Hnp p eq_refl) as [E|E]; cbn in E; rewrite E. }
  assert (E2 : destroyClient u1 = set_client None u1).
  { rewrite E1. unfold destroyClient. cbn. destruct (client_ u) as [c|]; [|done]. cbn.
    destruct (moqSession_ u !! c) as [s|]; [|done]. unfold onMoQSessionClosed. cbn. by rewrite bool_decide_false by set_solver. }
  unfold startConnect. rewrite E2, E1. cbn. split; [|split; [|cbn; lia]].
  - intros _. cbn. destruct (Hal Hst) as [[? ?]|[->|(t & ph & H)]]; [congruence|by right; left|]. right. right. by exists t, ph.
  - constructor; cbn; try done.
    + intros t [x Hx]. destruct (decide (t = tid)) as [->|]; [lia|]. rewrite lookup_insert_ne in Hx by done.
      assert (t < nextId u); [|lia]. apply (Ht t). cbn. by rewrite lookup_delete_ne.
    + intros p [x Hx]. destruct (decide (p = nextId u)) as [->|]; [lia|]. rewrite lookup_insert_ne in Hx by done.
      assert (p < nextId u); [|lia]. by apply Hp.
    + intros t k' p H. specialize (Hw t k' p). rewrite atPhase_end in Hw. unfold atPhase in H. cbn in H.
      destruct (decide (t = tid)) as [->|]; [by rewrite lookup_insert_eq in H|]. rewrite lookup_insert_ne in H by done.
      destruct (Hw H) as [Hset|[Hc Hun]].
      * left. assert (p <> nextId u); [|unfold settled; cbn; by rewrite !lookup_insert_ne].
        assert (p < nextId u); [|lia]. apply Hp. destruct Hset as [E|E]; by rewrite E.
      * cbn in Hc, Hun. destruct (Hnp p Hc) as [E|E]; cbn in E; congruence.
    + cbn in Hh. by rewrite Hh, Hst.
    + eapply (ModeSetup _ tid k (nextId u + 1)); cbn; try done.
      * intros t k' ph'. unfold atPhase. cbn. specialize (Hatt t k' ph'). rewrite atPhase_end in Hatt.
        destruct (decide (t = tid)) as [->|].
        -- rewrite lookup_insert_eq. cbn. split; [by intros [[= <- <-] _]|]. by intros [= <- <-].
        -- rewrite lookup_insert_ne by done. unfold atPhase in Hatt. rewrite Hatt. split; [done|]. by intros [= ? _ _].
      * exists (nextId u). cbn. by rewrite lookup_insert_eq.
Qed.

Lemma getOrConnectSession_good tid k u :
  core (end_task tid u) -> tid < nextId u -> alive tid k u ->
  exists r, getOrConnectSession u = Some r /\ good tid k r.
Proof.
  intros C Hid Hal. unfold getOrConnectSession. destruct (stopped_ u) eqn:Hst; [by exists (u, Throws); split|].
  pose proof (c_mode _ C) as Hm.
  destruct Hm as [_ Hs Hn _ _ _|c s _ Hs Hn _ _ _ _ _|t k' c _ Hs Hn _ _ _ (p & Hp & Hu)|t k' c s _ Hs Hn _ _ _ _ (p & Hp & Hu)|Hx|a Hx];
    cbn in *; try congruence; rewrite Hs.
  - rewrite ?Hn. eexists. split; [done|]. by apply connect_good.
  - rewrite ?Hn. exists (u, Returns (Some s)). split; [done|]. split; [done|]. cbn. by rewrite Hn.
  - rewrite Hp. exists (u, Suspends (Waiting p)). split; [done|]. split; [done|]. split; [|done].
    apply core_put; [done..|]. intros q [= <-]. by right.
  - rewrite Hp. exists (u, Suspends (Waiting p)). split; [done|]. split; [done|]. split; [|done].
    apply core_put; [done..|]. intros q [= <-]. by right.
Qed.

(** ** The end of an attempt *)
(** The invariant without that of the link. *)
Record base (u : Upstream) : Prop := mkBase {
  b_tasks : forall tid, is_Some (tasks u !! tid) -> tid < nextId u;
  b_promises : forall p, is_Some (promises u !! p) -> p < nextId u;
  b_wait : forall tid k p, atPhase u tid = Some (k, Waiting p) ->
    settled u p \/ (connectPromise_ u = Some p /\ promises u !! p = Some Unfulfilled);
  b_hooks : hooks_ u = negb (stopped_ u);
  b_backoff : backoff_ok (reconnectBackoff_ u);
}.
Lemma core_base u : core u -> base u.
Proof. by intros []. Qed.
Lemma base_core u : base u -> mode u -> core u.
Proof. by intros [] ?. Qed.

Lemma base_end tid u : base u -> base (end_task tid u).
Proof.
  intros [Ht Hp Hw Hh Hb]. constructor; try done.
  - intros t [x Hx]. cbn in Hx. apply Ht. apply lookup_delete_Some in Hx as [_ Hx]. by exists x.
  - intros t k p. rewrite atPhase_end. destruct (decide (t = tid)); [done|apply Hw].
Qed.
Lemma base_spawn u : base u -> base (spawn Loop u).
Proof.
  intros [Ht Hp Hw Hh Hb]. constructor; try done; cbn.
  - intros t [x Hx]. destruct (decide (t = nextId u)) as [->|]; [lia|]. rewrite lookup_insert_ne in Hx by done.
    assert (t < nextId u); [|lia]. apply Ht. by exists x.
  - intros p Hx. apply Hp in Hx. lia.
  - intros t k p. change (atPhase (spawn Loop u) t) with (atPhase (put_task (nextId u) (mkTask Loop Started) u) t).
    rewrite atPhase_put. destruct (decide (t = nextId u)); [done|apply Hw].
Qed.
Lemma attempt_spawn u a : base u -> attempt_is u a -> attempt_is (spawn Loop u) a.
Proof.
  intros B H. change (attempt_is (put_task (nextId u) (mkTask Loop Started) u) a). apply attempt_put; [done|done|].
  intros [[t k] ph] ->. cbn. destruct (H t k ph) as [_ Hx]. destruct (Hx eq_refl) as [E _].
  intros ->. unfold atPhase in E. destruct (tasks u !! nextId u) eqn:Et; [|done].
  pose proof (b_tasks _ B (nextId u) (mk_is_Some _ _ Et)). lia.
Qed.
Lemma looping_spawn tid u : tid < nextId u -> looping (end_task tid (spawn Loop u)).
Proof.
  intros H. exists (nextId u), Started. rewrite atPhase_end, decide_False by lia.
  change (atPhase (spawn Loop u)) with (atPhase (put_task (nextId u) (mkTask Loop Started) u)).
  by rewrite atPhase_put, decide_True.
Qed.

(** The waiting tasks are told of the end, whatever it is. *)
Lemma base_settle u p x o :
  base u -> connectPromise_ u = Some p -> promises u !! p = Some Unfulfilled -> x <> Unfulfilled ->
  base (set_connectPromise o (set_promise p x u)).
Proof.
  intros [Ht Hp Hw Hh Hb] Hc Hu Hx. constructor; cbn; try done.
  - intros q [y Hy]. apply Hp. destruct (decide (q = p)) as [->|]; [by rewrite Hu|].
    rewrite lookup_insert_ne in Hy by done. by exists y.
  - intros t k q H. left. unfold settled. cbn. destruct (decide (q = p)) as [->|Hne].
    + rewrite lookup_insert_eq. destruct x; [done|by left|by right].
    + rewrite !lookup_insert_ne by done. destruct (Hw t k q H) as [Hs|[E _]]; [done|congruence].
Qed.

(** A failed attempt, with the session gone. *)
Lemma failed_good tid k ph u p :
  base u -> attempt_is u (Some (tid, k, ph)) -> state_ u = Disconnected -> session_ u = None -> closeCallbacks u = ∅ ->
  (stopped_ u = true -> client_ u = None) -> connectPromise_ u = Some p -> promises u !! p = Some Unfulfilled ->
  alive tid k u -> good tid k (set_connectPromise None (set_promise p HasException u), Throws).
Proof.
  intros B Ha Hs Hn Hc Hcl Hp Hu Hal. split; [done|]. split.
  - apply base_core; [by apply base_end, base_settle|]. apply (attempt_end_off _ _ tid) in Ha; [|by intros ? [= <-]].
    destruct (stopped_ u) eqn:Hst; [apply ModeStopped|apply ModeDown]; cbn; auto; by intros ? [=].
  - cbn. destruct (proj2 (Ha tid k ph) eq_refl) as [H _]. apply (b_tasks _ B). unfold atPhase in H.
    destruct (tasks u !! tid); done.
Qed.

Lemma live_alive tid k ph u : live u -> atPhase u tid = Some (k, ph) -> alive tid k u.
Proof.
  intros Hl Ht Hst. destruct (Hl Hst) as [?|(t & ph' & H)]; [by left|right].
  destruct (decide (t = tid)) as [->|]; [left; congruence|right]. exists t, ph'. by rewrite atPhase_end, decide_False.
Qed.

Lemma reconnect_eq u s :
  session_ u = Some s -> hooks_ u = true -> stopped_ u = false ->
  reconnect u = spawn Loop (set_backoff 0 (set_state Disconnected (set_session None (emit (OnDisconnect s)
    (set_callbacks (closeCallbacks u ∖ {[s]}) u))))).
Proof. intros Hs Hh Hst. unfold reconnect, resetSession. rewrite Hs. cbn. rewrite Hh. cbn. by rewrite Hst. Qed.

Lemma connectFailed_good tid k ph u :
  core u -> live u -> atPhase u tid = Some (k, ph) -> attempting ph = true ->
  exists r, connectFailed u = Some r /\ good tid k r.
Proof.
  intros C Hl Ht Hph. pose proof (core_base _ C) as B. pose proof (live_alive _ _ _ _ Hl Ht) as Hal.
  assert (Hid : tid < nextId u).
  { apply (b_tasks _ B). unfold atPhase in Ht. destruct (tasks u !! tid); done. }
  destruct (c_mode _ C) as [? ? ? ? Ha|c s ? ? ? ? ? ? Ha|t k' c Hst Hs Hn Hc Hcl Ha (p & Hp & Hu)|t k' c s Hst Hs Hn Hc Hcl Hm Ha (p & Hp & Hu)
    |? ? ? ? ? Ha|a Hst Hs Hn Hc Hcl Ha (p & Hp & Hu)]; pose proof (proj1 (Ha tid k ph) (conj Ht Hph)) as Hat; try discriminate Hat.
  - injection Hat as -> -> <-. unfold connectFailed.
    assert (E : destroyClient (set_state Disconnected u) = set_client None (set_state Disconnected u)).
    { unfold destroyClient. cbn. rewrite Hcl. cbn. destruct (moqSession_ u !! c) as [s|]; [|done].
      unfold onMoQSessionClosed. cbn. rewrite Hc. by rewrite bool_decide_false by set_solver. }
    rewrite E. cbn. rewrite Hp. cbn. rewrite Hu, bool_decide_true by done. eexists. split; [done|].
    apply (failed_good tid k (Setup c)); try done. by destruct B.
  - injection Hat as -> -> <-. unfold connectFailed.
    set (w := set_callbacks (closeCallbacks u ∖ {[s]}) (set_client None (set_state Disconnected u))).
    assert (E : destroyClient (set_state Disconnected u) = reconnect w).
    { unfold destroyClient. cbn. rewrite Hcl, Hm. unfold onMoQSessionClosed. cbn.
      by rewrite bool_decide_true by (rewrite Hc; set_solver). }
    pose proof (b_hooks _ B) as Hh. rewrite Hst in Hh. rewrite E, (reconnect_eq w s) by done. cbn. rewrite Hp. cbn.
    rewrite Hu, bool_decide_true by done. eexists. split; [done|].
    set (v := set_backoff 0 _). assert (Bv : base v) by (destruct B; constructor; try done; by left).
    apply (failed_good tid k (Hook s)); try done; [by apply base_spawn|by apply attempt_spawn|by cbn; rewrite Hc; set_solver|].
    intros _. right. right. by apply looping_spawn.
  - injection Hat as ->. unfold connectFailed. assert (E : destroyClient (set_state Disconnected u) = u).
    { destruct u. cbn in *. subst. done. }
    rewrite E, Hp. cbn. rewrite Hu, bool_decide_true by done. eexists. split; [done|]. by apply (failed_good tid k ph).
Qed.

Lemma connectDone_good tid k s u :
  core u -> live u -> atPhase u tid = Some (k, Hook s) -> exists r, connectDone u = Some r /\ good tid k r.
Proof.
  intros C Hl Ht. pose proof (core_base _ C) as B. unfold connectDone. destruct (stopped_ u) eqn:Hst; [by eapply connectFailed_good|].
  assert (Hid : tid < nextId u).
  { apply (b_tasks _ B). unfold atPhase in Ht. destruct (tasks u !! tid); done. }
  destruct (c_mode _ C) as [? ? ? ? Ha|c s' ? ? ? ? ? ? Ha|t k' c _ Hs Hn Hc Hcl Ha (p & Hp & Hu)|t k' c s' _ Hs Hn Hc Hcl Hm Ha (p & Hp & Hu)
    |? ? ? ? ? Ha|a Hx]; [| | | | |congruence];
    pose proof (proj1 (Ha tid k (Hook s)) (conj Ht eq_refl)) as Hat; try discriminate Hat.
  injection Hat as -> -> ->. cbn. rewrite Hp. cbn. rewrite Hu, bool_decide_true by done. eexists. split; [done|].
  split; [left; cbn; by rewrite Hn|]. cbn. rewrite Hn. split; [|done]. split; [|done]. apply base_core.
  - apply base_end.
    change (base (set_connectPromise (connectPromise_ u) (set_promise p HasValue (set_state Connected u)))).
    apply base_settle; [by destruct B|done..].
  - apply (ModeUp _ c s); cbn; try done.
    + apply (attempt_end_off _ _ tid) in Ha; [done|by intros ? [= <-]].
    + intros q Hq. cbn in Hq. rewrite Hp in Hq. injection Hq as <-. left. cbn. by rewrite lookup_insert_eq.
Qed.

(** A setup that succeeds, of the client that is there. *)
Lemma setupDone_good tid k c s u :
  core u -> live u -> atPhase u tid = Some (k, Setup c) -> client_ u = Some c ->
  exists r, setupDone (set_moqSession c s u) = Some r /\ good tid k r.
Proof.
  intros C Hl Ht Hcl. pose proof (core_base _ C) as B. pose proof (live_alive _ _ _ _ Hl Ht) as Hal.
  assert (Hid : tid < nextId u).
  { apply (b_tasks _ B). unfold atPhase in Ht. destruct (tasks u !! tid); done. }
  unfold setupDone. cbn. rewrite Hcl. cbn. rewrite lookup_insert_eq. cbn.
  destruct (c_mode _ C) as [? ? ? ? Ha|c' s' ? ? ? ? ? ? Ha|t k' c' Hst Hs Hn Hc _ Ha (p & Hp & Hu)|t k' c' s' ? ? ? ? ? ? Ha
    |? ? ? ? ? Ha|a ? ? ? ? Hx]; [| | | | |congruence];
    pose proof (proj1 (Ha tid k (Setup c)) (conj Ht eq_refl)) as Hat; try discriminate Hat.
  injection Hat as -> -> ->. pose proof (b_hooks _ B) as Hh. rewrite Hst in Hh. rewrite Hh. cbn.
  eexists. split; [done|]. split; [by left|]. cbn. split; [|done]. apply base_core.
  - destruct B as [Bt Bp Bw _ Bb]. constructor; cbn; try done.
    + intros x [y Hy]. destruct (decide (x = tid)) as [->|]; [done|]. rewrite lookup_insert_ne in Hy by done. apply Bt. by exists y.
    + intros x kx px H. specialize (Bw x kx px). unfold atPhase in H, Bw. cbn in H.
      destruct (decide (x = tid)) as [->|]; [by rewrite lookup_insert_eq in H|]. rewrite lookup_insert_ne in H by done. by apply Bw.
    + by rewrite Hst.
  - eapply (ModeHook _ tid k c s); cbn; try done; [by rewrite Hc; set_solver|by rewrite lookup_insert_eq| |by exists p].
    refine (attempt_move _ (Some (tid, k, Setup c)) tid k (Hook s) _ _ eq_refl); [exact Ha|by intros ? [= <-]].
Qed.

Lemma core_end_neutral tid k ph u :
  core u -> atPhase u tid = Some (k, ph) -> attempting ph = false -> core (end_task tid u).
Proof.
  intros C Ht Hph. apply base_core; [by apply base_end, core_base|].
  assert (Ha : forall a, attempt_is u a -> attempt_is (end_task tid u) a).
  { intros a H. apply attempt_end; [done|]. intros [[t k'] ph'] ->. cbn. intros ->.
    destruct (proj2 (H tid k' ph') eq_refl) as [E E']. congruence. }
  pose proof (c_mode _ C) as Hm. remode Hm.
Qed.

Lemma waitDone_good tid k p u :
  core u -> live u -> atPhase u tid = Some (k, Waiting p) -> exists r, waitDone p u = Some r /\ good tid k r.
Proof.
  intros C Hl Ht. pose proof (live_alive _ _ _ _ Hl Ht) as Hal. pose proof (core_end_neutral _ _ _ _ C Ht eq_refl) as Ce.
  assert (Hid : tid < nextId u).
  { apply (c_tasks _ C). unfold atPhase in Ht. destruct (tasks u !! tid); done. }
  unfold waitDone. destruct (promises u !! p) as [[]|] eqn:Ep.
  - eexists. split; [done|]. split; [done|]. split; [|done]. apply core_put; [done..|]. intros q [= <-]. by apply (c_wait _ C tid k).
  - destruct (session_ u) as [s|] eqn:Es; eexists; (split; [done|]); split; try done.
  - by eexists.
  - eexists. split; [done|]. split; [done|]. split; [|done]. apply core_put; [done..|]. intros q [= <-]. by apply (c_wait _ C tid k).
Qed.

(** ** Going on *)
Lemma looping_put tid ph u : looping (put_task tid (mkTask Loop ph) u).
Proof. exists tid, ph. by rewrite atPhase_put, decide_True. Qed.
Lemma looping_put_end tid t u : looping (end_task tid u) -> looping (put_task tid t u).
Proof.
  intros (x & ph & H). exists x, ph. rewrite atPhase_end in H. rewrite atPhase_put. by destruct (decide (x = tid)).
Qed.

Lemma nextBackoff_ok b : backoff_ok b -> backoff_ok (nextBackoff b).
Proof.
  unfold backoff_ok, nextBackoff, kInitialReconnectBackoff, kMaxReconnectBackoff.
  destruct (b =? 0) eqn:E; [lia|]. apply Z.eqb_neq in E. lia.
Qed.

Lemma goOn_good tid k r : good tid k r -> exists u, goOn tid k r = Some u /\ core u /\ live u.
Proof.
  destruct r as [u o]. intros (Hal & Hc & Hid). cbn [fst snd] in *. unfold goOn. destruct o as [|s|ph].
  - destruct k as [|q].
    + destruct (stopped_ u) eqn:Hst; eexists; (split; [done|]).
      * split; [done|]. intros Hx. cbn in Hx. congruence.
      * split; [|by intros _; right; apply looping_put]. apply core_emit, core_put; [|done|done|done].
        apply (core_set_backoff (nextBackoff (reconnectBackoff_ u))) in Hc; [done|]. apply nextBackoff_ok. apply (c_backoff _ Hc).
    + eexists. split; [done|]. split; [by apply core_emit|]. intros Hst. destruct (Hal Hst) as [?|[?|?]]; [by left|done|by right].
  - destruct Hc as (Hc & Hs & [x ->]). destruct k as [|q]; eexists; (split; [done|]); (split; [|by left]).
    + apply (core_set_backoff 0) in Hc; [done|by left].
    + by apply core_emit.
  - eexists. split; [done|]. split; [done|]. intros Hst. destruct (Hal Hst) as [?|[->|?]]; [by left|right; apply looping_put|].
    right. by apply looping_put_end.
Qed.

(** ** Events *)
Definition no_handshake (u : Upstream) : Prop := forall tid k s, atPhase u tid <> Some (k, Hook s).
(** Sleeps are only cancelled by [stop]; a client that has been destroyed has no
    setup that succeeds; and (the assumption) no session ends, and no GOAWAY
    comes, while the handshake on a new session runs. *)
Definition event_ok (e : LinkEvent) (u : Upstream) : Prop :=
  match e with
  | EAwake _ true => stopped_ u = true
  | ESetup tid (Some _) => forall k c, atPhase u tid = Some (k, Setup c) -> client_ u = Some c
  | EClosed s => s ∈ closeCallbacks u -> no_handshake u
  | EGoaway => is_Some (session_ u) /\ no_handshake u
  | _ => True
  end.
Fixpoint events_ok (es : list LinkEvent) (u : Upstream) : Prop :=
  match es with
  | [] => True
  | e :: es => event_ok e u /\ forall u', step e u = Some u' -> events_ok es u'
  end.

Lemma core_bump_end u : core u -> core (end_task (nextId u) (bump u)).
Proof.
  intros C. assert (Hn : forall t k ph, atPhase u t = Some (k, ph) -> t <> nextId u).
  { intros t k ph H ->. unfold atPhase in H. destruct (tasks u !! nextId u) eqn:E; [|done].
    pose proof (c_tasks _ C _ (mk_is_Some _ _ E)). lia. }
  destruct C as [Ht Hp Hw Hh Hb Hm].
  assert (Ha : forall a, attempt_is u a -> attempt_is (end_task (nextId u) (bump u)) a).
  { intros a H. change (attempt_is (end_task (nextId u) u) a). apply attempt_end; [done|]. intros [[t k] ph] ->. cbn.
    apply (Hn t k ph). by apply (H t k ph). }
  constructor; cbn; try done.
  - intros t [x Hx]. apply lookup_delete_Some in Hx as [_ Hx]. assert (t < nextId u); [|lia]. apply Ht. by exists x.
  - intros p Hx. apply Hp in Hx. lia.
  - intros t k p H. change (atPhase (end_task (nextId u) u) t = Some (k, Waiting p)) in H. rewrite atPhase_end in H.
    destruct (decide _); [done|]. by apply (Hw t k p).
  - remode Hm.
Qed.

Lemma request_ok q u : core u -> live u -> exists u', request q u = Some u' /\ core u' /\ live u'.
Proof.
  intros C Hl. unfold request. destruct (getSession u) as [s|]; [eexists; split; [done|]; split; [by apply core_emit|done]|].
  destruct (getOrConnectSession_good (nextId u) (Request q) (bump u)) as (r & Hr & G).
  - by apply core_bump_end.
  - cbn. lia.
  - intros Hst. destruct (Hl Hst) as [?|(t & ph & H)]; [by left|]. right. right. exists t, ph.
    change (atPhase (end_task (nextId u) u) t = Some (Loop, ph)). rewrite atPhase_end, decide_False; [done|].
    intros ->. unfold atPhase in H. destruct (tasks u !! nextId u) eqn:E; [|done]. pose proof (c_tasks _ C _ (mk_is_Some _ _ E)). lia.
  - rewrite Hr. cbn [mbind option_bind]. by apply goOn_good.
Qed.

(** A loop at its head, or awake. *)
Lemma loop_ok tid ph u :
  core u -> live u -> atPhase u tid = Some (Loop, ph) -> attempting ph = false ->
  exists r, getOrConnectSession u = Some r /\ exists u', goOn tid Loop r = Some u' /\ core u' /\ live u'.
Proof.
  intros C Hl Ht Hph. destruct (getOrConnectSession_good tid Loop u) as (r & Hr & G).
  - by eapply core_end_neutral.
  - apply (c_tasks _ C). unfold atPhase in Ht. destruct (tasks u !! tid); done.
  - by eapply live_alive.
  - exists r. split; [done|]. by apply goOn_good.
Qed.
Lemma loopHead_ok tid u :
  core u -> live u -> atPhase u tid = Some (Loop, Started) -> exists u', loopHead tid u = Some u' /\ core u' /\ live u'.
Proof.
  intros C Hl Ht. unfold loopHead. pose proof (core_end_neutral _ _ _ _ C Ht eq_refl) as Ce.
  destruct (stopped_ u) eqn:Hst; [eexists; split; [done|]; split; [done|]; intros Hx; cbn in Hx; congruence|].
  destruct (0 <? reconnectBackoff_ u).
  - eexists. split; [done|]. split; [|by intros _; right; apply looping_put]. apply core_emit, core_put; try done.
    apply (c_tasks _ C). unfold atPhase in Ht. destruct (tasks u !! tid); done.
  - destruct (loop_ok tid Started u C Hl Ht eq_refl) as (r & -> & H). exact H.
Qed.

(** A session that ends while no attempt is made. *)
Lemma reconnect_ok u s X :
  core u -> session_ u = Some s -> stopped_ u = false -> X ∖ {[s]} = ∅ -> attempt_is u None -> no_promise u ->
  core (reconnect (set_callbacks X u)) /\ live (reconnect (set_callbacks X u)).
Proof.
  intros C Hs Hst HX Ha Hnp. pose proof (c_hooks _ C) as Hh. rewrite Hst in Hh.
  rewrite (reconnect_eq _ s) by done. set (v := set_backoff 0 _).
  assert (Bv : base v) by (destruct (core_base _ C); constructor; try done; by left). split.
  - apply base_core; [by apply base_spawn|]. apply ModeDown; cbn; try done. by apply (attempt_spawn v).
  - intros _. right. exists (nextId v), Started. change (atPhase (put_task (nextId v) (mkTask Loop Started) v) (nextId v) = Some (Loop, Started)).
    by rewrite atPhase_put, decide_True.
Qed.

Lemma stop_ok u : core u -> core (stopOnOwner u) /\ live (stopOnOwner u).
Proof.
  intros C. unfold stopOnOwner. destruct (stopped_ u) eqn:Hst; [split; [done|]; intros Hx; congruence|].
  set (v := mkUpstream Disconnected None None true false (connectPromise_ u) (reconnectBackoff_ u) (promises u) (moqSession_ u)
    ∅ (tasks u) (nextId u) (outputs u)).
  assert (E : close (set_stopped u) = v).
  { pose proof (c_mode _ C) as Hm. unfold v. clear C v.
    assert (H : closeCallbacks u = ∅ \/ exists c s, client_ u = Some c /\ moqSession_ u !! c = Some s /\ closeCallbacks u = {[s]}).
    { destruct Hm; try congruence; eauto 10. }
    clear Hm. destruct u as [st cl se sp hk cp rb ps ms cb ts ni os]. cbn in *. subst sp. unfold close, destroyClient. cbn.
    destruct cl as [c|]; cbn.
    - destruct (ms !! c) as [s|] eqn:Em; cbn.
      + unfold onMoQSessionClosed. cbn. case_bool_decide as Hin.
        * destruct H as [->|(c' & s' & [= <-] & Hs & ->)]; [set_solver|]. cbn.
          unfold set_callbacks, set_state, set_session, set_client. cbn. f_equal. set_solver.
        * assert (cb = ∅) as -> by (destruct H as [->|(c' & s' & [= <-] & Hs & ->)]; [done|]; rewrite Em in Hs; set_solver). done.
      + destruct H as [->|(c' & s' & [= <-] & Hs & ->)]; [done|]. congruence.
    - destruct H as [->|(c' & s' & [=] & _)]. done. }
  rewrite E. split; [|by intros [=]]. apply base_core; [by destruct C|].
  destruct (c_mode _ C); try congruence; [eapply ModeStopped|eapply ModeStopped|eapply ModeStopping|eapply ModeStopping]; eauto.
Qed.

Lemma step_ok e u : core u -> live u -> event_ok e u -> exists u', step e u = Some u' /\ core u' /\ live u'.
Proof.
  intros C Hl He. destruct e as [q|tid|tid cancelled|tid cancelled|tid s|tid okk|s| |]; cbn [step].
  - by apply request_ok.
  - destruct (atPhase u tid) as [[[|] []]|] eqn:Ht; try by exists u. by apply loopHead_ok.
  - destruct (atPhase u tid) as [[[|] []]|] eqn:Ht; try by exists u. destruct (cancelled || stopped_ u) eqn:Ec.
    + exists (end_task tid u). split; [done|]. split; [by eapply core_end_neutral|]. intros Hst. cbn in Hst. rewrite Hst in Ec.
      destruct cancelled; [|done]. cbn in He. congruence.
    + destruct (loop_ok tid Sleeping u C Hl Ht eq_refl) as (r & -> & H). exact H.
  - destruct (atPhase u tid) as [[k []]|] eqn:Ht; try by exists u. destruct cancelled.
    + cbn [mbind option_bind]. apply goOn_good. split; [by eapply live_alive|]. split; [by eapply core_end_neutral|].
      apply (c_tasks _ C). unfold atPhase in Ht. destruct (tasks u !! tid); done.
    + destruct (waitDone_good _ _ _ _ C Hl Ht) as (r & -> & G). by apply goOn_good.
  - destruct (atPhase u tid) as [[k []]|] eqn:Ht; try by exists u. destruct s as [s|].
    + destruct (setupDone_good tid k c s u C Hl Ht) as (r & -> & G); [by eapply He|]. by apply goOn_good.
    + destruct (connectFailed_good tid k _ u C Hl Ht eq_refl) as (r & -> & G). by apply goOn_good.
  - destruct (atPhase u tid) as [[k []]|] eqn:Ht; try by exists u. destruct okk.
    + destruct (connectDone_good _ _ _ _ C Hl Ht) as (r & -> & G). by apply goOn_good.
    + destruct (connectFailed_good tid k _ u C Hl Ht eq_refl) as (r & -> & G). by apply goOn_good.
  - eexists. split; [done|]. unfold onMoQSessionClosed. case_bool_decide as Hin; [|done].
    specialize (He Hin). destruct (c_mode _ C) as [? ? ? Hc|c s' Hst Hs Hn Hc Hcl Hm Ha Hnp|? ? ? ? ? ? Hc|t k c s' Hst Hs Hn Hc Hcl Hm Ha|? ? ? Hc|? ? ? ? Hc];
      try (rewrite Hc in Hin; set_solver).
    + apply (reconnect_ok u s'); try done. set_solver.
    + destruct (proj2 (Ha t k (Hook s')) eq_refl) as [Hx _]. by apply He in Hx.
  - eexists. split; [done|]. destruct He as [[s Hs] Hh]. unfold goaway.
    destruct (c_mode _ C) as [| c s' Hst _ Hn Hc Hcl Hm Ha Hnp| |t k c s' Hst _ Hn Hc Hcl Hm Ha| |]; try congruence.
    + replace u with (set_callbacks (closeCallbacks u) u) by by destruct u.
      apply (reconnect_ok u s'); try done. set_solver.
    + destruct (proj2 (Ha t k (Hook s')) eq_refl) as [Hx _]. by apply Hh in Hx.
  - eexists. split; [done|]. by apply stop_ok.
Qed.

Lemma start_ok : core (start newUpstream) /\ live (start newUpstream).
Proof.
  assert (Hnone : forall t, atPhase newUpstream t = None) by (intros t; unfold atPhase; cbn; by rewrite lookup_empty).
  assert (B : base newUpstream).
  { constructor; cbn; [by intros t [x Hx]; rewrite lookup_empty in Hx|by intros t [x Hx]; rewrite lookup_empty in Hx| |done|by left].
    intros t k p H. by rewrite Hnone in H. }
  split.
  - apply base_core; [by apply base_spawn|]. apply ModeDown; try done. apply (attempt_spawn newUpstream); [done|].
    intros t k ph. rewrite Hnone. split; [|done]. by intros [[=] _].
  - intros _. right. by exists 0, Started.
Qed.
Lemma run_ok es u : core u -> live u -> events_ok es u -> exists u', run es u = Some u' /\ core u' /\ live u'.
Proof.
  revert u. induction es as [|e es IH]; intros u C Hl He; [by exists u|]. destruct He as [He Hes].
  destruct (step_ok e u C Hl He) as (u' & Hs & C' & Hl'). cbn [run]. rewrite Hs. cbn [mbind option_bind].
  by apply IH; [| |apply Hes].
Qed.

(** (C9) Over any sequence of requests, ends of sleeps, setups and handshakes with
    any result, closed sessions, GOAWAYs and a stop, in which no session ends
    during its handshake, the provider does not crash (no null session is used, no
    promise is missing or set twice); at most one task connects; a task that waits
    for a connection waits for a promise that is fulfilled or that a connecting
    task will fulfil; a session given to a request reports its end; unless it is
    stopped there is a session or a loop that tries to connect; and once stopped
    it holds neither session nor client, as its destructor checks. *)
Theorem upstream_run_safe (es : list LinkEvent) :
  events_ok es (start newUpstream) ->
  exists u, run es (start newUpstream) = Some u /\
    (forall t t' k k' ph ph', atPhase u t = Some (k, ph) -> atPhase u t' = Some (k', ph') ->
       attempting ph = true -> attempting ph' = true -> t = t') /\
    (forall t k p, atPhase u t = Some (k, Waiting p) ->
       settled u p \/ (connectPromise_ u = Some p /\ exists t' k' ph, atPhase u t' = Some (k', ph) /\ attempting ph = true)) /\
    (forall s, getSession u = Some s -> s ∈ closeCallbacks u) /\
    (stopped_ u = false -> is_Some (session_ u) \/ looping u) /\
    (stopped_ u = true -> session_ u = None /\ client_ u = None).
Proof.
  intros He. destruct start_ok as [C0 L0]. destruct (run_ok es _ C0 L0 He) as (u & Hrun & C & Hl). exists u. split; [done|].
  pose proof (c_mode _ C) as Hm.
  assert (Ha : exists a, attempt_is u a /\ (a = None -> no_promise u)) by (destruct Hm; eauto; eexists; split; eauto; done).
  destruct Ha as (a & Ha & Hnp). split_and!.
  - intros t t' k k' ph ph' H H' Hp Hp'. pose proof (proj1 (Ha t k ph) (conj H Hp)) as E.
    pose proof (proj1 (Ha t' k' ph') (conj H' Hp')) as E'. rewrite E in E'. by injection E'.
  - intros t k p H. destruct (c_wait _ C t k p H) as [?|[Hc Hu]]; [by left|]. destruct a as [[[t' k'] ph]|].
    + right. split; [done|]. exists t', k', ph. by apply Ha.
    + left. by apply Hnp.
  - intros s Hs. unfold getSession in Hs. destruct (stopped_ u); [done|]. cbn in Hs. case_bool_decide as E; [|done].
    destruct Hm as [|c s' ? ? Hn Hc| | | |]; try congruence. rewrite Hc. set_solver.
  - done.
  - intros Hst. destruct Hm; try congruence; done.
Qed.

Definition upstreamExample : list LinkEvent :=
  [ERequest 7; ERun 0; ESetup 1 (Some 100); EHook 1 true; EWoken 0 false; ERequest 8; EClosed 100; ERun 4; ESetup 4 None;
   EAwake 4 false; EStop; ESetup 4 None].
Fixpoint events_okb (es : list LinkEvent) (u : Upstream) : bool :=
  match es with
  | [] => true
  | e :: es =>
    let quiet := forallb (fun t => match t_phase t.2 with Hook _ => false | _ => true end) (map_to_list (tasks u)) in
    match e with
    | EAwake _ true => stopped_ u
    | ESetup tid (Some _) => match atPhase u tid with Some (_, Setup c) => bool_decide (client_ u = Some c) | _ => true end
    | EClosed _ => quiet
    | EGoaway => bool_decide (is_Some (session_ u)) && quiet
    | _ => true
    end && match step e u with Some u' => events_okb es u' | None => true end
  end.
Lemma quiet_no_handshake u :
  forallb (fun t => match t_phase t.2 with Hook _ => false | _ => true end) (map_to_list (tasks u)) = true -> no_handshake u.
Proof.
  intros H tid k s Ht. unfold atPhase in Ht. destruct (tasks u !! tid) as [t|] eqn:E; [|done]. injection Ht as Hk Hp.
  rewrite forallb_forall in H. specialize (H (tid, t)). cbn in H. rewrite Hp in H. discriminate H.
  by apply list_elem_of_In, elem_of_map_to_list.
Qed.
Lemma events_okb_ok es u : events_okb es u = true -> events_ok es u.
Proof.
  revert u. induction es as [|e es IH]; intros u; [done|]. cbn [events_okb events_ok]. intros [He Hs]%andb_true_iff. split.
  - destruct e as [q|tid|tid []|tid cancelled|tid [s|]|tid okk|s| |]; cbn in *; try done.
    + intros k c Ht. rewrite Ht in He. by apply bool_decide_eq_true in He.
    + intros _. by apply quiet_no_handshake.
    + apply andb_true_iff in He as [He1 He2]. split; [by apply bool_decide_eq_true in He1|by apply quiet_no_handshake].
  - intros u' Hu. rewrite Hu in Hs. by apply IH.
Qed.
Lemma upstream_run_safe_witness : exists u, run upstreamExample (start newUpstream) = Some u /\
  stopped_ u = true /\ session_ u = None /\ client_ u = None /\ Forward 7 100 ∈ outputs u /\ Forward 8 100 ∈ outputs u.
Proof.
  destruct (upstream_run_safe upstreamExample) as (u & Hrun & _ & _ & _ & _ & Hstop); [apply events_okb_ok; vm_compute; reflexivity|].
  exists u. split; [exact Hrun|].
  assert (E : u = default newUpstream (run upstreamExample (start newUpstream))) by (rewrite Hrun; reflexivity).
  assert (Hst : stopped_ u = true) by (rewrite E; vm_compute; reflexivity).
  split; [exact Hst|]. destruct (Hstop Hst) as [H1 H2]. split; [exact H1|]. split; [exact H2|].
  rewrite E. split; apply (bool_decide_unpack _); vm_compute; exact Logic.I.
Defined.

(** ** Backoff

    The pauses of a run, against a count of failures in a row.  The count starts
    again when a loop is started (the session was lost) and when a loop ends with a
    session; it grows when an attempt of a loop fails, which is when the loop goes
    to sleep in another way than from its head. *)
Definition loopAt (u : Upstream) (tid : Z) : bool :=
  match tasks u !! tid with Some t => match t_kind t with Loop => true | Request _ => false end | None => false end.
Definition asleep (u : Upstream) (tid : Z) : bool :=
  match atPhase u tid with Some (Loop, Sleeping) => true | _ => false end.
Definition taskOf (e : LinkEvent) : option Z :=
  match e with ERun tid | EAwake tid _ | EWoken tid _ | ESetup tid _ | EHook tid _ => Some tid | _ => None end.
Definition startsLoop (u u' : Upstream) : bool :=
  existsb (fun t => loopAt u' t.1 && negb (loopAt u t.1)) (map_to_list (tasks u')).
Definition endsLoop (e : LinkEvent) (u u' : Upstream) : bool :=
  match e with
  | EAwake _ true => false
  | _ => match taskOf e with Some tid => loopAt u tid && negb (loopAt u' tid) | None => false end
  end.
Definition goesToSleep (e : LinkEvent) (u u' : Upstream) : bool :=
  match taskOf e with Some tid => negb (asleep u tid) && asleep u' tid | None => false end.
Definition attemptFails (e : LinkEvent) (u u' : Upstream) : bool :=
  match e with ERun _ => false | _ => goesToSleep e u u' end.
Definition failuresAfter (e : LinkEvent) (u u' : Upstream) (n : nat) : nat :=
  let n := if startsLoop u u' || endsLoop e u u' then 0%nat else n in
  if attemptFails e u u' then S n else n.
(** One second, doubled with every further failure, at most one minute. *)
Definition pauseAfter (failures : nat) : Z :=
  match failures with O => 0 | S n => Z.min (1000 * 2 ^ Z.of_nat n) 60000 end.
Fixpoint pausesDue (es : list LinkEvent) (u : Upstream) (n : nat) : list Z :=
  match es with
  | [] => []
  | e :: es =>
    match step e u with
    | Some u' =>
      let n' := failuresAfter e u u' n in
      (if goesToSleep e u u' then [pauseAfter n'] else []) ++ pausesDue es u' n'
    | None => []
    end
  end.
(** The pauses that the provider makes. *)
Definition pauses (l : list Output) : list Z := omap (fun o => match o with Sleeps ms => Some ms | _ => None end) l.

Lemma pauses_app l k : pauses (l ++ k) = pauses l ++ pauses k.
Proof. apply omap_app. Qed.
Lemma nextBackoff_pause n : nextBackoff (pauseAfter n) = pauseAfter (S n).
Proof.
  destruct n as [|n]; [done|]. unfold pauseAfter, nextBackoff, kInitialReconnectBackoff, kMaxReconnectBackoff.
  assert (0 < 2 ^ Z.of_nat n) by (apply Z.pow_pos_nonneg; lia). rewrite Nat2Z.inj_succ, Z.pow_succ_r by lia.
  destruct (Z.eqb_spec (Z.min (1000 * 2 ^ Z.of_nat n) 60000) 0); lia.
Qed.
Lemma pauseAfter_S n : 0 < pauseAfter (S n).
Proof. cbn. assert (0 < 2 ^ Z.of_nat n) by (apply Z.pow_pos_nonneg; lia). lia. Qed.
Lemma pauseAfter_pos n : 0 < pauseAfter n -> 1000 <= pauseAfter n <= 60000.
Proof. destruct n as [|n]; cbn; [lia|]. assert (0 < 2 ^ Z.of_nat n) by (apply Z.pow_pos_nonneg; lia). lia. Qed.
Lemma startsLoop_true u u' : startsLoop u u' = true <-> exists t, loopAt u' t = true /\ loopAt u t = false.
Proof.
  unfold startsLoop. rewrite existsb_exists. split.
  - intros ([t x] & _ & [H1 H2%negb_true_iff]%andb_prop). by exists t.
  - intros (t & H1 & H2). unfold loopAt in H1. destruct (tasks u' !! t) as [x|] eqn:E; [|done]. exists (t, x). split.
    + by apply list_elem_of_In, elem_of_map_to_list.
    + cbn. unfold loopAt at 1. by rewrite E, H1, H2.
Qed.
Lemma startsLoop_false u u' : startsLoop u u' = false <-> forall t, loopAt u' t = true -> loopAt u t = true.
Proof.
  rewrite <- not_true_iff_false, startsLoop_true. split.
  - intros H t Ht. destruct (loopAt u t) eqn:E; [done|]. destruct H. by exists t.
  - intros H (t & H1 & H2). rewrite (H t H1) in H2. done.
Qed.

(** Tasks have the identifiers that were given out. *)
Definition numbered (u : Upstream) : Prop := forall t, is_Some (tasks u !! t) -> t < nextId u.
Lemma numbered_loop u t : numbered u -> nextId u <= t -> loopAt u t = false.
Proof. intros H Ht. unfold loopAt. destruct (tasks u !! t) eqn:E; [|done]. assert (t < nextId u) by (apply H; eauto). lia. Qed.

(** What the helpers of a task do: at most start loops, and then the backoff
    starts again. *)
Record quiet (u v : Upstream) : Prop := {
  q_next : nextId u <= nextId v;
  q_pauses : pauses (outputs v) = pauses (outputs u);
  q_old t : t < nextId u -> tasks v !! t = tasks u !! t;
  q_numbered : numbered v;
  q_backoff : stopped_ v = true \/ reconnectBackoff_ v = if startsLoop u v then 0 else reconnectBackoff_ u;
  q_stopped : stopped_ u = true -> stopped_ v = true;
}.
Lemma quiet_same u v :
  numbered u -> tasks v = tasks u -> nextId u <= nextId v -> pauses (outputs v) = pauses (outputs u) ->
  reconnectBackoff_ v = reconnectBackoff_ u -> (stopped_ u = true -> stopped_ v = true) -> quiet u v.
Proof.
  intros Hn Et Ei Ep Eb Es. constructor; try done.
  - intros t _. by rewrite Et.
  - intros t Ht. rewrite Et in Ht. specialize (Hn t Ht). lia.
  - right. replace (startsLoop u v) with false; [done|]. symmetry. apply startsLoop_false. unfold loopAt. by rewrite Et.
Qed.
Lemma quiet_trans u v w : numbered u -> quiet u v -> quiet v w -> quiet u w.
Proof.
  intros Hn [N1 P1 O1 F1 B1 S1] [N2 P2 O2 F2 B2 S2]. constructor; try done; [lia|congruence|..|auto].
  - intros t Ht. rewrite O2, O1 by lia. done.
  - destruct B2 as [?|B2]; [by left|]. destruct B1 as [Hs|B1]; [left; by apply S2|right]. rewrite B2.
    assert (Hold : forall t, t < nextId v -> loopAt w t = loopAt v t) by (intros t Ht; unfold loopAt; by rewrite O2).
    destruct (startsLoop v w) eqn:E2.
    + apply startsLoop_true in E2 as (t & H1 & H2). rewrite (proj2 (startsLoop_true u w)); [done|]. exists t. split; [done|].
      apply (numbered_loop u t Hn). destruct (Z_lt_le_dec t (nextId v)) as [Hlt|Hge]; [rewrite Hold in H1 by done; congruence|lia].
    + rewrite B1. destruct (startsLoop u v) eqn:E1.
      * apply startsLoop_true in E1 as (t & H1 & H2). rewrite (proj2 (startsLoop_true u w)); [done|]. exists t. split; [|done].
        rewrite Hold; [done|]. apply F1. unfold loopAt in H1. by destruct (tasks v !! t).
      * rewrite (proj2 (startsLoop_false u w)); [done|]. rewrite startsLoop_false in E1, E2. auto.
Qed.
Lemma quiet_spawn u : numbered u -> quiet u (spawn Loop (set_backoff 0 u)).
Proof.
  intros Hn. assert (Hnew : tasks (spawn Loop (set_backoff 0 u)) = <[nextId u := mkTask Loop Started]> (tasks u)) by done.
  constructor; try done; [cbn; lia|..].
  - intros t Ht. rewrite Hnew. apply lookup_insert_ne. lia.
  - intros t. rewrite Hnew. cbn. destruct (decide (t = nextId u)) as [->|]; [lia|]. rewrite lookup_insert_ne by done.
    intros Ht%Hn. lia.
  - right. rewrite (proj2 (startsLoop_true _ _)); [done|]. exists (nextId u). split; [|apply numbered_loop; [done|lia]].
    unfold loopAt. by rewrite Hnew, lookup_insert_eq.
Qed.
Lemma quiet_reconnect u : numbered u -> quiet u (reconnect u).
Proof.
  intros Hn. unfold reconnect.
  assert (Hr : quiet u (resetSession u)).
  { unfold resetSession. destruct (session_ u); [|by apply quiet_same; cbn]. destruct (hooks_ _); apply quiet_same; cbn; try done.
    by rewrite pauses_app, app_nil_r. }
  case_test; [done|]. eapply quiet_trans; [done|exact Hr|]. apply quiet_spawn. apply (q_numbered _ _ Hr).
Qed.
Lemma quiet_closed s u : numbered u -> quiet u (onMoQSessionClosed s u).
Proof.
  intros Hn. unfold onMoQSessionClosed. case_bool_decide; [|by apply quiet_same].
  eapply quiet_trans; [done| |by apply quiet_reconnect]. by apply quiet_same.
Qed.
Lemma quiet_destroy u : numbered u -> quiet u (destroyClient u).
Proof.
  intros Hn. unfold destroyClient. destruct (client_ u) as [c|]; [|by apply quiet_same].
  assert (Hc : quiet u (set_client None u)) by by apply quiet_same.
  destruct (moqSession_ _ !! c); [|done]. eapply quiet_trans; [done|exact Hc|]. by apply quiet_closed.
Qed.
Lemma quiet_failed u r : numbered u -> connectFailed u = Some r -> quiet u r.1.
Proof.
  intros Hn. unfold connectFailed. assert (H : quiet u (destroyClient (set_state Disconnected u))).
  { eapply quiet_trans; [done| |by apply quiet_destroy]. by apply quiet_same. }
  assert (Hv := q_numbered _ _ H). destruct (connectPromise_ _) as [p|]; [|done]. cbn [mbind option_bind].
  case_bool_decide; intros [= <-]; [|done]. eapply quiet_trans; [done|exact H|]. by apply quiet_same.
Qed.
Lemma quiet_done u r : numbered u -> connectDone u = Some r -> quiet u r.1.
Proof.
  intros Hn. unfold connectDone. destruct (stopped_ u); [by apply quiet_failed|]. cbn. destruct (connectPromise_ u); [|done]. cbn.
  case_bool_decide; [intros [= <-]; by apply quiet_same|]. intros Hr.
  eapply quiet_trans; [done| |eapply quiet_failed; [|exact Hr]; done]. by apply quiet_same.
Qed.
Lemma quiet_getOrConnect u r : numbered u -> getOrConnectSession u = Some r -> quiet u r.1.
Proof.
  intros Hn. unfold getOrConnectSession.
  assert (Hc : quiet u (startConnect (emplacePromise (set_state Connecting u))).1).
  { assert (H1 : quiet u (emplacePromise (set_state Connecting u))).
    { unfold emplacePromise. cbn. destruct (connectPromise_ u); [case_bool_decide|]; apply quiet_same; cbn; try done; lia. }
    assert (H2 := quiet_destroy _ (q_numbered _ _ H1)). unfold startConnect. cbn.
    eapply quiet_trans; [done|exact H1|]. eapply quiet_trans; [apply (q_numbered _ _ H1)|exact H2|].
    apply quiet_same; cbn; try done; [apply (q_numbered _ _ H2)|lia]. }
  destruct (stopped_ u); [intros [= <-]; by apply quiet_same|]. destruct (state_ u), (session_ u); try (by intros [= <-]);
    try (destruct (connectPromise_ u)); intros [= <-]; by apply quiet_same.
Qed.

(** A task that goes on. *)
Lemma goOn_tasks tid k v o u' :
  goOn tid k (v, o) = Some u' ->
  (forall t, t <> tid -> tasks u' !! t = tasks v !! t) /\ nextId u' = nextId v /\ stopped_ u' = stopped_ v.
Proof.
  destruct o as [|[s|]|ph], k as [|q]; cbn; repeat case_test; intros [= <-]; split_and!; try done; cbn; intros t Ht;
    first [by apply lookup_delete_ne | by apply lookup_insert_ne].
Qed.
Definition paced (n : nat) (u : Upstream) : Prop := numbered u /\ (stopped_ u = true \/ reconnectBackoff_ u = pauseAfter n).
Definition stepPaced (e : LinkEvent) (u u' : Upstream) (n : nat) : Prop :=
  paced (failuresAfter e u u' n) u' /\
  pauses (outputs u') = pauses (outputs u) ++ (if goesToSleep e u u' then [pauseAfter (failuresAfter e u u' n)] else []) /\
  (goesToSleep e u u' = true -> 0 < pauseAfter (failuresAfter e u u' n)).

(** An event that is no task's, or leaves its task as it was. *)
Lemma quiet_paced e u v n :
  paced n u -> quiet u v -> (forall tid, taskOf e = Some tid -> tasks v !! tid = tasks u !! tid) -> stepPaced e u v n.
Proof.
  intros [Hn Hb] Q Ht.
  assert (Hsl : goesToSleep e u v = false).
  { unfold goesToSleep. destruct (taskOf e) as [tid|]; [|done]. unfold asleep, atPhase. rewrite (Ht tid eq_refl). apply andb_negb_l. }
  assert (Hend : endsLoop e u v = false).
  { unfold endsLoop. destruct e as [| |? []| | | | | |]; cbn in Ht; try done; cbn; unfold loopAt; rewrite (Ht _ eq_refl); apply andb_negb_r. }
  unfold stepPaced, failuresAfter, attemptFails. rewrite Hsl, Hend, orb_false_r, app_nil_r, (q_pauses _ _ Q). split; [|done].
  split; [apply (q_numbered _ _ Q)|]. destruct (q_backoff _ _ Q) as [?|E]; [by left|].
  destruct Hb as [Hs|Hb]; [left; by apply (q_stopped _ _ Q)|right]. rewrite E.
  replace (if match e with ERun _ => false | _ => false end then _ else _) with (if startsLoop u v then 0%nat else n) by (by destruct e).
  by destruct (startsLoop u v).
Qed.

(** The loops that are started are those that the helpers started. *)
Lemma goOn_starts tid k ph u v o u' :
  numbered u -> quiet u v -> tasks u !! tid = Some (mkTask k ph) -> goOn tid k (v, o) = Some u' ->
  numbered u' /\ startsLoop u u' = startsLoop u v.
Proof.
  intros Hn Q Htask Hg. destruct (goOn_tasks _ _ _ _ _ Hg) as (Ht & Ei & _).
  assert (Hlt : tid < nextId u) by (apply Hn; eauto).
  assert (Hloop : loopAt u tid = match k with Loop => true | Request _ => false end) by (unfold loopAt; by rewrite Htask).
  assert (Hloopv : loopAt v tid = loopAt u tid) by (unfold loopAt; by rewrite (q_old _ _ Q)).
  assert (Hother : forall t, t <> tid -> loopAt u' t = loopAt v t) by (intros t Hne; unfold loopAt; by rewrite Ht).
  assert (Hin : loopAt u' tid = true -> k = Loop).
  { destruct k as [|q]; [done|]. destruct o as [|[s|]|ph1]; cbn in Hg; try done; injection Hg as <-; unfold loopAt; cbn;
      by rewrite ?lookup_delete_eq, ?lookup_insert_eq. }
  split.
  - intros t [x Hx]. rewrite Ei. destruct (decide (t = tid)) as [->|Hne]; [assert (H := q_next _ _ Q); lia|].
    rewrite Ht in Hx by done. apply (q_numbered _ _ Q). eauto.
  - destruct (startsLoop u v) eqn:E.
    + apply startsLoop_true in E as (t & H1 & H2). apply startsLoop_true. exists t. split; [|done]. rewrite Hother; [done|]. congruence.
    + apply startsLoop_false. rewrite startsLoop_false in E. intros t H1. destruct (decide (t = tid)) as [->|Hne].
      * rewrite Hloop. by rewrite (Hin H1).
      * apply E. by rewrite <- Hother.
Qed.
(** A task that is not asleep afterwards. *)
Lemma awake_paced e tid u u' n :
  numbered u' -> taskOf e = Some tid -> asleep u' tid = false -> pauses (outputs u') = pauses (outputs u) ->
  stopped_ u' = true \/ reconnectBackoff_ u' = pauseAfter (if startsLoop u u' || endsLoop e u u' then 0 else n) -> stepPaced e u u' n.
Proof.
  intros Hn He Ha Hp Hb. assert (Hsl : goesToSleep e u u' = false) by (unfold goesToSleep; by rewrite He, Ha, andb_false_r).
  unfold stepPaced, paced, failuresAfter, attemptFails. rewrite Hsl, Hp, app_nil_r. split; [|done]. split; [done|]. by destruct e.
Qed.
(** The events after which a loop does not come from its sleep, or comes from it
    with no failure. *)
Definition properEnd (e : LinkEvent) (ph : Phase) (o : Outcome) (v : Upstream) : Prop :=
  match e with
  | ERun _ => o <> Throws \/ stopped_ v = true
  | EAwake _ c => c = false /\ (o <> Throws \/ stopped_ v = true)
  | _ => ph <> Sleeping
  end.
Lemma goOn_paced e tid k ph u v o u' n :
  paced n u -> quiet u v -> taskOf e = Some tid -> atPhase u tid = Some (k, ph) -> o <> Suspends Sleeping ->
  properEnd e ph o v -> goOn tid k (v, o) = Some u' -> stepPaced e u u' n.
Proof.
  intros [Hn Hb] Q He Hph Ho Hev Hg.
  assert (Htask : tasks u !! tid = Some (mkTask k ph)).
  { unfold atPhase in Hph. destruct (tasks u !! tid) as [[k' ph']|]; [|done]. cbn in Hph. congruence. }
  destruct (goOn_starts _ _ _ _ _ _ _ Hn Q Htask Hg) as [Hnum Hst].
  assert (Hloop : loopAt u tid = match k with Loop => true | Request _ => false end) by (unfold loopAt; by rewrite Htask).
  assert (Hbv : stopped_ v = true \/ reconnectBackoff_ v = pauseAfter (if startsLoop u v then 0 else n)).
  { destruct (q_backoff _ _ Q) as [?|E]; [by left|]. destruct Hb as [Hs|Hb]; [left; by apply (q_stopped _ _ Q)|right].
    rewrite E. by destruct (startsLoop u v). }
  assert (Hends : endsLoop e u u' = loopAt u tid && negb (loopAt u' tid)).
  { unfold endsLoop. rewrite He. destruct e as [| |? []| | | | | |]; try done. by destruct Hev. }
  rewrite Hloop in Hends. rewrite <- Hst in Hbv. assert (Hp := q_pauses _ _ Q).
  destruct o as [|s|ph1], k as [|q]; cbn in Hg, Hends.
  1: destruct (stopped_ v) eqn:Esv;
    [injection Hg as <-; apply (awake_paced e tid); [done|done|unfold asleep, atPhase; cbn; by rewrite lookup_delete_eq|done|by left]|].
  1: { (* a loop whose attempt failed *)
    destruct Hbv as [?|Hbv]; [done|]. assert (Hre : match e with ERun _ => false | _ => true end = true /\ ph <> Sleeping).
    { destruct e as [| | | | | | | |]; cbn in He; try done; cbn in Hev; intuition congruence. }
    destruct Hre as [Hre Hph2]. injection Hg as <-. set (u' := emit _ _) in *.
    assert (Hns : asleep u tid = false) by (unfold asleep; rewrite Hph; by destruct ph).
    assert (Hs' : asleep u' tid = true) by (unfold asleep, atPhase, u'; cbn; by rewrite lookup_insert_eq).
    assert (Hl' : loopAt u' tid = true) by (unfold loopAt, u'; cbn; by rewrite lookup_insert_eq).
    assert (Hsl : goesToSleep e u u' = true) by (unfold goesToSleep; by rewrite He, Hns, Hs').
    assert (Hf : failuresAfter e u u' n = S (if startsLoop u u' then 0 else n)).
    { unfold failuresAfter, attemptFails. rewrite Hsl, Hends, Hl', orb_false_r. by destruct e. }
    unfold stepPaced, paced. rewrite Hsl, Hf, <- nextBackoff_pause, <- Hbv. unfold u' at 4. cbn. rewrite pauses_app, Hp.
    split_and!; [done|by right|done|]. intros _. rewrite Hbv, nextBackoff_pause. apply pauseAfter_S. }
  2: assert (Hg' : u' = end_task tid (set_backoff 0 v)) by (destruct s; congruence); clear Hg; subst u'.
  3: destruct s as [s|]; [|done].
  all: try injection Hg as <-; apply (awake_paced e tid);
    [done|done|unfold asleep, atPhase; cbn; rewrite ?lookup_delete_eq, ?lookup_insert_eq; cbn; try done; by destruct ph1
    |cbn; rewrite ?pauses_app; cbn; by rewrite ?app_nil_r| rewrite Hends; unfold loopAt; cbn; rewrite ?lookup_delete_eq, ?lookup_insert_eq; cbn;
     rewrite ?orb_true_r, ?orb_false_r; auto].
Qed.

Lemma getOrConnect_outcome u v o : getOrConnectSession u = Some (v, o) -> o <> Suspends Sleeping /\ (o = Throws -> stopped_ v = true).
Proof.
  unfold getOrConnectSession. destruct (stopped_ u) eqn:E; [by intros [= <- <-]|].
  destruct (state_ u), (session_ u); try (destruct (connectPromise_ u)); cbn; try done; by intros [= <- <-].
Qed.
Lemma connectFailed_outcome u v o : connectFailed u = Some (v, o) -> o = Throws.
Proof. unfold connectFailed. destruct (connectPromise_ _); [|done]. cbn. case_bool_decide; by intros [= _ <-]. Qed.
Lemma connectDone_outcome u v o : connectDone u = Some (v, o) -> o <> Suspends Sleeping.
Proof.
  unfold connectDone. destruct (stopped_ u); [by intros ->%connectFailed_outcome|]. cbn. destruct (connectPromise_ u); [|done]. cbn.
  case_bool_decide; [by intros [= _ <-]|by intros ->%connectFailed_outcome].
Qed.
Lemma setupDone_quiet c s u v o :
  numbered u -> setupDone (set_moqSession c s u) = Some (v, o) -> quiet u v /\ o <> Suspends Sleeping.
Proof.
  intros Hn. unfold setupDone. cbn. destruct (client_ u); [|done]. cbn. destruct (_ !! _); [|done]. cbn.
  destruct (hooks_ u).
  - intros [= <- <-]. split; [|done]. apply quiet_same; cbn; try done. by rewrite pauses_app, app_nil_r.
  - intros H. split; [|by eapply connectDone_outcome]. eapply quiet_trans; [done| |eapply (quiet_done _ (v, o)); [|exact H]; done]. by apply quiet_same.
Qed.

(** The head of the loop, and its end. *)
Lemma loopHead_paced tid u u' n :
  paced n u -> atPhase u tid = Some (Loop, Started) -> loopHead tid u = Some u' -> stepPaced (ERun tid) u u' n.
Proof.
  intros P Ha. assert (Q0 : quiet u u) by (apply quiet_same; try done; by apply P). unfold loopHead. destruct (stopped_ u) eqn:Es.
  - intros Hr. apply (goOn_paced (ERun tid) tid Loop Started u u Throws); try done; [by right|]. cbn. by rewrite Es.
  - destruct (Z.ltb_spec 0 (reconnectBackoff_ u)) as [Hpos|_].
    + intros [= <-]. set (u' := emit _ _). destruct P as [Hn [?|Hb]]; [congruence|].
      assert (Hnone : tasks u !! tid = Some (mkTask Loop Started)).
      { unfold atPhase in Ha. destruct (tasks u !! tid) as [[k ph]|]; [|done]. cbn in Ha. congruence. }
      assert (Hl : forall t, loopAt u' t = loopAt u t).
      { intros t. unfold loopAt, u'. cbn. destruct (decide (t = tid)) as [->|]; [by rewrite lookup_insert_eq, Hnone|by rewrite lookup_insert_ne]. }
      assert (Hsl : goesToSleep (ERun tid) u u' = true).
      { unfold goesToSleep, asleep. cbn. rewrite Ha. unfold atPhase, u'. cbn. by rewrite lookup_insert_eq. }
      assert (Hf : failuresAfter (ERun tid) u u' n = n).
      { unfold failuresAfter, endsLoop. cbn. rewrite Hl, andb_negb_r, orb_false_r.
        replace (startsLoop u u') with false; [done|]. symmetry. apply startsLoop_false. intros t. by rewrite Hl. }
      unfold stepPaced, paced. rewrite Hsl, Hf, <- Hb. unfold u' at 3. cbn. rewrite pauses_app. split_and!; [|by right|done|done].
      intros t. unfold u'. cbn. destruct (decide (t = tid)) as [->|]; [intros _; apply Hn; eauto|rewrite lookup_insert_ne by done; apply Hn].
    + destruct (getOrConnectSession u) as [[v o]|] eqn:E; [|done]. cbn [mbind option_bind].
      destruct (getOrConnect_outcome _ _ _ E) as [Ho Hs]. apply (quiet_getOrConnect _ (v, o)) in E; [|apply P].
      apply (goOn_paced (ERun tid) tid Loop Started u v o); try done. cbn. destruct o; auto.
Qed.
Lemma cancelled_paced tid u n : paced n u -> stepPaced (EAwake tid true) u (end_task tid u) n.
Proof.
  intros [Hn Hb]. apply (awake_paced _ tid); try done.
  - intros t. cbn. destruct (decide (t = tid)) as [->|]; [rewrite lookup_delete_eq; by intros [? ?]|rewrite lookup_delete_ne by done; apply Hn].
  - unfold asleep, atPhase. cbn. by rewrite lookup_delete_eq.
  - cbn. replace (startsLoop u (end_task tid u)) with false; [done|]. symmetry. apply startsLoop_false. intros t. unfold loopAt. cbn.
    destruct (decide (t = tid)) as [->|]; [by rewrite lookup_delete_eq|by rewrite lookup_delete_ne].
Qed.
Lemma request_quiet q u v o u' :
  numbered u -> quiet (bump u) v -> goOn (nextId u) (Request q) (v, o) = Some u' -> quiet u u'.
Proof.
  intros Hn Q Hg. destruct (goOn_tasks _ _ _ _ _ Hg) as (Ht & Ei & Es). set (tid := nextId u) in *.
  assert (Hi := q_next _ _ Q). cbn in Hi. fold tid in Hi.
  assert (Hl : forall t, loopAt u' t = loopAt v t).
  { intros t. destruct (decide (t = tid)) as [->|Hne]; [|unfold loopAt; by rewrite Ht].
    replace (loopAt v tid) with false.
    - destruct o as [|[s|]|ph]; cbn in Hg; try done; injection Hg as <-; unfold loopAt; cbn; by rewrite ?lookup_delete_eq, ?lookup_insert_eq.
    - unfold loopAt. rewrite (q_old _ _ Q) by (cbn; fold tid; lia). cbn. fold (loopAt u tid). symmetry. apply numbered_loop; [done|]. by unfold tid. }
  constructor.
  - rewrite Ei. unfold tid in Hi. lia.
  - assert (Hp : pauses (outputs v) = pauses (outputs u)) by apply (q_pauses _ _ Q). rewrite <- Hp. destruct o as [|[s|]|ph]; cbn in Hg; try done; injection Hg as <-; cbn; by rewrite ?pauses_app, ?app_nil_r.
  - intros t Hlt. rewrite Ht by (unfold tid; lia). rewrite (q_old _ _ Q) by (cbn; lia). done.
  - intros t [x Hx]. rewrite Ei. destruct (decide (t = tid)) as [->|Hne]; [lia|]. rewrite Ht in Hx by done. apply (q_numbered _ _ Q). eauto.
  - rewrite Es. replace (startsLoop u u') with (startsLoop (bump u) v).
    + destruct (q_backoff _ _ Q) as [?|E]; [by left|right]. cbn in E. rewrite <- E.
      destruct o as [|[s|]|ph]; cbn in Hg; try done; by injection Hg as <-.
    + destruct (startsLoop u u') eqn:E.
      * apply startsLoop_true in E as (t & H1 & H2). apply startsLoop_true. exists t. by rewrite <- Hl.
      * rewrite startsLoop_false in E. apply startsLoop_false. intros t. rewrite <- Hl. apply E.
  - intros H. rewrite Es. by apply (q_stopped _ _ Q).
Qed.
Lemma stop_quiet u : numbered u -> quiet u (stopOnOwner u).
Proof.
  intros Hn. unfold stopOnOwner. case_test; [by apply quiet_same|]. unfold close. set (v := set_session None (set_stopped u)).
  assert (Qv : quiet u v) by (by apply quiet_same). assert (Hv := q_numbered _ _ Qv).
  eapply quiet_trans; [done|exact Qv|]. eapply quiet_trans; [done|by apply quiet_destroy|].
  apply quiet_same; try done. apply (q_numbered _ _ (quiet_destroy v Hv)).
Qed.
Lemma step_paced e u u' n : paced n u -> step e u = Some u' -> stepPaced e u u' n.
Proof.
  intros P. assert (Hn : numbered u) by apply P. assert (Q0 : quiet u u) by (by apply quiet_same).
  assert (Hsame : stepPaced e u u n) by (by apply quiet_paced).
  destruct e as [q|tid|tid cancelled|tid cancelled|tid s|tid okk|s| |]; cbn [step].
  - intros Hr. apply (quiet_paced (ERequest q)); [done| |done]. unfold request in Hr.
    destruct (getSession u); [injection Hr as <-; apply quiet_same; cbn; try done; by rewrite pauses_app, app_nil_r|].
    assert (Qb : quiet u (bump u)) by (apply quiet_same; cbn; try done; lia).
    destruct (getOrConnectSession (bump u)) as [[v o]|] eqn:E; [|done]. cbn [mbind option_bind] in Hr.
    apply (quiet_getOrConnect _ (v, o)) in E; [|apply Qb]. cbn in E. by eapply (request_quiet q u v o).
  - destruct (atPhase u tid) as [[[|] []]|] eqn:Ha; try (by intros [= <-]). by apply loopHead_paced.
  - destruct (atPhase u tid) as [[[|] []]|] eqn:Ha; try (by intros [= <-]). destruct (cancelled || stopped_ u) eqn:Ec.
    + intros [= <-]. destruct cancelled; [by apply cancelled_paced|]. cbn in Ec.
      apply (goOn_paced (EAwake tid false) tid Loop Sleeping u u Throws); try done; [by split; [|right]|]. cbn. by rewrite Ec.
    + apply orb_false_iff in Ec as [-> Es]. destruct (getOrConnectSession u) as [[v o]|] eqn:E; [|done]. cbn [mbind option_bind].
      destruct (getOrConnect_outcome _ _ _ E) as [Ho Hs]. apply (quiet_getOrConnect _ (v, o)) in E; [|done].
      apply (goOn_paced (EAwake tid false) tid Loop Sleeping u v o); try done. split; [done|]. destruct o; auto.
  - destruct (atPhase u tid) as [[k []]|] eqn:Ha; try (by intros [= <-]). destruct cancelled; [by eapply goOn_paced|].
    unfold waitDone. destruct (promises u !! p) as [[]|]; cbn [mbind option_bind]; eapply goOn_paced; try done. by destruct (session_ u).
  - destruct (atPhase u tid) as [[k []]|] eqn:Ha; try (by intros [= <-]). destruct s as [s|].
    + destruct (setupDone _) as [[v o]|] eqn:E; [|done]. destruct (setupDone_quiet _ _ _ _ _ Hn E) as [Q Ho]. by eapply goOn_paced.
    + destruct (connectFailed u) as [[v o]|] eqn:E; [|done]. assert (Ho := connectFailed_outcome _ _ _ E). subst o.
      apply (quiet_failed _ (v, Throws)) in E; [|done]. by eapply goOn_paced.
  - destruct (atPhase u tid) as [[k []]|] eqn:Ha; try (by intros [= <-]). destruct okk.
    + destruct (connectDone u) as [[v o]|] eqn:E; [|done]. assert (Ho := connectDone_outcome _ _ _ E).
      apply (quiet_done _ (v, o)) in E; [|done]. by eapply goOn_paced.
    + destruct (connectFailed u) as [[v o]|] eqn:E; [|done]. assert (Ho := connectFailed_outcome _ _ _ E). subst o.
      apply (quiet_failed _ (v, Throws)) in E; [|done]. by eapply goOn_paced.
  - intros [= <-]. apply quiet_paced; [done|by apply quiet_closed|done].
  - intros [= <-]. apply quiet_paced; [done|by apply quiet_reconnect|done].
  - intros [= <-]. apply quiet_paced; [done|by apply stop_quiet|done].
Qed.
Lemma run_paced es u u' n :
  paced n u -> run es u = Some u' ->
  pauses (outputs u') = pauses (outputs u) ++ pausesDue es u n /\ Forall (fun ms => 1000 <= ms <= 60000) (pausesDue es u n).
Proof.
  revert u n. induction es as [|e es IH]; intros u n P; cbn [run pausesDue]; [intros [= <-]; by rewrite app_nil_r|].
  destruct (step e u) as [v|] eqn:E; [|done]. cbn [mbind option_bind]. intros Hr. destruct (step_paced e u v n P E) as (P' & Hp & Hpos).
  destruct (IH v _ P' Hr) as [-> HF]. rewrite Hp, <- app_assoc. split; [done|]. apply Forall_app_2; [|done].
  destruct (goesToSleep e u v); [|done]. by apply Forall_singleton, pauseAfter_pos, Hpos.
Qed.

(** A loop that fails eight times in a row, connects, and loses its session. *)
Definition backoffExample : list LinkEvent :=
  [ERun 0] ++ concat (repeat [ESetup 0 None; EAwake 0 false] 8) ++
  [ESetup 0 (Some 100); EHook 0 true; EClosed 100; ERun 19; ESetup 19 None].

(** When the upstream dies during the handshake, the loop that the close
    callback starts connects again while the first attempt is not over, and the
    end of the first attempt takes the client and the promise of the second: the
    second attempt crashes.  If a request has made the first attempt and its hook
    returns, the request uses a null session. *)
Theorem upstream_dies_in_handshake :
  run [ERun 0; ESetup 0 (Some 100); EClosed 100; ERun 3; EHook 0 false] (start newUpstream) <> None /\
  run [ERun 0; ESetup 0 (Some 100); EClosed 100; ERun 3; EHook 0 false; ESetup 3 None] (start newUpstream) = None /\
  run [ERequest 7; ESetup 1 (Some 100); EClosed 100; EHook 1 true] (start newUpstream) = None.
Proof. split; [by vm_compute|]. split; by vm_compute. Qed.
