(* ===== verification/CrossExec.v ===== *)
(** The filters that carry calls from one executor to another
    (relay/CrossExecFilter.h, relay/CrossExecFilter.cpp,
    relay/SubgroupConsumerUtil.h).

    A source calls a filter on its own thread; the filter posts a closure on the
    target executor, which runs closures in the order they were posted, and
    reports an error of the downstream consumer at a later call.  The filters
    live in one [World] with the queue of the executor they target.  The steps of
    the sources and of the executor interleave; what a downstream consumer
    answers is an input of the step that runs the closure.

    A closure that captures [this] does not keep its filter alive; one that
    captures [self], [guard], [subFilter] or the filter's [shared_ptr] does
    ([holds]).  A filter dies when the last reference to it goes.  [None] is
    undefined behaviour or a failed check: a closure that runs on a dead filter,
    an access to [selfGuard_] that is not ordered with the one of a posted
    closure, a failed [XDCHECK].

    [deferredError_] is an atomic that is read and written with relaxed order:
    [stores] are the values written to it, oldest first, and a thread sees some
    of them, never fewer than before. *)

From S2P Require Import Prelude.

(** A payload is a chain of buffers, or null.  Copying it does not change it. *)
Abbreviation Buffers := (option (list Byte.byte)).
Definition computeChainDataLength (p : Buffers) : Z :=
  match p with Some bytes => Z.of_nat (length bytes) | None => 0 end.

(** moxygen's [MoQPublishError::Code]: the codes that the filters name, as the
    numbers they are stored as. *)
Class PublishErrorCodes := {
  WRITE_ERROR : Z;
  CANCELLED : Z;
  BLOCKED : Z;
}.
(** ** Calls

    Extensions, headers, priorities and the like pass through as they are. *)
Inductive SubgroupOp :=
  | SObject (objectID : Z) (payload : Buffers) (extensions : Z) (finSubgroup : bool)
  | SBeginObject (objectID length : Z) (initialPayload : Buffers) (extensions : Z)
  | SObjectPayload (payload : Buffers) (finSubgroup : bool)
  | SEndOfGroup (endOfGroupObjectID : Z)
  | SEndOfTrackAndGroup (endOfTrackObjectID : Z)
  | SEndOfSubgroup
  | SReset (error : Z)
  | SCheckpoint.
Inductive FetchOp :=
  | FObject (groupID subgroupID objectID : Z) (payload : Buffers) (extensions : Z)
      (finFetch forwardingPreferenceIsDatagram : bool)
  | FBeginObject (groupID subgroupID objectID length : Z) (initialPayload : Buffers) (extensions : Z)
  | FObjectPayload (payload : Buffers) (finFetch : bool)
  | FEndOfGroup (groupID subgroupID objectID : Z) (finFetch : bool)
  | FEndOfTrackAndGroup (groupID subgroupID objectID : Z)
  | FEndOfFetch
  | FEndOfUnknownRange (groupID objectID : Z) (finFetch : bool)
  | FReset (error : Z)
  | FCheckpoint.
Inductive TrackCallOp :=
  | TSetTrackAlias (alias : Z)
  | TObjectStream (header : Z) (payload : Buffers) (lastInGroup : bool)
  | TDatagram (header : Z) (payload : Buffers) (lastInGroup : bool)
  | TPublishDone (pubDone : Z).

(** ** The closures on the executor *)
Inductive Closure :=
  | OnSubgroup (f : Z) (c : SubgroupOp)
  | OnFetch (f : Z) (c : FetchOp)
  | AwaitReady (f p : Z)                       (* of awaitReadyToConsume; [p] is its promise *)
  | ThenReady (f p : Z) (value : option Z)     (* its continuation; the filter is weak *)
  | GuardOf (f : Z)                            (* the no-op that owns the guard *)
  | BeginSubgroup (t f groupID subgroupID priority options : Z)
  | OnTrack (t : Z) (c : TrackCallOp)
  | DeleteTrack (t : Z)                        (* of the deleter of [CrossExecFilter] *)
  | ReleaseRefs (refs : list Z).               (* of a destructor *)

(** The calls after which the source is done with the filter, and the calls whose
    error closes it. *)
Definition subgroupEnds (c : SubgroupOp) : bool :=
  match c with
  | SObject _ _ _ fin | SObjectPayload _ fin => fin
  | SEndOfGroup _ | SEndOfTrackAndGroup _ | SEndOfSubgroup | SReset _ => true
  | SBeginObject _ _ _ _ | SCheckpoint => false
  end.
Definition subgroupCloses (c : SubgroupOp) : bool :=
  match c with SObject _ _ _ _ | SBeginObject _ _ _ _ | SObjectPayload _ _ => true | _ => false end.
Definition fetchEnds (c : FetchOp) : bool :=
  match c with
  | FObject _ _ _ _ _ fin _ | FObjectPayload _ fin | FEndOfGroup _ _ _ fin | FEndOfUnknownRange _ _ fin => fin
  | FEndOfTrackAndGroup _ _ _ | FEndOfFetch | FReset _ => true
  | FBeginObject _ _ _ _ _ _ | FCheckpoint => false
  end.
Definition fetchCloses (c : FetchOp) : bool :=
  match c with
  | FObject _ _ _ _ _ _ _ | FBeginObject _ _ _ _ _ _ | FObjectPayload _ _ | FEndOfGroup _ _ _ _
  | FEndOfUnknownRange _ _ _ => true
  | _ => false
  end.
(** [closesFetch]: a fetch consumer that is blocked has taken the call. *)
Definition closesFetch `{PublishErrorCodes} (code : Z) : bool := negb (code =? BLOCKED).

Definition isReset (l : Closure) : bool :=
  match l with OnSubgroup _ (SReset _) | OnFetch _ (FReset _) => true | _ => false end.
(** The closures that use filter [f], of these the ones that keep it alive, the
    ones that call [deactivate], and the ones that carry a call of the source. *)
Definition about (f : Z) (l : Closure) : bool :=
  match l with
  | OnSubgroup g _ | OnFetch g _ | AwaitReady g _ | GuardOf g | BeginSubgroup _ g _ _ _ _ => g =? f
  | _ => false
  end.
Definition holds (f : Z) (l : Closure) : bool :=
  about f l && match l with AwaitReady _ _ | GuardOf _ | BeginSubgroup _ _ _ _ _ _ => true | _ => isReset l end.
Definition deactivates (f : Z) (l : Closure) : bool :=
  about f l && match l with OnSubgroup _ c => subgroupEnds c | OnFetch _ c => fetchEnds c | _ => false end.
Definition carries (f : Z) (l : Closure) : bool :=
  about f l && match l with GuardOf _ | BeginSubgroup _ _ _ _ _ _ => false | _ => true end.
(** The same for a track filter. *)
Definition aboutTrack (t : Z) (l : Closure) : bool :=
  match l with OnTrack u _ | BeginSubgroup u _ _ _ _ _ => u =? t | _ => false end.
Definition holdsTrack (t : Z) (l : Closure) : bool :=
  match l with OnTrack u (TPublishDone _) => u =? t | _ => false end.

(** ** State *)

(** A [CrossExecSubgroupFilter] or a [FetchCrossExecFilter]. *)
Record Filter := mkFilter {
  selfGuard_ : bool;             (* selfGuard_ is set *)
  source : bool;                 (* the source holds its reference *)
  alive : bool;                  (* not destroyed *)
  stores : list Z;               (* the values of deferredError_ *)
  seen : nat;                    (* how many of them the source sees *)
  downstream_ : option Z;
  keepAlive_ : option Z;
  remaining_ : Z;                (* of payloadTracker_ *)
  queuedBytes_ : Z;
  drainedBytes_ : Z;
  closedWith : option Z;         (* what closeWithError stored, if it ran *)
}.
Record Track := mkTrack {
  t_source : bool;
  t_deleting : bool;             (* the deleter ran *)
  t_alive : bool;                (* the delete it posts has not run *)
  t_stores : list Z;
  t_seen : nat;
  t_downstream_ : option Z;
  objectStreamErrors_ : Z;
  datagramErrors_ : Z;
}.
(** A promise of [awaitReadyToConsume]: the bytes queued when it was made, and
    its value; [p_asked] while the readiness of the downstream consumer is pending. *)
Record ReadyPromise := mkReady {
  p_filter : Z; p_drained : Z; p_asked : bool; p_value : option Z; p_continued : bool;
}.
Inductive Answer := Accepts (consumer : Z) | Refuses (code : Z).

Record World := mkWorld {
  queue : list Closure;
  filters : gmap Z Filter;
  tracks : gmap Z Track;
  readies : gmap Z ReadyPromise;
  nextId : Z;
  ran : list Closure;                  (* what the executor has run *)
  made : list (Closure * Answer);      (* the calls made downstream, with the answers *)
  released : list Z;                   (* the references released on the executor *)
}.
Definition newWorld : World := mkWorld [] ∅ ∅ ∅ 0 [] [] [].

Definition set_filters x w := mkWorld (queue w) x (tracks w) (readies w) (nextId w) (ran w) (made w) (released w).
Definition set_tracks x w := mkWorld (queue w) (filters w) x (readies w) (nextId w) (ran w) (made w) (released w).
Definition set_readies x w := mkWorld (queue w) (filters w) (tracks w) x (nextId w) (ran w) (made w) (released w).
Definition bump w := mkWorld (queue w) (filters w) (tracks w) (readies w) (nextId w + 1) (ran w) (made w) (released w).
Definition log_call l a w :=
  mkWorld (queue w) (filters w) (tracks w) (readies w) (nextId w) (ran w) (made w ++ [(l, a)]) (released w).
Definition release refs w :=
  mkWorld (queue w) (filters w) (tracks w) (readies w) (nextId w) (ran w) (made w) (released w ++ refs).
Definition pop_queue l q w := mkWorld q (filters w) (tracks w) (readies w) (nextId w) (ran w ++ [l]) (made w) (released w).
(** What has been posted. *)
Definition posted (w : World) : list Closure := ran w ++ queue w.
(** [targetExec_->add]. *)
Definition add (l : Closure) (w : World) : World :=
  mkWorld (queue w ++ [l]) (filters w) (tracks w) (readies w) (nextId w) (ran w) (made w) (released w).

Definition set_selfGuard v x := mkFilter v (source x) (alive x) (stores x) (seen x) (downstream_ x)
  (keepAlive_ x) (remaining_ x) (queuedBytes_ x) (drainedBytes_ x) (closedWith x).
Definition drop_source x := mkFilter (selfGuard_ x) false (alive x) (stores x) (seen x) (downstream_ x)
  (keepAlive_ x) (remaining_ x) (queuedBytes_ x) (drainedBytes_ x) (closedWith x).
Definition destroyed x := mkFilter (selfGuard_ x) (source x) false (stores x) (seen x) None
  None (remaining_ x) (queuedBytes_ x) (drainedBytes_ x) (closedWith x).
Definition set_stores v n x := mkFilter (selfGuard_ x) (source x) (alive x) v n (downstream_ x)
  (keepAlive_ x) (remaining_ x) (queuedBytes_ x) (drainedBytes_ x) (closedWith x).
Definition set_downstream d ka x := mkFilter (selfGuard_ x) (source x) (alive x) (stores x) (seen x) (Some d)
  ka (remaining_ x) (queuedBytes_ x) (drainedBytes_ x) (closedWith x).
Definition set_remaining v x := mkFilter (selfGuard_ x) (source x) (alive x) (stores x) (seen x) (downstream_ x)
  (keepAlive_ x) v (queuedBytes_ x) (drainedBytes_ x) (closedWith x).
Definition set_queuedBytes v x := mkFilter (selfGuard_ x) (source x) (alive x) (stores x) (seen x) (downstream_ x)
  (keepAlive_ x) (remaining_ x) v (drainedBytes_ x) (closedWith x).
Definition set_drainedBytes v x := mkFilter (selfGuard_ x) (source x) (alive x) (stores x) (seen x) (downstream_ x)
  (keepAlive_ x) (remaining_ x) (queuedBytes_ x) v (closedWith x).
(** [closeWithError(code, std::move(downstream_))]; where the source passes no
    consumer there is none. *)
Definition closedFilter code x := mkFilter (selfGuard_ x) (source x) (alive x) (stores x ++ [code]) (seen x) None
  (keepAlive_ x) (remaining_ x) (queuedBytes_ x) (drainedBytes_ x) (Some code).
Definition update (f : Z) (g : Filter -> Filter) (w : World) : World := set_filters (alter g f (filters w)) w.
Definition updateTrack (t : Z) (g : Track -> Track) (w : World) : World := set_tracks (alter g t (tracks w)) w.

Definition set_t_deleting t := mkTrack (t_source t) true (t_alive t) (t_stores t) (t_seen t) (t_downstream_ t)
  (objectStreamErrors_ t) (datagramErrors_ t).
Definition drop_t_source t := mkTrack false (t_deleting t) (t_alive t) (t_stores t) (t_seen t) (t_downstream_ t)
  (objectStreamErrors_ t) (datagramErrors_ t).
Definition set_t_stores v n t := mkTrack (t_source t) (t_deleting t) (t_alive t) v n (t_downstream_ t)
  (objectStreamErrors_ t) (datagramErrors_ t).
Definition set_t_downstream d t := mkTrack (t_source t) (t_deleting t) (t_alive t) (t_stores t) (t_seen t) (Some d)
  (objectStreamErrors_ t) (datagramErrors_ t).
Definition t_destroyed t := mkTrack (t_source t) (t_deleting t) false (t_stores t) (t_seen t) None
  (objectStreamErrors_ t) (datagramErrors_ t).
Definition count_objectStream t := mkTrack (t_source t) (t_deleting t) (t_alive t) (t_stores t) (t_seen t)
  (t_downstream_ t) (u64 (objectStreamErrors_ t + 1)) (datagramErrors_ t).
Definition count_datagram t := mkTrack (t_source t) (t_deleting t) (t_alive t) (t_stores t) (t_seen t)
  (t_downstream_ t) (objectStreamErrors_ t) (u64 (datagramErrors_ t + 1)).

(** ** Errors and lifetimes *)

(** [loadDeferredError] by a thread that sees the first [n] stores. *)
Definition loadDeferredError (l : list Z) (n : nat) : option Z :=
  match last (take n l) with Some code => if code =? 0 then None else Some code | None => None end.

(** The destructors: what they own is released on the executor, the consumer
    before what keeps its parent alive. *)
Definition destroy (f : Z) (x : Filter) (w : World) : World :=
  let w' := update f destroyed w in
  match downstream_ x, keepAlive_ x with
  | None, None => w'
  | d, ka => add (ReleaseRefs (option_list d ++ option_list ka)) w'
  end.
(** After a reference to [f] has gone. *)
Definition dropRef (f : Z) (w : World) : World :=
  match filters w !! f with
  | Some x =>
    if alive x && negb (selfGuard_ x || source x || existsb (holds f) (queue w)) then destroy f x w else w
  | None => w
  end.
Definition collectTrack (t : Z) (w : World) : World :=
  match tracks w !! t with
  | Some x =>
    if negb (t_deleting x) && negb (t_source x || existsb (holdsTrack t) (queue w))
    then add (DeleteTrack t) (updateTrack t set_t_deleting w) else w
  | None => w
  end.

(** [storeDeferredError] on the executor, with the consumer released. *)
Definition closeWithError (f code : Z) (w : World) : World :=
  match filters w !! f with
  | Some x => release (option_list (downstream_ x)) (update f (closedFilter code) w)
  | None => w
  end.
Definition deactivate (f : Z) (w : World) : World := update f (set_selfGuard false) w.

(** ** The calls of a source *)

(** The filter a source calls, through its reference. *)
Definition theFilter (f : Z) (w : World) : option Filter :=
  x ← filters w !! f; if alive x && source x then Some x else None.
Definition theTrack (t : Z) (w : World) : option Track :=
  x ← tracks w !! t; if t_alive x && t_source x then Some x else None.

(** [enqueueDeactivate] reads [selfGuard_] on the source's thread. *)
Definition enqueueDeactivate (f : Z) (w : World) : option World :=
  x ← theFilter f w;
  if existsb (deactivates f) (posted w) then None
  else Some (if selfGuard_ x then add (GuardOf f) (update f (set_selfGuard false) w) else w).

(** Each call begins with the error that it can see. *)
Definition unlessFailed {A} (f : Z) (w : World) (k : Filter -> World * result Z A) : option (World * result Z A) :=
  x ← theFilter f w;
  match loadDeferredError (stores x) (seen x) with
  | Some err => w' ← enqueueDeactivate f w; Some (w', Err err)
  | None => Some (k x)
  end.

(** [ObjectPayloadByteTracker]. *)
Inductive ObjectPublishStatus := DONE | IN_PROGRESS.
Definition beginObjectBytes (length : Z) (initialPayload : Buffers) : Z :=
  length - Z.min length (computeChainDataLength initialPayload).
Definition consumeBytes (remaining : Z) (payload : Buffers) : Z * ObjectPublishStatus :=
  let r := match payload with
           | Some _ => if 0 <? remaining then remaining - Z.min remaining (computeChainDataLength payload) else remaining
           | None => remaining
           end in
  (r, if r =? 0 then DONE else IN_PROGRESS).

Definition sub_object (f objectID : Z) (payload : Buffers) (extensions : Z) (finSubgroup : bool) (w : World) :=
  unlessFailed f w (fun _ => (add (OnSubgroup f (SObject objectID payload extensions finSubgroup)) w, Ok tt)).
Definition sub_beginObject (f objectID length : Z) (initialPayload : Buffers) (extensions : Z) (w : World) :=
  unlessFailed f w (fun _ =>
    let w' := update f (set_remaining (beginObjectBytes length initialPayload)) w in
    (add (OnSubgroup f (SBeginObject objectID length initialPayload extensions)) w', Ok tt)).
Definition sub_objectPayload (f : Z) (payload : Buffers) (finSubgroup : bool) (w : World) :=
  unlessFailed f w (fun x =>
    let '(r, status) := consumeBytes (remaining_ x) payload in
    (add (OnSubgroup f (SObjectPayload payload finSubgroup)) (update f (set_remaining r) w), Ok status)).
Definition sub_endOfGroup (f endOfGroupObjectID : Z) (w : World) :=
  unlessFailed f w (fun _ => (add (OnSubgroup f (SEndOfGroup endOfGroupObjectID)) w, Ok tt)).
Definition sub_endOfTrackAndGroup (f endOfTrackObjectID : Z) (w : World) :=
  unlessFailed f w (fun _ => (add (OnSubgroup f (SEndOfTrackAndGroup endOfTrackObjectID)) w, Ok tt)).
Definition sub_endOfSubgroup (f : Z) (w : World) :=
  unlessFailed f w (fun _ => (add (OnSubgroup f SEndOfSubgroup) w, Ok tt)).
Definition sub_checkpoint (f : Z) (w : World) :=
  unlessFailed f w (fun _ => (add (OnSubgroup f SCheckpoint) w, Ok tt)).
(** Always ready. *)
Definition sub_awaitReadyToConsume (f : Z) (w : World) := unlessFailed f w (fun _ => (w, Ok 0)).

(** [reset] of both: the error is stored by the source, which sees its store. *)
Definition resetWith `{PublishErrorCodes} (l : Closure) (f : Z) (w : World) : option World :=
  x ← theFilter f w;
  let l' := stores x ++ [CANCELLED] in
  Some (add l (update f (set_stores l' (length l')) w)).
Definition reset_subgroup `{PublishErrorCodes} (f error : Z) (w : World) : option World :=
  resetWith (OnSubgroup f (SReset error)) f w.
Definition reset_fetch `{PublishErrorCodes} (f error : Z) (w : World) : option World :=
  resetWith (OnFetch f (FReset error)) f w.

Definition kWindowBytes : Z := 1024 * 1024.
Definition windowOpen (x : Filter) : bool := u64 (queuedBytes_ x - drainedBytes_ x) <? kWindowBytes.

Section fetch.
Context `{PublishErrorCodes}.

Definition fetch_countQueuedBytes (f : Z) (x : Filter) (bytes : Z) (w : World) : World * result Z unit :=
  let x' := set_queuedBytes (u64 (queuedBytes_ x + bytes)) x in
  (update f (set_queuedBytes (u64 (queuedBytes_ x + bytes))) w, if windowOpen x' then Ok tt else Err BLOCKED).

Definition fetch_object (f groupID subgroupID objectID : Z) (payload : Buffers) (extensions : Z)
    (finFetch forwardingPreferenceIsDatagram : bool) (w : World) :=
  unlessFailed f w (fun x =>
    let w' := add (OnFetch f (FObject groupID subgroupID objectID payload extensions finFetch
                                forwardingPreferenceIsDatagram)) w in
    if finFetch then (w', Ok tt) else fetch_countQueuedBytes f x (computeChainDataLength payload) w').
Definition fetch_beginObject (f groupID subgroupID objectID length : Z) (initialPayload : Buffers) (extensions : Z)
    (w : World) :=
  unlessFailed f w (fun x =>
    let w' := update f (set_remaining (beginObjectBytes length initialPayload)) w in
    let w' := add (OnFetch f (FBeginObject groupID subgroupID objectID length initialPayload extensions)) w' in
    fetch_countQueuedBytes f x (computeChainDataLength initialPayload) w').
Definition fetch_objectPayload (f : Z) (payload : Buffers) (finFetch : bool) (w : World) :=
  unlessFailed f w (fun x =>
    let '(r, status) := consumeBytes (remaining_ x) payload in
    let w' := add (OnFetch f (FObjectPayload payload finFetch)) (update f (set_remaining r) w) in
    if finFetch then (w', Ok status)
    else let '(w'', blocked) := fetch_countQueuedBytes f x (computeChainDataLength payload) w' in
         (w'', match blocked with Err e => Err e | Ok _ => Ok status end)).
Definition fetch_endOfGroup (f groupID subgroupID objectID : Z) (finFetch : bool) (w : World) :=
  unlessFailed f w (fun _ => (add (OnFetch f (FEndOfGroup groupID subgroupID objectID finFetch)) w, Ok tt)).
Definition fetch_endOfTrackAndGroup (f groupID subgroupID objectID : Z) (w : World) :=
  unlessFailed f w (fun _ => (add (OnFetch f (FEndOfTrackAndGroup groupID subgroupID objectID)) w, Ok tt)).
Definition fetch_endOfFetch (f : Z) (w : World) :=
  unlessFailed f w (fun _ => (add (OnFetch f FEndOfFetch) w, Ok tt)).
Definition fetch_checkpoint (f : Z) (w : World) :=
  unlessFailed f w (fun _ => (add (OnFetch f FCheckpoint) w, Ok tt)).
Definition fetch_endOfUnknownRange (f groupID objectID : Z) (finFetch : bool) (w : World) :=
  unlessFailed f w (fun _ => (add (OnFetch f (FEndOfUnknownRange groupID objectID finFetch)) w, Ok tt)).
(** The result is the promise that resolves when the consumer is ready for more,
    or nothing when it is ready now. *)
Definition fetch_awaitReadyToConsume (f : Z) (w : World) : option (World * result Z (option Z)) :=
  unlessFailed f w (fun x =>
    if windowOpen x then (w, Ok None)
    else
      let p := nextId w in
      let w' := bump (set_readies (<[p := mkReady f (queuedBytes_ x) false None false]> (readies w)) w) in
      (add (AwaitReady f p) w', Ok (Some p))).
End fetch.
(** What [awaitReadyToConsume] defers to the time its promise is resolved, on the
    source's thread. *)
Definition resolveReady (p v : Z) (w : World) : World :=
  set_readies (alter (fun r => mkReady (p_filter r) (p_drained r) false (Some v) (p_continued r)) p (readies w)) w.
Definition continued (r : ReadyPromise) := mkReady (p_filter r) (p_drained r) (p_asked r) (p_value r) true.
Definition continueReady (p : Z) (w : World) : option World :=
  match readies w !! p with
  | Some r =>
    match p_value r, p_continued r with
    | Some _, false =>
      let w' := set_readies (alter continued p (readies w)) w in
      match filters w !! p_filter r with
      | Some x =>
        if alive x && bool_decide (loadDeferredError (stores x) (seen x) = None)
        then if p_drained r <? drainedBytes_ x then None
             else Some (update (p_filter r) (set_drainedBytes (p_drained r)) w')
        else Some w'
      | None => Some w'
      end
    | _, _ => Some w
    end
  | None => Some w
  end.

Section track.
Context `{PublishErrorCodes}.

Definition track_unlessFailed {A} (t : Z) (w : World) (k : World * result Z A) : option (World * result Z A) :=
  x ← theTrack t w;
  Some (match loadDeferredError (t_stores x) (t_seen x) with Some err => (w, Err err) | None => k end).
Definition track_setTrackAlias (t alias : Z) (w : World) :=
  track_unlessFailed t w (add (OnTrack t (TSetTrackAlias alias)) w, Ok tt).
(** [CrossExecSubgroupFilter::create]: a filter with its guard and the reference
    that the source gets. *)
Definition track_newSubgroup : Filter := mkFilter true true true [] 0 None None 0 0 0 None.
Definition track_beginSubgroup (t groupID subgroupID priority options : Z) (w : World) :=
  let f := nextId w in
  let w' := bump (set_filters (<[f := track_newSubgroup]> (filters w)) w) in
  track_unlessFailed t w (add (BeginSubgroup t f groupID subgroupID priority options) w', Ok f).
Definition track_awaitStreamCredit (t : Z) (w : World) := track_unlessFailed t w (w, Ok tt).
Definition track_objectStream (t header : Z) (payload : Buffers) (lastInGroup : bool) (w : World) :=
  track_unlessFailed t w (add (OnTrack t (TObjectStream header payload lastInGroup)) w, Ok tt).
Definition track_datagram (t header : Z) (payload : Buffers) (lastInGroup : bool) (w : World) :=
  track_unlessFailed t w (add (OnTrack t (TDatagram header payload lastInGroup)) w, Ok tt).
Definition track_publishDone (t pubDone : Z) (w : World) : option World :=
  _ ← theTrack t w; Some (add (OnTrack t (TPublishDone pubDone)) w).
(** On the executor, which sees every store: the consumer to ask, or an error. *)
Definition track_beginFill (t : Z) (w : World) : option (result Z Z) :=
  x ← theTrack t w;
  Some (match loadDeferredError (t_stores x) (length (t_stores x)) with
        | Some err => Err err
        | None => match t_downstream_ x with Some d => Ok d | None => Err WRITE_ERROR end
        end).
End track.

(** [create] of the track and the fetch filter. *)
Definition createTrack (inner : option Z) (w : World) : World :=
  bump (set_tracks (<[nextId w := mkTrack true false true [] 0 inner 0 0]> (tracks w)) w).
Definition createFetch (downstream : Z) (w : World) : World :=
  bump (set_filters (<[nextId w := mkFilter true true true [] 0 (Some downstream) None 0 0 0 None]> (filters w)) w).

(** ** The executor runs a closure *)
Section target.
Context `{PublishErrorCodes}.

Definition runSubgroup (f : Z) (c : SubgroupOp) (a : Answer) (w : World) : option World :=
  x ← filters w !! f;
  if negb (alive x) then None
  else
    let w := match downstream_ x with
             | Some _ =>
               let w := log_call (OnSubgroup f c) a w in
               match a with Refuses code => if subgroupCloses c then closeWithError f code w else w | Accepts _ => w end
             | None => w
             end in
    Some (dropRef f (if subgroupEnds c then deactivate f w else w)).

Definition runFetch (f : Z) (c : FetchOp) (a : Answer) (w : World) : option World :=
  x ← filters w !! f;
  if negb (alive x) then None
  else
    let w := match downstream_ x with
             | Some _ =>
               let w := log_call (OnFetch f c) a w in
               match a with
               | Refuses code => if fetchCloses c && closesFetch code then closeWithError f code w else w
               | Accepts _ => w
               end
             | None => w
             end in
    Some (dropRef f (if fetchEnds c then deactivate f w else w)).

Definition set_asked (b : bool) (p : Z) (w : World) : World :=
  set_readies (alter (fun r => mkReady (p_filter r) (p_drained r) b (p_value r) (p_continued r)) p (readies w)) w.
Definition runAwaitReady (f p : Z) (a : Answer) (w : World) : option World :=
  x ← filters w !! f;
  if negb (alive x) then None
  else
    Some (dropRef f
      match downstream_ x with
      | None => resolveReady p 0 w
      | Some _ =>
        let w := log_call (AwaitReady f p) a w in
        match a with
        | Refuses code => resolveReady p 0 (closeWithError f code w)
        | Accepts _ => set_asked true p w
        end
      end).
Definition runThenReady (f p : Z) (value : option Z) (w : World) : option World :=
  Some match value with
       | Some v => resolveReady p v w
       | None =>
         let failed := match filters w !! f with
                       | Some x => alive x && bool_decide (downstream_ x <> None)
                       | None => false
                       end in
         resolveReady p 0 (if failed then closeWithError f WRITE_ERROR w else w)
       end.

Definition runBeginSubgroup (t f : Z) (l : Closure) (a : Answer) (w : World) : option World :=
  y ← tracks w !! t;
  if negb (t_alive y) then None
  else
    Some (dropRef f
      match t_downstream_ y with
      | None => closeWithError f WRITE_ERROR w
      | Some d =>
        let w := log_call l a w in
        match a with
        | Accepts consumer => update f (set_downstream consumer (Some d)) w
        | Refuses code => closeWithError f code w
        end
      end).

Definition runTrack (t : Z) (c : TrackCallOp) (a : Answer) (w : World) : option World :=
  y ← tracks w !! t;
  if negb (t_alive y) then None
  else
    let failed := match t_downstream_ y, a with None, _ | _, Refuses _ => true | _, _ => false end in
    let w := match t_downstream_ y with Some _ => log_call (OnTrack t c) a w | None => w end in
    Some (collectTrack t
      match c with
      | TSetTrackAlias _ =>
        let code := match t_downstream_ y, a with
                    | None, _ => Some WRITE_ERROR | _, Refuses code => Some code | _, _ => None end in
        match code with
        | Some code => updateTrack t (fun y => set_t_stores (t_stores y ++ [code]) (t_seen y) y) w
        | None => w
        end
      | TObjectStream _ _ _ => if failed then updateTrack t count_objectStream w else w
      | TDatagram _ _ _ => if failed then updateTrack t count_datagram w else w
      | TPublishDone _ => w
      end).
Definition runDeleteTrack (t : Z) (w : World) : option World :=
  y ← tracks w !! t;
  if t_alive y then Some (release (option_list (t_downstream_ y)) (updateTrack t t_destroyed w)) else None.

(** The executor takes the closure posted first. *)
Definition runNext (a : Answer) (w : World) : option World :=
  match queue w with
  | [] => Some w
  | l :: q =>
    let w := pop_queue l q w in
    match l with
    | OnSubgroup f c => runSubgroup f c a w
    | OnFetch f c => runFetch f c a w
    | AwaitReady f p => runAwaitReady f p a w
    | ThenReady f p value => runThenReady f p value w
    | GuardOf f => Some (dropRef f w)
    | BeginSubgroup t f _ _ _ _ => runBeginSubgroup t f l a w
    | OnTrack t c => runTrack t c a w
    | DeleteTrack t => runDeleteTrack t w
    | ReleaseRefs refs => Some (release refs w)
    end
  end.

(** The readiness of the downstream consumer resolves, to a value or an exception:
    the continuation is posted. *)
Definition downstreamReady (p : Z) (value : option Z) (w : World) : World :=
  match readies w !! p with
  | Some r => if p_asked r then add (ThenReady (p_filter r) p value) (set_asked false p w) else w
  | None => w
  end.
End target.

(** ** Events *)
Inductive XEvent :=
  | NewTrack (inner : option Z)
  | NewFetch (downstream : Z)
  | SubgroupCalls (f : Z) (c : SubgroupOp)
  | FetchCalls (f : Z) (c : FetchOp)
  | FetchAwaits (f : Z)
  | TrackCalls (t : Z) (c : TrackCallOp)
  | TrackBegins (t groupID subgroupID priority options : Z)
  | Sees (f : Z) (n : nat)              (* the source's view of deferredError_ *)
  | TrackSees (t : Z) (n : nat)
  | Drops (f : Z)
  | DropsTrack (t : Z)
  | SetsDownstream (t d : Z)            (* on the executor *)
  | FetchUnused (f : Z)                 (* the request failed, the filter was not used *)
  | Runs (a : Answer)
  | Ready (p : Z) (value : option Z)
  | Continues (p : Z)
  | SubgroupAwaits (f : Z)
  | TrackAwaits (t : Z).                (* awaitStreamCredit *)

Definition outcome {A} (r : option (World * A)) : option World := fst <$> r.

Section run.
Context `{PublishErrorCodes}.

Definition subgroupCall (f : Z) (c : SubgroupOp) (w : World) : option World :=
  match c with
  | SObject o p e fin => outcome (sub_object f o p e fin w)
  | SBeginObject o n p e => outcome (sub_beginObject f o n p e w)
  | SObjectPayload p fin => outcome (sub_objectPayload f p fin w)
  | SEndOfGroup o => outcome (sub_endOfGroup f o w)
  | SEndOfTrackAndGroup o => outcome (sub_endOfTrackAndGroup f o w)
  | SEndOfSubgroup => outcome (sub_endOfSubgroup f w)
  | SReset e => reset_subgroup f e w
  | SCheckpoint => outcome (sub_checkpoint f w)
  end.
Definition fetchCall (f : Z) (c : FetchOp) (w : World) : option World :=
  match c with
  | FObject g s o p e fin d => outcome (fetch_object f g s o p e fin d w)
  | FBeginObject g s o n p e => outcome (fetch_beginObject f g s o n p e w)
  | FObjectPayload p fin => outcome (fetch_objectPayload f p fin w)
  | FEndOfGroup g s o fin => outcome (fetch_endOfGroup f g s o fin w)
  | FEndOfTrackAndGroup g s o => outcome (fetch_endOfTrackAndGroup f g s o w)
  | FEndOfFetch => outcome (fetch_endOfFetch f w)
  | FEndOfUnknownRange g o fin => outcome (fetch_endOfUnknownRange f g o fin w)
  | FReset e => reset_fetch f e w
  | FCheckpoint => outcome (fetch_checkpoint f w)
  end.
Definition trackCall (t : Z) (c : TrackCallOp) (w : World) : option World :=
  match c with
  | TSetTrackAlias a => outcome (track_setTrackAlias t a w)
  | TObjectStream h p b => outcome (track_objectStream t h p b w)
  | TDatagram h p b => outcome (track_datagram t h p b w)
  | TPublishDone d => track_publishDone t d w
  end.

(** [PublisherCrossExecFilter::fetch] after an error: [deactivate] on the
    executor, through a reference of its own. *)
Definition fetchUnused (f : Z) (w : World) : World := dropRef f (deactivate f w).

Definition step (e : XEvent) (w : World) : option World :=
  match e with
  | NewTrack inner => Some (createTrack inner w)
  | NewFetch d => Some (createFetch d w)
  | SubgroupCalls f c => subgroupCall f c w
  | FetchCalls f c => fetchCall f c w
  | FetchAwaits f => outcome (fetch_awaitReadyToConsume f w)
  | TrackCalls t c => trackCall t c w
  | TrackBegins t g s p o => outcome (track_beginSubgroup t g s p o w)
  | Sees f n => Some (update f (fun x => set_stores (stores x) (Nat.max (seen x) (Nat.min n (length (stores x)))) x) w)
  | TrackSees t n =>
    Some (updateTrack t (fun y => set_t_stores (t_stores y) (Nat.max (t_seen y) (Nat.min n (length (t_stores y)))) y) w)
  | Drops f => Some (dropRef f (update f drop_source w))
  | DropsTrack t => Some (collectTrack t (updateTrack t drop_t_source w))
  | SetsDownstream t d => Some (updateTrack t (set_t_downstream d) w)
  | FetchUnused f => Some (fetchUnused f w)
  | Runs a => runNext a w
  | Ready p value => Some (downstreamReady p value w)
  | Continues p => continueReady p w
  | SubgroupAwaits f => outcome (sub_awaitReadyToConsume f w)
  | TrackAwaits t => outcome (track_awaitStreamCredit t w)
  end.
Fixpoint run (es : list XEvent) (w : World) : option World :=
  match es with
  | [] => Some w
  | e :: es => w ← step e w; run es w
  end.
End run.
