(* ===== verification/CrossExecTheorems.v ===== *)
(** What the cross-executor filters guarantee: no closure runs on a dead filter,
    no filter is left behind, calls reach the consumer in order, the window of a
    fetch. *)

From S2P Require Import Prelude CrossExec.

(** ** What a filter sees of the world *)

Definition mine (f : Z) (l : list Closure) : list Closure := List.filter (about f) l.
(** The calls of the source of [f] that reached its consumer. *)
Definition reached (f : Z) (w : World) : list Closure := List.filter (carries f) (map fst (made w)).
(** [deactivate] or the guard's own closure. *)
Definition letsGo (f : Z) (l : Closure) : bool := deactivates f l || match l with GuardOf g => g =? f | _ => false end.
Definition begins (l : Closure) : bool := match l with BeginSubgroup _ _ _ _ _ _ => true | _ => false end.
Definition plain (f : Z) (l : Closure) : bool := about f l && negb (letsGo f l).
Definition resets (f : Z) (l : Closure) : bool := about f l && isReset l.

(** The closures of one filter that are still to run: calls, then at most one
    that lets the guard go, then resets. *)
Inductive phase (f : Z) : bool -> list Closure -> Prop :=
| ph_open A : Forall (fun l => plain f l = true) A -> phase f true A
| ph_ending A l K : Forall (fun l => plain f l = true) A -> deactivates f l = true ->
    Forall (fun l => resets f l = true) K -> phase f true (A ++ l :: K)
| ph_guard A K : Forall (fun l => plain f l = true) A -> Forall (fun l => resets f l = true) K ->
    phase f false (A ++ GuardOf f :: K)
| ph_over K : Forall (fun l => resets f l = true) K -> phase f false K.

(** The invariant of filter [f], with the closures about it that ran and that
    wait, and the calls that reached the consumer. *)
Record fbody (f : Z) (x : Filter) (R Q M : list Closure) : Prop := {
  fi_phase : phase f (selfGuard_ x) Q;
  fi_ran : selfGuard_ x = true -> existsb (letsGo f) R = false;
  fi_seen : (seen x <= length (stores x))%nat;
  fi_stores : existsb (deactivates f) (R ++ Q) = false -> stores x = option_list (closedWith x);
  fi_refused : selfGuard_ x = false -> source x = true -> existsb (deactivates f) (R ++ Q) = false ->
    exists c, c <> 0 /\ closedWith x = Some c /\ seen x = 1%nat;
  fi_closed : closedWith x <> None -> downstream_ x = None;
  fi_begin : existsb begins Q = true -> R = [] /\ closedWith x = None /\ downstream_ x = None /\
    exists b Q', Q = b :: Q' /\ begins b = true /\ existsb begins Q' = false;
  fi_down : alive x = true -> downstream_ x <> None \/ closedWith x <> None \/ existsb begins Q = true;
  fi_made : closedWith x = None -> M = List.filter (carries f) R;
  fi_prefix : M `prefix_of` List.filter (carries f) R;
  fi_told c : closedWith x = Some c -> c ∈ stores x;
}.
(** With the references that keep it alive. *)
Definition held (f : Z) (x : Filter) (Q : list Closure) : bool := selfGuard_ x || source x || existsb (holds f) Q.
Record finv (f : Z) (x : Filter) (R Q M : list Closure) : Prop := {
  fi_body : fbody f x R Q M;
  fi_alive : alive x = held f x Q;
  fi_dead : alive x = false -> downstream_ x = None /\ keepAlive_ x = None;
}.
(** What [dropRef] makes of it. *)
Definition settle (f : Z) (x : Filter) (Q : list Closure) : Filter :=
  if alive x && negb (held f x Q) then destroyed x else x.

(** A track filter and the closures that use or delete it. *)
Definition mineTrack (t : Z) (l : list Closure) : list Closure :=
  List.filter (fun c => aboutTrack t c || match c with DeleteTrack u => u =? t | _ => false end) l.
Inductive tinv (t : Z) (y : Track) (Q : list Closure) : Prop :=
| ti_held : t_deleting y = false -> t_alive y = true -> t_source y || existsb (holdsTrack t) Q = true ->
    Forall (fun l => aboutTrack t l = true) Q -> tinv t y Q
| ti_deleting A : t_deleting y = true -> t_source y = false -> t_alive y = true -> Q = A ++ [DeleteTrack t] ->
    Forall (fun l => aboutTrack t l && negb (holdsTrack t l) = true) A -> tinv t y Q
| ti_deleted : t_deleting y = true -> t_source y = false -> t_alive y = false -> Q = [] -> tinv t y Q.

Definition knows (w : World) (l : Closure) : Prop :=
  (forall f, about f l = true -> is_Some (filters w !! f)) /\
  (forall t, aboutTrack t l = true \/ l = DeleteTrack t -> is_Some (tracks w !! t)).
Record inv (w : World) : Prop := {
  inv_filter f x : filters w !! f = Some x -> finv f x (mine f (ran w)) (mine f (queue w)) (reached f w);
  inv_track t y : tracks w !! t = Some y -> tinv t y (mineTrack t (queue w));
  inv_knows : Forall (knows w) (posted w);
  inv_fresh : (forall f, is_Some (filters w !! f) -> f < nextId w) /\ (forall t, is_Some (tracks w !! t) -> t < nextId w);
  inv_order : map fst (made w) `sublist_of` ran w;
}.

(** ** The closures of a filter *)
Lemma plain_about f l : plain f l = true -> about f l = true.
Proof. by intros [? _]%andb_prop. Qed.
Lemma holds_about f l : holds f l = true -> about f l = true.
Proof. by intros [? _]%andb_prop. Qed.
Lemma deactivates_about f l : deactivates f l = true -> about f l = true.
Proof. by intros [? _]%andb_prop. Qed.
Lemma carries_about f l : carries f l = true -> about f l = true.
Proof. by intros [? _]%andb_prop. Qed.
Lemma resets_deactivates f l : resets f l = true -> deactivates f l = true.
Proof. unfold resets, deactivates. by destruct (about f l), l as [? []|? []| | | | | | |]. Qed.
Lemma resets_holds f l : resets f l = true -> holds f l = true.
Proof. unfold resets, holds. by destruct (about f l), l as [? []|? []| | | | | | |]. Qed.
Lemma plain_not_deactivates f l : plain f l = true -> deactivates f l = false.
Proof. unfold plain, letsGo. destruct (deactivates f l); [|done]. by rewrite andb_false_r. Qed.
Lemma plain_or_deactivates f l :
  about f l = true -> match l with GuardOf _ => false | _ => true end = true ->
  plain f l = negb (deactivates f l).
Proof. unfold plain, letsGo. intros -> Hl. destruct l; try done; by rewrite orb_false_r. Qed.

Lemma existsb_mine (p : Closure -> bool) f l :
  (forall c, p c = true -> about f c = true) -> existsb p l = existsb p (mine f l).
Proof.
  intros Hp. unfold mine. induction l as [|c l IH]; [done|]. cbn. destruct (about f c) eqn:E; cbn; [by rewrite IH|].
  destruct (p c) eqn:Ep; [by rewrite Hp in E|done].
Qed.
Lemma filter_carries_mine f l : List.filter (carries f) (mine f l) = List.filter (carries f) l.
Proof.
  unfold mine. induction l as [|c l IH]; [done|]. cbn. destruct (about f c) eqn:E; cbn; [by rewrite IH|].
  destruct (carries f c) eqn:Ec; [by rewrite (carries_about _ _ Ec) in E|done].
Qed.
Lemma mine_app f l k : mine f (l ++ k) = mine f l ++ mine f k.
Proof. apply List.filter_app. Qed.
Lemma Forall_mine f l : Forall (fun c => about f c = true) (mine f l).
Proof. unfold mine. induction l as [|c l IH]; [done|]. cbn. destruct (about f c) eqn:E; [by constructor|done]. Qed.

(** A filter with a closure about it that waits is alive. *)
Lemma phase_alive f g Q : phase f g Q -> Q <> [] -> g || existsb (holds f) Q = true.
Proof.
  intros [A|A l K|A K|K HK] Hne; try done.
  - rewrite existsb_app. cbn. unfold holds at 2. cbn. rewrite Z.eqb_refl. by rewrite orb_true_r.
  - destruct HK as [|l K Hl]; [done|]. cbn. by rewrite (resets_holds _ _ Hl).
Qed.
Lemma phase_post f Q l :
  phase f true Q -> existsb (deactivates f) Q = false -> plain f l || deactivates f l = true -> phase f true (Q ++ [l]).
Proof.
  intros Hp He Hl. inversion Hp as [A HA|A l' K HA Hd HK| |]; subst.
  - destruct (plain f l) eqn:E; [|by apply ph_ending]. apply ph_open. by apply Forall_app_2, Forall_singleton.
  - rewrite existsb_app in He. cbn in He. rewrite Hd in He. by rewrite orb_true_r in He.
Qed.
Lemma phase_guard f Q :
  phase f true Q -> existsb (deactivates f) Q = false -> phase f false (Q ++ [GuardOf f]).
Proof.
  intros Hp He. inversion Hp as [A HA|A l' K HA Hd HK| |]; subst; [by apply ph_guard|].
  rewrite existsb_app in He. cbn in He. rewrite Hd in He. by rewrite orb_true_r in He.
Qed.
Lemma phase_reset f g Q l : phase f g Q -> resets f l = true -> phase f g (Q ++ [l]).
Proof.
  intros Hp Hl. assert (Hd := resets_deactivates _ _ Hl).
  destruct Hp as [A HA|A l' K HA Hd' HK|A K HA HK|K HK]; rewrite <- ?app_assoc, <- ?app_comm_cons.
  - by apply ph_ending.
  - apply ph_ending; [done..|]. by apply Forall_app_2, Forall_singleton.
  - apply ph_guard; [done..|]. by apply Forall_app_2, Forall_singleton.
  - apply ph_over. by apply Forall_app_2, Forall_singleton.
Qed.
(** The first closure runs. *)
Lemma phase_run f g l Q :
  phase f g (l :: Q) -> phase f (if letsGo f l then false else g) Q.
Proof.
  intros Hp. assert (Hlet : forall c, plain f c = true -> letsGo f c = false).
  { intros c [_ E]%andb_prop. by destruct (letsGo f c). }
  inversion Hp as [A HA E1 E2|A l' K HA Hd HK E1 E2|A K HA HK E1 E2|K HK E1 E2]; subst.
  - inversion HA; subst. rewrite Hlet by done. by apply ph_open.
  - destruct A as [|a A]; cbn in E2; injection E2 as E3 E4; subst.
    + unfold letsGo. rewrite Hd. by apply ph_over.
    + inversion HA; subst. rewrite Hlet by done. by apply ph_ending.
  - destruct A as [|a A]; cbn in E2; injection E2 as E3 E4; subst.
    + unfold letsGo. rewrite Z.eqb_refl, orb_true_r. by apply ph_over.
    + inversion HA; subst. rewrite Hlet by done. by apply ph_guard.
  - inversion HK; subst. destruct (letsGo f l); by apply ph_over.
Qed.

(** ** One filter, step by step *)
Lemma load_Some l n c : loadDeferredError l n = Some c -> c <> 0 /\ last (take n l) = Some c.
Proof.
  unfold loadDeferredError. destruct (last _) as [c'|]; [|done]. destruct (Z.eqb_spec c' 0); [done|]. by intros [= <-].
Qed.

Section filter_steps.
Context `{PublishErrorCodes}.
Implicit Types (x : Filter) (R Q M : list Closure) (l : Closure).

Lemma finv_settle f x R Q M :
  fbody f x R Q M ->
  alive x = true \/ held f x Q = false /\ downstream_ x = None /\ keepAlive_ x = None ->
  finv f (settle f x Q) R Q M.
Proof.
  intros B Ha. unfold settle. destruct (alive x) eqn:E; cbn.
  - destruct (held f x Q) eqn:Eh; cbn; [by split; [done|congruence|congruence]|].
    split; [|by unfold held in *; cbn|done]. destruct B as [P1 P2 P3 P4 P5 P6 P7 P8 P9 P10 P11].
    constructor; try done. intros E'. by destruct (P7 E') as (? & ? & ? & ?).
  - destruct Ha as [|(Hh & ? & ?)]; [done|]. by split; [done|congruence|].
Qed.

(** The bookkeeping of bytes does not matter. *)
Lemma finv_remaining f v x R Q M : finv f x R Q M -> finv f (set_remaining v x) R Q M.
Proof. intros [B ? ?]. split; [destruct B; by constructor|done..]. Qed.
Lemma finv_queued f v x R Q M : finv f x R Q M -> finv f (set_queuedBytes v x) R Q M.
Proof. intros [B ? ?]. split; [destruct B; by constructor|done..]. Qed.
Lemma finv_drained f v x R Q M : finv f x R Q M -> finv f (set_drainedBytes v x) R Q M.
Proof. intros [B ? ?]. split; [destruct B; by constructor|done..]. Qed.

(** A source that can call and sees no error has its guard. *)
Lemma finv_guarded f x R Q M :
  finv f x R Q M -> source x = true -> existsb (deactivates f) (R ++ Q) = false ->
  loadDeferredError (stores x) (seen x) = None -> selfGuard_ x = true.
Proof.
  intros [B _ _] Hs He Hl. destruct (selfGuard_ x) eqn:E; [done|]. exfalso.
  destruct (fi_refused _ _ _ _ _ B E Hs He) as (c & Hc & Hcw & Hn).
  rewrite (fi_stores _ _ _ _ _ B He), Hcw, Hn in Hl. cbn in Hl. unfold loadDeferredError in Hl. cbn in Hl.
  by rewrite (proj2 (Z.eqb_neq c 0) Hc) in Hl.
Qed.

Lemma begin_grows Q l :
  begins l = false ->
  (existsb begins (Q ++ [l]) = existsb begins Q) /\
  ((exists b Q', Q = b :: Q' /\ begins b = true /\ existsb begins Q' = false) ->
   exists b Q', Q ++ [l] = b :: Q' /\ begins b = true /\ existsb begins Q' = false).
Proof.
  intros Hl. split; [by rewrite existsb_app; cbn; rewrite Hl, !orb_false_r|].
  intros (b & Q' & -> & ? & ?). exists b, (Q' ++ [l]). rewrite existsb_app. cbn. by rewrite Hl, !orb_false_r.
Qed.
Lemma ended_grows f R Q l : existsb (deactivates f) (R ++ Q ++ [l]) = false -> existsb (deactivates f) (R ++ Q) = false.
Proof. rewrite app_assoc, existsb_app. by intros [? _]%orb_false_elim. Qed.

Lemma finv_post f x R Q M l :
  finv f x R Q M -> source x = true -> existsb (deactivates f) (R ++ Q) = false ->
  loadDeferredError (stores x) (seen x) = None ->
  carries f l = true -> finv f x R (Q ++ [l]) M.
Proof.
  intros I Hs He Hload Hl. assert (Hg := finv_guarded _ _ _ _ _ I Hs He Hload). destruct I as [B Ha Hd].
  assert (Hb : begins l = false) by (unfold carries in Hl; by destruct l, (about f _)).
  destruct (begin_grows Q l Hb) as [Eb Gb]. destruct B as [P1 P2 P3 P4 P5 P6 P7 P8 P9 P10 P11].
  split; [|by rewrite Ha; unfold held; rewrite Hg|done].
  constructor; rewrite ?Eb; try done.
  - rewrite Hg in *. rewrite existsb_app in He. apply orb_false_elim in He as [_ He]. apply phase_post; [done..|].
    rewrite plain_or_deactivates; [by destruct (deactivates f l)|by apply carries_about|].
    unfold carries in Hl. by destruct l, (about f _).
  - intros E. by eapply P4, ended_grows.
  - by rewrite Hg.
  - intros E. destruct (P7 E) as (? & ? & ? & ?). split_and!; [done..|]. by apply Gb.
Qed.

Lemma finv_deactivate f x R Q M c :
  finv f x R Q M -> source x = true -> selfGuard_ x = true -> existsb (deactivates f) (R ++ Q) = false ->
  loadDeferredError (stores x) (seen x) = Some c -> finv f (set_selfGuard false x) R (Q ++ [GuardOf f]) M.
Proof.
  intros [B Ha Hd] Hs Hg He Hload. destruct (begin_grows Q (GuardOf f) eq_refl) as [Eb Gb].
  destruct B as [P1 P2 P3 P4 P5 P6 P7 P8 P9 P10 P11].
  split; [|cbn; rewrite Ha; unfold held; cbn; by rewrite Hg, Hs|done].
  constructor; cbn [selfGuard_ source seen stores closedWith downstream_ alive set_selfGuard]; rewrite ?Eb; try done.
  - rewrite Hg in *. rewrite existsb_app in He. apply orb_false_elim in He as [_ He]. by apply phase_guard.
  - intros E. by eapply P4, ended_grows.
  - intros _ _ _. apply load_Some in Hload as [Hc Hlast]. rewrite (P4 He) in *. destruct (closedWith x) as [c'|]; cbn in *.
    + destruct (seen x) as [|[|n]]; cbn in *; [done| |lia]. simplify_eq. eauto.
    + by rewrite take_nil in Hlast.
  - intros E. destruct (P7 E) as (? & ? & ? & ?). split_and!; [done..|]. by apply Gb.
Qed.

Lemma finv_reset f x R Q M l c :
  finv f x R Q M -> source x = true -> resets f l = true ->
  finv f (set_stores (stores x ++ [c]) (length (stores x ++ [c])) x) R (Q ++ [l]) M.
Proof.
  intros [B Ha Hd] Hs Hl. assert (Hb : begins l = false) by (by destruct l; try done; unfold resets in Hl; rewrite andb_false_r in Hl).
  destruct (begin_grows Q l Hb) as [Eb Gb]. destruct B as [P1 P2 P3 P4 P5 P6 P7 P8 P9 P10 P11].
  assert (He : existsb (deactivates f) (R ++ Q ++ [l]) = true).
  { rewrite !existsb_app. cbn. rewrite (resets_deactivates _ _ Hl). by rewrite !orb_true_r. }
  split; [|cbn; rewrite Ha; unfold held; cbn; by rewrite Hs, !orb_true_r|done].
  constructor; cbn [selfGuard_ source seen stores closedWith downstream_ alive set_stores]; rewrite ?Eb, ?He; try done.
  - by apply phase_reset.
  - intros E. destruct (P7 E) as (? & ? & ? & ?). split_and!; [done..|]. by apply Gb.
  - intros c' E. apply elem_of_app. left. by apply P11.
Qed.

Lemma finv_sees f x R Q M n :
  finv f x R Q M -> finv f (set_stores (stores x) (Nat.max (seen x) (Nat.min n (length (stores x)))) x) R Q M.
Proof.
  intros [B Ha Hd]. destruct B as [P1 P2 P3 P4 P5 P6 P7 P8 P9 P10 P11].
  split; [|done..]. constructor; cbn [selfGuard_ source seen stores closedWith downstream_ alive set_stores]; try done; [lia|].
  intros Hg Hs He. destruct (P5 Hg Hs He) as (c & Hc & Hcw & Hn). exists c. split_and!; [done..|].
  rewrite (P4 He), Hcw, Hn. cbn. lia.
Qed.

Lemma finv_drop f x R Q M : finv f x R Q M -> finv f (settle f (drop_source x) Q) R Q M.
Proof.
  intros [B Ha Hd]. apply finv_settle.
  - destruct B. by constructor.
  - cbn. destruct (alive x) eqn:E; [by left|right]. split; [|by apply Hd].
    unfold held in *. cbn. symmetry in Ha. by apply orb_false_elim in Ha as [[-> _]%orb_false_elim ->].
Qed.

(** [deactivate] of a filter whose source never called it. *)
Lemma finv_unused f x M :
  finv f x [] [] M -> source x = false -> finv f (settle f (set_selfGuard false x) []) [] [] M.
Proof.
  intros [B Ha Hd] Hs. apply finv_settle.
  - destruct B as [P1 P2 P3 P4 P5 P6 P7 P8 P9 P10 P11]. constructor; try done; [by apply ph_over|]. cbn. congruence.
  - cbn. destruct (alive x) eqn:E; [by left|right]. split; [|by apply Hd]. unfold held. cbn. by rewrite Hs.
Qed.

(** The executor runs the first closure. *)
Definition afterCall (f : Z) (l : Closure) (closing : option Z) (x : Filter) : Filter :=
  let x := match closing with Some c => closedFilter c x | None => x end in
  if deactivates f l then set_selfGuard false x else x.

Lemma fbody_call f x R Q M l closing :
  finv f x R (l :: Q) M -> alive x = true -> carries f l = true ->
  (closing <> None -> downstream_ x <> None) ->
  fbody f (afterCall f l closing x) (R ++ [l]) Q (match downstream_ x with Some _ => M ++ [l] | None => M end).
Proof.
  intros [B Ha Hd] Halive Hl Hclosing. destruct B as [P1 P2 P3 P4 P5 P6 P7 P8 P9 P10 P11].
  assert (Hb : begins l = false) by (unfold carries in Hl; by destruct l, (about f _)).
  assert (Hlet : letsGo f l = deactivates f l).
  { unfold letsGo. unfold carries in Hl. destruct l; try (by rewrite orb_false_r). by rewrite andb_false_r in Hl. }
  assert (Hnb : existsb begins Q = false).
  { destruct (existsb begins Q) eqn:E; [|done]. destruct P7 as (_ & _ & _ & b & Q' & [= <- <-] & ? & ?); [by cbn; rewrite Hb|congruence]. }
  assert (He : existsb (deactivates f) ((R ++ [l]) ++ Q) = existsb (deactivates f) (R ++ l :: Q)) by by rewrite <- app_assoc.
  assert (Hcl : closing <> None -> closedWith x = None).
  { intros ?%Hclosing. destruct (closedWith x); [|done]. by specialize (P6 ltac:(done)). }
  assert (Hdn : downstream_ x <> None \/ closedWith x <> None).
  { specialize (P8 Halive). cbn [existsb] in P8. rewrite Hb, Hnb in P8. by destruct P8 as [?|[?|?]]; [left|right|]. }
  apply phase_run in P1. rewrite Hlet in P1. unfold afterCall.
  constructor; rewrite ?He, ?Hnb; try done.
  - by destruct closing, (deactivates f l).
  - rewrite existsb_app. cbn. rewrite Hlet. destruct closing, (deactivates f l); cbn; intros Hg; try done; by rewrite P2.
  - destruct closing, (deactivates f l); cbn; rewrite ?length_app; cbn; lia.
  - intros E. specialize (P4 E). destruct closing as [c|].
    + rewrite (Hcl ltac:(done)) in P4. destruct (deactivates f l); cbn; by rewrite P4.
    + by destruct (deactivates f l).
  - intros Hg Hs E. assert (Ed : deactivates f l = false).
    { rewrite existsb_app in E. cbn in E. by apply orb_false_elim in E as [_ [? _]%orb_false_elim]. }
    rewrite Ed in *. destruct closing as [c|]; cbn in *; [|by apply P5].
    destruct (P5 Hg Hs E) as (c' & _ & Hc' & _). by rewrite (Hcl ltac:(done)) in Hc'.
  - destruct closing, (deactivates f l); cbn; done.
  - intros _. destruct closing, (deactivates f l); cbn; [by right; left..|by destruct Hdn; auto|by destruct Hdn; auto].
  - intros Hcw. assert (closing = None /\ closedWith x = None) as [-> Hcx] by (destruct closing, (deactivates f l); done).
    destruct (downstream_ x); [|naive_solver]. rewrite P9, List.filter_app by done. cbn. by rewrite Hl.
  - rewrite List.filter_app. cbn. rewrite Hl. destruct (downstream_ x) eqn:Ed; [|by apply prefix_app_r].
    destruct (closedWith x) eqn:Ec; [by specialize (P6 ltac:(done))|]. by rewrite P9.
  - intros c. destruct closing as [c'|], (deactivates f l); cbn; try apply P11; intros [= ->]; apply elem_of_app; right; by apply list_elem_of_singleton.
Qed.

Lemma phase_guard_gone f g Q : phase f g (GuardOf f :: Q) -> g = false.
Proof.
  assert (Hp : plain f (GuardOf f) = false) by (unfold plain, letsGo; cbn; by rewrite Z.eqb_refl, orb_true_r).
  assert (Hd : deactivates f (GuardOf f) = false) by (unfold deactivates; apply andb_false_r).
  intros P. inversion P as [A HA E1 E2|A l' K HA Hd' HK E1 E2| |]; subst; [|clear P|done..].
  - inversion HA; subst. congruence.
  - destruct A as [|a A]; cbn in E2; injection E2 as E3 E4; subst; [congruence|]. inversion HA; subst. congruence.
Qed.
Lemma fbody_guard f x R Q M : finv f x R (GuardOf f :: Q) M -> fbody f x (R ++ [GuardOf f]) Q M.
Proof.
  intros [B Ha Hd]. destruct B as [P1 P2 P3 P4 P5 P6 P7 P8 P9 P10 P11]. assert (Hg := phase_guard_gone _ _ _ P1).
  assert (Hnb : existsb begins Q = false).
  { destruct (existsb begins Q) eqn:E; [|done]. by destruct (P7 E) as (_ & _ & _ & b & Q' & [= <- <-] & ? & ?). }
  assert (Hc : List.filter (carries f) (R ++ [GuardOf f]) = List.filter (carries f) R).
  { rewrite List.filter_app. cbn. unfold carries. rewrite andb_false_r. apply app_nil_r. }
  apply phase_run in P1. rewrite Hg in *.
  constructor; rewrite ?Hc, ?Hnb, <- ?app_assoc, ?Hg; try done.
  - by destruct (letsGo f (GuardOf f)).
  - intros Hx. specialize (P8 Hx). cbn in P8. by rewrite Hnb in P8.
Qed.

Lemma fbody_begin f x R Q M l x' :
  finv f x R (l :: Q) M -> about f l = true -> begins l = true ->
  (exists d ka, x' = set_downstream d ka x) \/ (exists c, x' = closedFilter c x) ->
  fbody f x' (R ++ [l]) Q M.
Proof.
  intros [B Ha Hd] Hl Hb Hx. destruct B as [P1 P2 P3 P4 P5 P6 P7 P8 P9 P10 P11].
  destruct P7 as (-> & Hcw & _ & b & Q' & [= <- <-] & _ & Hnb); [by cbn; rewrite Hb|].
  assert (letsGo f l = false /\ deactivates f l = false /\ carries f l = false) as (Hlet & Hde & Hca).
  { unfold letsGo, deactivates, carries. destruct l; try done. by rewrite !andb_false_r. }
  assert (Hc : List.filter (carries f) ([] ++ [l]) = []) by (cbn; by rewrite Hca).
  apply phase_run in P1. rewrite Hlet in P1. rewrite P9 in * by done.
  assert (Hns : forall c, existsb (deactivates f) (([] ++ [l]) ++ Q) = false -> stores x ++ [c] = [c]).
  { intros c E. rewrite P4, Hcw by done. done. }
  assert (Hno : selfGuard_ x = false -> source x = true -> existsb (deactivates f) (([] ++ [l]) ++ Q) = false -> False).
  { intros H1 H2 H3. destruct (P5 H1 H2 H3) as (c & _ & E & _). congruence. }
  destruct Hx as [(d & ka & ->)|(c & ->)];
    constructor; cbn [selfGuard_ source seen stores closedWith downstream_ alive closedFilter set_downstream];
    rewrite ?Hc, ?Hnb; try done; auto.
  - cbn. by rewrite Hlet.
  - cbn. by rewrite Hlet.
  - rewrite length_app. lia.
  - intros H1 H2 H3. by destruct Hno.
  - intros c' [= ->]. apply elem_of_app. right. by apply list_elem_of_singleton.
Qed.

(** [closeWithError] when the readiness of the consumer fails. *)
Lemma finv_fails f x R Q M c :
  finv f x R Q M -> downstream_ x <> None -> finv f (closedFilter c x) R Q M.
Proof.
  intros [B Ha Hd] Hdn. destruct B as [P1 P2 P3 P4 P5 P6 P7 P8 P9 P10 P11].
  assert (Hcw : closedWith x = None) by (destruct (closedWith x); [by specialize (P6 ltac:(done))|done]).
  split; [|done|]; [|intros Hx; destruct (Hd Hx); done].
  constructor; cbn [selfGuard_ source seen stores closedWith downstream_ alive closedFilter]; try done; auto.
  - rewrite length_app. lia.
  - intros E. by rewrite P4, Hcw.
  - intros H1 H2 H3. destruct (P5 H1 H2 H3) as (c' & _ & E & _). congruence.
  - intros E. by destruct (P7 E) as (_ & _ & ? & _).
  - intros c' [= ->]. apply elem_of_app. right. by apply list_elem_of_singleton.
Qed.
End filter_steps.

(** ** The world *)
Lemma about_unique f g l : about f l = true -> about g l = true -> f = g.
Proof. destruct l; cbn; try done; intros ?%Z.eqb_eq ?%Z.eqb_eq; congruence. Qed.
Lemma mine_own f k : Forall (fun l => about f l = true) k -> mine f k = k.
Proof. unfold mine. induction 1 as [|l k Hl _ IH]; cbn; [done|]. by rewrite Hl, IH. Qed.
Lemma mine_other f g k : g <> f -> Forall (fun l => about f l = true) k -> mine g k = [].
Proof.
  unfold mine. intros Hg. induction 1 as [|l k Hl _ IH]; cbn; [done|]. destruct (about g l) eqn:E; [|done].
  by destruct Hg, (about_unique f g l).
Qed.
Lemma mineTrack_app t l k : mineTrack t (l ++ k) = mineTrack t l ++ mineTrack t k.
Proof. apply List.filter_app. Qed.
(** A closure that concerns no track filter. *)
Definition trackless (l : Closure) : Prop := forall t, aboutTrack t l = false /\ l <> DeleteTrack t.
Lemma mineTrack_trackless t k : Forall trackless k -> mineTrack t k = [].
Proof.
  unfold mineTrack. induction 1 as [|l k Hl _ IH]; cbn; [done|]. destruct (Hl t) as [-> Hd]. cbn. rewrite IH.
  destruct l; try done. destruct (Z.eqb_spec t0 t); [congruence|done].
Qed.
Lemma existsb_holds_mine f l : existsb (holds f) l = existsb (holds f) (mine f l).
Proof. apply existsb_mine, holds_about. Qed.

(** The invariant for all but the filter [f]. *)
Record inv_but (f : Z) (w : World) : Prop := {
  ib_filter g x : g <> f -> filters w !! g = Some x -> finv g x (mine g (ran w)) (mine g (queue w)) (reached g w);
  ib_track t y : tracks w !! t = Some y -> tinv t y (mineTrack t (queue w));
  ib_knows : Forall (knows w) (posted w);
  ib_fresh : (forall f, is_Some (filters w !! f) -> f < nextId w) /\ (forall t, is_Some (tracks w !! t) -> t < nextId w);
  ib_order : map fst (made w) `sublist_of` ran w;
}.
Lemma inv_without f w : inv w -> inv_but f w.
Proof. intros []. constructor; auto. Qed.
Lemma inv_with f w x :
  inv_but f w -> filters w !! f = Some x -> finv f x (mine f (ran w)) (mine f (queue w)) (reached f w) -> inv w.
Proof.
  intros [] Hx I. constructor; auto. intros g y Hy. destruct (decide (g = f)) as [->|]; [|by auto]. congruence.
Qed.

Lemma knows_mono w w' l :
  knows w l -> (forall f, is_Some (filters w !! f) -> is_Some (filters w' !! f)) ->
  (forall t, is_Some (tracks w !! t) -> is_Some (tracks w' !! t)) -> knows w' l.
Proof. intros [H1 H2] Hf Ht. split; naive_solver. Qed.

(** The filter [f] changes, and closures [k] about it are posted. *)
Lemma inv_change w f x x' k w' :
  inv w -> filters w !! f = Some x -> Forall (fun l => about f l = true /\ trackless l) k ->
  finv f x' (mine f (ran w)) (mine f (queue w) ++ k) (reached f w) ->
  filters w' = <[f := x']> (filters w) -> tracks w' = tracks w -> queue w' = queue w ++ k -> ran w' = ran w ->
  made w' = made w -> nextId w <= nextId w' -> inv w'.
Proof.
  intros [I1 I2 I3 [I4 I5] I6] Hx Hk Hf Ef Et Eq Er Em En.
  assert (Ha := Forall_impl _ _ _ Hk (fun l H => proj1 H)). assert (Ht := Forall_impl _ _ _ Hk (fun l H => proj2 H)).
  assert (Hsome : forall g, is_Some (filters w' !! g) <-> is_Some (filters w !! g)).
  { intros g. rewrite Ef, lookup_insert_is_Some. destruct (decide (f = g)) as [<-|]; naive_solver. }
  constructor.
  - intros g y. rewrite Ef, Er, Eq, mine_app. unfold reached. rewrite Em. destruct (decide (g = f)) as [->|Hg].
    + rewrite lookup_insert_eq, (mine_own f k) by done. by intros [= <-].
    + rewrite lookup_insert_ne, (mine_other f g k), app_nil_r by done. apply I1.
  - intros t y. rewrite Et, Eq, mineTrack_app, (mineTrack_trackless t k), app_nil_r by done. apply I2.
  - unfold posted in *. rewrite Er, Eq, app_assoc. apply Forall_app_2.
    + eapply Forall_impl; [exact I3|]. intros l Hl. eapply knows_mono; [done| |by rewrite Et]. intros. by apply Hsome.
    + eapply Forall_impl; [exact Hk|]. intros l [Hl Hn]. split.
      * intros g Hg. apply Hsome. rewrite (about_unique g f l) by done. by exists x.
      * intros t [E| ->]; destruct (Hn t); [congruence|done].
  - split; [intros g ?%Hsome%I4|intros t; rewrite Et; intros ?%I5]; lia.
  - by rewrite Em, Er.
Qed.

Lemma dropRef_eq f w x :
  filters w !! f = Some x ->
  (settle f x (mine f (queue w)) = x /\ dropRef f w = w) \/
  (settle f x (mine f (queue w)) = destroyed x /\ filters (dropRef f w) = <[f := destroyed x]> (filters w) /\
   tracks (dropRef f w) = tracks w /\ ran (dropRef f w) = ran w /\ made (dropRef f w) = made w /\
   nextId (dropRef f w) = nextId w /\
   exists k, queue (dropRef f w) = queue w ++ k /\ Forall (fun l => exists refs, l = ReleaseRefs refs) k).
Proof.
  intros Hx. unfold dropRef, settle, held. rewrite Hx, (existsb_holds_mine f (queue w)). case_test; [right|by left].
  assert (Ea : alter destroyed f (filters w) = <[f := destroyed x]> (filters w)).
  { apply map_eq. intros g. destruct (decide (g = f)) as [->|]; [by rewrite lookup_alter_eq, lookup_insert_eq, Hx|].
    by rewrite lookup_alter_ne, lookup_insert_ne. }
  unfold destroy. destruct (downstream_ x), (keepAlive_ x); cbn; rewrite Ea; split_and!; try done;
    eexists; (split; [done|repeat constructor; eauto] || (split; [by rewrite app_nil_r|constructor])).
Qed.

Lemma inv_dropRef f w x :
  inv_but f w -> filters w !! f = Some x ->
  finv f (settle f x (mine f (queue w))) (mine f (ran w)) (mine f (queue w)) (reached f w) -> inv (dropRef f w).
Proof.
  intros B Hx I. destruct (dropRef_eq f w x Hx) as [[E ->]|(E & Ef & Et & Er & Em & En & k & Eq & Hk)].
  { rewrite E in I. by eapply inv_with. }
  rewrite E in I. destruct B as [I1 I2 I3 [I4 I5] I6].
  assert (Hm : forall g, mine g k = []) by (intros g; clear -Hk; induction Hk as [|? ? [? ->]]; [done|cbn; done]).
  assert (Ht : Forall trackless k) by (eapply Forall_impl; [done|]; by intros l [? ->] t).
  assert (Hsome : forall g, is_Some (filters (dropRef f w) !! g) <-> is_Some (filters w !! g)).
  { intros g. rewrite Ef, lookup_insert_is_Some. destruct (decide (f = g)) as [<-|]; naive_solver. }
  constructor.
  - intros g y. rewrite Ef, Er, Eq, mine_app, Hm, app_nil_r. unfold reached. rewrite Em.
    destruct (decide (g = f)) as [->|Hg]; [rewrite lookup_insert_eq; by intros [= <-]|].
    rewrite lookup_insert_ne by done. by apply I1.
  - intros t y. rewrite Et, Eq, mineTrack_app, (mineTrack_trackless t k), app_nil_r by done. apply I2.
  - unfold posted in *. rewrite Er, Eq, app_assoc. apply Forall_app_2.
    + eapply Forall_impl; [exact I3|]. intros l Hl. eapply knows_mono; [done| |by rewrite Et]. intros. by apply Hsome.
    + eapply Forall_impl; [exact Hk|]. intros l [? ->]. split; [done|]. by intros t [?|?].
  - rewrite En. split; [by intros g ?%Hsome%I4|intros t; rewrite Et; by intros ?%I5].
  - by rewrite Em, Er.
Qed.

(** ** What the sources may do

    A source calls a filter through the reference it holds, and after a call that
    ends the stream it may only reset it.  It goes on after the waits for
    readiness in the order it made them.  A filter is given up unused only if no
    call of it was posted. *)
Definition holdsFilter (f : Z) (w : World) : bool :=
  match filters w !! f with Some x => source x | None => false end.
Definition holdsTrackFilter (t : Z) (w : World) : bool :=
  match tracks w !! t with Some y => t_source y | None => false end.
Definition mayCall (f : Z) (w : World) : bool := holdsFilter f w && negb (existsb (deactivates f) (posted w)).
Definition inOrder (p : Z) (w : World) : bool :=
  match readies w !! p with
  | Some r => forallb (fun kr => negb (p_continued kr.2 && (p_filter kr.2 =? p_filter r)) || (kr.1 <? p)) (map_to_list (readies w))
  | None => true
  end.
Definition allowed (e : XEvent) (w : World) : bool :=
  match e with
  | SubgroupCalls f (SReset _) | FetchCalls f (FReset _) => holdsFilter f w
  | SubgroupCalls f _ | FetchCalls f _ | FetchAwaits f | SubgroupAwaits f => mayCall f w
  | TrackCalls t _ | TrackBegins t _ _ _ _ | TrackAwaits t | SetsDownstream t _ => holdsTrackFilter t w
  | FetchUnused f => negb (holdsFilter f w) && negb (existsb (about f) (posted w))
  | Continues p => inOrder p w
  | _ => true
  end.

Section world.
Context `{PublishErrorCodes}.

Lemma alter_known {A} (g : A -> A) (m : gmap Z A) k a : m !! k = Some a -> alter g k m = <[k := g a]> m.
Proof.
  intros Hk. apply map_eq. intros i. destruct (decide (i = k)) as [->|].
  - by rewrite lookup_alter_eq, lookup_insert_eq, Hk.
  - by rewrite lookup_alter_ne, lookup_insert_ne.
Qed.
Lemma ended_mine f w : existsb (deactivates f) (posted w) = existsb (deactivates f) (mine f (ran w) ++ mine f (queue w)).
Proof. unfold posted. rewrite <- mine_app. apply existsb_mine, deactivates_about. Qed.

Lemma holdsFilter_Some f w :
  inv w -> holdsFilter f w = true -> exists x, filters w !! f = Some x /\ source x = true /\ theFilter f w = Some x.
Proof.
  unfold holdsFilter, theFilter. intros I. destruct (filters w !! f) as [x|] eqn:E; [|done]. intros Hs.
  exists x. split_and!; [done..|]. cbn. rewrite (fi_alive _ _ _ _ _ (inv_filter _ I _ _ E)). unfold held.
  by rewrite Hs, orb_true_r.
Qed.

(** A call is refused, which may let the guard go, or goes on. *)
Lemma unlessFailed_safe {A} f w (k : Filter -> World * result Z A) :
  inv w -> mayCall f w = true ->
  (forall x, filters w !! f = Some x -> source x = true ->
     existsb (deactivates f) (mine f (ran w) ++ mine f (queue w)) = false ->
     loadDeferredError (stores x) (seen x) = None -> inv (k x).1) ->
  exists w' r, unlessFailed f w k = Some (w', r) /\ inv w'.
Proof.
  intros I [Hh He]%andb_prop Hk. destruct (holdsFilter_Some f w I Hh) as (x & Hx & Hs & Ht).
  apply negb_true_iff in He. unfold unlessFailed. rewrite Ht. cbn.
  destruct (loadDeferredError _ _) as [c|] eqn:El.
  - unfold enqueueDeactivate. rewrite Ht, He. cbn. do 2 eexists. split; [done|]. case_test; [|done].
    rewrite ended_mine in He.
    eapply (inv_change w f x (set_selfGuard false x) [GuardOf f]); try done.
    + apply Forall_singleton. cbn. by rewrite Z.eqb_refl.
    + eapply finv_deactivate; try done. by apply inv_filter.
    + cbn. by apply alter_known.
  - rewrite ended_mine in He. specialize (Hk x Hx Hs He El). destruct (k x) as [w' r]. eauto.
Qed.

(** A call that is posted, whatever it does to the bookkeeping of bytes. *)
Lemma inv_post_call w f x x' l w' :
  inv w -> filters w !! f = Some x -> source x = true ->
  existsb (deactivates f) (mine f (ran w) ++ mine f (queue w)) = false ->
  loadDeferredError (stores x) (seen x) = None -> carries f l = true ->
  (forall R Q M, finv f x R Q M -> finv f x' R Q M) ->
  filters w' = <[f := x']> (filters w) -> tracks w' = tracks w -> queue w' = queue w ++ [l] -> ran w' = ran w ->
  made w' = made w -> nextId w <= nextId w' -> inv w'.
Proof.
  intros I Hx Hs He Hl Hc Hx' Ef Et Eq Er Em En. eapply (inv_change w f x x' [l]); try done.
  - apply Forall_singleton. split; [by apply carries_about|]. intros t. unfold carries in Hc. destruct l; cbn in Hc; try done; by rewrite andb_false_r in Hc.
  - apply Hx'. apply finv_post; try done. by apply inv_filter.
Qed.

Lemma outcome_safe {A} (m : option (World * A)) :
  (exists w' r, m = Some (w', r) /\ inv w') -> exists w', outcome m = Some w' /\ inv w'.
Proof. intros (w' & r & -> & I). by exists w'. Qed.

(** Where an update of a filter that is there ends up. *)
Ltac known Hx :=
  cbn; rewrite ?(alter_known _ _ _ _ Hx); try (erewrite alter_known by (apply lookup_insert_eq));
  rewrite ?insert_insert_eq; first [done | by rewrite insert_id].
Ltac posts I Hx Hs He Hl :=
  eapply (inv_post_call _ _ _ _ _ _ I Hx Hs He Hl);
  [ | | known Hx | reflexivity | reflexivity | reflexivity | reflexivity | cbn; lia ];
  [ unfold carries; cbn; by rewrite Z.eqb_refl
  | let J := fresh in intros ? ? ? J; repeat first [exact J | apply finv_queued | apply finv_remaining] ].

Lemma subgroupCall_safe f c w :
  inv w -> allowed (SubgroupCalls f c) w = true -> exists w', subgroupCall f c w = Some w' /\ inv w'.
Proof.
  intros I Ha. destruct c; cbn [subgroupCall].
  7: { destruct (holdsFilter_Some f w I Ha) as (x & Hx & Hs & Ht). unfold reset_subgroup, resetWith. rewrite Ht. cbn.
       eexists. split; [done|].
       eapply (inv_change w f x _ [OnSubgroup f (SReset error)]); try done; [| |known Hx].
       - apply Forall_singleton. cbn. by rewrite Z.eqb_refl.
       - apply finv_reset; [by apply inv_filter|done|]. unfold resets. cbn. by rewrite Z.eqb_refl. }
  all: apply outcome_safe, unlessFailed_safe; [done..|]; intros x Hx Hs He Hl; try (destruct (consumeBytes _ _));
    cbn [fst]; posts I Hx Hs He Hl.
Qed.

Lemma fetchCall_safe f c w :
  inv w -> allowed (FetchCalls f c) w = true -> exists w', fetchCall f c w = Some w' /\ inv w'.
Proof.
  intros I Ha. destruct c; cbn [fetchCall].
  8: { destruct (holdsFilter_Some f w I Ha) as (x & Hx & Hs & Ht). unfold reset_fetch, resetWith. rewrite Ht. cbn.
       eexists. split; [done|].
       eapply (inv_change w f x _ [OnFetch f (FReset error)]); try done; [| |known Hx].
       - apply Forall_singleton. cbn. by rewrite Z.eqb_refl.
       - apply finv_reset; [by apply inv_filter|done|]. unfold resets. cbn. by rewrite Z.eqb_refl. }
  all: apply outcome_safe, unlessFailed_safe; [done..|]; intros x Hx Hs He Hl; try (destruct (consumeBytes _ _));
    try (destruct finFetch); unfold fetch_countQueuedBytes; cbn [fst]; posts I Hx Hs He Hl.
Qed.

Lemma fetchAwaits_safe f w :
  inv w -> mayCall f w = true -> exists w', outcome (fetch_awaitReadyToConsume f w) = Some w' /\ inv w'.
Proof.
  intros I Ha. apply outcome_safe, unlessFailed_safe; [done..|]. intros x Hx Hs He Hl. case_test; [done|]. cbn [fst]. posts I Hx Hs He Hl.
Qed.

Lemma subgroupAwaits_safe f w :
  inv w -> mayCall f w = true -> exists w', outcome (sub_awaitReadyToConsume f w) = Some w' /\ inv w'.
Proof. intros I Ha. by apply outcome_safe, unlessFailed_safe. Qed.

(** Nothing that the filters see changes. *)
Lemma inv_quiet w k w' :
  inv w -> Forall (fun l => trackless l /\ forall f, about f l = false) k ->
  filters w' = filters w -> tracks w' = tracks w -> queue w' = queue w ++ k -> ran w' = ran w -> made w' = made w ->
  nextId w <= nextId w' -> inv w'.
Proof.
  intros [I1 I2 I3 [I4 I5] I6] Hk Ef Et Eq Er Em En.
  assert (Hm : forall g, mine g k = []).
  { intros g. unfold mine. clear -Hk. induction Hk as [|l k [_ Hl] _ IH]; [done|]. cbn. by rewrite Hl. }
  assert (Ht := Forall_impl _ _ _ Hk (fun l H => proj1 H)).
  constructor.
  - intros g y. rewrite Ef, Er, Eq, mine_app, Hm, app_nil_r. unfold reached. rewrite Em. apply I1.
  - intros t y. rewrite Et, Eq, mineTrack_app, (mineTrack_trackless t k), app_nil_r by done. apply I2.
  - unfold posted in *. rewrite Er, Eq, app_assoc. apply Forall_app_2.
    + eapply Forall_impl; [exact I3|]. intros l Hl. eapply knows_mono; [exact Hl|by rewrite Ef|by rewrite Et].
    + eapply Forall_impl; [exact Hk|]. intros l [Hl Hn]. split; [intros f; by rewrite Hn|].
      intros t [E| ->]; destruct (Hl t); [congruence|done].
  - rewrite Ef, Et. split; [intros f ?%I4|intros t ?%I5]; lia.
  - by rewrite Em, Er.
Qed.

Lemma inv_but_update f x x' w w' :
  inv w -> filters w !! f = Some x ->
  filters w' = <[f := x']> (filters w) -> tracks w' = tracks w -> queue w' = queue w -> ran w' = ran w ->
  made w' = made w -> nextId w' = nextId w -> inv_but f w'.
Proof.
  intros [I1 I2 I3 [I4 I5] I6] Hx Ef Et Eq Er Em En.
  assert (Hsome : forall g, is_Some (filters w' !! g) <-> is_Some (filters w !! g)).
  { intros g. rewrite Ef, lookup_insert_is_Some. destruct (decide (f = g)) as [<-|]; naive_solver. }
  constructor.
  - intros g y Hg. rewrite Ef, Er, Eq, lookup_insert_ne by done. unfold reached. rewrite Em. apply I1.
  - intros t y. rewrite Et, Eq. apply I2.
  - unfold posted. rewrite Er, Eq. eapply Forall_impl; [exact I3|]. intros l Hl.
    eapply knows_mono; [done| |by rewrite Et]. intros. by apply Hsome.
  - rewrite En. split; [by intros g ?%Hsome%I4|intros t; rewrite Et; by intros ?%I5].
  - by rewrite Em, Er.
Qed.

Lemma alter_unknown {A} (g : A -> A) (m : gmap Z A) k : m !! k = None -> alter g k m = m.
Proof.
  intros Hk. apply map_eq. intros i. destruct (decide (i = k)) as [->|]; [by rewrite lookup_alter_eq, Hk|].
  by rewrite lookup_alter_ne.
Qed.
Lemma update_unknown f g w : filters w !! f = None -> update f g w = w.
Proof. intros Hf. unfold update, set_filters. rewrite alter_unknown by done. by destruct w. Qed.
Lemma updateTrack_unknown t g w : tracks w !! t = None -> updateTrack t g w = w.
Proof. intros Hf. unfold updateTrack, set_tracks. rewrite alter_unknown by done. by destruct w. Qed.
Lemma dropRef_unknown f w : filters w !! f = None -> dropRef f w = w.
Proof. unfold dropRef. by intros ->. Qed.

(** A filter changes in place, and a reference to it may have gone. *)
Lemma inv_update f g w :
  inv w -> (forall x, filters w !! f = Some x -> finv f (g x) (mine f (ran w)) (mine f (queue w)) (reached f w)) ->
  inv (update f g w).
Proof.
  intros I Hg. destruct (filters w !! f) as [x|] eqn:Hx; [|by rewrite update_unknown].
  eapply (inv_change w f x (g x) []); try done; [by rewrite app_nil_r; apply Hg|known Hx|cbn; by rewrite app_nil_r].
Qed.
Lemma inv_update_dropRef f g w :
  inv w ->
  (forall x, filters w !! f = Some x ->
     finv f (settle f (g x) (mine f (queue w))) (mine f (ran w)) (mine f (queue w)) (reached f w)) ->
  inv (dropRef f (update f g w)).
Proof.
  intros I Hg. destruct (filters w !! f) as [x|] eqn:Hx; [|by rewrite update_unknown, dropRef_unknown].
  eapply (inv_dropRef f _ (g x)).
  - eapply inv_but_update; try done. known Hx.
  - cbn. by rewrite lookup_alter_eq, Hx.
  - by apply Hg.
Qed.
Lemma fetchUnused_safe f w : inv w -> allowed (FetchUnused f) w = true -> inv (fetchUnused f w).
Proof.
  intros I [Hh Hn]%andb_prop. apply negb_true_iff in Hh, Hn.
  apply inv_update_dropRef; [done|]. intros x Hx. assert (J := inv_filter _ I _ _ Hx).
  assert (Hm : mine f (ran w) ++ mine f (queue w) = []).
  { rewrite <- mine_app. unfold posted in Hn. unfold mine. clear -Hn. induction (ran w ++ queue w) as [|l k IH]; [done|].
    cbn in *. apply orb_false_elim in Hn as [-> ?]. by apply IH. }
  apply app_eq_nil in Hm as [Er Eq]. rewrite Er, Eq in *. apply finv_unused; [done|].
  unfold holdsFilter in Hh. by rewrite Hx in Hh.
Qed.

(** *** Track filters *)

(** Closures that use or delete the track filter [t], and no other filter. *)
Definition ofTrack (t : Z) (k : list Closure) : Prop :=
  Forall (fun l => (aboutTrack t l = true \/ l = DeleteTrack t) /\ (forall f, about f l = false)) k.
Lemma ofTrack_mine t k g : ofTrack t k -> mine g k = [].
Proof. unfold mine. induction 1 as [|l k [_ Hl] _ IH]; [done|]. cbn. by rewrite Hl. Qed.
Lemma ofTrack_own t k : ofTrack t k -> mineTrack t k = k.
Proof.
  unfold mineTrack. induction 1 as [|l k [Hl _] _ IH]; [done|]. cbn. rewrite IH.
  destruct Hl as [-> | ->]; [done|]. by rewrite Z.eqb_refl, orb_true_r.
Qed.
Lemma ofTrack_other t k u : ofTrack t k -> u <> t -> mineTrack u k = [].
Proof.
  unfold mineTrack. intros Hk Hu. induction Hk as [|l k [Hl _] _ IH]; [done|]. cbn. rewrite IH.
  destruct Hl as [Hl| ->]; [|cbn; by rewrite (proj2 (Z.eqb_neq t u))].
  destruct l; try done; cbn in *; apply Z.eqb_eq in Hl as ->; by rewrite (proj2 (Z.eqb_neq t u)).
Qed.
Lemma ofTrack_knows t k w : ofTrack t k -> is_Some (tracks w !! t) -> Forall (knows w) k.
Proof.
  intros Hk Ht. eapply Forall_impl; [exact Hk|]. intros l [Hl Hn]. split; [intros f; by rewrite Hn|].
  intros u Hlu. enough (u = t) as -> by done.
  destruct Hl as [Hl| ->], Hlu as [Hlu|Elu]; try done; [|by subst| by injection Elu].
  destruct l; try done; cbn in *; apply Z.eqb_eq in Hl, Hlu; congruence.
Qed.
Lemma inv_track_change w t y' k w' :
  inv w -> is_Some (tracks w !! t) -> ofTrack t k -> tinv t y' (mineTrack t (queue w) ++ k) ->
  filters w' = filters w -> tracks w' = <[t := y']> (tracks w) -> queue w' = queue w ++ k -> ran w' = ran w ->
  made w' = made w -> nextId w' = nextId w -> inv w'.
Proof.
  intros [I1 I2 I3 [I4 I5] I6] Hy Hk Ht Ef Et Eq Er Em En.
  assert (Hsome : forall u, is_Some (tracks w' !! u) <-> is_Some (tracks w !! u)).
  { intros u. rewrite Et, lookup_insert_is_Some. destruct (decide (t = u)) as [<-|]; naive_solver. }
  constructor.
  - intros g y. rewrite Ef, Er, Eq, mine_app, (ofTrack_mine t k), app_nil_r by done. unfold reached. rewrite Em. apply I1.
  - intros u y. rewrite Et, Eq, mineTrack_app. destruct (decide (u = t)) as [->|Hu].
    + rewrite lookup_insert_eq, (ofTrack_own t k) by done. by intros [= <-].
    + rewrite lookup_insert_ne, (ofTrack_other t k), app_nil_r by done. apply I2.
  - unfold posted in *. rewrite Er, Eq, app_assoc. apply Forall_app_2.
    + eapply Forall_impl; [exact I3|]. intros l Hl. eapply knows_mono; [done|by rewrite Ef|]. intros. by apply Hsome.
    + eapply ofTrack_knows; [done|]. by apply Hsome.
  - rewrite En, Ef. split; [done|intros u ?%Hsome; by apply I5].
  - by rewrite Em, Er.
Qed.

Lemma holdsTrack_about t l : holdsTrack t l = true -> aboutTrack t l = true.
Proof. by destruct l as [| | | | | |? []| |]. Qed.
Lemma tinv_post t y Q l : tinv t y Q -> t_source y = true -> aboutTrack t l = true -> tinv t y (Q ++ [l]).
Proof.
  intros [? ? ? HF|A ? ? ?|? ? ?] Hs Hl; [|congruence..]. apply ti_held; [done..| |].
  - by rewrite Hs.
  - by apply Forall_app_2, Forall_singleton.
Qed.
(** Only the references and the deletion matter. *)
Lemma tinv_fields t y y' Q :
  tinv t y Q -> t_source y' = t_source y -> t_deleting y' = t_deleting y -> t_alive y' = t_alive y -> tinv t y' Q.
Proof.
  intros [? ? ? ?|A ? ? ? ? ?|? ? ? ?] E1 E2 E3.
  - by apply ti_held; rewrite ?E1, ?E2, ?E3.
  - by apply (ti_deleting _ _ _ A); rewrite ?E1, ?E2, ?E3.
  - by apply ti_deleted; rewrite ?E1, ?E2, ?E3.
Qed.
Lemma no_holder t Q :
  Forall (fun l => aboutTrack t l = true) Q -> existsb (holdsTrack t) Q = false ->
  Forall (fun l => aboutTrack t l && negb (holdsTrack t l) = true) Q.
Proof.
  intros HF Eh%existsb_false. assert (Hb := conj HF Eh). rewrite <- Forall_and in Hb. eapply Forall_impl; [exact Hb|].
  cbn. by intros l [-> ->].
Qed.
(** The first closure runs: the filter is there. *)
Lemma tinv_run t y l Q :
  tinv t y (l :: Q) -> aboutTrack t l = true ->
  t_alive y = true /\ (tinv t y Q \/ t_deleting y = false /\ t_source y = false /\ existsb (holdsTrack t) Q = false /\
                       Forall (fun l => aboutTrack t l && negb (holdsTrack t l) = true) Q).
Proof.
  intros [Hd Ha Hh HF|A Hd Hs Ha E HF|? ? ? ?] Hl; [| |done].
  - split; [done|]. inversion HF as [|? ? _ HF']; subst.
    destruct (t_source y) eqn:Es; [left; apply ti_held; try done; by rewrite Es|].
    destruct (existsb (holdsTrack t) Q) eqn:Eh; [left; apply ti_held; try done; by rewrite Es, Eh|].
    right. split_and!; [done..|]. by apply no_holder.
  - split; [done|left]. destruct A as [|a A]; cbn in E; injection E as -> ->; [done|].
    inversion HF; subst. by apply (ti_deleting _ _ _ A).
Qed.

(** [collectTrack] after a reference has gone. *)
Definition settleTrack (t : Z) (y : Track) (Q : list Closure) : Track * list Closure :=
  if negb (t_deleting y) && negb (t_source y || existsb (holdsTrack t) Q) then (set_t_deleting y, [DeleteTrack t]) else (y, []).
Lemma tinv_settle t y Q :
  tinv t y Q \/ t_deleting y = false /\ t_alive y = true /\ Forall (fun l => aboutTrack t l = true) Q ->
  tinv t (settleTrack t y Q).1 (Q ++ (settleTrack t y Q).2).
Proof.
  unfold settleTrack. intros HQ. destruct (negb (t_deleting y) && _) eqn:E; cbn.
  - apply andb_prop in E as [Ed%negb_true_iff [Es Eh]%negb_true_iff%orb_false_elim].
    destruct HQ as [HQ|(_ & Ha & HF)].
    + inversion HQ as [? ? Hh ?| |]; [|congruence..]. by rewrite Es, Eh in Hh.
    + apply (ti_deleting _ _ _ Q); try done. by apply no_holder.
  - rewrite app_nil_r. destruct HQ as [HQ|(Hd & Ha & HF)]; [done|]. apply ti_held; try done.
    rewrite Hd in E. cbn in E. by apply negb_false_iff in E.
Qed.
Lemma mineTrack_holds t l : existsb (holdsTrack t) l = existsb (holdsTrack t) (mineTrack t l).
Proof.
  unfold mineTrack. induction l as [|c l IH]; [done|]. cbn. destruct (aboutTrack t c) eqn:E; cbn; [by rewrite IH|].
  destruct (holdsTrack t c) eqn:Ec; [by rewrite (holdsTrack_about _ _ Ec) in E|]. cbn.
  destruct c; cbn; try done. case_test; cbn; done.
Qed.
Lemma collectTrack_eq t w y :
  tracks w !! t = Some y ->
  let s := settleTrack t y (mineTrack t (queue w)) in
  filters (collectTrack t w) = filters w /\ tracks (collectTrack t w) = <[t := s.1]> (tracks w) /\
  queue (collectTrack t w) = queue w ++ s.2 /\ ran (collectTrack t w) = ran w /\ made (collectTrack t w) = made w /\
  nextId (collectTrack t w) = nextId w.
Proof.
  intros Hy. unfold collectTrack, settleTrack. rewrite Hy, (mineTrack_holds t (queue w)).
  destruct (negb (t_deleting y) && _); cbn; rewrite ?app_nil_r, ?insert_id by done; [|done].
  by rewrite (alter_known _ _ _ _ Hy).
Qed.
Lemma settleTrack_posts t y Q :
  ofTrack t (settleTrack t y Q).2.
Proof. unfold settleTrack. case_test; [|by constructor]. apply Forall_singleton. split; [by right|done]. Qed.

Lemma updateTrack_safe t g w :
  inv w -> (forall y, t_source (g y) = t_source y /\ t_deleting (g y) = t_deleting y /\ t_alive (g y) = t_alive y) ->
  inv (updateTrack t g w).
Proof.
  intros I Hg. destruct (tracks w !! t) as [y|] eqn:Hy; [|by rewrite updateTrack_unknown].
  destruct (Hg y) as (E1 & E2 & E3).
  eapply (inv_track_change w t (g y) []); try done; [by constructor|..].
  - rewrite app_nil_r. eapply tinv_fields; [by apply inv_track|done..].
  - cbn. by apply alter_known.
  - cbn. by rewrite app_nil_r.
Qed.

Lemma theTrack_Some t w :
  inv w -> holdsTrackFilter t w = true -> exists y, tracks w !! t = Some y /\ t_source y = true /\ theTrack t w = Some y.
Proof.
  unfold holdsTrackFilter, theTrack. intros I. destruct (tracks w !! t) as [y|] eqn:E; [|done]. intros Hs.
  exists y. split_and!; [done..|]. cbn. destruct (inv_track _ I _ _ E) as [? -> ? ?|A ? ? ?|? ? ?]; [|congruence..]. by rewrite Hs.
Qed.
Lemma inv_post_track t l w :
  inv w -> holdsTrackFilter t w = true -> aboutTrack t l = true -> (forall f, about f l = false) -> inv (add l w).
Proof.
  intros I Hh Hl Hf. destruct (theTrack_Some t w I Hh) as (y & Hy & Hs & _).
  eapply (inv_track_change w t y [l]); try done.
  - by apply Forall_singleton; eauto.
  - apply tinv_post; [by apply inv_track|done..].
  - cbn. by rewrite insert_id.
Qed.
Lemma trackCall_safe t c w :
  inv w -> holdsTrackFilter t w = true -> exists w', trackCall t c w = Some w' /\ inv w'.
Proof.
  intros I Hh. destruct (theTrack_Some t w I Hh) as (y & Hy & Hs & Ht).
  assert (Hp : inv (add (OnTrack t c) w)) by (eapply inv_post_track; try done; cbn; by rewrite Z.eqb_refl).
  destruct c; cbn;
    unfold track_setTrackAlias, track_objectStream, track_datagram, track_publishDone, track_unlessFailed, outcome; rewrite Ht; cbn;
    try (by eexists); destruct (loadDeferredError _ _); cbn; eauto.
Qed.
Lemma dropsTrack_safe t w : inv w -> inv (collectTrack t (updateTrack t drop_t_source w)).
Proof.
  intros I. destruct (tracks w !! t) as [y|] eqn:Hy.
  2: { rewrite updateTrack_unknown by done. unfold collectTrack. by rewrite Hy. }
  assert (Hy' : tracks (updateTrack t drop_t_source w) !! t = Some (drop_t_source y)) by (cbn; by rewrite lookup_alter_eq, Hy).
  destruct (collectTrack_eq t _ _ Hy') as (Ef & Et & Eq & Er & Em & En).
  eapply (inv_track_change w t _ _ _ I); [by eexists|apply settleTrack_posts| |done| |exact Eq|done..].
  - apply tinv_settle. cbn [queue updateTrack set_tracks].
    destruct (inv_track _ I _ _ Hy) as [? ? ? ?|A ? ? ? ? ?|? ? ? ?]; [right; done|left..].
    + by apply (ti_deleting _ _ _ A).
    + by apply ti_deleted.
  - rewrite Et. cbn. by rewrite (alter_known _ _ _ _ Hy), insert_insert_eq.
Qed.

(** *** New filters *)
Lemma sublist_Forall {A} (P : A -> Prop) l k : l `sublist_of` k -> Forall P k -> Forall P l.
Proof. induction 1; inversion 1; subst; auto. Qed.
Lemma inv_unseen w f : inv w -> filters w !! f = None -> mine f (ran w) = [] /\ mine f (queue w) = [] /\ reached f w = [].
Proof.
  intros [I1 I2 I3 _ I6] Hf.
  assert (Hn : forall l, knows w l -> about f l = false).
  { intros l [Hl _]. destruct (about f l) eqn:E; [|done]. destruct (Hl f E) as [? ?]. congruence. }
  assert (Hm : forall k, Forall (knows w) k -> mine f k = []).
  { unfold mine. induction 1 as [|l k Hl _ IH]; [done|]. cbn. by rewrite Hn. }
  unfold posted in I3. apply Forall_app in I3 as [Hr Hq]. split_and!; [by apply Hm..|].
  unfold reached. rewrite <- filter_carries_mine, Hm; [done|]. by apply (sublist_Forall _ _ _ I6).
Qed.
Lemma finv_fresh f d :
  finv f (mkFilter true true true [] 0 (Some d) None 0 0 0 None) [] [] [].
Proof. split; [constructor; try done; [by apply ph_open|by left]|done..]. Qed.
Lemma createFetch_safe d w : inv w -> inv (createFetch d w).
Proof.
  intros I. assert (I' := I). destruct I' as [I1 I2 I3 [I4 I5] I6].
  assert (Hf : filters w !! nextId w = None).
  { destruct (filters w !! nextId w) eqn:E; [|done]. assert (nextId w < nextId w) by (apply I4; eauto). lia. }
  destruct (inv_unseen w _ I Hf) as (Er & Eq & Ed).
  constructor; cbn [filters tracks nextId createFetch bump set_filters].
  - intros g y Hy. change (finv g y (mine g (ran w)) (mine g (queue w)) (reached g w)). revert Hy.
    destruct (decide (g = nextId w)) as [->|].
    + rewrite lookup_insert_eq, Er, Eq, Ed. intros [= <-]. apply finv_fresh.
    + rewrite lookup_insert_ne by done. apply I1.
  - apply I2.
  - eapply Forall_impl; [exact I3|]. intros l Hl. eapply knows_mono; [done| |done]. intros g Hg. cbn.
    rewrite lookup_insert_is_Some. destruct (decide (nextId w = g)); auto.
  - split; [intros g; rewrite lookup_insert_is_Some; intros [->|[? ?%I4]]|intros t ?%I5]; lia.
  - done.
Qed.

Lemma inv_unseen_track w t : inv w -> tracks w !! t = None -> mineTrack t (queue w) = [].
Proof.
  intros [I1 I2 I3 _ I6] Ht. unfold posted in I3. apply Forall_app in I3 as [_ Hq]. unfold mineTrack.
  clear -Hq Ht. induction Hq as [|l k [_ Hl] _ IH]; [done|]. cbn. destruct (aboutTrack t l || _) eqn:E; [|done].
  destruct (Hl t) as [y Hy]; [|congruence]. apply orb_prop in E as [E|E]; [by left|right].
  destruct l; try done. by apply Z.eqb_eq in E as ->.
Qed.
Lemma createTrack_safe inner w : inv w -> inv (createTrack inner w).
Proof.
  intros I. assert (I' := I). destruct I' as [I1 I2 I3 [I4 I5] I6].
  assert (Hf : tracks w !! nextId w = None).
  { destruct (tracks w !! nextId w) eqn:E; [|done]. assert (nextId w < nextId w) by (apply I5; eauto). lia. }
  assert (Eq := inv_unseen_track w _ I Hf).
  constructor; cbn [filters tracks nextId createTrack bump set_tracks].
  - apply I1.
  - intros u y Hy. change (tinv u y (mineTrack u (queue w))). revert Hy. destruct (decide (u = nextId w)) as [->|].
    + rewrite lookup_insert_eq, Eq. intros [= <-]. by apply ti_held.
    + rewrite lookup_insert_ne by done. apply I2.
  - eapply Forall_impl; [exact I3|]. intros l Hl. eapply knows_mono; [done|done|]. intros g Hg. cbn.
    rewrite lookup_insert_is_Some. destruct (decide (nextId w = g)); auto.
  - split; [intros t ?%I4|intros g; rewrite lookup_insert_is_Some; intros [->|[? ?%I5]]]; lia.
  - done.
Qed.

Lemma finv_begun f l : about f l = true -> begins l = true -> finv f track_newSubgroup [] [l] [].
Proof.
  intros Hl Hb. assert (Hd : deactivates f l = false) by (unfold deactivates; destruct l; try done; by rewrite andb_false_r).
  split; [constructor| |]; try done; cbn.
  - apply ph_open, Forall_singleton. unfold plain, letsGo. rewrite Hl, Hd. by destruct l.
  - rewrite Hb. eauto 10.
  - rewrite Hb. auto.
Qed.
Lemma trackBegins_safe t g s p o w :
  inv w -> holdsTrackFilter t w = true -> exists w', outcome (track_beginSubgroup t g s p o w) = Some w' /\ inv w'.
Proof.
  intros I Hh. destruct (theTrack_Some t w I Hh) as (y & Hy & Hs & Ht).
  unfold track_beginSubgroup, track_unlessFailed, outcome. rewrite Ht. cbn [mbind option_bind fmap option_fmap option_map].
  eexists. split; [done|]. destruct (loadDeferredError _ _); cbn [fst]; [done|].
  assert (I' := I). destruct I' as [I1 I2 I3 [I4 I5] I6]. set (l := BeginSubgroup _ _ _ _ _ _).
  assert (Hf : filters w !! nextId w = None).
  { destruct (filters w !! nextId w) eqn:E; [|done]. assert (nextId w < nextId w) by (apply I4; eauto). lia. }
  destruct (inv_unseen w _ I Hf) as (Er & Eq & Ed).
  assert (Hl : about (nextId w) l = true) by (cbn; by rewrite Z.eqb_refl).
  constructor; cbn [filters tracks nextId queue ran add bump set_filters].
  - intros h x Hx. change (finv h x (mine h (ran w)) (mine h (queue w ++ [l])) (reached h w)). revert Hx.
    rewrite mine_app. destruct (decide (h = nextId w)) as [->|].
    + rewrite lookup_insert_eq, Er, Eq, Ed, (mine_own _ [l]) by by apply Forall_singleton. intros [= <-]. by apply finv_begun.
    + rewrite lookup_insert_ne, (mine_other (nextId w) h [l]), app_nil_r by (try done; by apply Forall_singleton). apply I1.
  - intros u z Hz. rewrite mineTrack_app. unfold mineTrack at 2. cbn.
    destruct (Z.eqb_spec t u) as [<-|]; cbn; [|rewrite app_nil_r; by apply I2].
    replace z with y in * by congruence. apply tinv_post; [by apply I2|done|]. cbn. apply Z.eqb_refl.
  - unfold posted in *. cbn. rewrite app_assoc. apply Forall_app_2, Forall_singleton.
    + eapply Forall_impl; [exact I3|]. intros c Hc. eapply knows_mono; [done| |done]. intros h Hx. cbn.
      rewrite lookup_insert_is_Some. destruct (decide (nextId w = h)); auto.
    + split; cbn; [intros h <-%Z.eqb_eq; rewrite lookup_insert_eq; eauto|].
      intros u [<-%Z.eqb_eq|[=]]. eauto.
  - split; [intros h; rewrite lookup_insert_is_Some; intros [->|[? ?%I4]]|intros u ?%I5]; lia.
  - done.
Qed.

(** *** The executor runs a closure *)
Lemma inv_but_ran f l q x' logged w w' :
  inv w -> queue w = l :: q -> about f l = true -> is_Some (filters w !! f) ->
  (forall t y, tracks w !! t = Some y -> tinv t y (mineTrack t q)) ->
  logged = [] \/ (exists a, logged = [(l, a)]) ->
  filters w' = <[f := x']> (filters w) -> tracks w' = tracks w -> queue w' = q -> ran w' = ran w ++ [l] ->
  made w' = made w ++ logged -> nextId w' = nextId w -> inv_but f w'.
Proof.
  intros [I1 I2 I3 [I4 I5] I6] Hq Hl Hx Ht Hlog Ef Et Eq Er Em En.
  assert (Hsome : forall g, is_Some (filters w' !! g) <-> is_Some (filters w !! g)).
  { intros g. rewrite Ef, lookup_insert_is_Some. destruct (decide (f = g)) as [<-|]; naive_solver. }
  assert (Hg : forall g, g <> f -> about g l = false).
  { intros g Hg. destruct (about g l) eqn:E; [|done]. by destruct Hg, (about_unique f g l). }
  constructor.
  - intros g y Hn. rewrite Ef, Er, Eq, mine_app, lookup_insert_ne by done. intros Hy%I1. rewrite Hq in Hy.
    unfold mine at 2. cbn. rewrite (Hg g Hn), app_nil_r. unfold mine in Hy at 2. cbn in Hy. rewrite (Hg g Hn) in Hy.
    replace (reached g w') with (reached g w); [done|]. unfold reached. rewrite Em, map_app, List.filter_app.
    destruct Hlog as [->|[a ->]]; cbn; [by rewrite app_nil_r|].
    destruct (carries g l) eqn:E; [apply carries_about in E; by rewrite (Hg g Hn) in E|by rewrite app_nil_r].
  - intros t y. rewrite Et, Eq. apply Ht.
  - unfold posted in *. rewrite Er, Eq, <- app_assoc. cbn. rewrite <- Hq. eapply Forall_impl; [exact I3|]. intros c Hc.
    eapply knows_mono; [done| |by rewrite Et]. intros. by apply Hsome.
  - rewrite En, Et. split; [by intros g ?%Hsome%I4|done].
  - rewrite Em, Er, map_app. apply sublist_app; [done|]. destruct Hlog as [->|[a ->]]; cbn; [apply sublist_nil_l|done].
Qed.

Lemma inv_ran f l q x' logged w w' :
  inv w -> queue w = l :: q -> about f l = true -> is_Some (filters w !! f) ->
  (forall t y, tracks w !! t = Some y -> tinv t y (mineTrack t q)) ->
  logged = [] \/ (exists a, logged = [(l, a)]) ->
  filters w' = <[f := x']> (filters w) -> tracks w' = tracks w -> queue w' = q -> ran w' = ran w ++ [l] ->
  made w' = made w ++ logged -> nextId w' = nextId w -> alive x' = true ->
  fbody f x' (mine f (ran w) ++ [l]) (mine f q) (reached f w ++ List.filter (carries f) (map fst logged)) ->
  inv (dropRef f w').
Proof.
  intros I Hq Hl Hx Ht Hlog Ef Et Eq Er Em En Ha B. apply (inv_dropRef f _ x').
  - by apply (inv_but_ran f l q x' logged w).
  - by rewrite Ef, lookup_insert_eq.
  - apply finv_settle; [|by left]. unfold reached. rewrite Eq, Er, Em, map_app, List.filter_app, mine_app.
    by rewrite (mine_own f [l]) by by apply Forall_singleton.
Qed.
Lemma mine_head f l q : about f l = true -> mine f (l :: q) = l :: mine f q.
Proof. unfold mine. cbn. by intros ->. Qed.
Lemma tinv_trackless w l q :
  inv w -> queue w = l :: q -> trackless l -> forall t y, tracks w !! t = Some y -> tinv t y (mineTrack t q).
Proof.
  intros I Hq Hl t y Hy. assert (J := inv_track _ I _ _ Hy). change (l :: q) with ([l] ++ q) in Hq.
  by rewrite Hq, mineTrack_app, (mineTrack_trackless t [l]) in J by by apply Forall_singleton.
Qed.
(** The filter of the first closure is there. *)
Lemma inv_head f l q w :
  inv w -> queue w = l :: q -> about f l = true ->
  exists x, filters w !! f = Some x /\ alive x = true /\
    finv f x (mine f (ran w)) (l :: mine f q) (reached f w).
Proof.
  intros I Hq Hl. assert (K : knows w l).
  { apply (proj1 (Forall_forall _ _) (inv_knows _ I)). unfold posted. rewrite Hq. apply elem_of_app. right. apply list_elem_of_here. }
  destruct (proj1 K f Hl) as [x Hx]. exists x. assert (J := inv_filter _ I _ _ Hx). rewrite Hq, mine_head in J by done.
  split_and!; [done| |done]. rewrite (fi_alive _ _ _ _ _ J). unfold held.
  assert (P := phase_alive _ _ _ (fi_phase _ _ _ _ _ (fi_body _ _ _ _ _ J)) ltac:(done)).
  destruct (selfGuard_ x); [done|]. cbn [orb] in P. by rewrite P, orb_true_r.
Qed.
Lemma inv_call f l q x closing a w w' :
  inv w -> queue w = l :: q -> carries f l = true -> filters w !! f = Some x -> alive x = true ->
  finv f x (mine f (ran w)) (l :: mine f q) (reached f w) ->
  (closing <> None -> downstream_ x <> None) ->
  filters w' = <[f := afterCall f l closing x]> (filters w) -> tracks w' = tracks w -> queue w' = q ->
  ran w' = ran w ++ [l] -> made w' = made w ++ match downstream_ x with Some _ => [(l, a)] | None => [] end ->
  nextId w' = nextId w -> inv (dropRef f w').
Proof.
  intros I Hq Hc Hx Ha J Hcl Ef Et Eq Er Em En.
  assert (Hl := carries_about _ _ Hc).
  eapply (inv_ran f l q _ _ w); try done.
  - apply (tinv_trackless w l q); [done..|]. intros t. unfold carries in Hc. destruct l; cbn in Hc; try done; by rewrite andb_false_r in Hc.
  - destruct (downstream_ x); eauto.
  - unfold afterCall. by destruct closing, (deactivates f l).
  - assert (B := fbody_call f x _ _ _ l closing J Ha Hc Hcl). destruct (downstream_ x); cbn; rewrite ?Hc, ?app_nil_r; done.
Qed.
Lemma deactivates_own f l b : about f l = true ->
  match l with OnSubgroup _ c => subgroupEnds c | OnFetch _ c => fetchEnds c | _ => false end = b -> deactivates f l = b.
Proof. unfold deactivates. by intros -> ->. Qed.

(** Where a closure that has run leaves its filter. *)
Ltac ranOn Hx :=
  cbn; unfold closeWithError, afterCall, deactivates; cbn; rewrite ?Hx, ?Z.eqb_refl; cbn;
  rewrite ?(alter_known _ _ _ _ Hx); try (erewrite alter_known by (apply lookup_insert_eq)); rewrite ?insert_insert_eq, ?app_nil_r;
  first [done | by rewrite insert_id].

Lemma runSubgroup_safe f c q a w :
  inv w -> queue w = OnSubgroup f c :: q ->
  exists w', runSubgroup f c a (pop_queue (OnSubgroup f c) q w) = Some w' /\ inv w'.
Proof.
  intros I Hq. assert (Hl : about f (OnSubgroup f c) = true) by apply Z.eqb_refl.
  destruct (inv_head f _ q w I Hq Hl) as (x & Hx & Ha & J). unfold runSubgroup. cbn [filters pop_queue]. rewrite Hx.
  cbn [mbind option_bind]. rewrite Ha. cbn [negb]. eexists. split; [done|].
  set (closing := match downstream_ x, a with Some _, Refuses code => if subgroupCloses c then Some code else None | _, _ => None end).
  eapply (inv_call f (OnSubgroup f c) q x closing a w _ I Hq); [unfold carries; by rewrite Hl|done..| | | | | | |];
    unfold closing; [by destruct (downstream_ x)|..]; unfold afterCall, deactivates; cbn [about]; rewrite ?Z.eqb_refl; cbn [andb];
    destruct (downstream_ x), a; try destruct (subgroupCloses c); destruct (subgroupEnds c) eqn:Es; ranOn Hx.
Qed.
Lemma runFetch_safe f c q a w :
  inv w -> queue w = OnFetch f c :: q ->
  exists w', runFetch f c a (pop_queue (OnFetch f c) q w) = Some w' /\ inv w'.
Proof.
  intros I Hq. assert (Hl : about f (OnFetch f c) = true) by apply Z.eqb_refl.
  destruct (inv_head f _ q w I Hq Hl) as (x & Hx & Ha & J). unfold runFetch. cbn [filters pop_queue]. rewrite Hx.
  cbn [mbind option_bind]. rewrite Ha. cbn [negb]. eexists. split; [done|].
  set (closing := match downstream_ x, a with
                  | Some _, Refuses code => if fetchCloses c && closesFetch code then Some code else None | _, _ => None end).
  eapply (inv_call f (OnFetch f c) q x closing a w _ I Hq); [unfold carries; by rewrite Hl|done..| | | | | | |];
    unfold closing; [by destruct (downstream_ x)|..]; unfold afterCall, deactivates; cbn [about]; rewrite ?Z.eqb_refl; cbn [andb];
    destruct (downstream_ x), a; try destruct (fetchCloses c && _); destruct (fetchEnds c) eqn:Es; ranOn Hx.
Qed.
Lemma runAwaitReady_safe f p q a w :
  inv w -> queue w = AwaitReady f p :: q ->
  exists w', runAwaitReady f p a (pop_queue (AwaitReady f p) q w) = Some w' /\ inv w'.
Proof.
  intros I Hq. assert (Hl : about f (AwaitReady f p) = true) by apply Z.eqb_refl.
  destruct (inv_head f _ q w I Hq Hl) as (x & Hx & Ha & J). unfold runAwaitReady. cbn [filters pop_queue]. rewrite Hx.
  cbn [mbind option_bind]. rewrite Ha. cbn [negb]. eexists. split; [done|].
  set (closing := match downstream_ x, a with Some _, Refuses code => Some code | _, _ => None end).
  eapply (inv_call f (AwaitReady f p) q x closing a w _ I Hq); [unfold carries; by rewrite Hl|done..| | | | | | |];
    unfold closing; [by destruct (downstream_ x)|..]; unfold afterCall, deactivates; cbn [about]; rewrite ?Z.eqb_refl; cbn [andb];
    destruct (downstream_ x), a; ranOn Hx.
Qed.
Lemma runGuard_safe f q w : inv w -> queue w = GuardOf f :: q -> inv (dropRef f (pop_queue (GuardOf f) q w)).
Proof.
  intros I Hq. assert (Hl : about f (GuardOf f) = true) by apply Z.eqb_refl.
  destruct (inv_head f _ q w I Hq Hl) as (x & Hx & Ha & J).
  eapply (inv_ran f (GuardOf f) q x [] w _ I Hq Hl); [by eexists| |by left|cbn; by rewrite insert_id|done|done|done| |done|done|].
  - by apply (tinv_trackless w (GuardOf f) q).
  - cbn. by rewrite app_nil_r.
  - cbn. rewrite app_nil_r. by apply fbody_guard.
Qed.
Lemma runBeginSubgroup_safe t f g s p o q a w :
  let l := BeginSubgroup t f g s p o in
  inv w -> queue w = l :: q -> exists w', runBeginSubgroup t f l a (pop_queue l q w) = Some w' /\ inv w'.
Proof.
  intros l I Hq. assert (Hl : about f l = true) by apply Z.eqb_refl. assert (Hlt : aboutTrack t l = true) by apply Z.eqb_refl.
  destruct (inv_head f _ q w I Hq Hl) as (x & Hx & Ha & J).
  assert (K : knows w l).
  { apply (proj1 (Forall_forall _ _) (inv_knows _ I)). unfold posted. rewrite Hq. apply elem_of_app. right. apply list_elem_of_here. }
  destruct (proj2 K t (or_introl Hlt)) as [y Hy].
  assert (Jt : forall u z, tracks w !! u = Some z -> tinv u z (mineTrack u q)).
  { intros u z Hz. assert (Jz := inv_track _ I _ _ Hz). rewrite Hq in Jz. unfold mineTrack in Jz. cbn in Jz.
    destruct (Z.eqb_spec t u) as [->|]; [|done]. cbn in Jz. 
    destruct (tinv_run u z l _ Jz Hlt) as [_ [?|(Hd & Hs & Hh & _)]]; [done|]. inversion Jz as [? ? Hh' ?| |]; [|congruence..].
    cbn in Hh'. by rewrite Hs, Hh in Hh'. }
  assert (Hty : t_alive y = true).
  { assert (Jy := inv_track _ I _ _ Hy). rewrite Hq in Jy. unfold mineTrack in Jy. cbn in Jy. rewrite Z.eqb_refl in Jy.
    by destruct (tinv_run t y l _ Jy Hlt). }
  unfold runBeginSubgroup. cbn [tracks pop_queue]. rewrite Hy. cbn [mbind option_bind]. rewrite Hty. cbn [negb].
  eexists. split; [done|].
  set (x' := match t_downstream_ y, a with
             | Some d, Accepts c => set_downstream c (Some d) x
             | Some _, Refuses code => closedFilter code x
             | None, _ => closedFilter WRITE_ERROR x
             end).
  set (logged := match t_downstream_ y with Some _ => [(l, a)] | None => [] end).
  eapply (inv_ran f l q x' logged w _ I Hq Hl); [by eexists|done|unfold logged; destruct (t_downstream_ y); eauto| | | | | | | |].
  - unfold x'. destruct (t_downstream_ y), a; ranOn Hx.
  - unfold x'. destruct (t_downstream_ y), a; ranOn Hx.
  - unfold x'. destruct (t_downstream_ y), a; ranOn Hx.
  - unfold x'. destruct (t_downstream_ y), a; ranOn Hx.
  - unfold logged. destruct (t_downstream_ y), a; ranOn Hx.
  - unfold x'. destruct (t_downstream_ y), a; ranOn Hx.
  - unfold x'. by destruct (t_downstream_ y), a.
  - assert (Ed : List.filter (carries f) (map fst logged) = []).
    { unfold logged. destruct (t_downstream_ y); [|done]. cbn. unfold carries. by rewrite andb_false_r. }
    rewrite Ed, app_nil_r. apply (fbody_begin f x); [done..|]. unfold x'. destruct (t_downstream_ y), a; eauto.
Qed.

Lemma logged_delivered f l logged (w w' : World) :
  about f l = false -> logged = [] \/ (exists a : Answer, logged = [(l, a)]) -> made w' = made w ++ logged ->
  reached f w' = reached f w.
Proof.
  intros Hl Hlog Em. unfold reached. rewrite Em, map_app, List.filter_app. destruct Hlog as [->|[a ->]]; cbn.
  - apply app_nil_r.
  - destruct (carries f l) eqn:E; [apply carries_about in E; congruence|apply app_nil_r].
Qed.

(** The first closure does not use a filter; it may use or delete the track
    filter [t]. *)
Lemma inv_ran_track t l q y' logged k w w' :
  inv w -> queue w = l :: q -> (forall f, about f l = false) -> is_Some (tracks w !! t) ->
  (forall u, u <> t -> mineTrack u [l] = []) -> ofTrack t k ->
  tinv t y' (mineTrack t q ++ k) -> logged = [] \/ (exists a, logged = [(l, a)]) ->
  filters w' = filters w -> tracks w' = <[t := y']> (tracks w) -> queue w' = q ++ k -> ran w' = ran w ++ [l] ->
  made w' = made w ++ logged -> nextId w' = nextId w -> inv w'.
Proof.
  intros [I1 I2 I3 [I4 I5] I6] Hq Hl Hy Hu Hk Ht Hlog Ef Et Eq Er Em En.
  assert (Hsome : forall u, is_Some (tracks w' !! u) <-> is_Some (tracks w !! u)).
  { intros u. rewrite Et, lookup_insert_is_Some. destruct (decide (t = u)) as [<-|]; naive_solver. }
  assert (Hmp : forall g, mine g (ran w ++ [l]) = mine g (ran w) /\ mine g q = mine g (queue w)).
  { intros g. rewrite mine_app, Hq. unfold mine. cbn. by rewrite Hl, app_nil_r. }
  constructor.
  - intros g x. rewrite Ef, Er, Eq, (mine_app g q k), (ofTrack_mine t k), app_nil_r, (logged_delivered g l logged w w') by auto.
    destruct (Hmp g) as [-> ->]. apply I1.
  - intros u z. rewrite Et, Eq, mineTrack_app. destruct (decide (u = t)) as [->|Hn].
    + rewrite lookup_insert_eq, (ofTrack_own t k) by done. by intros [= <-].
    + rewrite lookup_insert_ne, (ofTrack_other t k), app_nil_r by done. intros J%I2. change (l :: q) with ([l] ++ q) in Hq.
      by rewrite Hq, mineTrack_app, Hu in J.
  - unfold posted in *. rewrite Er, Eq, app_assoc, <- (app_assoc _ [l]). cbn. rewrite <- Hq. apply Forall_app_2.
    + eapply Forall_impl; [exact I3|]. intros c Hc. eapply knows_mono; [done|by rewrite Ef|]. intros. by apply Hsome.
    + eapply ofTrack_knows; [done|]. by apply Hsome.
  - rewrite En, Ef. split; [done|intros u ?%Hsome; by apply I5].
  - rewrite Em, Er, map_app. apply sublist_app; [done|]. destruct Hlog as [->|[a ->]]; cbn; [apply sublist_nil_l|done].
Qed.

Lemma head_track t l q w :
  inv w -> queue w = l :: q -> aboutTrack t l = true \/ l = DeleteTrack t ->
  exists y, tracks w !! t = Some y /\ tinv t y (l :: mineTrack t q).
Proof.
  intros I Hq Hl. assert (K : knows w l).
  { apply (proj1 (Forall_forall _ _) (inv_knows _ I)). unfold posted. rewrite Hq. apply elem_of_app. right. apply list_elem_of_here. }
  destruct (proj2 K t Hl) as [y Hy]. exists y. split; [done|]. assert (J := inv_track _ I _ _ Hy). rewrite Hq in J.
  unfold mineTrack in J. cbn in J. destruct Hl as [Hl| ->]; [by rewrite Hl in J|]. by cbn in J; rewrite Z.eqb_refl in J.
Qed.
Lemma runTrack_safe t c q a w :
  inv w -> queue w = OnTrack t c :: q ->
  exists w', runTrack t c a (pop_queue (OnTrack t c) q w) = Some w' /\ inv w'.
Proof.
  intros I Hq. assert (Hl : aboutTrack t (OnTrack t c) = true) by apply Z.eqb_refl.
  destruct (head_track t _ q w I Hq (or_introl Hl)) as (y & Hy & J). destruct (tinv_run t y _ _ J Hl) as [Ha Hrest].
  unfold runTrack. cbn [tracks pop_queue]. rewrite Hy. cbn [mbind option_bind]. rewrite Ha. cbn [negb].
  eexists. split; [done|]. set (w1 := match c with TSetTrackAlias _ => _ | _ => _ end).
  assert (exists y', filters w1 = filters w /\ tracks w1 = <[t := y']> (tracks w) /\ queue w1 = q /\ ran w1 = ran w ++ [OnTrack t c] /\
    made w1 = made w ++ (match t_downstream_ y with Some _ => [(OnTrack t c, a)] | None => [] end) /\ nextId w1 = nextId w /\
    t_source y' = t_source y /\ t_deleting y' = t_deleting y /\ t_alive y' = t_alive y) as (y' & Ef & Et & Eq & Er & Em & En & E1 & E2 & E3).
  { unfold w1. destruct c, (t_downstream_ y), a; cbn; rewrite ?(alter_known _ _ _ _ Hy), ?app_nil_r;
      (eexists; split_and!; try done; try (by rewrite insert_id); done). }
  assert (Hy1 : tracks w1 !! t = Some y') by by rewrite Et, lookup_insert_eq.
  destruct (collectTrack_eq t w1 y' Hy1) as (Ef' & Et' & Eq' & Er' & Em' & En'). rewrite Eq in *.
  eapply (inv_ran_track t (OnTrack t c) q _ _ _ w _ I Hq); [done|by eexists| |apply settleTrack_posts| | | | |exact Eq'|..].
  - intros u Hu. unfold mineTrack. cbn. by rewrite (proj2 (Z.eqb_neq t u)).
  - apply tinv_settle. destruct Hrest as [?|(Hd & Hs & Hh & HF)]; [left; by eapply tinv_fields|right].
    split_and!; [congruence..|]. eapply Forall_impl; [exact HF|]. by intros l [? _]%andb_prop.
  - by instantiate (1 := match t_downstream_ y with Some _ => [(OnTrack t c, a)] | None => [] end); destruct (t_downstream_ y); eauto.
  - by rewrite Ef'.
  - by rewrite Et', Et, insert_insert_eq.
  - by rewrite Er'.
  - by rewrite Em'.
  - by rewrite En'.
Qed.
Lemma runDeleteTrack_safe t q w :
  inv w -> queue w = DeleteTrack t :: q -> exists w', runDeleteTrack t (pop_queue (DeleteTrack t) q w) = Some w' /\ inv w'.
Proof.
  intros I Hq. destruct (head_track t _ q w I Hq (or_intror eq_refl)) as (y & Hy & J).
  assert (t_alive y = true /\ t_deleting y = true /\ t_source y = false /\ mineTrack t q = []) as (Ha & Hd & Hs & Em).
  { destruct J as [_ _ _ HF|A Hd Hs Ha E HF|? ? ? ?]; [by inversion HF| |done].
    destruct A as [|b A]; cbn in E; [by injection E|]. injection E as <- _. by inversion HF. }
  unfold runDeleteTrack. cbn [tracks pop_queue]. rewrite Hy. cbn [mbind option_bind]. rewrite Ha.
  eexists. split; [done|].
  eapply (inv_ran_track t (DeleteTrack t) q (t_destroyed y) [] [] w _ I Hq);
    [done|by eexists| |by constructor| |by left|done|cbn; by apply alter_known|cbn; by rewrite app_nil_r|done|cbn; by rewrite app_nil_r|done].
  - intros u Hu. unfold mineTrack. cbn. by rewrite (proj2 (Z.eqb_neq t u)).
  - rewrite Em. by apply ti_deleted.
Qed.

Lemma inv_pop l q w :
  inv w -> queue w = l :: q -> trackless l -> (forall f, about f l = false) -> inv (pop_queue l q w).
Proof.
  intros I Hq Ht Hl. assert (Htr := tinv_trackless w l q I Hq Ht). destruct I as [I1 I2 I3 I4 I6].
  constructor; cbn [filters tracks nextId made queue ran pop_queue]; try done.
  - intros g x Hx%I1. change (reached g (pop_queue l q w)) with (reached g w). rewrite Hq in Hx. rewrite mine_app.
    unfold mine in *. cbn in *. by rewrite Hl, ?app_nil_r in *.
  - unfold posted in *. cbn. rewrite <- app_assoc. cbn. by rewrite <- Hq.
  - by apply sublist_inserts_r.
Qed.
Lemma runThenReady_safe f p v q w :
  inv w -> queue w = ThenReady f p v :: q ->
  exists w', runThenReady f p v (pop_queue (ThenReady f p v) q w) = Some w' /\ inv w'.
Proof.
  intros I Hq. assert (I0 : inv (pop_queue (ThenReady f p v) q w)) by (by apply inv_pop).
  unfold runThenReady. eexists. split; [done|]. set (w0 := pop_queue _ q w) in *.
  destruct v as [v|]; [eapply (inv_quiet w0 []); try done; cbn; by rewrite app_nil_r|].
  destruct (filters w0 !! f) as [x|] eqn:Hx; [|eapply (inv_quiet w0 []); try done; cbn; by rewrite app_nil_r].
  destruct (alive x && bool_decide _) eqn:Ec; [|eapply (inv_quiet w0 []); try done; cbn; by rewrite app_nil_r].
  apply andb_prop in Ec as [_ Hd%bool_decide_eq_true].
  unfold closeWithError. rewrite Hx. eapply (inv_quiet (update f (closedFilter WRITE_ERROR) w0) []); try done; [|cbn; by rewrite app_nil_r].
  apply inv_update; [done|]. intros x' Hx'. replace x' with x by congruence. apply finv_fails; [by apply inv_filter|done].
Qed.
Lemma runNext_safe a w : inv w -> exists w', runNext a w = Some w' /\ inv w'.
Proof.
  intros I. unfold runNext. destruct (queue w) as [|l q] eqn:Hq; [by exists w|].
  destruct l as [f c|f c|f p|f p v|f|t f g s p o|t c|t|refs].
  - by apply runSubgroup_safe.
  - by apply runFetch_safe.
  - by apply runAwaitReady_safe.
  - by apply runThenReady_safe.
  - eexists. split; [done|]. by apply runGuard_safe.
  - by apply runBeginSubgroup_safe.
  - by apply runTrack_safe.
  - by apply runDeleteTrack_safe.
  - eexists. split; [done|]. eapply (inv_quiet (pop_queue (ReleaseRefs refs) q w) []); try done; [|cbn; by rewrite app_nil_r].
    by apply inv_pop.
Qed.
End world.
