(* ===== verification/CrossExecWindow.v ===== *)
(** The bytes that a fetch has on the way to its consumer, and the theorems on
    whole runs of the cross-executor filters. *)

From S2P Require Import Prelude CrossExec CrossExecTheorems.

(** ** Bytes on the way *)

(** The payload of a call that counts in the window of fetch [f]. *)
Definition countedBytes (f : Z) (l : Closure) : Z :=
  match l with
  | OnFetch g (FObject _ _ _ p _ false _) | OnFetch g (FBeginObject _ _ _ _ p _) | OnFetch g (FObjectPayload p false) =>
    if g =? f then computeChainDataLength p else 0
  | _ => 0
  end.
Definition bytes (f : Z) (l : list Closure) : Z := sumZ (countedBytes f) l.

(** The payload of a call of fetch [f], also of one that ends the fetch, which
    does not count. *)
Definition payloadOf (f : Z) (l : Closure) : Z :=
  match l with
  | OnFetch g (FObject _ _ _ p _ _ _) | OnFetch g (FBeginObject _ _ _ _ p _) | OnFetch g (FObjectPayload p _) =>
    if g =? f then computeChainDataLength p else 0
  | _ => 0
  end.
Definition payload (f : Z) (l : list Closure) : Z := sumZ (payloadOf f) l.

Lemma bytes_app f l k : bytes f (l ++ k) = bytes f l + bytes f k.
Proof. apply sumZ_app. Qed.
Lemma computeChainDataLength_nonneg p : 0 <= computeChainDataLength p.
Proof. destruct p; cbn; lia. Qed.
Lemma countedBytes_nonneg f l : 0 <= countedBytes f l.
Proof.
  destruct l as [|g []| | | | | | |]; cbn; try done; try (destruct finFetch; [done|]); case_test; try done;
    apply computeChainDataLength_nonneg.
Qed.
Lemma bytes_nonneg f l : 0 <= bytes f l.
Proof. apply sumZ_nonneg, Forall_forall. intros. apply countedBytes_nonneg. Qed.
Lemma bytes_none f l : mine f l = [] -> bytes f l = 0.
Proof.
  unfold mine, bytes. induction l as [|c l IH]; [done|]. cbn [List.filter]. destruct (about f c) eqn:E; [done|].
  intros Hl%IH. change (countedBytes f c + sumZ (countedBytes f) l = 0). rewrite Hl.
  destruct c as [|g []| | | | | | |]; cbn in *; try done; rewrite ?E; try done; by destruct finFetch.
Qed.

(** The counters of each filter. *)
Definition meter (x : Filter) : Z * Z := (queuedBytes_ x, drainedBytes_ x).
Definition meters (w : World) : gmap Z (Z * Z) := meter <$> filters w.

(** A closure that neither counts nor resolves a promise. *)
Definition idle (l : Closure) : Prop :=
  (forall f, countedBytes f l = 0) /\ match l with AwaitReady _ _ | ThenReady _ _ _ => False | _ => True end.
Lemma bytes_idle f k : Forall idle k -> bytes f k = 0.
Proof. induction 1 as [|l k [Hl _] _ IH]; [done|]. cbn. rewrite Hl. exact IH. Qed.

(** The bytes of a promise are those posted before it was made; they have been
    delivered when its closure has run. *)
Record winv (n : Z) (w : World) : Prop := {
  wi_queued f q d : meters w !! f = Some (q, d) -> q = bytes f (posted w) /\ q <= n;
  wi_drained f q d : meters w !! f = Some (q, d) -> 0 <= d <= bytes f (ran w);
  wi_promise p r : readies w !! p = Some r -> p < nextId w /\ 0 <= p_drained r <= bytes (p_filter r) (posted w);
  wi_ran p r : readies w !! p = Some r -> p_asked r = true \/ p_value r <> None -> p_drained r <= bytes (p_filter r) (ran w);
  wi_await q1 q2 f p : queue w = q1 ++ AwaitReady f p :: q2 ->
    exists r, readies w !! p = Some r /\ p_filter r = f /\ p_drained r <= bytes f (ran w ++ q1);
  wi_then f p v : ThenReady f p v ∈ queue w ->
    exists r, readies w !! p = Some r /\ p_filter r = f /\ p_drained r <= bytes f (ran w);
  wi_mono p p' r r' : readies w !! p = Some r -> readies w !! p' = Some r' -> p_filter r = p_filter r' -> p < p' ->
    p_drained r <= p_drained r';
  wi_source f q d : meters w !! f = Some (q, d) ->
    d = 0 \/ exists p r, readies w !! p = Some r /\ p_filter r = f /\ p_continued r = true /\ p_drained r = d;
}.

(** Promises may be asked or fulfilled when their closure has run. *)
Definition promisesKept (w w' : World) : Prop :=
  (forall p, is_Some (readies w !! p) -> is_Some (readies w' !! p)) /\
  forall p r', readies w' !! p = Some r' -> exists r, readies w !! p = Some r /\ p_filter r' = p_filter r /\
    p_drained r' = p_drained r /\ p_continued r' = p_continued r /\
    (p_asked r' = true \/ p_value r' <> None ->
     (p_asked r = true \/ p_value r <> None) \/ p_drained r <= bytes (p_filter r) (ran w')).

(** Closures [j] have run, and idle or counted closures [k] were posted. *)
Lemma winv_step n m w w' j k :
  winv n w -> n <= m -> ran w' = ran w ++ j -> j ++ queue w' = queue w ++ k -> nextId w <= nextId w' -> promisesKept w w' ->
  Forall (fun l => match l with AwaitReady _ _ => False | _ => True end) k ->
  (forall f p v, ThenReady f p v ∈ k -> exists r, readies w !! p = Some r /\ p_filter r = f /\ p_drained r <= bytes f (ran w)) ->
  (forall f q' d', meters w' !! f = Some (q', d') ->
     (exists q, meters w !! f = Some (q, d') /\ q' = q + bytes f k /\ q' <= m) \/
     q' = 0 /\ d' = 0 /\ bytes f (posted w') = 0 /\ 0 <= m) ->
  winv m w'.
Proof.
  intros [P1 P2 P3 P4 P5 P6 P7 P8] Hnm Er Eq En [Hs Hp] Hk Hthen Hm.
  assert (Ep : posted w' = posted w ++ k) by (unfold posted; by rewrite Er, <- app_assoc, Eq, app_assoc).
  assert (Hran : forall f, bytes f (ran w) <= bytes f (ran w')).
  { intros f. rewrite Er, bytes_app. assert (H := bytes_nonneg f j). lia. }
  assert (Hpost : forall f, bytes f (posted w) <= bytes f (posted w')).
  { intros f. rewrite Ep, bytes_app. assert (H := bytes_nonneg f k). lia. }
  assert (Hfind : forall p r, readies w !! p = Some r ->
    exists r', readies w' !! p = Some r' /\ p_filter r' = p_filter r /\ p_drained r' = p_drained r /\ p_continued r' = p_continued r).
  { intros p r Hr. destruct (Hs p) as [r' Hr']; [eauto|]. destruct (Hp p r' Hr') as (r0 & Hr0 & ? & ? & ? & _).
    exists r'. replace r with r0 by congruence. done. }
  constructor.
  - intros f q' d' H. destruct (Hm f q' d' H) as [(q & Hq & -> & ?)|(-> & -> & -> & ?)]; [|done].
    destruct (P1 f q d' Hq) as [E _]. split; [|done]. rewrite Ep, bytes_app. lia.
  - intros f q' d' H. destruct (Hm f q' d' H) as [(q & Hq & -> & ?)|(-> & -> & _ & _)].
    + specialize (P2 f q d' Hq). specialize (Hran f). lia.
    + split; [done|apply bytes_nonneg].
  - intros p r' H. destruct (Hp p r' H) as (r & Hr & Ef & Ed & _ & _). destruct (P3 p r Hr) as [? ?].
    rewrite Ef, Ed. specialize (Hpost (p_filter r)). lia.
  - intros p r' H Hav. destruct (Hp p r' H) as (r & Hr & Ef & Ed & _ & Hav'). rewrite Ef, Ed.
    destruct (Hav' Hav) as [Hold|?]; [|done]. specialize (P4 p r Hr Hold). specialize (Hran (p_filter r)). lia.
  - intros q1 q2 f p E. rewrite E in Eq. assert (Hin : exists q3, queue w = j ++ q1 ++ AwaitReady f p :: q3).
    { clear -Eq Hk. rewrite app_assoc in Eq. apply app_eq_app in Eq as [u [[E1 E2]|[E1 E2]]].
      - exfalso. subst k. apply Forall_app in Hk as [_ Hk]. by inversion Hk.
      - destruct u as [|c u]; cbn in E2; [subst k; by inversion Hk|]. injection E2 as <- ->.
        exists u. by rewrite E1, <- app_assoc. }
    destruct Hin as [q3 Hin]. rewrite app_assoc in Hin. destruct (P5 _ _ _ _ Hin) as (r & Hr & Ef & Ed).
    destruct (Hfind p r Hr) as (r' & Hr' & Ef' & Ed' & _). exists r'. split_and!; [done|congruence|].
    by rewrite Er, <- app_assoc, Ed'.
  - intros f p v Hin. assert (Hold : exists r, readies w !! p = Some r /\ p_filter r = f /\ p_drained r <= bytes f (ran w)).
    { assert (ThenReady f p v ∈ queue w ++ k) as [?|?]%elem_of_app by (rewrite <- Eq; apply elem_of_app; by right); eauto. }
    destruct Hold as (r & Hr & Ef & Ed). destruct (Hfind p r Hr) as (r' & Hr' & Ef' & Ed' & _).
    exists r'. split_and!; [done|congruence|]. specialize (Hran f). lia.
  - intros p p' r r' Hr Hr' Ef Hlt. destruct (Hp p r Hr) as (s & Hs1 & E1 & E2 & _). destruct (Hp p' r' Hr') as (s' & Hs1' & E1' & E2' & _).
    rewrite E2, E2'. eapply (P7 p p'); try done. congruence.
  - intros f q' d' H. destruct (Hm f q' d' H) as [(q & Hq & -> & ?)|(-> & -> & _ & _)]; [|by left].
    destruct (P8 f q d' Hq) as [?|(p & r & Hr & Ef & Ec & Ed)]; [by left|right].
    destruct (Hfind p r Hr) as (r' & Hr' & Ef' & Ed' & Ec'). exists p, r'. split_and!; congruence.
Qed.

(** ** Steps that leave the counters alone *)
Record still (w w' : World) : Prop := {
  st_ran : ran w' = ran w;
  st_queue : exists k, queue w' = queue w ++ k /\ Forall idle k;
  st_meters : meters w' = meters w;
  st_next : nextId w <= nextId w';
}.
Lemma still_refl w : still w w.
Proof. constructor; try done. exists []. by rewrite app_nil_r. Qed.
Lemma still_trans w w' w'' : still w w' -> still w' w'' -> still w w''.
Proof.
  intros [R1 (k1 & Q1 & F1) M1 N1] [R2 (k2 & Q2 & F2) M2 N2]. constructor; try congruence; [|lia].
  exists (k1 ++ k2). rewrite Q2, Q1, app_assoc. split; [done|by apply Forall_app_2].
Qed.
Lemma still_same w w' :
  ran w' = ran w -> queue w' = queue w -> filters w' = filters w -> nextId w <= nextId w' -> still w w'.
Proof. intros ? Eq Ef ?. constructor; try done; [exists []; by rewrite app_nil_r|]. unfold meters. by rewrite Ef. Qed.
Lemma still_update f g w : (forall x, meter (g x) = meter x) -> still w (update f g w).
Proof.
  intros Hg. constructor; try done; [exists []; by rewrite app_nil_r|]. unfold meters. cbn. apply map_eq. intros i.
  rewrite !lookup_fmap. destruct (decide (i = f)) as [->|]; [|by rewrite lookup_alter_ne].
  rewrite lookup_alter_eq. destruct (filters w !! f); [|done]. cbn. by rewrite Hg.
Qed.
Lemma still_add l w : idle l -> still w (add l w).
Proof. intros Hl. constructor; try done. exists [l]. split; [done|]. by constructor. Qed.
Lemma still_dropRef f w : still w (dropRef f w).
Proof.
  unfold dropRef. destruct (filters w !! f) as [x|]; [|apply still_refl]. case_test; [|apply still_refl].
  unfold destroy. assert (H := still_update f destroyed w ltac:(done)).
  destruct (downstream_ x), (keepAlive_ x); try (eapply still_trans; [exact H|]; apply still_add; by split); exact H.
Qed.
Lemma still_collectTrack t w : still w (collectTrack t w).
Proof.
  unfold collectTrack. destruct (tracks w !! t) as [x|]; [|apply still_refl]. case_test; [|apply still_refl].
  eapply still_trans; [|apply still_add; by split]. by apply still_same.
Qed.
Lemma still_close f c w : still w (closeWithError f c w).
Proof.
  unfold closeWithError. destruct (filters w !! f) as [x|]; [|apply still_refl].
  eapply still_trans; [by apply (still_update f (closedFilter c))|]. by apply still_same.
Qed.
Lemma readies_dropRef f w : readies (dropRef f w) = readies w.
Proof.
  unfold dropRef. destruct (filters w !! f) as [x|]; [|done]. case_test; [|done]. unfold destroy.
  by destruct (downstream_ x), (keepAlive_ x).
Qed.
Lemma readies_collectTrack t w : readies (collectTrack t w) = readies w.
Proof. unfold collectTrack. destruct (tracks w !! t) as [x|]; [|done]. by case_test. Qed.
Lemma readies_close f c w : readies (closeWithError f c w) = readies w.
Proof. unfold closeWithError. by destruct (filters w !! f). Qed.

(** What one closure does. *)
Ltac stills :=
  repeat match goal with
  | |- still _ (if ?b then _ else _) => destruct b
  | |- still _ (match ?d with Some _ => _ | None => _ end) => destruct d
  | |- still _ (match ?a with Accepts _ => _ | Refuses _ => _ end) => destruct a
  | |- still _ (dropRef _ _) => eapply still_trans; [|apply still_dropRef]
  | |- still _ (collectTrack _ _) => eapply still_trans; [|apply still_collectTrack]
  | |- still _ (closeWithError _ _ _) => eapply still_trans; [|apply still_close]
  | |- still _ (deactivate ?f ?w) => eapply still_trans; [|by apply (still_update f (set_selfGuard false))]
  | |- still _ (update ?f ?g ?w) => eapply still_trans; [|by apply (still_update f g)]
  | |- still ?w ?w => apply still_refl
  | |- still _ (log_call ?l ?a ?w) => apply (still_trans _ w); [|by apply still_same]
  | |- still _ (resolveReady ?p ?v ?w) => apply (still_trans _ w); [|by apply still_same]
  | |- still _ (set_asked ?b ?p ?w) => apply (still_trans _ w); [|by apply still_same]
  | |- still _ (release ?r ?w) => apply (still_trans _ w); [|by apply still_same]
  | |- still _ (updateTrack ?t ?g ?w) => apply (still_trans _ w); [|by apply still_same]
  end.

Section window.
Context `{PublishErrorCodes}.

Lemma runNext_still a w w' l q : queue w = l :: q -> runNext a w = Some w' -> still (pop_queue l q w) w'.
Proof.
  unfold runNext. intros ->. set (w0 := pop_queue l q w). intros Hr.
  destruct l as [f c|f c|f p|f p v|f|t f g s p o|t c|t|refs].
  - unfold runSubgroup in Hr. destruct (filters w0 !! f); [|done]. cbn in Hr. case_test_in Hr; [done|]. injection Hr as <-. stills.
  - unfold runFetch in Hr. destruct (filters w0 !! f); [|done]. cbn in Hr. case_test_in Hr; [done|]. injection Hr as <-. stills.
  - unfold runAwaitReady in Hr. destruct (filters w0 !! f); [|done]. cbn in Hr. case_test_in Hr; [done|]. injection Hr as <-. stills.
  - unfold runThenReady in Hr. injection Hr as <-. destruct v; stills.
  - injection Hr as <-. stills.
  - unfold runBeginSubgroup in Hr. destruct (tracks w0 !! t); [|done]. cbn in Hr. case_test_in Hr; [done|]. injection Hr as <-. stills.
  - unfold runTrack in Hr. destruct (tracks w0 !! t); [|done]. cbn in Hr. case_test_in Hr; [done|]. injection Hr as <-.
    destruct c; stills.
  - unfold runDeleteTrack in Hr. destruct (tracks w0 !! t); [|done]. cbn in Hr. case_test_in Hr; [|done]. injection Hr as <-. stills.
  - injection Hr as <-. stills.
Qed.

(** The promise that a closure may change. *)
Definition promiseOf (l : Closure) : option Z := match l with AwaitReady _ p | ThenReady _ p _ => Some p | _ => None end.
Definition touched (b : bool) (v : ReadyPromise -> option Z) (r : ReadyPromise) : ReadyPromise :=
  mkReady (p_filter r) (p_drained r) b (v r) (p_continued r).
Lemma runNext_readies a w w' l q :
  queue w = l :: q -> runNext a w = Some w' ->
  readies w' = readies w \/ exists p b v, promiseOf l = Some p /\ readies w' = alter (touched b v) p (readies w).
Proof.
  unfold runNext. intros ->. set (w0 := pop_queue l q w). intros Hr.
  destruct l as [f c|f c|f p|f p v|f|t f g s p o|t c|t|refs].
  - left. unfold runSubgroup in Hr. destruct (filters w0 !! f) as [x|]; [|done]. cbn in Hr. case_test_in Hr; [done|]. injection Hr as <-.
    rewrite readies_dropRef. destruct (subgroupEnds c), (downstream_ x), a; cbn; try done; case_test; by rewrite ?readies_close.
  - left. unfold runFetch in Hr. destruct (filters w0 !! f) as [x|]; [|done]. cbn in Hr. case_test_in Hr; [done|]. injection Hr as <-.
    rewrite readies_dropRef. destruct (fetchEnds c), (downstream_ x), a; cbn; try done; case_test; by rewrite ?readies_close.
  - right. unfold runAwaitReady in Hr. destruct (filters w0 !! f) as [x|]; [|done]. cbn in Hr. case_test_in Hr; [done|]. injection Hr as <-.
    rewrite readies_dropRef. destruct (downstream_ x); [destruct a|]; cbn; rewrite ?readies_close.
    + by exists p, true, p_value.
    + by exists p, false, (fun _ => Some 0).
    + by exists p, false, (fun _ => Some 0).
  - right. unfold runThenReady in Hr. injection Hr as <-. destruct v as [v|]; [by exists p, false, (fun _ => Some v)|].
    exists p, false, (fun _ => Some 0). cbn. case_test; by rewrite ?readies_close.
  - left. injection Hr as <-. by rewrite readies_dropRef.
  - left. unfold runBeginSubgroup in Hr. destruct (tracks w0 !! t) as [y|]; [|done]. cbn in Hr. case_test_in Hr; [done|].
    injection Hr as <-. rewrite readies_dropRef. destruct (t_downstream_ y), a; by rewrite ?readies_close.
  - left. unfold runTrack in Hr. destruct (tracks w0 !! t) as [y|]; [|done]. cbn in Hr. case_test_in Hr; [done|]. injection Hr as <-.
    rewrite readies_collectTrack. by destruct c, (t_downstream_ y), a.
  - left. unfold runDeleteTrack in Hr. destruct (tracks w0 !! t); [|done]. cbn in Hr. case_test_in Hr; [|done]. by injection Hr as <-.
  - left. by injection Hr as <-.
Qed.

Lemma promisesKept_same w w' : readies w' = readies w -> promisesKept w w'.
Proof. intros E. unfold promisesKept. rewrite E. split; [done|]. intros p r Hr. exists r. split_and!; auto. Qed.
Lemma promisesKept_touched w w' p b v :
  readies w' = alter (touched b v) p (readies w) ->
  (forall r, readies w !! p = Some r -> b = true \/ v r <> None ->
     (p_asked r = true \/ p_value r <> None) \/ p_drained r <= bytes (p_filter r) (ran w')) ->
  promisesKept w w'.
Proof.
  intros E Hv. unfold promisesKept. rewrite E. split.
  - intros i. destruct (decide (i = p)) as [->|]; [|by rewrite lookup_alter_ne]. rewrite lookup_alter_eq.
    by destruct (readies w !! p).
  - intros i r'. destruct (decide (i = p)) as [->|].
    + rewrite lookup_alter_eq. destruct (readies w !! p) as [r|] eqn:Hr; [|done]. intros [= <-]. exists r. split_and!; try done. by apply Hv.
    + rewrite lookup_alter_ne by done. intros Hr. exists r'. split_and!; auto.
Qed.
Lemma winv_run n a w w' : winv n w -> runNext a w = Some w' -> winv n w'.
Proof.
  intros W Hr. destruct (queue w) as [|l q] eqn:Hq; [unfold runNext in Hr; rewrite Hq in Hr; by injection Hr as <-|].
  destruct (runNext_still a w w' l q Hq Hr) as [Er (k & Eq & Hk) Em En]. cbn in Er, Eq, En.
  apply (winv_step n n w w' [l] k); try done.
  - cbn. by rewrite Eq, Hq.
  - destruct (runNext_readies a w w' l q Hq Hr) as [?|(p & b & v & Hp & E)]; [by apply promisesKept_same|].
    eapply promisesKept_touched; [exact E|]. intros r Hpr _. right. rewrite Er, bytes_app.
    assert (H0 := bytes_nonneg (p_filter r) [l]).
    enough (p_drained r <= bytes (p_filter r) (ran w)) by lia. destruct l; try done; cbn in Hp; injection Hp as ->.
    + destruct (wi_await _ _ W [] q f p Hq) as (r' & Hr' & <- & Hd). rewrite app_nil_r in Hd. by replace r with r' by congruence.
    + destruct (wi_then _ _ W f p value) as (r' & Hr' & <- & Hd); [rewrite Hq; apply list_elem_of_here|]. by replace r with r' by congruence.
  - eapply Forall_impl; [exact Hk|]. by intros c [_ Hc]; destruct c.
  - intros f p v Hin. rewrite Forall_forall in Hk. by destruct (Hk _ Hin).
  - intros f q' d'. rewrite Em. intros Hm. left. exists q'. split_and!; [done| |by eapply wi_queued].
    rewrite bytes_idle by done. lia.
Qed.

Lemma winv_still n m w w' : winv n w -> n <= m -> still w w' -> readies w' = readies w -> winv m w'.
Proof.
  intros W Hm [Er (k & Eq & Hk) Em En] Hr. apply (winv_step n m w w' [] k); try done.
  - by rewrite app_nil_r.
  - by apply promisesKept_same.
  - eapply Forall_impl; [exact Hk|]. by intros c [_ Hc]; destruct c.
  - intros f p v Hin. rewrite Forall_forall in Hk. by destruct (Hk _ Hin).
  - intros f q' d'. rewrite Em. intros Hm'. left. exists q'. destruct (wi_queued _ _ W _ _ _ Hm') as [_ ?].
    rewrite bytes_idle by done. split_and!; [done|lia..].
Qed.

(** A refused call, or the rest of it. *)
Lemma winv_unlessFailed {A} n m f w (k : Filter -> World * result Z A) w' r :
  unlessFailed f w k = Some (w', r) -> winv n w -> n <= m ->
  (forall x, filters w !! f = Some x -> (w', r) = k x -> winv m w') -> winv m w'.
Proof.
  unfold unlessFailed, theFilter. intros Hr W Hm Hk. destruct (filters w !! f) as [x|] eqn:Hx; [|done]. cbn in Hr.
  case_test_in Hr; [|done]. cbn in Hr. destruct (loadDeferredError _ _).
  - unfold enqueueDeactivate in Hr. destruct (theFilter f w); [|done]. cbn in Hr. case_test_in Hr; [done|]. cbn in Hr.
    injection Hr as <- _. case_test; [|by eapply winv_still; [..|apply still_refl|]].
    eapply winv_still; [done..| |done]. eapply still_trans; [|apply still_add; by split].
    by apply still_update.
  - injection Hr as Hr. by apply (Hk x).
Qed.

Lemma meters_update_ne f g w i : i <> f -> meters (update f g w) !! i = meters w !! i.
Proof. intros Hi. unfold meters. cbn. by rewrite !lookup_fmap, lookup_alter_ne. Qed.

(** A call whose payload counts. *)
Lemma winv_counted n f x l b w w' :
  winv n w -> filters w !! f = Some x -> n + b < u64_modulus -> 0 <= b ->
  (forall g, countedBytes g l = if f =? g then b else 0) -> match l with AwaitReady _ _ | ThenReady _ _ _ => False | _ => True end ->
  ran w' = ran w -> queue w' = queue w ++ [l] -> nextId w' = nextId w -> readies w' = readies w ->
  meters w' = <[f := (u64 (queuedBytes_ x + b), drainedBytes_ x)]> (meters w) -> winv (n + b) w'.
Proof.
  intros W Hx Hb Hb0 Hl Hnl Er Eq En Hr Em.
  assert (Hmx : meters w !! f = Some (meter x)) by (unfold meters; by rewrite lookup_fmap, Hx).
  destruct (wi_queued _ _ W _ _ _ Hmx) as [Hq Hn].
  apply (winv_step n (n + b) w w' [] [l]); try done; [lia|by rewrite app_nil_r|lia|by apply promisesKept_same| | |].
  - apply Forall_singleton. by destruct l.
  - intros g p v Hin%list_elem_of_singleton. by rewrite <- Hin in Hnl.
  - assert (Hone : forall g, bytes g [l] = if f =? g then b else 0) by (intros g; unfold bytes; cbn; rewrite Hl; case_test; lia).
    intros g q' d'. rewrite Em. destruct (decide (g = f)) as [->|].
    + rewrite lookup_insert_eq, Hone, Z.eqb_refl. intros [= <- <-]. left. eexists. split; [exact Hmx|].
      assert (H0 := bytes_nonneg f (posted w)). rewrite u64_small by (unfold u64_ok, u64_modulus in *; lia). lia.
    + rewrite lookup_insert_ne by done. intros Hm. left. exists q'. destruct (wi_queued _ _ W _ _ _ Hm) as [_ ?].
      rewrite Hone, (proj2 (Z.eqb_neq f g)) by done. split_and!; [done|lia..].
Qed.

Lemma outcome_Some {A} (m : option (World * A)) w' : outcome m = Some w' -> exists r, m = Some (w', r).
Proof. destruct m as [[w r]|]; [|done]. intros [= <-]. eauto. Qed.

Definition callBytes (c : FetchOp) : Z :=
  match c with
  | FObject _ _ _ p _ false _ | FBeginObject _ _ _ _ p _ | FObjectPayload p false => computeChainDataLength p
  | _ => 0
  end.
Definition eventBytes (e : XEvent) : Z := match e with FetchCalls _ c => callBytes c | _ => 0 end.
Lemma callBytes_nonneg c : 0 <= callBytes c.
Proof. destruct c; cbn; try done; try (destruct finFetch; [done|]); apply computeChainDataLength_nonneg. Qed.

Ltac posted_still :=
  eapply winv_still; [eassumption|lia| |done];
  (eapply still_trans; [|apply still_add; by split]); first [apply still_refl | by apply still_update].

Lemma subgroupCall_winv n f c w w' : subgroupCall f c w = Some w' -> winv n w -> winv n w'.
Proof.
  intros Hc W. destruct c; cbn [subgroupCall] in Hc.
  7: { unfold reset_subgroup, resetWith in Hc. destruct (theFilter f w); [|done]. injection Hc as <-. posted_still. }
  all: apply outcome_Some in Hc as [r Hc]; eapply winv_unlessFailed; [exact Hc|exact W|lia|]; intros x Hx E;
    try (destruct (consumeBytes _ _)); injection E as -> ->; posted_still.
Qed.
Lemma meters_counted f x v w w0 :
  filters w !! f = Some x -> (filters w0 = filters w \/ exists r, filters w0 = alter (set_remaining r) f (filters w)) ->
  meters (update f (set_queuedBytes v) w0) = <[f := (v, drainedBytes_ x)]> (meters w).
Proof.
  intros Hx Hf. unfold meters. cbn. apply map_eq. intros i. rewrite !lookup_fmap.
  destruct (decide (i = f)) as [->|Hi]; [|rewrite lookup_alter_ne, lookup_insert_ne, lookup_fmap by done; destruct Hf as [->|[r ->]]; by rewrite ?lookup_alter_ne].
  rewrite lookup_alter_eq, lookup_insert_eq. destruct Hf as [->|[r ->]]; rewrite ?lookup_alter_eq, Hx; done.
Qed.
Lemma fetchCall_winv n f c w w' :
  fetchCall f c w = Some w' -> winv n w -> n + callBytes c < u64_modulus -> winv (n + callBytes c) w'.
Proof.
  intros Hc W Hb. assert (H0 := callBytes_nonneg c).
  assert (Hcount : forall g, countedBytes g (OnFetch f c) = if f =? g then callBytes c else 0).
  { intros g. destruct c; cbn; try (by case_test); destruct finFetch; by case_test. }
  destruct c; cbn [fetchCall] in Hc.
  8: { unfold reset_fetch, resetWith in Hc. destruct (theFilter f w); [|done]. injection Hc as <-. posted_still. }
  all: apply outcome_Some in Hc as [r Hc]; eapply winv_unlessFailed; [exact Hc|exact W|lia|]; intros x Hx E;
    try (destruct (consumeBytes _ _)); try (destruct finFetch); unfold fetch_countQueuedBytes in E; injection E as -> ->; cbn [callBytes] in *;
    try (by posted_still).
  all: eapply (winv_counted n f x); [exact W|done|done|done|exact Hcount|done|done|done|done|done|].
  all: rewrite (meters_counted f x _ w); [done|done|]; cbn; eauto.
Qed.

Lemma fetchAwaits_winv n f w w' :
  outcome (fetch_awaitReadyToConsume f w) = Some w' -> winv n w -> winv n w'.
Proof.
  intros Hc W. apply outcome_Some in Hc as [r Hc]. eapply winv_unlessFailed; [exact Hc|exact W|lia|]. intros x Hx E.
  cbn beta in E. case_test_in E; injection E as -> ->; [done|].
  assert (Hmx : meters w !! f = Some (meter x)) by (unfold meters; by rewrite lookup_fmap, Hx).
  destruct (wi_queued _ _ W _ _ _ Hmx) as [Hq Hn]. assert (Hb := bytes_nonneg f (posted w)).
  set (p := nextId w). set (r0 := mkReady f (queuedBytes_ x) false None false).
  assert (Hnew : forall i r, readies w !! i = Some r -> i < p) by (intros i r Hr; by destruct (wi_promise _ _ W _ _ Hr)).
  assert (Hrd : forall i r, <[p := r0]> (readies w) !! i = Some r -> i = p /\ r = r0 \/ i <> p /\ readies w !! i = Some r).
  { intros i r. destruct (decide (i = p)) as [->|]; [rewrite lookup_insert_eq; intros [= <-]; auto|rewrite lookup_insert_ne by done; auto]. }
  assert (Hold : forall i r, readies w !! i = Some r -> <[p := r0]> (readies w) !! i = Some r).
  { intros i r Hr. rewrite lookup_insert_ne; [done|]. specialize (Hnew i r Hr). lia. }
  set (l := AwaitReady f p).
  assert (Ep : forall g, bytes g ((ran w ++ queue w) ++ [l]) = bytes g (posted w)) by (intros g; rewrite bytes_app; cbn; unfold posted; lia).
  destruct W as [P1 P2 P3 P4 P5 P6 P7 P8].
  constructor; unfold posted; cbn [readies queue ran nextId add bump set_readies]; change (meters (add l _)) with (meters w); rewrite ?app_assoc.
  - intros g q d Hm. rewrite Ep. by apply (P1 g q d).
  - apply P2.
  - intros i r [[-> ->]|[_ Hr]]%Hrd; cbn [p_filter p_drained r0]; rewrite Ep; [clear -Hq Hb; cbn in *; lia|]. destruct (P3 i r Hr). lia.
  - intros i r [[-> ->]|[_ Hr]]%Hrd; [cbn; intros [?|?]; done|by apply (P4 i r)].
  - intros q1 q2 g i E. apply app_eq_app in E as [u [[E1 E2]|[E1 E2]]].
    + destruct u as [|c u]; cbn in E2.
      * injection E2 as -> -> _. exists r0. rewrite lookup_insert_eq. split_and!; [done..|]. cbn [p_drained r0].
        rewrite app_nil_r in E1. rewrite <- E1. fold (posted w). cbn in Hq. lia.
      * injection E2 as <- ->. destruct (P5 _ _ _ _ E1) as (r & Hr & ? & ?). exists r. auto.
    + destruct u as [|c u]; cbn in E2; [|injection E2 as _ E2; by destruct u].
      injection E2 as <- <- _. exists r0. rewrite lookup_insert_eq. split_and!; [done..|]. cbn [p_drained r0].
      rewrite app_nil_r in E1. rewrite E1. fold (posted w). cbn in Hq. lia.
  - intros g i v [Hin|Hin%list_elem_of_singleton]%elem_of_app; [|done]. destruct (P6 g i v Hin) as (r & Hr & ? & ?). exists r. auto.
  - intros i i' r r' [[-> ->]|[Hi Hr]]%Hrd [[-> ->]|[Hi' Hr']]%Hrd Ef Hlt; [lia|specialize (Hnew i' r' Hr'); lia| |by apply (P7 i i')].
    cbn. destruct (P3 i r Hr) as [_ ?]. cbn in Ef. rewrite Ef in *. cbn in Hq. lia.
  - intros g q d Hm. destruct (P8 g q d Hm) as [?|(i & r & Hr & ? & ? & ?)]; [by left|right]. exists i, r. auto.
Qed.

Lemma downstreamReady_winv n p v w : winv n w -> winv n (downstreamReady p v w).
Proof.
  intros W. unfold downstreamReady. destruct (readies w !! p) as [r|] eqn:Hr; [|done]. case_test; [|done].
  apply (winv_step n n w _ [] [ThenReady (p_filter r) p v]); try done; cbn; try lia.
  - by rewrite app_nil_r.
  - eapply promisesKept_touched; [reflexivity|]. intros r' Hr' [?|?]; auto.
  - by apply Forall_singleton.
  - intros f i u Hin%list_elem_of_singleton. injection Hin as -> -> ->. exists r. split_and!; [done..|].
    apply (wi_ran _ _ W p r Hr). by left.
  - intros f q d Hm. left. exists q. destruct (wi_queued _ _ W _ _ _ Hm). split_and!; [done|cbn; lia|done].
Qed.

Lemma continue_safe n p w : winv n w -> inOrder p w = true -> exists w', continueReady p w = Some w' /\ winv n w'.
Proof.
  intros W Ho. unfold continueReady. destruct (readies w !! p) as [r|] eqn:Hr; [|by exists w].
  destruct (p_value r) as [v|] eqn:Hv; [|by exists w]. destruct (p_continued r) eqn:Hc; [by exists w|].
  unfold inOrder in Ho. rewrite Hr in Ho.
  assert (Hord : forall i s, readies w !! i = Some s -> p_continued s = true -> p_filter s = p_filter r -> i < p).
  { intros i s Hs Hcs Hfs. rewrite forallb_forall in Ho. specialize (Ho (i, s)). cbn in Ho. rewrite Hcs, Hfs, Z.eqb_refl in Ho.
    cbn in Ho. apply Z.ltb_lt, Ho, list_elem_of_In, elem_of_map_to_list, Hs. }
  assert (Hle : p_drained r <= bytes (p_filter r) (ran w)) by (apply (wi_ran _ _ W p r Hr); right; by rewrite Hv).
  assert (Hkeep : forall w', readies w' = alter continued p (readies w) -> ran w' = ran w -> queue w' = queue w -> nextId w' = nextId w ->
    (forall f q d, meters w' !! f = Some (q, d) -> exists d0, meters w !! f = Some (q, d0) /\ (d = d0 \/ f = p_filter r /\ d = p_drained r)) ->
    winv n w').
  { intros w' Er Ern Eq En Hm.
    assert (Hback : forall i s, readies w' !! i = Some s -> exists s0, readies w !! i = Some s0 /\ p_filter s = p_filter s0 /\
      p_drained s = p_drained s0 /\ p_asked s = p_asked s0 /\ p_value s = p_value s0).
    { intros i s. rewrite Er. destruct (decide (i = p)) as [->|]; [|rewrite lookup_alter_ne by done; eauto 10].
      rewrite lookup_alter_eq, Hr. intros [= <-]. exists r. done. }
    assert (Hforth : forall i s0, readies w !! i = Some s0 -> exists s, readies w' !! i = Some s /\ p_filter s = p_filter s0 /\
      p_drained s = p_drained s0 /\ (p_continued s0 = true \/ i = p -> p_continued s = true)).
    { intros i s0. rewrite Er. destruct (decide (i = p)) as [->|Hi]; [|rewrite lookup_alter_ne by done; intros Hs; exists s0; naive_solver].
      rewrite lookup_alter_eq, Hr. intros [= <-]. by exists (continued r). }
    destruct W as [P1 P2 P3 P4 P5 P6 P7 P8]. constructor; unfold posted in *; rewrite ?Ern, ?Eq, ?En.
    - intros f q d Hd. destruct (Hm f q d Hd) as (d0 & Hd0 & _). by apply (P1 f q d0).
    - intros f q d Hd. destruct (Hm f q d Hd) as (d0 & Hd0 & [->|[-> ->]]); [by apply (P2 f q)|]. destruct (P3 p r Hr). lia.
    - intros i s Hs. destruct (Hback i s Hs) as (s0 & Hs0 & -> & -> & _). by apply (P3 i s0).
    - intros i s Hs. destruct (Hback i s Hs) as (s0 & Hs0 & -> & -> & -> & ->). by apply (P4 i s0).
    - intros q1 q2 f i E. destruct (P5 _ _ _ _ E) as (s0 & Hs0 & <- & ?). destruct (Hforth i s0 Hs0) as (s & Hs & E1 & E2 & _). exists s. rewrite E2. auto.
    - intros f i u E. destruct (P6 _ _ _ E) as (s0 & Hs0 & <- & ?). destruct (Hforth i s0 Hs0) as (s & Hs & E1 & E2 & _). exists s. rewrite E2. auto.
    - intros i i' s s' Hs Hs' Ef Hlt. destruct (Hback i s Hs) as (s0 & Hs0 & E1 & -> & _). destruct (Hback i' s' Hs') as (s0' & Hs0' & E2 & -> & _).
      apply (P7 i i'); try done. congruence.
    - intros f q d Hd. destruct (Hm f q d Hd) as (d0 & Hd0 & [->|[-> ->]]).
      + destruct (P8 f q d0 Hd0) as [?|(i & s0 & Hs0 & <- & Hcs & <-)]; [by left|right].
        destruct (Hforth i s0 Hs0) as (s & Hs & ? & ? & ?). exists i, s. split_and!; auto.
      + right. destruct (Hforth p r Hr) as (s & Hs & ? & ? & ?). exists p, s. split_and!; auto. }
  destruct (filters w !! p_filter r) as [x|] eqn:Hx; [|eexists; split; [done|]; apply Hkeep; try done; cbn; eauto].
  case_test; [|eexists; split; [done|]; apply Hkeep; try done; cbn; eauto].
  assert (Hmx : meters w !! p_filter r = Some (meter x)) by (unfold meters; by rewrite lookup_fmap, Hx).
  assert (drainedBytes_ x <= p_drained r).
  { destruct (wi_source _ _ W _ _ _ Hmx) as [E|(i & s & Hs & Hfs & Hcs & E)]; [destruct (wi_promise _ _ W p r Hr); lia|].
    rewrite <- E. apply (wi_mono _ _ W i p); try done. by apply (Hord i s). }
  destruct (Z.ltb_spec (p_drained r) (drainedBytes_ x)); [lia|]. eexists. split; [done|]. apply Hkeep; try done.
  intros f q d. unfold meters. cbn. rewrite lookup_fmap. destruct (decide (f = p_filter r)) as [->|Hf].
  - rewrite lookup_alter_eq, Hx. cbn. intros [= <- <-]. exists (drainedBytes_ x). rewrite lookup_fmap, Hx. auto.
  - rewrite lookup_alter_ne by done. intros Hd. exists d. rewrite lookup_fmap. auto.
Qed.

Lemma winv_new n w w' f x :
  winv n w -> 0 <= n -> mine f (posted w) = [] -> meters w' = <[f := meter x]> (meters w) -> meter x = (0, 0) ->
  ran w' = ran w -> (exists k, queue w' = queue w ++ k /\ Forall idle k) -> readies w' = readies w -> nextId w <= nextId w' -> winv n w'.
Proof.
  intros W Hn Hf Em Hx Er (k & Eq & Hk) Hr En. apply (winv_step n n w w' [] k); try done.
  - by rewrite app_nil_r.
  - by apply promisesKept_same.
  - eapply Forall_impl; [exact Hk|]. by intros c [_ Hc]; destruct c.
  - intros g p v Hin. rewrite Forall_forall in Hk. by destruct (Hk _ Hin).
  - intros g q' d'. rewrite Em. destruct (decide (g = f)) as [->|].
    + rewrite lookup_insert_eq, Hx. intros [= <- <-]. right. split_and!; try done. unfold posted. rewrite Er, Eq, app_assoc, bytes_app.
      rewrite (bytes_idle f k), bytes_none by done. done.
    + rewrite lookup_insert_ne by done. intros Hm. left. exists q'. destruct (wi_queued _ _ W _ _ _ Hm) as [_ ?].
      rewrite bytes_idle by done. split_and!; [done|lia..].
Qed.
Lemma new_unseen w : inv w -> mine (nextId w) (posted w) = [].
Proof.
  intros I. destruct (filters w !! nextId w) as [x|] eqn:Hx.
  - assert (nextId w < nextId w) by (apply (proj1 (inv_fresh _ I)); eauto). lia.
  - destruct (inv_unseen w _ I Hx) as (Er & Eq & _). unfold posted. by rewrite mine_app, Er, Eq.
Qed.

Lemma trackCall_still t c w w' : trackCall t c w = Some w' -> still w w' /\ readies w' = readies w.
Proof.
  intros Hc. destruct c; cbn in Hc.
  1, 2, 3: apply outcome_Some in Hc as [r Hc]; unfold track_setTrackAlias, track_objectStream, track_datagram, track_unlessFailed in Hc;
    destruct (theTrack t w); [|done]; cbn in Hc; injection Hc as Hc; destruct (loadDeferredError _ _);
    injection Hc as <- _; (split; [|done]); [apply still_refl|by apply still_add].
  unfold track_publishDone in Hc. destruct (theTrack t w); [|done]. injection Hc as <-. split; [by apply still_add|done].
Qed.
Lemma trackBegins_winv n t g s p o w w' :
  inv w -> 0 <= n -> outcome (track_beginSubgroup t g s p o w) = Some w' -> winv n w -> winv n w'.
Proof.
  intros I Hn Hc W. apply outcome_Some in Hc as [r Hc]. unfold track_beginSubgroup, track_unlessFailed in Hc.
  destruct (theTrack t w); [|done]. cbn in Hc. injection Hc as Hc. destruct (loadDeferredError _ _); injection Hc as <- _; [done|].
  eapply (winv_new n w _ (nextId w) track_newSubgroup); try done.
  - by apply new_unseen.
  - unfold meters. cbn. by rewrite fmap_insert.
  - eexists. split; [done|]. apply Forall_singleton. by split.
  - cbn. lia.
Qed.
Lemma continueReady_inv p w w' : inv w -> continueReady p w = Some w' -> inv w'.
Proof.
  intros I Hc. unfold continueReady in Hc. destruct (readies w !! p) as [r|]; [|by injection Hc as <-].
  destruct (p_value r), (p_continued r); try (by injection Hc as <-).
  assert (I' : inv (set_readies (alter continued p (readies w)) w)) by (eapply (inv_quiet w []); try done; cbn; by rewrite app_nil_r).
  destruct (filters w !! p_filter r) as [x|] eqn:Hx; [|by injection Hc as <-].
  case_test_in Hc; [|by injection Hc as <-]. case_test_in Hc; [done|]. injection Hc as <-.
  apply inv_update; [done|]. intros x' Hx'. apply finv_drained. by apply (inv_filter _ I').
Qed.

(** ** Every event *)
Lemma step_safe n e w :
  inv w -> winv n w -> 0 <= n -> allowed e w = true -> n + eventBytes e < u64_modulus ->
  exists w', step e w = Some w' /\ inv w' /\ winv (n + eventBytes e) w'.
Proof.
  intros I W Hn Ha Hb. destruct e as [inner|d|f c|f c|f|t c|t g s p o|f k|t k|f|t|t d|f|a|p v|p|f|t]; cbn [step eventBytes] in *;
    rewrite ?Z.add_0_r in *.
  - eexists. split; [done|]. split; [by apply createTrack_safe|]. eapply winv_still; [done|lia|apply still_same; cbn; try done; lia|done].
  - eexists. split; [done|]. split; [by apply createFetch_safe|].
    eapply (winv_new n w _ (nextId w) (mkFilter true true true [] 0 (Some d) None 0 0 0 None)); try done.
    + by apply new_unseen.
    + unfold meters. cbn. by rewrite fmap_insert.
    + exists []. by rewrite app_nil_r.
    + cbn. lia.
  - destruct (subgroupCall_safe f c w I Ha) as (w' & E & I'). exists w'. split_and!; [done..|]. by eapply subgroupCall_winv.
  - destruct (fetchCall_safe f c w I Ha) as (w' & E & I'). exists w'. split_and!; [done..|]. by eapply fetchCall_winv.
  - destruct (fetchAwaits_safe f w I Ha) as (w' & E & I'). exists w'. split_and!; [done..|]. by eapply fetchAwaits_winv.
  - destruct (trackCall_safe t c w I Ha) as (w' & E & I'). exists w'. split_and!; [done..|].
    destruct (trackCall_still t c w w' E). by eapply winv_still; [exact W|lia|..].
  - destruct (trackBegins_safe t g s p o w I Ha) as (w' & E & I'). exists w'. split_and!; [done..|]. eapply (trackBegins_winv n); [exact I|lia|exact E|exact W].
  - eexists. split; [done|]. split; [|eapply winv_still; [done|lia|by apply still_update|done]].
    apply inv_update; [done|]. intros x Hx. apply finv_sees. by apply inv_filter.
  - eexists. split; [done|]. split; [by apply updateTrack_safe|eapply winv_still; [done|lia|by apply still_same|done]].
  - eexists. split; [done|]. split.
    + apply inv_update_dropRef; [done|]. intros x Hx. apply finv_drop. by apply inv_filter.
    + eapply winv_still; [done|lia| |by rewrite readies_dropRef]. eapply still_trans; [|apply still_dropRef]. by apply still_update.
  - eexists. split; [done|]. split; [by apply dropsTrack_safe|].
    eapply winv_still; [done|lia| |by rewrite readies_collectTrack]. eapply still_trans; [|apply still_collectTrack]. by apply still_same.
  - eexists. split; [done|]. split; [by apply updateTrack_safe|eapply winv_still; [done|lia|by apply still_same|done]].
  - eexists. split; [done|]. split; [by apply fetchUnused_safe|]. unfold fetchUnused.
    eapply winv_still; [done|lia| |by rewrite readies_dropRef]. eapply still_trans; [|apply still_dropRef]. by apply still_update.
  - destruct (runNext_safe a w I) as (w' & E & I'). exists w'. split_and!; [done..|]. by eapply winv_run.
  - eexists. split; [done|]. split; [|by apply downstreamReady_winv].
    unfold downstreamReady. destruct (readies w !! p) as [r|]; [|done]. case_test; [|done].
    eapply (inv_quiet w [ThenReady (p_filter r) p v]); try done. by apply Forall_singleton.
  - destruct (continue_safe n p w W Ha) as (w' & E & W'). exists w'. split_and!; [done|by eapply continueReady_inv|done].
  - destruct (subgroupAwaits_safe f w I Ha) as (w' & E & I'). exists w'. split_and!; [done..|].
    apply outcome_Some in E as [r E]. eapply winv_unlessFailed; [exact E|exact W|lia|]. by intros x Hx [= -> _].
  - destruct (theTrack_Some t w I Ha) as (y & _ & _ & Ht). exists w. split_and!; [|done..].
    unfold track_awaitStreamCredit, track_unlessFailed, outcome. rewrite Ht. cbn. by destruct (loadDeferredError _ _).
Qed.
End window.

(** ** Whole runs *)

(** Every event of [es] is one that the sources may do when its turn comes. *)
Fixpoint follows `{PublishErrorCodes} (es : list XEvent) (w : World) : bool :=
  match es with
  | [] => true
  | e :: es => allowed e w && match step e w with Some w' => follows es w' | None => true end
  end.
Definition totalBytes (es : list XEvent) : Z := sumZ eventBytes es.
(** The source of [f] ended the stream, or was told of an error. *)
Definition finished (f : Z) (w : World) : bool := existsb (letsGo f) (posted w).
(** The calls of the source of [f] that are on the executor's queue or have left
    it, and the ones that still wait. *)
Definition postedCalls (f : Z) (w : World) : list Closure := List.filter (carries f) (posted w).
Definition waiting (f : Z) (w : World) : list Closure := List.filter (carries f) (queue w).

(** *** What the sources call

    Read off the events and not off the queue.  A filter takes every call of its
    source but those that the source makes when it can see an error, which are
    answered with it; a reset and the end of a track are always taken.  A wait for
    readiness concerns the consumer when the window is closed. *)
Definition errorSeen (f : Z) (w : World) : bool :=
  match filters w !! f with Some x => bool_decide (loadDeferredError (stores x) (seen x) <> None) | None => false end.
Definition trackErrorSeen (t : Z) (w : World) : bool :=
  match tracks w !! t with Some y => bool_decide (loadDeferredError (t_stores y) (t_seen y) <> None) | None => false end.
Definition windowClosed (f : Z) (w : World) : bool :=
  match filters w !! f with Some x => negb (windowOpen x) | None => false end.
Definition callOf (e : XEvent) (w : World) : list Closure :=
  match e with
  | SubgroupCalls f (SReset code) => [OnSubgroup f (SReset code)]
  | SubgroupCalls f c => if errorSeen f w then [] else [OnSubgroup f c]
  | FetchCalls f (FReset code) => [OnFetch f (FReset code)]
  | FetchCalls f c => if errorSeen f w then [] else [OnFetch f c]
  | FetchAwaits f => if errorSeen f w then [] else if windowClosed f w then [AwaitReady f (nextId w)] else []
  | TrackCalls t (TPublishDone d) => [OnTrack t (TPublishDone d)]
  | TrackCalls t c => if trackErrorSeen t w then [] else [OnTrack t c]
  | TrackBegins t g s p o => if trackErrorSeen t w then [] else [BeginSubgroup t (nextId w) g s p o]
  | _ => []
  end.
Fixpoint sourceCalls `{PublishErrorCodes} (es : list XEvent) (w : World) : list Closure :=
  match es with
  | [] => []
  | e :: es => callOf e w ++ match step e w with Some w' => sourceCalls es w' | None => [] end
  end.
(** The closures that stand for a call of a source. *)
Definition isCall (l : Closure) : bool :=
  match l with ThenReady _ _ _ | GuardOf _ | DeleteTrack _ | ReleaseRefs _ => false | _ => true end.

Section runs.
Context `{PublishErrorCodes}.

Lemma inv_new : inv newWorld.
Proof. constructor; try done. split; intros ? [? ?]; done. Qed.
Lemma winv_new_world : winv 0 newWorld.
Proof. constructor; try done; cbn; [intros [|] ? ? ? ?; done|intros ? ? ? Hin; by inversion Hin]. Qed.

Lemma eventBytes_nonneg e : 0 <= eventBytes e.
Proof. destruct e; cbn; try done. apply callBytes_nonneg. Qed.
Lemma totalBytes_nonneg es : 0 <= totalBytes es.
Proof. apply sumZ_nonneg, Forall_forall. intros. apply eventBytes_nonneg. Qed.
Lemma run_safe n es w :
  inv w -> winv n w -> 0 <= n -> follows es w = true -> n + totalBytes es < u64_modulus ->
  exists w', run es w = Some w' /\ inv w' /\ winv (n + totalBytes es) w'.
Proof.
  revert n w. induction es as [|e es IH]; intros n w I W Hn Hf Hb.
  - exists w. cbn. rewrite Z.add_0_r. done.
  - cbn in Hf. apply andb_prop in Hf as [Ha Hf]. change (totalBytes (e :: es)) with (eventBytes e + totalBytes es) in *.
    assert (H0 := totalBytes_nonneg es). assert (H1 := eventBytes_nonneg e).
    destruct (step_safe n e w I W Hn Ha ltac:(lia)) as (w1 & E & I1 & W1). rewrite E in Hf.
    destruct (IH (n + eventBytes e) w1 I1 W1) as (w' & E' & I' & W'); [lia|done|lia|].
    exists w'. cbn. rewrite E. cbn. rewrite Z.add_assoc. done.
Qed.

Lemma letsGo_about f l : letsGo f l = true -> about f l = true.
Proof. unfold letsGo. intros [?|?]%orb_prop; [by apply deactivates_about|by destruct l]. Qed.
Lemma run_new es :
  follows es newWorld = true -> totalBytes es < u64_modulus ->
  exists w, run es newWorld = Some w /\ inv w /\ winv (totalBytes es) w.
Proof. intros Hf Hb. apply (run_safe 0 es newWorld); [apply inv_new|apply winv_new_world|done..]. Qed.

(** *** The executor comes to rest *)

(** A closure posts at most one closure, of a kind that posts none. *)
Definition lastKind (l : Closure) : bool := match l with DeleteTrack _ | ReleaseRefs _ => true | _ => false end.
Definition weight (l : list Closure) : nat := sum_list_with (fun c => if lastKind c then 1 else 2)%nat l.
Definition small (w w' : World) : Prop := queue w' = queue w \/ exists c, queue w' = queue w ++ [c] /\ lastKind c = true.
Lemma small_dropRef f w : small w (dropRef f w).
Proof.
  unfold dropRef. destruct (filters w !! f) as [x|]; [|by left]. case_test; [|by left]. unfold destroy.
  destruct (downstream_ x), (keepAlive_ x); cbn; [right; eauto..|by left].
Qed.
Lemma small_collectTrack t w : small w (collectTrack t w).
Proof. unfold collectTrack. destruct (tracks w !! t) as [x|]; [|by left]. case_test; [right; cbn; eauto|by left]. Qed.
Lemma small_after w w0 w' : queue w0 = queue w -> small w0 w' -> small w w'.
Proof. unfold small. by intros ->. Qed.
Lemma queue_close f c w : queue (closeWithError f c w) = queue w.
Proof. unfold closeWithError. by destruct (filters w !! f). Qed.
Lemma runNext_small a w w' l q :
  queue w = l :: q -> runNext a w = Some w' ->
  queue w' = q \/ lastKind l = false /\ exists c, queue w' = q ++ [c] /\ lastKind c = true.
Proof.
  unfold runNext. intros ->. set (w0 := pop_queue l q w). change q with (queue w0). intros Hr.
  enough (Hs : if lastKind l then queue w' = queue w0 else small w0 w') by (destruct (lastKind l), Hs; auto).
  destruct l as [f c|f c|f p|f p v|f|t f g s p o|t c|t|refs]; cbn [lastKind].
  - unfold runSubgroup in Hr. destruct (filters w0 !! f) as [x|]; [|done]. cbn in Hr. case_test_in Hr; [done|]. injection Hr as <-.
    eapply small_after; [|apply small_dropRef].
    destruct (subgroupEnds c), (downstream_ x), a; cbn; try done; case_test; by rewrite ?queue_close.
  - unfold runFetch in Hr. destruct (filters w0 !! f) as [x|]; [|done]. cbn in Hr. case_test_in Hr; [done|]. injection Hr as <-.
    eapply small_after; [|apply small_dropRef].
    destruct (fetchEnds c), (downstream_ x), a; cbn; try done; case_test; by rewrite ?queue_close.
  - unfold runAwaitReady in Hr. destruct (filters w0 !! f) as [x|]; [|done]. cbn in Hr. case_test_in Hr; [done|]. injection Hr as <-.
    eapply small_after; [|apply small_dropRef]. destruct (downstream_ x); [destruct a|]; cbn; by rewrite ?queue_close.
  - left. unfold runThenReady in Hr. injection Hr as <-. destruct v as [v|]; [done|]. cbn. case_test; by rewrite ?queue_close.
  - injection Hr as <-. apply small_dropRef.
  - unfold runBeginSubgroup in Hr. destruct (tracks w0 !! t) as [y|]; [|done]. cbn in Hr. case_test_in Hr; [done|].
    injection Hr as <-. eapply small_after; [|apply small_dropRef]. destruct (t_downstream_ y), a; by rewrite ?queue_close.
  - unfold runTrack in Hr. destruct (tracks w0 !! t) as [y|]; [|done]. cbn in Hr. case_test_in Hr; [done|]. injection Hr as <-.
    eapply small_after; [|apply small_collectTrack]. by destruct c, (t_downstream_ y), a.
  - unfold runDeleteTrack in Hr. destruct (tracks w0 !! t); [|done]. cbn in Hr. case_test_in Hr; [|done]. by injection Hr as <-.
  - by injection Hr as <-.
Qed.
Lemma runNext_weight a w w' l q : queue w = l :: q -> runNext a w = Some w' -> (weight (queue w') < weight (queue w))%nat.
Proof.
  intros Hq Hr. rewrite Hq. unfold weight. cbn [sum_list_with].
  destruct (runNext_small a w w' l q Hq Hr) as [->|(-> & c & -> & Hc)]; [case_test; lia|].
  rewrite sum_list_with_app. cbn. rewrite Hc. lia.
Qed.
Lemma weight_bound q : (weight q <= 2 * length q)%nat.
Proof. unfold weight. induction q as [|l q IH]; [done|]. cbn [sum_list_with length]. case_test; lia. Qed.
Lemma drains answers w :
  inv w -> (weight (queue w) <= length answers)%nat -> exists w', run (map Runs answers) w = Some w' /\ queue w' = [].
Proof.
  revert w. induction answers as [|a answers IH]; intros w I Hl.
  - exists w. split; [done|]. destruct (queue w) as [|l q]; [done|]. unfold weight in Hl. cbn in Hl. destruct (lastKind l); lia.
  - cbn [map run step]. destruct (runNext_safe a w I) as (w1 & E & I1). rewrite E. cbn [mbind option_bind]. apply IH; [done|].
    destruct (queue w) as [|l q] eqn:Hq; [unfold runNext in E; rewrite Hq in E; injection E as <-; rewrite Hq; cbn; lia|].
    assert (Hw := runNext_weight a w w1 l q Hq E). rewrite Hq in Hw. cbn [length] in Hl. lia.
Qed.
(** *** The calls that are posted are the calls that the sources make *)
Record posts (w w' : World) (k : list Closure) : Prop := {
  po_made : made w' = made w;
  po_calls : List.filter isCall (posted w') = List.filter isCall (posted w) ++ k;
}.
Lemma posts_nothing w w' : made w' = made w -> ran w' = ran w -> queue w' = queue w -> posts w w' [].
Proof. intros ? Er Eq. split; [done|]. unfold posted. by rewrite Er, Eq, app_nil_r. Qed.
Lemma posts_one w w' l :
  made w' = made w -> ran w' = ran w -> queue w' = queue w ++ [l] ->
  List.filter isCall (posted w') = List.filter isCall (posted w) ++ (if isCall l then [l] else []).
Proof. intros ? Er Eq. unfold posted. rewrite Er, Eq, app_assoc, List.filter_app. cbn. by destruct (isCall l). Qed.
Lemma posts_call w w' l : made w' = made w -> ran w' = ran w -> queue w' = queue w ++ [l] -> isCall l = true -> posts w w' [l].
Proof. intros Hm Hr Hq Hl. split; [done|]. by rewrite (posts_one w w' l), Hl. Qed.
Lemma posts_other w w' l : made w' = made w -> ran w' = ran w -> queue w' = queue w ++ [l] -> isCall l = false -> posts w w' [].
Proof. intros Hm Hr Hq Hl. split; [done|]. by rewrite (posts_one w w' l), Hl. Qed.
Lemma posts_small w w' : made w' = made w -> ran w' = ran w -> small w w' -> posts w w' [].
Proof.
  intros Hm Hr [Hq|(c & Hq & Hc)]; [by apply posts_nothing|].
  apply (posts_other w w' c); [done..|]. by destruct c.
Qed.
Lemma made_dropRef f w : made (dropRef f w) = made w /\ ran (dropRef f w) = ran w.
Proof.
  unfold dropRef. destruct (filters w !! f) as [x|]; [|done]. case_test; [|done]. unfold destroy.
  by destruct (downstream_ x), (keepAlive_ x).
Qed.
Lemma made_collectTrack t w : made (collectTrack t w) = made w /\ ran (collectTrack t w) = ran w.
Proof. unfold collectTrack. destruct (tracks w !! t) as [x|]; [|done]. by case_test. Qed.
Lemma made_close f c w : made (closeWithError f c w) = made w.
Proof. unfold closeWithError. by destruct (filters w !! f). Qed.

(** A refused call posts at most the guard's closure. *)
Lemma posts_unlessFailed {A} f w (k : Filter -> World * result Z A) w' r (ks : list Closure) :
  unlessFailed f w k = Some (w', r) ->
  (forall x, filters w !! f = Some x -> (w', r) = k x -> posts w w' ks) ->
  posts w w' (if errorSeen f w then [] else ks).
Proof.
  unfold unlessFailed, theFilter, errorSeen. intros Hr Hk. destruct (filters w !! f) as [x|] eqn:Hx; [|done]. cbn in Hr.
  case_test_in Hr; [|done]. cbn in Hr. destruct (loadDeferredError _ _).
  - rewrite bool_decide_true by done. unfold enqueueDeactivate in Hr. destruct (theFilter f w); [|done]. cbn in Hr.
    case_test_in Hr; [done|]. cbn in Hr. injection Hr as <- _. case_test; [|by apply posts_nothing].
    by apply (posts_other w _ (GuardOf f)).
  - rewrite bool_decide_false by (by intros ?). injection Hr as Hr. by apply (Hk x).
Qed.
Lemma posts_track {A} t w (k : World * result Z A) w' r (ks : list Closure) :
  track_unlessFailed t w k = Some (w', r) -> posts w k.1 ks -> posts w w' (if trackErrorSeen t w then [] else ks).
Proof.
  unfold track_unlessFailed, theTrack, trackErrorSeen. intros Hr Hk. destruct (tracks w !! t) as [y|] eqn:Hy; [|done]. cbn in Hr.
  case_test_in Hr; [|done]. cbn in Hr. injection Hr as Hr. destruct (loadDeferredError _ _).
  - rewrite bool_decide_true by done. injection Hr as <- _. by apply posts_nothing.
  - rewrite bool_decide_false by (by intros ?). by rewrite Hr in Hk.
Qed.
Lemma subgroupCall_posts f c w w' : subgroupCall f c w = Some w' -> posts w w' (callOf (SubgroupCalls f c) w).
Proof.
  intros Hc. destruct c; cbn [subgroupCall callOf] in *.
  7: { unfold reset_subgroup, resetWith in Hc. destruct (theFilter f w); [|done]. injection Hc as <-. by apply posts_call. }
  all: apply outcome_Some in Hc as [r Hc]; eapply posts_unlessFailed; [exact Hc|]; intros x Hx E;
    try (destruct (consumeBytes _ _)); injection E as -> ->; by apply posts_call.
Qed.
Lemma fetchCall_posts f c w w' : fetchCall f c w = Some w' -> posts w w' (callOf (FetchCalls f c) w).
Proof.
  intros Hc. destruct c; cbn [fetchCall callOf] in *.
  8: { unfold reset_fetch, resetWith in Hc. destruct (theFilter f w); [|done]. injection Hc as <-. by apply posts_call. }
  all: apply outcome_Some in Hc as [r Hc]; eapply posts_unlessFailed; [exact Hc|]; intros x Hx E;
    try (destruct (consumeBytes _ _)); try (destruct finFetch); unfold fetch_countQueuedBytes in E; injection E as -> ->;
    by apply posts_call.
Qed.
Lemma trackCall_posts t c w w' : trackCall t c w = Some w' -> posts w w' (callOf (TrackCalls t c) w).
Proof.
  intros Hc. destruct c; cbn [trackCall callOf] in *.
  1, 2, 3: apply outcome_Some in Hc as [r Hc]; eapply posts_track; [exact Hc|]; by apply posts_call.
  unfold track_publishDone in Hc. destruct (theTrack t w); [|done]. injection Hc as <-. by apply posts_call.
Qed.

(** The executor makes the call that it takes off the queue, or none. *)
Lemma runNext_made a w w' l q :
  queue w = l :: q -> runNext a w = Some w' -> made w' = made w \/ isCall l = true /\ made w' = made w ++ [(l, a)].
Proof.
  unfold runNext. intros ->. set (w0 := pop_queue l q w). intros Hr.
  destruct l as [f c|f c|f p|f p v|f|t f g s p o|t c|t|refs]; cbn [isCall].
  - unfold runSubgroup in Hr. destruct (filters w0 !! f) as [x|]; [|done]. cbn in Hr. case_test_in Hr; [done|]. injection Hr as <-.
    rewrite (proj1 (made_dropRef f _)). destruct (subgroupEnds c), (downstream_ x), a; cbn; auto; case_test; rewrite ?made_close; auto.
  - unfold runFetch in Hr. destruct (filters w0 !! f) as [x|]; [|done]. cbn in Hr. case_test_in Hr; [done|]. injection Hr as <-.
    rewrite (proj1 (made_dropRef f _)). destruct (fetchEnds c), (downstream_ x), a; cbn; auto; case_test; rewrite ?made_close; auto.
  - unfold runAwaitReady in Hr. destruct (filters w0 !! f) as [x|]; [|done]. cbn in Hr. case_test_in Hr; [done|]. injection Hr as <-.
    rewrite (proj1 (made_dropRef f _)). destruct (downstream_ x); [destruct a|]; cbn; rewrite ?made_close; auto.
  - left. unfold runThenReady in Hr. injection Hr as <-. destruct v as [v|]; [done|]. cbn. case_test; by rewrite ?made_close.
  - left. injection Hr as <-. by rewrite (proj1 (made_dropRef f _)).
  - unfold runBeginSubgroup in Hr. destruct (tracks w0 !! t) as [y|]; [|done]. cbn in Hr. case_test_in Hr; [done|].
    injection Hr as <-. rewrite (proj1 (made_dropRef f _)). destruct (t_downstream_ y), a; rewrite ?made_close; auto.
  - unfold runTrack in Hr. destruct (tracks w0 !! t) as [y|]; [|done]. cbn in Hr. case_test_in Hr; [done|]. injection Hr as <-.
    rewrite (proj1 (made_collectTrack t _)). destruct c, (t_downstream_ y), a; cbn; auto.
  - left. unfold runDeleteTrack in Hr. destruct (tracks w0 !! t); [|done]. cbn in Hr. case_test_in Hr; [|done]. by injection Hr as <-.
  - left. by injection Hr as <-.
Qed.
Lemma runNext_posts a w w' : runNext a w = Some w' -> List.filter isCall (posted w') = List.filter isCall (posted w).
Proof.
  intros Hr. destruct (queue w) as [|l q] eqn:Hq; [unfold runNext in Hr; rewrite Hq in Hr; by injection Hr as <-|].
  destruct (runNext_still a w w' l q Hq Hr) as [Er _ _ _]. cbn in Er. unfold posted. rewrite Er, Hq.
  destruct (runNext_small a w w' l q Hq Hr) as [->|(_ & c & -> & Hc)]; rewrite <- app_assoc; [done|].
  change ([l] ++ q ++ [c]) with ((l :: q) ++ [c]). rewrite app_assoc, List.filter_app. destruct c; try done; by rewrite app_nil_r.
Qed.

(** One event. *)
Lemma step_posts e w w' : step e w = Some w' -> match e with Runs _ => True | _ => posts w w' (callOf e w) end.
Proof.
  intros Hs. destruct e as [inner|d|f c|f c|f|t c|t g s p o|f k|t k|f|t|t d|f|a|p v|p|f|t]; cbn [step callOf] in *; try done;
    try (by injection Hs as <-; apply posts_nothing).
  - by apply subgroupCall_posts.
  - by apply fetchCall_posts.
  - apply outcome_Some in Hs as [r Hs]. eapply posts_unlessFailed; [exact Hs|]. intros x Hx E. unfold windowClosed. rewrite Hx.
    cbn beta in E. destruct (windowOpen x); injection E as -> ->; cbn; [by apply posts_nothing|by apply posts_call].
  - by apply trackCall_posts.
  - apply outcome_Some in Hs as [r Hs]. eapply posts_track; [exact Hs|]. by apply posts_call.
  - injection Hs as <-. destruct (made_dropRef f (update f drop_source w)).
    apply posts_small; [done..|]. by eapply small_after; [|apply small_dropRef].
  - injection Hs as <-. destruct (made_collectTrack t (updateTrack t drop_t_source w)).
    apply posts_small; [done..|]. by eapply small_after; [|apply small_collectTrack].
  - injection Hs as <-. destruct (made_dropRef f (deactivate f w)).
    apply posts_small; [done..|]. by eapply small_after; [|apply small_dropRef].
  - injection Hs as <-. unfold downstreamReady. destruct (readies w !! p) as [r|]; [|by apply posts_nothing].
    case_test; [|by apply posts_nothing]. by apply (posts_other w _ (ThenReady (p_filter r) p v)).
  - unfold continueReady in Hs. destruct (readies w !! p) as [r|]; [|by injection Hs as <-; apply posts_nothing].
    destruct (p_value r), (p_continued r); try (by injection Hs as <-; apply posts_nothing).
    destruct (filters w !! p_filter r) as [x|]; [|by injection Hs as <-; apply posts_nothing].
    repeat case_test_in Hs; try done; by injection Hs as <-; apply posts_nothing.
  - apply outcome_Some in Hs as [r Hs]. assert (Hp : posts w w' (if errorSeen f w then [] else [])); [|by destruct (errorSeen f w)].
    eapply posts_unlessFailed; [exact Hs|]. intros x _ [= -> _]. by apply posts_nothing.
  - apply outcome_Some in Hs as [r Hs]. assert (Hp : posts w w' (if trackErrorSeen t w then [] else [])); [|by destruct (trackErrorSeen t w)].
    eapply posts_track; [exact Hs|]. by apply posts_nothing.
Qed.
(** A whole run. *)
Lemma run_posts es w w' :
  run es w = Some w' -> Forall (fun c => isCall c.1 = true) (made w) ->
  List.filter isCall (posted w') = List.filter isCall (posted w) ++ sourceCalls es w /\
  Forall (fun c => isCall c.1 = true) (made w').
Proof.
  revert w. induction es as [|e es IH]; intros w; cbn [run sourceCalls]; [by intros [= <-]; rewrite app_nil_r|].
  destruct (step e w) as [w1|] eqn:Es; [|done]. cbn [mbind option_bind]. intros Hr Hm.
  assert (H1 : List.filter isCall (posted w1) = List.filter isCall (posted w) ++ callOf e w /\ Forall (fun c => isCall c.1 = true) (made w1)).
  { assert (Hp := step_posts e w w1 Es).
    destruct e; try (by destruct Hp as [-> ->]). cbn [step callOf] in *. rewrite app_nil_r. split; [by eapply runNext_posts|].
    destruct (queue w) as [|l q] eqn:Hq; [unfold runNext in Es; rewrite Hq in Es; by injection Es as <-|].
    destruct (runNext_made a w w1 l q Hq Es) as [->|[Hl ->]]; [done|]. by apply Forall_app_2, Forall_singleton. }
  destruct H1 as [Hc Hm1]. destruct (IH w1 Hr Hm1) as [-> ?]. split; [|done]. by rewrite Hc, <- app_assoc.
Qed.
Lemma carries_isCall f l : carries f l = true -> isCall l = true.
Proof. unfold carries. by destruct l; cbn; rewrite ?andb_false_r. Qed.
Lemma filter_carries_calls f l : List.filter (carries f) (List.filter isCall l) = List.filter (carries f) l.
Proof.
  induction l as [|c l IH]; [done|]. cbn. destruct (isCall c) eqn:E; cbn; [by rewrite IH|].
  destruct (carries f c) eqn:Ec; [by rewrite (carries_isCall _ _ Ec) in E|done].
Qed.
Lemma sublist_filter (p : Closure -> bool) l k : l `sublist_of` k -> Forall (fun c => p c = true) l -> l `sublist_of` List.filter p k.
Proof.
  induction 1 as [|c l k _ IH|c l k _ IH]; intros Hl; cbn; [done| |].
  - apply Forall_cons in Hl as [-> Hl]. by apply sublist_skip, IH.
  - destruct (p c); [by apply sublist_cons, IH|by apply IH].
Qed.
Lemma postedCalls_run es w f : run es newWorld = Some w -> postedCalls f w = List.filter (carries f) (sourceCalls es newWorld).
Proof.
  intros Hr. destruct (run_posts es newWorld w Hr) as [Hc _]; [done|]. cbn in Hc. unfold postedCalls.
  by rewrite <- filter_carries_calls, Hc.
Qed.
End runs.

(** *** The window *)

(** Nothing, or the call that ends the stream and the resets after it. *)
Definition endingCalls (f : Z) (l : list Closure) : Prop :=
  match l with [] => True | c :: k => deactivates f c = true /\ Forall (fun r => resets f r = true) k end.
Lemma phase_split f g Q :
  phase f g Q -> exists before ending, Q = before ++ ending /\ Forall (fun l => deactivates f l = false) before /\ endingCalls f ending.
Proof.
  intros [A HA|A l K HA Hl HK|A K HA HK|K HK].
  - exists A, []. rewrite app_nil_r. split_and!; [done| |done]. eapply Forall_impl; [exact HA|]. apply plain_not_deactivates.
  - exists A, (l :: K). split_and!; [done| |done]. eapply Forall_impl; [exact HA|]. apply plain_not_deactivates.
  - exists (A ++ [GuardOf f]), K. rewrite <- app_assoc. split_and!; [done| |].
    + apply Forall_app_2; [eapply Forall_impl; [exact HA|]; apply plain_not_deactivates|]. apply Forall_singleton. unfold deactivates. by rewrite andb_false_r.
    + destruct HK as [|c K Hc HK]; [done|]. split; [by apply resets_deactivates|done].
  - exists [], K. split_and!; [done..|]. destruct HK as [|c K Hc HK]; [done|]. split; [by apply resets_deactivates|done].
Qed.
Lemma payload_counted f l : Forall (fun c => deactivates f c = false) l -> payload f l = bytes f l.
Proof.
  induction 1 as [|c l Hc _ IH]; [done|]. change (payloadOf f c + payload f l = countedBytes f c + bytes f l). rewrite IH. f_equal.
  destruct c as [|g []| | | | | | |]; cbn in *; try done; destruct finFetch; try done; unfold deactivates in Hc; cbn in Hc; by rewrite andb_true_r in Hc; rewrite Hc.
Qed.
Lemma bytes_mine f l : bytes f (mine f l) = bytes f l.
Proof.
  induction l as [|c l IH]; [done|]. change (bytes f (c :: l)) with (countedBytes f c + bytes f l). rewrite <- IH.
  unfold mine. cbn [List.filter]. destruct (about f c) eqn:E; [done|].
  destruct c as [|g []| | | | | | |]; cbn in *; try done; rewrite ?E; try done; by destruct finFetch.
Qed.
(** With no error in sight a call goes on. *)
Lemma unlessFailed_taken {A} f w x (k : Filter -> World * result Z A) :
  theFilter f w = Some x -> loadDeferredError (stores x) (seen x) = None -> unlessFailed f w k = Some (k x).
Proof. unfold unlessFailed. intros -> Hl. cbn. by rewrite Hl. Qed.
Lemma theFilter_known f w x : theFilter f w = Some x -> filters w !! f = Some x.
Proof. unfold theFilter. destruct (filters w !! f) as [y|]; [|done]. cbn. case_test; [by intros [= ->]|done]. Qed.

(** *** Errors *)

(** What every guarded call of a source does when it can see the error. *)
Lemma refused_call `{PublishErrorCodes} f w x code :
  inv w -> filters w !! f = Some x -> mayCall f w = true -> closedWith x = Some code -> code <> 0 -> seen x = length (stores x) ->
  exists w', postedCalls f w' = postedCalls f w /\ selfGuard_ <$> filters w' !! f = Some false /\
    forall A (k : Filter -> World * result Z A), unlessFailed f w k = Some (w', Err code).
Proof.
  intros I Hx Hm Hc H0 Hs. apply andb_prop in Hm as [Hh He%negb_true_iff]. destruct (holdsFilter_Some f w I Hh) as (x' & Hx' & _ & Ht).
  replace x' with x in * by congruence. assert (He' := He). rewrite ended_mine in He'.
  assert (Hst := fi_stores _ _ _ _ _ (fi_body _ _ _ _ _ (inv_filter _ I _ _ Hx)) He'). rewrite Hc in Hst.
  unfold unlessFailed, enqueueDeactivate. rewrite Ht. cbn. rewrite Hs, Hst. unfold loadDeferredError. cbn.
  rewrite (proj2 (Z.eqb_neq code 0)), He by done. cbn. eexists. split_and!; [..|by intros]; case_test.
  - unfold postedCalls, posted. cbn. rewrite app_assoc, List.filter_app. cbn. unfold carries at 2. cbn. by rewrite andb_false_r, app_nil_r.
  - done.
  - cbn. by rewrite lookup_alter_eq, Hx.
  - rewrite Hx. cbn. by rewrite Eb.
Qed.
Lemma refused_track_call t w y code {A} (k : World * result Z A) :
  inv w -> tracks w !! t = Some y -> t_source y = true -> last (t_stores y) = Some code -> code <> 0 ->
  t_seen y = length (t_stores y) -> track_unlessFailed t w k = Some (w, Err code).
Proof.
  intros I Hy Hs Hl H0 Hn. destruct (theTrack_Some t w I) as (y' & Hy' & _ & Ht); [unfold holdsTrackFilter; by rewrite Hy|].
  replace y' with y in * by congruence. unfold track_unlessFailed. rewrite Ht. cbn. unfold loadDeferredError.
  rewrite Hn, firstn_all, Hl. by rewrite (proj2 (Z.eqb_neq code 0)).
Qed.

(** ** The guarantees *)

(** (C8) Over any interleaving of sources that keep to the protocol with the
    target executor, whatever the consumers answer, no closure runs on a filter
    that is gone, the guard is never accessed from two threads at once, and the
    waits for readiness do not fail their check.  When the executor has nothing
    left to run, a filter whose source ended the stream or was told of an error,
    and dropped it, has been destroyed and its consumer released; so has a track
    filter that was dropped. *)
Theorem cross_exec_safe `{PublishErrorCodes} (es : list XEvent) :
  follows es newWorld = true -> totalBytes es < u64_modulus ->
  exists w, run es newWorld = Some w /\
    (queue w = [] ->
     (forall f x, filters w !! f = Some x -> source x = false -> finished f w = true ->
        alive x = false /\ downstream_ x = None /\ keepAlive_ x = None) /\
     (forall t y, tracks w !! t = Some y -> t_source y = false -> t_alive y = false)).
Proof.
  intros Hf Hb. destruct (run_new es Hf Hb) as (w & E & I & _). exists w. split; [done|]. intros Hq. split.
  - intros f x Hx Hs Hfin. assert (J := inv_filter _ I _ _ Hx). rewrite Hq in J. cbn in J.
    assert (Ha : alive x = false); [|by split; [|apply (fi_dead _ _ _ _ _ J)]].
    rewrite (fi_alive _ _ _ _ _ J). unfold held. rewrite Hs, !orb_false_r. destruct (selfGuard_ x) eqn:Eg; [|done].
    assert (Hr := fi_ran _ _ _ _ _ (fi_body _ _ _ _ _ J) Eg). unfold finished, posted in Hfin. rewrite Hq, app_nil_r in Hfin.
    rewrite (existsb_mine _ f) in Hfin by apply letsGo_about. congruence.
  - intros t y Hy Hs. assert (J := inv_track _ I _ _ Hy). rewrite Hq in J. cbn in J.
    destruct J as [? ? Hh ?|A ? ? ? E' ?|? ? ? ?]; [by rewrite Hs in Hh|by destruct A|done].
Qed.

(** (C12) What a consumer is called with is what its source called (read off the
    events: every call that the source made while it could not see an error, its
    resets, and its waits when the window is closed), with the same arguments, in
    the same order and from the start; over all filters and tracks the calls made
    downstream are a subsequence of the calls of the sources.  As long as the
    filter has not been closed no call is lost: each was delivered or still waits.
    When it has been closed the error has been stored where the source reads it. *)
Theorem cross_exec_delivery `{PublishErrorCodes} (es : list XEvent) (w : World) :
  follows es newWorld = true -> totalBytes es < u64_modulus -> run es newWorld = Some w ->
  map fst (made w) `sublist_of` sourceCalls es newWorld /\
  forall f x, filters w !! f = Some x ->
    let calls := List.filter (carries f) (sourceCalls es newWorld) in
    reached f w `prefix_of` calls /\
    match closedWith x with
    | None => calls = reached f w ++ waiting f w
    | Some code => code ∈ stores x
    end.
Proof.
  intros Hf Hb E. destruct (run_new es Hf Hb) as (w' & E' & I & _). replace w' with w in * by congruence. clear E'.
  destruct (run_posts es newWorld w E) as [Hc Hm]; [done|]. cbn in Hc. split.
  - rewrite <- Hc. apply sublist_filter; [by apply sublist_inserts_r, inv_order|by apply Forall_map].
  - intros f x Hx calls. subst calls. rewrite <- (postedCalls_run es w f E). destruct (inv_filter _ I _ _ Hx) as [B _ _].
    unfold postedCalls, waiting, posted. rewrite List.filter_app, <- (filter_carries_mine f (ran w)). split.
    + apply prefix_app_r. by eapply fi_prefix.
    + destruct (closedWith x) as [c|] eqn:Ec; [by eapply fi_told|]. by rewrite <- (fi_made _ _ _ _ _ B Ec).
Qed.


(** (C28) The executor comes to rest: once the sources are silent, it has nothing
    left to run after at most two closures for each one that waits. *)
Theorem executor_drains `{PublishErrorCodes} (es : list XEvent) (w : World) (answers : list Answer) :
  follows es newWorld = true -> totalBytes es < u64_modulus -> run es newWorld = Some w ->
  (2 * length (queue w) <= length answers)%nat ->
  exists w', run (map Runs answers) w = Some w' /\ queue w' = [].
Proof.
  intros Hf Hb E Hl. destruct (run_new es Hf Hb) as (w' & E' & I & _). replace w' with w in * by congruence.
  apply drains; [done|]. assert (H1 := weight_bound (queue w)). lia.
Qed.

(** (C29) An error of the consumer reaches its source: once the store of it is
    visible, every call of the subgroup or the fetch but a reset, the waits for
    readiness included, returns the code, posts no call, and lets the guard go.
    The same for a track filter whose consumer refused the alias: every call but
    the end of the track returns the code and does nothing else. *)
Theorem closed_source_told `{PublishErrorCodes} (es : list XEvent) (w : World) :
  follows es newWorld = true -> totalBytes es < u64_modulus -> run es newWorld = Some w ->
  (forall f x code, filters w !! f = Some x -> mayCall f w = true ->
     closedWith x = Some code -> code <> 0 -> seen x = length (stores x) ->
     exists w', postedCalls f w' = postedCalls f w /\ selfGuard_ <$> filters w' !! f = Some false /\
       (forall o p e fin, sub_object f o p e fin w = Some (w', Err code)) /\
       (forall o n p e, sub_beginObject f o n p e w = Some (w', Err code)) /\
       (forall p fin, sub_objectPayload f p fin w = Some (w', Err code)) /\
       (forall o, sub_endOfGroup f o w = Some (w', Err code)) /\
       (forall o, sub_endOfTrackAndGroup f o w = Some (w', Err code)) /\
       sub_endOfSubgroup f w = Some (w', Err code) /\
       sub_checkpoint f w = Some (w', Err code) /\
       sub_awaitReadyToConsume f w = Some (w', Err code) /\
       (forall g s o p e fin d, fetch_object f g s o p e fin d w = Some (w', Err code)) /\
       (forall g s o n p e, fetch_beginObject f g s o n p e w = Some (w', Err code)) /\
       (forall p fin, fetch_objectPayload f p fin w = Some (w', Err code)) /\
       (forall g s o fin, fetch_endOfGroup f g s o fin w = Some (w', Err code)) /\
       (forall g s o, fetch_endOfTrackAndGroup f g s o w = Some (w', Err code)) /\
       fetch_endOfFetch f w = Some (w', Err code) /\
       fetch_checkpoint f w = Some (w', Err code) /\
       (forall g o fin, fetch_endOfUnknownRange f g o fin w = Some (w', Err code)) /\
       fetch_awaitReadyToConsume f w = Some (w', Err code)) /\
  (forall t y code, tracks w !! t = Some y -> t_source y = true ->
     last (t_stores y) = Some code -> code <> 0 -> t_seen y = length (t_stores y) ->
     (forall alias, track_setTrackAlias t alias w = Some (w, Err code)) /\
     (forall g s p o, track_beginSubgroup t g s p o w = Some (w, Err code)) /\
     track_awaitStreamCredit t w = Some (w, Err code) /\
     (forall h p b, track_objectStream t h p b w = Some (w, Err code)) /\
     (forall h p b, track_datagram t h p b w = Some (w, Err code))).
Proof.
  intros Hf Hb E. destruct (run_new es Hf Hb) as (w' & E' & I & _). replace w' with w in * by congruence. clear E'. split.
  - intros f x code Hx Hm Hc H0 Hs. destruct (refused_call f w x code I Hx Hm Hc H0 Hs) as (w1 & ? & ? & Hall).
    exists w1. split_and!; [done|done|..]; intros; apply Hall.
  - intros t y code Hy Hs Hl H0 Hn. split_and!; intros; by apply (refused_track_call t w y).
Qed.

(** ** Examples *)
#[local] Instance exampleCodes : PublishErrorCodes := {| WRITE_ERROR := 1; CANCELLED := 2; BLOCKED := 4 |}.

(** A subgroup through track filter 0 and a fetch through filter 2, each ended and
    dropped, with the executor between them. *)
Definition twoStreams : list XEvent :=
  [NewTrack (Some 100); TrackBegins 0 7 0 128 0; NewFetch 300; SubgroupCalls 1 (SObject 0 (Some [Byte.x01]) 0 false);
   FetchCalls 2 (FObject 7 0 0 (Some [Byte.x01; Byte.x02]) 0 false false); Runs (Accepts 200); DropsTrack 0;
   SubgroupCalls 1 SEndOfSubgroup; Runs (Accepts 0); Drops 1; FetchCalls 2 FEndOfFetch; Drops 2].
Definition allAccept : list Answer := repeat (Accepts 0) 12.

(** A fetch whose consumer refuses the second object, and whose source has seen
    that. *)
Definition refusedFetch : list XEvent :=
  [NewFetch 300; FetchCalls 0 (FObject 7 0 0 None 0 false false); FetchCalls 0 (FObject 7 0 1 None 0 false false);
   Runs (Accepts 0); Runs (Refuses 1); Sees 0 1].

Definition worldAfter (es : list XEvent) : World := default newWorld (run es newWorld).

Lemma cross_exec_safe_witness :
  follows (twoStreams ++ map Runs allAccept) newWorld = true /\
  exists w, run (twoStreams ++ map Runs allAccept) newWorld = Some w /\
    (queue w = [] ->
     (forall f x, filters w !! f = Some x -> source x = false -> finished f w = true ->
        alive x = false /\ downstream_ x = None /\ keepAlive_ x = None) /\
     (forall t y, tracks w !! t = Some y -> t_source y = false -> t_alive y = false)).
Proof. split; [vm_compute; reflexivity|]. apply cross_exec_safe; vm_compute; reflexivity. Defined.
(** There nothing is left. *)
Example twoStreams_end :
  let w := worldAfter (twoStreams ++ map Runs allAccept) in
  queue w = [] /\ finished 1 w = true /\ finished 2 w = true /\ length (made w) = 5%nat /\ released w = [100; 200; 100; 300].
Proof. vm_compute. by split_and!. Qed.

Lemma cross_exec_delivery_witness :
  length (sourceCalls twoStreams newWorld) = 5%nat /\
  map fst (made (worldAfter twoStreams)) `sublist_of` sourceCalls twoStreams newWorld /\
  forall f x, filters (worldAfter twoStreams) !! f = Some x ->
    let calls := List.filter (carries f) (sourceCalls twoStreams newWorld) in
    reached f (worldAfter twoStreams) `prefix_of` calls /\
    match closedWith x with
    | None => calls = reached f (worldAfter twoStreams) ++ waiting f (worldAfter twoStreams)
    | Some code => code ∈ stores x
    end.
Proof. split; [vm_compute; reflexivity|]. apply (cross_exec_delivery twoStreams); vm_compute; reflexivity. Defined.

(** A fetch with one object and its last one waiting. *)
Definition finWaits : list XEvent :=
  [NewFetch 300; FetchCalls 0 (FObject 7 0 0 (Some [Byte.x01; Byte.x02]) 0 false false);
   FetchCalls 0 (FObject 7 0 1 (Some [Byte.x03]) 0 true false)].
Lemma executor_drains_witness : exists w', run (map Runs allAccept) (worldAfter twoStreams) = Some w' /\ queue w' = [].
Proof. apply (executor_drains twoStreams); [vm_compute; reflexivity..|]. apply Nat.leb_le. vm_compute. reflexivity. Defined.
Lemma closed_source_told_witness :
  exists w', fetch_awaitReadyToConsume 0 (worldAfter refusedFetch) = Some (w', Err 1) /\
    fetch_endOfFetch 0 (worldAfter refusedFetch) = Some (w', Err 1) /\ selfGuard_ <$> filters w' !! 0 = Some false.
Proof.
  assert (H1 : follows refusedFetch newWorld = true) by (vm_compute; reflexivity).
  assert (H2 : run refusedFetch newWorld = Some (worldAfter refusedFetch)) by (vm_compute; reflexivity).
  assert (H3 : totalBytes refusedFetch < u64_modulus) by (vm_compute; reflexivity).
  set (x := default track_newSubgroup (filters (worldAfter refusedFetch) !! 0)).
  destruct (proj1 (closed_source_told refusedFetch (worldAfter refusedFetch) H1 H3 H2) 0 x 1) as (w' & H4);
    [vm_compute; reflexivity..|done|vm_compute; reflexivity|].
  exists w'. tauto.
Defined.

(** A source that drops a fetch after the consumer refused a call, and makes no
    further call, leaves the filter behind: nothing releases its guard. *)
Lemma closed_filter_left_behind :
  let es := [NewFetch 300; FetchCalls 0 (FObject 7 0 0 None 0 false false); Runs (Refuses 1); Drops 0] in
  follows es newWorld = true /\ queue (worldAfter es) = [] /\ alive <$> filters (worldAfter es) !! 0 = Some true.
Proof. vm_compute. by split_and!. Qed.
